(* ===== verification/_CoqProject ===== *)
-Q . S2P
Prelude.v
RustStr.v
Paths.v
Types.v
StateTypes.v
StateDb.v
StateDbSpec.v
StateLaws.v
StateMeta.v
StateLife.v
Filter.v
FilterSpec.v
Collision.v
Retry.v
Selection.v
Stats.v
Enumeration.v
Cloudkit.v
Fetcher.v
FetcherSpec.v
Delta.v
DeltaSpec.v
CrossZone.v
CrossZoneSpec.v
Checkpoint.v
Finalize.v
FinalizeSpec.v
Planner.v
PlannerSpec.v
StateReads.v
Context.v
ContextSpec.v
Albums.v
AlbumsSpec.v
HeifBox.v
HeifItems.v
Tiff.v
HeifExif.v
Content.v
Disk.v
Publish.v
PublishSpec.v
Transfer.v
TransferSpec.v
Cycle.v
CycleSpec.v
CycleClean.v
Source.v
Hydrate.v
SourceSpec.v
SourceDb.v
OnDisk.v
UrlRefresh.v
Incremental.v
IncrementalSpec.v
Producer.v
ProducerSpec.v
PassRun.v
Outcome.v
PassRunSpec.v
Call.v
Passes.v
PassesSpec.v
FullPass.v
FullPassSpec.v
PendingRetry.v
PendingRetrySpec.v
Asset.v
AssetSpec.v
Lookup.v
LookupSpec.v
CaptureRepair.v
CaptureRepairSpec.v
Engine.v
EngineSpec.v
Watch.v
AuthRetry.v
AuthRetrySpec.v
SyncLoop.v
SyncLoopSpec.v
