(* ===== verification/Prelude.v ===== *)
(** * kei: a verification development of the iCloud Photos backup engine

    kei (crate [src/src]) downloads a user's iCloud photo library into a
    directory tree.  A sync cycle ([sync_cycle.rs]) resolves the selected
    libraries, albums and smart folders into passes; each pass enumerates
    CloudKit records ([icloud/photos]) and hands assets to the download
    engine ([download/mod.rs], [download/pipeline.rs]), which filters them
    and derives their paths ([download/filter.rs], [download/paths.rs]),
    transfers the files ([download/file.rs], with [retry.rs]) and repairs
    their embedded capture time ([download/heif.rs]).  When the enumeration
    of a zone is proved complete, the zone's sync token becomes the next
    checkpoint; the sync loop ([sync_loop.rs]) runs cycle after cycle and keeps
    a token of the whole database with which quiet cycles are skipped.

    ** Files

    - [Prelude.v] (this file): machine integers with their overflow
      behaviour, the result monad, slices of lists and their frame lemmas,
      tactics ([invert_ok], [zbool]) and the hint database [kei].
    - [RustStr.v]: Rust strings as lists of code points with their UTF-8
      lengths, the [str] operations the source calls, decimal numbers, and
      Unix paths as [std::path::Path] reads them.
    - [Paths.v] ([download/paths.rs]): folder templates, file-name cleaning,
      suffixes, AM/PM variants; Module [DirCache] is the directory cache with
      its state record [t] and one definition per method.
    - [Types.v] ([types.rs], [state/types.rs], parts of [config.rs],
      [commands/service.rs] and [icloud/photos]): the shared enums and records.
    - [Filter.v] ([download/filter.rs]): content filters, the RAW policy,
      version selection, derived paths, collision resolution and
      [filter_asset_to_tasks], whose state ([FilterState]) threads the claimed
      paths and the cache the source mutates.  [FilterSpec.v] and
      [Collision.v] hold its theorems.
    - [Retry.v] ([retry.rs], [download/error.rs], [download_file_with_mode],
      [classify_download_task_error]): the backoff, the retry loop as a
      function from the outcomes of the attempts to a result and a trace of
      events, the error predicates.
    - [Selection.v] ([selection.rs]): the parsers of [--album],
      [--smart-folder] and [--library] and their inverses.
    - [Stats.v] ([download/mod.rs], [download/recap.rs]): run statistics,
      rate-limit pressure, blocked-token reasons, the recap.
    - [Checkpoint.v] ([sync_cycle.rs], the token part of
      [download_photos_full_with_token_policy]): pass tokens, zone evidence,
      same-cycle recovery, [source_checkpoint_decision].
    - [Enumeration.v], [Cloudkit.v], [Fetcher.v] ([icloud/photos/album.rs],
      [cloudkit.rs], [asset.rs]): the rank ranges of a full enumeration, the
      records a page holds, and one fetcher task ([fetch_step] is an iteration
      of its loop) with the sync token of the pass.  [FetcherSpec.v]: its
      theorems.
    - [StateTypes.v], [StateDb.v] ([state/types.rs], [state/db.rs],
      [state/schema.rs]): the SQLite tables as finite maps and one definition
      per operation.  [StateDbSpec.v] makes the operations one transition
      function [exec] over [Op] with its invariant [db_ok]; [StateLaws.v] and
      [StateMeta.v] hold the laws; [StateLife.v] the abstract machine the
      store refines.
    - [Finalize.v] ([download/finalize.rs], the consumer loop of
      [download/pipeline.rs]): recording of finished downloads against the
      interface [DownloadFinalizationStore]; the SQLite store behind transient
      faults implements it ([FinalizeSpec.v]).
    - [Planner.v] ([download/planner.rs]): planning of an asset's tasks across
      a pass, and their announcement to the store; [PlannerSpec.v].
    - [StateReads.v], [Context.v] ([state/db.rs], [DownloadContext] of
      [download/mod.rs]): the listings a sync preloads and the decisions taken
      on them; [ContextSpec.v].
    - [Albums.v] ([state/db.rs]): album containers, membership snapshots and
      memberships; [AlbumsSpec.v].
    - [CrossZone.v] ([album.rs]): the whole stream of a pass, with the task
      that looks for album members in the change logs of other zones;
      [CrossZoneSpec.v].
    - [Delta.v] ([icloud/photos/asset.rs], [album.rs]): the record buffer of
      the change stream and its request loop; [DeltaSpec.v].
    - [Asset.v] ([icloud/photos/asset.rs], [metadata.rs], [enc.rs]): from a
      pair of provider records to an asset, its versions and its metadata;
      [AssetSpec.v].  [Lookup.v] ([album.rs]): lookups of records by name, in
      batches; [LookupSpec.v].
    - [Content.v], [Disk.v], [Publish.v], [Transfer.v] ([download/file.rs],
      [fs_util.rs]): the checks on downloaded bytes, a disk other processes
      share, publication with and without replacement, and the resumable
      transfer; [PublishSpec.v], [TransferSpec.v].
    - [Cycle.v] ([sync_cycle.rs]): one sync cycle over the selected libraries
      against the interface of a token table; [CycleSpec.v]: where its tokens
      come from; [CycleClean.v]: what a cycle has done that lets the database
      token advance.
    - [Watch.v], [SyncLoop.v] ([sync_loop.rs]): the pre-check of a watch cycle
      and the loop of a process; [SyncLoopSpec.v], which also discharges for the
      real cycle what the loop relies on.  [AuthRetry.v] ([sync_loop.rs],
      [commands/service.rs]): the retries around authentication;
      [AuthRetrySpec.v].
    - [Passes.v] ([commands/service.rs], [icloud/photos/library.rs],
      [smart_folders.rs]): the libraries of a run, their albums and smart
      folders, and the plan of passes; [PassesSpec.v].
    - [Call.v]: the monad of the engine, a store with errors and with fuel.
      [FullPass.v], [PendingRetry.v], [CaptureRepair.v] and [Engine.v]
      ([download/mod.rs], [download/retry.rs]): a full enumeration over all
      passes, the retry of pending rows, the refresh of captured metadata, and
      the run for a library that puts them together; a [Spec] file each.
    - [Source.v], [Hydrate.v], [OnDisk.v], [UrlRefresh.v], [Incremental.v]
      ([download/mod.rs], [download/pipeline.rs]): an incremental sync, from
      change events to a checkpoint: store updates, missing halves of assets,
      files already on disk, fresh URLs, and the collecting path.
      [SourceSpec.v]: which failed writes are reported; [SourceDb.v]: the
      SQLite model as an instance of the interfaces; [IncrementalSpec.v], where
      also the recorded downloads meet the files on disk.
    - [Producer.v], [PassRun.v], [Outcome.v] ([download/pipeline.rs],
      [build_retry_download_tasks]): the producer of a full download, the
      producer interleaved with the consumer of finished transfers (its
      [World]), and the outcome with the cleanup pass.  [ProducerSpec.v],
      [PassRunSpec.v].
    - [HeifBox.v], [HeifItems.v] ([download/heif.rs]): ISO-BMFF boxes and the
      item tables of the [meta] box; [Tiff.v], [HeifExif.v]: the TIFF data of
      the Exif item and the in-place repair of the capture time.

    The definitions keep the source's names; a record projection or a
    constructor that would clash carries a prefix ([te_start], [LPSkip]).

    ** What the theorems show

    - Paths ([Paths.v]): whatever the template and the names contain, a
      download path stays under the download directory, up to a file named
      [..]; cleaning is idempotent and bounded; the suffix family is
      recognised exactly; the cache answers from the listing.
    - Filtering ([FilterSpec.v]): the content filter as one formula; the early
      skip gate selects exactly the versions the derivation writes; no url is
      fetched twice for an asset; the RAW policy is an exchange.
    - Collisions ([Collision.v]): resolution never answers a path that is on
      disk or claimed; the tasks of a pass never share a file; resolution
      terminates when the suffixes fit in a file name, and never returns for a
      255-byte name whose path is taken.
    - Retry ([Retry.v]): the loop returns after at most [max_retries + 1]
      attempts with the outcome of the last one; the delay is the saturating
      exponential; which errors are never retried.
    - Selection ([Selection.v]): parsing what [to_raw] writes gives the
      selection back; parsed selections are free of contradictions.
    - Statistics and checkpoints ([Stats.v], [Checkpoint.v]): merging
      statistics hides no problem; a zone token is produced only with proof
      from every pass; a missing token is always reported; the checkpoint
      advances exactly in the safe case.
    - Enumeration ([Enumeration.v], [FetcherSpec.v], [CrossZoneSpec.v]): the
      ranges of a plan partition the ranks; a fetcher stays within its limit and sends an asset once; the stream of a pass
      returns whatever the provider answers, each fetcher within a bound of
      requests; a token of the stream stands for records that were all read and
      handed on, members from other zones included.
    - Assets and lookups ([AssetSpec.v], [LookupSpec.v]): bytes are only fetched
      from the provider's content hosts; every advertised resource is a version
      or is reported; a deletion is believed only on the provider's word, and a
      lookup answers for the identity that was asked for.
    - State store ([StateLaws.v], [StateMeta.v], [StateLife.v]): a finished
      download stays known while the provider reports its checksum, and a
      prepared repair survives until it is published, replaced or the checksum
      changes; every stored receipt can be decoded; retries, promotions and
      deletions change exactly their rows; each operation is a step of the
      abstract life of a version.
    - Recording ([FinalizeSpec.v]): a finished transfer is recorded or still
      deferred when the run ends; a flush drops only acknowledged writes; the
      retry of a write outlasts short faults.
    - Planning ([PlannerSpec.v]): no two tasks of a pass share a destination;
      the destination of a recorded retry is free and is found; an announced
      task can be finalised whatever the store does in between.
    - Context and identities ([ContextSpec.v], [IncrementalSpec.v]): the
      preloaded context agrees with the store; a recorded download is listed
      again only for an empty or changed checksum or a missing file; no two
      assets of a pass share an identity, and a legacy row has one owner.
    - Albums ([AlbumsSpec.v]): a completed snapshot replaces the membership of
      its album.
    - Change stream ([DeltaSpec.v]): a sync token is handed out only when every
      record of the log was emitted or reported.
    - Transfer and publication ([TransferSpec.v], [PublishSpec.v]): however
      often a download is resumed, a published file is the content the provider
      serves; no call of a publication destroys bytes another process put in
      the way, where every call of the disk logs what its effect makes
      disappear.
    - Plans ([PassesSpec.v]): the plan of a library is its selection, and a
      named album or folder that does not exist is an error; the libraries of a
      run have folders of their own.
    - Incremental sync ([IncrementalSpec.v]), full enumeration
      ([FullPassSpec.v]) and engine ([EngineSpec.v]): an advanced token leaves
      no change behind that was not applied or reported (with [--recent], of
      the downloads that are kept); every selected pass proved the token of a
      full enumeration; the token of a combined run is that of one of its runs,
      and a success means that every part succeeded.
    - Pending rows ([PendingRetrySpec.v]) and captured metadata
      ([CaptureRepairSpec.v]): every pending version is accounted for; a stale
      asset is refreshed, deleted at the source, or holds the checkpoint.
    - Cycle ([CycleSpec.v], [CycleClean.v]) and loop ([SyncLoopSpec.v]): every
      token a cycle leaves behind was in the store before for the same
      configuration, or was returned by a run of the engine for that very zone
      which started from such a token or from none; a cycle that lets the database token advance ran every library with passes; a database
      token in the store, and a cycle skipped because of it, leave no change of
      such a library behind.
    - Authentication retries ([AuthRetrySpec.v]): the waits for a second factor
      and for the session lock end.
    - Streaming download ([ProducerSpec.v], [PassRunSpec.v]): every asset of a
      complete enumeration is skipped for a counted reason, forwarded or behind
      a counted error; however the producer and the transfers interleave, every
      task sent is under way or ended, and the failures recorded are exactly the
      ended transfers whose error is to be recorded, up to the authentication
      error that ends the pass; an outcome is a success only when nothing known
      went wrong.
    - HEIF ([HeifBox.v], [HeifItems.v], [HeifExif.v]): on every byte sequence
      the parsers return without panic; scanned boxes partition their range;
      integer fields and boxes read back as written; an accepted rewrite
      preserves every item but the XMP packet of the primary image; a repaired file reads back the repaired
      capture time and differs only in the two fields.

    ** Conventions, bounds and fuel

    Integers are [Z]; every operation whose overflow the source handles is
    written with its bound ([checked_add], [saturating_mul], ...), and a
    [usize] is 64 bits wide.  Slices out of range are the error [Panicked],
    so that their absence is proved, not assumed.  The loops without a
    structural bound take fuel.  The box scanner takes the length of the file:
    every box is at least 8 bytes long, so it never runs out
    ([scan_raw_boxes_partitions]).  The walk over linked TIFF directories takes
    the source's own bound of 64.  The loop over
    collision ordinals is unbounded in the source: fuel
    [N + #claimed + 7] is enough when the suffixes fit
    ([filter_asset_to_tasks_returns]), and no fuel is enough otherwise
    ([full_length_name_never_resolves]); the planner's loop over the ordinals
    of a recorded retry is the same ([recorded_retry_returns]).  A fetcher's
    loop ends because pages without a new asset are counted: the bound on its
    requests is a bound on its fuel ([photo_stream_returns]).  A deferred write is tried
    [STATE_WRITE_MAX_RETRIES] times.  The loops of the sync process run for ever
    in the source; they take as many rounds as the fuel says, and what is proved
    of them holds after every round.

    What the source takes from other crates or from the machine is a
    parameter: the class [PathEnv] ([strftime], SHA-256, base64, directory
    listings, hash order), the class [FilterEnv] (globs, time zones, JSON), the
    class [JsonEnv] (accessors of a JSON record), the class [StateEnv]
    (metadata digest, foreign keys, the range of instants), the [World] of a
    fetcher (the provider's answers, the consumer, the other fetchers), the
    outcome of a download attempt, the jitter, and what running a pass again
    yields; the classes [DeltaEnv], [DiskEnv], [Sha], [Codecs], [AnchorJson],
    [IndexOrder] and [FileHashes] (responses of the change stream, the disk,
    digests, text codecs, JSON of the inventory anchor, hash order, hashes of
    files), [AssetEnv] (JSON, base64, property lists, URLs), [ScopeJson],
    [NameCodecs], [FileSizes] (JSON of the pre-check, codecs of folder names,
    sizes of files), [ErrorDowncast] and [AuthDowncast] (what an error is
    underneath), [AuthFiles] (the files of the session); in [PassRun.v] the
    completions of transfers and their order.
    The calls of the store are classes with the model of the SQLite store,
    behind transient faults, as their instance; so have those of the
    engine ([PendingRetryStore], [CaptureStore], [EngineStore]); those of the
    sync loop ([PrecheckStore], [RunLedger]) are interfaces, instantiated in its
    witnesses.  Logging and progress output are left out.

    ** Not modelled

    The streaming HEIF reader and the insertion of XMP items; of the state
    store, sync runs, temporary-file claims, summaries and the migrations; of
    the engine, the incremental sync that streams over a single unfiled pass,
    the rewrite of metadata and of embedded metadata, catalog reconciliation,
    the bandwidth limiter and the removal of orphaned part files; requests to
    CloudKit and the session, authentication itself (SRP), startup and
    configuration files, commands, services, metrics and presentation, which
    are input and output through other crates. *)
From stdpp Require Export base tactics decidable list gmap sets strings.
From Stdlib Require Export ZArith Lia.

#[export] Set Default Goal Selector "!".
#[global] Open Scope Z_scope.

(** ** Machine integers

    Rust's [u8], [u16], [u32], [u64] and [usize] (64-bit targets) are
    values of [Z]; every operation whose overflow the source handles
    ([checked_add], [saturating_mul], ...) is written out with its bound. *)

Definition U16_MAX : Z := 65535.
Definition U32_MAX : Z := 4294967295.
Definition U64_MAX : Z := 18446744073709551615.
Definition USIZE_MAX : Z := U64_MAX.

Definition checked_add (bound a b : Z) : option Z :=
  if a + b <=? bound then Some (a + b) else None.
Definition checked_sub (a b : Z) : option Z :=
  if b <=? a then Some (a - b) else None.
Definition checked_mul (bound a b : Z) : option Z :=
  if a * b <=? bound then Some (a * b) else None.
Definition saturating_add (bound a b : Z) : Z := Z.min bound (a + b).
Definition saturating_mul (bound a b : Z) : Z := Z.min bound (a * b).
(** [u64] addition in a release build: wraps modulo 2^64. *)
Definition wrapping_add_u64 (a b : Z) : Z := (a + b) mod (U64_MAX + 1).
(** [T::try_from(v)] for a target type with maximum [bound]. *)
Definition try_from (bound v : Z) : option Z := if v <=? bound then Some v else None.

Lemma checked_add_Some bound a b c :
  checked_add bound a b = Some c ↔ c = a + b ∧ a + b <= bound.
Proof. unfold checked_add. destruct (Z.leb_spec (a + b) bound); split; intros; destruct_and?; simplify_eq; split_and?; (lia || done). Qed.

Lemma checked_sub_Some a b c : checked_sub a b = Some c ↔ c = a - b ∧ b <= a.
Proof. unfold checked_sub. destruct (Z.leb_spec b a); split; intros; destruct_and?; simplify_eq; split_and?; (lia || done). Qed.

Lemma checked_mul_Some bound a b c :
  checked_mul bound a b = Some c ↔ c = a * b ∧ a * b <= bound.
Proof. unfold checked_mul. destruct (Z.leb_spec (a * b) bound); split; intros; destruct_and?; simplify_eq; split_and?; (lia || done). Qed.

Lemma try_from_Some bound v w : try_from bound v = Some w ↔ w = v ∧ v <= bound.
Proof. unfold try_from. destruct (Z.leb_spec v bound); split; intros; destruct_and?; simplify_eq; split_and?; (lia || done). Qed.

(** ** Results

    [Result<A, E>] with the monadic bind the source spells [?]. *)

Inductive result (E A : Type) : Type :=
| Ok (a : A)
| Err (e : E).
Arguments Ok {E A} a.
Arguments Err {E A} e.

#[export] Instance result_ret E : MRet (result E) := λ A a, Ok a.
#[export] Instance result_bind E : MBind (result E) := λ A B f r,
  match r with Ok a => f a | Err e => Err e end.
#[export] Instance result_fmap E : FMap (result E) := λ A B f r,
  match r with Ok a => Ok (f a) | Err e => Err e end.

Definition ok_or {E A} (e : E) (o : option A) : result E A :=
  match o with Some a => Ok a | None => Err e end.
Definition ok {E A} (r : result E A) : option A :=
  match r with Ok a => Some a | Err _ => None end.
Definition is_ok {E A} (r : result E A) : bool :=
  match r with Ok _ => true | Err _ => false end.
(** [anyhow::ensure!(c, e)] / [if !c { return Err(e) }]. *)
Definition ensure {E} (c : bool) (e : E) : result E unit :=
  if c then Ok tt else Err e.

Lemma bind_Ok {E A B} (f : A → result E B) r b :
  (r ≫= f) = Ok b ↔ ∃ a, r = Ok a ∧ f a = Ok b.
Proof. destruct r; cbn; naive_solver. Qed.

Lemma ok_or_Ok {E A} (e : E) (o : option A) a : ok_or e o = Ok a ↔ o = Some a.
Proof. destruct o; cbn; naive_solver. Qed.

Lemma ensure_Ok {E} c (e : E) u : ensure c e = Ok u ↔ c = true.
Proof. destruct c, u; cbn; naive_solver. Qed.

(** [invert_ok] takes apart a hypothesis [r = Ok a] where [r] is a
    composition of binds, [ok_or]s and [ensure]s. *)
Ltac invert_ok_step :=
  match goal with
  | H : Ok _ = Ok _ |- _ => injection H as H
  | H : Err _ = Ok _ |- _ => discriminate H
  | H : Ok _ = Err _ |- _ => discriminate H
  | H : mbind _ _ = Ok _ |- _ => apply bind_Ok in H as (? & ? & H)
  | H : ok_or _ _ = Ok _ |- _ => apply ok_or_Ok in H
  | H : ensure _ _ = Ok ?u |- _ => apply ensure_Ok in H; try clear u
  | H : checked_add _ _ _ = Some _ |- _ => apply checked_add_Some in H as [H ?]
  | H : checked_sub _ _ = Some _ |- _ => apply checked_sub_Some in H as [H ?]
  | H : checked_mul _ _ _ = Some _ |- _ => apply checked_mul_Some in H as [H ?]
  | H : try_from _ _ = Some _ |- _ => apply try_from_Some in H as [H ?]
  | H : _ ∧ _ |- _ => destruct H
  | H : ∃ _, _ |- _ => destruct H
  end.
Ltac invert_ok := repeat (invert_ok_step; cbn beta in *); subst.

(** Boolean comparisons of [Z] as propositions. *)
Ltac zbool :=
  repeat match goal with
  | H : (_ && _)%bool = true |- _ => apply andb_true_iff in H as [? ?]
  | H : (_ || _)%bool = false |- _ => apply orb_false_iff in H as [? ?]
  | H : negb _ = true |- _ => apply negb_true_iff in H
  | H : negb _ = false |- _ => apply negb_false_iff in H
  | H : (_ <? _) = true |- _ => apply Z.ltb_lt in H
  | H : (_ <? _) = false |- _ => apply Z.ltb_ge in H
  | H : (_ <=? _) = true |- _ => apply Z.leb_le in H
  | H : (_ <=? _) = false |- _ => apply Z.leb_gt in H
  | H : (_ =? _) = true |- _ => apply Z.eqb_eq in H
  | H : (_ =? _) = false |- _ => apply Z.eqb_neq in H
  end.

(** ** Lists indexed by [usize] *)

Abbreviation zlen l := (Z.of_nat (length l)).

(** [slice.get(a..b)]. *)
Definition get_range {A} (l : list A) (a b : Z) : option (list A) :=
  if (0 <=? a) && (a <=? b) && (b <=? zlen l)
  then Some (take (Z.to_nat (b - a)) (drop (Z.to_nat a) l)) else None.
(** [slice.get(a..)]. *)
Definition get_from {A} (l : list A) (a : Z) : option (list A) := get_range l a (zlen l).
(** [slice.get(i)]. *)
Definition get_at {A} (l : list A) (i : Z) : option A :=
  if 0 <=? i then l !! Z.to_nat i else None.
(** [slice.get_mut(a..a + v.len())?.copy_from_slice(v)]. *)
Definition put_range {A} (l : list A) (a : Z) (v : list A) : option (list A) :=
  if (0 <=? a) && (a + zlen v <=? zlen l)
  then Some (take (Z.to_nat a) l ++ v ++ drop (Z.to_nat a + length v) l) else None.

Lemma get_range_Some {A} (l : list A) a b s :
  get_range l a b = Some s ↔
  0 <= a <= b ∧ b <= zlen l ∧ s = take (Z.to_nat (b - a)) (drop (Z.to_nat a) l).
Proof.
  unfold get_range.
  destruct (Z.leb_spec 0 a), (Z.leb_spec a b), (Z.leb_spec b (zlen l));
    cbn; split; intros; destruct_and?; simplify_eq; split_and?; (lia || done).
Qed.

Lemma get_range_length {A} (l : list A) a b s :
  get_range l a b = Some s → zlen s = b - a.
Proof.
  intros (? & ? & ->)%get_range_Some. rewrite length_take, length_drop. lia.
Qed.

Lemma get_range_lookup {A} (l : list A) a b s i :
  get_range l a b = Some s → 0 <= i < b - a →
  s !! Z.to_nat i = l !! Z.to_nat (a + i).
Proof.
  intros (? & ? & ->)%get_range_Some ?.
  rewrite lookup_take_lt by lia. rewrite lookup_drop. f_equal; lia.
Qed.

Lemma get_range_is_Some {A} (l : list A) a b :
  0 <= a <= b → b <= zlen l → is_Some (get_range l a b).
Proof. intros. eexists. apply get_range_Some. eauto. Qed.

Lemma get_range_app_eq {A} (p v q : list A) a :
  a = zlen p → get_range (p ++ v ++ q) a (a + zlen v) = Some v.
Proof.
  intros ->. apply get_range_Some. rewrite !length_app. split_and!; [lia..|].
  rewrite Nat2Z.id, drop_app_length.
  replace (Z.to_nat (_ - _)) with (length v) by lia. by rewrite take_app_length.
Qed.

Lemma put_range_Some {A} (l : list A) a v l' :
  put_range l a v = Some l' ↔
  0 <= a ∧ a + zlen v <= zlen l ∧
  l' = take (Z.to_nat a) l ++ v ++ drop (Z.to_nat a + length v) l.
Proof.
  unfold put_range.
  destruct (Z.leb_spec 0 a), (Z.leb_spec (a + zlen v) (zlen l)); cbn; split; intros; destruct_and?; simplify_eq; split_and?; (lia || done).
Qed.

Lemma put_range_length {A} (l : list A) a v l' :
  put_range l a v = Some l' → length l' = length l.
Proof.
  intros (? & ? & ->)%put_range_Some.
  rewrite !length_app, length_take, length_drop. lia.
Qed.

Lemma put_range_outside {A} (l : list A) a v l' (i : nat) :
  put_range l a v = Some l' → (Z.of_nat i < a ∨ a + zlen v <= Z.of_nat i) →
  l' !! i = l !! i.
Proof.
  intros (? & ? & ->)%put_range_Some [?|?].
  - rewrite lookup_app_l by (rewrite length_take; lia). apply lookup_take_lt. lia.
  - rewrite lookup_app_r by (rewrite length_take; lia).
    rewrite length_take, lookup_app_r by lia.
    rewrite lookup_drop. f_equal. lia.
Qed.

Lemma put_range_inside {A} (l : list A) a v l' :
  put_range l a v = Some l' → get_range l' a (a + zlen v) = Some v.
Proof.
  intros (? & ? & ->)%put_range_Some. apply get_range_app_eq.
  rewrite length_take. lia.
Qed.

(** Two lists of the same length with the same elements at [a..b]. *)
Record agree {A} (a b : Z) (l l' : list A) : Prop := {
  agree_length : length l = length l';
  agree_at : ∀ i : nat, a <= Z.of_nat i < b → l !! i = l' !! i;
}.

Lemma agree_sub {A} a b c d (l l' : list A) : agree a b l l' → a <= c → d <= b → agree c d l l'.
Proof. intros [Hl Hat] ??. split; [done|]. intros i Hi. apply Hat. lia. Qed.

Lemma agree_get_range {A} a b c d (l l' : list A) :
  agree a b l l' → a <= c → d <= b → get_range l c d = get_range l' c d.
Proof.
  intros [Hl Hat] Hc Hd. unfold get_range. rewrite <- Hl.
  destruct (Z.leb_spec 0 c), (Z.leb_spec c d), (Z.leb_spec d (zlen l)); try done. cbn. f_equal.
  apply list_eq. intros i. destruct (decide (i < Z.to_nat (d - c))%nat).
  - rewrite !lookup_take_lt, !lookup_drop by done. apply Hat. lia.
  - rewrite !lookup_ge_None_2; [done|rewrite length_take; lia..].
Qed.

Lemma agree_trans {A} a b (l l' l'' : list A) : agree a b l l' → agree a b l' l'' → agree a b l l''.
Proof. intros [H1 H2] [H3 H4]. split; [congruence|]. intros i Hi. by rewrite H2, H4. Qed.

Lemma get_range_sub {A} (l s : list A) a b c d :
  get_range l a b = Some s → 0 <= c <= d → a + d <= b → get_range s c d = get_range l (a + c) (a + d).
Proof.
  intros Hs Hc Hd. pose proof (get_range_length _ _ _ _ Hs) as Hl. apply get_range_Some in Hs as (? & ? & ->).
  unfold get_range. rewrite Hl.
  rewrite !(proj2 (Z.leb_le _ _)) by lia. cbn. f_equal.
  apply list_eq. intros i. destruct (decide (i < Z.to_nat (d - c))%nat).
  - rewrite !lookup_take_lt by lia. rewrite !lookup_drop, lookup_take_lt by lia.
    rewrite lookup_drop. f_equal. lia.
  - rewrite !lookup_take_ge by lia. done.
Qed.

Lemma put_range_agree {A} (l : list A) a v l' c d :
  put_range l a v = Some l' → d <= a ∨ a + zlen v <= c → agree c d l l'.
Proof.
  intros Hp Hd. split; [by erewrite <- put_range_length|]. intros i Hi. symmetry.
  eapply put_range_outside; [done|]. lia.
Qed.

(** [iter().find] / [iter().any] on lists, executable. *)
Definition findb {A} (p : A → bool) (l : list A) : option A := List.find p l.

Lemma findb_Some {A} (p : A → bool) l x : findb p l = Some x → x ∈ l ∧ p x = true.
Proof. intros [Hin Hp]%List.find_some. by rewrite list_elem_of_In. Qed.

Lemma findb_None {A} (p : A → bool) l x : findb p l = None → x ∈ l → p x = false.
Proof. intros H Hin%list_elem_of_In. by apply (List.find_none _ _ H). Qed.

(** Membership test with decidable equality. *)
Definition memb {A} `{EqDecision A} (x : A) (l : list A) : bool := bool_decide (x ∈ l).

(** ** Hint database of the development *)
Create HintDb kei discriminated.
Create Rewrite HintDb kei.
#[export] Hint Rewrite @length_app @length_take @length_drop : kei.
#[export] Hint Resolve get_range_length put_range_length : kei.
