(* ===== verification/RustStr.v ===== *)
(** * Rust [str] and [Path]

    The standard-library string and Unix path operations the source uses,
    as executable functions.  A [&str] is the list of its Unicode scalar
    values; lengths in bytes are those of its UTF-8 encoding.  A [&Path]
    is the text it was built from, with [components], [file_name],
    [parent] and [join] as [std::path] defines them on Unix. *)
From S2P Require Import Prelude.
From Stdlib Require Import Ascii.

(** ** Text *)

Abbreviation str := (list Z).

Definition lit (s : string) : str := map (λ a, Z.of_N (N_of_ascii a)) (String.list_ascii_of_string s).

(** Bytes of one scalar value in UTF-8. *)
Definition len_utf8 (c : Z) : Z :=
  if c <? 128 then 1 else if c <? 2048 then 2 else if c <? 65536 then 3 else 4.
(** [str::len]. *)
Fixpoint str_len (s : str) : Z :=
  match s with [] => 0 | c :: s => len_utf8 c + str_len s end.

Definition is_ascii_char (c : Z) : bool := c <? 128.
Definition is_ascii (s : str) : bool := forallb is_ascii_char s.
(** [char::is_control]: general category Cc. *)
Definition is_control (c : Z) : bool := (c <? 32) || ((127 <=? c) && (c <? 160)).
(** [char::is_whitespace]: the Unicode White_Space property. *)
Definition is_whitespace (c : Z) : bool :=
  ((9 <=? c) && (c <=? 13)) || (c =? 32) || (c =? 133) || (c =? 160) || (c =? 5760)
  || ((8192 <=? c) && (c <=? 8202)) || (c =? 8232) || (c =? 8233) || (c =? 8239)
  || (c =? 8287) || (c =? 12288).

Definition ascii_lower (c : Z) : Z := if (65 <=? c) && (c <=? 90) then c + 32 else c.
Definition ascii_upper (c : Z) : Z := if (97 <=? c) && (c <=? 122) then c - 32 else c.
Definition to_ascii_lowercase (s : str) : str := map ascii_lower s.
Definition eq_ignore_ascii_case (a b : str) : bool :=
  bool_decide (to_ascii_lowercase a = to_ascii_lowercase b).

(** [a == b] on strings. *)
Definition str_eqb (a b : str) : bool := bool_decide (a = b).

Fixpoint strip_prefix (p s : str) : option str :=
  match p, s with
  | [], _ => Some s
  | a :: p, b :: s => if a =? b then strip_prefix p s else None
  | _ :: _, [] => None
  end.
Definition starts_with (p s : str) : bool := bool_decide (is_Some (strip_prefix p s)).
Definition ends_with_char (c : Z) (s : str) : bool :=
  match last s with Some d => d =? c | None => false end.
(** [s.contains(p)] for a string pattern. *)
Fixpoint contains (p s : str) : bool :=
  starts_with p s || match s with [] => false | _ :: s => contains p s end.

(** [s.replace(pat, to)] for a non-empty pattern: leftmost non-overlapping
    matches; [skip] counts the characters of a match still to consume. *)
Fixpoint replace_go (pat to : str) (skip : nat) (s : str) : str :=
  match s with
  | [] => []
  | c :: s' =>
      match skip with
      | S k => replace_go pat to k s'
      | O => if starts_with pat s then to ++ replace_go pat to (length pat - 1) s'
             else c :: replace_go pat to 0 s'
      end
  end.
Definition replace (pat to s : str) : str := replace_go pat to 0 s.

Fixpoint trim_start_matches (p : Z → bool) (s : str) : str :=
  match s with [] => [] | c :: s' => if p c then trim_start_matches p s' else s end.
Definition trim_matches (p : Z → bool) (s : str) : str :=
  rev (trim_start_matches p (rev (trim_start_matches p s))).
(** [str::trim]. *)
Definition trim (s : str) : str := trim_matches is_whitespace s.

(** [s.rsplit_once(c)]; [rfind]+[split_at] is [(stem, c :: ext)]. *)
Fixpoint rsplit_once (c : Z) (s : str) : option (str * str) :=
  match s with
  | [] => None
  | x :: s' =>
      match rsplit_once c s' with
      | Some (a, b) => Some (x :: a, b)
      | None => if x =? c then Some ([], s') else None
      end
  end.

(** [s.split(c)]. *)
Fixpoint split_char (c : Z) (s : str) : list str :=
  match s with
  | [] => [[]]
  | x :: s' =>
      if x =? c then [] :: split_char c s'
      else match split_char c s' with
           | seg :: rest => (x :: seg) :: rest
           | [] => [[x]]
           end
  end.

(** [&s[..s.floor_char_boundary(n)]]: the longest prefix of at most [n] bytes. *)
Fixpoint floor_prefix (n : Z) (s : str) : str :=
  match s with
  | [] => []
  | c :: s' => if len_utf8 c <=? n then c :: floor_prefix (n - len_utf8 c) s' else []
  end.

(** [&s[..cut]] with its [is_char_boundary] guard: [None] when [cut] is not
    a boundary or past the end. *)
Fixpoint prefix_at_boundary (cut : Z) (s : str) : option str :=
  if cut =? 0 then Some [] else
  match s with
  | [] => None
  | c :: s' => if len_utf8 c <=? cut then cons c <$> prefix_at_boundary (cut - len_utf8 c) s' else None
  end.

(** [str::as_bytes]: the UTF-8 encoding. *)
Definition utf8_encode_char (c : Z) : list Z :=
  if c <? 128 then [c]
  else if c <? 2048 then [192 + c / 64; 128 + c mod 64]
  else if c <? 65536 then [224 + c / 4096; 128 + (c / 64) mod 64; 128 + c mod 64]
  else [240 + c / 262144; 128 + (c / 4096) mod 64; 128 + (c / 64) mod 64; 128 + c mod 64].
Definition as_bytes (s : str) : list Z := concat (map utf8_encode_char s).

(** ** Decimal numbers *)

Definition digit_val (c : Z) : option Z :=
  if (48 <=? c) && (c <=? 57) then Some (c - 48) else None.
Fixpoint parse_digits (acc : Z) (s : str) : option Z :=
  match s with
  | [] => Some acc
  | c :: s' => d ← digit_val c;
               if acc * 10 + d <=? U64_MAX then parse_digits (acc * 10 + d) s' else None
  end.
(** [s.parse::<u64>().ok()]: an optional [+], then at least one digit, no overflow. *)
Definition parse_u64 (s : str) : option Z :=
  let ds := match s with 43 :: r => r | _ => s end in
  match ds with [] => None | _ => parse_digits 0 ds end.

Fixpoint show_go (fuel : nat) (n : Z) (acc : str) : str :=
  match fuel with
  | O => acc
  | S f => let acc' := (48 + n mod 10) :: acc in
           if n <? 10 then acc' else show_go f (n / 10) acc'
  end.
(** [format!("{n}")] for a [u64]: at most 20 digits. *)
Definition show_u64 (n : Z) : str := show_go 20 n [].

(** ** Unix paths *)

Abbreviation path := str (only parsing).
Definition SLASH : Z := 47.
Definition DOT : Z := 46.

Inductive component : Type :=
| RootDir | CurDir | ParentDir | Normal (name : str).
#[export] Instance component_eq_dec : EqDecision component.
Proof. solve_decision. Defined.
#[export] Instance component_countable : Countable component.
Proof.
  refine (inj_countable'
    (λ c, match c with RootDir => inl 0%nat | CurDir => inl 1%nat
                     | ParentDir => inl 2%nat | Normal s => inr s end)
    (λ t, match t with inl 0%nat => RootDir | inl 1%nat => CurDir
                     | inl _ => ParentDir | inr s => Normal s end) _).
  by intros [].
Defined.

(** A segment after the first: empty and [.] segments are skipped. *)
Definition seg_components (seg : str) : list component :=
  if str_eqb seg [] then [] else if str_eqb seg [DOT] then []
  else if str_eqb seg [DOT; DOT] then [ParentDir] else [Normal seg].
(** [Path::components]. *)
Definition components (p : path) : list component :=
  match split_char SLASH p with
  | [] => []
  | seg :: rest =>
      (match rest with
       | _ :: _ => if str_eqb seg [] then [RootDir]
                   else if str_eqb seg [DOT] then [CurDir] else seg_components seg
       | [] => if str_eqb seg [DOT] then [CurDir] else seg_components seg
       end) ++ concat (map seg_components rest)
  end.
(** [Path::file_name]. *)
Definition file_name (p : path) : option str :=
  match last (components p) with Some (Normal s) => Some s | _ => None end.

(** Trailing separators and [.] segments, never the first segment. *)
Fixpoint trim_rev (rs : list str) : list str :=
  match rs with
  | s :: ((_ :: _) as rest) => if str_eqb s [] || str_eqb s [DOT] then trim_rev rest else rs
  | _ => rs
  end.
Fixpoint join_segs (segs : list str) : str :=
  match segs with
  | [] => []
  | [s] => s
  | s :: rest => s ++ SLASH :: join_segs rest
  end.
(** [Path::parent]. *)
Definition parent (p : path) : option path :=
  match last (components p) with
  | Some (Normal _) | Some CurDir | Some ParentDir =>
      match rev (trim_rev (tail (trim_rev (rev (split_char SLASH p))))) with
      | [ [] ] => Some [SLASH]
      | segs => Some (join_segs segs)
      end
  | _ => None
  end.
(** [Path::join]. *)
Definition join (base p : path) : path :=
  match p with
  | c :: _ => if c =? SLASH then p else
      match last base with
      | Some d => if d =? SLASH then base ++ p else base ++ SLASH :: p
      | None => p
      end
  | [] => match last base with
          | Some d => if d =? SLASH then base else base ++ [SLASH]
          | None => []
          end
  end.

(** A file name that [join] appends as exactly one [Normal] component. *)
Definition normal_name (s : str) : bool :=
  negb (str_eqb s []) && negb (str_eqb s [DOT]) && negb (str_eqb s [DOT; DOT])
  && negb (memb SLASH s).

Example path_ex1 : parent (lit "/photos/2024//a.jpg") = Some (lit "/photos/2024").
Proof. reflexivity. Qed.
Example path_ex2 : parent (lit "/a") = Some (lit "/") ∧ parent (lit "a") = Some [].
Proof. split; reflexivity. Qed.
Example path_ex3 : file_name (lit "/a/..") = None ∧ file_name (lit "/a/b/.") = Some (lit "b").
Proof. split; reflexivity. Qed.
Example path_ex4 : components (lit "./a/./b/") = [CurDir; Normal (lit "a"); Normal (lit "b")].
Proof. reflexivity. Qed.
Example path_ex5 : parent (lit "./a/.") = Some (lit ".") ∧ parent (lit "/") = None.
Proof. split; reflexivity. Qed.
Example replace_ex : replace (lit "..") (lit "_") (lit "a.....b") = lit "a__.b".
Proof. reflexivity. Qed.
Example show_ex : show_u64 18446744073709551615 = lit "18446744073709551615".
Proof. reflexivity. Qed.

(** ** Lemmas: prefixes and sub-strings *)

Lemma str_eqb_eq a b : str_eqb a b = true ↔ a = b.
Proof. unfold str_eqb. apply bool_decide_eq_true. Qed.

Lemma str_eqb_neq a b : str_eqb a b = false ↔ a ≠ b.
Proof. unfold str_eqb. apply bool_decide_eq_false. Qed.

Lemma memb_true {A} `{EqDecision A} (x : A) l : memb x l = true ↔ x ∈ l.
Proof. apply bool_decide_eq_true. Qed.

Lemma memb_false {A} `{EqDecision A} (x : A) l : memb x l = false ↔ x ∉ l.
Proof. apply bool_decide_eq_false. Qed.

Lemma strip_prefix_Some p s r : strip_prefix p s = Some r ↔ s = p ++ r.
Proof.
  revert s. induction p as [|a p IH]; intros [|b s]; cbn; try naive_solver.
  destruct (Z.eqb_spec a b) as [->|]; [rewrite IH|]; naive_solver.
Qed.

Lemma starts_with_true p s : starts_with p s = true ↔ ∃ r, s = p ++ r.
Proof.
  unfold starts_with. rewrite bool_decide_eq_true. unfold is_Some.
  by setoid_rewrite strip_prefix_Some.
Qed.

Lemma contains_true p s : contains p s = true ↔ ∃ a b, s = a ++ p ++ b.
Proof.
  induction s as [|c s IH]; cbn; rewrite orb_true_iff, starts_with_true.
  - split; [|intros ([|] & b & ?); [left; exists b; done|done]].
    intros [[r ->]|?]; [by exists [], r|done].
  - rewrite IH. split.
    + intros [[r ->]|(a & b & ->)]; [by exists [], r|by exists (c :: a), b].
    + intros ([|x a] & b & Heq); cbn in Heq; [left; by exists b|].
      injection Heq as -> ->. right. by exists a, b.
Qed.

Lemma rsplit_once_Some c s a b :
  rsplit_once c s = Some (a, b) ↔ s = a ++ c :: b ∧ c ∉ b.
Proof.
  revert a b. induction s as [|x s IH]; intros a b; cbn.
  { split; [done|]. intros [H _]. by destruct a. }
  destruct (rsplit_once c s) as [[a' b']|] eqn:E.
  - destruct (proj1 (IH a' b') eq_refl) as [-> Hb]. split.
    + intros [= <- <-]. done.
    + intros [Heq Hn]. destruct a as [|y a]; cbn in Heq; injection Heq as -> Heq.
      * exfalso. apply Hn. rewrite <- Heq. set_solver.
      * assert (Some (a', b') = Some (a, b)) as [= -> ->] by (apply IH; done). done.
  - assert (c ∉ s) as Hs.
    { intros (l1 & l2 & -> & Hn)%list_elem_of_split_r.
      assert (None = Some (l1, l2)) by (apply IH; done). done. }
    destruct (Z.eqb_spec x c) as [->|Hx]; split.
    + intros [= <- <-]. done.
    + intros [Heq Hn]. destruct a as [|y a]; cbn in Heq; injection Heq as Heq; [by subst|].
      exfalso. apply Hs. subst. set_solver.
    + done.
    + intros [Heq Hn]. destruct a as [|y a]; cbn in Heq; injection Heq as Heq; [done|].
      exfalso. apply Hs. subst. set_solver.
Qed.

Lemma rsplit_once_None c s : rsplit_once c s = None ↔ c ∉ s.
Proof.
  split.
  - intros E (l1 & l2 & -> & Hn)%list_elem_of_split_r.
    assert (rsplit_once c (l1 ++ c :: l2) = Some (l1, l2)) by (by apply rsplit_once_Some).
    congruence.
  - destruct (rsplit_once c s) as [[a b]|] eqn:E; [|done].
    apply rsplit_once_Some in E as [-> _]. set_solver.
Qed.

(** ** Lemmas: byte lengths *)

Lemma len_utf8_pos c : 1 <= len_utf8 c <= 4.
Proof. unfold len_utf8. repeat case_match; lia. Qed.

Lemma str_len_nonneg s : 0 <= str_len s.
Proof. induction s as [|c s IH]; cbn; [lia|]. pose proof (len_utf8_pos c). lia. Qed.

Lemma str_len_app a b : str_len (a ++ b) = str_len a + str_len b.
Proof. induction a; cbn; lia. Qed.

Lemma str_len_ascii s : is_ascii s = true → str_len s = zlen s.
Proof.
  induction s as [|c s IH]; cbn; [done|]. intros [Hc ?]%andb_true_iff.
  rewrite IH by done. unfold len_utf8, is_ascii_char in *. rewrite Hc. lia.
Qed.

Lemma floor_prefix_len n s : 0 <= n → str_len (floor_prefix n s) <= n.
Proof.
  revert n. induction s as [|c s IH]; intros n Hn; cbn; [lia|].
  destruct (Z.leb_spec (len_utf8 c) n); cbn; [|lia].
  specialize (IH (n - len_utf8 c)). lia.
Qed.

Lemma floor_prefix_prefix n s : ∃ r, s = floor_prefix n s ++ r.
Proof.
  revert n. induction s as [|c s IH]; intros n; cbn; [by exists []|].
  case_match; [|by eexists]. destruct (IH (n - len_utf8 c)) as [r Hr].
  exists r. cbn. by f_equal.
Qed.

Lemma floor_prefix_all n s : str_len s <= n → floor_prefix n s = s.
Proof.
  revert n. induction s as [|c s IH]; intros n; cbn; [done|].
  pose proof (str_len_nonneg s). intros.
  destruct (Z.leb_spec (len_utf8 c) n); [|lia]. f_equal. apply IH. lia.
Qed.

Lemma floor_prefix_cons_pos n c s : 4 <= n → floor_prefix n (c :: s) ≠ [].
Proof.
  intros. cbn. pose proof (len_utf8_pos c).
  destruct (Z.leb_spec (len_utf8 c) n); [done|lia].
Qed.

(** ** Lemmas: trimming *)

Lemma trim_start_suffix p s : ∃ a, s = a ++ trim_start_matches p s ∧ Forall (λ c, p c = true) a.
Proof.
  induction s as [|c s IH]; cbn; [by exists []|].
  destruct (p c) eqn:Hc; [|by exists []].
  destruct IH as (a & Ha & Hf). exists (c :: a). cbn. split; [by f_equal|by constructor].
Qed.

Lemma trim_start_head p s c r : trim_start_matches p s = c :: r → p c = false.
Proof.
  induction s as [|x s IH]; cbn; [done|]. destruct (p x) eqn:E; [done|]. by intros [= <- _].
Qed.

Lemma trim_matches_infix p s : ∃ a b, s = a ++ trim_matches p s ++ b.
Proof.
  unfold trim_matches. destruct (trim_start_suffix p s) as (a & Ha & _).
  destruct (trim_start_suffix p (rev (trim_start_matches p s))) as (b & Hb & _).
  exists a, (rev b). rewrite Ha at 1. f_equal.
  rewrite <- rev_app_distr, <- Hb. by rewrite rev_involutive.
Qed.

Lemma trim_matches_last p s c : last (trim_matches p s) = Some c → p c = false.
Proof.
  unfold trim_matches. destruct (trim_start_matches p (rev _)) as [|x r] eqn:E; cbn.
  { done. } intros H. rewrite last_snoc in H. injection H as ->. by eapply trim_start_head.
Qed.

Lemma trim_matches_head p s c r : trim_matches p s = c :: r → p c = false.
Proof.
  unfold trim_matches. intros H.
  destruct (trim_start_suffix p (rev (trim_start_matches p s))) as (b & Hb & _).
  apply (f_equal (@rev Z)) in Hb. rewrite rev_involutive, rev_app_distr, H in Hb.
  by eapply trim_start_head.
Qed.

Lemma trim_matches_id p s :
  (∀ c r, s = c :: r → p c = false) → (∀ c, last s = Some c → p c = false) →
  trim_matches p s = s.
Proof.
  intros Hh Hl. unfold trim_matches.
  assert (trim_start_matches p s = s) as ->.
  { destruct s as [|c s]; [done|]. cbn. by rewrite (Hh c s). }
  destruct (rev s) as [|c r] eqn:E; cbn.
  { apply (f_equal (@rev Z)) in E. rewrite rev_involutive in E. by subst. }
  rewrite (Hl c); [|].
  - change (rev (c :: r) = s). rewrite <- E. apply rev_involutive.
  - apply (f_equal (@rev Z)) in E. rewrite rev_involutive in E. subst s. cbn. by rewrite last_snoc.
Qed.

(** ** Lemmas: replacement *)

Lemma replace_go_no_match pat to s :
  pat ≠ [] → contains pat s = false → replace_go pat to 0 s = s.
Proof.
  intros Hp. induction s as [|c s IH]; [done|].
  cbn [contains]. intros [H1 H2]%orb_false_iff. cbn [replace_go]. rewrite H1.
  by rewrite IH.
Qed.

Lemma replace_go_Forall (P : Z → Prop) pat to skip s :
  Forall P to → Forall P s → Forall P (replace_go pat to skip s).
Proof.
  intros Hto. revert skip. induction s as [|c s IH]; intros skip Hs; cbn; [done|].
  apply Forall_cons in Hs as [Hc Hs]. destruct skip; [|by apply IH].
  case_match; [apply Forall_app; auto|constructor; auto].
Qed.

Lemma replace_go_len pat to skip s :
  pat ≠ [] → str_len to <= zlen pat →
  str_len (replace_go pat to skip s) <= str_len (drop skip s).
Proof.
  intros Hp Hlen. revert skip. induction s as [|c s IH]; intros skip.
  { by destruct skip. }
  pose proof (len_utf8_pos c). destruct skip as [|k]; cbn [replace_go drop]; [|apply IH].
  case_match eqn:Hm.
  - apply starts_with_true in Hm as [r Hr]. destruct pat as [|p0 pat]; [done|].
    injection Hr as <- ->. rewrite str_len_app.
    specialize (IH (length pat)). cbn in IH |- *. rewrite Nat.sub_0_r.
    rewrite drop_app_length in IH. rewrite str_len_app. cbn in Hlen.
    assert (zlen pat <= str_len pat); [|lia].
    clear. induction pat as [|d pat IH]; cbn; [lia|]. pose proof (len_utf8_pos d). lia.
  - cbn. specialize (IH 0%nat). cbn in IH. change (drop 0 s) with s in IH. lia.
Qed.

(** Replacing [..] by [_] leaves no [..]: whatever is emitted first, the
    rest starts with a dot only if the input does. *)
Lemma replace_dots_head (skip : nat) s r :
  replace_go [DOT; DOT] [95] skip s = DOT :: r → ∃ s', drop skip s = DOT :: s'.
Proof.
  revert skip. induction s as [|c s IH]; intros skip; [by destruct skip|].
  destruct skip as [|k]; cbn [replace_go drop]; [|apply IH].
  case_match; [by intros [= ?]|]. intros [= -> _]. eauto.
Qed.

Lemma contains_cons_dots c s :
  contains [DOT; DOT] (c :: s) = (c =? DOT) && starts_with [DOT] s || contains [DOT; DOT] s.
Proof.
  cbn [contains]. f_equal. apply eq_true_iff_eq.
  rewrite andb_true_iff, Z.eqb_eq, !starts_with_true. split.
  - intros [r [= -> ->]]. split; [done|by exists r].
  - intros [-> [r ->]]. by exists r.
Qed.

Lemma replace_dots_clean (skip : nat) s :
  contains [DOT; DOT] (replace_go [DOT; DOT] [95] skip s) = false.
Proof.
  revert skip. induction s as [|c s IH]; intros skip; [done|].
  destruct skip as [|k]; cbn [replace_go]; [|apply IH].
  case_match eqn:Hm; [cbn [app]; rewrite contains_cons_dots, IH; done|].
  rewrite contains_cons_dots, IH, orb_false_r.
  apply not_true_iff_false. rewrite andb_true_iff, Z.eqb_eq, starts_with_true.
  intros [-> [r Hr]]. apply replace_dots_head in Hr as [s' Hs']. cbn in Hs'.
  apply not_true_iff_false in Hm. apply Hm. apply starts_with_true.
  change (drop 0 s) with s in Hs'. rewrite Hs'. by exists s'.
Qed.

Lemma contains_infix p a s b : contains p s = true → contains p (a ++ s ++ b) = true.
Proof.
  rewrite !contains_true. intros (x & y & ->). exists (a ++ x), (y ++ b).
  by rewrite <- !app_assoc.
Qed.

(** ** Lemmas: decimal numbers *)

Definition digit_char (c : Z) : bool := (48 <=? c) && (c <=? 57).

Lemma show_go_digits fuel n acc :
  0 <= n → forallb digit_char acc = true → forallb digit_char (show_go fuel n acc) = true.
Proof.
  revert n acc. induction fuel as [|f IH]; intros n acc Hn Hacc; [done|].
  assert (forallb digit_char ((48 + n mod 10) :: acc) = true).
  { cbn. rewrite Hacc, andb_true_r. unfold digit_char.
    pose proof (Z.mod_pos_bound n 10). lia. }
  cbn [show_go]. case_match; [done|]. apply IH; [|done]. apply Z.div_pos; lia.
Qed.

Lemma parse_digits_show fuel n acc a0 :
  0 <= n < 10 ^ Z.of_nat fuel → 0 <= a0 → (∃ k, show_go fuel n acc = k ++ acc ∧ k ≠ [] ∧
    ∃ j, length k = j ∧ (a0 * 10 ^ Z.of_nat j + n <= U64_MAX →
    parse_digits a0 (k ++ acc) = parse_digits (a0 * 10 ^ Z.of_nat j + n) acc)) ∨ fuel = O.
Proof.
  revert n acc. induction fuel as [|f IH]; intros n acc Hn Ha0; [by right|left].
  assert (∀ a, digit_val (48 + n mod 10) = Some (n mod 10) ∧ 0 <= n mod 10 < 10
    ∧ (a * 10 + n mod 10 <= U64_MAX → parse_digits a ((48 + n mod 10) :: acc)
         = parse_digits (a * 10 + n mod 10) acc)) as Hd.
  { intros a. pose proof (Z.mod_pos_bound n 10 ltac:(lia)).
    assert (digit_val (48 + n mod 10) = Some (n mod 10)) as E.
    { unfold digit_val. destruct (Z.leb_spec 48 (48 + n mod 10)); [|lia].
      destruct (Z.leb_spec (48 + n mod 10) 57); [|lia]. cbn. f_equal. lia. }
    split_and!; [done|lia|lia|]. intros. cbn [parse_digits]. rewrite E. cbn.
    by destruct (Z.leb_spec (a * 10 + n mod 10) U64_MAX); [|lia]. }
  cbn [show_go]. destruct (Z.ltb_spec n 10).
  - exists [48 + n mod 10]. split_and!; [done|done|]. exists 1%nat. split; [done|].
    intros Hb. cbn [app]. destruct (Hd a0) as (_ & _ & ->); rewrite Z.mod_small by lia; first [done | lia | f_equal; lia].
  - rewrite Nat2Z.inj_succ, Z.pow_succ_r in Hn by lia.
    assert (0 <= n / 10 < 10 ^ Z.of_nat f).
    { split; [apply Z.div_pos; lia|apply Z.div_lt_upper_bound; lia]. }
    destruct (IH (n / 10) ((48 + n mod 10) :: acc)) as [(k & Hk & Hne & j & Hj & Hp)| ->]; [lia|lia| |].
    + exists (k ++ [48 + n mod 10]). split_and!.
      * by rewrite Hk, <- app_assoc.
      * by destruct k.
      * exists (S j). split; [rewrite length_app; cbn; lia|].
        rewrite Nat2Z.inj_succ, Z.pow_succ_r by lia. intros Hb.
        pose proof (Z.div_mod n 10 ltac:(lia)).
        destruct (Hd (a0 * 10 ^ Z.of_nat j + n / 10)) as (_ & ? & Hs).
        rewrite <- app_assoc. cbn [app]. rewrite Hp by nia. rewrite Hs by nia.
        f_equal. nia.
    + cbn in *. lia.
Qed.

Lemma parse_show_u64 n : 0 <= n <= U64_MAX → parse_u64 (show_u64 n) = Some n.
Proof.
  intros Hn. unfold show_u64.
  destruct (parse_digits_show 20 n [] 0) as [(k & Hk & Hne & j & Hj & Hp)|?]; [unfold U64_MAX in Hn; lia|lia| |done].
  rewrite Hk, app_nil_r in *. specialize (Hp ltac:(lia)).
  pose proof (show_go_digits 20 n [] ltac:(lia) eq_refl) as Hdig.
  rewrite Hk in Hdig. unfold parse_u64.
  destruct k as [|c k]; [done|]. cbn in Hdig. apply andb_true_iff in Hdig as [Hc _].
  assert (c ≠ 43) by (unfold digit_char in Hc; lia).
  assert (match c :: k with 43 :: r => r | _ => c :: k end = c :: k) as ->.
  { repeat case_match; congruence. }
  by rewrite Hp.
Qed.

Lemma show_u64_inj n m : 0 <= n <= U64_MAX → 0 <= m <= U64_MAX → show_u64 n = show_u64 m → n = m.
Proof. intros Hn Hm H. apply parse_show_u64 in Hn, Hm. congruence. Qed.

Lemma show_u64_digits n : 0 <= n → forallb digit_char (show_u64 n) = true.
Proof. intros. by apply show_go_digits. Qed.

(** ** Lemmas: segments and paths *)

Lemma split_char_ne c s : split_char c s ≠ [].
Proof. destruct s; cbn; [done|]. repeat case_match; done. Qed.

Lemma split_char_no_sep c s : c ∉ s → split_char c s = [s].
Proof.
  induction s as [|x s IH]; [done|]. intros [Hx Hs]%not_elem_of_cons. cbn.
  destruct (Z.eqb_spec x c); [congruence|]. by rewrite IH.
Qed.

Lemma split_char_segments c s seg : seg ∈ split_char c s → c ∉ seg.
Proof.
  revert seg. induction s as [|x s IH]; intros seg; cbn.
  { intros ->%list_elem_of_singleton. set_solver. }
  destruct (Z.eqb_spec x c) as [->|Hx].
  { intros [->|H]%elem_of_cons; [set_solver|by apply IH]. }
  destruct (split_char c s) as [|sg rest] eqn:E; [by destruct (split_char_ne c s)|].
  intros [->|H]%elem_of_cons; [|apply IH; set_solver].
  assert (c ∉ sg) by (apply IH; set_solver). set_solver.
Qed.

Lemma split_char_app c a b :
  split_char c (a ++ c :: b) = split_char c a ++ split_char c b.
Proof.
  induction a as [|x a IH]; cbn.
  { by rewrite Z.eqb_refl. }
  destruct (x =? c); [by rewrite IH|]. rewrite IH.
  destruct (split_char c a) eqn:E; [by destruct (split_char_ne c a)|done].
Qed.

Lemma split_char_forall c (P : Z → Prop) s :
  Forall P s → Forall (Forall P) (split_char c s).
Proof.
  induction s as [|x s IH]; cbn; intros Hs; [by repeat constructor|].
  apply Forall_cons in Hs as [Hx Hs]. specialize (IH Hs).
  case_match; [by constructor|].
  destruct (split_char c s) as [|seg rest]; [by repeat constructor|].
  apply Forall_cons in IH as [? ?]. repeat constructor; done.
Qed.

Lemma normal_name_true s :
  normal_name s = true ↔ s ≠ [] ∧ s ≠ [DOT] ∧ s ≠ [DOT; DOT] ∧ SLASH ∉ s.
Proof.
  unfold normal_name.
  rewrite !andb_true_iff, !negb_true_iff, !str_eqb_neq, memb_false. tauto.
Qed.

Lemma seg_components_normal s : normal_name s = true → seg_components s = [Normal s].
Proof.
  intros (?&?&?&_)%normal_name_true. unfold seg_components.
  by rewrite !(proj2 (str_eqb_neq _ _)) by done.
Qed.

Lemma components_app a b :
  a ≠ [] → components (a ++ SLASH :: b) =
  components (a ++ [SLASH]) ++ concat (map seg_components (split_char SLASH b)).
Proof.
  intros Ha. unfold components. rewrite !split_char_app. cbn [split_char].
  destruct (split_char SLASH a) as [|seg rest] eqn:E; [by destruct (split_char_ne SLASH a)|].
  cbn [app]. rewrite !map_app, !concat_app. cbn [map concat seg_components]. rewrite app_nil_r.
  assert (∀ A (x y : A) (l : list str) k, match l ++ [k] with [] => x | _ :: _ => y end = y) as Hm
    by (by intros ? ? ? []).
  assert (∃ k ks, split_char SLASH b = k :: ks) as (k & ks & ->).
  { destruct (split_char SLASH b) eqn:E'; [by destruct (split_char_ne SLASH b)|eauto]. }
  rewrite Hm. destruct (rest ++ k :: ks) eqn:E'; [by destruct rest|].
  apply app_assoc.
Qed.

(** A trailing separator does not change the components. *)
Lemma components_trailing_slash a : a ≠ [] → last a ≠ Some SLASH →
  components (a ++ [SLASH]) = components a.
Proof.
  intros Ha Hl. unfold components. rewrite split_char_app. cbn [split_char].
  destruct (split_char SLASH a) as [|seg rest] eqn:E; [by destruct (split_char_ne SLASH a)|].
  cbn [app]. destruct rest as [|r rest]; cbn [app map concat].
  - cbn. rewrite !app_nil_r. rewrite (proj2 (str_eqb_neq seg [])); [done|].
    intros ->. destruct a as [|x a]; [done|]. cbn in E. destruct (x =? SLASH) eqn:Ex.
    + destruct (split_char SLASH a) eqn:E'; [by destruct (split_char_ne SLASH a)|done].
    + destruct (split_char SLASH a) eqn:E'; [by destruct (split_char_ne SLASH a)|done].
  - rewrite map_app, concat_app. cbn. by rewrite !app_nil_r.
Qed.

(** [join] of a normal name appends exactly that component. *)
Lemma components_join d n :
  normal_name n = true → components (join d n) = components d ++ [Normal n].
Proof.
  intros Hn. pose proof Hn as (Hne & _ & _ & Hs)%normal_name_true.
  assert (split_char SLASH n = [n]) as Hsp by (by apply split_char_no_sep).
  assert (components n = [Normal n]) as Hcn.
  { unfold components. rewrite Hsp. cbn. rewrite app_nil_r.
    rewrite (seg_components_normal _ Hn).
    apply normal_name_true in Hn as (_ & ? & _). by rewrite (proj2 (str_eqb_neq _ _)). }
  destruct n as [|c n0]; [done|]. unfold join. cbv beta iota.
  destruct (Z.eqb_spec c SLASH) as [->|_]; [set_solver|].
  destruct (last d) as [e|] eqn:El.
  - assert (d ≠ []) by (by intros ->).
    assert (∀ a, a ≠ [] → components (a ++ SLASH :: c :: n0) =
              components (a ++ [SLASH]) ++ [Normal (c :: n0)]) as Happ.
    { intros. rewrite components_app by done. rewrite Hsp. cbn [map concat].
      by rewrite seg_components_normal. }
    destruct (Z.eqb_spec e SLASH) as [->|Hne'].
    + apply last_Some in El as [d' ->]. destruct d' as [|x d'].
      * change (components (SLASH :: c :: n0) = [RootDir; Normal (c :: n0)]).
        unfold components. change (split_char SLASH (SLASH :: c :: n0))
          with ([] :: split_char SLASH (c :: n0)). rewrite Hsp. cbn -[seg_components].
        rewrite app_nil_r, (seg_components_normal _ Hn). reflexivity.
      * rewrite <- app_assoc. cbn [app]. apply (Happ (x :: d')). done.
    + rewrite Happ by done. f_equal. apply components_trailing_slash; [done|].
      rewrite El. congruence.
  - apply last_None in El as ->. done.
Qed.

Lemma file_name_join d n : normal_name n = true → file_name (join d n) = Some n.
Proof. intros. unfold file_name. by rewrite components_join, last_snoc. Qed.

Lemma join_nonempty d n : n ≠ [] → join d n ≠ [].
Proof. intros. unfold join. destruct n; [done|]. repeat case_match; try done; by destruct d. Qed.

(** [parent] of a joined normal name depends on the base only. *)
Lemma last_components_join d n : normal_name n = true → last (components (join d n)) = Some (Normal n).
Proof. intros. by rewrite components_join, last_snoc. Qed.

Lemma parent_join_split d n :
  normal_name n = true → last d ≠ Some SLASH → d ≠ [] →
  split_char SLASH (join d n) = split_char SLASH d ++ [n].
Proof.
  intros Hn Hl Hd. apply normal_name_true in Hn as (Hne & _ & _ & Hs). unfold join.
  destruct n as [|c n]; [done|]. destruct (Z.eqb_spec c SLASH) as [->|_]; [set_solver|].
  destruct (last d) as [e|] eqn:E; [|by apply last_None in E].
  destruct (Z.eqb_spec e SLASH) as [->|]; [done|].
  by rewrite split_char_app, (split_char_no_sep _ (c :: n)).
Qed.

Lemma trim_rev_normal n rs : normal_name n = true → trim_rev (n :: rs) = n :: rs.
Proof.
  intros (?&?&_)%normal_name_true. cbn. destruct rs; [done|].
  by rewrite !(proj2 (str_eqb_neq _ _)) by done.
Qed.

Definition parent_of_join (d : path) : path :=
  let segs := if ends_with_char SLASH d then removelast (split_char SLASH d)
              else match d with [] => [] | _ => split_char SLASH d end in
  match rev (trim_rev (rev segs)) with [ [] ] => [SLASH] | segs => join_segs segs end.

Lemma parent_join d n : normal_name n = true → parent (join d n) = Some (parent_of_join d).
Proof.
  intros Hn. unfold parent. rewrite last_components_join by done.
  assert (split_char SLASH (join d n)
    = (if ends_with_char SLASH d then removelast (split_char SLASH d)
       else match d with [] => [] | _ => split_char SLASH d end) ++ [n]) as ->.
  { unfold ends_with_char. destruct (last d) as [e|] eqn:E.
    - destruct (Z.eqb_spec e SLASH) as [->|].
      + pose proof Hn as (Hne & _ & _ & Hs)%normal_name_true.
        unfold join. destruct n as [|c n]; [done|].
        destruct (Z.eqb_spec c SLASH) as [->|_]; [set_solver|].
        rewrite E, Z.eqb_refl. apply last_Some in E as [d' ->].
        rewrite <- app_assoc. cbn [app]. rewrite !split_char_app.
        change (split_char SLASH []) with [[] : str]. rewrite removelast_last.
        by rewrite (split_char_no_sep _ (c :: n)).
      + rewrite parent_join_split; [by destruct d|done|congruence|by intros ->].
    - apply last_None in E as ->. pose proof Hn as (Hne & _ & _ & Hs)%normal_name_true.
      unfold join. destruct n as [|c n]; [done|].
      destruct (Z.eqb_spec c SLASH) as [->|_]; [set_solver|]. cbn [app last].
      by rewrite split_char_no_sep. }
  rewrite rev_app_distr. cbn [rev app]. rewrite trim_rev_normal by done. cbn [tail].
  unfold parent_of_join. repeat case_match; done.
Qed.

Lemma show_go_length fuel n acc : (length (show_go fuel n acc) <= fuel + length acc)%nat.
Proof.
  revert n acc. induction fuel as [|f IH]; intros n acc; cbn [show_go]; [lia|].
  destruct (n <? 10); [cbn; lia|]. etransitivity; [apply IH|]. cbn. lia.
Qed.

Lemma show_u64_len n : 0 <= n → str_len (show_u64 n) <= 20.
Proof.
  intros Hn. apply show_u64_digits in Hn as Hd. rewrite str_len_ascii.
  - pose proof (show_go_length 20 n []). unfold show_u64. cbn [length] in *. lia.
  - unfold is_ascii. eapply forallb_forall. intros c Hc.
    eapply (proj1 (forallb_forall _ _)) in Hd; [|done]. unfold digit_char in Hd.
    unfold is_ascii_char. lia.
Qed.

Lemma show_u64_len_any n : str_len (show_u64 n) <= 20.
Proof.
  destruct (Z.leb_spec 0 n) as [Hn|Hn]; [by apply show_u64_len|].
  unfold show_u64. cbn [show_go]. rewrite (proj2 (Z.ltb_lt n 10)) by lia. cbn [str_len].
  pose proof (len_utf8_pos (48 + n mod 10)). lia.
Qed.

Lemma lower_digits s : forallb digit_char s = true → to_ascii_lowercase s = s.
Proof.
  induction s as [|c s IH]; [done|]. cbn. intros [Hc Hs]%andb_true_iff.
  f_equal; [|by apply IH]. unfold digit_char in Hc. unfold ascii_lower. zbool.
  by rewrite (proj2 (Z.leb_gt _ _)) by lia.
Qed.

(** Joining any normal name to [d] puts the same prefix before it. *)
Lemma join_prefix d : ∃ pre, ∀ n, normal_name n = true → join d n = pre ++ n.
Proof.
  exists (match last d with None => [] | Some e => if e =? SLASH then d else d ++ [SLASH] end).
  intros n Hn. apply normal_name_true in Hn as (Hne & _ & _ & Hs).
  unfold join. destruct n as [|c n]; [done|].
  destruct (Z.eqb_spec c SLASH) as [->|_]; [set_solver|].
  destruct (last d) as [e|] eqn:E.
  - destruct (e =? SLASH); [done|]. by rewrite <- app_assoc.
  - by apply last_None in E as ->.
Qed.
