(* ===== verification/Paths.v ===== *)
(** * Path rendering: [src/download/paths.rs]

    Folder-template expansion, file-name cleaning, collision suffixes, the
    AM/PM spelling variants and the directory-listing cache.  [chrono]'s
    [strftime], SHA-256, base64 and the disk are parameters. *)
From S2P Require Import Prelude RustStr.

(** ** What the module uses from other crates and from the disk *)

Class PathEnv := {
  (** [chrono::DateTime<FixedOffset>]. *)
  DateTimeLocal : Type;
  (** [created_date.format(fmt).to_string()]. *)
  strftime : DateTimeLocal → str → str;
  (** [sha2::Sha256::digest]. *)
  sha256_digest : list Z → list Z;
  (** [URL_SAFE_NO_PAD.encode]. *)
  base64_url_no_pad : list Z → str;
  (** What [std::fs::read_dir] yields for a directory: name and size of each
      UTF-8 entry, nothing when the directory cannot be read. *)
  read_dir_entries : path → gmap str Z;
  (** The iteration order of a [FxHashMap]. *)
  hash_order : gmap str Z → list str;
  (** macOS builds compare paths case-insensitively. *)
  case_insensitive : bool;
}.

(** ** Templates *)

Definition NO_DATE_STRUCTURE : str := lit "none".
Definition TOKEN_ALBUM : str := lit "{album}".
Definition TOKEN_SMART_FOLDER : str := lit "{smart-folder}".
Definition TOKEN_LIBRARY : str := lit "{library}".

Definition strip_python_wrapper (folder_structure : str) : str :=
  if starts_with (lit "{:") folder_structure && ends_with_char 125 folder_structure
  then removelast (drop 2 folder_structure)
  else folder_structure.

Definition truncate_library_zone (zone_name : str) : str :=
  match strip_prefix (lit "SharedSync-") zone_name with
  | None => zone_name
  | Some rest =>
      if str_len rest <=? 8 then zone_name
      else default zone_name (prefix_at_boundary (11 + 8) zone_name)
  end.

(** ** File names *)

Definition MAX_FILENAME_BYTES : Z := 255.

(** Forward slash, backslash, colon, star, question mark, double quote,
    angle brackets, bar, and control characters. *)
Definition is_invalid (c : Z) : bool :=
  memb c [47; 92; 58; 42; 63; 34; 60; 62; 124] || is_control c.

Definition clean_filename (filename : str) : str :=
  match filename with
  | [] => lit "_"
  | _ =>
    if (str_len filename <=? MAX_FILENAME_BYTES) && negb (existsb is_invalid filename)
    then filename
    else
      let cleaned := map (λ c, if is_invalid c then 95 else c) filename in
      if str_len cleaned <=? MAX_FILENAME_BYTES then cleaned
      else
        match rsplit_once DOT cleaned with
        | Some (stem, e) =>
            let ext := DOT :: e in
            if str_len ext <? MAX_FILENAME_BYTES
            then floor_prefix (MAX_FILENAME_BYTES - str_len ext) stem ++ ext
            else floor_prefix MAX_FILENAME_BYTES cleaned
        | None => floor_prefix MAX_FILENAME_BYTES cleaned
        end
  end.

Definition dot_or_space (c : Z) : bool := (c =? DOT) || (c =? 32).

Definition sanitize_path_component (name : str) : str :=
  let cleaned := clean_filename name in
  let no_traversal := replace (lit "..") (lit "_") cleaned in
  let trimmed := trim_matches dot_or_space no_traversal in
  match trimmed with [] => lit "_" | _ => trimmed end.

Definition expand_named_token (folder_structure token : str) (name : option str) : str :=
  let format_str := strip_python_wrapper folder_structure in
  if negb (contains token format_str) then format_str
  else
    let safe_name :=
      match name with
      | Some ((_ :: _) as n) => replace (lit "%") (lit "%%") (sanitize_path_component n)
      | _ => []
      end in
    replace token safe_name format_str.

Definition remove_unicode_chars (filename : str) : str :=
  if is_ascii filename then filename else List.filter is_ascii_char filename.

Definition insert_suffix (p suffix : str) : str :=
  match rsplit_once DOT p with
  | Some (stem, e) => stem ++ lit "-" ++ suffix ++ DOT :: e
  | None => p ++ lit "-" ++ suffix
  end.

Definition add_dedup_suffix (p : str) (size : Z) : str :=
  match rsplit_once DOT p with
  | Some (stem, e) => stem ++ lit "-" ++ show_u64 size ++ DOT :: e
  | None => p ++ lit "-" ++ show_u64 size
  end.

Definition asset_identity_suffix (asset_id : str) : str := clean_filename asset_id.

Definition insert_asset_identity_suffix (p asset_id : str) : str :=
  insert_suffix p (asset_identity_suffix asset_id).

Definition insert_asset_identity_ordinal_suffix (p asset_id : str) (n : Z) : str :=
  insert_suffix p (asset_identity_suffix asset_id ++ lit "-" ++ show_u64 n).

Definition ordinal_after (prefix s : str) : bool :=
  match strip_prefix prefix s with
  | Some ordinal => bool_decide (is_Some (parse_u64 ordinal))
  | None => false
  end.

Definition filename_matches_identity_collision (base asset_id candidate : str) : bool :=
  let base := clean_filename base in
  let asset_id := asset_identity_suffix asset_id in
  if str_eqb candidate (insert_suffix base asset_id) then true
  else
    match rsplit_once DOT base with
    | None => ordinal_after (base ++ lit "-" ++ asset_id ++ lit "-") candidate
    | Some (base_stem, base_ext) =>
        match rsplit_once DOT candidate with
        | None => false
        | Some (candidate_stem, candidate_ext) =>
            if negb (str_eqb candidate_ext base_ext) then false
            else ordinal_after (base_stem ++ lit "-" ++ asset_id ++ lit "-") candidate_stem
        end
    end.

Definition insert_literal_suffix (p suffix : str) : str :=
  match rsplit_once DOT p with
  | Some (stem, e) => stem ++ suffix ++ DOT :: e
  | None => p ++ suffix
  end.

Definition ITEM_TYPE_EXTENSIONS : list (str * str) :=
  map (λ p, (lit p.1, lit p.2))
  [("public.heic", "HEIC"); ("public.heif", "HEIF"); ("public.jpeg", "JPG");
   ("public.png", "PNG"); ("com.apple.quicktime-movie", "MOV");
   ("com.adobe.raw-image", "DNG"); ("com.canon.cr2-raw-image", "CR2");
   ("com.canon.crw-raw-image", "CRW"); ("com.sony.arw-raw-image", "ARW");
   ("com.fuji.raw-image", "RAF"); ("com.panasonic.rw2-raw-image", "RW2");
   ("com.nikon.nrw-raw-image", "NRF"); ("com.pentax.raw-image", "PEF");
   ("com.nikon.raw-image", "NEF"); ("com.olympus.raw-image", "ORF");
   ("com.canon.cr3-raw-image", "CR3"); ("com.olympus.or-raw-image", "ORF");
   ("org.webmproject.webp", "WEBP")]%string.

(** The table as a map: the keys are distinct, so lookup is [find]. *)
Definition item_type_extension (asset_type : str) : str :=
  match findb (λ kv, str_eqb kv.1 asset_type) ITEM_TYPE_EXTENSIONS with
  | Some (_, ext) => ext
  | None => lit "unknown"
  end.

Definition map_filename_extension (filename asset_type : str) : str :=
  let ext := item_type_extension asset_type in
  if str_eqb ext (lit "unknown") then filename
  else match rsplit_once DOT filename with
       | Some (stem, _) => stem ++ DOT :: ext
       | None => filename ++ DOT :: ext
       end.

Definition hex_digit (d : Z) : Z := if d <? 10 then 48 + d else 87 + d.
(** [format!("{b:02x}")]. *)
Definition hex2 (b : Z) : str := [hex_digit (b / 16); hex_digit (b mod 16)].

Definition live_photo_mov_path_suffix (filename : str) : str :=
  match rsplit_once DOT filename with
  | Some (stem, ext) =>
      if str_eqb (to_ascii_lowercase ext) (lit "heic")
      then stem ++ lit "_HEVC.MOV" else stem ++ lit ".MOV"
  | None => filename ++ lit ".MOV"
  end.

Definition live_photo_mov_path_original (filename : str) : str :=
  match rsplit_once DOT filename with
  | Some (stem, _) => stem ++ lit ".MOV"
  | None => filename ++ lit ".MOV"
  end.

(** Space, no-break space and narrow no-break space. *)
Definition ampm_space (c : Z) : bool := memb c [32; 160; 8239].
Definition is_ampm (c1 c2 : Z) : bool :=
  ((ascii_upper c1 =? 65) || (ascii_upper c1 =? 80)) && (ascii_upper c2 =? 77).

Fixpoint normalize_ampm (s : str) : str :=
  match s with
  | [] => []
  | c :: rest =>
      if ampm_space c
         && match rest with c1 :: c2 :: _ => is_ampm c1 c2 | _ => false end
      then normalize_ampm rest
      else c :: normalize_ampm rest
  end.

(** ** Operations that use the environment *)

Section WithEnv.
Context `{PathEnv}.

Definition local_download_dir (directory : path) (folder_structure : str)
    (created_date : DateTimeLocal) (album_name : option str) : path :=
  if eq_ignore_ascii_case folder_structure NO_DATE_STRUCTURE then directory
  else
    let expanded := expand_named_token folder_structure TOKEN_ALBUM album_name in
    let date_path := strftime created_date expanded in
    fold_left (λ p component,
        match component with
        | [] => p
        | _ => join p (sanitize_path_component component)
        end) (split_char SLASH date_path) directory.

Definition local_download_path (directory : path) (folder_structure : str)
    (created_date : DateTimeLocal) (filename : str) (album_name : option str) : path :=
  join (local_download_dir directory folder_structure created_date album_name)
       (clean_filename filename).

(** [&encoded[..encoded.len().min(7)]]: the encoding is ASCII. *)
Definition base64_id7 (id : str) : str := take 7 (base64_url_no_pad (as_bytes id)).

Definition apply_name_id7 (filename id : str) : str :=
  let suffix := base64_id7 id in
  match rsplit_once DOT filename with
  | Some (stem, e) => stem ++ lit "_" ++ suffix ++ DOT :: e
  | None => filename ++ lit "_" ++ suffix
  end.

Definition generate_fingerprint_filename (asset_id asset_type : str) : str :=
  concat (map hex2 (take 6 (sha256_digest (as_bytes asset_id))))
  ++ DOT :: item_type_extension asset_type.
End WithEnv.

(** ** The directory cache

    [DirCache] memoises [read_dir]: the key is the directory as a [PathBuf],
    that is its components. *)
Module DirCache.
Record t := { dirs : gmap (list component) (gmap str Z) }.
Definition new : t := {| dirs := ∅ |}.

Section WithEnv.
Context `{PathEnv}.

Definition ensure_dir (c : t) (dir : path) : t * gmap str Z :=
  match dirs c !! components dir with
  | Some entries => (c, entries)
  | None => let entries := read_dir_entries dir in
            ({| dirs := <[components dir := entries]> (dirs c) |}, entries)
  end.

Definition ensure_dir_async (c : t) (dir : path) : t := fst (ensure_dir c dir).

Definition exists_ (c : t) (p : path) : t * bool :=
  match file_name p, parent p with
  | Some filename, Some dir =>
      let '(c, entries) := ensure_dir c dir in
      (c, bool_decide (is_Some (entries !! filename)))
  | _, _ => (c, false)
  end.

Definition file_size (c : t) (p : path) : t * option Z :=
  match file_name p, parent p with
  | Some filename, Some dir =>
      let '(c, entries) := ensure_dir c dir in (c, entries !! filename)
  | _, _ => (c, None)
  end.

Definition find_ampm_variant (c : t) (p : path) : t * option path :=
  match file_name p with
  | None => (c, None)
  | Some filename =>
      let normalized := normalize_ampm filename in
      if str_eqb normalized filename then (c, None)
      else match parent p with
      | None => (c, None)
      | Some dir =>
          let '(c, entries) := ensure_dir c dir in
          (c, (λ sibling, join dir sibling) <$>
              findb (λ sibling, negb (str_eqb sibling filename)
                                && str_eqb (normalize_ampm sibling) normalized)
                    (hash_order entries))
      end
  end.
End WithEnv.
End DirCache.

(** ** Cleaning file names *)

Definition safe_char (c : Z) : Prop := is_invalid c = false.

Lemma clean_char_safe c : safe_char (if is_invalid c then 95 else c).
Proof. unfold safe_char. destruct (is_invalid c) eqn:E; done. Qed.

Lemma map_clean_safe s : Forall safe_char (map (λ c, if is_invalid c then 95 else c) s).
Proof. induction s; cbn; constructor; auto using clean_char_safe. Qed.

Lemma existsb_invalid_false s : existsb is_invalid s = false ↔ Forall safe_char s.
Proof.
  induction s as [|c s IH]; cbn; [by split|].
  rewrite orb_false_iff, IH, Forall_cons. done.
Qed.

(** What every cleaned name satisfies. *)
Definition clean_name (s : str) : Prop :=
  s ≠ [] ∧ Forall safe_char s ∧ str_len s <= MAX_FILENAME_BYTES.

Lemma Forall_floor_prefix (P : Z → Prop) n s : Forall P s → Forall P (floor_prefix n s).
Proof.
  intros Hs. destruct (floor_prefix_prefix n s) as [r Hr]. rewrite Hr in Hs.
  by apply Forall_app in Hs as [? _].
Qed.

Lemma clean_filename_clean s : clean_name (clean_filename s).
Proof.
  unfold clean_filename, clean_name, MAX_FILENAME_BYTES. destruct s as [|c s].
  { split_and!; [done|by repeat constructor|done]. }
  destruct (_ && _) eqn:E.
  { apply andb_true_iff in E as [E1 E2]. zbool. apply existsb_invalid_false in E2. done. }
  clear E. pose proof (map_clean_safe (c :: s)) as Hsafe.
  remember (map (λ c, if is_invalid c then 95 else c) (c :: s)) as m eqn:Hm.
  assert (m ≠ []) as Hne by (by subst). clear Hm.
  destruct (Z.leb_spec (str_len m) 255); [done|].
  assert (clean_name (floor_prefix 255 m)) as Hdef.
  { split_and!; [destruct m; [done|by apply floor_prefix_cons_pos]
                |by apply Forall_floor_prefix|by apply floor_prefix_len]. }
  destruct (rsplit_once DOT m) as [[stem e]|] eqn:Hr; [|done].
  apply rsplit_once_Some in Hr as [-> _].
  destruct (Z.ltb_spec (str_len (DOT :: e)) 255); [|done].
  apply Forall_app in Hsafe as [? ?]. split_and!.
  - by destruct (floor_prefix _ stem).
  - apply Forall_app. split; [by apply Forall_floor_prefix|done].
  - rewrite str_len_app. pose proof (floor_prefix_len (255 - str_len (DOT :: e)) stem). lia.
Qed.

Lemma clean_filename_id s : clean_name s → clean_filename s = s.
Proof.
  intros (Hne & Hs & Hl). destruct s as [|c s]; [done|]. unfold clean_filename.
  apply existsb_invalid_false in Hs. rewrite Hs.
  destruct (Z.leb_spec (str_len (c :: s)) MAX_FILENAME_BYTES); [done|lia].
Qed.

Lemma safe_char_no_slash s : Forall safe_char s → SLASH ∉ s.
Proof. intros Hs Hin. rewrite Forall_forall in Hs. by specialize (Hs _ Hin). Qed.

(** ** Sanitising path components *)

(** A component that names one directory entry and nothing else. *)
Definition safe_component (s : str) : Prop :=
  normal_name s = true ∧ Forall safe_char s ∧ contains (lit "..") s = false
  ∧ str_len s <= MAX_FILENAME_BYTES.

Lemma Forall_infix (P : Z → Prop) a s b : Forall P (a ++ s ++ b) → Forall P s.
Proof. rewrite !Forall_app. tauto. Qed.

Lemma sanitize_safe name : safe_component (sanitize_path_component name).
Proof.
  destruct (clean_filename_clean name) as (_ & Hsafe & Hlen).
  unfold sanitize_path_component, replace.
  set (r := replace_go (lit "..") (lit "_") 0 (clean_filename name)).
  assert (Forall safe_char r) as Hr by (apply replace_go_Forall; [by repeat constructor|done]).
  assert (contains (lit "..") r = false) as Hd by apply replace_dots_clean.
  assert (str_len r <= 255) as Hrl.
  { pose proof (replace_go_len (lit "..") (lit "_") 0 (clean_filename name) ltac:(done) ltac:(done)).
    unfold MAX_FILENAME_BYTES in Hlen. change (drop 0 ?l) with l in *. subst r. lia. }
  clearbody r. clear Hlen Hsafe name.
  pose proof (trim_matches_infix dot_or_space r) as (a & b & Hab).
  destruct (trim_matches dot_or_space r) as [|c t] eqn:Ht.
  { split_and!; [done|by repeat constructor|done|done]. }
  pose proof (trim_matches_head _ _ _ _ Ht) as Hc. rewrite Hab in Hr, Hd, Hrl.
  apply Forall_infix in Hr. rewrite !str_len_app in Hrl.
  pose proof (str_len_nonneg a). pose proof (str_len_nonneg b).
  split_and!; [|done| |unfold MAX_FILENAME_BYTES; lia].
  - apply normal_name_true. split_and!; [done| | |by apply safe_char_no_slash];
      intros [= -> _]; done.
  - destruct (contains (lit "..") (c :: t)) eqn:E; [|done].
    by rewrite (contains_infix _ a _ b E) in Hd.
Qed.

(** ** The rendered directory stays below the download directory *)

Section Confinement.
Context `{PathEnv}.

Lemma fold_join_components segs d :
  ∃ cs, components (fold_left (λ p component,
          match component with [] => p | _ => join p (sanitize_path_component component) end)
          segs d) = components d ++ map Normal cs ∧ Forall safe_component cs.
Proof.
  revert d. induction segs as [|seg segs IH]; intros d; cbn.
  { exists []. by rewrite app_nil_r. }
  destruct seg as [|c seg]; [apply IH|].
  destruct (IH (join d (sanitize_path_component (c :: seg)))) as (cs & -> & Hcs).
  pose proof (sanitize_safe (c :: seg)) as Hs.
  exists (sanitize_path_component (c :: seg) :: cs).
  rewrite components_join by apply Hs. rewrite <- app_assoc. split; [done|by constructor].
Qed.

Lemma local_download_dir_components directory fs created album :
  ∃ cs, components (local_download_dir directory fs created album)
        = components directory ++ map Normal cs ∧ Forall safe_component cs.
Proof.
  unfold local_download_dir. case_match.
  - exists []. by rewrite app_nil_r.
  - apply fold_join_components.
Qed.

Lemma clean_name_normal s :
  clean_name s → s ≠ [DOT] → s ≠ [DOT; DOT] → normal_name s = true.
Proof. intros (?&?&?) ? ?. apply normal_name_true. eauto using safe_char_no_slash. Qed.
End Confinement.

(** ** Suffixes *)

Lemma insert_suffix_inj p s1 s2 : insert_suffix p s1 = insert_suffix p s2 → s1 = s2.
Proof.
  unfold insert_suffix. destruct (rsplit_once DOT p) as [[stem e]|]; intros Heq.
  - do 2 apply app_inv_head in Heq. by apply app_inv_tail in Heq.
  - by do 2 apply app_inv_head in Heq.
Qed.

Lemma insert_suffix_ne p s : insert_suffix p s ≠ p.
Proof.
  unfold insert_suffix. destruct (rsplit_once DOT p) as [[stem e]|] eqn:E; intros Heq;
    [apply rsplit_once_Some in E as [-> _]|];
    apply (f_equal length) in Heq; rewrite !length_app in Heq; cbn in Heq;
    rewrite ?length_app in Heq; cbn in Heq; lia.
Qed.

Lemma insert_suffix_len p s : str_len (insert_suffix p s) = str_len p + 1 + str_len s.
Proof.
  unfold insert_suffix. destruct (rsplit_once DOT p) as [[stem e]|] eqn:E;
    [apply rsplit_once_Some in E as [-> _]|]; rewrite !str_len_app; cbn [str_len];
    change (str_len (lit "-")) with 1; lia.
Qed.

Lemma insert_suffix_Forall (P : Z → Prop) p s :
  P 45 → Forall P p → Forall P s → Forall P (insert_suffix p s).
Proof.
  intros H45 Hp Hs. unfold insert_suffix.
  destruct (rsplit_once DOT p) as [[stem e]|] eqn:E.
  - apply rsplit_once_Some in E as [-> _]. apply Forall_app in Hp as [? ?].
    rewrite !Forall_app. split_and!; try done. by repeat constructor.
  - rewrite !Forall_app. split_and!; try done. by repeat constructor.
Qed.

Lemma add_dedup_suffix_insert p size : add_dedup_suffix p size = insert_suffix p (show_u64 size).
Proof. done. Qed.

Lemma rsplit_insert_suffix p s stem e :
  rsplit_once DOT p = Some (stem, e) →
  rsplit_once DOT (insert_suffix p s) = Some (stem ++ lit "-" ++ s, e).
Proof.
  intros E. unfold insert_suffix. rewrite E. apply rsplit_once_Some in E as [_ He].
  apply rsplit_once_Some. split; [|done]. by rewrite <- !app_assoc.
Qed.

Lemma ordinal_after_true prefix s :
  ordinal_after prefix s = true ↔ ∃ o, is_Some (parse_u64 o) ∧ s = prefix ++ o.
Proof.
  unfold ordinal_after. split.
  - destruct (strip_prefix prefix s) as [o|] eqn:E; [|done].
    apply strip_prefix_Some in E as ->. intros ?%bool_decide_eq_true. by exists o.
  - intros (o & Ho & ->). rewrite (proj2 (strip_prefix_Some prefix (prefix ++ o) o) eq_refl).
    by apply bool_decide_eq_true.
Qed.

Lemma ordinal_after_show prefix n :
  0 <= n <= U64_MAX → ordinal_after prefix (prefix ++ show_u64 n) = true.
Proof.
  intros Hn. unfold ordinal_after.
  rewrite (proj2 (strip_prefix_Some _ _ _) eq_refl), parse_show_u64 by done. done.
Qed.

Lemma digit_char_safe c : digit_char c = true → safe_char c.
Proof.
  unfold digit_char, safe_char, is_invalid, is_control, memb. intros. zbool.
  rewrite bool_decide_eq_false_2; [lia|].
  rewrite !not_elem_of_cons. split_and!; try lia. apply not_elem_of_nil.
Qed.

Lemma show_u64_safe n : 0 <= n → Forall safe_char (show_u64 n).
Proof.
  intros Hn. apply show_u64_digits in Hn. rewrite Forall_forall. intros c Hc.
  apply digit_char_safe. apply list_elem_of_In in Hc.
  eapply (proj1 (forallb_forall _ _)); eauto.
Qed.

(** The character map of [clean_filename]. *)
Definition clean_char (c : Z) : Z := if is_invalid c then 95 else c.

Lemma map_clean_len s : str_len (map clean_char s) <= str_len s.
Proof.
  induction s as [|c s IH]; cbn; [lia|]. unfold clean_char at 1.
  destruct (is_invalid c); [|lia]. change (len_utf8 95) with 1.
  pose proof (len_utf8_pos c). lia.
Qed.

Lemma clean_filename_short s :
  s ≠ [] → str_len s <= MAX_FILENAME_BYTES → clean_filename s = map clean_char s.
Proof.
  intros Hs Hlen. pose proof (map_clean_len s) as Hm. unfold clean_filename.
  destruct s as [|c s]; [done|]. rewrite (proj2 (Z.leb_le _ _) Hlen). cbn [andb].
  destruct (existsb is_invalid (c :: s)) eqn:E; cbn [negb].
  - rewrite (proj2 (Z.leb_le _ _)); [done|]. unfold clean_char in Hm. lia.
  - apply existsb_invalid_false in E. symmetry. clear -E. induction E as [|x l Hx]; [done|].
    cbn. f_equal; [|done]. unfold clean_char. by rewrite Hx.
Qed.

Lemma insert_suffix_split p : ∃ a b, (45 ∈ a) ∧ ∀ s, insert_suffix p s = a ++ s ++ b.
Proof.
  unfold insert_suffix. destruct (rsplit_once DOT p) as [[stem e]|].
  - exists (stem ++ lit "-"), (DOT :: e). split.
    + apply elem_of_app. right. by apply list_elem_of_singleton.
    + intros s. by rewrite <- !app_assoc.
  - exists (p ++ lit "-"), []. split.
    + apply elem_of_app. right. by apply list_elem_of_singleton.
    + intros s. by rewrite app_nil_r, <- app_assoc.
Qed.

(** ** AM/PM spelling *)

Lemma normalize_ampm_space a w1 w2 c1 c2 r :
  ampm_space w1 = true → ampm_space w2 = true → is_ampm c1 c2 = true →
  normalize_ampm (a ++ w1 :: c1 :: c2 :: r) = normalize_ampm (a ++ w2 :: c1 :: c2 :: r).
Proof.
  intros H1 H2 Hc.
  assert (∀ w x, ampm_space w = true → is_ampm w x = false ∧ is_ampm x w = false) as Hw.
  { intros w x Hw. unfold ampm_space in Hw. apply memb_true in Hw.
    rewrite !elem_of_cons in Hw. unfold is_ampm.
    destruct Hw as [->|[->|[->|[]%not_elem_of_nil]]]; split; cbn; rewrite ?andb_false_r; done. }
  induction a as [|x a IH]; cbn [app].
  { cbn [normalize_ampm]. by rewrite H1, H2, Hc. }
  cbn [normalize_ampm]. rewrite IH.
  assert (∀ w, ampm_space w = true →
    match a ++ w :: c1 :: c2 :: r with d1 :: d2 :: _ => is_ampm d1 d2 | _ => false end
    = match a with d1 :: d2 :: _ => is_ampm d1 d2 | _ => false end) as Hm.
  { intros w Hs. destruct a as [|d1 [|d2 a]]; cbn;
      [apply (proj1 (Hw w c1 Hs))|apply (proj2 (Hw w d1 Hs))|done]. }
  by rewrite !Hm.
Qed.

(** ** Coherence of the directory cache *)

Module DirCacheFacts.
Import DirCache.
Section WithEnv.
Context `{PathEnv}.

(** Every cached listing is the listing of a directory with that key. *)
Definition coherent (c : t) : Prop :=
  ∀ k entries, dirs c !! k = Some entries →
    ∃ d, components d = k ∧ entries = read_dir_entries d.

Lemma coherent_new : coherent new.
Proof. intros k e Hk. cbn in Hk. by rewrite lookup_empty in Hk. Qed.

Lemma ensure_dir_coherent c d : coherent c → coherent (ensure_dir c d).1.
Proof.
  intros Hc. unfold ensure_dir. case_match; [done|]. intros k e. cbn.
  rewrite lookup_insert. case_decide as E; [|apply Hc].
  intros [= <-]. subst. by exists d.
Qed.

Lemma exists_file_size c p :
  exists_ c p = ((file_size c p).1, bool_decide (is_Some (file_size c p).2)).
Proof.
  unfold exists_, file_size. destruct (file_name p), (parent p); try done.
  by destruct (ensure_dir c _).
Qed.

Lemma file_size_coherent c p : coherent c → coherent (file_size c p).1.
Proof.
  intros Hc. unfold file_size. destruct (file_name p), (parent p) as [d|]; try done.
  pose proof (ensure_dir_coherent c d Hc). by destruct (ensure_dir c d).
Qed.

Lemma find_ampm_variant_coherent c p : coherent c → coherent (find_ampm_variant c p).1.
Proof.
  intros Hc. unfold find_ampm_variant. destruct (file_name p); [|done].
  case_match; [done|]. destruct (parent p) as [d|]; [|done].
  pose proof (ensure_dir_coherent c d Hc). by destruct (ensure_dir c d).
Qed.

Lemma ensure_dir_entries c d :
  dirs (ensure_dir c d).1 !! components d = Some (ensure_dir c d).2.
Proof. unfold ensure_dir. case_match; [done|]. cbn. by rewrite lookup_insert_eq. Qed.

Lemma ensure_dir_stable c d k e :
  dirs c !! k = Some e → dirs (ensure_dir c d).1 !! k = Some e.
Proof.
  intros Hk. unfold ensure_dir. case_match eqn:E; [done|]. cbn.
  rewrite lookup_insert_ne; [done|congruence].
Qed.

Lemma file_size_stable c p k e :
  dirs c !! k = Some e → dirs (file_size c p).1 !! k = Some e.
Proof.
  intros Hk. unfold file_size. destruct (file_name p), (parent p) as [d|]; try done.
  pose proof (ensure_dir_stable c d k e Hk). by destruct (ensure_dir c d).
Qed.

(** Asking again gives the same answer. *)
Lemma file_size_repeat c p :
  file_size (file_size c p).1 p = ((file_size c p).1, (file_size c p).2).
Proof.
  unfold file_size. destruct (file_name p) as [f|], (parent p) as [d|]; try done.
  pose proof (ensure_dir_entries c d) as Hd.
  destruct (ensure_dir c d) as [c' es]; cbn in *. unfold ensure_dir. by rewrite Hd.
Qed.
End WithEnv.
End DirCacheFacts.

(** ** Properties *)

(** A concrete environment for the witnesses: dates render as their
    template, [/d] holds one file. *)
Definition sample_env : PathEnv := {|
  DateTimeLocal := unit;
  strftime := λ _ f, f;
  sha256_digest := λ bs, bs ++ repeat 7 32;
  base64_url_no_pad := λ bs, map (λ b, 65 + b mod 26) bs;
  read_dir_entries := λ d, if str_eqb d (lit "/d") then {[ lit "a.jpg" := 10 ]} else ∅;
  hash_order := λ m, (map_to_list m).*1;
  case_insensitive := false;
|}.

(** [clean_filename] always returns a non-empty name of at most 255
    bytes without separators, reserved or control characters, and changes
    nothing when applied again. *)
Theorem clean_filename_spec s :
  clean_name (clean_filename s) ∧ clean_filename (clean_filename s) = clean_filename s.
Proof. split; [apply clean_filename_clean|apply clean_filename_id, clean_filename_clean]. Qed.

(** C36: path-traversal safety.  Whatever the template, the rendered date,
    the album name and the file name contain, the download path is the
    download directory followed by ordinary components only (none empty,
    none a dot entry, each at most 255 bytes), provided the cleaned file
    name is not itself a dot entry. *)
Theorem local_download_path_confined `{PathEnv} directory fs created filename album :
  clean_filename filename ≠ lit "." → clean_filename filename ≠ lit ".." →
  ∃ cs, components (local_download_path directory fs created filename album)
        = components directory ++ map Normal (cs ++ [clean_filename filename])
      ∧ Forall safe_component cs ∧ clean_name (clean_filename filename).
Proof.
  intros H1 H2. unfold local_download_path.
  destruct (local_download_dir_components directory fs created album) as (cs & Hd & Hcs).
  exists cs. pose proof (clean_filename_clean filename) as Hc.
  rewrite components_join by (by apply clean_name_normal).
  by rewrite Hd, <- app_assoc, map_app.
Qed.

Lemma local_download_path_confined_witness :
  ∃ cs, components (@local_download_path sample_env (lit "/d") (lit "../{album}/%Y") tt
                      (lit "../x.jpg") (Some (lit "../..")))
        = components (lit "/d") ++ map Normal (cs ++ [clean_filename (lit "../x.jpg")])
      ∧ Forall safe_component cs ∧ clean_name (clean_filename (lit "../x.jpg")).
Proof. apply (@local_download_path_confined sample_env); vm_compute; discriminate. Defined.

(** The exception is real: a file named [..] is cleaned to itself and the
    path leaves the rendered directory. *)
Example dotdot_filename_escapes :
  components (@local_download_path sample_env (lit "/d") (lit "%Y") tt (lit "..") None)
  = [RootDir; Normal (lit "d"); Normal (lit "%Y"); ParentDir].
Proof. reflexivity. Qed.

(** A name without the space does not find its spelling with a space; the
    other way round it does. *)
Example ampm_canonical_name_not_matched :
  let c := {| DirCache.dirs := {[ components (lit "/d") := {[ lit "1 PM.jpg" := 10 ]} ]} |} in
  let c' := {| DirCache.dirs := {[ components (lit "/d") := {[ lit "1PM.jpg" := 10 ]} ]} |} in
  (@DirCache.find_ampm_variant sample_env c (lit "/d/1PM.jpg")).2 = None
  ∧ (@DirCache.find_ampm_variant sample_env c' (lit "/d/1 PM.jpg")).2 = Some (lit "/d/1PM.jpg").
Proof. split; vm_compute; reflexivity. Qed.

(** the collision-family test recognises exactly the names the collision
    layer generates: the base name with the asset id before the extension,
    optionally followed by a dash and a decimal ordinal. *)
Theorem filename_matches_identity_collision_spec base asset_id candidate :
  filename_matches_identity_collision base asset_id candidate = true ↔
  candidate = insert_asset_identity_suffix (clean_filename base) asset_id ∨
  ∃ ordinal, is_Some (parse_u64 ordinal) ∧
    candidate = insert_suffix (clean_filename base)
                  (asset_identity_suffix asset_id ++ lit "-" ++ ordinal).
Proof.
  unfold filename_matches_identity_collision, insert_asset_identity_suffix.
  set (b := clean_filename base). set (i := asset_identity_suffix asset_id).
  destruct (str_eqb candidate (insert_suffix b i)) eqn:E.
  { apply str_eqb_eq in E. naive_solver. }
  apply str_eqb_neq in E.
  destruct (rsplit_once DOT b) as [[stem ext]|] eqn:Eb.
  - assert (∀ o, insert_suffix b (i ++ lit "-" ++ o)
               = (stem ++ lit "-" ++ i ++ lit "-") ++ o ++ DOT :: ext) as Hins.
    { intros o. unfold insert_suffix. rewrite Eb. by rewrite <- !app_assoc. }
    pose proof Eb as [_ Hext]%rsplit_once_Some.
    destruct (rsplit_once DOT candidate) as [[cs ce]|] eqn:Ec.
    + pose proof Ec as [-> Hce]%rsplit_once_Some. destruct (str_eqb ce ext) eqn:Ee; cbn [negb].
      * apply str_eqb_eq in Ee as ->. rewrite ordinal_after_true. split.
        -- intros (o & Ho & ->). right. exists o. by rewrite Hins, <- !app_assoc.
        -- intros [?|(o & Ho & Heq)]; [done|]. exists o. split; [done|].
           rewrite Hins, app_assoc in Heq. by apply app_inv_tail in Heq.
      * apply str_eqb_neq in Ee. split; [done|]. intros [?|(o & Ho & Heq)]; [done|].
        pose proof (rsplit_insert_suffix b (i ++ lit "-" ++ o) _ _ Eb). congruence.
    + split; [done|]. intros [?|(o & Ho & Heq)]; [done|].
      pose proof (rsplit_insert_suffix b (i ++ lit "-" ++ o) _ _ Eb). congruence.
  - assert (∀ o, insert_suffix b (i ++ lit "-" ++ o)
               = (b ++ lit "-" ++ i ++ lit "-") ++ o) as Hins.
    { intros o. unfold insert_suffix. rewrite Eb. by rewrite <- !app_assoc. }
    setoid_rewrite Hins. rewrite ordinal_after_true. naive_solver.
Qed.

(** two different sizes never get the same de-duplicated name, and the
    name keeps the extension of the original. *)
Theorem add_dedup_suffix_inj p n m :
  0 <= n <= U64_MAX → 0 <= m <= U64_MAX →
  (add_dedup_suffix p n = add_dedup_suffix p m → n = m) ∧
  snd <$> rsplit_once DOT (add_dedup_suffix p n) = snd <$> rsplit_once DOT p.
Proof.
  intros Hn Hm. rewrite !add_dedup_suffix_insert. split.
  - intros Heq%insert_suffix_inj. by apply show_u64_inj.
  - destruct (rsplit_once DOT p) as [[stem e]|] eqn:E.
    + by rewrite (rsplit_insert_suffix _ _ _ _ E).
    + unfold insert_suffix. rewrite E. apply rsplit_once_None in E.
      rewrite (proj2 (rsplit_once_None _ _)); [done|].
      rewrite !not_elem_of_app. split_and!; [done|by vm_compute; set_solver|].
      intros Hin. pose proof (show_u64_digits n ltac:(lia)) as Hd.
      apply list_elem_of_In in Hin. rewrite forallb_forall in Hd. by apply Hd in Hin.
Qed.

Lemma add_dedup_suffix_inj_witness :
  (add_dedup_suffix (lit "a.jpg") 1 = add_dedup_suffix (lit "a.jpg") 2 → 1 = 2) ∧
  snd <$> rsplit_once DOT (add_dedup_suffix (lit "a.jpg") 1) = snd <$> rsplit_once DOT (lit "a.jpg").
Proof. apply (add_dedup_suffix_inj (lit "a.jpg") 1 2); unfold U64_MAX; lia. Defined.

(** file names that differ only in which of the three space characters
    precedes AM or PM normalise to the same name. *)
Theorem normalize_ampm_variants a w1 w2 c1 c2 r :
  ampm_space w1 = true → ampm_space w2 = true → is_ampm c1 c2 = true →
  normalize_ampm (a ++ w1 :: c1 :: c2 :: r) = normalize_ampm (a ++ w2 :: c1 :: c2 :: r).
Proof. apply normalize_ampm_space. Qed.

Lemma normalize_ampm_variants_witness :
  normalize_ampm (lit "1.40.01" ++ 8239 :: 80 :: 77 :: lit ".PNG")
  = normalize_ampm (lit "1.40.01" ++ 32 :: 80 :: 77 :: lit ".PNG").
Proof. apply (normalize_ampm_variants (lit "1.40.01")); reflexivity. Defined.

(** from any coherent cache, [exists] and [file_size] answer from the
    listing of the file's own directory, leave the cache coherent, and never
    disturb a listing already cached. *)
Theorem dir_cache_answers `{PathEnv} (c : DirCache.t) p :
  DirCacheFacts.coherent c →
  let '(c', size) := DirCache.file_size c p in
  DirCacheFacts.coherent c'
  ∧ (∀ k e, DirCache.dirs c !! k = Some e → DirCache.dirs c' !! k = Some e)
  ∧ DirCache.exists_ c p = (c', bool_decide (is_Some size))
  ∧ match file_name p, parent p with
    | Some f, Some d => ∃ d', components d' = components d ∧ size = read_dir_entries d' !! f
    | _, _ => size = None
    end.
Proof.
  intros Hc. pose proof (DirCacheFacts.file_size_coherent c p Hc) as Hc'.
  pose proof (DirCacheFacts.file_size_stable c p) as Hst.
  rewrite DirCacheFacts.exists_file_size.
  destruct (DirCache.file_size c p) as [c' size] eqn:E; cbn in *. split_and!; try done.
  unfold DirCache.file_size in E. destruct (file_name p) as [f|]; [|by injection E as <- <-].
  destruct (parent p) as [d|]; [|by injection E as <- <-].
  pose proof (DirCacheFacts.ensure_dir_entries c d) as Hd.
  destruct (DirCache.ensure_dir c d) as [c2 es]; cbn in *. injection E as <- <-.
  destruct (Hc' _ _ Hd) as (d' & Hd' & ->). by exists d'.
Qed.

Lemma dir_cache_answers_witness :
  let '(c', size) := @DirCache.file_size sample_env DirCache.new (lit "/d/a.jpg") in
  @DirCacheFacts.coherent sample_env c'
  ∧ (∀ k e, DirCache.dirs DirCache.new !! k = Some e → DirCache.dirs c' !! k = Some e)
  ∧ @DirCache.exists_ sample_env DirCache.new (lit "/d/a.jpg") = (c', bool_decide (is_Some size))
  ∧ match file_name (lit "/d/a.jpg"), parent (lit "/d/a.jpg") with
    | Some f, Some d => ∃ d', components d' = components d
                        ∧ size = @read_dir_entries sample_env d' !! f
    | _, _ => size = None
    end.
Proof. apply (@dir_cache_answers sample_env). apply DirCacheFacts.coherent_new. Defined.
