(* ===== verification/Types.v ===== *)
(** * Shared data types

    [src/types.rs], [src/state/types.rs], the media selection and date
    bounds of [src/config.rs], [AssetVersion]/[PhotoAsset] of
    [src/icloud/photos/], and the pass kinds of [src/commands/service.rs]. *)
From S2P Require Import Prelude RustStr.

(** ** [src/types.rs] *)

Inductive AssetItemType := Image | Movie.

Inductive AssetVersionSize :=
| Original | Alternative | Medium | Thumb | Adjusted
| LiveOriginal | LiveMedium | LiveThumb | LiveAdjusted.

Inductive ChangeReason := Created | SoftDeleted | HardDeleted | Hidden.

Inductive PhotoResolution := PRNone | PROriginal | PRMedium | PRThumb.
Inductive LivePhotoResolution := LROriginal | LRMedium | LRThumb.
Inductive FileMatchPolicy := NameSizeDedupWithSuffix | NameId7.
Inductive RawPolicy := AsIs | PreferRaw | PreferJpeg.
Inductive LivePhotoMovFilenamePolicy := MovSuffix | MovOriginal.
Inductive LivePhotoMode := LPBoth | LPImageOnly | LPVideoOnly | LPSkip.

#[export] Instance AssetItemType_eq : EqDecision AssetItemType.
Proof. solve_decision. Defined.
#[export] Instance AssetVersionSize_eq : EqDecision AssetVersionSize.
Proof. solve_decision. Defined.
#[export] Instance ChangeReason_eq : EqDecision ChangeReason.
Proof. solve_decision. Defined.
#[export] Instance FileMatchPolicy_eq : EqDecision FileMatchPolicy.
Proof. solve_decision. Defined.
#[export] Instance RawPolicy_eq : EqDecision RawPolicy.
Proof. solve_decision. Defined.
#[export] Instance LivePhotoMode_eq : EqDecision LivePhotoMode.
Proof. solve_decision. Defined.

Definition PhotoResolution_to_asset_version_size (r : PhotoResolution) : option AssetVersionSize :=
  match r with
  | PRNone => None
  | PROriginal => Some Original
  | PRMedium => Some Medium
  | PRThumb => Some Thumb
  end.

Definition LivePhotoResolution_to_asset_version_size (r : LivePhotoResolution) : AssetVersionSize :=
  match r with
  | LROriginal => LiveOriginal
  | LRMedium => LiveMedium
  | LRThumb => LiveThumb
  end.

(** ** [src/state/types.rs] *)

Inductive VersionSizeKey :=
| VOriginal | VMedium | VThumb | VAdjusted | VAlternative
| VLiveOriginal | VLiveMedium | VLiveThumb | VLiveAdjusted.
#[export] Instance VersionSizeKey_eq : EqDecision VersionSizeKey.
Proof. solve_decision. Defined.

Definition VersionSizeKey_as_str (v : VersionSizeKey) : str :=
  match v with
  | VOriginal => lit "original"
  | VMedium => lit "medium"
  | VThumb => lit "thumb"
  | VAdjusted => lit "adjusted"
  | VAlternative => lit "alternative"
  | VLiveOriginal => lit "live_original"
  | VLiveMedium => lit "live_medium"
  | VLiveThumb => lit "live_thumb"
  | VLiveAdjusted => lit "live_adjusted"
  end.

Definition is_primary_media (v : VersionSizeKey) : bool :=
  match v with VOriginal | VMedium | VThumb => true | _ => false end.

Definition is_live_photo_motion (v : VersionSizeKey) : bool :=
  match v with VLiveOriginal | VLiveMedium | VLiveThumb => true | _ => false end.

Definition VersionSizeKey_from_str (s : str) : option VersionSizeKey :=
  if str_eqb s (lit "original") then Some VOriginal
  else if str_eqb s (lit "medium") then Some VMedium
  else if str_eqb s (lit "thumb") then Some VThumb
  else if str_eqb s (lit "adjusted") then Some VAdjusted
  else if str_eqb s (lit "alternative") then Some VAlternative
  else if str_eqb s (lit "live_original") || str_eqb s (lit "liveoriginal") then Some VLiveOriginal
  else if str_eqb s (lit "live_medium") || str_eqb s (lit "livemedium") then Some VLiveMedium
  else if str_eqb s (lit "live_thumb") || str_eqb s (lit "livethumb") then Some VLiveThumb
  else if str_eqb s (lit "live_adjusted") || str_eqb s (lit "liveadjusted") then Some VLiveAdjusted
  else None.

(** [impl From<AssetVersionSize> for VersionSizeKey]. *)
Definition VersionSizeKey_from (v : AssetVersionSize) : VersionSizeKey :=
  match v with
  | Original => VOriginal
  | Medium => VMedium
  | Thumb => VThumb
  | Adjusted => VAdjusted
  | Alternative => VAlternative
  | LiveOriginal => VLiveOriginal
  | LiveMedium => VLiveMedium
  | LiveThumb => VLiveThumb
  | LiveAdjusted => VLiveAdjusted
  end.

Inductive AssetStatus := Pending | PolicyExcluded | Downloaded | Failed.
#[export] Instance AssetStatus_eq : EqDecision AssetStatus.
Proof. solve_decision. Defined.

Definition AssetStatus_as_str (s : AssetStatus) : str :=
  match s with
  | Pending => lit "pending"
  | PolicyExcluded => lit "policy_excluded"
  | Downloaded => lit "downloaded"
  | Failed => lit "failed"
  end.

Definition AssetStatus_from_str (s : str) : option AssetStatus :=
  if str_eqb s (lit "pending") then Some Pending
  else if str_eqb s (lit "policy_excluded") then Some PolicyExcluded
  else if str_eqb s (lit "downloaded") then Some Downloaded
  else if str_eqb s (lit "failed") then Some Failed
  else None.

Inductive MediaType := Photo | Video | LivePhotoImage | LivePhotoVideo.
#[export] Instance MediaType_eq : EqDecision MediaType.
Proof. solve_decision. Defined.

Definition MediaType_as_str (m : MediaType) : str :=
  match m with
  | Photo => lit "photo"
  | Video => lit "video"
  | LivePhotoImage => lit "live_photo_image"
  | LivePhotoVideo => lit "live_photo_video"
  end.

Definition MediaType_from_str (s : str) : option MediaType :=
  if str_eqb s (lit "photo") then Some Photo
  else if str_eqb s (lit "video") then Some Video
  else if str_eqb s (lit "live_photo_image") then Some LivePhotoImage
  else if str_eqb s (lit "live_photo_video") then Some LivePhotoVideo
  else None.

Definition is_photo_like (m : MediaType) : bool :=
  match m with Photo | LivePhotoImage => true | _ => false end.
Definition is_video_like (m : MediaType) : bool :=
  match m with Video | LivePhotoVideo => true | _ => false end.

(** Instants are nanoseconds since the epoch, calendar dates days since it;
    [f64] fields, which are only copied, are their bit patterns. *)
Record AssetMetadata := {
  am_source : option str;
  am_is_favorite : bool;
  am_rating : option Z;
  am_latitude : option Z;
  am_longitude : option Z;
  am_altitude : option Z;
  am_orientation : option Z;
  am_duration_secs : option Z;
  am_timezone_offset : option Z;
  am_width : option Z;
  am_height : option Z;
  am_title : option str;
  am_keywords : option str;
  am_description : option str;
  am_media_subtype : option str;
  am_burst_id : option str;
  am_is_hidden : bool;
  am_is_archived : bool;
  am_modified_at : option Z;
  am_is_deleted : bool;
  am_deleted_at : option Z;
  am_provider_data : option str;
  am_metadata_hash : option str;
}.

Definition AssetMetadata_default : AssetMetadata := {|
  am_source := None; am_is_favorite := false; am_rating := None; am_latitude := None; am_longitude := None;
  am_altitude := None; am_orientation := None; am_duration_secs := None; am_timezone_offset := None;
  am_width := None; am_height := None; am_title := None; am_keywords := None; am_description := None;
  am_media_subtype := None; am_burst_id := None; am_is_hidden := false; am_is_archived := false;
  am_modified_at := None; am_is_deleted := false; am_deleted_at := None; am_provider_data := None;
  am_metadata_hash := None |}.

(** ** [src/icloud/photos/]: versions and assets *)

Record AssetVersion := {
  av_size : Z;
  av_url : str;
  av_asset_type : str;
  av_checksum : str;
}.

Record MalformedResource := {
  mr_version_size : AssetVersionSize;
  mr_field : str;
  mr_reason : str;
}.

(** [asset_date] is [asset_date_ms.and_then(f64_to_millis_datetime)], and
    [added_instant] the same of [added_date_ms]. *)
Record PhotoAsset := {
  record_name : str;
  asset_record_name : str;
  state_record_name : option str;
  source_zone : option str;
  filename : option str;
  asset_metadata : AssetMetadata;
  versions : list (AssetVersionSize * AssetVersion);
  malformed_resources : list MalformedResource;
  asset_date : option Z;
  added_instant : option Z;
  item_type : option AssetItemType;
}.

Definition has_valid_id (a : PhotoAsset) : bool := negb (str_eqb (record_name a) []).
Definition state_id (a : PhotoAsset) : str := default (record_name a) (state_record_name a).
(** [created()]: the Unix epoch when the date is missing or invalid. *)
Definition created (a : PhotoAsset) : Z := default 0 (asset_date a).
Definition added_date (a : PhotoAsset) : Z := default 0 (added_instant a).
Definition contains_version (a : PhotoAsset) (key : AssetVersionSize) : bool :=
  existsb (λ kv, bool_decide (kv.1 = key)) (versions a).
Definition is_live_photo (a : PhotoAsset) : bool :=
  bool_decide (item_type a = Some Image)
  && (contains_version a LiveOriginal || contains_version a LiveMedium
      || contains_version a LiveThumb || contains_version a LiveAdjusted).

(** ** [src/config.rs]: media selection and date bounds *)

Record MediaSelection := { ms_photos : bool; ms_videos : bool; ms_live_photos : bool }.

Inductive CreatedDateFilter :=
| Instant (boundary : Z)
| CaptureDate (boundary : Z).

Definition excludes_before (f : CreatedDateFilter) (created_at capture_date : Z) : bool :=
  match f with
  | Instant boundary => created_at <? boundary
  | CaptureDate boundary => capture_date <? boundary
  end.

Definition excludes_after (f : CreatedDateFilter) (created_at capture_date : Z) : bool :=
  match f with
  | Instant boundary => boundary <? created_at
  | CaptureDate boundary => boundary <? capture_date
  end.

(** ** [src/commands/service.rs]: passes *)

Inductive PassKind := PassAlbum | PassSmartFolder | PassUnfiled.
#[export] Instance PassKind_eq : EqDecision PassKind.
Proof. solve_decision. Defined.

Definition PassKind_token (k : PassKind) : str :=
  match k with
  | PassAlbum | PassUnfiled => lit "{album}"
  | PassSmartFolder => lit "{smart-folder}"
  end.

(** [album_name] is the [name] of the pass's [PhotoAlbum]. *)
Record AlbumPass := {
  pass_kind : PassKind;
  pass_album_name : str;
  pass_exclude_ids : gset str;
}.

(** ** Publication policy: [src/download/file.rs] *)

Record ExistingFileFingerprint := { fp_size : Z; fp_sha256 : list Z }.
Inductive FinalPublication := NoReplace | ReplaceTruncated (expected : ExistingFileFingerprint).

#[export] Instance ExistingFileFingerprint_eq_dec : EqDecision ExistingFileFingerprint.
Proof. solve_decision. Defined.
#[export] Instance FinalPublication_eq_dec : EqDecision FinalPublication.
Proof. solve_decision. Defined.

(** ** Properties *)

Lemma VersionSizeKey_roundtrip v : VersionSizeKey_from_str (VersionSizeKey_as_str v) = Some v.
Proof. by destruct v. Qed.

(** every version key, asset status and media type survives being
    stored as text and read back, so a state row keeps its identity. *)
Theorem state_enums_roundtrip v s m :
  VersionSizeKey_from_str (VersionSizeKey_as_str v) = Some v
  ∧ AssetStatus_from_str (AssetStatus_as_str s) = Some s
  ∧ MediaType_from_str (MediaType_as_str m) = Some m.
Proof. by destruct v, s, m. Qed.

Lemma VersionSizeKey_from_inj a b : VersionSizeKey_from a = VersionSizeKey_from b → a = b.
Proof. by destruct a, b. Qed.
