(* ===== verification/StateTypes.v ===== *)
(** * Records of the state store

    [src/state/types.rs]: the metadata hash and [AssetRecord], and the small
    types of [src/state/db.rs] that travel between the store and its clients. *)
From S2P Require Import Prelude RustStr Types.

(** What the store takes from its libraries: lower-case hexadecimal SHA-256,
    [format!("{v:.9}")] of an [f64], whether the SQLite build enforces foreign
    keys, and the range of chrono's instants. *)
Class StateEnv := {
  sha256_hex : list Z → str;
  sha256_hex_nonempty : ∀ bytes, sha256_hex bytes <> [];
  format_f64 : Z → str;
  foreign_keys : bool;
  (** [Utc.timestamp_opt(secs, 0).single()] is a date. *)
  timestamp_ok : Z → bool;
}.

Definition NANOS : Z := 1000000000.
(** [DateTime::timestamp()]: whole seconds, rounded down. *)
Definition timestamp (t : Z) : Z := t / NANOS.

(** [i64::to_string]. *)
Definition show_i64 (z : Z) : str := if z <? 0 then 45 :: show_u64 (- z) else show_u64 z.

(** ** The metadata hash *)

Section Hash.
Context `{StateEnv}.

Definition hash_opt (tag : string) (value : option str) : list Z :=
  as_bytes (lit tag) ++ as_bytes (lit "|") ++
  (match value with Some v => as_bytes (lit "S|") ++ as_bytes v | None => as_bytes (lit "N") end) ++ [31].

Definition hash_bool (tag : string) (value : bool) : list Z :=
  as_bytes (lit tag) ++ as_bytes (lit "|") ++ as_bytes (lit (if value then "1" else "0")) ++ [31].

(** The bytes the hasher is fed. *)
Definition hash_input (m : AssetMetadata) : list Z :=
  hash_bool "fav" (am_is_favorite m) ++
  hash_opt "rat" (show_u64 <$> am_rating m) ++
  hash_opt "lat" (format_f64 <$> am_latitude m) ++
  hash_opt "lng" (format_f64 <$> am_longitude m) ++
  hash_opt "alt" (format_f64 <$> am_altitude m) ++
  hash_opt "ori" (show_u64 <$> am_orientation m) ++
  hash_opt "dur" (format_f64 <$> am_duration_secs m) ++
  hash_opt "tzo" (show_i64 <$> am_timezone_offset m) ++
  hash_opt "w" (show_u64 <$> am_width m) ++
  hash_opt "hh" (show_u64 <$> am_height m) ++
  hash_opt "tit" (am_title m) ++
  hash_opt "kw" (am_keywords m) ++
  hash_opt "desc" (am_description m) ++
  hash_opt "sub" (am_media_subtype m) ++
  hash_opt "bur" (am_burst_id m) ++
  hash_bool "hid" (am_is_hidden m) ++
  hash_bool "arc" (am_is_archived m) ++
  hash_opt "mod" ((λ t, show_i64 (timestamp t)) <$> am_modified_at m) ++
  hash_bool "del" (am_is_deleted m) ++
  hash_opt "delat" ((λ t, show_i64 (timestamp t)) <$> am_deleted_at m) ++
  hash_opt "pd" (am_provider_data m).

Definition compute_hash (m : AssetMetadata) : str := sha256_hex (hash_input m).

Definition set_metadata_hash (m : AssetMetadata) (h : option str) : AssetMetadata :=
  {| am_source := am_source m; am_is_favorite := am_is_favorite m; am_rating := am_rating m;
     am_latitude := am_latitude m; am_longitude := am_longitude m; am_altitude := am_altitude m;
     am_orientation := am_orientation m; am_duration_secs := am_duration_secs m;
     am_timezone_offset := am_timezone_offset m; am_width := am_width m; am_height := am_height m;
     am_title := am_title m; am_keywords := am_keywords m; am_description := am_description m;
     am_media_subtype := am_media_subtype m; am_burst_id := am_burst_id m; am_is_hidden := am_is_hidden m;
     am_is_archived := am_is_archived m; am_modified_at := am_modified_at m; am_is_deleted := am_is_deleted m;
     am_deleted_at := am_deleted_at m; am_provider_data := am_provider_data m; am_metadata_hash := h |}.

Definition refresh_hash (m : AssetMetadata) : AssetMetadata := set_metadata_hash m (Some (compute_hash m)).

(** The hash a write stores: the caller's, or the computed one. *)
Definition effective_hash (m : AssetMetadata) : str := default (compute_hash m) (am_metadata_hash m).
End Hash.

(** ** [AssetRecord] *)

Record AssetRecord := {
  ar_library : str;
  ar_id : str;
  ar_checksum : str;
  ar_filename : str;
  ar_local_path : option path;
  ar_last_error : option str;
  ar_local_checksum : option str;
  ar_download_checksum : option str;
  ar_size_bytes : Z;
  ar_created_at : Z;
  ar_added_at : option Z;
  ar_downloaded_at : option Z;
  ar_last_seen_at : Z;
  ar_download_attempts : Z;
  ar_version_size : VersionSizeKey;
  ar_media_type : MediaType;
  ar_status : AssetStatus;
  ar_metadata : AssetMetadata;
}.

Definition new_pending (now : Z) (library id : str) (version_size : VersionSizeKey) (checksum filename : str)
    (created_at : Z) (added_at : option Z) (size_bytes : Z) (media_type : MediaType) : AssetRecord :=
  {| ar_library := library; ar_id := id; ar_checksum := checksum; ar_filename := filename;
     ar_local_path := None; ar_last_error := None; ar_local_checksum := None; ar_download_checksum := None;
     ar_size_bytes := size_bytes; ar_created_at := created_at; ar_added_at := added_at; ar_downloaded_at := None;
     ar_last_seen_at := now; ar_download_attempts := 0; ar_version_size := version_size;
     ar_media_type := media_type; ar_status := Pending; ar_metadata := AssetMetadata_default |}.

Definition with_metadata_arc `{StateEnv} (r : AssetRecord) (m : AssetMetadata) : AssetRecord :=
  {| ar_library := ar_library r; ar_id := ar_id r; ar_checksum := ar_checksum r; ar_filename := ar_filename r;
     ar_local_path := ar_local_path r; ar_last_error := ar_last_error r; ar_local_checksum := ar_local_checksum r;
     ar_download_checksum := ar_download_checksum r; ar_size_bytes := ar_size_bytes r;
     ar_created_at := ar_created_at r; ar_added_at := ar_added_at r; ar_downloaded_at := ar_downloaded_at r;
     ar_last_seen_at := ar_last_seen_at r; ar_download_attempts := ar_download_attempts r;
     ar_version_size := ar_version_size r; ar_media_type := ar_media_type r; ar_status := ar_status r;
     ar_metadata := match am_metadata_hash m with Some _ => m | None => refresh_hash m end |}.

(** ** Types of the store's interface *)

(** [StateError]: the violated invariant with its operation, the missing row,
    a statement SQLite refuses, a stored receipt that cannot be decoded, a
    database that cannot be reached, the lock, and the schema versions. *)
Inductive StateError :=
| Invariant (operation : string)
| AssetRowMissing (asset_id version_size : str)
| ConstraintFailed (operation : string)
| MalformedReceipt
| Unavailable
| LockPoisoned
| UnsupportedSchemaVersion (found expected : Z)
| ReadOnlySchemaTooOld (found expected : Z).

Inductive RetryErrorRetention := Clear | Preserve (reason : str).
Inductive AssetVerificationState := Unknown | TransientFailure.
Inductive MetadataRewriteQueue := OrdinaryQueue | CaptureRepairQueue.

Inductive CaptureRepairReceipt :=
| ReceiptPending (metadata_hash : str)
| ReceiptPrepared (metadata_hash output_checksum : str) (output_size : Z).

Definition receipt_metadata_hash (r : CaptureRepairReceipt) : str :=
  match r with ReceiptPending h => h | ReceiptPrepared h _ _ => h end.

Record PendingMetadataRewrite := {
  pr_asset : AssetRecord;
  pr_capture_repair_receipt : option CaptureRepairReceipt;
}.

Inductive MetadataRewriteCompletion := CompletionNone | CompletionOrdinary | CompletionCaptureRepair | CompletionBoth.

Definition clears (c : MetadataRewriteCompletion) (q : MetadataRewriteQueue) : bool :=
  match c, q with
  | (CompletionOrdinary | CompletionBoth), OrdinaryQueue => true
  | (CompletionCaptureRepair | CompletionBoth), CaptureRepairQueue => true
  | _, _ => false
  end.

Record CheckpointTransition := {
  metadata_updates : list (str * str);
  metadata_deletes : list str;
}.

Record DownloadedFileRecord := {
  df_library : str;
  df_id : str;
  df_version_size : VersionSizeKey;
  df_checksum : str;
  df_local_path : option path;
  df_local_checksum : option str;
  df_download_checksum : option str;
}.
