(* ===== verification/StateDb.v ===== *)
(** * The state store

    [src/state/db.rs]: the SQLite tables as finite maps and one definition per
    operation, each the SQL statements of its Rust function.  Conditions keep
    SQL's three truth values; [UPDATE] and [DELETE] read the row as it was.
    An operation returns an error and no database when its statements are
    rolled back or refused. *)
From S2P Require Import Prelude RustStr Types StateTypes.

(** ** SQL *)

Module Sql.
(** NULL is [None]. *)
Abbreviation tern := (option bool).

Definition and3 (a b : tern) : tern :=
  match a, b with
  | Some false, _ | _, Some false => Some false
  | Some true, Some true => Some true
  | _, _ => None
  end.
Definition or3 (a b : tern) : tern :=
  match a, b with
  | Some true, _ | _, Some true => Some true
  | Some false, Some false => Some false
  | _, _ => None
  end.
Definition not3 (a : tern) : tern := negb <$> a.
Definition cmp {A} (f : A → A → bool) (a b : option A) : tern :=
  match a, b with Some x, Some y => Some (f x y) | _, _ => None end.
Definition eq3 {A} `{EqDecision A} : option A → option A → tern := cmp (λ x y, bool_decide (x = y)).
Definition ne3 {A} `{EqDecision A} : option A → option A → tern := cmp (λ x y, bool_decide (x <> y)).
Definition ge3 : option Z → option Z → tern := cmp (λ x y, y <=? x).
(** [a IS b], [a IS NULL], [a IS NOT NULL]. *)
Definition is_ {A} `{EqDecision A} (a b : option A) : tern := Some (bool_decide (a = b)).
Definition is_null {A} (a : option A) : tern := Some (match a with None => true | Some _ => false end).
Definition is_not_null {A} (a : option A) : tern := Some (match a with None => false | Some _ => true end).
(** A [WHEN] or a [WHERE] takes a row whose condition is true. *)
Definition holds (t : tern) : bool := match t with Some true => true | _ => false end.
Definition coalesce {A} (a b : option A) : option A := match a with Some _ => a | None => b end.

Section Tables.
Context {K A : Type} `{Countable K}.

Definition update (p : K → A → bool) (f : A → A) (m : gmap K A) : gmap K A :=
  map_imap (λ k r, Some (if p k r then f r else r)) m.
Definition count (p : K → A → bool) (m : gmap K A) : Z :=
  Z.of_nat (size (filter (λ kr, p kr.1 kr.2 = true) m)).
Definition delete_where (p : K → A → bool) (m : gmap K A) : gmap K A :=
  filter (λ kr, p kr.1 kr.2 = false) m.
Definition exists_row (p : K → A → bool) (m : gmap K A) : bool := 0 <? count p m.
End Tables.

(** [s LIKE pat]: [%] stands for any text, [_] for one character, and ASCII
    letters match without case. *)
Fixpoint like (pat s : str) : bool :=
  match pat with
  | [] => match s with [] => true | _ => false end
  | c :: pat =>
      if c =? 37 then
        (fix any (s : str) : bool := like pat s || match s with [] => false | _ :: s => any s end) s
      else match s with
        | [] => false
        | d :: s => ((c =? 95) || (ascii_lower c =? ascii_lower d)) && like pat s
        end
  end.
End Sql.
Import Sql.

(** ** Tables *)

(** [assets]: the columns the provider sets. *)
Record ProviderCols := {
  p_checksum : str;
  p_filename : str;
  p_created_at : Z;
  p_added_at : option Z;
  p_size_bytes : Z;
  p_media_type : MediaType;
  (** with the instants in whole seconds, [source] never NULL *)
  p_meta : AssetMetadata;
}.

(** [assets]: the capture-repair receipt. *)
Record ReceiptCols := {
  capture_repair_metadata_hash : option str;
  capture_repair_output_checksum : option str;
  capture_repair_output_size : option Z;
}.

Record AssetRow := {
  r_prov : ProviderCols;
  r_status : AssetStatus;
  r_downloaded_at : option Z;
  r_local_path : option path;
  r_last_seen_at : Z;
  r_download_attempts : Z;
  r_last_error : option str;
  r_local_checksum : option str;
  r_download_checksum : option str;
  r_metadata_write_failed_at : option Z;
  r_receipt : ReceiptCols;
  r_imported_size : option Z;
  r_imported_mtime : option Z;
}.

Record CaptureState := {
  cs_active_revision : Z;
  cs_pending_revision : option Z;
  cs_processed_assets : Z;
  cs_failed_assets : Z;
  cs_last_error : option str;
}.

(** [(library, id, version_size)] and [(library, name)]. *)
Abbreviation key3 := (str * str * str)%type.
Abbreviation key2 := (str * str)%type.

Record Db := {
  assets : gmap key3 AssetRow;
  asset_verifications : gmap key3 (AssetVerificationState * str * Z);
  asset_master_mappings : gmap key2 str;
  legacy_master_state_owners : gmap key2 str;
  capture_revisions : gmap key2 Z;
  metadata_capture_state : gmap str CaptureState;
  metadata : gmap str str;
}.

Definition Db_empty : Db :=
  {| assets := ∅; asset_verifications := ∅; asset_master_mappings := ∅; legacy_master_state_owners := ∅;
     capture_revisions := ∅; metadata_capture_state := ∅; metadata := ∅ |}.

Definition set_assets (d : Db) (m : gmap key3 AssetRow) : Db :=
  {| assets := m; asset_verifications := asset_verifications d; asset_master_mappings := asset_master_mappings d;
     legacy_master_state_owners := legacy_master_state_owners d; capture_revisions := capture_revisions d;
     metadata_capture_state := metadata_capture_state d; metadata := metadata d |}.
Definition set_verifications (d : Db) (m : gmap key3 (AssetVerificationState * str * Z)) : Db :=
  {| assets := assets d; asset_verifications := m; asset_master_mappings := asset_master_mappings d;
     legacy_master_state_owners := legacy_master_state_owners d; capture_revisions := capture_revisions d;
     metadata_capture_state := metadata_capture_state d; metadata := metadata d |}.
Definition set_mappings (d : Db) (m : gmap key2 str) : Db :=
  {| assets := assets d; asset_verifications := asset_verifications d; asset_master_mappings := m;
     legacy_master_state_owners := legacy_master_state_owners d; capture_revisions := capture_revisions d;
     metadata_capture_state := metadata_capture_state d; metadata := metadata d |}.
Definition set_owners (d : Db) (m : gmap key2 str) : Db :=
  {| assets := assets d; asset_verifications := asset_verifications d; asset_master_mappings := asset_master_mappings d;
     legacy_master_state_owners := m; capture_revisions := capture_revisions d;
     metadata_capture_state := metadata_capture_state d; metadata := metadata d |}.
Definition set_capture (d : Db) (rev : gmap key2 Z) (st : gmap str CaptureState) : Db :=
  {| assets := assets d; asset_verifications := asset_verifications d; asset_master_mappings := asset_master_mappings d;
     legacy_master_state_owners := legacy_master_state_owners d; capture_revisions := rev;
     metadata_capture_state := st; metadata := metadata d |}.
Definition set_metadata_table (d : Db) (m : gmap str str) : Db :=
  {| assets := assets d; asset_verifications := asset_verifications d; asset_master_mappings := asset_master_mappings d;
     legacy_master_state_owners := legacy_master_state_owners d; capture_revisions := capture_revisions d;
     metadata_capture_state := metadata_capture_state d; metadata := m |}.

(** ** Columns of a row *)

Definition set_status (r : AssetRow) (s : AssetStatus) (attempts : Z) (err : option str) : AssetRow :=
  {| r_prov := r_prov r; r_status := s; r_downloaded_at := r_downloaded_at r; r_local_path := r_local_path r;
     r_last_seen_at := r_last_seen_at r; r_download_attempts := attempts; r_last_error := err;
     r_local_checksum := r_local_checksum r; r_download_checksum := r_download_checksum r;
     r_metadata_write_failed_at := r_metadata_write_failed_at r; r_receipt := r_receipt r;
     r_imported_size := r_imported_size r; r_imported_mtime := r_imported_mtime r |}.
Definition set_prov (r : AssetRow) (p : ProviderCols) : AssetRow :=
  {| r_prov := p; r_status := r_status r; r_downloaded_at := r_downloaded_at r; r_local_path := r_local_path r;
     r_last_seen_at := r_last_seen_at r; r_download_attempts := r_download_attempts r; r_last_error := r_last_error r;
     r_local_checksum := r_local_checksum r; r_download_checksum := r_download_checksum r;
     r_metadata_write_failed_at := r_metadata_write_failed_at r; r_receipt := r_receipt r;
     r_imported_size := r_imported_size r; r_imported_mtime := r_imported_mtime r |}.
Definition set_receipt (r : AssetRow) (c : ReceiptCols) : AssetRow :=
  {| r_prov := r_prov r; r_status := r_status r; r_downloaded_at := r_downloaded_at r; r_local_path := r_local_path r;
     r_last_seen_at := r_last_seen_at r; r_download_attempts := r_download_attempts r; r_last_error := r_last_error r;
     r_local_checksum := r_local_checksum r; r_download_checksum := r_download_checksum r;
     r_metadata_write_failed_at := r_metadata_write_failed_at r; r_receipt := c;
     r_imported_size := r_imported_size r; r_imported_mtime := r_imported_mtime r |}.
Definition set_write_failed (r : AssetRow) (t : option Z) : AssetRow :=
  {| r_prov := r_prov r; r_status := r_status r; r_downloaded_at := r_downloaded_at r; r_local_path := r_local_path r;
     r_last_seen_at := r_last_seen_at r; r_download_attempts := r_download_attempts r; r_last_error := r_last_error r;
     r_local_checksum := r_local_checksum r; r_download_checksum := r_download_checksum r;
     r_metadata_write_failed_at := t; r_receipt := r_receipt r;
     r_imported_size := r_imported_size r; r_imported_mtime := r_imported_mtime r |}.
Definition set_last_seen (r : AssetRow) (t : Z) : AssetRow :=
  {| r_prov := r_prov r; r_status := r_status r; r_downloaded_at := r_downloaded_at r; r_local_path := r_local_path r;
     r_last_seen_at := t; r_download_attempts := r_download_attempts r; r_last_error := r_last_error r;
     r_local_checksum := r_local_checksum r; r_download_checksum := r_download_checksum r;
     r_metadata_write_failed_at := r_metadata_write_failed_at r; r_receipt := r_receipt r;
     r_imported_size := r_imported_size r; r_imported_mtime := r_imported_mtime r |}.
Definition set_imported (r : AssetRow) (sz mtime : option Z) : AssetRow :=
  {| r_prov := r_prov r; r_status := r_status r; r_downloaded_at := r_downloaded_at r; r_local_path := r_local_path r;
     r_last_seen_at := r_last_seen_at r; r_download_attempts := r_download_attempts r; r_last_error := r_last_error r;
     r_local_checksum := r_local_checksum r; r_download_checksum := r_download_checksum r;
     r_metadata_write_failed_at := r_metadata_write_failed_at r; r_receipt := r_receipt r;
     r_imported_size := sz; r_imported_mtime := mtime |}.

Definition set_meta (p : ProviderCols) (m : AssetMetadata) : ProviderCols :=
  {| p_checksum := p_checksum p; p_filename := p_filename p; p_created_at := p_created_at p;
     p_added_at := p_added_at p; p_size_bytes := p_size_bytes p; p_media_type := p_media_type p; p_meta := m |}.

(** [is_deleted = 1, deleted_at = COALESCE(at, deleted_at)]; [is_hidden = 1]. *)
Definition meta_deleted (m : AssetMetadata) (at_ : option Z) : AssetMetadata :=
  {| am_source := am_source m; am_is_favorite := am_is_favorite m; am_rating := am_rating m;
     am_latitude := am_latitude m; am_longitude := am_longitude m; am_altitude := am_altitude m;
     am_orientation := am_orientation m; am_duration_secs := am_duration_secs m;
     am_timezone_offset := am_timezone_offset m; am_width := am_width m; am_height := am_height m;
     am_title := am_title m; am_keywords := am_keywords m; am_description := am_description m;
     am_media_subtype := am_media_subtype m; am_burst_id := am_burst_id m; am_is_hidden := am_is_hidden m;
     am_is_archived := am_is_archived m; am_modified_at := am_modified_at m; am_is_deleted := true;
     am_deleted_at := coalesce at_ (am_deleted_at m); am_provider_data := am_provider_data m;
     am_metadata_hash := am_metadata_hash m |}.
Definition meta_hidden (m : AssetMetadata) : AssetMetadata :=
  {| am_source := am_source m; am_is_favorite := am_is_favorite m; am_rating := am_rating m;
     am_latitude := am_latitude m; am_longitude := am_longitude m; am_altitude := am_altitude m;
     am_orientation := am_orientation m; am_duration_secs := am_duration_secs m;
     am_timezone_offset := am_timezone_offset m; am_width := am_width m; am_height := am_height m;
     am_title := am_title m; am_keywords := am_keywords m; am_description := am_description m;
     am_media_subtype := am_media_subtype m; am_burst_id := am_burst_id m; am_is_hidden := true;
     am_is_archived := am_is_archived m; am_modified_at := am_modified_at m; am_is_deleted := am_is_deleted m;
     am_deleted_at := am_deleted_at m; am_provider_data := am_provider_data m;
     am_metadata_hash := am_metadata_hash m |}.

Definition is_deleted (r : AssetRow) : bool := am_is_deleted (p_meta (r_prov r)).
Definition metadata_hash (r : AssetRow) : option str := am_metadata_hash (p_meta (r_prov r)).
Definition status_is (s : AssetStatus) (r : AssetRow) : bool := bool_decide (r_status r = s).

(** [i64::try_from(v).unwrap_or(i64::MAX)]. *)
Definition I64_MAX : Z := 9223372036854775807.
Definition to_i64 (v : Z) : Z := Z.min v I64_MAX.

Definition DEFAULT_SOURCE : str := lit "icloud".

(** What the columns hold of a metadata: instants in seconds. *)
Definition stored_meta (m : AssetMetadata) (source : option str) (hash : option str) : AssetMetadata :=
  {| am_source := source; am_is_favorite := am_is_favorite m; am_rating := am_rating m;
     am_latitude := am_latitude m; am_longitude := am_longitude m; am_altitude := am_altitude m;
     am_orientation := am_orientation m; am_duration_secs := am_duration_secs m;
     am_timezone_offset := am_timezone_offset m; am_width := am_width m; am_height := am_height m;
     am_title := am_title m; am_keywords := am_keywords m; am_description := am_description m;
     am_media_subtype := am_media_subtype m; am_burst_id := am_burst_id m; am_is_hidden := am_is_hidden m;
     am_is_archived := am_is_archived m; am_modified_at := timestamp <$> am_modified_at m;
     am_is_deleted := am_is_deleted m; am_deleted_at := timestamp <$> am_deleted_at m;
     am_provider_data := am_provider_data m; am_metadata_hash := hash |}.

(** ** Capture-repair receipts *)

(** [hash IS NOT NULL AND hash <> '' AND output IS NOT NULL AND ...]: a
    replacement is ready to be published. *)
Definition prepared (c : ReceiptCols) : tern :=
  and3 (is_not_null (capture_repair_metadata_hash c)) (and3 (ne3 (capture_repair_metadata_hash c) (Some []))
  (and3 (is_not_null (capture_repair_output_checksum c)) (and3 (ne3 (capture_repair_output_checksum c) (Some []))
  (and3 (is_not_null (capture_repair_output_size c)) (ge3 (capture_repair_output_size c) (Some 0)))))).

(** The conditions of the [CASE]s, without the redundant [IS NOT NULL]s. *)
Definition case_none (c : ReceiptCols) : tern :=
  and3 (is_null (capture_repair_metadata_hash c))
    (and3 (is_null (capture_repair_output_checksum c)) (is_null (capture_repair_output_size c))).
Definition case_pending (c : ReceiptCols) : tern :=
  and3 (ne3 (capture_repair_metadata_hash c) (Some []))
    (and3 (is_null (capture_repair_output_checksum c)) (is_null (capture_repair_output_size c))).
Definition case_prepared (c : ReceiptCols) : tern :=
  and3 (ne3 (capture_repair_metadata_hash c) (Some []))
    (and3 (ne3 (capture_repair_output_checksum c) (Some [])) (ge3 (capture_repair_output_size c) (Some 0))).

Definition no_receipt : ReceiptCols :=
  {| capture_repair_metadata_hash := None; capture_repair_output_checksum := None; capture_repair_output_size := None |}.

(** The three [CASE]s of the upsert; [h] is [excluded.metadata_hash]. *)
Definition upsert_receipt (c : ReceiptCols) (checksum_changed : bool) (h : option str) : ReceiptCols :=
  if checksum_changed then no_receipt
  else if holds (case_none c) then no_receipt
  else if holds (case_pending c) then
    {| capture_repair_metadata_hash := h; capture_repair_output_checksum := None; capture_repair_output_size := None |}
  else if holds (case_prepared c) then
    let keep := holds (is_ (capture_repair_metadata_hash c) h) in
    {| capture_repair_metadata_hash := h;
       capture_repair_output_checksum := if keep then capture_repair_output_checksum c else None;
       capture_repair_output_size := if keep then capture_repair_output_size c else None |}
  else c.

(** The three [CASE]s of the metadata refresh. *)
Definition refresh_receipt (c : ReceiptCols) (mark_capture_repair : bool) (h : option str) : ReceiptCols :=
  if holds (case_prepared c) then c
  else if holds (case_none c) then
    {| capture_repair_metadata_hash := if mark_capture_repair then h else None;
       capture_repair_output_checksum := None; capture_repair_output_size := None |}
  else if holds (case_pending c) then
    {| capture_repair_metadata_hash := h; capture_repair_output_checksum := None; capture_repair_output_size := None |}
  else c.

Section Store.
Context `{StateEnv}.

(** ** [upsert_asset_row] *)

Definition record_key (r : AssetRecord) : key3 := (ar_library r, ar_id r, VersionSizeKey_as_str (ar_version_size r)).

Definition record_cols (r : AssetRecord) : ProviderCols :=
  {| p_checksum := ar_checksum r; p_filename := ar_filename r; p_created_at := timestamp (ar_created_at r);
     p_added_at := timestamp <$> ar_added_at r; p_size_bytes := to_i64 (ar_size_bytes r);
     p_media_type := ar_media_type r;
     p_meta := stored_meta (ar_metadata r) (Some (default DEFAULT_SOURCE (am_source (ar_metadata r))))
       (Some (effective_hash (ar_metadata r))) |}.

(** The guard query: a published repair of this asset waits to be finalised
    with other metadata. *)
Definition blocks_upsert (r : AssetRecord) (k : key3) (row : AssetRow) : bool :=
  let '(library, id, version_size) := k in
  bool_decide (library = ar_library r) && bool_decide (id = ar_id r)
  && status_is Downloaded row && negb (is_deleted row)
  && holds (and3 (prepared (r_receipt row))
       (not3 (is_ (capture_repair_metadata_hash (r_receipt row)) (Some (effective_hash (ar_metadata r))))))
  && (bool_decide (version_size <> VersionSizeKey_as_str (ar_version_size r))
      || bool_decide (p_checksum (r_prov row) = ar_checksum r)).

Definition inserted_row (r : AssetRecord) (last_seen_at : Z) : AssetRow :=
  {| r_prov := record_cols r; r_status := Pending; r_downloaded_at := None; r_local_path := None;
     r_last_seen_at := last_seen_at; r_download_attempts := 0; r_last_error := None; r_local_checksum := None;
     r_download_checksum := None; r_metadata_write_failed_at := None; r_receipt := no_receipt;
     r_imported_size := None; r_imported_mtime := None |}.

Definition conflict_row (row : AssetRow) (r : AssetRecord) (last_seen_at : Z) : AssetRow :=
  let changed := bool_decide (p_checksum (r_prov row) <> ar_checksum r) in
  {| r_prov := record_cols r;
     r_status := if status_is PolicyExcluded row || changed then Pending else r_status row;
     r_downloaded_at := if changed then None else r_downloaded_at row;
     r_local_path := r_local_path row; r_last_seen_at := last_seen_at;
     r_download_attempts := r_download_attempts row; r_last_error := r_last_error row;
     r_local_checksum := r_local_checksum row; r_download_checksum := r_download_checksum row;
     r_metadata_write_failed_at := r_metadata_write_failed_at row;
     r_receipt := upsert_receipt (r_receipt row) changed (Some (effective_hash (ar_metadata r)));
     r_imported_size := r_imported_size row; r_imported_mtime := r_imported_mtime row |}.

(** The [WHERE NOT] of the conflict clause. *)
Definition conflict_refused (row : AssetRow) (r : AssetRecord) : bool :=
  holds (and3 (eq3 (Some (p_checksum (r_prov row))) (Some (ar_checksum r)))
    (and3 (prepared (r_receipt row))
       (not3 (is_ (capture_repair_metadata_hash (r_receipt row)) (Some (effective_hash (ar_metadata r))))))).

Definition upsert_asset_row (d : Db) (r : AssetRecord) (last_seen_at : Z) : result StateError Db :=
  if exists_row (blocks_upsert r) (assets d) then Err (Invariant "upsert_seen")
  else
    match assets d !! record_key r with
    | None => Ok (set_assets d (<[record_key r := inserted_row r last_seen_at]> (assets d)))
    | Some row =>
        if conflict_refused row r then Err (Invariant "upsert_seen")
        else Ok (set_assets d (<[record_key r := conflict_row row r last_seen_at]> (assets d)))
    end.

Definition upsert_seen (now : Z) (r : AssetRecord) (d : Db) : result StateError Db :=
  upsert_asset_row d r (timestamp now).

(** ** Downloads *)

(** The update counts the library's progress only when the stored revision
    grew. *)
Definition record_metadata_capture_revision (d : Db) (library asset_id : str) (revision : Z) : Db :=
  let grew := match capture_revisions d !! (library, asset_id) with
    | Some old => old <? revision
    | None => true
    end in
  if grew then
    set_capture d (<[(library, asset_id) := revision]> (capture_revisions d))
      (update (λ lib st, bool_decide (lib = library) && holds (eq3 (cs_pending_revision st) (Some revision)))
         (λ st, {| cs_active_revision := cs_active_revision st; cs_pending_revision := cs_pending_revision st;
                   cs_processed_assets := cs_processed_assets st + 1; cs_failed_assets := cs_failed_assets st;
                   cs_last_error := cs_last_error st |}) (metadata_capture_state d))
  else d.

(** [METADATA_CAPTURE_REVISION] of [src/state/types.rs]. *)
Definition METADATA_CAPTURE_REVISION : Z := 1.

Definition downloaded_row (row : AssetRow) (local_path local_checksum : str) (download_checksum : option str)
    (mark_capture_repair : bool) (downloaded_at : Z) : AssetRow :=
  let same := holds (is_ (r_local_checksum row) (Some local_checksum)) in
  let c := r_receipt row in
  {| r_prov := r_prov row; r_status := Downloaded; r_downloaded_at := Some downloaded_at;
     r_local_path := Some local_path; r_last_seen_at := r_last_seen_at row;
     r_download_attempts := r_download_attempts row; r_last_error := None;
     r_local_checksum := Some local_checksum;
     r_download_checksum := coalesce download_checksum (r_download_checksum row);
     r_metadata_write_failed_at := r_metadata_write_failed_at row;
     r_receipt :=
       {| capture_repair_metadata_hash :=
            if mark_capture_repair then metadata_hash row else if same then capture_repair_metadata_hash c else None;
          capture_repair_output_checksum :=
            if mark_capture_repair then None else if same then capture_repair_output_checksum c else None;
          capture_repair_output_size :=
            if mark_capture_repair then None else if same then capture_repair_output_size c else None |};
     r_imported_size := r_imported_size row; r_imported_mtime := r_imported_mtime row |}.

(** The rows affected, at most one. *)
Definition update_status_to_downloaded (d : Db) (k : key3) (local_path local_checksum : str)
    (download_checksum : option str) (mark_capture_repair : bool) (downloaded_at : Z) : Db * Z :=
  match assets d !! k with
  | None => (d, 0)
  | Some row =>
      (set_assets d (<[k := downloaded_row row local_path local_checksum download_checksum mark_capture_repair downloaded_at]>
         (assets d)), 1)
  end.

Definition mark_downloaded_with_capture_repair (now : Z) (library id version_size : str) (local_path local_checksum : str)
    (download_checksum : option str) (mark_capture_repair : bool) (d : Db) : result StateError Db :=
  let '(d, rows) := update_status_to_downloaded d (library, id, version_size) local_path local_checksum
    download_checksum mark_capture_repair (timestamp now) in
  if rows =? 0 then Err (AssetRowMissing id version_size)
  else Ok (record_metadata_capture_revision d library id METADATA_CAPTURE_REVISION).

Definition mark_downloaded (now : Z) (library id version_size : str) (local_path local_checksum : str)
    (download_checksum : option str) (d : Db) : result StateError Db :=
  mark_downloaded_with_capture_repair now library id version_size local_path local_checksum download_checksum false d.

Definition import_adopt (now : Z) (r : AssetRecord) (local_path local_checksum : str) (imported_size : Z)
    (imported_mtime : option Z) (d : Db) : result StateError Db :=
  d ← upsert_asset_row d r (timestamp now);
  let '(d, _) := update_status_to_downloaded d (record_key r) local_path local_checksum None false (timestamp now) in
  let d := record_metadata_capture_revision d (ar_library r) (ar_id r) METADATA_CAPTURE_REVISION in
  Ok (set_assets d (update (λ k _, bool_decide (k = record_key r))
        (λ row, set_imported row (Some (to_i64 imported_size)) imported_mtime) (assets d))).

Definition mark_failed (library id version_size error : str) (d : Db) : result StateError Db :=
  match assets d !! (library, id, version_size) with
  | None => Err (Invariant "mark_failed")
  | Some row =>
      Ok (set_assets d (<[(library, id, version_size) :=
            set_status row Failed (r_download_attempts row + 1) (Some error)]> (assets d)))
  end.

(** [should_download]: [file_exists] is [tokio::fs::try_exists] with errors
    read as missing. *)
Definition should_download (file_exists : path → bool) (library id version_size checksum : str) (local_path : path)
    (d : Db) : bool :=
  if str_eqb checksum [] then true
  else
    match assets d !! (library, id, version_size) with
    | None => true
    | Some row =>
        if negb (str_eqb (p_checksum (r_prov row)) checksum) then true
        else match r_status row with
          | Downloaded => negb (file_exists (default local_path (r_local_path row)))
          | Pending | PolicyExcluded | Failed => true
          end
    end.

(** ** Retries and pruning *)

Definition in_library (library : option str) (k : key3) : bool :=
  match library with Some l => bool_decide (k.1.1 = l) | None => true end.

Definition retained_error (e : RetryErrorRetention) (last_error : option str) : option str :=
  match e with
  | Clear => None
  | Preserve reason => if holds (eq3 last_error (Some reason)) then last_error else None
  end.

Definition prepare_for_retry (library : option str) (e : RetryErrorRetention) (d : Db) : Db * (Z * Z * Z) :=
  let reset row := set_status row Pending 0 (retained_error e (r_last_error row)) in
  let is_failed k row := status_is Failed row && negb (is_deleted row) && in_library library k in
  let failed := count is_failed (assets d) in
  let m := update is_failed reset (assets d) in
  let is_tried k row := status_is Pending row && negb (is_deleted row) && (0 <? r_download_attempts row)
    && in_library library k in
  let pending := count is_tried m in
  let m := update is_tried reset m in
  let total_pending := count (λ k row, status_is Pending row && negb (is_deleted row) && in_library library k) m in
  (set_assets d m, (failed, pending, total_pending)).

Definition reset_failed (d : Db) : Db * Z :=
  let '(d, (failed, _, _)) := prepare_for_retry None Clear d in (d, failed).

Definition NOT_RESOLVED : str := lit "Not resolved during sync".

Definition unresolved (d : Db) (seen_since : Z) (k : key3) (row : AssetRow) : bool :=
  status_is Pending row && (seen_since <=? r_last_seen_at row)
  && match asset_verifications d !! k with Some _ => false | None => true end.

Definition promote_pending_to_failed (seen_since : Z) (d : Db) : Db * Z :=
  (set_assets d (update (unresolved d seen_since)
     (λ row, set_status row Failed (r_download_attempts row) (Some NOT_RESOLVED)) (assets d)),
   count (unresolved d seen_since) (assets d)).

(** [DELETE FROM assets]: the verifications go with their row when SQLite
    enforces the foreign key. *)
Definition delete_assets (p : key3 → AssetRow → bool) (d : Db) : Db :=
  let gone k := match assets d !! k with Some row => p k row | None => false end in
  let d' := set_assets d (delete_where p (assets d)) in
  if foreign_keys then set_verifications d' (delete_where (λ k _, gone k) (asset_verifications d)) else d'.

Definition stale_pending (library : str) (seen_since : Z) (k : key3) (row : AssetRow) : bool :=
  bool_decide (k.1.1 = library) && status_is Pending row && (r_last_seen_at row <? seen_since).

Definition prune_stale_pending_not_seen_since (library : str) (seen_since : Z) (d : Db) : Db * Z :=
  (delete_assets (stale_pending library seen_since) d, count (stale_pending library seen_since) (assets d)).

Fixpoint prune_pending_asset_versions (library : str) (asset_versions : list (str * str)) (d : Db) : Db * Z :=
  match asset_versions with
  | [] => (d, 0)
  | (id, version_size) :: rest =>
      let p k row := bool_decide (k = (library, id, version_size)) && status_is Pending row in
      let n := count p (assets d) in
      let '(d, m) := prune_pending_asset_versions library rest (delete_assets p d) in
      (d, n + m)
  end.

Definition touch_last_seen_many (now : Z) (library : str) (asset_ids : list str) (d : Db) : Db :=
  set_assets d (foldl (λ m id, update (λ k _, bool_decide (k.1 = (library, id)))
                                 (λ row, set_last_seen row (timestamp now)) m) (assets d) asset_ids).

(** ** Provider state *)

Definition set_asset_verification (now : Z) (library id version_size : str) (state : AssetVerificationState)
    (reason : str) (d : Db) : result StateError Db :=
  if foreign_keys && bool_decide (assets d !! (library, id, version_size) = None)
  then Err (ConstraintFailed "set_asset_verification")
  else Ok (set_verifications d (<[(library, id, version_size) := (state, reason, timestamp now)]> (asset_verifications d))).

Definition clear_asset_verification (library id version_size : str) (d : Db) : Db :=
  set_verifications d (delete (library, id, version_size) (asset_verifications d)).

Definition mark_policy_excluded (library id version_size : str) (d : Db) : Db * bool :=
  let k := (library, id, version_size) in
  match assets d !! k with
  | Some row =>
      if status_is Pending row && negb (is_deleted row) then
        (set_verifications (set_assets d (<[k := set_status row PolicyExcluded (r_download_attempts row) None]> (assets d)))
           (delete k (asset_verifications d)), true)
      else (d, false)
  | None => (d, false)
  end.

(** The rows of an asset, and of a master with its children. *)
Definition of_asset (library asset_id : str) (k : key3) : bool := bool_decide (k.1 = (library, asset_id)).
Definition of_family (d : Db) (library master : str) (k : key3) : bool :=
  bool_decide (k.1.1 = library)
  && (bool_decide (k.1.2 = master)
      || bool_decide (asset_master_mappings d !! (library, k.1.2) = Some master)).

Definition deleted_row (at_ : option Z) (row : AssetRow) : AssetRow :=
  set_prov row (set_meta (r_prov row) (meta_deleted (p_meta (r_prov row)) at_)).

(** The shape the four operations share: no prepared repair may be hidden. *)
Definition delete_at_source (operation : string) (sel : key3 → bool) (at_ : option Z) (clear_verification : bool) (d : Db) :
    result StateError (Db * Z) :=
  if exists_row (λ k row, sel k && holds (prepared (r_receipt row))) (assets d) then Err (Invariant operation)
  else
    let d' := set_assets d (update (λ k _, sel k) (deleted_row (timestamp <$> at_)) (assets d)) in
    Ok (if clear_verification then set_verifications d' (delete_where (λ k _, sel k) (asset_verifications d)) else d',
        count (λ k _, sel k) (assets d)).

Definition mark_soft_deleted (library asset_id : str) (at_ : option Z) (d : Db) : result StateError (Db * Z) :=
  delete_at_source "mark_soft_deleted" (of_asset library asset_id) at_ false d.
Definition resolve_source_deleted (library asset_id : str) (at_ : option Z) (d : Db) : result StateError (Db * Z) :=
  delete_at_source "resolve_source_deleted" (of_asset library asset_id) at_ true d.
Definition mark_master_family_soft_deleted (library master : str) (at_ : option Z) (d : Db) : result StateError (Db * Z) :=
  delete_at_source "mark_master_family_soft_deleted" (of_family d library master) at_ false d.
Definition resolve_master_family_source_deleted (library master : str) (at_ : option Z) (d : Db) :
    result StateError (Db * Z) :=
  delete_at_source "resolve_master_family_source_deleted" (of_family d library master) at_ true d.

Definition mark_hidden_at_source (library asset_id : str) (d : Db) : Db * Z :=
  (set_assets d (update (λ k _, of_asset library asset_id k)
     (λ row, set_prov row (set_meta (r_prov row) (meta_hidden (p_meta (r_prov row))))) (assets d)),
   count (λ k _, of_asset library asset_id k) (assets d)).

Definition upsert_asset_master_mapping (library asset_record_name master_record_name : str) (d : Db) : Db :=
  set_mappings d (<[(library, asset_record_name) := master_record_name]> (asset_master_mappings d)).

(** [INSERT OR IGNORE], then who owns the row. *)
Definition claim_legacy_master_state_owner (library master asset_record_name : str) (d : Db) : Db * bool :=
  match legacy_master_state_owners d !! (library, master) with
  | Some owner => (d, str_eqb owner asset_record_name)
  | None => (set_owners d (<[(library, master) := asset_record_name]> (legacy_master_state_owners d)), true)
  end.

(** ** Metadata rewrites and capture repair *)

Definition record_metadata_write_failure (now : Z) (library asset_id version_size : str) (d : Db) : Db :=
  set_assets d (update (λ k _, bool_decide (k = (library, asset_id, version_size)))
    (λ row, set_write_failed row (Some (timestamp now))) (assets d)).

(** A published repair of the asset waits to be finalised with other metadata
    than [h]. *)
Definition blocks_refresh (library asset_id : str) (h : option str) (k : key3) (row : AssetRow) : bool :=
  of_asset library asset_id k && status_is Downloaded row && negb (is_deleted row)
  && holds (and3 (prepared (r_receipt row)) (not3 (is_ (capture_repair_metadata_hash (r_receipt row)) h))).

Definition refreshed_row (m : AssetMetadata) (mark_for_rewrite mark_capture_repair : bool) (rewrite_at : Z) (row : AssetRow) :
    AssetRow :=
  let h := am_metadata_hash m in
  let row1 := set_prov row (set_meta (r_prov row)
    (stored_meta m (coalesce (am_source m) (am_source (p_meta (r_prov row)))) h)) in
  let row2 := set_receipt row1 (refresh_receipt (r_receipt row) mark_capture_repair h) in
  if mark_for_rewrite then set_write_failed row2 (Some rewrite_at) else row2.

Definition refresh_downloaded_asset_metadata (now : Z) (library asset_id : str) (m : AssetMetadata)
    (mark_for_rewrite mark_capture_repair : bool) (capture_revision : Z) (d : Db) : Db * Z :=
  let m := match am_metadata_hash m with None => refresh_hash m | Some _ => m end in
  let h := am_metadata_hash m in
  let blocked := exists_row (blocks_refresh library asset_id h) (assets d) in
  let sel k row := of_asset library asset_id k && status_is Downloaded row && negb (is_deleted row) && negb blocked in
  let updated := count sel (assets d) in
  let d1 := set_assets d (update sel (refreshed_row m mark_for_rewrite mark_capture_repair (timestamp now)) (assets d)) in
  let durable :=
    if 0 <? updated then updated
    else count (λ k row, of_asset library asset_id k && negb (is_deleted row)
           && holds (eq3 (metadata_hash row) h) && negb blocked) (assets d1) in
  (if 0 <? durable then record_metadata_capture_revision d1 library asset_id capture_revision else d1, durable).

(** [i64::try_from] of a [u64]. *)
Definition fits_i64 (v : Z) : bool := v <=? I64_MAX.

Definition receipt_cols (r : CaptureRepairReceipt) : ReceiptCols :=
  match r with
  | ReceiptPending h =>
      {| capture_repair_metadata_hash := Some h; capture_repair_output_checksum := None; capture_repair_output_size := None |}
  | ReceiptPrepared h c s =>
      {| capture_repair_metadata_hash := Some h; capture_repair_output_checksum := Some c; capture_repair_output_size := Some s |}
  end.

Definition receipt_fits (r : CaptureRepairReceipt) : bool :=
  match r with ReceiptPending _ => true | ReceiptPrepared _ _ s => fits_i64 s end.

(** [capture_repair_metadata_hash IS a AND capture_repair_output_checksum IS b AND ...]. *)
Definition receipt_is (c c' : ReceiptCols) : bool :=
  holds (and3 (is_ (capture_repair_metadata_hash c) (capture_repair_metadata_hash c'))
    (and3 (is_ (capture_repair_output_checksum c) (capture_repair_output_checksum c'))
       (is_ (capture_repair_output_size c) (capture_repair_output_size c')))).

Definition asset_key (p : PendingMetadataRewrite) : key3 := record_key (pr_asset p).

Definition record_capture_repair_prepared (p : PendingMetadataRewrite) (output_checksum : str) (output_size : Z) (d : Db) :
    result StateError (Db * option CaptureRepairReceipt) :=
  if str_eqb output_checksum [] then Err (Invariant "record_capture_repair_prepared")
  else
    match pr_capture_repair_receipt p with
    | None => Err (Invariant "record_capture_repair_prepared")
    | Some receipt =>
      if negb (receipt_fits receipt) then Err (Invariant "record_capture_repair_prepared")
      else
        match ar_local_checksum (pr_asset p) with
        | None => Ok (d, None)
        | Some input_checksum =>
          if negb (fits_i64 output_size) then Err (Invariant "record_capture_repair_prepared")
          else
            let h := receipt_metadata_hash receipt in
            let sel k row := bool_decide (k = asset_key p) && status_is Downloaded row && negb (is_deleted row)
              && holds (is_ (metadata_hash row) (Some h)) && holds (is_ (r_local_checksum row) (Some input_checksum))
              && receipt_is (r_receipt row) (receipt_cols receipt) in
            let new row := set_receipt row
              {| capture_repair_metadata_hash := capture_repair_metadata_hash (r_receipt row);
                 capture_repair_output_checksum := Some output_checksum; capture_repair_output_size := Some output_size |} in
            Ok (set_assets d (update sel new (assets d)),
                if 0 <? count sel (assets d) then Some (ReceiptPrepared h output_checksum output_size) else None)
        end
    end.

(** The checks before the statement. *)
Definition finish_checks (p : PendingMetadataRewrite) (selected_queue : MetadataRewriteQueue) (local_checksum : option str)
    (pre_rewrite_checksum : option str) (completion : MetadataRewriteCompletion) : bool :=
  let input := ar_local_checksum (pr_asset p) in
  let clears_capture := clears completion CaptureRepairQueue in
  match pre_rewrite_checksum with Some _ => bool_decide (pre_rewrite_checksum = input) | None => true end
  && (match selected_queue with CaptureRepairQueue => false | OrdinaryQueue => negb clears_capture end
      || match pr_capture_repair_receipt p with Some _ => true | None => false end)
  && (match pr_capture_repair_receipt p with
      | Some (ReceiptPending _) => negb clears_capture || bool_decide (local_checksum = input)
      | Some (ReceiptPrepared _ c _) =>
          negb clears_capture || bool_decide (local_checksum = Some c) || bool_decide (local_checksum = input)
      | None => true
      end)
  && match pr_capture_repair_receipt p with Some r => receipt_fits r | None => true end.

Definition finished_row (local_checksum pre_rewrite_checksum : option str) (clear_ordinary clear_capture : bool)
    (row : AssetRow) : AssetRow :=
  let c := r_receipt row in
  let drop := clear_capture || negb (holds (is_ (r_local_checksum row) local_checksum)) in
  {| r_prov := r_prov row; r_status := r_status row; r_downloaded_at := r_downloaded_at row;
     r_local_path := r_local_path row; r_last_seen_at := r_last_seen_at row;
     r_download_attempts := r_download_attempts row; r_last_error := r_last_error row;
     r_local_checksum := local_checksum;
     r_download_checksum := coalesce (r_download_checksum row) pre_rewrite_checksum;
     r_metadata_write_failed_at := if clear_ordinary then None else r_metadata_write_failed_at row;
     r_receipt :=
       {| capture_repair_metadata_hash := if clear_capture then None else capture_repair_metadata_hash c;
          capture_repair_output_checksum := if drop then None else capture_repair_output_checksum c;
          capture_repair_output_size := if drop then None else capture_repair_output_size c |};
     r_imported_size := r_imported_size row; r_imported_mtime := r_imported_mtime row |}.

Definition finish_selects (p : PendingMetadataRewrite) (selected_queue : MetadataRewriteQueue) (hash : str)
    (completion : MetadataRewriteCompletion) (k : key3) (row : AssetRow) : bool :=
  let expected := match pr_capture_repair_receipt p with Some r => receipt_cols r | None => no_receipt end in
  bool_decide (k = asset_key p) && status_is Downloaded row && negb (is_deleted row)
  && holds (is_ (metadata_hash row) (Some hash)) && holds (is_ (r_local_checksum row) (ar_local_checksum (pr_asset p)))
  && match selected_queue with
     | OrdinaryQueue => match r_metadata_write_failed_at row with Some _ => true | None => false end
     | CaptureRepairQueue => receipt_is (r_receipt row) expected
     end
  && (negb (clears completion CaptureRepairQueue) || receipt_is (r_receipt row) expected).

Definition finish_metadata_rewrite (p : PendingMetadataRewrite) (selected_queue : MetadataRewriteQueue)
    (local_checksum pre_rewrite_checksum : option str) (completion : MetadataRewriteCompletion) (d : Db) :
    result StateError (Db * bool) :=
  match am_metadata_hash (ar_metadata (pr_asset p)) with
  | None => Err (Invariant "finish_metadata_rewrite")
  | Some hash =>
      if negb (finish_checks p selected_queue local_checksum pre_rewrite_checksum completion)
      then Err (Invariant "finish_metadata_rewrite")
      else
        let sel := finish_selects p selected_queue hash completion in
        Ok (set_assets d (update sel (finished_row local_checksum pre_rewrite_checksum
              (clears completion OrdinaryQueue) (clears completion CaptureRepairQueue)) (assets d)),
            (0 <? count sel (assets d)) && clears completion selected_queue)
  end.

(** ** Reading rows back *)

Definition fit (lo hi v : Z) : option Z := if (lo <=? v) && (v <=? hi) then Some v else None.
Definition ts_to_utc (ts : Z) : Z := if timestamp_ok ts then ts * NANOS else 0.
Definition optional_ts_to_utc (ts : option Z) : option Z :=
  ts ≫= λ ts, if timestamp_ok ts then Some (ts * NANOS) else None.

Definition read_meta (m : AssetMetadata) : AssetMetadata :=
  {| am_source := am_source m; am_is_favorite := am_is_favorite m; am_rating := am_rating m ≫= fit 0 255;
     am_latitude := am_latitude m; am_longitude := am_longitude m; am_altitude := am_altitude m;
     am_orientation := am_orientation m ≫= fit 0 255; am_duration_secs := am_duration_secs m;
     am_timezone_offset := am_timezone_offset m ≫= fit (-2147483648) 2147483647;
     am_width := am_width m ≫= fit 0 U32_MAX; am_height := am_height m ≫= fit 0 U32_MAX;
     am_title := am_title m; am_keywords := am_keywords m; am_description := am_description m;
     am_media_subtype := am_media_subtype m; am_burst_id := am_burst_id m; am_is_hidden := am_is_hidden m;
     am_is_archived := am_is_archived m; am_modified_at := optional_ts_to_utc (am_modified_at m);
     am_is_deleted := am_is_deleted m; am_deleted_at := optional_ts_to_utc (am_deleted_at m);
     am_provider_data := am_provider_data m; am_metadata_hash := am_metadata_hash m |}.

Definition row_to_asset_record (k : key3) (row : AssetRow) : AssetRecord :=
  let '(library, id, version_size) := k in
  let p := r_prov row in
  {| ar_library := library; ar_id := id; ar_checksum := p_checksum p; ar_filename := p_filename p;
     ar_local_path := r_local_path row; ar_last_error := r_last_error row; ar_local_checksum := r_local_checksum row;
     ar_download_checksum := r_download_checksum row;
     ar_size_bytes := if p_size_bytes p <? 0 then 0 else p_size_bytes p;
     ar_created_at := ts_to_utc (p_created_at p); ar_added_at := optional_ts_to_utc (p_added_at p);
     ar_downloaded_at := optional_ts_to_utc (r_downloaded_at row); ar_last_seen_at := ts_to_utc (r_last_seen_at row);
     ar_download_attempts := default U32_MAX (fit 0 U32_MAX (r_download_attempts row));
     ar_version_size := default VOriginal (VersionSizeKey_from_str version_size);
     ar_media_type := p_media_type p; ar_status := r_status row; ar_metadata := read_meta (p_meta p) |}.

Definition decode_receipt (c : ReceiptCols) : result StateError (option CaptureRepairReceipt) :=
  match capture_repair_metadata_hash c, capture_repair_output_checksum c, capture_repair_output_size c with
  | None, None, None => Ok None
  | Some h, None, None => if str_eqb h [] then Err MalformedReceipt else Ok (Some (ReceiptPending h))
  | Some h, Some o, Some s =>
      if negb (str_eqb h []) && negb (str_eqb o []) && (0 <=? s) then Ok (Some (ReceiptPrepared h o s))
      else Err MalformedReceipt
  | _, _, _ => Err MalformedReceipt
  end.

Definition row_to_pending_metadata_rewrite (kr : key3 * AssetRow) : result StateError PendingMetadataRewrite :=
  receipt ← decode_receipt (r_receipt kr.2);
  Ok {| pr_asset := row_to_asset_record kr.1 kr.2; pr_capture_repair_receipt := receipt |}.

(** [ORDER BY]: insertion by a boolean order. *)
Fixpoint insert_by {A} (le : A → A → bool) (x : A) (l : list A) : list A :=
  match l with
  | [] => [x]
  | y :: l => if le x y then x :: y :: l else y :: insert_by le x l
  end.
Definition order_by {A} (le : A → A → bool) (l : list A) : list A := foldr (insert_by le) [] l.

(** Text is compared by its bytes, which is the order of its code points. *)
Fixpoint text_cmp (a b : str) : comparison :=
  match a, b with
  | [], [] => Eq
  | [], _ => Lt
  | _, [] => Gt
  | x :: a, y :: b => match x ?= y with Eq => text_cmp a b | c => c end
  end.
Definition then_cmp (a b : comparison) : comparison := match a with Eq => b | c => c end.
Definition key_cmp (a b : key3) : comparison :=
  then_cmp (text_cmp a.1.1 b.1.1) (then_cmp (text_cmp a.1.2 b.1.2) (text_cmp a.2 b.2)).
Definition cmp_le (c : comparison) : bool := match c with Gt => false | _ => true end.

Definition queue_predicate (queue : MetadataRewriteQueue) (row : AssetRow) : bool :=
  match queue with
  | OrdinaryQueue => holds (is_not_null (r_metadata_write_failed_at row))
  | CaptureRepairQueue =>
      let c := r_receipt row in
      holds (or3 (is_not_null (capture_repair_metadata_hash c))
        (or3 (is_not_null (capture_repair_output_checksum c)) (is_not_null (capture_repair_output_size c))))
  end.

Definition queue_order (queue : MetadataRewriteQueue) (a b : key3 * AssetRow) : bool :=
  match queue with
  | OrdinaryQueue =>
      cmp_le (then_cmp (default 0 (r_metadata_write_failed_at a.2) ?= default 0 (r_metadata_write_failed_at b.2)) (key_cmp a.1 b.1))
  | CaptureRepairQueue => cmp_le (key_cmp a.1 b.1)
  end.

Definition in_rewrite_queue (queue : MetadataRewriteQueue) (libraries : option (list str)) (k : key3) (row : AssetRow) : bool :=
  queue_predicate queue row && status_is Downloaded row && negb (is_deleted row)
  && holds (is_not_null (r_local_path row))
  && match libraries with Some ls => memb k.1.1 ls | None => true end.

Definition rewrite_queue (queue : MetadataRewriteQueue) (libraries : option (list str)) (d : Db) : list (key3 * AssetRow) :=
  order_by (queue_order queue)
    (map_to_list (filter (λ kr, in_rewrite_queue queue libraries kr.1 kr.2 = true) (assets d))).

Fixpoint collect_results {E A} (l : list (result E A)) : result E (list A) :=
  match l with
  | [] => Ok []
  | r :: l => x ← r; xs ← collect_results l; Ok (x :: xs)
  end.

(** [get_pending_metadata_rewrites_page_for_queue]; an empty scope answers
    without a query. *)
Definition get_pending_metadata_rewrites_page_for_queue (queue : MetadataRewriteQueue) (library_scope : option (list str))
    (off limit : nat) (d : Db) : result StateError (list PendingMetadataRewrite) :=
  match library_scope with
  | Some [] => Ok []
  | _ => collect_results (map row_to_pending_metadata_rewrite (take limit (drop off (rewrite_queue queue library_scope d))))
  end.

(** ** Listings *)

Definition rows_where (p : key3 → AssetRow → bool) (d : Db) : gmap key3 AssetRow :=
  filter (λ kr, p kr.1 kr.2 = true) (assets d).

Definition get_downloaded_ids (d : Db) : gset key3 := dom (rows_where (λ _, status_is Downloaded) d).
Definition get_downloaded_checksums (d : Db) : gmap key3 str :=
  (λ row, p_checksum (r_prov row)) <$> rows_where (λ _, status_is Downloaded) d.
Definition get_downloaded_local_paths (d : Db) : gmap key3 path :=
  omap r_local_path (rows_where (λ _, status_is Downloaded) d).
Definition get_downloaded_metadata_hashes (d : Db) : gmap key3 str :=
  omap metadata_hash (rows_where (λ _, status_is Downloaded) d).
Definition get_soft_deleted_downloaded_ids (d : Db) : gset key2 :=
  set_map fst (dom (rows_where (λ _ row, status_is Downloaded row && is_deleted row) d)).
Definition get_all_known_ids (d : Db) : gset key2 := set_map fst (dom (assets d)).
Definition get_metadata_retry_markers (d : Db) : gset key3 :=
  dom (rows_where (λ _ row, holds (is_not_null (r_metadata_write_failed_at row))) d).
Definition has_downloaded_without_metadata_hash (d : Db) : bool :=
  exists_row (λ _ row, status_is Downloaded row && negb (is_deleted row) && holds (is_null (metadata_hash row))) (assets d).

(** [MAX(download_attempts)] per asset with attempts. *)
Definition get_attempt_counts (d : Db) : gmap key2 Z :=
  map_fold (λ k row m, if 0 <? r_download_attempts row
      then partial_alter (λ o, Some (Z.max (default 0 o) (default U32_MAX (fit 0 U32_MAX (r_download_attempts row))))) k.1 m
      else m) ∅ (assets d).

Definition get_downloaded_file_records (d : Db) : list DownloadedFileRecord :=
  (λ kr : key3 * AssetRow,
     {| df_library := kr.1.1.1; df_id := kr.1.1.2;
        df_version_size := default VOriginal (VersionSizeKey_from_str kr.1.2);
        df_checksum := p_checksum (r_prov kr.2); df_local_path := r_local_path kr.2;
        df_local_checksum := r_local_checksum kr.2; df_download_checksum := r_download_checksum kr.2 |})
  <$> map_to_list (rows_where (λ _, status_is Downloaded) d).
End Store.

(** ** The metadata table *)

Definition get_metadata (key : str) (d : Db) : option str := metadata d !! key.
Definition set_metadata (key value : str) (d : Db) : Db := set_metadata_table d (<[key := value]> (metadata d)).
Definition delete_metadata_by_prefix (prefix : str) (d : Db) : Db * Z :=
  let p k (_ : str) := like (prefix ++ lit "%") k in
  (set_metadata_table d (delete_where p (metadata d)), count p (metadata d)).

Definition commit_checkpoint_transition (t : CheckpointTransition) (d : Db) : Db :=
  let m := foldl (λ m kv, <[kv.1 := kv.2]> m) (metadata d) (metadata_updates t) in
  set_metadata_table d (foldl (λ m k, delete k m) m (metadata_deletes t)).

Definition ENUM_IN_PROGRESS : str := lit "enum_in_progress:".
Definition begin_enum_progress (now : Z) (zone : str) (d : Db) : Db :=
  match metadata d !! (ENUM_IN_PROGRESS ++ zone) with
  | Some _ => d
  | None => set_metadata_table d (<[ENUM_IN_PROGRESS ++ zone := show_i64 (timestamp now)]> (metadata d))
  end.
Definition end_enum_progress (zone : str) (d : Db) : Db :=
  set_metadata_table d (delete (ENUM_IN_PROGRESS ++ zone) (metadata d)).
Definition list_interrupted_enumerations (d : Db) : list str :=
  omap (λ kv : str * str, if like (ENUM_IN_PROGRESS ++ lit "%") kv.1 then strip_prefix ENUM_IN_PROGRESS kv.1 else None)
    (map_to_list (metadata d)).

(** ** Metadata-capture revisions *)

Definition stale_assets (d : Db) (library : str) (target_revision : Z) : gset str :=
  set_map (λ k : key3, k.1.2)
    (dom (filter (λ kr, bool_decide (kr.1.1.1 = library) && status_is Downloaded kr.2 && negb (is_deleted kr.2)
          && match capture_revisions d !! kr.1.1 with Some r => r <? target_revision | None => true end = true) (assets d))).

Definition metadata_capture_remaining (d : Db) (library : str) (target_revision : Z) : Z :=
  Z.of_nat (size (stale_assets d library target_revision)).

Record MetadataCaptureStatus := {
  mc_state : CaptureState;
  mc_remaining_assets : Z;
}.

Definition begin_metadata_capture_revision (library : str) (target_revision : Z) (d : Db) : Db * MetadataCaptureStatus :=
  let remaining := metadata_capture_remaining d library target_revision in
  let old := default {| cs_active_revision := 0; cs_pending_revision := None; cs_processed_assets := 0;
                        cs_failed_assets := 0; cs_last_error := None |} (metadata_capture_state d !! library) in
  let st :=
    if remaining =? 0 then
      {| cs_active_revision := Z.max (cs_active_revision old) target_revision; cs_pending_revision := None;
         cs_processed_assets := cs_processed_assets old; cs_failed_assets := cs_failed_assets old;
         cs_last_error := cs_last_error old |}
    else if bool_decide (cs_pending_revision old = Some target_revision) then
      {| cs_active_revision := cs_active_revision old; cs_pending_revision := Some target_revision;
         cs_processed_assets := cs_processed_assets old; cs_failed_assets := cs_failed_assets old;
         cs_last_error := cs_last_error old |}
    else
      {| cs_active_revision := cs_active_revision old; cs_pending_revision := Some target_revision;
         cs_processed_assets := 0; cs_failed_assets := 0; cs_last_error := None |} in
  (set_capture d (capture_revisions d) (<[library := st]> (metadata_capture_state d)),
   {| mc_state := st; mc_remaining_assets := remaining |}).

Definition record_metadata_capture_failure (library : str) (target_revision : Z) (error : str) (d : Db) : Db :=
  set_capture d (capture_revisions d)
    (update (λ lib st, bool_decide (lib = library) && holds (eq3 (cs_pending_revision st) (Some target_revision)))
       (λ st, {| cs_active_revision := cs_active_revision st; cs_pending_revision := cs_pending_revision st;
                 cs_processed_assets := cs_processed_assets st; cs_failed_assets := cs_failed_assets st + 1;
                 cs_last_error := Some error |}) (metadata_capture_state d)).

Definition metadata_capture_status (d : Db) (library : str) (target_revision remaining : Z) : MetadataCaptureStatus :=
  {| mc_state := default
       (if 0 <? remaining
        then {| cs_active_revision := 0; cs_pending_revision := Some target_revision; cs_processed_assets := 0;
                cs_failed_assets := 0; cs_last_error := None |}
        else {| cs_active_revision := target_revision; cs_pending_revision := None; cs_processed_assets := 0;
                cs_failed_assets := 0; cs_last_error := None |}) (metadata_capture_state d !! library);
     mc_remaining_assets := remaining |}.

Definition complete_metadata_capture_revision (library : str) (target_revision : Z) (d : Db) : Db * MetadataCaptureStatus :=
  let remaining := metadata_capture_remaining d library target_revision in
  let d' :=
    if remaining =? 0 then
      set_capture d (capture_revisions d)
        (update (λ lib _, bool_decide (lib = library))
           (λ st, {| cs_active_revision := Z.max (cs_active_revision st) target_revision; cs_pending_revision := None;
                     cs_processed_assets := cs_processed_assets st; cs_failed_assets := 0; cs_last_error := None |})
           (metadata_capture_state d))
    else d in
  (d', metadata_capture_status d' library target_revision remaining).

Definition has_metadata_capture_work (libraries : list str) (target_revision : Z) (d : Db) : bool :=
  existsb (λ library, (0 <? metadata_capture_remaining d library target_revision)
    || match metadata_capture_state d !! library with
       | Some st => bool_decide (cs_pending_revision st = Some target_revision)
       | None => false
       end) libraries.

(** *** Sorting keeps the elements *)

Lemma insert_by_perm {A} (le : A → A → bool) x l : insert_by le x l ≡ₚ x :: l.
Proof. induction l as [|y l IH]; cbn; [done|]. destruct (le x y); [done|]. rewrite IH. apply Permutation_swap. Qed.

Lemma order_by_perm {A} (le : A → A → bool) l : order_by le l ≡ₚ l.
Proof. induction l as [|x l IH]; cbn; [done|]. by rewrite insert_by_perm, IH. Qed.
