(* ===== verification/StateDbSpec.v ===== *)
(** * Correctness of the state store

    The operations of [StateDb.v] as one transition function, the invariant
    every reachable database satisfies, and what the store promises the
    download engine: finished downloads are remembered, a prepared repair is
    never lost, retries and promotions touch exactly their rows. *)
From S2P Require Import Prelude RustStr Types StateTypes StateDb.
Import Sql.

(** ** Operations as data *)

Inductive Op :=
| OUpsertSeen (now : Z) (r : AssetRecord)
| OMarkDownloaded (now : Z) (k : key3) (local_path local_checksum : str) (download_checksum : option str) (repair : bool)
| OImportAdopt (now : Z) (r : AssetRecord) (local_path local_checksum : str) (imported_size : Z) (imported_mtime : option Z)
| OMarkFailed (k : key3) (error : str)
| OPrepareForRetry (library : option str) (e : RetryErrorRetention)
| OPromotePending (seen_since : Z)
| OPruneStale (library : str) (seen_since : Z)
| OPruneVersions (library : str) (versions : list (str * str))
| OTouchLastSeen (now : Z) (library : str) (ids : list str)
| OSetVerification (now : Z) (k : key3) (state : AssetVerificationState) (reason : str)
| OClearVerification (k : key3)
| OPolicyExcluded (k : key3)
| OSoftDeleted (library id : str) (at_ : option Z)
| OResolveDeleted (library id : str) (at_ : option Z)
| OFamilySoftDeleted (library master : str) (at_ : option Z)
| OFamilyResolveDeleted (library master : str) (at_ : option Z)
| OHidden (library id : str)
| OMapping (library asset master : str)
| OClaimOwner (library master asset : str)
| OWriteFailure (now : Z) (k : key3)
| ORefresh (now : Z) (library id : str) (m : AssetMetadata) (mark repair : bool) (revision : Z)
| ORepairPrepared (p : PendingMetadataRewrite) (output_checksum : str) (output_size : Z)
| OFinishRewrite (p : PendingMetadataRewrite) (q : MetadataRewriteQueue) (local pre : option str) (c : MetadataRewriteCompletion)
| OSetMetadata (key value : str)
| ODeleteMetadataPrefix (prefix : str)
| OCommitCheckpoint (t : CheckpointTransition)
| OBeginEnum (now : Z) (zone : str)
| OEndEnum (zone : str)
| OBeginCapture (library : str) (revision : Z)
| OCaptureFailure (library : str) (revision : Z) (error : str)
| OCompleteCapture (library : str) (revision : Z).

Section Exec.
Context `{StateEnv}.

Definition exec (o : Op) (d : Db) : result StateError Db :=
  match o with
  | OUpsertSeen now r => upsert_seen now r d
  | OMarkDownloaded now (library, id, v) p c dc repair => mark_downloaded_with_capture_repair now library id v p c dc repair d
  | OImportAdopt now r p c sz mtime => import_adopt now r p c sz mtime d
  | OMarkFailed (library, id, v) error => mark_failed library id v error d
  | OPrepareForRetry library e => Ok (prepare_for_retry library e d).1
  | OPromotePending since => Ok (promote_pending_to_failed since d).1
  | OPruneStale library since => Ok (prune_stale_pending_not_seen_since library since d).1
  | OPruneVersions library vs => Ok (prune_pending_asset_versions library vs d).1
  | OTouchLastSeen now library ids => Ok (touch_last_seen_many now library ids d)
  | OSetVerification now (library, id, v) st reason => set_asset_verification now library id v st reason d
  | OClearVerification (library, id, v) => Ok (clear_asset_verification library id v d)
  | OPolicyExcluded (library, id, v) => Ok (mark_policy_excluded library id v d).1
  | OSoftDeleted library id at_ => fst <$> mark_soft_deleted library id at_ d
  | OResolveDeleted library id at_ => fst <$> resolve_source_deleted library id at_ d
  | OFamilySoftDeleted library m at_ => fst <$> mark_master_family_soft_deleted library m at_ d
  | OFamilyResolveDeleted library m at_ => fst <$> resolve_master_family_source_deleted library m at_ d
  | OHidden library id => Ok (mark_hidden_at_source library id d).1
  | OMapping library a m => Ok (upsert_asset_master_mapping library a m d)
  | OClaimOwner library m a => Ok (claim_legacy_master_state_owner library m a d).1
  | OWriteFailure now (library, id, v) => Ok (record_metadata_write_failure now library id v d)
  | ORefresh now library id m mark repair rev => Ok (refresh_downloaded_asset_metadata now library id m mark repair rev d).1
  | ORepairPrepared p c sz => fst <$> record_capture_repair_prepared p c sz d
  | OFinishRewrite p q lc pc c => fst <$> finish_metadata_rewrite p q lc pc c d
  | OSetMetadata k v => Ok (set_metadata k v d)
  | ODeleteMetadataPrefix p => Ok (delete_metadata_by_prefix p d).1
  | OCommitCheckpoint t => Ok (commit_checkpoint_transition t d)
  | OBeginEnum now z => Ok (begin_enum_progress now z d)
  | OEndEnum z => Ok (end_enum_progress z d)
  | OBeginCapture library rev => Ok (begin_metadata_capture_revision library rev d).1
  | OCaptureFailure library rev e => Ok (record_metadata_capture_failure library rev e d)
  | OCompleteCapture library rev => Ok (complete_metadata_capture_revision library rev d).1
  end.

(** A refused operation leaves the database as it was: its transaction is
    rolled back. *)
Definition run (os : list Op) (d : Db) : Db :=
  foldl (λ d o, match exec o d with Ok d' => d' | Err _ => d end) d os.

(** What the callers guarantee: a metadata hash they pass is a digest, and a
    file size is a [u64]. *)
Definition meta_ok (m : AssetMetadata) : Prop := am_metadata_hash m <> Some [].
Definition op_ok (o : Op) : Prop :=
  match o with
  | OUpsertSeen _ r | OImportAdopt _ r _ _ _ _ => meta_ok (ar_metadata r)
  | ORefresh _ _ _ m _ _ _ => meta_ok m
  | ORepairPrepared _ _ sz => 0 <= sz
  | _ => True
  end.

(** ** The invariant *)

Definition receipt_ok (c : ReceiptCols) : Prop := is_ok (decode_receipt c) = true.

Record row_ok (row : AssetRow) : Prop := {
  ok_receipt : receipt_ok (r_receipt row);
  ok_hash : metadata_hash row <> Some [];
  ok_downloaded : r_status row = Downloaded → is_Some (r_local_path row) ∧ is_Some (r_downloaded_at row);
}.

Record db_ok (d : Db) : Prop := {
  ok_rows : map_Forall (λ _, row_ok) (assets d);
  ok_verifications : foreign_keys = true → dom (asset_verifications d) ⊆ dom (assets d);
}.

End Exec.

(** ** SQL lemmas *)

Section SqlLemmas.
Context {K A : Type} `{Countable K}.
Implicit Types (p : K → A → bool) (f : A → A) (m : gmap K A).

Lemma lookup_update p f m k : update p f m !! k = (λ r, if p k r then f r else r) <$> m !! k.
Proof. unfold update. rewrite map_lookup_imap. by destruct (m !! k). Qed.

Lemma dom_update p f m : dom (update p f m) = dom m.
Proof. apply set_eq. intros k. rewrite !elem_of_dom, lookup_update, fmap_is_Some. done. Qed.

Lemma update_Forall (P : A → Prop) p f m :
  map_Forall (λ _, P) m → (∀ k r, m !! k = Some r → p k r = true → P r → P (f r)) → map_Forall (λ _, P) (update p f m).
Proof.
  intros HP Hf k r. rewrite lookup_update. destruct (m !! k) as [r0|] eqn:E; [|done].
  cbn. intros [= <-]. destruct (p k r0) eqn:Hp; [|by apply (HP k)]. apply (Hf k); [done..|by apply (HP k)].
Qed.

Lemma lookup_delete_where p m k :
  delete_where p m !! k = m !! k ≫= λ r, if p k r then None else Some r.
Proof.
  unfold delete_where. rewrite map_lookup_filter. destruct (m !! k) as [r|]; [|done].
  cbn. destruct (p k r); by simplify_option_eq.
Qed.

Lemma delete_where_Forall (P : A → Prop) p m : map_Forall (λ _, P) m → map_Forall (λ _, P) (delete_where p m).
Proof.
  intros HP k r. rewrite lookup_delete_where. destruct (m !! k) as [r0|] eqn:E; [|done].
  cbn. destruct (p k r0); [done|]. intros [= <-]. by apply (HP k).
Qed.

Lemma exists_row_true p m : exists_row p m = true ↔ ∃ k r, m !! k = Some r ∧ p k r = true.
Proof.
  unfold exists_row, count. rewrite Z.ltb_lt. split.
  - intros Hs. destruct (map_choose (filter (λ kr : K * A, p kr.1 kr.2 = true) m)) as (k & r & Hk).
    { intros E. rewrite E, map_size_empty in Hs. lia. }
    apply map_lookup_filter_Some in Hk as [Hk Hp]. eauto.
  - intros (k & r & Hk & Hp).
    assert (size (filter (λ kr : K * A, p kr.1 kr.2 = true) m) <> 0%nat); [|lia].
    apply map_size_non_empty_iff. intros E.
    assert (filter (λ kr : K * A, p kr.1 kr.2 = true) m !! k = Some r) by by apply map_lookup_filter_Some.
    by rewrite E, lookup_empty in *.
Qed.

Lemma exists_row_false p m k r : exists_row p m = false → m !! k = Some r → p k r = false.
Proof.
  intros He Hk. destruct (p k r) eqn:Hp; [|done].
  rewrite (proj2 (exists_row_true p m)) in He; [done|eauto].
Qed.

Lemma count_positive p m : (0 <? count p m) = true ↔ ∃ k r, m !! k = Some r ∧ p k r = true.
Proof. apply exists_row_true. Qed.

Lemma count_zero p m : count p m = 0 ↔ ∀ k r, m !! k = Some r → p k r = false.
Proof.
  destruct (exists_row p m) eqn:E.
  - pose proof E as (k & r & Hk & Hp)%exists_row_true. unfold exists_row in E. zbool. split; [lia|].
    intros Hf. rewrite (Hf k r Hk) in Hp. done.
  - split; [intros _ k r; by apply exists_row_false|]. intros _. unfold exists_row in E. zbool.
    unfold count in *. lia.
Qed.
End SqlLemmas.

Lemma holds_and3 a b : holds (and3 a b) = holds a && holds b.
Proof. by destruct a as [[]|], b as [[]|]. Qed.
Lemma holds_is {A} `{EqDecision A} (a b : option A) : holds (is_ a b) = bool_decide (a = b).
Proof. unfold is_, holds. by case_bool_decide. Qed.
Lemma holds_not_is {A} `{EqDecision A} (a b : option A) : holds (not3 (is_ a b)) = negb (bool_decide (a = b)).
Proof. unfold not3, is_, holds. cbn. by case_bool_decide. Qed.
Lemma holds_eq3 {A} `{EqDecision A} (a b : option A) : holds (eq3 a b) = true ↔ ∃ x, a = Some x ∧ b = Some x.
Proof.
  destruct a as [x|], b as [y|]; cbn; try (split; [done|naive_solver]).
  case_bool_decide; subst; split; intros; [eauto|done|done|naive_solver].
Qed.
Lemma str_eqb_nil s : str_eqb s [] = bool_decide (s = []).
Proof. by destruct s. Qed.

(** ** Receipts *)

Inductive receipt_shape : ReceiptCols → Prop :=
| shape_none : receipt_shape no_receipt
| shape_pending h : h <> [] → receipt_shape
    {| capture_repair_metadata_hash := Some h; capture_repair_output_checksum := None; capture_repair_output_size := None |}
| shape_prepared h o s : h <> [] → o <> [] → 0 <= s → receipt_shape
    {| capture_repair_metadata_hash := Some h; capture_repair_output_checksum := Some o; capture_repair_output_size := Some s |}.

Lemma receipt_ok_shape c : receipt_ok c ↔ receipt_shape c.
Proof.
  unfold receipt_ok, decode_receipt. split.
  - destruct c as [[h|] [o|] [s|]]; cbn; try done; rewrite ?str_eqb_nil;
      repeat case_bool_decide; cbn; try done; try (destruct (Z.leb_spec 0 s); done); try by constructor.
    destruct (Z.leb_spec 0 s); [|done]. by constructor.
  - intros [|h Hh|h o s Hh Ho Hs]; cbn; rewrite ?str_eqb_nil, ?bool_decide_false by done; [done..|].
    cbn. by rewrite (proj2 (Z.leb_le 0 s)).
Qed.

(** A repair whose replacement file is ready. *)
Definition is_prepared (c : ReceiptCols) : bool := holds (prepared c).

Lemma is_prepared_shape c : receipt_ok c →
  is_prepared c = match capture_repair_output_checksum c with Some _ => true | None => false end.
Proof.
  intros [|h Hh|h o s Hh Ho Hs]%receipt_ok_shape; try done; unfold is_prepared, prepared; cbn.
  - by rewrite bool_decide_true.
  - rewrite !bool_decide_true by done. by rewrite (proj2 (Z.leb_le 0 s)).
Qed.

Lemma case_prepared_is c : holds (case_prepared c) = is_prepared c.
Proof. by destruct c as [[[|]|] [[|]|] [[| |]|]]. Qed.

Lemma upsert_receipt_ok c changed h : receipt_ok c → h <> [] → receipt_ok (upsert_receipt c changed (Some h)).
Proof.
  rewrite !receipt_ok_shape. intros Hc Hh. unfold upsert_receipt. destruct changed; [constructor|].
  destruct Hc as [|h' Hh'|h' o s Hh' Ho Hs]; [constructor|by cbn; rewrite bool_decide_true by done; constructor|].
  cbn. rewrite !bool_decide_true by done. rewrite (proj2 (Z.leb_le 0 s)) by done. cbn.
  destruct (bool_decide (Some h' = Some h)); cbn; by constructor.
Qed.

Lemma refresh_receipt_ok c repair h : receipt_ok c → h <> [] → receipt_ok (refresh_receipt c repair (Some h)).
Proof.
  rewrite !receipt_ok_shape. intros Hc Hh. unfold refresh_receipt.
  destruct Hc as [|h' Hh'|h' o s Hh' Ho Hs]; cbn.
  - destruct repair; by constructor.
  - rewrite bool_decide_true by done. by constructor.
  - rewrite !bool_decide_true by done. rewrite (proj2 (Z.leb_le 0 s)) by done. by constructor.
Qed.

Lemma upsert_receipt_same c h : receipt_ok c → is_prepared c = true → capture_repair_metadata_hash c = h →
  upsert_receipt c false h = c.
Proof.
  intros Hok Hp <-. unfold upsert_receipt. pose proof Hok as Hc%receipt_ok_shape.
  destruct Hc as [|h' Hh'|h' o s Hh' Ho Hs]; [done|by rewrite is_prepared_shape in Hp|].
  cbn. rewrite !bool_decide_true by done. rewrite (proj2 (Z.leb_le 0 s)) by done. done.
Qed.

Lemma refresh_receipt_same c repair h : is_prepared c = true → refresh_receipt c repair h = c.
Proof. intros Hp. unfold refresh_receipt. by rewrite case_prepared_is, Hp. Qed.

Section Ops.
Context `{StateEnv}.
#[local] Arguments holds : simpl never.
#[local] Arguments is_ : simpl never.

(** ** Rows *)

Lemma effective_hash_ok m : meta_ok m → effective_hash m <> [].
Proof.
  unfold meta_ok, effective_hash. intros Hm. destruct (am_metadata_hash m) as [h|]; cbn; [congruence|].
  apply sha256_hex_nonempty.
Qed.

Lemma inserted_row_ok r t : meta_ok (ar_metadata r) → row_ok (inserted_row r t).
Proof. intros Hm. split; cbn; [done| |done]. intros [= E]. by apply (effective_hash_ok _ Hm). Qed.

Lemma conflict_row_ok row r t : row_ok row → meta_ok (ar_metadata r) → row_ok (conflict_row row r t).
Proof.
  intros [Hr Hh Hd] Hm%effective_hash_ok. split; cbn.
  - by apply upsert_receipt_ok.
  - intros [= E]. done.
  - destruct (bool_decide (p_checksum _ <> _)); [by rewrite orb_true_r|]. rewrite orb_false_r.
    unfold status_is. case_bool_decide; done.
Qed.

Lemma downloaded_row_ok row p c dc repair t : row_ok row → row_ok (downloaded_row row p c dc repair t).
Proof.
  intros [Hr Hh Hd]. split; cbn; [|done|eauto]. destruct repair; cbn.
  - unfold receipt_ok, decode_receipt. cbn. destruct (metadata_hash row) as [h|]; [|done].
    rewrite str_eqb_nil, bool_decide_false by congruence. done.
  - destruct (holds (is_ (r_local_checksum row) (Some c))); [revert Hr; by destruct (r_receipt row)|].
    exact (proj2 (receipt_ok_shape _) shape_none).
Qed.

Lemma set_status_ok row s n e : row_ok row → s <> Downloaded → row_ok (set_status row s n e).
Proof. intros [Hr Hh Hd] Hs. by split. Qed.

(** A change of columns the invariant does not read. *)
Lemma row_ok_ext row row' : r_receipt row' = r_receipt row → metadata_hash row' = metadata_hash row →
  r_status row' = r_status row → r_local_path row' = r_local_path row → r_downloaded_at row' = r_downloaded_at row →
  row_ok row → row_ok row'.
Proof. intros E1 E2 E3 E4 E5 [Hr Hh Hd]. split; rewrite ?E1, ?E2, ?E3, ?E4, ?E5; done. Qed.

Lemma refreshed_row_ok m mark repair t h row :
  row_ok row → am_metadata_hash m = Some h → h <> [] → row_ok (refreshed_row m mark repair t row).
Proof.
  intros [Hr Hh Hd] E Hn. unfold refreshed_row. rewrite E.
  destruct mark; split; cbn; try (by apply refresh_receipt_ok); try done; congruence.
Qed.

Lemma finished_row_ok lc pc co cc row : row_ok row → row_ok (finished_row lc pc co cc row).
Proof.
  intros [Hr Hh Hd]. split; cbn; [|done..]. rewrite receipt_ok_shape in *.
  destruct cc, (holds (is_ (r_local_checksum row) lc)); cbn; try constructor; destruct (r_receipt row); cbn;
    inversion Hr; subst; by constructor.
Qed.

(** ** Databases *)

(** Parts of the database the invariant does not read. *)
Lemma db_ok_ext d d' : assets d' = assets d → asset_verifications d' = asset_verifications d → db_ok d → db_ok d'.
Proof. intros E1 E2 [Hr Hv]. split; by rewrite ?E1, ?E2. Qed.

Lemma set_assets_ok d m : db_ok d → map_Forall (λ _, row_ok) m → dom (assets d) ⊆ dom m → db_ok (set_assets d m).
Proof. intros [Hr Hv] Hm Hs. split; cbn; [done|]. intros Hf. specialize (Hv Hf). set_solver. Qed.

Lemma insert_row_ok d k row : db_ok d → row_ok row → db_ok (set_assets d (<[k := row]> (assets d))).
Proof.
  intros Hd Hrow. apply set_assets_ok; [done| |rewrite dom_insert; set_solver].
  apply map_Forall_insert_2; [done|apply Hd].
Qed.

Lemma update_rows_ok d p f : db_ok d → (∀ k row, assets d !! k = Some row → p k row = true → row_ok row → row_ok (f row)) →
  db_ok (set_assets d (update p f (assets d))).
Proof.
  intros Hd Hf. apply set_assets_ok; [done| |by rewrite dom_update].
  apply update_Forall; [apply Hd|]. intros k row Hk Hp Hrow. by apply (Hf k).
Qed.

Lemma delete_assets_ok d p : db_ok d → db_ok (delete_assets p d).
Proof.
  intros [Hr Hv]. unfold delete_assets. split.
  - destruct foreign_keys; cbn; by apply delete_where_Forall.
  - intros Hf. rewrite Hf. cbn. specialize (Hv Hf). intros k. rewrite !elem_of_dom, !lookup_delete_where.
    intros [v Hk]. destruct (asset_verifications d !! k) as [v'|] eqn:E; [|done]. cbn in Hk.
    assert (k ∈ dom (assets d)) as [row Hrow]%elem_of_dom by (apply Hv, elem_of_dom; eauto).
    rewrite Hrow in *. cbn. by destruct (p k row).
Qed.

Lemma delete_verifications_ok d p : db_ok d → db_ok (set_verifications d (delete_where p (asset_verifications d))).
Proof.
  intros [Hr Hv]. split; cbn; [done|]. intros Hf k. rewrite elem_of_dom, lookup_delete_where.
  intros [v Hk]. apply (Hv Hf), elem_of_dom. by destruct (asset_verifications d !! k).
Qed.

Lemma delete_verification_ok d k : db_ok d → db_ok (set_verifications d (delete k (asset_verifications d))).
Proof. intros [Hr Hv]. split; cbn; [done|]. intros Hf. rewrite dom_delete. specialize (Hv Hf). set_solver. Qed.

Lemma record_revision_ok d library id rev : db_ok d → db_ok (record_metadata_capture_revision d library id rev).
Proof.
  intros Hd. unfold record_metadata_capture_revision.
  destruct (match capture_revisions d !! _ with Some _ => _ | None => _ end); [|done].
  by apply (db_ok_ext d).
Qed.

Lemma upsert_asset_row_ok d r t d' : db_ok d → meta_ok (ar_metadata r) → upsert_asset_row d r t = Ok d' → db_ok d'.
Proof.
  intros Hd Hm. unfold upsert_asset_row. destruct (exists_row _ _); [done|].
  destruct (assets d !! record_key r) as [row|] eqn:E.
  - destruct (conflict_refused row r); [done|]. intros [= <-].
    apply insert_row_ok; [done|]. apply conflict_row_ok; [by apply (ok_rows d Hd) in E|done].
  - intros [= <-]. apply insert_row_ok; [done|]. by apply inserted_row_ok.
Qed.

Lemma update_status_ok d k p c dc repair t : db_ok d → db_ok (update_status_to_downloaded d k p c dc repair t).1.
Proof.
  intros Hd. unfold update_status_to_downloaded. destruct (assets d !! k) as [row|] eqn:E; [|done].
  apply insert_row_ok; [done|]. apply downloaded_row_ok. by apply (ok_rows d Hd) in E.
Qed.

Lemma prepare_for_retry_ok d library e : db_ok d → db_ok (prepare_for_retry library e d).1.
Proof.
  intros Hd. unfold prepare_for_retry. cbn. apply set_assets_ok; [done| |by rewrite !dom_update].
  repeat apply update_Forall; [apply Hd|..]; intros k row _ _ Hrow; by apply set_status_ok.
Qed.

Lemma prune_versions_ok library vs d : db_ok d → db_ok (prune_pending_asset_versions library vs d).1.
Proof.
  revert d. induction vs as [|[id v] vs IH]; intros d Hd; [done|]. cbn.
  match goal with |- context [prune_pending_asset_versions library vs ?d1] =>
    specialize (IH d1 (delete_assets_ok _ _ Hd)); by destruct (prune_pending_asset_versions library vs d1) end.
Qed.

Lemma touch_rows_ok m now library ids : map_Forall (λ _ : key3, row_ok) m →
  let m' := foldl (λ m id, update (λ k _, bool_decide (k.1 = (library, id))) (λ row, set_last_seen row (timestamp now)) m) m ids in
  map_Forall (λ _, row_ok) m' ∧ dom m' = dom m.
Proof.
  revert m. induction ids as [|id ids IH]; intros m Hm; cbn; [done|].
  destruct (IH (update (λ k _, bool_decide (k.1 = (library, id))) (λ row, set_last_seen row (timestamp now)) m)) as [H1 H2].
  { apply update_Forall; [done|]. intros k row _ _ [Hr Hh Hd]. by split. }
  split; [done|]. by rewrite H2, dom_update.
Qed.

Lemma deleted_row_ok at_ row : row_ok row → row_ok (deleted_row at_ row).
Proof. by apply row_ok_ext. Qed.

Lemma delete_at_source_ok op sel at_ clear d d' n :
  db_ok d → delete_at_source op sel at_ clear d = Ok (d', n) → db_ok d'.
Proof.
  intros Hd. unfold delete_at_source. destruct (exists_row _ _); [done|]. intros [= <- <-].
  assert (db_ok (set_assets d (update (λ k _, sel k) (deleted_row (timestamp <$> at_)) (assets d)))) as Hd1.
  { apply update_rows_ok; [done|]. intros k row _ _. apply deleted_row_ok. }
  destruct clear; [|done]. by apply (delete_verifications_ok _ _ Hd1).
Qed.

Lemma refresh_ok now library id m mark repair rev d :
  db_ok d → meta_ok m → db_ok (refresh_downloaded_asset_metadata now library id m mark repair rev d).1.
Proof.
  intros Hd Hm. unfold refresh_downloaded_asset_metadata. cbn.
  set (m' := match am_metadata_hash m with Some _ => m | None => refresh_hash m end).
  assert (∃ h, am_metadata_hash m' = Some h ∧ h <> []) as (h & Eh & Hh).
  { unfold m'. destruct (am_metadata_hash m) as [h|] eqn:E.
    - exists h. split; [done|]. intros ->. done.
    - eexists. split; [done|]. apply sha256_hex_nonempty. }
  match goal with |- db_ok (if ?c then record_metadata_capture_revision ?d1 _ _ _ else _) =>
    assert (db_ok d1) as Hd1; [|destruct c; [by apply record_revision_ok|done]] end.
  apply update_rows_ok; [done|]. intros k row _ _ Hrow. by apply (refreshed_row_ok _ _ _ _ h).
Qed.

Lemma receipt_is_true c c' : receipt_is c c' = true ↔ c = c'.
Proof.
  unfold receipt_is. rewrite !holds_and3, !holds_is. destruct c, c'; cbn.
  rewrite !andb_true_iff, !bool_decide_eq_true. naive_solver.
Qed.

Lemma repair_prepared_ok p c sz d d' o : db_ok d → 0 <= sz → record_capture_repair_prepared p c sz d = Ok (d', o) → db_ok d'.
Proof.
  intros Hd Hsz. unfold record_capture_repair_prepared. rewrite str_eqb_nil. case_bool_decide as Hc; [done|].
  destruct (pr_capture_repair_receipt p) as [r|]; [|done]. destruct (negb (receipt_fits r)); [done|].
  destruct (ar_local_checksum _); [|by intros [= <- <-]]. destruct (negb (fits_i64 sz)); [done|]. intros [= <- <-].
  apply update_rows_ok; [done|]. intros k row _ Hsel [Hr Hh Hdl]. zbool.
  match goal with E : receipt_is _ _ = true |- _ => apply receipt_is_true in E as E1 end.
  split; cbn; [|done..]. rewrite receipt_ok_shape in *.
  rewrite E1 in *. destruct r; inversion Hr; subst; by constructor.
Qed.

Lemma finish_rewrite_ok p q lc pc c d d' b : db_ok d → finish_metadata_rewrite p q lc pc c d = Ok (d', b) → db_ok d'.
Proof.
  intros Hd. unfold finish_metadata_rewrite. destruct (am_metadata_hash _); [|done].
  destruct (negb (finish_checks p q lc pc c)); [done|]. intros [= <- <-].
  apply update_rows_ok; [done|]. intros k row _ _. apply finished_row_ok.
Qed.

Lemma import_adopt_ok now r p c sz mtime d d' :
  db_ok d → meta_ok (ar_metadata r) → import_adopt now r p c sz mtime d = Ok d' → db_ok d'.
Proof.
  intros Hd Hm. unfold import_adopt. destruct (upsert_asset_row d r (timestamp now)) as [d1|] eqn:E; [|done]. cbn.
  apply upsert_asset_row_ok in E; [|done..].
  pose proof (update_status_ok d1 (record_key r) p c None false (timestamp now) E) as Hd2.
  destruct (update_status_to_downloaded _ _ _ _ _ _ _) as [d2 n]. intros [= <-].
  apply update_rows_ok; [by apply record_revision_ok|]. intros k row _ _. by apply row_ok_ext.
Qed.

Lemma set_rows_verifications_ok d m v : db_ok (set_assets d m) → dom v ⊆ dom m →
  db_ok (set_verifications (set_assets d m) v).
Proof. intros [Hr _] Hv. by split. Qed.

(** An operation that also returns a value: its lemma [L] speaks of both. *)
Ltac by_pair_op L :=
  match goal with |- fmap fst ?e = Ok _ → _ => destruct e as [[? ?]|] eqn:?E; [|done]; intros [= <-]; by apply L in E end.

Lemma exec_ok o d d' : db_ok d → op_ok o → exec o d = Ok d' → db_ok d'.
Proof.
  intros Hd Ho. destruct o; cbn [exec]; repeat match goal with k : key3 |- _ => destruct k as [[? ?] ?] end;
    try (intros [= <-]; by apply (db_ok_ext d)).
  - apply upsert_asset_row_ok; done.
  - unfold mark_downloaded_with_capture_repair.
    match goal with |- context [update_status_to_downloaded d ?k ?p ?c ?dc ?r ?t] =>
      pose proof (update_status_ok d k p c dc r t Hd); destruct (update_status_to_downloaded d k p c dc r t) as [d1 n] end.
    destruct (n =? 0); [done|]. intros [= <-]. by apply record_revision_ok.
  - apply import_adopt_ok; done.
  - unfold mark_failed. destruct (assets d !! _) eqn:E; [|done]. intros [= <-]. apply insert_row_ok; [done|].
    apply set_status_ok; [|done]. by apply (ok_rows d Hd) in E.
  - intros [= <-]. by apply prepare_for_retry_ok.
  - intros [= <-]. apply update_rows_ok; [done|]. intros ?????. by apply set_status_ok.
  - intros [= <-]. by apply delete_assets_ok.
  - intros [= <-]. by apply prune_versions_ok.
  - intros [= <-]. pose proof (touch_rows_ok (assets d) now library ids (ok_rows d Hd)) as [H1 H2].
    apply set_assets_ok; [done..|]. unfold touch_last_seen_many. by rewrite H2.
  - unfold set_asset_verification. destruct (foreign_keys && _) eqn:E; [done|]. intros [= <-].
    destruct Hd as [Hr Hv]. split; cbn; [done|]. intros Hf. rewrite Hf in E. cbn in E. specialize (Hv Hf).
    rewrite dom_insert. apply bool_decide_eq_false in E. apply not_eq_None_Some, elem_of_dom in E. set_solver.
  - intros [= <-]. by apply delete_verification_ok.
  - unfold mark_policy_excluded. destruct (assets d !! _) as [row|] eqn:E; [|by intros [= <-]].
    destruct (status_is Pending row && negb (is_deleted row)); [|by intros [= <-]]. intros [= <-].
    match goal with |- db_ok (?f ?d1 (delete ?k ?v)) => apply (delete_verification_ok d1) end.
    apply insert_row_ok; [done|]. apply set_status_ok; [|done]. by apply (ok_rows d Hd) in E.
  - by_pair_op delete_at_source_ok.
  - by_pair_op delete_at_source_ok.
  - by_pair_op delete_at_source_ok.
  - by_pair_op delete_at_source_ok.
  - intros [= <-]. apply update_rows_ok; [done|]. intros ????. by apply row_ok_ext.
  - unfold claim_legacy_master_state_owner. destruct (legacy_master_state_owners d !! _); intros [= <-]; [done|].
    by apply (db_ok_ext d).
  - intros [= <-]. apply update_rows_ok; [done|]. intros ????. by apply row_ok_ext.
  - intros [= <-]. by apply refresh_ok.
  - by_pair_op repair_prepared_ok.
  - by_pair_op finish_rewrite_ok.
  - intros [= <-]. unfold begin_enum_progress. destruct (metadata d !! _); [done|]. by apply (db_ok_ext d).
  - intros [= <-]. unfold complete_metadata_capture_revision. cbn. destruct (_ =? 0); [|done]. by apply (db_ok_ext d).
Qed.

Lemma run_ok os d : db_ok d → Forall op_ok os → db_ok (run os d).
Proof.
  revert d. induction os as [|o os IH]; intros d Hd Hos; [done|]. inversion Hos; subst. cbn.
  apply IH; [|done]. destruct (exec o d) as [d'|] eqn:E; [|done]. by apply (exec_ok o d).
Qed.

Lemma Db_empty_ok : db_ok Db_empty.
Proof. split; cbn; [apply map_Forall_empty|]. intros _. set_solver. Qed.
End Ops.

(** ** A concrete store *)

Module Samples.
Definition Env : StateEnv.
refine {| sha256_hex := λ bytes, 104 :: bytes; format_f64 := show_i64; foreign_keys := true;
          timestamp_ok := λ t, (-8334601228800 <=? t) && (t <=? 8210266876799) |}.
done.
Defined.
#[export] Existing Instance Env.

Definition meta (hash : string) : AssetMetadata := set_metadata_hash AssetMetadata_default (Some (lit hash)).
Definition record (id checksum hash : string) : AssetRecord :=
  with_metadata_arc (new_pending 1700000000000000000 (lit "PrimarySync") (lit id) VOriginal (lit checksum) (lit "IMG_1.HEIC")
    1600000000500000000 (Some 1600000001000000000) 4096 Photo) (meta hash).
Definition key (id : string) : key3 := (lit "PrimarySync", lit id, VersionSizeKey_as_str VOriginal).

(** Seen and downloaded with a capture repair requested. *)
Definition downloaded : list Op :=
  [OUpsertSeen 1700000000000000000 (record "A" "c1" "m1"); OUpsertSeen 1700000000000000000 (record "B" "c2" "m2");
   OMarkDownloaded 1700000001000000000 (key "A") (lit "/photos/IMG_1.HEIC") (lit "sha-a") (Some (lit "sha-a")) true;
   OMarkFailed (key "B") (lit "timeout")].

(** The entry of the repair queue for [A], and its prepared replacement. *)
Definition pending_of (d : Db) : option PendingMetadataRewrite :=
  match get_pending_metadata_rewrites_page_for_queue CaptureRepairQueue None 0 10 d with
  | Ok (p :: _) => Some p
  | _ => None
  end.
Definition prepared_ops : list Op :=
  downloaded ++ match pending_of (run downloaded Db_empty) with
                | Some p => [ORepairPrepared p (lit "sha-b") 4100]
                | None => []
                end.

(** What a later cycle does to it: sightings, a refresh with other metadata, a
    deletion at the source, a retry. *)
Definition later : list Op :=
  [OUpsertSeen 1700000100000000000 (record "A" "c1" "m1"); OUpsertSeen 1700000100000000000 (record "A" "c1" "other");
   ORefresh 1700000100000000000 (lit "PrimarySync") (lit "A") (meta "other") true false 1;
   OSoftDeleted (lit "PrimarySync") (lit "A") None; OPrepareForRetry None Clear; OPromotePending 0;
   OPruneStale (lit "PrimarySync") 1800000000].
End Samples.
