(* ===== verification/StateLaws.v ===== *)
(** * What the state store promises

    Laws of the operations of [StateDb.v], over single operations and over
    any sequence of them: finished downloads stay known, prepared repairs
    survive, retries, promotions and deletions change exactly their rows, and
    capture revisions only grow. *)
From S2P Require Import Prelude RustStr Types StateTypes StateDb StateDbSpec.
Import Sql.

Section Laws.
Context `{StateEnv}.
#[local] Arguments holds : simpl never.
#[local] Arguments is_ : simpl never.
#[local] Arguments status_is : simpl never.
#[local] Arguments is_deleted : simpl never.

(** ** One row under one operation *)

(** The operations that may end what a finished download of [k] with provider
    checksum [checksum] says: a new download or adoption of the key, a
    recorded failure, a sighting with other content. *)
Definition forgets (k : key3) (checksum : str) (o : Op) : bool :=
  match o with
  | OUpsertSeen _ r => bool_decide (record_key r = k) && bool_decide (ar_checksum r <> checksum)
  | OImportAdopt _ r _ _ _ _ => bool_decide (record_key r = k)
  | OMarkDownloaded _ k' _ _ _ _ | OMarkFailed k' _ => bool_decide (k' = k)
  | _ => false
  end.

(** The operations that may consume or replace its prepared repair. *)
Definition finishes (k : key3) (o : Op) : bool :=
  match o with
  | ORepairPrepared p _ _ | OFinishRewrite p _ _ _ _ => bool_decide (asset_key p = k)
  | _ => false
  end.

Record same_download (row row' : AssetRow) : Prop := {
  sd_status : r_status row' = r_status row;
  sd_path : r_local_path row' = r_local_path row;
  sd_checksum : p_checksum (r_prov row') = p_checksum (r_prov row);
}.
Record same_repair (row row' : AssetRow) : Prop := {
  sr_local : r_local_checksum row' = r_local_checksum row;
  sr_receipt : is_prepared (r_receipt row) = true → r_receipt row' = r_receipt row;
}.

#[local] Instance same_download_refl : Reflexive same_download.
Proof. done. Qed.
#[local] Instance same_download_trans : Transitive same_download.
Proof. intros x y z [] []. split; congruence. Qed.
#[local] Instance same_repair_refl : Reflexive same_repair.
Proof. done. Qed.

(** The row of [k] after the operation. *)
Definition row_kept (d' : Db) (k : key3) (row : AssetRow) (and_repair : bool) : Prop :=
  ∃ row', assets d' !! k = Some row' ∧ same_download row row' ∧ (and_repair = true → same_repair row row').

Lemma row_kept_same d' k row b : assets d' !! k = Some row → row_kept d' k row b.
Proof. intros E. exists row. done. Qed.

Lemma row_kept_assets d1 d2 k row b : assets d1 = assets d2 → row_kept d1 k row b → row_kept d2 k row b.
Proof. unfold row_kept. by intros ->. Qed.

Lemma row_kept_insert d k k' row row' b : assets d !! k = Some row → k' <> k →
  row_kept (set_assets d (<[k' := row']> (assets d))) k row b.
Proof. intros E Hk. apply row_kept_same. cbn. by rewrite lookup_insert_ne. Qed.

Lemma row_kept_update d p f k row b : assets d !! k = Some row →
  (p k row = true → same_download row (f row) ∧ (b = true → same_repair row (f row))) →
  row_kept (set_assets d (update p f (assets d))) k row b.
Proof.
  intros E Hf. unfold row_kept. cbn. rewrite lookup_update, E. cbn. eexists. split; [done|].
  destruct (p k row); [by apply Hf|done].
Qed.

Lemma row_kept_delete d p k row b : assets d !! k = Some row → p k row = false → row_kept (delete_assets p d) k row b.
Proof.
  intros E Hp. apply row_kept_same. unfold delete_assets. destruct foreign_keys; cbn;
    rewrite lookup_delete_where, E; cbn; by rewrite Hp.
Qed.

Lemma conflict_row_kept row r t : receipt_ok (r_receipt row) → r_status row = Downloaded →
  p_checksum (r_prov row) = ar_checksum r → conflict_refused row r = false →
  same_download row (conflict_row row r t) ∧ same_repair row (conflict_row row r t).
Proof.
  intros Hr Hs Hc Hf. split.
  - split; cbn; [|done..]. rewrite bool_decide_false by (intros []; done). unfold status_is. by rewrite Hs.
  - split; cbn; [done|]. intros Hp. rewrite bool_decide_false by (intros []; done).
    apply upsert_receipt_same; [done..|].
    unfold conflict_refused in Hf. rewrite !holds_and3 in Hf. fold (is_prepared (r_receipt row)) in Hf.
    rewrite (proj2 (holds_eq3 _ _)) in Hf by (exists (ar_checksum r); by rewrite Hc). rewrite Hp, holds_not_is in Hf. cbn in Hf.
    by apply negb_false_iff, bool_decide_eq_true in Hf.
Qed.

Lemma upsert_row_kept d r t d' k row : db_ok d → upsert_asset_row d r t = Ok d' → assets d !! k = Some row →
  r_status row = Downloaded →
  bool_decide (record_key r = k) && bool_decide (ar_checksum r <> p_checksum (r_prov row)) = false →
  row_kept d' k row true.
Proof.
  intros Hd. unfold upsert_asset_row. destruct (exists_row _ _); [done|].
  destruct (decide (record_key r = k)) as [<-|Hk].
  - intros Hu E Hs Hc. rewrite E in Hu. destruct (conflict_refused row r) eqn:Hf; [done|].
    injection Hu as [= <-]. rewrite bool_decide_true in Hc by done. cbn in Hc. apply bool_decide_eq_false, dec_stable in Hc.
    exists (conflict_row row r t). cbn. rewrite lookup_insert_eq. split; [done|].
    destruct (conflict_row_kept row r t) as [H1 H2]; [exact (ok_receipt _ (ok_rows d Hd _ _ E))|done..|]. by split.
  - intros Hu E Hs _. apply row_kept_same. destruct (assets d !! record_key r) as [row0|]; [|injection Hu as <-].
    + destruct (conflict_refused row0 r); [done|]. injection Hu as <-. cbn. by rewrite lookup_insert_ne.
    + cbn. by rewrite lookup_insert_ne.
Qed.

Lemma update_status_other d k k' p c dc repair t : k' <> k →
  assets (update_status_to_downloaded d k' p c dc repair t).1 !! k = assets d !! k.
Proof.
  intros Hk. unfold update_status_to_downloaded. destruct (assets d !! k'); [|done]. cbn. by rewrite lookup_insert_ne.
Qed.

Lemma record_revision_assets d library id rev : assets (record_metadata_capture_revision d library id rev) = assets d.
Proof. unfold record_metadata_capture_revision. by destruct (match capture_revisions d !! _ with Some _ => _ | None => _ end). Qed.

Lemma row_kept_weaken d k row b : row_kept d k row true → row_kept d k row b.
Proof. intros (row' & ? & ? & ?). exists row'. eauto. Qed.

Lemma not_pending row : r_status row = Downloaded → status_is Pending row = false.
Proof. unfold status_is. by intros ->. Qed.

Lemma refreshed_row_kept m mark repair t row :
  same_download row (refreshed_row m mark repair t row) ∧ same_repair row (refreshed_row m mark repair t row).
Proof.
  unfold refreshed_row. destruct mark; (split; [done|]); split; cbn; try done; intros Hp; by apply refresh_receipt_same.
Qed.

Lemma prune_versions_kept library vs d k row : assets d !! k = Some row → r_status row = Downloaded →
  assets (prune_pending_asset_versions library vs d).1 !! k = Some row.
Proof.
  revert d. induction vs as [|[id v] vs IH]; intros d E Hs; [done|]. cbn.
  match goal with |- context [prune_pending_asset_versions library vs ?d1] =>
    specialize (IH d1); destruct (prune_pending_asset_versions library vs d1) end.
  apply IH; [|done]. unfold delete_assets. destruct foreign_keys; cbn; rewrite lookup_delete_where, E; cbn;
    rewrite (not_pending row Hs), andb_false_r; done.
Qed.

Lemma touch_kept now library ids m (k : key3) row : m !! k = Some row → ∃ row',
  foldl (λ m id, update (λ k _, bool_decide (k.1 = (library, id))) (λ row, set_last_seen row (timestamp now)) m) m ids !! k = Some row'
  ∧ same_download row row' ∧ same_repair row row'.
Proof.
  revert m row. induction ids as [|id ids IH]; intros m row E; cbn; [eauto using same_download_refl, same_repair_refl|].
  destruct (IH (update (λ k _, bool_decide (k.1 = (library, id))) (λ row, set_last_seen row (timestamp now)) m)
    (if bool_decide (k.1 = (library, id)) then set_last_seen row (timestamp now) else row)) as (row' & E' & H1 & H2).
  { by rewrite lookup_update, E. }
  exists row'. split; [done|]. destruct (bool_decide _); [|done]. destruct H1, H2. by split.
Qed.

Lemma retry_kept library e d k row b : assets d !! k = Some row → r_status row = Downloaded →
  row_kept (prepare_for_retry library e d).1 k row b.
Proof.
  intros E Hs. apply row_kept_same. unfold prepare_for_retry. cbn. rewrite !lookup_update, E. cbn.
  assert (status_is Failed row = false) as -> by (unfold status_is; by rewrite Hs). cbn. by rewrite not_pending.
Qed.

Lemma delete_at_source_kept op sel at_ clear d d' n k row b : assets d !! k = Some row →
  delete_at_source op sel at_ clear d = Ok (d', n) → row_kept d' k row b.
Proof.
  intros E. unfold delete_at_source. destruct (exists_row _ _); [done|]. intros [= <- <-].
  assert (row_kept (set_assets d (update (λ k _, sel k) (deleted_row (timestamp <$> at_)) (assets d))) k row b) as Hk.
  { apply row_kept_update; done. }
  by destruct clear.
Qed.

Lemma import_adopt_other now r p c sz mtime d d' k row : db_ok d → assets d !! k = Some row → record_key r <> k →
  import_adopt now r p c sz mtime d = Ok d' → assets d' !! k = Some row.
Proof.
  intros Hd E Hk. unfold import_adopt.
  destruct (upsert_asset_row d r (timestamp now)) as [d1|] eqn:Eu; [|done]. cbn.
  assert (assets d1 !! k = Some row) as E1.
  { unfold upsert_asset_row in Eu. destruct (exists_row _ _); [done|].
    destruct (assets d !! record_key r) as [row0|]; [destruct (conflict_refused row0 r); [done|]|];
      injection Eu as <-; cbn; by rewrite lookup_insert_ne. }
  pose proof (update_status_other d1 k (record_key r) p c None false (timestamp now) Hk) as E2.
  destruct (update_status_to_downloaded _ _ _ _ _ _ _) as [d2 n]. cbn in E2. intros [= <-]. cbn.
  rewrite lookup_update, record_revision_assets, E2, E1. cbn. by rewrite bool_decide_false.
Qed.

Lemma repair_prepared_kept p c sz d d' o k row : assets d !! k = Some row →
  record_capture_repair_prepared p c sz d = Ok (d', o) → row_kept d' k row (negb (bool_decide (asset_key p = k))).
Proof.
  intros E. unfold record_capture_repair_prepared. destruct (str_eqb c []); [done|].
  destruct (pr_capture_repair_receipt p) as [r|]; [|done]. destruct (negb (receipt_fits r)); [done|].
  destruct (ar_local_checksum _); [|intros [= <- <-]; by apply row_kept_same]. destruct (negb (fits_i64 sz)); [done|].
  intros [= <- <-]. apply row_kept_update; [done|]. intros Hsel. split; [done|]. intros Hk%negb_true_iff%bool_decide_eq_false.
  zbool. by repeat match goal with Hb : bool_decide (k = _) = true |- _ => apply bool_decide_eq_true in Hb end.
Qed.

Lemma finish_rewrite_kept p q lc pc c d d' b k row : assets d !! k = Some row →
  finish_metadata_rewrite p q lc pc c d = Ok (d', b) → row_kept d' k row (negb (bool_decide (asset_key p = k))).
Proof.
  intros E. unfold finish_metadata_rewrite. destruct (am_metadata_hash _); [|done].
  destruct (negb (finish_checks p q lc pc c)); [done|]. intros [= <- <-].
  apply row_kept_update; [done|]. intros Hsel. split; [done|]. intros Hk%negb_true_iff%bool_decide_eq_false.
  unfold finish_selects in Hsel. zbool.
  by repeat match goal with Hb : bool_decide (k = _) = true |- _ => apply bool_decide_eq_true in Hb end.
Qed.

Ltac by_deletion Hx :=
  match type of Hx with fmap fst ?e = Ok _ => destruct e as [[? ?]|] eqn:?E; [|done] end;
  injection Hx as <-; by eapply delete_at_source_kept.

(** Every operation keeps a finished download it does not forget, and its
    prepared repair unless it finishes it. *)
Lemma exec_row_kept o d d' k row : db_ok d → exec o d = Ok d' → assets d !! k = Some row → r_status row = Downloaded →
  forgets k (p_checksum (r_prov row)) o = false → row_kept d' k row (negb (finishes k o)).
Proof.
  intros Hd Hx E Hs Hf.
  destruct o; cbn [exec] in Hx; cbn [forgets finishes negb] in *;
    repeat match goal with k' : key3 |- _ => lazymatch k' with k => fail | _ => destruct k' as [[? ?] ?] end end;
    try (injection Hx as <-); try (by apply row_kept_same); try (by apply row_kept_update).
  - apply row_kept_weaken. eapply upsert_row_kept; done.
  - unfold mark_downloaded_with_capture_repair in Hx. apply bool_decide_eq_false in Hf.
    match type of Hx with context [update_status_to_downloaded d ?k' ?p ?c ?dc ?r ?t] =>
      pose proof (update_status_other d k k' p c dc r t Hf) as E2;
      destruct (update_status_to_downloaded d k' p c dc r t) as [d1 n] end.
    destruct (n =? 0); [done|]. injection Hx as <-. apply row_kept_same. rewrite record_revision_assets. cbn in E2. by rewrite E2.
  - apply bool_decide_eq_false in Hf. apply row_kept_same. by eapply import_adopt_other.
  - unfold mark_failed in Hx. apply bool_decide_eq_false in Hf. destruct (assets d !! _) eqn:E'; [|done].
    injection Hx as <-. by apply row_kept_insert.
  - by apply retry_kept.
  - apply row_kept_update; [done|]. unfold unresolved. by rewrite not_pending.
  - apply row_kept_delete; [done|]. unfold stale_pending. by rewrite not_pending, andb_false_r.
  - apply row_kept_same. by apply prune_versions_kept.
  - destruct (touch_kept now library ids _ k row E) as (row' & E' & H1 & H2). exists row'. by split.
  - unfold set_asset_verification in Hx. destruct (foreign_keys && _); [done|]. injection Hx as <-. by apply row_kept_same.
  - unfold mark_policy_excluded. match goal with |- context [assets d !! ?k0] => destruct (assets d !! k0) as [row0|] eqn:E0 end;
      [|by apply row_kept_same].
    destruct (status_is Pending row0 && negb (is_deleted row0)) eqn:Ep; [|by apply row_kept_same].
    apply row_kept_same. cbn. rewrite lookup_insert_ne; [done|]. intros Hk. rewrite Hk, E in E0. injection E0 as <-.
    by rewrite not_pending in Ep.
  - by_deletion Hx.
  - by_deletion Hx.
  - by_deletion Hx.
  - by_deletion Hx.
  - unfold claim_legacy_master_state_owner. destruct (legacy_master_state_owners d !! _); by apply row_kept_same.
  - unfold refresh_downloaded_asset_metadata. cbn.
    match goal with |- row_kept (if ?c then record_metadata_capture_revision ?d1 ?l ?i ?r else _) _ _ _ =>
      assert (row_kept d1 k row true) as Hk; [|destruct c; [|done]];
      [|by apply (row_kept_assets d1); [by rewrite record_revision_assets|]] end.
    apply row_kept_update; [done|]. intros _. split; [|intros _]; apply refreshed_row_kept.
  - destruct (record_capture_repair_prepared _ _ _ _) as [[d1 o]|] eqn:E1; [|done]. injection Hx as <-.
    by eapply repair_prepared_kept.
  - destruct (finish_metadata_rewrite _ _ _ _ _ _) as [[d1 o]|] eqn:E1; [|done]. injection Hx as <-.
    by eapply finish_rewrite_kept.
  - unfold begin_enum_progress. destruct (metadata d !! _); by apply row_kept_same.
  - unfold complete_metadata_capture_revision. cbn. destruct (_ =? 0); by apply row_kept_same.
Qed.

(** ** Runs *)

Lemma run_kept os d k row : db_ok d → Forall op_ok os → assets d !! k = Some row → r_status row = Downloaded →
  Forall (λ o, forgets k (p_checksum (r_prov row)) o = false) os →
  ∃ row', assets (run os d) !! k = Some row' ∧ same_download row row'
    ∧ (Forall (λ o, finishes k o = false) os → same_repair row row').
Proof.
  intros Hd Hos E Hs Hf. remember (p_checksum (r_prov row)) as cs eqn:Hcs. revert d row Hd E Hs Hcs.
  induction os as [|o os IH]; intros d row Hd E Hs Hcs; [by exists row|].
  apply Forall_cons in Hos as [Ho Hos], Hf as [Hf Hfs]. cbn.
  assert (∃ row1 d1, match exec o d with Ok d' => d' | Err _ => d end = d1 ∧ db_ok d1 ∧ assets d1 !! k = Some row1
    ∧ same_download row row1 ∧ (finishes k o = false → same_repair row row1)) as (row1 & d1 & -> & Hd1 & E1 & H1 & H2).
  { destruct (exec o d) as [d1|] eqn:Ex; [|by exists row, d].
    subst cs. destruct (exec_row_kept o d d1 k row Hd Ex E Hs Hf) as (row1 & E1 & H1 & H2).
    exists row1, d1. split_and!; [done|by apply (exec_ok o d)|done..|]. intros Hn. apply H2. by rewrite Hn. }
  pose proof (sd_status _ _ H1) as Hs1. pose proof (sd_checksum _ _ H1) as Hc1.
  destruct (IH Hos Hfs d1 row1) as (row2 & E2 & H3 & H4); [done|done|congruence|congruence|].
  exists row2. split_and!; [done|by etrans|]. intros [Hn Hns]%Forall_cons.
  destruct (H2 Hn) as [L1 R1], (H4 Hns) as [L2 R2]. split; [congruence|]. intros Hp.
  rewrite <- (R1 Hp). apply R2. by rewrite (R1 Hp).
Qed.

Lemma reachable_ok os : Forall op_ok os → db_ok (run os Db_empty).
Proof. apply run_ok, Db_empty_ok. Qed.

Lemma mark_downloaded_row now library id v p c dc repair d d' row :
  exec (OMarkDownloaded now (library, id, v) p c dc repair) d = Ok d' → assets d' !! (library, id, v) = Some row →
  r_status row = Downloaded ∧ r_local_path row = Some p.
Proof.
  cbn. unfold mark_downloaded_with_capture_repair, update_status_to_downloaded.
  destruct (assets d !! (library, id, v)); [|done]. cbn. intros [= <-].
  rewrite record_revision_assets. cbn. rewrite lookup_insert_eq. by intros [= <-].
Qed.

(** once a download is recorded, the asset is not downloaded again: after
    any later operations that neither record another download or failure of
    that key nor see it with another checksum, [should_download] with the
    recorded checksum asks only whether the recorded file still exists, and
    with any other checksum it answers yes. *)
Theorem downloaded_stays_skipped before after d1 now library id v p c dc repair row file_exists other :
  Forall op_ok before → Forall op_ok after →
  exec (OMarkDownloaded now (library, id, v) p c dc repair) (run before Db_empty) = Ok d1 →
  assets d1 !! (library, id, v) = Some row → p_checksum (r_prov row) <> [] →
  Forall (λ o, forgets (library, id, v) (p_checksum (r_prov row)) o = false) after →
  should_download file_exists library id v (p_checksum (r_prov row)) other (run after d1) = negb (file_exists p)
  ∧ ∀ checksum, checksum <> p_checksum (r_prov row) →
      should_download file_exists library id v checksum other (run after d1) = true.
Proof.
  intros Hb Ha Hx E Hne Hf. destruct (mark_downloaded_row _ _ _ _ _ _ _ _ _ _ _ Hx E) as [Hs Hp].
  assert (db_ok d1) as Hd1 by (apply (exec_ok _ _ _ (reachable_ok _ Hb)) in Hx; done).
  destruct (run_kept after d1 (library, id, v) row Hd1 Ha E Hs Hf) as (row' & E' & [S1 S2 S3] & _).
  unfold should_download. rewrite !E'. cbn. split.
  - rewrite str_eqb_nil, bool_decide_false by done. unfold str_eqb.
    rewrite bool_decide_true by congruence. cbn. by rewrite S1, Hs, S2, Hp.
  - intros cs Hcs. destruct (str_eqb cs []); [done|]. unfold str_eqb. by rewrite bool_decide_false by congruence.
Qed.

(** C33: A prepared repair (a replacement file ready to be published) of a
    finished download survives until something settles it: no sequence of
    sightings with the recorded checksum, metadata refreshes, deletions,
    retries, prunings or bookkeeping, nor of any operations on other rows,
    changes its receipt or the checksum of the file it replaces.  Excluded are
    what publishes or replaces it (the end of its rewrite, a newly prepared
    repair), a new result or adoption of its download, and a sighting with
    another checksum; that last one does clear the receipt and has the version
    downloaded again. *)
Theorem prepared_repair_survives before after k row :
  Forall op_ok before → Forall op_ok after →
  assets (run before Db_empty) !! k = Some row → r_status row = Downloaded → is_prepared (r_receipt row) = true →
  Forall (λ o, forgets k (p_checksum (r_prov row)) o = false ∧ finishes k o = false) after →
  let d := run after (run before Db_empty) in
  (∃ row', assets d !! k = Some row' ∧ r_status row' = Downloaded
    ∧ r_receipt row' = r_receipt row ∧ r_local_checksum row' = r_local_checksum row)
  ∧ (∀ now r d', record_key r = k → ar_checksum r <> p_checksum (r_prov row) → exec (OUpsertSeen now r) d = Ok d' →
       ∃ row', assets d' !! k = Some row' ∧ r_status row' = Pending ∧ r_receipt row' = no_receipt).
Proof.
  intros Hb Ha E Hs Hp [Hf Hn]%Forall_and d.
  destruct (run_kept after _ k row (reachable_ok _ Hb) Ha E Hs Hf) as (row' & E' & [S1 S2 S3] & Hr).
  destruct (Hr Hn) as [L R]. split; [exists row'; split_and!; [done|congruence|by apply R|done]|].
  intros now r d' <- Hc Hx. cbn in Hx. unfold upsert_seen, upsert_asset_row in Hx. fold d in E'. rewrite E' in Hx.
  destruct (exists_row _ _); [done|]. destruct (conflict_refused _ _); [done|]. injection Hx as <-.
  exists (conflict_row row' r (timestamp now)). cbn [assets set_assets]. rewrite lookup_insert_eq. split; [done|]. unfold conflict_row. cbn.
  rewrite bool_decide_true by congruence. by rewrite orb_true_r.
Qed.

(** ** The rewrite queues *)

Lemma collect_results_Forall {E A B} (f : B → result E A) (P : A → Prop) (l : list B) :
  Forall (λ b, ∃ a, f b = Ok a ∧ P a) l → ∃ xs, collect_results (map f l) = Ok xs ∧ length xs = length l ∧ Forall P xs.
Proof.
  induction 1 as [|b l (a & Ha & HPa) _ (xs & Hxs & Hlen & HP)]; cbn; [by exists []|].
  exists (a :: xs). rewrite Ha. cbn. rewrite Hxs. cbn. split_and!; [done|lia|by constructor].
Qed.

Lemma rewrite_queue_member q scope d k row : db_ok d → (k, row) ∈ rewrite_queue q scope d →
  assets d !! k = Some row ∧ in_rewrite_queue q scope k row = true.
Proof.
  intros Hd. unfold rewrite_queue. rewrite order_by_perm, elem_of_map_to_list.
  by intros [? ?]%map_lookup_filter_Some.
Qed.

Lemma in_rewrite_queue_inv q scope k row : in_rewrite_queue q scope k row = true →
  queue_predicate q row = true ∧ r_status row = Downloaded ∧ is_deleted row = false.
Proof.
  unfold in_rewrite_queue, status_is. intros Hq. zbool. split_and!; try done. by eapply bool_decide_eq_true_1.
Qed.

(** C34: reading a page of pending metadata rewrites never fails on a malformed
    receipt in any database the operations can produce; every entry is a live
    finished download with its path, and in the repair queue it has a receipt
    to work from. *)
Theorem rewrite_pages_decode os q scope off limit : Forall op_ok os →
  ∃ l, get_pending_metadata_rewrites_page_for_queue q scope off limit (run os Db_empty) = Ok l
    ∧ (length l <= limit)%nat
    ∧ Forall (λ p, ar_status (pr_asset p) = Downloaded ∧ is_Some (ar_local_path (pr_asset p))
        ∧ am_is_deleted (ar_metadata (pr_asset p)) = false
        ∧ (q = CaptureRepairQueue → is_Some (pr_capture_repair_receipt p))) l.
Proof.
  intros Hd%reachable_ok. unfold get_pending_metadata_rewrites_page_for_queue.
  assert (∃ l, collect_results (map row_to_pending_metadata_rewrite
      (take limit (drop off (rewrite_queue q scope (run os Db_empty))))) = Ok l
    ∧ length l = length (take limit (drop off (rewrite_queue q scope (run os Db_empty))))
    ∧ Forall (λ p, ar_status (pr_asset p) = Downloaded ∧ is_Some (ar_local_path (pr_asset p))
        ∧ am_is_deleted (ar_metadata (pr_asset p)) = false
        ∧ (q = CaptureRepairQueue → is_Some (pr_capture_repair_receipt p))) l) as (l & Hl & Hlen & HP).
  { apply collect_results_Forall, Forall_forall. intros [k row] Hin.
    apply elem_of_take in Hin as (i & Hi & _). rewrite lookup_drop in Hi. apply list_elem_of_lookup_2 in Hi.
    destruct (rewrite_queue_member _ _ _ _ _ Hd Hi) as [E Hq]. pose proof (ok_rows _ Hd _ _ E) as [Hr _ Hp].
    apply receipt_ok_shape in Hr. unfold row_to_pending_metadata_rewrite. cbn [fst snd].
    destruct (decode_receipt (r_receipt row)) as [rc|e] eqn:Er.
    2: { apply receipt_ok_shape in Hr. unfold receipt_ok in Hr. by rewrite Er in Hr. }
    apply in_rewrite_queue_inv in Hq as (Hq & Hst & Hdel).
    eexists. split; [done|]. destruct k as [[library id] v]. cbn. split_and!; [done|by apply Hp|done|].
    intros ->. cbn in Hq. destruct Hr as [|h Hh|h o s Hh Ho Hs]; [done|..]; unfold decode_receipt in Er; cbn in Er.
    - rewrite str_eqb_nil, bool_decide_false in Er by done. by injection Er as <-.
    - rewrite !str_eqb_nil, !bool_decide_false in Er by done. cbn in Er.
      rewrite (proj2 (Z.leb_le 0 s)) in Er by done. by injection Er as <-. }
  destruct scope as [[|s scope]|]; [exists []; split_and!; [done|cbn; lia|done]|exists l|exists l];
    (split_and!; [done|rewrite Hlen, length_take; lia|done]).
Qed.

(** ** Retries and promotions *)

(** The rows a retry resets, and what it makes of them. *)
Definition retried (library : option str) (k : key3) (row : AssetRow) : bool :=
  negb (is_deleted row) && in_library library k
  && (status_is Failed row || (status_is Pending row && (0 <? r_download_attempts row))).
Definition reset_row (e : RetryErrorRetention) (row : AssetRow) : AssetRow :=
  set_status row Pending 0 (retained_error e (r_last_error row)).

Lemma status_is_true s row : status_is s row = true ↔ r_status row = s.
Proof. unfold status_is. apply bool_decide_eq_true. Qed.

Lemma status_is_excl s s' row : status_is s row = true → s <> s' → status_is s' row = false.
Proof. unfold status_is. intros ->%bool_decide_eq_true Hs. by apply bool_decide_eq_false. Qed.

Lemma is_deleted_set_status row st n err : is_deleted (set_status row st n err) = is_deleted row.
Proof. done. Qed.

Lemma status_decide (s s' : AssetStatus) : bool_decide (s = s') =
  match s, s' with
  | Pending, Pending | PolicyExcluded, PolicyExcluded | Downloaded, Downloaded | Failed, Failed => true
  | _, _ => false
  end.
Proof. by destruct s, s'. Qed.

(** Boolean conditions on a row, by the cases of its columns. *)
Ltac by_row_cases row library k :=
  unfold status_is; destruct (r_status row) eqn:?Es; destruct (is_deleted row) eqn:?Ed;
  destruct (in_library library k); destruct (0 <? r_download_attempts row) eqn:?En;
  repeat (rewrite ?status_decide, ?Es, ?is_deleted_set_status, ?Ed, ?En; cbn); reflexivity.

(** The two [UPDATE]s of a retry are one. *)
Lemma prepare_for_retry_rows library e d :
  assets (prepare_for_retry library e d).1 = update (retried library) (reset_row e) (assets d).
Proof.
  apply map_eq. intros k. unfold prepare_for_retry. cbn. rewrite !lookup_update.
  destruct (assets d !! k) as [row|]; [|done]. cbn [fmap option_fmap option_map]. f_equal.
  unfold retried. by_row_cases row library k.
Qed.

Lemma count_ext {K A} `{Countable K} (p q : K → A → bool) (m : gmap K A) :
  (∀ k r, m !! k = Some r → p k r = q k r) → count p m = count q m.
Proof.
  intros E. unfold count. do 2 f_equal. apply map_filter_ext. intros k r Hk. cbn. by rewrite E.
Qed.

Lemma count_update {K A} `{Countable K} (p q : K → A → bool) f (m : gmap K A) :
  count p (update q f m) = count (λ k r, p k (if q k r then f r else r)) m.
Proof.
  unfold count. f_equal. rewrite <- !size_dom. f_equal. apply set_eq. intros k.
  rewrite !elem_of_dom. unfold is_Some. setoid_rewrite map_lookup_filter_Some. setoid_rewrite lookup_update.
  destruct (m !! k) as [r|]; cbn; split; intros (r' & [= <-] & Hp); eauto.
Qed.

Definition in_scope (library : option str) (k : key3) (row : AssetRow) : bool :=
  negb (is_deleted row) && in_library library k.

Lemma prepare_for_retry_counts library e d :
  prepare_for_retry library e d =
    (set_assets d (update (retried library) (reset_row e) (assets d)),
     (count (λ k row, in_scope library k row && status_is Failed row) (assets d),
      count (λ k row, in_scope library k row && status_is Pending row && (0 <? r_download_attempts row)) (assets d),
      count (λ k row, in_scope library k row && (status_is Failed row || status_is Pending row)) (assets d))).
Proof.
  pose proof (prepare_for_retry_rows library e d) as Hr. unfold prepare_for_retry in *. cbn in Hr. rewrite Hr.
  f_equal. f_equal; [f_equal|].
  - apply count_ext. intros k row _. unfold in_scope. by_row_cases row library k.
  - rewrite count_update. apply count_ext. intros k row _. unfold in_scope. by_row_cases row library k.
  - rewrite count_update. apply count_ext. intros k row _. unfold in_scope, retried, reset_row. by_row_cases row library k.
Qed.

(** preparing a retry resets exactly the live failed and the live tried
    pending rows of the scope, and nothing else in the database: they become
    pending with no attempts, an error is kept only when it is the preserved
    reason; the counts are the failed rows, the tried pending rows, and all
    live rows of the scope then pending; doing it again changes nothing. *)
Theorem prepare_for_retry_exact library e d :
  let '(d', (failed, pending, total)) := prepare_for_retry library e d in
  d' = set_assets d (update (retried library) (reset_row e) (assets d))
  ∧ failed = count (λ k row, in_scope library k row && status_is Failed row) (assets d)
  ∧ pending = count (λ k row, in_scope library k row && status_is Pending row && (0 <? r_download_attempts row)) (assets d)
  ∧ total = count (λ k row, in_scope library k row && status_is Pending row) (assets d')
  ∧ prepare_for_retry library e d' = (d', (0, 0, total)).
Proof.
  rewrite prepare_for_retry_counts. split_and!; [done..| |].
  - cbn. rewrite count_update. apply count_ext. intros k row _. unfold in_scope, retried, reset_row. by_row_cases row library k.
  - rewrite prepare_for_retry_counts. cbn. rewrite !count_update.
    f_equal; [unfold set_assets; cbn; f_equal|f_equal; [f_equal|]].
    + apply map_eq. intros k. rewrite !lookup_update. destruct (assets d !! k) as [row|]; [|done]. cbn [fmap option_fmap option_map].
      f_equal. unfold retried, reset_row. by_row_cases row library k.
    + apply count_zero. intros k row _. unfold in_scope, retried, reset_row. by_row_cases row library k.
    + apply count_zero. intros k row _. unfold in_scope, retried, reset_row. by_row_cases row library k.
    + apply count_ext. intros k row _. unfold in_scope, retried, reset_row. by_row_cases row library k.
Qed.

(** What [update_rows] says of a single row. *)
Lemma update_lookup_iff {K A} `{Countable K} (p : K → A → bool) f (m : gmap K A) k r :
  update p f m !! k = Some r ↔ ∃ r0, m !! k = Some r0 ∧ r = if p k r0 then f r0 else r0.
Proof. rewrite lookup_update, fmap_Some. naive_solver. Qed.

(** Which rows a sync leaves unresolved: pending, seen since its start, and
    without a recorded verification. *)
Definition awaits (d : Db) (since : Z) (k : key3) (row : AssetRow) : bool :=
  bool_decide (r_status row = Pending) && (since <=? r_last_seen_at row) && bool_decide (asset_verifications d !! k = None).

Lemma unresolved_awaits d since k row : unresolved d since k row = awaits d since k row.
Proof. unfold unresolved, awaits, status_is. f_equal. by destruct (asset_verifications d !! k). Qed.

Lemma promote_rows since d :
  let '(d', n) := promote_pending_to_failed since d in
  n = count (unresolved d since) (assets d)
  ∧ (∀ k row', assets d' !! k = Some row' ↔ ∃ row, assets d !! k = Some row
       ∧ row' = if unresolved d since k row then set_status row Failed (r_download_attempts row) (Some NOT_RESOLVED) else row)
  ∧ promote_pending_to_failed since d' = (d', 0)
  ∧ ∀ k row, assets d !! k = Some row → unresolved d since k row = true → is_deleted row = false →
      assets (prepare_for_retry None (Preserve NOT_RESOLVED) d').1 !! k = Some (set_status row Pending 0 (Some NOT_RESOLVED)).
Proof.
  unfold promote_pending_to_failed. cbn [assets set_assets]. split_and!; [done| | |].
  - intros k row'. by rewrite update_lookup_iff.
  - assert (∀ k row, unresolved d since k (set_status row Failed (r_download_attempts row) (Some NOT_RESOLVED)) = false) as Hn by done.
    f_equal.
    + unfold set_assets. cbn. f_equal. apply map_eq. intros k. rewrite !lookup_update.
      destruct (assets d !! k) as [row|]; [|done]. cbn [fmap option_fmap option_map]. f_equal.
      change (unresolved _ since) with (unresolved d since).
      destruct (unresolved d since k row) eqn:E; rewrite ?Hn, ?E; done.
    + rewrite count_update. apply count_zero. intros k row _. change (unresolved _ since) with (unresolved d since).
      destruct (unresolved d since k row) eqn:E; rewrite ?Hn, ?E; done.
  - intros k row E Hu Hdel. rewrite prepare_for_retry_rows. cbn [assets set_assets].
    rewrite !lookup_update, E. cbn [fmap option_fmap option_map]. rewrite Hu. unfold retried.
    rewrite is_deleted_set_status, Hdel. cbn. done.
Qed.

(** at the end of a sync exactly the pending rows seen since its start
    that no verification explains become failed, with the fixed reason; the
    count is their number, a second promotion finds none, and preparing a
    retry that preserves the reason brings each live one back as pending with
    no attempts and its reason still recorded. *)
Theorem promote_pending_exact since d :
  let '(d', n) := promote_pending_to_failed since d in
  n = count (awaits d since) (assets d)
  ∧ (∀ k row', assets d' !! k = Some row' ↔ ∃ row, assets d !! k = Some row
       ∧ row' = if awaits d since k row then set_status row Failed (r_download_attempts row) (Some NOT_RESOLVED) else row)
  ∧ promote_pending_to_failed since d' = (d', 0)
  ∧ ∀ k row, assets d !! k = Some row → awaits d since k row = true → is_deleted row = false →
      assets (prepare_for_retry None (Preserve NOT_RESOLVED) d').1 !! k = Some (set_status row Pending 0 (Some NOT_RESOLVED)).
Proof.
  pose proof (promote_rows since d) as Hp. destruct (promote_pending_to_failed since d) as [d' n].
  destruct Hp as (-> & Hr & Ha & Hb). split_and!; [|..|exact Ha|].
  - apply count_ext. intros k row _. apply unresolved_awaits.
  - intros k row'. setoid_rewrite <- unresolved_awaits. apply Hr.
  - intros k row E Hu. apply Hb; [done|]. by rewrite unresolved_awaits.
Qed.

(** ** Sightings *)

Definition truncated (t : Z) : Z := timestamp t * NANOS.

(** The values a sighting carries that SQLite's columns hold exactly. *)
Definition seen_fits (r : AssetRecord) : Prop :=
  let m := ar_metadata r in
  0 <= ar_size_bytes r <= I64_MAX ∧ timestamp_ok (timestamp (ar_created_at r)) = true
  ∧ (∀ t, ar_added_at r = Some t → timestamp_ok (timestamp t) = true)
  ∧ (∀ v, am_rating m = Some v → 0 <= v <= 255) ∧ (∀ v, am_orientation m = Some v → 0 <= v <= 255)
  ∧ (∀ v, am_timezone_offset m = Some v → -2147483648 <= v <= 2147483647)
  ∧ (∀ v, am_width m = Some v → 0 <= v <= U32_MAX) ∧ (∀ v, am_height m = Some v → 0 <= v <= U32_MAX)
  ∧ (∀ t, am_modified_at m = Some t → timestamp_ok (timestamp t) = true)
  ∧ (∀ t, am_deleted_at m = Some t → timestamp_ok (timestamp t) = true).

(** A metadata as the store gives it back. *)
Definition seen_meta (m : AssetMetadata) : AssetMetadata :=
  {| am_source := Some (default DEFAULT_SOURCE (am_source m)); am_is_favorite := am_is_favorite m; am_rating := am_rating m;
     am_latitude := am_latitude m; am_longitude := am_longitude m; am_altitude := am_altitude m;
     am_orientation := am_orientation m; am_duration_secs := am_duration_secs m;
     am_timezone_offset := am_timezone_offset m; am_width := am_width m; am_height := am_height m;
     am_title := am_title m; am_keywords := am_keywords m; am_description := am_description m;
     am_media_subtype := am_media_subtype m; am_burst_id := am_burst_id m; am_is_hidden := am_is_hidden m;
     am_is_archived := am_is_archived m; am_modified_at := truncated <$> am_modified_at m;
     am_is_deleted := am_is_deleted m; am_deleted_at := truncated <$> am_deleted_at m;
     am_provider_data := am_provider_data m; am_metadata_hash := Some (effective_hash m) |}.

Lemma fit_fits lo hi (o : option Z) : (∀ v, o = Some v → lo <= v <= hi) → (o ≫= fit lo hi) = o.
Proof.
  destruct o as [v|]; [|done]. intros Hv. specialize (Hv v eq_refl). cbn. unfold fit.
  by rewrite !(proj2 (Z.leb_le _ _)) by lia.
Qed.

Lemma optional_ts_fits (o : option Z) : (∀ t, o = Some t → timestamp_ok (timestamp t) = true) →
  optional_ts_to_utc (timestamp <$> o) = truncated <$> o.
Proof. destruct o as [t|]; [|done]. intros Ht. unfold optional_ts_to_utc. cbn. by rewrite (Ht t eq_refl). Qed.

Lemma upsert_row_cols now r d d' : upsert_seen now r d = Ok d' → ∃ row, assets d' !! record_key r = Some row
  ∧ r_prov row = record_cols r ∧ r_last_seen_at row = timestamp now
  ∧ ((assets d !! record_key r = None ∧ r_status row = Pending ∧ r_local_path row = None)
     ∨ ∃ row0, assets d !! record_key r = Some row0 ∧ r_local_path row = r_local_path row0
         ∧ r_download_attempts row = r_download_attempts row0
         ∧ r_status row = if bool_decide (p_checksum (r_prov row0) = ar_checksum r) && negb (status_is PolicyExcluded row0)
                          then r_status row0 else Pending).
Proof.
  unfold upsert_seen, upsert_asset_row. destruct (exists_row _ _); [done|].
  destruct (assets d !! record_key r) as [row|]; [destruct (conflict_refused row r); [done|]|]; intros [= <-]; cbn;
    rewrite lookup_insert_eq; (eexists; split; [done|]); (split_and!; [done..|]).
  - right. exists row. cbn. split_and!; [done..|]. destruct (decide (p_checksum (r_prov row) = ar_checksum r)) as [E|E].
    + rewrite (bool_decide_false (_ <> _)), (bool_decide_true (_ = _)) by (done || intros []; done). cbn.
      by rewrite orb_false_r; destruct (status_is PolicyExcluded row).
    + rewrite (bool_decide_true (_ <> _)), (bool_decide_false (_ = _)) by done. cbn. by rewrite orb_true_r.
  - by left.
Qed.

(** what a sighting stores reads back: key, checksum, name, size, kind and
    metadata as given, instants cut to whole seconds, the hash computed when
    the caller has none; a known row keeps its path and attempts, and returns
    to pending exactly when its content changed or policy had excluded it. *)
Theorem seen_reads_back now r d d' : upsert_seen now r d = Ok d' → seen_fits r →
  ∃ row, assets d' !! record_key r = Some row
    ∧ let r' := row_to_asset_record (record_key r) row in
      ar_library r' = ar_library r ∧ ar_id r' = ar_id r ∧ ar_version_size r' = ar_version_size r
      ∧ ar_checksum r' = ar_checksum r ∧ ar_filename r' = ar_filename r ∧ ar_size_bytes r' = ar_size_bytes r
      ∧ ar_media_type r' = ar_media_type r ∧ ar_created_at r' = truncated (ar_created_at r)
      ∧ ar_added_at r' = truncated <$> ar_added_at r ∧ ar_metadata r' = seen_meta (ar_metadata r)
      ∧ ar_status r' = match assets d !! record_key r with
          | Some row0 => if bool_decide (p_checksum (r_prov row0) = ar_checksum r) && negb (status_is PolicyExcluded row0)
                         then r_status row0 else Pending
          | None => Pending
          end.
Proof.
  intros (row & E & Hp & Hl & Hs)%upsert_row_cols (F1 & F2 & F3 & F4 & F5 & F6 & F7 & F8 & F9 & F10).
  exists row. split; [done|]. unfold row_to_asset_record, record_key. cbn. rewrite Hp. unfold record_cols. cbn. split_and!; try done.
  - by rewrite VersionSizeKey_roundtrip.
  - unfold to_i64. rewrite Z.min_l by lia. by rewrite (proj2 (Z.ltb_ge _ _)) by lia.
  - unfold ts_to_utc. by rewrite F2.
  - by apply optional_ts_fits.
  - unfold read_meta, seen_meta. f_equal; first [by apply fit_fits|by apply optional_ts_fits|done].
  - unfold record_key in Hs. destruct Hs as [(E0 & Hs & _)|(row0 & E0 & _ & _ & Hs)]; by rewrite E0.
Qed.
End Laws.

(** ** The laws on a concrete store *)

Module LawRuns.
Import StateDbSpec.Samples.

Definition before : list Op := take 2 downloaded.
Definition mark : Op :=
  OMarkDownloaded 1700000001000000000 (key "A") (lit "/photos/IMG_1.HEIC") (lit "sha-a") (Some (lit "sha-a")) true.
Definition marked : Db := match exec mark (run before Db_empty) with Ok d => d | Err _ => Db_empty end.
Definition row_of (d : Db) (k : key3) : AssetRow := default (inserted_row (record "A" "" "") 0) (assets d !! k).
Definition seen : Db :=
  match upsert_seen 1700000100000000000 (record "A" "c2" "m2") marked with Ok d => d | Err _ => Db_empty end.
Definition on_disk (p : path) : bool := str_eqb p (lit "/photos/IMG_1.HEIC").

Lemma samples_ok : Forall op_ok before ∧ Forall op_ok later ∧ Forall op_ok prepared_ops.
Proof. split_and!; repeat constructor; vm_compute; done. Qed.

Lemma downloaded_stays_skipped_witness :
  should_download on_disk (lit "PrimarySync") (lit "A") (VersionSizeKey_as_str VOriginal) (p_checksum (r_prov (row_of marked (key "A"))))
    (lit "/photos/other") (run later marked) = negb (on_disk (lit "/photos/IMG_1.HEIC")).
Proof.
  refine (proj1 (downloaded_stays_skipped before later marked 1700000001000000000 (lit "PrimarySync") (lit "A")
    (VersionSizeKey_as_str VOriginal) (lit "/photos/IMG_1.HEIC") (lit "sha-a") (Some (lit "sha-a")) true
    (row_of marked (key "A")) on_disk (lit "/photos/other") _ _ _ _ _ _)).
  - exact (proj1 samples_ok).
  - exact (proj1 (proj2 samples_ok)).
  - vm_compute. reflexivity.
  - vm_compute. reflexivity.
  - vm_compute. discriminate.
  - repeat (apply Forall_cons; split; [vm_compute; reflexivity|]). constructor.
Defined.

Lemma prepared_repair_survives_witness :
  ∃ row', assets (run later (run prepared_ops Db_empty)) !! key "A" = Some row' ∧ r_status row' = Downloaded
    ∧ r_receipt row' = r_receipt (row_of (run prepared_ops Db_empty) (key "A"))
    ∧ r_local_checksum row' = r_local_checksum (row_of (run prepared_ops Db_empty) (key "A")).
Proof.
  refine (proj1 (prepared_repair_survives prepared_ops later (key "A") (row_of (run prepared_ops Db_empty) (key "A")) _ _ _ _ _ _)).
  - exact (proj2 (proj2 samples_ok)).
  - exact (proj1 (proj2 samples_ok)).
  - vm_compute. reflexivity.
  - vm_compute. reflexivity.
  - vm_compute. reflexivity.
  - repeat (apply Forall_cons; split; [vm_compute; split; reflexivity|]). constructor.
Defined.

Lemma rewrite_pages_decode_witness :
  ∃ l, get_pending_metadata_rewrites_page_for_queue CaptureRepairQueue None 0 10 (run prepared_ops Db_empty) = Ok l
    ∧ (length l <= 10)%nat
    ∧ Forall (λ p, ar_status (pr_asset p) = Downloaded ∧ is_Some (ar_local_path (pr_asset p))
        ∧ am_is_deleted (ar_metadata (pr_asset p)) = false
        ∧ (CaptureRepairQueue = CaptureRepairQueue → is_Some (pr_capture_repair_receipt p))) l.
Proof. apply (rewrite_pages_decode prepared_ops CaptureRepairQueue None 0 10). exact (proj2 (proj2 samples_ok)). Defined.

Lemma seen_reads_back_witness :
  ∃ row, assets seen !! record_key (record "A" "c2" "m2") = Some row
    ∧ let r' := row_to_asset_record (record_key (record "A" "c2" "m2")) row in
      ar_checksum r' = lit "c2" ∧ ar_created_at r' = 1600000000000000000 ∧ ar_status r' = Pending.
Proof.
  destruct (seen_reads_back 1700000100000000000 (record "A" "c2" "m2") marked seen) as (row & E & Hr).
  - vm_compute. reflexivity.
  - unfold seen_fits. split_and!; [vm_compute; done|vm_compute; done|vm_compute; done|..];
      intros v Hv; vm_compute in Hv; try discriminate Hv.
    injection Hv as <-. vm_compute. reflexivity.
  - exists row. split; [exact E|]. destruct Hr as (_ & _ & _ & H1 & _ & _ & _ & H2 & _ & _ & H3).
    split; [rewrite H1; reflexivity|]. split; [rewrite H2; reflexivity|]. rewrite H3. vm_compute. reflexivity.
Defined.
End LawRuns.
