(* ===== verification/StateMeta.v ===== *)
(** * Provider state, checkpoints and capture revisions

    Laws of the parts of [StateDb.v] that follow the provider: assets deleted
    at the source leave every work list, a checkpoint is written as one unit,
    prefixes of the metadata table, and how far a library's metadata has been
    captured. *)
From S2P Require Import Prelude RustStr Types StateTypes StateDb StateDbSpec StateLaws.
Import Sql.

Section Meta.
Context `{StateEnv}.
#[local] Arguments holds : simpl never.
#[local] Arguments is_ : simpl never.
#[local] Arguments status_is : simpl never.

(** ** Assets deleted at the source *)

(** deleting an asset (or a master with its children) at the source is
    refused exactly when one of its rows has a prepared repair; otherwise every
    row of it is marked deleted, keeping a known deletion time, nothing else
    changes, the count is the rows, and no row of it is in a rewrite queue or
    reset by a retry any more. *)
Theorem source_deletion_exact op sel at_ clear d :
  (is_ok (delete_at_source op sel at_ clear d) = false ↔
     ∃ k row, assets d !! k = Some row ∧ sel k = true ∧ is_prepared (r_receipt row) = true)
  ∧ ∀ d' n, delete_at_source op sel at_ clear d = Ok (d', n) →
      n = count (λ k _, sel k) (assets d)
      ∧ (∀ k, sel k = false → assets d' !! k = assets d !! k ∧ asset_verifications d' !! k = asset_verifications d !! k)
      ∧ (∀ k row, assets d !! k = Some row → sel k = true → assets d' !! k = Some (deleted_row (timestamp <$> at_) row))
      ∧ ∀ k row', assets d' !! k = Some row' → sel k = true →
          is_deleted row' = true ∧ (clear = true → asset_verifications d' !! k = None)
          ∧ (∀ q scope, in_rewrite_queue q scope k row' = false) ∧ ∀ library, retried library k row' = false.
Proof.
  unfold delete_at_source.
  set (sel' := λ k row, sel k && holds (prepared (r_receipt row))).
  destruct (exists_row sel' (assets d)) eqn:Ee; split.
  - cbn. split; [intros _|done]. apply exists_row_true in Ee as (k & row & E & Hs). unfold sel' in Hs. zbool. eauto.
  - done.
  - split; [done|]. intros (k & row & E & Hs & Hp). pose proof (exists_row_false _ _ _ _ Ee E) as Hf. unfold sel' in Hf.
    fold (is_prepared (r_receipt row)) in Hf. by rewrite Hs, Hp in Hf.
  - intros d' n [= <- <-]. split_and!; [done|..].
    + intros k Hk. destruct clear; cbn; rewrite lookup_update, ?lookup_delete_where, Hk; split;
        [by destruct (assets d !! k)|by destruct (asset_verifications d !! k)|by destruct (assets d !! k)|done].
    + intros k row E Hk. destruct clear; cbn; by rewrite lookup_update, E; cbn; rewrite Hk.
    + intros k row' E Hk. assert (is_deleted row' = true) as Hdel.
      { destruct clear; cbn in E; rewrite lookup_update in E; destruct (assets d !! k) as [row|]; try done; cbn in E;
          rewrite Hk in E; by injection E as <-. }
      split_and!; [done| | |].
      * intros ->. cbn. rewrite lookup_delete_where, Hk. by destruct (asset_verifications d !! k).
      * intros q scope. unfold in_rewrite_queue. by rewrite Hdel, andb_false_r.
      * intros library. unfold retried. by rewrite Hdel.
Qed.

(** ** The metadata table *)

(** The last update of a key. *)
Fixpoint last_update (k : str) (l : list (str * str)) : option str :=
  match l with
  | [] => None
  | (k', v) :: l => match last_update k l with
                    | Some v' => Some v'
                    | None => if str_eqb k' k then Some v else None
                    end
  end.

Lemma lookup_updates (k : str) (l : list (str * str)) (m : gmap str str) :
  foldl (λ m kv, <[kv.1 := kv.2]> m) m l !! k = match last_update k l with Some v => Some v | None => m !! k end.
Proof.
  revert m. induction l as [|[k' v] l IH]; intros m; cbn; [done|]. rewrite IH.
  destruct (last_update k l); [done|]. unfold str_eqb. case_bool_decide; subst.
  - by rewrite lookup_insert_eq.
  - by rewrite lookup_insert_ne.
Qed.

Lemma lookup_deletes (k : str) (l : list str) (m : gmap str str) :
  foldl (λ m k, delete k m) m l !! k = if memb k l then None else m !! k.
Proof.
  revert m. induction l as [|k' l IH]; intros m; cbn; [done|]. rewrite IH. unfold memb.
  destruct (decide (k = k')) as [->|Hk].
  - rewrite (bool_decide_true (k' ∈ k' :: l)) by constructor. rewrite lookup_delete_eq. by case_bool_decide.
  - rewrite lookup_delete_ne by done. by rewrite (bool_decide_ext (k ∈ k' :: l) (k ∈ l)) by (rewrite elem_of_cons; naive_solver).
Qed.

(** a checkpoint is one transition of the metadata table: a key it deletes
    is absent afterwards even when it also updates it, otherwise the last
    update of the key holds, otherwise the key is unchanged; every other table
    is unchanged. *)
Theorem checkpoint_transition_exact t d :
  let d' := commit_checkpoint_transition t d in
  (∀ k, get_metadata k d' =
     if memb k (metadata_deletes t) then None
     else match last_update k (metadata_updates t) with Some v => Some v | None => get_metadata k d end)
  ∧ assets d' = assets d ∧ asset_verifications d' = asset_verifications d ∧ capture_revisions d' = capture_revisions d
  ∧ metadata_capture_state d' = metadata_capture_state d.
Proof.
  split; [|done]. intros k. unfold get_metadata, commit_checkpoint_transition. cbn. by rewrite lookup_deletes, lookup_updates.
Qed.

(** A prefix LIKE reads literally. *)
Definition no_wildcard (p : str) : bool := forallb (λ c, negb (c =? 37) && negb (c =? 95)) p.

Lemma like_any s : like [37] s = true.
Proof. induction s as [|c s IH]; [done|exact IH]. Qed.

Lemma like_prefix p s : like (p ++ [37]) (p ++ s) = true.
Proof.
  induction p as [|c p IH]; [apply like_any|]. cbn. destruct (c =? 37) eqn:Ec.
  - apply orb_true_iff. right. destruct (p ++ s) eqn:E; [by rewrite IH|]. by rewrite IH.
  - by rewrite IH, Z.eqb_refl, orb_true_r.
Qed.

Lemma like_literal p k : no_wildcard p = true →
  like (p ++ [37]) k = true ↔ ∃ p' s, k = p' ++ s ∧ to_ascii_lowercase p' = to_ascii_lowercase p.
Proof.
  revert k. induction p as [|c p IH]; intros k Hp.
  - split; [by exists [], k|]. intros _. apply like_any.
  - cbn in Hp. zbool. cbn. rewrite (proj2 (Z.eqb_neq c 37)), (proj2 (Z.eqb_neq c 95)) by done. cbn.
    destruct k as [|d k]; [split; [done|]; intros (p' & s & Hk & Hl); destruct p'; done|].
    rewrite andb_true_iff, IH, Z.eqb_eq by done. split.
    + intros (Hc & p' & s & -> & Hl). exists (d :: p'), s. split; [done|]. change (ascii_lower d :: to_ascii_lowercase p' = ascii_lower c :: to_ascii_lowercase p). by rewrite Hl, Hc.
    + intros (p' & s & Hk & Hl). destruct p' as [|d' p']; [done|]. cbn in Hk, Hl. injection Hk as <- ->.
      injection Hl as Hc Hl. split; [done|]. by exists p', s.
Qed.

(** deleting by a prefix removes every key that starts with it, and counts
    what it removes; for a prefix without [%] and [_] it removes exactly the
    keys starting with the prefix up to the case of ASCII letters. *)
Theorem delete_prefix_exact p d :
  let '(d', n) := delete_metadata_by_prefix p d in
  n = count (λ k _, like (p ++ lit "%") k) (metadata d)
  ∧ (∀ s, get_metadata (p ++ s) d' = None)
  ∧ (no_wildcard p = true → ∀ k v, get_metadata k d = Some v →
       get_metadata k d' = None ↔ ∃ p' s, k = p' ++ s ∧ to_ascii_lowercase p' = to_ascii_lowercase p)
  ∧ ∀ k v, get_metadata k d' = Some v → get_metadata k d = Some v.
Proof.
  unfold delete_metadata_by_prefix, get_metadata. cbn [metadata set_metadata_table].
  change (lit "%") with ([37] : str). split_and!; [done|..].
  - intros s. rewrite lookup_delete_where, like_prefix. by destruct (metadata d !! (p ++ s)).
  - intros Hp k v E. rewrite lookup_delete_where, E. cbn. rewrite <- like_literal by done.
    by destruct (like (p ++ [37]) k).
  - intros k v. rewrite lookup_delete_where. destruct (metadata d !! k) as [v'|]; [|done]. cbn. by destruct (like _ _).
Qed.

(** The underscores of a prefix are wildcards: deleting [sync_token:] takes a
    key no code writes. *)
Example underscore_is_a_wildcard :
  let d := set_metadata (lit "syncXtoken:zone") (lit "v") Db_empty in
  get_metadata (lit "syncXtoken:zone") d = Some (lit "v")
  ∧ get_metadata (lit "syncXtoken:zone") (delete_metadata_by_prefix (lit "sync_token:") d).1 = None.
Proof. vm_compute. done. Qed.

(** ** Metadata-capture revisions *)

Definition revisions_grow (d d' : Db) : Prop :=
  ∀ x r, capture_revisions d !! x = Some r → ∃ r', capture_revisions d' !! x = Some r' ∧ r <= r'.

Lemma revisions_same d d' : capture_revisions d' = capture_revisions d → revisions_grow d d'.
Proof. intros E x r Hx. exists r. by rewrite E. Qed.

Lemma revisions_trans d1 d2 d3 : revisions_grow d1 d2 → revisions_grow d2 d3 → revisions_grow d1 d3.
Proof. intros H1 H2 x r Hx. destruct (H1 x r Hx) as (r2 & E2 & ?), (H2 x r2 E2) as (r3 & E3 & ?). exists r3. split; [done|lia]. Qed.

Lemma record_revision_grows d library id rev : revisions_grow d (record_metadata_capture_revision d library id rev).
Proof.
  unfold record_metadata_capture_revision. destruct (match capture_revisions d !! (library, id) with Some _ => _ | None => _ end) eqn:Eg;
    [|by apply revisions_same].
  intros x r Hx. cbn. destruct (decide (x = (library, id))) as [->|Hn].
  - rewrite lookup_insert_eq. eexists. split; [done|]. rewrite Hx in Eg. zbool. lia.
  - rewrite lookup_insert_ne by done. eauto with lia.
Qed.

Lemma record_revision_reaches d library id rev :
  ∃ r, capture_revisions (record_metadata_capture_revision d library id rev) !! (library, id) = Some r ∧ rev <= r.
Proof.
  unfold record_metadata_capture_revision. destruct (capture_revisions d !! (library, id)) as [old|] eqn:E.
  - destruct (Z.ltb_spec old rev); cbn; [rewrite lookup_insert_eq|rewrite E]; eauto with lia.
  - cbn. rewrite lookup_insert_eq. eauto with lia.
Qed.

Lemma upsert_revisions d r t d' : upsert_asset_row d r t = Ok d' → capture_revisions d' = capture_revisions d.
Proof.
  unfold upsert_asset_row. destruct (exists_row _ _); [done|].
  destruct (assets d !! record_key r); [destruct (conflict_refused _ _); [done|]|]; by intros [= <-].
Qed.

Lemma update_status_revisions d k p c dc repair t :
  capture_revisions (update_status_to_downloaded d k p c dc repair t).1 = capture_revisions d.
Proof. unfold update_status_to_downloaded. by destruct (assets d !! k). Qed.

Lemma delete_assets_revisions p d : capture_revisions (delete_assets p d) = capture_revisions d.
Proof. unfold delete_assets. by destruct foreign_keys. Qed.

Lemma prune_versions_revisions library vs d :
  capture_revisions (prune_pending_asset_versions library vs d).1 = capture_revisions d.
Proof.
  revert d. induction vs as [|[id v] vs IH]; intros d; [done|]. cbn.
  match goal with |- context [prune_pending_asset_versions library vs ?d1] =>
    specialize (IH d1); destruct (prune_pending_asset_versions library vs d1) end.
  cbn in *. by rewrite IH, delete_assets_revisions.
Qed.

Lemma delete_at_source_revisions op sel at_ clear d d' n :
  delete_at_source op sel at_ clear d = Ok (d', n) → capture_revisions d' = capture_revisions d.
Proof. unfold delete_at_source. destruct (exists_row _ _); [done|]. intros [= <- <-]. by destruct clear. Qed.

(** [r] is an operation whose success leaves the revisions alone. *)
Ltac by_same_revisions Hx :=
  match type of Hx with fmap fst ?e = Ok _ => destruct e as [[? ?]|] eqn:?E; [|done] end;
  injection Hx as <-; by eapply revisions_same, delete_at_source_revisions.

Lemma exec_revisions o d d' : exec o d = Ok d' → revisions_grow d d'.
Proof.
  intros Hx. destruct o; cbn [exec] in Hx; repeat match goal with k' : key3 |- _ => destruct k' as [[? ?] ?] end;
    try (injection Hx as <-); try (by apply revisions_same).
  - by eapply revisions_same, upsert_revisions.
  - unfold mark_downloaded_with_capture_repair in Hx.
    match type of Hx with context [update_status_to_downloaded d ?k' ?p ?c ?dc ?r ?t] =>
      pose proof (update_status_revisions d k' p c dc r t) as E2;
      destruct (update_status_to_downloaded d k' p c dc r t) as [d1 n] end.
    destruct (n =? 0); [done|]. injection Hx as <-.
    eapply revisions_trans; [|apply record_revision_grows]. by apply revisions_same.
  - unfold import_adopt in Hx. destruct (upsert_asset_row d r (timestamp now)) as [d1|] eqn:Eu; [|done]. cbn in Hx.
    match type of Hx with context [update_status_to_downloaded d1 ?k' ?p ?c ?dc ?r ?t] =>
      pose proof (update_status_revisions d1 k' p c dc r t) as E2;
      destruct (update_status_to_downloaded d1 k' p c dc r t) as [d2 n] end.
    injection Hx as <-. apply (revisions_trans d d2).
    + apply revisions_same. rewrite <- (upsert_revisions _ _ _ _ Eu). done.
    + eapply revisions_trans; [apply record_revision_grows|]. by apply revisions_same.
  - unfold mark_failed in Hx. destruct (assets d !! _); [|done]. injection Hx as <-. by apply revisions_same.
  - apply revisions_same. apply delete_assets_revisions.
  - apply revisions_same, prune_versions_revisions.
  - unfold set_asset_verification in Hx. destruct (foreign_keys && _); [done|]. injection Hx as <-. by apply revisions_same.
  - apply revisions_same. unfold mark_policy_excluded. destruct (assets d !! _) as [row|]; [|done].
    by destruct (status_is Pending row && negb (is_deleted row)).
  - by_same_revisions Hx.
  - by_same_revisions Hx.
  - by_same_revisions Hx.
  - by_same_revisions Hx.
  - apply revisions_same. unfold claim_legacy_master_state_owner. by destruct (legacy_master_state_owners d !! _).
  - unfold refresh_downloaded_asset_metadata. cbn.
    match goal with |- revisions_grow d (if ?c then record_metadata_capture_revision ?d1 _ _ _ else _) =>
      apply (revisions_trans d d1); [by apply revisions_same|]; destruct c; [apply record_revision_grows|by apply revisions_same] end.
  - apply revisions_same. unfold record_capture_repair_prepared in Hx. destruct (str_eqb _ _); [done|].
    destruct (pr_capture_repair_receipt p) as [r|]; [|done]. destruct (negb (receipt_fits r)); [done|].
    destruct (ar_local_checksum _); [destruct (negb (fits_i64 _)); [done|]|]; by injection Hx as <-.
  - apply revisions_same. unfold finish_metadata_rewrite in Hx. destruct (am_metadata_hash _); [|done].
    destruct (negb (finish_checks _ _ _ _ _)); [done|]. by injection Hx as <-.
  - apply revisions_same. unfold begin_enum_progress. by destruct (metadata d !! _).
  - apply revisions_same. unfold complete_metadata_capture_revision. cbn. by destruct (_ =? 0).
Qed.

Lemma stale_member d library target id : id ∈ stale_assets d library target ↔ ∃ v row,
  assets d !! (library, id, v) = Some row ∧ r_status row = Downloaded ∧ is_deleted row = false
  ∧ ∀ r, capture_revisions d !! (library, id) = Some r → r < target.
Proof.
  unfold stale_assets. rewrite elem_of_map. setoid_rewrite elem_of_dom. unfold is_Some. setoid_rewrite map_lookup_filter_Some. split.
  - intros ([[l i] v] & -> & row & E & Hs). cbn in Hs.
    rewrite !andb_true_iff in Hs. destruct Hs as [[[Hl Hst] Hd] Hm]. apply bool_decide_eq_true in Hl as ->.
    exists v, row. split_and!; [done|by apply status_is_true|by apply negb_true_iff|]. intros r Hr. cbn in Hm, Hr.
    rewrite Hr in Hm. by zbool.
  - intros (v & row & E & Hs & Hd & Hr). exists (library, id, v). split; [done|]. exists row. split; [done|]. cbn.
    unfold status_is. rewrite !bool_decide_true, Hd by done. cbn.
    destruct (capture_revisions d !! (library, id)) as [r|]; [|done]. apply Z.ltb_lt. by apply Hr.
Qed.

Lemma remaining_zero d library target : metadata_capture_remaining d library target = 0 ↔
  ∀ id v row, assets d !! (library, id, v) = Some row → r_status row = Downloaded → is_deleted row = false →
    ∃ r, capture_revisions d !! (library, id) = Some r ∧ target <= r.
Proof.
  unfold metadata_capture_remaining. split.
  - intros Hz id v row E Hs Hd. assert (id ∉ stale_assets d library target) as Hn.
    { assert (stale_assets d library target ≡ ∅) as ->; [|set_solver]. apply size_empty_iff. lia. }
    rewrite stale_member in Hn. destruct (capture_revisions d !! (library, id)) as [r|] eqn:Er.
    + exists r. split; [done|]. destruct (Z.le_gt_cases target r); [done|]. destruct Hn. exists v, row.
      split_and!; [done..|]. intros r' [= <-]. lia.
    + destruct Hn. by exists v, row.
  - intros Ha. assert (stale_assets d library target ≡ ∅) as ->; [|by rewrite size_empty].
    apply elem_of_equiv_empty. intros id (v & row & E & Hs & Hd & Hr)%stale_member.
    destruct (Ha id v row E Hs Hd) as (r & Er & Hle). specialize (Hr r Er). lia.
Qed.

(** no operation lowers the captured revision of an asset; completing a
    revision of a library answers that nothing remains exactly when every live
    finished download of the library has been captured at that revision or a
    later one, and only then does the library's active revision move, up to
    it, with its pending revision and failures cleared; otherwise nothing
    changes. *)
Theorem capture_revisions_exact os d library target :
  revisions_grow d (run os d)
  ∧ let '(d', st) := complete_metadata_capture_revision library target d in
    (mc_remaining_assets st = 0 ↔
       ∀ id v row, assets d !! (library, id, v) = Some row → r_status row = Downloaded → is_deleted row = false →
         ∃ r, capture_revisions d !! (library, id) = Some r ∧ target <= r)
    ∧ (mc_remaining_assets st <> 0 → d' = d)
    ∧ (mc_remaining_assets st = 0 → ∀ s0, metadata_capture_state d !! library = Some s0 →
         mc_state st = {| cs_active_revision := Z.max (cs_active_revision s0) target; cs_pending_revision := None;
                          cs_processed_assets := cs_processed_assets s0; cs_failed_assets := 0; cs_last_error := None |}
         ∧ metadata_capture_state d' !! library = Some (mc_state st))
    ∧ ∀ library', library' <> library → metadata_capture_state d' !! library' = metadata_capture_state d !! library'.
Proof.
  split.
  { revert d. induction os as [|o os IH]; intros d; [by apply revisions_same|]. cbn.
    eapply revisions_trans; [|apply IH]. destruct (exec o d) eqn:E; [by apply (exec_revisions o)|by apply revisions_same]. }
  pose proof (remaining_zero d library target) as Hr. unfold complete_metadata_capture_revision.
  set (rem := metadata_capture_remaining d library target) in *. clearbody rem.
  cbn [mc_remaining_assets metadata_capture_status]. rewrite <- Hr.
  destruct (Z.eqb_spec rem 0) as [->|Hz]; cbn; split_and!; try done.
  - intros _ s0 E. rewrite lookup_update, E. cbn. by rewrite bool_decide_true.
  - intros library' Hn. rewrite lookup_update, bool_decide_false by done. by destruct (metadata_capture_state d !! library').
Qed.
End Meta.
