(* ===== verification/StateLife.v ===== *)
(** * The life of an asset version

    An abstract specification of the state store, and the proof that the SQL
    of [StateDb.v] implements it: each version is a small state machine over
    its status and the checksum of its content, and each operation of the
    store is one of its events. *)
From S2P Require Import Prelude RustStr Types StateTypes StateDb StateDbSpec StateLaws.

(** ** The abstract machine *)

(** Status and provider checksum; a version the store does not know is
    [None]. *)
Abbreviation Life := (AssetStatus * str)%type.

Inductive Event :=
| ESeen (checksum : str)
| EDownloaded
| EAdopted (checksum : str)
| EFailed
| ERetry
| EPromote
| EExclude
| EPrune
| EOther.

(** Events that may pass a version by. *)
Definition idle (e : Event) : bool :=
  match e with ERetry | EPromote | EExclude | EPrune | EOther => true | _ => false end.

Inductive life_step : Event → option Life → option Life → Prop :=
| ls_idle e x : idle e = true → life_step e x x
| ls_discovered c : life_step (ESeen c) None (Some (Pending, c))
| ls_seen_again c s : s <> PolicyExcluded → life_step (ESeen c) (Some (s, c)) (Some (s, c))
| ls_readmitted c : life_step (ESeen c) (Some (PolicyExcluded, c)) (Some (Pending, c))
| ls_changed c c' s : c' <> c → life_step (ESeen c) (Some (s, c')) (Some (Pending, c))
| ls_downloaded s c : life_step EDownloaded (Some (s, c)) (Some (Downloaded, c))
| ls_adopted c x : life_step (EAdopted c) x (Some (Downloaded, c))
| ls_failed s c : life_step EFailed (Some (s, c)) (Some (Failed, c))
| ls_retried c : life_step ERetry (Some (Failed, c)) (Some (Pending, c))
| ls_promoted c : life_step EPromote (Some (Pending, c)) (Some (Failed, c))
| ls_excluded c : life_step EExclude (Some (Pending, c)) (Some (PolicyExcluded, c))
| ls_pruned c : life_step EPrune (Some (Pending, c)) None.

(** ** The store as that machine *)

Definition life (d : Db) (k : key3) : option Life := (λ row, (r_status row, p_checksum (r_prov row))) <$> assets d !! k.

Definition on_key (k k' : key3) (e : Event) : Event := if bool_decide (k' = k) then e else EOther.

Definition event_of (o : Op) (k : key3) : Event :=
  match o with
  | OUpsertSeen _ r => on_key k (record_key r) (ESeen (ar_checksum r))
  | OMarkDownloaded _ k' _ _ _ _ => on_key k k' EDownloaded
  | OImportAdopt _ r _ _ _ _ => on_key k (record_key r) (EAdopted (ar_checksum r))
  | OMarkFailed k' _ => on_key k k' EFailed
  | OPrepareForRetry library _ => if in_library library k then ERetry else EOther
  | OPromotePending _ => EPromote
  | OPruneStale library _ => if bool_decide (k.1.1 = library) then EPrune else EOther
  | OPruneVersions library vs =>
      if bool_decide (k.1.1 = library) && bool_decide ((k.1.2, k.2) ∈ vs) then EPrune else EOther
  | OPolicyExcluded k' => on_key k k' EExclude
  | _ => EOther
  end.

Section Refinement.
Context `{StateEnv}.
#[local] Arguments Sql.holds : simpl never.
#[local] Arguments status_is : simpl never.
#[local] Arguments is_deleted : simpl never.

Lemma life_assets d d' k : assets d' !! k = assets d !! k → life d' k = life d k.
Proof. unfold life. by intros ->. Qed.

(** An operation that leaves status and checksum alone. *)
Lemma life_idle e d d' k : idle e = true → life d' k = life d k → life_step e (life d k) (life d' k).
Proof. intros He ->. by apply ls_idle. Qed.

Lemma life_update_same d p f k :
  (∀ row, r_status (f row) = r_status row) → (∀ row, p_checksum (r_prov (f row)) = p_checksum (r_prov row)) →
  life (set_assets d (Sql.update p f (assets d))) k = life d k.
Proof.
  intros Hs Hc. unfold life. cbn. rewrite lookup_update. destruct (assets d !! k) as [row|]; [|done]. cbn.
  destruct (p k row); by rewrite ?Hs, ?Hc.
Qed.

Lemma life_insert d k k' row : life (set_assets d (<[k' := row]> (assets d))) k =
  if bool_decide (k' = k) then Some (r_status row, p_checksum (r_prov row)) else life d k.
Proof.
  unfold life. cbn. case_bool_decide; subst; [by rewrite lookup_insert_eq|by rewrite lookup_insert_ne].
Qed.

Lemma life_delete d p k : life (delete_assets p d) k =
  match assets d !! k with Some row => if p k row then None else life d k | None => None end.
Proof.
  unfold life, delete_assets. destruct foreign_keys; cbn; rewrite lookup_delete_where;
    (destruct (assets d !! k) as [row|]; [cbn; by destruct (p k row)|done]).
Qed.

Lemma upsert_life d r t d' k : upsert_asset_row d r t = Ok d' → record_key r <> k → life d' k = life d k.
Proof.
  intros Hu Hk. unfold upsert_asset_row in Hu. destruct (Sql.exists_row _ _); [done|].
  destruct (assets d !! record_key r) as [row|]; [destruct (conflict_refused row r); [done|]|]; injection Hu as <-;
    by rewrite life_insert, bool_decide_false.
Qed.

Lemma upsert_step d r t d' : upsert_asset_row d r t = Ok d' →
  life_step (ESeen (ar_checksum r)) (life d (record_key r)) (life d' (record_key r)).
Proof.
  unfold upsert_asset_row. destruct (Sql.exists_row _ _); [done|].
  destruct (assets d !! record_key r) as [row|] eqn:E; [destruct (conflict_refused row r); [done|]|]; intros Hu; injection Hu as <-;
    rewrite life_insert, bool_decide_true by done; unfold life at 1; rewrite E; cbn; [|constructor].
  destruct (decide (p_checksum (r_prov row) = ar_checksum r)) as [Hc|Hc].
  - rewrite bool_decide_false, orb_false_r, Hc by (intros Hn; by apply Hn).
    destruct (status_is PolicyExcluded row) eqn:Es.
    + apply status_is_true in Es as ->. constructor.
    + apply ls_seen_again. intros Hp. apply status_is_true in Hp. congruence.
  - rewrite bool_decide_true, orb_true_r by done. by constructor.
Qed.

Lemma life_update_status d k k' p c dc repair t :
  life (update_status_to_downloaded d k' p c dc repair t).1 k =
    match assets d !! k' with
    | Some row => if bool_decide (k' = k) then Some (Downloaded, p_checksum (r_prov row)) else life d k
    | None => life d k
    end.
Proof. unfold update_status_to_downloaded. destruct (assets d !! k') as [row|]; [|done]. cbn [fst]. by rewrite life_insert. Qed.

Lemma life_revision d l i rev k : life (record_metadata_capture_revision d l i rev) k = life d k.
Proof. apply life_assets. by rewrite record_revision_assets. Qed.

Lemma mark_downloaded_step now library id v p c dc repair d d' k :
  mark_downloaded_with_capture_repair now library id v p c dc repair d = Ok d' →
  life_step (on_key k (library, id, v) EDownloaded) (life d k) (life d' k).
Proof.
  unfold mark_downloaded_with_capture_repair.
  pose proof (life_update_status d k (library, id, v) p c dc repair (timestamp now)) as Hl.
  unfold update_status_to_downloaded in *. destruct (assets d !! (library, id, v)) as [row|] eqn:E; [|done].
  cbn in *. intros Hx. injection Hx as <-. rewrite life_revision, Hl. unfold on_key.
  case_bool_decide as Hk; [subst k|by apply ls_idle]. unfold life. rewrite E. constructor.
Qed.

Lemma upsert_row_checksum d r t d' : upsert_asset_row d r t = Ok d' →
  ∃ row, assets d' !! record_key r = Some row ∧ p_checksum (r_prov row) = ar_checksum r.
Proof.
  unfold upsert_asset_row. destruct (Sql.exists_row _ _); [done|].
  destruct (assets d !! record_key r) as [row|]; [destruct (conflict_refused row r); [done|]|]; intros Hu; injection Hu as <-;
    cbn; rewrite lookup_insert_eq; eauto.
Qed.

Lemma import_adopt_step now r p c sz mtime d d' k : import_adopt now r p c sz mtime d = Ok d' →
  life_step (on_key k (record_key r) (EAdopted (ar_checksum r))) (life d k) (life d' k).
Proof.
  unfold import_adopt. destruct (upsert_asset_row d r (timestamp now)) as [d1|] eqn:Eu; [|done]. cbn.
  pose proof (life_update_status d1 k (record_key r) p c None false (timestamp now)) as Hl.
  destruct (update_status_to_downloaded _ _ _ _ _ _ _) as [d2 n]. cbn in Hl. intros Hx. injection Hx as <-.
  rewrite life_update_same by done. rewrite life_revision, Hl.
  destruct (upsert_row_checksum _ _ _ _ Eu) as (row & -> & ->). unfold on_key.
  case_bool_decide; [constructor|]. rewrite (upsert_life d r (timestamp now) d1) by done. by apply ls_idle.
Qed.

Lemma prune_delete d p k : (∀ row, p k row = true → status_is Pending row = true) →
  life_step EPrune (life d k) (life (delete_assets p d) k).
Proof.
  intros Hp. rewrite life_delete. unfold life. destruct (assets d !! k) as [row|]; cbn; [|by apply ls_idle].
  destruct (p k row) eqn:E; [|by apply ls_idle]. apply Hp, status_is_true in E as ->. constructor.
Qed.

Lemma life_prune_versions library vs d k : life (prune_pending_asset_versions library vs d).1 k =
  if bool_decide (k.1.1 = library) && bool_decide ((k.1.2, k.2) ∈ vs)
     && match assets d !! k with Some row => status_is Pending row | None => false end
  then None else life d k.
Proof.
  revert d. induction vs as [|[id v] vs IH]; intros d; cbn [prune_pending_asset_versions].
  { rewrite (bool_decide_false ((k.1.2, k.2) ∈ [])) by set_solver. by rewrite andb_false_r. }
  set (d1 := delete_assets _ d). specialize (IH d1).
  destruct (prune_pending_asset_versions library vs d1) as [d2 n]. cbn [fst] in *. rewrite IH. clear IH.
  assert (assets d1 !! k = assets d !! k ≫= λ row,
    if bool_decide (k = (library, id, v)) && status_is Pending row then None else Some row) as Ea.
  { unfold d1, delete_assets. destruct foreign_keys; cbn; by rewrite lookup_delete_where. }
  unfold life. rewrite Ea. destruct (assets d !! k) as [row|] eqn:E; cbn; [|by rewrite !andb_false_r].
  destruct (status_is Pending row) eqn:Es; [|rewrite !andb_false_r; cbn; by rewrite Es, ?andb_false_r].
  destruct k as [[l i] v']. cbn. destruct (decide ((l, i, v') = (library, id, v))) as [[= -> -> ->]|Hn].
  - rewrite (bool_decide_true (library = library)), (bool_decide_true ((library, id, v) = _)),
      (bool_decide_true (_ ∈ (id, v) :: vs)) by (done || by left). cbn. by rewrite andb_false_r.
  - rewrite (bool_decide_false ((l, i, v') = _)) by done. cbn.
    destruct (decide (l = library)) as [->|Hl]; [|by rewrite !(bool_decide_false (l = library))].
    rewrite Es, !andb_true_r.
    rewrite (bool_decide_ext ((i, v') ∈ (id, v) :: vs) ((i, v') ∈ vs)); [done|].
    rewrite elem_of_cons. naive_solver.
Qed.

Lemma life_touch now library ids d k : life (touch_last_seen_many now library ids d) k = life d k.
Proof.
  unfold touch_last_seen_many. revert d. induction ids as [|id ids IH]; intros d; [by destruct d|]. cbn.
  specialize (IH (set_assets d (Sql.update (λ k _, bool_decide (k.1 = (library, id)))
    (λ row, set_last_seen row (timestamp now)) (assets d)))). cbn in IH.
  rewrite <- (life_update_same d (λ k _, bool_decide (k.1 = (library, id))) (λ row, set_last_seen row (timestamp now)) k),
    <- IH by done. by apply life_assets.
Qed.

Lemma life_delete_at_source op sel at_ clear d d' n k : delete_at_source op sel at_ clear d = Ok (d', n) → life d' k = life d k.
Proof.
  unfold delete_at_source. destruct (Sql.exists_row _ _); [done|]. intros Hx. injection Hx as <- <-.
  rewrite <- (life_update_same d (λ k _, sel k) (deleted_row (timestamp <$> at_)) k) by done.
  by apply life_assets; destruct clear.
Qed.

Lemma life_repair_prepared p c sz d d' o k : record_capture_repair_prepared p c sz d = Ok (d', o) → life d' k = life d k.
Proof.
  unfold record_capture_repair_prepared. destruct (str_eqb c []); [done|].
  destruct (pr_capture_repair_receipt p) as [r|]; [|done]. destruct (negb (receipt_fits r)); [done|].
  destruct (ar_local_checksum _); [|by intros [= <- <-]]. destruct (negb (fits_i64 sz)); [done|].
  intros [= <- <-]. by apply life_update_same.
Qed.

Lemma life_finish_rewrite p q lc pc c d d' b k : finish_metadata_rewrite p q lc pc c d = Ok (d', b) → life d' k = life d k.
Proof.
  unfold finish_metadata_rewrite. destruct (am_metadata_hash _); [|done].
  destruct (negb (finish_checks p q lc pc c)); [done|]. intros [= <- <-]. by apply life_update_same.
Qed.

Lemma retry_step library e d k :
  life_step (if in_library library k then ERetry else EOther) (life d k) (life (prepare_for_retry library e d).1 k).
Proof.
  unfold life. rewrite prepare_for_retry_rows, lookup_update. unfold retried.
  destruct (in_library library k); destruct (assets d !! k) as [row|]; cbn; rewrite ?andb_false_r; try (by apply ls_idle).
  destruct (negb (is_deleted row)); [|by apply ls_idle]. cbn.
  destruct (status_is Failed row) eqn:Ef; cbn; [apply status_is_true in Ef as ->; constructor|].
  destruct (status_is Pending row) eqn:Ep; cbn; [|by apply ls_idle].
  apply status_is_true in Ep. destruct (0 <? r_download_attempts row); cbn; rewrite ?Ep; by apply ls_idle.
Qed.

Lemma promote_step since d k : life_step EPromote (life d k) (life (promote_pending_to_failed since d).1 k).
Proof.
  unfold life, promote_pending_to_failed. cbn. rewrite lookup_update.
  destruct (assets d !! k) as [row|]; cbn; [|by apply ls_idle].
  unfold unresolved. destruct (status_is Pending row) eqn:Ep; cbn; [|by apply ls_idle].
  apply status_is_true in Ep. destruct (_ && _); cbn; rewrite ?Ep; [constructor|by apply ls_idle].
Qed.

Lemma stale_step library since d k :
  life_step (if bool_decide (k.1.1 = library) then EPrune else EOther) (life d k)
    (life (prune_stale_pending_not_seen_since library since d).1 k).
Proof.
  unfold prune_stale_pending_not_seen_since. cbn. case_bool_decide as Hk.
  - apply prune_delete. intros row. unfold stale_pending. intros [[_ ?]%andb_true_iff _]%andb_true_iff. done.
  - apply life_idle; [done|]. rewrite life_delete. unfold life. destruct (assets d !! k) as [row|]; [|done].
    unfold stale_pending. by rewrite bool_decide_false.
Qed.

Lemma prune_versions_step library vs d k :
  life_step (if bool_decide (k.1.1 = library) && bool_decide ((k.1.2, k.2) ∈ vs) then EPrune else EOther) (life d k)
    (life (prune_pending_asset_versions library vs d).1 k).
Proof.
  rewrite life_prune_versions. destruct (_ && bool_decide (_ ∈ vs)); [|by apply ls_idle]. cbn.
  unfold life. destruct (assets d !! k) as [row|]; [|by apply ls_idle]. cbn.
  destruct (status_is Pending row) eqn:Ep; [|by apply ls_idle]. apply status_is_true in Ep as ->. constructor.
Qed.

Lemma policy_step library id v d k :
  life_step (on_key k (library, id, v) EExclude) (life d k) (life (mark_policy_excluded library id v d).1 k).
Proof.
  unfold mark_policy_excluded. destruct (assets d !! (library, id, v)) as [row|] eqn:E; [|unfold on_key; case_bool_decide; by apply ls_idle].
  destruct (status_is Pending row && _) eqn:Ep; [|unfold on_key; case_bool_decide; by apply ls_idle].
  apply andb_true_iff in Ep as [Ep%status_is_true _].
  change (life _ k) with (life (set_assets d (<[(library, id, v) := set_status row PolicyExcluded (r_download_attempts row) None]> (assets d))) k) at 2.
  rewrite life_insert. unfold on_key. case_bool_decide as Hk; [subst k|by apply ls_idle].
  unfold life. rewrite E. cbn. rewrite Ep. constructor.
Qed.

Ltac by_idle_deletion Hx :=
  match type of Hx with fmap fst ?e = Ok _ => destruct e as [[? ?]|] eqn:?E; [|done] end;
  injection Hx as <-; apply life_idle; [done|]; by eapply life_delete_at_source.

Lemma exec_life_step o d d' k : exec o d = Ok d' → life_step (event_of o k) (life d k) (life d' k).
Proof.
  intros Hx. destruct o; cbn [exec event_of] in Hx |- *;
    repeat match goal with k' : key3 |- _ => lazymatch k' with k => fail | _ => destruct k' as [[? ?] ?] end end;
    try (injection Hx as <-); try (by apply ls_idle); try (apply life_idle; [done|by apply life_update_same]).
  - unfold on_key. case_bool_decide as Hk; [subst k; by eapply upsert_step|].
    apply life_idle; [done|]. by eapply upsert_life.
  - by eapply mark_downloaded_step.
  - by eapply import_adopt_step.
  - unfold mark_failed in Hx. destruct (assets d !! _) as [row|] eqn:E; [|done]. injection Hx as <-.
    rewrite life_insert. unfold on_key. case_bool_decide as Hk; [subst k|by apply ls_idle].
    unfold life. rewrite E. constructor.
  - apply retry_step.
  - apply promote_step.
  - apply stale_step.
  - apply prune_versions_step.
  - apply life_idle; [done|]. apply life_touch.
  - unfold set_asset_verification in Hx. destruct (foreign_keys && _); [done|]. injection Hx as <-. by apply ls_idle.
  - apply policy_step.
  - by_idle_deletion Hx.
  - by_idle_deletion Hx.
  - by_idle_deletion Hx.
  - by_idle_deletion Hx.
  - unfold claim_legacy_master_state_owner. destruct (legacy_master_state_owners d !! _); by apply ls_idle.
  - apply life_idle; [done|]. unfold refresh_downloaded_asset_metadata. cbn.
    match goal with |- context [if ?c then record_metadata_capture_revision _ _ _ _ else _] => destruct c end;
      rewrite ?life_revision; apply life_update_same; intros row; unfold refreshed_row; by destruct mark.
  - destruct (record_capture_repair_prepared _ _ _ _) as [[d1 o]|] eqn:E1; [|done]. injection Hx as <-.
    apply life_idle; [done|]. by eapply life_repair_prepared.
  - destruct (finish_metadata_rewrite _ _ _ _ _ _) as [[d1 o]|] eqn:E1; [|done]. injection Hx as <-.
    apply life_idle; [done|]. by eapply life_finish_rewrite.
  - unfold begin_enum_progress. destruct (metadata d !! _); by apply ls_idle.
  - unfold complete_metadata_capture_revision. cbn. destruct (_ =? 0); by apply ls_idle.
Qed.

(** C31: the store implements the life of a version: whatever operation
    succeeds, on every row the change of status and checksum is a step of the
    abstract machine for the event the operation is for that row.  So a row
    appears only by being seen or adopted, becomes downloaded only by a
    recorded download or an adoption, goes back to pending only by a new
    checksum, a readmission or a retry of a failure, and disappears only while
    pending. *)
Theorem store_implements_life o d d' k : exec o d = Ok d' → life_step (event_of o k) (life d k) (life d' k).
Proof. apply exec_life_step. Qed.

(** A row appears only under the key of a record that was seen or adopted. *)
Lemma row_appears o d d' k : exec o d = Ok d' → life d k = None → is_Some (life d' k) →
  ∃ r, k = record_key r.
Proof.
  intros Hx%(exec_life_step _ _ _ k) Hn [x Hs]. rewrite Hn, Hs in Hx.
  assert (∃ c, event_of o k = ESeen c ∨ event_of o k = EAdopted c) as [c He] by (inversion Hx; subst; eauto).
  destruct o; cbn in He; unfold on_key in He; repeat case_match; destruct He; try done;
    (match goal with Hb : bool_decide (_ = k) = true |- _ => apply bool_decide_eq_true in Hb; eauto end).
Qed.
End Refinement.

Module LifeRuns.
Import StateDbSpec.Samples.

Definition sighted : Op := OUpsertSeen 1700000000000000000 (record "A" "c1" "m1").
Definition after_sighting : Db := match exec sighted Db_empty with Ok d => d | Err _ => Db_empty end.

Lemma store_implements_life_witness :
  life_step (ESeen (lit "c1")) None (Some (Pending, lit "c1"))
  ∧ life_step (event_of sighted (key "A")) (life Db_empty (key "A")) (life after_sighting (key "A"))
  ∧ life after_sighting (key "A") = Some (Pending, lit "c1").
Proof.
  split; [constructor|]. split; [|vm_compute; reflexivity].
  apply (store_implements_life sighted Db_empty after_sighting (key "A")). vm_compute. reflexivity.
Defined.
End LifeRuns.
