(* ===== verification/Filter.v ===== *)
(** * Asset filtering and path derivation: [src/download/filter.rs]

    From an asset and a configuration to the files to download: content
    filters, version selection, file names, and the collision resolution
    against the disk and the paths already claimed in the session. *)
From S2P Require Import Prelude RustStr Types Paths.

Class FilterEnv := {
  filter_path_env :: PathEnv;
  (** [glob::Pattern] and its case-insensitive [matches_with]. *)
  Pattern : Type;
  matches_with : Pattern → str → bool;
  (** [DateTime::date_naive], in days since the epoch. *)
  date_naive : DateTimeLocal → Z;
  (** [AssetMetadata::capture_local]: [chrono] time-zone conversion. *)
  capture_local : option Z → Z → DateTimeLocal;
  (** [serde_json::from_str::<Vec<String>>]. *)
  json_string_array : str → option (list str);
}.

Inductive FilterReason :=
| MalformedAsset | ExcludedAlbum | FRMediaType | FRLivePhoto | DateRange | FRFilename.

(** ** Configuration *)

(** [PathDerivationConfig]; [DownloadConfig] carries the same fields and the
    asset groupings (its pipeline fields are not read here). *)
Record PathDerivationConfig `{FilterEnv} := {
  directory : path;
  folder_structure : str;
  folder_structure_albums : str;
  folder_structure_smart_folders : str;
  resolution : PhotoResolution;
  media : MediaSelection;
  skip_created_before : option CreatedDateFilter;
  skip_created_after : option CreatedDateFilter;
  live_photo_mode : LivePhotoMode;
  live_resolution : AssetVersionSize;
  live_photo_mov_filename_policy : LivePhotoMovFilenamePolicy;
  edited : bool;
  alternative : bool;
  raw_policy : RawPolicy;
  file_match_policy : FileMatchPolicy;
  force_resolution : bool;
  keep_unicode_in_filenames : bool;
  filename_exclude : list Pattern;
  album_name : option str;
  library : str;
  exclude_asset_ids : gset str;
}.

Record AssetGroupings := {
  ag_albums : gmap str (list str);
  ag_people : gmap str (list str);
}.

Record DownloadConfig `{FilterEnv} := {
  dc_path :> PathDerivationConfig;
  asset_groupings : AssetGroupings;
}.

Definition folder_structure_for_pass (folder_structure folder_structure_albums
    folder_structure_smart_folders library : str) (pass : AlbumPass) : str :=
  let template :=
    match pass_kind pass with
    | PassAlbum => folder_structure_albums
    | PassSmartFolder => folder_structure_smart_folders
    | PassUnfiled => folder_structure
    end in
  let name_ref := match pass_album_name pass with [] => None | n => Some n end in
  let category_expanded := expand_named_token template (PassKind_token (pass_kind pass)) name_ref in
  let library_for_path := truncate_library_zone library in
  expand_named_token category_expanded TOKEN_LIBRARY (Some library_for_path).

Section WithEnv.
Context `{FilterEnv}.

Definition with_pass (c : PathDerivationConfig) (pass : AlbumPass) : PathDerivationConfig := {|
  folder_structure := folder_structure_for_pass (folder_structure c)
      (folder_structure_albums c) (folder_structure_smart_folders c) (library c) pass;
  album_name := Some (pass_album_name pass);
  exclude_asset_ids := pass_exclude_ids pass;
  directory := directory c;
  folder_structure_albums := folder_structure_albums c;
  folder_structure_smart_folders := folder_structure_smart_folders c;
  resolution := resolution c;
  media := media c;
  skip_created_before := skip_created_before c;
  skip_created_after := skip_created_after c;
  live_photo_mode := live_photo_mode c;
  live_resolution := live_resolution c;
  live_photo_mov_filename_policy := live_photo_mov_filename_policy c;
  edited := edited c;
  alternative := alternative c;
  raw_policy := raw_policy c;
  file_match_policy := file_match_policy c;
  force_resolution := force_resolution c;
  keep_unicode_in_filenames := keep_unicode_in_filenames c;
  filename_exclude := filename_exclude c;
  library := library c;
|}.

Definition with_library (c : PathDerivationConfig) (library' : str) : PathDerivationConfig := {|
  library := library';
  directory := directory c;
  folder_structure := folder_structure c;
  folder_structure_albums := folder_structure_albums c;
  folder_structure_smart_folders := folder_structure_smart_folders c;
  resolution := resolution c;
  media := media c;
  skip_created_before := skip_created_before c;
  skip_created_after := skip_created_after c;
  live_photo_mode := live_photo_mode c;
  live_resolution := live_resolution c;
  live_photo_mov_filename_policy := live_photo_mov_filename_policy c;
  edited := edited c;
  alternative := alternative c;
  raw_policy := raw_policy c;
  file_match_policy := file_match_policy c;
  force_resolution := force_resolution c;
  keep_unicode_in_filenames := keep_unicode_in_filenames c;
  filename_exclude := filename_exclude c;
  album_name := album_name c;
  exclude_asset_ids := exclude_asset_ids c;
|}.

Definition created_local (a : PhotoAsset) : DateTimeLocal :=
  capture_local (am_timezone_offset (asset_metadata a)) (created a).

(** ** Media types, normalised paths, payloads *)

Definition determine_media_type (version_size : VersionSizeKey) (asset : PhotoAsset) : MediaType :=
  match version_size with
  | VLiveOriginal | VLiveMedium | VLiveThumb | VLiveAdjusted =>
      if bool_decide (item_type asset = Some Image) then LivePhotoVideo else Video
  | _ =>
      if bool_decide (item_type asset = Some Movie) then Video
      else if is_live_photo asset then LivePhotoImage
      else Photo
  end.

Definition normalize (p : path) : str :=
  if case_insensitive then to_ascii_lowercase p else p.

Record MetadataPayload := {
  mp_timezone_offset : option Z;
  mp_rating : option Z;
  mp_latitude : option Z;
  mp_longitude : option Z;
  mp_altitude : option Z;
  mp_title : option str;
  mp_description : option str;
  mp_keywords : list str;
  mp_people : list str;
  mp_is_hidden : bool;
  mp_is_archived : bool;
  mp_media_subtype : option str;
  mp_burst_id : option str;
}.

Definition from_metadata (meta : AssetMetadata) : MetadataPayload := {|
  mp_timezone_offset := am_timezone_offset meta;
  mp_rating := am_rating meta;
  mp_latitude := am_latitude meta;
  mp_longitude := am_longitude meta;
  mp_altitude := am_altitude meta;
  mp_title := am_title meta;
  mp_description := match am_description meta with
                    | Some d => Some d | None => am_title meta end;
  mp_keywords := default [] (am_keywords meta ≫= json_string_array);
  mp_people := [];
  mp_is_hidden := am_is_hidden meta;
  mp_is_archived := am_is_archived meta;
  mp_media_subtype := am_media_subtype meta;
  mp_burst_id := am_burst_id meta;
|}.

(** Album names not yet present are appended, in order. *)
Definition merge_keywords (keywords albums : list str) : list str :=
  fold_left (λ ks album, if memb album ks then ks else ks ++ [album]) albums keywords.

Definition with_asset_groupings (p : MetadataPayload) (albums people : list str) : MetadataPayload := {|
  mp_keywords := merge_keywords (mp_keywords p) albums;
  mp_people := match people with [] => mp_people p | _ => people end;
  mp_timezone_offset := mp_timezone_offset p;
  mp_rating := mp_rating p;
  mp_latitude := mp_latitude p;
  mp_longitude := mp_longitude p;
  mp_altitude := mp_altitude p;
  mp_title := mp_title p;
  mp_description := mp_description p;
  mp_is_hidden := mp_is_hidden p;
  mp_is_archived := mp_is_archived p;
  mp_media_subtype := mp_media_subtype p;
  mp_burst_id := mp_burst_id p;
|}.

Definition metadata_payload (g : AssetGroupings) (asset_id : str) (m : AssetMetadata) : MetadataPayload :=
  let albums := default [] (ag_albums g !! asset_id) in
  let people := default [] (ag_people g !! asset_id) in
  with_asset_groupings (from_metadata m) albums people.

Definition build_payload (asset : PhotoAsset) (config : DownloadConfig) : MetadataPayload :=
  metadata_payload (asset_groupings config) (state_id asset) (asset_metadata asset).

Record DownloadTask := {
  dt_url : str;
  dt_download_path : path;
  dt_publication : FinalPublication;
  dt_checksum : str;
  dt_asset_id : str;
  dt_asset_record_name : str;
  dt_library : str;
  dt_metadata : MetadataPayload;
  dt_size : Z;
  dt_created_local : DateTimeLocal;
  dt_version_size : VersionSizeKey;
  dt_media_type : MediaType;
}.

(** ** The RAW policy: a view with two keys swapped *)

Record VersionsView := {
  vv_versions : list (AssetVersionSize * AssetVersion);
  vv_swap : option (nat * nat);
}.

Definition view_key (swap : option (nat * nat)) (idx : nat) (k : AssetVersionSize) : AssetVersionSize :=
  match swap with
  | Some (orig, alt) =>
      if (idx =? orig)%nat then Alternative else if (idx =? alt)%nat then Original else k
  | None => k
  end.

Definition view_iter (v : VersionsView) : list (AssetVersionSize * AssetVersion) :=
  imap (λ idx kv, (view_key (vv_swap v) idx kv.1, kv.2)) (vv_versions v).

Definition view_get (v : VersionsView) (key : AssetVersionSize) : option AssetVersion :=
  snd <$> findb (λ kv, bool_decide (kv.1 = key)) (view_iter v).

(** The fold over [enumerate()]: the last index of each key. *)
Fixpoint orig_alt_indices (idx : nat) (vs : list (AssetVersionSize * AssetVersion))
    (acc : option nat * option nat) : option nat * option nat :=
  match vs with
  | [] => acc
  | (k, _) :: vs' =>
      orig_alt_indices (S idx) vs'
        match k with
        | Original => (Some idx, snd acc)
        | Alternative => (fst acc, Some idx)
        | _ => acc
        end
  end.

Definition is_raw_at (vs : list (AssetVersionSize * AssetVersion)) (idx : nat) : bool :=
  match vs !! idx with
  | Some (_, v) => contains (lit "raw") (av_asset_type v)
  | None => false
  end.

Definition apply_raw_policy (vs : list (AssetVersionSize * AssetVersion)) (policy : RawPolicy) : VersionsView :=
  let borrowed := {| vv_versions := vs; vv_swap := None |} in
  if bool_decide (policy = AsIs) then borrowed
  else
    let '(orig_idx, alt_idx) := orig_alt_indices 0 vs (None, None) in
    match alt_idx with
    | None => borrowed
    | Some alt_idx =>
        let should_swap :=
          match policy with
          | PreferRaw => is_raw_at vs alt_idx
          | PreferJpeg => match orig_idx with Some idx => is_raw_at vs idx | None => false end
          | AsIs => false
          end in
        match should_swap, orig_idx with
        | true, Some orig_idx => {| vv_versions := vs; vv_swap := Some (orig_idx, alt_idx) |}
        | _, _ => borrowed
        end
    end.

(** ** Content filters *)

Definition is_asset_filtered (asset : PhotoAsset) (config : PathDerivationConfig) : option FilterReason :=
  if negb (has_valid_id asset) then Some MalformedAsset
  else if bool_decide (asset_record_name asset ∈ exclude_asset_ids config)
       || bool_decide (record_name asset ∈ exclude_asset_ids config)
  then Some ExcludedAlbum
  else if is_live_photo asset && negb (ms_live_photos (media config)) then Some FRMediaType
  else if negb (ms_videos (media config)) && bool_decide (item_type asset = Some Movie)
  then Some FRMediaType
  else if negb (ms_photos (media config)) && bool_decide (item_type asset = Some Image)
          && negb (is_live_photo asset)
  then Some FRMediaType
  else if bool_decide (live_photo_mode config = LPSkip) && is_live_photo asset
  then Some FRLivePhoto
  else
    let created_utc := created asset in
    let day := date_naive (created_local asset) in
    if match skip_created_before config with
       | Some before => excludes_before before created_utc day | None => false end
    then Some DateRange
    else if match skip_created_after config with
            | Some after => excludes_after after created_utc day | None => false end
    then Some DateRange
    else if match filename asset with
            | Some f => existsb (λ p, matches_with p f) (filename_exclude config)
            | None => false end
    then Some FRFilename
    else None.

(** ** File names *)

Definition first_version_asset_type (asset : PhotoAsset) : str :=
  match versions asset with (_, v) :: _ => av_asset_type v | [] => [] end.

Definition raw_filename (asset : PhotoAsset) : str :=
  match filename asset with
  | Some f => f
  | None => generate_fingerprint_filename (record_name asset) (first_version_asset_type asset)
  end.

Definition filename_stem_is_empty (fname : str) : bool :=
  let cleaned := clean_filename fname in
  let stem := match rsplit_once DOT cleaned with Some (stem, _) => stem | None => cleaned end in
  str_eqb stem [].

Definition replace_empty_stem_with_fingerprint (asset_id asset_type fname : str) : str :=
  if negb (filename_stem_is_empty fname) then fname
  else
    let fallback := generate_fingerprint_filename asset_id asset_type in
    match rsplit_once DOT fallback with
    | None => fallback
    | Some (fallback_stem, _) =>
        match rsplit_once DOT fname with
        | Some (_, (_ :: _) as ext) => fallback_stem ++ DOT :: ext
        | _ => fallback
        end
    end.

Definition mapped_version_filename (asset_id base_filename asset_type : str) : str :=
  replace_empty_stem_with_fingerprint asset_id asset_type
    (map_filename_extension base_filename asset_type).

(** ** Derivation context and version selection *)

Record DerivationContext := {
  base_filename : str;
  ctx_created_local : DateTimeLocal;
  ctx_versions : VersionsView;
}.

Definition build (asset : PhotoAsset) (config : PathDerivationConfig) : DerivationContext :=
  let raw := raw_filename asset in {|
    base_filename := if keep_unicode_in_filenames config then raw else remove_unicode_chars raw;
    ctx_created_local := created_local asset;
    ctx_versions := apply_raw_policy (versions asset) (raw_policy config);
  |}.

Definition get_version (ctx : DerivationContext) (key : AssetVersionSize) : option AssetVersion :=
  view_get (ctx_versions ctx) key.

Definition usable_asset_base_filename (asset : PhotoAsset) (ctx : DerivationContext) : str :=
  replace_empty_stem_with_fingerprint (record_name asset)
    (first_version_asset_type asset) (base_filename ctx).

Definition version_with_fallback (get : AssetVersionSize → option AssetVersion)
    (requested fallback : AssetVersionSize) (force : bool) : option (AssetVersion * AssetVersionSize) :=
  match get requested with
  | Some v => Some (v, requested)
  | None =>
      if bool_decide (requested ≠ fallback) && negb force
      then (λ v, (v, fallback)) <$> get fallback
      else None
  end.

Definition url_seen (version : AssetVersion) (seen_urls : list str) : bool :=
  existsb (λ seen, str_eqb seen (av_url version)) seen_urls.

Definition skip_or_video_only (m : LivePhotoMode) : bool :=
  match m with LPSkip | LPVideoOnly => true | _ => false end.
Definition both_or_video_only (m : LivePhotoMode) : bool :=
  match m with LPBoth | LPVideoOnly => true | _ => false end.

Definition select_primary (asset : PhotoAsset) (config : PathDerivationConfig)
    (ctx : DerivationContext) : option (AssetVersion * AssetVersionSize) :=
  if skip_or_video_only (live_photo_mode config) && is_live_photo asset then None
  else
    requested ← PhotoResolution_to_asset_version_size (resolution config);
    version_with_fallback (get_version ctx) requested Original (force_resolution config).

Definition select_edited_extra (config : PathDerivationConfig) (ctx : DerivationContext)
    (seen_urls : list str) : option (AssetVersion * AssetVersionSize) :=
  if negb (edited config) then None
  else version ← get_version ctx Adjusted;
       if url_seen version seen_urls then None else Some (version, Adjusted).

Definition select_live_edited_extra (asset : PhotoAsset) (config : PathDerivationConfig)
    (ctx : DerivationContext) (seen_urls : list str) : option (AssetVersion * AssetVersionSize) :=
  if negb (edited config) || negb (is_live_photo asset)
     || bool_decide (item_type asset ≠ Some Image) then None
  else version ← get_version ctx LiveAdjusted;
       if url_seen version seen_urls then None else Some (version, LiveAdjusted).

Definition select_alternative_extra (asset : PhotoAsset) (config : PathDerivationConfig)
    (ctx : DerivationContext) (seen_urls : list str) : option (AssetVersion * AssetVersionSize) :=
  if negb (alternative config) || is_live_photo asset then None
  else version ← get_version ctx Alternative;
       if url_seen version seen_urls then None else Some (version, Alternative).

Definition select_mov_companion (asset : PhotoAsset) (config : PathDerivationConfig)
    (ctx : DerivationContext) (seen_urls : list str) : option (AssetVersion * AssetVersionSize) :=
  if negb (both_or_video_only (live_photo_mode config)) then None
  else if bool_decide (item_type asset ≠ Some Image) then None
  else
    selected ← version_with_fallback (get_version ctx) (live_resolution config)
                 LiveOriginal (force_resolution config);
    if url_seen selected.1 seen_urls then None else Some selected.

(** [seen_urls] grows by the selected url; the result by its key and checksum. *)
Definition push_candidate (acc : list (VersionSizeKey * str) * list str)
    (sel : option (AssetVersion * AssetVersionSize)) : list (VersionSizeKey * str) * list str :=
  match sel with
  | Some (version, effective_size) =>
      (acc.1 ++ [(VersionSizeKey_from effective_size, av_checksum version)],
       acc.2 ++ [av_url version])
  | None => acc
  end.

Definition extract_skip_candidates (asset : PhotoAsset) (config : PathDerivationConfig)
    : list (VersionSizeKey * str) :=
  if negb (has_valid_id asset) then []
  else
    let ctx := build asset config in
    let acc := push_candidate ([], []) (select_primary asset config ctx) in
    let acc := push_candidate acc (select_edited_extra config ctx acc.2) in
    let acc := push_candidate acc (select_alternative_extra asset config ctx acc.2) in
    let acc := push_candidate acc (select_live_edited_extra asset config ctx acc.2) in
    let acc := push_candidate acc (select_mov_companion asset config ctx acc.2) in
    acc.1.

(** ** Derived paths *)

Record DerivedPath := {
  dp_path : path;
  dp_filename : str;
  dp_url : str;
  dp_checksum : str;
  dp_size : Z;
  dp_version_size : VersionSizeKey;
  dp_check_ampm_on_disk : bool;
}.

Definition derive_primary (asset : PhotoAsset) (config : PathDerivationConfig)
    (ctx : DerivationContext) : option DerivedPath :=
  '(version, effective_size) ← select_primary asset config ctx;
  let mapped := mapped_version_filename (state_id asset) (base_filename ctx) (av_asset_type version) in
  let sized :=
    match effective_size with
    | Medium => insert_suffix mapped (lit "medium")
    | Thumb => insert_suffix mapped (lit "thumb")
    | _ => mapped
    end in
  let fname :=
    match file_match_policy config with
    | NameId7 => apply_name_id7 sized (state_id asset)
    | NameSizeDedupWithSuffix => sized
    end in
  Some {|
    dp_path := local_download_path (directory config) (folder_structure config)
                 (ctx_created_local ctx) fname (album_name config);
    dp_filename := fname;
    dp_url := av_url version;
    dp_checksum := av_checksum version;
    dp_size := av_size version;
    dp_version_size := VersionSizeKey_from effective_size;
    dp_check_ampm_on_disk := true;
  |}.

Definition derive_suffixed_extra (asset : PhotoAsset) (config : PathDerivationConfig)
    (ctx : DerivationContext) (version : AssetVersion) (key : AssetVersionSize)
    (suffix : str) (check_ampm_on_disk : bool) : DerivedPath :=
  let mapped := mapped_version_filename (state_id asset) (base_filename ctx) (av_asset_type version) in
  let suffixed := insert_literal_suffix mapped suffix in
  let fname :=
    match file_match_policy config with
    | NameId7 => apply_name_id7 suffixed (state_id asset)
    | NameSizeDedupWithSuffix => suffixed
    end in {|
    dp_path := local_download_path (directory config) (folder_structure config)
                 (ctx_created_local ctx) fname (album_name config);
    dp_filename := fname;
    dp_url := av_url version;
    dp_checksum := av_checksum version;
    dp_size := av_size version;
    dp_version_size := VersionSizeKey_from key;
    dp_check_ampm_on_disk := check_ampm_on_disk;
  |}.

Definition derive_edited_extra (asset : PhotoAsset) (config : PathDerivationConfig)
    (ctx : DerivationContext) (seen_urls : list str) : option DerivedPath :=
  if negb (edited config) then None
  else version ← get_version ctx Adjusted;
       if url_seen version seen_urls then None
       else Some (derive_suffixed_extra asset config ctx version Adjusted (lit "_edited") true).

Definition derive_alternative_extra (asset : PhotoAsset) (config : PathDerivationConfig)
    (ctx : DerivationContext) (seen_urls : list str) : option DerivedPath :=
  if negb (alternative config) || is_live_photo asset then None
  else version ← get_version ctx Alternative;
       if url_seen version seen_urls then None
       else
         let suffix := if contains (lit "raw") (av_asset_type version)
                       then lit "_RAW" else lit "_alt" in
         Some (derive_suffixed_extra asset config ctx version Alternative suffix true).

Definition derive_live_edited_extra (asset : PhotoAsset) (config : PathDerivationConfig)
    (ctx : DerivationContext) (seen_urls : list str) : option DerivedPath :=
  if negb (edited config) || negb (is_live_photo asset)
     || bool_decide (item_type asset ≠ Some Image) then None
  else version ← get_version ctx LiveAdjusted;
       if url_seen version seen_urls then None
       else Some (derive_suffixed_extra asset config ctx version LiveAdjusted (lit "_edited") false).

Definition derive_mov_companion (asset : PhotoAsset) (config : PathDerivationConfig)
    (ctx : DerivationContext) (primary_effective_filename : option str) : option DerivedPath :=
  '(live_version, effective_live_size) ← select_mov_companion asset config ctx [];
  let live_base :=
    match file_match_policy config with
    | NameId7 => apply_name_id7 (usable_asset_base_filename asset ctx) (state_id asset)
    | NameSizeDedupWithSuffix =>
        match primary_effective_filename with
        | Some f => f
        | None => usable_asset_base_filename asset ctx
        end
    end in
  let mov_filename :=
    match live_photo_mov_filename_policy config with
    | MovSuffix => live_photo_mov_path_suffix live_base
    | MovOriginal => live_photo_mov_path_original live_base
    end in
  Some {|
    dp_path := local_download_path (directory config) (folder_structure config)
                 (ctx_created_local ctx) mov_filename (album_name config);
    dp_filename := mov_filename;
    dp_url := av_url live_version;
    dp_checksum := av_checksum live_version;
    dp_size := av_size live_version;
    dp_version_size := VersionSizeKey_from effective_live_size;
    dp_check_ampm_on_disk := false;
  |}.

(** Appends a derived path and its url. *)
Definition push_derived (acc : list DerivedPath * list str) (d : option DerivedPath)
    : list DerivedPath * list str :=
  match d with
  | Some p => (acc.1 ++ [p], acc.2 ++ [dp_url p])
  | None => acc
  end.

Definition derive_expected_paths (asset : PhotoAsset) (config : PathDerivationConfig)
    : list DerivedPath :=
  if negb (has_valid_id asset) then []
  else
    let ctx := build asset config in
    let primary := derive_primary asset config ctx in
    let acc := push_derived ([], []) primary in
    let acc := push_derived acc (derive_edited_extra asset config ctx acc.2) in
    let acc := push_derived acc (derive_alternative_extra asset config ctx acc.2) in
    let acc := push_derived acc (derive_live_edited_extra asset config ctx acc.2) in
    let primary_filename := dp_filename <$> primary in
    match derive_mov_companion asset config ctx primary_filename with
    | Some mov =>
        if existsb (λ seen, str_eqb seen (dp_url mov)) acc.2 then acc.1 else acc.1 ++ [mov]
    | None => acc.1
    end.

Record ExpectedAssetPath := {
  ep_path : path;
  ep_size : Z;
  ep_checksum : str;
  ep_url : str;
  ep_version_size : VersionSizeKey;
}.

Definition expected_paths_for (asset : PhotoAsset) (config : PathDerivationConfig)
    : list ExpectedAssetPath :=
  map (λ d, {| ep_path := dp_path d; ep_size := dp_size d; ep_checksum := dp_checksum d;
               ep_url := dp_url d; ep_version_size := dp_version_size d |})
      (derive_expected_paths asset config).

(** ** Malformed resources *)

Definition malformed_for_keys (asset : PhotoAsset) (keys : list AssetVersionSize)
    : option (str * str) :=
  head (omap (λ key,
      (λ r, (mr_field r, mr_reason r)) <$>
        findb (λ r, bool_decide (mr_version_size r = key)) (malformed_resources asset)) keys).

Definition primary_candidate_keys (config : PathDerivationConfig) : list AssetVersionSize :=
  match PhotoResolution_to_asset_version_size (resolution config) with
  | None => []
  | Some requested =>
      if negb (force_resolution config) && bool_decide (requested ≠ Original)
      then [requested; Original] else [requested]
  end.

Definition live_candidate_keys (config : PathDerivationConfig) : list AssetVersionSize :=
  if negb (force_resolution config) && bool_decide (live_resolution config ≠ LiveOriginal)
  then [live_resolution config; LiveOriginal] else [live_resolution config].

Definition malformed_no_task_resource (asset : PhotoAsset) (config : PathDerivationConfig)
    : option (str * str) :=
  match derive_expected_paths asset config with
  | _ :: _ => None
  | [] =>
      let from_primary :=
        if negb (skip_or_video_only (live_photo_mode config)) || negb (is_live_photo asset)
        then malformed_for_keys asset (primary_candidate_keys config) else None in
      match from_primary with
      | Some resource => Some resource
      | None =>
          if both_or_video_only (live_photo_mode config)
             && bool_decide (item_type asset = Some Image)
          then malformed_for_keys asset (live_candidate_keys config) else None
      end
  end.

(** The asset's date directory is listed before the synchronous lookups. *)
Definition pre_ensure_asset_dir (dir_cache : DirCache.t) (asset : PhotoAsset) (config : DownloadConfig)
    : DirCache.t :=
  DirCache.ensure_dir_async dir_cache
    (local_download_dir (directory config) (folder_structure config) (created_local asset)
       (album_name config)).

(** ** Collision resolution *)

Inductive CollisionStrategy :=
| SizeDedup (skip_zero_size : bool)
| SkipIfExists.

Inductive PathResolution :=
| Download (p : path)
| Skip (p : path).

Definition download_path (r : PathResolution) : option path :=
  match r with Download p => Some p | Skip _ => None end.
Definition effective_path (r : PathResolution) : path :=
  match r with Download p | Skip p => p end.

Inductive CollisionFilenameKind :=
| Default
| AssetIdentity
| AssetIdentityOrdinal (n : Z).

Definition size_or_identity_collision_filename (fname : str) (size : Z) (asset_id : str)
    (kind : CollisionFilenameKind) : str :=
  match kind with
  | Default => add_dedup_suffix fname size
  | AssetIdentity => insert_asset_identity_suffix fname asset_id
  | AssetIdentityOrdinal n => insert_asset_identity_ordinal_suffix fname asset_id n
  end.

Definition identity_collision_filename (fname asset_id : str) (kind : CollisionFilenameKind) : str :=
  match kind with
  | Default | AssetIdentity => insert_asset_identity_suffix fname asset_id
  | AssetIdentityOrdinal n => insert_asset_identity_ordinal_suffix fname asset_id n
  end.

(** The read-only part of [ResolveContext]; the directory cache is threaded. *)
Record ResolveContext := {
  rc_config : DownloadConfig;
  rc_created_local : DateTimeLocal;
  rc_claimed_paths : gmap str Z;
}.

Definition collision_path_for_filename (ctx : ResolveContext) (fname : str) : path :=
  local_download_path (directory (rc_config ctx)) (folder_structure (rc_config ctx))
    (rc_created_local ctx) fname (album_name (rc_config ctx)).

Definition available_collision_path (ctx : ResolveContext)
    (make_filename : CollisionFilenameKind → str) (kind : CollisionFilenameKind)
    (cache : DirCache.t) (tried : list str) : DirCache.t * list str * option path :=
  let fname := make_filename kind in
  let p := collision_path_for_filename ctx fname in
  let normalized := normalize p in
  if existsb (λ seen, str_eqb seen normalized) tried then (cache, tried, None)
  else
    let '(cache, on_disk) := DirCache.exists_ cache p in
    let unavailable := on_disk || bool_decide (is_Some (rc_claimed_paths ctx !! normalized)) in
    (cache, tried ++ [normalized], if unavailable then None else Some p).

(** The unbounded [loop] over ordinals: [None] when [fuel] iterations do
    not find a free path. *)
Fixpoint ordinal_loop (fuel : nat) (ctx : ResolveContext)
    (make_filename : CollisionFilenameKind → str) (ordinal : Z)
    (cache : DirCache.t) (tried : list str) : option (DirCache.t * path) :=
  match fuel with
  | O => None
  | S f =>
      let '(cache, tried, found) :=
        available_collision_path ctx make_filename (AssetIdentityOrdinal ordinal) cache tried in
      match found with
      | Some p => Some (cache, p)
      | None => ordinal_loop f ctx make_filename
                  (default 2 (checked_add U64_MAX ordinal 1)) cache tried
      end
  end.

Definition first_available_collision_path (fuel : nat) (ctx : ResolveContext)
    (preferred : CollisionFilenameKind) (make_filename : CollisionFilenameKind → str)
    (cache : DirCache.t) : option (DirCache.t * path) :=
  let '(cache, tried, found) := available_collision_path ctx make_filename preferred cache [] in
  match found with
  | Some p => Some (cache, p)
  | None =>
      let '(cache, tried, found) :=
        available_collision_path ctx make_filename AssetIdentity cache tried in
      match found with
      | Some p => Some (cache, p)
      | None => ordinal_loop fuel ctx make_filename 2 cache tried
      end
  end.

Definition resolve_download_path (fuel : nat) (dpath : path) (version_size : Z)
    (strategy : CollisionStrategy) (ctx : ResolveContext) (cache : DirCache.t)
    (check_ampm : bool) (make_collision_filename : CollisionFilenameKind → str)
    : option (DirCache.t * PathResolution) :=
  let '(cache, size) := DirCache.file_size cache dpath in
  let '(cache, on_disk_match) :=
    match size with
    | Some s => (cache, Some (s, dpath))
    | None =>
        if negb check_ampm then (cache, None)
        else
          let '(cache, variant) := DirCache.find_ampm_variant cache dpath in
          match variant with
          | None => (cache, None)
          | Some v => let '(cache, vs) := DirCache.file_size cache v in
                      (cache, Some (default 0 vs, v))
          end
    end in
  let existing_match :=
    match on_disk_match with
    | Some m => Some m
    | None => (λ s, (s, dpath)) <$> rc_claimed_paths ctx !! normalize dpath
    end in
  match existing_match with
  | None => Some (cache, Download dpath)
  | Some (existing_size, matched_path) =>
      match strategy with
      | SkipIfExists => Some (cache, Skip matched_path)
      | SizeDedup skip_zero_size =>
          let sizes_match := (negb skip_zero_size || (0 <? version_size))
                             && (existing_size =? version_size) in
          let preferred := if sizes_match then AssetIdentity else Default in
          '(cache, p) ← first_available_collision_path fuel ctx preferred
                          make_collision_filename cache;
          Some (cache, Download p)
      end
  end.

(** ** [filter_asset_to_tasks] *)

(** What a pass over one asset has accumulated. *)
Record FilterState := {
  fs_claimed : gmap str Z;
  fs_cache : DirCache.t;
  fs_seen_urls : list str;
  fs_tasks : list DownloadTask;
}.

Definition make_task (asset : PhotoAsset) (task_library : str) (payload : MetadataPayload)
    (created : DateTimeLocal) (d : DerivedPath) (p : path) : DownloadTask := {|
  dt_url := dp_url d;
  dt_download_path := p;
  dt_publication := NoReplace;
  dt_checksum := dp_checksum d;
  dt_asset_id := state_id asset;
  dt_asset_record_name := asset_record_name asset;
  dt_library := task_library;
  dt_metadata := payload;
  dt_size := dp_size d;
  dt_created_local := created;
  dt_version_size := dp_version_size d;
  dt_media_type := determine_media_type (dp_version_size d) asset;
|}.

(** Resolve one derived path; on [Download], claim it, remember its url and
    push its task.  Also returns the resolution. *)
Definition resolve_and_push (fuel : nat) (asset : PhotoAsset) (config : DownloadConfig)
    (ctx : DerivationContext) (task_library : str) (payload : MetadataPayload)
    (strategy : CollisionStrategy) (make_filename : CollisionFilenameKind → str)
    (d : DerivedPath) (s : FilterState) : option (FilterState * PathResolution) :=
  let rctx := {| rc_config := config; rc_created_local := ctx_created_local ctx;
                 rc_claimed_paths := fs_claimed s |} in
  '(cache, res) ← resolve_download_path fuel (dp_path d) (dp_size d) strategy rctx
                    (fs_cache s) (dp_check_ampm_on_disk d) make_filename;
  match res with
  | Download p =>
      Some ({| fs_claimed := <[normalize p := dp_size d]> (fs_claimed s);
               fs_cache := cache;
               fs_seen_urls := fs_seen_urls s ++ [dp_url d];
               fs_tasks := fs_tasks s ++
                 [make_task asset task_library payload (ctx_created_local ctx) d p] |}, res)
  | Skip _ =>
      Some ({| fs_claimed := fs_claimed s; fs_cache := cache;
               fs_seen_urls := fs_seen_urls s; fs_tasks := fs_tasks s |}, res)
  end.

Definition task_primary (fuel : nat) (asset : PhotoAsset) (config : DownloadConfig)
    (ctx : DerivationContext) (task_library : str) (payload : MetadataPayload)
    (s : FilterState) : option (FilterState * option str) :=
  match derive_primary asset config ctx with
  | None => Some (s, None)
  | Some d =>
      let strategy :=
        match file_match_policy config with
        | NameId7 => SkipIfExists
        | NameSizeDedupWithSuffix => SizeDedup true
        end in
      '(s, res) ← resolve_and_push fuel asset config ctx task_library payload strategy
                    (size_or_identity_collision_filename (dp_filename d) (dp_size d) (state_id asset)) d s;
      Some (s, file_name (effective_path res))
  end.

Definition task_extra (fuel : nat) (asset : PhotoAsset) (config : DownloadConfig)
    (ctx : DerivationContext) (task_library : str) (payload : MetadataPayload)
    (derive_extra : PhotoAsset → PathDerivationConfig → DerivationContext → list str → option DerivedPath)
    (s : FilterState) : option FilterState :=
  match derive_extra asset config ctx (fs_seen_urls s) with
  | None => Some s
  | Some d =>
      fst <$> resolve_and_push fuel asset config ctx task_library payload (SizeDedup true)
        (size_or_identity_collision_filename (dp_filename d) (dp_size d) (state_id asset)) d s
  end.

Definition task_mov (fuel : nat) (asset : PhotoAsset) (config : DownloadConfig)
    (ctx : DerivationContext) (task_library : str) (payload : MetadataPayload)
    (effective_primary_filename : option str) (s : FilterState) : option FilterState :=
  match derive_mov_companion asset config ctx effective_primary_filename with
  | None => Some s
  | Some d =>
      if existsb (λ seen, str_eqb seen (dp_url d)) (fs_seen_urls s) then Some s
      else fst <$> resolve_and_push fuel asset config ctx task_library payload (SizeDedup false)
             (identity_collision_filename (dp_filename d) (state_id asset)) d s
  end.

(** Returns the updated claimed paths and cache and the tasks; [None] when
    a collision loop runs out of [fuel]. *)
Definition filter_asset_to_tasks (fuel : nat) (asset : PhotoAsset) (config : DownloadConfig)
    (claimed_paths : gmap str Z) (dir_cache : DirCache.t)
    : option (gmap str Z * DirCache.t * list DownloadTask) :=
  if negb (has_valid_id asset) then Some (claimed_paths, dir_cache, [])
  else if bool_decide (filename asset = None)
          && existsb (λ p, matches_with p (raw_filename asset)) (filename_exclude config)
  then Some (claimed_paths, dir_cache, [])
  else
    let ctx := build asset config in
    let payload := build_payload asset config in
    let task_library := default (library config) (source_zone asset) in
    let s := {| fs_claimed := claimed_paths; fs_cache := dir_cache;
                fs_seen_urls := []; fs_tasks := [] |} in
    '(s, effective_primary_filename) ← task_primary fuel asset config ctx task_library payload s;
    s ← task_extra fuel asset config ctx task_library payload
          derive_edited_extra s;
    s ← task_extra fuel asset config ctx task_library payload derive_alternative_extra s;
    s ← task_extra fuel asset config ctx task_library payload derive_live_edited_extra s;
    s ← task_mov fuel asset config ctx task_library payload effective_primary_filename s;
    Some (fs_claimed s, fs_cache s, fs_tasks s).
End WithEnv.
