(* ===== verification/FilterSpec.v ===== *)
(** * What the asset filter decides

    The content filter as a conjunction of conditions, the RAW policy as a
    key swap, and the agreement between the early skip gate
    ([extract_skip_candidates]) and the paths actually derived. *)
From S2P Require Import Prelude RustStr Types Paths Filter.

Section Facts.
Context `{FilterEnv}.

(** ** The content filter *)

(** The media kinds the configuration keeps. *)
Definition media_selected (asset : PhotoAsset) (config : PathDerivationConfig) : Prop :=
  if is_live_photo asset
  then ms_live_photos (media config) = true ∧ live_photo_mode config ≠ LPSkip
  else match item_type asset with
       | Some Movie => ms_videos (media config) = true
       | Some Image => ms_photos (media config) = true
       | None => True
       end.

Definition within (bound : option CreatedDateFilter)
    (excludes : CreatedDateFilter → Z → Z → bool) (asset : PhotoAsset) : Prop :=
  ∀ f, bound = Some f → excludes f (created asset) (date_naive (created_local asset)) = false.

Lemma live_photo_is_image asset : is_live_photo asset = true → item_type asset = Some Image.
Proof. unfold is_live_photo. intros [?%bool_decide_eq_true _]%andb_true_iff. done. Qed.

Lemma within_match bound excludes asset :
  match bound with
  | Some f => excludes f (created asset) (date_naive (created_local asset))
  | None => false end = false ↔ within bound excludes asset.
Proof. unfold within. destruct bound; naive_solver. Qed.

(** ** The RAW policy *)

Lemma orig_alt_indices_spec idx vs acc :
  let r := orig_alt_indices idx vs acc in
  (fst r = fst acc ∨ ∃ i v, fst r = Some (idx + i)%nat ∧ vs !! i = Some (Original, v)) ∧
  (snd r = snd acc ∨ ∃ i v, snd r = Some (idx + i)%nat ∧ vs !! i = Some (Alternative, v)).
Proof.
  cbn. revert idx acc. induction vs as [|[k v] vs IH]; intros idx acc; cbn; [by split; left|].
  destruct (IH (S idx) match k with Original => (Some idx, snd acc)
              | Alternative => (fst acc, Some idx) | _ => acc end) as [H1 H2].
  split; [destruct H1 as [H1|(i & w & H1 & Hi)]|destruct H2 as [H2|(i & w & H2 & Hi)]].
  - rewrite H1. destruct k; cbn; try by left. right. exists 0%nat, v. by rewrite Nat.add_0_r.
  - right. exists (S i), w. rewrite H1. split; [f_equal; lia|done].
  - rewrite H2. destruct k; cbn; try by left. right. exists 0%nat, v. by rewrite Nat.add_0_r.
  - right. exists (S i), w. rewrite H2. split; [f_equal; lia|done].
Qed.

Lemma orig_alt_indices_alternative idx vs acc i v :
  vs !! i = Some (Alternative, v) → ∃ j, snd (orig_alt_indices idx vs acc) = Some j.
Proof.
  revert idx acc i. induction vs as [|[k w] vs IH]; intros idx acc i Hi; [done|].
  destruct i as [|i]; [|by apply (IH _ _ i)].
  injection Hi as -> ->. cbn.
  pose proof (orig_alt_indices_spec (S idx) vs (fst acc, Some idx)) as [_ [->|(j & u & -> & _)]];
    eauto.
Qed.

Lemma orig_alt_indices_original idx vs acc i v :
  vs !! i = Some (Original, v) → ∃ j, fst (orig_alt_indices idx vs acc) = Some j.
Proof.
  revert idx acc i. induction vs as [|[k w] vs IH]; intros idx acc i Hi; [done|].
  destruct i as [|i]; [|by apply (IH _ _ i)].
  injection Hi as -> ->. cbn.
  pose proof (orig_alt_indices_spec (S idx) vs (Some idx, snd acc)) as [[->|(j & u & -> & _)] _];
    eauto.
Qed.

Lemma view_get_unswapped vs key :
  view_get {| vv_versions := vs; vv_swap := None |} key
  = snd <$> findb (λ kv, bool_decide (kv.1 = key)) vs.
Proof.
  unfold view_get, view_iter. cbn. f_equal. f_equal.
  apply list_eq. intros i. rewrite list_lookup_imap.
  by destruct (vs !! i) as [[k v]|].
Qed.

Lemma findb_unique {A B} `{EqDecision A} (l : list (A * B)) i k v :
  NoDup l.*1 → l !! i = Some (k, v) → findb (λ kv, bool_decide (kv.1 = k)) l = Some (k, v).
Proof.
  revert i. induction l as [|[k' v'] l IH]; intros i Hnd Hi; [done|].
  apply NoDup_cons in Hnd as [Hni Hnd]. cbn.
  destruct i as [|i]; [injection Hi as -> ->; by rewrite bool_decide_eq_true_2|].
  rewrite bool_decide_eq_false_2; [by apply (IH i)|]. intros ->. apply Hni.
  apply list_elem_of_fmap. exists (k, v). split; [done|]. by eapply list_elem_of_lookup_2.
Qed.

Lemma findb_absent {A B} `{EqDecision A} (l : list (A * B)) k :
  k ∉ l.*1 → findb (λ kv, bool_decide (kv.1 = k)) l = None.
Proof.
  induction l as [|[k' v'] l IH]; [done|]. cbn. intros [Hne Hni]%not_elem_of_cons.
  rewrite bool_decide_eq_false_2 by congruence. by apply IH.
Qed.

(** With unique keys, the swapped view exchanges Original and Alternative. *)
Definition swap_key (k : AssetVersionSize) : AssetVersionSize :=
  match k with Original => Alternative | Alternative => Original | _ => k end.

Lemma view_iter_swapped vs o a vo va :
  NoDup vs.*1 → vs !! o = Some (Original, vo) → vs !! a = Some (Alternative, va) →
  view_iter {| vv_versions := vs; vv_swap := Some (o, a) |}
  = map (λ kv, (swap_key kv.1, kv.2)) vs.
Proof.
  intros Hnd Ho Ha. apply list_eq. intros i. unfold view_iter. cbn.
  rewrite list_lookup_imap, list_lookup_fmap.
  destruct (vs !! i) as [[k v]|] eqn:Hi; [|done]. cbn. do 2 f_equal.
  assert (∀ j k', vs.*1 !! j = Some k' → vs.*1 !! i = Some k' → i = j) as Hu.
  { intros. by eapply NoDup_lookup. }
  assert (vs.*1 !! i = Some k) as Hk by (by rewrite list_lookup_fmap, Hi).
  assert (vs.*1 !! o = Some Original) as Ho' by (by rewrite list_lookup_fmap, Ho).
  assert (vs.*1 !! a = Some Alternative) as Ha' by (by rewrite list_lookup_fmap, Ha).
  destruct (Nat.eqb_spec i o) as [->|Hio]; [by simplify_eq|].
  destruct (Nat.eqb_spec i a) as [->|Hia]; [by simplify_eq|].
  destruct k; try done; [by destruct Hio; eapply Hu|by destruct Hia; eapply Hu].
Qed.

Lemma swap_key_inj : Inj (=) (=) swap_key.
Proof. by intros [] []. Qed.

Lemma findb_map_swap vs key :
  findb (λ kv, bool_decide (kv.1 = key))
    (map (λ kv : AssetVersionSize * AssetVersion, (swap_key kv.1, kv.2)) vs)
  = (λ kv, (swap_key kv.1, kv.2)) <$> findb (λ kv, bool_decide (kv.1 = swap_key key)) vs.
Proof.
  induction vs as [|[k v] vs IH]; [done|]. cbn.
  rewrite (bool_decide_ext (swap_key k = key) (k = swap_key key)).
  - case_bool_decide; [done|apply IH].
  - split; [intros <-|intros ->]; [by destruct k|by destruct key].
Qed.

(** ** Skip candidates and derived paths *)

Lemma url_seen_boxed v urls :
  url_seen v urls = existsb (λ seen, str_eqb seen (av_url v)) urls.
Proof. done. Qed.

(** A derivation agrees with a selection: same version key and checksum,
    same url. *)
Definition agrees (d : option DerivedPath) (sel : option (AssetVersion * AssetVersionSize)) : Prop :=
  match d, sel with
  | Some d, Some (v, k) => dp_version_size d = VersionSizeKey_from k
      ∧ dp_checksum d = av_checksum v ∧ dp_url d = av_url v
  | None, None => True
  | _, _ => False
  end.

Lemma agrees_primary a c ctx : agrees (derive_primary a c ctx) (select_primary a c ctx).
Proof. unfold derive_primary. by destruct (select_primary a c ctx) as [[v k]|]. Qed.

Lemma agrees_edited a c ctx urls :
  agrees (derive_edited_extra a c ctx urls) (select_edited_extra c ctx urls).
Proof.
  unfold derive_edited_extra, select_edited_extra. destruct (negb (edited c)); [done|].
  destruct (get_version ctx Adjusted) as [v|]; cbn; [|done]. by destruct (url_seen v urls).
Qed.

Lemma agrees_alternative a c ctx urls :
  agrees (derive_alternative_extra a c ctx urls) (select_alternative_extra a c ctx urls).
Proof.
  unfold derive_alternative_extra, select_alternative_extra. case_match; [done|].
  destruct (get_version ctx Alternative) as [v|]; cbn; [|done]. by destruct (url_seen v urls).
Qed.

Lemma agrees_live_edited a c ctx urls :
  agrees (derive_live_edited_extra a c ctx urls) (select_live_edited_extra a c ctx urls).
Proof.
  unfold derive_live_edited_extra, select_live_edited_extra. case_match; [done|].
  destruct (get_version ctx LiveAdjusted) as [v|]; cbn; [|done]. by destruct (url_seen v urls).
Qed.

Lemma agrees_mov a c ctx f :
  agrees (derive_mov_companion a c ctx f) (select_mov_companion a c ctx []).
Proof. unfold derive_mov_companion. by destruct (select_mov_companion a c ctx []) as [[v k]|]. Qed.

(** The gate looks at the urls first, the derivation last. *)
Lemma select_mov_seen a c ctx urls :
  select_mov_companion a c ctx urls
  = sel ← select_mov_companion a c ctx []; if url_seen sel.1 urls then None else Some sel.
Proof. unfold select_mov_companion. do 2 (case_match; [done|]). by destruct (version_with_fallback _ _ _ _). Qed.

Definition key_checksum (d : DerivedPath) : VersionSizeKey * str := (dp_version_size d, dp_checksum d).

(** The two accumulators stay in step. *)
Definition in_step (acc : list DerivedPath * list str)
    (acc' : list (VersionSizeKey * str) * list str) : Prop :=
  map key_checksum acc.1 = acc'.1 ∧ acc.2 = acc'.2 ∧ map dp_url acc.1 = acc.2.

Lemma in_step_push acc acc' d sel :
  in_step acc acc' → agrees d sel → in_step (push_derived acc d) (push_candidate acc' sel).
Proof.
  intros (H1 & H2 & H3) Ha. destruct d as [d|], sel as [[v k]|]; try done.
  destruct Ha as (Hk & Hc & Hu). unfold in_step. cbn. rewrite !map_app. split_and!.
  - rewrite H1. cbn. unfold key_checksum. by rewrite Hk, Hc.
  - by rewrite H2, Hu.
  - by rewrite H3.
Qed.

(** Each accepted url is new. *)
Definition fresh_in (d : option DerivedPath) (urls : list str) : Prop :=
  match d with Some d => dp_url d ∉ urls | None => True end.

Lemma existsb_str_eqb_false u urls :
  existsb (λ seen, str_eqb seen u) urls = false ↔ u ∉ urls.
Proof.
  induction urls as [|x urls IH]; cbn; [set_solver|].
  rewrite orb_false_iff, str_eqb_neq, IH, not_elem_of_cons. naive_solver.
Qed.

Lemma push_derived_nodup acc d :
  NoDup (map dp_url acc.1) → acc.2 = map dp_url acc.1 → fresh_in d acc.2 →
  NoDup (map dp_url (push_derived acc d).1)
  ∧ (push_derived acc d).2 = map dp_url (push_derived acc d).1.
Proof.
  intros Hnd He Hf. destruct d as [d|]; [|done]. cbn. rewrite map_app, <- He.
  split; [|done]. rewrite He in *. apply NoDup_app. cbn.
  split_and!; [done| |by apply NoDup_singleton].
  intros x Hx ->%list_elem_of_singleton. done.
Qed.

Lemma fresh_edited a c ctx urls : fresh_in (derive_edited_extra a c ctx urls) urls.
Proof.
  unfold derive_edited_extra. case_match; [done|].
  destruct (get_version ctx Adjusted) as [v|]; cbn; [|done].
  destruct (url_seen v urls) eqn:E; [done|]. by apply existsb_str_eqb_false in E.
Qed.

Lemma fresh_alternative a c ctx urls : fresh_in (derive_alternative_extra a c ctx urls) urls.
Proof.
  unfold derive_alternative_extra. case_match; [done|].
  destruct (get_version ctx Alternative) as [v|]; cbn; [|done].
  destruct (url_seen v urls) eqn:E; [done|]. by apply existsb_str_eqb_false in E.
Qed.

Lemma fresh_live_edited a c ctx urls : fresh_in (derive_live_edited_extra a c ctx urls) urls.
Proof.
  unfold derive_live_edited_extra. case_match; [done|].
  destruct (get_version ctx LiveAdjusted) as [v|]; cbn; [|done].
  destruct (url_seen v urls) eqn:E; [done|]. by apply existsb_str_eqb_false in E.
Qed.
End Facts.

(** ** Properties *)

(** an asset passes the content filter exactly when it has a record name,
    is in no excluded album, its media kind is selected, its capture time
    lies within both date bounds and no exclusion pattern matches its name. *)
Theorem is_asset_filtered_passes `{FilterEnv} asset config :
  is_asset_filtered asset config = None ↔
  record_name asset ≠ []
  ∧ asset_record_name asset ∉ exclude_asset_ids config
  ∧ record_name asset ∉ exclude_asset_ids config
  ∧ media_selected asset config
  ∧ within (skip_created_before config) excludes_before asset
  ∧ within (skip_created_after config) excludes_after asset
  ∧ (∀ f, filename asset = Some f → ∀ p, p ∈ filename_exclude config → matches_with p f = false).
Proof.
  unfold is_asset_filtered, has_valid_id. rewrite negb_involutive.
  destruct (str_eqb (record_name asset) []) eqn:E1.
  { apply str_eqb_eq in E1. split; [done|]. by intros [? _]. }
  apply str_eqb_neq in E1.
  destruct (bool_decide (asset_record_name asset ∈ _)) eqn:E2; cbn [orb].
  { apply bool_decide_eq_true in E2. split; [done|]. by intros (_ & ? & _). }
  destruct (bool_decide (record_name asset ∈ _)) eqn:E3.
  { apply bool_decide_eq_true in E3. split; [done|]. by intros (_ & _ & ? & _). }
  apply bool_decide_eq_false in E2, E3.
  rewrite <- !within_match.
  assert (match filename asset with
          | Some f => existsb (λ p, matches_with p f) (filename_exclude config)
          | None => false end = false ↔
          (∀ f, filename asset = Some f → ∀ p, p ∈ filename_exclude config →
             matches_with p f = false)) as <-.
  { destruct (filename asset) as [f|]; [|naive_solver].
    rewrite <- not_true_iff_false, existsb_exists. setoid_rewrite <- list_elem_of_In.
    setoid_rewrite <- not_true_iff_false. naive_solver. }
  unfold media_selected. pose proof (live_photo_is_image asset) as Hlp.
  destruct (is_live_photo asset); [rewrite (Hlp eq_refl)|]; cbn [andb negb];
    rewrite ?andb_true_r, ?andb_false_r.
  - destruct (ms_live_photos (media config)); cbn [negb]; [|naive_solver].
    case_bool_decide; [naive_solver|].
    repeat case_match; naive_solver.
  - destruct (item_type asset) as [[]|]; cbn;
      destruct (ms_videos (media config)), (ms_photos (media config)); cbn;
      repeat case_match; naive_solver.
Qed.

(** C25: the early skip gate and the path derivation select the same
    versions: [extract_skip_candidates] lists exactly the (version,
    checksum) pairs of the files [derive_expected_paths] would write. *)
Theorem skip_candidates_match_derivation `{FilterEnv} asset config :
  extract_skip_candidates asset config = map key_checksum (derive_expected_paths asset config).
Proof.
  unfold extract_skip_candidates, derive_expected_paths. case_match; [done|].
  set (ctx := build asset config).
  assert (in_step ([], []) ([], [])) as Hs0 by done.
  pose proof (in_step_push _ _ _ _ Hs0 (agrees_primary asset config ctx)) as H1'.
  set (a1 := push_derived _ (derive_primary _ _ _)) in *.
  set (b1 := push_candidate _ (select_primary _ _ _)) in *.
  pose proof (in_step_push _ _ _ _ H1' (agrees_edited asset config ctx a1.2)) as H2.
  replace (select_edited_extra config ctx a1.2) with (select_edited_extra config ctx b1.2) in H2
    by (by rewrite (proj1 (proj2 H1'))).
  set (a2 := push_derived a1 _) in *. set (b2 := push_candidate b1 _) in *.
  pose proof (in_step_push _ _ _ _ H2 (agrees_alternative asset config ctx a2.2)) as H3.
  replace (select_alternative_extra asset config ctx a2.2)
    with (select_alternative_extra asset config ctx b2.2) in H3 by (by rewrite (proj1 (proj2 H2))).
  set (a3 := push_derived a2 _) in *. set (b3 := push_candidate b2 _) in *.
  pose proof (in_step_push _ _ _ _ H3 (agrees_live_edited asset config ctx a3.2)) as H4.
  replace (select_live_edited_extra asset config ctx a3.2)
    with (select_live_edited_extra asset config ctx b3.2) in H4 by (by rewrite (proj1 (proj2 H3))).
  set (a4 := push_derived a3 _) in *. set (b4 := push_candidate b3 _) in *.
  destruct H4 as (Hm & Hu & _). rewrite <- Hu, select_mov_seen.
  pose proof (agrees_mov asset config ctx (dp_filename <$> derive_primary asset config ctx)) as Ha.
  destruct (derive_mov_companion _ _ _ _) as [mov|], (select_mov_companion _ _ _ []) as [[v k]|];
    try done; cbn [mbind option_bind fst].
  destruct Ha as (Hk & Hc & Hurl). rewrite url_seen_boxed, <- Hurl.
  destruct (existsb _ a4.2); [by rewrite Hm|]. cbn. rewrite map_app, Hm. cbn.
  unfold key_checksum. by rewrite Hk, Hc.
Qed.

(** one asset never yields two files fetched from the same url. *)
Theorem derived_urls_distinct `{FilterEnv} asset config :
  NoDup (map dp_url (derive_expected_paths asset config)).
Proof.
  unfold derive_expected_paths. case_match; [constructor|].
  set (ctx := build asset config).
  destruct (push_derived_nodup ([], []) (derive_primary asset config ctx)) as [N1 E1];
    [constructor|done|by destruct (derive_primary _ _ _); cbn; [apply not_elem_of_nil|]|].
  set (a1 := push_derived _ (derive_primary _ _ _)) in *.
  destruct (push_derived_nodup a1 _ N1 E1 (fresh_edited asset config ctx a1.2)) as [N2 E2].
  set (a2 := push_derived a1 _) in *.
  destruct (push_derived_nodup a2 _ N2 E2 (fresh_alternative asset config ctx a2.2)) as [N3 E3].
  set (a3 := push_derived a2 _) in *.
  destruct (push_derived_nodup a3 _ N3 E3 (fresh_live_edited asset config ctx a3.2)) as [N4 E4].
  set (a4 := push_derived a3 _) in *.
  destruct (derive_mov_companion _ _ _ _) as [mov|]; [|done].
  destruct (existsb _ a4.2) eqn:E; [done|]. apply existsb_str_eqb_false in E.
  by destruct (push_derived_nodup a4 (Some mov) N4 E4 E).
Qed.

(** on a version list with unique keys, the RAW policy presents Original
    and Alternative exchanged when an Original exists and the policy asks for
    it (a RAW alternative under prefer-raw, a RAW original under prefer-jpeg),
    and presents the list unchanged otherwise; nothing is lost or invented. *)
Theorem apply_raw_policy_spec `{FilterEnv} vs policy key :
  NoDup vs.*1 →
  let lookup k := snd <$> findb (λ kv, bool_decide (kv.1 = k)) vs in
  let is_raw k := match lookup k with
                  | Some v => contains (lit "raw") (av_asset_type v) | None => false end in
  let swaps := bool_decide (is_Some (lookup Original)) && bool_decide (is_Some (lookup Alternative))
    && match policy with AsIs => false | PreferRaw => is_raw Alternative
                       | PreferJpeg => is_raw Original end in
  view_get (apply_raw_policy vs policy) key = lookup (if swaps then swap_key key else key).
Proof.
  intros Hnd lookup is_raw swaps. unfold apply_raw_policy.
  case_bool_decide as Hp; [subst; unfold swaps; rewrite andb_false_r; by rewrite view_get_unswapped|].
  pose proof (orig_alt_indices_spec 0 vs (None, None)) as [Ho Ha]. cbn in Ho, Ha.
  assert (∀ k, k ∈ vs.*1 → ∃ i v, vs !! i = Some (k, v) ∧ lookup k = Some v) as Hin.
  { intros k ([k' v] & -> & [i Hi]%list_elem_of_lookup)%list_elem_of_fmap. exists i, v.
    split; [done|]. unfold lookup. by rewrite (findb_unique vs i k' v). }
  destruct (orig_alt_indices 0 vs (None, None)) as [orig_idx alt_idx] eqn:Eoa; cbn in Ho, Ha.
  assert (alt_idx = None → lookup Alternative = None) as HaN.
  { intros ->. unfold lookup. rewrite findb_absent; [done|].
    intros (i & v & Hi & _)%Hin. destruct (orig_alt_indices_alternative 0 vs (None, None) _ _ Hi) as [j Hj].
    by rewrite Eoa in Hj. }
  destruct alt_idx as [a|]; [|unfold swaps; rewrite HaN by done; rewrite andb_false_r;
    by rewrite view_get_unswapped].
  destruct Ha as [?|(a' & va & [= ->] & Hva)]; [done|].
  assert (lookup Alternative = Some va) as HlA by (by unfold lookup; rewrite (findb_unique vs a' _ va)).
  assert (is_raw_at vs a' = is_raw Alternative) as ->.
  { unfold is_raw_at, is_raw. by rewrite Hva, HlA. }
  destruct orig_idx as [o|].
  - destruct Ho as [?|(o' & vo & [= ->] & Hvo)]; [done|].
    assert (lookup Original = Some vo) as HlO by (by unfold lookup; rewrite (findb_unique vs o' _ vo)).
    assert (is_raw_at vs o' = is_raw Original) as ->.
    { unfold is_raw_at, is_raw. by rewrite Hvo, HlO. }
    replace swaps with match policy with PreferRaw => is_raw Alternative
              | PreferJpeg => is_raw Original | AsIs => false end.
    2:{ unfold swaps. rewrite HlO, HlA. by destruct policy. }
    destruct (match policy with PreferRaw => _ | _ => _ end); [|by rewrite view_get_unswapped].
    unfold view_get. rewrite (view_iter_swapped vs o' a' vo va), findb_map_swap by done.
    unfold lookup. by destruct (findb _ vs).
  - assert (lookup Original = None) as HlO.
    { unfold lookup. rewrite findb_absent; [done|]. intros (i & v & Hi & _)%Hin.
      destruct (orig_alt_indices_original 0 vs (None, None) _ _ Hi) as [j Hj].
      by rewrite Eoa in Hj. }
    unfold swaps. rewrite HlO. cbn.
    by destruct policy, (is_raw Alternative); try rewrite view_get_unswapped.
Qed.

Definition sample_filter_env : FilterEnv := {|
  filter_path_env := sample_env;
  Pattern := str;
  matches_with := λ p f, str_eqb p f;
  date_naive := λ _, 0;
  capture_local := λ _ _, tt;
  json_string_array := λ _, None;
|}.

Definition sample_version (ty url : string) (size : Z) : AssetVersion :=
  {| av_size := size; av_url := lit url; av_asset_type := lit ty; av_checksum := lit url |}.

Lemma apply_raw_policy_spec_witness :
  let vs := [(Original, sample_version "public.jpeg" "u1" 10);
             (Alternative, sample_version "com.adobe.raw-image" "u2" 20)] in
  view_get (apply_raw_policy vs PreferRaw) Original
  = snd <$> findb (λ kv, bool_decide (kv.1 = Alternative)) vs.
Proof.
  intros vs. refine (@apply_raw_policy_spec sample_filter_env vs PreferRaw Original _).
  apply (bool_decide_unpack _). vm_compute. exact I.
Defined.
