(* ===== verification/Collision.v ===== *)
(** * Collision resolution: safety and termination

    A path handed to a download is free: not on disk and not claimed by an
    earlier task.  The search for a free name ends when the suffixed names
    fit in a file name, and never ends when cleaning cuts the suffix off. *)
From S2P Require Import Prelude RustStr Types Paths Filter FilterSpec.

Section Facts.
Context `{FilterEnv}.

(** [p] is neither on disk (as the cache knows it) nor claimed. *)
Definition free (claimed : gmap str Z) (cache : DirCache.t) (p : path) : Prop :=
  (DirCache.file_size cache p).2 = None ∧ claimed !! normalize p = None.

Lemma free_after_size claimed cache p :
  (DirCache.file_size cache p).2 = None → claimed !! normalize p = None →
  free claimed (DirCache.file_size cache p).1 p.
Proof. intros Hs Hc. split; [|done]. by rewrite DirCacheFacts.file_size_repeat. Qed.

(** Listings, once cached, are kept: a free path stays free. *)
Definition extends (c c' : DirCache.t) : Prop :=
  ∀ k e, DirCache.dirs c !! k = Some e → DirCache.dirs c' !! k = Some e.

Lemma extends_refl c : extends c c.
Proof. by intros k e. Qed.
Lemma extends_trans c1 c2 c3 : extends c1 c2 → extends c2 c3 → extends c1 c3.
Proof. unfold extends. eauto. Qed.
Lemma extends_size c p : extends c (DirCache.file_size c p).1.
Proof. intros k e. apply DirCacheFacts.file_size_stable. Qed.

Lemma extends_ampm c p : extends c (DirCache.find_ampm_variant c p).1.
Proof.
  intros k e Hk. unfold DirCache.find_ampm_variant.
  destruct (file_name p); [|done]. case_match; [done|].
  destruct (parent p) as [d|]; [|done].
  pose proof (DirCacheFacts.ensure_dir_stable c d k e Hk). by destruct (DirCache.ensure_dir c d).
Qed.

(** The answer for [p] is fixed once its directory is cached. *)
Lemma file_size_extends c c' p :
  extends (DirCache.file_size c p).1 c' →
  (DirCache.file_size c' p).2 = (DirCache.file_size c p).2.
Proof.
  unfold DirCache.file_size. destruct (file_name p) as [f|], (parent p) as [d|]; try done.
  intros Hext. pose proof (DirCacheFacts.ensure_dir_entries c d) as Hd.
  destruct (DirCache.ensure_dir c d) as [c1 es]; cbn in *. apply Hext in Hd.
  unfold DirCache.ensure_dir. by rewrite Hd.
Qed.

Lemma available_collision_path_free ctx mk kind cache tried cache' tried' p :
  available_collision_path ctx mk kind cache tried = (cache', tried', Some p) →
  p = collision_path_for_filename ctx (mk kind) ∧ free (rc_claimed_paths ctx) cache' p.
Proof.
  unfold available_collision_path. case_match; [done|].
  rewrite DirCacheFacts.exists_file_size.
  set (q := collision_path_for_filename ctx (mk kind)).
  destruct (bool_decide (is_Some (DirCache.file_size cache q).2)) eqn:E1; [done|].
  destruct (bool_decide (is_Some (_ !! normalize q))) eqn:E2; [done|]. cbn [orb].
  intros [= <- _ <-]. split; [done|].
  apply bool_decide_eq_false in E1, E2. rewrite <- eq_None_not_Some in E1, E2.
  by apply free_after_size.
Qed.

Lemma ordinal_loop_free fuel ctx mk ordinal cache tried cache' p :
  ordinal_loop fuel ctx mk ordinal cache tried = Some (cache', p) →
  free (rc_claimed_paths ctx) cache' p.
Proof.
  revert ordinal cache tried. induction fuel as [|f IH]; intros ordinal cache tried; cbn; [done|].
  destruct (available_collision_path _ _ _ _ _) as [[c1 t1] [q|]] eqn:E; [|apply IH].
  intros [= <- <-]. by apply available_collision_path_free in E as [_ ?].
Qed.

Lemma first_available_free fuel ctx k mk cache cache' p :
  first_available_collision_path fuel ctx k mk cache = Some (cache', p) →
  free (rc_claimed_paths ctx) cache' p.
Proof.
  unfold first_available_collision_path.
  destruct (available_collision_path _ _ k _ _) as [[c1 t1] [q|]] eqn:E1.
  { intros [= <- <-]. by apply available_collision_path_free in E1 as [_ ?]. }
  destruct (available_collision_path _ _ AssetIdentity _ _) as [[c2 t2] [q|]] eqn:E2.
  { intros [= <- <-]. by apply available_collision_path_free in E2 as [_ ?]. }
  apply ordinal_loop_free.
Qed.

Lemma resolve_download_path_free fuel dpath size strategy ctx cache ampm mk cache' p :
  resolve_download_path fuel dpath size strategy ctx cache ampm mk = Some (cache', Download p) →
  free (rc_claimed_paths ctx) cache' p.
Proof.
  unfold resolve_download_path.
  pose proof (extends_size cache dpath) as Hext1.
  destruct (DirCache.file_size cache dpath) as [c1 osize] eqn:E1.
  set (blk := match osize with Some _ => _ | None => _ end).
  destruct blk as [c2 odm] eqn:Eb.
  assert (odm = None → osize = None ∧ extends c1 c2) as Hodm.
  { intros ->. subst blk. destruct osize as [s|]; [done|]. destruct ampm; cbn in Eb.
    - pose proof (extends_ampm c1 dpath) as Hx.
      destruct (DirCache.find_ampm_variant c1 dpath) as [c3 [v|]]; cbn in *.
      + by destruct (DirCache.file_size c3 v).
      + by injection Eb as <-.
    - injection Eb as <-. split; [done|apply extends_refl]. }
  clear blk Eb. destruct odm as [[es ep]|]; cbn.
  { destruct strategy as [z|]; [|done].
    destruct (first_available_collision_path _ _ _ _ _) as [[c3 q]|] eqn:Ef; [|done].
    cbn. intros [= <- <-]. by eapply first_available_free. }
  destruct (Hodm eq_refl) as [-> Hext2].
  destruct (rc_claimed_paths ctx !! normalize dpath) as [s|] eqn:Ec; cbn.
  { destruct strategy as [z|]; [|done].
    destruct (first_available_collision_path _ _ _ _ _) as [[c3 q]|] eqn:Ef; [|done].
    cbn. intros [= <- <-]. by eapply first_available_free. }
  intros [= <- <-]. split; [|done].
  rewrite (file_size_extends cache); rewrite E1; done.
Qed.

(** ** The tasks of one asset *)

Definition paths (s : FilterState) : list str := map (λ t, normalize (dt_download_path t)) (fs_tasks s).

(** Relative to the claims at entry: tasks have distinct paths that were
    unclaimed, every claim is kept, and each task's claim records its size. *)
Record state_ok (claimed0 : gmap str Z) (s : FilterState) : Prop := {
  so_nodup : NoDup (paths s);
  so_fresh : ∀ t, t ∈ fs_tasks s → claimed0 !! normalize (dt_download_path t) = None;
  so_claimed : ∀ t, t ∈ fs_tasks s →
    fs_claimed s !! normalize (dt_download_path t) = Some (dt_size t);
  so_kept : ∀ k v, claimed0 !! k = Some v → fs_claimed s !! k = Some v;
  so_noreplace : ∀ t, t ∈ fs_tasks s → dt_publication t = NoReplace;
}.

Lemma resolve_and_push_ok claimed0 fuel asset config ctx lib payload strategy mk d s s' res :
  state_ok claimed0 s →
  resolve_and_push fuel asset config ctx lib payload strategy mk d s = Some (s', res) →
  state_ok claimed0 s'.
Proof.
  intros [Hnd Hfresh Hcl Hkept Hnr]. unfold resolve_and_push.
  destruct (resolve_download_path _ _ _ _ _ _ _ _) as [[c r]|] eqn:E; [|done]. cbn.
  destruct r as [p|p]; [|intros [= <- _]; by split].
  apply resolve_download_path_free in E as [_ Hun]. cbn in Hun.
  assert (∀ t, t ∈ fs_tasks s → normalize (dt_download_path t) ≠ normalize p) as Hne.
  { intros t Ht Heq. apply Hcl in Ht. rewrite Heq in Ht. congruence. }
  intros [= <- _]. split; unfold paths; cbn.
  - rewrite map_app. apply NoDup_app. split_and!; [done| |by apply NoDup_singleton].
    intros x (t & -> & Ht)%list_elem_of_fmap Hx%list_elem_of_singleton. by apply (Hne t).
  - intros t [Ht| ->%list_elem_of_singleton]%elem_of_app; [by apply Hfresh|]. cbn.
    destruct (claimed0 !! normalize p) eqn:E0; [|done]. apply Hkept in E0. congruence.
  - intros t [Ht| ->%list_elem_of_singleton]%elem_of_app; cbn.
    + rewrite lookup_insert_ne; [by apply Hcl|]. intros Heq. by apply (Hne t).
    + by rewrite lookup_insert_eq.
  - intros k v Hk. apply Hkept in Hk. rewrite lookup_insert_ne; [done|congruence].
  - intros t [Ht| ->%list_elem_of_singleton]%elem_of_app; [by apply Hnr|done].
Qed.

Lemma task_primary_ok claimed0 fuel asset config ctx lib payload s s' f :
  state_ok claimed0 s →
  task_primary fuel asset config ctx lib payload s = Some (s', f) → state_ok claimed0 s'.
Proof.
  intros Hok. unfold task_primary. destruct (derive_primary _ _ _) as [d|]; [|by intros [= <- _]].
  destruct (resolve_and_push _ _ _ _ _ _ _ _ _ _) as [[s1 r]|] eqn:E; [|done].
  intros [= <- _]. by eapply resolve_and_push_ok.
Qed.

Lemma task_extra_ok claimed0 fuel asset config ctx lib payload dx s s' :
  state_ok claimed0 s →
  task_extra fuel asset config ctx lib payload dx s = Some s' → state_ok claimed0 s'.
Proof.
  intros Hok. unfold task_extra. destruct (dx _ _ _ _) as [d|]; [|by intros [= <-]].
  destruct (resolve_and_push _ _ _ _ _ _ _ _ _ _) as [[s1 r]|] eqn:E; [|done].
  intros [= <-]. by eapply resolve_and_push_ok.
Qed.

Lemma task_mov_ok claimed0 fuel asset config ctx lib payload f s s' :
  state_ok claimed0 s →
  task_mov fuel asset config ctx lib payload f s = Some s' → state_ok claimed0 s'.
Proof.
  intros Hok. unfold task_mov. destruct (derive_mov_companion _ _ _ _) as [d|]; [|by intros [= <-]].
  case_match; [by intros [= <-]|].
  destruct (resolve_and_push _ _ _ _ _ _ _ _ _ _) as [[s1 r]|] eqn:E; [|done].
  intros [= <-]. by eapply resolve_and_push_ok.
Qed.

Lemma state_ok_empty claimed cache :
  state_ok claimed {| fs_claimed := claimed; fs_cache := cache; fs_seen_urls := []; fs_tasks := [] |}.
Proof. split; cbn; try done; [constructor|set_solver..]. Qed.

Lemma filter_asset_to_tasks_ok fuel asset config claimed cache claimed' cache' tasks :
  filter_asset_to_tasks fuel asset config claimed cache = Some (claimed', cache', tasks) →
  ∃ urls, state_ok claimed {| fs_claimed := claimed'; fs_cache := cache';
                       fs_seen_urls := urls; fs_tasks := tasks |}.
Proof.
  unfold filter_asset_to_tasks. pose proof (state_ok_empty claimed cache) as H0'.
  case_match; [intros [= <- <- <-]; by exists []|].
  case_match; [intros [= <- <- <-]; by exists []|].
  destruct (task_primary _ _ _ _ _ _ _) as [[s1 f]|] eqn:E1; [|done].
  cbn [mbind option_bind]. apply task_primary_ok with (claimed0 := claimed) in E1; [|done].
  destruct (task_extra _ _ _ _ _ _ _ s1) as [s2|] eqn:E2; [|done].
  cbn [mbind option_bind]. apply task_extra_ok with (claimed0 := claimed) in E2; [|done].
  destruct (task_extra _ _ _ _ _ _ _ s2) as [s3|] eqn:E3; [|done].
  cbn [mbind option_bind]. apply task_extra_ok with (claimed0 := claimed) in E3; [|done].
  destruct (task_extra _ _ _ _ _ _ _ s3) as [s4|] eqn:E4; [|done].
  cbn [mbind option_bind]. apply task_extra_ok with (claimed0 := claimed) in E4; [|done].
  destruct (task_mov _ _ _ _ _ _ _ s4) as [s5|] eqn:E5; [|done].
  cbn [mbind option_bind]. apply task_mov_ok with (claimed0 := claimed) in E5; [|done].
  intros [= <- <- <-]. exists (fs_seen_urls s5). by destruct s5.
Qed.
End Facts.

(** ** The search for a free ordinal ends *)
Section Termination.
Context `{FilterEnv}.

(** The candidate path for an ordinal. *)
Definition candidate (ctx : ResolveContext) (mk : CollisionFilenameKind → str) (n : Z) : path :=
  collision_path_for_filename ctx (mk (AssetIdentityOrdinal n)).

(** [mk] puts the ordinal in the identity suffix of one file name, and
    the longest ordinal still fits in a file name. *)
Definition ordinal_fits (mk : CollisionFilenameKind → str) (fname asset_id : str) : Prop :=
  (∀ n, mk (AssetIdentityOrdinal n) = insert_asset_identity_ordinal_suffix fname asset_id n)
  ∧ str_len fname + str_len (asset_identity_suffix asset_id) + 22 <= MAX_FILENAME_BYTES.

(** Every listing, cached or on disk, has at most [N] entries. *)
Definition listings_bounded (N : nat) (c : DirCache.t) : Prop :=
  (∀ k e, DirCache.dirs c !! k = Some e → (size e <= N)%nat)
  ∧ ∀ d, (size (read_dir_entries d) <= N)%nat.

Lemma ensure_dir_bounded N c d :
  listings_bounded N c →
  (size (DirCache.ensure_dir c d).2 <= N)%nat ∧ listings_bounded N (DirCache.ensure_dir c d).1.
Proof.
  intros [Hc Hd]. unfold DirCache.ensure_dir. case_match eqn:E; cbn.
  - split; [by eapply Hc|by split].
  - split; [apply Hd|]. split; [|done]. intros k e. cbn. rewrite lookup_insert.
    case_decide; [intros [= <-]; apply Hd|apply Hc].
Qed.

Lemma file_size_bounded N c p :
  listings_bounded N c → listings_bounded N (DirCache.file_size c p).1.
Proof.
  intros Hc. unfold DirCache.file_size. destruct (file_name p), (parent p) as [d|]; try done.
  pose proof (ensure_dir_bounded N c d Hc) as [_ ?]. by destruct (DirCache.ensure_dir c d).
Qed.

Lemma find_ampm_bounded N c p :
  listings_bounded N c → listings_bounded N (DirCache.find_ampm_variant c p).1.
Proof.
  intros Hc. unfold DirCache.find_ampm_variant. destruct (file_name p); [|done].
  case_match; [done|]. destruct (parent p) as [d|]; [|done].
  pose proof (ensure_dir_bounded N c d Hc) as [_ ?]. by destruct (DirCache.ensure_dir c d).
Qed.

Lemma available_bounded N ctx mk kind c tried :
  listings_bounded N c →
  listings_bounded N (available_collision_path ctx mk kind c tried).1.1.
Proof.
  intros Hc. unfold available_collision_path. case_match; [done|].
  rewrite DirCacheFacts.exists_file_size. cbn. by apply file_size_bounded.
Qed.

Lemma available_extends ctx mk kind c tried :
  extends c (available_collision_path ctx mk kind c tried).1.1.
Proof.
  unfold available_collision_path. case_match; [apply extends_refl|].
  rewrite DirCacheFacts.exists_file_size. cbn. apply extends_size.
Qed.

Lemma clean_suffixed_normal a r :
  45 ∈ a → clean_name (map clean_char (a ++ r)) → normal_name (map clean_char (a ++ r)) = true.
Proof.
  intros Ha Hcl. assert (45 ∈ map clean_char (a ++ r)) as H45.
  { apply list_elem_of_fmap. exists 45. split; [done|]. apply elem_of_app. by left. }
  apply clean_name_normal; [done| |]; intros Heq; rewrite Heq in H45; set_solver.
Qed.

(** [normalize] is a map over characters that fixes digits. *)
Lemma normalize_map :
  ∃ f, (∀ p, normalize p = map f p) ∧ ∀ c, digit_char c = true → f c = c.
Proof.
  unfold normalize. destruct case_insensitive.
  - exists ascii_lower. split; [done|]. intros c Hc.
    pose proof (lower_digits [c]) as Hl. cbn in Hl. rewrite Hc in Hl. by injection Hl.
  - exists id. split; [|done]. intros p. symmetry. apply map_id.
Qed.

Lemma map_digits f s :
  (∀ c, digit_char c = true → f c = c) → forallb digit_char s = true →
  map f (map clean_char s) = s.
Proof.
  intros Hf. induction s as [|c s IH]; [done|]. cbn. intros [Hc Hs]%andb_true_iff.
  f_equal; [|by apply IH]. unfold clean_char. rewrite (digit_char_safe c Hc). by apply Hf.
Qed.

(** Every candidate is one directory followed by a normal name, and
    distinct ordinals have distinct normalized candidates. *)
Lemma candidate_shape ctx mk fname asset_id :
  ordinal_fits mk fname asset_id →
  ∃ D name, (∀ n, 0 <= n <= U64_MAX →
      candidate ctx mk n = join D (name n) ∧ normal_name (name n) = true)
    ∧ ∀ n m, 0 <= n <= U64_MAX → 0 <= m <= U64_MAX →
        normalize (candidate ctx mk n) = normalize (candidate ctx mk m) → n = m.
Proof.
  intros [Hmk Hlen].
  set (D := local_download_dir (directory (rc_config ctx)) (folder_structure (rc_config ctx))
              (rc_created_local ctx) (album_name (rc_config ctx))).
  set (id := asset_identity_suffix asset_id) in *.
  destruct (insert_suffix_split fname) as (a & b & Ha & Hins).
  assert (∀ n, 0 <= n → candidate ctx mk n = join D (map clean_char
            (a ++ (id ++ lit "-" ++ show_u64 n) ++ b))
          ∧ clean_name (map clean_char (a ++ (id ++ lit "-" ++ show_u64 n) ++ b))) as Hc.
  { intros n Hn. unfold candidate, collision_path_for_filename, local_download_path.
    rewrite Hmk. unfold insert_asset_identity_ordinal_suffix. fold id. fold D.
    pose proof (insert_suffix_len fname (id ++ lit "-" ++ show_u64 n)) as Hl.
    rewrite !str_len_app in Hl. change (str_len (lit "-")) with 1 in Hl.
    pose proof (show_u64_len n Hn).
    rewrite <- clean_filename_short; [rewrite <- Hins; split; [done|]| |].
    - apply clean_filename_clean.
    - intros Hz. by destruct a; [apply elem_of_nil in Ha|].
    - rewrite <- Hins. lia. }
  exists D, (λ n, map clean_char (a ++ (id ++ lit "-" ++ show_u64 n) ++ b)). split.
  - intros n [Hn _]. destruct (Hc n Hn) as [-> Hcl]. split; [done|].
    by apply clean_suffixed_normal.
  - intros n m Hn Hm. rewrite (proj1 (Hc n ltac:(lia))), (proj1 (Hc m ltac:(lia))).
    assert (∀ k, 0 <= k → normal_name (map clean_char
              (a ++ (id ++ lit "-" ++ show_u64 k) ++ b)) = true) as Hnorm.
    { intros k Hk. destruct (Hc k Hk) as [_ Hcl]. by apply clean_suffixed_normal. }
    destruct (join_prefix D) as [pre Hpre]. rewrite !Hpre by (apply Hnorm; lia).
    destruct normalize_map as (f & Hf & Hfd). rewrite !Hf, !map_app.
    intros Heq. do 2 apply app_inv_head in Heq. apply app_inv_tail in Heq.
    do 2 apply app_inv_head in Heq.
    rewrite !map_digits in Heq by (done || apply show_u64_digits; lia).
    by apply show_u64_inj.
Qed.

(** ** Searching for a free path, one candidate after the other *)

Section Search.
Context (claimed : gmap str Z) (cand : Z → path).

(** One candidate: skipped when it was tried, else looked up in the listing
    and in the claims. *)
Definition available_path (p : path) (cache : DirCache.t) (tried : list str) : DirCache.t * list str * option path :=
  if existsb (λ seen, str_eqb seen (normalize p)) tried then (cache, tried, None)
  else
    let '(cache, on_disk) := DirCache.exists_ cache p in
    (cache, tried ++ [normalize p],
     if on_disk || bool_decide (is_Some (claimed !! normalize p)) then None else Some p).

Fixpoint search (fuel : nat) (n : Z) (cache : DirCache.t) (tried : list str) : option (DirCache.t * path) :=
  match fuel with
  | O => None
  | S fuel =>
      let '(cache, tried, found) := available_path (cand n) cache tried in
      match found with
      | Some p => Some (cache, p)
      | None => search fuel (n + 1) cache tried
      end
  end.

(** What may block a candidate in the directory [D]: a name of the
    listing [es], a claim, or a path tried before. *)
Definition blockers (D : path) (es : gmap str Z) (t0 : list str) : list str :=
  map (λ f, normalize (join D f)) (elements (dom es)) ++ elements (dom claimed) ++ t0.

Lemma blockers_length D es t0 : length (blockers D es t0) = (size es + size claimed + length t0)%nat.
Proof.
  unfold blockers. rewrite !length_app, length_map.
  change (length (elements (dom es))) with (size (dom es)).
  change (length (elements (dom claimed))) with (size (dom claimed)).
  rewrite !size_dom. lia.
Qed.

(** Candidates already tried, as normalized paths. *)
Definition tried_after (t0 tried : list str) (ordinal : Z) : Prop :=
  ∀ q, q ∈ tried → q ∈ t0 ∨ ∃ m, 2 <= m < ordinal ∧ q = normalize (cand m).

Context (D : path) (name : Z → str) (es : gmap str Z) (t0 : list str).
Context (Hshape : ∀ k, 0 <= k <= U64_MAX → cand k = join D (name k) ∧ normal_name (name k) = true).
Context (Hinj : ∀ k m, 0 <= k <= U64_MAX → 0 <= m <= U64_MAX → normalize (cand k) = normalize (cand m) → k = m).

Lemma available_blocked n c tried c' tried' :
  2 <= n <= U64_MAX → tried_after t0 tried n →
  (DirCache.ensure_dir c (parent_of_join D)).2 = es →
  available_path (cand n) c tried = (c', tried', None) →
  normalize (cand n) ∈ blockers D es t0 ∧ tried_after t0 tried' (n + 1)
  ∧ (DirCache.ensure_dir c' (parent_of_join D)).2 = es.
Proof.
  intros Hn Ht Hes. unfold available_path. set (q := normalize (cand n)).
  assert (tried_after t0 tried (n + 1)) as Ht1.
  { intros x Hx. apply Ht in Hx as [?|(m & ? & ->)]; [by left|right]. exists m. split; [lia|done]. }
  destruct (existsb _ tried) eqn:Ex.
  { intros [= <- <-]. split_and!; try done.
    apply existsb_exists in Ex as (x & Hx & ->%str_eqb_eq).
    apply list_elem_of_In in Hx. apply Ht in Hx as [Hx|(m & Hm & Heq)].
    - unfold blockers. set_solver.
    - apply Hinj in Heq; lia. }
  destruct (Hshape n) as [Hj Hnm]; [lia|].
  pose proof (DirCacheFacts.ensure_dir_entries c (parent_of_join D)) as Hent.
  assert (DirCache.exists_ c (cand n)
    = ((DirCache.ensure_dir c (parent_of_join D)).1, bool_decide (is_Some (es !! name n)))) as ->.
  { unfold DirCache.exists_. rewrite Hj, file_name_join, parent_join by done.
    by destruct (DirCache.ensure_dir _ _); subst. }
  destruct (bool_decide (is_Some (es !! name n)) || _) eqn:Eu; [|done].
  intros [= <- <-]. split_and!.
  - apply orb_true_iff in Eu as [Hd%bool_decide_eq_true|Hc%bool_decide_eq_true].
    + unfold blockers. apply elem_of_app. left. unfold q. rewrite Hj.
      apply list_elem_of_fmap. exists (name n). split; [done|].
      by apply elem_of_elements, elem_of_dom.
    + unfold blockers. rewrite !elem_of_app. right; left.
      by apply elem_of_elements, elem_of_dom.
  - intros x [Hx| ->%list_elem_of_singleton]%elem_of_app; [by apply Ht1|].
    right. exists n. split; [lia|done].
  - revert Hent. set (c1 := (DirCache.ensure_dir c (parent_of_join D)).1).
    rewrite Hes. unfold DirCache.ensure_dir. by intros ->.
Qed.

(** [fuel] failing iterations exhibit [fuel] distinct blockers. *)
Lemma search_blocked fuel n c tried :
  2 <= n → n + Z.of_nat fuel <= U64_MAX → tried_after t0 tried n →
  (DirCache.ensure_dir c (parent_of_join D)).2 = es →
  search fuel n c tried = None →
  ∀ i, n <= i < n + Z.of_nat fuel → normalize (cand i) ∈ blockers D es t0.
Proof.
  revert n c tried. induction fuel as [|f IH]; intros n c tried Hn Hf Ht Hes; [lia|].
  cbn [search]. destruct (available_path _ _ _) as [[c1 t1] [p|]] eqn:E; [done|].
  apply available_blocked in E as (Hb & Ht1 & Hes1); try (done || lia).
  intros Hl i Hi. destruct (decide (i = n)) as [->|]; [done|].
  apply (IH (n + 1) c1 t1); try done; lia.
Qed.

Lemma search_ends fuel c tried :
  (size es + size claimed + length t0 < fuel)%nat → 2 + Z.of_nat fuel <= U64_MAX →
  tried_after t0 tried 2 → (DirCache.ensure_dir c (parent_of_join D)).2 = es →
  is_Some (search fuel 2 c tried).
Proof.
  intros Hfuel Hmax Ht Hes.
  destruct (search fuel 2 c tried) eqn:E; [by eexists|exfalso].
  pose proof (search_blocked _ _ _ _ (Z.le_refl 2) Hmax Ht Hes E) as Hall.
  set (cands := map (λ i, normalize (cand (2 + Z.of_nat i))) (seq 0 fuel)).
  assert (NoDup cands) as Hnd.
  { apply NoDup_fmap_2_strong; [|apply NoDup_seq].
    intros x y Hx%elem_of_seq Hy%elem_of_seq Heq. apply Hinj in Heq; lia. }
  assert (cands ⊆ blockers D es t0) as Hsub.
  { intros x (i & -> & Hi%elem_of_seq)%list_elem_of_fmap. apply Hall. lia. }
  pose proof (submseteq_length _ _ (NoDup_submseteq _ _ Hnd Hsub)) as Hle.
  rewrite blockers_length in Hle. unfold cands in Hle. rewrite length_map, length_seq in Hle. lia.
Qed.
End Search.

Lemma ordinal_loop_search fuel ctx mk n c tried : 0 <= n → n + Z.of_nat fuel <= U64_MAX →
  ordinal_loop fuel ctx mk n c tried = search (rc_claimed_paths ctx) (candidate ctx mk) fuel n c tried.
Proof.
  revert n c tried. induction fuel as [|f IH]; intros n c tried Hn Hf; [done|]. cbn [ordinal_loop search].
  change (available_collision_path ctx mk (AssetIdentityOrdinal n) c tried)
    with (available_path (rc_claimed_paths ctx) (candidate ctx mk n) c tried).
  destruct (available_path _ _ _ _) as [[c1 t1] [p|]]; [done|].
  assert (checked_add U64_MAX n 1 = Some (n + 1)) as -> by (apply checked_add_Some; lia).
  apply IH; lia.
Qed.

Lemma available_tried ctx mk kind c tried :
  (length (available_collision_path ctx mk kind c tried).1.2 <= length tried + 1)%nat.
Proof.
  unfold available_collision_path. case_match; cbn; [lia|].
  destruct (DirCache.exists_ _ _). cbn. rewrite length_app. cbn. lia.
Qed.

Lemma first_available_ends N fuel ctx kind mk fname asset_id c :
  ordinal_fits mk fname asset_id → listings_bounded N c →
  (N + size (rc_claimed_paths ctx) + 2 < fuel)%nat → 2 + Z.of_nat fuel <= U64_MAX →
  is_Some (first_available_collision_path fuel ctx kind mk c).
Proof.
  intros Hfit Hb Hf Hmax. unfold first_available_collision_path.
  pose proof (available_bounded N ctx mk kind c [] Hb) as Hb1.
  pose proof (available_tried ctx mk kind c []) as Ht1.
  destruct (available_collision_path ctx mk kind c []) as [[c1 t1] [p|]]; [by eexists|]. cbn in *.
  pose proof (available_bounded N ctx mk AssetIdentity c1 t1 Hb1) as Hb2.
  pose proof (available_tried ctx mk AssetIdentity c1 t1) as Ht2.
  destruct (available_collision_path ctx mk AssetIdentity c1 t1) as [[c2 t2] [p|]]; [by eexists|].
  cbn in *. destruct (candidate_shape ctx mk fname asset_id Hfit) as (D & name & Hs & Hi).
  rewrite ordinal_loop_search by lia. eapply (search_ends _ _ D name _ t2); try done.
  - pose proof (proj1 (ensure_dir_bounded N c2 (parent_of_join D) Hb2)). lia.
  - intros q Hq. by left.
Qed.

(** Resolution returns whenever the longest ordinal fits in a file name. *)
Lemma resolve_download_path_ends N fuel dpath size0 strategy ctx cache ampm mk
    fname asset_id :
  ordinal_fits mk fname asset_id → listings_bounded N cache →
  (N + size (rc_claimed_paths ctx) + 2 < fuel)%nat → 2 + Z.of_nat fuel <= U64_MAX →
  is_Some (resolve_download_path fuel dpath size0 strategy ctx cache ampm mk).
Proof.
  intros Hfit Hb Hf Hmax. unfold resolve_download_path.
  pose proof (file_size_bounded N cache dpath Hb) as Hb1.
  destruct (DirCache.file_size cache dpath) as [c1 sz]. cbn in Hb1.
  set (blk := match sz with Some _ => _ | None => _ end).
  assert (listings_bounded N blk.1) as Hb2.
  { subst blk. destruct sz; [done|]. destruct ampm; cbn; [|done].
    pose proof (find_ampm_bounded N c1 dpath Hb1) as Hb2.
    destruct (DirCache.find_ampm_variant c1 dpath) as [c2 [v|]]; [|done]. cbn in *.
    pose proof (file_size_bounded N c2 v Hb2). by destruct (DirCache.file_size c2 v). }
  destruct blk as [c2 odm]. cbn in *.
  destruct (match odm with Some m => Some m | None => _ end) as [[es q]|]; [|by eexists].
  destruct strategy as [skip_zero_size|]; [|by eexists].
  destruct (first_available_ends N fuel ctx
    (if (negb skip_zero_size || (0 <? size0)) && (es =? size0) then AssetIdentity else Default)
    mk fname asset_id c2 Hfit Hb2 Hf Hmax) as [[c3 q3] ->]. by eexists.
Qed.

Lemma ordinal_loop_bounded N fuel ctx mk ordinal c tried c' p :
  listings_bounded N c → ordinal_loop fuel ctx mk ordinal c tried = Some (c', p) → listings_bounded N c'.
Proof.
  revert ordinal c tried. induction fuel as [|f IH]; intros ordinal c tried Hb; cbn; [done|].
  pose proof (available_bounded N ctx mk (AssetIdentityOrdinal ordinal) c tried Hb) as Hb1.
  destruct (available_collision_path _ _ _ _ _) as [[c1 t1] [q|]]; [by intros [= <- _]|by apply IH].
Qed.

Lemma first_available_bounded N fuel ctx kind mk c c' p :
  listings_bounded N c → first_available_collision_path fuel ctx kind mk c = Some (c', p) →
  listings_bounded N c'.
Proof.
  intros Hb. unfold first_available_collision_path.
  pose proof (available_bounded N ctx mk kind c [] Hb) as Hb1.
  destruct (available_collision_path _ _ _ _ _) as [[c1 t1] [q|]]; [by intros [= <- _]|].
  pose proof (available_bounded N ctx mk AssetIdentity c1 t1 Hb1) as Hb2.
  destruct (available_collision_path _ _ _ _ _) as [[c2 t2] [q|]]; [by intros [= <- _]|].
  by apply ordinal_loop_bounded.
Qed.

(** The names a collision search may answer. *)
Definition searched (ctx : ResolveContext) (mk : CollisionFilenameKind → str) (p : path) : Prop :=
  ∃ kind, p = collision_path_for_filename ctx (mk kind)
    ∧ match kind with AssetIdentityOrdinal n => 2 <= n <= U64_MAX | _ => True end.

Lemma available_searched ctx mk kind c tried c' t' p :
  match kind with AssetIdentityOrdinal n => 2 <= n <= U64_MAX | _ => True end →
  available_collision_path ctx mk kind c tried = (c', t', Some p) → searched ctx mk p.
Proof.
  unfold available_collision_path. intros Hk. destruct (existsb _ tried); [done|].
  destruct (DirCache.exists_ _ _) as [c1 b]. destruct (b || _); [done|]. intros [= _ _ <-]. by exists kind.
Qed.

Lemma ordinal_loop_searched fuel ctx mk ordinal c tried c' p :
  2 <= ordinal <= U64_MAX → ordinal_loop fuel ctx mk ordinal c tried = Some (c', p) → searched ctx mk p.
Proof.
  revert ordinal c tried. induction fuel as [|f IH]; intros ordinal c tried Ho; cbn; [done|].
  destruct (available_collision_path _ _ _ _ _) as [[c1 t1] [q|]] eqn:E.
  - intros [= _ <-]. by apply (available_searched _ _ (AssetIdentityOrdinal ordinal) _ _ _ _ _ Ho E).
  - apply IH. unfold checked_add. destruct (Z.leb_spec (ordinal + 1) U64_MAX); cbn; [lia|]. unfold U64_MAX. lia.
Qed.

Lemma first_available_searched fuel ctx kind mk c c' p :
  match kind with AssetIdentityOrdinal n => 2 <= n <= U64_MAX | _ => True end →
  first_available_collision_path fuel ctx kind mk c = Some (c', p) → searched ctx mk p.
Proof.
  intros Hk. unfold first_available_collision_path.
  destruct (available_collision_path _ _ kind _ _) as [[c1 t1] [q|]] eqn:E1.
  { intros [= _ <-]. by apply (available_searched _ _ kind _ _ _ _ _ Hk E1). }
  destruct (available_collision_path _ _ AssetIdentity _ _) as [[c2 t2] [q|]] eqn:E2.
  { intros [= _ <-]. by apply (available_searched _ _ AssetIdentity _ _ _ _ _ I E2). }
  apply ordinal_loop_searched. unfold U64_MAX. lia.
Qed.

(** The cache stays bounded, and a size-based resolution answers the path
    asked for or one the search tried. *)
Lemma resolve_download_path_bounded N fuel dpath size0 strategy ctx c ampm mk c' r :
  listings_bounded N c → resolve_download_path fuel dpath size0 strategy ctx c ampm mk = Some (c', r) →
  listings_bounded N c'
  ∧ (strategy ≠ SkipIfExists → effective_path r = dpath ∨ searched ctx mk (effective_path r)).
Proof.
  intros Hb. unfold resolve_download_path.
  pose proof (file_size_bounded N c dpath Hb) as Hb1.
  destruct (DirCache.file_size c dpath) as [c1 sz]. cbn in Hb1.
  set (blk := match sz with Some _ => _ | None => _ end).
  assert (listings_bounded N blk.1) as Hb2.
  { subst blk. destruct sz; [done|]. destruct ampm; cbn; [|done].
    pose proof (find_ampm_bounded N c1 dpath Hb1) as Hb2.
    destruct (DirCache.find_ampm_variant c1 dpath) as [c2 [v|]]; [|done]. cbn in *.
    pose proof (file_size_bounded N c2 v Hb2). by destruct (DirCache.file_size c2 v). }
  destruct blk as [c2 odm]. cbn in *.
  destruct (match odm with Some m => Some m | None => _ end) as [[es q]|].
  2: { intros [= <- <-]. split; [done|by left]. }
  destruct strategy as [skip_zero_size|]; [|intros [= <- <-]; by split].
  intros ([c3 q3] & Hf & [= <- <-])%bind_Some. split; [by eapply first_available_bounded|].
  intros _. right. eapply first_available_searched; [|done]. by case_match.
Qed.
End Termination.

(** ** The search that never ends *)
Section Overflow.
Context `{FilterEnv}.

Lemma rsplit_map_clean p stem e :
  rsplit_once DOT p = Some (stem, e) →
  rsplit_once DOT (map clean_char p) = Some (map clean_char stem, map clean_char e).
Proof.
  intros [-> He]%rsplit_once_Some. apply rsplit_once_Some. rewrite map_app. split; [done|].
  intros (c & Hc & Hin)%list_elem_of_fmap. unfold clean_char in Hc.
  destruct (is_invalid c); [done|]. subst. done.
Qed.

Lemma map_clean_id s : Forall safe_char s → map clean_char s = s.
Proof.
  induction 1 as [|c s Hc]; cbn; f_equal; [|done]. unfold clean_char. by rewrite Hc.
Qed.

Lemma floor_prefix_exact s r : floor_prefix (str_len s) (s ++ r) = s.
Proof.
  induction s as [|c s IH].
  - destruct r as [|c r]; [done|]. cbn. pose proof (len_utf8_pos c).
    by rewrite (proj2 (Z.leb_gt _ _)) by lia.
  - cbn. pose proof (str_len_nonneg s). rewrite (proj2 (Z.leb_le _ _)) by lia.
    f_equal. replace (len_utf8 c + str_len s - len_utf8 c) with (str_len s) by lia. exact IH.
Qed.

(** Cleaning a full-length name with a suffix cuts the suffix off. *)
Lemma clean_suffix_cut fname stem e s :
  clean_name fname → str_len fname = MAX_FILENAME_BYTES →
  rsplit_once DOT fname = Some (stem, e) → stem ≠ [] → Forall safe_char s →
  clean_filename (insert_suffix fname s) = fname.
Proof.
  intros (Hne & Hsafe & _) Hlen Hr Hstem Hs. pose proof (insert_suffix_len fname s) as Hl.
  pose proof (str_len_nonneg s) as Hs0.
  pose proof (insert_suffix_Forall safe_char fname s eq_refl Hsafe Hs) as Hsafe'.
  pose proof (rsplit_insert_suffix _ s _ _ Hr) as Hri.
  unfold clean_filename.
  destruct (insert_suffix fname s) as [|c0 r0] eqn:Ei.
  { cbn in Hl. pose proof (str_len_nonneg fname). lia. }
  rewrite <- Ei in *. clear Ei c0 r0.
  rewrite (proj2 (Z.leb_gt _ _)) by (rewrite Hl, Hlen; unfold MAX_FILENAME_BYTES; lia). cbn [andb].
  change (map (λ c, if is_invalid c then 95 else c)) with (map clean_char).
  rewrite map_clean_id by done.
  rewrite (proj2 (Z.leb_gt _ _)) by (rewrite Hl, Hlen; unfold MAX_FILENAME_BYTES; lia).
  rewrite Hri. apply rsplit_once_Some in Hr as [-> He].
  rewrite str_len_app in Hlen.
  assert (0 < str_len stem).
  { destruct stem as [|c st]; [done|]. cbn. pose proof (len_utf8_pos c). pose proof (str_len_nonneg st). lia. }
  rewrite (proj2 (Z.ltb_lt _ _)) by lia.
  replace (MAX_FILENAME_BYTES - str_len (DOT :: e)) with (str_len stem) by lia.
  by rewrite floor_prefix_exact.
Qed.

Definition occupied (ctx : ResolveContext) (c : DirCache.t) (p : path) : Prop :=
  is_Some (DirCache.file_size c p).2 ∨ is_Some (rc_claimed_paths ctx !! normalize p).

Lemma available_occupied ctx mk kind c tried p :
  collision_path_for_filename ctx (mk kind) = p → occupied ctx c p →
  ∃ c' t', available_collision_path ctx mk kind c tried = (c', t', None) ∧ occupied ctx c' p.
Proof.
  intros <- Ho. unfold available_collision_path.
  set (p := collision_path_for_filename ctx (mk kind)) in *.
  case_match; [by eauto|]. rewrite DirCacheFacts.exists_file_size.
  eexists _, _. split.
  - f_equal. destruct Ho as [Ho|Ho]; rewrite (bool_decide_eq_true_2 _ Ho); [done|].
    by rewrite orb_true_r.
  - destruct Ho as [Ho|Ho]; [left|by right]. by rewrite DirCacheFacts.file_size_repeat.
Qed.

Lemma ordinal_loop_occupied fuel ctx mk n c tried p :
  (∀ k, 2 <= k → collision_path_for_filename ctx (mk (AssetIdentityOrdinal k)) = p) →
  2 <= n → occupied ctx c p → ordinal_loop fuel ctx mk n c tried = None.
Proof.
  intros Hmk. revert n c tried. induction fuel as [|f IH]; intros n c tried Hn Ho; [done|].
  cbn. destruct (available_occupied ctx mk (AssetIdentityOrdinal n) c tried p (Hmk n Hn) Ho)
    as (c' & t' & -> & Ho'). apply IH; [|done].
  unfold checked_add. case_match; cbn; lia.
Qed.
End Overflow.

(** ** One asset always gets its tasks *)
Section Totality.
Context `{FilterEnv}.

(** The file name of a collision candidate, and a bound on its length. *)
Lemma suffixed_file_name ctx fname sfx :
  str_len fname + 1 + str_len sfx <= MAX_FILENAME_BYTES →
  ∃ g, file_name (collision_path_for_filename ctx (insert_suffix fname sfx)) = Some g
       ∧ str_len g <= str_len fname + 1 + str_len sfx.
Proof.
  intros Hl. rewrite <- insert_suffix_len in *.
  destruct (insert_suffix_split fname) as (a & b & Ha & Hins).
  assert (insert_suffix fname sfx ≠ []) as Hne.
  { rewrite Hins. intros Hz. by destruct a; [apply elem_of_nil in Ha|]. }
  pose proof (clean_filename_clean (insert_suffix fname sfx)) as Hcl.
  unfold collision_path_for_filename, local_download_path.
  rewrite clean_filename_short in * by done.
  exists (map clean_char (insert_suffix fname sfx)). split; [|apply map_clean_len].
  apply file_name_join. rewrite Hins in *. by apply clean_suffixed_normal.
Qed.

Lemma clean_filename_len s : str_len (clean_filename s) <= Z.max 1 (str_len s).
Proof.
  destruct (clean_filename_clean s) as (_ & _ & Hmax). destruct (decide (s = [])) as [->|Hs]; [vm_compute; discriminate|].
  destruct (Z.leb_spec (str_len s) MAX_FILENAME_BYTES); [|lia].
  rewrite clean_filename_short by done. pose proof (map_clean_len s). lia.
Qed.

(** The name of a derived file leaves room for the identity suffix and the
    longest ordinal, and names a file. *)
Definition fits (asset : PhotoAsset) (d : DerivedPath) : Prop :=
  normal_name (clean_filename (dp_filename d)) = true
  ∧ str_len (dp_filename d) + str_len (asset_identity_suffix (state_id asset)) + 22 <= MAX_FILENAME_BYTES.

(** The longest name a primary file may end up with. *)
Definition primary_bound (asset : PhotoAsset) (d : DerivedPath) : Z :=
  Z.max 1 (str_len (dp_filename d)) + Z.max 20 (str_len (asset_identity_suffix (state_id asset))) + 22.

(** Every name the asset may be given fits: those of the derived files, and
    that of the MOV companion whichever name its primary file ends up with. *)
Record names_fit (asset : PhotoAsset) (config : PathDerivationConfig) : Prop := {
  nf_primary d : derive_primary asset config (build asset config) = Some d → fits asset d;
  nf_extra dx seen d :
    dx ∈ [derive_edited_extra; derive_alternative_extra; derive_live_edited_extra] →
    dx asset config (build asset config) seen = Some d → fits asset d;
  nf_mov_alone d : derive_mov_companion asset config (build asset config) None = Some d → fits asset d;
  nf_mov p f d : derive_primary asset config (build asset config) = Some p →
    str_len f <= primary_bound asset p →
    derive_mov_companion asset config (build asset config) (Some f) = Some d → fits asset d;
}.

(** What the pass state satisfies: bounded listings, at most [k] claims. *)
Definition state_bounded (N k : nat) (s : FilterState) : Prop :=
  listings_bounded N (fs_cache s) ∧ (size (fs_claimed s) <= k)%nat.

Lemma resolve_and_push_ends N k fuel asset config ctx lib payload strategy mk d s :
  ordinal_fits mk (dp_filename d) (state_id asset) → state_bounded N k s →
  (N + k + 2 < fuel)%nat → 2 + Z.of_nat fuel <= U64_MAX →
  ∃ s' res, resolve_and_push fuel asset config ctx lib payload strategy mk d s = Some (s', res)
    ∧ state_bounded N (S k) s'
    ∧ (strategy ≠ SkipIfExists → effective_path res = dp_path d
        ∨ searched {| rc_config := config; rc_created_local := ctx_created_local ctx;
                      rc_claimed_paths := fs_claimed s |} mk (effective_path res)).
Proof.
  intros Hfit [Hb Hk] Hf Hmax. unfold resolve_and_push. set (rctx := {| rc_config := _ |}).
  assert (N + size (rc_claimed_paths rctx) + 2 < fuel)%nat as Hf' by (cbn; lia).
  destruct (resolve_download_path_ends N fuel (dp_path d) (dp_size d) strategy rctx (fs_cache s)
              (dp_check_ampm_on_disk d) mk _ _ Hfit Hb Hf' Hmax) as [[c r] Hr].
  pose proof (resolve_download_path_bounded N _ _ _ _ _ _ _ _ _ _ Hb Hr) as [Hb' Hs].
  rewrite Hr. cbn [mbind option_bind].
  destruct r as [p|p]; eexists _, _; (split; [done|]); (split; [|exact Hs]); split; cbn; try done; [|lia].
  rewrite map_size_insert. destruct (fs_claimed s !! normalize p); cbn; lia.
Qed.

Lemma size_or_identity_fits fname size0 id :
  str_len fname + str_len (asset_identity_suffix id) + 22 <= MAX_FILENAME_BYTES →
  ordinal_fits (size_or_identity_collision_filename fname size0 id) fname id.
Proof. by split. Qed.
Lemma identity_fits fname id :
  str_len fname + str_len (asset_identity_suffix id) + 22 <= MAX_FILENAME_BYTES →
  ordinal_fits (identity_collision_filename fname id) fname id.
Proof. by split. Qed.

Lemma derive_primary_path asset config ctx d :
  derive_primary asset config ctx = Some d →
  dp_path d = local_download_path (directory config) (folder_structure config) (ctx_created_local ctx)
                (dp_filename d) (album_name config).
Proof. unfold derive_primary. intros ([v k] & _ & [= <-])%bind_Some. done. Qed.

Lemma derive_mov_name_id7 asset config ctx f :
  file_match_policy config = NameId7 →
  derive_mov_companion asset config ctx f = derive_mov_companion asset config ctx None.
Proof. intros Hp. unfold derive_mov_companion. by rewrite Hp. Qed.

(** The effective name of the primary file, under the size-based policy. *)
Lemma task_primary_ends N k fuel asset (config : DownloadConfig) lib payload s :
  let ctx := build asset config in
  names_fit asset config → state_bounded N k s →
  (N + k + 2 < fuel)%nat → 2 + Z.of_nat fuel <= U64_MAX →
  ∃ s' f, task_primary fuel asset config ctx lib payload s = Some (s', f) ∧ state_bounded N (S k) s'
    ∧ (f = None ∨ file_match_policy config = NameId7
       ∨ ∃ p g, derive_primary asset config ctx = Some p ∧ f = Some g ∧ str_len g <= primary_bound asset p).
Proof.
  intros ctx Hnf Hs Hf Hmax. unfold task_primary.
  destruct (derive_primary asset config ctx) as [d|] eqn:Hd.
  2: { exists s, None. split; [done|]. split; [|by left]. destruct Hs. split; [done|lia]. }
  destruct (nf_primary _ _ Hnf d Hd) as [Hnorm Hlen].
  set (mk := size_or_identity_collision_filename _ _ _). set (st := match file_match_policy config with NameSizeDedupWithSuffix => SizeDedup true | NameId7 => SkipIfExists end).
  destruct (resolve_and_push_ends N k fuel asset config ctx lib payload st mk d s) as (s' & r & -> & Hs' & Hr);
    [by apply size_or_identity_fits|done..|].
  cbn [mbind option_bind]. exists s', (file_name (effective_path r)). split; [done|]. split; [done|].
  destruct (file_match_policy config) eqn:Hpol; [right; right|by right; left].
  assert (∃ g, file_name (effective_path r) = Some g ∧ str_len g <= primary_bound asset d) as (g & Hg & Hgl);
    [|by exists d, g].
  destruct (Hr ltac:(by subst st)) as [->|(kind & -> & Hkind)].
  - rewrite (derive_primary_path _ _ _ _ Hd). unfold local_download_path. rewrite file_name_join by done.
    eexists. split; [done|]. pose proof (clean_filename_len (dp_filename d)).
    unfold primary_bound. lia.
  - assert (∀ sfx, str_len sfx <= Z.max 20 (str_len (asset_identity_suffix (state_id asset)) + 21) →
        ∃ g, file_name (collision_path_for_filename {| rc_config := config;
               rc_created_local := ctx_created_local ctx; rc_claimed_paths := fs_claimed s |}
               (insert_suffix (dp_filename d) sfx)) = Some g ∧ str_len g <= primary_bound asset d) as Hall.
    { intros sfx Hsfx. pose proof (str_len_nonneg (asset_identity_suffix (state_id asset))).
      edestruct (suffixed_file_name {| rc_config := config; rc_created_local := ctx_created_local ctx;
                   rc_claimed_paths := fs_claimed s |} (dp_filename d) sfx) as (g & Hg & Hl); [lia|].
      exists g. split; [done|]. unfold primary_bound. lia. }
    pose proof (str_len_nonneg (asset_identity_suffix (state_id asset))).
    destruct kind as [| |n]; cbn.
    + apply (Hall (show_u64 (dp_size d))). pose proof (show_u64_len_any (dp_size d)). lia.
    + apply (Hall (asset_identity_suffix (state_id asset))). lia.
    + apply Hall. rewrite !str_len_app. change (str_len (lit "-")) with 1.
      pose proof (show_u64_len_any n). lia.
Qed.

Lemma task_extra_ends N k fuel asset (config : DownloadConfig) lib payload dx s :
  dx ∈ [derive_edited_extra; derive_alternative_extra; derive_live_edited_extra] →
  names_fit asset config → state_bounded N k s →
  (N + k + 2 < fuel)%nat → 2 + Z.of_nat fuel <= U64_MAX →
  ∃ s', task_extra fuel asset config (build asset config) lib payload dx s = Some s'
        ∧ state_bounded N (S k) s'.
Proof.
  intros Hdx Hnf Hs Hf Hmax. unfold task_extra. destruct (dx _ _ _ _) as [d|] eqn:Hd.
  2: { exists s. split; [done|]. destruct Hs. split; [done|lia]. }
  destruct (nf_extra _ _ Hnf dx _ d Hdx Hd) as [_ Hlen].
  edestruct (resolve_and_push_ends N k fuel asset config (build asset config) lib payload (SizeDedup true)
    (size_or_identity_collision_filename (dp_filename d) (dp_size d) (state_id asset)) d s)
    as (s' & r & -> & Hs' & _); [by apply size_or_identity_fits|done..|]. by exists s'.
Qed.
End Totality.

(** ** Properties *)

(** no overwrite. When path resolution answers "download to [p]", [p] is
    not in the directory listing the cache holds and is not claimed by an
    earlier task, whatever the collision strategy and file-name policy. *)
Theorem download_path_is_free `{FilterEnv} fuel dpath size strategy ctx cache ampm mk cache' p :
  resolve_download_path fuel dpath size strategy ctx cache ampm mk = Some (cache', Download p) →
  (DirCache.exists_ cache' p).2 = false ∧ rc_claimed_paths ctx !! normalize p = None.
Proof.
  intros [Hd Hc]%resolve_download_path_free. split; [|done].
  rewrite DirCacheFacts.exists_file_size. cbn. by rewrite Hd.
Qed.

Definition sample_config : @DownloadConfig sample_filter_env := {|
  dc_path := {|
    directory := lit "/d"; folder_structure := lit "none";
    folder_structure_albums := lit "none"; folder_structure_smart_folders := lit "none";
    resolution := PROriginal;
    media := {| ms_photos := true; ms_videos := true; ms_live_photos := true |};
    skip_created_before := None; skip_created_after := None;
    live_photo_mode := LPBoth; live_resolution := LiveOriginal;
    live_photo_mov_filename_policy := MovSuffix;
    edited := true; alternative := true; raw_policy := AsIs;
    file_match_policy := NameSizeDedupWithSuffix; force_resolution := false;
    keep_unicode_in_filenames := false; filename_exclude := []; album_name := None;
    library := lit "PrimarySync"; exclude_asset_ids := ∅ |};
  asset_groupings := {| ag_albums := ∅; ag_people := ∅ |};
|}.

(** The context of a pass over a library where nothing is claimed. *)
Definition sample_ctx : @ResolveContext sample_filter_env :=
  @Build_ResolveContext sample_filter_env sample_config tt ∅.

(** A live photo whose name is already taken in [/d] by a file of another size. *)
Definition sample_asset : PhotoAsset := {|
  record_name := lit "REC1"; asset_record_name := lit "REC1"; state_record_name := None;
  source_zone := None; filename := Some (lit "a.jpg");
  asset_metadata := AssetMetadata_default;
  versions := [(Original, sample_version "public.jpeg" "u1" 20);
               (Adjusted, sample_version "public.jpeg" "u2" 30);
               (LiveOriginal, sample_version "com.apple.quicktime-movie" "u3" 40)];
  malformed_resources := []; asset_date := Some 0; added_instant := Some 0; item_type := Some Image;
|}.

Lemma download_path_is_free_witness :
  let mk := size_or_identity_collision_filename (lit "a.jpg") 20 (lit "REC1") in
  ∃ c', (@DirCache.exists_ sample_env c' (lit "/d/a-20.jpg")).2 = false
      ∧ rc_claimed_paths sample_ctx !! lit "/d/a-20.jpg" = None.
Proof.
  intros mk. assert (snd <$> @resolve_download_path sample_filter_env 5 (lit "/d/a.jpg") 20
      (SizeDedup true) sample_ctx DirCache.new true mk = Some (Download (lit "/d/a-20.jpg"))) as Hr
    by (vm_compute; reflexivity).
  destruct (@resolve_download_path sample_filter_env 5 (lit "/d/a.jpg") 20
      (SizeDedup true) sample_ctx DirCache.new true mk) as [[c' r]|] eqn:E; [|discriminate Hr].
  injection Hr as ->. exists c'.
  exact (@download_path_is_free sample_filter_env _ _ _ _ _ _ _ _ _ _ E).
Defined.

(** the tasks of one asset never target the same file, nor a file a
    previous asset of the pass claimed: their normalized paths are pairwise
    distinct and were unclaimed; every earlier claim survives, every task
    records its size as its claim, and every task publishes without
    replacing an existing file. *)
Theorem filter_asset_to_tasks_disjoint `{FilterEnv} fuel asset config claimed cache claimed' cache' tasks :
  filter_asset_to_tasks fuel asset config claimed cache = Some (claimed', cache', tasks) →
  NoDup (map (λ t, normalize (dt_download_path t)) tasks)
  ∧ (∀ t, t ∈ tasks → claimed !! normalize (dt_download_path t) = None
                    ∧ claimed' !! normalize (dt_download_path t) = Some (dt_size t)
                    ∧ dt_publication t = NoReplace)
  ∧ claimed ⊆ claimed'.
Proof.
  intros (urls & [Hnd Hfresh Hcl Hkept Hnr])%filter_asset_to_tasks_ok. cbn in *.
  split; [done|]. split; [intros t Ht; split_and!; by auto|by apply map_subseteq_spec].
Qed.

(** A pass in which an earlier asset claimed [/d/a.JPG]. *)
Definition sample_claimed : gmap str Z := {[ lit "/d/a.JPG" := 7 ]}.

Lemma sample_task_paths :
  (λ r, map dt_download_path r.2)
  <$> @filter_asset_to_tasks sample_filter_env 5 sample_asset sample_config sample_claimed DirCache.new
  = Some [lit "/d/a-20.JPG"; lit "/d/a_edited.JPG"; lit "/d/a-20.MOV"].
Proof. vm_compute. reflexivity. Qed.

Lemma filter_asset_to_tasks_disjoint_witness :
  ∃ (claimed' : gmap str Z) (cache' : DirCache.t) (tasks : list (@DownloadTask sample_filter_env)),
    map dt_download_path tasks = [lit "/d/a-20.JPG"; lit "/d/a_edited.JPG"; lit "/d/a-20.MOV"]
    ∧ NoDup (map (λ t, @normalize sample_filter_env (dt_download_path t)) tasks)
    ∧ (∀ t, t ∈ tasks → sample_claimed !! @normalize sample_filter_env (dt_download_path t) = None
        ∧ claimed' !! @normalize sample_filter_env (dt_download_path t) = Some (dt_size t)
        ∧ dt_publication t = NoReplace)
    ∧ sample_claimed ⊆ claimed'.
Proof.
  pose proof sample_task_paths as Hp.
  destruct (@filter_asset_to_tasks sample_filter_env 5 sample_asset sample_config sample_claimed DirCache.new)
    as [[[claimed' cache'] tasks]|] eqn:E; [|discriminate Hp].
  exists claimed', cache', tasks. split; [by injection Hp|].
  exact (@filter_asset_to_tasks_disjoint sample_filter_env _ _ _ _ _ _ _ _ E).
Defined.


(** C28: every asset gets its tasks. If the names an asset may be given leave
    room for the identity suffix and the longest ordinal, and every
    directory listing has at most [N] entries, the collision loops of all
    the asset's files find a free name after at most [N + #claimed + 6]
    failing ordinals, and [filter_asset_to_tasks] returns, whatever is on
    disk and whatever earlier assets claimed. *)
Theorem filter_asset_to_tasks_returns `{FilterEnv} N fuel asset (config : DownloadConfig) claimed cache :
  names_fit asset config → listings_bounded N cache →
  (N + size claimed + 6 < fuel)%nat → 2 + Z.of_nat fuel <= U64_MAX →
  is_Some (filter_asset_to_tasks fuel asset config claimed cache).
Proof.
  intros Hnf Hb Hf Hmax. unfold filter_asset_to_tasks. destruct (negb _); [by eexists|].
  destruct (_ && _); [by eexists|]. set (s0 := {| fs_claimed := claimed |}).
  assert (state_bounded N (size claimed) s0) as Hs0 by (by split).
  edestruct (task_primary_ends N (size claimed) fuel asset config (default (library config) (source_zone asset))
    (build_payload asset config) s0 Hnf Hs0) as (s1 & f & -> & Hs1 & Hfn); [lia..|].
  cbn [mbind option_bind].
  edestruct (task_extra_ends N (1 + size claimed) fuel asset config (default (library config) (source_zone asset))
    (build_payload asset config) derive_edited_extra s1) as (s2 & -> & Hs2); [set_solver|done..|lia|lia|].
  cbn [mbind option_bind].
  edestruct (task_extra_ends N (2 + size claimed) fuel asset config (default (library config) (source_zone asset))
    (build_payload asset config) derive_alternative_extra s2) as (s3 & -> & Hs3); [set_solver|done..|lia|lia|].
  cbn [mbind option_bind].
  edestruct (task_extra_ends N (3 + size claimed) fuel asset config (default (library config) (source_zone asset))
    (build_payload asset config) derive_live_edited_extra s3) as (s4 & -> & Hs4); [set_solver|done..|lia|lia|].
  cbn [mbind option_bind]. unfold task_mov.
  destruct (derive_mov_companion asset config (build asset config) f) as [d|] eqn:Hd; [|by eexists].
  destruct (existsb _ _); [by eexists|].
  assert (fits asset d) as [_ Hlen].
  { destruct Hfn as [->|[Hpol|(p & g & Hp & -> & Hg)]]; [by apply (nf_mov_alone _ _ Hnf)| |by eapply (nf_mov _ _ Hnf)].
    rewrite derive_mov_name_id7 in Hd by done. by apply (nf_mov_alone _ _ Hnf). }
  edestruct (resolve_and_push_ends N (4 + size claimed) fuel asset config (build asset config)
    (default (library config) (source_zone asset)) (build_payload asset config) (SizeDedup false)
    (identity_collision_filename (dp_filename d) (state_id asset)) d s4)
    as (s5 & r & -> & _); [by apply identity_fits|done|lia|lia|]. by eexists.
Qed.

(** A name that ends in [.MOV] and fits is kept as an ordinary name. *)
Lemma mov_name_fits y :
  str_len (y ++ lit ".MOV") <= MAX_FILENAME_BYTES → normal_name (clean_filename (y ++ lit ".MOV")) = true.
Proof.
  intros Hl. pose proof (clean_filename_clean (y ++ lit ".MOV")) as Hcl.
  rewrite clean_filename_short in * by (done || by destruct y).
  assert (86 ∈ map clean_char (y ++ lit ".MOV")) as Hv.
  { apply list_elem_of_fmap. exists 86. split; [done|]. rewrite elem_of_app. right. cbn. set_solver. }
  apply clean_name_normal; [done|intros Heq; rewrite Heq in Hv; set_solver..].
Qed.

Lemma mov_suffix_shape f :
  ∃ y, live_photo_mov_path_suffix f = y ++ lit ".MOV" ∧ str_len y <= str_len f + 5.
Proof.
  unfold live_photo_mov_path_suffix. destruct (rsplit_once DOT f) as [[stem e]|] eqn:E.
  - apply rsplit_once_Some in E as [-> _]. rewrite str_len_app. pose proof (str_len_nonneg (DOT :: e)).
    destruct (str_eqb _ _); [exists (stem ++ lit "_HEVC"); rewrite <- app_assoc, str_len_app|exists stem];
      (split; [done|]); [change (str_len (lit "_HEVC")) with 5|]; lia.
  - exists f. split; [done|lia].
Qed.

Lemma sample_names_fit : @names_fit sample_filter_env sample_asset sample_config.
Proof.
  assert (∀ d, fits sample_asset d ↔
     normal_name (clean_filename (dp_filename d)) = true ∧ str_len (dp_filename d) <= 229) as Hfits.
  { intros d. unfold fits. change (str_len (asset_identity_suffix (state_id sample_asset))) with 4.
    unfold MAX_FILENAME_BYTES. split; intros []; (split; [done|lia]). }
  assert (∀ f, str_len f <= 100 →
     normal_name (clean_filename (live_photo_mov_path_suffix f)) = true
     ∧ str_len (live_photo_mov_path_suffix f) <= 229) as Hmov.
  { intros f Hf. destruct (mov_suffix_shape f) as (y & -> & Hy). rewrite str_len_app.
    change (str_len (lit ".MOV")) with 4. split; [|lia].
    apply mov_name_fits. rewrite str_len_app. unfold MAX_FILENAME_BYTES. change (str_len (lit ".MOV")) with 4. lia. }
  split.
  - intros d Hd. apply Hfits. vm_compute in Hd. injection Hd as <-. split; vm_compute; [reflexivity|discriminate].
  - intros dx seen d Hdx Hd. apply Hfits.
    rewrite !elem_of_cons in Hdx. destruct Hdx as [->|[->|[->|[]%not_elem_of_nil]]].
    + unfold derive_edited_extra in Hd. destruct (negb _); [done|]. apply bind_Some in Hd as (v & Hv & Hd).
      vm_compute in Hv. injection Hv as <-. destruct (url_seen _ _); [done|]. injection Hd as <-.
      split; vm_compute; [reflexivity|discriminate].
    + unfold derive_alternative_extra in Hd. destruct (_ || _); [done|]. apply bind_Some in Hd as (v & Hv & _).
      vm_compute in Hv. discriminate Hv.
    + unfold derive_live_edited_extra in Hd. destruct (_ || _); [done|]. apply bind_Some in Hd as (v & Hv & _).
      vm_compute in Hv. discriminate Hv.
  - intros d Hd. apply Hfits. vm_compute in Hd. injection Hd as <-. split; vm_compute; [reflexivity|discriminate].
  - intros p f d Hp Hf Hd. apply Hfits. vm_compute in Hp. injection Hp as <-.
    assert (str_len f <= 100) as Hf' by (etrans; [exact Hf|vm_compute; discriminate]).
    unfold derive_mov_companion in Hd. apply bind_Some in Hd as ([v k] & _ & Hd).
    injection Hd as <-. exact (Hmov f Hf').
Qed.

Lemma filter_asset_to_tasks_returns_witness :
  is_Some (@filter_asset_to_tasks sample_filter_env 9 sample_asset sample_config sample_claimed DirCache.new).
Proof.
  refine (@filter_asset_to_tasks_returns sample_filter_env 1 9 sample_asset sample_config sample_claimed
    DirCache.new sample_names_fit _ _ _).
  - split; [intros k e Hk; cbn in Hk; by rewrite lookup_empty in Hk|].
    intros d. unfold read_dir_entries, filter_path_env, sample_filter_env, sample_env.
    destruct (str_eqb d _); vm_compute; lia.
  - vm_compute. lia.
  - vm_compute. discriminate.
Defined.

(** path resolution of a 255-byte file name never returns once its path
    is taken: [clean_filename] cuts every collision suffix off again, every
    candidate is the same path, which the loop has already tried, and the
    unbounded loop over ordinals goes on for ever (no fuel is enough). *)
Theorem full_length_name_never_resolves `{FilterEnv} fuel fname stem e size0 asset_id z ctx cache ampm :
  clean_name fname → str_len fname = MAX_FILENAME_BYTES →
  rsplit_once DOT fname = Some (stem, e) → stem ≠ [] → 0 <= size0 →
  occupied ctx cache (collision_path_for_filename ctx fname) →
  resolve_download_path fuel (collision_path_for_filename ctx fname) size0 (SizeDedup z) ctx cache ampm
    (size_or_identity_collision_filename fname size0 asset_id) = None.
Proof.
  intros Hcl Hlen Hr Hstem Hsz Ho. set (p := collision_path_for_filename ctx fname) in *.
  set (mk := size_or_identity_collision_filename fname size0 asset_id).
  assert (∀ k, match k with AssetIdentityOrdinal n => 0 <= n | _ => True end →
            collision_path_for_filename ctx (mk k) = p) as Hmk.
  { intros k Hk. unfold p, collision_path_for_filename, local_download_path.
    assert (∀ s, Forall safe_char s → clean_filename (insert_suffix fname s) = clean_filename fname) as Hs.
    { intros s Hs. rewrite (clean_suffix_cut fname stem e s), clean_filename_id; done. }
    pose proof (clean_filename_clean asset_id) as (_ & Hid & _).
    f_equal. destruct k; cbn; unfold insert_asset_identity_ordinal_suffix, insert_asset_identity_suffix.
    - rewrite add_dedup_suffix_insert. by apply Hs, show_u64_safe.
    - by apply Hs.
    - apply Hs. rewrite !Forall_app. split_and!; [done|by repeat constructor|by apply show_u64_safe]. }
  assert (∀ kind c, occupied ctx c p →
            match kind with AssetIdentityOrdinal n => 0 <= n | _ => True end →
            first_available_collision_path fuel ctx kind mk c = None) as Hloop.
  { intros kind c Hc Hk. unfold first_available_collision_path.
    destruct (available_occupied ctx mk kind c [] p (Hmk _ Hk) Hc) as (c1 & t1 & -> & Hc1).
    destruct (available_occupied ctx mk AssetIdentity c1 t1 p (Hmk AssetIdentity I) Hc1) as (c2 & t2 & -> & Hc2).
    eapply ordinal_loop_occupied; [|lia|done]. intros k Hk2. apply Hmk. lia. }
  unfold resolve_download_path.
  pose proof (DirCacheFacts.file_size_repeat cache p) as Hrep.
  destruct (DirCache.file_size cache p) as [c1 sz] eqn:Es. cbn in Hrep.
  assert (occupied ctx c1 p) as Ho1.
  { destruct Ho as [Ho|Ho]; [left|by right]. rewrite Es in Ho. by rewrite Hrep. }
  set (blk := match sz with Some _ => _ | None => _ end).
  assert (occupied ctx blk.1 p ∧ (is_Some blk.2 ∨ is_Some (rc_claimed_paths ctx !! normalize p)))
    as [Ho2 Hm].
  { subst blk. destruct sz as [s|]; [split; [done|left; by eexists]|].
    destruct Ho1 as [Ho1|Ho1]; [rewrite Hrep in Ho1; by destruct Ho1|].
    split; right; done. }
  destruct blk as [c2 odm]. cbn in *.
  assert (∃ es q, match odm with Some m => Some m
            | None => (λ s, (s, p)) <$> rc_claimed_paths ctx !! normalize p end = Some (es, q))
    as (es & q & ->).
  { destruct odm as [[es q]|]; [by eauto|]. destruct Hm as [[? ?]|[s ->]]; [done|]. cbn. by eauto. }
  rewrite Hloop; [done|done|]. by destruct ((negb z || _) && _).
Qed.

Definition full_length_name : str := repeat 97 251 ++ lit ".jpg".

(** A library where the full-length name is already claimed. *)
Definition full_length_ctx : @ResolveContext sample_filter_env :=
  @Build_ResolveContext sample_filter_env sample_config tt {[ lit "/d/" ++ full_length_name := 7 ]}.

Lemma full_length_name_never_resolves_witness :
  @resolve_download_path sample_filter_env 100 (lit "/d/" ++ full_length_name) 20 (SizeDedup true)
    full_length_ctx DirCache.new true
    (size_or_identity_collision_filename full_length_name 20 (lit "REC1")) = None.
Proof.
  refine (@full_length_name_never_resolves sample_filter_env 100 full_length_name
    (repeat 97 251) (lit "jpg") 20 (lit "REC1") true full_length_ctx DirCache.new true _ _ _ _ _ _).
  - split; [done|]. split; [|by vm_compute].
    apply existsb_invalid_false. by vm_compute.
  - by vm_compute.
  - by vm_compute.
  - done.
  - lia.
  - right. by vm_compute; eexists.
Defined.
