(* ===== verification/Retry.v ===== *)
(** * Retrying: [src/retry.rs], [src/download/error.rs]

    The exponential-backoff loop around every remote call, the typed
    download errors that drive it, and the classifiers of
    [src/download/file.rs] and [src/download/pipeline.rs].  The asynchronous
    operation is an oracle from the attempt number to its outcome, and the
    random jitter an oracle from the retry number; the loop's effects are a
    trace of events. *)
From S2P Require Import Prelude RustStr.

(** ** Durations

    A [Duration] is a number of nanoseconds. *)
Definition NANOS : Z := 1000000000.
Definition from_secs (s : Z) : Z := s * NANOS.

(** [parse_retry_after_header]: [header] is the text of the [Retry-After]
    header when it is present and visible ASCII ([reqwest]'s [get] and [to_str]). *)
Definition parse_retry_after_header (header : option str) (max : Z) : option Z :=
  text ← header;
  secs ← parse_u64 (trim text);
  if secs =? 0 then None else Some (Z.min (from_secs secs) max).

Inductive RetryAction :=
| Retry
| RetryAfter (d : Z)
| Abort.

Record RetryConfig := {
  max_retries : Z;       (** [u32] *)
  base_delay_secs : Z;   (** [u64] *)
  max_delay_secs : Z;    (** [u64] *)
}.

Definition RetryConfig_default : RetryConfig :=
  {| max_retries := 3; base_delay_secs := 5; max_delay_secs := 60 |}.

Definition validate (c : RetryConfig) : result unit unit :=
  ensure (base_delay_secs c <=? max_delay_secs c) tt.

(** [1u64.checked_shl(n)]. *)
Definition checked_shl_1 (n : Z) : option Z := if n <? 64 then Some (Z.shiftl 1 n) else None.

(** [jitter] is what [random_range(0..base_delay_secs)] draws; it is drawn
    only when the base is positive. *)
Definition delay_for_retry (c : RetryConfig) (retry jitter : Z) : Z :=
  let exp_delay := saturating_mul U64_MAX (base_delay_secs c)
                     (default U64_MAX (checked_shl_1 retry)) in
  let capped := Z.min exp_delay (max_delay_secs c) in
  let jitter := if 0 <? base_delay_secs c then jitter else 0 in
  from_secs (wrapping_add_u64 capped jitter).

(** ** The loop *)

Inductive RetryEvent (E : Type) :=
| Attempted (attempt : Z)
| Classified (e : E)
| Slept (d : Z)
| BackOnTrack
| GivingUp.
Arguments Attempted {E} attempt.
Arguments Classified {E} e.
Arguments Slept {E} d.
Arguments BackOnTrack {E}.
Arguments GivingUp {E}.

#[export] Instance RetryAction_eq : EqDecision RetryAction.
Proof. solve_decision. Defined.

Section Loop.
Context {T E : Type}.
Context (config : RetryConfig) (classifier : E → RetryAction).
Context (operation : Z → result E T) (jitter : Z → Z).

Definition total_attempts : Z := saturating_add U32_MAX (max_retries config) 1.

Definition retry_delay (action : RetryAction) (attempt : Z) : Z :=
  match action with
  | RetryAfter d => Z.min d (from_secs (max_delay_secs config))
  | _ => delay_for_retry config attempt (jitter attempt)
  end.

(** [for attempt in 0..total_attempts], [remaining] iterations to go;
    [None] is the [unreachable!] after the loop. *)
Fixpoint retry_loop (remaining : nat) (attempt : Z) (paused_at_least_once : bool)
    : option (result E T * list (RetryEvent E)) :=
  match remaining with
  | O => None
  | S remaining =>
      match operation attempt with
      | Ok val =>
          Some (Ok val, Attempted attempt :: (if paused_at_least_once then [BackOnTrack] else []))
      | Err e =>
          let action := classifier e in
          match action with
          | Abort => Some (Err e, [Attempted attempt; Classified e])
          | _ =>
              let is_last := total_attempts <=? attempt + 1 in
              if is_last then
                Some (Err e, Attempted attempt :: Classified e
                             :: (if paused_at_least_once then [GivingUp] else []))
              else
                let delay := retry_delay action attempt in
                '(r, events) ← retry_loop remaining (attempt + 1) true;
                Some (r, Attempted attempt :: Classified e :: Slept delay :: events)
          end
      end
  end.

Definition retry_with_backoff_with_mode : option (result E T * list (RetryEvent E)) :=
  retry_loop (Z.to_nat total_attempts) 0 false.

(** ** What the loop does *)

(** The attempt whose outcome ends the loop. *)
Definition final_attempt (k : Z) : Prop :=
  match operation k with
  | Ok _ => True
  | Err e => classifier e = Abort ∨ total_attempts = k + 1
  end.
(** The outcome of an attempt after which the loop goes on. *)
Definition retried (k : Z) : Prop :=
  match operation k with
  | Ok _ => False
  | Err e => classifier e ≠ Abort ∧ k + 1 < total_attempts
  end.

Definition attempts_of (evs : list (RetryEvent E)) : list Z :=
  omap (λ ev, match ev with Attempted a => Some a | _ => None end) evs.
Definition sleeps_of (evs : list (RetryEvent E)) : list Z :=
  omap (λ ev, match ev with Slept d => Some d | _ => None end) evs.
Definition errors_of (evs : list (RetryEvent E)) : list E :=
  omap (λ ev, match ev with Classified e => Some e | _ => None end) evs.

(** The delay slept after the failed attempt [k]. *)
Definition delay_after (k : Z) : Z :=
  match operation k with
  | Ok _ => 0
  | Err e => retry_delay (classifier e) k
  end.

Definition error_of (k : Z) : option E :=
  match operation k with Ok _ => None | Err e => Some e end.

(** A run from [attempt]: it ends with the outcome of the final attempt
    [k], retries every attempt before it and sleeps between them. *)
Record run_of (attempt : Z) (r : result E T) (evs : list (RetryEvent E)) (k : Z) : Prop := {
  run_range : attempt <= k < total_attempts;
  run_outcome : r = operation k;
  run_final : final_attempt k;
  run_retried : ∀ j, attempt <= j < k → retried j;
  run_attempts : attempts_of evs = seqZ attempt (k + 1 - attempt);
  run_sleeps : sleeps_of evs = map delay_after (seqZ attempt (k - attempt));
  run_errors : errors_of evs = omap error_of (seqZ attempt (k + 1 - attempt));
}.

Lemma run_of_end attempt evs :
  attempt < total_attempts → final_attempt attempt →
  attempts_of evs = [attempt] → sleeps_of evs = [] →
  errors_of evs = option_list (error_of attempt) →
  run_of attempt (operation attempt) evs attempt.
Proof.
  intros Hr Hf Ha Hs He. split; try done.
  - intros j Hj. lia.
  - rewrite Ha. replace (attempt + 1 - attempt) with 1 by lia. done.
  - rewrite Hs. by replace (attempt - attempt) with 0 by lia.
  - rewrite He. replace (attempt + 1 - attempt) with 1 by lia.
    change (seqZ attempt 1) with [0 + attempt]. rewrite Z.add_0_l. cbn. by destruct (error_of attempt).
Qed.

Lemma run_of_retry attempt e r evs k :
  operation attempt = Err e → retried attempt → run_of (attempt + 1) r evs k →
  run_of attempt r (Attempted attempt :: Classified e :: Slept (delay_after attempt) :: evs) k.
Proof.
  intros Ho Hre [Hk -> Hf Hr Ha Hs He].
  split; try done; [lia| |unfold attempts_of, sleeps_of, errors_of in *; cbn..].
  - intros j Hj. destruct (decide (j = attempt)) as [->|]; [done|]. apply Hr. lia.
  - rewrite Ha, (seqZ_cons attempt) by lia. f_equal. f_equal; lia.
  - rewrite Hs, (seqZ_cons attempt) by lia. cbn. f_equal. f_equal. f_equal; lia.
  - rewrite He, (seqZ_cons attempt) by lia. cbn. unfold error_of at 2. rewrite Ho.
    f_equal. f_equal. f_equal; lia.
Qed.

Lemma retry_loop_run remaining attempt paused :
  attempt + Z.of_nat remaining = total_attempts → attempt < total_attempts →
  ∃ r evs k, retry_loop remaining attempt paused = Some (r, evs) ∧ run_of attempt r evs k.
Proof.
  revert attempt paused. induction remaining as [|rem IH]; intros attempt paused Htot Hpos; [lia|].
  cbn [retry_loop]. destruct (operation attempt) as [v|e] eqn:Eo.
  { eexists _, _, attempt. split; [done|]. rewrite <- Eo.
    apply run_of_end; unfold final_attempt, error_of; rewrite ?Eo; try done; by destruct paused. }
  destruct (decide (classifier e = Abort)) as [Ea|Ea].
  { rewrite Ea. eexists _, _, attempt. split; [done|]. rewrite <- Eo.
    apply run_of_end; unfold final_attempt, error_of; rewrite ?Eo; try done. by left. }
  destruct (Z.leb_spec total_attempts (attempt + 1)) as [Hl|Hl].
  { eexists _, _, attempt. split; [by destruct (classifier e)|]. rewrite <- Eo.
    apply run_of_end; unfold final_attempt, error_of; rewrite ?Eo; try done; try by destruct paused.
    right. lia. }
  destruct (IH (attempt + 1) true) as (r & evs & k & Hrec & Hrun); [lia..|].
  exists r, (Attempted attempt :: Classified e :: Slept (delay_after attempt) :: evs), k.
  rewrite Hrec. split.
  - unfold delay_after. rewrite Eo. by destruct (classifier e).
  - apply run_of_retry; try done. unfold retried. rewrite Eo. split; [done|lia].
Qed.

Lemma total_attempts_pos : 0 <= max_retries config → 1 <= total_attempts.
Proof. unfold total_attempts, saturating_add, U32_MAX. lia. Qed.

Lemma retry_run :
  0 <= max_retries config →
  ∃ r evs k, retry_with_backoff_with_mode = Some (r, evs) ∧ run_of 0 r evs k.
Proof.
  intros Hm. pose proof (total_attempts_pos Hm). apply retry_loop_run; lia.
Qed.
End Loop.

(** ** Download errors: [src/download/error.rs] *)

Section DownloadErrors.
(** [std::io::Error], [Box<dyn Error>] and [anyhow::Error]. *)
Context {IoError BoxError AnyError : Type}.

Inductive DownloadError :=
| HttpStatus (status : Z) (path : str)
| ContentLengthMismatch (path : str) (expected received : Z)
| Disk (e : IoError)
| Http (source : BoxError) (path : str) (status : Z) (content_length : option Z) (bytes_written : Z)
| InvalidContent (path reason : str)
| Interrupted (path : str) (bytes_written : Z)
| Other (e : AnyError).

Definition is_retryable (e : DownloadError) : bool :=
  match e with
  | HttpStatus status _ => (status =? 429) || (500 <=? status)
  | ContentLengthMismatch _ _ _ | InvalidContent _ _ | Http _ _ _ _ _ => true
  | Disk _ | Interrupted _ _ | Other _ => false
  end.

Definition is_rate_limited (e : DownloadError) : bool :=
  match e with
  | HttpStatus status _ => (status =? 429) || (status =? 503)
  | _ => false
  end.

Definition is_session_expired (e : DownloadError) : bool :=
  match e with
  | HttpStatus status _ => (status =? 401) || (status =? 403)
  | _ => false
  end.

Definition is_expired_url (e : DownloadError) : bool :=
  match e with
  | HttpStatus status _ => status =? 410
  | _ => false
  end.

Definition is_interrupted (e : DownloadError) : bool :=
  match e with Interrupted _ _ => true | _ => false end.

(** [src/download/pipeline.rs]; [downcast] is [anyhow]'s [downcast_ref]. *)
Inductive DownloadTaskErrorClass :=
| ClassInterrupted | ClassSessionExpired | ClassExpiredUrl | ClassOther.
#[export] Instance DownloadTaskErrorClass_eq : EqDecision DownloadTaskErrorClass.
Proof. solve_decision. Defined.

Definition classify_download_task_error (downcast : AnyError → option DownloadError)
    (error : AnyError) : DownloadTaskErrorClass :=
  match downcast error with
  | None => ClassOther
  | Some download_err =>
      if is_interrupted download_err then ClassInterrupted
      else if is_session_expired download_err then ClassSessionExpired
      else if is_expired_url download_err then ClassExpiredUrl
      else ClassOther
  end.

(** [download_file_with_mode] of [src/download/file.rs]: the retry loop
    around one download attempt.  The classifier is called once per failed
    attempt and counts the rate-limited ones in the shared counter. *)
Definition download_classifier (e : DownloadError) : RetryAction :=
  if is_retryable e then Retry else Abort.

Definition count_rate_limited (counter : option Z) (errors : list DownloadError) : option Z :=
  fold_left (λ counter e,
    match counter with
    | Some n => if is_rate_limited e then Some (n + 1) else counter
    | None => None
    end) errors counter.

Definition download_file_with_mode (temp_download_path : result AnyError str)
    (retry_config : RetryConfig) (attempt_download : str → Z → result DownloadError Z)
    (jitter : Z → Z) (rate_limit_counter : option Z)
    : option (result DownloadError Z * list (RetryEvent DownloadError) * option Z) :=
  match temp_download_path with
  | Err e => Some (Err (Other e), [], rate_limit_counter)
  | Ok part_path =>
      '(r, evs) ← retry_with_backoff_with_mode retry_config download_classifier
                    (attempt_download part_path) jitter;
      Some (r, evs, count_rate_limited rate_limit_counter (errors_of evs))
  end.

Lemma count_rate_limited_Some n errors :
  count_rate_limited (Some n) errors = Some (n + zlen (List.filter is_rate_limited errors)).
Proof.
  unfold count_rate_limited. revert n.
  induction errors as [|e errors IH]; intros n; cbn; [f_equal; lia|].
  destruct (is_rate_limited e); rewrite IH; cbn [length]; f_equal; lia.
Qed.
End DownloadErrors.
Arguments DownloadError : clear implicits.

(** ** Properties *)

(** C26: the retry loop always returns (the [unreachable!] after the loop is
    never reached), within [max_retries + 1] attempts (capped at [u32::MAX]).
    There is an attempt [k] such that the loop returns the outcome of attempt
    [k]; [k] succeeded, was classified [Abort], or was the last allowed one;
    every attempt before [k] failed with a retryable error; the attempts made
    are exactly [0..k], and exactly one sleep of the prescribed delay follows
    each of the [k] retried attempts. *)
Theorem retry_with_backoff_returns {T E} (config : RetryConfig) (classifier : E → RetryAction)
    (operation : Z → result E T) jitter :
  0 <= max_retries config →
  ∃ evs k, retry_with_backoff_with_mode config classifier operation jitter = Some (operation k, evs)
    ∧ 0 <= k <= max_retries config ∧ k < U32_MAX
    ∧ match operation k with
      | Ok _ => True
      | Err e => classifier e = Abort ∨ total_attempts config = k + 1
      end
    ∧ (∀ j, 0 <= j < k → ∃ e, operation j = Err e ∧ classifier e ≠ Abort)
    ∧ attempts_of evs = seqZ 0 (k + 1)
    ∧ sleeps_of evs = map (delay_after config classifier operation jitter) (seqZ 0 k).
Proof.
  intros Hm. destruct (retry_run config classifier operation jitter Hm)
    as (r & evs & k & Hr & [Hk -> Hf Hre Ha Hs He]).
  exists evs, k. unfold total_attempts, saturating_add, U32_MAX in Hk |- *.
  rewrite Z.sub_0_r in Ha, Hs. split_and!; try done; try lia.
  intros j Hj. specialize (Hre j ltac:(lia)). unfold retried in Hre.
  destruct (operation j) as [|e]; [done|]. destruct Hre as [Hne _]. by exists e.
Qed.

Lemma retry_with_backoff_returns_witness :
  let op := λ k, if k =? 2 then Ok 7 else Err k in
  ∃ evs k, retry_with_backoff_with_mode RetryConfig_default (λ _, Retry) op (λ _, 1) = Some (op k, evs)
    ∧ 0 <= k <= 3 ∧ k < U32_MAX
    ∧ match op k with
      | Ok _ => True
      | Err e => Retry = Abort ∨ total_attempts RetryConfig_default = k + 1
      end
    ∧ (∀ j, 0 <= j < k → ∃ e, op j = Err e ∧ Retry ≠ Abort)
    ∧ attempts_of evs = seqZ 0 (k + 1)
    ∧ sleeps_of evs = map (delay_after RetryConfig_default (λ _, Retry) op (λ _, 1)) (seqZ 0 k).
Proof. intros op. apply (retry_with_backoff_returns RetryConfig_default (λ _, Retry) op). cbn. lia. Defined.

(** for a valid configuration of [u64] seconds, the saturating, shifting
    computation of the backoff is exactly [min(base * 2^retry, max) + jitter]
    for every [u32] retry number; it does not overflow as long as
    [base + max <= u64::MAX], stays within [min(base, max) .. max + base) and
    never decreases (jitter aside) from one retry to the next. *)
Theorem delay_for_retry_exact c retry jitter :
  0 <= base_delay_secs c → base_delay_secs c + max_delay_secs c <= U64_MAX →
  is_ok (validate c) = true → 0 <= retry → 0 <= jitter < Z.max 1 (base_delay_secs c) →
  delay_for_retry c retry jitter
    = from_secs (Z.min (base_delay_secs c * 2 ^ retry) (max_delay_secs c) + jitter)
  ∧ from_secs (base_delay_secs c) <= delay_for_retry c retry jitter
      <= from_secs (max_delay_secs c + base_delay_secs c)
  ∧ delay_for_retry c retry 0 <= delay_for_retry c (retry + 1) 0.
Proof.
  intros Hb Hsum Hv Hr Hj.
  assert (base_delay_secs c <= max_delay_secs c) as Hbm.
  { unfold validate, ensure in Hv. destruct (Z.leb_spec (base_delay_secs c) (max_delay_secs c)); done. }
  assert (∀ r j, 0 <= r → 0 <= j < Z.max 1 (base_delay_secs c) →
    delay_for_retry c r j = from_secs (Z.min (base_delay_secs c * 2 ^ r) (max_delay_secs c) + j)) as Heq.
  { intros r j Hr0 Hj0. unfold delay_for_retry. f_equal.
    assert (Z.min (saturating_mul U64_MAX (base_delay_secs c) (default U64_MAX (checked_shl_1 r)))
              (max_delay_secs c) = Z.min (base_delay_secs c * 2 ^ r) (max_delay_secs c)) as ->.
    { unfold saturating_mul, checked_shl_1. destruct (Z.ltb_spec r 64); cbn [default].
      - rewrite Z.shiftl_mul_pow2, Z.mul_1_l by lia. unfold id. lia.
      - assert (2 ^ 64 <= 2 ^ r) by (apply Z.pow_le_mono_r; lia).
        change (2 ^ 64) with (U64_MAX + 1) in *.
        destruct (decide (base_delay_secs c = 0)) as [->|]; [lia|].
        assert (1 * U64_MAX <= base_delay_secs c * U64_MAX) by nia.
        assert (1 * U64_MAX <= base_delay_secs c * 2 ^ r) by nia. lia. }
    assert ((if 0 <? base_delay_secs c then j else 0) = j) as ->.
    { destruct (Z.ltb_spec 0 (base_delay_secs c)); lia. }
    unfold wrapping_add_u64. apply Z.mod_small.
    assert (0 <= 2 ^ r) by lia. nia. }
  assert (1 <= 2 ^ retry) by (apply (Z.pow_le_mono_r 2 0 retry); lia).
  split; [by apply Heq|]. rewrite !Heq by lia. unfold from_secs, NANOS.
  rewrite Z.pow_add_r by lia. change (2 ^ 1) with 2. split; nia.
Qed.

Lemma delay_for_retry_exact_witness :
  delay_for_retry RetryConfig_default 5 4 = from_secs (Z.min (5 * 2 ^ 5) 60 + 4)
  ∧ from_secs 5 <= delay_for_retry RetryConfig_default 5 4 <= from_secs (60 + 5)
  ∧ delay_for_retry RetryConfig_default 5 0 <= delay_for_retry RetryConfig_default 6 0.
Proof. apply (delay_for_retry_exact RetryConfig_default 5 4); cbn; lia || done. Defined.

(** a file download whose attempt fails with an expired session (401,
    403), an expired url (410), an interruption, a disk error or an untyped
    error is not attempted again: the error is returned at once, nothing is
    slept.  In every run, the rate-limit counter grows by the number of
    attempts answered 429 or 503. *)
Theorem download_file_error_handling {I B A} (part : str) (c : RetryConfig)
    (attempt_download : str → Z → result (DownloadError I B A) Z) jitter n :
  0 <= max_retries c →
  ∃ r evs, download_file_with_mode (Ok part) c attempt_download jitter (Some n)
             = Some (r, evs, Some (n + zlen (List.filter is_rate_limited (errors_of evs))))
  ∧ (∀ k, k ∈ attempts_of evs → ∀ e, attempt_download part k = Err e →
       is_session_expired e || is_expired_url e || is_interrupted e
       || match e with Disk _ | Other _ => true | _ => false end = true →
       r = Err e ∧ attempts_of evs = seqZ 0 (k + 1))
  ∧ errors_of evs = omap (λ k, match attempt_download part k with
                               | Err e => Some e | Ok _ => None end) (attempts_of evs).
Proof.
  intros Hm. destruct (retry_run c download_classifier (attempt_download part) jitter Hm)
    as (r & evs & k & Hr & [Hk -> Hf Hre Ha Hs He]).
  rewrite Z.sub_0_r in Ha, He. eexists _, evs. unfold download_file_with_mode. rewrite Hr. cbn.
  rewrite count_rate_limited_Some. split_and!; [done| |by rewrite Ha, He].
  intros j Hj e Ej Hcl. rewrite Ha in Hj. apply elem_of_seqZ in Hj.
  destruct (decide (j = k)) as [->|]; [by rewrite Ej|exfalso].
  specialize (Hre j ltac:(lia)). unfold retried in Hre. rewrite Ej in Hre.
  destruct Hre as [Hre _]. apply Hre. unfold download_classifier.
  enough (is_retryable e = false) as -> by done.
  destruct e as [s ?| | | | | |]; cbn in Hcl |- *; try done. zbool.
  rewrite !orb_true_iff, !Z.eqb_eq in Hcl. lia.
Qed.

Lemma download_file_error_handling_witness :
  let op := λ (_ : str) k, if k =? 0 then Err (HttpStatus 503 (lit "p"))
                           else Err (HttpStatus 410 (lit "p") : DownloadError unit unit unit) in
  ∃ r evs, download_file_with_mode (Ok (lit "x")) RetryConfig_default op (λ _, 0) (Some 0)
             = Some (r, evs, Some (0 + zlen (List.filter is_rate_limited (errors_of evs))))
  ∧ (∀ k, k ∈ attempts_of evs → ∀ e, op (lit "x") k = Err e →
       is_session_expired e || is_expired_url e || is_interrupted e
       || match e with Disk _ | Other _ => true | _ => false end = true →
       r = Err e ∧ attempts_of evs = seqZ 0 (k + 1))
  ∧ errors_of evs = omap (λ k, match op (lit "x") k with
                               | Err e => Some e | Ok _ => None end) (attempts_of evs).
Proof.
  intros op. apply (download_file_error_handling (lit "x") RetryConfig_default op). cbn. lia.
Defined.

(** [classify_download_task_error] separates the typed errors: the three
    special classes are exactly the errors the retry loop gives up on for a
    reason that concerns the run (interruption, session, url), and none of
    them is ever retryable or rate limited. *)
Theorem classified_errors_not_retryable {I B A} (downcast : A → option (DownloadError I B A)) err :
  match classify_download_task_error downcast err with
  | ClassOther => ∀ e, downcast err = Some e →
      is_interrupted e = false ∧ is_session_expired e = false ∧ is_expired_url e = false
  | cls => ∃ e, downcast err = Some e ∧ is_retryable e = false ∧ is_rate_limited e = false
           ∧ is_interrupted e = bool_decide (cls = ClassInterrupted)
           ∧ is_session_expired e = bool_decide (cls = ClassSessionExpired)
           ∧ is_expired_url e = bool_decide (cls = ClassExpiredUrl)
  end.
Proof.
  unfold classify_download_task_error. destruct (downcast err) as [e|]; [|done].
  destruct e as [s p| | | | |p b|]; cbn; try (by intros ? [= <-]); [|by eexists].
  destruct ((s =? 401) || (s =? 403)) eqn:E1; [|destruct (s =? 410) eqn:E2].
  - eexists. split; [done|]. cbn. rewrite E1. apply orb_true_iff in E1.
    rewrite !Z.eqb_eq in E1. by destruct E1; subst.
  - eexists. split; [done|]. cbn. rewrite E1, E2. zbool. subst. done.
  - intros ? [= <-]. cbn. by rewrite E1, E2.
Qed.
