(* ===== verification/Selection.v ===== *)
(** * Selection flags: [src/selection.rs]

    The parsers of the [--album], [--smart-folder] and [--library] values
    and their inverse [to_raw].  A [BTreeSet<String>] is the strictly
    increasing list of its elements in the order [BTreeSet] iterates. *)
From Stdlib Require Import Sorting.Sorted.
From S2P Require Import Prelude RustStr.

(** ** [BTreeSet<String>] *)

(** [str]'s [Ord]: by code point, which is the order of the UTF-8 bytes. *)
Fixpoint str_ltb (a b : str) : bool :=
  match a, b with
  | _, [] => false
  | [], _ :: _ => true
  | x :: a', y :: b' => (x <? y) || ((x =? y) && str_ltb a' b')
  end.

(** [BTreeSet::insert]: [None] when the value was already present. *)
Fixpoint bset_insert (x : str) (s : list str) : option (list str) :=
  match s with
  | [] => Some [x]
  | y :: s' =>
      if str_ltb x y then Some (x :: s)
      else if str_eqb x y then None
      else (y ::.) <$> bset_insert x s'
  end.

Definition strictly_sorted (s : list str) : Prop := StronglySorted (λ a b, str_ltb a b = true) s.

(** ** Selectors *)

Inductive AlbumSelector :=
| AlbumNone
| AlbumAll (excluded : list str)
| AlbumNamed (included excluded : list str).

Definition AlbumSelector_default : AlbumSelector := AlbumAll [].

Inductive SmartFolderSelector :=
| SmartNone
| SmartAll (include_sensitive : bool) (excluded : list str)
| SmartNamed (included excluded : list str).

Record LibrarySelector := {
  primary : bool;
  shared_all : bool;
  named : list str;
  excluded : list str;
}.

Definition LibrarySelector_default : LibrarySelector :=
  {| primary := true; shared_all := false; named := []; excluded := [] |}.

Definition is_empty (l : LibrarySelector) : bool :=
  negb (primary l) && negb (shared_all l) && match named l with [] => true | _ => false end.

(** What [anyhow::ensure!] and [bail!] report. *)
Inductive SelectionError :=
| EmptyValue
| EmptyLiteral
| BangEquals
| ExcludedSentinel (sentinel : str)
| Duplicate (display_name : str)
| NoneCombined
| AllWithNames
| BothAlls
| Contradiction (name : str)
| UnsupportedLibrary (name : str)
| LibraryNone
| NoLibrary.

Abbreviation res := (result SelectionError).

(** ** Tokens *)

Record SelectorToken := { tk_name : str; tk_exclude : bool; tk_escaped : bool }.

Definition selector_token (raw : str) : res SelectorToken :=
  match strip_prefix (lit "=") raw with
  | Some literal =>
      ensure (negb (str_eqb literal [])) EmptyLiteral ;;
      Ok {| tk_name := literal; tk_exclude := false; tk_escaped := true |}
  | None =>
      let '(name, exclude) :=
        match strip_prefix (lit "!") raw with Some r => (r, true) | None => (raw, false) end in
      ensure (negb (str_eqb name [])) EmptyValue ;;
      ensure (negb (starts_with (lit "=") name)) BangEquals ;;
      Ok {| tk_name := name; tk_exclude := exclude; tk_escaped := false |}
  end.

Definition escape_if_needed (name : str) (sentinels : list str) : str :=
  if starts_with (lit "!") name || starts_with (lit "=") name
     || existsb (eq_ignore_ascii_case name) sentinels
  then lit "=" ++ name else name.

Definition insert_unique (s : list str) (value display_name : str) : res (list str) :=
  ok_or (Duplicate display_name) (bset_insert value s).

Definition contradiction_check (included excluded : list str) : res unit :=
  match findb (λ n, existsb (str_eqb n) excluded) included with
  | Some name => Err (Contradiction name)
  | None => Ok tt
  end.

(** [for entry in raw { let trimmed = ..; ensure!(!trimmed.is_empty()); let
    token = selector_token(trimmed)?; .. }] with the body [step]. *)
Definition for_tokens {S} (step : S → SelectorToken → res S) (raw : list str) (s : S) : res S :=
  fold_left (λ acc entry,
    s ← acc;
    let trimmed := trim entry in
    ensure (negb (str_eqb trimmed [])) EmptyValue ;;
    token ← selector_token trimmed;
    step s token) raw (Ok s).

(** The token is the unescaped sentinel [word], in any case. *)
Definition is_sentinel (word : str) (t : SelectorToken) : bool :=
  eq_ignore_ascii_case (tk_name t) word && negb (tk_escaped t).

(** The last two branches of each loop: a name to exclude or to include. *)
Definition add_name (t : SelectorToken) (included excluded : list str) : res (list str * list str) :=
  if tk_exclude t
  then excluded ← insert_unique excluded (tk_name t) (lit "!" ++ tk_name t); Ok (included, excluded)
  else included ← insert_unique included (tk_name t) (tk_name t); Ok (included, excluded).

(** ** Albums *)

Record AlbumState := { al_all : bool; al_none : bool; al_included : list str; al_excluded : list str }.

Definition album_step (s : AlbumState) (t : SelectorToken) : res AlbumState :=
  if is_sentinel (lit "all") t then
    ensure (negb (tk_exclude t)) (ExcludedSentinel (lit "all")) ;;
    Ok {| al_all := true; al_none := al_none s;
          al_included := al_included s; al_excluded := al_excluded s |}
  else if is_sentinel (lit "none") t then
    ensure (negb (tk_exclude t)) (ExcludedSentinel (lit "none")) ;;
    Ok {| al_all := al_all s; al_none := true;
          al_included := al_included s; al_excluded := al_excluded s |}
  else
    '(inc, exc) ← add_name t (al_included s) (al_excluded s);
    Ok {| al_all := al_all s; al_none := al_none s; al_included := inc; al_excluded := exc |}.

Definition is_nil {A} (l : list A) : bool := match l with [] => true | _ => false end.

Definition album_finish (s : AlbumState) : res AlbumSelector :=
  contradiction_check (al_included s) (al_excluded s) ;;
  if al_none s then
    ensure (negb (al_all s) && is_nil (al_included s) && is_nil (al_excluded s)) NoneCombined ;;
    Ok AlbumNone
  else if al_all s then
    ensure (is_nil (al_included s)) AllWithNames ;;
    Ok (AlbumAll (al_excluded s))
  else if negb (is_nil (al_included s)) then Ok (AlbumNamed (al_included s) (al_excluded s))
  else Ok (AlbumAll (al_excluded s)).

Definition parse_album_selector (raw : list str) (default_to_all : bool) : res AlbumSelector :=
  match raw with
  | [] => Ok (if default_to_all then AlbumSelector_default else AlbumNone)
  | _ => s ← for_tokens album_step raw
               {| al_all := false; al_none := false; al_included := []; al_excluded := [] |};
         album_finish s
  end.

Definition exclusions (excluded : list str) : list str := map (λ n, lit "!" ++ n) excluded.

Definition AlbumSelector_to_raw (a : AlbumSelector) : list str :=
  match a with
  | AlbumNone => [lit "none"]
  | AlbumAll excluded => lit "all" :: exclusions excluded
  | AlbumNamed included excluded =>
      map (λ n, escape_if_needed n [lit "all"; lit "none"]) included ++ exclusions excluded
  end.

(** ** Smart folders *)

Record SmartState := {
  sm_all : bool; sm_all_sensitive : bool; sm_none : bool;
  sm_included : list str; sm_excluded : list str;
}.

Definition smart_step (s : SmartState) (t : SelectorToken) : res SmartState :=
  if is_sentinel (lit "all") t then
    ensure (negb (tk_exclude t)) (ExcludedSentinel (lit "all")) ;;
    Ok {| sm_all := true; sm_all_sensitive := sm_all_sensitive s; sm_none := sm_none s;
          sm_included := sm_included s; sm_excluded := sm_excluded s |}
  else if is_sentinel (lit "all-with-sensitive") t then
    ensure (negb (tk_exclude t)) (ExcludedSentinel (lit "all-with-sensitive")) ;;
    Ok {| sm_all := sm_all s; sm_all_sensitive := true; sm_none := sm_none s;
          sm_included := sm_included s; sm_excluded := sm_excluded s |}
  else if is_sentinel (lit "none") t then
    ensure (negb (tk_exclude t)) (ExcludedSentinel (lit "none")) ;;
    Ok {| sm_all := sm_all s; sm_all_sensitive := sm_all_sensitive s; sm_none := true;
          sm_included := sm_included s; sm_excluded := sm_excluded s |}
  else
    '(inc, exc) ← add_name t (sm_included s) (sm_excluded s);
    Ok {| sm_all := sm_all s; sm_all_sensitive := sm_all_sensitive s; sm_none := sm_none s;
          sm_included := inc; sm_excluded := exc |}.

Definition smart_finish (s : SmartState) : res SmartFolderSelector :=
  contradiction_check (sm_included s) (sm_excluded s) ;;
  if sm_none s then
    ensure (negb (sm_all s) && negb (sm_all_sensitive s)
            && is_nil (sm_included s) && is_nil (sm_excluded s)) NoneCombined ;;
    Ok SmartNone
  else if sm_all s || sm_all_sensitive s then
    ensure (negb (sm_all s && sm_all_sensitive s)) BothAlls ;;
    ensure (is_nil (sm_included s)) AllWithNames ;;
    Ok (SmartAll (sm_all_sensitive s) (sm_excluded s))
  else if negb (is_nil (sm_included s)) then Ok (SmartNamed (sm_included s) (sm_excluded s))
  else Ok (SmartAll false (sm_excluded s)).

Definition parse_smart_folder_selector (raw : list str) : res SmartFolderSelector :=
  match raw with
  | [] => Ok SmartNone
  | _ => s ← for_tokens smart_step raw
               {| sm_all := false; sm_all_sensitive := false; sm_none := false;
                  sm_included := []; sm_excluded := [] |};
         smart_finish s
  end.

Definition SmartFolderSelector_to_raw (a : SmartFolderSelector) : list str :=
  match a with
  | SmartNone => []
  | SmartAll include_sensitive excluded =>
      (if include_sensitive then lit "all-with-sensitive" else lit "all") :: exclusions excluded
  | SmartNamed included excluded =>
      map (λ n, escape_if_needed n [lit "all"; lit "all-with-sensitive"; lit "none"]) included
      ++ exclusions excluded
  end.

(** ** Libraries *)

Record LibraryState := { li_sel : LibrarySelector; li_all : bool; li_none : bool }.

Definition with_sel (s : LibraryState) (sel : LibrarySelector) : LibraryState :=
  {| li_sel := sel; li_all := li_all s; li_none := li_none s |}.
Definition with_excluded (sel : LibrarySelector) (exc : list str) : LibrarySelector :=
  {| primary := primary sel; shared_all := shared_all sel; named := named sel; excluded := exc |}.

Definition library_step (s : LibraryState) (t : SelectorToken) : res LibraryState :=
  let sel := li_sel s in
  if contains (lit ":") (tk_name t) then Err (UnsupportedLibrary (tk_name t))
  else if is_sentinel (lit "all") t then
    ensure (negb (tk_exclude t)) (ExcludedSentinel (lit "all")) ;;
    Ok {| li_sel := sel; li_all := true; li_none := li_none s |}
  else if is_sentinel (lit "none") t then
    ensure (negb (tk_exclude t)) (ExcludedSentinel (lit "none")) ;;
    Ok {| li_sel := sel; li_all := li_all s; li_none := true |}
  else if is_sentinel (lit "primary") t then
    if tk_exclude t then
      exc ← insert_unique (excluded sel) (lit "primary") (lit "!primary");
      Ok (with_sel s (with_excluded sel exc))
    else
      Ok (with_sel s {| primary := true; shared_all := shared_all sel;
                        named := named sel; excluded := excluded sel |})
  else if is_sentinel (lit "shared") t then
    if tk_exclude t then
      exc ← insert_unique (excluded sel) (lit "shared") (lit "!shared");
      Ok (with_sel s (with_excluded sel exc))
    else
      Ok (with_sel s {| primary := primary sel; shared_all := true;
                        named := named sel; excluded := excluded sel |})
  else
    '(inc, exc) ← add_name t (named sel) (excluded sel);
    Ok (with_sel s {| primary := primary sel; shared_all := shared_all sel;
                      named := inc; excluded := exc |}).

(** [all] selects both kinds; exclusions alone imply [primary]. *)
Definition library_implied (s : LibraryState) : LibrarySelector :=
  let sel := li_sel s in
  let sel := if li_all s
             then {| primary := true; shared_all := true; named := named sel; excluded := excluded sel |}
             else sel in
  if negb (primary sel) && negb (shared_all sel) && is_nil (named sel) && negb (is_nil (excluded sel))
  then {| primary := true; shared_all := shared_all sel; named := named sel; excluded := excluded sel |}
  else sel.

Definition library_finish (s : LibraryState) : res LibrarySelector :=
  if li_none s then Err LibraryNone
  else
    let sel := library_implied s in
    contradiction_check (named sel) (excluded sel) ;;
    if is_empty sel then Err NoLibrary else Ok sel.

Definition parse_library_selector (raw : list str) : res LibrarySelector :=
  match raw with
  | [] => Ok LibrarySelector_default
  | _ => s ← for_tokens library_step raw
               {| li_sel := {| primary := false; shared_all := false; named := []; excluded := [] |};
                  li_all := false; li_none := false |};
         library_finish s
  end.

Definition LibrarySelector_to_raw (l : LibrarySelector) : list str :=
  (if primary l && shared_all l && is_nil (named l) then [lit "all"]
   else (if primary l then [lit "primary"] else [])
        ++ (if shared_all l then [lit "shared"] else [])
        ++ map (λ n, escape_if_needed n [lit "primary"; lit "shared"; lit "all"; lit "none"]) (named l))
  ++ exclusions (excluded l).

(** ** The three selectors together *)

Record Selection := {
  albums : AlbumSelector;
  albums_explicit : bool;
  smart_folders : SmartFolderSelector;
  smart_folders_explicit : bool;
  libraries : LibrarySelector;
  unfiled : bool;
}.

Definition Selection_default : Selection := {|
  albums := AlbumSelector_default; albums_explicit := false;
  smart_folders := SmartNone; smart_folders_explicit := false;
  libraries := LibrarySelector_default; unfiled := true;
|}.

Example album_ex : parse_album_selector [lit "=all"; lit " B "; lit "!C"] true
  = Ok (AlbumNamed [lit "B"; lit "all"] [lit "C"]).
Proof. reflexivity. Qed.
Example album_ex2 : parse_album_selector [lit "All"; lit "B"] true = Err AllWithNames.
Proof. reflexivity. Qed.
Example library_ex : parse_library_selector [lit "!SharedSync-1"]
  = Ok {| primary := true; shared_all := false; named := []; excluded := [lit "SharedSync-1"] |}.
Proof. reflexivity. Qed.
(** A literal name with a leading space does not survive the round trip. *)
Example album_space : parse_album_selector [lit "= x"] true = Ok (AlbumNamed [lit " x"] [])
  ∧ parse_album_selector (AlbumSelector_to_raw (AlbumNamed [lit " x"] [])) true
    = Ok (AlbumNamed [lit "x"] []).
Proof. split; reflexivity. Qed.

(** ** Facts on [BTreeSet] *)

Lemma str_ltb_irrefl a : str_ltb a a = false.
Proof. induction a as [|x a IH]; [done|]. cbn. rewrite Z.ltb_irrefl, Z.eqb_refl. done. Qed.

Lemma str_ltb_trans a b c : str_ltb a b = true → str_ltb b c = true → str_ltb a c = true.
Proof.
  revert b c. induction a as [|x a IH]; intros [|y b] [|z c]; try done. cbn.
  rewrite !orb_true_iff, !andb_true_iff, !Z.ltb_lt, !Z.eqb_eq.
  intros [?|[-> ?]] [?|[-> ?]]; [left; lia..|]. right. eauto.
Qed.

Lemma str_ltb_total a b : str_ltb a b = false → a ≠ b → str_ltb b a = true.
Proof.
  revert b. induction a as [|x a IH]; intros [|y b]; try done. cbn.
  rewrite orb_false_iff, andb_false_iff, orb_true_iff, andb_true_iff, !Z.ltb_lt, Z.ltb_ge, !Z.eqb_eq, Z.eqb_neq.
  intros [Hle Hor] Hne. destruct (decide (x = y)) as [->|]; [|left; lia].
  right. split; [done|]. destruct Hor; [done|]. apply IH; congruence.
Qed.

Lemma bset_insert_elem x s s' :
  bset_insert x s = Some s' → ∀ y, y ∈ s' ↔ y = x ∨ y ∈ s.
Proof.
  revert s'. induction s as [|z s IH]; intros s'; cbn.
  { intros [= <-] y. set_solver. }
  destruct (str_ltb x z); [intros [= <-] y; set_solver|].
  destruct (str_eqb x z); [done|].
  destruct (bset_insert x s) as [s1|]; [|done]. intros [= <-] y.
  specialize (IH s1 eq_refl y). set_solver.
Qed.

Lemma bset_insert_sorted x s s' :
  strictly_sorted s → bset_insert x s = Some s' → strictly_sorted s' ∧ x ∉ s.
Proof.
  intros Hs. revert s'. induction Hs as [|z s Hs IH Hz]; intros s'; cbn.
  { intros [= <-]. split; [by repeat constructor|set_solver]. }
  rewrite Forall_forall in Hz.
  destruct (str_ltb x z) eqn:E1.
  { intros [= <-]. split.
    - constructor; [constructor; [done|by rewrite Forall_forall]|].
      constructor; [done|]. rewrite Forall_forall. intros y Hy. eauto using str_ltb_trans.
    - intros [->|Hx]%elem_of_cons; [by rewrite str_ltb_irrefl in E1|].
      apply Hz in Hx. pose proof (str_ltb_trans _ _ _ E1 Hx). by rewrite str_ltb_irrefl in H. }
  destruct (str_eqb x z) eqn:E2; [done|]. apply str_eqb_neq in E2.
  destruct (bset_insert x s) as [s1|] eqn:E3; [|done]. intros [= <-].
  destruct (IH s1 eq_refl) as [Hs1 Hx]. split; [|set_solver].
  constructor; [done|]. rewrite Forall_forall. intros y Hy.
  apply (bset_insert_elem _ _ _ E3) in Hy as [->|Hy]; [by apply str_ltb_total|by apply Hz].
Qed.

Lemma bset_insert_last x s :
  (∀ y, y ∈ s → str_ltb y x = true) → bset_insert x s = Some (s ++ [x]).
Proof.
  induction s as [|z s IH]; intros Hs; [done|]. cbn.
  assert (str_ltb z x = true) as Hz by (apply Hs; set_solver).
  destruct (str_ltb x z) eqn:E1.
  { pose proof (str_ltb_trans _ _ _ E1 Hz) as Hx. by rewrite str_ltb_irrefl in Hx. }
  rewrite (proj2 (str_eqb_neq x z)) by (intros ->; by rewrite str_ltb_irrefl in Hz).
  rewrite IH; [done|]. intros y Hy. apply Hs. set_solver.
Qed.

Lemma strictly_sorted_snoc s x r :
  strictly_sorted (s ++ x :: r) →
  strictly_sorted ((s ++ [x]) ++ r) ∧ ∀ y, y ∈ s → str_ltb y x = true.
Proof.
  intros Hs. split; [by rewrite <- app_assoc|]. induction s as [|z s IH]; [set_solver|].
  inversion Hs as [|? ? Hs' Hz]; subst. rewrite Forall_forall in Hz.
  intros y [->|Hy]%elem_of_cons; [apply Hz; set_solver|by apply IH].
Qed.

(** ** Facts on tokens *)

Definition last_ok (n : str) : Prop := ∀ c, last n = Some c → is_whitespace c = false.
Definition head_ok (n : str) : Prop := ∀ c r, n = c :: r → is_whitespace c = false.

Definition token_of (entry : str) : res SelectorToken :=
  ensure (negb (str_eqb (trim entry) [])) EmptyValue ;; selector_token (trim entry).

(** What the tokenizer promises of a token. *)
Record valid_token (t : SelectorToken) : Prop := {
  vt_nonempty : tk_name t ≠ [];
  vt_last : last_ok (tk_name t);
  vt_escaped : tk_escaped t = true → tk_exclude t = false;
  vt_equals : tk_escaped t = false → starts_with (lit "=") (tk_name t) = false;
  vt_plain : tk_escaped t = false → tk_exclude t = false →
    head_ok (tk_name t) ∧ starts_with (lit "!") (tk_name t) = false;
}.

Lemma last_ok_suffix a n : n ≠ [] → last_ok (a ++ n) → last_ok n.
Proof. intros Hn Ha c Hc. apply Ha. by rewrite last_app, Hc. Qed.

Lemma trim_id n : n ≠ [] → head_ok n → last_ok n → trim n = n.
Proof. intros Hn Hh Hl. apply trim_matches_id; [by intros c r ->; eapply Hh|done]. Qed.

Lemma token_of_valid entry t : token_of entry = Ok t → valid_token t.
Proof.
  unfold token_of, selector_token. intros Ht. apply bind_Ok in Ht as (? & Hne & Ht).
  apply ensure_Ok, negb_true_iff, str_eqb_neq in Hne.
  assert (last_ok (trim entry)) as Hl by (intros c Hc; by eapply trim_matches_last).
  assert (head_ok (trim entry)) as Hh by (intros c r Hc; by eapply trim_matches_head).
  revert Hne Hl Hh Ht. generalize (trim entry). intros n Hne Hl Hh.
  destruct (strip_prefix (lit "=") n) as [l|] eqn:E1.
  { apply strip_prefix_Some in E1 as ->. intros Ht. invert_ok.
    apply negb_true_iff, str_eqb_neq in H. split; cbn; try done. by eapply last_ok_suffix. }
  assert (starts_with (lit "=") n = false) as Hq.
  { destruct (starts_with (lit "=") n) eqn:E; [|done]. apply starts_with_true in E as [r ->].
    by rewrite (proj2 (strip_prefix_Some _ _ r) eq_refl) in E1. }
  destruct (strip_prefix (lit "!") n) as [l|] eqn:E2; intros Ht; invert_ok;
    apply negb_true_iff, str_eqb_neq in H; apply negb_true_iff in H0; split; cbn; try done.
  - apply strip_prefix_Some in E2 as ->. by eapply last_ok_suffix.
  - intros _ _. split; [done|]. destruct (starts_with (lit "!") n) eqn:E; [|done].
    apply starts_with_true in E as [r ->]. by rewrite (proj2 (strip_prefix_Some _ _ r) eq_refl) in E2.
Qed.

Lemma for_tokens_nil {S} step (s : S) : for_tokens step [] s = Ok s.
Proof. done. Qed.

Lemma for_tokens_cons {S} step e raw (s : S) :
  for_tokens step (e :: raw) s = (t ← token_of e; s' ← step s t; for_tokens step raw s').
Proof.
  assert (∀ raw' e', fold_left (λ acc entry,
    s ← acc; let trimmed := trim entry in
    ensure (negb (str_eqb trimmed [])) EmptyValue ;;
    token ← selector_token trimmed; step s token) raw' (Err e' : res S) = Err e') as Herr.
  { intros raw' e'. by induction raw'. }
  unfold for_tokens, token_of. cbn. destruct (ensure _ _); [|apply Herr].
  destruct (selector_token _); [|apply Herr]. cbn. destruct (step s a0); [done|apply Herr].
Qed.

Lemma for_tokens_app {S} step raw1 raw2 (s : S) :
  for_tokens step (raw1 ++ raw2) s = (s' ← for_tokens step raw1 s; for_tokens step raw2 s').
Proof.
  revert s. induction raw1 as [|e raw1 IH]; intros s; [done|]. cbn [app].
  rewrite !for_tokens_cons. destruct (token_of e); [|done]. cbn.
  destruct (step s a); [|done]. apply IH.
Qed.

Lemma for_tokens_ind {S} (P : S → Prop) step raw s s' :
  (∀ s t s', valid_token t → P s → step s t = Ok s' → P s') →
  P s → for_tokens step raw s = Ok s' → P s'.
Proof.
  intros Hstep. revert s. induction raw as [|e raw IH]; intros s Hs.
  { rewrite for_tokens_nil. by intros [= <-]. }
  rewrite for_tokens_cons. intros (t & Ht & (s1 & H1 & Hr)%bind_Ok)%bind_Ok.
  eapply IH; [|done]. eauto using token_of_valid.
Qed.

(** ** Running a parser on its own output *)

Definition sentinel_in (words : list str) (n : str) : bool := existsb (eq_ignore_ascii_case n) words.

(** A name [to_raw] writes so that it reads back: included, excluded. *)
Definition included_name (n : str) : Prop := n ≠ [] ∧ last_ok n ∧ head_ok n.
Definition excluded_name (n : str) : Prop :=
  n ≠ [] ∧ last_ok n ∧ starts_with (lit "=") n = false.

Lemma prefixed_trim c n : is_whitespace c = false → n ≠ [] → last_ok n → trim (c :: n) = c :: n.
Proof.
  intros Hc Hn Hl. apply trim_id; [done|by intros ? ? [= <- _]|].
  intros d Hd. apply Hl. destruct n; [done|]. exact Hd.
Qed.

Lemma token_of_exclusion n :
  excluded_name n →
  token_of (lit "!" ++ n) = Ok {| tk_name := n; tk_exclude := true; tk_escaped := false |}.
Proof.
  intros (Hn & Hl & He). unfold token_of. cbn [lit app]. change (lit "!" ++ n) with (33 :: n).
  rewrite prefixed_trim by done. destruct n as [|c n]; [done|].
  change ((ensure (negb (starts_with (lit "=") (c :: n))) BangEquals ;;
          Ok {| tk_name := c :: n; tk_exclude := true; tk_escaped := false |})
          = (Ok {| tk_name := c :: n; tk_exclude := true; tk_escaped := false |} : res _)).
  by rewrite He.
Qed.

Lemma token_of_escaped words n :
  included_name n →
  ∃ b, token_of (escape_if_needed n words) = Ok {| tk_name := n; tk_exclude := false; tk_escaped := b |}
       ∧ (b = false → sentinel_in words n = false).
Proof.
  intros (Hn & Hl & Hh). unfold escape_if_needed.
  destruct (starts_with (lit "!") n) eqn:E1; [|destruct (starts_with (lit "=") n) eqn:E2;
    [|destruct (existsb (eq_ignore_ascii_case n) words) eqn:E3]]; cbn [orb].
  4: { exists false. split; [|done]. unfold token_of. rewrite trim_id by done.
    rewrite (proj2 (str_eqb_neq n []) Hn). cbn [negb ensure]. unfold selector_token.
    destruct (strip_prefix (lit "=") n) as [r|] eqn:S1.
    { apply strip_prefix_Some in S1 as ->.
      by rewrite (proj2 (starts_with_true (lit "=") (lit "=" ++ r)) (ex_intro _ r eq_refl)) in E2. }
    destruct (strip_prefix (lit "!") n) as [r|] eqn:S2.
    { apply strip_prefix_Some in S2 as ->.
      by rewrite (proj2 (starts_with_true (lit "!") (lit "!" ++ r)) (ex_intro _ r eq_refl)) in E1. }
    cbv beta iota. by rewrite (proj2 (str_eqb_neq n []) Hn), E2. }
  all: exists true; split; [|done]; unfold token_of; change (lit "=" ++ n) with (61 :: n);
    rewrite prefixed_trim by done; by destruct n.
Qed.

Section Reading.
(** A loop body with its names, seen through [inc], [exc] and [put]. *)
Context {S : Type} (step : S → SelectorToken → res S) (words : list str).
Context (inc exc : S → list str) (put : S → list str → list str → S).
Context (fine_inc fine_exc : str → Prop) (display : str → str).
Hypothesis inc_put : ∀ s i e, inc (put s i e) = i.
Hypothesis exc_put : ∀ s i e, exc (put s i e) = e.
Hypothesis put_put : ∀ s i e i' e', put (put s i e) i' e' = put s i' e'.
Hypothesis put_same : ∀ s, put s (inc s) (exc s) = s.
Hypothesis step_included : ∀ s n b, fine_inc n → (b = false → sentinel_in words n = false) →
  step s {| tk_name := n; tk_exclude := false; tk_escaped := b |}
  = (i ← insert_unique (inc s) n n; Ok (put s i (exc s))).
Hypothesis step_excluded : ∀ s n, fine_exc n →
  step s {| tk_name := n; tk_exclude := true; tk_escaped := false |}
  = (e ← insert_unique (exc s) n (display n); Ok (put s (inc s) e)).

Lemma read_included ns s :
  Forall (λ n, fine_inc n ∧ included_name n) ns → strictly_sorted (inc s ++ ns) →
  for_tokens step (map (λ n, escape_if_needed n words) ns) s = Ok (put s (inc s ++ ns) (exc s)).
Proof.
  intros Hns. revert s. induction Hns as [|n ns [Hf Hn] Hns IH]; intros s Hs.
  { cbn [map]. by rewrite for_tokens_nil, app_nil_r, put_same. }
  cbn [map]. rewrite for_tokens_cons.
  destruct (token_of_escaped words n Hn) as (b & -> & Hb). cbn.
  rewrite step_included by done. apply strictly_sorted_snoc in Hs as [Hs Hlt].
  unfold insert_unique. rewrite bset_insert_last by done. cbn.
  rewrite IH by (by rewrite inc_put). by rewrite inc_put, exc_put, put_put, <- app_assoc.
Qed.

Lemma read_excluded ns s :
  Forall (λ n, fine_exc n ∧ excluded_name n) ns → strictly_sorted (exc s ++ ns) →
  for_tokens step (exclusions ns) s = Ok (put s (inc s) (exc s ++ ns)).
Proof.
  intros Hns. revert s. induction Hns as [|n ns [Hf Hn] Hns IH]; intros s Hs.
  { cbn [exclusions map]. by rewrite for_tokens_nil, app_nil_r, put_same. }
  unfold exclusions. cbn [map]. fold (exclusions ns). rewrite for_tokens_cons, token_of_exclusion by done. cbn.
  rewrite step_excluded by done. apply strictly_sorted_snoc in Hs as [Hs Hlt].
  unfold insert_unique. rewrite bset_insert_last by done. cbn.
  rewrite IH by (by rewrite exc_put). by rewrite inc_put, exc_put, put_put, <- app_assoc.
Qed.

Lemma read_names i e s :
  inc s = [] → exc s = [] →
  Forall (λ n, fine_inc n ∧ included_name n) i → strictly_sorted i →
  Forall (λ n, fine_exc n ∧ excluded_name n) e → strictly_sorted e →
  for_tokens step (map (λ n, escape_if_needed n words) i ++ exclusions e) s = Ok (put s i e).
Proof.
  intros Hi0 He0 Hi Hsi He Hse. rewrite for_tokens_app, read_included by (rewrite ?Hi0; done).
  cbn. rewrite read_excluded; rewrite ?inc_put, ?exc_put, ?He0; [|done|done].
  by rewrite put_put, Hi0.
Qed.
End Reading.

Lemma contradiction_check_Ok i e u :
  contradiction_check i e = Ok u ↔ ∀ n, n ∈ i → n ∉ e.
Proof.
  unfold contradiction_check. destruct (findb _ i) as [n|] eqn:E.
  - apply findb_Some in E as [Hi Hn]. split; [done|].
    intros Hall. exfalso. apply existsb_exists in Hn as (m & Hm & ->%str_eqb_eq).
    apply list_elem_of_In in Hm. by apply (Hall m).
  - destruct u. split; [|done]. intros _ n Hi He.
    assert (existsb (str_eqb n) e = false) as Hf by (by eapply findb_None in E).
    rewrite <- not_true_iff_false in Hf. apply Hf, existsb_exists.
    exists n. split; [by apply list_elem_of_In|by apply str_eqb_eq].
Qed.

Lemma sentinel_in_cons w ws n :
  sentinel_in (w :: ws) n = eq_ignore_ascii_case n w || sentinel_in ws n.
Proof. done. Qed.

Lemma is_sentinel_plain w n ex b :
  (b = false → eq_ignore_ascii_case n w = false) →
  is_sentinel w {| tk_name := n; tk_exclude := ex; tk_escaped := b |} = false.
Proof. unfold is_sentinel. cbn. destruct b; cbn; [by rewrite andb_false_r|intros ->; done]. Qed.

(** ** What the parsers guarantee of the names they collect *)

Record names_wf (fine_exc : str → Prop) (i e : list str) : Prop := {
  nw_inc_sorted : strictly_sorted i;
  nw_exc_sorted : strictly_sorted e;
  nw_inc : Forall (λ n, n ≠ [] ∧ last_ok n) i;
  nw_exc : Forall (λ n, fine_exc n ∧ excluded_name n) e;
}.

Lemma names_wf_nil fine : names_wf fine [] [].
Proof. by repeat constructor. Qed.

Lemma insert_unique_Forall (P : str → Prop) s v d s' :
  strictly_sorted s → Forall P s → P v → insert_unique s v d = Ok s' →
  strictly_sorted s' ∧ Forall P s'.
Proof.
  unfold insert_unique. intros Hs HP Hv Hi%ok_or_Ok.
  split; [by eapply bset_insert_sorted|]. rewrite Forall_forall in HP |- *.
  intros y Hy. apply (bset_insert_elem _ _ _ Hi) in Hy as [->|Hy]; auto.
Qed.

Lemma insert_exc_wf fine i e n d e' :
  names_wf fine i e → fine n → excluded_name n → insert_unique e n d = Ok e' → names_wf fine i e'.
Proof.
  intros [] Hf Hn Hi. apply (insert_unique_Forall (λ n, fine n ∧ excluded_name n)) in Hi as [? ?]; done.
Qed.

Lemma add_name_wf fine t i e i' e' :
  valid_token t → (tk_exclude t = true → fine (tk_name t)) →
  names_wf fine i e → add_name t i e = Ok (i', e') → names_wf fine i' e'.
Proof.
  intros Ht Hf Hwf. unfold add_name. destruct (tk_exclude t) eqn:Ex; intros Ha.
  - apply bind_Ok in Ha as (e1 & Hi & [= <- <-]). eapply insert_exc_wf; eauto.
    split_and!; [by apply Ht..|]. apply (vt_equals _ Ht).
    destruct (tk_escaped t) eqn:Ee; [|done]. pose proof (vt_escaped _ Ht Ee). congruence.
  - apply bind_Ok in Ha as (i1 & Hi & [= <- <-]). destruct Hwf.
    apply (insert_unique_Forall (λ n, n ≠ [] ∧ last_ok n)) in Hi as [? ?]; try done.
    split; apply Ht.
Qed.

Lemma not_sentinel_name w t :
  valid_token t → tk_exclude t = true → is_sentinel w t = false →
  eq_ignore_ascii_case (tk_name t) w = false.
Proof.
  intros Ht Hex. unfold is_sentinel. destruct (tk_escaped t) eqn:E.
  - pose proof (vt_escaped _ Ht E). congruence.
  - by rewrite andb_true_r.
Qed.

(** Names of a selector that [to_raw] can write back. *)
Lemma included_names i :
  Forall (λ n, n ≠ [] ∧ last_ok n) i → Forall head_ok i →
  Forall (λ n, True ∧ included_name n) i.
Proof.
  intros Hi Hh. rewrite Forall_forall in Hi, Hh |- *. intros n Hn.
  specialize (Hi n Hn). specialize (Hh n Hn). by split_and!; destruct_and?.
Qed.

Definition not_sentinel (words : list str) (n : str) : Prop := sentinel_in words n = false.

Lemma album_state_wf raw s :
  for_tokens album_step raw
    {| al_all := false; al_none := false; al_included := []; al_excluded := [] |} = Ok s →
  names_wf (not_sentinel [lit "all"; lit "none"]) (al_included s) (al_excluded s).
Proof.
  apply (for_tokens_ind (λ s, names_wf _ (al_included s) (al_excluded s))); [|apply names_wf_nil]. clear. intros s t s' Ht Hwf. unfold album_step.
  destruct (is_sentinel (lit "all") t) eqn:E1; [by intros Hs; invert_ok|].
  destruct (is_sentinel (lit "none") t) eqn:E2; [by intros Hs; invert_ok|].
  intros ([i e] & Ha & [= <-])%bind_Ok. cbn. eapply add_name_wf; eauto.
  intros Hex. unfold not_sentinel. cbn. by rewrite !not_sentinel_name.
Qed.

Lemma smart_state_wf raw s :
  for_tokens smart_step raw
    {| sm_all := false; sm_all_sensitive := false; sm_none := false;
       sm_included := []; sm_excluded := [] |} = Ok s →
  names_wf (not_sentinel [lit "all"; lit "all-with-sensitive"; lit "none"])
    (sm_included s) (sm_excluded s).
Proof.
  apply (for_tokens_ind (λ s, names_wf _ (sm_included s) (sm_excluded s))); [|apply names_wf_nil]. clear. intros s t s' Ht Hwf. unfold smart_step.
  destruct (is_sentinel (lit "all") t) eqn:E1; [by intros Hs; invert_ok|].
  destruct (is_sentinel (lit "all-with-sensitive") t) eqn:E2; [by intros Hs; invert_ok|].
  destruct (is_sentinel (lit "none") t) eqn:E3; [by intros Hs; invert_ok|].
  intros ([i e] & Ha & [= <-])%bind_Ok. cbn. eapply add_name_wf; eauto.
  intros Hex. unfold not_sentinel. cbn. by rewrite !not_sentinel_name.
Qed.

(** Library names: no colon; [primary] and [shared] excluded in lower case. *)
Definition library_exclusion (n : str) : Prop :=
  contains (lit ":") n = false ∧ sentinel_in [lit "all"; lit "none"] n = false
  ∧ (eq_ignore_ascii_case n (lit "primary") = true → n = lit "primary")
  ∧ (eq_ignore_ascii_case n (lit "shared") = true → n = lit "shared").

Lemma library_words n :
  n = lit "primary" ∨ n = lit "shared" → library_exclusion n ∧ excluded_name n.
Proof. intros [->| ->]; (split; [done|]); (split; [done|]); (split; [by intros c [= <-]|done]). Qed.

Lemma library_state_wf raw s :
  for_tokens library_step raw
    {| li_sel := {| primary := false; shared_all := false; named := []; excluded := [] |};
       li_all := false; li_none := false |} = Ok s →
  names_wf library_exclusion (named (li_sel s)) (excluded (li_sel s))
  ∧ Forall (λ n, contains (lit ":") n = false) (named (li_sel s)).
Proof.
  apply (for_tokens_ind (λ s, names_wf library_exclusion (named (li_sel s)) (excluded (li_sel s))
    ∧ Forall (λ n, contains (lit ":") n = false) (named (li_sel s)))); [|split; [apply names_wf_nil|constructor]]. clear.
  intros s t s' Ht [Hwf Hnc]. unfold library_step.
  destruct (contains (lit ":") (tk_name t)) eqn:E0; [done|].
  destruct (is_sentinel (lit "all") t) eqn:E1; [by intros Hs; invert_ok|].
  destruct (is_sentinel (lit "none") t) eqn:E2; [by intros Hs; invert_ok|].
  destruct (is_sentinel (lit "primary") t) eqn:E3.
  { destruct (tk_exclude t); [|by intros [= <-]].
    intros (e & He & [= <-])%bind_Ok. cbn. split; [|done]. eapply insert_exc_wf; [done|apply (library_words (lit "primary")); by left..|done]. }
  destruct (is_sentinel (lit "shared") t) eqn:E4.
  { destruct (tk_exclude t); [|by intros [= <-]].
    intros (e & He & [= <-])%bind_Ok. cbn. split; [|done]. eapply insert_exc_wf; [done|apply (library_words (lit "shared")); by right..|done]. }
  intros ([i e] & Ha & [= <-])%bind_Ok. cbn. split.
  - eapply add_name_wf; eauto. intros Hex. unfold library_exclusion. cbn.
    by rewrite !not_sentinel_name.
  - unfold add_name in Ha. destruct (tk_exclude t); invert_ok; [done|].
    eapply insert_unique_Forall in H; [by apply H|by apply Hwf|done|done].
Qed.

(** ** Reading selectors back *)

Definition album_put (s : AlbumState) (i e : list str) : AlbumState :=
  {| al_all := al_all s; al_none := al_none s; al_included := i; al_excluded := e |}.
Definition smart_put (s : SmartState) (i e : list str) : SmartState :=
  {| sm_all := sm_all s; sm_all_sensitive := sm_all_sensitive s; sm_none := sm_none s;
     sm_included := i; sm_excluded := e |}.
Definition library_put (s : LibraryState) (i e : list str) : LibraryState :=
  with_sel s {| primary := primary (li_sel s); shared_all := shared_all (li_sel s);
                named := i; excluded := e |}.

Lemma sentinel_in_false w ws n :
  sentinel_in (w :: ws) n = false ↔ eq_ignore_ascii_case n w = false ∧ sentinel_in ws n = false.
Proof. unfold sentinel_in. cbn. by rewrite orb_false_iff. Qed.

Lemma album_read i e s :
  al_included s = [] → al_excluded s = [] →
  names_wf (not_sentinel [lit "all"; lit "none"]) i e → Forall head_ok i →
  for_tokens album_step (map (λ n, escape_if_needed n [lit "all"; lit "none"]) i ++ exclusions e) s
  = Ok (album_put s i e).
Proof.
  intros Hi He [Hsi Hse Hni Hne] Hh.
  eapply (read_names album_step _ al_included al_excluded album_put (λ _, True)
    (not_sentinel [lit "all"; lit "none"]) (λ n, lit "!" ++ n)); try done.
  - by intros [].
  - intros t n b _ Hb. unfold album_step.
    rewrite !is_sentinel_plain by (intros Hb'; by apply Hb, sentinel_in_false in Hb' as [? ?%sentinel_in_false]; destruct_and?).
    unfold add_name. cbn [tk_exclude tk_name]. by destruct (insert_unique _ _ _).
  - intros t n Hn. unfold album_step. apply sentinel_in_false in Hn as [? [? _]%sentinel_in_false].
    rewrite !is_sentinel_plain by done.
    unfold add_name. cbn [tk_exclude tk_name]. by destruct (insert_unique _ _ _).
  - by apply included_names.
Qed.

Lemma smart_read i e s :
  sm_included s = [] → sm_excluded s = [] →
  names_wf (not_sentinel [lit "all"; lit "all-with-sensitive"; lit "none"]) i e → Forall head_ok i →
  for_tokens smart_step
    (map (λ n, escape_if_needed n [lit "all"; lit "all-with-sensitive"; lit "none"]) i ++ exclusions e) s
  = Ok (smart_put s i e).
Proof.
  intros Hi He [Hsi Hse Hni Hne] Hh.
  eapply (read_names smart_step _ sm_included sm_excluded smart_put (λ _, True)
    (not_sentinel [lit "all"; lit "all-with-sensitive"; lit "none"]) (λ n, lit "!" ++ n)); try done.
  - by intros [].
  - intros t n b _ Hb. unfold smart_step.
    rewrite !is_sentinel_plain by (intros Hb'; apply Hb in Hb'; rewrite !sentinel_in_false in Hb'; by destruct_and?).
    unfold add_name. cbn [tk_exclude tk_name]. by destruct (insert_unique _ _ _).
  - intros t n Hn. unfold smart_step. unfold not_sentinel in Hn. rewrite !sentinel_in_false in Hn. destruct_and?.
    rewrite !is_sentinel_plain by done.
    unfold add_name. cbn [tk_exclude tk_name]. by destruct (insert_unique _ _ _).
  - by apply included_names.
Qed.

Lemma library_read i e s :
  named (li_sel s) = [] → excluded (li_sel s) = [] →
  names_wf library_exclusion i e → Forall (λ n, contains (lit ":") n = false) i → Forall head_ok i →
  for_tokens library_step
    (map (λ n, escape_if_needed n [lit "primary"; lit "shared"; lit "all"; lit "none"]) i ++ exclusions e) s
  = Ok (library_put s i e).
Proof.
  intros Hi He [Hsi Hse Hni Hne] Hc Hh.
  eapply (read_names library_step _ (λ s, named (li_sel s)) (λ s, excluded (li_sel s)) library_put
    (λ n, contains (lit ":") n = false) library_exclusion (λ n, lit "!" ++ n)); try done.
  - by intros [[] ? ?].
  - intros t n b Hn Hb. unfold library_step. cbn [tk_name]. rewrite Hn.
    rewrite !is_sentinel_plain by (intros Hb'; apply Hb in Hb'; rewrite !sentinel_in_false in Hb'; by destruct_and?).
    unfold add_name. cbn [tk_exclude tk_name]. by destruct (insert_unique _ _ _).
  - intros t n (Hn & Hs & Hp & Hsh). unfold library_step. cbn [tk_name]. rewrite Hn.
    rewrite !sentinel_in_false in Hs. destruct_and?.
    rewrite (is_sentinel_plain (lit "all")), (is_sentinel_plain (lit "none")) by done.
    unfold is_sentinel. cbn [tk_name tk_escaped negb tk_exclude]. rewrite !andb_true_r.
    destruct (eq_ignore_ascii_case n (lit "primary")) eqn:E1.
    { rewrite Hp by done. by destruct (insert_unique _ _ _). }
    destruct (eq_ignore_ascii_case n (lit "shared")) eqn:E2.
    { rewrite Hsh by done. by destruct (insert_unique _ _ _). }
    unfold add_name. cbn [tk_exclude tk_name]. by destruct (insert_unique _ _ _).
  - rewrite Forall_forall in Hc, Hni, Hh |- *. intros n Hn.
    split; [by apply Hc|]. split_and!; [by apply Hni..|by apply Hh].
Qed.

(** ** Properties *)

Definition album_included (a : AlbumSelector) : list str :=
  match a with AlbumNamed i _ => i | _ => [] end.
Definition smart_included (a : SmartFolderSelector) : list str :=
  match a with SmartNamed i _ => i | _ => [] end.

Lemma read_tail {S} (step : S → SelectorToken → res S) e raw (s s1 : S) t :
  token_of e = Ok t → step s t = Ok s1 →
  for_tokens step (e :: raw) s = for_tokens step raw s1.
Proof. intros Ht Hs. rewrite for_tokens_cons, Ht. cbn. by rewrite Hs. Qed.

Lemma contradiction_ok i e : (∀ n, n ∈ i → n ∉ e) → contradiction_check i e = Ok tt.
Proof. apply contradiction_check_Ok. Qed.

Lemma parse_album_unfold raw d :
  raw ≠ [] → parse_album_selector raw d
    = (s ← for_tokens album_step raw
             {| al_all := false; al_none := false; al_included := []; al_excluded := [] |};
       album_finish s).
Proof. by destruct raw. Qed.

(** C40: writing an album selection back and parsing it again gives the same
    selection: for every selector the parser produced, whatever sentinels,
    names and exclusions it came from, [parse(to_raw(sel)) = sel], provided
    no included name begins with white space (such a literal loses it). *)
Theorem album_selector_roundtrip raw d a :
  parse_album_selector raw d = Ok a → Forall head_ok (album_included a) →
  parse_album_selector (AlbumSelector_to_raw a) true = Ok a.
Proof.
  intros Hp Hh. destruct (decide (raw = [])) as [->|Hraw].
  { destruct d; injection Hp as <-; reflexivity. }
  rewrite parse_album_unfold in Hp by done. apply bind_Ok in Hp as (s & Hs & Hf).
  apply album_state_wf in Hs as Hwf. clear Hs Hraw raw d.
  unfold album_finish in Hf. apply bind_Ok in Hf as (? & Hc & Hf).
  assert (∀ e, names_wf (not_sentinel [lit "all"; lit "none"]) [] e →
    parse_album_selector (AlbumSelector_to_raw (AlbumAll e)) true = Ok (AlbumAll e)) as Hall.
  { intros e He. cbn [AlbumSelector_to_raw]. rewrite parse_album_unfold by done.
    erewrite read_tail by reflexivity. pose proof (album_read [] e) as Hr. cbn [map app] in Hr.
    rewrite Hr by (done || constructor). reflexivity. }
  assert (names_wf (not_sentinel [lit "all"; lit "none"]) [] (al_excluded s)) as Hexc.
  { destruct Hwf. split; try done. by constructor. }
  destruct (al_none s); [|destruct (al_all s)].
  - apply bind_Ok in Hf as (? & _ & [= <-]). reflexivity.
  - apply bind_Ok in Hf as (? & _ & [= <-]). by apply Hall.
  - destruct (al_included s) as [|n i] eqn:Ei; injection Hf as <-; [by apply Hall|].
    cbn [AlbumSelector_to_raw]. rewrite parse_album_unfold by done.
    rewrite album_read by done. cbn [mbind result_bind]. unfold album_finish. cbn.
    rewrite contradiction_ok; [done|by apply (contradiction_check_Ok _ _ x)].
Qed.

Lemma album_selector_roundtrip_witness :
  parse_album_selector (AlbumSelector_to_raw (AlbumNamed [lit "!x"; lit "ALL"] [lit "b"])) true
  = Ok (AlbumNamed [lit "!x"; lit "ALL"] [lit "b"]).
Proof.
  apply (album_selector_roundtrip [lit "=ALL"; lit "!b"; lit "=!x"] true); [reflexivity|].
  repeat constructor; by intros c r [= <-].
Defined.

Lemma parse_smart_unfold raw :
  raw ≠ [] → parse_smart_folder_selector raw
    = (s ← for_tokens smart_step raw
             {| sm_all := false; sm_all_sensitive := false; sm_none := false;
                sm_included := []; sm_excluded := [] |};
       smart_finish s).
Proof. by destruct raw. Qed.

(** the same round trip for smart-folder selections, whose default and
    sentinels differ ([none] is written as no value at all, and
    [all-with-sensitive] keeps the hidden folders). *)
Theorem smart_folder_selector_roundtrip raw a :
  parse_smart_folder_selector raw = Ok a → Forall head_ok (smart_included a) →
  parse_smart_folder_selector (SmartFolderSelector_to_raw a) = Ok a.
Proof.
  intros Hp Hh. destruct (decide (raw = [])) as [->|Hraw].
  { by injection Hp as <-. }
  rewrite parse_smart_unfold in Hp by done. apply bind_Ok in Hp as (s & Hs & Hf).
  apply smart_state_wf in Hs as Hwf. clear Hs Hraw raw.
  unfold smart_finish in Hf. apply bind_Ok in Hf as (? & Hc & Hf).
  assert (∀ b e, names_wf (not_sentinel [lit "all"; lit "all-with-sensitive"; lit "none"]) [] e →
    parse_smart_folder_selector (SmartFolderSelector_to_raw (SmartAll b e)) = Ok (SmartAll b e)) as Hall.
  { intros b e He. cbn [SmartFolderSelector_to_raw]. rewrite parse_smart_unfold by done.
    pose proof (smart_read [] e) as Hr. cbn [map app] in Hr.
    destruct b; erewrite read_tail by reflexivity; rewrite Hr by (done || constructor); reflexivity. }
  assert (names_wf (not_sentinel [lit "all"; lit "all-with-sensitive"; lit "none"]) [] (sm_excluded s)) as Hexc.
  { destruct Hwf. split; try done. by constructor. }
  destruct (sm_none s); [|destruct (sm_all s || sm_all_sensitive s)].
  - apply bind_Ok in Hf as (? & _ & [= <-]). reflexivity.
  - apply bind_Ok in Hf as (? & _ & Hf). apply bind_Ok in Hf as (? & _ & [= <-]). by apply Hall.
  - destruct (sm_included s) as [|n i] eqn:Ei; injection Hf as <-; [by apply Hall|].
    cbn [SmartFolderSelector_to_raw]. rewrite parse_smart_unfold by done.
    rewrite smart_read by done. cbn [mbind result_bind]. unfold smart_finish. cbn.
    rewrite contradiction_ok; [done|by apply (contradiction_check_Ok _ _ x)].
Qed.

Lemma smart_folder_selector_roundtrip_witness :
  parse_smart_folder_selector (SmartFolderSelector_to_raw (SmartAll true [lit "Hidden"]))
  = Ok (SmartAll true [lit "Hidden"]).
Proof.
  apply (smart_folder_selector_roundtrip [lit "!Hidden"; lit " All-With-Sensitive"]); [reflexivity|constructor].
Defined.

Lemma parse_library_unfold raw :
  raw ≠ [] → parse_library_selector raw
    = (s ← for_tokens library_step raw
             {| li_sel := {| primary := false; shared_all := false; named := []; excluded := [] |};
                li_all := false; li_none := false |};
       library_finish s).
Proof. by destruct raw. Qed.

(** A library selector as the parser leaves it. *)
Record library_wf (l : LibrarySelector) : Prop := {
  lw_names : names_wf library_exclusion (named l) (excluded l);
  lw_colon : Forall (λ n, contains (lit ":") n = false) (named l);
  lw_disjoint : ∀ n, n ∈ named l → n ∉ excluded l;
  lw_nonempty : is_empty l = false;
}.

Lemma parse_library_wf raw l : parse_library_selector raw = Ok l → library_wf l.
Proof.
  destruct (decide (raw = [])) as [->|Hraw].
  { intros [= <-]. split; cbn; [apply names_wf_nil|constructor|set_solver|done]. }
  rewrite parse_library_unfold by done. intros (s & Hs & Hf)%bind_Ok.
  apply library_state_wf in Hs as [Hwf Hcol]. unfold library_finish in Hf.
  destruct (li_none s); [done|].
  assert (named (library_implied s) = named (li_sel s) ∧ excluded (library_implied s) = excluded (li_sel s))
    as [En Ee] by (unfold library_implied; by destruct (li_all s), (_ && _)).
  apply bind_Ok in Hf as (? & Hc & Hf). destruct (is_empty (library_implied s)) eqn:E; [done|].
  injection Hf as <-. rewrite contradiction_check_Ok in Hc.
  split; rewrite ?En, ?Ee in *; done.
Qed.

(** a parsed library selection always selects at least one library, never
    includes and excludes the same name, holds no unsupported [shared:Owner]
    form, and lists its names sorted and without duplicates; and parsing
    what [to_raw] writes for it gives it back, as long as no zone name begins
    with white space. *)
Theorem library_selector_roundtrip raw l :
  parse_library_selector raw = Ok l → Forall head_ok (named l) →
  is_empty l = false
  ∧ (∀ n, n ∈ named l → n ∉ excluded l ∧ contains (lit ":") n = false)
  ∧ strictly_sorted (named l) ∧ strictly_sorted (excluded l)
  ∧ parse_library_selector (LibrarySelector_to_raw l) = Ok l.
Proof.
  intros [Hwf Hcol Hdis Hne]%parse_library_wf Hh.
  split; [done|]. split; [|split; [apply Hwf|split; [apply Hwf|]]].
  { intros n Hn. split; [by apply Hdis|]. rewrite Forall_forall in Hcol. by apply Hcol. }
  destruct l as [p sh i e]. cbn in *. unfold LibrarySelector_to_raw. cbn.
  assert (contradiction_check i e = Ok tt) as Hc by (by apply contradiction_ok).
  destruct (p && sh && is_nil i) eqn:E.
  - destruct p, sh, i; try done. rewrite parse_library_unfold by done. cbn [app].
    erewrite read_tail by reflexivity. pose proof (library_read [] e) as Hr. cbn [map app] in Hr.
    rewrite Hr by done. cbn -[contradiction_check]. by rewrite Hc.
  - rewrite parse_library_unfold; [|by destruct p, sh, i].
    rewrite <- !app_assoc.
    assert (∀ s, for_tokens library_step ((if p then [lit "primary"] else []) ++ s)
        {| li_sel := {| primary := false; shared_all := false; named := []; excluded := [] |};
           li_all := false; li_none := false |}
      = for_tokens library_step s
        {| li_sel := {| primary := p; shared_all := false; named := []; excluded := [] |};
           li_all := false; li_none := false |}) as -> by (by destruct p).
    assert (∀ s, for_tokens library_step ((if sh then [lit "shared"] else []) ++ s)
        {| li_sel := {| primary := p; shared_all := false; named := []; excluded := [] |};
           li_all := false; li_none := false |}
      = for_tokens library_step s
        {| li_sel := {| primary := p; shared_all := sh; named := []; excluded := [] |};
           li_all := false; li_none := false |}) as -> by (by destruct sh).
    rewrite library_read by done. unfold library_put, with_sel, library_finish, library_implied.
    cbn -[contradiction_check]. destruct p, sh; cbn -[contradiction_check]; rewrite ?Hc; try done.
    destruct i; [done|]. cbn -[contradiction_check]. by rewrite Hc.
Qed.

Lemma library_selector_roundtrip_witness :
  let l := {| primary := true; shared_all := true; named := [lit "all"]; excluded := [lit "primary"] |} in
  is_empty l = false
  ∧ (∀ n, n ∈ named l → n ∉ excluded l ∧ contains (lit ":") n = false)
  ∧ strictly_sorted (named l) ∧ strictly_sorted (excluded l)
  ∧ parse_library_selector (LibrarySelector_to_raw l) = Ok l.
Proof.
  intros l. apply (library_selector_roundtrip [lit "all"; lit "=all"; lit "!PRIMARY"]); [reflexivity|].
  repeat constructor. by intros c r [= <-].
Defined.

(** What the album loop records of every value it read. *)
Definition recorded (s : AlbumState) (t : SelectorToken) : Prop :=
  (is_sentinel (lit "all") t = true → al_all s = true)
  ∧ (is_sentinel (lit "all") t = false → is_sentinel (lit "none") t = true →
     tk_exclude t = false ∧ al_none s = true)
  ∧ (is_sentinel (lit "all") t = false → is_sentinel (lit "none") t = false →
     tk_name t ∈ al_included s ++ al_excluded s).

Definition album_grows (s s' : AlbumState) : Prop :=
  (al_all s = true → al_all s' = true) ∧ (al_none s = true → al_none s' = true)
  ∧ al_included s ++ al_excluded s ⊆ al_included s' ++ al_excluded s'.

Lemma album_step_records s t s' : album_step s t = Ok s' → album_grows s s' ∧ recorded s' t.
Proof.
  unfold album_step, album_grows, recorded. destruct (is_sentinel (lit "all") t) eqn:E1.
  { intros Hs. apply bind_Ok in Hs as (? & Hx & [= <-]). apply ensure_Ok, negb_true_iff in Hx. cbn.
    split_and!; try done. }
  destruct (is_sentinel (lit "none") t) eqn:E2.
  { intros Hs. apply bind_Ok in Hs as (? & Hx & [= <-]). apply ensure_Ok, negb_true_iff in Hx. cbn.
    split_and!; try done; congruence. }
  unfold add_name. intros ([i e] & Ha & [= <-])%bind_Ok. cbn.
  assert (al_included s ++ al_excluded s ⊆ i ++ e ∧ tk_name t ∈ i ++ e) as [Hsub Hin].
  { destruct (tk_exclude t); apply bind_Ok in Ha as (x & Hx & Heq); apply ok_or_Ok in Hx; simplify_eq;
      pose proof (bset_insert_elem _ _ _ Hx) as Hin; split;
      [intros y| |intros y|]; rewrite !elem_of_app, Hin; tauto. }
  split_and!; try done.
Qed.

Lemma recorded_grows s s' t : album_grows s s' → recorded s t → recorded s' t.
Proof.
  intros (Ha & Hn & Hi) (Ra & Rn & Ri). split_and!; [by auto|..].
  - intros H1 H2. destruct (Rn H1 H2). auto.
  - intros H1 H2. apply Hi. auto.
Qed.

Lemma album_history raw s s' :
  for_tokens album_step raw s = Ok s' →
  album_grows s s' ∧ ∀ e, e ∈ raw → ∃ t, token_of e = Ok t ∧ recorded s' t.
Proof.
  revert s. induction raw as [|e raw IH]; intros s.
  { rewrite for_tokens_nil. intros [= <-]. split; [by split_and!|set_solver]. }
  rewrite for_tokens_cons. intros (t & Ht & (s1 & H1 & Hr)%bind_Ok)%bind_Ok.
  apply album_step_records in H1 as [Hg Hrec]. apply IH in Hr as [Hg' Hall]. split.
  - destruct Hg as (?&?&?), Hg' as (?&?&?). split_and!; [by auto..|]. etrans; eauto.
  - intros e' [->|He]%elem_of_cons; [|by apply Hall]. exists t. eauto using recorded_grows.
Qed.

Lemma token_of_plain e t :
  token_of e = Ok t → tk_escaped t = false → tk_exclude t = false → tk_name t = trim e.
Proof.
  unfold token_of, selector_token. intros (? & _ & Ht)%bind_Ok.
  destruct (strip_prefix (lit "=") (trim e)); [by invert_ok|].
  destruct (strip_prefix (lit "!") (trim e)); by invert_ok.
Qed.

Lemma token_of_sentinel e t c r :
  token_of e = Ok t → to_ascii_lowercase (trim e) = c :: r → c ≠ 61 → c ≠ 33 →
  tk_name t = trim e ∧ tk_escaped t = false.
Proof.
  unfold token_of, selector_token. intros (? & _ & Ht)%bind_Ok Hl H1 H2.
  destruct (strip_prefix (lit "=") (trim e)) as [q|] eqn:E1.
  { apply strip_prefix_Some in E1. rewrite E1 in Hl. by injection Hl as <-. }
  destruct (strip_prefix (lit "!") (trim e)) as [q|] eqn:E2; [|by invert_ok].
  apply strip_prefix_Some in E2. rewrite E2 in Hl. by injection Hl as <-.
Qed.

Lemma token_of_all e t :
  token_of e = Ok t → eq_ignore_ascii_case (trim e) (lit "all") = true → is_sentinel (lit "all") t = true.
Proof.
  intros Ht Hall. pose proof Hall as Hl%bool_decide_eq_true.
  destruct (token_of_sentinel e t 97 (lit "ll") Ht Hl ltac:(done) ltac:(done)) as [Hn He].
  unfold is_sentinel. by rewrite Hn, He, Hall.
Qed.

(** album values are contradiction-free and [none] is exclusive. A parsed
    selection never includes and excludes the same album; exclusions are
    never a sentinel word; [none] results only from values that are all the
    unescaped word [none] (in any case, in any number); and explicit names
    never coexist with [all]. *)
Theorem parse_album_selector_consistent raw a :
  raw ≠ [] → parse_album_selector raw true = Ok a →
  match a with
  | AlbumNone => ∀ e, e ∈ raw → eq_ignore_ascii_case (trim e) (lit "none") = true
  | AlbumAll exc => Forall (not_sentinel [lit "all"; lit "none"]) exc ∧ strictly_sorted exc
  | AlbumNamed inc exc =>
      inc ≠ [] ∧ (∀ n, n ∈ inc → n ∉ exc)
      ∧ Forall (not_sentinel [lit "all"; lit "none"]) exc
      ∧ strictly_sorted inc ∧ strictly_sorted exc
      ∧ ∀ e, e ∈ raw → eq_ignore_ascii_case (trim e) (lit "all") = false
  end.
Proof.
  intros Hraw Hp. rewrite parse_album_unfold in Hp by done. apply bind_Ok in Hp as (s & Hs & Hf).
  apply album_state_wf in Hs as Hwf. apply album_history in Hs as [_ Hall].
  unfold album_finish in Hf. apply bind_Ok in Hf as (? & Hc & Hf).
  rewrite contradiction_check_Ok in Hc.
  assert (Forall (not_sentinel [lit "all"; lit "none"]) (al_excluded s)) as Hexc.
  { eapply Forall_impl; [apply (nw_exc _ _ _ Hwf)|]. by intros n [? _]. }
  destruct (al_none s) eqn:En; [|destruct (al_all s) eqn:Ea].
  - apply bind_Ok in Hf as (? & He & [= <-]). apply ensure_Ok in He. zbool.
    destruct (al_included s) eqn:Ei; [|done]. destruct (al_excluded s) eqn:Ex; [|done].
    intros e Hin. destruct (Hall e Hin) as (t & Ht & Ra & Rn & Ri). rewrite Ei, Ex in Ri.
    destruct (is_sentinel (lit "all") t); [rewrite Ra in *; done|]. specialize (Rn eq_refl).
    destruct (is_sentinel (lit "none") t) eqn:Es; [|by destruct (proj1 (elem_of_nil _) (Ri eq_refl eq_refl))].
    destruct (Rn eq_refl) as [Hx _]. unfold is_sentinel in Es. zbool.
    by rewrite <- (token_of_plain e t).
  - apply bind_Ok in Hf as (? & _ & [= <-]). split; [done|apply Hwf].
  - destruct (al_included s) as [|n i] eqn:Ei; injection Hf as <-; [split; [done|apply Hwf]|].
    split_and!; try done; try apply Hwf.
    intros e Hin. destruct (Hall e Hin) as (t & Ht & Ra & _).
    destruct (eq_ignore_ascii_case (trim e) (lit "all")) eqn:E; [|done].
    rewrite (Ra (token_of_all e t Ht E)) in Ea. done.
Qed.

Lemma parse_album_selector_consistent_witness :
  (∀ e, e ∈ [lit "none"; lit " NONE "] → eq_ignore_ascii_case (trim e) (lit "none") = true)
  ∧ parse_album_selector [lit "none"; lit " NONE "] true = Ok AlbumNone.
Proof.
  split; [|reflexivity].
  apply (parse_album_selector_consistent [lit "none"; lit " NONE "] AlbumNone); [done|reflexivity].
Defined.
