(* ===== verification/Stats.v ===== *)
(** * Run statistics: [src/download/mod.rs] (stats), [src/download/recap.rs]

    What one library's sync reports, and how the reports of several
    libraries are folded into the cycle's.  An [f64] is the Standard
    Library's executable IEEE-754 model ([spec_float]); a [usize] or [u64]
    counter's [+=] wraps as in a release build. *)
From Stdlib Require Import SpecFloat.
From S2P Require Import Prelude RustStr Types Filter.

(** ** Floats *)

Definition f64_prec : Z := 53.
Definition f64_emax : Z := 1024.
Definition f64_of_u64 (n : Z) : spec_float := binary_normalize f64_prec f64_emax n 0 false.
Definition f64_add : spec_float → spec_float → spec_float := SFadd f64_prec f64_emax.
Definition f64_mul : spec_float → spec_float → spec_float := SFmul f64_prec f64_emax.
Definition f64_div : spec_float → spec_float → spec_float := SFdiv f64_prec f64_emax.

(** ** Recap: [src/download/recap.rs] *)

(** [DateTime<Local>] is compared by instant. *)
Record RecapAsset := { ra_filename : str; ra_bytes : Z; ra_created_local : Z }.

Record RunRecap := {
  biggest : option RecapAsset;
  oldest : option RecapAsset;
  recap_albums : gmap str RecapAsset;
}.

Definition RunRecap_default : RunRecap := {| biggest := None; oldest := None; recap_albums := ∅ |}.

(** [Option::is_none_or]. *)
Definition is_none_or {A} (o : option A) (p : A → bool) : bool :=
  match o with None => true | Some a => p a end.

Definition observe (r : RunRecap) (pass_label : str) (asset : RecapAsset) : RunRecap := {|
  biggest := if is_none_or (biggest r) (λ cur, ra_bytes cur <? ra_bytes asset)
             then Some asset else biggest r;
  oldest := if is_none_or (oldest r) (λ cur, ra_created_local asset <? ra_created_local cur)
            then Some asset else oldest r;
  recap_albums :=
    match recap_albums r !! pass_label with
    | Some cur => if ra_created_local cur <? ra_created_local asset
                  then <[pass_label := asset]> (recap_albums r) else recap_albums r
    | None => <[pass_label := asset]> (recap_albums r)
    end;
|}.

(** The newer of two assets of one album; the map merge is pointwise, so the
    iteration order of the [HashMap] does not matter. *)
Definition newer_asset (cur asset : RecapAsset) : RecapAsset :=
  if ra_created_local cur <? ra_created_local asset then asset else cur.

Definition RunRecap_merge (self other : RunRecap) : RunRecap := {|
  biggest :=
    match biggest other with
    | Some b => if is_none_or (biggest self) (λ cur, ra_bytes cur <=? ra_bytes b)
                then Some b else biggest self
    | None => biggest self
    end;
  oldest :=
    match oldest other with
    | Some o => if is_none_or (oldest self) (λ cur, ra_created_local o <=? ra_created_local cur)
                then Some o else oldest self
    | None => oldest self
    end;
  recap_albums := union_with (λ cur asset, Some (newer_asset cur asset))
                    (recap_albums self) (recap_albums other);
|}.

(** ** Skips *)

Record SkipBreakdown := {
  by_state : Z; on_disk : Z; by_media_type : Z; by_date_range : Z; by_live_photo : Z;
  by_filename : Z; by_excluded_album : Z; ampm_variant : Z; duplicates : Z;
  retry_exhausted : Z; retry_only : Z;
}.

Definition SkipBreakdown_default : SkipBreakdown := {|
  by_state := 0; on_disk := 0; by_media_type := 0; by_date_range := 0; by_live_photo := 0;
  by_filename := 0; by_excluded_album := 0; ampm_variant := 0; duplicates := 0;
  retry_exhausted := 0; retry_only := 0;
|}.

Definition SkipBreakdown_total (s : SkipBreakdown) : Z :=
  fold_left wrapping_add_u64
    [on_disk s; by_media_type s; by_date_range s; by_live_photo s; by_filename s;
     by_excluded_album s; ampm_variant s; duplicates s; retry_exhausted s; retry_only s]
    (by_state s).

Definition SkipBreakdown_accumulate (self other : SkipBreakdown) : SkipBreakdown := {|
  by_state := wrapping_add_u64 (by_state self) (by_state other);
  on_disk := wrapping_add_u64 (on_disk self) (on_disk other);
  by_media_type := wrapping_add_u64 (by_media_type self) (by_media_type other);
  by_date_range := wrapping_add_u64 (by_date_range self) (by_date_range other);
  by_live_photo := wrapping_add_u64 (by_live_photo self) (by_live_photo other);
  by_filename := wrapping_add_u64 (by_filename self) (by_filename other);
  by_excluded_album := wrapping_add_u64 (by_excluded_album self) (by_excluded_album other);
  ampm_variant := wrapping_add_u64 (ampm_variant self) (ampm_variant other);
  duplicates := wrapping_add_u64 (duplicates self) (duplicates other);
  retry_exhausted := wrapping_add_u64 (retry_exhausted self) (retry_exhausted other);
  retry_only := wrapping_add_u64 (retry_only self) (retry_only other);
|}.

Definition record_filter_reason (s : SkipBreakdown) (reason : FilterReason) : SkipBreakdown :=
  let bump (f m l d e : Z) := {|
    by_state := by_state s; on_disk := on_disk s;
    by_media_type := wrapping_add_u64 (by_media_type s) m;
    by_date_range := wrapping_add_u64 (by_date_range s) d;
    by_live_photo := wrapping_add_u64 (by_live_photo s) l;
    by_filename := wrapping_add_u64 (by_filename s) f;
    by_excluded_album := wrapping_add_u64 (by_excluded_album s) e;
    ampm_variant := ampm_variant s; duplicates := duplicates s;
    retry_exhausted := retry_exhausted s; retry_only := retry_only s |} in
  match reason with
  | MalformedAsset => bump 1 0 0 0 0
  | ExcludedAlbum => bump 0 0 0 0 1
  | FRMediaType => bump 0 1 0 0 0
  | FRLivePhoto => bump 0 0 1 0 0
  | DateRange => bump 0 0 0 1 0
  | FRFilename => bump 1 0 0 0 0
  end.

(** ** Sync statistics *)

Inductive FullEnumerationReason :=
| NoStoredToken | MetadataBackfill | AlbumRelationHydrationIncomplete
| EnumConfigHashDrift | DownloadConfigHashDrift | ExplicitRetryFailed | OtherStaticReason.

Definition FullEnumerationReason_as_str (r : FullEnumerationReason) : str :=
  match r with
  | NoStoredToken => lit "no_stored_token"
  | MetadataBackfill => lit "metadata_backfill"
  | AlbumRelationHydrationIncomplete => lit "album_relation_hydration_incomplete"
  | EnumConfigHashDrift => lit "enum_config_hash_drift"
  | DownloadConfigHashDrift => lit "download_config_hash_drift"
  | ExplicitRetryFailed => lit "explicit_retry_failed"
  | OtherStaticReason => lit "other_static_reason"
  end.

Record PassKey := { pk_index : Z; pk_kind : PassKind; pk_label : str }.
#[export] Instance PassKey_eq : EqDecision PassKey.
Proof. solve_decision. Defined.

(** [src/icloud/photos/album.rs]: an opaque record name. *)
Definition ProviderRecordId : Type := str.

Record SyncStats := {
  assets_seen : Z;
  api_total_at_start : option Z;
  api_total_at_start_partial : bool;
  downloaded : Z;
  failed : Z;
  skipped : SkipBreakdown;
  bytes_downloaded : Z;
  disk_bytes_written : Z;
  exif_failures : Z;
  metadata_capture_revision : option Z;
  metadata_capture_refreshed : Z;
  metadata_capture_failures : Z;
  metadata_capture_remaining : Z;
  metadata_capture_progressed : bool;
  state_write_failures : Z;
  enumeration_errors : Z;
  count_probe_failures : Z;
  stale_pending_pruned : Z;
  pagination_shortfall_warnings : Z;
  pagination_shortfall_assets : Z;
  tail_probes : Z;
  count_undercount_assets : Z;
  enumeration_incomplete : bool;
  inventory_drop_warnings : Z;
  inventory_drop_assets : Z;
  inventory_drop_percent : option spec_float;
  inventory_drop_previous_total : option Z;
  inventory_drop_current_total : option Z;
  inventory_drop_library : option str;
  sync_token_blocked : bool;
  sync_token_blocked_reason : option str;
  sync_token_blocked_source : option str;
  sync_token_blocked_explanation : option str;
  full_enumeration_reason : option FullEnumerationReason;
  sync_token_blocked_zone : option str;
  sync_token_expected_receivers : option Z;
  sync_token_receivers_with_token : option Z;
  sync_token_receivers_missing : option Z;
  sync_token_receivers_blank : option Z;
  sync_token_receivers_dropped : option Z;
  sync_token_unique_values : option Z;
  same_cycle_recovery_attempts : Z;
  same_cycle_recovery_successes : Z;
  checkpoint_retry_passes : list PassKey;
  checkpoint_revalidate_records : list ProviderRecordId;
  elapsed_secs : spec_float;
  interrupted : bool;
  rate_limited : Z;
  photos_downloaded : Z;
  videos_downloaded : Z;
  recap : RunRecap;
}.

Definition is_some_b {A} (o : option A) : bool := match o with Some _ => true | None => false end.
(** [if self.f.is_none() { self.f = other.f }]. *)
Definition or_first {A} (self other : option A) : option A :=
  match self with Some _ => self | None => other end.
(** [Ord::max] on options: [None] is least. *)
Definition option_max (a b : option Z) : option Z :=
  match a, b with
  | Some x, Some y => Some (Z.max x y)
  | Some x, None => Some x
  | None, _ => b
  end.

Definition SyncStats_default : SyncStats := {|
  assets_seen := 0;
  api_total_at_start := None;
  api_total_at_start_partial := false;
  downloaded := 0;
  failed := 0;
  skipped := SkipBreakdown_default;
  bytes_downloaded := 0;
  disk_bytes_written := 0;
  exif_failures := 0;
  metadata_capture_revision := None;
  metadata_capture_refreshed := 0;
  metadata_capture_failures := 0;
  metadata_capture_remaining := 0;
  metadata_capture_progressed := false;
  state_write_failures := 0;
  enumeration_errors := 0;
  count_probe_failures := 0;
  stale_pending_pruned := 0;
  pagination_shortfall_warnings := 0;
  pagination_shortfall_assets := 0;
  tail_probes := 0;
  count_undercount_assets := 0;
  enumeration_incomplete := false;
  inventory_drop_warnings := 0;
  inventory_drop_assets := 0;
  inventory_drop_percent := None;
  inventory_drop_previous_total := None;
  inventory_drop_current_total := None;
  inventory_drop_library := None;
  sync_token_blocked := false;
  sync_token_blocked_reason := None;
  sync_token_blocked_source := None;
  sync_token_blocked_explanation := None;
  full_enumeration_reason := None;
  sync_token_blocked_zone := None;
  sync_token_expected_receivers := None;
  sync_token_receivers_with_token := None;
  sync_token_receivers_missing := None;
  sync_token_receivers_blank := None;
  sync_token_receivers_dropped := None;
  sync_token_unique_values := None;
  same_cycle_recovery_attempts := 0;
  same_cycle_recovery_successes := 0;
  checkpoint_retry_passes := [];
  checkpoint_revalidate_records := [];
  elapsed_secs := S754_zero false;
  interrupted := false;
  rate_limited := 0;
  photos_downloaded := 0;
  videos_downloaded := 0;
  recap := RunRecap_default;
|}.

Definition accumulate (self other : SyncStats) : SyncStats :=
  let had_api_total := is_some_b (api_total_at_start self) in
  let other_has_api_total := is_some_b (api_total_at_start other) in
  let api_total :=
    match api_total_at_start self, api_total_at_start other with
    | Some a, Some b => Some (saturating_add U64_MAX a b)
    | Some a, None => Some a
    | None, Some b => Some b
    | None, None => None
    end in
  let bigger := if inventory_drop_assets self <? inventory_drop_assets other then other else self in
  {|
    assets_seen := wrapping_add_u64 (assets_seen self) (assets_seen other);
    api_total_at_start := api_total;
    api_total_at_start_partial := api_total_at_start_partial self || api_total_at_start_partial other
      || (negb (Bool.eqb had_api_total other_has_api_total) && is_some_b api_total);
    downloaded := wrapping_add_u64 (downloaded self) (downloaded other);
    failed := wrapping_add_u64 (failed self) (failed other);
    skipped := SkipBreakdown_accumulate (skipped self) (skipped other);
    bytes_downloaded := wrapping_add_u64 (bytes_downloaded self) (bytes_downloaded other);
    disk_bytes_written := wrapping_add_u64 (disk_bytes_written self) (disk_bytes_written other);
    exif_failures := wrapping_add_u64 (exif_failures self) (exif_failures other);
    metadata_capture_revision := option_max (metadata_capture_revision self) (metadata_capture_revision other);
    metadata_capture_refreshed := wrapping_add_u64 (metadata_capture_refreshed self) (metadata_capture_refreshed other);
    metadata_capture_failures := wrapping_add_u64 (metadata_capture_failures self) (metadata_capture_failures other);
    metadata_capture_remaining := wrapping_add_u64 (metadata_capture_remaining self) (metadata_capture_remaining other);
    metadata_capture_progressed := metadata_capture_progressed self || metadata_capture_progressed other;
    state_write_failures := wrapping_add_u64 (state_write_failures self) (state_write_failures other);
    enumeration_errors := wrapping_add_u64 (enumeration_errors self) (enumeration_errors other);
    count_probe_failures := wrapping_add_u64 (count_probe_failures self) (count_probe_failures other);
    stale_pending_pruned := wrapping_add_u64 (stale_pending_pruned self) (stale_pending_pruned other);
    pagination_shortfall_warnings := wrapping_add_u64 (pagination_shortfall_warnings self) (pagination_shortfall_warnings other);
    pagination_shortfall_assets := wrapping_add_u64 (pagination_shortfall_assets self) (pagination_shortfall_assets other);
    tail_probes := wrapping_add_u64 (tail_probes self) (tail_probes other);
    count_undercount_assets := wrapping_add_u64 (count_undercount_assets self) (count_undercount_assets other);
    enumeration_incomplete := enumeration_incomplete self || enumeration_incomplete other;
    inventory_drop_warnings := wrapping_add_u64 (inventory_drop_warnings self) (inventory_drop_warnings other);
    inventory_drop_assets := inventory_drop_assets bigger;
    inventory_drop_percent := inventory_drop_percent bigger;
    inventory_drop_previous_total := inventory_drop_previous_total bigger;
    inventory_drop_current_total := inventory_drop_current_total bigger;
    inventory_drop_library := inventory_drop_library bigger;
    sync_token_blocked := sync_token_blocked self || sync_token_blocked other;
    sync_token_blocked_reason := or_first (sync_token_blocked_reason self) (sync_token_blocked_reason other);
    sync_token_blocked_source := or_first (sync_token_blocked_source self) (sync_token_blocked_source other);
    sync_token_blocked_explanation := or_first (sync_token_blocked_explanation self) (sync_token_blocked_explanation other);
    full_enumeration_reason := or_first (full_enumeration_reason self) (full_enumeration_reason other);
    sync_token_blocked_zone := or_first (sync_token_blocked_zone self) (sync_token_blocked_zone other);
    sync_token_expected_receivers := or_first (sync_token_expected_receivers self) (sync_token_expected_receivers other);
    sync_token_receivers_with_token := or_first (sync_token_receivers_with_token self) (sync_token_receivers_with_token other);
    sync_token_receivers_missing := or_first (sync_token_receivers_missing self) (sync_token_receivers_missing other);
    sync_token_receivers_blank := or_first (sync_token_receivers_blank self) (sync_token_receivers_blank other);
    sync_token_receivers_dropped := or_first (sync_token_receivers_dropped self) (sync_token_receivers_dropped other);
    sync_token_unique_values := or_first (sync_token_unique_values self) (sync_token_unique_values other);
    same_cycle_recovery_attempts := wrapping_add_u64 (same_cycle_recovery_attempts self) (same_cycle_recovery_attempts other);
    same_cycle_recovery_successes := wrapping_add_u64 (same_cycle_recovery_successes self) (same_cycle_recovery_successes other);
    checkpoint_retry_passes := checkpoint_retry_passes self ++ checkpoint_retry_passes other;
    checkpoint_revalidate_records := checkpoint_revalidate_records self ++ checkpoint_revalidate_records other;
    elapsed_secs := f64_add (elapsed_secs self) (elapsed_secs other);
    interrupted := interrupted self || interrupted other;
    rate_limited := wrapping_add_u64 (rate_limited self) (rate_limited other);
    photos_downloaded := wrapping_add_u64 (photos_downloaded self) (photos_downloaded other);
    videos_downloaded := wrapping_add_u64 (videos_downloaded self) (videos_downloaded other);
    recap := RunRecap_merge (recap self) (recap other);
  |}.

Definition RATE_LIMIT_PRESSURE_PERCENT : Z := 10.
Definition RATE_LIMIT_PERCENT_SCALE : Z := 100.

Definition has_rate_limit_pressure (s : SyncStats) : bool :=
  if rate_limited s =? 0 then false
  else if assets_seen s =? 0 then true
  else
    let observations := default U64_MAX (try_from U64_MAX (rate_limited s)) in
    RATE_LIMIT_PRESSURE_PERCENT
      <=? saturating_mul U64_MAX observations RATE_LIMIT_PERCENT_SCALE / assets_seen s.

(** ** Why token advancement was blocked *)

Definition kei_reasons : list str := map lit
    ["album_relation_hydration_incomplete";
     "album_delta_state_write_failed";
     "asset_delta_hydration_incomplete";
     "asset_master_mapping_state_write_failed";
     "provider_metadata_state_write_failed";
     "metadata_capture_repair_failed";
     "date_bounded_full_enumeration";
     "incremental_delete_state_write_failed";
     "incremental_hidden_state_write_failed";
     "kei_internal_token_receiver_dropped";
     "producer_enumeration_incomplete";
     "recent_limited_full_enumeration";
     "smart_folder_refresh_failed";
     "targeted_album_backfill_failed";
     "pending_retry_unmatched"]%string.
Definition icloud_reasons : list str := map lit
    ["incremental_delete_no_matching_state";
     "incremental_hidden_no_matching_state";
     "icloud_album_count_error";
     "pagination_shortfall";
     "icloud_blank_sync_token";
     "icloud_sync_token_mismatch";
     "icloud_sync_token_missing";
     "malformed_required_asset_fields";
     "unparsable_relation_delta";
     "unknown_album_relation_asset";
     "unknown_album_relation_container"]%string.

Definition sync_token_blocked_source_of (reason : str) : str :=
  if memb reason kei_reasons then lit "kei"
  else if memb reason icloud_reasons then lit "icloud"
  else lit "unknown".

(** The match of [sync_token_blocked_explanation], arm by arm. *)
Definition explanations : list (str * str) := map (λ p, (lit p.1, lit p.2))
  [("pagination_shortfall",
    "enumeration counts did not line up safely, so kei blocked token advancement");
   ("icloud_album_count_error",
    "iCloud returned a missing or malformed album count response");
   ("icloud_sync_token_missing",
    "iCloud did not return a sync token for this full enumeration");
   ("icloud_blank_sync_token",
    "iCloud returned a blank sync token, which kei treated as unusable");
   ("icloud_sync_token_mismatch",
    "iCloud returned conflicting sync tokens across passes");
   ("malformed_required_asset_fields",
    "iCloud returned a photo record without a usable required identity or capture date");
   ("kei_internal_token_receiver_dropped",
    "an internal token collection channel closed before completion");
   ("producer_enumeration_incomplete",
    "kei stopped before iCloud enumeration reached the natural end of the stream");
   ("recent_limited_full_enumeration",
    "a count-limited recent sync is a bounded enumeration, so kei intentionally did not persist a full-enumeration sync token");
   ("date_bounded_full_enumeration",
    "a lower-date-bounded sync is a bounded enumeration, so kei intentionally did not persist a full-enumeration sync token");
   ("album_relation_hydration_incomplete",
    "album membership state is not complete enough for incremental routing yet");
   ("asset_delta_hydration_incomplete",
    "kei could not obtain a complete photo from an asset-only iCloud delta");
   ("unparsable_relation_delta",
    "iCloud returned an album relation delta kei could not parse safely");
   ("unknown_album_relation_container",
    "an album relation referenced a container kei has not mapped yet");
   ("unknown_album_relation_asset",
    "an album relation referenced an asset kei cannot hydrate for album routing yet");
   ("album_delta_state_write_failed",
    "kei could not persist album delta state safely");
   ("asset_master_mapping_state_write_failed",
    "kei could not persist asset-to-master mapping state safely");
   ("provider_metadata_state_write_failed",
    "kei could not persist changed provider metadata safely");
   ("metadata_capture_repair_failed",
    "kei could not complete automatic metadata-capture repair safely");
   ("incremental_delete_state_write_failed",
    "kei could not persist an incremental source-delete safely");
   ("incremental_delete_no_matching_state",
    "an incremental source-delete did not match local state, so kei blocked token advancement");
   ("incremental_hidden_state_write_failed",
    "kei could not persist an incremental hidden-state change safely");
   ("incremental_hidden_no_matching_state",
    "an incremental hidden-state change did not match local state, so kei blocked token advancement");
   ("smart_folder_refresh_failed",
    "a selected smart-folder refresh did not complete safely");
   ("targeted_album_backfill_failed",
    "a targeted album backfill did not complete safely");
   ("pending_retry_unmatched",
    "kei could not refresh every pending retry target; the rows remain durable for a later cycle");
   ("sync_token_unavailable",
    "no usable sync token was available at the end of the cycle");
   ("sync_token_missing",
    "no usable sync token was available at the end of the cycle")]%string.

Definition sync_token_blocked_explanation_of (reason : str) : str :=
  match findb (λ p, str_eqb p.1 reason) explanations with
  | Some (_, explanation) => explanation
  | None => lit "the sync token was unavailable for an unspecified reason"
  end.

(** ** Facts *)

Definition counter_ok (n : Z) : Prop := 0 <= n <= U64_MAX.

Lemma wrapping_add_small a b : 0 <= a → 0 <= b → a + b <= U64_MAX → wrapping_add_u64 a b = a + b.
Proof. intros. apply Z.mod_small. lia. Qed.

Lemma is_none_or_true {A} (o : option A) p : is_none_or o p = true ↔ ∀ a, o = Some a → p a = true.
Proof. destruct o; cbn; naive_solver. Qed.

(** The recap of a run as the assets it observed. *)
Definition observe_all (r : RunRecap) (l : list (str * RecapAsset)) : RunRecap :=
  fold_left (λ r p, observe r p.1 p.2) l r.

(** What a recap says of the assets seen so far. *)
Record recap_of (seen : list (str * RecapAsset)) (r : RunRecap) : Prop := {
  ro_biggest : match biggest r with
    | Some b => (∃ l, (l, b) ∈ seen) ∧ ∀ l a, (l, a) ∈ seen → ra_bytes a <= ra_bytes b
    | None => seen = []
    end;
  ro_oldest : match oldest r with
    | Some o => (∃ l, (l, o) ∈ seen) ∧ ∀ l a, (l, a) ∈ seen → ra_created_local o <= ra_created_local a
    | None => seen = []
    end;
  ro_albums : ∀ l, match recap_albums r !! l with
    | Some n => (l, n) ∈ seen ∧ ∀ a, (l, a) ∈ seen → ra_created_local a <= ra_created_local n
    | None => ∀ a, (l, a) ∉ seen
    end;
}.

Lemma recap_of_default : recap_of [] RunRecap_default.
Proof. split; cbn; [done|done|]. intros l. rewrite lookup_empty. set_solver. Qed.

Lemma observe_recap seen r label asset :
  recap_of seen r → recap_of (seen ++ [(label, asset)]) (observe r label asset).
Proof.
  intros [Hb Ho Ha]. split; unfold observe; cbn.
  - destruct (biggest r) as [b|]; cbn.
    + destruct Hb as [[l Hl] Hb]. destruct (Z.ltb_spec (ra_bytes b) (ra_bytes asset));
        (split; [first [by exists label; set_solver|by exists l; set_solver]|]).
      all: intros l' a [Hin|[= -> ->]%list_elem_of_singleton]%elem_of_app; try apply Hb in Hin; lia.
    + subst. split; [exists label; set_solver|]. intros l a [= -> ->]%list_elem_of_singleton. lia.
  - destruct (oldest r) as [o|]; cbn.
    + destruct Ho as [[l Hl] Ho]. destruct (Z.ltb_spec (ra_created_local asset) (ra_created_local o));
        (split; [first [by exists label; set_solver|by exists l; set_solver]|]).
      all: intros l' a [Hin|[= -> ->]%list_elem_of_singleton]%elem_of_app; try apply Ho in Hin; lia.
    + subst. split; [exists label; set_solver|]. intros l a [= -> ->]%list_elem_of_singleton. lia.
  - intros l. pose proof (Ha l) as Hl. destruct (decide (l = label)) as [->|Hne].
    + destruct (recap_albums r !! label) as [n|] eqn:En.
      * destruct Hl as [Hin Hl]. destruct (Z.ltb_spec (ra_created_local n) (ra_created_local asset)).
        -- rewrite lookup_insert_eq. split; [set_solver|].
           intros a [Hi|[= ->]%list_elem_of_singleton]%elem_of_app; [apply Hl in Hi; lia|lia].
        -- rewrite En. split; [set_solver|].
           intros a [Hi|[= ->]%list_elem_of_singleton]%elem_of_app; [by apply Hl in Hi|lia].
      * rewrite lookup_insert_eq. split; [set_solver|].
        intros a [Hi|[= ->]%list_elem_of_singleton]%elem_of_app; [by apply Hl in Hi|lia].
    + assert (recap_albums (observe r label asset) !! l = recap_albums r !! l) as Heq.
      { unfold observe. cbn. repeat case_match; rewrite ?lookup_insert_ne by done; done. }
      unfold observe in Heq. cbn in Heq. rewrite Heq.
      destruct (recap_albums r !! l) as [n|]; [|set_solver].
      destruct Hl as [Hin Hl]. split; [set_solver|].
      intros a [Hi|[= -> ->]%list_elem_of_singleton]%elem_of_app; [by apply Hl|done].
Qed.

Lemma observe_all_recap seen r l : recap_of seen r → recap_of (seen ++ l) (observe_all r l).
Proof.
  revert seen r. induction l as [|[label a] l IH]; intros seen r Hr; [by rewrite app_nil_r|].
  cbn. replace (seen ++ (label, a) :: l) with ((seen ++ [(label, a)]) ++ l) by (by rewrite <- app_assoc).
  apply IH. by apply observe_recap.
Qed.

Lemma merge_recap s1 s2 r1 r2 :
  recap_of s1 r1 → recap_of s2 r2 → recap_of (s1 ++ s2) (RunRecap_merge r1 r2).
Proof.
  intros [Hb1 Ho1 Ha1] [Hb2 Ho2 Ha2]. split; unfold RunRecap_merge; cbn.
  - destruct (biggest r2) as [b2|]; [|subst s2; by rewrite app_nil_r].
    destruct Hb2 as [[l2 Hl2] Hb2]. destruct (biggest r1) as [b1|]; cbn.
    + destruct Hb1 as [[l1 Hl1] Hb1]. destruct (Z.leb_spec (ra_bytes b1) (ra_bytes b2));
        (split; [eexists; apply elem_of_app; eauto|]);
        intros l a [Hi|Hi]%elem_of_app; (apply Hb1 in Hi || apply Hb2 in Hi); lia.
    + subst s1. cbn. split; [by eexists|]. done.
  - destruct (oldest r2) as [o2|]; [|subst s2; by rewrite app_nil_r].
    destruct Ho2 as [[l2 Hl2] Ho2]. destruct (oldest r1) as [o1|]; cbn.
    + destruct Ho1 as [[l1 Hl1] Ho1]. destruct (Z.leb_spec (ra_created_local o2) (ra_created_local o1));
        (split; [eexists; apply elem_of_app; eauto|]);
        intros l a [Hi|Hi]%elem_of_app; (apply Ho1 in Hi || apply Ho2 in Hi); lia.
    + subst s1. cbn. split; [by eexists|]. done.
  - intros l. rewrite lookup_union_with. specialize (Ha1 l). specialize (Ha2 l).
    destruct (recap_albums r1 !! l) as [n1|], (recap_albums r2 !! l) as [n2|]; cbn.
    + destruct Ha1 as [Hi1 Ha1], Ha2 as [Hi2 Ha2]. unfold newer_asset.
      destruct (Z.ltb_spec (ra_created_local n1) (ra_created_local n2)); (split; [set_solver|]);
        intros a [Hi|Hi]%elem_of_app; (apply Ha1 in Hi || apply Ha2 in Hi); lia.
    + destruct Ha1. split; set_solver.
    + destruct Ha2. split; set_solver.
    + set_solver.
Qed.

(** ** Properties *)

(** the recap is exact whatever way the work was split: observing the
    assets of two pass results separately and merging gives a recap whose
    biggest file has the most bytes of all, whose oldest has the earliest
    date, and whose album entries are the newest asset of each album. *)
Theorem recap_merge_exact l1 l2 :
  recap_of (l1 ++ l2)
    (RunRecap_merge (observe_all RunRecap_default l1) (observe_all RunRecap_default l2)).
Proof.
  apply merge_recap; [apply (observe_all_recap [])|apply (observe_all_recap [])];
    apply recap_of_default.
Qed.

(** rate-limit pressure is reported exactly when at least one retry was
    rate limited and the rate-limited observations reach ten percent of the
    assets seen (integer division included), as long as the scaled count
    does not saturate. *)
Theorem has_rate_limit_pressure_exact s :
  0 <= rate_limited s → rate_limited s * 100 <= U64_MAX → 0 <= assets_seen s →
  has_rate_limit_pressure s = true ↔ 0 < rate_limited s ∧ assets_seen s <= 10 * rate_limited s.
Proof.
  intros Hr Hsat Ha. unfold has_rate_limit_pressure, RATE_LIMIT_PRESSURE_PERCENT, RATE_LIMIT_PERCENT_SCALE.
  destruct (Z.eqb_spec (rate_limited s) 0); [split; [done|lia]|].
  destruct (Z.eqb_spec (assets_seen s) 0); [split; [lia|done]|].
  unfold try_from. rewrite (proj2 (Z.leb_le (rate_limited s) U64_MAX)) by lia. cbn [default from_option id].
  unfold id, saturating_mul. rewrite Z.min_r by done. rewrite Z.leb_le.
  split.
  - intros Hq. split; [lia|]. pose proof (Z.mul_div_le (rate_limited s * 100) (assets_seen s)). nia.
  - intros [_ Hle]. apply Z.div_le_lower_bound; lia.
Qed.

(** Statistics with given counters. *)
Definition sample_stats (seen limited : Z) : SyncStats := {|
  assets_seen := seen;
  api_total_at_start := api_total_at_start SyncStats_default;
  api_total_at_start_partial := api_total_at_start_partial SyncStats_default;
  downloaded := downloaded SyncStats_default;
  failed := failed SyncStats_default;
  skipped := skipped SyncStats_default;
  bytes_downloaded := bytes_downloaded SyncStats_default;
  disk_bytes_written := disk_bytes_written SyncStats_default;
  exif_failures := exif_failures SyncStats_default;
  metadata_capture_revision := metadata_capture_revision SyncStats_default;
  metadata_capture_refreshed := metadata_capture_refreshed SyncStats_default;
  metadata_capture_failures := metadata_capture_failures SyncStats_default;
  metadata_capture_remaining := metadata_capture_remaining SyncStats_default;
  metadata_capture_progressed := metadata_capture_progressed SyncStats_default;
  state_write_failures := state_write_failures SyncStats_default;
  enumeration_errors := enumeration_errors SyncStats_default;
  count_probe_failures := count_probe_failures SyncStats_default;
  stale_pending_pruned := stale_pending_pruned SyncStats_default;
  pagination_shortfall_warnings := pagination_shortfall_warnings SyncStats_default;
  pagination_shortfall_assets := pagination_shortfall_assets SyncStats_default;
  tail_probes := tail_probes SyncStats_default;
  count_undercount_assets := count_undercount_assets SyncStats_default;
  enumeration_incomplete := enumeration_incomplete SyncStats_default;
  inventory_drop_warnings := inventory_drop_warnings SyncStats_default;
  inventory_drop_assets := inventory_drop_assets SyncStats_default;
  inventory_drop_percent := inventory_drop_percent SyncStats_default;
  inventory_drop_previous_total := inventory_drop_previous_total SyncStats_default;
  inventory_drop_current_total := inventory_drop_current_total SyncStats_default;
  inventory_drop_library := inventory_drop_library SyncStats_default;
  sync_token_blocked := sync_token_blocked SyncStats_default;
  sync_token_blocked_reason := sync_token_blocked_reason SyncStats_default;
  sync_token_blocked_source := sync_token_blocked_source SyncStats_default;
  sync_token_blocked_explanation := sync_token_blocked_explanation SyncStats_default;
  full_enumeration_reason := full_enumeration_reason SyncStats_default;
  sync_token_blocked_zone := sync_token_blocked_zone SyncStats_default;
  sync_token_expected_receivers := sync_token_expected_receivers SyncStats_default;
  sync_token_receivers_with_token := sync_token_receivers_with_token SyncStats_default;
  sync_token_receivers_missing := sync_token_receivers_missing SyncStats_default;
  sync_token_receivers_blank := sync_token_receivers_blank SyncStats_default;
  sync_token_receivers_dropped := sync_token_receivers_dropped SyncStats_default;
  sync_token_unique_values := sync_token_unique_values SyncStats_default;
  same_cycle_recovery_attempts := same_cycle_recovery_attempts SyncStats_default;
  same_cycle_recovery_successes := same_cycle_recovery_successes SyncStats_default;
  checkpoint_retry_passes := checkpoint_retry_passes SyncStats_default;
  checkpoint_revalidate_records := checkpoint_revalidate_records SyncStats_default;
  elapsed_secs := elapsed_secs SyncStats_default;
  interrupted := interrupted SyncStats_default;
  rate_limited := limited;
  photos_downloaded := photos_downloaded SyncStats_default;
  videos_downloaded := videos_downloaded SyncStats_default;
  recap := recap SyncStats_default;
|}.

Lemma has_rate_limit_pressure_exact_witness :
  has_rate_limit_pressure (sample_stats 100 10) = true ↔ 0 < 10 ∧ 100 <= 10 * 10.
Proof. apply (has_rate_limit_pressure_exact (sample_stats 100 10)); vm_compute; discriminate. Defined.
