(* ===== verification/Enumeration.v ===== *)
(** * The enumeration plan and the sync-token capture of a pass

    [src/icloud/photos/album.rs]: how one full enumeration of an album is cut
    into rank ranges, one per fetcher task ([build_enumeration_plan]); which
    fetcher may emit a record that several ranges see
    ([should_emit_asset_record]); and how the fetchers' completions become the
    sync token of the pass ([FetcherSyncTokenCapture]). *)
From S2P Require Import Prelude RustStr.

(** ** Page sizes and fetcher counts *)

Definition DEFAULT_PAGE_SIZE : Z := 100.
Definition MAX_EMPTY_PAGE_PROBES : Z := 5.

(** [a.div_ceil(b)]. *)
Definition div_ceil (a b : Z) : Z := a / b + (if 0 <? a mod b then 1 else 0).
(** [a * b] on [u64] and [usize] in a release build. *)
Definition wrapping_mul_u64 (a b : Z) : Z := (a * b) mod (U64_MAX + 1).

Definition download_stream_page_size (default_page_size download_concurrency : Z) : Z :=
  Z.max 1 (Z.min default_page_size (saturating_mul USIZE_MAX (Z.max 1 download_concurrency) 2)).

Definition determine_fetcher_count (total_items page_size concurrency : Z) : Z :=
  Z.max 1 (Z.min (div_ceil total_items page_size) concurrency).

Inductive PhotoStreamProfile :=
| FastEnumeration (concurrency : Z)
| BackpressuredDownload (download_concurrency : Z).

Definition request_page_size (p : PhotoStreamProfile) (default_page_size : Z) : Z :=
  match p with
  | FastEnumeration _ => Z.max 1 default_page_size
  | BackpressuredDownload dc => download_stream_page_size default_page_size dc
  end.

Definition fetcher_concurrency (p : PhotoStreamProfile) : Z :=
  match p with
  | FastEnumeration concurrency => Z.max 1 concurrency
  | BackpressuredDownload _ => 1
  end.

(** ** Ranges *)

Inductive FetcherRangeRole := Data | TailProof | LimitProbe.
#[export] Instance FetcherRangeRole_eq : EqDecision FetcherRangeRole.
Proof. solve_decision. Defined.

Inductive EnumerationFailure := FetcherError | ConsumerDropped | MalformedRecord | UnpairedRecords.
Inductive EnumerationCompletion :=
| ProvenEof
| UserBoundReached
| Incomplete (f : EnumerationFailure).
#[export] Instance EnumerationFailure_eq : EqDecision EnumerationFailure.
Proof. solve_decision. Defined.
#[export] Instance EnumerationCompletion_eq : EqDecision EnumerationCompletion.
Proof. solve_decision. Defined.

Record FetcherRange := {
  r_start : Z;
  r_end : Z;
  r_limit : option Z;
  r_role : FetcherRangeRole;
}.

Record EnumerationPlan := { ep_page_size : Z; ranges : list FetcherRange }.

Definition channel_fetchers (p : EnumerationPlan) : Z := Z.max 1 (zlen (ranges p)).

Definition effective_total (limit total_count : option Z) : option Z :=
  match total_count with
  | Some tc => Some (match limit with Some lim => Z.min tc lim | None => tc end)
  | None => limit
  end.

(** The cast to [u32] of a value bounded by the [u32] limit. *)
Definition range_limit (limit : option Z) (start end_ : Z) : option Z :=
  (λ lim, Z.min (Z.max 0 (lim - start)) (Z.max 0 (end_ - start))) <$> limit.

Definition push_fetcher_range (rs : list FetcherRange) (limit : option Z) (start end_ : Z) : list FetcherRange :=
  if end_ <=? start then rs
  else rs ++ [{| r_start := start; r_end := end_; r_limit := range_limit limit start end_; r_role := Data |}].

(** The [for i in 0..num_fetchers] loop, with its [break]. *)
Fixpoint data_ranges (n : nat) (i total chunk : Z) (rs : list FetcherRange) : list FetcherRange :=
  match n with
  | O => rs
  | S n =>
      let start := wrapping_mul_u64 i chunk in
      let end_ := Z.min (wrapping_mul_u64 (i + 1) chunk) total in
      if total <=? start then rs
      else data_ranges n (i + 1) total chunk (push_fetcher_range rs None start end_)
  end.

Definition single_range (limit : option Z) (role : FetcherRangeRole) : list FetcherRange :=
  [{| r_start := 0; r_end := U64_MAX; r_limit := limit; r_role := role |}].

Definition is_backpressured (p : PhotoStreamProfile) : bool :=
  match p with BackpressuredDownload _ => true | _ => false end.

Definition num_fetchers (total page_size concurrency : Z) : Z :=
  if (1 <? concurrency) && (0 <? total)
  then determine_fetcher_count total page_size (wrapping_mul_u64 concurrency 2) else 1.

Definition chunk_size_items (total page_size num : Z) : Z :=
  wrapping_mul_u64 (div_ceil (div_ceil total num) page_size) page_size.

Definition build_enumeration_plan (limit total_count : option Z) (default_page_size : Z)
    (profile : PhotoStreamProfile) : EnumerationPlan :=
  let page_size := request_page_size profile default_page_size in
  match limit with
  | Some limit => {| ep_page_size := page_size; ranges := single_range (Some limit) LimitProbe |}
  | None =>
    match total_count with
    | None => {| ep_page_size := page_size; ranges := single_range None TailProof |}
    | Some total =>
      if is_backpressured profile || (fetcher_concurrency profile =? 1) then
        {| ep_page_size := page_size; ranges := single_range None TailProof |}
      else
        let num := num_fetchers total page_size (fetcher_concurrency profile) in
        let chunk := chunk_size_items total page_size num in
        {| ep_page_size := page_size;
           ranges := data_ranges (Z.to_nat num) 0 total chunk [] ++
             [{| r_start := total; r_end := U64_MAX; r_limit := None; r_role := TailProof |}] |}
    end
  end.

(** ** Which range emits a record *)

(** The maps shared by the fetchers ([range_record_owners]); its lock is
    poisoned only by a panic, after which the pass has no token. *)
Abbreviation owners := (gmap str Z).

(** The verdict, the fetcher's own set, the shared map. *)
Definition should_emit_asset_record (record_name : str) (range_start : Z) (range_role : FetcherRangeRole)
    (emitted_in_range : gset str) (range_record_owners : owners) : bool * gset str * owners :=
  let own := match range_role with Data => false | _ => true end in
  if own && bool_decide (record_name ∈ emitted_in_range) then (false, emitted_in_range, range_record_owners)
  else
    let emitted := if own then {[record_name]} ∪ emitted_in_range else emitted_in_range in
    match range_record_owners !! record_name with
    | Some owner => (owner =? range_start, emitted, range_record_owners)
    | None => (true, emitted, <[record_name := range_start]> range_record_owners)
    end.

(** ** The sync token of the pass *)

Definition unanimous_fetcher_sync_token (tokens : list str) : option str :=
  match tokens with
  | [] => None
  | first :: _ => if forallb (λ t, str_eqb t first) tokens then Some first else None
  end.

Record FetcherSyncTokenCapture := {
  observations : list (option str * EnumerationCompletion);
  expected_fetchers : Z;
  completed_fetchers : Z;
  suppressed : bool;
}.

Definition FetcherSyncTokenCapture_default : FetcherSyncTokenCapture :=
  {| observations := []; expected_fetchers := 0; completed_fetchers := 0; suppressed := false |}.

Definition expect (c : FetcherSyncTokenCapture) (fetchers : Z) : FetcherSyncTokenCapture :=
  {| observations := observations c; expected_fetchers := fetchers;
     completed_fetchers := completed_fetchers c; suppressed := suppressed c |}.

Definition complete (c : FetcherSyncTokenCapture) (token : option str) (completion : EnumerationCompletion) :
    FetcherSyncTokenCapture :=
  {| observations := observations c ++ [(token, completion)]; expected_fetchers := expected_fetchers c;
     completed_fetchers := completed_fetchers c + 1; suppressed := suppressed c |}.

Definition suppress (c : FetcherSyncTokenCapture) : FetcherSyncTokenCapture :=
  {| observations := observations c; expected_fetchers := expected_fetchers c;
     completed_fetchers := completed_fetchers c; suppressed := true |}.

Definition is_incomplete (o : option str * EnumerationCompletion) : bool :=
  match o.2 with Incomplete _ => true | _ => false end.
Definition is_user_bound (o : option str * EnumerationCompletion) : bool :=
  match o.2 with UserBoundReached => true | _ => false end.

Definition resolve (c : FetcherSyncTokenCapture) : option str :=
  if suppressed c then None
  else if negb (completed_fetchers c =? expected_fetchers c) then None
  else if existsb is_incomplete (observations c) then None
  else if existsb is_user_bound (observations c) then None
  else unanimous_fetcher_sync_token (omap fst (observations c)).

(** ** Ranges that follow one another *)

Fixpoint consecutive (s e : Z) (rs : list FetcherRange) : Prop :=
  match rs with
  | [] => s = e
  | r :: rs => r_start r = s ∧ s < r_end r ∧ consecutive (r_end r) e rs
  end.

Definition covers (k : Z) (r : FetcherRange) : Prop := r_start r <= k < r_end r.

Lemma consecutive_le s e rs : consecutive s e rs → s <= e.
Proof.
  revert s; induction rs as [|r rs IH]; cbn; intros s; [lia|].
  intros (? & ? & H). specialize (IH _ H). lia.
Qed.

Lemma consecutive_app s m e rs1 rs2 :
  consecutive s m rs1 → consecutive m e rs2 → consecutive s e (rs1 ++ rs2).
Proof.
  revert s; induction rs1 as [|r rs IH]; cbn; intros s; [by intros ->|].
  intros (-> & ? & H) H2. split_and!; auto.
Qed.

Lemma consecutive_bounds s e rs r : consecutive s e rs → r ∈ rs → s <= r_start r ∧ r_end r <= e.
Proof.
  revert s; induction rs as [|r' rs IH]; cbn; intros s; [by intros _ ?%elem_of_nil|].
  intros (<- & ? & H) [->|Hin]%elem_of_cons.
  - pose proof (consecutive_le _ _ _ H). lia.
  - specialize (IH _ H Hin). lia.
Qed.
Lemma consecutive_nonempty s e rs r : consecutive s e rs → r ∈ rs → r_start r < r_end r.
Proof.
  revert s; induction rs as [|r' rs IH]; cbn; intros s; [by intros _ ?%elem_of_nil|].
  intros (<- & ? & H) [->|Hin]%elem_of_cons; [done|by eapply IH].
Qed.

Lemma consecutive_covers s e rs k :
  consecutive s e rs → s <= k < e →
  ∃ i r, rs !! i = Some r ∧ covers k r ∧ ∀ j r', rs !! j = Some r' → covers k r' → j = i.
Proof.
  revert s; induction rs as [|r rs IH]; cbn; intros s; [lia|].
  intros (<- & Hlt & H) Hk. destruct (decide (k < r_end r)) as [Hin|Hout].
  - exists 0%nat, r. split_and!; [done|split; lia|]. intros [|j] r'; [done|]. cbn.
    intros Hr'%list_elem_of_lookup_2 [Hc _]. destruct (consecutive_bounds _ _ _ _ H Hr'). lia.
  - destruct (IH _ H) as (i & r1 & Hi & Hc & Hu); [lia|].
    exists (S i), r1. split_and!; [done..|]. intros [|j] r'; cbn.
    + intros [= <-] [_ ?]. lia.
    + intros Hj Hc'. f_equal. by eapply Hu.
Qed.

Lemma consecutive_starts_NoDup s e rs : consecutive s e rs → NoDup (r_start <$> rs).
Proof.
  revert s; induction rs as [|r rs IH]; cbn; intros s; [constructor|].
  intros (<- & ? & H). constructor; [|by eapply IH].
  intros (r' & Heq & Hin)%list_elem_of_fmap. destruct (consecutive_bounds _ _ _ _ H Hin). lia.
Qed.

Lemma div_ceil_spec a b : 0 <= a → 0 < b → a <= div_ceil a b * b < a + b.
Proof.
  intros ? ?. unfold div_ceil. pose proof (Z.div_mod a b). pose proof (Z.mod_pos_bound a b).
  destruct (Z.ltb_spec 0 (a mod b)); nia.
Qed.

Lemma div_ceil_nonneg a b : 0 <= a → 0 < b → 0 <= div_ceil a b.
Proof. intros ? ?. pose proof (div_ceil_spec a b). nia. Qed.

Lemma wrapping_mul_u64_small a b : 0 <= a * b <= U64_MAX → wrapping_mul_u64 a b = a * b.
Proof. intros ?. unfold wrapping_mul_u64. apply Z.mod_small. lia. Qed.

(** The loop pushes consecutive, page-aligned ranges up to [total]. *)
Lemma data_ranges_spec total chunk ps n i rs0 :
  0 < chunk → chunk mod ps = 0 → 0 <= i → (i + Z.of_nat n) * chunk <= U64_MAX → 0 < ps →
  total <= (i + Z.of_nat n) * chunk →
  0 <= total →
  ∃ rs, data_ranges n i total chunk rs0 = rs0 ++ rs ∧
    consecutive (Z.min (i * chunk) total) total rs ∧
    Forall (λ r, r_role r = Data ∧ r_limit r = None ∧ r_start r mod ps = 0) rs ∧ (length rs <= n)%nat.
Proof.
  intros Hc Hmod. revert i rs0. induction n as [|n IH]; intros i rs0 Hi Hw Hps Hcov Ht.
  - exists []. rewrite app_nil_r. cbn. split_and!; [done|lia|constructor|lia].
  - rewrite Nat2Z.inj_succ in Hw, Hcov. cbn [data_ranges]. rewrite !wrapping_mul_u64_small by nia.
    destruct (Z.leb_spec total (i * chunk)) as [Hge|Hlt].
    + exists []. rewrite app_nil_r. cbn. split_and!; [done|lia|constructor|lia].
    + unfold push_fetcher_range. destruct (Z.leb_spec (Z.min ((i + 1) * chunk) total) (i * chunk)); [nia|].
      destruct (IH (i + 1) (rs0 ++ [{| r_start := i * chunk; r_end := Z.min ((i + 1) * chunk) total;
        r_limit := range_limit None (i * chunk) (Z.min ((i + 1) * chunk) total); r_role := Data |}]))
        as (rs & -> & Hcons & Hall & Hlen); [lia| |done| |done|].
      { replace (i + 1 + Z.of_nat n) with (i + Z.succ (Z.of_nat n)) by lia. done. }
      { replace (i + 1 + Z.of_nat n) with (i + Z.succ (Z.of_nat n)) by lia. done. }
      rewrite <- app_assoc. eexists. split_and!; [done| | |cbn; lia]; cbn.
      * split_and!; [lia|lia|done].
      * constructor; [|done]. split_and!; [done..|cbn].
        rewrite Z.mul_mod, Hmod, Z.mul_0_r by lia. apply Z.mod_0_l. lia.
Qed.

Lemma request_page_size_pos profile ps : 1 <= request_page_size profile ps.
Proof. destruct profile; cbn; unfold download_stream_page_size; lia. Qed.

Lemma request_page_size_le profile ps : request_page_size profile ps <= Z.max 1 ps.
Proof. destruct profile; cbn; unfold download_stream_page_size; lia. Qed.

Lemma num_fetchers_bounds total ps conc :
  0 < total → 0 < ps → 1 <= conc →
  1 <= num_fetchers total ps conc <= Z.min (div_ceil total ps) (2 * conc).
Proof.
  intros Ht Hp Hc. pose proof (div_ceil_spec total ps ltac:(lia) Hp).
  assert (1 <= div_ceil total ps) by nia.
  unfold num_fetchers, determine_fetcher_count.
  assert (wrapping_mul_u64 conc 2 <= 2 * conc).
  { unfold wrapping_mul_u64, U64_MAX. rewrite (Z.mul_comm conc). apply Z.mod_le; lia. }
  destruct (1 <? conc), (0 <? total); cbn; lia.
Qed.

(** The chunks of a plan do not overflow, and they cover the count hint. *)
Lemma chunk_size_items_spec total ps num :
  0 < total < 2 ^ 60 → 0 < ps < 2 ^ 60 → 1 <= num <= div_ceil total ps →
  ∃ chunk, chunk_size_items total ps num = chunk ∧ 0 < chunk ∧ chunk mod ps = 0 ∧
    total <= num * chunk <= U64_MAX.
Proof.
  intros Ht Hp Hn. eexists. split; [done|]. unfold chunk_size_items.
  set (raw := div_ceil total num).
  pose proof (div_ceil_spec total num ltac:(lia) ltac:(lia)) as Hraw. fold raw in Hraw.
  pose proof (div_ceil_spec total ps ltac:(lia) ltac:(lia)) as Hpg.
  assert (0 < raw <= total) by nia.
  pose proof (div_ceil_spec raw ps ltac:(lia) ltac:(lia)) as Hch.
  assert (div_ceil total ps <= total) by nia.
  assert (num * ps <= div_ceil total ps * ps) by nia.
  assert (num * (raw + ps) <= 4 * total + 2 * ps) by lia.
  assert (div_ceil raw ps * ps <= U64_MAX) by (unfold U64_MAX; lia).
  rewrite wrapping_mul_u64_small by nia. split_and!; [nia|by apply Z.mod_mul; lia|nia|].
  transitivity (num * (raw + ps)); [nia|]. unfold U64_MAX. lia.
Qed.

Definition plan_shape (ps : Z) (total conc : Z) (rs : list FetcherRange) : Prop :=
  ∃ data last, rs = data ++ [last] ∧ r_role last <> Data ∧ r_end last = U64_MAX ∧
    Forall (λ r, r_role r = Data ∧ r_limit r = None ∧ r_start r mod ps = 0 ∧ r_end r <= total) data ∧
    zlen data <= 2 * conc.

Lemma single_range_consecutive limit role : consecutive 0 U64_MAX (single_range limit role).
Proof. cbn. split_and!; done. Qed.

Lemma single_range_shape ps total conc limit role :
  role <> Data → 1 <= conc → plan_shape ps total conc (single_range limit role).
Proof. intros. exists []. eexists. cbn. split_and!; [done..|lia]. Qed.

Lemma build_enumeration_plan_consecutive limit total_count ps profile :
  (∀ t, total_count = Some t → 0 <= t < 2 ^ 60) → ps < 2 ^ 60 →
  let plan := build_enumeration_plan limit total_count ps profile in
  consecutive 0 U64_MAX (ranges plan) ∧
  plan_shape (ep_page_size plan) (default 0 total_count) (fetcher_concurrency profile) (ranges plan).
Proof.
  intros Htot Hps. assert (1 <= fetcher_concurrency profile) as Hc by (destruct profile; cbn; lia).
  unfold build_enumeration_plan.
  destruct limit as [lim|]; [split; [apply single_range_consecutive|by apply single_range_shape]|].
  destruct total_count as [total|]; [|split; [apply single_range_consecutive|by apply single_range_shape]].
  destruct (is_backpressured profile || _); [split; [apply single_range_consecutive|by apply single_range_shape]|].
  specialize (Htot total eq_refl). pose proof (request_page_size_pos profile ps) as Hp1. pose proof (request_page_size_le profile ps) as Hp2.
  set (p := request_page_size profile ps) in *. cbn.
  destruct (decide (total = 0)) as [->|Hne].
  - replace (data_ranges _ 0 0 _ []) with (@nil FetcherRange) by (by destruct (Z.to_nat _)).
    split; [done|]. exists [], {| r_start := 0; r_end := U64_MAX; r_limit := None; r_role := TailProof |}.
    cbn. split_and!; [done..|lia].
  - pose proof (num_fetchers_bounds total p (fetcher_concurrency profile) ltac:(lia) ltac:(lia) Hc) as Hn.
    set (num := num_fetchers _ _ _) in *.
    destruct (chunk_size_items_spec total p num) as (chunk & -> & Hcp & Hmod & Hcov); [lia..|].
    destruct (data_ranges_spec total chunk p (Z.to_nat num) 0 []) as (rs & -> & Hcons & Hall & Hlen);
      [done|done|lia|rewrite Z2Nat.id; lia|lia|rewrite Z2Nat.id; lia|lia|].
    cbn [app]. rewrite Z.mul_0_l, Z.min_l in Hcons by lia. split.
    + eapply consecutive_app; [done|]. cbn. split_and!; [done| |done]. unfold U64_MAX. lia.
    + exists rs. eexists. split_and!; [done..| |lia].
      apply Forall_forall. intros r Hr. pose proof (proj1 (Forall_forall _ _) Hall _ Hr) as (? & ? & ?).
      destruct (consecutive_bounds _ _ _ _ Hcons Hr). done.
Qed.

(** ** The plan *)

(** C38: The ranges of an enumeration plan partition the ranks: every rank
    below [u64::MAX] is in exactly one range, whatever the count hint says.
    Exactly the last range, which is unbounded, owns the proof of the end;
    the others are page-aligned data ranges inside the count hint, at most two
    per requested fetcher, and no two ranges start at the same rank. *)
Theorem build_enumeration_plan_partition limit total_count ps profile
    (Htotal : ∀ t, total_count = Some t → 0 <= t < 2 ^ 60) (Hps : ps < 2 ^ 60) :
  let plan := build_enumeration_plan limit total_count ps profile in
  (∀ k, 0 <= k < U64_MAX →
    ∃ i r, ranges plan !! i = Some r ∧ covers k r ∧ ∀ j r', ranges plan !! j = Some r' → covers k r' → j = i) ∧
  NoDup (r_start <$> ranges plan) ∧
  plan_shape (ep_page_size plan) (default 0 total_count) (fetcher_concurrency profile) (ranges plan).
Proof.
  intros plan.
  destruct (build_enumeration_plan_consecutive limit total_count ps profile Htotal Hps) as [Hcons Hshape].
  fold plan in Hcons, Hshape. split_and!; [|by eapply consecutive_starts_NoDup|done].
  intros k Hk. by eapply consecutive_covers.
Qed.

Lemma build_enumeration_plan_partition_witness :
  let plan := build_enumeration_plan None (Some 1050) 100 (FastEnumeration 2) in
  length (ranges plan) = 5%nat ∧ NoDup (r_start <$> ranges plan).
Proof.
  split; [vm_compute; reflexivity|].
  apply (build_enumeration_plan_partition None (Some 1050) 100 (FastEnumeration 2)); [|done].
  intros t [= <-]. done.
Defined.

(** ** The token of the pass *)

Lemma existsb_false_Forall {A} (p : A → bool) l : existsb p l = false ↔ ∀ x, x ∈ l → p x = false.
Proof.
  split.
  - intros H x Hx%list_elem_of_In. destruct (p x) eqn:E; [|done].
    assert (existsb p l = true) by (apply existsb_exists; eauto). congruence.
  - intros H. destruct (existsb p l) eqn:E; [|done].
    apply existsb_exists in E as (x & Hx%list_elem_of_In & Hp). by rewrite (H x Hx) in Hp.
Qed.

Lemma unanimous_fetcher_sync_token_Some tokens t :
  unanimous_fetcher_sync_token tokens = Some t ↔ t ∈ tokens ∧ ∀ t', t' ∈ tokens → t' = t.
Proof.
  unfold unanimous_fetcher_sync_token. destruct tokens as [|first rest]; [set_solver|].
  destruct (forallb _ _) eqn:E.
  - rewrite forallb_forall in E. unfold str_eqb in E.
    assert (∀ t', t' ∈ first :: rest → t' = first) as Hall.
    { intros t' Ht%list_elem_of_In. apply E in Ht. by apply bool_decide_eq_true in Ht. }
    split; [intros [= <-]; split; [left|done]|]. intros [Hin _]. f_equal. symmetry. by apply Hall.
  - split; [done|]. intros [Hin Hall]. exfalso.
    assert (forallb (λ t', str_eqb t' first) (first :: rest) = true) as Ht; [|congruence].
    apply forallb_forall. intros t' Ht%list_elem_of_In. unfold str_eqb. apply bool_decide_eq_true.
    rewrite (Hall t') by done. symmetry. apply Hall. left.
Qed.

Lemma resolve_Some c t :
  resolve c = Some t ↔
    suppressed c = false ∧ completed_fetchers c = expected_fetchers c ∧
    (∀ o, o ∈ observations c → o.2 = ProvenEof) ∧
    (∃ o, o ∈ observations c ∧ o.1 = Some t) ∧
    (∀ o t', o ∈ observations c → o.1 = Some t' → t' = t).
Proof.
  unfold resolve. destruct (suppressed c); [naive_solver|].
  destruct (Z.eqb_spec (completed_fetchers c) (expected_fetchers c)) as [->|Hne]; cbn [negb]; [|naive_solver].
  destruct (existsb is_incomplete _) eqn:Ei.
  { split; [done|]. intros (_ & _ & H & _). apply existsb_exists in Ei as (o & Ho%list_elem_of_In & Hi).
    unfold is_incomplete in Hi. by rewrite (H o Ho) in Hi. }
  destruct (existsb is_user_bound _) eqn:Eu.
  { split; [done|]. intros (_ & _ & H & _). apply existsb_exists in Eu as (o & Ho%list_elem_of_In & Hi).
    unfold is_user_bound in Hi. by rewrite (H o Ho) in Hi. }
  pose proof (proj1 (existsb_false_Forall _ _) Ei) as Hi. pose proof (proj1 (existsb_false_Forall _ _) Eu) as Hu.
  rewrite unanimous_fetcher_sync_token_Some. setoid_rewrite list_elem_of_omap. split.
  - intros [(o & Ho & Hot) Hall]. split_and!; [done|done| |by exists o|].
    + intros o' Ho'. specialize (Hi o' Ho'). specialize (Hu o' Ho'). unfold is_incomplete, is_user_bound in *.
      by destruct (o'.2).
    + intros o' t' Ho' Ht'. apply Hall. by exists o'.
  - intros (_ & _ & _ & (o & Ho & Hot) & Hall). split; [by exists o|]. intros t' (o' & Ho' & Ht'). by eapply Hall.
Qed.

(** The sync token of a pass is exactly the token its fetchers agree on,
    and only when every expected fetcher reported that it reached the end of
    its range: no error, no dropped consumer, no malformed or unpaired record,
    no caller's limit, and no two different tokens. *)
Theorem resolve_exact c t :
  resolve c = Some t ↔
    suppressed c = false ∧ completed_fetchers c = expected_fetchers c ∧
    (∀ o, o ∈ observations c → o.2 = ProvenEof) ∧
    (∃ o, o ∈ observations c ∧ o.1 = Some t) ∧
    (∀ o t', o ∈ observations c → o.1 = Some t' → t' = t).
Proof. apply resolve_Some. Qed.

(** ** Ownership of a record seen by several ranges

    The fetchers of a pass run concurrently; each call of
    [should_emit_asset_record] is atomic (it holds the lock of the shared
    map).  [emit_step] is one call by the range that starts at [s]. *)

Record EmitSystem := {
  es_emitted : gmap Z (gset str);
  es_owners : owners;
  es_accepted : list (Z * str);
}.

Definition EmitSystem_init : EmitSystem := {| es_emitted := ∅; es_owners := ∅; es_accepted := [] |}.

Definition emit_call (role : Z → FetcherRangeRole) (s : Z) (name : str) (es : EmitSystem) : EmitSystem :=
  let '(ok, emitted, own) :=
    should_emit_asset_record name s (role s) (default ∅ (es_emitted es !! s)) (es_owners es) in
  {| es_emitted := <[s := emitted]> (es_emitted es); es_owners := own;
     es_accepted := if (ok : bool) then es_accepted es ++ [(s, name)] else es_accepted es |}.

Inductive emit_reachable (role : Z → FetcherRangeRole) : EmitSystem → Prop :=
| emit_init : emit_reachable role EmitSystem_init
| emit_step s name es : emit_reachable role es → emit_reachable role (emit_call role s name es).

Lemma should_emit_spec name s role emitted own ok' emitted' own' :
  should_emit_asset_record name s role emitted own = (ok', emitted', own') →
  emitted ⊆ emitted' ∧ own ⊆ own' ∧
  (ok' = true → own' !! name = Some s ∧ (role <> Data → name ∉ emitted ∧ name ∈ emitted')) ∧
  (ok' = false → (role <> Data ∧ name ∈ emitted) ∨ ∃ o, o <> s ∧ own' !! name = Some o) ∧
  (∀ k v, own' !! k = Some v → own !! k = Some v ∨ (k = name ∧ v = s ∧ own !! k = None ∧ ok' = true)).
Proof.
  unfold should_emit_asset_record.
  destruct (decide (role = Data)) as [->|Hr].
  - cbn [andb]. destruct (own !! name) as [o|] eqn:Ho.
    + intros [= <- <- <-]. split_and!; [done|done|intros ->%Z.eqb_eq; done| |by left].
      intros ?%Z.eqb_neq. right. eauto.
    + intros [= <- <- <-]. split_and!; [done|by apply insert_subseteq|by rewrite lookup_insert_eq|done|].
      intros k v [[<- <-]|[? ?]]%lookup_insert_Some; eauto 6.
  - replace (match role with Data => false | _ => true end) with true by (by destruct role). cbn [andb].
    case_bool_decide as Hin.
    { intros [= <- <- <-]. split_and!; [done|done|done|by left; split|by left]. }
    destruct (own !! name) as [o|] eqn:Ho.
    + intros [= <- <- <-]. split_and!; [set_solver|done| | |by left].
      * intros ->%Z.eqb_eq. split; [done|]. set_solver.
      * intros ?%Z.eqb_neq. right. eauto.
    + intros [= <- <- <-]. split_and!; [set_solver|by apply insert_subseteq| |done|].
      * split; [by rewrite lookup_insert_eq|]. set_solver.
      * intros k v [[<- <-]|[? ?]]%lookup_insert_Some; eauto 6.
Qed.

Lemma should_emit_emitted name s role emitted own :
  (should_emit_asset_record name s role emitted own).1.2 ⊆ {[name]} ∪ emitted.
Proof.
  unfold should_emit_asset_record. destruct (_ && _); [cbn; set_solver|].
  destruct (own !! name), role; cbn; set_solver.
Qed.

Lemma emit_reachable_inv role es :
  emit_reachable role es →
  (∀ s n, (s, n) ∈ es_accepted es → es_owners es !! n = Some s) ∧
  (∀ s n, role s <> Data → (s, n) ∈ es_accepted es → n ∈ default ∅ (es_emitted es !! s)) ∧
  NoDup (filter (λ p, role p.1 <> Data) (es_accepted es)).
Proof.
  induction 1 as [|s name es _ (Hown & Hem & Hnd)]; [cbn; split_and!; [set_solver..|constructor]|].
  unfold emit_call.
  destruct (should_emit_asset_record _ _ _ _ _) as [[acc emitted] own] eqn:E.
  apply should_emit_spec in E as (Hsub & Hos & Hok & _ & _). cbn.
  assert (∀ s' n, role s' <> Data → n ∈ default ∅ (es_emitted es !! s') →
    n ∈ default ∅ (<[s:=emitted]> (es_emitted es) !! s')) as Hmono.
  { intros s' n _ Hn. destruct (decide (s = s')) as [<-|?]; [rewrite lookup_insert_eq; set_solver|].
    by rewrite lookup_insert_ne. }
  destruct acc; [|split_and!; [|by auto|done]].
  - destruct (Hok eq_refl) as [Hn Hr]. split_and!.
    + intros s' n [Hin|Heq%list_elem_of_singleton]%elem_of_app; [|by simplify_eq].
      eapply lookup_weaken; [by apply Hown|done].
    + intros s' n Hs' [Hin|Heq%list_elem_of_singleton]%elem_of_app; [by auto|]. simplify_eq.
      rewrite lookup_insert_eq. by apply Hr.
    + rewrite filter_app. apply NoDup_app. split_and!; [done| |].
      * intros [s' n] [Hs' Hin]%list_elem_of_filter [_ Heq%list_elem_of_singleton]%list_elem_of_filter.
        simplify_eq. cbn in Hs'. destruct (Hr Hs') as [Hno _]. apply Hno. by apply Hem.
      * rewrite filter_cons. case_decide; repeat constructor; set_solver.
  - intros s' n Hin. eapply lookup_weaken; [by apply Hown|done].
Qed.

(** However the calls of concurrent fetchers interleave, a record is
    emitted by one range only, and the range that proves the end emits it at
    most once. *)
Theorem emission_is_exclusive role es (H : emit_reachable role es) :
  (∀ s s' n, (s, n) ∈ es_accepted es → (s', n) ∈ es_accepted es → s = s') ∧
  NoDup (filter (λ p, role p.1 <> Data) (es_accepted es)).
Proof.
  destruct (emit_reachable_inv _ _ H) as (Hown & _ & Hnd). split; [|done].
  intros s s' n H1%Hown H2%Hown. congruence.
Qed.

Lemma emission_is_exclusive_witness :
  let role := λ s, if s =? 0 then Data else TailProof in
  let a := lit "a" in
  let es := emit_call role 0 a (emit_call role 100 a (emit_call role 0 a (emit_call role 100 (lit "b") EmitSystem_init))) in
  es_accepted es = [(100, lit "b"); (0, a); (0, a)] ∧
  ∀ s s' n, (s, n) ∈ es_accepted es → (s', n) ∈ es_accepted es → s = s'.
Proof.
  intros role a es. split; [vm_compute; reflexivity|].
  apply (emission_is_exclusive role es). repeat constructor.
Defined.
