(* ===== verification/Cloudkit.v ===== *)
(** * CloudKit records

    [src/icloud/photos/cloudkit.rs] and the part of
    [src/icloud/photos/asset.rs] that turns a pair of records into an asset.
    The fields of a record are dynamic JSON ([serde_json::Value]), of which
    the source uses the accessors of [JsonEnv]. *)
From S2P Require Import Prelude RustStr.

(** A finite [f64]: [f_mant * 2 ^ f_exp]. *)
Record F64 := { f_mant : Z; f_exp : Z }.

Class JsonEnv := {
  Value : Type;
  (** [Value::get(key)] *)
  get : Value → str → option Value;
  as_str : Value → option str;
  as_i64 : Value → option Z;
  as_f64 : Value → option F64;
  (** [chrono::Utc.timestamp_millis_opt(ms).single()] is a date. *)
  timestamp_millis_ok : Z → bool;
}.

Section Records.
Context `{JsonEnv}.

Record CkRecord := {
  rec_name : str;
  rec_type : str;
  fields : Value;
  deleted : option bool;
}.

Record QueryResponse := {
  q_records : list CkRecord;
  q_sync_token : option str;
}.

(** [fields.get(a).and_then(|f| f.get(b))]. *)
Definition get2 (v : Value) (a b : str) : option Value := get v a ≫= λ f, get f b.

(** [masterRef.value.recordName] *)
Definition master_ref (r : CkRecord) : option str :=
  get2 (fields r) (lit "masterRef") (lit "value") ≫= λ v, get v (lit "recordName") ≫= as_str.

(** [ms] lies between [i64::MIN as f64] and [i64::MAX as f64] (which is 2^63). *)
Definition in_i64_range (ms : F64) : bool :=
  if 0 <=? f_exp ms then (- 2 ^ 63 <=? f_mant ms * 2 ^ f_exp ms) && (f_mant ms * 2 ^ f_exp ms <=? 2 ^ 63)
  else (- 2 ^ 63 * 2 ^ (- f_exp ms) <=? f_mant ms) && (f_mant ms <=? 2 ^ 63 * 2 ^ (- f_exp ms)).

(** [ms as i64]: truncation towards zero, saturating. *)
Definition f64_as_i64 (ms : F64) : Z :=
  let v := if 0 <=? f_exp ms then f_mant ms * 2 ^ f_exp ms else Z.quot (f_mant ms) (2 ^ (- f_exp ms)) in
  Z.max (- 2 ^ 63) (Z.min (2 ^ 63 - 1) v).

(** The instant in milliseconds, where chrono has one. *)
Definition f64_to_millis_datetime (ms : F64) : option Z :=
  if in_i64_range ms && timestamp_millis_ok (f64_as_i64 ms) then Some (f64_as_i64 ms) else None.

Inductive RequiredAssetFields := Identity | Downloadable.
Inductive MalformedRequiredAssetField := MasterRecordName | AssetRecordName | AssetDate.

Definition is_blank (s : str) : bool := str_eqb (trim s) [].

Definition asset_date_of (asset : CkRecord) : option Z :=
  get2 (fields asset) (lit "assetDate") (lit "value") ≫= λ v, as_f64 v ≫= f64_to_millis_datetime.

(** An asset of the stream: the two records it is built from
    ([PhotoAsset::from_records] reads nothing else) and its state name. *)
Record StreamAsset := {
  sa_master : CkRecord;
  sa_asset : CkRecord;
  sa_state_record_name : option str;
}.

Definition try_from_records (master asset : CkRecord) (required : RequiredAssetFields) :
    result MalformedRequiredAssetField StreamAsset :=
  if is_blank (rec_name master) then Err MasterRecordName
  else if is_blank (rec_name asset) then Err AssetRecordName
  else if match required with Downloadable => bool_decide (asset_date_of asset = None) | Identity => false end
  then Err AssetDate
  else Ok {| sa_master := master; sa_asset := asset; sa_state_record_name := None |}.

Definition with_state_record_name (a : StreamAsset) (name : str) : StreamAsset :=
  {| sa_master := sa_master a; sa_asset := sa_asset a; sa_state_record_name := Some name |}.

(** [state_id]: the identity used for state rows and downloads. *)
Definition sa_state_id (a : StreamAsset) : str := default (rec_name (sa_master a)) (sa_state_record_name a).

Lemma try_from_records_Ok master asset required a :
  try_from_records master asset required = Ok a → sa_master a = master ∧ sa_asset a = asset.
Proof.
  unfold try_from_records.
  destruct (is_blank (rec_name master)); [done|]. destruct (is_blank (rec_name asset)); [done|].
  destruct (match required with Downloadable => _ | Identity => _ end); [done|]. by intros [= <-].
Qed.
End Records.

(** ** JSON values, for concrete runs *)

Module Json.
Inductive json :=
| JNull
| JNum (n : Z)
| JBool (b : bool)
| JStr (s : str)
| JArr (l : list json)
| JObj (kvs : list (str * json)).

Definition json_get (v : json) (k : str) : option json :=
  match v with
  | JObj kvs => snd <$> findb (λ p, str_eqb p.1 k) kvs
  | _ => None
  end.

(** Dates of the years up to 9999. *)
#[export] Instance json_env : JsonEnv := {
  Value := json;
  get := json_get;
  as_str v := match v with JStr s => Some s | _ => None end;
  as_i64 v := match v with JNum n => Some n | _ => None end;
  as_f64 v := match v with JNum n => Some {| f_mant := n; f_exp := 0 |} | _ => None end;
  timestamp_millis_ok ms := (0 <=? ms) && (ms <? 253402300800000);
}.

Definition master_rec (name : str) : CkRecord :=
  {| rec_name := name; rec_type := lit "CPLMaster"; fields := JObj []; deleted := None |}.

Definition asset_rec (name master : str) : CkRecord :=
  {| rec_name := name; rec_type := lit "CPLAsset"; deleted := None;
     fields := JObj [(lit "masterRef", JObj [(lit "value", JObj [(lit "recordName", JStr master)])]);
                     (lit "assetDate", JObj [(lit "value", JNum 1700000000000)])] |}.
End Json.
