(* ===== verification/Fetcher.v ===== *)
(** * One fetcher task of an enumeration

    [src/icloud/photos/album.rs], [spawn_fetcher] and [photo_stream_inner]: a
    fetcher pages through the records of its rank range, pairs CPLMaster with
    CPLAsset records across pages, emits each pair into the stream and reports
    how far it got.  What the provider answers, when the consumer goes away,
    what the other fetchers do to the shared owner map and the iteration order
    of the hash maps are the fields of a [World].  [fetch_step] is one
    iteration of the loop, [fetch_loop] iterates it with fuel. *)
From S2P Require Import Prelude RustStr Enumeration Cloudkit.

Section Fetcher.
Context `{JsonEnv}.

(** ** The world of a fetcher *)

Inductive FetchReply :=
| PostFailed
| BadBody
| Page (q : QueryResponse).

Inductive FetchMessageError := MPost | MBody | MMalformed (e : MalformedRequiredAssetField) | MEmptyTail | MUnpairedOverflow | MUnpairedAtEnd.
Inductive Message := MAsset (a : StreamAsset) | MError (e : FetchMessageError).

Record World := {
  (** the answer to the n-th request, made at an offset *)
  w_fetch : nat → Z → FetchReply;
  (** the consumer is still there at the n-th use of the channel *)
  w_open : nat → bool;
  (** what the other fetchers did to the shared map before the n-th look *)
  w_others : nat → owners → owners;
  (** iteration order of [page_assets] on the n-th page *)
  w_order : nat → gmap str (list CkRecord) → list (str * list CkRecord);
  (** [paired_masters.keys().next()] *)
  w_first_key : nat → gmap str CkRecord → option str;
}.

Record FetcherBehavior := {
  b_page_size : Z;
  preserve_blank_sync_tokens_for_diagnostics : bool;
  allow_unpaired_at_range_boundary : bool;
  treat_empty_tail_as_error : bool;
}.

(** ** State *)

(** What emitting an asset reads and changes. *)
Record Emit := {
  total_sent : Z;
  page_emitted : Z;
  limit_reached : bool;
  emitted_asset_records : gset str;
  range_record_owners : owners;
  enumeration_incomplete : bool;
  malformed_record : bool;
  (** the channel: what was accepted, and how often it was used *)
  sent : list Message;
  uses : nat;
  looks : nat;
}.

Record Buffers := {
  pending_masters : gmap str CkRecord;
  pending_assets : gmap str (list CkRecord);
  paired_masters : gmap str CkRecord;
}.

(** The loop's variables; [seen] is the history of the records received. *)
Record FetcherState := {
  offset : Z;
  last_sync_token : option str;
  saw_blank_sync_token : bool;
  consecutive_empty_pages : Z;
  stopped_for_limit : bool;
  posts : nat;
  seen : list CkRecord;
  em : Emit;
  buf : Buffers;
}.

Definition set_incomplete (e : Emit) : Emit :=
  {| total_sent := total_sent e; page_emitted := page_emitted e; limit_reached := limit_reached e;
     emitted_asset_records := emitted_asset_records e; range_record_owners := range_record_owners e;
     enumeration_incomplete := true; malformed_record := malformed_record e;
     sent := sent e; uses := uses e; looks := looks e |}.
Definition set_malformed (e : Emit) : Emit :=
  {| total_sent := total_sent e; page_emitted := page_emitted e; limit_reached := limit_reached e;
     emitted_asset_records := emitted_asset_records e; range_record_owners := range_record_owners e;
     enumeration_incomplete := true; malformed_record := true;
     sent := sent e; uses := uses e; looks := looks e |}.
Definition set_limit_reached (e : Emit) : Emit :=
  {| total_sent := total_sent e; page_emitted := page_emitted e; limit_reached := true;
     emitted_asset_records := emitted_asset_records e; range_record_owners := range_record_owners e;
     enumeration_incomplete := enumeration_incomplete e; malformed_record := malformed_record e;
     sent := sent e; uses := uses e; looks := looks e |}.
Definition count_sent (e : Emit) : Emit :=
  {| total_sent := total_sent e + 1; page_emitted := page_emitted e + 1; limit_reached := limit_reached e;
     emitted_asset_records := emitted_asset_records e; range_record_owners := range_record_owners e;
     enumeration_incomplete := enumeration_incomplete e; malformed_record := malformed_record e;
     sent := sent e; uses := uses e; looks := looks e |}.
Definition set_ownership (e : Emit) (emitted : gset str) (own : owners) : Emit :=
  {| total_sent := total_sent e; page_emitted := page_emitted e; limit_reached := limit_reached e;
     emitted_asset_records := emitted; range_record_owners := own;
     enumeration_incomplete := enumeration_incomplete e; malformed_record := malformed_record e;
     sent := sent e; uses := uses e; looks := S (looks e) |}.
(** A new page: [limit_reached = false], [page_emitted = 0]. *)
Definition start_page (e : Emit) : Emit :=
  {| total_sent := total_sent e; page_emitted := 0; limit_reached := false;
     emitted_asset_records := emitted_asset_records e; range_record_owners := range_record_owners e;
     enumeration_incomplete := enumeration_incomplete e; malformed_record := malformed_record e;
     sent := sent e; uses := uses e; looks := looks e |}.

(** [tx.send(m).await.is_ok()]. *)
Definition send (w : World) (e : Emit) (m : Message) : Emit * bool :=
  let ok := w_open w (uses e) in
  ({| total_sent := total_sent e; page_emitted := page_emitted e; limit_reached := limit_reached e;
      emitted_asset_records := emitted_asset_records e; range_record_owners := range_record_owners e;
      enumeration_incomplete := enumeration_incomplete e; malformed_record := malformed_record e;
      sent := if ok then sent e ++ [m] else sent e; uses := S (uses e); looks := looks e |}, ok).
(** [!tx.is_closed()]. *)
Definition look_open (w : World) (e : Emit) : Emit * bool :=
  ({| total_sent := total_sent e; page_emitted := page_emitted e; limit_reached := limit_reached e;
      emitted_asset_records := emitted_asset_records e; range_record_owners := range_record_owners e;
      enumeration_incomplete := enumeration_incomplete e; malformed_record := malformed_record e;
      sent := sent e; uses := S (uses e); looks := looks e |}, w_open w (uses e)).

(** ** Emitting *)

Inductive FullAssetStateId := SMaster | SAsset.
Inductive FullAssetEmission := Sent | Malformed | ReceiverClosed.

Definition emit_full_asset (w : World) (e : Emit) (master asset_record : CkRecord) (state_id : FullAssetStateId) :
    Emit * FullAssetEmission :=
  match try_from_records master asset_record Downloadable with
  | Err error =>
      let '(e, ok) := send w e (MError (MMalformed error)) in
      (e, if ok then Malformed else ReceiverClosed)
  | Ok asset =>
      let asset := match state_id with
        | SAsset => with_state_record_name asset (rec_name asset_record)
        | SMaster => asset
        end in
      let '(e, ok) := send w e (MAsset asset) in
      (e, if ok then Sent else ReceiverClosed)
  end.

(** One turn of a sibling loop: the flag is [break]; [Err] is the early
    return when the receiver is gone. *)
Definition emit_sibling (w : World) (rg : FetcherRange) (e : Emit) (master asset_rec : CkRecord)
    (state_id : FullAssetStateId) : result Emit (Emit * bool) :=
  let '(ok, emitted, own) :=
    should_emit_asset_record (rec_name asset_rec) (r_start rg) (r_role rg)
      (emitted_asset_records e) (w_others w (looks e) (range_record_owners e)) in
  let e := set_ownership e emitted own in
  if negb ok then Ok (e, false)
  else if match r_limit rg with Some n => n <=? total_sent e | None => false end
  then Ok (set_limit_reached e, true)
  else
    match emit_full_asset w e master asset_rec state_id with
    | (e, Sent) => Ok (count_sent e, false)
    | (e, Malformed) => Ok (set_malformed e, false)
    | (e, ReceiverClosed) => Err e
    end.

Fixpoint emit_siblings (w : World) (rg : FetcherRange) (e : Emit) (master : CkRecord)
    (recs : list (CkRecord * FullAssetStateId)) : result Emit Emit :=
  match recs with
  | [] => Ok e
  | (r, sid) :: recs =>
      '(e, brk) ← emit_sibling w rg e master r sid;
      if (brk : bool) then Ok e else emit_siblings w rg e master recs
  end.

(** The first of several siblings keeps the master's state identity. *)
Definition sibling_states (recs : list CkRecord) : list (CkRecord * FullAssetStateId) :=
  imap (λ i r, (r, if (1 <? zlen recs) && (0 <? Z.of_nat i) then SAsset else SMaster)) recs.

Definition all_asset_states (recs : list CkRecord) : list (CkRecord * FullAssetStateId) :=
  map (λ r, (r, SAsset)) recs.

(** ** Pairing *)

Definition prune_paired_master_cache (w : World) (tick : nat) (m : gmap str CkRecord) (max_records : Z) : gmap str CkRecord :=
  if Z.of_nat (size m) <=? max_records then m
  else match w_first_key w tick m with Some key => delete key m | None => m end.

Definition pair_master (w : World) (tick : nat) (b : Buffers) (master : CkRecord) (max_records : Z) : Buffers :=
  {| pending_masters := pending_masters b; pending_assets := pending_assets b;
     paired_masters := prune_paired_master_cache w tick
       (<[rec_name master := master]> (paired_masters b)) max_records |}.

Definition set_pending_masters (b : Buffers) (m : gmap str CkRecord) : Buffers :=
  {| pending_masters := m; pending_assets := pending_assets b; paired_masters := paired_masters b |}.
Definition set_pending_assets (b : Buffers) (m : gmap str (list CkRecord)) : Buffers :=
  {| pending_masters := pending_masters b; pending_assets := m; paired_masters := paired_masters b |}.

(** The records of a page: assets by master, masters in order, and whether
    there was any master. *)
Definition classify_record (acc : gmap str (list CkRecord) * list CkRecord) (rec : CkRecord) :
    gmap str (list CkRecord) * list CkRecord :=
  let '(page_assets, page_masters) := acc in
  if str_eqb (rec_type rec) (lit "CPLAsset") then
    match master_ref rec with
    | Some master_id => (<[master_id := default [] (page_assets !! master_id) ++ [rec]]> page_assets, page_masters)
    | None => (page_assets, page_masters)
    end
  else if str_eqb (rec_type rec) (lit "CPLMaster") then (page_assets, page_masters ++ [rec])
  else (page_assets, page_masters).

Definition classify_page (records : list CkRecord) : gmap str (list CkRecord) * list CkRecord :=
  foldl classify_record (∅, []) records.

(** [values().map(Vec::len).sum()]. *)
Definition total_len (m : gmap str (list CkRecord)) : Z :=
  map_fold (λ _ rs acc, zlen rs + acc) 0 m.

(** [pending_assets.remove(name)], extended by [page_assets.remove(name)]. *)
Definition take_asset_records (pending page : gmap str (list CkRecord)) (name : str) : option (list CkRecord) :=
  match pending !! name, page !! name with
  | Some a, Some b => Some (a ++ b)
  | Some a, None => Some a
  | None, o => o
  end.

Record Paging := { pg_em : Emit; pg_buf : Buffers; pg_assets : gmap str (list CkRecord); pg_offset : Z }.

(** One master of the page. *)
Definition master_turn (w : World) (rg : FetcherRange) (tick : nat) (max_records : Z) (s : Paging) (master : CkRecord) :
    result Emit Paging :=
  let name := rec_name master in
  let b := set_pending_assets (pg_buf s) (delete name (pending_assets (pg_buf s))) in
  let next := wrapping_add_u64 (pg_offset s) 1 in
  match take_asset_records (pending_assets (pg_buf s)) (pg_assets s) name with
  | Some recs =>
      e ← emit_siblings w rg (pg_em s) master (sibling_states recs);
      Ok {| pg_em := e; pg_buf := pair_master w tick b master max_records;
            pg_assets := delete name (pg_assets s); pg_offset := next |}
  | None =>
      Ok {| pg_em := pg_em s; pg_buf := set_pending_masters b (<[name := master]> (pending_masters b));
            pg_assets := delete name (pg_assets s); pg_offset := next |}
  end.

Fixpoint masters_loop (w : World) (rg : FetcherRange) (tick : nat) (max_records : Z) (s : Paging) (masters : list CkRecord) :
    result Emit Paging :=
  match masters with
  | [] => Ok s
  | m :: ms => s ← master_turn w rg tick max_records s m; masters_loop w rg tick max_records s ms
  end.

(** The assets of the page no master of the page took. *)
Definition assets_turn (w : World) (rg : FetcherRange) (tick : nat) (max_records : Z) (s : Emit * Buffers)
    (entry : str * list CkRecord) : result Emit (Emit * Buffers) :=
  let '(e, b) := s in
  let '(master_id, records) := entry in
  match pending_masters b !! master_id with
  | Some master =>
      e ← emit_siblings w rg e master (sibling_states records);
      Ok (e, pair_master w tick (set_pending_masters b (delete master_id (pending_masters b))) master max_records)
  | None =>
      match paired_masters b !! master_id with
      | Some master => e ← emit_siblings w rg e master (all_asset_states records); Ok (e, b)
      | None =>
          Ok (e, set_pending_assets b
                (<[master_id := default [] (pending_assets b !! master_id) ++ records]> (pending_assets b)))
      end
  end.

Fixpoint assets_loop (w : World) (rg : FetcherRange) (tick : nat) (max_records : Z) (s : Emit * Buffers)
    (entries : list (str * list CkRecord)) : result Emit (Emit * Buffers) :=
  match entries with
  | [] => Ok s
  | x :: xs => s ← assets_turn w rg tick max_records s x; assets_loop w rg tick max_records s xs
  end.

(** ** One iteration of the loop *)

Definition set_em (s : FetcherState) (e : Emit) : FetcherState :=
  {| offset := offset s; last_sync_token := last_sync_token s; saw_blank_sync_token := saw_blank_sync_token s;
     consecutive_empty_pages := consecutive_empty_pages s; stopped_for_limit := stopped_for_limit s;
     posts := posts s; seen := seen s; em := e; buf := buf s |}.
Definition set_paging (s : FetcherState) (e : Emit) (b : Buffers) (off : Z) : FetcherState :=
  {| offset := off; last_sync_token := last_sync_token s; saw_blank_sync_token := saw_blank_sync_token s;
     consecutive_empty_pages := consecutive_empty_pages s; stopped_for_limit := stopped_for_limit s;
     posts := posts s; seen := seen s; em := e; buf := b |}.
Definition set_empty_pages (s : FetcherState) (n : Z) : FetcherState :=
  {| offset := offset s; last_sync_token := last_sync_token s; saw_blank_sync_token := saw_blank_sync_token s;
     consecutive_empty_pages := n; stopped_for_limit := stopped_for_limit s;
     posts := posts s; seen := seen s; em := em s; buf := buf s |}.
Definition set_stopped (s : FetcherState) (stopped : bool) : FetcherState :=
  {| offset := offset s; last_sync_token := last_sync_token s; saw_blank_sync_token := saw_blank_sync_token s;
     consecutive_empty_pages := consecutive_empty_pages s; stopped_for_limit := stopped;
     posts := posts s; seen := seen s; em := em s; buf := buf s |}.

(** The page's sync token, trimmed; a blank one counts as missing. *)
Definition observe_page (s : FetcherState) (q : QueryResponse) : FetcherState :=
  let '(last, blank) :=
    match q_sync_token q with
    | Some token => if is_blank token then (last_sync_token s, true) else (Some (trim token), saw_blank_sync_token s)
    | None => (last_sync_token s, saw_blank_sync_token s)
    end in
  {| offset := offset s; last_sync_token := last; saw_blank_sync_token := blank;
     consecutive_empty_pages := consecutive_empty_pages s; stopped_for_limit := stopped_for_limit s;
     posts := S (posts s); seen := seen s ++ q_records q; em := start_page (em s); buf := buf s |}.

Definition report : Type := option (option str * EnumerationCompletion).

(** [Continue], [break], or an early return with its report. *)
Inductive Flow :=
| Continue (s : FetcherState)
| Break (s : FetcherState)
| Return (s : FetcherState) (r : report).

Definition empty_page (w : World) (rg : FetcherRange) (bh : FetcherBehavior) (s : FetcherState) : Flow :=
  let s := set_empty_pages s (consecutive_empty_pages s + 1) in
  if MAX_EMPTY_PAGE_PROBES <=? consecutive_empty_pages s then
    if treat_empty_tail_as_error bh && bool_decide (r_role rg = Data) && bool_decide (r_limit rg = None)
       && (r_end rg =? U64_MAX)
    then Break (set_em s (send w (set_incomplete (em s)) (MError MEmptyTail)).1)
    else Break s
  else Continue (set_paging s (em s) (buf s) (wrapping_add_u64 (offset s) (b_page_size bh))).

Definition pending_record_count (b : Buffers) : Z :=
  Z.of_nat (size (pending_masters b)) + total_len (pending_assets b).

(** After both pairing loops. *)
Definition end_page (w : World) (rg : FetcherRange) (max_records : Z) (s : FetcherState) : Flow :=
  if limit_reached (em s) then Break (set_stopped s (bool_decide (r_role rg = LimitProbe)))
  else if max_records <? pending_record_count (buf s) then
    Break (set_em s (send w (set_incomplete (em s)) (MError MUnpairedOverflow)).1)
  else if page_emitted (em s) =? 0 then
    let s := set_empty_pages s (consecutive_empty_pages s + 1) in
    if MAX_EMPTY_PAGE_PROBES <=? consecutive_empty_pages s then Break s else Continue s
  else Continue (set_empty_pages s 0).

Definition max_pending_records (bh : FetcherBehavior) : Z :=
  Z.max 1 (saturating_mul USIZE_MAX (b_page_size bh) 4).

Definition full_page (w : World) (rg : FetcherRange) (bh : FetcherBehavior) (s : FetcherState) (q : QueryResponse) : Flow :=
  let '(page_assets, page_masters) := classify_page (q_records q) in
  let off := match page_masters with
    | [] => wrapping_add_u64 (offset s) (Z.max 1 (total_len page_assets))
    | _ => offset s
    end in
  match masters_loop w rg (posts s) (max_pending_records bh)
          {| pg_em := em s; pg_buf := buf s; pg_assets := page_assets; pg_offset := off |} page_masters with
  | Err e => Return (set_em s e) None
  | Ok p =>
      let s1 := set_paging s (pg_em p) (pg_buf p) (pg_offset p) in
      if limit_reached (pg_em p) then Break (set_stopped s1 (bool_decide (r_role rg = LimitProbe)))
      else
        match assets_loop w rg (posts s) (max_pending_records bh) (pg_em p, pg_buf p)
                (w_order w (posts s) (pg_assets p)) with
        | Err e => Return (set_em s1 e) None
        | Ok (e, b) => end_page w rg (max_pending_records bh) (set_paging s1 e b (pg_offset p))
        end
  end.

Definition fetch_step (w : World) (rg : FetcherRange) (bh : FetcherBehavior) (s : FetcherState) : Flow :=
  let '(e, is_open) := look_open w (em s) in
  let s := set_em s e in
  if negb is_open then Return s (Some (None, Incomplete ConsumerDropped))
  else if r_end rg <=? offset s then Break s
  else
    match w_fetch w (posts s) (offset s) with
    | PostFailed => Return (set_em s (send w e (MError MPost)).1) (Some (None, Incomplete FetcherError))
    | BadBody => Return (set_em s (send w e (MError MBody)).1) (Some (None, Incomplete FetcherError))
    | Page q =>
        let s := observe_page s q in
        match q_records q with
        | [] => empty_page w rg bh s
        | _ => full_page w rg bh s q
        end
    end.

(** ** The whole task *)

Record Finished := {
  fin_state : FetcherState;
  fin_suppress : bool;
  fin_report : report;
}.

(** After the loop: unpaired records, then the report. *)
Definition finish (w : World) (bh : FetcherBehavior) (s : FetcherState) : Finished :=
  let unpaired := negb (stopped_for_limit s) && negb (allow_unpaired_at_range_boundary bh)
    && negb (bool_decide (pending_masters (buf s) = ∅) && bool_decide (pending_assets (buf s) = ∅)) in
  let s := if unpaired then set_em s (send w (set_incomplete (em s)) (MError MUnpairedAtEnd)).1 else s in
  let token := match last_sync_token s with
    | Some t => Some t
    | None => if saw_blank_sync_token s && preserve_blank_sync_tokens_for_diagnostics bh then Some [] else None
    end in
  let completion :=
    if malformed_record (em s) then Incomplete MalformedRecord
    else if enumeration_incomplete (em s) then Incomplete UnpairedRecords
    else if stopped_for_limit s then UserBoundReached
    else ProvenEof in
  {| fin_state := s; fin_suppress := stopped_for_limit s; fin_report := Some (token, completion) |}.

Fixpoint fetch_loop (fuel : nat) (w : World) (rg : FetcherRange) (bh : FetcherBehavior) (s : FetcherState) : option Finished :=
  match fuel with
  | O => None
  | S fuel =>
      match fetch_step w rg bh s with
      | Continue s => fetch_loop fuel w rg bh s
      | Break s => Some (finish w bh s)
      | Return s r => Some {| fin_state := s; fin_suppress := false; fin_report := r |}
      end
  end.

Definition Emit_init : Emit :=
  {| total_sent := 0; page_emitted := 0; limit_reached := false; emitted_asset_records := ∅;
     range_record_owners := ∅; enumeration_incomplete := false; malformed_record := false;
     sent := []; uses := 0; looks := 0 |}.

Definition fetcher_init (start : Z) : FetcherState :=
  {| offset := start; last_sync_token := None; saw_blank_sync_token := false; consecutive_empty_pages := 0;
     stopped_for_limit := false; posts := 0; seen := []; em := Emit_init;
     buf := {| pending_masters := ∅; pending_assets := ∅; paired_masters := ∅ |} |}.

Definition spawn_fetcher (fuel : nat) (w : World) (rg : FetcherRange) (bh : FetcherBehavior) : option Finished :=
  fetch_loop fuel w rg bh (fetcher_init (r_start rg)).

(** The report of a finished fetcher, as it reaches the capture. *)
Definition record_report (c : FetcherSyncTokenCapture) (f : Finished) : FetcherSyncTokenCapture :=
  let c := if fin_suppress f then suppress c else c in
  match fin_report f with Some (token, completion) => complete c token completion | None => c end.

(** The ranges' fetchers, each in its own world, with the capture once all
    have ended ([resolve] does not depend on the order of the reports). *)
Fixpoint run_fetchers (fuel : nat) (ws : nat → World) (i : nat) (rs : list FetcherRange) (bh : FetcherBehavior)
    (c : FetcherSyncTokenCapture) : option (list Finished * FetcherSyncTokenCapture) :=
  match rs with
  | [] => Some ([], c)
  | rg :: rs =>
      f ← spawn_fetcher fuel (ws i) rg bh;
      '(fs, c) ← run_fetchers fuel ws (S i) rs bh (record_report c f);
      Some (f :: fs, c)
  end.

Definition exceeds_limit (limit total_count : option Z) : bool :=
  match limit, total_count with Some limit, Some total => limit <? total | _, _ => false end.

Definition stream_behavior (plan : EnumerationPlan) (preserve_blank treat_empty_tail : bool) : FetcherBehavior :=
  {| b_page_size := ep_page_size plan; preserve_blank_sync_tokens_for_diagnostics := preserve_blank;
     allow_unpaired_at_range_boundary := 1 <? zlen (ranges plan); treat_empty_tail_as_error := treat_empty_tail |}.

Definition photo_stream_inner (fuel : nat) (ws : nat → World) (limit total_count : option Z) (page_size : Z)
    (profile : PhotoStreamProfile) (preserve_blank treat_empty_tail : bool) :
    option (list Finished * FetcherSyncTokenCapture) :=
  let plan := build_enumeration_plan limit total_count page_size profile in
  let c := expect FetcherSyncTokenCapture_default (zlen (ranges plan)) in
  let c := if exceeds_limit limit total_count then suppress c else c in
  run_fetchers fuel ws 0 (ranges plan) (stream_behavior plan preserve_blank treat_empty_tail) c.

(** The sync token of the fetchers, when none of their tasks panicked. *)
Definition photo_stream_with_token_inner_no_cross_zone (fuel : nat) (ws : nat → World) (limit total_count : option Z) (page_size : Z)
    (profile : PhotoStreamProfile) (preserve_blank treat_empty_tail : bool) : option (list Finished * option str) :=
  '(fs, c) ← photo_stream_inner fuel ws limit total_count page_size profile preserve_blank treat_empty_tail;
  Some (fs, resolve c).
End Fetcher.
