(* ===== verification/FetcherSpec.v ===== *)
(** * Theorems about a fetcher task

    The loops of [Fetcher.v] change the emission state only through
    [emit_sibling]; [Walk] lifts a step property of that function to a page.
    From it: a fetcher returns, it respects its limit, it sends an asset once,
    and when it reports the end of its range it has sent every asset record it
    received, and stopped at the last rank or after five empty pages. *)
From S2P Require Import Prelude RustStr Enumeration Cloudkit Fetcher.

Section Facts.
Context {JE : JsonEnv}.

Definition final {A} (f : A → Emit) (x : result Emit A) : Emit :=
  match x with Ok a => f a | Err e => e end.

Definition all_recs (P : CkRecord → Prop) (m : gmap str (list CkRecord)) : Prop :=
  map_Forall (λ _ l, Forall P l) m.

Lemma all_recs_delete P m k : all_recs P m → all_recs P (delete k m).
Proof. intros H k' l [_ Hl]%lookup_delete_Some. by eapply H. Qed.

Lemma all_recs_append P m k l : all_recs P m → Forall P l → all_recs P (<[k := default [] (m !! k) ++ l]> m).
Proof.
  intros H Hl k' l' [[<- <-]|[_ Hl']]%lookup_insert_Some; [|by eapply H].
  apply Forall_app. split; [|done]. destruct (m !! k) eqn:E; cbn; [by eapply H|constructor].
Qed.

Lemma take_asset_records_all P pending page k l :
  all_recs P pending → all_recs P page → take_asset_records pending page k = Some l → Forall P l.
Proof.
  unfold take_asset_records. intros Hp Hq.
  destruct (pending !! k) eqn:E1, (page !! k) eqn:E2; intros [= <-].
  - apply Forall_app. split; [by eapply Hp|by eapply Hq].
  - by eapply Hp.
  - by eapply Hq.
Qed.

Lemma sibling_states_fst recs : fst <$> sibling_states recs = recs.
Proof.
  unfold sibling_states. rewrite fmap_imap. apply list_eq. intros i.
  rewrite list_lookup_imap. destruct (recs !! i); done.
Qed.

Lemma all_asset_states_fst recs : fst <$> all_asset_states recs = recs.
Proof. unfold all_asset_states. rewrite <- list_fmap_compose. apply list_fmap_id. Qed.

Lemma classify_page_all (P : CkRecord → Prop) recs :
  Forall P recs → all_recs P (classify_page recs).1.
Proof.
  intros HP. unfold classify_page.
  assert (∀ acc, all_recs P acc.1 → all_recs P (foldl classify_record acc recs).1) as H.
  { induction HP as [|r rs Hr _ IH]; intros [pa pm] Hacc; [done|]. cbn [foldl]. apply IH.
    unfold classify_record. destruct (str_eqb _ _); [|by destruct (str_eqb _ _)].
    destruct (master_ref r); [|done]. by apply all_recs_append; [|repeat constructor]. }
  apply H. apply map_Forall_empty.
Qed.

(** ** Lifting a property of [emit_sibling] to a page *)

Section Walk.
Context (w : World) (rg : FetcherRange) (R : Emit → Emit → Prop) (P : CkRecord → Prop).
Context (Rrefl : ∀ e, R e e) (Rtrans : ∀ a b c, R a b → R b c → R a c).
Context (Hstep : ∀ e m r sid, P r → R e (final fst (emit_sibling w rg e m r sid))).

Lemma emit_siblings_walk recs e m :
  Forall P (fst <$> recs) → R e (final id (emit_siblings w rg e m recs)).
Proof.
  revert e; induction recs as [|[r sid] recs IH]; intros e; cbn [emit_siblings fmap list_fmap]; [intros; apply Rrefl|].
  intros [Hr HP]%Forall_cons. specialize (Hstep e m r sid Hr).
  destruct (emit_sibling w rg e m r sid) as [[e' brk]|e']; cbn in *; [|done].
  destruct brk; [done|]. eapply Rtrans; [done|]. by apply IH.
Qed.

Lemma master_turn_walk tick mx s m :
  all_recs P (pending_assets (pg_buf s)) → all_recs P (pg_assets s) →
  R (pg_em s) (final pg_em (master_turn w rg tick mx s m)) ∧
  ∀ s', master_turn w rg tick mx s m = Ok s' → all_recs P (pending_assets (pg_buf s')) ∧ all_recs P (pg_assets s').
Proof.
  intros Hp Hq. unfold master_turn.
  destruct (take_asset_records _ _ _) as [l|] eqn:E.
  - pose proof (take_asset_records_all _ _ _ _ _ Hp Hq E) as Hl.
    pose proof (emit_siblings_walk (sibling_states l) (pg_em s) m) as H.
    rewrite sibling_states_fst in H. specialize (H Hl).
    destruct (emit_siblings _ _ _ _ _); cbn in *; [|done].
    split; [done|]. intros s' [= <-]. split; by apply all_recs_delete.
  - cbn. split; [apply Rrefl|]. intros s' [= <-]. split; by apply all_recs_delete.
Qed.

Lemma masters_loop_walk tick mx ms s :
  all_recs P (pending_assets (pg_buf s)) → all_recs P (pg_assets s) →
  R (pg_em s) (final pg_em (masters_loop w rg tick mx s ms)) ∧
  ∀ s', masters_loop w rg tick mx s ms = Ok s' → all_recs P (pending_assets (pg_buf s')) ∧ all_recs P (pg_assets s').
Proof.
  revert s; induction ms as [|m ms IH]; intros s Hp Hq; cbn [masters_loop].
  - cbn. split; [apply Rrefl|]. by intros s' [= <-].
  - destruct (master_turn_walk tick mx s m Hp Hq) as [HR Hok].
    destruct (master_turn _ _ _ _ _ _) as [s1|e1]; cbn in *; [|done].
    destruct (Hok s1 eq_refl) as [Hp1 Hq1]. destruct (IH s1 Hp1 Hq1). split; [by eapply Rtrans|done].
Qed.

Lemma assets_turn_walk tick mx e b entry :
  all_recs P (pending_assets b) → Forall P entry.2 →
  R e (final fst (assets_turn w rg tick mx (e, b) entry)) ∧
  ∀ e' b', assets_turn w rg tick mx (e, b) entry = Ok (e', b') → all_recs P (pending_assets b').
Proof.
  intros Hp Hq. destruct entry as [k l]. cbn in *.
  pose proof (emit_siblings_walk (sibling_states l) e) as H1. rewrite sibling_states_fst in H1.
  pose proof (emit_siblings_walk (all_asset_states l) e) as H2. rewrite all_asset_states_fst in H2.
  destruct (pending_masters b !! k) as [m|].
  - specialize (H1 m Hq). destruct (emit_siblings _ _ _ _ _); cbn in *; [|done].
    split; [done|]. by intros e' b' [= <- <-].
  - destruct (paired_masters b !! k) as [m|].
    + specialize (H2 m Hq). destruct (emit_siblings _ _ _ _ _); cbn in *; [|done].
      split; [done|]. by intros e' b' [= <- <-].
    + cbn. split; [apply Rrefl|]. intros e' b' [= <- <-]. cbn. by apply all_recs_append.
Qed.

Lemma assets_loop_walk tick mx entries e b :
  all_recs P (pending_assets b) → Forall (λ p, Forall P p.2) entries →
  R e (final fst (assets_loop w rg tick mx (e, b) entries)) ∧
  ∀ e' b', assets_loop w rg tick mx (e, b) entries = Ok (e', b') → all_recs P (pending_assets b').
Proof.
  revert e b; induction entries as [|x xs IH]; intros e b Hp Hq; cbn [assets_loop].
  - cbn. split; [apply Rrefl|]. by intros e' b' [= <- <-].
  - apply Forall_cons in Hq as [Hx Hxs].
    destruct (assets_turn_walk tick mx e b x Hp Hx) as [HR Hok].
    destruct (assets_turn _ _ _ _ _ _) as [[e1 b1]|e1]; cbn [mbind result_bind final fst] in *; [|done].
    specialize (Hok e1 b1 eq_refl). destruct (IH e1 b1 Hok Hxs). split; [by eapply Rtrans|done].
Qed.
End Walk.

(** The hash order of [page_assets] lists the map. *)
Definition order_ok (w : World) : Prop := ∀ n m, Permutation (w_order w n m) (map_to_list m).

Lemma order_ok_all w P n m : order_ok w → all_recs P m → Forall (λ p, Forall P p.2) (w_order w n m).
Proof.
  intros Ho Hm. apply Forall_forall. intros [k l] Hin.
  rewrite (Ho n m) in Hin. apply elem_of_map_to_list in Hin. by eapply Hm.
Qed.

(** The state a step leads to. *)
Definition flow_state (f : Flow) : FetcherState :=
  match f with Continue s => s | Break s => s | Return s _ => s end.

(** ** The outcomes of [emit_sibling] *)

Definition use_channel (e : Emit) : Emit :=
  {| total_sent := total_sent e; page_emitted := page_emitted e; limit_reached := limit_reached e;
     emitted_asset_records := emitted_asset_records e; range_record_owners := range_record_owners e;
     enumeration_incomplete := enumeration_incomplete e; malformed_record := malformed_record e;
     sent := sent e; uses := S (uses e); looks := looks e |}.
Definition push (e : Emit) (m : Message) : Emit :=
  {| total_sent := total_sent e; page_emitted := page_emitted e; limit_reached := limit_reached e;
     emitted_asset_records := emitted_asset_records e; range_record_owners := range_record_owners e;
     enumeration_incomplete := enumeration_incomplete e; malformed_record := malformed_record e;
     sent := sent e ++ [m]; uses := S (uses e); looks := looks e |}.

Lemma send_cases w e m : send w e m = (push e m, true) ∨ send w e m = (use_channel e, false).
Proof. unfold send, push, use_channel. destruct (w_open w (uses e)); auto. Qed.

Inductive sibling_spec (w : World) (rg : FetcherRange) (e : Emit) (m r : CkRecord) : result Emit (Emit * bool) → Prop :=
| ss_skip emitted own
    (E : should_emit_asset_record (rec_name r) (r_start rg) (r_role rg) (emitted_asset_records e)
           (w_others w (looks e) (range_record_owners e)) = (false, emitted, own)) :
    sibling_spec w rg e m r (Ok (set_ownership e emitted own, false))
| ss_limit emitted own n
    (E : should_emit_asset_record (rec_name r) (r_start rg) (r_role rg) (emitted_asset_records e)
           (w_others w (looks e) (range_record_owners e)) = (true, emitted, own))
    (El : r_limit rg = Some n) (Hl : n <= total_sent e) :
    sibling_spec w rg e m r (Ok (set_limit_reached (set_ownership e emitted own), true))
| ss_sent emitted own a
    (E : should_emit_asset_record (rec_name r) (r_start rg) (r_role rg) (emitted_asset_records e)
           (w_others w (looks e) (range_record_owners e)) = (true, emitted, own))
    (Hl : ∀ n, r_limit rg = Some n → total_sent e < n) (Hm : sa_master a = m) (Ha : sa_asset a = r) :
    sibling_spec w rg e m r (Ok (count_sent (push (set_ownership e emitted own) (MAsset a)), false))
| ss_malformed emitted own x
    (E : should_emit_asset_record (rec_name r) (r_start rg) (r_role rg) (emitted_asset_records e)
           (w_others w (looks e) (range_record_owners e)) = (true, emitted, own)) :
    sibling_spec w rg e m r (Ok (set_malformed (push (set_ownership e emitted own) (MError x)), false))
| ss_closed emitted own ok
    (E : should_emit_asset_record (rec_name r) (r_start rg) (r_role rg) (emitted_asset_records e)
           (w_others w (looks e) (range_record_owners e)) = (ok, emitted, own)) :
    sibling_spec w rg e m r (Err (use_channel (set_ownership e emitted own))).

Lemma emit_sibling_spec w rg e m r sid : sibling_spec w rg e m r (emit_sibling w rg e m r sid).
Proof.
  unfold emit_sibling.
  destruct (should_emit_asset_record _ _ _ _ _) as [[ok emitted] own] eqn:E.
  destruct ok; cbn [negb]; [|by apply ss_skip].
  destruct (match r_limit rg with Some n => _ | None => _ end) eqn:El.
  - destruct (r_limit rg) as [n|] eqn:En; [|done]. zbool. by eapply ss_limit.
  - unfold emit_full_asset. destruct (try_from_records m r Downloadable) as [a|x] eqn:Ea.
    + apply try_from_records_Ok in Ea as [Hm Ha].
      set (a' := match sid with SMaster => a | SAsset => _ end).
      destruct (send_cases w (set_ownership e emitted own) (MAsset a')) as [->| ->]; [|by eapply ss_closed].
      apply ss_sent; [done| |by destruct sid|by destruct sid].
      intros n En. rewrite En in El. by zbool.
    + destruct (send_cases w (set_ownership e emitted own) (MError (MMalformed x))) as [->| ->];
        [by apply ss_malformed|by eapply ss_closed].
Qed.

(** ** Invariants of the emission state *)

Section Invariant.
Context (w : World) (rg : FetcherRange) (bh : FetcherBehavior) (I : Emit → Prop).
Context (Hsib : ∀ e m r sid, I e → I (final fst (emit_sibling w rg e m r sid))).
Context (Huse : ∀ e, I e → I (use_channel e)) (Herr : ∀ e x, I e → I (push e (MError x))).
Context (Hinc : ∀ e, I e → I (set_incomplete e)) (Hstart : ∀ e, I e → I (start_page e)).

Lemma send_error_inv e x : I e → I (send w e (MError x)).1.
Proof. intros He. destruct (send_cases w e (MError x)) as [-> | ->]; cbn; auto. Qed.

Lemma all_recs_True m : all_recs (λ _, True) m.
Proof. intros k l _. by apply Forall_true. Qed.

Lemma end_page_inv mx s : I (em s) → I (em (flow_state (end_page w rg mx s))).
Proof.
  intros He. unfold end_page. destruct (limit_reached _); [done|].
  destruct (mx <? _); [apply (send_error_inv (set_incomplete (em s))); by apply Hinc|]. destruct (page_emitted _ =? 0); [|done].
  by destruct (MAX_EMPTY_PAGE_PROBES <=? _).
Qed.

Lemma full_page_inv s q : I (em s) → I (em (flow_state (full_page w rg bh s q))).
Proof.
  intros He. unfold full_page. destruct (classify_page (q_records q)) as [pa pm].
  set (s0 := {| pg_em := em s; pg_buf := buf s; pg_assets := pa; pg_offset := _ |}).
  pose proof (masters_loop_walk w rg (λ a b, I a → I b) (λ _, True)) as Hm.
  specialize (Hm (λ _ H, H) (λ _ _ _ H1 H2 H, H2 (H1 H)) (λ e m r sid _, Hsib e m r sid) (posts s) (max_pending_records bh) pm s0
    (all_recs_True _) (all_recs_True _)) as [Hm _].
  destruct (masters_loop _ _ _ _ _ _) as [p|e1]; cbn in *; [|by apply Hm].
  destruct (limit_reached (pg_em p)); [by apply Hm|].
  pose proof (assets_loop_walk w rg (λ a b, I a → I b) (λ _, True)) as Ha.
  specialize (Ha (λ _ H, H) (λ _ _ _ H1 H2 H, H2 (H1 H)) (λ e m r sid _, Hsib e m r sid) (posts s) (max_pending_records bh)
    (w_order w (posts s) (pg_assets p)) (pg_em p) (pg_buf p) (all_recs_True _)) as [Ha _].
  { apply Forall_forall. intros. by apply Forall_true. }
  destruct (assets_loop _ _ _ _ _ _) as [[e b]|e]; cbn in *; [|by apply Ha, Hm].
  apply end_page_inv. by apply Ha, Hm.
Qed.

Lemma observe_page_em s q : em (observe_page s q) = start_page (em s).
Proof. unfold observe_page. destruct (q_sync_token q) as [t|]; [destruct (is_blank t)|]; done. Qed.

Lemma fetch_step_inv s : I (em s) → I (em (flow_state (fetch_step w rg bh s))).
Proof.
  intros He. unfold fetch_step.
  change (look_open w (em s)) with (use_channel (em s), w_open w (uses (em s))). cbn beta iota zeta.
  destruct (w_open w (uses (em s))); cbn [negb]; [|by apply Huse].
  destruct (r_end rg <=? offset _); [by apply Huse|].
  destruct (w_fetch w _ _) as [| |q]; [apply (send_error_inv (use_channel (em s))); auto..|].
  set (s1 := observe_page _ q).
  assert (I (em s1)) as H1 by (unfold s1; rewrite observe_page_em; by apply Hstart, Huse).
  destruct (q_records q); [|by apply full_page_inv].
  unfold empty_page. cbn beta iota zeta. destruct (MAX_EMPTY_PAGE_PROBES <=? _); [|done].
  destruct (treat_empty_tail_as_error bh && _ && _ && _); [|done].
  apply (send_error_inv (set_incomplete (em s1))). by apply Hinc.
Qed.

Lemma finish_inv s : I (em s) → I (em (fin_state (finish w bh s))).
Proof.
  intros He. unfold finish. cbn [fin_state]. destruct (_ && _); [|done].
  apply (send_error_inv (set_incomplete (em s))). by apply Hinc.
Qed.

Lemma fetch_loop_inv fuel s f : I (em s) → fetch_loop fuel w rg bh s = Some f → I (em (fin_state f)).
Proof.
  revert s; induction fuel as [|fuel IH]; intros s He; [done|]. cbn [fetch_loop].
  pose proof (fetch_step_inv s He) as H.
  destruct (fetch_step w rg bh s) as [s'|s'|s' r]; cbn [flow_state] in H.
  - by apply IH.
  - intros [= <-]. by apply finish_inv.
  - by intros [= <-].
Qed.

Lemma spawn_fetcher_inv fuel f : I Emit_init → spawn_fetcher fuel w rg bh = Some f → I (em (fin_state f)).
Proof. intros H0 H1. exact (fetch_loop_inv fuel (fetcher_init (r_start rg)) f H0 H1). Qed.
End Invariant.

(** ** What is sent *)

Definition sent_names (e : Emit) : list str :=
  omap (λ m, match m with MAsset a => Some (rec_name (sa_asset a)) | MError _ => None end) (sent e).
#[local] Arguments sent_names : simpl never.

Lemma sent_names_push_asset e a : sent_names (push e (MAsset a)) = sent_names e ++ [rec_name (sa_asset a)].
Proof. unfold sent_names. cbn [push sent]. by rewrite omap_app. Qed.

Lemma sent_names_push_error e x : sent_names (push e (MError x)) = sent_names e.
Proof. unfold sent_names. cbn [push sent]. rewrite omap_app. cbn. apply app_nil_r. Qed.

(** What the other fetchers may do to the shared map: add entries of their
    own. *)
Definition others_ok (w : World) (start : Z) : Prop :=
  ∀ n m, m ⊆ w_others w n m ∧ ∀ k, w_others w n m !! k = Some start → m !! k = Some start.

Lemma limit_inv w rg bh fuel f n :
  r_limit rg = Some n → 0 <= n → spawn_fetcher fuel w rg bh = Some f →
  zlen (sent_names (em (fin_state f))) = total_sent (em (fin_state f)) ∧ total_sent (em (fin_state f)) <= n.
Proof.
  intros Hlim Hn.
  set (I := λ e, zlen (sent_names e) = total_sent e ∧ total_sent e <= n).
  apply (spawn_fetcher_inv w rg bh I); [| | | | |done]; try done.
  - intros e m r sid [H1 H2]. destruct (emit_sibling_spec w rg e m r sid); cbn [final fst]; [done|done| | |done].
    + split; cbn; [|specialize (Hl n Hlim); lia].
      change (sent_names (count_sent ?x)) with (sent_names x). rewrite sent_names_push_asset, length_app. cbn.
      change (sent_names (set_ownership ?x _ _)) with (sent_names x). lia.
    + split; cbn; [|done]. change (sent_names (set_malformed ?x)) with (sent_names x). by rewrite sent_names_push_error.
  - intros e x [H1 H2]. split; [|done]. by rewrite sent_names_push_error.
Qed.

Lemma once_inv w rg bh fuel f :
  r_role rg <> Data → spawn_fetcher fuel w rg bh = Some f → NoDup (sent_names (em (fin_state f))).
Proof.
  intros Hr Hf.
  set (I := λ e, (∀ n, n ∈ sent_names e → n ∈ emitted_asset_records e) ∧ NoDup (sent_names e)).
  assert (I (em (fin_state f))) as [_ H]; [|done].
  revert Hf. apply (spawn_fetcher_inv w rg bh I).
  - intros e m r sid [H1 H2].
    destruct (emit_sibling_spec w rg e m r sid); cbn [final fst];
      apply should_emit_spec in E as (Hsub & _ & Hok & _).
    + split; [|done]. cbn. intros k Hk%H1. set_solver.
    + split; [|done]. cbn. intros k Hk%H1. set_solver.
    + destruct (Hok eq_refl) as [_ Hne]. destruct (Hne Hr) as [Hne1 Hne2]. unfold I.
      change (sent_names (count_sent ?x)) with (sent_names x). rewrite sent_names_push_asset. cbn.
      change (sent_names (set_ownership ?x _ _)) with (sent_names x). rewrite Ha. split; [set_solver|].
      apply NoDup_app. split_and!; [done| |apply NoDup_singleton].
      intros k Hk%H1. set_solver.
    + unfold I. change (sent_names (set_malformed ?x)) with (sent_names x). rewrite sent_names_push_error.
      split; [|done]. cbn. intros k Hk%H1. set_solver.
    + split; [|done]. cbn. intros k Hk%H1. set_solver.
  - done.
  - intros e x [H1 H2]. unfold I. rewrite sent_names_push_error. done.
  - done.
  - done.
  - split; [set_solver|constructor].
Qed.

Lemma owned_inv w rg bh fuel f :
  others_ok w (r_start rg) → spawn_fetcher fuel w rg bh = Some f →
  ∀ n, n ∈ sent_names (em (fin_state f)) → range_record_owners (em (fin_state f)) !! n = Some (r_start rg).
Proof.
  intros Hoth.
  set (I := λ e, ∀ n, n ∈ sent_names e → range_record_owners e !! n = Some (r_start rg)).
  apply (spawn_fetcher_inv w rg bh I).
  - intros e m r sid HI.
    destruct (emit_sibling_spec w rg e m r sid); cbn [final fst];
      apply should_emit_spec in E as (_ & Hsub & Hok & _);
      assert (∀ n, n ∈ sent_names e → own !! n = Some (r_start rg)) as HI'
        by (intros k Hk%HI; eapply lookup_weaken; [|done]; eapply lookup_weaken; [done|apply Hoth]).
    + done.
    + done.
    + destruct (Hok eq_refl) as [Hn _]. unfold I.
      change (sent_names (count_sent ?x)) with (sent_names x). rewrite sent_names_push_asset. cbn.
      change (sent_names (set_ownership ?x _ _)) with (sent_names x). rewrite Ha.
      intros k [Hk|Hk%list_elem_of_singleton]%elem_of_app; [by apply HI'|by subst].
    + unfold I. change (sent_names (set_malformed ?x)) with (sent_names x). by rewrite sent_names_push_error.
    + done.
  - done.
  - intros e x HI. unfold I. rewrite sent_names_push_error. done.
  - done.
  - done.
  - unfold I. cbn. set_solver.
Qed.

(** ** Nothing received is lost *)

Section Complete.
Context (w : World) (rg : FetcherRange) (bh : FetcherBehavior).
Context (Hord : order_ok w) (Hoth : others_ok w (r_start rg)).

(** The record named [n] needs no more work of this fetcher. *)
Definition handled (e : Emit) (n : str) : Prop :=
  n ∈ sent_names e ∨ (∃ o, o <> r_start rg ∧ range_record_owners e !! n = Some o) ∨
  enumeration_incomplete e = true ∨ limit_reached e = true.

(** What the sets of the fetcher say is handled; errors are remembered. *)
Record covered (e : Emit) : Prop := {
  covered_names : ∀ n, n ∈ emitted_asset_records e ∨ range_record_owners e !! n = Some (r_start rg) → handled e n;
  covered_errors : ∀ x, MError x ∈ sent e → enumeration_incomplete e = true;
}.

Definition advances (e e' : Emit) : Prop := (∀ n, handled e n → handled e' n) ∧ (covered e → covered e').

Lemma advances_refl e : advances e e.
Proof. split; auto. Qed.

Lemma advances_trans a b c : advances a b → advances b c → advances a c.
Proof. intros [H1 H2] [H3 H4]. split; auto. Qed.

Lemma handled_mono e e' :
  sent_names e ⊆ sent_names e' → range_record_owners e ⊆ range_record_owners e' →
  (enumeration_incomplete e = true → enumeration_incomplete e' = true) →
  (limit_reached e = true → limit_reached e' = true) → ∀ n, handled e n → handled e' n.
Proof.
  intros Hs Ho Hi Hl n [Hn|[(o & Hne & Hn)|[Hn|Hn]]].
  - left. by apply Hs.
  - right; left. exists o. split; [done|]. by eapply lookup_weaken.
  - right; right; left. auto.
  - right; right; right. auto.
Qed.

(** One call: the record becomes handled, and nothing else changes status. *)
Lemma emit_sibling_handles e m r sid e' brk :
  emit_sibling w rg e m r sid = Ok (e', brk) →
  advances e e' ∧ (covered e → handled e' (rec_name r)) ∧ (brk = true → limit_reached e' = true).
Proof.
  intros Heq. pose proof (emit_sibling_spec w rg e m r sid) as H. rewrite Heq in H. clear Heq.
  remember (Ok (e', brk)) as res eqn:Hres.
  assert (∀ ok emitted own, should_emit_asset_record (rec_name r) (r_start rg) (r_role rg) (emitted_asset_records e)
      (w_others w (looks e) (range_record_owners e)) = (ok, emitted, own) → ∀ e1,
      (sent_names e ⊆ sent_names e1) → range_record_owners e1 = own → emitted_asset_records e1 = emitted →
      (enumeration_incomplete e = true → enumeration_incomplete e1 = true) →
      (limit_reached e = true → limit_reached e1 = true) →
      (covered e → ok = true → handled e1 (rec_name r)) →
      (∀ x, MError x ∈ sent e1 → MError x ∈ sent e ∨ enumeration_incomplete e1 = true) →
      advances e e1 ∧ (covered e → handled e1 (rec_name r))) as Hgen.
  { intros ok emitted own E e1 Hs Ho Hem Hi Hl Hok Herr.
    pose proof (should_emit_emitted (rec_name r) (r_start rg) (r_role rg) (emitted_asset_records e)
      (w_others w (looks e) (range_record_owners e))) as Hemle. rewrite E in Hemle. cbn in Hemle.
    apply should_emit_spec in E as (_ & Hsub & _ & Hno & Hown).
    destruct (Hoth (looks e) (range_record_owners e)) as [Hoth1 Hoth2].
    assert (∀ n, handled e n → handled e1 n) as Hmono.
    { apply handled_mono; try done. rewrite Ho. by etransitivity. }
    assert (covered e → handled e1 (rec_name r)) as Hr.
    { intros Hc. destruct ok; [by apply Hok|]. destruct (Hno eq_refl) as [[_ Hin]|(o & Hne & Hlk)].
      - apply Hmono. apply (covered_names _ Hc). by left.
      - right; left. exists o. by rewrite Ho. }
    split; [|done]. split; [done|]. intros Hc. split.
    - intros n [Hn|Hn].
      + rewrite Hem in Hn. apply Hemle in Hn. apply elem_of_union in Hn as [->%elem_of_singleton|Hn]; [by apply Hr|].
        apply Hmono, (covered_names _ Hc). by left.
      + rewrite Ho in Hn. apply Hown in Hn as [Hn|(-> & _)]; [|by apply Hr].
        apply Hmono, (covered_names _ Hc). right. by apply Hoth2.
    - intros x [Hx|Hx]%Herr; [|done]. apply Hi. by eapply covered_errors. }
  destruct H; inversion Hres; subst; clear Hres.
  - destruct (Hgen _ _ _ E (set_ownership e emitted own)) as [? ?];
      [by intros ?|done..|by intros x ?; left|by split_and!].
  - destruct (Hgen _ _ _ E (set_limit_reached (set_ownership e emitted own))) as [? ?];
      [by intros ?|done..| |by intros x ?; left|by split_and!].
    by right; right; right.
  - destruct (Hgen _ _ _ E (count_sent (push (set_ownership e emitted own) (MAsset a)))) as [? ?];
      [|done..| | |by split_and!].
    + change (sent_names (count_sent ?x)) with (sent_names x). rewrite sent_names_push_asset. set_solver.
    + intros _ _. left. change (sent_names (count_sent ?x)) with (sent_names x). rewrite sent_names_push_asset. set_solver.
    + intros x. cbn. intros [Hx|Hx%list_elem_of_singleton]%elem_of_app; [by left|done].
  - destruct (Hgen _ _ _ E (set_malformed (push (set_ownership e emitted own) (MError x)))) as [? ?];
      [|done..| | |by split_and!].
    + change (sent_names (set_malformed ?x)) with (sent_names x). by rewrite sent_names_push_error.
    + intros _ _. by right; right; left.
    + by right.
Qed.

Lemma emit_siblings_handles recs e m e' :
  emit_siblings w rg e m recs = Ok e' → covered e →
  advances e e' ∧ ∀ r, r ∈ fst <$> recs → handled e' (rec_name r).
Proof.
  revert e; induction recs as [|[r sid] recs IH]; intros e; cbn [emit_siblings].
  - intros [= <-] _. split; [apply advances_refl|]. cbn. set_solver.
  - intros ([e1 brk] & Hx & H)%bind_Ok Hc.
    destruct (emit_sibling_handles _ _ _ _ _ _ Hx) as (Hadv & Hr & Hbrk). destruct brk.
    + injection H as <-. split; [done|]. intros. by right; right; right; apply Hbrk.
    + destruct (IH _ H (proj2 Hadv Hc)) as [Hadv2 Hrs]. split; [by eapply advances_trans|].
      cbn. intros r' [->|Hin]%elem_of_cons; [|by apply Hrs]. apply (proj1 Hadv2). by apply Hr.
Qed.

(** A record kept in a map of buffered assets. *)
Definition buffered (r : CkRecord) (m : gmap str (list CkRecord)) : Prop := ∃ k l, m !! k = Some l ∧ r ∈ l.

Lemma buffered_delete r m k : buffered r m → (∃ l, m !! k = Some l ∧ r ∈ l) ∨ buffered r (delete k m).
Proof.
  intros (k' & l & Hl & Hr). destruct (decide (k' = k)) as [->|Hne]; [by left; exists l|].
  right. exists k', l. by rewrite lookup_delete_ne.
Qed.

Lemma buffered_append r m k l : buffered r m ∨ r ∈ l → buffered r (<[k := default [] (m !! k) ++ l]> m).
Proof.
  intros [(k' & l' & Hl & Hr)|Hr].
  - destruct (decide (k' = k)) as [->|Hne].
    + exists k. eexists. rewrite lookup_insert_eq, Hl. cbn. split; [done|]. apply elem_of_app. by left.
    + exists k', l'. by rewrite lookup_insert_ne.
  - exists k. eexists. rewrite lookup_insert_eq. split; [done|]. apply elem_of_app. by right.
Qed.

Lemma take_asset_records_buffered r pending page k :
  buffered r pending ∨ buffered r page →
  (∃ l, take_asset_records pending page k = Some l ∧ r ∈ l) ∨
  buffered r (delete k pending) ∨ buffered r (delete k page).
Proof.
  unfold take_asset_records. intros [Hb|Hb]; apply (buffered_delete _ _ k) in Hb as [(l & Hl & Hr)|Hb]; try by eauto.
  - left. rewrite Hl. destruct (page !! k); eexists; split; [done| |done|done]. apply elem_of_app. by left.
  - left. rewrite Hl. destruct (pending !! k); eexists; split; [done| |done|done]. apply elem_of_app. by right.
Qed.

Lemma master_turn_tracks tick mx s m s' :
  master_turn w rg tick mx s m = Ok s' → covered (pg_em s) →
  advances (pg_em s) (pg_em s') ∧
  ∀ r, buffered r (pending_assets (pg_buf s)) ∨ buffered r (pg_assets s) →
    handled (pg_em s') (rec_name r) ∨ buffered r (pending_assets (pg_buf s')) ∨ buffered r (pg_assets s').
Proof.
  unfold master_turn. intros Hs Hc.
  destruct (take_asset_records _ _ _) as [l|] eqn:E.
  - apply bind_Ok in Hs as (e & He & [= <-]).
    destruct (emit_siblings_handles _ _ _ _ He Hc) as [Hadv Hl]. rewrite sibling_states_fst in Hl.
    split; [done|]. cbn. intros r Hr.
    apply (take_asset_records_buffered _ _ _ (rec_name m)) in Hr as [(l' & Hl' & Hin)|Hr]; [|by right].
    left. apply Hl. congruence.
  - injection Hs as <-. split; [apply advances_refl|]. cbn. intros r Hr.
    apply (take_asset_records_buffered _ _ _ (rec_name m)) in Hr as [(l' & Hl' & Hin)|Hr]; [congruence|by right].
Qed.

Lemma masters_loop_tracks tick mx ms s s' :
  masters_loop w rg tick mx s ms = Ok s' → covered (pg_em s) →
  advances (pg_em s) (pg_em s') ∧
  ∀ r, buffered r (pending_assets (pg_buf s)) ∨ buffered r (pg_assets s) →
    handled (pg_em s') (rec_name r) ∨ buffered r (pending_assets (pg_buf s')) ∨ buffered r (pg_assets s').
Proof.
  revert s; induction ms as [|m ms IH]; intros s; cbn [masters_loop].
  - intros [= <-] _. split; [apply advances_refl|]. naive_solver.
  - intros (s1 & H1 & H2)%bind_Ok Hc. destruct (master_turn_tracks _ _ _ _ _ H1 Hc) as [Hadv Ht].
    destruct (IH _ H2 (proj2 Hadv Hc)) as [Hadv2 Ht2]. split; [by eapply advances_trans|].
    intros r [Hr|Hr]%Ht; [left; by apply (proj1 Hadv2)|by apply Ht2].
Qed.

Lemma assets_turn_tracks tick mx e b x e' b' :
  assets_turn w rg tick mx (e, b) x = Ok (e', b') → covered e →
  advances e e' ∧
  ∀ r, buffered r (pending_assets b) ∨ r ∈ x.2 → handled e' (rec_name r) ∨ buffered r (pending_assets b').
Proof.
  destruct x as [k l]. cbn. intros Hs Hc.
  destruct (pending_masters b !! k) as [m|]; [|destruct (paired_masters b !! k) as [m|]].
  - apply bind_Ok in Hs as (e1 & He & [= <- <-]).
    destruct (emit_siblings_handles _ _ _ _ He Hc) as [Hadv Hl]. rewrite sibling_states_fst in Hl.
    split; [done|]. cbn. intros r [Hr|Hr]; [by right|left; by apply Hl].
  - apply bind_Ok in Hs as (e1 & He & [= <- <-]).
    destruct (emit_siblings_handles _ _ _ _ He Hc) as [Hadv Hl]. rewrite all_asset_states_fst in Hl.
    split; [done|]. intros r [Hr|Hr]; [by right|left; by apply Hl].
  - injection Hs as <- <-. split; [apply advances_refl|]. cbn. intros r Hr. right. by apply buffered_append.
Qed.

Lemma assets_loop_tracks tick mx xs e b e' b' :
  assets_loop w rg tick mx (e, b) xs = Ok (e', b') → covered e →
  advances e e' ∧
  ∀ r, buffered r (pending_assets b) ∨ (∃ x, x ∈ xs ∧ r ∈ x.2) →
    handled e' (rec_name r) ∨ buffered r (pending_assets b').
Proof.
  revert e b; induction xs as [|x xs IH]; intros e b; cbn [assets_loop].
  - intros [= <- <-] _. split; [apply advances_refl|]. intros r [Hr|(x & Hx & _)]; [by right|]. set_solver.
  - intros ([e1 b1] & H1 & H2)%bind_Ok Hc. destruct (assets_turn_tracks _ _ _ _ _ _ _ H1 Hc) as [Hadv Ht].
    destruct (IH _ _ H2 (proj2 Hadv Hc)) as [Hadv2 Ht2]. split; [by eapply advances_trans|].
    intros r [Hr|(y & [->|Hy]%elem_of_cons & Hr)].
    + destruct (Ht r) as [H|H]; [by left|left; by apply (proj1 Hadv2)|apply Ht2; by left].
    + destruct (Ht r) as [H|H]; [by right|left; by apply (proj1 Hadv2)|apply Ht2; by left].
    + apply Ht2. right. by exists y.
Qed.

(** An asset record that names its master. *)
Definition is_linked_asset (r : CkRecord) : Prop :=
  str_eqb (rec_type r) (lit "CPLAsset") = true ∧ is_Some (master_ref r).

Lemma classify_page_buffered r recs :
  r ∈ recs → is_linked_asset r → buffered r (classify_page recs).1.
Proof.
  intros Hr [Ht [m Hm]]. unfold classify_page.
  assert (∀ acc, buffered r acc.1 ∨ r ∈ recs → buffered r (foldl classify_record acc recs).1) as H;
    [|apply H; by right].
  clear Hr. induction recs as [|r' recs IH]; intros [pa pm] Hr; [destruct Hr; [done|set_solver]|].
  cbn [foldl]. apply IH.
  assert (buffered r pa → buffered r (classify_record (pa, pm) r').1) as Hmono.
  { unfold classify_record. intros Hb. destruct (str_eqb (rec_type r') (lit "CPLAsset")); [|by destruct (str_eqb (rec_type r') _)].
    destruct (master_ref r'); [|done]. apply buffered_append. by left. }
  destruct Hr as [Hr|[->|Hr]%elem_of_cons]; [by left; apply Hmono| |by right].
  left. unfold classify_record. rewrite Ht, Hm. apply buffered_append. right. apply list_elem_of_singleton. done.
Qed.

Lemma advances_of e e' :
  sent_names e ⊆ sent_names e' → range_record_owners e' = range_record_owners e →
  emitted_asset_records e' = emitted_asset_records e →
  (enumeration_incomplete e = true → enumeration_incomplete e' = true) →
  (limit_reached e = true → limit_reached e' = true) →
  (∀ x, MError x ∈ sent e' → MError x ∈ sent e ∨ enumeration_incomplete e' = true) → advances e e'.
Proof.
  intros Hs Ho He Hi Hl Hx.
  assert (∀ n, handled e n → handled e' n) as Hm by (apply handled_mono; [done|by rewrite Ho|done..]).
  split; [done|]. intros Hc. split.
  - rewrite He, Ho. intros n Hn. by apply Hm, (covered_names _ Hc).
  - intros x [H|H]%Hx; [|done]. apply Hi. by eapply covered_errors.
Qed.

Lemma advances_send_incomplete e x : advances e (send w (set_incomplete e) (MError x)).1.
Proof.
  destruct (send_cases w (set_incomplete e) (MError x)) as [-> | ->]; apply advances_of; try done; try by right.
  cbn [fst]. by rewrite sent_names_push_error.
Qed.

Lemma advances_use_channel e : advances e (use_channel e).
Proof. apply advances_of; try done. by left. Qed.

Lemma advances_start_page e : limit_reached e = false → advances e (start_page e).
Proof. intros Hl. apply advances_of; try done; [|by left]. congruence. Qed.

Definition tracked (s : FetcherState) : Prop :=
  covered (em s) ∧
  ∀ r, r ∈ seen s → is_linked_asset r → handled (em s) (rec_name r) ∨ buffered r (pending_assets (buf s)).

Definition loop_inv (s : FetcherState) : Prop := tracked s ∧ limit_reached (em s) = false.

Definition break_ok (s : FetcherState) : Prop :=
  tracked s ∧ (limit_reached (em s) = true → stopped_for_limit s = bool_decide (r_role rg = LimitProbe)).

Definition flow_ok (f : Flow) : Prop :=
  match f with
  | Continue s => loop_inv s
  | Break s => break_ok s
  | Return _ r => ∀ t, r <> Some (t, ProvenEof)
  end.

Lemma tracked_em s e :
  tracked s → advances (em s) e → tracked (set_em s e).
Proof.
  intros [Hc Ht] [Ha1 Ha2]. split; [by apply Ha2|]. cbn. intros r Hr Hl.
  destruct (Ht r Hr Hl); [left; by apply Ha1|by right].
Qed.

Lemma end_page_ok mx s : tracked s → flow_ok (end_page w rg mx s).
Proof.
  intros Ht. unfold end_page. destruct (limit_reached (em s)) eqn:El; [by split|].
  destruct (mx <? _).
  - split; [apply tracked_em; [done|apply advances_send_incomplete]|].
    change (limit_reached (em s) = true → stopped_for_limit s = bool_decide (r_role rg = LimitProbe)). congruence.
  - destruct (page_emitted (em s) =? 0); [|by split].
    destruct (MAX_EMPTY_PAGE_PROBES <=? _); (split; [done|]); cbn; [congruence|done].
Qed.

Lemma full_page_ok s q :
  covered (em s) →
  (∀ r, r ∈ seen s → is_linked_asset r →
    (handled (em s) (rec_name r) ∨ buffered r (pending_assets (buf s))) ∨ r ∈ q_records q) →
  flow_ok (full_page w rg bh s q).
Proof.
  intros Hc Hseen. unfold full_page.
  pose proof (λ r H, classify_page_buffered r (q_records q) H) as Hcl.
  destruct (classify_page (q_records q)) as [pa pm]. cbn [fst] in Hcl.
  destruct (masters_loop _ _ _ _ _ _) as [p|e1] eqn:Em; [|done].
  destruct (masters_loop_tracks _ _ _ _ _ Em Hc) as [Hadv Hm]. cbn [pg_em pg_buf pg_assets] in Hm, Hadv.
  assert (∀ r, r ∈ seen s → is_linked_asset r → handled (pg_em p) (rec_name r) ∨
    buffered r (pending_assets (pg_buf p)) ∨ buffered r (pg_assets p)) as Hp.
  { intros r Hr Hl. destruct (Hseen r Hr Hl) as [[H|H]|H].
    - left. by apply (proj1 Hadv).
    - apply Hm. by left.
    - apply Hm. right. by apply Hcl. }
  pose proof (proj2 Hadv Hc) as Hcp.
  destruct (limit_reached (pg_em p)) eqn:El.
  { split; [|by intros _]. split; [done|]. cbn. intros r Hr Hl. left. by right; right; right. }
  destruct (assets_loop _ _ _ _ _ _) as [[e b]|e1] eqn:Ea; [|done].
  destruct (assets_loop_tracks _ _ _ _ _ _ _ Ea Hcp) as [Hadv2 Ha].
  apply end_page_ok. split; [by apply (proj2 Hadv2)|]. cbn. intros r Hr Hl.
  destruct (Hp r Hr Hl) as [H|[H|(k & l & Hkl & Hin)]].
  - left. by apply (proj1 Hadv2).
  - apply Ha. by left.
  - apply Ha. right. exists (k, l). split; [|done].
    rewrite (Hord (posts s) (pg_assets p)). by apply elem_of_map_to_list.
Qed.

Lemma fetch_step_ok s : loop_inv s → flow_ok (fetch_step w rg bh s).
Proof.
  intros [Ht Hl]. unfold fetch_step.
  change (look_open w (em s)) with (use_channel (em s), w_open w (uses (em s))). cbn beta iota zeta.
  pose proof (tracked_em _ _ Ht (advances_use_channel (em s))) as Ht1.
  destruct (w_open w (uses (em s))); cbn [negb]; [|by intros t].
  set (s0 := set_em s (use_channel (em s))) in *.
  destruct (r_end rg <=? offset s0); [split; [done|]; cbn; congruence|].
  destruct (w_fetch w _ _) as [| |q]; [by intros t..|].
  pose proof (advances_start_page (em s0) Hl) as Hadv. rewrite <- (observe_page_em s0 q) in Hadv.
  assert (seen (observe_page s0 q) = seen s0 ++ q_records q ∧ buf (observe_page s0 q) = buf s0) as [Hs Hb].
  { unfold observe_page. destruct (q_sync_token q) as [t|]; [destruct (is_blank t)|]; done. }
  destruct Ht1 as [Hc1 Hr1].
  assert (limit_reached (em (observe_page s0 q)) = false) as Hl1 by (by rewrite observe_page_em).
  assert (∀ r, r ∈ seen (observe_page s0 q) → is_linked_asset r →
    (handled (em (observe_page s0 q)) (rec_name r) ∨ buffered r (pending_assets (buf (observe_page s0 q)))) ∨
    r ∈ q_records q) as Hseen.
  { intros r Hr Hlk. rewrite Hs in Hr. apply elem_of_app in Hr as [Hr|Hr]; [left|by right].
    rewrite Hb. destruct (Hr1 r Hr Hlk); [left; by apply (proj1 Hadv)|by right]. }
  destruct (q_records q) as [|r0 rs] eqn:Eq.
  - unfold empty_page. cbn beta iota zeta.
    assert (tracked (observe_page s0 q)) as Ht2.
    { split; [by apply (proj2 Hadv)|]. intros r Hr Hlk. destruct (Hseen r Hr Hlk); [done|set_solver]. }
    destruct (MAX_EMPTY_PAGE_PROBES <=? _); [|by split].
    destruct (_ && _ && _ && _); [|split; [done|]; cbn; congruence].
    split; [apply tracked_em; [done|apply advances_send_incomplete]|].
    intros Hl2. change (limit_reached (em (observe_page s0 q)) = true) in Hl2. congruence.
  - apply full_page_ok; [by apply (proj2 Hadv)|]. by rewrite Eq.
Qed.

Lemma loop_inv_init : loop_inv (fetcher_init (r_start rg)).
Proof.
  split; [|done]. split; [|cbn; set_solver]. split; [|cbn; set_solver].
  cbn. intros n [?|Hn]; [set_solver|]. by rewrite lookup_empty in Hn.
Qed.

Lemma fetch_loop_ok fuel s f :
  loop_inv s → fetch_loop fuel w rg bh s = Some f →
  (∃ s', break_ok s' ∧ f = finish w bh s') ∨ ∀ t, fin_report f <> Some (t, ProvenEof).
Proof.
  revert s; induction fuel as [|fuel IH]; intros s Hs; [done|]. cbn [fetch_loop].
  pose proof (fetch_step_ok s Hs) as H.
  destruct (fetch_step w rg bh s) as [s'|s'|s' r]; cbn [flow_ok] in H; [by apply IH| |].
  - intros [= <-]. left. by exists s'.
  - intros [= <-]. by right.
Qed.

(** A fetcher that proves its end has handled everything it received. *)
Lemma proven_eof_handled fuel f t :
  spawn_fetcher fuel w rg bh = Some f → fin_report f = Some (t, ProvenEof) →
  r_limit rg = None ∨ r_role rg = LimitProbe →
  (∀ x, MError x ∉ sent (em (fin_state f))) ∧
  ∀ r, r ∈ seen (fin_state f) → is_linked_asset r →
    rec_name r ∈ sent_names (em (fin_state f)) ∨
    (∃ o, o <> r_start rg ∧ range_record_owners (em (fin_state f)) !! rec_name r = Some o) ∨
    (allow_unpaired_at_range_boundary bh = true ∧ buffered r (pending_assets (buf (fin_state f)))).
Proof.
  intros Hf Hrep Hlim.
  assert (r_limit rg = None → limit_reached (em (fin_state f)) = false) as Hnl.
  { intros Hnone. revert Hf. apply (spawn_fetcher_inv w rg bh (λ e, limit_reached e = false)); try done.
    intros e m r sid He. destruct (emit_sibling_spec w rg e m r sid); cbn; congruence. }
  destruct (fetch_loop_ok _ _ _ loop_inv_init Hf) as [(s & [[Hc Ht] Hl] & ->)|Hno]; [|by destruct (Hno t)].
  unfold finish in *. cbn [fin_state fin_report] in *.
  set (unp := negb (stopped_for_limit s) && _ && _) in *. destruct unp eqn:Eu.
  { exfalso. injection Hrep as _ Hrep. cbn [set_em em] in Hrep.
    change (enumeration_incomplete (send w (set_incomplete (em s)) (MError MUnpairedAtEnd)).1) with true in Hrep.
    by destruct (malformed_record _). }
  injection Hrep as _ Hrep.
  destruct (malformed_record (em s)); [done|]. destruct (enumeration_incomplete (em s)) eqn:Ei; [done|].
  destruct (stopped_for_limit s) eqn:Es; [done|]. split.
  { intros x Hx%(covered_errors _ Hc). congruence. }
  assert (limit_reached (em s) = false) as Hl0.
  { destruct Hlim as [Hlim|Hlim]; [by apply Hnl|]. destruct (limit_reached (em s)); [|done].
    specialize (Hl eq_refl). rewrite bool_decide_true in Hl by done. done. }
  intros r Hr Hlk. destruct (Ht r Hr Hlk) as [[H|[H|[H|H]]]|Hb]; [by left|by right; left|congruence|congruence|].
  right; right. split; [|done].
  unfold unp in Eu. destruct (allow_unpaired_at_range_boundary bh); [done|]. cbn in Eu.
  destruct Hb as (k & l & Hkl & _). apply negb_false_iff, andb_true_iff in Eu as [_ Eu%bool_decide_eq_true].
  by rewrite Eu, lookup_empty in Hkl.
Qed.
End Complete.

(** ** Termination *)

Section Live.
Context (w : World) (rg : FetcherRange) (bh : FetcherBehavior) (U : gset str).
Context (Hord : order_ok w).
Context (HU : ∀ n off q, w_fetch w n off = Page q → Forall (λ r, rec_name r ∈ U) (q_records q)).

(** What a page can do to the range's own set of names. *)
Record grows (e e' : Emit) : Prop := {
  grows_names : emitted_asset_records e ⊆ emitted_asset_records e' ⊆ emitted_asset_records e ∪ U;
  grows_emitted : page_emitted e <= page_emitted e';
  grows_size : r_role rg <> Data →
    page_emitted e' - page_emitted e <= Z.of_nat (size (emitted_asset_records e')) - Z.of_nat (size (emitted_asset_records e));
}.

Lemma grows_refl e : grows e e.
Proof. split; [set_solver|lia|lia]. Qed.

Lemma grows_trans a b c : grows a b → grows b c → grows a c.
Proof. intros [? ? H1] [? ? H2]. split; [set_solver|lia|]. intros Hr. specialize (H1 Hr). specialize (H2 Hr). lia. Qed.

Lemma emit_sibling_grows e m r sid :
  rec_name r ∈ U → grows e (final fst (emit_sibling w rg e m r sid)).
Proof.
  intros Hr.
  assert (∀ ok emitted own, should_emit_asset_record (rec_name r) (r_start rg) (r_role rg) (emitted_asset_records e)
      (w_others w (looks e) (range_record_owners e)) = (ok, emitted, own) → ∀ e1 (sent_one : bool),
      emitted_asset_records e1 = emitted → page_emitted e1 = page_emitted e + (if sent_one then 1 else 0) →
      (sent_one = true → ok = true) → grows e e1) as Hgen.
  { intros ok emitted own E e1 one He Hp Hone.
    pose proof (should_emit_emitted (rec_name r) (r_start rg) (r_role rg) (emitted_asset_records e)
      (w_others w (looks e) (range_record_owners e))) as Hemle. rewrite E in Hemle. cbn in Hemle.
    apply should_emit_spec in E as (Hsub & _ & Hok & _).
    split; [rewrite He; set_solver|rewrite Hp; destruct one; lia|]. intros Hrole. rewrite He, Hp.
    destruct one; [|apply subseteq_size in Hsub; lia].
    destruct (Hok (Hone eq_refl)) as [_ Hne]. destruct (Hne Hrole) as [Hn1 Hn2].
    assert (size (emitted_asset_records e) < size emitted)%nat; [|lia].
    apply subset_size. set_solver. }
  destruct (emit_sibling_spec w rg e m r sid); cbn [final fst].
  - eapply (Hgen _ _ _ E _ false); [done|cbn; lia|done].
  - eapply (Hgen _ _ _ E _ false); [done|cbn; lia|done].
  - eapply (Hgen _ _ _ E _ true); [done|cbn; lia|done].
  - eapply (Hgen _ _ _ E _ false); [done|cbn; lia|done].
  - eapply (Hgen _ _ _ E _ false); [done|cbn; lia|done].
Qed.

Lemma page_grows tick mx s ms p e b :
  all_recs (λ r, rec_name r ∈ U) (pending_assets (pg_buf s)) → all_recs (λ r, rec_name r ∈ U) (pg_assets s) →
  masters_loop w rg tick mx s ms = Ok p →
  assets_loop w rg tick mx (pg_em p, pg_buf p) (w_order w tick (pg_assets p)) = Ok (e, b) →
  grows (pg_em s) e ∧ all_recs (λ r, rec_name r ∈ U) (pending_assets b).
Proof.
  intros Hp Hq Hm Ha.
  destruct (masters_loop_walk w rg grows (λ r, rec_name r ∈ U) grows_refl grows_trans
    (λ e m r sid H, emit_sibling_grows e m r sid H) tick mx ms s Hp Hq) as [HR Hok].
  rewrite Hm in HR. destruct (Hok p Hm) as [Hp1 Hq1].
  destruct (assets_loop_walk w rg grows (λ r, rec_name r ∈ U) grows_refl grows_trans
    (λ e m r sid H, emit_sibling_grows e m r sid H) tick mx (w_order w tick (pg_assets p)) (pg_em p) (pg_buf p) Hp1)
    as [HR2 Hok2]; [by apply order_ok_all|].
  rewrite Ha in HR2. split; [by eapply grows_trans|by eapply Hok2].
Qed.

(** At the head of the loop. *)
Record live (s : FetcherState) : Prop := {
  live_names : emitted_asset_records (em s) ⊆ U;
  live_pending : all_recs (λ r, rec_name r ∈ U) (pending_assets (buf s));
  live_empty : 0 <= consecutive_empty_pages s < MAX_EMPTY_PAGE_PROBES;
}.

Lemma observe_page_fields s q :
  buf (observe_page s q) = buf s ∧ consecutive_empty_pages (observe_page s q) = consecutive_empty_pages s ∧
  offset (observe_page s q) = offset s ∧ posts (observe_page s q) = S (posts s) ∧ seen (observe_page s q) = seen s ++ q_records q.
Proof. unfold observe_page. destruct (q_sync_token q) as [t|]; [destruct (is_blank t)|]; done. Qed.

(** A step that continues received a page, which was empty or full. *)
Lemma fetch_step_Continue s s' :
  fetch_step w rg bh s = Continue s' →
  ∃ q, w_fetch w (posts s) (offset s) = Page q ∧ offset s < r_end rg ∧
    let s1 := observe_page (set_em s (use_channel (em s))) q in
    (q_records q = [] ∧ empty_page w rg bh s1 = Continue s') ∨
    (q_records q <> [] ∧ full_page w rg bh s1 q = Continue s').
Proof.
  unfold fetch_step.
  change (look_open w (em s)) with (use_channel (em s), w_open w (uses (em s))). cbn beta iota zeta.
  destruct (w_open w (uses (em s))); cbn [negb]; [|done].
  change (offset (set_em s (use_channel (em s)))) with (offset s).
  change (posts (set_em s (use_channel (em s)))) with (posts s).
  destruct (Z.leb_spec (r_end rg) (offset s)); [done|].
  destruct (w_fetch w (posts s) (offset s)) as [| |q]; [done..|].
  intros Hs. exists q. split_and!; [done|done|]. destruct (q_records q); [by left|by right].
Qed.

Lemma empty_page_Continue s s' :
  empty_page w rg bh s = Continue s' →
  consecutive_empty_pages s + 1 < MAX_EMPTY_PAGE_PROBES ∧ em s' = em s ∧ buf s' = buf s ∧
  consecutive_empty_pages s' = consecutive_empty_pages s + 1 ∧
  offset s' = wrapping_add_u64 (offset s) (b_page_size bh).
Proof.
  unfold empty_page. cbn beta iota zeta.
  destruct (Z.leb_spec MAX_EMPTY_PAGE_PROBES (consecutive_empty_pages (set_empty_pages s (consecutive_empty_pages s + 1)))) as [|Hlt].
  - by destruct (_ && _ && _ && _).
  - intros [= <-]. done.
Qed.

Lemma full_page_Continue s q s' :
  full_page w rg bh s q = Continue s' →
  ∃ p e b, masters_loop w rg (posts s) (max_pending_records bh)
      {| pg_em := em s; pg_buf := buf s; pg_assets := (classify_page (q_records q)).1;
         pg_offset := match (classify_page (q_records q)).2 with
           | [] => wrapping_add_u64 (offset s) (Z.max 1 (total_len (classify_page (q_records q)).1))
           | _ => offset s end |} (classify_page (q_records q)).2 = Ok p ∧
    assets_loop w rg (posts s) (max_pending_records bh) (pg_em p, pg_buf p) (w_order w (posts s) (pg_assets p)) = Ok (e, b) ∧
    em s' = e ∧ buf s' = b ∧ offset s' = pg_offset p ∧
    (page_emitted e = 0 → consecutive_empty_pages s' = consecutive_empty_pages s + 1 ∧ consecutive_empty_pages s' < MAX_EMPTY_PAGE_PROBES) ∧
    (page_emitted e <> 0 → consecutive_empty_pages s' = 0).
Proof.
  unfold full_page. destruct (classify_page (q_records q)) as [pa pm]. cbn [fst snd].
  destruct (masters_loop _ _ _ _ _ _) as [p|]; [|done].
  destruct (limit_reached (pg_em p)); [done|].
  destruct (assets_loop _ _ _ _ _ _) as [[e b]|] eqn:Ea; [|done].
  unfold end_page. cbn [em set_paging buf consecutive_empty_pages].
  destruct (limit_reached e); [done|]. destruct (max_pending_records bh <? _); [done|].
  destruct (Z.eqb_spec (page_emitted e) 0) as [E|E]; cbn beta iota zeta.
  - match goal with |- context [MAX_EMPTY_PAGE_PROBES <=? ?x] => destruct (Z.leb_spec MAX_EMPTY_PAGE_PROBES x) as [|Hlt] end; [done|].
    intros [= <-]. exists p, e, b. split_and!; [done..|by intros|done].
  - intros [= <-]. exists p, e, b. split_and!; done.
Qed.

Definition measure (s : FetcherState) : Z :=
  5 * (Z.of_nat (size U) - Z.of_nat (size (emitted_asset_records (em s)))) + (5 - consecutive_empty_pages s).

Lemma fetch_step_live s s' :
  r_role rg <> Data → live s → fetch_step w rg bh s = Continue s' → live s' ∧ measure s' < measure s.
Proof.
  intros Hrole [Hn Hp He] (q & Hq & _ & Hs)%fetch_step_Continue.
  destruct (observe_page_fields (set_em s (use_channel (em s))) q) as (Hb & Hc & _ & _ & _).
  pose proof (observe_page_em (set_em s (use_channel (em s))) q) as Hem.
  destruct Hs as [[Hnil Hs]|[Hne Hs]].
  - apply empty_page_Continue in Hs as (H1 & H2 & H3 & H4 & _). rewrite Hc in H1, H4. cbn in H1, H4.
    rewrite Hem in H2. rewrite Hb in H3. unfold measure. rewrite H2, H4. cbn. split; [|lia].
    split; [by rewrite H2|by rewrite H3|rewrite H4; lia].
  - apply full_page_Continue in Hs as (p & e & b & Hm & Ha & H1 & H2 & _ & H3 & H4).
    assert (all_recs (λ r, rec_name r ∈ U) (pending_assets (buf (observe_page (set_em s (use_channel (em s))) q)))) as Hp'
      by (rewrite Hb; exact Hp).
    pose proof (λ A B, page_grows _ _ _ _ _ _ _ A B Hm Ha) as Hg. cbn [pg_em pg_buf pg_assets] in Hg.
    destruct (Hg Hp' (classify_page_all _ _ (HU _ _ _ Hq))) as [[Hg1 Hg2 Hg3] Hpb]. clear Hg.
    specialize (Hg3 Hrole). cbn [pg_em] in Hg1, Hg2, Hg3. rewrite Hem in Hg1, Hg2, Hg3. rewrite Hc in H3.
    cbn [start_page page_emitted emitted_asset_records set_em em use_channel consecutive_empty_pages] in *.
    assert (emitted_asset_records e ⊆ U) as HeU by set_solver.
    assert (size (emitted_asset_records e) <= size U)%nat by (by apply subseteq_size).
    assert (size (emitted_asset_records (em s)) <= size (emitted_asset_records e))%nat by (apply subseteq_size; set_solver).
    unfold measure. rewrite H1. unfold MAX_EMPTY_PAGE_PROBES in *.
    destruct (decide (page_emitted e = 0)) as [E|E]; [specialize (H3 E)|specialize (H4 E)];
      (split; [split; [by rewrite H1|by rewrite H2|unfold MAX_EMPTY_PAGE_PROBES; lia]|lia]).
Qed.

Lemma fetch_loop_returns fuel s :
  r_role rg <> Data → live s → measure s < Z.of_nat fuel → is_Some (fetch_loop fuel w rg bh s).
Proof.
  intros Hrole. revert s; induction fuel as [|fuel IH]; intros s Hs Hm.
  - pose proof (live_empty _ Hs). pose proof (subseteq_size _ _ (live_names _ Hs)).
    unfold measure, MAX_EMPTY_PAGE_PROBES in *. lia.
  - cbn [fetch_loop]. destruct (fetch_step w rg bh s) as [s'| |] eqn:E; [|by eexists..].
    destruct (fetch_step_live _ _ Hrole Hs E). apply IH; [done|lia].
Qed.

Lemma live_init : live (fetcher_init (r_start rg)).
Proof. split; cbn; [set_solver|apply map_Forall_empty|unfold MAX_EMPTY_PAGE_PROBES; lia]. Qed.

(** Requests until the owner of the end gives up. *)
Lemma prover_returns fuel :
  r_role rg <> Data → 5 * Z.of_nat (size U) + 5 < Z.of_nat fuel → is_Some (spawn_fetcher fuel w rg bh).
Proof.
  intros Hr Hf. apply fetch_loop_returns; [done|apply live_init|]. unfold measure. cbn.
  rewrite size_empty. lia.
Qed.
End Live.

(** ** Data ranges end at their last rank *)

Lemma total_len_nonneg m : 0 <= total_len m.
Proof. unfold total_len. apply (map_fold_weak_ind (λ acc _, 0 <= acc)); intros; lia. Qed.

Lemma total_len_insert_new m k l : m !! k = None → total_len (<[k := l]> m) = zlen l + total_len m.
Proof. intros H. unfold total_len. rewrite map_fold_insert_L; [done|lia|done]. Qed.

Lemma total_len_append m k l : total_len (<[k := default [] (m !! k) ++ l]> m) = zlen l + total_len m.
Proof.
  destruct (m !! k) as [l0|] eqn:E; cbn; [|by apply total_len_insert_new].
  rewrite <- insert_delete_eq, total_len_insert_new by apply lookup_delete_eq.
  rewrite <- (insert_delete_id m k l0) at 2 by done.
  rewrite total_len_insert_new by apply lookup_delete_eq. rewrite length_app. lia.
Qed.

Lemma classify_page_len recs :
  total_len (classify_page recs).1 + zlen (classify_page recs).2 <= zlen recs.
Proof.
  unfold classify_page.
  assert (∀ acc, total_len (foldl classify_record acc recs).1 + zlen (foldl classify_record acc recs).2 <=
    total_len acc.1 + zlen acc.2 + zlen recs) as H.
  2: { specialize (H (∅, [])). change (total_len (∅, @nil CkRecord).1) with 0 in H. cbn [snd length] in H. lia. }
  induction recs as [|r recs IH]; intros [pa pm]; [cbn; lia|]. cbn [foldl]. etransitivity; [apply IH|].
  unfold classify_record. destruct (str_eqb (rec_type r) (lit "CPLAsset")).
  - destruct (master_ref r) as [m|]; [|cbn; lia]. cbn [fst snd]. rewrite total_len_append. cbn [length]. lia.
  - destruct (str_eqb (rec_type r) (lit "CPLMaster")); cbn [fst snd]; rewrite ?length_app; cbn [length]; lia.
Qed.

Lemma wrapping_add_u64_small a b : 0 <= a → 0 <= b → a + b <= U64_MAX → wrapping_add_u64 a b = a + b.
Proof. intros. unfold wrapping_add_u64. apply Z.mod_small. lia. Qed.

Lemma masters_loop_offset w rg tick mx ms s p :
  masters_loop w rg tick mx s ms = Ok p → 0 <= pg_offset s → pg_offset s + zlen ms <= U64_MAX →
  pg_offset p = pg_offset s + zlen ms.
Proof.
  revert s; induction ms as [|m ms IH]; intros s; cbn [masters_loop].
  - intros [= <-]. cbn. lia.
  - intros (s1 & H1 & H2)%bind_Ok Hs Hb. cbn [length] in *.
    assert (pg_offset s1 = pg_offset s + 1) as Ho.
    { rewrite <- (wrapping_add_u64_small (pg_offset s) 1) by lia.
      unfold master_turn in H1. destruct (take_asset_records _ _ _).
      - by apply bind_Ok in H1 as (e & _ & [= <-]).
      - by injection H1 as <-. }
    apply IH in H2; lia.
Qed.

Lemma fetch_step_offset w rg bh L s s' :
  (∀ n off q, w_fetch w n off = Page q → zlen (q_records q) <= L) →
  1 <= b_page_size bh → 0 <= offset s → r_end rg + Z.max L (b_page_size bh) <= U64_MAX → 0 <= L →
  fetch_step w rg bh s = Continue s' → offset s < offset s'.
Proof.
  intros HL Hps Ho Hend HL0 (q & Hq & Hlt & Hs)%fetch_step_Continue. apply HL in Hq.
  destruct (observe_page_fields (set_em s (use_channel (em s))) q) as (_ & _ & Hof & _ & _).
  change (offset (set_em s (use_channel (em s)))) with (offset s) in Hof.
  destruct Hs as [[_ Hs]|[_ Hs]].
  - apply empty_page_Continue in Hs as (_ & _ & _ & _ & ->). rewrite Hof, wrapping_add_u64_small by lia. lia.
  - apply full_page_Continue in Hs as (p & e & b & Hm & _ & _ & _ & -> & _). rewrite Hof in Hm.
    pose proof (classify_page_len (q_records q)) as Hlen. pose proof (total_len_nonneg (classify_page (q_records q)).1).
    destruct (classify_page (q_records q)) as [pa pm]. cbn [fst snd] in *.
    destruct pm as [|m pm]; apply masters_loop_offset in Hm; cbn [pg_offset length] in *;
      rewrite ?wrapping_add_u64_small in * by lia; lia.
Qed.

Lemma data_returns w rg bh L fuel :
  (∀ n off q, w_fetch w n off = Page q → zlen (q_records q) <= L) →
  1 <= b_page_size bh → 0 <= r_start rg → r_end rg + Z.max L (b_page_size bh) <= U64_MAX → 0 <= L →
  Z.max 0 (r_end rg) < Z.of_nat fuel → is_Some (spawn_fetcher fuel w rg bh).
Proof.
  intros HL Hps Hs Hend HL0 Hf. unfold spawn_fetcher.
  assert (∀ s, 0 <= offset s → Z.max 0 (r_end rg - offset s) < Z.of_nat fuel →
    is_Some (fetch_loop fuel w rg bh s)) as H; [|apply H; cbn; lia].
  clear Hf. induction fuel as [|fuel IH]; intros s Ho Hf; [lia|]. cbn [fetch_loop].
  destruct (fetch_step w rg bh s) as [s'| |] eqn:E; [|by eexists..].
  pose proof (fetch_step_offset _ _ _ _ _ _ HL Hps Ho Hend HL0 E).
  apply fetch_step_Continue in E as (_ & _ & ? & _). apply IH; lia.
Qed.

(** ** The fetchers of a plan *)

Lemma run_fetchers_Some fuel ws i rs bh c fs c' :
  run_fetchers fuel ws i rs bh c = Some (fs, c') →
  Forall2 (λ j_rg f, spawn_fetcher fuel (ws j_rg.1) j_rg.2 bh = Some f) (zip (seq i (length rs)) rs) fs ∧
  c' = foldl record_report c fs.
Proof.
  revert i c fs c'; induction rs as [|rg rs IH]; intros i c fs c'; cbn [run_fetchers].
  - intros [= <- <-]. split; [constructor|done].
  - intros H. destruct (spawn_fetcher fuel (ws i) rg bh) as [f|] eqn:Ef; cbn in H; [|done].
    destruct (run_fetchers fuel ws (S i) rs bh (record_report c f)) as [[fs1 c1]|] eqn:Er; cbn in H; [|done].
    injection H as <- <-. destruct (IH _ _ _ _ Er) as [H1 ->]. split; [|done]. cbn. by constructor.
Qed.

Lemma run_fetchers_is_Some fuel ws i rs bh c :
  (∀ j rg, rg ∈ rs → is_Some (spawn_fetcher fuel (ws j) rg bh)) → is_Some (run_fetchers fuel ws i rs bh c).
Proof.
  revert i c; induction rs as [|rg rs IH]; intros i c H; cbn [run_fetchers]; [by eexists|].
  destruct (H i rg) as [f Hf]; [left|]. rewrite Hf. cbn.
  destruct (IH (S i) (record_report c f)) as [[fs c'] ->]; [|by eexists]. intros j rg' Hin. apply H. by right.
Qed.

Lemma record_report_counts c f :
  expected_fetchers (record_report c f) = expected_fetchers c ∧
  completed_fetchers (record_report c f) = completed_fetchers c + (if fin_report f then 1 else 0) ∧
  (suppressed c = true → suppressed (record_report c f) = true) ∧
  observations (record_report c f) = observations c ++ (match fin_report f with Some r => [r] | None => [] end).
Proof.
  unfold record_report. destruct (fin_suppress f), (fin_report f) as [[t k]|]; cbn;
    rewrite ?app_nil_r, ?Z.add_0_r; by split_and!.
Qed.

Lemma foldl_report_counts c fs :
  expected_fetchers (foldl record_report c fs) = expected_fetchers c ∧
  completed_fetchers (foldl record_report c fs) =
    completed_fetchers c + zlen (omap fin_report fs) ∧
  (suppressed c = true → suppressed (foldl record_report c fs) = true) ∧
  observations (foldl record_report c fs) = observations c ++ omap fin_report fs.
Proof.
  revert c; induction fs as [|f fs IH]; intros c; cbn.
  - rewrite app_nil_r. split_and!; [done|lia|done|done].
  - destruct (IH (record_report c f)) as (-> & -> & Hs & ->).
    destruct (record_report_counts c f) as (-> & -> & Hs2 & ->).
    destruct (fin_report f); cbn [length]; rewrite <- ?app_assoc, ?app_nil_r; split_and!; try done; try lia; auto.
Qed.

Lemma zlen_omap_full {A B} (g : A → option B) l : zlen (omap g l) = zlen l → ∀ x, x ∈ l → is_Some (g x).
Proof.
  induction l as [|x l IH]; [set_solver|]. cbn. intros H y.
  assert (length (omap g l) <= length l)%nat by (clear; induction l as [|a l]; cbn; [lia|destruct (g a); cbn; lia]).
  destruct (g x) as [b|] eqn:E; cbn [length] in H; [|lia].
  intros [->|Hin]%elem_of_cons; [by eexists|]. apply IH; [lia|done].
Qed.

Lemma sequential_plan limit total ps profile :
  limit <> None ∨ total = None ∨ fetcher_concurrency profile = 1 →
  ∃ lim role, ranges (build_enumeration_plan limit total ps profile) = single_range lim role ∧ role <> Data ∧
    (lim = limit) ∧ (lim = None ∨ role = LimitProbe).
Proof.
  intros Hseq. unfold build_enumeration_plan. destruct limit as [n|].
  { exists (Some n), LimitProbe. split_and!; auto. }
  exists None, TailProof. destruct total as [tc|]; [|split_and!; auto].
  destruct Hseq as [?|[?|Hc]]; [done|done|]. rewrite Hc. cbn. rewrite orb_true_r. split_and!; auto.
Qed.

Lemma own_only w rg bh fuel f :
  (∀ n m, w_others w n m = m) → spawn_fetcher fuel w rg bh = Some f →
  ∀ k o, range_record_owners (em (fin_state f)) !! k = Some o → o = r_start rg.
Proof.
  intros Hid. apply (spawn_fetcher_inv w rg bh (λ e, ∀ k o, range_record_owners e !! k = Some o → o = r_start rg));
    try done.
  intros e m r sid HI. destruct (emit_sibling_spec w rg e m r sid); rewrite Hid in E;
    apply should_emit_spec in E as (_ & _ & _ & _ & Hown); cbn; intros k o [H|(_ & H & _)]%Hown; eauto.
Qed.

Lemma others_ok_id w s : (∀ n m, w_others w n m = m) → others_ok w s.
Proof. intros H n m. by rewrite H. Qed.
End Facts.

(** ** Properties of a fetcher *)

(** C39: What a fetcher puts into the stream: never more assets than its limit;
    an asset at most once, unless the range is a data range; and only assets
    it owns in the map shared with the other fetchers. *)
Theorem fetcher_emissions `{JsonEnv} w rg bh fuel f
    (Hoth : others_ok w (r_start rg)) (Hrun : spawn_fetcher fuel w rg bh = Some f) :
  (∀ n, r_limit rg = Some n → 0 <= n → zlen (sent_names (em (fin_state f))) <= n) ∧
  (r_role rg <> Data → NoDup (sent_names (em (fin_state f)))) ∧
  (∀ k, k ∈ sent_names (em (fin_state f)) → range_record_owners (em (fin_state f)) !! k = Some (r_start rg)).
Proof.
  split_and!.
  - intros n Hl Hn. destruct (limit_inv _ _ _ _ _ _ Hl Hn Hrun). lia.
  - intros Hr. by eapply once_inv.
  - by eapply owned_inv.
Qed.

(** A fetcher that reports the end of its range reported no error, and
    lost nothing: every asset record it received that names its master was
    sent, or belongs to another range, or (only when the enumeration has
    several ranges) still waits for its master. *)
Theorem proven_eof_complete `{JsonEnv} w rg bh fuel f t
    (Hord : order_ok w) (Hoth : others_ok w (r_start rg))
    (Hlim : r_limit rg = None ∨ r_role rg = LimitProbe)
    (Hrun : spawn_fetcher fuel w rg bh = Some f) (Heof : fin_report f = Some (t, ProvenEof)) :
  (∀ x, MError x ∉ sent (em (fin_state f))) ∧
  ∀ r, r ∈ seen (fin_state f) → is_linked_asset r →
    rec_name r ∈ sent_names (em (fin_state f)) ∨
    (∃ o, o <> r_start rg ∧ range_record_owners (em (fin_state f)) !! rec_name r = Some o) ∨
    (allow_unpaired_at_range_boundary bh = true ∧ buffered r (pending_assets (buf (fin_state f)))).
Proof. by eapply proven_eof_handled. Qed.

(** No range of a plan meets the condition under which an empty tail is an
    error: a data range ends at the count hint, not at [u64::MAX]. *)
Lemma empty_tail_is_no_error limit total ps profile rg :
  (∀ tc, total = Some tc → 0 <= tc < 2 ^ 60) → ps < 2 ^ 60 →
  rg ∈ ranges (build_enumeration_plan limit total ps profile) →
  bool_decide (r_role rg = Data) && (r_end rg =? U64_MAX) = false.
Proof.
  intros Ht Hps Hin.
  destruct (build_enumeration_plan_consecutive limit total ps profile Ht Hps)
    as [_ (data & last & Hr & Hlast & _ & Hdata & _)].
  rewrite Hr in Hin. apply elem_of_app in Hin as [Hin| ->%list_elem_of_singleton].
  - pose proof (proj1 (Forall_forall _ _) Hdata _ Hin) as (_ & _ & _ & Hend).
    assert (default 0 total < 2 ^ 60) by (destruct total; [by apply Ht|cbn; lia]).
    rewrite (proj2 (Z.eqb_neq _ _)) by (unfold U64_MAX; lia). apply andb_false_r.
  - by rewrite bool_decide_false.
Qed.

(** ** Concrete runs *)

Module Runs.
Import Json.

(** Every page after the first two is empty. *)
Definition two_pages (p0 p1 : list CkRecord) (tok : option str) : World :=
  {| w_fetch n _ := Page {| q_records := match n with 0 => p0 | 1 => p1 | _ => [] end%nat; q_sync_token := tok |};
     w_open _ := true; w_others _ m := m; w_order _ m := map_to_list m;
     w_first_key _ m := fst <$> head (map_to_list m) |}.

Definition pair_of (a m : string) : list CkRecord := [master_rec (lit m); asset_rec (lit a) (lit m)].

Definition library : World := two_pages (pair_of "a1" "m1") (pair_of "a2" "m2" ++ pair_of "a1" "m1") (Some (lit "tok")).
Definition behavior (allow : bool) : FetcherBehavior :=
  {| b_page_size := 20; preserve_blank_sync_tokens_for_diagnostics := true;
     allow_unpaired_at_range_boundary := allow; treat_empty_tail_as_error := true |}.
Definition all_ranks (limit : option Z) (role : FetcherRangeRole) : FetcherRange :=
  {| r_start := 0; r_end := U64_MAX; r_limit := limit; r_role := role |}.

Lemma library_order : order_ok library.
Proof. intros n m. done. Qed.
Lemma library_alone : ∀ n m, w_others library n m = m.
Proof. done. Qed.

Definition sent_by (o : option Finished) : option (list str) := (λ f, sent_names (em (fin_state f))) <$> o.

(** The second page repeats an asset; it is sent once. *)
Lemma fetcher_emissions_witness :
  let run := spawn_fetcher 20 library (all_ranks None TailProof) (behavior false) in
  sent_by run = Some [lit "a1"; lit "a2"] ∧ ∀ f, run = Some f → NoDup (sent_names (em (fin_state f))).
Proof.
  split; [vm_compute; reflexivity|]. intros f Hf.
  apply (fetcher_emissions library (all_ranks None TailProof) (behavior false) 20 f); [by apply others_ok_id|exact Hf|].
  intros H. discriminate H.
Defined.

Lemma proven_eof_complete_witness :
  let run := spawn_fetcher 20 library (all_ranks None TailProof) (behavior false) in
  (run ≫= fin_report) = Some (Some (lit "tok"), ProvenEof) ∧
  ∀ f, run = Some f → fin_report f = Some (Some (lit "tok"), ProvenEof) → ∀ x, MError x ∉ sent (em (fin_state f)).
Proof.
  split; [vm_compute; reflexivity|]. intros f Hf Hr.
  apply (proven_eof_complete library (all_ranks None TailProof) (behavior false) 20 f (Some (lit "tok")));
    [apply library_order|by apply others_ok_id|by left|exact Hf|exact Hr].
Defined.

(** An asset that never finds its master blocks the token of a sequential
    enumeration, but not the token of one with several ranges. *)
Definition orphaned : World := two_pages (pair_of "a1" "m1") [asset_rec (lit "orphan") (lit "gone")] (Some (lit "tok")).

Example unpaired_blocks_sequential_token :
  snd <$> photo_stream_with_token_inner_no_cross_zone 30 (λ _, orphaned) None (Some 2) 1 (FastEnumeration 1) false true = Some None.
Proof. vm_compute. reflexivity. Qed.

Example unpaired_keeps_parallel_token :
  let ws i := match i with O => orphaned | _ => two_pages [] [] (Some (lit "tok")) end in
  (λ r, (map (λ f, sent_names (em (fin_state f))) r.1, r.2)) <$>
    photo_stream_with_token_inner_no_cross_zone 30 ws None (Some 2) 1 (FastEnumeration 2) false true
  = Some ([[lit "a1"]; []; []], Some (lit "tok")).
Proof. vm_compute. reflexivity. Qed.

(** A caller's limit is respected, and the pass has no token. *)
Example limit_suppresses_token :
  (λ r, (map (λ f, sent_names (em (fin_state f))) r.1, r.2)) <$>
    photo_stream_with_token_inner_no_cross_zone 30 (λ _, library) (Some 1) None 100 (FastEnumeration 4) false true
  = Some ([[lit "a1"]], None).
Proof. vm_compute. reflexivity. Qed.
End Runs.

(** ** Where a fetcher stops

    The states of the loop of a fetcher are those its steps reach from the
    first one ([reads]).  A fetcher that reports the end of its range either
    reached the last rank or read five pages in a row that gave it nothing to
    send; what it sent are records of the pages it read.  And how many requests
    it makes. *)

Section End.
Context {JE : JsonEnv} (w : World) (rg : FetcherRange) (bh : FetcherBehavior).
Context (Hord : order_ok w) (Hoth : others_ok w (r_start rg)).
#[local] Arguments sent_names : simpl never.

Definition turn (s s' : FetcherState) : Prop := fetch_step w rg bh s = Continue s'.
(** The states at the head of the loop. *)
Definition reads (s : FetcherState) : Prop := rtc turn (fetcher_init (r_start rg)) s.

(** The end is proved: no rank is left, or the last five pages sent nothing. *)
Definition at_end (s : FetcherState) : Prop :=
  r_end rg <= offset s ∨
  ∃ s0, reads s0 ∧ Z.of_nat (posts s) = Z.of_nat (posts s0) + MAX_EMPTY_PAGE_PROBES ∧ seen s0 `prefix_of` seen s ∧
    sent_names (em s) = sent_names (em s0).

Definition names_of (recs : list CkRecord) (k : str) : Prop := ∃ r, r ∈ recs ∧ rec_name r = k.
Lemma names_of_app recs recs' k : names_of recs k → names_of (recs ++ recs') k.
Proof. intros (r & Hr & Hk). exists r. split; [apply elem_of_app; by left|done]. Qed.

(** ** A page *)

(** Of the records [recs], a page sends as many as it counts. *)
Definition sends (recs : list CkRecord) (e e' : Emit) : Prop :=
  ∃ l, sent_names e' = sent_names e ++ l ∧ zlen l = page_emitted e' - page_emitted e ∧ ∀ k, k ∈ l → names_of recs k.

Lemma sends_same recs e e' : sent_names e' = sent_names e → page_emitted e' = page_emitted e → sends recs e e'.
Proof. intros Hs Hp. exists []. rewrite app_nil_r. split_and!; [done|cbn; lia|by intros k ?%elem_of_nil]. Qed.
Lemma sends_refl recs e : sends recs e e.
Proof. by apply sends_same. Qed.
Lemma sends_trans recs e1 e2 e3 : sends recs e1 e2 → sends recs e2 e3 → sends recs e1 e3.
Proof.
  intros (l & E1 & L1 & N1) (l' & E2 & L2 & N2). exists (l ++ l'). rewrite E2, E1, app_assoc. split_and!; [done| |].
  - rewrite length_app. lia.
  - intros k [Hk|Hk]%elem_of_app; auto.
Qed.

Lemma emit_sibling_sends recs e m r sid : r ∈ recs → sends recs e (final fst (emit_sibling w rg e m r sid)).
Proof.
  intros Hr. destruct (emit_sibling_spec w rg e m r sid); cbn [final fst]; try (by apply sends_same).
  - exists [rec_name (sa_asset a)]. change (sent_names (count_sent ?x)) with (sent_names x).
    rewrite sent_names_push_asset. split_and!; [done|cbn; lia|]. intros k ->%list_elem_of_singleton. exists r. by rewrite Ha.
  - apply sends_same; [|done]. change (sent_names (set_malformed ?x)) with (sent_names x). by rewrite sent_names_push_error.
Qed.

Lemma page_sends recs tick mx s ms p e b :
  all_recs (λ r, r ∈ recs) (pending_assets (pg_buf s)) → all_recs (λ r, r ∈ recs) (pg_assets s) →
  masters_loop w rg tick mx s ms = Ok p →
  sends recs (pg_em s) (pg_em p) ∧ all_recs (λ r, r ∈ recs) (pending_assets (pg_buf p)) ∧
  (assets_loop w rg tick mx (pg_em p, pg_buf p) (w_order w tick (pg_assets p)) = Ok (e, b) →
   sends recs (pg_em s) e ∧ all_recs (λ r, r ∈ recs) (pending_assets b)).
Proof.
  intros Hp Hq Hm.
  destruct (masters_loop_walk w rg (sends recs) (λ r, r ∈ recs) (sends_refl recs) (sends_trans recs)
    (emit_sibling_sends recs) tick mx ms s Hp Hq) as [HR Hok].
  rewrite Hm in HR. destruct (Hok p Hm) as [Hp1 Hq1]. split_and!; [done..|]. intros Ha.
  destruct (assets_loop_walk w rg (sends recs) (λ r, r ∈ recs) (sends_refl recs) (sends_trans recs)
    (emit_sibling_sends recs) tick mx (w_order w tick (pg_assets p)) (pg_em p) (pg_buf p) Hp1)
    as [HR2 Hok2]; [by apply order_ok_all|].
  rewrite Ha in HR2. split; [by eapply sends_trans|by eapply Hok2].
Qed.

(** What is the same before and after a page, and what it may have sent. *)
Record paged (recs : list CkRecord) (s s' : FetcherState) : Prop := {
  paged_posts : posts s' = posts s;
  paged_seen : seen s' = seen s;
  paged_pending : all_recs (λ r, r ∈ recs) (pending_assets (buf s'));
  paged_sends : sends recs (em s) (em s');
}.

(** A page that ends the loop without an error or a limit was the fifth in a
    row that sent nothing. *)
Definition page_flow (recs : list CkRecord) (s : FetcherState) (f : Flow) : Prop :=
  match f with
  | Continue s' => paged recs s s' ∧ consecutive_empty_pages s' < MAX_EMPTY_PAGE_PROBES ∧
      ((consecutive_empty_pages s' = consecutive_empty_pages s + 1 ∧ sent_names (em s') = sent_names (em s)) ∨
       consecutive_empty_pages s' = 0)
  | Break s' => limit_reached (em s') = true ∨ enumeration_incomplete (em s') = true ∨
      (paged recs s s' ∧ MAX_EMPTY_PAGE_PROBES <= consecutive_empty_pages s + 1 ∧ sent_names (em s') = sent_names (em s))
  | Return _ _ => True
  end.

Lemma sends_none recs e e' : sends recs e e' → page_emitted e = 0 → page_emitted e' = 0 → sent_names e' = sent_names e.
Proof. intros (l & -> & Hl & _) H0 H1. destruct l; [by rewrite app_nil_r|cbn in Hl; lia]. Qed.

Lemma full_page_flow recs s q :
  all_recs (λ r, r ∈ recs) (pending_assets (buf s)) → (∀ r, r ∈ q_records q → r ∈ recs) → page_emitted (em s) = 0 →
  page_flow recs s (full_page w rg bh s q).
Proof.
  intros Hp Hq H0. unfold full_page.
  pose proof (classify_page_all (λ r, r ∈ recs) (q_records q) (proj2 (Forall_forall _ _) Hq)) as Hc.
  destruct (classify_page (q_records q)) as [pa pm]. cbn [fst] in Hc.
  destruct (masters_loop _ _ _ _ _ _) as [p|] eqn:Em; [|done].
  match type of Em with masters_loop _ _ _ _ ?s0 _ = _ => pose proof (λ e b, page_sends recs _ _ s0 _ _ e b Hp Hc Em) as Hpage end.
  destruct (limit_reached (pg_em p)) eqn:El; [by left|].
  destruct (assets_loop _ _ _ _ _ _) as [[e b]|] eqn:Ea; [|done].
  destruct (proj2 (proj2 (Hpage e b)) eq_refl) as [Hs2 Hb2]. cbn [pg_em] in Hs2.
  unfold end_page. cbn [em set_paging buf consecutive_empty_pages].
  destruct (limit_reached e) eqn:El2; [by left|]. destruct (max_pending_records bh <? _); [by right; left|].
  destruct (Z.eqb_spec (page_emitted e) 0) as [E|E]; cbn beta iota zeta; [|split; [by split|split; [done|by right]]].
  pose proof (sends_none _ _ _ Hs2 H0 E) as Hn.
  match goal with |- context [MAX_EMPTY_PAGE_PROBES <=? ?x] => destruct (Z.leb_spec MAX_EMPTY_PAGE_PROBES x) as [Hle|Hlt] end.
  - right; right. by split_and!; [split| |].
  - split; [by split|split; [done|by left]].
Qed.

Lemma empty_page_flow recs s :
  all_recs (λ r, r ∈ recs) (pending_assets (buf s)) → page_flow recs s (empty_page w rg bh s).
Proof.
  intros Hp. unfold empty_page. cbn beta iota zeta.
  match goal with |- context [MAX_EMPTY_PAGE_PROBES <=? ?x] => destruct (Z.leb_spec MAX_EMPTY_PAGE_PROBES x) as [Hle|Hlt] end.
  - destruct (_ && _ && _ && _); [by right; left|]. right; right. split_and!; [|done|done]. split; try done. apply sends_refl.
  - split; [split; try done; apply sends_refl|split; [done|by left]].
Qed.

(** ** The loop *)

Record head_ok (s : FetcherState) : Prop := {
  head_reads : reads s;
  head_empty : 0 <= consecutive_empty_pages s < MAX_EMPTY_PAGE_PROBES;
  head_pending : all_recs (λ r, r ∈ seen s) (pending_assets (buf s));
  head_names : ∀ k, k ∈ sent_names (em s) → names_of (seen s) k;
  head_quiet : ∃ s0, reads s0 ∧ Z.of_nat (posts s) = Z.of_nat (posts s0) + consecutive_empty_pages s ∧
    seen s0 `prefix_of` seen s ∧ sent_names (em s) = sent_names (em s0);
}.

Lemma head_ok_init : head_ok (fetcher_init (r_start rg)).
Proof.
  split; [apply rtc_refl|done|apply map_Forall_empty|by intros k ?%elem_of_nil|].
  exists (fetcher_init (r_start rg)). split_and!; [apply rtc_refl|done|done|done].
Qed.

(** A state after a page of a step from [s]. *)
Lemma page_flow_seen s q f :
  head_ok s → page_flow (seen s ++ q_records q) (observe_page (set_em s (use_channel (em s))) q) f →
  match f with
  | Continue s' => fetch_step w rg bh s = Continue s' → head_ok s'
  | Break s' => limit_reached (em s') = false → enumeration_incomplete (em s') = false →
      at_end s' ∧ (∀ k, k ∈ sent_names (em s') → names_of (seen s') k)
  | Return _ _ => True
  end.
Proof.
  intros [Hr He Hp Hn (s0 & Hr0 & Hp0 & Hs0 & Hn0)] Hf.
  destruct (observe_page_fields (set_em s (use_channel (em s))) q) as (_ & Hc & _ & Hpo & Hse).
  pose proof (observe_page_em (set_em s (use_channel (em s))) q) as Hem.
  set (o := observe_page _ q) in *. cbn in Hc, Hpo, Hse.
  assert (sent_names (em o) = sent_names (em s)) as Hso by (by rewrite Hem).
  assert (Hnames : ∀ s', paged (seen s ++ q_records q) o s' → ∀ k, k ∈ sent_names (em s') → names_of (seen s') k).
  { intros s' [_ Hs' _ (l & El & _ & Hl)] k. rewrite El, Hso, Hs', Hse. intros [Hk|Hk]%elem_of_app; [by apply names_of_app, Hn|by apply Hl]. }
  destruct f as [s'|s'|]; [..|done].
  - destruct Hf as (Hpg & Hlt & Hf). intros Hstep. pose proof (Hnames s' Hpg) as Hk. destruct Hpg as [P1 P2 P3 P4].
    rewrite Hpo in P1. rewrite Hse in P2. rewrite Hc in Hf.
    assert (reads s') as Hr' by (eapply rtc_r; [exact Hr|exact Hstep]).
    split; [done| |by rewrite P2|done|].
    + destruct Hf as [[Hf _]|Hf]; lia.
    + destruct Hf as [[Hc' Hsame]|Hc']; [|exists s'; split_and!; [done|lia|done|done]].
      exists s0. split_and!; [done|lia| |by rewrite Hsame, Hso]. rewrite P2. by apply prefix_app_r.
  - intros Hl Hi. destruct Hf as [?|[?|(Hpg & Hle & Hsame)]]; [congruence..|]. split; [|by apply Hnames].
    right. destruct Hpg as [P1 P2 _ _]. rewrite Hpo in P1. rewrite Hse in P2. rewrite Hc in Hle.
    exists s0. split_and!; [done|lia| |by rewrite Hsame, Hso]. rewrite P2. by apply prefix_app_r.
Qed.

Lemma fetch_step_head s : head_ok s →
  match fetch_step w rg bh s with
  | Continue s' => head_ok s'
  | Break s' => limit_reached (em s') = false → enumeration_incomplete (em s') = false →
      at_end s' ∧ (∀ k, k ∈ sent_names (em s') → names_of (seen s') k)
  | Return _ r => ∀ t, r <> Some (t, ProvenEof)
  end.
Proof.
  intros Hs. pose proof (λ q f, page_flow_seen s q f Hs) as Hpage. revert Hpage. unfold fetch_step.
  change (look_open w (em s)) with (use_channel (em s), w_open w (uses (em s))). cbn beta iota zeta.
  destruct (w_open w (uses (em s))); cbn [negb]; [|by intros _ t].
  set (s1 := set_em s (use_channel (em s))).
  destruct (Z.leb_spec (r_end rg) (offset s1)) as [Hend|Hend].
  { intros _ _ _. split; [by left|]. apply (head_names _ Hs). }
  destruct (w_fetch w (posts s1) (offset s1)) as [| |q]; [by intros _ t..|]. intros Hpage. specialize (Hpage q). fold s1 in Hpage.
  destruct (observe_page_fields s1 q) as (Hb & _).
  assert (Hp : all_recs (λ r, r ∈ seen s ++ q_records q) (pending_assets (buf (observe_page s1 q)))).
  { rewrite Hb. intros k l Hl. eapply Forall_impl; [by eapply (head_pending _ Hs)|]. intros r Hr. apply elem_of_app. by left. }
  destruct (q_records q) as [|r0 rs] eqn:Eq.
  - specialize (Hpage _ (empty_page_flow _ _ Hp)). destruct (empty_page _ _ _ _) as [s'|s'|] eqn:Ef; [by apply Hpage|done|].
    revert Ef. unfold empty_page. cbn beta iota zeta. by repeat case_match.
  - rewrite <- Eq in *. assert (Hq : ∀ r, r ∈ q_records q → r ∈ seen s ++ q_records q) by (intros; apply elem_of_app; by right).
    specialize (Hpage _ (full_page_flow _ _ q Hp Hq ltac:(by rewrite observe_page_em))).
    destruct (full_page _ _ _ _ _) as [s'|s'|s' r] eqn:Ef; [by apply Hpage|done|].
    revert Ef. unfold full_page, end_page. repeat case_match; intros [= <- <-]; by intros t.
Qed.

Lemma fetch_loop_head fuel s f :
  head_ok s → loop_inv rg s → fetch_loop fuel w rg bh s = Some f →
  (∃ s', f = finish w bh s' ∧ break_ok rg s' ∧ (limit_reached (em s') = false → enumeration_incomplete (em s') = false →
     at_end s' ∧ (∀ k, k ∈ sent_names (em s') → names_of (seen s') k))) ∨
  ∀ t, fin_report f <> Some (t, ProvenEof).
Proof.
  revert s; induction fuel as [|fuel IH]; intros s Hs Hl; [done|]. cbn [fetch_loop].
  pose proof (fetch_step_head s Hs) as H. pose proof (fetch_step_ok w rg bh Hord Hoth s Hl) as Hl'.
  destruct (fetch_step w rg bh s) as [s'|s'|s' r]; cbn [flow_ok] in Hl'; [by apply IH|..].
  - intros [= <-]. left. by exists s'.
  - intros [= <-]. by right.
Qed.

(** A fetcher that reports the end of its range read to the end, and sent
    nothing but records of the pages it read. *)
Lemma proven_eof_at_end fuel f t :
  spawn_fetcher fuel w rg bh = Some f → fin_report f = Some (t, ProvenEof) →
  r_limit rg = None ∨ r_role rg = LimitProbe →
  at_end (fin_state f) ∧ ∀ k, k ∈ sent_names (em (fin_state f)) → names_of (seen (fin_state f)) k.
Proof.
  intros Hf Hrep Hlim.
  assert (r_limit rg = None → limit_reached (em (fin_state f)) = false) as Hnl.
  { intros Hnone. revert Hf. apply (spawn_fetcher_inv w rg bh (λ e, limit_reached e = false)); try done.
    intros e m r sid He. destruct (emit_sibling_spec w rg e m r sid); cbn; congruence. }
  destruct (fetch_loop_head _ _ _ head_ok_init (loop_inv_init w rg Hord Hoth) Hf) as [(s & -> & [_ Hl] & Hend)|Hno]; [|by destruct (Hno t)].
  unfold finish in *. cbn [fin_state fin_report] in *. destruct (_ && _) eqn:Eu.
  { injection Hrep as _ Hrep. exfalso. revert Hrep.
    change (enumeration_incomplete (em (set_em s (send w (set_incomplete (em s)) (MError MUnpairedAtEnd)).1))) with true.
    by destruct (malformed_record _). }
  injection Hrep as _ Hrep.
  destruct (malformed_record (em s)); [done|]. destruct (enumeration_incomplete (em s)) eqn:Ei; [done|].
  destruct (stopped_for_limit s) eqn:Es; [done|]. apply Hend; [|done].
  destruct Hlim as [Hlim|Hlim]; [by apply Hnl|]. destruct (limit_reached (em s)); [|done].
  specialize (Hl eq_refl). by rewrite bool_decide_true in Hl.
Qed.
End End.

(** ** How many requests *)

Section Requests.
Context {JE : JsonEnv} (w : World) (rg : FetcherRange) (bh : FetcherBehavior).
Context (Hord : order_ok w).

Lemma step_posts s : (posts (flow_state (fetch_step w rg bh s)) <= S (posts s))%nat.
Proof.
  unfold fetch_step. change (look_open w (em s)) with (use_channel (em s), w_open w (uses (em s))). cbn beta iota zeta.
  destruct (w_open w (uses (em s))); cbn [negb]; [|cbn; lia]. set (s1 := set_em s (use_channel (em s))).
  destruct (r_end rg <=? offset s1); [cbn; lia|]. destruct (w_fetch w _ _) as [| |q]; [cbn; lia..|].
  destruct (observe_page_fields s1 q) as (_ & _ & _ & Hp & _).
  enough (posts (flow_state (match q_records q with [] => empty_page w rg bh (observe_page s1 q)
    | _ => full_page w rg bh (observe_page s1 q) q end)) = posts (observe_page s1 q)) as -> by (rewrite Hp; cbn; lia).
  generalize (observe_page s1 q). intros o. destruct (q_records q) eqn:Eq.
  - unfold empty_page. cbn beta iota zeta. by repeat case_match.
  - unfold full_page, end_page. rewrite Eq. by repeat case_match.
Qed.

(** A loop whose steps lower a measure of the head that stays positive makes
    at most that many requests. *)
Lemma loop_requests (I : FetcherState → Prop) (mu : FetcherState → Z) fuel s f :
  (∀ s, I s → 0 <= mu s) → (∀ s, I s → mu s = 0 → posts (flow_state (fetch_step w rg bh s)) = posts s) → (∀ s s', I s → fetch_step w rg bh s = Continue s' → I s' ∧ mu s' < mu s) →
  I s → fetch_loop fuel w rg bh s = Some f → Z.of_nat (posts (fin_state f)) <= Z.of_nat (posts s) + mu s.
Proof.
  intros Hpos Hzero Hstep. revert s; induction fuel as [|fuel IH]; intros s Hs; [done|]. cbn [fetch_loop].
  pose proof (step_posts s) as Hp. pose proof (Hpos _ Hs). pose proof (Hzero _ Hs) as Hz.
  destruct (fetch_step w rg bh s) as [s'|s'|s' r] eqn:E; cbn [flow_state] in Hp, Hz.
  - destruct (Hstep _ _ Hs E). intros Hf%IH; [lia|done].
  - intros [= <-].
    assert (posts (fin_state (finish w bh s')) = posts s') as ->; [|destruct (decide (mu s = 0)) as [E0|]; [rewrite Hz by done; lia|lia]].
    unfold finish. cbn [fin_state]. by destruct (_ && _).
  - intros [= <-]. cbn. destruct (decide (mu s = 0)) as [E0|]; [rewrite Hz by done; lia|lia].
Qed.

Lemma prover_requests (U : gset str) fuel f :
  (∀ n off q, w_fetch w n off = Page q → Forall (λ r, rec_name r ∈ U) (q_records q)) →
  r_role rg <> Data → spawn_fetcher fuel w rg bh = Some f →
  Z.of_nat (posts (fin_state f)) <= 5 * (Z.of_nat (size U) + 1).
Proof.
  intros HU Hr Hf. eapply (loop_requests (live U) (measure U)) in Hf; [..|by apply (live_init w)].
  - unfold measure in Hf. cbn in Hf. rewrite size_empty in Hf. lia.
  - intros s Hs. pose proof (live_empty _ _ Hs). pose proof (subseteq_size _ _ (live_names _ _ Hs)).
    unfold measure, MAX_EMPTY_PAGE_PROBES in *. lia.
  - intros s Hs. pose proof (live_empty _ _ Hs). pose proof (subseteq_size _ _ (live_names _ _ Hs)).
    unfold measure, MAX_EMPTY_PAGE_PROBES in *. lia.
  - intros s s' Hs. by apply (fetch_step_live w rg bh U Hord HU s s' Hr).
Qed.

Lemma data_requests L fuel f :
  (∀ n off q, w_fetch w n off = Page q → zlen (q_records q) <= L) →
  1 <= b_page_size bh → 0 <= r_start rg < r_end rg → r_end rg + Z.max L (b_page_size bh) <= U64_MAX → 0 <= L →
  spawn_fetcher fuel w rg bh = Some f → Z.of_nat (posts (fin_state f)) <= r_end rg - r_start rg.
Proof.
  intros HL Hps Hs Hend HL0 Hf.
  eapply (loop_requests (λ s, 0 <= offset s) (λ s, Z.max 0 (r_end rg - offset s))) in Hf; [cbn in Hf; lia|..|cbn; lia].
  - intros s _. lia.
  - intros s _ Hz. unfold fetch_step. change (look_open w (em s)) with (use_channel (em s), w_open w (uses (em s))). cbn beta iota zeta.
    destruct (w_open w (uses (em s))); cbn [negb]; [|done].
    by destruct (Z.leb_spec (r_end rg) (offset (set_em s (use_channel (em s))))) as [|Hlt]; [|cbn in Hlt; lia].
  - intros s s' Ho E. pose proof (fetch_step_offset _ _ _ _ _ _ HL Hps Ho Hend HL0 E).
    apply fetch_step_Continue in E as (_ & _ & ? & _). lia.
Qed.
End Requests.
