(* ===== verification/Delta.v ===== *)
(** * The change stream of a zone

    [DeltaRecordBuffer] of [src/icloud/photos/asset.rs] and the task of
    [changes_stream] in [src/icloud/photos/album.rs]: the records of
    [changes/zone] arrive in change-log order, the buffer pairs CPLMaster with
    CPLAsset records across pages and turns them into [ChangeEvent]s, and the
    task reports the sync token of the last page it consumed. *)
From S2P Require Import Prelude RustStr Types Paths Cloudkit.

(** What the decoding of names takes from its libraries: [Value::is_null],
    base64 with [String::from_utf8], and the order in which a hash map is
    drained. *)
Class DeltaEnv `{JsonEnv} := {
  is_null : Value → bool;
  base64_decode_utf8 : str → option str;
  drain : ∀ {A}, gmap str A → list (str * A);
  drain_all : ∀ {A} (m : gmap str A), drain m ≡ₚ map_to_list m;
}.

Section Delta.
Context `{DeltaEnv}.

(** ** Change events *)

Record AlbumContainerDelta := {
  acd_container_id : str;
  acd_album_name : str;
  acd_is_deleted : bool;
}.

Record AlbumRelationDelta := {
  ard_container_id : str;
  ard_asset_record_name : str;
  ard_is_deleted : bool;
}.

Record ChangeEvent := {
  ce_record_name : str;
  ce_record_type : option str;
  ce_master_record_name : option str;
  ce_reason : ChangeReason;
  ce_asset : option StreamAsset;
  ce_album : option AlbumContainerDelta;
  ce_relation : option AlbumRelationDelta;
  ce_token_unsafe_reason : option str;
}.

Definition ChangeEvent_new (record_name : str) (record_type : option str) (reason : ChangeReason) : ChangeEvent :=
  {| ce_record_name := record_name; ce_record_type := record_type; ce_master_record_name := None; ce_reason := reason;
     ce_asset := None; ce_album := None; ce_relation := None; ce_token_unsafe_reason := None |}.

Definition with_asset (e : ChangeEvent) (a : StreamAsset) : ChangeEvent :=
  {| ce_record_name := ce_record_name e; ce_record_type := ce_record_type e;
     ce_master_record_name := ce_master_record_name e; ce_reason := ce_reason e; ce_asset := Some a;
     ce_album := ce_album e; ce_relation := ce_relation e; ce_token_unsafe_reason := ce_token_unsafe_reason e |}.
Definition with_unsafe (e : ChangeEvent) (reason : str) : ChangeEvent :=
  {| ce_record_name := ce_record_name e; ce_record_type := ce_record_type e;
     ce_master_record_name := ce_master_record_name e; ce_reason := ce_reason e; ce_asset := ce_asset e;
     ce_album := ce_album e; ce_relation := ce_relation e; ce_token_unsafe_reason := Some reason |}.
Definition with_master (e : ChangeEvent) (m : str) : ChangeEvent :=
  {| ce_record_name := ce_record_name e; ce_record_type := ce_record_type e; ce_master_record_name := Some m;
     ce_reason := ce_reason e; ce_asset := ce_asset e; ce_album := ce_album e; ce_relation := ce_relation e;
     ce_token_unsafe_reason := ce_token_unsafe_reason e |}.
Definition with_album (e : ChangeEvent) (a : AlbumContainerDelta) : ChangeEvent :=
  {| ce_record_name := ce_record_name e; ce_record_type := ce_record_type e;
     ce_master_record_name := ce_master_record_name e; ce_reason := ce_reason e; ce_asset := ce_asset e;
     ce_album := Some a; ce_relation := ce_relation e; ce_token_unsafe_reason := ce_token_unsafe_reason e |}.
Definition with_relation (e : ChangeEvent) (r : AlbumRelationDelta) : ChangeEvent :=
  {| ce_record_name := ce_record_name e; ce_record_type := ce_record_type e;
     ce_master_record_name := ce_master_record_name e; ce_reason := ce_reason e; ce_asset := ce_asset e;
     ce_album := ce_album e; ce_relation := Some r; ce_token_unsafe_reason := ce_token_unsafe_reason e |}.

Definition MALFORMED_REQUIRED_ASSET_FIELDS_REASON : str := lit "malformed_required_asset_fields".

Definition flag_is_one (r : CkRecord) (name : str) : bool :=
  bool_decide (get2 (fields r) name (lit "value") ≫= as_i64 = Some 1).

Definition classify_change_reason (r : CkRecord) : ChangeReason :=
  if bool_decide (deleted r = Some true) then HardDeleted
  else if flag_is_one r (lit "isDeleted") then SoftDeleted
  else if flag_is_one r (lit "isHidden") then Hidden
  else Created.

(** ** Albums and album relations *)

Definition field_value_str (v : Value) (name : str) : option str := get2 v name (lit "value") ≫= as_str.

Definition decode_string (v : Value) (key : str) : option str :=
  entry ← get v key;
  if is_null entry then None
  else
    value ← get entry (lit "value") ≫= as_str;
    let enc_type := default (lit "ENCRYPTED_BYTES") (get entry (lit "type") ≫= as_str) in
    if str_eqb enc_type (lit "STRING") then Some value
    else if str_eqb enc_type (lit "ENCRYPTED_BYTES") then base64_decode_utf8 value
    else None.

Definition deletes (reason : ChangeReason) : bool :=
  match reason with HardDeleted | SoftDeleted => true | Hidden | Created => false end.

Definition parse_album_delta (r : CkRecord) (reason : ChangeReason) : ChangeEvent :=
  let album_name := default (rec_name r)
    (match decode_string (fields r) (lit "albumNameEnc") with
     | Some n => Some n
     | None => field_value_str (fields r) (lit "albumName")
     end) in
  with_album (ChangeEvent_new (rec_name r) (Some (rec_type r)) reason)
    {| acd_container_id := rec_name r; acd_album_name := sanitize_path_component album_name;
       acd_is_deleted := deletes reason |}.

(** [s.rsplit_once("-IN-")]: at the last occurrence. *)
Fixpoint rsplit_in (s : str) : option (str * str) :=
  match s with
  | [] => None
  | c :: rest =>
      match rsplit_in rest with
      | Some (a, b) => Some (c :: a, b)
      | None => if bool_decide (take 4 s = lit "-IN-") then Some ([], drop 4 s) else None
      end
  end.

Definition parse_relation_record_name (record_name : str) : option (str * str) :=
  match rsplit_in record_name with
  | Some (asset, container) => if str_eqb asset [] || str_eqb container [] then None else Some (asset, container)
  | None => None
  end.

Definition UNPARSABLE_RELATION : str := lit "unparsable_relation_delta".

Definition parse_relation_delta (r : CkRecord) (reason : ChangeReason) : ChangeEvent :=
  let parsed :=
    if deletes reason then (λ p, (snd p, fst p)) <$> parse_relation_record_name (rec_name r)
    else
      match field_value_str (fields r) (lit "containerId"), field_value_str (fields r) (lit "itemId") with
      | Some container, Some item => Some (container, item)
      | _, _ => None
      end in
  let event := ChangeEvent_new (rec_name r) (Some (lit "CPLContainerRelation")) reason in
  match parsed with
  | Some (container_id, asset_record_name) =>
      with_relation event
        {| ard_container_id := container_id; ard_asset_record_name := asset_record_name; ard_is_deleted := deletes reason |}
  | None => with_unsafe event UNPARSABLE_RELATION
  end.

(** ** The buffer *)

Record DeltaRecordBuffer := {
  pending_masters : gmap str CkRecord;
  pending_assets : gmap str (list CkRecord);
  paired_masters : gmap str CkRecord;
}.

Definition DeltaRecordBuffer_new : DeltaRecordBuffer :=
  {| pending_masters := ∅; pending_assets := ∅; paired_masters := ∅ |}.

Definition severity (r : ChangeReason) : Z :=
  match r with HardDeleted => 3 | SoftDeleted => 2 | Hidden => 1 | Created => 0 end.
Definition reconcile_reasons (a b : ChangeReason) : ChangeReason := if severity b <=? severity a then a else b.

Definition emit_paired (master asset : CkRecord) (reason : ChangeReason) (use_asset_state_id : bool) : ChangeEvent :=
  let required := match reason with Created => Downloadable | _ => Identity end in
  let event := ChangeEvent_new (rec_name master) (Some (lit "CPLMaster")) reason in
  match try_from_records master asset required with
  | Err _ => with_unsafe event MALFORMED_REQUIRED_ASSET_FIELDS_REASON
  | Ok a => with_asset event (if use_asset_state_id then with_state_record_name a (rec_name asset) else a)
  end.

Definition emit_paired_group (master : CkRecord) (assets : list CkRecord) (master_reason : ChangeReason) : list ChangeEvent :=
  imap (λ index asset, emit_paired master asset (reconcile_reasons master_reason (classify_change_reason asset))
          (bool_decide (1 < length assets)%nat && bool_decide (0 < index)%nat)) assets.

Definition process_master (b : DeltaRecordBuffer) (r : CkRecord) (reason : ChangeReason) :
    DeltaRecordBuffer * list ChangeEvent :=
  match pending_assets b !! rec_name r with
  | Some assets =>
      ({| pending_masters := pending_masters b; pending_assets := delete (rec_name r) (pending_assets b);
          paired_masters := <[rec_name r := r]> (paired_masters b) |}, emit_paired_group r assets reason)
  | None =>
      ({| pending_masters := <[rec_name r := r]> (pending_masters b); pending_assets := pending_assets b;
          paired_masters := paired_masters b |}, [])
  end.

Definition process_asset (b : DeltaRecordBuffer) (r : CkRecord) (reason : ChangeReason) :
    DeltaRecordBuffer * list ChangeEvent :=
  match master_ref r with
  | None => (b, [ChangeEvent_new (rec_name r) (Some (lit "CPLAsset")) reason])
  | Some m =>
      match pending_masters b !! m with
      | Some master =>
          ({| pending_masters := delete m (pending_masters b); pending_assets := pending_assets b;
              paired_masters := <[m := master]> (paired_masters b) |},
           [emit_paired master r (reconcile_reasons (classify_change_reason master) reason) false])
      | None =>
          match paired_masters b !! m with
          | Some master => (b, [emit_paired master r (reconcile_reasons (classify_change_reason master) reason) true])
          | None =>
              ({| pending_masters := pending_masters b;
                  pending_assets := <[m := default [] (pending_assets b !! m) ++ [r]]> (pending_assets b);
                  paired_masters := paired_masters b |}, [])
          end
      end
  end.

Definition has_type (r : CkRecord) (t : string) : bool := str_eqb (rec_type r) (lit t).

(** The body of the loop of [process_records]. *)
Definition process_record (b : DeltaRecordBuffer) (r : CkRecord) : DeltaRecordBuffer * list ChangeEvent :=
  let reason := classify_change_reason r in
  if is_blank (rec_name r) then
    (b, [with_unsafe (ChangeEvent_new (rec_name r) (if str_eqb (rec_type r) [] then None else Some (rec_type r)) reason)
           MALFORMED_REQUIRED_ASSET_FIELDS_REASON])
  else
    match reason with
    | HardDeleted =>
        (b, [if has_type r "CPLContainerRelation" then parse_relation_delta r reason
             else if has_type r "CPLAlbum" then parse_album_delta r reason
             else match parse_relation_record_name (rec_name r) with
                  | Some _ => parse_relation_delta r reason
                  | None => ChangeEvent_new (rec_name r) None reason
                  end])
    | _ =>
        if has_type r "CPLMaster" then process_master b r reason
        else if has_type r "CPLAsset" then process_asset b r reason
        else if has_type r "CPLAlbum" then (b, [parse_album_delta r reason])
        else if has_type r "CPLContainerRelation" then (b, [parse_relation_delta r reason])
        else (b, [])
    end.

Fixpoint process_records (b : DeltaRecordBuffer) (records : list CkRecord) : DeltaRecordBuffer * list ChangeEvent :=
  match records with
  | [] => (b, [])
  | r :: records =>
      let '(b, events) := process_record b r in
      let '(b, more) := process_records b records in
      (b, events ++ more)
  end.

Definition flush_master (kv : str * CkRecord) : ChangeEvent :=
  ChangeEvent_new kv.1 (Some (lit "CPLMaster")) (classify_change_reason kv.2).
Definition flush_asset (m : str) (r : CkRecord) : ChangeEvent :=
  with_master (ChangeEvent_new (rec_name r) (Some (lit "CPLAsset")) (classify_change_reason r)) m.

(** Both maps are drained. *)
Definition flush (b : DeltaRecordBuffer) : DeltaRecordBuffer * list ChangeEvent :=
  ({| pending_masters := ∅; pending_assets := ∅; paired_masters := paired_masters b |},
   map flush_master (drain (pending_masters b))
   ++ drain (pending_assets b) ≫= λ kv, map (flush_asset kv.1) kv.2).

(** ** The task of [changes_stream] *)

Inductive SyncTokenError :=
| InvalidToken (reason : str)
| ZoneNotFound (zone_name : str)
| UnexpectedZoneError (zone_name error_code : str).

Definition should_fallback_to_full (e : SyncTokenError) : bool :=
  match e with InvalidToken _ | ZoneNotFound _ => true | UnexpectedZoneError _ _ => false end.

Definition check_changes_zone_error (server_error_code reason : option str) (zone_name : str) : result SyncTokenError unit :=
  match server_error_code with
  | Some code =>
      if str_eqb code (lit "BAD_REQUEST") then Err (InvalidToken (default (lit "Unknown sync continuation type") reason))
      else if str_eqb code (lit "ZONE_NOT_FOUND") then Err (ZoneNotFound zone_name)
      else Err (UnexpectedZoneError zone_name code)
  | None => Ok tt
  end.

Record ChangesZoneResult := {
  z_zone_name : str;
  z_sync_token : str;
  z_more_coming : bool;
  z_records : list CkRecord;
  z_server_error_code : option str;
  z_reason : option str;
}.

(** What ends the stream early: the request or its body, a response without
    zones, an error of the zone. *)
Inductive StreamError := RequestFailed | NoZones | ZoneError (e : SyncTokenError).

(** The outcome of one request: the zones of the response. *)
Definition Response : Type := result unit (list ChangesZoneResult).

Definition read_response (r : Response) : result StreamError ChangesZoneResult :=
  match r with
  | Err _ => Err RequestFailed
  | Ok [] => Err NoZones
  | Ok (z :: _) =>
      match check_changes_zone_error (z_server_error_code z) (z_reason z) (z_zone_name z) with
      | Err e => Err (ZoneError e)
      | Ok _ => Ok z
      end
  end.

(** What the receiver gets: the events it accepted, the error if one was
    sent, and the token of the oneshot channel. *)
Record StreamOutcome := {
  so_events : list ChangeEvent;
  so_error : option StreamError;
  so_token : str;
}.

(** [capacity]: how many more events the receiver accepts, [None] when it
    stays to the end. *)
Definition send_all (capacity : option nat) (events : list ChangeEvent) : list ChangeEvent * option (option nat) :=
  match capacity with
  | None => (events, Some None)
  | Some n => if bool_decide (length events <= n)%nat then (events, Some (Some (n - length events)%nat)) else (take n events, None)
  end.

Definition finish_changes (b : DeltaRecordBuffer) (capacity : option nat) (sent : list ChangeEvent) (token : str)
    (err : option StreamError) : StreamOutcome :=
  let '(_, flushed) := flush b in
  let '(accepted, capacity) := send_all capacity flushed in
  {| so_events := sent ++ accepted; so_token := token;
     so_error := match capacity with
       | None => None
       | Some capacity =>
           match capacity, err with
           | Some O, _ => None
           | _, err => err
           end
       end |}.

(** The request loop over the provider's answers, [None] while the next one
    is outstanding. *)
Fixpoint changes_loop (responses : list Response) (b : DeltaRecordBuffer) (capacity : option nat) (sent : list ChangeEvent)
    (token : str) : option StreamOutcome :=
  match responses with
  | [] => None
  | r :: responses =>
      match read_response r with
      | Err e => Some (finish_changes b capacity sent token (Some e))
      | Ok z =>
          let token := z_sync_token z in
          let '(b, events) := process_records b (z_records z) in
          let '(accepted, capacity) := send_all capacity events in
          match capacity with
          | None => Some {| so_events := sent ++ accepted; so_error := None; so_token := token |}
          | Some capacity =>
              if z_more_coming z then changes_loop responses b capacity (sent ++ accepted) token
              else Some (finish_changes b capacity (sent ++ accepted) token None)
          end
      end
  end.

Definition changes_stream (responses : list Response) (capacity : option nat) (sync_token : str) : option StreamOutcome :=
  changes_loop responses DeltaRecordBuffer_new capacity [] sync_token.
End Delta.
