(* ===== verification/DeltaSpec.v ===== *)
(** * What the change stream promises

    Theorems about [Delta.v]: the buffer accounts for every asset record of
    the change log, whatever the order and the page boundaries, and the token
    of a stream read to its end covers exactly the pages whose records were
    reported. *)
From S2P Require Import Prelude RustStr Types Paths Cloudkit Delta.

Section DeltaLaws.
Context `{DeltaEnv}.

(** ** What a record must lead to *)

(** Records of the log that the buffer pairs. *)
Definition paired_kind (t : string) (r : CkRecord) : bool :=
  negb (is_blank (rec_name r)) && negb (bool_decide (classify_change_reason r = HardDeleted)) && has_type r t.
Abbreviation is_master := (paired_kind "CPLMaster").
Abbreviation is_asset := (paired_kind "CPLAsset").

(** The event of an asset record: alone when it names no master, else paired
    with a master record of that name. *)
Inductive paired_report (rs : list CkRecord) (a : CkRecord) : ChangeEvent → Prop :=
| pr_alone : master_ref a = None →
    paired_report rs a (ChangeEvent_new (rec_name a) (Some (lit "CPLAsset")) (classify_change_reason a))
| pr_pair master own : master ∈ rs → is_master master = true → master_ref a = Some (rec_name master) →
    paired_report rs a
      (emit_paired master a (reconcile_reasons (classify_change_reason master) (classify_change_reason a)) own).

(** An asset whose master never came is reported with the name it refers to. *)
Inductive reports (rs : list CkRecord) (a : CkRecord) : ChangeEvent → Prop :=
| rep_paired e : paired_report rs a e → reports rs a e
| rep_orphan m : master_ref a = Some m → (∀ master, master ∈ rs → is_master master = true → rec_name master <> m) →
    reports rs a (flush_asset m a).

Lemma paired_report_mono rs rs' a e : rs ⊆ rs' → paired_report rs a e → paired_report rs' a e.
Proof. intros Hs [Hr|master own Hin Hm Hr]; econstructor; eauto. Qed.

(** ** The accounts of the buffer *)

Definition waiting (b : DeltaRecordBuffer) : list CkRecord := map_to_list (pending_assets b) ≫= snd.

Definition accounted (rs : list CkRecord) (b : DeltaRecordBuffer) (evs : list ChangeEvent) : Prop :=
  ∃ srcs es others, evs ≡ₚ es ++ others ∧ srcs ++ waiting b ≡ₚ List.filter is_asset rs
    ∧ Forall2 (paired_report rs) srcs es ∧ Forall (λ e, ce_asset e = None) others.

Record buffer_ok (rs : list CkRecord) (b : DeltaRecordBuffer) : Prop := {
  bo_masters m master : pending_masters b !! m = Some master ∨ paired_masters b !! m = Some master →
    rec_name master = m ∧ master ∈ rs ∧ is_master master = true;
  bo_known master : master ∈ rs → is_master master = true →
    is_Some (pending_masters b !! rec_name master) ∨ is_Some (paired_masters b !! rec_name master);
  bo_waiting m l : pending_assets b !! m = Some l →
    Forall (λ a, master_ref a = Some m) l ∧ pending_masters b !! m = None ∧ paired_masters b !! m = None;
}.

Lemma accounted_step rs r b b' evs new :
  accounted rs b evs →
  (∃ srcs es others, new = es ++ others ∧ srcs ++ waiting b' ≡ₚ (if is_asset r then [r] else []) ++ waiting b
     ∧ Forall2 (paired_report (rs ++ [r])) srcs es ∧ Forall (λ e, ce_asset e = None) others) →
  accounted (rs ++ [r]) b' (evs ++ new).
Proof.
  intros (srcs & es & others & He & Hs & Hf & Ho) (srcs' & es' & others' & -> & Hs' & Hf' & Ho').
  exists (srcs ++ srcs'), (es ++ es'), (others ++ others'). split_and!.
  - rewrite He. by solve_Permutation.
  - rewrite <- app_assoc, Hs', List.filter_app. cbn. rewrite <- Hs.
    destruct (is_asset r); cbn; by solve_Permutation.
  - apply Forall2_app; [|done]. eapply Forall2_impl; [exact Hf|]. intros a e. apply paired_report_mono. set_solver.
  - by apply Forall_app.
Qed.

(** A record the buffer does not keep, with at most one event of its own. *)
Lemma accounted_other rs r b evs new : accounted rs b evs → is_asset r = false → Forall (λ e, ce_asset e = None) new →
  accounted (rs ++ [r]) b (evs ++ new).
Proof.
  intros Ha Hr Hn. eapply accounted_step; [done|]. exists [], [], new. rewrite Hr. by split_and!.
Qed.

Lemma accounted_asset rs r b b' evs e : accounted rs b evs → waiting b' = waiting b → is_asset r = true →
  paired_report (rs ++ [r]) r e → accounted (rs ++ [r]) b' (evs ++ [e]).
Proof.
  intros Ha Hw Hr He. eapply accounted_step; [done|]. exists [r], [e], []. rewrite Hr, Hw. split_and!; auto.
Qed.

Lemma ok_same_masters rs r b : buffer_ok rs b → is_master r = false → buffer_ok (rs ++ [r]) b.
Proof.
  intros [Hm Hk Hw] Hr. split; [| |done].
  - intros m master Hl. destruct (Hm m master Hl) as (? & ? & ?). split_and!; [done|set_solver|done].
  - intros master [Hin| ->%list_elem_of_singleton]%elem_of_app; [by apply Hk|congruence].
Qed.

Lemma master_not_asset r : is_master r = true → is_asset r = false.
Proof.
  unfold paired_kind, has_type, str_eqb. intros [_ Ht]%andb_true_iff. apply bool_decide_eq_true in Ht. rewrite Ht.
  by rewrite andb_false_r.
Qed.

Lemma waiting_delete b m l pm ps : pending_assets b !! m = Some l →
  l ++ waiting {| pending_masters := pm; pending_assets := delete m (pending_assets b); paired_masters := ps |} ≡ₚ waiting b.
Proof.
  intros E. unfold waiting. cbn. rewrite <- (map_to_list_delete (pending_assets b) m l E). done.
Qed.

Lemma group_reports rs master assets : master ∈ rs → is_master master = true →
  Forall (λ a, master_ref a = Some (rec_name master)) assets →
  Forall2 (paired_report rs) assets (emit_paired_group master assets (classify_change_reason master)).
Proof.
  intros Hin Hm Ha. unfold emit_paired_group. apply Forall2_same_length_lookup. split; [by rewrite length_imap|].
  intros i a e Hi He. rewrite list_lookup_imap, Hi in He. cbn in He. injection He as <-.
  rewrite Forall_lookup in Ha. by constructor; eauto.
Qed.

Lemma process_master_ok rs b r evs : buffer_ok rs b → accounted rs b evs → is_master r = true →
  let '(b', new) := process_master b r (classify_change_reason r) in
  buffer_ok (rs ++ [r]) b' ∧ accounted (rs ++ [r]) b' (evs ++ new).
Proof.
  intros [Hm Hk Hw] Ha Hr. unfold process_master. destruct (pending_assets b !! rec_name r) as [assets|] eqn:E.
  - destruct (Hw _ _ E) as (Hl & Hn1 & Hn2). split.
    + split; cbn.
      * intros m master. rewrite lookup_insert_Some. intros [Hp|[[<- <-]|[_ Hp]]]; [|split_and!; [done|set_solver|done]|];
          (destruct (Hm m master) as (? & ? & ?); [eauto|]; split_and!; [done|set_solver|done]).
      * intros master [Hin| ->%list_elem_of_singleton]%elem_of_app Hmm; [|right; by rewrite lookup_insert_eq].
        destruct (Hk master Hin Hmm) as [Hs|Hs]; [by left|right].
        destruct (decide (rec_name r = rec_name master)) as [->|]; [by rewrite lookup_insert_eq|by rewrite lookup_insert_ne].
      * intros m l [Hne Hp]%lookup_delete_Some. rewrite lookup_insert_ne by done. by apply Hw.
    + eapply accounted_step; [done|]. exists assets, (emit_paired_group r assets (classify_change_reason r)), [].
      rewrite (master_not_asset r Hr). split_and!; [by rewrite app_nil_r|by apply waiting_delete| |done].
      apply group_reports; [set_solver|done|done].
  - split.
    + split; cbn.
      * intros m master. rewrite lookup_insert_Some. intros [[[<- <-]|[_ Hp]]|Hp]; [split_and!; [done|set_solver|done]| |];
          (destruct (Hm m master) as (? & ? & ?); [eauto|]; split_and!; [done|set_solver|done]).
      * intros master [Hin| ->%list_elem_of_singleton]%elem_of_app Hmm; [|left; by rewrite lookup_insert_eq].
        destruct (Hk master Hin Hmm) as [Hs|Hs]; [left|by right].
        destruct (decide (rec_name r = rec_name master)) as [->|]; [by rewrite lookup_insert_eq|by rewrite lookup_insert_ne].
      * intros m l Hp. destruct (Hw m l Hp) as (? & ? & ?). split_and!; [done| |done].
        rewrite lookup_insert_ne; [done|]. intros <-. congruence.
    + eapply accounted_step; [done|]. exists [], [], []. by rewrite (master_not_asset r Hr).
Qed.

Lemma process_asset_ok rs b r evs : buffer_ok rs b → accounted rs b evs → is_asset r = true →
  let '(b', new) := process_asset b r (classify_change_reason r) in
  buffer_ok (rs ++ [r]) b' ∧ accounted (rs ++ [r]) b' (evs ++ new).
Proof.
  intros Hb Ha Hr. assert (is_master r = false) as Hnm.
  { destruct (is_master r) eqn:E; [|done]. apply master_not_asset in E. congruence. }
  pose proof (ok_same_masters rs r b Hb Hnm) as Hb'. destruct Hb as [Hm Hk Hw].
  unfold process_asset. destruct (master_ref r) as [m|] eqn:Er.
  2: { split; [done|]. by apply (accounted_asset rs r b b); [| | |constructor]. }
  destruct (pending_masters b !! m) as [master|] eqn:Ep.
  - destruct (Hm m master) as (<- & Hin & Hmm); [by left|]. split.
    + destruct Hb' as [Hm' Hk' Hw']. split; cbn.
      * intros m' master'. rewrite lookup_delete_Some, lookup_insert_Some.
        intros [[_ Hp]|[[<- <-]|[_ Hp]]]; [|split_and!; [done|set_solver|done]|]; apply Hm'; eauto.
      * intros master' Hin' Hmm'. destruct (decide (rec_name master = rec_name master')) as [->|Hne].
        { right. by rewrite lookup_insert_eq. }
        rewrite lookup_delete_ne, lookup_insert_ne by done. by apply Hk'.
      * intros m' l Hp. destruct (Hw' m' l Hp) as (? & Hn1 & ?).
        assert (rec_name master <> m') as Hne by (intros <-; congruence).
        split_and!; [done|by rewrite lookup_delete_ne|by rewrite lookup_insert_ne].
    + eapply accounted_asset; [done|done|done|]. constructor; [set_solver|done|done].
  - destruct (paired_masters b !! m) as [master|] eqn:Eq.
    + destruct (Hm m master) as (<- & Hin & Hmm); [by right|]. split; [done|].
      eapply accounted_asset; [done|done|done|]. constructor; [set_solver|done|done].
    + split.
      * destruct Hb' as [Hm' Hk' Hw']. split; cbn; [done|done|].
        intros m' l. rewrite lookup_insert_Some. intros [[<- <-]|[_ Hp]]; [|by apply Hw'].
        split_and!; [|done|done]. apply Forall_app. split; [|by repeat constructor].
        destruct (pending_assets b !! m) as [l|] eqn:E; [|constructor]. by destruct (Hw m l E).
      * eapply accounted_step; [done|]. exists [], [], []. rewrite Hr. split_and!; [done| |constructor|constructor].
        unfold waiting. cbn. destruct (pending_assets b !! m) as [l|] eqn:E.
        -- rewrite <- insert_delete_eq, map_to_list_insert by apply lookup_delete_eq.
           rewrite <- (map_to_list_delete (pending_assets b) m l E). cbn. by solve_Permutation.
        -- rewrite map_to_list_insert by done. done.
Qed.

Lemma parse_relation_no_asset r reason : ce_asset (parse_relation_delta r reason) = None.
Proof. unfold parse_relation_delta. by repeat case_match. Qed.

(** Every other record leaves the buffer alone and gives no asset. *)
Lemma process_record_other b r : is_master r = false → is_asset r = false →
  ∃ new, process_record b r = (b, new) ∧ Forall (λ e, ce_asset e = None) new.
Proof.
  unfold paired_kind, process_record. intros Hm Ha. destruct (is_blank (rec_name r)); [eexists; by repeat constructor|].
  destruct (classify_change_reason r);
    try (rewrite bool_decide_false in Hm, Ha by done; cbn in Hm, Ha; rewrite Hm, Ha;
         repeat case_match; eexists; (split; [done|]); repeat constructor; by apply parse_relation_no_asset).
  eexists. split; [done|]. constructor; [|constructor]. repeat case_match; try done; apply parse_relation_no_asset.
Qed.

Lemma process_record_ok rs b r evs : buffer_ok rs b → accounted rs b evs →
  let '(b', new) := process_record b r in buffer_ok (rs ++ [r]) b' ∧ accounted (rs ++ [r]) b' (evs ++ new).
Proof.
  intros Hb Ha. destruct (is_master r) eqn:Em; [|destruct (is_asset r) eqn:Ea].
  - pose proof (process_master_ok rs b r evs Hb Ha Em) as Hp. unfold paired_kind in Em.
    apply andb_true_iff in Em as [[Hn Hr]%andb_true_iff Ht]. apply negb_true_iff in Hn, Hr. apply bool_decide_eq_false in Hr.
    unfold process_record. rewrite Hn, Ht. by destruct (classify_change_reason r).
  - pose proof (process_asset_ok rs b r evs Hb Ha Ea) as Hp.
    unfold paired_kind in Em, Ea. apply andb_true_iff in Ea as [Hnr Ht]. rewrite Hnr in Em. cbn in Em.
    apply andb_true_iff in Hnr as [Hn Hr]. apply negb_true_iff in Hn, Hr. apply bool_decide_eq_false in Hr.
    unfold process_record. rewrite Hn, Em, Ht. by destruct (classify_change_reason r).
  - destruct (process_record_other b r Em Ea) as (new & -> & Hn). split; [by apply ok_same_masters|by apply accounted_other].
Qed.

Lemma process_records_ok records rs b evs : buffer_ok rs b → accounted rs b evs →
  let '(b', new) := process_records b records in buffer_ok (rs ++ records) b' ∧ accounted (rs ++ records) b' (evs ++ new).
Proof.
  revert rs b evs. induction records as [|r records IH]; intros rs b evs Hb Ha; cbn; [by rewrite !app_nil_r|].
  pose proof (process_record_ok rs b r evs Hb Ha) as Hr. destruct (process_record b r) as [b1 new]. destruct Hr as [Hb1 Ha1].
  specialize (IH _ _ _ Hb1 Ha1). destruct (process_records b1 records) as [b2 more].
  by rewrite <- !app_assoc in IH.
Qed.

Lemma process_records_app b l1 l2 :
  process_records b (l1 ++ l2) =
    (let '(b1, e1) := process_records b l1 in let '(b2, e2) := process_records b1 l2 in (b2, e1 ++ e2)).
Proof.
  revert b. induction l1 as [|r l1 IH]; intros b; cbn; [by destruct (process_records b l2)|].
  destruct (process_record b r) as [b1 e1]. rewrite IH. destruct (process_records b1 l1) as [b2 e2].
  destruct (process_records b2 l2) as [b3 e3]. by rewrite app_assoc.
Qed.

Lemma new_ok : buffer_ok [] DeltaRecordBuffer_new ∧ accounted [] DeltaRecordBuffer_new [].
Proof.
  split; [split; cbn|].
  - intros m master. rewrite !lookup_empty. by intros [].
  - intros master []%elem_of_nil.
  - intros m l. by rewrite lookup_empty.
  - exists [], [], []. unfold waiting. cbn. rewrite map_to_list_empty. by split_and!.
Qed.

(** Reading a whole log: its pages, then the flush. *)
Definition read_log (records : list CkRecord) : list ChangeEvent :=
  let '(b, events) := process_records DeltaRecordBuffer_new records in events ++ (flush b).2.

Lemma flush_reports rs b : buffer_ok rs b → ∃ es others, (flush b).2 ≡ₚ es ++ others
  ∧ Forall2 (reports rs) (waiting b) es ∧ Forall (λ e, ce_asset e = None) others.
Proof.
  intros [Hm Hk Hw]. exists (map_to_list (pending_assets b) ≫= λ kv, map (flush_asset kv.1) kv.2),
    (map flush_master (drain (pending_masters b))). split_and!.
  - unfold flush. cbn. rewrite (Permutation_app_comm (map _ _)). by rewrite (drain_all (pending_assets b)).
  - unfold waiting. assert (∀ m l, (m, l) ∈ map_to_list (pending_assets b) →
      Forall (λ a, master_ref a = Some m) l ∧ pending_masters b !! m = None ∧ paired_masters b !! m = None) as Hall.
    { intros m l Hin%elem_of_map_to_list. by apply Hw. }
    induction (map_to_list (pending_assets b)) as [|[m l] kvs IH]; [constructor|]. cbn. apply Forall2_app.
    + destruct (Hall m l) as (Hl & Hn1 & Hn2); [by left|]. induction Hl as [|a l Ha Hl IHl]; [constructor|].
      cbn. constructor; [|apply IHl; intros m' l' [[= -> ->]|Hin]%elem_of_cons; [|by apply Hall; right]; done].
      constructor; [done|]. intros master Hin Hmm Hname. destruct (Hk master Hin Hmm) as [[? Hs]|[? Hs]]; rewrite Hname in Hs; congruence.
    + apply IH. intros m' l' Hin. apply Hall. by right.
  - apply Forall_map, Forall_true. done.
Qed.

(** The change buffer loses and invents nothing: reading a log of records
    in any order and flushing at the end, the events fall into one event for
    each asset record that is neither purged nor nameless, and events that
    carry no asset. *)
Lemma read_log_reports records : ∃ es others, read_log records ≡ₚ es ++ others
  ∧ Forall2 (reports records) (List.filter is_asset records) es ∧ Forall (λ e, ce_asset e = None) others.
Proof.
  unfold read_log. destruct new_ok as [Hb Ha]. pose proof (process_records_ok records [] _ _ Hb Ha) as Hp.
  destruct (process_records _ records) as [b events]. destruct Hp as [Hb' (srcs & es & others & He & Hs & Hf & Ho)].
  destruct (flush_reports _ _ Hb') as (es' & others' & He' & Hf' & Ho').
  assert (Forall2 (reports records) (srcs ++ waiting b) (es ++ es')) as Hall.
  { apply Forall2_app; [|exact Hf']. eapply Forall2_impl; [exact Hf|]. intros a e. by constructor. }
  destruct (Permutation_Forall2 Hs Hall) as (es'' & Hp & Hall').
  exists es'', (others ++ others'). split_and!; [|done|by apply Forall_app].
  rewrite <- Hp, He'. cbn in He. rewrite He. by solve_Permutation.
Qed.

(** ** The stream *)

Definition log_of (pages : list ChangesZoneResult) : list CkRecord := pages ≫= z_records.

(** The pages before the stream ended, its token and its error. *)
Definition ends_after (responses : list Response) (pages : list ChangesZoneResult) (t0 : str) (o : StreamOutcome) : Prop :=
  read_response <$> take (length pages) responses = Ok <$> pages
  ∧ Forall (λ z, z_more_coming z = true) (removelast pages)
  ∧ so_token o = default t0 (z_sync_token <$> last pages)
  ∧ match so_error o with
    | Some e => (λ r, read_response r) <$> responses !! length pages = Some (Err e)
        ∧ Forall (λ z, z_more_coming z = true) pages
    | None => ∃ z, last pages = Some z ∧ z_more_coming z = false
    end.

Lemma changes_loop_complete responses b sent token o : changes_loop responses b None sent token = Some o →
  ∃ pages, ends_after responses pages token o
    ∧ so_events o = sent ++ (let '(b', events) := process_records b (log_of pages) in events ++ (flush b').2).
Proof.
  revert b sent token. induction responses as [|r responses IH]; intros b sent token; cbn; [done|].
  destruct (read_response r) as [z|e] eqn:Er.
  - destruct (process_records b (z_records z)) as [b1 events] eqn:Ep. cbn. destruct (z_more_coming z) eqn:Em.
    + intros (pages & (Ht & Hm & Htok & Herr) & Hev)%IH. exists (z :: pages). split.
      * split_and!.
        -- cbn. by rewrite Er, Ht.
        -- destruct pages; [done|]. cbn. by constructor.
        -- rewrite Htok, last_cons. by destruct (last pages).
        -- destruct (so_error o) as [e|].
           ++ destruct Herr as [? ?]. split; [done|by constructor].
           ++ destruct Herr as (z' & Hl & ?). exists z'. split; [|done]. by rewrite last_cons, Hl.
      * rewrite Hev. unfold log_of. cbn. rewrite process_records_app, Ep. fold (log_of pages).
        destruct (process_records b1 (log_of pages)) as [b2 e2]. by rewrite !app_assoc.
    + intros [= <-]. exists [z]. split.
      * split_and!; [cbn; by rewrite Er|constructor|done|]. cbn. by exists z.
      * unfold finish_changes. cbn. rewrite app_nil_r, Ep. cbn. by rewrite !app_assoc.
  - intros [= <-]. exists []. split; [|done]. split_and!; [done|constructor|done|]. cbn. by rewrite Er.
Qed.

(** C10: the token of a change stream covers what the stream reported: when the
    receiver stays to the end, the token is the one of the last good page (the
    starting token when there is none), every asset record of the pages up to
    it is reported exactly once, and no page after it was read.  An asset
    record is paired with a master record of these pages under the name it
    refers to, in whatever order they came, with the more severe of the two
    reasons; it is reported as unpaired only when there is none.  The stream
    ends without an error only at the first page with nothing more coming,
    and with the error of the first bad response otherwise. *)
Theorem delta_token_covers_log responses t0 o : changes_stream responses None t0 = Some o →
  ∃ pages es others, ends_after responses pages t0 o ∧ so_events o ≡ₚ es ++ others
    ∧ Forall2 (reports (log_of pages)) (List.filter is_asset (log_of pages)) es
    ∧ Forall (λ e, ce_asset e = None) others.
Proof.
  intros (pages & He & Hev)%changes_loop_complete. destruct (read_log_reports (log_of pages)) as (es & others & Hp & Hf & Ho).
  exists pages, es, others. split_and!; [done| |done|done]. rewrite Hev. exact Hp.
Qed.
End DeltaLaws.

(** ** A stream of two pages *)

Module DeltaRuns.
Import Json.

#[local] Instance env : DeltaEnv.
refine {| is_null := λ v, match v with JNull => true | _ => false end; base64_decode_utf8 := λ _, None;
          drain := λ A m, map_to_list m |}.
done.
Defined.

Definition page (records : list CkRecord) (more : bool) (token : string) : ChangesZoneResult :=
  {| z_zone_name := lit "PrimarySync"; z_sync_token := lit token; z_more_coming := more; z_records := records;
     z_server_error_code := None; z_reason := None |}.

(** Two siblings, the master between them on the next page, and an orphan. *)
Definition responses : list Response :=
  [Ok [page [asset_rec (lit "A1") (lit "M"); asset_rec (lit "A3") (lit "N")] true "t1"];
   Ok [page [master_rec (lit "M"); asset_rec (lit "A2") (lit "M")] false "t2"]].

Example two_pages : (λ o, (so_token o, so_error o, map (λ e, (ce_record_name e, sa_state_id <$> ce_asset e)) (so_events o)))
    <$> changes_stream responses None (lit "t0")
  = Some (lit "t2", None, [(lit "M", Some (lit "M")); (lit "M", Some (lit "A2")); (lit "A3", None)]).
Proof. vm_compute. reflexivity. Qed.

Lemma delta_token_covers_log_witness : ∃ o pages es others, changes_stream responses None (lit "t0") = Some o
  ∧ ends_after responses pages (lit "t0") o ∧ so_events o ≡ₚ es ++ others
  ∧ Forall2 (reports (log_of pages)) (List.filter (paired_kind "CPLAsset") (log_of pages)) es.
Proof.
  assert (match changes_stream responses None (lit "t0") with Some _ => true | None => false end = true) as Hs
    by (vm_compute; reflexivity).
  destruct (changes_stream responses None (lit "t0")) as [o|] eqn:E; [clear Hs|discriminate Hs].
  destruct (delta_token_covers_log responses (lit "t0") o E) as (pages & es & others & H1 & H2 & H3 & _).
  exists o, pages, es, others. split; [reflexivity|]. split; [exact H1|]. split; [exact H2|exact H3].
Defined.
End DeltaRuns.
