(* ===== verification/CrossZone.v ===== *)
(** * The asset stream of a pass: [photo_stream_with_token_inner] of
    [src/icloud/photos/album.rs]

    The stream of the fetchers with its sync token, and for an album whose
    members may lie in other zones the task that passes the stream on, looks
    for members it did not carry in the change logs of the other zones, and
    decides about the token.

    Parameters: the answers to the requests, the order in which the messages of
    several fetchers arrive, the consumer. *)
From S2P Require Import Prelude RustStr Types Enumeration Cloudkit Fetcher Delta.

Section CrossZone.
Context `{DeltaEnv}.

(** ** Scanning the change log of a zone *)

Section Scan.
Context {S : Type} (on_record : CkRecord → S → S * bool).

(** The records of a page; whether the closure wants more. *)
Fixpoint scan_records (records : list CkRecord) (s : S) : S * bool :=
  match records with
  | [] => (s, true)
  | r :: records => let '(s, more) := on_record r s in if more : bool then scan_records records s else (s, false)
  end.

(** [None]: the answers end before the log does. *)
Fixpoint scan_changes_zone (responses : list Response) (s : S) : option (S * result StreamError unit) :=
  match responses with
  | [] => None
  | r :: responses =>
      match read_response r with
      | Err e => Some (s, Err e)
      | Ok z =>
          let '(s, more) := scan_records (z_records z) s in
          if negb more then Some (s, Ok tt)
          else if z_more_coming z then scan_changes_zone responses s else Some (s, Ok tt)
      end
  end.
End Scan.

(** ** The members of an album *)

Definition relation_item (container_id : str) (r : CkRecord) : option str :=
  if negb (str_eqb (rec_type r) (lit "CPLContainerRelation")) || bool_decide (deleted r = Some true)
     || negb (bool_decide (field_value_str (fields r) (lit "containerId") = Some container_id))
  then None else field_value_str (fields r) (lit "itemId").

Definition album_relation_item_ids (container_id : str) (responses : list Response) : option (result StreamError (gset str)) :=
  '(ids, r) ← scan_changes_zone (λ rec ids, (match relation_item container_id rec with
                                            | Some id => {[id]} ∪ ids
                                            | None => ids
                                            end, true)) responses ∅;
  Some (match r with Ok _ => Ok ids | Err e => Err e end).

(** Assets of a change log, taken out of [missing] as they are found. *)
Record Matching := { ma_buffer : DeltaRecordBuffer; ma_missing : gset str; ma_matched : list StreamAsset }.

Definition take_missing (m : Matching) (e : ChangeEvent) : Matching :=
  match ce_asset e with
  | Some a =>
      if bool_decide (rec_name (sa_asset a) ∈ ma_missing m)
      then {| ma_buffer := ma_buffer m; ma_missing := ma_missing m ∖ {[rec_name (sa_asset a)]}; ma_matched := ma_matched m ++ [a] |}
      else m
  | None => m
  end.
Definition set_buffer (b : DeltaRecordBuffer) (m : Matching) : Matching :=
  {| ma_buffer := b; ma_missing := ma_missing m; ma_matched := ma_matched m |}.

Definition match_record (r : CkRecord) (m : Matching) : Matching * bool :=
  let '(b, events) := process_records (ma_buffer m) [r] in
  let m := foldl take_missing (set_buffer b m) events in
  (m, negb (bool_decide (ma_missing m = ∅))).

(** What is left missing, and the assets found. *)
Definition matching_assets_from_changes (responses : list Response) (missing : gset str) :
    option (gset str * result StreamError (list StreamAsset)) :=
  '(m, r) ← scan_changes_zone match_record responses {| ma_buffer := DeltaRecordBuffer_new; ma_missing := missing; ma_matched := [] |};
  Some (match r with
        | Err e => (ma_missing m, Err e)
        | Ok _ =>
            let '(b, events) := flush (ma_buffer m) in
            let m := foldl take_missing (set_buffer b m) events in
            (ma_missing m, Ok (ma_matched m))
        end).

(** ** The stream *)

(** An asset comes with the zone it was taken from, if that is another one. *)
Inductive PassMessage :=
| PAsset (a : StreamAsset) (source_zone : option str)
| PError (e : FetchMessageError)
| PScanError (e : StreamError).
Definition base_message (m : Message) : PassMessage := match m with MAsset a => PAsset a None | MError e => PError e end.

(** The album: its container, the other zones it may draw from, and the
    answers the provider gives to a scan of its own zone. *)
Record AlbumZones := {
  az_container_id : option str;
  az_sources : list (str * list Response);
  az_changes : list Response;
}.
Definition has_cross_zone_hydration (a : AlbumZones) : bool :=
  bool_decide (is_Some (az_container_id a)) && negb (bool_decide (length (az_sources a) = 0%nat)).

(** [tx.send]: the consumer is there for the [n]-th message or not. *)
Context (consumer : nat → bool).
Definition deliver (m : PassMessage) (out : list PassMessage) (sends : nat) : list PassMessage * nat * bool :=
  if consumer sends then (out ++ [m], S sends, true) else (out, S sends, false).

Record Forward := {
  fw_out : list PassMessage;
  fw_sends : nat;
  fw_seen : gset str;
  fw_base_seen : Z;
  fw_error : bool;
}.

(** The base stream is passed on; [None] when the consumer has gone. *)
Fixpoint forward_base (items : list Message) (f : Forward) : list PassMessage * option Forward :=
  match items with
  | [] => (fw_out f, Some f)
  | m :: items =>
      let '(out, sends, ok) := deliver (base_message m) (fw_out f) (fw_sends f) in
      match m with
      | MAsset a =>
          if ok : bool then
            forward_base items {| fw_out := out; fw_sends := sends; fw_seen := {[rec_name (sa_asset a)]} ∪ fw_seen f;
                                  fw_base_seen := fw_base_seen f + 1; fw_error := fw_error f |}
          else (out, None)
      | MError _ =>
          forward_base items {| fw_out := out; fw_sends := sends; fw_seen := fw_seen f; fw_base_seen := fw_base_seen f; fw_error := true |}
      end
  end.

(** Assets of another zone; the flag: the consumer took them all. *)
Fixpoint forward_assets (zone : str) (assets : list StreamAsset) (out : list PassMessage) (sends : nat) : list PassMessage * nat * bool :=
  match assets with
  | [] => (out, sends, true)
  | a :: assets =>
      match deliver (PAsset a (Some zone)) out sends with
      | (out, sends, true) => forward_assets zone assets out sends
      | (out, sends, false) => (out, sends, false)
      end
  end.

(** The other zones, until nothing is missing: what is still missing at the
    end, or an early end without a token. *)
Fixpoint hydrate_sources (sources : list (str * list Response)) (missing : gset str) (out : list PassMessage) (sends : nat) :
    option (list PassMessage * option (gset str)) :=
  match sources with
  | [] => Some (out, Some missing)
  | (zone, responses) :: sources =>
      if bool_decide (missing = ∅) then Some (out, Some missing)
      else
        '(missing, r) ← matching_assets_from_changes responses missing;
        match r with
        | Ok assets =>
            match forward_assets zone assets out sends with
            | (out, sends, true) => hydrate_sources sources missing out sends
            | (out, _, false) => Some (out, None)
            end
        | Err e => Some ((deliver (PScanError e) out sends).1.1, None)
        end
  end.

Definition should_hydrate (limit total_count : option Z) (base_seen : Z) : bool :=
  match limit, total_count with None, Some expected => base_seen <? expected | _, _ => false end.

(** The hydration task: what it hands on, and the token. *)
Definition photo_stream_with_cross_zone_hydration (album : AlbumZones) (limit total_count : option Z) (items : list Message)
    (base_token : option str) : option (list PassMessage * option str) :=
  match az_container_id album with
  | None => Some ([], None)
  | Some container_id =>
      match forward_base items {| fw_out := []; fw_sends := 0; fw_seen := ∅; fw_base_seen := 0; fw_error := false |} with
      | (out, None) => Some (out, None)
      | (out, Some f) =>
          if fw_error f then Some (out, None)
          else if negb (should_hydrate limit total_count (fw_base_seen f)) then Some (out, base_token)
          else
            ids ← album_relation_item_ids container_id (az_changes album);
            match ids with
            | Err e => Some ((deliver (PScanError e) out (fw_sends f)).1.1, None)
            | Ok ids =>
                let missing := ids ∖ fw_seen f in
                if bool_decide (missing = ∅) then Some (out, base_token)
                else
                  '(out, left_over) ← hydrate_sources (az_sources album) missing out (fw_sends f);
                  Some (out, match left_over with
                             | Some missing => if bool_decide (missing = ∅) then base_token else None
                             | None => None
                             end)
            end
      end
  end.

(** The messages of the fetchers as they arrive. *)
Context (arrival : list (list Message) → list Message).

Definition photo_stream_with_token_inner (fuel : nat) (ws : nat → World) (album : AlbumZones) (limit total_count : option Z)
    (page_size : Z) (profile : PhotoStreamProfile) (preserve_blank treat_empty_tail : bool) :
    option (list Finished * list PassMessage * option str) :=
  '(fs, token) ← photo_stream_with_token_inner_no_cross_zone fuel ws limit total_count page_size profile preserve_blank treat_empty_tail;
  let items := arrival ((λ f, sent (em (fin_state f))) <$> fs) in
  if has_cross_zone_hydration album then
    '(out, token) ← photo_stream_with_cross_zone_hydration album limit total_count items token;
    Some (fs, out, token)
  else Some (fs, base_message <$> items, token).
End CrossZone.
