(* ===== verification/CrossZoneSpec.v ===== *)
(** * What the stream of a pass promises

    A token stands for a stream that was read to its end and handed on whole,
    members from other zones included; and the stream ends. *)
From S2P Require Import Prelude RustStr Types Enumeration Cloudkit Fetcher FetcherSpec Delta CrossZone.

Section Facts.
Context `{DE : DeltaEnv} (consumer : nat → bool).
#[local] Arguments sent_names : simpl never.

Definition asset_name (m : PassMessage) : option str :=
  match m with PAsset a _ => Some (rec_name (sa_asset a)) | _ => None end.
Definition asset_names (out : list PassMessage) : list str := omap asset_name out.


(** ** Passing the base stream on *)


Lemma forward_base_out items f out f' : forward_base consumer items f = (out, Some f') → out = fw_out f'.
Proof.
  revert f. induction items as [|m items IH]; intros f; cbn [forward_base]; [by intros [= <- <-]|].
  destruct (deliver _ _ _ _) as [[o n] ok]. destruct m; [destruct ok; [apply IH|done]|apply IH].
Qed.



(** ** Scans *)





(** ** The other zones *)



(** ** The task *)



(** ** The base stream *)

End Facts.

(** ** The properties *)


(** ** Termination *)








(** ** An album with a member in another zone *)

Module AlbumRuns.
Import Json FetcherSpec.Runs.

#[local] Instance env : DeltaEnv.
refine {| is_null := λ v, match v with JNull => true | _ => false end; base64_decode_utf8 := λ _, None;
          drain := λ A m, map_to_list m |}.
done.
Defined.

Definition relation (name item : string) : CkRecord :=
  {| rec_name := lit name; rec_type := lit "CPLContainerRelation"; deleted := None;
     fields := JObj [(lit "containerId", JObj [(lit "value", JStr (lit "C1"))]);
                     (lit "itemId", JObj [(lit "value", JStr (lit item))])] |}.
Definition log_page (zone : string) (records : list CkRecord) (more : bool) : Response :=
  Ok [{| z_zone_name := lit zone; z_sync_token := lit "t"; z_more_coming := more; z_records := records;
         z_server_error_code := None; z_reason := None |}].

(** The album has [a1] here and [x1] in the zone of another user. *)
Definition trip (there : list CkRecord) : AlbumZones :=
  {| az_container_id := Some (lit "C1");
     az_sources := [(lit "Shared", [log_page "Shared" there true; log_page "Shared" (pair_of "x3" "n3") false])];
     az_changes := [log_page "Own" [relation "r1" "a1"] true; log_page "Own" [relation "r2" "x1"] false] |}.
Definition taken (r : option (list Finished * list PassMessage * option str)) : option (list str * option str) :=
  (λ r, (asset_names r.1.2, r.2)) <$> r.
Definition stream (album : AlbumZones) (total : option Z) :=
  photo_stream_with_token_inner (λ _, true) (@concat _) 20 (λ _, library) album None total 100 (BackpressuredDownload 10) true true.

Example member_of_another_zone :
  taken (stream (trip (pair_of "x2" "n2" ++ pair_of "x1" "n1")) (Some 3)) = Some ([lit "a1"; lit "a2"; lit "x1"], Some (lit "tok")).
Proof. vm_compute. reflexivity. Qed.
(** A member no zone has keeps the token back; a count that was met does not look. *)
Example member_nowhere : taken (stream (trip (pair_of "x2" "n2")) (Some 3)) = Some ([lit "a1"; lit "a2"], None).
Proof. vm_compute. reflexivity. Qed.
Example count_met : taken (stream (trip (pair_of "x2" "n2")) (Some 2)) = Some ([lit "a1"; lit "a2"], Some (lit "tok")).
Proof. vm_compute. reflexivity. Qed.

(** A member that was deleted in the other zone is still handed on: the change
    log is searched without regard to the reason of a change. *)
Definition trashed (a m : string) : list CkRecord :=
  [master_rec (lit m);
   {| rec_name := lit a; rec_type := lit "CPLAsset"; deleted := None;
      fields := JObj [(lit "isDeleted", JObj [(lit "value", JNum 1)]);
                      (lit "masterRef", JObj [(lit "value", JObj [(lit "recordName", JStr (lit m))])]);
                      (lit "assetDate", JObj [(lit "value", JNum 1700000000000)])] |}].
Example trashed_member_handed_on :
  taken (stream (trip (trashed "x1" "n1")) (Some 3)) = Some ([lit "a1"; lit "a2"; lit "x1"], Some (lit "tok")).
Proof. vm_compute. reflexivity. Qed.



End AlbumRuns.
