(* ===== verification/Checkpoint.v ===== *)
(** * Checkpoints: [src/sync_cycle.rs], [src/download/mod.rs]

    When a zone's provider token may be stored.  The pass tokens of a full
    enumeration are classified into evidence; the evidence gives the zone
    token and the reason when there is none; and the cycle decides whether
    the source checkpoint advances. *)
From Stdlib Require Import SpecFloat.
From S2P Require Import Prelude RustStr Types Stats.

(** ** Metadata keys *)

Definition SYNC_TOKEN_PREFIX : str := lit "sync_token:".
Definition INVENTORY_ANCHOR_PREFIX : str := lit "inventory_anchor:".
Definition PENDING_ZONE_TOKEN_PREFIX : str := lit "pending_sync_token:".

Definition sync_token_key (zone_name : str) : str := SYNC_TOKEN_PREFIX ++ zone_name.
Definition inventory_anchor_key (enum_config_hash zone_name : str) : str :=
  INVENTORY_ANCHOR_PREFIX ++ enum_config_hash ++ lit ":" ++ zone_name.
Definition pending_zone_token_key (enum_config_hash zone_name : str) : str :=
  PENDING_ZONE_TOKEN_PREFIX ++ enum_config_hash ++ lit ":" ++ zone_name.

(** ** Inventory drops *)

Record InventoryDrop := {
  previous_total : Z; current_total : Z; drop_assets : Z; drop_percent : spec_float;
}.

(** [5.0]. *)
Definition INVENTORY_DROP_THRESHOLD_PERCENT : spec_float := f64_of_u64 5.

Definition classify_inventory_drop (previous current : Z) : option InventoryDrop :=
  if (previous =? 0) || (previous <=? current) then None
  else
    let drop_assets := previous - current in
    let drop_percent := f64_mul (f64_div (f64_of_u64 drop_assets) (f64_of_u64 previous)) (f64_of_u64 100) in
    if SFltb drop_percent INVENTORY_DROP_THRESHOLD_PERCENT then None
    else Some {| previous_total := previous; current_total := current;
                 drop_assets := drop_assets; drop_percent := drop_percent |}.

(** ** Outcomes *)

Inductive DownloadOutcome :=
| Success
| SessionExpired (auth_error_count : Z)
| PartialFailure (failed_count : Z).

Record SyncResult := {
  outcome : DownloadOutcome;
  sync_token : option str;
  stats : SyncStats;
  full_enumeration_ran : bool;
}.

Inductive DownloadRunMode := Download | DryRun | PrintFilenames.
Definition is_dry_run (m : DownloadRunMode) : bool := match m with DryRun => true | _ => false end.
Definition only_print_filenames (m : DownloadRunMode) : bool :=
  match m with PrintFilenames => true | _ => false end.
Definition downloads_files (m : DownloadRunMode) : bool := match m with Download => true | _ => false end.

Definition merge_download_outcomes (first second : DownloadOutcome) : DownloadOutcome :=
  match first, second with
  | SessionExpired n, _ => SessionExpired n
  | _, SessionExpired n => SessionExpired n
  | PartialFailure n, PartialFailure m => PartialFailure (saturating_add USIZE_MAX n m)
  | PartialFailure n, _ => PartialFailure n
  | _, PartialFailure n => PartialFailure n
  | Success, Success => Success
  end.

Definition should_warn_zero_assets (sync_result : SyncResult) (library_completed_without_errors : bool)
    (run_mode : DownloadRunMode) (is_retry_failed has_active_passes : bool) : bool :=
  full_enumeration_ran sync_result && library_completed_without_errors
  && downloads_files run_mode && negb is_retry_failed
  && (assets_seen (stats sync_result) =? 0) && has_active_passes.

(** ** The checkpoint decision *)

Inductive CheckpointBasis := IncrementalDelta | CompleteInventory | InventoryWithDeltaBridge.

Inductive CheckpointHoldReason :=
| HoldDryRun | HoldStalePassPlan | HoldInterrupted | HoldSessionExpired
| HoldEnumerationIncomplete | HoldStateNotDurable | HoldTokenProofIncomplete.

Definition CheckpointBasis_as_str (b : CheckpointBasis) : str :=
  match b with
  | IncrementalDelta => lit "incremental_delta"
  | CompleteInventory => lit "complete_inventory"
  | InventoryWithDeltaBridge => lit "inventory_with_delta_bridge"
  end.

Definition CheckpointHoldReason_as_str (r : CheckpointHoldReason) : str :=
  match r with
  | HoldDryRun => lit "dry_run"
  | HoldStalePassPlan => lit "stale_pass_plan"
  | HoldInterrupted => lit "interrupted"
  | HoldSessionExpired => lit "session_expired"
  | HoldEnumerationIncomplete => lit "enumeration_incomplete"
  | HoldStateNotDurable => lit "state_not_durable"
  | HoldTokenProofIncomplete => lit "token_proof_incomplete"
  end.

Inductive RecoveryAction :=
| ContinueTail
| RetryPasses (passes : list PassKey)
| RevalidateRecords (records : list ProviderRecordId)
| ReplayFromPriorToken
| ReconcileInventory (reason : FullEnumerationReason)
| Reauthenticate
| Stop.

Definition RecoveryAction_as_str (r : RecoveryAction) : str :=
  match r with
  | ContinueTail => lit "continue_tail"
  | RetryPasses _ => lit "retry_passes"
  | RevalidateRecords _ => lit "revalidate_records"
  | ReplayFromPriorToken => lit "replay_from_prior_token"
  | ReconcileInventory _ => lit "reconcile_inventory"
  | Reauthenticate => lit "reauthenticate"
  | Stop => lit "stop"
  end.

Definition retry_passes (r : RecoveryAction) : list PassKey :=
  match r with RetryPasses passes => passes | _ => [] end.

Inductive SourceCheckpointDecision :=
| Advance (token : str) (basis : CheckpointBasis)
| Preserve (reason : CheckpointHoldReason) (recovery : RecoveryAction).

Definition is_blank (token : str) : bool := match trim token with [] => true | _ => false end.

Definition source_checkpoint_decision (result : SyncResult) (dry_run stale_pass_plan : bool)
    (basis : CheckpointBasis) : SourceCheckpointDecision :=
  let st := stats result in
  if dry_run then Preserve HoldDryRun Stop
  else if stale_pass_plan then Preserve HoldStalePassPlan ReplayFromPriorToken
  else if match outcome result with SessionExpired _ => true | _ => false end
  then Preserve HoldSessionExpired Reauthenticate
  else if interrupted st then Preserve HoldInterrupted ReplayFromPriorToken
  else if (0 <? enumeration_errors st) || enumeration_incomplete st
  then Preserve HoldEnumerationIncomplete ContinueTail
  else if 0 <? state_write_failures st then Preserve HoldStateNotDurable ReplayFromPriorToken
  else
    match sync_token result with
    | Some token =>
        if is_blank token then
          Preserve HoldTokenProofIncomplete
            (match checkpoint_retry_passes st, checkpoint_revalidate_records st with
             | (_ :: _) as passes, _ => RetryPasses passes
             | [], (_ :: _) as records => RevalidateRecords records
             | [], [] => ReplayFromPriorToken
             end)
        else if sync_token_blocked st then
          Preserve HoldTokenProofIncomplete
            (match checkpoint_retry_passes st with
             | [] => ReplayFromPriorToken
             | passes => RetryPasses passes
             end)
        else Advance token basis
    | None =>
        Preserve HoldTokenProofIncomplete
          (match checkpoint_retry_passes st, checkpoint_revalidate_records st with
           | (_ :: _) as passes, _ => RetryPasses passes
           | [], (_ :: _) as records => RevalidateRecords records
           | [], [] => ReplayFromPriorToken
           end)
    end.

(** ** Pass tokens *)

Inductive PassTokenResult :=
| Present (token : str)
| Missing | Blank | ReceiverDropped | EnumerationIncomplete.

Record PassTokenObservation := { pto_pass : PassKey; pto_result : PassTokenResult }.

Inductive TokenGap := GapMissing | GapBlank | GapReceiverDropped | GapEnumerationIncomplete | GapMismatch.

Inductive ZoneTokenEvidence :=
| Complete (token : str)
| Recoverable (passes : list PassKey) (reason : TokenGap)
| Incomplete (reason : TokenGap).

(** [std::mem::discriminant]. *)
Definition same_variant (a b : PassTokenResult) : bool :=
  match a, b with
  | Present _, Present _ | Missing, Missing | Blank, Blank
  | ReceiverDropped, ReceiverDropped | EnumerationIncomplete, EnumerationIncomplete => true
  | _, _ => false
  end.

Definition present (o : PassTokenObservation) : option str :=
  match pto_result o with Present token => Some token | _ => None end.

(** The gaps in the order the classifier looks for them. *)
Definition gap_order : list (PassTokenResult * TokenGap) :=
  [(EnumerationIncomplete, GapEnumerationIncomplete); (ReceiverDropped, GapReceiverDropped);
   (Blank, GapBlank); (Missing, GapMissing)].

Definition classify_zone_token_evidence (observations : list PassTokenObservation) : ZoneTokenEvidence :=
  let passes_without_tokens :=
    map pto_pass (List.filter (λ o, match present o with Some _ => false | None => true end) observations) in
  match findb (λ g, existsb (λ o, same_variant (pto_result o) g.1) observations) gap_order with
  | Some (_, reason) => Recoverable passes_without_tokens reason
  | None =>
      match omap present observations with
      | [] => Incomplete GapMissing
      | (first :: _) as tokens =>
          if forallb (λ token, str_eqb token first) tokens then Complete first
          else Recoverable (map pto_pass observations) GapMismatch
      end
  end.

(** A receiver as it resolves: the channel's value, or its sender dropped. *)
Record PassTokenReceiver := {
  ptr_pass : PassKey;
  ptr_received : result unit (option str);
  ptr_enumeration_complete : bool;
}.

Definition observe_token (r : PassTokenReceiver) : PassTokenObservation := {|
  pto_pass := ptr_pass r;
  pto_result :=
    if negb (ptr_enumeration_complete r) then EnumerationIncomplete
    else match ptr_received r with
         | Ok (Some token) => if is_blank token then Blank else Present (trim token)
         | Ok None => Missing
         | Err _ => ReceiverDropped
         end;
|}.

Definition token_gap_reason (g : TokenGap) : str :=
  match g with
  | GapReceiverDropped => lit "kei_internal_token_receiver_dropped"
  | GapBlank => lit "icloud_blank_sync_token"
  | GapMismatch => lit "icloud_sync_token_mismatch"
  | GapMissing | GapEnumerationIncomplete => lit "icloud_sync_token_missing"
  end.

Definition initial_evidence (bounded_stream_truncated enumeration_complete : bool)
    (enumeration_errors : Z) (observations : list PassTokenObservation) : ZoneTokenEvidence :=
  let repair_entire_enumeration :=
    (negb enumeration_complete || (0 <? enumeration_errors)) && negb bounded_stream_truncated in
  if bounded_stream_truncated then Incomplete GapEnumerationIncomplete
  else if repair_entire_enumeration
  then Recoverable (map pto_pass observations) GapEnumerationIncomplete
  else classify_zone_token_evidence observations.

(** What a full enumeration knows of its tokens: the zone token, why there is
    none, and the passes to retry. *)
Record TokenOutcome := {
  to_sync_token : option str;
  to_block_reason : option str;
  to_retry_passes : list PassKey;
}.

Definition no_token (reason : TokenGap) (passes : list PassKey) : TokenOutcome :=
  {| to_sync_token := None; to_block_reason := Some (token_gap_reason reason); to_retry_passes := passes |}.

(** ** Same-cycle recovery *)

(** What running one pass again yields; [NotAvailable] when the pass or its
    configuration is missing.  Of the pass's result only the enumeration
    flags are read here. *)
Inductive PassRecovery :=
| NotAvailable
| RunFailed
| Recovered (enumeration_complete : bool) (enumeration_errors : Z) (received : result unit (option str)).

Record RecoveryState := {
  rs_observations : list PassTokenObservation;
  rs_stream_complete : bool;      (** of [streaming_result] *)
  rs_stream_errors : Z;
  rs_recovery_complete : bool;
  rs_recovery_errors : Z;
  rs_completed : Z;
}.

(** [observations.iter_mut().find(..)] and assign. *)
Fixpoint set_result (index : Z) (r : PassTokenResult) (obs : list PassTokenObservation)
    : list PassTokenObservation :=
  match obs with
  | [] => []
  | o :: obs' => if pk_index (pto_pass o) =? index
                 then {| pto_pass := pto_pass o; pto_result := r |} :: obs'
                 else o :: set_result index r obs'
  end.

Definition recover_step (run_pass : PassKey → PassRecovery) (s : RecoveryState) (key : PassKey)
    : RecoveryState :=
  match run_pass key with
  | NotAvailable => {|
      rs_observations := rs_observations s; rs_stream_complete := rs_stream_complete s;
      rs_stream_errors := rs_stream_errors s; rs_recovery_complete := false;
      rs_recovery_errors := rs_recovery_errors s; rs_completed := rs_completed s |}
  | RunFailed => {|
      rs_observations := set_result (pk_index key) EnumerationIncomplete (rs_observations s);
      rs_stream_complete := rs_stream_complete s; rs_stream_errors := rs_stream_errors s;
      rs_recovery_complete := false;
      rs_recovery_errors := saturating_add USIZE_MAX (rs_recovery_errors s) 1;
      rs_completed := rs_completed s |}
  | Recovered complete errors received =>
      let recovered_result :=
        if negb complete || (0 <? errors) then EnumerationIncomplete
        else match received with
             | Ok (Some token) => if is_blank token then Blank else Present (trim token)
             | Ok None => Missing
             | Err _ => ReceiverDropped
             end in {|
      rs_observations := set_result (pk_index key) recovered_result (rs_observations s);
      rs_stream_complete := rs_stream_complete s && complete;
      rs_stream_errors := wrapping_add_u64 (rs_stream_errors s) errors;
      rs_recovery_complete := rs_recovery_complete s && complete;
      rs_recovery_errors := saturating_add USIZE_MAX (rs_recovery_errors s) errors;
      rs_completed := rs_completed s + 1 |}
  end.

(** The recovery loop and the flags it leaves in [streaming_result]. *)
Definition recover_passes (run_pass : PassKey → PassRecovery) (repair_entire_enumeration : bool)
    (passes : list PassKey) (observations : list PassTokenObservation)
    (enumeration_complete : bool) (enumeration_errors : Z) : list PassTokenObservation * bool * Z :=
  let s := fold_left (recover_step run_pass) passes {|
    rs_observations := observations;
    rs_stream_complete := enumeration_complete; rs_stream_errors := enumeration_errors;
    rs_recovery_complete := true; rs_recovery_errors := 0; rs_completed := 0 |} in
  let expected := zlen passes in
  let '(complete, errors) :=
    if rs_completed s =? expected then (rs_recovery_complete s, rs_recovery_errors s)
    else (false, saturating_add USIZE_MAX (rs_recovery_errors s) (Z.max 0 (expected - rs_completed s))) in
  if repair_entire_enumeration then (rs_observations s, complete, errors)
  else (rs_observations s, rs_stream_complete s, rs_stream_errors s).

(** The last classification, after the passes were run again. *)
Definition recovered_sync_token (enumeration_complete : bool) (enumeration_errors : Z)
    (observations : list PassTokenObservation) : TokenOutcome :=
  match classify_zone_token_evidence observations with
  | Complete token =>
      if enumeration_complete && (enumeration_errors =? 0)
      then {| to_sync_token := Some token; to_block_reason := None; to_retry_passes := [] |}
      else {| to_sync_token := None; to_block_reason := Some (lit "icloud_sync_token_missing");
              to_retry_passes := [] |}
  | Recoverable passes reason => no_token reason passes
  | Incomplete reason => no_token reason (map pto_pass observations)
  end.

(** The token of a full enumeration: the outcome, the final observations and
    the final enumeration flags. *)
Definition collect_sync_token (repair_token_gaps bounded_stream_truncated enumeration_complete : bool)
    (enumeration_errors : Z) (receivers : list PassTokenReceiver)
    (run_pass : PassKey → PassRecovery)
    : TokenOutcome * list PassTokenObservation * bool * Z :=
  let observations := map observe_token receivers in
  match initial_evidence bounded_stream_truncated enumeration_complete enumeration_errors observations with
  | Complete token =>
      ({| to_sync_token := Some token; to_block_reason := None; to_retry_passes := [] |},
       observations, enumeration_complete, enumeration_errors)
  | Recoverable passes reason =>
      if negb repair_token_gaps then
        (no_token reason passes, observations, enumeration_complete, enumeration_errors)
      else
        let repair_entire_enumeration :=
          (negb enumeration_complete || (0 <? enumeration_errors)) && negb bounded_stream_truncated in
        let '(observations, enumeration_complete, enumeration_errors) :=
          recover_passes run_pass repair_entire_enumeration passes observations
            enumeration_complete enumeration_errors in
        (recovered_sync_token enumeration_complete enumeration_errors observations,
         observations, enumeration_complete, enumeration_errors)
  | Incomplete reason =>
      (no_token reason (map pto_pass observations), observations, enumeration_complete, enumeration_errors)
  end.

(** ** Blocking *)

Record TokenBlock := {
  tb_blocked : bool;
  tb_reason : option str; tb_source : option str; tb_explanation : option str;
}.

Definition block (reason : str) : TokenBlock := {|
  tb_blocked := true;
  tb_reason := Some reason;
  tb_source := Some (sync_token_blocked_source_of reason);
  tb_explanation := Some (sync_token_blocked_explanation_of reason);
|}.

(** What a full enumeration writes into its statistics about its token:
    [recent] and [skip_created_before] say whether the run was bounded,
    [before] is the block already recorded. *)
Definition token_block (run_mode : DownloadRunMode) (recent skip_created_before bounds_truncated : bool)
    (enumeration_complete : bool) (enumeration_errors : Z) (count_lookup_failed : bool)
    (sync_token token_block_reason : option str) (before : TokenBlock) : TokenBlock :=
  let token_attempt_allowed := negb (only_print_filenames run_mode) && negb (is_dry_run run_mode) in
  let token_eligible := token_attempt_allowed && enumeration_complete && (enumeration_errors =? 0) in
  let bounded_run := recent || skip_created_before in
  let bounded_limit_truncated :=
    bounded_run
    && (bounds_truncated
        || (token_eligible && negb (is_some_b sync_token)
            && match token_block_reason with
               | Some r => memb r [lit "icloud_sync_token_missing";
                                   lit "kei_internal_token_receiver_dropped";
                                   lit "sync_token_unavailable"]
               | None => true
               end)) in
  if count_lookup_failed && token_eligible && is_some_b sync_token then before
  else if bounded_limit_truncated && negb (only_print_filenames run_mode)
          && negb (is_dry_run run_mode) && (enumeration_errors =? 0)
  then block (if recent then lit "recent_limited_full_enumeration"
              else lit "date_bounded_full_enumeration")
  else if token_eligible && negb (is_some_b sync_token)
  then block (default (lit "sync_token_unavailable") token_block_reason)
  else if count_lookup_failed && negb (tb_blocked before)
  then block (lit "icloud_album_count_error")
  else match token_block_reason with
       | Some reason => if token_attempt_allowed && negb (is_some_b sync_token) then block reason else before
       | None => before
       end.

(** ** Facts *)

Lemma same_variant_true a b : same_variant a b = true →
  match b with Present _ => ∃ t, a = Present t | _ => a = b end.
Proof. destruct a, b; try done. by eexists. Qed.

Lemma gap_none obs :
  findb (λ g, existsb (λ o, same_variant (pto_result o) g.1) obs) gap_order = None ↔
  ∀ o, o ∈ obs → is_Some (present o).
Proof.
  split.
  - intros Hn o Ho. unfold present. destruct (pto_result o) eqn:E; [by eexists|exfalso..].
    all: assert (existsb (λ o', same_variant (pto_result o') (pto_result o)) obs = true) as Ht
      by (apply existsb_exists; exists o; split; [by apply list_elem_of_In|by rewrite E]).
    all: rewrite E in Ht.
    + eapply (findb_None _ _ (Missing, GapMissing)) in Hn; [cbn in Hn; congruence|set_solver].
    + eapply (findb_None _ _ (Blank, GapBlank)) in Hn; [cbn in Hn; congruence|set_solver].
    + eapply (findb_None _ _ (ReceiverDropped, GapReceiverDropped)) in Hn; [cbn in Hn; congruence|set_solver].
    + eapply (findb_None _ _ (EnumerationIncomplete, GapEnumerationIncomplete)) in Hn;
        [cbn in Hn; congruence|set_solver].
  - intros Hall. destruct (findb _ gap_order) as [[r g]|] eqn:E; [|done].
    apply findb_Some in E as [Hg Hx]. apply existsb_exists in Hx as (o & Ho & Hv). cbn in Hv.
    apply list_elem_of_In, Hall in Ho as [t Ht]. unfold present in Ht.
    apply same_variant_true in Hv. unfold gap_order in Hg.
    repeat (apply elem_of_cons in Hg as [[= -> ->]|Hg]; [by rewrite Hv in Ht|]). by apply elem_of_nil in Hg.
Qed.

Lemma omap_present obs : (∀ o, o ∈ obs → is_Some (present o)) →
  Forall2 (λ o t, pto_result o = Present t) obs (omap present obs).
Proof.
  induction obs as [|o obs IH]; intros Hall; [constructor|]. cbn.
  destruct (Hall o ltac:(set_solver)) as [t Ht]. rewrite Ht. constructor.
  - unfold present in Ht. by destruct (pto_result o); simplify_eq.
  - apply IH. intros o' Ho'. apply Hall. set_solver.
Qed.

Lemma classify_complete obs token :
  classify_zone_token_evidence obs = Complete token ↔
  obs ≠ [] ∧ ∀ o, o ∈ obs → pto_result o = Present token.
Proof.
  unfold classify_zone_token_evidence.
  destruct (findb _ gap_order) as [[r g]|] eqn:E.
  { split; [done|]. intros [_ Hall]. exfalso.
    assert (∀ o, o ∈ obs → is_Some (present o)) as Hp.
    { intros o Ho. unfold present. rewrite Hall by done. by eexists. }
    pose proof (proj2 (gap_none obs) Hp). congruence. }
  pose proof (proj1 (gap_none obs) E) as E'. clear E. rename E' into E. pose proof (omap_present obs E) as Hf.
  destruct (omap present obs) as [|first tokens] eqn:Et.
  { apply Forall2_nil_inv_r in Hf as ->. by split; [|intros []]. }
  destruct (forallb (λ t, str_eqb t first) (first :: tokens)) eqn:Ef.
  - rewrite forallb_forall in Ef. split.
    + intros [= <-]. split; [intros ->; by apply Forall2_nil_inv_l in Hf|].
      intros o Ho. apply list_elem_of_lookup in Ho as [i Hi].
      destruct (Forall2_lookup_l _ _ _ _ _ Hf Hi) as (t & Ht & ->).
      apply list_elem_of_lookup_2, list_elem_of_In, Ef, str_eqb_eq in Ht. by subst.
    + intros [_ Hall]. inversion Hf as [|o t obs' ts Ho Hts]; subst.
      rewrite Hall in Ho by set_solver. by injection Ho as <-.
  - split; [done|]. intros [_ Hall]. exfalso. apply not_true_iff_false in Ef. apply Ef.
    apply forallb_forall. intros t Ht. apply list_elem_of_In, list_elem_of_lookup in Ht as [i Hi].
    destruct (Forall2_lookup_r _ _ _ _ _ Hf Hi) as (o & Ho & Hr).
    apply list_elem_of_lookup_2, Hall in Ho. rewrite Ho in Hr. injection Hr as ->.
    inversion Hf as [|o' t' obs' ts Ho' Hts]; subst.
    rewrite Hall in Ho' by set_solver. injection Ho' as ->. by apply str_eqb_eq.
Qed.

Lemma observe_token_present r t :
  pto_result (observe_token r) = Present t → t ≠ [] ∧ trim t = t.
Proof.
  unfold observe_token. cbn. destruct (negb _); [done|].
  destruct (ptr_received r) as [[token|]|]; try done.
  unfold is_blank. destruct (trim token) as [|c tr] eqn:E; [done|]. intros [= <-].
  split; [done|]. apply trim_matches_id; rewrite <- E.
  - intros d r' Hd. by eapply trim_matches_head.
  - intros d Hd. by eapply trim_matches_last.
Qed.

(** Present tokens of a list of observations are trimmed and not blank. *)
Definition tokens_trimmed (obs : list PassTokenObservation) : Prop :=
  ∀ o t, o ∈ obs → pto_result o = Present t → t ≠ [] ∧ trim t = t.

Lemma set_result_elem i r obs o :
  o ∈ set_result i r obs → pto_result o = r ∨ o ∈ obs.
Proof.
  induction obs as [|o' obs IH]; cbn; [by right|]. case_match.
  - intros [->|Ho]%elem_of_cons; [by left|right; set_solver].
  - intros [->|Ho]%elem_of_cons; [right; set_solver|]. apply IH in Ho as [?|?]; [by left|right; set_solver].
Qed.

Lemma set_result_trimmed i r obs :
  (∀ t, r = Present t → t ≠ [] ∧ trim t = t) → tokens_trimmed obs →
  tokens_trimmed (set_result i r obs).
Proof.
  intros Hr Ho o t Hin Ht. apply set_result_elem in Hin as [Heq|Hin]; [|by eapply Ho].
  apply Hr. congruence.
Qed.

Lemma set_result_length i r obs : length (set_result i r obs) = length obs.
Proof. induction obs; cbn; [done|]. case_match; cbn; congruence. Qed.

Lemma recover_step_trimmed run s key :
  tokens_trimmed (rs_observations s) → tokens_trimmed (rs_observations (recover_step run s key)).
Proof.
  intros Hs. unfold recover_step. destruct (run key) as [| |c e rx]; cbn; [done| |].
  - by apply set_result_trimmed.
  - apply set_result_trimmed; [|done]. intros t.
    pose proof (observe_token_present
      {| ptr_pass := key; ptr_received := rx; ptr_enumeration_complete := true |} t) as Hp. cbn in Hp.
    destruct (negb c || (0 <? e)); [done|exact Hp].
Qed.

Lemma recover_passes_trimmed run b passes obs c e :
  tokens_trimmed obs → tokens_trimmed (recover_passes run b passes obs c e).1.1.
Proof.
  intros Ho. unfold recover_passes. set (s0 := Build_RecoveryState _ _ _ _ _ _).
  assert (tokens_trimmed (rs_observations (fold_left (recover_step run) passes s0))) as Hf.
  { subst s0. generalize (Build_RecoveryState obs c e true 0 0)
      (eq_refl : rs_observations (Build_RecoveryState obs c e true 0 0) = obs).
    intros s Hs. rewrite <- Hs in Ho. clear Hs. revert s Ho.
    induction passes as [|k passes IH]; intros s Hs; [done|]. cbn. apply IH.
    by apply recover_step_trimmed. }
  destruct (_ =? _), b; done.
Qed.

(** ** Properties *)

(** the source checkpoint of a zone advances exactly when it is safe:
    not a dry run, the pass plan is current, the session did not expire, the
    run was not interrupted, the enumeration was complete and without
    errors, every state write succeeded, and an unblocked, non-blank token
    was obtained; the token stored is then that token.  In every other case
    the prior checkpoint is preserved. *)
Theorem source_checkpoint_decision_advances result dry_run stale basis token basis' :
  0 <= enumeration_errors (stats result) → 0 <= state_write_failures (stats result) →
  source_checkpoint_decision result dry_run stale basis = Advance token basis' ↔
  basis' = basis ∧ dry_run = false ∧ stale = false
  ∧ (∀ n, outcome result ≠ SessionExpired n)
  ∧ interrupted (stats result) = false
  ∧ enumeration_errors (stats result) = 0 ∧ enumeration_incomplete (stats result) = false
  ∧ state_write_failures (stats result) = 0
  ∧ sync_token_blocked (stats result) = false
  ∧ sync_token result = Some token ∧ trim token ≠ [].
Proof.
  intros He Hw. unfold source_checkpoint_decision, is_blank.
  destruct dry_run; [split; [done|naive_solver]|]. destruct stale; [split; [done|naive_solver]|].
  destruct (outcome result) as [|n|n] eqn:Eo; [|split; [done|naive_solver]|].
  all: destruct (interrupted _); [split; [done|naive_solver]|].
  all: destruct (Z.ltb_spec 0 (enumeration_errors (stats result))); cbn [orb]; [split; [done|lia]|].
  all: destruct (enumeration_incomplete _); [split; [done|naive_solver]|].
  all: destruct (Z.ltb_spec 0 (state_write_failures (stats result))); [split; [done|lia]|].
  all: destruct (sync_token result) as [t|]; [|split; [done|naive_solver]].
  all: destruct (trim t) eqn:Et; [split; [done|naive_solver]|].
  all: destruct (sync_token_blocked _); [split; [done|naive_solver]|].
  all: split; [intros [= <- <-]; split_and!; try done; try lia; congruence|naive_solver].
Qed.

Definition sample_result : SyncResult := {|
  outcome := PartialFailure 3; sync_token := Some (lit "tok"); stats := SyncStats_default;
  full_enumeration_ran := false;
|}.

Lemma source_checkpoint_decision_advances_witness :
  source_checkpoint_decision sample_result false false IncrementalDelta
    = Advance (lit "tok") IncrementalDelta ↔
  IncrementalDelta = IncrementalDelta ∧ false = false ∧ false = false
  ∧ (∀ n, outcome sample_result ≠ SessionExpired n)
  ∧ interrupted (stats sample_result) = false
  ∧ enumeration_errors (stats sample_result) = 0 ∧ enumeration_incomplete (stats sample_result) = false
  ∧ state_write_failures (stats sample_result) = 0
  ∧ sync_token_blocked (stats sample_result) = false
  ∧ sync_token sample_result = Some (lit "tok") ∧ trim (lit "tok") ≠ [].
Proof. apply source_checkpoint_decision_advances; cbn; lia. Defined.

(** the evidence of a zone is sound and complete for unanimity.  It is
    [Complete t] exactly when there are observations and every pass proved
    the same token [t]; it is [Incomplete] exactly when nothing was observed;
    otherwise it names the passes to run again: all of them when every pass
    has a token but they differ, and else exactly those without a token, of
    which there is at least one. *)
Theorem zone_token_evidence_exact obs :
  match classify_zone_token_evidence obs with
  | Complete t => obs ≠ [] ∧ ∀ o, o ∈ obs → pto_result o = Present t
  | Incomplete reason => reason = GapMissing ∧ obs = []
  | Recoverable passes GapMismatch =>
      passes = map pto_pass obs ∧ (∀ o, o ∈ obs → is_Some (present o))
      ∧ ∃ o1 o2, o1 ∈ obs ∧ o2 ∈ obs ∧ present o1 ≠ present o2
  | Recoverable passes _ =>
      passes ≠ [] ∧ ∀ p, p ∈ passes ↔ ∃ o, o ∈ obs ∧ pto_pass o = p ∧ present o = None
  end.
Proof.
  destruct (classify_zone_token_evidence obs) as [t|passes reason|reason] eqn:E;
    [by apply classify_complete| |]; unfold classify_zone_token_evidence in E.
  - destruct (findb _ gap_order) as [[r g]|] eqn:Ef.
    + injection E as <- ->.
      assert (∀ p, p ∈ map pto_pass (List.filter (λ o, match present o with Some _ => false | None => true end) obs)
        ↔ ∃ o, o ∈ obs ∧ pto_pass o = p ∧ present o = None) as Hp.
      { intros p. rewrite list_elem_of_fmap. split.
        - intros (o & -> & Ho). apply list_elem_of_In, filter_In in Ho as [Ho Hn].
          exists o. split_and!; [by apply list_elem_of_In|done|by destruct (present o)].
        - intros (o & Ho & <- & Hn). exists o. split; [done|].
          apply list_elem_of_In, filter_In. split; [by apply list_elem_of_In|by rewrite Hn]. }
      apply findb_Some in Ef as [Hg Hx]. apply existsb_exists in Hx as (o & Ho & Hv). cbn in Hv.
      apply same_variant_true in Hv. apply list_elem_of_In in Ho.
      assert (reason ≠ GapMismatch ∧ present o = None) as [Hne Hn].
      { unfold gap_order in Hg. unfold present.
        repeat (apply elem_of_cons in Hg as [[= -> ->]|Hg]; [by rewrite Hv|]). by apply elem_of_nil in Hg. }
      assert (pto_pass o ∈ map pto_pass (List.filter (λ o, match present o with Some _ => false | None => true end) obs)) as Hin.
      { apply Hp. by exists o. }
      destruct reason; try done; (split; [|done]); intros Heq; rewrite Heq in Hin; by apply elem_of_nil in Hin.
    + pose proof (proj1 (gap_none obs) Ef) as Hall. pose proof (omap_present obs Hall) as Hf.
      destruct (omap present obs) as [|first tokens] eqn:Et; [done|].
      destruct (forallb _ _) eqn:Eb; [done|]. injection E as <- <-. split_and!; [done|done|].
      apply not_true_iff_false in Eb. inversion Hf as [|o1 t1 obs' ts Ho1 Hts]; subst.
      exists o1. destruct (existsb (λ t, negb (str_eqb t first)) (first :: tokens)) eqn:Ex.
      * apply existsb_exists in Ex as (t & Ht & Hne%negb_true_iff%str_eqb_neq).
        apply list_elem_of_In, list_elem_of_lookup in Ht as [i Hi].
        destruct (Forall2_lookup_r _ _ _ _ _ Hf Hi) as (o2 & Ho2 & Hr2).
        exists o2. apply list_elem_of_lookup_2 in Ho2. split_and!; [set_solver|done|].
        unfold present. rewrite Ho1, Hr2. congruence.
      * exfalso. apply Eb, forallb_forall. intros t Ht.
        destruct (str_eqb t first) eqn:Es; [done|]. apply not_true_iff_false in Ex. exfalso. apply Ex.
        apply existsb_exists. exists t. by rewrite Es.
  - destruct (findb _ gap_order) as [[r g]|] eqn:Ef; [done|].
    pose proof (omap_present obs (proj1 (gap_none obs) Ef)) as Hf.
    destruct (omap present obs) as [|first tokens]; [|by destruct (forallb _ _)].
    injection E as <-. split; [done|]. by apply Forall2_nil_inv_r in Hf.
Qed.

Lemma observe_tokens_trimmed receivers : tokens_trimmed (map observe_token receivers).
Proof.
  intros o t (r & -> & _)%list_elem_of_fmap Ht. by eapply observe_token_present.
Qed.

(** no zone token without proof.  Whatever the receivers deliver and
    whatever the same-cycle recovery of the passes does, a full enumeration
    yields a token only when it was not truncated, its enumeration is
    complete and without errors after any recovery, there is at least one
    pass, and every pass proved exactly that token, trimmed and not blank.
    When it yields none it gives a reason. *)
Theorem collect_sync_token_sound repair truncated complete errors receivers run_pass :
  0 <= errors →
  let '(out, obs, complete', errors') :=
    collect_sync_token repair truncated complete errors receivers run_pass in
  match to_sync_token out with
  | Some token => truncated = false ∧ complete' = true ∧ errors' = 0 ∧ obs ≠ []
      ∧ (∀ o, o ∈ obs → pto_result o = Present token) ∧ token ≠ [] ∧ trim token = token
      ∧ to_block_reason out = None ∧ to_retry_passes out = []
  | None => is_Some (to_block_reason out)
  end.
Proof.
  intros Herr. pose proof (observe_tokens_trimmed receivers) as Htr.
  unfold collect_sync_token, initial_evidence. set (obs := map observe_token receivers) in *.
  destruct truncated; [by eexists|]. rewrite andb_true_r.
  assert (∀ obs token, tokens_trimmed obs → classify_zone_token_evidence obs = Complete token →
    obs ≠ [] ∧ (∀ o, o ∈ obs → pto_result o = Present token) ∧ token ≠ [] ∧ trim token = token) as Hc.
  { intros obs' token Ht [Hne Hall]%classify_complete. destruct obs' as [|o obs']; [done|].
    destruct (Ht o token) as [? ?]; [set_solver|apply Hall; set_solver|]. done. }
  assert (∀ b passes, let '(obs', c', e') := recover_passes run_pass b passes obs complete errors in
    match to_sync_token (recovered_sync_token c' e' obs') with
    | Some token => false = false ∧ c' = true ∧ e' = 0 ∧ obs' ≠ []
        ∧ (∀ o, o ∈ obs' → pto_result o = Present token) ∧ token ≠ [] ∧ trim token = token
        ∧ to_block_reason (recovered_sync_token c' e' obs') = None
        ∧ to_retry_passes (recovered_sync_token c' e' obs') = []
    | None => is_Some (to_block_reason (recovered_sync_token c' e' obs'))
    end) as Hrec.
  { intros b passes. pose proof (recover_passes_trimmed run_pass b passes obs complete errors Htr) as Ht.
    destruct (recover_passes _ _ _ _ _ _) as [[obs' c'] e']. cbn in Ht. unfold recovered_sync_token.
    destruct (classify_zone_token_evidence obs') eqn:E; [|by eexists..].
    apply (Hc _ _ Ht) in E as (?&?&?&?). destruct c', (Z.eqb_spec e' 0); by eexists. }
  destruct complete; cbn [negb orb]; [destruct (Z.ltb_spec 0 errors)|].
  2: { destruct (classify_zone_token_evidence obs) eqn:E.
    - apply (Hc _ _ Htr) in E as (?&?&?&?). cbn. split_and!; (done || lia).
    - destruct repair; cbn [negb]; [|by eexists]. specialize (Hrec false passes).
      by destruct (recover_passes _ _ _ _ _ _) as [[? ?] ?].
    - by eexists. }
  all: destruct repair; cbn [negb]; [|by eexists]; specialize (Hrec true (map pto_pass obs));
    by destruct (recover_passes _ _ _ _ _ _) as [[? ?] ?].
Qed.

Definition sample_receiver (i : Z) (tok : option str) : PassTokenReceiver := {|
  ptr_pass := {| pk_index := i; pk_kind := PassAlbum; pk_label := lit "a" |};
  ptr_received := Ok tok; ptr_enumeration_complete := true;
|}.

(** One of two passes lost its token and proves it again. *)
Lemma collect_sync_token_sound_witness :
  let '(out, obs, complete', errors') :=
    collect_sync_token true false true 0
      [sample_receiver 0 (Some (lit " t1 ")); sample_receiver 1 None]
      (λ _, Recovered true 0 (Ok (Some (lit "t1")))) in
  match to_sync_token out with
  | Some token => false = false ∧ complete' = true ∧ errors' = 0 ∧ obs ≠ []
      ∧ (∀ o, o ∈ obs → pto_result o = Present token) ∧ token ≠ [] ∧ trim token = token
      ∧ to_block_reason out = None ∧ to_retry_passes out = []
  | None => is_Some (to_block_reason out)
  end.
Proof. apply collect_sync_token_sound. lia. Defined.

(** a missing token is never silent.  After a full enumeration that may
    store tokens and obtained none, the statistics say that advancement was
    blocked, with a reason and the explanation and source of that reason. *)
Theorem missing_token_is_blocked run_mode recent before_date truncated complete errors lookup_failed
    reason before :
  only_print_filenames run_mode = false → is_dry_run run_mode = false →
  let b := token_block run_mode recent before_date truncated complete errors lookup_failed
             None (Some reason) before in
  tb_blocked b = true
  ∧ (b = before ∨ ∃ r, tb_reason b = Some r
       ∧ tb_source b = Some (sync_token_blocked_source_of r)
       ∧ tb_explanation b = Some (sync_token_blocked_explanation_of r)).
Proof.
  intros Hp Hd b. subst b. unfold token_block. rewrite Hp, Hd. cbn [negb andb is_some_b].
  rewrite !andb_false_r. cbn [andb].
  repeat (case_match; [split; [done|right; by eexists]|]). split; [done|right; by eexists].
Qed.

Lemma missing_token_is_blocked_witness :
  let b := token_block Download true false true true 0 false None (Some (lit "icloud_sync_token_missing"))
             {| tb_blocked := false; tb_reason := None; tb_source := None; tb_explanation := None |} in
  tb_blocked b = true
  ∧ (b = {| tb_blocked := false; tb_reason := None; tb_source := None; tb_explanation := None |}
     ∨ ∃ r, tb_reason b = Some r
       ∧ tb_source b = Some (sync_token_blocked_source_of r)
       ∧ tb_explanation b = Some (sync_token_blocked_explanation_of r)).
Proof. apply missing_token_is_blocked; reflexivity. Defined.

(** outcomes of successive runs merge like a severity monoid: [Success]
    is neutral, merging is associative, an expired session dominates
    everything, failures of both runs add up (saturating), and the merge is
    [Success] only when both are. *)
Theorem merge_download_outcomes_monoid a b c :
  (∀ n, a = PartialFailure n → 0 <= n) → (∀ n, c = PartialFailure n → 0 <= n) →
  merge_download_outcomes Success a = a ∧ merge_download_outcomes a Success = a
  ∧ merge_download_outcomes a (merge_download_outcomes b c)
    = merge_download_outcomes (merge_download_outcomes a b) c
  ∧ (merge_download_outcomes a b = Success ↔ a = Success ∧ b = Success)
  ∧ ((∃ n, merge_download_outcomes a b = SessionExpired n)
     ↔ (∃ n, a = SessionExpired n) ∨ ∃ n, b = SessionExpired n).
Proof.
  intros Ha Hc. split_and!.
  - by destruct a.
  - by destruct a.
  - destruct a, b, c; cbn; try done. f_equal. specialize (Ha _ eq_refl). specialize (Hc _ eq_refl). unfold saturating_add, USIZE_MAX, U64_MAX. lia.
  - destruct a, b; cbn; naive_solver.
  - destruct a, b; cbn; naive_solver.
Qed.

Lemma merge_download_outcomes_monoid_witness :
  let a := PartialFailure 2 in let b := Success in let c := SessionExpired 5 in
  merge_download_outcomes Success a = a ∧ merge_download_outcomes a Success = a
  ∧ merge_download_outcomes a (merge_download_outcomes b c)
    = merge_download_outcomes (merge_download_outcomes a b) c
  ∧ (merge_download_outcomes a b = Success ↔ a = Success ∧ b = Success)
  ∧ ((∃ n, merge_download_outcomes a b = SessionExpired n)
     ↔ (∃ n, a = SessionExpired n) ∨ ∃ n, b = SessionExpired n).
Proof. intros a b c. apply (merge_download_outcomes_monoid a b c); intros n [= <-]; lia. Defined.

(** folding the statistics of several libraries never hides a problem:
    when no counter overflows, the accumulated statistics are free of
    enumeration errors, interrupts, unfinished enumerations, failed state
    writes and blocked tokens only if those of every part are; counts add
    up and the passes to retry are all kept. *)
Theorem accumulate_conservative a b :
  0 <= enumeration_errors a → 0 <= enumeration_errors b →
  enumeration_errors a + enumeration_errors b <= U64_MAX →
  0 <= state_write_failures a → 0 <= state_write_failures b →
  state_write_failures a + state_write_failures b <= U64_MAX →
  let c := accumulate a b in
  let clean s := interrupted s = false ∧ enumeration_errors s = 0 ∧ enumeration_incomplete s = false
                 ∧ state_write_failures s = 0 ∧ sync_token_blocked s = false in
  (clean c ↔ clean a ∧ clean b)
  ∧ enumeration_errors c = enumeration_errors a + enumeration_errors b
  ∧ checkpoint_retry_passes c = checkpoint_retry_passes a ++ checkpoint_retry_passes b
  ∧ (sync_token_blocked_reason c = None ↔
       sync_token_blocked_reason a = None ∧ sync_token_blocked_reason b = None).
Proof.
  intros He1 He2 He Hw1 Hw2 Hw. cbn. rewrite !wrapping_add_small by done.
  rewrite !orb_false_iff. split_and!; [lia || (split; intros; destruct_and?; split_and?; (done || lia))|done|done|].
  destruct (sync_token_blocked_reason a); cbn; naive_solver.
Qed.

Lemma accumulate_conservative_witness :
  let c := accumulate (sample_stats 3 0) (sample_stats 4 1) in
  let clean s := interrupted s = false ∧ enumeration_errors s = 0 ∧ enumeration_incomplete s = false
                 ∧ state_write_failures s = 0 ∧ sync_token_blocked s = false in
  (clean c ↔ clean (sample_stats 3 0) ∧ clean (sample_stats 4 1))
  ∧ enumeration_errors c = enumeration_errors (sample_stats 3 0) + enumeration_errors (sample_stats 4 1)
  ∧ checkpoint_retry_passes c
    = checkpoint_retry_passes (sample_stats 3 0) ++ checkpoint_retry_passes (sample_stats 4 1)
  ∧ (sync_token_blocked_reason c = None ↔
       sync_token_blocked_reason (sample_stats 3 0) = None ∧ sync_token_blocked_reason (sample_stats 4 1) = None).
Proof. apply accumulate_conservative; vm_compute; discriminate. Defined.
