(* ===== verification/Finalize.v ===== *)
(** * Recording what was downloaded

    [src/download/finalize.rs] and the consumer loop of
    [src/download/pipeline.rs]: a finished transfer is recorded in the state
    store, a write that fails is deferred and retried with a growing pause, a
    store that refuses everything stops the run.  The store is an interface,
    [DownloadFinalizationStore], whose calls may fail and may change the
    store; [FinalizationLaws] states what the clients rely on.  The SQLite
    store of [StateDb.v] behind transient faults implements it. *)
From S2P Require Import Prelude RustStr Types Paths Filter Retry StateTypes StateDb StateDbSpec.

(** ** The store as the downloads see it *)

Record PendingStateWrite := {
  pw_library : str;
  pw_asset_id : str;
  pw_version_size : VersionSizeKey;
  pw_download_path : path;
  pw_local_checksum : str;
  pw_download_checksum : option str;
  pw_mark_capture_repair : bool;
}.

Definition write_key (w : PendingStateWrite) : key3 :=
  (pw_library w, pw_asset_id w, VersionSizeKey_as_str (pw_version_size w)).

Class DownloadFinalizationStore (St : Type) := {
  db_mark_downloaded_with_capture_repair : PendingStateWrite → St → St * result StateError unit;
  db_mark_failed : key3 → str → St → St * result StateError unit;
  db_record_metadata_write_failure : key3 → St → St * result StateError unit;
}.

(** What a store promises: a write it acknowledges is there, and stays there
    through calls about other keys; recording a failed metadata write loses
    nothing. *)
Class FinalizationLaws (St : Type) `{DownloadFinalizationStore St} := {
  persisted : PendingStateWrite → St → Prop;
  mark_persists w s s' : db_mark_downloaded_with_capture_repair w s = (s', Ok tt) → persisted w s';
  mark_keeps w w' s s' r : db_mark_downloaded_with_capture_repair w s = (s', r) → write_key w' <> write_key w →
    persisted w' s → persisted w' s';
  mark_failed_keeps k error w' s s' r : db_mark_failed k error s = (s', r) → write_key w' <> k →
    persisted w' s → persisted w' s';
  write_failure_keeps k w' s s' r : db_record_metadata_write_failure k s = (s', r) → persisted w' s → persisted w' s';
}.

(** ** [finalize.rs] *)

Definition STATE_WRITE_MAX_RETRIES : Z := 6.
Definition STATE_DB_UNWRITABLE_THRESHOLD : Z := 5.
(** [commands/reconcile.rs]. *)
Definition FILE_TRUNCATED_REASON : str := lit "FILE_TRUNCATED_AT_STARTUP".

Record StateWriteFlush := {
  fl_attempted : Z;
  fl_failures : Z;
}.
Definition StateWriteFlush_default : StateWriteFlush := {| fl_attempted := 0; fl_failures := 0 |}.

Inductive DownloadedFinalization :=
| Persisted
| Deferred (write : PendingStateWrite) (error : StateError).

Section Finalize.
Context `{FilterEnv} {St : Type} `{DownloadFinalizationStore St}.
(** [random_range(0..n)] of an attempt. *)
Context (jitter : Z → Z → Z).

Definition task_key (t : DownloadTask) : key3 :=
  (dt_library t, dt_asset_id t, VersionSizeKey_as_str (dt_version_size t)).

Definition update_metadata_marker (k : key3) (exif_ok : bool) (s : St) : St :=
  if exif_ok then s else (db_record_metadata_write_failure k s).1.

Definition task_write (task : DownloadTask) (local_checksum : str) (download_checksum : option str)
    (mark_capture_repair : bool) : PendingStateWrite :=
  {| pw_library := dt_library task; pw_asset_id := dt_asset_id task; pw_version_size := dt_version_size task;
     pw_download_path := dt_download_path task; pw_local_checksum := local_checksum;
     pw_download_checksum := download_checksum; pw_mark_capture_repair := mark_capture_repair |}.

Definition finalize_downloaded (task : DownloadTask) (local_checksum : str) (download_checksum : option str)
    (exif_ok mark_capture_repair : bool) (s : St) : St * DownloadedFinalization :=
  let w := task_write task local_checksum download_checksum mark_capture_repair in
  match db_mark_downloaded_with_capture_repair w s with
  | (s, Ok _) => (update_metadata_marker (task_key task) exif_ok s, Persisted)
  | (s, Err error) => (s, Deferred w error)
  end.

Definition finalize_failed (task : DownloadTask) (error : str) (s : St) : St * result StateError unit :=
  let durable_error := match dt_publication task with
    | NoReplace => error
    | ReplaceTruncated _ => FILE_TRUNCATED_REASON
    end in
  db_mark_failed (task_key task) durable_error s.

(** [200 * u64::from(1u32 << (attempt - 1))], in milliseconds. *)
Definition base_ms (attempt : Z) : Z := 200 * Z.shiftl 1 (attempt - 1).

(** [for attempt in 1..=STATE_WRITE_MAX_RETRIES], with the pauses taken. *)
Fixpoint retry_write_loop (remaining : nat) (attempt : Z) (w : PendingStateWrite) (s : St) : St * bool * list Z :=
  match remaining with
  | O => (s, false, [])
  | S remaining =>
      match db_mark_downloaded_with_capture_repair w s with
      | (s, Ok _) => (s, true, [])
      | (s, Err _) =>
          let '(s, done, pauses) := retry_write_loop remaining (attempt + 1) w s in
          (s, done,
           if attempt <? STATE_WRITE_MAX_RETRIES
           then base_ms attempt + jitter attempt (Z.max (base_ms attempt) 1 / 4) :: pauses else pauses)
      end
  end.

Definition retry_pending_state_write (w : PendingStateWrite) (s : St) : St * bool * list Z :=
  retry_write_loop (Z.to_nat STATE_WRITE_MAX_RETRIES) 1 w s.

(** The loop over [pending.drain(..)]: the writes that failed, in order. *)
Fixpoint flush_writes (pending : list PendingStateWrite) (s : St) : St * list PendingStateWrite :=
  match pending with
  | [] => (s, [])
  | w :: pending =>
      let '(s, done, _) := retry_pending_state_write w s in
      let '(s, failed) := flush_writes pending s in
      (s, if done then failed else w :: failed)
  end.

Definition flush_pending_state_writes_retaining_failures (pending : list PendingStateWrite) (s : St) :
    St * list PendingStateWrite * StateWriteFlush :=
  match pending with
  | [] => (s, [], StateWriteFlush_default)
  | _ =>
      let '(s, failed) := flush_writes pending s in
      (s, failed, {| fl_attempted := zlen pending; fl_failures := zlen failed |})
  end.

Definition flush_pending_state_writes (pending : list PendingStateWrite) (s : St) : St * Z :=
  let '(s, failed) := flush_writes pending s in (s, zlen failed).

Definition state_write_circuit_breaker_tripped (flush : StateWriteFlush) : bool :=
  (STATE_DB_UNWRITABLE_THRESHOLD <=? fl_attempted flush) && (fl_failures flush =? fl_attempted flush).

(** The error of an opened breaker carries the number of writes. *)
Definition check_state_write_circuit_breaker (pending : list PendingStateWrite) (s : St) :
    St * list PendingStateWrite * option Z :=
  if zlen pending <? STATE_DB_UNWRITABLE_THRESHOLD then (s, pending, None)
  else
    let '(s, pending, flush) := flush_pending_state_writes_retaining_failures pending s in
    (s, pending, if state_write_circuit_breaker_tripped flush then Some (fl_attempted flush) else None).
End Finalize.

(** ** The consumer of finished transfers: [consume_stream_download_tasks] *)

Definition AUTH_ERROR_THRESHOLD : Z := 3.

Record Transfer := {
  tr_exif_ok : bool;
  tr_local_checksum : str;
  tr_download_checksum : option str;
  tr_bytes : Z;
  tr_disk_bytes : Z;
}.

Section Consumer.
Context `{FilterEnv} {St : Type} `{DownloadFinalizationStore St}.
Context (jitter : Z → Z → Z).
Context {IoError BoxError AnyError : Type} (downcast : AnyError → option (@DownloadError IoError BoxError AnyError))
  (to_string : AnyError → str).
(** The run has a state store; [capture_repair_requested]. *)
Context (has_db mark_capture_repair : bool).

Record Consumer := {
  co_downloaded : Z;
  co_exif_failures : Z;
  co_failed : list DownloadTask;
  co_auth_errors : Z;
  co_pending : list PendingStateWrite;
  co_bytes : Z;
  co_disk_bytes : Z;
  co_url_expired_abort : bool;
  co_photos : Z;
  co_videos : Z;
  co_circuit_error : option Z;
  (** [pipeline_shutdown.is_cancelled()]. *)
  co_cancelled : bool;
}.

Definition Consumer_new : Consumer :=
  {| co_downloaded := 0; co_exif_failures := 0; co_failed := []; co_auth_errors := 0; co_pending := []; co_bytes := 0;
     co_disk_bytes := 0; co_url_expired_abort := false; co_photos := 0; co_videos := 0; co_circuit_error := None;
     co_cancelled := false |}.

Definition b2z (b : bool) : Z := if b then 1 else 0.

Definition count_success (task : DownloadTask) (r : Transfer) (c : Consumer) : Consumer :=
  {| co_downloaded := co_downloaded c + 1;
     co_exif_failures := co_exif_failures c + b2z (negb (tr_exif_ok r)); co_failed := co_failed c;
     co_auth_errors := co_auth_errors c; co_pending := co_pending c; co_bytes := co_bytes c + tr_bytes r;
     co_disk_bytes := co_disk_bytes c + tr_disk_bytes r; co_url_expired_abort := co_url_expired_abort c;
     co_photos := co_photos c + b2z (is_photo_like (dt_media_type task));
     co_videos := co_videos c
       + b2z (negb (is_photo_like (dt_media_type task)) && is_video_like (dt_media_type task));
     co_circuit_error := co_circuit_error c; co_cancelled := co_cancelled c |}.

Definition set_pending (c : Consumer) (p : list PendingStateWrite) (e : option Z) (cancel : bool) : Consumer :=
  {| co_downloaded := co_downloaded c; co_exif_failures := co_exif_failures c; co_failed := co_failed c;
     co_auth_errors := co_auth_errors c; co_pending := p; co_bytes := co_bytes c; co_disk_bytes := co_disk_bytes c;
     co_url_expired_abort := co_url_expired_abort c; co_photos := co_photos c; co_videos := co_videos c;
     co_circuit_error := e; co_cancelled := co_cancelled c || cancel |}.

Definition count_auth_error (c : Consumer) : Consumer :=
  {| co_downloaded := co_downloaded c; co_exif_failures := co_exif_failures c; co_failed := co_failed c;
     co_auth_errors := co_auth_errors c + 1; co_pending := co_pending c; co_bytes := co_bytes c;
     co_disk_bytes := co_disk_bytes c; co_url_expired_abort := co_url_expired_abort c; co_photos := co_photos c;
     co_videos := co_videos c; co_circuit_error := co_circuit_error c; co_cancelled := co_cancelled c |}.

Definition expire_urls (c : Consumer) : Consumer :=
  {| co_downloaded := co_downloaded c; co_exif_failures := co_exif_failures c; co_failed := co_failed c;
     co_auth_errors := co_auth_errors c; co_pending := co_pending c; co_bytes := co_bytes c;
     co_disk_bytes := co_disk_bytes c; co_url_expired_abort := true; co_photos := co_photos c;
     co_videos := co_videos c; co_circuit_error := co_circuit_error c; co_cancelled := true |}.

Definition push_failed (task : DownloadTask) (c : Consumer) : Consumer :=
  {| co_downloaded := co_downloaded c; co_exif_failures := co_exif_failures c; co_failed := co_failed c ++ [task];
     co_auth_errors := co_auth_errors c; co_pending := co_pending c; co_bytes := co_bytes c;
     co_disk_bytes := co_disk_bytes c; co_url_expired_abort := co_url_expired_abort c; co_photos := co_photos c;
     co_videos := co_videos c; co_circuit_error := co_circuit_error c; co_cancelled := co_cancelled c |}.

(** [finalize_downloaded] and, for a deferred write, the circuit breaker. *)
Definition consume_success (task : DownloadTask) (r : Transfer) (s : St) (c : Consumer) : St * Consumer :=
  let c := count_success task r c in
  if negb has_db then (s, c)
  else
    match finalize_downloaded task (tr_local_checksum r) (tr_download_checksum r) (tr_exif_ok r) mark_capture_repair s with
    | (s, Persisted) => (s, c)
    | (s, Deferred write _) =>
        let pending := co_pending c ++ [write] in
        match co_circuit_error c with
        | Some e => (s, set_pending c pending (Some e) false)
        | None =>
            let '(s, pending, err) := check_state_write_circuit_breaker jitter pending s in
            (s, set_pending c pending err (match err with Some _ => true | None => false end))
        end
    end.

(** The error arm; the last component is [break]. *)
Definition consume_error (task : DownloadTask) (e : AnyError) (s : St) (c : Consumer) : St * Consumer * bool :=
  let fail c := ((if has_db then (finalize_failed task (to_string e) s).1 else s), push_failed task c, false) in
  match classify_download_task_error downcast e with
  | ClassInterrupted => (s, c, false)
  | ClassSessionExpired =>
      let c := count_auth_error c in
      if AUTH_ERROR_THRESHOLD <=? co_auth_errors c then (s, c, true) else fail c
  | ClassExpiredUrl => (s, expire_urls c, false)
  | ClassOther => fail c
  end.

Fixpoint consume (results : list (DownloadTask * result AnyError Transfer)) (s : St) (c : Consumer) : St * Consumer :=
  match results with
  | [] => (s, c)
  | (task, Ok r) :: rest => let '(s, c) := consume_success task r s c in consume rest s c
  | (task, Err e) :: rest =>
      let '(s, c, stop) := consume_error task e s c in
      if stop then (s, c) else consume rest s c
  end.

(** The last flush of [finalize_streaming_download]: not retried when the
    breaker opened; the failures it reports and the error it raises. *)
Definition final_state_flush (s : St) (c : Consumer) : St * Consumer * StateWriteFlush :=
  let '(s, pending, flush) :=
    if negb has_db then (s, co_pending c, StateWriteFlush_default)
    else match co_circuit_error c with
         | Some _ => (s, co_pending c, {| fl_attempted := zlen (co_pending c); fl_failures := zlen (co_pending c) |})
         | None => flush_pending_state_writes_retaining_failures jitter (co_pending c) s
         end in
  let error := match co_circuit_error c with
    | Some e => Some e
    | None => if state_write_circuit_breaker_tripped flush then Some (fl_attempted flush) else None
    end in
  (s, set_pending c pending error false, flush).
End Consumer.

(** ** The SQLite store behind transient faults *)

(** Each call takes the next entry of the schedule: a fault leaves the
    database alone. *)
Record SqliteStore := {
  ss_db : Db;
  ss_now : Z;
  ss_faults : list bool;
}.

Definition call {A} (s : SqliteStore) (op : Db → result StateError (Db * A)) : SqliteStore * result StateError A :=
  match ss_faults s with
  | true :: faults => ({| ss_db := ss_db s; ss_now := ss_now s + NANOS; ss_faults := faults |}, Err Unavailable)
  | faults =>
      match op (ss_db s) with
      | Ok (d, a) => ({| ss_db := d; ss_now := ss_now s + NANOS; ss_faults := tail faults |}, Ok a)
      | Err e => ({| ss_db := ss_db s; ss_now := ss_now s + NANOS; ss_faults := tail faults |}, Err e)
      end
  end.

Definition no_value (r : result StateError Db) : result StateError (Db * unit) := (λ d, (d, tt)) <$> r.

#[export] Instance SqliteStore_finalization : DownloadFinalizationStore SqliteStore := {
  db_mark_downloaded_with_capture_repair w s :=
    call s (λ d, no_value (mark_downloaded_with_capture_repair (ss_now s) (pw_library w) (pw_asset_id w)
      (VersionSizeKey_as_str (pw_version_size w)) (pw_download_path w) (pw_local_checksum w) (pw_download_checksum w)
      (pw_mark_capture_repair w) d));
  db_mark_failed k error s := call s (λ d, no_value (mark_failed k.1.1 k.1.2 k.2 error d));
  db_record_metadata_write_failure k s :=
    call s (λ d, Ok (record_metadata_write_failure (ss_now s) k.1.1 k.1.2 k.2 d, tt));
}.

(** The row says what the write says. *)
Definition sqlite_persisted (w : PendingStateWrite) (s : SqliteStore) : Prop :=
  ∃ row, assets (ss_db s) !! write_key w = Some row ∧ r_status row = Downloaded
    ∧ r_local_path row = Some (pw_download_path w) ∧ r_local_checksum row = Some (pw_local_checksum w)
    ∧ (∀ c, pw_download_checksum w = Some c → r_download_checksum row = Some c)
    ∧ (pw_mark_capture_repair w = true → capture_repair_metadata_hash (r_receipt row) = metadata_hash row).
