(* ===== verification/FinalizeSpec.v ===== *)
(** * No finished download is lost

    The laws of [Finalize.v], proved against the store's interface: deferred
    writes are kept until a store acknowledges them, the retry of one write is
    bounded and outlasts short faults, the circuit breaker opens only when the
    store refused everything, and a checkpoint advances only over recorded
    downloads.  The SQLite store of [StateDb.v] behind transient faults
    satisfies the interface. *)
From S2P Require Import Prelude RustStr Types Paths Filter FilterSpec Retry Stats Checkpoint StateTypes StateDb StateDbSpec StateLaws Finalize.

(** ** Flushing deferred writes *)

Section Flush.
Context {St : Type} `{FinalizationLaws St}.
Context (jitter : Z → Z → Z).

Lemma retry_write_loop_spec n attempt w s s' done pauses :
  retry_write_loop jitter n attempt w s = (s', done, pauses) →
  (done = true → persisted w s') ∧ ∀ w', write_key w' <> write_key w → persisted w' s → persisted w' s'.
Proof.
  revert attempt s pauses. induction n as [|n IH]; intros attempt s pauses; cbn.
  { by intros [= <- <- _]. }
  destruct (db_mark_downloaded_with_capture_repair w s) as [s1 [[]|e]] eqn:Em.
  - intros [= <- <- _]. split; [intros _; by eapply mark_persists|]. intros w' Hw. by eapply mark_keeps.
  - destruct (retry_write_loop jitter n (attempt + 1) w s1) as [[s2 d2] p2] eqn:El. intros [= <- <- _].
    destruct (IH _ _ _ El) as [H1 H2]. split; [done|]. intros w' Hw Hp. apply H2; [done|]. by eapply mark_keeps.
Qed.

Lemma flush_writes_spec pending s s' failed : flush_writes jitter pending s = (s', failed) → NoDup (write_key <$> pending) →
  failed `sublist_of` pending ∧ (∀ w, w ∈ pending → w ∈ failed ∨ persisted w s')
  ∧ ∀ w', write_key w' ∉ write_key <$> pending → persisted w' s → persisted w' s'.
Proof.
  revert s s' failed. induction pending as [|w pending IH]; intros s s' failed; cbn.
  { intros [= <- <-] _. split_and!; [done|by intros ? ?%elem_of_nil|done]. }
  destruct (retry_pending_state_write jitter w s) as [[s1 done] p] eqn:Er.
  destruct (flush_writes jitter pending s1) as [s2 f2] eqn:Ef. intros [= <- <-] [Hn Hnd]%NoDup_cons.
  destruct (retry_write_loop_spec _ _ _ _ _ _ _ Er) as [H1 H2]. destruct (IH _ _ _ Ef Hnd) as (H3 & H4 & H5).
  split_and!.
  - destruct done; by constructor.
  - intros w' [->|Hin]%elem_of_cons.
    + destruct done; [right; by apply H5, H1|left; constructor].
    + destruct (H4 w' Hin); [left|by right]. destruct done; [done|by constructor].
  - intros w' Hw Hp. apply not_elem_of_cons in Hw as [Hw Hws]. by apply H5, H2.
Qed.

Lemma flush_retaining_spec pending s s' pending' fl :
  flush_pending_state_writes_retaining_failures jitter pending s = (s', pending', fl) → NoDup (write_key <$> pending) →
  pending' `sublist_of` pending ∧ fl_attempted fl = zlen pending ∧ fl_failures fl = zlen pending'
  ∧ (∀ w, w ∈ pending → w ∈ pending' ∨ persisted w s')
  ∧ ∀ w', write_key w' ∉ write_key <$> pending → persisted w' s → persisted w' s'.
Proof.
  unfold flush_pending_state_writes_retaining_failures. destruct pending as [|w pending].
  { intros [= <- <- <-] _. split_and!; [done..|by intros ? ?%elem_of_nil|done]. }
  destruct (flush_writes jitter (w :: pending) s) as [s1 f1] eqn:Ef. intros [= <- <- <-] Hnd.
  destruct (flush_writes_spec _ _ _ _ Ef Hnd) as (H1 & H2 & H3). by split_and!.
Qed.

Lemma sublist_eq {A} (l k : list A) : l `sublist_of` k → length l = length k → l = k.
Proof.
  induction 1 as [|x l k Hs IH|x l k Hs IH]; cbn; intros Hl; [done|f_equal; apply IH; lia|].
  apply sublist_length in Hs. lia.
Qed.

Lemma breaker_spec pending s s' pending' err :
  check_state_write_circuit_breaker jitter pending s = (s', pending', err) → NoDup (write_key <$> pending) →
  pending' `sublist_of` pending ∧ (∀ w, w ∈ pending → w ∈ pending' ∨ persisted w s')
  ∧ (∀ w', write_key w' ∉ write_key <$> pending → persisted w' s → persisted w' s')
  ∧ (zlen pending < 5 → s' = s ∧ pending' = pending ∧ err = None)
  ∧ (∀ n, err = Some n → n = zlen pending ∧ 5 <= n ∧ pending' = pending)
  ∧ (5 <= zlen pending → err = None → zlen pending' < zlen pending).
Proof.
  unfold check_state_write_circuit_breaker, STATE_DB_UNWRITABLE_THRESHOLD.
  destruct (Z.ltb_spec (zlen pending) 5) as [Hl|Hl]; [intros [= <- <- <-] _; split_and!; try done; auto; lia|].
  destruct (flush_pending_state_writes_retaining_failures jitter pending s) as [[s1 p1] fl] eqn:Ef. intros [= <- <- <-] Hnd.
  destruct (flush_retaining_spec _ _ _ _ _ Ef Hnd) as (H1 & H2 & H3 & H4 & H5).
  unfold state_write_circuit_breaker_tripped, STATE_DB_UNWRITABLE_THRESHOLD. rewrite H2, H3.
  rewrite (proj2 (Z.leb_le 5 (zlen pending))) by done. cbn.
  split_and!; [done|done|done|lia| |].
  - intros n. destruct (Z.eqb_spec (zlen p1) (zlen pending)) as [E|E]; [|done]. intros [= <-].
    split_and!; [done|lia|]. apply sublist_eq; [done|lia].
  - intros _. destruct (Z.eqb_spec (zlen p1) (zlen pending)) as [E|E]; [done|]. intros _.
    apply sublist_length in H1. lia.
Qed.

(** flushing the deferred writes loses none: every write is acknowledged
    by the store or still pending, in the order it was deferred; the report
    counts the attempted and the still pending ones.  The circuit breaker looks
    only at five or more pending writes and opens exactly when the store
    refused every one of them, which are then all still pending. *)
Theorem flush_loses_nothing pending s s1 pending1 fl s2 pending2 err :
  NoDup (write_key <$> pending) →
  flush_pending_state_writes_retaining_failures jitter pending s = (s1, pending1, fl) →
  check_state_write_circuit_breaker jitter pending s = (s2, pending2, err) →
  (pending1 `sublist_of` pending ∧ fl_attempted fl = zlen pending ∧ fl_failures fl = zlen pending1
   ∧ ∀ w, w ∈ pending → w ∈ pending1 ∨ persisted w s1)
  ∧ (∀ w, w ∈ pending → w ∈ pending2 ∨ persisted w s2)
  ∧ (zlen pending < 5 → s2 = s ∧ pending2 = pending ∧ err = None)
  ∧ (5 <= zlen pending → s2 = s1 ∧ pending2 = pending1
     ∧ (is_Some err ↔ pending1 = pending) ∧ ∀ n, err = Some n → n = zlen pending).
Proof.
  intros Hnd Hf Hc. destruct (flush_retaining_spec _ _ _ _ _ Hf Hnd) as (H1 & H2 & H3 & H4 & _).
  destruct (breaker_spec _ _ _ _ _ Hc Hnd) as (_ & B2 & _ & B4 & B5 & B6). split_and!; try done.
  intros Hl. unfold check_state_write_circuit_breaker, STATE_DB_UNWRITABLE_THRESHOLD in Hc.
  rewrite (proj2 (Z.ltb_ge _ _)), Hf in Hc by done. injection Hc as <- <- He. split_and!; [done|done| |].
  - split; [intros [n ->]; by apply (B5 n)|]. intros ->. destruct err; [by eexists|]. specialize (B6 Hl eq_refl). lia.
  - intros n En. by apply (B5 n).
Qed.
End Flush.

(** ** The consumer *)

Section ConsumerSpec.
Context `{FilterEnv} {St : Type} `{FinalizationLaws St}.
Context (jitter : Z → Z → Z).
Context {IoError BoxError AnyError : Type} (downcast : AnyError → option (@DownloadError IoError BoxError AnyError))
  (to_string : AnyError → str).
Context (mark_capture_repair : bool).
Abbreviation finished := (DownloadTask * result AnyError Transfer)%type.
Abbreviation run_consumer := (consume jitter downcast to_string true mark_capture_repair).

Definition write_of (task : DownloadTask) (r : Transfer) : PendingStateWrite :=
  task_write task (tr_local_checksum r) (tr_download_checksum r) mark_capture_repair.

(** Still pending, or recorded and without a pending write of its key. *)
Definition settled (w : PendingStateWrite) (pending : list PendingStateWrite) (s : St) : Prop :=
  w ∈ pending ∨ (persisted w s ∧ write_key w ∉ write_key <$> pending).

Lemma settle (p p2 : list PendingStateWrite) (s2 : St) w : p2 `sublist_of` p → NoDup (write_key <$> p) →
  (∀ w, w ∈ p → w ∈ p2 ∨ persisted w s2) → w ∈ p → settled w p2 s2.
Proof.
  intros Hsub Hnd Hall Hin. destruct (decide (write_key w ∈ write_key <$> p2)) as [Hk|Hk].
  - left. apply list_elem_of_fmap in Hk as (w2 & Hk & Hin2).
    assert (w2 ∈ p) as Hin3 by (by eapply elem_of_sublist).
    apply list_elem_of_lookup in Hin as [i Hi], Hin3 as [j Hj].
    assert (i = j) as -> by (eapply (NoDup_lookup (write_key <$> p)); rewrite ?list_lookup_fmap, ?Hi, ?Hj; cbn; [done|done|by rewrite Hk]).
    congruence.
  - destruct (Hall w Hin); [by left|by right].
Qed.

(** What holds of the consumed results [done]. *)
Record consumed (done : list finished) (s : St) (c : Consumer) : Prop := {
  cons_kept : ∀ task r, (task, Ok r) ∈ done → settled (write_of task r) (co_pending c) s;
  cons_pending : ∀ w, w ∈ co_pending c → ∃ task r, (task, Ok r) ∈ done ∧ w = write_of task r;
  cons_distinct : NoDup (write_key <$> co_pending c);
  cons_downloaded : co_downloaded c = zlen (List.filter (λ o : finished, is_ok o.2) done);
  cons_failed : co_failed c = omap (λ o : finished, match o.2 with
      | Ok _ => None
      | Err e => match classify_download_task_error downcast e with
                 | ClassOther | ClassSessionExpired => Some o.1
                 | _ => None
                 end
      end) done;
  cons_auth : co_auth_errors c = zlen (List.filter (λ o : finished, match o.2 with
      | Ok _ => false
      | Err e => bool_decide (classify_download_task_error downcast e = ClassSessionExpired)
      end) done);
  cons_circuit : ∀ n, co_circuit_error c = Some n → co_cancelled c = true ∧ 5 <= zlen (co_pending c);
}.

Lemma consumed_new s : consumed [] s Consumer_new.
Proof. split; cbn; try done; [intros ?? ?%elem_of_nil; done|intros ? ?%elem_of_nil; done|constructor]. Qed.

(** A write of another key than those consumed. *)
Lemma fresh_key done s c task (k : key3) : consumed done s c → k ∉ (λ o : finished, task_key o.1) <$> done →
  k = task_key task → k ∉ write_key <$> co_pending c.
Proof.
  intros Hc Hk -> Hin. apply list_elem_of_fmap in Hin as (w & Hw & Hin).
  destruct (cons_pending _ _ _ Hc w Hin) as (t & r & Ht & ->). apply Hk.
  apply list_elem_of_fmap. exists (t, Ok r). split; [|done]. cbn. by rewrite Hw.
Qed.

Lemma done_key (done : list finished) (task : DownloadTask) (r : Transfer) : (task, Ok r) ∈ done → task_key task ∈ (λ o : finished, task_key o.1) <$> done.
Proof. intros Hin. apply list_elem_of_fmap. by exists (task, Ok r). Qed.

Lemma filter_snoc {A} (p : A → bool) l x : List.filter p (l ++ [x]) = List.filter p l ++ (if p x then [x] else []).
Proof. rewrite List.filter_app. cbn. by destruct (p x). Qed.

(** Calls about the key of a new result keep what was persisted. *)
Lemma consumed_keeps done s s' c k : consumed done s c → k ∉ (λ o : finished, task_key o.1) <$> done →
  (∀ w, write_key w <> k → persisted w s → persisted w s') → consumed done s' c.
Proof.
  intros Hc Hk Hkeep. destruct Hc. split; try done. intros task r Hin.
  destruct (cons_kept0 task r Hin) as [|[Hp Hn]]; [by left|right]. split; [|done]. apply Hkeep; [|done].
  intros Heq. apply Hk. rewrite <- Heq. by eapply done_key.
Qed.

Lemma consume_success_spec done s c task r s' c' :
  consumed done s c → task_key task ∉ (λ o : finished, task_key o.1) <$> done →
  consume_success jitter true mark_capture_repair task r s c = (s', c') → consumed (done ++ [(task, Ok r)]) s' c'.
Proof.
  intros Hc Hk. unfold consume_success, finalize_downloaded. cbn [negb].
  change (task_write task (tr_local_checksum r) (tr_download_checksum r) mark_capture_repair) with (write_of task r).
  destruct (db_mark_downloaded_with_capture_repair (write_of task r) s) as [s1 [[]|e]] eqn:Em.
  - intros [= <- <-].
    assert (persisted (write_of task r) (update_metadata_marker (task_key task) (tr_exif_ok r) s1)) as Hp.
    { apply mark_persists in Em. unfold update_metadata_marker. destruct (tr_exif_ok r); [done|].
      destruct (db_record_metadata_write_failure (task_key task) s1) as [s2 rr] eqn:E2. by eapply write_failure_keeps. }
    assert (consumed done (update_metadata_marker (task_key task) (tr_exif_ok r) s1) c) as Hc1.
    { apply (consumed_keeps _ s _ _ (task_key task)); [done|done|]. intros w Hw Hpw.
      assert (persisted w s1) by (by eapply mark_keeps). unfold update_metadata_marker. destruct (tr_exif_ok r); [done|].
      destruct (db_record_metadata_write_failure (task_key task) s1) as [s2 rr] eqn:E2. by eapply write_failure_keeps. }
    destruct Hc1. split; cbn.
    + intros t r' [Hin|[= -> ->]%list_elem_of_singleton]%elem_of_app; [by apply cons_kept0|right]. split; [done|]. by eapply (fresh_key done s c task).
    + intros w Hw. destruct (cons_pending0 w Hw) as (t & r' & Hin & ->). exists t, r'. split; [|done].
      apply elem_of_app. by left.
    + done.
    + rewrite filter_snoc, length_app, cons_downloaded0. cbn. lia.
    + rewrite omap_app, cons_failed0. cbn. by rewrite app_nil_r.
    + rewrite filter_snoc, cons_auth0. cbn. by rewrite app_nil_r.
    + done.
  - assert (NoDup (write_key <$> co_pending c ++ [write_of task r])) as Hnd.
    { rewrite fmap_app. apply NoDup_app. split_and!; [apply Hc| |apply NoDup_singleton].
      intros k Hin Hs%list_elem_of_singleton. subst k. by apply (fresh_key done s c task _ Hc) in Hin. }
    assert (∀ w, write_key w <> task_key task → persisted w s → persisted w s1) as Hk1.
    { intros w Hw Hp. by eapply mark_keeps. }
    assert (∀ w, w ∈ co_pending c ++ [write_of task r] → ∃ t r', (t, Ok r') ∈ done ++ [(task, Ok r)] ∧ w = write_of t r') as Hfrom.
    { intros w [Hw|Hw%list_elem_of_singleton]%elem_of_app.
      - destruct (cons_pending _ _ _ Hc w Hw) as (t & r' & Hin & ->). exists t, r'. split; [|done]. apply elem_of_app. by left.
      - exists task, r. split; [|done]. apply elem_of_app. right. by apply list_elem_of_singleton. }
    assert (∀ s2 p2 e2 b, p2 `sublist_of` co_pending c ++ [write_of task r] →
      (∀ w, w ∈ co_pending c ++ [write_of task r] → w ∈ p2 ∨ persisted w s2) →
      (∀ w, write_key w ∉ write_key <$> co_pending c ++ [write_of task r] → persisted w s1 → persisted w s2) →
      (∀ n, e2 = Some n → (co_cancelled c || b) = true ∧ 5 <= zlen p2) →
      consumed (done ++ [(task, Ok r)]) s2 (set_pending (count_success task r c) p2 e2 b)) as Hgoal.
    { intros s2 p2 e2 b Hsub Hall Hkeep He. split; cbn.
      - intros t r' [Hin|[= -> ->]%list_elem_of_singleton]%elem_of_app.
        2: { apply (settle _ _ _ _ Hsub Hnd Hall), elem_of_app. right. by apply list_elem_of_singleton. }
        destruct (cons_kept _ _ _ Hc t r' Hin) as [Hp|[Hp Hn]].
        { apply (settle _ _ _ _ Hsub Hnd Hall), elem_of_app. by left. }
        assert (write_key (write_of t r') <> task_key task) as Hne.
        { intros Heq. apply Hk. rewrite <- Heq. by eapply done_key. }
        assert (write_key (write_of t r') ∉ write_key <$> co_pending c ++ [write_of task r]) as Hn2.
        { rewrite fmap_app, elem_of_app. intros [?|Hs%list_elem_of_singleton]; [done|by apply Hne]. }
        right. split; [by apply Hkeep, Hk1|]. intros Hin2. apply Hn2. eapply elem_of_sublist; [done|by apply fmap_sublist].
      - intros w Hw. apply Hfrom. by eapply elem_of_sublist.
      - eapply sublist_NoDup; [exact Hnd|by apply fmap_sublist].
      - rewrite filter_snoc, length_app, (cons_downloaded _ _ _ Hc). cbn. lia.
      - rewrite omap_app, (cons_failed _ _ _ Hc). cbn. by rewrite app_nil_r.
      - rewrite filter_snoc, (cons_auth _ _ _ Hc). cbn. by rewrite app_nil_r.
      - done. }
    destruct (co_circuit_error (count_success task r c)) as [e0|] eqn:Ec.
    + intros [= <- <-]. destruct (cons_circuit _ _ _ Hc e0 Ec) as [Hcan Hlen].
      apply Hgoal; [done|auto|done|]. intros n _. rewrite Hcan, length_app. split; [done|lia].
    + destruct (check_state_write_circuit_breaker jitter (co_pending (count_success task r c) ++ [write_of task r]) s1)
        as [[s2 p2] e2] eqn:Eb. intros [= <- <-].
      destruct (breaker_spec _ _ _ _ _ _ Eb Hnd) as (B1 & B2 & B3 & _ & B5 & _). apply Hgoal; [done..|].
      intros n En. destruct (B5 n En) as (-> & Hl & ->). rewrite En, orb_true_r. done.
Qed.

Lemma consume_error_spec done s c task e s' c' stop :
  consumed done s c → task_key task ∉ (λ o : finished, task_key o.1) <$> done →
  consume_error downcast to_string true task e s c = (s', c', stop) →
  if stop then s' = s ∧ c' = count_auth_error c ∧ co_auth_errors c' = co_auth_errors c + 1
               ∧ AUTH_ERROR_THRESHOLD <= co_auth_errors c'
               ∧ classify_download_task_error downcast e = ClassSessionExpired
  else consumed (done ++ [(task, Err e)]) s' c'.
Proof.
  intros Hc Hk. unfold consume_error.
  assert (∀ w, write_key w <> task_key task → persisted w s → persisted w (finalize_failed task (to_string e) s).1) as Hkeep.
  { intros w Hw Hp. unfold finalize_failed.
    destruct (db_mark_failed (task_key task) (match dt_publication task with NoReplace => _ | _ => _ end) s) as [s1 r1] eqn:Em.
    by eapply mark_failed_keeps. }
  pose proof (consumed_keeps _ _ _ _ _ Hc Hk Hkeep) as Hcf. clear Hkeep.
  assert (∀ (s1 : St) (c1 : Consumer), consumed done s1 c → co_pending c1 = co_pending c →
    co_downloaded c1 = co_downloaded c → co_circuit_error c1 = co_circuit_error c →
    (co_cancelled c = true → co_cancelled c1 = true) →
    co_failed c1 = co_failed c ++ (match classify_download_task_error downcast e with
                                   | ClassOther | ClassSessionExpired => [task] | _ => [] end) →
    co_auth_errors c1 = co_auth_errors c + (if bool_decide (classify_download_task_error downcast e = ClassSessionExpired) then 1 else 0) →
    consumed (done ++ [(task, Err e)]) s1 c1) as Hgoal.
  { intros s1 c1 [K1 K2 K3 K4 K5 K6 K7] E1 E2 E3 E4 E5 E6. split.
    - rewrite E1. intros t r [Hin|Hin%list_elem_of_singleton]%elem_of_app; [by apply K1|done].
    - rewrite E1. intros w Hw. destruct (K2 w Hw) as (t & r & Hin & ->). exists t, r. split; [|done]. apply elem_of_app. by left.
    - by rewrite E1.
    - rewrite E2, K4, filter_snoc. cbn. by rewrite app_nil_r.
    - rewrite E5, K5, omap_app. cbn. by destruct (classify_download_task_error downcast e).
    - rewrite E6, K6, filter_snoc, length_app. cbn. destruct (bool_decide _); cbn; lia.
    - rewrite E1, E3. intros n En. destruct (K7 n En). eauto. }
  destruct (classify_download_task_error downcast e) eqn:Ecl.
  - intros [= <- <- <-]. apply Hgoal; try done; cbn; by rewrite ?app_nil_r, ?Z.add_0_r.
  - destruct (Z.leb_spec AUTH_ERROR_THRESHOLD (co_auth_errors (count_auth_error c))); intros [= <- <- <-]; [done|].
    apply Hgoal; done.
  - intros [= <- <- <-]. apply Hgoal; try done; cbn; by rewrite ?app_nil_r, ?Z.add_0_r.
  - intros [= <- <- <-]. apply Hgoal; try done. cbn. by rewrite Z.add_0_r.
Qed.

#[local] Arguments consume_success : simpl never.
#[local] Arguments consume_error : simpl never.

(** The results up to the one that ends the loop. *)
Lemma consume_spec results done s c s' c' : consumed done s c →
  NoDup ((λ o : finished, task_key o.1) <$> done ++ results) → run_consumer results s c = (s', c') →
  ∃ pre post c0, results = pre ++ post ∧ consumed (done ++ pre) s' c0
    ∧ ((post = [] ∧ c' = c0) ∨ (∃ task e rest, post = (task, Err e) :: rest
         ∧ classify_download_task_error downcast e = ClassSessionExpired
         ∧ c' = count_auth_error c0 ∧ AUTH_ERROR_THRESHOLD <= co_auth_errors c')).
Proof.
  revert done s c. induction results as [|[task r] rest IH]; intros done s c Hc Hnd; cbn.
  { intros [= <- <-]. exists [], [], c. rewrite !app_nil_r. split_and!; [done|done|by left]. }
  assert (task_key task ∉ (λ o : finished, task_key o.1) <$> done) as Hk.
  { rewrite fmap_app in Hnd. apply NoDup_app in Hnd as (_ & Hd & _). intros Hin. apply (Hd _ Hin). cbn. constructor. }
  assert (∀ s1 c1, consumed (done ++ [(task, r)]) s1 c1 → run_consumer rest s1 c1 = (s', c') →
    ∃ pre post c0, (task, r) :: rest = pre ++ post ∧ consumed (done ++ pre) s' c0
    ∧ ((post = [] ∧ c' = c0) ∨ (∃ task e rest, post = (task, Err e) :: rest
         ∧ classify_download_task_error downcast e = ClassSessionExpired
         ∧ c' = count_auth_error c0 ∧ AUTH_ERROR_THRESHOLD <= co_auth_errors c'))) as Hnext.
  { intros s1 c1 Hc1 Hrun. destruct (IH (done ++ [(task, r)]) s1 c1 Hc1) as (pre & post & c0 & -> & H1' & H2'); [|done|].
    - by rewrite <- app_assoc.
    - exists ((task, r) :: pre), post, c0. split_and!; [done| |done]. by rewrite <- app_assoc in H1'. }
  destruct r as [tr|e].
  - destruct (consume_success jitter true mark_capture_repair task tr s c) as [s1 c1] eqn:E1.
    apply (Hnext s1 c1). by eapply consume_success_spec.
  - destruct (consume_error downcast to_string true task e s c) as [[s1 c1] stop] eqn:E1.
    pose proof (consume_error_spec _ _ _ _ _ _ _ _ Hc Hk E1) as He. destruct stop; [|by apply (Hnext s1 c1)].
    destruct He as (-> & -> & _ & Hth & Hcl). intros [= <- <-]. exists [], ((task, Err e) :: rest), c.
    split_and!; [done|by rewrite app_nil_r|]. right. by exists task, e, rest.
Qed.

(** C30: a pipeline run with a store, over tasks of distinct keys, loses no
    finished transfer: the consumer takes a prefix of the results, all of them
    unless the third expired session ends it; it counts the successes of the
    prefix and keeps the failed tasks in order; after the last flush every
    success of the prefix is recorded in the store or reported as a failed
    state write, so that if the checkpoint then advances, with statistics that
    count the reported failures, every one of them is recorded. *)
Theorem no_finished_transfer_is_lost results s s1 c s2 c2 fl :
  NoDup ((λ o : finished, task_key o.1) <$> results) →
  run_consumer results s Consumer_new = (s1, c) →
  final_state_flush jitter true s1 c = (s2, c2, fl) →
  ∃ pre post, results = pre ++ post
    ∧ (post = [] ∨ (AUTH_ERROR_THRESHOLD <= co_auth_errors c ∧ ∃ task e rest, post = (task, Err e) :: rest))
    ∧ co_downloaded c2 = zlen (List.filter (λ o : finished, is_ok o.2) pre)
    ∧ co_failed c2 = omap (λ o : finished, match o.2 with
        | Ok _ => None
        | Err e => match classify_download_task_error downcast e with
                   | ClassOther | ClassSessionExpired => Some o.1
                   | _ => None
                   end
        end) pre
    ∧ fl_failures fl = zlen (co_pending c2)
    ∧ (∀ task r, (task, Ok r) ∈ pre → write_of task r ∈ co_pending c2 ∨ persisted (write_of task r) s2)
    ∧ ∀ result stale basis token basis', fl_failures fl <= state_write_failures (stats result) →
        source_checkpoint_decision result false stale basis = Advance token basis' →
        ∀ task r, (task, Ok r) ∈ pre → persisted (write_of task r) s2.
Proof.
  intros Hnd Hrun Hfl. destruct (consume_spec results [] s Consumer_new s1 c (consumed_new s) Hnd Hrun)
    as (pre & post & c0 & -> & Hc & Hend). cbn [app] in Hc.
  assert (co_downloaded c = co_downloaded c0 ∧ co_failed c = co_failed c0 ∧ co_pending c = co_pending c0
    ∧ co_circuit_error c = co_circuit_error c0
    ∧ (post = [] ∨ (AUTH_ERROR_THRESHOLD <= co_auth_errors c ∧ ∃ task e rest, post = (task, Err e) :: rest)))
    as (E1 & E2 & E3 & E4 & E5).
  { destruct Hend as [[-> ->]|(task & e & rest & -> & _ & -> & Hth)]; split_and!; try done; [by left|right].
    split; [done|]. by exists task, e, rest. }
  assert (co_downloaded c2 = co_downloaded c ∧ co_failed c2 = co_failed c ∧ fl_failures fl = zlen (co_pending c2)
    ∧ ∀ w, settled w (co_pending c) s1 → w ∈ co_pending c2 ∨ persisted w s2) as (F1 & F2 & F3 & F4).
  { unfold final_state_flush in Hfl. cbn [negb] in Hfl. destruct (co_circuit_error c) as [e0|].
    - injection Hfl as <- <- <-. split_and!; try done. intros w [Hw|[Hw _]]; [by left|by right].
    - destruct (flush_pending_state_writes_retaining_failures jitter (co_pending c) s1) as [[s3 p3] f3] eqn:Ef.
      injection Hfl as <- <- <-. rewrite E3 in *.
      destruct (flush_retaining_spec _ _ _ _ _ _ Ef (cons_distinct _ _ _ Hc)) as (G1 & G2 & G3 & G4 & G5).
      split_and!; try done. intros w [Hw|[Hp Hn]]; [by apply G4|right; by apply G5]. }
  assert (∀ task r, (task, Ok r) ∈ pre → write_of task r ∈ co_pending c2 ∨ persisted (write_of task r) s2) as Hall.
  { intros task r Hin. apply F4. rewrite E3. by apply (cons_kept _ _ _ Hc). }
  exists pre, post. split_and!; [done|done|by rewrite F1, E1, (cons_downloaded _ _ _ Hc)
    |by rewrite F2, E2, (cons_failed _ _ _ Hc)|done|done|].
  intros result stale basis token basis' Hle Hadv task r Hin. destruct (Hall task r Hin) as [Hp|]; [exfalso|done].
  assert (1 <= fl_failures fl) by (rewrite F3; destruct (co_pending c2); [by apply elem_of_nil in Hp|cbn; lia]).
  unfold source_checkpoint_decision in Hadv. destruct stale; [done|]. destruct (match outcome result with SessionExpired _ => _ | _ => _ end); [done|].
  destruct (interrupted _); [done|]. destruct (_ || _); [done|].
  rewrite (proj2 (Z.ltb_lt 0 _)) in Hadv by lia. done.
Qed.
End ConsumerSpec.

(** ** The SQLite store *)

Lemma call_result {A} (s s' : SqliteStore) op (r : result StateError A) : call s op = (s', r) →
  match r with
  | Ok a => ∃ d, op (ss_db s) = Ok (d, a) ∧ ss_db s' = d
  | Err _ => ss_db s' = ss_db s
  end.
Proof.
  unfold call. destruct (ss_faults s) as [|[] faults]; [| by intros [= <- <-]|];
    (destruct (op (ss_db s)) as [[d a]|e] eqn:E; intros [= <- <-]; [by exists d|done]).
Qed.

Section Sqlite.
Context `{StateEnv}.

Lemma marked_row now l i v p c dc repair d d' :
  mark_downloaded_with_capture_repair now l i v p c dc repair d = Ok d' →
  ∃ row, assets d !! (l, i, v) = Some row
    ∧ assets d' = <[(l, i, v) := downloaded_row row p c dc repair (timestamp now)]> (assets d).
Proof.
  unfold mark_downloaded_with_capture_repair, update_status_to_downloaded.
  destruct (assets d !! (l, i, v)) as [row|] eqn:E; [|done]. cbn. intros [= <-].
  exists row. by rewrite record_revision_assets.
Qed.

Lemma persisted_row (w : PendingStateWrite) (s s' : SqliteStore) : assets (ss_db s') !! write_key w = assets (ss_db s) !! write_key w →
  sqlite_persisted w s → sqlite_persisted w s'.
Proof. unfold sqlite_persisted. by intros ->. Qed.

#[export] Program Instance SqliteStore_laws : FinalizationLaws SqliteStore := {| persisted := sqlite_persisted |}.
Next Obligation.
  intros w s s' Hc%call_result. cbn in Hc. destruct Hc as (d & Hop & Hd). unfold no_value in Hop.
  destruct (mark_downloaded_with_capture_repair _ _ _ _ _ _ _ _ _) as [d1|] eqn:Em; [|done]. injection Hop as ->.
  apply marked_row in Em as (row & E & Ea). unfold sqlite_persisted. rewrite Hd, Ea.
  eexists. split; [by apply lookup_insert_eq|]. cbn. split_and!; try done; [intros c ->; done|intros ->; done].
Qed.
Next Obligation.
  intros w w' s s' r Hc%call_result Hk. apply persisted_row. cbn in Hc. destruct r as [[]|e]; [|by rewrite Hc].
  destruct Hc as (d & Hop & ->). unfold no_value in Hop.
  destruct (mark_downloaded_with_capture_repair _ _ _ _ _ _ _ _ _) as [d1|] eqn:Em; [|done]. injection Hop as ->.
  apply marked_row in Em as (row & E & ->). by rewrite lookup_insert_ne.
Qed.
Next Obligation.
  intros [[l i] v] error w' s s' r Hc%call_result Hk. apply persisted_row. cbn in Hc. destruct r as [[]|e]; [|by rewrite Hc].
  destruct Hc as (d & Hop & ->). unfold no_value, mark_failed in Hop.
  destruct (assets (ss_db s) !! (l, i, v)); [|done]. injection Hop as <-. cbn. by rewrite lookup_insert_ne.
Qed.
Next Obligation.
  intros [[l i] v] w' s s' r Hc%call_result. cbn in Hc. destruct r as [[]|e]; [|by apply persisted_row; rewrite Hc].
  destruct Hc as (d & Hop & Hd). injection Hop as <-. unfold sqlite_persisted.
  intros (row & E & H1 & H2 & H3 & H4 & H5). rewrite Hd. unfold record_metadata_write_failure. cbn.
  rewrite lookup_update, E. cbn. eexists. split; [done|].
  destruct (bool_decide _); by split_and!.
Qed.

(** ** Pauses *)

Context (jitter : Z → Z → Z).

Lemma pauses_bound n attempt w (s s' : SqliteStore) done pauses : (∀ a n, 0 < n → 0 <= jitter a n < n) →
  1 <= attempt → attempt + Z.of_nat n = 7 →
  retry_write_loop jitter n attempt w s = (s', done, pauses) →
  0 <= foldr Z.add 0 pauses <= Z.max 0 (250 * (32 - 2 ^ (attempt - 1))) ∧ zlen pauses <= Z.max 0 (6 - attempt).
Proof.
  intros Hj. revert attempt s pauses. induction n as [|n IH]; intros attempt s pauses Ha Hn; cbn -[Z.pow Z.div].
  { intros [= <- <- <-]. cbn -[Z.pow]. lia. }
  destruct (call s _) as [s1 [[]|e]].
  - intros [= <- <- <-]. cbn -[Z.pow]. lia.
  - destruct (retry_write_loop jitter n (attempt + 1) w s1) as [[s2 d2] p2] eqn:El. intros [= <- <- <-].
    destruct (IH (attempt + 1) s1 p2 ltac:(lia) ltac:(lia) El) as [H1 H2]. unfold STATE_WRITE_MAX_RETRIES.
    destruct (Z.ltb_spec attempt 6); cbn -[Z.pow Z.div]; [|replace attempt with 6 in * by lia; cbn in H1, H2 |- *; lia].
    assert (base_ms attempt = 200 * 2 ^ (attempt - 1)) as Hb by (unfold base_ms; rewrite Z.shiftl_1_l; done).
    assert (0 < 2 ^ (attempt - 1)) by (apply Z.pow_pos_nonneg; lia).
    assert (2 ^ (attempt + 1 - 1) = 2 * 2 ^ (attempt - 1)) as Hp
      by (replace (attempt + 1 - 1) with (Z.succ (attempt - 1)) by lia; apply Z.pow_succ_r; lia).
    assert (2 ^ (attempt - 1) * 2 <= 32).
    { replace 32 with (2 ^ 4 * 2) by done. apply Z.mul_le_mono_nonneg_r; [lia|]. apply Z.pow_le_mono_r; lia. }
    assert (Z.max (base_ms attempt) 1 / 4 = 50 * 2 ^ (attempt - 1)) as Hq.
    { rewrite Z.max_l by lia. rewrite Hb. replace (200 * 2 ^ (attempt - 1)) with (50 * 2 ^ (attempt - 1) * 4) by lia. by rewrite Z.div_mul. }
    rewrite Hq, Hb. pose proof (Hj attempt (50 * 2 ^ (attempt - 1)) ltac:(lia)). rewrite Hp in H1. split; lia.
Qed.

Lemma retry_reaches n attempt w s k : (k < n)%nat → ss_faults s !! k <> Some true →
  is_Some (assets (ss_db s) !! write_key w) →
  ∃ s' pauses, retry_write_loop jitter n attempt w s = (s', true, pauses).
Proof.
  revert attempt s k. induction n as [|n IH]; intros attempt s k Hk Hf [row Hrow]; [lia|]. cbn -[Z.pow Z.div].
  destruct (ss_faults s) as [|f faults] eqn:Ef.
  - unfold call. rewrite Ef. unfold no_value, mark_downloaded_with_capture_repair, update_status_to_downloaded.
    change (pw_library w, pw_asset_id w, VersionSizeKey_as_str (pw_version_size w)) with (write_key w). rewrite Hrow. cbn. eauto.
  - unfold call at 1. rewrite Ef. destruct f.
    + destruct k as [|k]; [done|].
      destruct (IH (attempt + 1) {| ss_db := ss_db s; ss_now := ss_now s + NANOS; ss_faults := faults |} k) as (s2 & p2 & El);
        [lia|done|by eexists|]. rewrite El. eauto.
    + unfold no_value, mark_downloaded_with_capture_repair, update_status_to_downloaded.
      change (pw_library w, pw_asset_id w, VersionSizeKey_as_str (pw_version_size w)) with (write_key w). rewrite Hrow. cbn. eauto.
Qed.

(** the retry of a deferred write always ends, after at most five pauses
    that take less than 7.75 seconds together, and outlasts a short outage:
    when the row is known to the store and one of the next six calls is not hit
    by a fault, the write is recorded. *)
Theorem retry_outlasts_faults w s :
  (∀ a n, 0 < n → 0 <= jitter a n < n) →
  ∃ s' done pauses, retry_pending_state_write jitter w s = (s', done, pauses)
    ∧ zlen pauses <= 5 ∧ 0 <= foldr Z.add 0 pauses <= 7750
    ∧ (done = true → persisted w s')
    ∧ ∀ k, (k < 6)%nat → ss_faults s !! k <> Some true → is_Some (assets (ss_db s) !! write_key w) → done = true.
Proof.
  intros Hj. unfold retry_pending_state_write. change (Z.to_nat STATE_WRITE_MAX_RETRIES) with 6%nat.
  destruct (retry_write_loop jitter 6 1 w s) as [[s' done] pauses] eqn:El. exists s', done, pauses.
  destruct (pauses_bound 6 1 w s s' done pauses Hj ltac:(lia) ltac:(lia) El) as [H1 H2].
  split_and!; [done|lia|lia|lia|by apply (retry_write_loop_spec jitter _ _ _ _ _ _ _ El)|].
  intros k Hk Hf Hr. destruct (retry_reaches 6 1 w s k Hk Hf Hr) as (s2 & p2 & E2). rewrite E2 in El. by injection El as <- <- <-.
Qed.
End Sqlite.

(** ** A pipeline run on a concrete store *)

Module FinalizeRuns.
Import StateDbSpec.Samples.
#[export] Existing Instance sample_filter_env.

Definition no_jitter (a n : Z) : Z := 0.
Lemma no_jitter_ok a n : 0 < n → 0 <= no_jitter a n < n.
Proof. unfold no_jitter. lia. Qed.

(** Two known rows, and a store that refuses its first [n] calls. *)
Definition known : Db :=
  run [OUpsertSeen 1700000000000000000 (record "A" "c1" "m1"); OUpsertSeen 1700000000000000000 (record "B" "c2" "m2")] Db_empty.
Definition faulty (n : nat) : SqliteStore := {| ss_db := known; ss_now := 1700000001000000000; ss_faults := repeat true n |}.

Definition write (id : string) : PendingStateWrite :=
  {| pw_library := lit "PrimarySync"; pw_asset_id := lit id; pw_version_size := VOriginal;
     pw_download_path := lit "/photos/IMG_1.HEIC"; pw_local_checksum := lit "sha"; pw_download_checksum := None;
     pw_mark_capture_repair := false |}.
Definition pending : list PendingStateWrite := [write "A"; write "B"].

(** The first write is refused six times, the second is recorded. *)
Definition flushed := flush_pending_state_writes_retaining_failures no_jitter pending (faulty 7).
Definition checked := check_state_write_circuit_breaker no_jitter pending (faulty 7).

Lemma split3 {A B C} (x : A * B * C) : x = (x.1.1, x.1.2, x.2).
Proof. by destruct x as [[??]?]. Qed.

Lemma flush_loses_nothing_witness :
  flushed.1.2 = [write "A"] ∧ fl_failures flushed.2 = zlen flushed.1.2
  ∧ ∀ w, w ∈ pending → w ∈ flushed.1.2 ∨ persisted w flushed.1.1.
Proof.
  split; [vm_compute; reflexivity|].
  destruct (flush_loses_nothing no_jitter pending (faulty 7) flushed.1.1 flushed.1.2 flushed.2 checked.1.1 checked.1.2 checked.2)
    as ((_ & _ & H1 & H2) & _).
  - apply (bool_decide_unpack _). vm_compute. exact I.
  - apply split3.
  - apply split3.
  - exact (conj H1 H2).
Defined.

Lemma retry_outlasts_faults_witness :
  ∃ s' done pauses, retry_pending_state_write no_jitter (write "A") (faulty 5) = (s', done, pauses)
    ∧ zlen pauses <= 5 ∧ 0 <= foldr Z.add 0 pauses <= 7750 ∧ done = true ∧ persisted (write "A") s'.
Proof.
  destruct (retry_outlasts_faults no_jitter (write "A") (faulty 5) no_jitter_ok) as (s' & d & ps & H1 & H2 & H3 & H4 & H5).
  assert (d = true) as Hd by (apply (H5 5%nat); [lia|vm_compute; discriminate|vm_compute; eexists; reflexivity]).
  exists s', d, ps. exact (conj H1 (conj H2 (conj H3 (conj Hd (H4 Hd))))).
Defined.

Definition task (id : string) : DownloadTask :=
  {| dt_url := lit "https://u"; dt_download_path := lit "/photos/IMG_1.HEIC"; dt_publication := NoReplace;
     dt_checksum := lit "c"; dt_asset_id := lit id; dt_asset_record_name := lit id; dt_library := lit "PrimarySync";
     dt_metadata := from_metadata AssetMetadata_default; dt_size := 4096; dt_created_local := tt;
     dt_version_size := VOriginal; dt_media_type := Photo |}.
Definition transfer : Transfer :=
  {| tr_exif_ok := false; tr_local_checksum := lit "sha"; tr_download_checksum := None; tr_bytes := 4096; tr_disk_bytes := 4096 |}.

(** [A] is deferred and recorded by the last flush, [B] fails with a status
    from the server, [X] has no row in the store and stays deferred. *)
Definition results : list (DownloadTask * result (@DownloadError unit unit unit) Transfer) :=
  [(task "A", Ok transfer); (task "B", Err (HttpStatus 500 (lit "/photos/IMG_2.HEIC"))); (task "X", Ok transfer)].
Definition downcast (e : @DownloadError unit unit unit) : option (@DownloadError unit unit (@DownloadError unit unit unit)) :=
  match e with HttpStatus s p => Some (HttpStatus s p) | _ => None end.
Definition consumed_run :=
  consume no_jitter downcast (λ _, lit "error") true false results (faulty 1) Consumer_new.
Definition final_run := final_state_flush no_jitter true consumed_run.1 consumed_run.2.

Lemma no_finished_transfer_is_lost_witness :
  fl_failures final_run.2 = 1
  ∧ ∀ r, (task "A", Ok r) ∈ results → write_of false (task "A") r ∈ co_pending final_run.1.2
                                      ∨ persisted (write_of false (task "A") r) final_run.1.1.
Proof.
  split; [vm_compute; reflexivity|].
  destruct (no_finished_transfer_is_lost no_jitter downcast (λ _, lit "error") false results (faulty 1) consumed_run.1
    consumed_run.2 final_run.1.1 final_run.1.2 final_run.2) as (pre & post & Hres & Hend & _ & _ & _ & Hall & _).
  - apply (bool_decide_unpack _). vm_compute. exact I.
  - apply surjective_pairing.
  - apply split3.
  - intros r Hin. apply Hall. destruct Hend as [->|[Hth _]].
    + rewrite app_nil_r in Hres. rewrite <- Hres. exact Hin.
    + exfalso. revert Hth. vm_compute. intros Hth. exact (Hth eq_refl).
Defined.
End FinalizeRuns.
