(* ===== verification/Planner.v ===== *)
(** * Planning the tasks of an asset

    [src/download/planner.rs]: the planner carries the claimed paths and the
    directory cache of a pass from asset to asset; it plans tasks, finds
    existing files, and chooses the destination of a retry whose path is
    recorded.  Planned tasks are announced to the state store, an interface
    here, before they are dispatched. *)
From S2P Require Import Prelude RustStr Types Paths Filter StateTypes StateDb.

(** ** The path planner *)

Record TaskPlanner := {
  tp_claimed_paths : gmap str Z;
  tp_dir_cache : DirCache.t;
}.

Definition TaskPlanner_new : TaskPlanner := {| tp_claimed_paths := ∅; tp_dir_cache := DirCache.new |}.

Record AssetTaskPlan `{FilterEnv} := {
  atp_tasks : list DownloadTask;
  atp_filter_reason : option FilterReason;
  (** field and reason of the resource *)
  atp_malformed_resource : option (str * str);
}.

Inductive ExistingPathMatch := Exact | AmpmVariant | Missing.

Section Planner.
Context `{FilterEnv}.

(** [None] when a collision loop runs out of [fuel]. *)
Definition plan_asset (fuel : nat) (asset : PhotoAsset) (config : DownloadConfig) (p : TaskPlanner) :
    option (TaskPlanner * AssetTaskPlan) :=
  match is_asset_filtered asset config with
  | Some reason =>
      Some (p, {| atp_tasks := []; atp_filter_reason := Some reason; atp_malformed_resource := None |})
  | None =>
      let cache := pre_ensure_asset_dir (tp_dir_cache p) asset config in
      '(claimed, cache, tasks) ← filter_asset_to_tasks fuel asset config (tp_claimed_paths p) cache;
      let malformed := match tasks with [] => malformed_no_task_resource asset config | _ => None end in
      Some ({| tp_claimed_paths := claimed; tp_dir_cache := cache |},
            {| atp_tasks := tasks; atp_filter_reason := None; atp_malformed_resource := malformed |})
  end.

Definition existing_path_with_size (p : path) (t : TaskPlanner) : TaskPlanner * option (path * Z) :=
  let '(cache, size) := DirCache.file_size (tp_dir_cache t) p in
  match size with
  | Some size => ({| tp_claimed_paths := tp_claimed_paths t; tp_dir_cache := cache |}, Some (p, size))
  | None =>
      let '(cache, variant) := DirCache.find_ampm_variant cache p in
      match variant with
      | None => ({| tp_claimed_paths := tp_claimed_paths t; tp_dir_cache := cache |}, None)
      | Some variant =>
          let '(cache, size) := DirCache.file_size cache variant in
          ({| tp_claimed_paths := tp_claimed_paths t; tp_dir_cache := cache |}, (λ size, (variant, size)) <$> size)
      end
  end.

Definition existing_path (p : path) (t : TaskPlanner) : TaskPlanner * option path :=
  let '(t, found) := existing_path_with_size p t in (t, fst <$> found).

(** [Path] equality compares components. *)
Definition existing_path_match (p : path) (t : TaskPlanner) : TaskPlanner * ExistingPathMatch :=
  let '(t, found) := existing_path p t in
  (t, match found with
      | Some found => if bool_decide (components found = components p) then Exact else AmpmVariant
      | None => Missing
      end).

Definition prepare_path_parent (p : path) (t : TaskPlanner) : TaskPlanner :=
  match parent p with
  | Some dir => {| tp_claimed_paths := tp_claimed_paths t; tp_dir_cache := DirCache.ensure_dir_async (tp_dir_cache t) dir |}
  | None => t
  end.

Definition set_claimed (t : TaskPlanner) (m : gmap str Z) : TaskPlanner :=
  {| tp_claimed_paths := m; tp_dir_cache := tp_dir_cache t |}.

(** The planned path is released when its claim is the task's own. *)
Definition release (planned_path : path) (expected_size : Z) (t : TaskPlanner) : TaskPlanner :=
  if bool_decide (tp_claimed_paths t !! normalize planned_path = Some expected_size)
  then set_claimed t (delete (normalize planned_path) (tp_claimed_paths t)) else t.

Definition claim (p : path) (size : Z) (t : TaskPlanner) : TaskPlanner :=
  set_claimed t (<[normalize p := size]> (tp_claimed_paths t)).

Definition claim_recorded_repair_path (recorded_path planned_path : path) (expected_size : Z) (t : TaskPlanner) :
    TaskPlanner * bool :=
  let t := release planned_path expected_size t in
  match tp_claimed_paths t !! normalize recorded_path with
  | Some _ => (t, false)
  | None => (claim recorded_path expected_size (prepare_path_parent recorded_path t), true)
  end.

Definition available_recorded_retry_sibling (dir : path) (fname : str) (tried : list str) (t : TaskPlanner) :
    TaskPlanner * list str * option path :=
  let p := join dir fname in
  let normalized := normalize p in
  if existsb (λ seen, str_eqb seen normalized) tried then (t, tried, None)
  else
    let '(cache, on_disk) := DirCache.exists_ (tp_dir_cache t) p in
    ({| tp_claimed_paths := tp_claimed_paths t; tp_dir_cache := cache |}, tried ++ [normalized],
     if on_disk || bool_decide (is_Some (tp_claimed_paths t !! normalized)) then None else Some p).

(** The unbounded loop over ordinals; the inner [None] is the overflow of the
    ordinal, the outer one the end of the [fuel]. *)
Fixpoint retry_ordinal_loop (fuel : nat) (dir : path) (fname asset_id : str) (ordinal : Z) (tried : list str)
    (t : TaskPlanner) : option (TaskPlanner * option path) :=
  match fuel with
  | O => None
  | S fuel =>
      let candidate := insert_asset_identity_ordinal_suffix fname asset_id ordinal in
      let '(t, tried, found) := available_recorded_retry_sibling dir candidate tried t in
      match found with
      | Some p => Some (t, Some p)
      | None =>
          match checked_add U64_MAX ordinal 1 with
          | None => Some (t, None)
          | Some ordinal => retry_ordinal_loop fuel dir fname asset_id ordinal tried t
          end
      end
  end.

Definition resolve_recorded_retry_path (fuel : nat) (recorded_path planned_path : path) (expected_size : Z)
    (asset_id : str) (t : TaskPlanner) : option (TaskPlanner * option path) :=
  let t := release planned_path expected_size t in
  match parent recorded_path, file_name recorded_path with
  | Some dir, Some fname =>
      let t := {| tp_claimed_paths := tp_claimed_paths t; tp_dir_cache := DirCache.ensure_dir_async (tp_dir_cache t) dir |} in
      let '(cache, existing_size) := DirCache.file_size (tp_dir_cache t) recorded_path in
      let t := {| tp_claimed_paths := tp_claimed_paths t; tp_dir_cache := cache |} in
      if bool_decide (existing_size = None) && bool_decide (tp_claimed_paths t !! normalize recorded_path = None)
      then Some (claim recorded_path expected_size t, Some recorded_path)
      else
        let preferred := if bool_decide (existing_size = Some expected_size)
          then insert_asset_identity_suffix fname asset_id else add_dedup_suffix fname expected_size in
        let '(t, tried, found) := available_recorded_retry_sibling dir preferred [] t in
        match found with
        | Some p => Some (claim p expected_size t, Some p)
        | None =>
            let '(t, tried, found) :=
              available_recorded_retry_sibling dir (insert_asset_identity_suffix fname asset_id) tried t in
            match found with
            | Some p => Some (claim p expected_size t, Some p)
            | None =>
                '(t, found) ← retry_ordinal_loop fuel dir fname asset_id 2 tried t;
                match found with
                | Some p => Some (claim p expected_size t, Some p)
                | None => Some (t, None)
                end
            end
        end
  | _, _ => Some (t, None)
  end.
End Planner.

(** ** Announcing planned tasks *)

Class DownloadStateStore (St : Type) := {
  db_upsert_asset_master_mapping : str → str → str → St → St * result StateError unit;
  db_upsert_seen : AssetRecord → St → St * result StateError unit;
}.
Class MembershipStore (St : Type) := {
  db_add_asset_album : str → str → str → str → St → St * result StateError unit;
}.

Section Announce.
Context `{FilterEnv} `{StateEnv} {St : Type}.

Definition planner_upsert_asset_master_mapping `{DownloadStateStore St} (task_library : str) (asset : PhotoAsset) (s : St) :
    St * result StateError unit :=
  db_upsert_asset_master_mapping task_library (asset_record_name asset) (record_name asset) s.

Definition task_record (now : Z) (asset : PhotoAsset) (task : DownloadTask) : AssetRecord :=
  with_metadata_arc
    (new_pending now (dt_library task) (dt_asset_id task) (dt_version_size task) (dt_checksum task)
       (default [] (file_name (dt_download_path task))) (created asset) (Some (added_date asset)) (dt_size task)
       (determine_media_type (dt_version_size task) asset))
    (asset_metadata asset).

Definition upsert_seen_for_task `{DownloadStateStore St} (now : Z) (asset : PhotoAsset) (task : DownloadTask) (s : St) :
    St * result StateError unit :=
  match planner_upsert_asset_master_mapping (dt_library task) asset s with
  | (s, Err e) => (s, Err e)
  | (s, Ok _) => db_upsert_seen (task_record now asset task) s
  end.

Definition ADD_ASSET_ALBUM_MAX_RETRIES : Z := 3.

(** [for attempt in 1..=ADD_ASSET_ALBUM_MAX_RETRIES], with [last_err]. *)
Fixpoint add_album_loop `{MembershipStore St} (remaining : nat) (l asset_id album source : str) (last_err : option StateError)
    (s : St) : St * result StateError unit :=
  match remaining with
  | O => (s, Err (default LockPoisoned last_err))
  | S remaining =>
      match db_add_asset_album l asset_id album source s with
      | (s, Ok _) => (s, Ok tt)
      | (s, Err e) => add_album_loop remaining l asset_id album source (Some e) s
      end
  end.

Definition add_asset_album_with_retry `{MembershipStore St} (l asset_id album source : str) (s : St) :
    St * result StateError unit :=
  add_album_loop (Z.to_nat ADD_ASSET_ALBUM_MAX_RETRIES) l asset_id album source None s.

Definition record_album_membership_if_named `{MembershipStore St} (config : DownloadConfig) (asset : PhotoAsset) (s : St) :
    St * result StateError unit :=
  match album_name config with
  | Some ((_ :: _) as name) =>
      add_asset_album_with_retry (default (library config) (source_zone asset)) (state_id asset) name (lit "icloud") s
  | _ => (s, Ok tt)
  end.
End Announce.
