(* ===== verification/PlannerSpec.v ===== *)
(** * The planner never hands out a path twice

    Laws of [Planner.v]: over a whole pass no two planned tasks share a
    destination, the destination of a recorded retry is free and is found,
    and a task announced to the SQLite store can be finalised whatever the
    store is asked to do in between. *)
From S2P Require Import Prelude RustStr Types Paths Filter FilterSpec Collision StateTypes StateDb StateDbSpec StateLaws Finalize FinalizeSpec Planner.

Section PlannerLaws.
Context `{FilterEnv}.

(** ** A pass over many assets *)

(** The tasks of the assets of a pass, planned one after the other. *)
Fixpoint plan_pass (fuel : nat) (assets : list (PhotoAsset * DownloadConfig)) (p : TaskPlanner) :
    option (TaskPlanner * list DownloadTask) :=
  match assets with
  | [] => Some (p, [])
  | (asset, config) :: assets =>
      '(p, plan) ← plan_asset fuel asset config p;
      '(p, tasks) ← plan_pass fuel assets p;
      Some (p, atp_tasks plan ++ tasks)
  end.

Definition destination (t : DownloadTask) : str := normalize (dt_download_path t).

(** Planning claims every destination it plans, and forgets no claim. *)
Record plan_ok (p p' : TaskPlanner) (tasks : list DownloadTask) : Prop := {
  po_distinct : NoDup (destination <$> tasks);
  po_fresh : ∀ t, t ∈ tasks → tp_claimed_paths p !! destination t = None;
  po_claimed : ∀ t, t ∈ tasks → tp_claimed_paths p' !! destination t = Some (dt_size t);
  po_kept : tp_claimed_paths p ⊆ tp_claimed_paths p';
  po_noreplace : ∀ t, t ∈ tasks → dt_publication t = NoReplace;
}.

Lemma plan_asset_ok fuel asset config p p' plan :
  plan_asset fuel asset config p = Some (p', plan) → plan_ok p p' (atp_tasks plan).
Proof.
  unfold plan_asset. destruct (is_asset_filtered asset config).
  { intros [= <- <-]. cbn. split; cbn; try done; [constructor|intros ? ?%elem_of_nil; done..]. }
  destruct (filter_asset_to_tasks _ _ _ _ _) as [[[claimed cache] tasks]|] eqn:E; [|done]. intros [= <- <-].
  apply filter_asset_to_tasks_ok in E as (urls & [H1 H2 H3 H4 H5]). split; cbn in *; try done.
  by apply map_subseteq_spec.
Qed.

Lemma plan_pass_ok fuel assets p p' tasks : plan_pass fuel assets p = Some (p', tasks) → plan_ok p p' tasks.
Proof.
  revert p tasks. induction assets as [|[asset config] assets IH]; intros p tasks; cbn.
  { intros [= <- <-]. split; cbn; try done; [constructor|intros ? ?%elem_of_nil; done..]. }
  destruct (plan_asset fuel asset config p) as [[p1 plan]|] eqn:E1; [|done]. cbn.
  destruct (plan_pass fuel assets p1) as [[p2 ts]|] eqn:E2; [|done]. cbn. intros [= <- <-].
  apply plan_asset_ok in E1 as [A1 A2 A3 A4 A5]. apply IH in E2 as [B1 B2 B3 B4 B5]. split.
  - rewrite fmap_app. apply NoDup_app. split_and!; [done| |done]. intros k (t & -> & Ht)%list_elem_of_fmap (t2 & Hk & Ht2)%list_elem_of_fmap.
    specialize (A3 t Ht). rewrite Hk in A3. by rewrite (B2 t2 Ht2) in A3.
  - intros t [Ht|Ht]%elem_of_app; [by apply A2|]. specialize (B2 t Ht).
    destruct (tp_claimed_paths p !! destination t) eqn:E; [|done]. by rewrite (lookup_weaken _ _ _ _ E A4) in B2.
  - intros t [Ht|Ht]%elem_of_app; [|by apply B3]. by apply (lookup_weaken _ _ _ _ (A3 t Ht) B4).
  - by etrans.
  - intros t [Ht|Ht]%elem_of_app; auto.
Qed.

(** C2: over a whole pass, whatever the assets and their configurations, the
    planned tasks go to pairwise different files, each claimed with its size,
    none replacing an existing file. *)
Theorem pass_destinations_distinct fuel assets p' tasks : plan_pass fuel assets TaskPlanner_new = Some (p', tasks) →
  NoDup (destination <$> tasks)
  ∧ ∀ t, t ∈ tasks → tp_claimed_paths p' !! destination t = Some (dt_size t) ∧ dt_publication t = NoReplace.
Proof. intros [H1 _ H3 _ H5]%plan_pass_ok. split; [done|]. auto. Qed.

(** ** Recorded retries *)

Lemma sibling_is_available dir fname tried t :
  available_recorded_retry_sibling dir fname tried t =
    let '(cache, tried, found) := available_path (tp_claimed_paths t) (join dir fname) (tp_dir_cache t) tried in
    ({| tp_claimed_paths := tp_claimed_paths t; tp_dir_cache := cache |}, tried, found).
Proof.
  unfold available_recorded_retry_sibling, available_path. destruct (existsb _ tried); [by destruct t|].
  by destruct (DirCache.exists_ (tp_dir_cache t) (join dir fname)).
Qed.

Lemma available_path_free claimed p cache tried cache' tried' q :
  available_path claimed p cache tried = (cache', tried', Some q) → q = p ∧ free claimed cache' q.
Proof.
  unfold available_path. destruct (existsb _ tried); [done|]. rewrite DirCacheFacts.exists_file_size.
  destruct (bool_decide (is_Some (DirCache.file_size cache p).2)) eqn:E1; [done|].
  destruct (bool_decide (is_Some (claimed !! normalize p))) eqn:E2; [done|]. cbn [orb].
  intros [= <- _ <-]. split; [done|]. apply bool_decide_eq_false in E1, E2. rewrite <- eq_None_not_Some in E1, E2.
  by apply free_after_size.
Qed.

Lemma sibling_free dir fname tried t t' tried' q :
  available_recorded_retry_sibling dir fname tried t = (t', tried', Some q) →
  q = join dir fname ∧ free (tp_claimed_paths t) (tp_dir_cache t') q ∧ tp_claimed_paths t' = tp_claimed_paths t.
Proof.
  rewrite sibling_is_available. destruct (available_path _ _ _ _) as [[c1 t1] f1] eqn:E. intros [= <- <- ->].
  by apply available_path_free in E as [-> ?].
Qed.

Lemma sibling_claimed dir fname tried t : tp_claimed_paths (available_recorded_retry_sibling dir fname tried t).1.1 = tp_claimed_paths t.
Proof. rewrite sibling_is_available. by destruct (available_path _ _ _ _) as [[c1 t1] f1]. Qed.

Lemma retry_ordinal_loop_free fuel dir fname asset_id n tried t t' found :
  retry_ordinal_loop fuel dir fname asset_id n tried t = Some (t', found) →
  tp_claimed_paths t' = tp_claimed_paths t
  ∧ ∀ q, found = Some q → (∃ name, q = join dir name) ∧ free (tp_claimed_paths t) (tp_dir_cache t') q.
Proof.
  revert n tried t. induction fuel as [|fuel IH]; intros n tried t; [done|]. cbn.
  pose proof (sibling_claimed dir (insert_asset_identity_ordinal_suffix fname asset_id n) tried t) as Hc.
  destruct (available_recorded_retry_sibling _ _ _ _) as [[t1 tried1] [q|]] eqn:E.
  - intros [= <- <-]. split; [done|]. intros q' [= <-]. apply sibling_free in E as (-> & ? & _). eauto.
  - cbn in Hc. destruct (checked_add U64_MAX n 1); [|by intros [= <- <-]]. intros Hl.
    rewrite <- Hc. by apply IH in Hl.
Qed.

Definition released (planned_path : path) (size : Z) (t : TaskPlanner) : gmap str Z :=
  tp_claimed_paths (release planned_path size t).

(** the destination of a recorded retry is free: after the task's own
    reservation is released it is claimed by no other task and no listed file
    is there; it is the recorded path or a sibling in its directory, and it is
    then claimed, and nothing else is.  A recorded path without a directory
    or a name gets none. *)
Theorem recorded_retry_path_free fuel recorded planned size asset_id t t' found :
  resolve_recorded_retry_path fuel recorded planned size asset_id t = Some (t', found) →
  match found with
  | Some p =>
      released planned size t !! normalize p = None ∧ (DirCache.file_size (tp_dir_cache t') p).2 = None
      ∧ tp_claimed_paths t' = <[normalize p := size]> (released planned size t)
      ∧ ∃ dir, parent recorded = Some dir ∧ (p = recorded ∨ ∃ name, p = join dir name)
  | None => tp_claimed_paths t' = released planned size t
  end.
Proof.
  unfold resolve_recorded_retry_path, released. set (t0 := release planned size t).
  destruct (parent recorded) as [dir|]; [|by intros [= <- <-]].
  destruct (file_name recorded) as [fname|]; [|by intros [= <- <-]]. cbn [tp_claimed_paths tp_dir_cache].
  destruct (DirCache.file_size (DirCache.ensure_dir_async (tp_dir_cache t0) dir) recorded) as [c1 sz] eqn:Es.
  cbn [tp_claimed_paths tp_dir_cache].
  destruct (bool_decide (sz = None) && bool_decide (tp_claimed_paths t0 !! normalize recorded = None)) eqn:Eb.
  { apply andb_true_iff in Eb as [E1%bool_decide_eq_true E2%bool_decide_eq_true]. intros [= <- <-]. cbn.
    split_and!; [done| |done|by exists dir; eauto].
    pose proof (DirCacheFacts.file_size_repeat (DirCache.ensure_dir_async (tp_dir_cache t0) dir) recorded) as Hrep.
    rewrite Es in Hrep. cbn in Hrep. by rewrite Hrep. }
  set (t1 := {| tp_claimed_paths := tp_claimed_paths t0; tp_dir_cache := c1 |}).
  match goal with |- context [available_recorded_retry_sibling dir ?pref [] t1] => set (preferred := pref) end.
  pose proof (sibling_claimed dir preferred [] t1) as Hc1.
  destruct (available_recorded_retry_sibling dir preferred [] t1) as [[t2 tried2] [q|]] eqn:E1.
  { intros [= <- <-]. apply sibling_free in E1 as (-> & [F1 F2] & E2). cbn in *. rewrite E2. split_and!; eauto. }
  cbn in Hc1. pose proof (sibling_claimed dir (insert_asset_identity_suffix fname asset_id) tried2 t2) as Hc2.
  destruct (available_recorded_retry_sibling dir (insert_asset_identity_suffix fname asset_id) tried2 t2) as [[t3 tried3] [q|]] eqn:E2.
  { intros [= <- <-]. apply sibling_free in E2 as (-> & [F1 F2] & E2). cbn in *. rewrite E2, Hc1 in *. split_and!; eauto. }
  cbn in Hc2. destruct (retry_ordinal_loop fuel dir fname asset_id 2 tried3 t3) as [[t4 found4]|] eqn:E3; [|done]. cbn.
  apply retry_ordinal_loop_free in E3 as [Hc3 Hf]. rewrite Hc2, Hc1 in *.
  destruct found4 as [q|]; intros [= <- <-]; [|done]. destruct (Hf q eq_refl) as [[name ->] [F1 F2]]. cbn. rewrite Hc3.
  split_and!; eauto.
Qed.

Lemma claim_repair_exact recorded planned size t :
  claim_recorded_repair_path recorded planned size t =
    let claimed := released planned size t in
    match claimed !! normalize recorded with
    | Some _ => (release planned size t, false)
    | None => (claim recorded size (prepare_path_parent recorded (release planned size t)), true)
    end.
Proof. done. Qed.

(** *** The search ends *)

Lemma seg_components_name s n : Normal n ∈ seg_components s → n = s ∧ n <> [] ∧ n <> [DOT] ∧ n <> [DOT; DOT].
Proof.
  unfold seg_components. destruct (str_eqb s []) eqn:E1; [by intros ?%elem_of_nil|].
  destruct (str_eqb s [DOT]) eqn:E2; [by intros ?%elem_of_nil|].
  destruct (str_eqb s [DOT; DOT]) eqn:E3; [by intros ?%list_elem_of_singleton|].
  intros [= ->]%list_elem_of_singleton. rewrite !str_eqb_neq in *. done.
Qed.

Lemma file_name_normal p n : file_name p = Some n → normal_name n = true.
Proof.
  unfold file_name. destruct (last (components p)) as [[| | |m]|] eqn:E; try done. intros [= ->].
  apply last_Some_elem_of in E. apply normal_name_true.
  assert (∃ seg, seg ∈ split_char SLASH p ∧ Normal n ∈ seg_components seg) as (seg & Hseg & Hn).
  { unfold components in E. destruct (split_char SLASH p) as [|seg rest]; [by apply elem_of_nil in E|].
    apply elem_of_app in E as [E|E].
    - exists seg. split; [constructor|].
      destruct rest; repeat (case_match; [by apply list_elem_of_singleton in E|]); exact E.
    - apply list_elem_of_In, in_concat in E as (l & Hl & Hn). apply list_elem_of_In in Hl, Hn.
      apply list_elem_of_fmap in Hl as (seg2 & -> & Hs). exists seg2. split; [by right|done]. }
  apply seg_components_name in Hn as (-> & ? & ? & ?). split_and!; try done. by eapply split_char_segments.
Qed.

Lemma no_slash (s : str) : SLASH ∉ s ↔ Forall (λ c, c <> SLASH) s.
Proof. rewrite Forall_forall. split; [intros Hs c Hc ->; done|intros Hs Hc; by apply (Hs _ Hc)]. Qed.

(** The candidates of one recorded name: names of one directory, pairwise
    different. *)
Lemma retry_candidates dir fname asset_id : normal_name fname = true →
  ∃ name : Z → str, (∀ n, 0 <= n <= U64_MAX →
      join dir (insert_asset_identity_ordinal_suffix fname asset_id n) = join dir (name n) ∧ normal_name (name n) = true)
  ∧ ∀ n m, 0 <= n <= U64_MAX → 0 <= m <= U64_MAX →
      normalize (join dir (insert_asset_identity_ordinal_suffix fname asset_id n))
      = normalize (join dir (insert_asset_identity_ordinal_suffix fname asset_id m)) → n = m.
Proof.
  intros Hf. set (id := asset_identity_suffix asset_id).
  destruct (insert_suffix_split fname) as (a & b & Ha & Hins).
  assert (∀ n, 0 <= n → normal_name (insert_asset_identity_ordinal_suffix fname asset_id n) = true) as Hnorm.
  { intros n Hn. unfold insert_asset_identity_ordinal_suffix. fold id.
    assert (45 ∈ insert_suffix fname (id ++ lit "-" ++ show_u64 n)) as H45.
    { rewrite Hins. apply elem_of_app. by left. }
    apply normal_name_true. split_and!; try (intros E; rewrite E in H45; set_solver).
    apply no_slash, insert_suffix_Forall; [done| |].
    - apply no_slash. by apply normal_name_true in Hf as (_ & _ & _ & ?).
    - rewrite !Forall_app. split_and!; [|by repeat constructor|]; apply no_slash, safe_char_no_slash.
      + by destruct (clean_filename_clean asset_id) as (_ & ? & _).
      + by apply show_u64_safe. }
  exists (insert_asset_identity_ordinal_suffix fname asset_id). split.
  - intros n Hn. split; [done|]. apply Hnorm. lia.
  - intros n m Hn Hm. destruct (join_prefix dir) as [pre Hpre].
    rewrite !Hpre by (apply Hnorm; lia). destruct normalize_map as (f & Hfm & Hfd).
    unfold insert_asset_identity_ordinal_suffix. fold id. rewrite !Hfm, !Hins, !map_app. intros Heq.
    do 2 apply app_inv_head in Heq. apply app_inv_tail in Heq. do 2 apply app_inv_head in Heq.
    assert (∀ k, 0 <= k → map f (show_u64 k) = show_u64 k) as Hk.
    { intros k Hk. pose proof (show_u64_digits k Hk) as Hd. revert Hd. generalize (show_u64 k). intros l.
      induction l as [|c l IH]; [done|]. cbn. intros [Hc Hl]%andb_true_iff. by rewrite Hfd, IH. }
    rewrite !Hk in Heq by lia. apply show_u64_inj; [lia|lia|done].
Qed.

Lemma retry_ordinal_loop_search fuel dir fname asset_id n tried t : 0 <= n → n + Z.of_nat fuel <= U64_MAX →
  is_Some (search (tp_claimed_paths t) (λ n, join dir (insert_asset_identity_ordinal_suffix fname asset_id n))
             fuel n (tp_dir_cache t) tried) →
  ∃ t' p, retry_ordinal_loop fuel dir fname asset_id n tried t = Some (t', Some p).
Proof.
  revert n tried t. induction fuel as [|fuel IH]; intros n tried t Hn Hf [r Hr]; [done|]. cbn in *.
  rewrite sibling_is_available.
  destruct (available_path _ _ _ _) as [[c1 t1] [p|]]; [by eauto|].
  assert (checked_add U64_MAX n 1 = Some (n + 1)) as -> by (apply checked_add_Some; lia).
  apply IH; [lia|lia|]. by eexists.
Qed.

Lemma sibling_bounded N dir fname tried t : listings_bounded N (tp_dir_cache t) →
  listings_bounded N (tp_dir_cache (available_recorded_retry_sibling dir fname tried t).1.1)
  ∧ (length (available_recorded_retry_sibling dir fname tried t).1.2 <= length tried + 1)%nat.
Proof.
  intros Hb. unfold available_recorded_retry_sibling. destruct (existsb _ tried); [cbn; split; [done|lia]|].
  rewrite DirCacheFacts.exists_file_size. cbn. split; [by apply file_size_bounded|]. rewrite length_app. cbn. lia.
Qed.

(** choosing the destination of a recorded retry always ends: with more
    fuel than files in a directory plus claims it returns, and it finds a
    destination whenever the recorded path has a directory and a name. *)
Theorem recorded_retry_returns N fuel recorded planned size asset_id t :
  listings_bounded N (tp_dir_cache t) →
  (N + base.size (tp_claimed_paths t) + 2 < fuel)%nat → 2 + Z.of_nat fuel <= U64_MAX →
  ∃ t' found, resolve_recorded_retry_path fuel recorded planned size asset_id t = Some (t', found)
    ∧ (is_Some found ↔ is_Some (parent recorded) ∧ is_Some (file_name recorded)).
Proof.
  intros Hb Hfuel Hmax. unfold resolve_recorded_retry_path. set (t0 := release planned size t).
  assert (tp_dir_cache t0 = tp_dir_cache t ∧ (base.size (tp_claimed_paths t0) <= base.size (tp_claimed_paths t))%nat) as [Hc0 Hs0].
  { unfold t0, release. case_bool_decide; cbn; [|done]. split; [done|].
    apply map_subseteq_size, delete_subseteq. }
  destruct (parent recorded) as [dir|]; [|by eexists _, None; split; [done|]; split; [intros []|intros [[] _]]].
  destruct (file_name recorded) as [fname|] eqn:Ef; [|by eexists _, None; split; [done|]; split; [intros []|intros [_ []]]].
  assert (∀ (t1 : TaskPlanner) (p : path), ∃ t' found, Some (claim p size t1, Some p) = Some (t', found)
    ∧ (is_Some found ↔ is_Some (Some dir) ∧ is_Some (Some fname))) as Hdone.
  { intros t1 p. eexists _, _. split; [done|]. split; [by split; eexists|by eexists]. }
  cbn [tp_claimed_paths tp_dir_cache].
  pose proof (proj2 (ensure_dir_bounded N (tp_dir_cache t0) dir ltac:(by rewrite Hc0))) as Hb1.
  pose proof (file_size_bounded N _ recorded Hb1) as Hb2.
  unfold DirCache.ensure_dir_async.
  destruct (DirCache.file_size (DirCache.ensure_dir (tp_dir_cache t0) dir).1 recorded) as [c1 sz]. cbn in Hb2.
  cbn [tp_claimed_paths tp_dir_cache].
  destruct (bool_decide (sz = None) && bool_decide (tp_claimed_paths t0 !! normalize recorded = None)); [apply Hdone|].
  set (t1 := {| tp_claimed_paths := tp_claimed_paths t0; tp_dir_cache := c1 |}).
  match goal with |- context [available_recorded_retry_sibling dir ?pref [] t1] => set (preferred := pref) end.
  pose proof (sibling_claimed dir preferred [] t1) as Hc1. pose proof (sibling_bounded N dir preferred [] t1 Hb2) as [Hb3 Hl1].
  destruct (available_recorded_retry_sibling dir preferred [] t1) as [[t2 tried2] [q|]]; [apply Hdone|]. cbn in Hc1, Hb3, Hl1.
  set (identity := insert_asset_identity_suffix fname asset_id).
  pose proof (sibling_claimed dir identity tried2 t2) as Hc2. pose proof (sibling_bounded N dir identity tried2 t2 Hb3) as [Hb4 Hl2].
  destruct (available_recorded_retry_sibling dir identity tried2 t2) as [[t3 tried3] [q|]]; [apply Hdone|]. cbn in Hc2, Hb4, Hl2.
  destruct (retry_candidates dir fname asset_id (file_name_normal _ _ Ef)) as (name & Hshape & Hinj).
  destruct (retry_ordinal_loop_search fuel dir fname asset_id 2 tried3 t3) as (t4 & p & ->); [lia|lia| |apply Hdone].
  eapply (search_ends _ _ dir name _ tried3); try done.
  - pose proof (proj1 (ensure_dir_bounded N (tp_dir_cache t3) (parent_of_join dir) Hb4)). rewrite Hc2, Hc1. cbn. lia.
  - intros q Hq. by left.
Qed.
End PlannerLaws.

(** ** Announced tasks *)

#[export] Instance SqliteStore_downloads `{StateEnv} : DownloadStateStore SqliteStore := {
  db_upsert_asset_master_mapping l asset master s := call s (λ d, Ok (upsert_asset_master_mapping l asset master d, tt));
  db_upsert_seen r s := call s (λ d, no_value (upsert_seen (ss_now s) r d));
}.

Section Announced.
Context `{FilterEnv} `{StateEnv}.

(** The operations that may delete the row of [k]. *)
Definition prunes (k : key3) (o : Op) : bool :=
  match o with
  | OPruneStale library _ => bool_decide (k.1.1 = library)
  | OPruneVersions library vs => bool_decide (k.1.1 = library) && bool_decide ((k.1.2, k.2) ∈ vs)
  | _ => false
  end.

Definition has_row (k : key3) (d : Db) : Prop := k ∈ dom (assets d).

Lemma has_row_update d p f k : has_row k d → has_row k (set_assets d (Sql.update p f (assets d))).
Proof. unfold has_row. cbn. by rewrite dom_update. Qed.

Lemma has_row_insert d k k' row : has_row k d → has_row k (set_assets d (<[k' := row]> (assets d))).
Proof. unfold has_row. cbn. rewrite dom_insert. set_solver. Qed.

Lemma has_row_delete d p k : has_row k d → (∀ row, p k row = false) → has_row k (delete_assets p d).
Proof.
  unfold has_row, delete_assets. rewrite elem_of_dom. intros [row E] Hp.
  destruct foreign_keys; cbn; apply elem_of_dom; rewrite lookup_delete_where, E; cbn; rewrite Hp; eauto.
Qed.

Lemma has_row_prune_versions library vs d k : has_row k d →
  bool_decide (k.1.1 = library) && bool_decide ((k.1.2, k.2) ∈ vs) = false →
  has_row k (prune_pending_asset_versions library vs d).1.
Proof.
  revert d. induction vs as [|[id v] vs IH]; intros d Hd Hn; [done|]. cbn.
  match goal with |- context [prune_pending_asset_versions library vs ?d1] =>
    specialize (IH d1); destruct (prune_pending_asset_versions library vs d1) end.
  apply IH.
  - apply has_row_delete; [done|]. intros row. destruct k as [[l i] w]. cbn in Hn.
    rewrite bool_decide_false; [done|]. intros [= -> -> ->]. rewrite !bool_decide_true in Hn by (done || constructor). done.
  - destruct (bool_decide (k.1.1 = library)); [|done]. cbn in *. apply bool_decide_eq_false in Hn.
    apply bool_decide_eq_false. set_solver.
Qed.

Lemma has_row_upsert d r t d' k : has_row k d → upsert_asset_row d r t = Ok d' → has_row k d'.
Proof.
  intros Hd. unfold upsert_asset_row. destruct (Sql.exists_row _ _); [done|].
  destruct (assets d !! record_key r); [destruct (conflict_refused _ _); [done|]|]; intros [= <-]; by apply has_row_insert.
Qed.

Lemma has_row_update_status d k k' p c dc repair t : has_row k d → has_row k (update_status_to_downloaded d k' p c dc repair t).1.
Proof. intros Hd. unfold update_status_to_downloaded. destruct (assets d !! k'); [by apply has_row_insert|done]. Qed.

Lemma has_row_deletion op sel at_ clear d d' n k : has_row k d → delete_at_source op sel at_ clear d = Ok (d', n) → has_row k d'.
Proof.
  intros Hd. unfold delete_at_source. destruct (Sql.exists_row _ _); [done|]. intros [= <- <-].
  destruct clear; by apply has_row_update.
Qed.

Lemma has_row_assets d d' k : assets d' = assets d → has_row k d → has_row k d'.
Proof. unfold has_row. by intros ->. Qed.

Ltac by_row_deletion Hx :=
  match type of Hx with fmap fst ?e = Ok _ => destruct e as [[? ?]|] eqn:?E; [|done] end;
  injection Hx as <-; by eapply has_row_deletion.

Lemma exec_has_row o d d' k : exec o d = Ok d' → prunes k o = false → has_row k d → has_row k d'.
Proof.
  intros Hx Hn Hd. destruct o; cbn [exec] in Hx; cbn [prunes] in Hn;
    repeat match goal with k' : key3 |- _ => lazymatch k' with k => fail | _ => destruct k' as [[? ?] ?] end end;
    try (injection Hx as <-); try done; try (by apply has_row_update).
  - by eapply has_row_upsert.
  - unfold mark_downloaded_with_capture_repair in Hx.
    match type of Hx with context [update_status_to_downloaded d ?k' ?p ?c ?dc ?r ?t] =>
      pose proof (has_row_update_status d k k' p c dc r t Hd);
      destruct (update_status_to_downloaded d k' p c dc r t) as [d1 n] end.
    destruct (n =? 0); [done|]. injection Hx as <-. by apply (has_row_assets d1); [apply record_revision_assets|].
  - unfold import_adopt in Hx. destruct (upsert_asset_row d r (timestamp now)) as [d1|] eqn:E; [|done]. cbn in Hx.
    pose proof (has_row_update_status d1 k (record_key r) local_path local_checksum None false (timestamp now)
      (has_row_upsert _ _ _ _ _ Hd E)) as H2.
    destruct (update_status_to_downloaded d1 (record_key r) local_path local_checksum None false (timestamp now)) as [d2 n].
    injection Hx as <-. apply has_row_update. by apply (has_row_assets d2); [apply record_revision_assets|].
  - unfold mark_failed in Hx. destruct (assets d !! _); [|done]. injection Hx as <-. by apply has_row_insert.
  - change (k ∈ dom (assets (prepare_for_retry library e d).1)). by rewrite prepare_for_retry_rows, dom_update.
  - apply has_row_delete; [done|]. intros row. unfold stale_pending. by rewrite Hn.
  - by apply has_row_prune_versions.
  - unfold has_row, touch_last_seen_many. cbn. revert Hd. unfold has_row. generalize (assets d).
    induction ids as [|id ids IH]; intros m Hm; [done|]. cbn. apply IH. by rewrite dom_update.
  - unfold set_asset_verification in Hx. destruct (foreign_keys && _); [done|]. by injection Hx as <-.
  - unfold mark_policy_excluded. destruct (assets d !! _) as [row|]; [|done].
    destruct (status_is Pending row && negb (is_deleted row)); [|done]. apply has_row_insert. done.
  - by_row_deletion Hx.
  - by_row_deletion Hx.
  - by_row_deletion Hx.
  - by_row_deletion Hx.
  - unfold claim_legacy_master_state_owner. by destruct (legacy_master_state_owners d !! _).
  - unfold refresh_downloaded_asset_metadata. cbn.
    match goal with |- has_row k (if ?c then record_metadata_capture_revision ?d1 _ _ _ else _) =>
      apply (has_row_assets d1); [destruct c; [apply record_revision_assets|done]|] end.
    by apply has_row_update.
  - unfold record_capture_repair_prepared in Hx. destruct (str_eqb _ _); [done|].
    destruct (pr_capture_repair_receipt p) as [r|]; [|done]. destruct (negb (receipt_fits r)); [done|].
    destruct (ar_local_checksum _); [destruct (negb (fits_i64 _)); [done|]|]; injection Hx as <-; [by apply has_row_update|done].
  - unfold finish_metadata_rewrite in Hx. destruct (am_metadata_hash _); [|done].
    destruct (negb (finish_checks _ _ _ _ _)); [done|]. injection Hx as <-. by apply has_row_update.
  - unfold begin_enum_progress. by destruct (metadata d !! _).
  - unfold complete_metadata_capture_revision. cbn. by destruct (_ =? 0).
Qed.

Lemma run_has_row os d k : Forall (λ o, prunes k o = false) os → has_row k d → has_row k (run os d).
Proof.
  revert d. induction os as [|o os IH]; intros d Hn Hd; [done|]. apply Forall_cons in Hn as [Hn Hns]. cbn.
  apply IH; [done|]. destruct (exec o d) as [d1|] eqn:E; [by eapply exec_has_row|done].
Qed.

(** once a task is announced to the store, recording its outcome cannot
    miss its row: after any later operations that do not prune that version,
    marking it downloaded and marking it failed both succeed. *)
Theorem announced_task_can_be_finalised now asset task s s' os now' p c dc repair error :
  upsert_seen_for_task now asset task s = (s', Ok tt) →
  Forall (λ o, prunes (task_key task) o = false) os →
  is_ok (exec (OMarkDownloaded now' (task_key task) p c dc repair) (run os (ss_db s'))) = true
  ∧ is_ok (exec (OMarkFailed (task_key task) error) (run os (ss_db s'))) = true.
Proof.
  intros Hu Hn. assert (has_row (task_key task) (ss_db s')) as Hd.
  { unfold upsert_seen_for_task in Hu. destruct (planner_upsert_asset_master_mapping _ _ _) as [s1 [[]|e]]; [|done].
    apply call_result in Hu as (d & Hop & ->). unfold no_value in Hop.
    destruct (upsert_seen _ _ _) as [d1|] eqn:E; [|done]. injection Hop as ->.
    apply upsert_row_cols in E as (row & E & _). apply elem_of_dom. eexists. exact E. }
  apply (run_has_row os _ _ Hn) in Hd. unfold has_row in Hd. apply elem_of_dom in Hd as [row E]. cbn [exec task_key].
  unfold mark_downloaded_with_capture_repair, update_status_to_downloaded, mark_failed.
  unfold task_key in E. by rewrite E.
Qed.
End Announced.

(** ** Plans on a sample directory *)

Module PlannerRuns.
Import StateDbSpec.Samples FinalizeSpec.FinalizeRuns.

(** Two assets of the same name, then one more. *)
Definition planned := plan_pass 8 [(sample_asset, sample_config); (sample_asset, sample_config)] TaskPlanner_new.
Definition planned_tasks : list DownloadTask := default [] (snd <$> planned).
Definition planned_state : TaskPlanner := default TaskPlanner_new (fst <$> planned).

Lemma pass_destinations_distinct_witness :
  (2 <= length planned_tasks)%nat ∧ NoDup (destination <$> planned_tasks)
  ∧ ∀ t, t ∈ planned_tasks → tp_claimed_paths planned_state !! destination t = Some (dt_size t) ∧ dt_publication t = NoReplace.
Proof.
  split; [apply Nat.leb_le; vm_compute; reflexivity|].
  apply (pass_destinations_distinct 8 [(sample_asset, sample_config); (sample_asset, sample_config)] planned_state planned_tasks).
  assert (is_Some planned) as [[p ts] E] by (vm_compute; eexists; reflexivity).
  unfold planned_state, planned_tasks. fold planned. rewrite E. reflexivity.
Defined.

(** A recorded path that another task of the pass has claimed. *)
Definition recorded : path := lit "/d/a.jpg".
Definition busy : TaskPlanner := claim recorded 7 TaskPlanner_new.
Definition retried_path := resolve_recorded_retry_path 8 recorded (lit "/d/b.jpg") 20 (lit "ID") busy.
Definition retried_dest : option path := default None (snd <$> retried_path).
Definition retried_state : TaskPlanner := default TaskPlanner_new (fst <$> retried_path).

Lemma recorded_retry_path_free_witness :
  ∃ p, retried_dest = Some p ∧ released (lit "/d/b.jpg") 20 busy !! normalize p = None
    ∧ (DirCache.file_size (tp_dir_cache retried_state) p).2 = None.
Proof.
  pose proof (recorded_retry_path_free 8 recorded (lit "/d/b.jpg") 20 (lit "ID") busy retried_state retried_dest) as Hfree.
  assert (is_Some retried_dest) as [p E] by (vm_compute; eexists; reflexivity).
  assert (is_Some retried_path) as [[t f] Er] by (vm_compute; eexists; reflexivity).
  exists p. split; [exact E|]. rewrite E in Hfree. destruct Hfree as (H1 & H2 & _).
  - unfold retried_state. fold retried_path. revert E. unfold retried_dest. rewrite Er. cbn. intros ->. reflexivity.
  - exact (conj H1 H2).
Defined.

Lemma recorded_retry_returns_witness :
  ∃ t' found, resolve_recorded_retry_path 8 recorded (lit "/d/b.jpg") 20 (lit "ID") busy = Some (t', found)
    ∧ (is_Some found ↔ is_Some (parent recorded) ∧ is_Some (file_name recorded)).
Proof.
  apply (recorded_retry_returns 3 8).
  - split; [intros k e Hk; vm_compute in Hk; discriminate Hk|]. intros d.
    unfold read_dir_entries. cbn. case_match; vm_compute; lia.
  - vm_compute. lia.
  - vm_compute. discriminate.
Defined.

Definition announced := upsert_seen_for_task 1700000000000000000 sample_asset (task "Z") (faulty 0).
Definition meanwhile : list Op := OPruneStale (lit "Other") 1800000000 :: take 6 later.

Lemma announced_task_can_be_finalised_witness :
  is_ok (exec (OMarkDownloaded 1700000003000000000 (task_key (task "Z")) (lit "/p") (lit "sha") None false)
           (run meanwhile (ss_db announced.1))) = true
  ∧ is_ok (exec (OMarkFailed (task_key (task "Z")) (lit "e")) (run meanwhile (ss_db announced.1))) = true.
Proof.
  apply (announced_task_can_be_finalised 1700000000000000000 sample_asset (task "Z") (faulty 0)).
  - vm_compute. reflexivity.
  - repeat (apply Forall_cons; split; [vm_compute; reflexivity|]). constructor.
Defined.
End PlannerRuns.
