(* ===== verification/StateReads.v ===== *)
(** * Listings of the state store

    The remaining queries of [src/state/db.rs]: pages of live rows in the
    order of their last sighting, revalidation candidates, and the identity
    tables as the download engine reads them. *)
From S2P Require Import Prelude RustStr Types StateTypes StateDb StateDbSpec.
Import Sql.

(** [LIMIT n] and [OFFSET n]. *)
Fixpoint limit {A} (n : Z) (l : list A) : list A :=
  match l with
  | [] => []
  | x :: l => if 0 <? n then x :: limit (n - 1) l else []
  end.
Fixpoint offset {A} (n : Z) (l : list A) : list A :=
  match l with
  | [] => []
  | x :: l' => if 0 <? n then offset (n - 1) l' else l
  end.

Lemma limit_all {A} n (l : list A) : zlen l <= n → limit n l = l.
Proof.
  revert n. induction l as [|x l IH]; intros n Hn; [done|]. rewrite length_cons in Hn. cbn.
  destruct (Z.ltb_spec 0 n); [f_equal; apply IH; lia|lia].
Qed.

Lemma offset_0 {A} (l : list A) : offset 0 l = l.
Proof. by destruct l. Qed.

Section Reads.
Context `{StateEnv}.

(** [WHERE status = s AND is_deleted = 0 ORDER BY last_seen_at DESC]; rows
    seen at the same time come in the order of the table. *)
Definition live_rows (s : AssetStatus) (d : Db) : list (key3 * AssetRow) :=
  order_by (λ a b, r_last_seen_at b.2 <=? r_last_seen_at a.2)
    (map_to_list (rows_where (λ _ row, status_is s row && negb (is_deleted row)) d)).

Definition live_page (s : AssetStatus) (off lim : Z) (d : Db) : list AssetRecord :=
  (λ kr : key3 * AssetRow, row_to_asset_record kr.1 kr.2) <$> limit lim (offset off (live_rows s d)).

Definition get_failed (d : Db) : list AssetRecord :=
  (λ kr : key3 * AssetRow, row_to_asset_record kr.1 kr.2) <$> live_rows Failed d.
Definition get_failed_sample (lim : Z) (d : Db) : list AssetRecord * Z :=
  (live_page Failed 0 lim d, count (λ _ row, status_is Failed row && negb (is_deleted row)) (assets d)).
Definition get_failed_page (off lim : Z) (d : Db) : list AssetRecord := live_page Failed off lim d.
Definition get_pending_page (off lim : Z) (d : Db) : list AssetRecord := live_page Pending off lim d.
(** [DownloadStateStore::get_pending]. *)
Definition get_pending (d : Db) : list AssetRecord := get_pending_page 0 U32_MAX d.

Definition get_policy_excluded_ids_for_revalidation (library : str) (d : Db) : list str :=
  order_by (λ a b, cmp_le (text_cmp a b))
    (elements (set_map (λ k : key3, k.1.2)
       (dom (rows_where (λ k row, status_is PolicyExcluded row && negb (is_deleted row)
          && bool_decide (k.1.1 = library)) d)) : gset str)).

(** ** Provider identities *)

Definition get_master_record_name_for_asset (library asset_record_name : str) (d : Db) : option str :=
  asset_master_mappings d !! (library, asset_record_name).
Definition get_asset_record_names_for_master (library master_record_name : str) (d : Db) : list str :=
  order_by (λ a b, cmp_le (text_cmp a b))
    (omap (λ kv : key2 * str, if bool_decide (kv.1.1 = library) && bool_decide (kv.2 = master_record_name) then Some kv.1.2 else None)
       (map_to_list (asset_master_mappings d))).
(** Library, asset and master. *)
Definition get_asset_master_mappings (d : Db) : list (str * str * str) :=
  (λ kv : key2 * str, (kv.1.1, kv.1.2, kv.2)) <$> map_to_list (asset_master_mappings d).
(** Library, master and asset. *)
Definition get_legacy_master_state_owners (d : Db) : list (str * str * str) :=
  (λ kv : key2 * str, (kv.1.1, kv.1.2, kv.2)) <$> map_to_list (legacy_master_state_owners d).

(** ** Facts *)

Lemma elem_of_live_rows s d k row :
  (k, row) ∈ live_rows s d ↔ assets d !! k = Some row ∧ r_status row = s ∧ is_deleted row = false.
Proof.
  unfold live_rows. rewrite order_by_perm, elem_of_map_to_list. unfold rows_where. rewrite map_lookup_filter_Some. cbn.
  unfold status_is. rewrite andb_true_iff, bool_decide_eq_true, negb_true_iff. done.
Qed.

Lemma elem_of_get_pending d r : Z.of_nat (size (assets d)) <= U32_MAX →
  r ∈ get_pending d ↔ ∃ k row, assets d !! k = Some row ∧ r_status row = Pending ∧ is_deleted row = false
    ∧ r = row_to_asset_record k row.
Proof.
  intros Hs. unfold get_pending, get_pending_page, live_page. rewrite offset_0, limit_all.
  - rewrite list_elem_of_fmap. split.
    + intros ([k row] & -> & (? & ? & ?)%elem_of_live_rows). eauto 6.
    + intros (k & row & ? & ? & ? & ->). exists (k, row). split; [done|]. by apply elem_of_live_rows.
  - unfold live_rows. rewrite order_by_perm, length_map_to_list.
    enough (size (rows_where (λ _ row, status_is Pending row && negb (is_deleted row)) d) <= size (assets d))%nat by lia.
    rewrite <- !size_dom. apply subseteq_size, dom_filter_subseteq.
Qed.
End Reads.
