(* ===== verification/Context.v ===== *)
(** * The preloaded download context

    [DownloadContext] of [src/download/mod.rs]: what a sync loads from the
    state store before it enumerates, as nested maps; the decisions taken on
    it for every asset (skip, adopt, rewrite metadata); and the choice of the
    state identity of an asset, which may claim the row of an older release
    that is keyed by the master record. *)
From S2P Require Import Prelude RustStr Types StateTypes StateDb StateReads Finalize.

(** ** Nested maps *)

Abbreviation nested V := (gmap str (gmap str (gmap str V))).
Abbreviation nested_set := (gmap str (gmap str (gset str))).

(** [map.entry(l).or_default().entry(i).or_default().insert(v, x)]. *)
Definition insert3 {V} (l i v : str) (x : V) (m : nested V) : nested V :=
  let a := default ∅ (m !! l) in <[l := <[i := <[v := x]> (default ∅ (a !! i))]> a]> m.
Definition add3 (l i v : str) (m : nested_set) : nested_set :=
  let a := default ∅ (m !! l) in <[l := <[i := {[v]} ∪ default ∅ (a !! i)]> a]> m.
Definition insert2 {V} (l i : str) (x : V) (m : gmap str (gmap str V)) : gmap str (gmap str V) :=
  <[l := <[i := x]> (default ∅ (m !! l))]> m.
Definition add2 (l i : str) (m : gmap str (gset str)) : gmap str (gset str) :=
  <[l := {[i]} ∪ default ∅ (m !! l)]> m.

(** [map.get(l).and_then(|m| m.get(i))]. *)
Definition sub2 {V} (m : gmap str (gmap str V)) (l i : str) : option V :=
  match m !! l with Some a => a !! i | None => None end.
Definition get3 {V} (m : nested V) (l i v : str) : option V :=
  match sub2 m l i with Some vs => vs !! v | None => None end.
Definition mem3 (m : nested_set) (l i v : str) : bool :=
  match sub2 m l i with Some vs => bool_decide (v ∈ vs) | None => false end.
Definition mem2 (m : gmap str (gset str)) (l i : str) : bool :=
  match m !! l with Some is_ => bool_decide (i ∈ is_) | None => false end.

(** ** The context *)

Record RecordedLocalFile := {
  rf_path : path;
  rf_local_checksum : option str;
  rf_download_checksum : option str;
}.

Record DownloadContext := {
  cx_downloaded_ids : nested_set;
  cx_downloaded_checksums : nested str;
  cx_downloaded_files : nested RecordedLocalFile;
  cx_downloaded_metadata_hashes : nested str;
  cx_metadata_retry_markers : nested_set;
  cx_soft_deleted_ids : gmap str (gset str);
  cx_pending_ids : nested_set;
  cx_pending_filenames : nested str;
  cx_pending_checksums : nested str;
  cx_pending_files : nested RecordedLocalFile;
  cx_asset_master_mappings : option nested_set;
  cx_legacy_master_state_owners : option (gmap str (gmap str str));
  cx_known_ids : gmap str (gset str);
  cx_attempt_counts : gmap str (gmap str Z);
  cx_downloaded_without_metadata_hash : bool;
}.

(** [DownloadContext::default()]. *)
Definition DownloadContext_default : DownloadContext :=
  {| cx_downloaded_ids := ∅; cx_downloaded_checksums := ∅; cx_downloaded_files := ∅; cx_downloaded_metadata_hashes := ∅;
     cx_metadata_retry_markers := ∅; cx_soft_deleted_ids := ∅; cx_pending_ids := ∅; cx_pending_filenames := ∅;
     cx_pending_checksums := ∅; cx_pending_files := ∅; cx_asset_master_mappings := None;
     cx_legacy_master_state_owners := None; cx_known_ids := ∅; cx_attempt_counts := ∅;
     cx_downloaded_without_metadata_hash := false |}.

(** The answers of the nine queries, which run at the same time and may each
    fail. *)
Record ContextRows := {
  cr_downloaded : result StateError (list DownloadedFileRecord);
  cr_soft_deleted : result StateError (list (str * str));
  cr_hashes : result StateError (list (str * str * str * str));
  cr_markers : result StateError (list (str * str * str));
  cr_pending : result StateError (list AssetRecord);
  cr_attempts : result StateError (list (str * str * Z));
  cr_known : result StateError (list (str * str));
  cr_mappings : result StateError (list (str * str * str));
  cr_owners : result StateError (list (str * str * str));
}.

Definition unwrap_or_default {A} (r : result StateError (list A)) : list A := match r with Ok l => l | Err _ => [] end.
Definition ok {A} (r : result StateError A) : option A := match r with Ok a => Some a | Err _ => None end.

Definition count_version_set_entries (m : nested_set) : Z :=
  map_fold (λ _ a n, map_fold (λ _ vs n, n + Z.of_nat (size vs)) n a) 0 m.
Definition count_value_map_entries {V} (m : nested V) : Z :=
  map_fold (λ _ a n, map_fold (λ _ vs n, n + Z.of_nat (size vs)) n a) 0 m.

Definition version_text (v : VersionSizeKey) : str := VersionSizeKey_as_str v.

Definition downloaded_file_of (r : DownloadedFileRecord) : option RecordedLocalFile :=
  (λ p, {| rf_path := p; rf_local_checksum := df_local_checksum r; rf_download_checksum := df_download_checksum r |})
  <$> df_local_path r.

(** Only a row that was downloaded before its checksum changed keeps its file. *)
Definition pending_file_of (r : AssetRecord) : option RecordedLocalFile :=
  match ar_downloaded_at r with
  | Some _ => (λ p, {| rf_path := p; rf_local_checksum := ar_local_checksum r;
                       rf_download_checksum := ar_download_checksum r |}) <$> ar_local_path r
  | None => None
  end.

Definition insert_file (l i v : str) (f : option RecordedLocalFile) (m : nested RecordedLocalFile) : nested RecordedLocalFile :=
  match f with Some f => insert3 l i v f m | None => m end.

(** [DownloadContext::load] from the answers. *)
Definition load_rows (rows : ContextRows) (retry_only : bool) : DownloadContext :=
  let downloaded := unwrap_or_default (cr_downloaded rows) in
  let pending := unwrap_or_default (cr_pending rows) in
  let known := if retry_only then unwrap_or_default (cr_known rows) else [] in
  let ids := foldl (λ m r, add3 (df_library r) (df_id r) (version_text (df_version_size r)) m) ∅ downloaded in
  let hashes := foldl (λ m h, insert3 h.1.1.1 h.1.1.2 h.1.2 h.2 m) ∅ (unwrap_or_default (cr_hashes rows)) in
  {| cx_downloaded_ids := ids;
     cx_downloaded_checksums :=
       foldl (λ m r, insert3 (df_library r) (df_id r) (version_text (df_version_size r)) (df_checksum r) m) ∅ downloaded;
     cx_downloaded_files :=
       foldl (λ m r, insert_file (df_library r) (df_id r) (version_text (df_version_size r)) (downloaded_file_of r) m) ∅ downloaded;
     cx_downloaded_metadata_hashes := hashes;
     cx_metadata_retry_markers := foldl (λ m k, add3 k.1.1 k.1.2 k.2 m) ∅ (unwrap_or_default (cr_markers rows));
     cx_soft_deleted_ids := foldl (λ m k, add2 k.1 k.2 m) ∅ (unwrap_or_default (cr_soft_deleted rows));
     cx_pending_ids := foldl (λ m r, add3 (ar_library r) (ar_id r) (version_text (ar_version_size r)) m) ∅ pending;
     cx_pending_filenames :=
       foldl (λ m r, insert3 (ar_library r) (ar_id r) (version_text (ar_version_size r)) (ar_filename r) m) ∅ pending;
     cx_pending_checksums :=
       foldl (λ m r, insert3 (ar_library r) (ar_id r) (version_text (ar_version_size r)) (ar_checksum r) m) ∅ pending;
     cx_pending_files :=
       foldl (λ m r, insert_file (ar_library r) (ar_id r) (version_text (ar_version_size r)) (pending_file_of r) m) ∅ pending;
     cx_asset_master_mappings := foldl (λ m k, add3 k.1.1 k.2 k.1.2 m) ∅ <$> ok (cr_mappings rows);
     cx_legacy_master_state_owners := foldl (λ m k, insert2 k.1.1 k.1.2 k.2 m) ∅ <$> ok (cr_owners rows);
     cx_known_ids := foldl (λ m k, add2 k.1 k.2 m) ∅ known;
     cx_attempt_counts := foldl (λ m k, insert2 k.1.1 k.1.2 k.2 m) ∅ (unwrap_or_default (cr_attempts rows));
     cx_downloaded_without_metadata_hash := count_value_map_entries hashes <? count_version_set_entries ids |}.

(** The queries of the SQLite store, none failing. *)
Definition query_rows `{StateEnv} (d : Db) : ContextRows :=
  {| cr_downloaded := Ok (get_downloaded_file_records d);
     cr_soft_deleted := Ok (elements (get_soft_deleted_downloaded_ids d));
     cr_hashes := Ok (map_to_list (get_downloaded_metadata_hashes d));
     cr_markers := Ok (elements (get_metadata_retry_markers d));
     cr_pending := Ok (get_pending d);
     cr_attempts := Ok (map_to_list (get_attempt_counts d));
     cr_known := Ok (elements (get_all_known_ids d));
     cr_mappings := Ok (get_asset_master_mappings d);
     cr_owners := Ok (get_legacy_master_state_owners d) |}.

Definition load `{StateEnv} (d : Db) (retry_only : bool) : DownloadContext := load_rows (query_rows d) retry_only.

Section Decisions.
Variable ctx : DownloadContext.

Definition is_known (library asset_id : str) : bool := mem2 (cx_known_ids ctx) library asset_id.
Definition attempt_count (library asset_id : str) : option Z := sub2 (cx_attempt_counts ctx) library asset_id.
Definition is_soft_deleted (library asset_id : str) : bool := mem2 (cx_soft_deleted_ids ctx) library asset_id.

(** ** Skipping *)

(** [None]: the file system decides. *)
Definition should_download_fast (library asset_id : str) (version_size : VersionSizeKey) (checksum : str) (trust_state : bool) :
    option bool :=
  let v := version_text version_size in
  if str_eqb checksum [] then Some true
  else if negb (mem3 (cx_downloaded_ids ctx) library asset_id v) then Some true
  else
    match get3 (cx_downloaded_checksums ctx) library asset_id v with
    | Some stored =>
        if negb (str_eqb stored checksum) then Some true else if trust_state then Some false else None
    | None => if trust_state then Some false else None
    end.

Definition downloaded_file (library asset_id : str) (v : VersionSizeKey) : option RecordedLocalFile :=
  get3 (cx_downloaded_files ctx) library asset_id (version_text v).
Definition pending_file (library asset_id : str) (v : VersionSizeKey) : option RecordedLocalFile :=
  get3 (cx_pending_files ctx) library asset_id (version_text v).
Definition pending_file_matching_checksum (library asset_id : str) (v : VersionSizeKey) (provider_checksum : str) :
    option RecordedLocalFile :=
  stored ← get3 (cx_pending_checksums ctx) library asset_id (version_text v);
  if negb (str_eqb stored provider_checksum) then None else pending_file library asset_id v.

(** ** Metadata *)

Definition needs_metadata_rewrite (library asset_id : str) (version_size : VersionSizeKey) (new_metadata_hash : option str) : bool :=
  if is_soft_deleted library asset_id then false
  else if mem3 (cx_metadata_retry_markers ctx) library asset_id (version_text version_size) then true
  else
    match new_metadata_hash with
    | None => false
    | Some new_hash =>
        match get3 (cx_downloaded_metadata_hashes ctx) library asset_id (version_text version_size) with
        | Some stored => negb (str_eqb stored new_hash)
        | None => true
        end
    end.

Definition has_provider_metadata_drift (library asset_id : str) (new_metadata_hash : option str) : bool :=
  match new_metadata_hash with
  | None => false
  | Some new_hash =>
      if is_soft_deleted library asset_id then false
      else
        match sub2 (cx_downloaded_ids ctx) library asset_id with
        | None => false
        | Some versions =>
            existsb (λ v, match get3 (cx_downloaded_metadata_hashes ctx) library asset_id v with
                          | Some stored => negb (str_eqb stored new_hash)
                          | None => true
                          end) (elements versions)
        end
  end.

Definition has_downloaded_metadata_retry_marker (library asset_id : str) : bool :=
  if is_soft_deleted library asset_id then false
  else
    match sub2 (cx_metadata_retry_markers ctx) library asset_id, sub2 (cx_downloaded_ids ctx) library asset_id with
    | Some markers, Some downloaded => existsb (λ v, bool_decide (v ∈ downloaded)) (elements markers)
    | _, _ => false
    end.

(** ** The state identity of an asset *)

Definition has_versions (m : nested_set) (library asset_id : str) : bool :=
  match sub2 m library asset_id with Some vs => negb (bool_decide (vs = ∅)) | None => false end.
Definition has_state_version (library asset_id : str) : bool :=
  has_versions (cx_downloaded_ids ctx) library asset_id || has_versions (cx_pending_ids ctx) library asset_id.

Definition checksum_matches (m : nested str) (library asset_id : str) (asset : PhotoAsset) : bool :=
  match sub2 m library asset_id with
  | None => false
  | Some checksums =>
      existsb (λ kv, match checksums !! version_text (VersionSizeKey_from kv.1) with
                     | Some stored => str_eqb stored (av_checksum kv.2)
                     | None => false
                     end) (versions asset)
  end.
Definition has_matching_downloaded_checksum (library asset_id : str) (asset : PhotoAsset) : bool :=
  checksum_matches (cx_downloaded_checksums ctx) library asset_id asset.
Definition has_matching_state_checksum (library asset_id : str) (asset : PhotoAsset) : bool :=
  has_matching_downloaded_checksum library asset_id asset
  || checksum_matches (cx_pending_checksums ctx) library asset_id asset.

Definition legacy_owner (library master : str) : option str :=
  cx_legacy_master_state_owners ctx ≫= λ owners, sub2 owners library master.

Definition should_use_legacy_master_state (library : str) (asset : PhotoAsset) : bool :=
  let child := asset_record_name asset in
  let master := record_name asset in
  if str_eqb child master || has_state_version library child then false
  else if negb (has_matching_state_checksum library master asset) then false
  else
    match cx_legacy_master_state_owners ctx with
    | None => false
    | Some owners =>
        match sub2 owners library master with
        | Some owner => str_eqb owner child
        | None =>
            match cx_asset_master_mappings ctx with
            | None => false
            | Some mappings =>
                match sub2 mappings library master with
                | None => true
                | Some children =>
                    match List.filter (λ c, negb (has_state_version library c)) (elements children) with
                    | [sole] => str_eqb sole child
                    | _ => false
                    end
                end
            end
        end
    end.

Abbreviation Claimed := (gset (str * str)).

Definition select_asset_state_record_name (library : str) (asset : PhotoAsset) (claimed : Claimed) : Claimed * str :=
  if should_use_legacy_master_state library asset then
    if bool_decide ((library, record_name asset) ∈ claimed) then (claimed, asset_record_name asset)
    else ({[(library, record_name asset)]} ∪ claimed, record_name asset)
  else (claimed, asset_record_name asset).

Definition select_existing_asset_state_record_name (library : str) (asset : PhotoAsset) : str :=
  if bool_decide (is_Some (legacy_owner library (record_name asset))) && should_use_legacy_master_state library asset
  then record_name asset else asset_record_name asset.
End Decisions.

(** ** Claiming the row of a master *)

Class LegacyOwnerStore (St : Type) := {
  db_claim_legacy_master_state_owner : str → str → str → St → St * result StateError bool;
}.

Section Claim.
Context {St : Type} `{LegacyOwnerStore St}.

Definition LEGACY_OWNER_CLAIM_MAX_ATTEMPTS : Z := 3.

(** [for attempt in 1..=LEGACY_OWNER_CLAIM_MAX_ATTEMPTS]: the error of the
    last attempt is returned. *)
Fixpoint claim_loop (remaining : nat) (library : str) (asset : PhotoAsset) (s : St) : St * result StateError str :=
  match remaining with
  | O => (s, Err (Invariant "select_asset_state_record_name_for_download"))
  | S remaining =>
      match db_claim_legacy_master_state_owner library (record_name asset) (asset_record_name asset) s with
      | (s, Ok true) => (s, Ok (record_name asset))
      | (s, Ok false) => (s, Ok (asset_record_name asset))
      | (s, Err e) => match remaining with O => (s, Err e) | _ => claim_loop remaining library asset s end
      end
  end.

(** [db]: [None] when the run has no state store. *)
Definition select_asset_state_record_name_for_download (ctx : DownloadContext) (db : option St) (library : str)
    (asset : PhotoAsset) (claimed : gset (str * str)) : gset (str * str) * option St * result StateError str :=
  let '(claimed, name) := select_asset_state_record_name ctx library asset claimed in
  if negb (str_eqb name (record_name asset)) || bool_decide (is_Some (legacy_owner ctx library (record_name asset)))
  then (claimed, db, Ok name)
  else
    match db with
    | None => (claimed, None, Ok (asset_record_name asset))
    | Some s =>
        let '(s, r) := claim_loop (Z.to_nat LEGACY_OWNER_CLAIM_MAX_ATTEMPTS) library asset s in (claimed, Some s, r)
    end.
End Claim.

#[export] Instance SqliteStore_owners `{StateEnv} : LegacyOwnerStore SqliteStore := {
  db_claim_legacy_master_state_owner l master child s :=
    call s (λ d, Ok (claim_legacy_master_state_owner l master child d));
}.
