(* ===== verification/ContextSpec.v ===== *)
(** * The context answers for the store

    Theorems about [Context.v]: the decisions taken on a loaded context are
    the ones the rows of the database justify, so that a recorded download is
    not fetched again; and the choice of identities never gives two assets
    the same state row, within a pass or between runs. *)
From S2P Require Import Prelude RustStr Types StateTypes StateDb StateDbSpec StateLaws StateLife StateReads Finalize Context.
Import Sql.

(** ** Nested maps *)

Lemma sub2_insert2 {V} (m : gmap str (gmap str V)) l i x l' i' :
  sub2 (insert2 l i x m) l' i' = if bool_decide ((l, i) = (l', i')) then Some x else sub2 m l' i'.
Proof.
  unfold sub2, insert2. destruct (decide (l = l')) as [<-|Hl].
  - rewrite lookup_insert_eq. destruct (decide (i = i')) as [<-|Hi].
    + by rewrite lookup_insert_eq, bool_decide_true.
    + rewrite lookup_insert_ne, bool_decide_false by congruence. by destruct (m !! l).
  - rewrite lookup_insert_ne, bool_decide_false by congruence. done.
Qed.

Lemma get3_insert3 {V} (m : nested V) l i v x l' i' v' :
  get3 (insert3 l i v x m) l' i' v' = if bool_decide ((l, i, v) = (l', i', v')) then Some x else get3 m l' i' v'.
Proof.
  unfold get3. change (insert3 l i v x m) with (insert2 l i (<[v := x]> (default ∅ (default ∅ (m !! l) !! i))) m).
  rewrite sub2_insert2. destruct (decide ((l, i) = (l', i'))) as [[= <- <-]|Hn].
  - rewrite bool_decide_true by done. destruct (decide (v = v')) as [<-|Hv].
    + by rewrite lookup_insert_eq, bool_decide_true.
    + rewrite lookup_insert_ne, bool_decide_false by congruence. unfold sub2.
      destruct (m !! l) as [a|]; cbn; [by destruct (a !! i)|by rewrite lookup_empty].
  - rewrite !bool_decide_false by congruence. done.
Qed.

Lemma elem_of_add (x y : str) (s : gset str) : bool_decide (y ∈ {[x]} ∪ s) = bool_decide (x = y) || bool_decide (y ∈ s).
Proof.
  rewrite (bool_decide_ext (y ∈ {[x]} ∪ s) (x = y ∨ y ∈ s)) by set_solver. apply bool_decide_or.
Qed.

Lemma mem3_add3 m l i v l' i' v' :
  mem3 (add3 l i v m) l' i' v' = bool_decide ((l, i, v) = (l', i', v')) || mem3 m l' i' v'.
Proof.
  unfold mem3. change (add3 l i v m) with (insert2 l i ({[v]} ∪ default ∅ (default ∅ (m !! l) !! i)) m).
  rewrite sub2_insert2. destruct (decide ((l, i) = (l', i'))) as [[= <- <-]|Hn].
  - rewrite bool_decide_true by done.
    rewrite elem_of_add. f_equal; [apply bool_decide_ext; naive_solver|].
    unfold sub2. destruct (m !! l) as [a|]; cbn; [destruct (a !! i); [done|]|rewrite lookup_empty];
      apply bool_decide_eq_false; set_solver.
  - by rewrite !(bool_decide_false (_ = _)) by congruence.
Qed.

Lemma mem2_add2 m l i l' i' : mem2 (add2 l i m) l' i' = bool_decide ((l, i) = (l', i')) || mem2 m l' i'.
Proof.
  unfold mem2, add2. destruct (decide (l = l')) as [<-|Hl].
  - rewrite lookup_insert_eq.
    rewrite elem_of_add. f_equal; [apply bool_decide_ext; naive_solver|]. destruct (m !! l); cbn; [done|]. apply bool_decide_eq_false. set_solver.
  - rewrite lookup_insert_ne, bool_decide_false by congruence. done.
Qed.

(** ** Maps built from rows *)

Section Folds.
Context {A V : Type} (fl fi fv : A → str) (g : A → option V).

Definition row_key (r : A) : key3 := (fl r, fi r, fv r).

Lemma mem3_fold rows m l i v :
  mem3 (foldl (λ m r, add3 (fl r) (fi r) (fv r) m) m rows) l i v = true ↔
    (∃ r, r ∈ rows ∧ row_key r = (l, i, v)) ∨ mem3 m l i v = true.
Proof.
  revert m. induction rows as [|r rows IH]; intros m; cbn [foldl].
  { split; [by right|]. intros [(r & []%elem_of_nil & _)|]; done. }
  rewrite IH, mem3_add3, orb_true_iff, bool_decide_eq_true. split.
  - intros [(r' & Hin & Hk)|[Hk|Hm]]; [left; exists r'; split; [by right|done]|left; exists r; split; [by left|done]|by right].
  - intros [(r' & [->|Hin]%elem_of_cons & Hk)|Hm]; [right; by left|left; by exists r'|right; by right].
Qed.

Definition one_value (rows : list A) : Prop := ∀ r r', r ∈ rows → r' ∈ rows → row_key r = row_key r' → g r = g r'.

Lemma get3_fold_skip rows m l i v : (∀ r, r ∈ rows → row_key r = (l, i, v) → g r = None) →
  get3 (foldl (λ m r, match g r with Some x => insert3 (fl r) (fi r) (fv r) x m | None => m end) m rows) l i v = get3 m l i v.
Proof.
  revert m. induction rows as [|r rows IH]; intros m Hn; [done|]. cbn [foldl]. rewrite IH.
  - destruct (g r) as [x|] eqn:E; [|done]. rewrite get3_insert3, bool_decide_false; [done|].
    intros Hk. specialize (Hn r). unfold row_key in Hn. rewrite Hn in E; [done|by left|done].
  - intros r' Hin. apply Hn. by right.
Qed.

Lemma get3_fold rows m l i v r : one_value rows → r ∈ rows → row_key r = (l, i, v) → is_Some (g r) →
  get3 (foldl (λ m r, match g r with Some x => insert3 (fl r) (fi r) (fv r) x m | None => m end) m rows) l i v = g r.
Proof.
  revert m r. induction rows as [|r0 rows IH]; intros m r Hu Hin Hk Hs; [by apply elem_of_nil in Hin|]. cbn [foldl].
  assert (one_value rows) as Hu' by (intros r1 r2 H1 H2; apply Hu; by right).
  destruct (decide (Exists (λ r', row_key r' = (l, i, v)) rows)) as [He|Hn].
  - apply Exists_exists in He as (r' & Hin' & Hk').
    assert (g r' = g r) as Hg by (apply Hu; [by right|done|congruence]).
    rewrite <- Hg. apply IH; [done|done|done|]. by rewrite Hg.
  - assert (∀ r', r' ∈ rows → row_key r' <> (l, i, v)) as Hnone.
    { intros r' Hin' Hk'. apply Hn. apply Exists_exists. eauto. }
    apply elem_of_cons in Hin as [->|Hin]; [|by apply Hnone in Hin].
    rewrite get3_fold_skip by (intros r' Hin' Hk'; by apply Hnone in Hin').
    destruct (g r0) as [x|]; [|by destruct Hs]. rewrite get3_insert3, bool_decide_true; done.
Qed.

(** The value of the row with this key, if there is one. *)
Lemma get3_fold_rows rows l i v x : one_value rows →
  get3 (foldl (λ m r, match g r with Some x => insert3 (fl r) (fi r) (fv r) x m | None => m end) ∅ rows) l i v = Some x ↔
    ∃ r, r ∈ rows ∧ row_key r = (l, i, v) ∧ g r = Some x.
Proof.
  intros Hu. split.
  - intros Hx. destruct (decide (Exists (λ r, row_key r = (l, i, v)) rows)) as [He|Hn].
    + apply Exists_exists in He as (r & Hin & Hk). exists r. split_and!; [done|done|].
      destruct (g r) as [y|] eqn:E.
      * rewrite (get3_fold rows ∅ l i v r), E in Hx by (done || by rewrite E). done.
      * rewrite get3_fold_skip in Hx; [done|]. intros r' Hin' Hk'. rewrite <- E. apply Hu; [done|done|congruence].
    + rewrite get3_fold_skip in Hx; [done|]. intros r Hin Hk. exfalso. apply Hn, Exists_exists. eauto.
  - intros (r & Hin & Hk & Hg). rewrite (get3_fold rows ∅ l i v r); [done|done|done|done|by rewrite Hg].
Qed.
End Folds.

(** ** The rows the context is loaded from *)

Section Loaded.
Context `{StateEnv}.

(** Versions are written with the text of their key. *)
Definition canonical (d : Db) : Prop := ∀ k, k ∈ dom (assets d) → ∃ v, k.2 = version_text v.

Lemma canonical_exec o d d' : canonical d → exec o d = Ok d' → canonical d'.
Proof.
  intros Hc Hx k Hk. apply elem_of_dom in Hk as [row Hrow].
  destruct (decide (k ∈ dom (assets d))) as [Hin|Hn]; [by apply Hc|].
  destruct (row_appears o d d' k Hx) as [r ->].
  - unfold life. by rewrite (proj1 (not_elem_of_dom _ _) Hn).
  - unfold life. rewrite Hrow. eauto.
  - by eexists.
Qed.

Lemma canonical_run os d : canonical d → canonical (run os d).
Proof.
  revert d. induction os as [|o os IH]; intros d Hc; [done|]. cbn. apply IH.
  destruct (exec o d) as [d'|] eqn:E; [by eapply canonical_exec|done].
Qed.

Lemma canonical_empty : canonical Db_empty.
Proof. intros k Hk. cbn in Hk. set_solver. Qed.

Lemma version_text_inj v v' : version_text v = version_text v' → v = v'.
Proof. by destruct v, v'. Qed.

Variable d : Db.
Hypothesis Hcanon : canonical d.

Definition record_of (k : key3) (row : AssetRow) : DownloadedFileRecord :=
  {| df_library := k.1.1; df_id := k.1.2; df_version_size := default VOriginal (VersionSizeKey_from_str k.2);
     df_checksum := p_checksum (r_prov row); df_local_path := r_local_path row;
     df_local_checksum := r_local_checksum row; df_download_checksum := r_download_checksum row |}.

Lemma canonical_text k row : assets d !! k = Some row → version_text (default VOriginal (VersionSizeKey_from_str k.2)) = k.2.
Proof.
  intros E. destruct (Hcanon k) as [v Hv]; [apply elem_of_dom; eauto|].
  rewrite Hv. unfold version_text. by rewrite VersionSizeKey_roundtrip.
Qed.

Definition df_key : DownloadedFileRecord → key3 := row_key df_library df_id (λ r, version_text (df_version_size r)).

Lemma elem_of_downloaded r : r ∈ get_downloaded_file_records d ↔
  ∃ row, assets d !! df_key r = Some row ∧ r_status row = Downloaded ∧ r = record_of (df_key r) row.
Proof.
  unfold get_downloaded_file_records. rewrite list_elem_of_fmap. split.
  - intros ([k row] & Hr & Hin). change (r = record_of k row) in Hr. subst r. apply elem_of_map_to_list, map_lookup_filter_Some in Hin as [E Hs]. cbn in E, Hs.
    apply status_is_true in Hs. exists row.
    assert (df_key (record_of k row) = k) as Hk.
    { unfold df_key, row_key, record_of. cbn. rewrite (canonical_text k row E). by destruct k as [[? ?] ?]. }
    by rewrite Hk.
  - intros (row & E & Hs & Hr). exists (df_key r, row). split; [exact Hr|].
    apply elem_of_map_to_list, map_lookup_filter_Some. cbn. split; [done|by apply status_is_true].
Qed.

Lemma downloaded_one_value {V} (g : DownloadedFileRecord → V) r r' :
  r ∈ get_downloaded_file_records d → r' ∈ get_downloaded_file_records d → df_key r = df_key r' → g r = g r'.
Proof.
  intros (row & E & _ & Hr)%elem_of_downloaded (row' & E' & _ & Hr')%elem_of_downloaded Hk.
  rewrite Hk, E' in E. injection E as ->. by rewrite Hr, Hr', Hk.
Qed.

(** A downloaded row, as the context sees it. *)
Definition downloaded_row_at (l i : str) (v : VersionSizeKey) : option AssetRow :=
  match assets d !! (l, i, version_text v) with
  | Some row => if status_is Downloaded row then Some row else None
  | None => None
  end.

Lemma downloaded_key r l i v : df_key r = (l, i, version_text v) → r ∈ get_downloaded_file_records d ↔
  ∃ row, downloaded_row_at l i v = Some row ∧ r = record_of (l, i, version_text v) row.
Proof.
  intros Hk. rewrite elem_of_downloaded, Hk. unfold downloaded_row_at. split.
  - intros (row & -> & Hs%status_is_true & ->). rewrite Hs. eauto.
  - intros (row & E & ->). destruct (assets d !! _) as [row'|]; [|done].
    destruct (status_is Downloaded row') eqn:Hs; [|done]. injection E as ->. apply status_is_true in Hs. eauto.
Qed.

Lemma record_of_key l i v row : df_key (record_of (l, i, version_text v) row) = (l, i, version_text v).
Proof. unfold df_key, row_key, record_of. cbn. unfold version_text. by rewrite VersionSizeKey_roundtrip. Qed.

Lemma loaded_downloaded_ids retry l i v :
  mem3 (cx_downloaded_ids (load d retry)) l i (version_text v) = bool_decide (is_Some (downloaded_row_at l i v)).
Proof.
  apply eq_true_iff_eq. rewrite bool_decide_eq_true. cbn.
  rewrite (mem3_fold df_library df_id (λ r, version_text (df_version_size r))). fold df_key. split.
  - intros [(r & Hin & Hk)|Hm]; [|done]. apply (downloaded_key r l i v Hk) in Hin as (row & E & _). eauto.
  - intros [row E]. left. exists (record_of (l, i, version_text v) row).
    assert (df_key (record_of (l, i, version_text v) row) = (l, i, version_text v)) as Hk by apply record_of_key.
    split; [|done]. apply (downloaded_key _ l i v Hk). eauto.
Qed.

Lemma loaded_by_record {V} (g : DownloadedFileRecord → option V) l i v :
  get3 (foldl (λ m r, match g r with Some x => insert3 (df_library r) (df_id r) (version_text (df_version_size r)) x m | None => m end)
    ∅ (get_downloaded_file_records d)) l i (version_text v)
  = downloaded_row_at l i v ≫= λ row, g (record_of (l, i, version_text v) row).
Proof.
  apply option_eq. intros x.
  rewrite (get3_fold_rows df_library df_id (λ r, version_text (df_version_size r)) g) by (intros r r'; apply downloaded_one_value).
  fold df_key. split.
  - intros (r & Hin & Hk & Hg). apply (downloaded_key r l i v Hk) in Hin as (row & -> & ->). exact Hg.
  - destruct (downloaded_row_at l i v) as [row|] eqn:E; [|done]. cbn. intros Hg.
    exists (record_of (l, i, version_text v) row). split_and!; [|apply record_of_key|done].
    apply (downloaded_key _ l i v (record_of_key l i v row)). eauto.
Qed.

Lemma loaded_checksums retry l i v :
  get3 (cx_downloaded_checksums (load d retry)) l i (version_text v) = (λ row, p_checksum (r_prov row)) <$> downloaded_row_at l i v.
Proof.
  cbn. rewrite (loaded_by_record (λ r, Some (df_checksum r))). by destruct (downloaded_row_at l i v).
Qed.

Definition file_of (row : AssetRow) : option RecordedLocalFile :=
  (λ p, {| rf_path := p; rf_local_checksum := r_local_checksum row; rf_download_checksum := r_download_checksum row |})
  <$> r_local_path row.

Lemma loaded_files retry l i v : downloaded_file (load d retry) l i v = downloaded_row_at l i v ≫= file_of.
Proof. unfold downloaded_file. cbn. rewrite (loaded_by_record downloaded_file_of). by destruct (downloaded_row_at l i v). Qed.

(** ** Decisions on the rows *)

(** What [should_download_fast] means. *)
Definition skip_decision (l i : str) (v : VersionSizeKey) (checksum : str) (trust_state : bool) : option bool :=
  match downloaded_row_at l i v with
  | Some row =>
      if bool_decide (checksum <> []) && str_eqb (p_checksum (r_prov row)) checksum
      then if trust_state then Some false else None else Some true
  | None => Some true
  end.

Lemma loaded_should_download_fast retry l i v checksum trust :
  should_download_fast (load d retry) l i v checksum trust = skip_decision l i v checksum trust.
Proof.
  unfold should_download_fast, skip_decision. rewrite loaded_downloaded_ids, loaded_checksums.
  rewrite str_eqb_nil. destruct (decide (checksum = [])) as [Hc|Hc].
  - rewrite bool_decide_true, (bool_decide_false (checksum <> [])) by (done || by intros []). by destruct (downloaded_row_at l i v).
  - rewrite bool_decide_false, (bool_decide_true (checksum <> [])) by done.
    destruct (downloaded_row_at l i v) as [row|]; [|done]. rewrite bool_decide_true by eauto. cbn.
    by destruct (str_eqb _ checksum).
Qed.

(** ** Pending rows *)

Hypothesis Hsmall : Z.of_nat (size (assets d)) <= U32_MAX.

Definition pending_row_at (l i : str) (v : VersionSizeKey) : option AssetRow :=
  match assets d !! (l, i, version_text v) with
  | Some row => if status_is Pending row && negb (is_deleted row) then Some row else None
  | None => None
  end.

Definition ar_key : AssetRecord → key3 := row_key ar_library ar_id (λ r, version_text (ar_version_size r)).

Lemma ar_key_row k row : assets d !! k = Some row → ar_key (row_to_asset_record k row) = k.
Proof. intros E. destruct k as [[l i] v]. pose proof (canonical_text (l, i, v) row E) as Hv. cbn in Hv. unfold ar_key, row_key. cbn. by rewrite Hv. Qed.

Lemma elem_of_pending r : r ∈ get_pending d ↔
  ∃ row, assets d !! ar_key r = Some row ∧ r_status row = Pending ∧ is_deleted row = false
    ∧ r = row_to_asset_record (ar_key r) row.
Proof.
  rewrite elem_of_get_pending by done. split.
  - intros (k & row & E & Hs & Hd & ->). exists row. by rewrite (ar_key_row k row E).
  - intros (row & E & Hs & Hd & Hr). eauto 6.
Qed.

Lemma pending_one_value {V} (g : AssetRecord → V) r r' :
  r ∈ get_pending d → r' ∈ get_pending d → ar_key r = ar_key r' → g r = g r'.
Proof.
  intros (row & E & _ & _ & Hr)%elem_of_pending (row' & E' & _ & _ & Hr')%elem_of_pending Hk.
  rewrite Hk, E' in E. injection E as ->. by rewrite Hr, Hr', Hk.
Qed.

Lemma pending_key r l i v : ar_key r = (l, i, version_text v) → r ∈ get_pending d ↔
  ∃ row, pending_row_at l i v = Some row ∧ r = row_to_asset_record (l, i, version_text v) row.
Proof.
  intros Hk. rewrite elem_of_pending, Hk. unfold pending_row_at. split.
  - intros (row & -> & Hs%status_is_true & Hd & ->). rewrite Hs, Hd. eauto.
  - intros (row & E & ->). destruct (assets d !! _) as [row'|]; [|done].
    destruct (status_is Pending row' && negb (is_deleted row')) eqn:Hs; [|done]. injection E as ->.
    apply andb_true_iff in Hs as [Hs%status_is_true Hd%negb_true_iff]. eauto 6.
Qed.

Lemma loaded_by_pending {V} (g : AssetRecord → option V) l i v :
  get3 (foldl (λ m r, match g r with Some x => insert3 (ar_library r) (ar_id r) (version_text (ar_version_size r)) x m | None => m end)
    ∅ (get_pending d)) l i (version_text v)
  = pending_row_at l i v ≫= λ row, g (row_to_asset_record (l, i, version_text v) row).
Proof.
  apply option_eq. intros x.
  rewrite (get3_fold_rows ar_library ar_id (λ r, version_text (ar_version_size r)) g) by (intros r r'; apply pending_one_value).
  fold ar_key. split.
  - intros (r & Hin & Hk & Hg). apply (pending_key r l i v Hk) in Hin as (row & -> & ->). exact Hg.
  - destruct (pending_row_at l i v) as [row|] eqn:E; [|done]. cbn [mbind option_bind]. intros Hg.
    assert (ar_key (row_to_asset_record (l, i, version_text v) row) = (l, i, version_text v)) as Hk.
    { apply ar_key_row. unfold pending_row_at in E. destruct (assets d !! _) as [row'|]; [|done].
      destruct (_ && _); [|done]. by injection E as ->. }
    eexists. split_and!; [|exact Hk|done]. apply (pending_key _ l i v Hk). eauto.
Qed.

(** The file a pending row still has: it was downloaded, and the provider's
    checksum has not changed since. *)
Definition pending_file_at (l i : str) (v : VersionSizeKey) (checksum : str) : option RecordedLocalFile :=
  row ← pending_row_at l i v;
  if str_eqb (p_checksum (r_prov row)) checksum
  then match optional_ts_to_utc (r_downloaded_at row) with Some _ => file_of row | None => None end else None.

Lemma loaded_pending_file retry l i v checksum :
  pending_file_matching_checksum (load d retry) l i v checksum = pending_file_at l i v checksum.
Proof.
  unfold pending_file_matching_checksum, pending_file, pending_file_at. cbn -[get_pending].
  rewrite (loaded_by_pending (λ r, Some (ar_checksum r))), (loaded_by_pending pending_file_of).
  destruct (pending_row_at l i v) as [row|]; [|done]. cbn. destruct (str_eqb _ checksum); done.
Qed.

(** ** Identities *)

Lemma loaded_owner retry l m : legacy_owner (load d retry) l m = legacy_master_state_owners d !! (l, m).
Proof.
  unfold legacy_owner. cbn. unfold get_legacy_master_state_owners.
  assert (∀ kvs (acc : gmap str (gmap str str)), NoDup kvs.*1 →
    sub2 (foldl (λ m k, insert2 k.1.1 k.1.2 k.2 m) acc ((λ kv : key2 * str, (kv.1.1, kv.1.2, kv.2)) <$> kvs)) l m
    = match (list_to_map kvs : gmap key2 str) !! (l, m) with Some x => Some x | None => sub2 acc l m end) as Hfold.
  { induction kvs as [|[[l0 m0] x] kvs IH]; intros acc Hnd; [done|]. cbn in Hnd. apply NoDup_cons in Hnd as [Hn Hnd].
    cbn [fmap list_fmap foldl list_to_map foldr]. rewrite IH by done. cbn [fst snd uncurry]. rewrite sub2_insert2.
    destruct (decide ((l0, m0) = (l, m))) as [Hk|Hk].
    - rewrite Hk in *. rewrite bool_decide_true, lookup_insert_eq by done. by rewrite (not_elem_of_list_to_map_1 kvs).
    - rewrite bool_decide_false, lookup_insert_ne by done. done. }
  rewrite Hfold by apply NoDup_fst_map_to_list. rewrite list_to_map_to_list. by destruct (legacy_master_state_owners d !! (l, m)).
Qed.

Lemma loaded_known retry l i : is_known (load d retry) l i = retry && bool_decide ((l, i) ∈ get_all_known_ids d).
Proof.
  assert (∀ ks m, mem2 (foldl (λ m k, add2 k.1 k.2 m) m ks) l i = true ↔ (l, i) ∈ ks ∨ mem2 m l i = true) as Hfold.
  { induction ks as [|[l0 i0] ks IH]; intros m; [cbn; set_solver|]. cbn [foldl]. rewrite IH, mem2_add2, orb_true_iff, bool_decide_eq_true.
    rewrite elem_of_cons. naive_solver. }
  apply eq_true_iff_eq. unfold is_known. cbn. rewrite Hfold, andb_true_iff, bool_decide_eq_true. destruct retry; cbn.
  - rewrite elem_of_elements. split; [intros [Hin|Hm]; [by split|done]|intros [_ Hin]; by left].
  - split; [|by intros []]. intros [Hin|Hm]; [by apply elem_of_nil in Hin|done].
Qed.
End Loaded.

(** the loaded context is the store: on any database the operations can
    produce (of fewer rows than the query's limit), every question a sync asks
    the context is answered by the row of the store: a version is skipped
    exactly when its row is downloaded with the provider's non-empty checksum,
    the recorded file is the row's, a pending row offers its file only when it
    was downloaded and has this checksum, an asset is known when it has a row,
    and the owner of a master's row is the recorded one. *)
Theorem context_reads_store `{StateEnv} os retry l i v checksum trust master :
  let d := run os Db_empty in
  let ctx := load d retry in
  Z.of_nat (size (assets d)) <= U32_MAX →
  should_download_fast ctx l i v checksum trust = skip_decision d l i v checksum trust
  ∧ downloaded_file ctx l i v = downloaded_row_at d l i v ≫= file_of
  ∧ pending_file_matching_checksum ctx l i v checksum = pending_file_at d l i v checksum
  ∧ is_known ctx l i = retry && bool_decide ((l, i) ∈ get_all_known_ids d)
  ∧ legacy_owner ctx l master = legacy_master_state_owners d !! (l, master).
Proof.
  intros d ctx Hs. assert (canonical d) as Hc by apply canonical_run, canonical_empty. split_and!.
  - by apply loaded_should_download_fast.
  - by apply loaded_files.
  - by apply loaded_pending_file.
  - apply loaded_known; done.
  - apply loaded_owner; done.
Qed.

(** A recorded download is remembered: after any later operations that neither
    record another download or failure of the version nor see it with another
    checksum, a sync that loads its context has the recorded file, and a
    download is certain only when the provider's checksum is empty or another. *)
Lemma recorded_download_remembered `{StateEnv} before after d1 now library id v p c dc repair row retry checksum trust :
  Forall op_ok before → Forall op_ok after →
  exec (OMarkDownloaded now (library, id, version_text v) p c dc repair) (run before Db_empty) = Ok d1 →
  assets d1 !! (library, id, version_text v) = Some row →
  Forall (λ o, forgets (library, id, version_text v) (p_checksum (r_prov row)) o = false) after →
  let ctx := load (run after d1) retry in
  ∃ f, downloaded_file ctx library id v = Some f ∧ rf_path f = p
  ∧ should_download_fast ctx library id v checksum trust =
      if bool_decide (checksum <> []) && str_eqb (p_checksum (r_prov row)) checksum
      then if trust then Some false else None else Some true.
Proof.
  intros Hb Ha Hx E Hf ctx. destruct (mark_downloaded_row _ _ _ _ _ _ _ _ _ _ _ Hx E) as [Hs Hp].
  assert (db_ok d1) as Hd1 by (apply (exec_ok _ _ _ (reachable_ok _ Hb)) in Hx; done).
  destruct (run_kept after d1 (library, id, version_text v) row Hd1 Ha E Hs Hf) as (row' & E' & [S1 S2 S3] & _).
  assert (canonical (run after d1)) as Hc.
  { apply canonical_run. eapply canonical_exec; [|exact Hx]. apply canonical_run, canonical_empty. }
  assert (downloaded_row_at (run after d1) library id v = Some row') as Hrow.
  { unfold downloaded_row_at. rewrite E'. assert (status_is Downloaded row' = true) as -> by (apply status_is_true; congruence). done. }
  unfold ctx. rewrite loaded_files, Hrow, loaded_should_download_fast by done. unfold skip_decision. rewrite Hrow, <- S3. cbn.
  unfold file_of. rewrite S2, Hp. cbn. by eexists.
Qed.

(** ** Identities within a pass *)

Section Identities.

(** A pass over assets, each with its library. *)
Fixpoint select_pass (ctx : DownloadContext) (assets : list (str * PhotoAsset)) (claimed : gset (str * str)) : list (str * str) :=
  match assets with
  | [] => []
  | (l, a) :: assets =>
      let '(claimed, name) := select_asset_state_record_name ctx l a claimed in
      (l, name) :: select_pass ctx assets claimed
  end.

Definition own_id (la : str * PhotoAsset) : str * str := (la.1, asset_record_name la.2).
Definition master_id (la : str * PhotoAsset) : str * str := (la.1, record_name la.2).

Lemma select_pass_names ctx assets claimed n : n ∈ select_pass ctx assets claimed →
  n ∈ own_id <$> assets ∨ (n ∈ master_id <$> assets ∧ n ∉ claimed).
Proof.
  revert claimed. induction assets as [|[l a] assets IH]; intros claimed; cbn; [by intros []%elem_of_nil|].
  unfold select_asset_state_record_name. destruct (should_use_legacy_master_state ctx l a).
  - case_bool_decide as Hc.
    + intros [->|Hin]%elem_of_cons; [left; by left|]. apply IH in Hin as [Hin|[Hin Hn]]; [left; by right|right; split; [by right|done]].
    + intros [->|Hin]%elem_of_cons; [right; split; [by left|done]|].
      apply IH in Hin as [Hin|[Hin Hn]]; [left; by right|right; split; [by right|set_solver]].
  - intros [->|Hin]%elem_of_cons; [left; by left|]. apply IH in Hin as [Hin|[Hin Hn]]; [left; by right|right; split; [by right|done]].
Qed.

(** in a pass, no two assets get the same state identity, whatever the
    context says about rows of older releases: if the asset records are
    distinct and no asset record shares its name with the master of another
    asset of its library, the chosen names are pairwise distinct. *)
Theorem pass_identities_distinct ctx assets claimed :
  NoDup (own_id <$> assets) →
  (∀ x y, x ∈ assets → y ∈ assets → own_id x = master_id y → x = y) →
  NoDup (select_pass ctx assets claimed).
Proof.
  revert claimed. induction assets as [|[l a] assets IH]; intros claimed Hnd Hm; [constructor|]. cbn in Hnd.
  apply NoDup_cons in Hnd as [Hn Hnd]. specialize (λ c, IH c Hnd (λ x y Hx Hy, Hm x y (list_elem_of_further _ _ _ Hx) (list_elem_of_further _ _ _ Hy))).
  assert (∀ x, x ∈ assets → own_id x <> own_id (l, a)) as Hown.
  { intros x Hx Heq. apply Hn. rewrite <- Heq. by apply list_elem_of_fmap_2. }
  assert (∀ claimed', own_id (l, a) ∉ select_pass ctx assets claimed') as Hno.
  { intros claimed' [Hin|[Hin _]]%select_pass_names; [done|]. apply list_elem_of_fmap in Hin as (y & Heq & Hy).
    assert ((l, a) = y) as <- by (apply Hm; [by left|by right|done]). by apply (Hown (l, a)). }
  cbn. unfold select_asset_state_record_name. destruct (should_use_legacy_master_state ctx l a); [case_bool_decide as Hc|];
    (apply NoDup_cons; split; [|by apply IH]); [apply Hno| |apply Hno].
  intros [Hin|[_ Hin]]%select_pass_names; [|set_solver]. apply list_elem_of_fmap in Hin as (y & Heq & Hy).
  assert (y = (l, a)) as -> by (apply Hm; [by right|by left|done]). by apply (Hown (l, a)).
Qed.
End Identities.

(** ** Identities between runs *)

Section Owners.
Context `{StateEnv}.
#[local] Arguments Sql.holds : simpl never.

Lemma prune_versions_owners library vs d :
  legacy_master_state_owners (prune_pending_asset_versions library vs d).1 = legacy_master_state_owners d.
Proof.
  revert d. induction vs as [|[id v] vs IH]; intros d; [done|]. cbn.
  match goal with |- context [prune_pending_asset_versions library vs ?d1] =>
    specialize (IH d1); destruct (prune_pending_asset_versions library vs d1) as [d2 n] end.
  cbn in *. rewrite IH. unfold delete_assets. by destruct foreign_keys.
Qed.

Lemma revision_owners d l i rev :
  legacy_master_state_owners (record_metadata_capture_revision d l i rev) = legacy_master_state_owners d.
Proof. unfold record_metadata_capture_revision. by repeat case_match. Qed.

Ltac owners_case Hx :=
  repeat match type of Hx with
  | fmap fst ?e = Ok _ => destruct e as [[? ?]|] eqn:?E; [|done]; cbn in Hx
  | context [match ?e with _ => _ end] => destruct e eqn:?; try done
  end.

Lemma update_status_owners d k p c dc repair t :
  legacy_master_state_owners (update_status_to_downloaded d k p c dc repair t).1 = legacy_master_state_owners d.
Proof. unfold update_status_to_downloaded. by destruct (assets d !! k). Qed.

Ltac owners_update Hx :=
  match type of Hx with context [update_status_to_downloaded ?d ?k ?p ?c ?dc ?r ?t] =>
    pose proof (update_status_owners d k p c dc r t); destruct (update_status_to_downloaded d k p c dc r t) as [? ?] end;
  cbn in *.

Lemma upsert_owners d r t d' : upsert_asset_row d r t = Ok d' →
  legacy_master_state_owners d' = legacy_master_state_owners d.
Proof. unfold upsert_asset_row. intros Hx. owners_case Hx; by injection Hx as <-. Qed.

Lemma deletion_owners op sel at_ clear d d' :
  fst <$> delete_at_source op sel at_ clear d = Ok d' → legacy_master_state_owners d' = legacy_master_state_owners d.
Proof.
  unfold delete_at_source. destruct (exists_row _ _); [done|]. cbn. intros Hx. injection Hx as <-. by destruct clear.
Qed.

(** The recorded owner of a master's row never changes. *)
Lemma owner_kept o d d' lm x : exec o d = Ok d' → legacy_master_state_owners d !! lm = Some x →
  legacy_master_state_owners d' !! lm = Some x.
Proof.
  intros Hx E. assert (legacy_master_state_owners d' = legacy_master_state_owners d ∨
    ∃ l m a, o = OClaimOwner l m a) as [->|(l & m & a & ->)]; [|done|].
  { destruct o; cbn [exec] in Hx; repeat match goal with k : key3 |- _ => destruct k as [[? ?] ?] end;
      try (right; by eauto); left; try (by injection Hx as <-).
    - by eapply upsert_owners.
    - unfold mark_downloaded_with_capture_repair in Hx. owners_update Hx.
      destruct (_ =? 0); [done|]. injection Hx as <-. by rewrite revision_owners.
    - unfold import_adopt in Hx. destruct (upsert_asset_row d r (timestamp now)) as [d1|] eqn:Eu; [|done]. cbn in Hx.
      apply upsert_owners in Eu. owners_update Hx. injection Hx as <-. cbn. rewrite revision_owners. congruence.
    - unfold mark_failed in Hx. owners_case Hx; by injection Hx as <-.
    - injection Hx as <-. unfold prune_stale_pending_not_seen_since, delete_assets. by destruct foreign_keys.
    - injection Hx as <-. apply prune_versions_owners.
    - unfold set_asset_verification in Hx. owners_case Hx; by injection Hx as <-.
    - injection Hx as <-. unfold mark_policy_excluded. by repeat case_match.
    - by eapply deletion_owners.
    - by eapply deletion_owners.
    - by eapply deletion_owners.
    - by eapply deletion_owners.
    - injection Hx as <-. unfold refresh_downloaded_asset_metadata. cbn. match goal with |- context [if ?c then record_metadata_capture_revision _ _ _ _ else _] => destruct c end; [by rewrite revision_owners|done].
    - destruct (record_capture_repair_prepared _ _ _ _) as [[d1 ?]|] eqn:E1; [|done]. injection Hx as <-.
      unfold record_capture_repair_prepared in E1. owners_case E1; by injection E1 as <- <-.
    - destruct (finish_metadata_rewrite _ _ _ _ _ _) as [[d1 ?]|] eqn:E1; [|done]. injection Hx as <-.
      unfold finish_metadata_rewrite in E1. owners_case E1; by injection E1 as <- <-.
    - injection Hx as <-. unfold begin_enum_progress. by case_match.
    - injection Hx as <-. unfold complete_metadata_capture_revision. cbn. by case_match. }
  cbn in Hx. injection Hx as <-. unfold claim_legacy_master_state_owner.
  destruct (legacy_master_state_owners d !! (l, m)) eqn:El; [done|]. cbn.
  destruct (decide ((l, m) = lm)) as [<-|Hn]; [congruence|]. by rewrite lookup_insert_ne.
Qed.

Definition evolves (d d' : Db) : Prop := ∃ os, d' = run os d.

Lemma owner_evolves d d' lm x : evolves d d' → legacy_master_state_owners d !! lm = Some x →
  legacy_master_state_owners d' !! lm = Some x.
Proof.
  intros [os ->]. revert d. induction os as [|o os IH]; intros d E; [done|]. cbn. apply IH.
  destruct (exec o d) as [d'|] eqn:Ex; [by eapply owner_kept|done].
Qed.

Lemma claim_loop_owner n l a s s' : claim_loop n l a s = (s', Ok (record_name a)) → asset_record_name a <> record_name a →
  legacy_master_state_owners (ss_db s') !! (l, record_name a) = Some (asset_record_name a).
Proof.
  intros Hl Hn. revert s Hl. induction n as [|n IH]; intros s; cbn; [done|]. unfold call.
  assert (∀ d, let '(d', b) := claim_legacy_master_state_owner l (record_name a) (asset_record_name a) d in
    b = true → legacy_master_state_owners d' !! (l, record_name a) = Some (asset_record_name a)) as Hc.
  { intros d. unfold claim_legacy_master_state_owner. destruct (legacy_master_state_owners d !! _) as [o|] eqn:E.
    - intros ->%bool_decide_eq_true. done.
    - intros _. cbn. by rewrite lookup_insert_eq. }
  specialize (Hc (ss_db s)). destruct (claim_legacy_master_state_owner _ _ _ (ss_db s)) as [d' b].
  destruct (ss_faults s) as [|[] faults].
  - destruct b; [intros [= <-]; by apply Hc|]. intros [= _ Hbad]. done.
  - destruct n; [done|]. apply IH.
  - destruct b; [intros [= <-]; by apply Hc|]. intros [= _ Hbad]. done.
Qed.

Lemma should_use_owner ctx l a o : should_use_legacy_master_state ctx l a = true → legacy_owner ctx l (record_name a) = Some o →
  o = asset_record_name a.
Proof.
  unfold should_use_legacy_master_state, legacy_owner. destruct (_ || has_state_version _ _ _); [done|].
  destruct (negb _); [done|]. destruct (cx_legacy_master_state_owners ctx) as [owners|]; [|done]. cbn.
  intros Hs Ho. rewrite Ho in Hs. by apply bool_decide_eq_true in Hs.
Qed.

Lemma selected_owner d0 retry s l a claimed claimed' s' : evolves d0 (ss_db s) → asset_record_name a <> record_name a →
  select_asset_state_record_name_for_download (load d0 retry) (Some s) l a claimed = (claimed', Some s', Ok (record_name a)) →
  legacy_master_state_owners (ss_db s') !! (l, record_name a) = Some (asset_record_name a).
Proof.
  intros He Hn. unfold select_asset_state_record_name_for_download.
  destruct (select_asset_state_record_name (load d0 retry) l a claimed) as [c name] eqn:Es.
  destruct (negb (str_eqb name (record_name a)) || bool_decide (is_Some (legacy_owner (load d0 retry) l (record_name a)))) eqn:Eo.
  - intros [= -> -> ->]. unfold str_eqb in Eo. rewrite bool_decide_true in Eo by done. cbn [negb orb] in Eo.
    apply bool_decide_eq_true in Eo as [o Ho].
    assert (should_use_legacy_master_state (load d0 retry) l a = true) as Hs.
    { unfold select_asset_state_record_name in Es. destruct (should_use_legacy_master_state _ l a); [done|]. congruence. }
    pose proof (should_use_owner _ _ _ _ Hs Ho) as ->. rewrite loaded_owner in Ho. by eapply owner_evolves.
  - destruct (claim_loop _ l a s) as [s1 r] eqn:Ec. intros [= -> -> ->]. by eapply claim_loop_owner.
Qed.

Lemma claim_loop_evolves n l a s : evolves (ss_db s) (ss_db (claim_loop n l a s).1).
Proof.
  revert s. induction n as [|n IH]; intros s; [by exists []|]. cbn. unfold call.
  assert (evolves (ss_db s) (claim_legacy_master_state_owner l (record_name a) (asset_record_name a) (ss_db s)).1) as He.
  { by exists [OClaimOwner l (record_name a) (asset_record_name a)]. }
  destruct (claim_legacy_master_state_owner _ _ _ (ss_db s)) as [d' b].
  destruct (ss_faults s) as [|[] faults]; [by destruct b| |by destruct b].
  destruct n; [by exists []|]. apply (IH {| ss_db := ss_db s; ss_now := ss_now s + NANOS; ss_faults := faults |}).
Qed.

Lemma selection_evolves ctx s l a claimed claimed' s' r :
  select_asset_state_record_name_for_download ctx (Some s) l a claimed = (claimed', Some s', r) → evolves (ss_db s) (ss_db s').
Proof.
  unfold select_asset_state_record_name_for_download. destruct (select_asset_state_record_name ctx l a claimed) as [c name].
  destruct (_ || _); [intros [= <- <- <-]; by exists []|].
  pose proof (claim_loop_evolves (Z.to_nat LEGACY_OWNER_CLAIM_MAX_ATTEMPTS) l a s) as He.
  destruct (claim_loop _ l a s) as [s1 r1]. by intros [= <- <- <-].
Qed.

(** the state row of an older release that is keyed by a master record
    belongs to one asset for ever: if in two downloads, of any runs of the
    program on one database, with any operations and failed writes between
    them and contexts loaded at any earlier moment, two assets are both given
    the identity of the same master, they are the same asset. *)
Theorem legacy_row_has_one_owner d1 r1 s1 s1' d2 r2 s2 s2' l a1 a2 c1 c1' c2 c2' :
  evolves d1 (ss_db s1) →
  select_asset_state_record_name_for_download (load d1 r1) (Some s1) l a1 c1 = (c1', Some s1', Ok (record_name a1)) →
  evolves (ss_db s1') (ss_db s2) → evolves d2 (ss_db s2) →
  select_asset_state_record_name_for_download (load d2 r2) (Some s2) l a2 c2 = (c2', Some s2', Ok (record_name a2)) →
  record_name a1 = record_name a2 → asset_record_name a1 <> record_name a1 → asset_record_name a2 <> record_name a2 →
  asset_record_name a1 = asset_record_name a2.
Proof.
  intros He1 Hs1 He Hd2 Hs2 Hm Hn1 Hn2. pose proof (selected_owner _ _ _ _ _ _ _ _ He1 Hn1 Hs1) as Ho1.
  pose proof (selected_owner _ _ _ _ _ _ _ _ Hd2 Hn2 Hs2) as Ho2.
  apply (owner_evolves _ _ _ _ He) in Ho1. rewrite Hm in Ho1.
  enough (legacy_master_state_owners (ss_db s2') !! (l, record_name a2) = Some (asset_record_name a1)) by congruence.
  eapply owner_evolves; [|exact Ho1]. by eapply selection_evolves.
Qed.
End Owners.

(** ** Runs on a small store *)

Module ContextRuns.
Import StateDbSpec.Samples StateLaws.LawRuns.

(** A child of the master [M], whose row an older release left pending. *)
Definition child (name : string) : PhotoAsset :=
  {| record_name := lit "M"; asset_record_name := lit name; state_record_name := None; source_zone := None; filename := None;
     asset_metadata := AssetMetadata_default; malformed_resources := []; asset_date := None; added_instant := None;
     item_type := Some Image;
     versions := [(Original, {| av_size := 4096; av_url := lit "u"; av_asset_type := lit "public.heic"; av_checksum := lit "c1" |})] |}.
Definition legacy : Db := run [OUpsertSeen 1700000000000000000 (record "M" "c1" "m1")] Db_empty.
Definition library : str := lit "PrimarySync".
Definition siblings : list (str * PhotoAsset) := [(library, child "A1"); (library, child "A2")].

Example siblings_identities : (λ n, n.2) <$> select_pass (load legacy false) siblings ∅ = [lit "M"; lit "A2"].
Proof. vm_compute. reflexivity. Qed.

Lemma context_reads_store_witness :
  should_download_fast (load (run prepared_ops Db_empty) true) library (lit "A") VOriginal (lit "c1") false
  = skip_decision (run prepared_ops Db_empty) library (lit "A") VOriginal (lit "c1") false.
Proof.
  refine (proj1 (context_reads_store prepared_ops true library (lit "A") VOriginal (lit "c1") false (lit "M") _)).
  vm_compute. discriminate.
Defined.

Lemma pass_identities_distinct_witness : NoDup (select_pass (load legacy false) siblings ∅).
Proof.
  apply pass_identities_distinct.
  - apply (bool_decide_unpack _). vm_compute. exact I.
  - intros x y Hx Hy Heq. unfold siblings in Hx, Hy.
    repeat match goal with H : _ ∈ _ :: _ |- _ => apply elem_of_cons in H as [->|H] | H : _ ∈ [] |- _ => by apply elem_of_nil in H end;
      first [reflexivity|discriminate Heq].
Defined.

(** The first write of the claim fails. *)
Definition store : SqliteStore := {| ss_db := legacy; ss_now := 1700000000000000000; ss_faults := [true] |}.
Definition selected := select_asset_state_record_name_for_download (load legacy false) (Some store) library (child "A1") ∅.
Definition store' : SqliteStore := default store selected.1.2.
Definition again := select_asset_state_record_name_for_download (load legacy false) (Some store') library (child "A1") ∅.
Definition store_after : SqliteStore := default store again.1.2.

Lemma legacy_row_has_one_owner_witness :
  legacy_master_state_owners (ss_db store') !! (library, lit "M") = Some (lit "A1")
  ∧ asset_record_name (child "A1") = asset_record_name (child "A1").
Proof.
  split; [vm_compute; reflexivity|].
  apply (legacy_row_has_one_owner legacy false store store' legacy false store' store_after library (child "A1") (child "A1")
    ∅ selected.1.1 ∅ again.1.1).
  - by exists [].
  - vm_compute. reflexivity.
  - by exists [].
  - exists [OClaimOwner library (lit "M") (lit "A1")]. vm_compute. reflexivity.
  - vm_compute. reflexivity.
  - reflexivity.
  - vm_compute. discriminate.
  - vm_compute. discriminate.
Defined.
End ContextRuns.
