(* ===== verification/Albums.v ===== *)
(** * Album memberships

    The album tables of [src/state/db.rs]: containers, membership snapshots
    with their generations, memberships written by a snapshot or by the change
    stream, and the flat list of album names.  A snapshot replaces the
    memberships of its container when it completes. *)
From S2P Require Import Prelude RustStr Types StateTypes StateDb.
Import Sql.

(** ** Tables *)

Record Container := {
  ac_album_name : str;
  ac_pass_kind : str;
  ac_is_deleted : bool;
  ac_updated_at : Z;
}.

Inductive SnapshotStatus := Running | Complete | Invalidated.
#[export] Instance SnapshotStatus_eq : EqDecision SnapshotStatus.
Proof. solve_decision. Defined.

Record Snapshot := {
  sn_status : SnapshotStatus;
  sn_enum_config_hash : option str;
  sn_started_at : Z;
  sn_completed_at : option Z;
}.

Record Membership := {
  mb_master_record_name : option str;
  mb_generation : Z;
  mb_is_deleted : bool;
  mb_source : str;
  mb_updated_at : Z;
}.

Record AlbumMembershipRecord := {
  amr_library : str;
  amr_asset_record_name : str;
  amr_master_record_name : option str;
  amr_container_id : str;
  amr_generation : Z;
  amr_source : str;
}.

(** Containers are keyed by library and container, snapshots by container and
    generation, memberships by library, asset and container; [asset_albums]
    holds library, asset, album name and source. *)
Record AlbumDb := {
  album_containers : gmap key2 Container;
  album_membership_snapshots : gmap (key2 * Z) Snapshot;
  asset_album_memberships : gmap key3 Membership;
  asset_albums : gset (str * str * str * str);
}.

Definition AlbumDb_empty : AlbumDb :=
  {| album_containers := ∅; album_membership_snapshots := ∅; asset_album_memberships := ∅; asset_albums := ∅ |}.

Definition set_containers (d : AlbumDb) (m : gmap key2 Container) : AlbumDb :=
  {| album_containers := m; album_membership_snapshots := album_membership_snapshots d;
     asset_album_memberships := asset_album_memberships d; asset_albums := asset_albums d |}.
Definition set_snapshots (d : AlbumDb) (m : gmap (key2 * Z) Snapshot) : AlbumDb :=
  {| album_containers := album_containers d; album_membership_snapshots := m;
     asset_album_memberships := asset_album_memberships d; asset_albums := asset_albums d |}.
Definition set_memberships (d : AlbumDb) (m : gmap key3 Membership) : AlbumDb :=
  {| album_containers := album_containers d; album_membership_snapshots := album_membership_snapshots d;
     asset_album_memberships := m; asset_albums := asset_albums d |}.

(** ** Operations *)

(** [INSERT OR IGNORE]. *)
Definition add_asset_album (library asset_id album_name source : str) (d : AlbumDb) : AlbumDb :=
  {| album_containers := album_containers d; album_membership_snapshots := album_membership_snapshots d;
     asset_album_memberships := asset_album_memberships d;
     asset_albums := {[(library, asset_id, album_name, source)]} ∪ asset_albums d |}.

Definition get_all_asset_albums (library : str) (d : AlbumDb) : list (str * str) :=
  omap (λ r : str * str * str * str, if bool_decide (r.1.1.1 = library) then Some (r.1.1.2, r.1.2) else None)
    (elements (asset_albums d)).

Definition upsert_album_container (now : Z) (library container_id album_name pass_kind : str) (d : AlbumDb) : AlbumDb :=
  set_containers d (<[(library, container_id) :=
    {| ac_album_name := album_name; ac_pass_kind := pass_kind; ac_is_deleted := false; ac_updated_at := timestamp now |}]>
    (album_containers d)).

Definition mark_album_container_deleted (now : Z) (library container_id : str) (d : AlbumDb) : AlbumDb :=
  set_containers d (update (λ k _, bool_decide (k = (library, container_id)))
    (λ c, {| ac_album_name := ac_album_name c; ac_pass_kind := ac_pass_kind c; ac_is_deleted := true;
             ac_updated_at := timestamp now |}) (album_containers d)).

(** [COALESCE(MAX(generation), 0)] of the container. *)
Definition max_generation (c : key2) (d : AlbumDb) : Z :=
  map_fold (λ k _ g, if bool_decide (k.1 = c) then Z.max k.2 g else g) 0 (album_membership_snapshots d).

Definition start_album_membership_snapshot (now : Z) (library container_id : str) (enum_config_hash : option str)
    (d : AlbumDb) : result StateError (AlbumDb * Z) :=
  let c := (library, container_id) in
  let generation := max_generation c d + 1 in
  match album_membership_snapshots d !! (c, generation) with
  | Some _ => Err (ConstraintFailed "start_album_membership_snapshot::insert")
  | None =>
      Ok (set_snapshots d (<[(c, generation) :=
            {| sn_status := Running; sn_enum_config_hash := enum_config_hash; sn_started_at := timestamp now;
               sn_completed_at := None |}]> (album_membership_snapshots d)), generation)
  end.

Definition running (c : key2) (generation : Z) (d : AlbumDb) : bool :=
  match album_membership_snapshots d !! (c, generation) with
  | Some s => bool_decide (sn_status s = Running)
  | None => false
  end.

(** The upsert of a membership; only a snapshot writes its generation over an
    old one. *)
Definition upsert_membership (now : Z) (k : key3) (generation : Z) (takes_generation : bool) (master_record_name : option str)
    (source : str) (m : gmap key3 Membership) : gmap key3 Membership :=
  <[k := match m !! k with
         | None => {| mb_master_record_name := master_record_name; mb_generation := generation; mb_is_deleted := false;
                      mb_source := source; mb_updated_at := timestamp now |}
         | Some old => {| mb_master_record_name := coalesce master_record_name (mb_master_record_name old);
                          mb_generation := if takes_generation then generation else mb_generation old;
                          mb_is_deleted := false; mb_source := source; mb_updated_at := timestamp now |}
         end]> m.

Definition add_album_membership_to_snapshot (now : Z) (library container_id : str) (generation : Z) (asset_record_name : str)
    (master_record_name : option str) (source : str) (d : AlbumDb) : result StateError AlbumDb :=
  if negb (running (library, container_id) generation d) then Err (Invariant "add_album_membership_to_snapshot")
  else
    Ok (set_memberships d (upsert_membership now (library, asset_record_name, container_id) generation true
          master_record_name source (asset_album_memberships d))).

(** The flag: the container is known. *)
Definition upsert_album_membership_delta (now : Z) (library container_id asset_record_name : str)
    (master_record_name : option str) (source : str) (d : AlbumDb) : AlbumDb * bool :=
  (set_memberships d (upsert_membership now (library, asset_record_name, container_id) 0 false master_record_name source
     (asset_album_memberships d)), bool_decide (is_Some (album_containers d !! (library, container_id)))).

Definition deleted_membership (now : Z) (m : Membership) : Membership :=
  {| mb_master_record_name := mb_master_record_name m; mb_generation := mb_generation m; mb_is_deleted := true;
     mb_source := mb_source m; mb_updated_at := timestamp now |}.

Definition mark_album_membership_deleted (now : Z) (library container_id asset_record_name : str) (d : AlbumDb) :
    AlbumDb * bool :=
  (set_memberships d (update (λ k _, bool_decide (k = (library, asset_record_name, container_id))) (deleted_membership now)
     (asset_album_memberships d)), bool_decide (is_Some (album_containers d !! (library, container_id)))).

Definition of_container (library container_id : str) (k : key3) : bool :=
  bool_decide (k.1.1 = library) && bool_decide (k.2 = container_id).

Definition complete_album_membership_snapshot (now : Z) (library container_id : str) (generation : Z) (d : AlbumDb) :
    result StateError AlbumDb :=
  let c := (library, container_id) in
  let sel k s := bool_decide (k = (c, generation)) && bool_decide (sn_status s = Running) in
  if count sel (album_membership_snapshots d) =? 0 then Err (Invariant "complete_album_membership_snapshot")
  else
    let d := set_snapshots d (update sel (λ s, {| sn_status := Complete; sn_enum_config_hash := sn_enum_config_hash s;
      sn_started_at := sn_started_at s; sn_completed_at := Some (timestamp now) |}) (album_membership_snapshots d)) in
    Ok (set_memberships d (update (λ k m, of_container library container_id k && bool_decide (mb_generation m <> generation)
          && negb (mb_is_deleted m)) (deleted_membership now) (asset_album_memberships d))).

Definition invalidate_album_membership_snapshot (now : Z) (library container_id : str) (d : AlbumDb) : AlbumDb :=
  set_snapshots d (update (λ k s, bool_decide (k.1 = (library, container_id)) && bool_decide (sn_status s <> Invalidated))
    (λ s, {| sn_status := Invalidated; sn_enum_config_hash := sn_enum_config_hash s; sn_started_at := sn_started_at s;
             sn_completed_at := coalesce (sn_completed_at s) (Some (timestamp now)) |}) (album_membership_snapshots d)).

(** [unique_sorted_strings]: as a set; the queries do not depend on the order. *)
Definition selected_album_containers_have_complete_snapshots (library : str) (container_ids : list str) (d : AlbumDb) : bool :=
  let ids : gset str := list_to_set container_ids in
  if bool_decide (ids = ∅) then true
  else
    (* [COUNT(DISTINCT s.container_id)] of the join with the containers *)
    let joined := filter (λ ks : (key2 * Z) * Snapshot,
      bool_decide (ks.1.1.1 = library) && bool_decide (ks.1.1.2 ∈ ids) && bool_decide (sn_status ks.2 = Complete)
      && match album_containers d !! ks.1.1 with Some c => negb (ac_is_deleted c) | None => false end = true)
      (album_membership_snapshots d) in
    let complete_count := size (set_map (λ k : key2 * Z, k.1.2) (dom joined) : gset str) in
    bool_decide (complete_count = size ids).

Definition get_live_selected_album_memberships_for_asset (library asset_record_name : str) (selected : list str) (d : AlbumDb) :
    list AlbumMembershipRecord :=
  omap (λ container_id, m ← asset_album_memberships d !! (library, asset_record_name, container_id);
          if mb_is_deleted m then None
          else Some {| amr_library := library; amr_asset_record_name := asset_record_name;
                       amr_master_record_name := mb_master_record_name m; amr_container_id := container_id;
                       amr_generation := mb_generation m; amr_source := mb_source m |})
    (order_by (λ a b, cmp_le (text_cmp a b)) (elements (list_to_set selected : gset str))).

(** ** Operations as data *)

Inductive AlbumOp :=
| AAddAlbum (library asset_id album_name source : str)
| AUpsertContainer (now : Z) (library container_id album_name pass_kind : str)
| AContainerDeleted (now : Z) (library container_id : str)
| AStart (now : Z) (library container_id : str) (hash : option str)
| AAdd (now : Z) (library container_id : str) (generation : Z) (asset : str) (master : option str) (source : str)
| ADelta (now : Z) (library container_id asset : str) (master : option str) (source : str)
| AMembershipDeleted (now : Z) (library container_id asset : str)
| AComplete (now : Z) (library container_id : str) (generation : Z)
| AInvalidate (now : Z) (library container_id : str).

Definition album_exec (o : AlbumOp) (d : AlbumDb) : result StateError AlbumDb :=
  match o with
  | AAddAlbum l a n s => Ok (add_asset_album l a n s d)
  | AUpsertContainer now l c n k => Ok (upsert_album_container now l c n k d)
  | AContainerDeleted now l c => Ok (mark_album_container_deleted now l c d)
  | AStart now l c h => fst <$> start_album_membership_snapshot now l c h d
  | AAdd now l c g a m s => add_album_membership_to_snapshot now l c g a m s d
  | ADelta now l c a m s => Ok (upsert_album_membership_delta now l c a m s d).1
  | AMembershipDeleted now l c a => Ok (mark_album_membership_deleted now l c a d).1
  | AComplete now l c g => complete_album_membership_snapshot now l c g d
  | AInvalidate now l c => Ok (invalidate_album_membership_snapshot now l c d)
  end.

Definition album_run (os : list AlbumOp) (d : AlbumDb) : AlbumDb :=
  foldl (λ d o, match album_exec o d with Ok d' => d' | Err _ => d end) d os.

(** The asset is in the container. *)
Definition member (d : AlbumDb) (library container_id asset : str) : bool :=
  match asset_album_memberships d !! (library, asset, container_id) with
  | Some m => negb (mb_is_deleted m)
  | None => false
  end.
