(* ===== verification/AlbumsSpec.v ===== *)
(** * A completed snapshot is the album

    Theorems about [Albums.v]: a snapshot that completes leaves exactly the
    memberships it recorded, whatever happens to other containers meanwhile;
    and the check before an incremental sync holds exactly when every selected
    container is live and has a complete snapshot. *)
From S2P Require Import Prelude RustStr Types StateTypes StateDb StateDbSpec StateReads Albums.
Import Sql.

(** ** Generations *)

Record albums_ok (d : AlbumDb) : Prop := {
  ao_generations c g : (c, g) ∈ dom (album_membership_snapshots d) → 1 <= g;
  ao_memberships l a c m : asset_album_memberships d !! (l, a, c) = Some m →
    mb_generation m = 0 ∨ ((l, c), mb_generation m) ∈ dom (album_membership_snapshots d);
}.

Lemma max_generation_spec c d : 0 <= max_generation c d ∧
  ∀ g, (c, g) ∈ dom (album_membership_snapshots d) → g <= max_generation c d.
Proof.
  unfold max_generation. generalize (album_membership_snapshots d). intros m.
  apply (map_fold_weak_ind (λ r m, 0 <= r ∧ ∀ g, (c, g) ∈ dom m → g <= r)).
  - split; [lia|]. intros g. set_solver.
  - intros [c' g'] s m' r Hn [Hr Hg]. cbn. case_bool_decide as Hc; (split; [lia|]); intros g; rewrite dom_insert;
      intros [[= Hc' Hg']%elem_of_singleton|Hin]%elem_of_union; subst; try (by contradiction Hc); try (apply Hg in Hin); lia.
Qed.

Lemma start_Ok now l c h d : albums_ok d → ∃ d', start_album_membership_snapshot now l c h d = Ok (d', max_generation (l, c) d + 1).
Proof.
  intros Hd. unfold start_album_membership_snapshot. destruct (max_generation_spec (l, c) d) as [H0 Hg].
  destruct (album_membership_snapshots d !! (l, c, max_generation (l, c) d + 1)) as [s|] eqn:E; [|by eexists].
  assert ((l, c, max_generation (l, c) d + 1) ∈ dom (album_membership_snapshots d)) as Hin by (apply elem_of_dom; eauto).
  apply Hg in Hin. lia.
Qed.

Lemma lookup_upsert_membership now k g b mr s m k' : upsert_membership now k g b mr s m !! k' =
  if bool_decide (k = k') then Some
    (match m !! k with
     | None => {| mb_master_record_name := mr; mb_generation := g; mb_is_deleted := false; mb_source := s;
                  mb_updated_at := timestamp now |}
     | Some old => {| mb_master_record_name := coalesce mr (mb_master_record_name old);
                      mb_generation := if b then g else mb_generation old; mb_is_deleted := false;
                      mb_source := s; mb_updated_at := timestamp now |}
     end) else m !! k'.
Proof. unfold upsert_membership. case_bool_decide; subst; [by rewrite lookup_insert_eq|by rewrite lookup_insert_ne]. Qed.

(** Snapshots are never forgotten and memberships keep to known generations. *)
Lemma ok_weaken d d' : albums_ok d → dom (album_membership_snapshots d) ⊆ dom (album_membership_snapshots d') →
  (∀ c g, (c, g) ∈ dom (album_membership_snapshots d') → (c, g) ∉ dom (album_membership_snapshots d) → 1 <= g) →
  (∀ l a c m, asset_album_memberships d' !! (l, a, c) = Some m → mb_generation m = 0
     ∨ ((l, c), mb_generation m) ∈ dom (album_membership_snapshots d')
     ∨ ∃ m0, asset_album_memberships d !! (l, a, c) = Some m0 ∧ mb_generation m0 = mb_generation m) → albums_ok d'.
Proof.
  intros [Hg Hm] Hs Hn Hm'. split.
  - intros c g Hin. destruct (decide ((c, g) ∈ dom (album_membership_snapshots d))); [by apply (Hg c)|by apply (Hn c)].
  - intros l a c m [H0|[Hin|(m0 & E & <-)]]%Hm'; [by left|by right|]. apply Hm in E as [H0|Hin]; [by left|right; set_solver].
Qed.

Lemma updated_memberships p now d l a c m :
  (Sql.update p (deleted_membership now) (asset_album_memberships d)) !! (l, a, c) = Some m →
  ∃ m0, asset_album_memberships d !! (l, a, c) = Some m0 ∧ mb_generation m0 = mb_generation m.
Proof.
  rewrite lookup_update. destruct (asset_album_memberships d !! (l, a, c)) as [m0|]; [|done]. cbn.
  intros [= <-]. exists m0. by destruct (p _ m0).
Qed.

Lemma album_exec_ok o d d' : albums_ok d → album_exec o d = Ok d' → albums_ok d'.
Proof.
  intros Hd Hx. destruct o; cbn in Hx; try (injection Hx as <-); try (by destruct Hd; split).
  - (* start *) destruct (start_Ok now library container_id hash d Hd) as [d1 E]. rewrite E in Hx. cbn in Hx. injection Hx as <-.
    unfold start_album_membership_snapshot in E. destruct (album_membership_snapshots d !! _); [done|]. injection E as <-.
    apply (ok_weaken d); cbn; [done|set_solver| |eauto 6]. intros c g [[= -> ->]%elem_of_singleton|Hin]%dom_insert%elem_of_union; [|done].
    intros _. pose proof (proj1 (max_generation_spec (library, container_id) d)). lia.
  - unfold add_album_membership_to_snapshot in Hx. destruct (running _ generation d) eqn:Er; [|done]. injection Hx as <-.
    apply (ok_weaken d); cbn; [done|done|done|]. intros l a c m. rewrite lookup_upsert_membership.
    case_bool_decide as Hk; [injection Hk as <- <- <-|eauto 6]. intros [= <-]. right. left.
    unfold running in Er. destruct (album_membership_snapshots d !! (library, container_id, generation)) eqn:E; [|done].
    assert ((library, container_id, generation) ∈ dom (album_membership_snapshots d)) as Hin by (apply elem_of_dom; eauto).
    by destruct (asset_album_memberships d !! _).
  - apply (ok_weaken d); cbn; [done|done|done|]. intros l a c m. rewrite lookup_upsert_membership.
    case_bool_decide as Hk; [injection Hk as <- <- <-|eauto 6]. intros [= <-].
    destruct (asset_album_memberships d !! _) as [m0|]; [|by left]. right. right. by exists m0.
  - apply (ok_weaken d); cbn; [done|done|done|]. intros l a c m Hm%updated_memberships. by right; right.
  - unfold complete_album_membership_snapshot in Hx. destruct (_ =? 0); [done|]. injection Hx as <-.
    apply (ok_weaken d); cbn; rewrite ?dom_update; [done|done|done|]. intros l a c m Hm%updated_memberships. by right; right.
  - apply (ok_weaken d); cbn; rewrite ?dom_update; [done|done|done|]. eauto 6.
Qed.

Lemma album_run_ok os d : albums_ok d → albums_ok (album_run os d).
Proof.
  revert d. induction os as [|o os IH]; intros d Hd; [done|]. cbn. apply IH.
  destruct (album_exec o d) eqn:E; [by eapply album_exec_ok|done].
Qed.

Lemma AlbumDb_empty_ok : albums_ok AlbumDb_empty.
Proof. split; cbn; [intros c g; set_solver|intros l a c m; by rewrite lookup_empty]. Qed.

(** ** One snapshot *)

Section Snapshot.
Variables l c : str.
Variable g : Z.

(** The operation changes memberships or snapshots of the container in a way
    that is not the snapshot's own. *)
Definition disturbs (o : AlbumOp) : bool :=
  match o with
  | AAdd _ l' c' g' _ _ _ => bool_decide ((l', c') = (l, c)) && negb (g' =? g)
  | ADelta _ l' c' _ _ _ | AMembershipDeleted _ l' c' _ | AComplete _ l' c' _ | AInvalidate _ l' c' =>
      bool_decide ((l', c') = (l, c))
  | _ => false
  end.

Definition adds (a : str) (o : AlbumOp) : bool :=
  match o with
  | AAdd _ l' c' g' a' _ _ => bool_decide ((l', c') = (l, c)) && (g' =? g) && str_eqb a' a
  | _ => false
  end.

(** The snapshot runs, and its generation marks what it has added. *)
Record in_snapshot (seen : str → bool) (d : AlbumDb) : Prop := {
  is_running : running (l, c) g d = true;
  is_marked a : match asset_album_memberships d !! (l, a, c) with
                | Some m => if mb_generation m =? g then seen a = true ∧ mb_is_deleted m = false else seen a = false
                | None => seen a = false
                end;
}.

Lemma snapshot_frame seen d d' : in_snapshot seen d →
  (∀ a, asset_album_memberships d' !! (l, a, c) = asset_album_memberships d !! (l, a, c)) →
  album_membership_snapshots d' !! ((l, c), g) = album_membership_snapshots d !! ((l, c), g) → in_snapshot seen d'.
Proof.
  intros [Hr Hm] Ha Hs. split; [unfold running; by rewrite Hs|]. intros a. rewrite Ha. apply Hm.
Qed.

Lemma snapshot_ext s s' d : (∀ a, s a = s' a) → in_snapshot s d → in_snapshot s' d.
Proof. intros He [Hr Hm]. split; [done|]. intros a. specialize (Hm a). by rewrite <- He. Qed.

(** Operations that neither add to the snapshot nor disturb it. *)
Lemma snapshot_other seen o d d' : in_snapshot seen d → disturbs o = false → (∀ a, adds a o = false) →
  album_exec o d = Ok d' → in_snapshot seen d'.
Proof.
  intros Hin Ho Ha Hx. apply (snapshot_frame seen d); [done| |].
  - intros a. destruct o; cbn in Hx, Ho; try (by injection Hx as <-).
    + unfold start_album_membership_snapshot in Hx. destruct (album_membership_snapshots d !! _); [done|]. by injection Hx as <-.
    + unfold add_album_membership_to_snapshot in Hx. destruct (running _ generation d); [|done]. injection Hx as <-. cbn.
      rewrite lookup_upsert_membership, bool_decide_false; [done|]. intros [= -> -> ->].
      specialize (Ha a). cbn in Ha. unfold str_eqb in Ha. rewrite !bool_decide_true in * by done. cbn in Ho, Ha.
      apply negb_false_iff in Ho. by rewrite Ho in Ha.
    + injection Hx as <-. cbn. rewrite lookup_upsert_membership, bool_decide_false; [done|]. intros [= -> -> ->].
      by rewrite bool_decide_true in Ho.
    + injection Hx as <-. cbn. rewrite lookup_update. destruct (asset_album_memberships d !! _); [|done]. cbn.
      rewrite bool_decide_false; [done|]. intros [= <- <- <-]. by rewrite bool_decide_true in Ho.
    + unfold complete_album_membership_snapshot in Hx. destruct (_ =? 0); [done|]. injection Hx as <-. cbn.
      rewrite lookup_update. destruct (asset_album_memberships d !! _); [|done]. cbn. apply bool_decide_eq_false in Ho.
      destruct (of_container library container_id (l, a, c)) eqn:Eo; [|done]. exfalso. apply Ho.
      unfold of_container in Eo. cbn in Eo. apply andb_true_iff in Eo as [->%bool_decide_eq_true ->%bool_decide_eq_true]. done.
  - destruct o; cbn in Hx, Ho; try (by injection Hx as <-).
    + unfold start_album_membership_snapshot in Hx.
      destruct (album_membership_snapshots d !! (library, container_id, _)) as [|] eqn:E; [done|]. injection Hx as <-. cbn.
      rewrite lookup_insert_ne; [done|]. intros Hk. rewrite Hk in E. destruct Hin as [Hr _]. unfold running in Hr. by rewrite E in Hr.
    + unfold add_album_membership_to_snapshot in Hx. destruct (running _ generation d); [|done]. by injection Hx as <-.
    + unfold complete_album_membership_snapshot in Hx. destruct (_ =? 0); [done|]. injection Hx as <-. cbn. rewrite lookup_update.
      destruct (album_membership_snapshots d !! (l, c, g)); [|done]. cbn. apply bool_decide_eq_false in Ho.
      rewrite (bool_decide_false ((l, c, g) = _)); [done|]. intros [= -> -> ->]. by apply Ho.
    + injection Hx as <-. cbn. rewrite lookup_update. destruct (album_membership_snapshots d !! (l, c, g)); [|done]. cbn.
      apply bool_decide_eq_false in Ho. rewrite (bool_decide_false ((l, c) = _)); [done|]. intros [= -> ->]. by apply Ho.
Qed.

Lemma snapshot_add seen now a0 m s d : in_snapshot seen d → ∃ d',
  album_exec (AAdd now l c g a0 m s) d = Ok d' ∧ in_snapshot (λ a, seen a || str_eqb a0 a) d'.
Proof.
  intros [Hr Hm]. cbn. unfold add_album_membership_to_snapshot. rewrite Hr. eexists. split; [done|].
  split; [done|]. intros a. cbn. rewrite lookup_upsert_membership. specialize (Hm a). unfold str_eqb.
  destruct (decide (a0 = a)) as [->|Hn].
  - rewrite !bool_decide_true by done. destruct (asset_album_memberships d !! (l, a, c)); cbn; by rewrite Z.eqb_refl, orb_true_r.
  - rewrite !bool_decide_false by congruence. by rewrite orb_false_r.
Qed.

Lemma adds_or_not o : (∀ a, adds a o = false) ∨ ∃ now a m s, o = AAdd now l c g a m s.
Proof.
  destruct o as [| | | |now l' c' g' a' m s| | | |]; try (left; done).
  destruct (bool_decide ((l', c') = (l, c)) && (g' =? g)) eqn:E.
  - apply andb_true_iff in E as [[= -> ->]%bool_decide_eq_true ->%Z.eqb_eq]. right. by exists now, a', m, s.
  - left. intros a. cbn. by rewrite E.
Qed.

Lemma snapshot_step seen o d : in_snapshot seen d → disturbs o = false →
  in_snapshot (λ a, seen a || adds a o) (match album_exec o d with Ok d' => d' | Err _ => d end).
Proof.
  intros Hin Ho. destruct (adds_or_not o) as [Hn|(now & a0 & m & s & ->)].
  - apply (snapshot_ext seen); [intros a; by rewrite Hn, orb_false_r|].
    destruct (album_exec o d) as [d'|] eqn:Ex; [by eapply snapshot_other|done].
  - destruct (snapshot_add seen now a0 m s d Hin) as (d' & -> & Hd'). eapply snapshot_ext; [|exact Hd'].
    intros a. cbn. by rewrite bool_decide_true, Z.eqb_refl.
Qed.

Lemma snapshot_run os seen d : in_snapshot seen d → Forall (λ o, disturbs o = false) os →
  in_snapshot (λ a, seen a || existsb (adds a) os) (album_run os d).
Proof.
  revert seen d. induction os as [|o os IH]; intros seen d Hin Hf.
  { eapply snapshot_ext; [|exact Hin]. intros a. by rewrite orb_false_r. }
  apply Forall_cons in Hf as [Ho Hf]. pose proof (IH _ _ (snapshot_step seen o d Hin Ho) Hf) as Hr.
  eapply snapshot_ext; [|exact Hr]. intros a. cbn. by rewrite orb_assoc.
Qed.

(** Completing it leaves the assets it has seen. *)
Lemma snapshot_complete seen now d : in_snapshot seen d → ∃ d', complete_album_membership_snapshot now l c g d = Ok d'
  ∧ (∀ a, member d' l c a = seen a)
  ∧ (∃ s, album_membership_snapshots d' !! (l, c, g) = Some s ∧ sn_status s = Complete).
Proof.
  intros [Hr Hm]. unfold running in Hr. destruct (album_membership_snapshots d !! (l, c, g)) as [s|] eqn:E; [|done].
  apply bool_decide_eq_true in Hr. unfold complete_album_membership_snapshot.
  destruct (count _ (album_membership_snapshots d) =? 0) eqn:Ec.
  { apply Z.eqb_eq in Ec. pose proof (proj1 (count_zero _ _) Ec _ _ E) as Hz. cbn in Hz.
    by rewrite !bool_decide_true in Hz. }
  eexists. split; [done|]. split.
  - intros a. unfold member. cbn. rewrite lookup_update. specialize (Hm a). 
    destruct (asset_album_memberships d !! (l, a, c)) as [m|]; cbn; [|done].
    unfold of_container. cbn. rewrite !bool_decide_true by done. cbn.
    destruct (Z.eqb_spec (mb_generation m) g) as [Hg|Hg].
    + destruct Hm as [-> Hd]. rewrite bool_decide_false by (intros Hn; by apply Hn). cbn. by rewrite Hd.
    + rewrite Hm, bool_decide_true by done. cbn. destruct (mb_is_deleted m) eqn:Hd; cbn; by rewrite ?Hd.
  - exists {| sn_status := Complete; sn_enum_config_hash := sn_enum_config_hash s; sn_started_at := sn_started_at s;
              sn_completed_at := Some (timestamp now) |}. cbn. rewrite lookup_update, E. cbn.
    by rewrite !bool_decide_true.
Qed.

Lemma snapshot_start now h d d' : albums_ok d → start_album_membership_snapshot now l c h d = Ok (d', g) →
  in_snapshot (λ _, false) d'.
Proof.
  intros Hd Hs. destruct (start_Ok now l c h d Hd) as [d1 E]. rewrite Hs in E. injection E as -> Hg.
  unfold start_album_membership_snapshot in Hs. destruct (album_membership_snapshots d !! _) eqn:Ed; [done|].
  injection Hs as <- _. split.
  - unfold running. cbn. by rewrite Hg, lookup_insert_eq.
  - intros a. cbn. destruct (asset_album_memberships d !! (l, a, c)) as [m|] eqn:Em; [|done].
    destruct (Z.eqb_spec (mb_generation m) g) as [Hg'|]; [|done]. exfalso.
    destruct (max_generation_spec (l, c) d) as [H0 Hmax]. apply (ao_memberships d Hd) in Em as [Hz|Hin]; [lia|].
    apply Hmax in Hin. lia.
Qed.
End Snapshot.

Lemma member_listed d l c a selected : c ∈ selected →
  c ∈ amr_container_id <$> get_live_selected_album_memberships_for_asset l a selected d ↔ member d l c a = true.
Proof.
  intros Hc. unfold member. rewrite list_elem_of_fmap. unfold get_live_selected_album_memberships_for_asset. split.
  - intros (r & -> & Hin). apply list_elem_of_omap in Hin as (c' & _ & Hr).
    destruct (asset_album_memberships d !! (l, a, c')) as [m|] eqn:E; [|done]. cbn in Hr.
    destruct (mb_is_deleted m) eqn:Hd; [done|]. injection Hr as <-. cbn. by rewrite E, Hd.
  - destruct (asset_album_memberships d !! (l, a, c)) as [m|] eqn:E; [|done]. intros Hd%negb_true_iff. eexists. split.
    2: { apply list_elem_of_omap. exists c. split; [|rewrite E; cbn; by rewrite Hd].
         rewrite order_by_perm, elem_of_elements. by apply elem_of_list_to_set. }
    done.
Qed.

(** a completed snapshot is the album: a snapshot can always be started
    and gets a generation no membership of its container has; whatever happens
    to other containers (and whatever other snapshots are started) until it
    completes, and whatever the database held before, completing it succeeds
    and the members of the container are exactly the assets it recorded. *)
Theorem snapshot_replaces_album before now l c hash during now' a selected :
  ∃ d1 g, start_album_membership_snapshot now l c hash (album_run before AlbumDb_empty) = Ok (d1, g)
  ∧ (Forall (λ o, disturbs l c g o = false) during → c ∈ selected →
     ∃ d2, complete_album_membership_snapshot now' l c g (album_run during d1) = Ok d2
     ∧ (c ∈ amr_container_id <$> get_live_selected_album_memberships_for_asset l a selected d2
        ↔ ∃ t m s, AAdd t l c g a m s ∈ during)).
Proof.
  assert (albums_ok (album_run before AlbumDb_empty)) as Hd by apply album_run_ok, AlbumDb_empty_ok.
  destruct (start_Ok now l c hash _ Hd) as [d1 E]. exists d1, (max_generation (l, c) (album_run before AlbumDb_empty) + 1).
  split; [exact E|]. set (g := _ + 1) in *. intros Hf Hc.
  pose proof (snapshot_run l c g during _ d1 (snapshot_start l c g now hash _ d1 Hd E) Hf) as Hin.
  destruct (snapshot_complete l c g _ now' _ Hin) as (d2 & Hok & Hm & _). exists d2. split; [exact Hok|].
  rewrite (member_listed d2 l c a selected Hc), Hm. cbn. rewrite existsb_exists. split.
  - intros (o & Ho%list_elem_of_In & Ha). destruct o as [| | | |t l' c' g' a' m s| | | |]; try done. cbn in Ha.
    apply andb_true_iff in Ha as [[[= -> ->]%bool_decide_eq_true ->%Z.eqb_eq]%andb_true_iff ->%bool_decide_eq_true]. eauto.
  - intros (t & m & s & Ho). exists (AAdd t l c g a m s). split; [by apply list_elem_of_In|]. cbn. unfold str_eqb.
    by rewrite !bool_decide_true, Z.eqb_refl.
Qed.

(** the check before an incremental sync is exact: it holds when, and only
    when, each selected container is known, not deleted, and has a complete
    snapshot that was not invalidated. *)
Theorem complete_snapshots_exact l ids d :
  selected_album_containers_have_complete_snapshots l ids d = true ↔
  ∀ c, c ∈ ids → (∃ g s, album_membership_snapshots d !! (l, c, g) = Some s ∧ sn_status s = Complete)
    ∧ ∃ con, album_containers d !! (l, c) = Some con ∧ ac_is_deleted con = false.
Proof.
  unfold selected_album_containers_have_complete_snapshots. case_bool_decide as He.
  { split; [|done]. intros _ c Hc. assert (c ∈ (list_to_set ids : gset str)) by (by apply elem_of_list_to_set). set_solver. }
  set (joined := filter _ (album_membership_snapshots d)).
  set (found := set_map (λ k : key2 * Z, k.1.2) (dom joined) : gset str).
  assert (∀ c, c ∈ found ↔ c ∈ ids ∧ (∃ g s, album_membership_snapshots d !! (l, c, g) = Some s ∧ sn_status s = Complete)
    ∧ ∃ con, album_containers d !! (l, c) = Some con ∧ ac_is_deleted con = false) as Hfound.
  { intros c. unfold found. rewrite elem_of_map. split.
    - intros ([[l' c'] g] & -> & Hin). apply elem_of_dom in Hin as [s Hs]. apply map_lookup_filter_Some in Hs as [Hs Hp]. cbn in *.
      apply andb_true_iff in Hp as [[[->%bool_decide_eq_true Hc%bool_decide_eq_true]%andb_true_iff Hst%bool_decide_eq_true]%andb_true_iff Hcon].
      split_and!; [by apply elem_of_list_to_set in Hc|eauto|].
      destruct (album_containers d !! (l, c')) as [con|]; [|done]. apply negb_true_iff in Hcon. eauto.
    - intros (Hc & (g & s & Hs & Hst) & con & Hcon & Hdel). exists (l, c, g). split; [done|]. apply elem_of_dom. exists s.
      apply map_lookup_filter_Some. split; [done|]. cbn. rewrite Hcon, Hdel, !bool_decide_true by (done || by apply elem_of_list_to_set). done. }
  rewrite bool_decide_eq_true. split.
  - intros Hsize c Hc. assert (found = list_to_set ids) as Heq.
    { apply leibniz_equiv, set_subseteq_size_equiv; [|lia]. intros c' Hc'%Hfound. apply elem_of_list_to_set. by destruct Hc'. }
    assert (c ∈ found) as Hin by (rewrite Heq; by apply elem_of_list_to_set). apply Hfound in Hin. tauto.
  - intros Hall. f_equal. apply leibniz_equiv. intros c. rewrite Hfound, elem_of_list_to_set. split; [tauto|]. intros Hc.
    split; [done|by apply Hall].
Qed.

(** ** An album that loses one asset and gains another *)

Module AlbumRuns.
Definition lib : str := lit "PrimarySync".
Definition c : str := lit "Trip".
Definition add (g : Z) (a : string) : AlbumOp := AAdd 1 lib c g (lit a) None (lit "icloud").
Definition before : list AlbumOp :=
  [AUpsertContainer 0 lib c (lit "Trip") (lit "album"); AStart 0 lib c None; add 1 "A"; add 1 "B"; AComplete 0 lib c 1].
Definition during : list AlbumOp :=
  [add 2 "B"; ADelta 1 lib (lit "Other") (lit "A") None (lit "icloud"); AStart 1 lib c None; add 2 "C"].
Definition after_snapshot : AlbumDb := album_run (before ++ AStart 2 lib c None :: during ++ [AComplete 3 lib c 2]) AlbumDb_empty.

Example members_after : map (member after_snapshot lib c) [lit "A"; lit "B"; lit "C"] = [false; true; true].
Proof. vm_compute. reflexivity. Qed.

Lemma snapshot_replaces_album_witness : ∃ d1 d2,
  start_album_membership_snapshot 2 lib c None (album_run before AlbumDb_empty) = Ok (d1, 2)
  ∧ complete_album_membership_snapshot 3 lib c 2 (album_run during d1) = Ok d2
  ∧ (c ∈ amr_container_id <$> get_live_selected_album_memberships_for_asset lib (lit "A") [c] d2
     ↔ ∃ t m s, AAdd t lib c 2 (lit "A") m s ∈ during).
Proof.
  destruct (snapshot_replaces_album before 2 lib c None during 3 (lit "A") [c]) as (d1 & g & Hs & Hc).
  pose proof (f_equal (λ r, match r with Ok p => p.2 | Err _ => 0 end) Hs) as Hg. vm_compute in Hg. subst g.
  destruct Hc as (d2 & Hd & Hm).
  - repeat (apply Forall_cons; split; [vm_compute; reflexivity|]). constructor.
  - left.
  - exists d1, d2. split; [exact Hs|]. split; [exact Hd|exact Hm].
Defined.

Lemma complete_snapshots_exact_witness :
  selected_album_containers_have_complete_snapshots lib [c] after_snapshot = true
  ∧ ((∃ g s, album_membership_snapshots after_snapshot !! (lib, c, g) = Some s ∧ sn_status s = Complete)
     ∧ ∃ con, album_containers after_snapshot !! (lib, c) = Some con ∧ ac_is_deleted con = false).
Proof.
  assert (selected_album_containers_have_complete_snapshots lib [c] after_snapshot = true) as Hs by (vm_compute; reflexivity).
  split; [exact Hs|]. apply (proj1 (complete_snapshots_exact lib [c] after_snapshot) Hs c). left.
Defined.
End AlbumRuns.
