(* ===== verification/HeifBox.v ===== *)
(** * ISO-BMFF boxes: [src/download/heif.rs]

    The raw-box scanner and the big-endian integer fields the HEIF metadata
    code is built on.  A file is a list of bytes ([Z] in [0..256)) and every
    position is a 64-bit [usize].  Slicing and indexing out of range is the
    error [Panicked], so that its absence is a theorem. *)
From S2P Require Import Prelude.

(** [HeifError]: the two errors of this code, a panic, and exhausted fuel. *)
Inductive HeifError :=
| InvalidLayout (reason : string)
| ValueOverflow (field : string)
| Panicked
| OutOfFuel.

Abbreviation heif := (result HeifError).
Definition invalid_layout (reason : string) : HeifError := InvalidLayout reason.

Definition byte (b : Z) : Prop := 0 <= b < 256.
Definition bytes_ok (bs : list Z) : Prop := Forall byte bs.

(** [&bytes[a..b]] and [bytes[i]]. *)
Definition slice (bytes : list Z) (a b : Z) : heif (list Z) := ok_or Panicked (get_range bytes a b).
Definition index (bytes : list Z) (i : Z) : heif Z := ok_or Panicked (get_at bytes i).

(** [uN::from_be_bytes], [from_le_bytes], [to_be_bytes]. *)
Definition from_be_bytes (bs : list Z) : Z := fold_left (λ acc b, acc * 256 + b) bs 0.
Definition from_le_bytes (bs : list Z) : Z := from_be_bytes (rev bs).
Fixpoint to_be_bytes (width : nat) (v : Z) : list Z :=
  match width with
  | O => []
  | S w => to_be_bytes w (v / 256) ++ [v mod 256]
  end.

(** [b"abcd"]. *)
Definition fourcc (s : string) : list Z := map (λ a, Z.of_N (Ascii.N_of_ascii a)) (String.list_ascii_of_string s).

Record RawBox := { rb_start : Z; rb_size : Z; header_size : Z; kind : list Z }.

#[export] Instance RawBox_eq_dec : EqDecision RawBox.
Proof. solve_decision. Defined.

Definition body_start (b : RawBox) : Z := rb_start b + header_size b.
Definition box_end (b : RawBox) : Z := rb_start b + rb_size b.
Definition has_kind (b : RawBox) (k : string) : bool := bool_decide (kind b = fourcc k).

Definition parse_raw_box (bytes : list Z) (start : Z) : heif RawBox :=
  header ← ok_or (invalid_layout "truncated ISO-BMFF box header")
             (get_range bytes start (saturating_add USIZE_MAX start 8));
  size_bytes ← slice header 0 4;
  kind ← slice header 4 8;
  let size32 := from_be_bytes size_bytes in
  '(header_size, size) ←
    (if size32 =? 0 then
       Err (invalid_layout "ISO-BMFF box has no explicit size and cannot be rewritten")
     else if size32 =? 1 then
       large ← ok_or (invalid_layout "truncated large ISO-BMFF box header")
                 (get_range bytes (start + 8) (start + 16));
       size ← ok_or (invalid_layout "ISO-BMFF box is too large")
                (try_from USIZE_MAX (from_be_bytes large));
       Ok (16, size)
     else Ok (8, size32));
  if size <? header_size then Err (invalid_layout "ISO-BMFF box is smaller than its header")
  else
    end_ ← ok_or (invalid_layout "ISO-BMFF box end overflows") (checked_add USIZE_MAX start size);
    if zlen bytes <? end_ then Err (invalid_layout "ISO-BMFF box extends past the file")
    else Ok {| rb_start := start; rb_size := size; header_size := header_size; kind := kind |}.

(** The [while cursor < end] loop: the boxes and the final cursor. *)
Fixpoint scan_loop (fuel : nat) (bytes : list Z) (cursor end_ : Z) : heif (list RawBox * Z) :=
  if cursor <? end_ then
    match fuel with
    | O => Err OutOfFuel
    | S fuel =>
        atom ← parse_raw_box bytes cursor;
        if end_ <? box_end atom then
          Err (invalid_layout "nested ISO-BMFF box extends past its parent")
        else
          '(boxes, cursor) ← scan_loop fuel bytes (box_end atom) end_;
          Ok (atom :: boxes, cursor)
    end
  else Ok ([], cursor).

Definition scan_raw_boxes (bytes : list Z) (start end_ : Z) : heif (list RawBox) :=
  if (end_ <? start) || (zlen bytes <? end_) then Err (invalid_layout "invalid ISO-BMFF box range")
  else
    '(boxes, cursor) ← scan_loop (length bytes) bytes start end_;
    if negb (cursor =? end_) then
      Err (invalid_layout "nested ISO-BMFF boxes leave a trailing fragment")
    else Ok boxes.

Definition box_with_body (kind body : list Z) : heif (list Z) :=
  size ← ok_or (invalid_layout "rewritten ISO-BMFF box size overflows")
           (checked_add USIZE_MAX (zlen body) 8);
  size ← ok_or (invalid_layout "rewritten ISO-BMFF box is too large") (try_from U32_MAX size);
  Ok (to_be_bytes 4 size ++ kind ++ body).

Definition patch_box_size (box_bytes : list Z) : heif (list Z) :=
  size ← ok_or (invalid_layout "rewritten ISO-BMFF box is too large")
           (try_from U32_MAX (zlen box_bytes));
  ok_or (invalid_layout "rewritten ISO-BMFF box has no size field")
    (put_range box_bytes 0 (to_be_bytes 4 size)).

(** [read_uint] returns the value and the new cursor. *)
Definition read_uint (bytes : list Z) (cursor width : Z) : heif (Z * Z) :=
  if width =? 0 then Ok (0, cursor)
  else
    end_ ← ok_or (invalid_layout "HEIC integer position overflows")
             (checked_add USIZE_MAX cursor width);
    if (width =? 2) || (width =? 4) || (width =? 8) then
      field ← ok_or (invalid_layout "truncated HEIC integer") (get_range bytes cursor end_);
      Ok (from_be_bytes field, end_)
    else Err (invalid_layout "unsupported HEIC integer width").

Definition write_uint (bytes : list Z) (pos width value : Z) : heif (list Z) :=
  if width =? 0 then
    if value =? 0 then Ok bytes
    else Err (invalid_layout "non-zero value cannot use a zero-width field")
  else
    end_ ← ok_or (invalid_layout "HEIC integer position overflows") (checked_add USIZE_MAX pos width);
    ok_or (invalid_layout "HEIC integer field is truncated") (get_range bytes pos end_) ;;
    if width =? 2 then
      v ← ok_or (ValueOverflow "16-bit HEIC field") (try_from U16_MAX value);
      ok_or Panicked (put_range bytes pos (to_be_bytes 2 v))
    else if width =? 4 then
      v ← ok_or (ValueOverflow "32-bit HEIC field") (try_from U32_MAX value);
      ok_or Panicked (put_range bytes pos (to_be_bytes 4 v))
    else if width =? 8 then ok_or Panicked (put_range bytes pos (to_be_bytes 8 value))
    else Err (invalid_layout "unsupported HEIC integer width").

Definition of_kind (k : string) (boxes : list RawBox) : list RawBox :=
  List.filter (λ b, has_kind b k) boxes.

Definition unique_required_box (boxes : list RawBox) (k missing duplicate : string) : heif RawBox :=
  match of_kind k boxes with
  | [] => Err (invalid_layout missing)
  | [first] => Ok first
  | _ => Err (invalid_layout duplicate)
  end.

Definition unique_optional_box (boxes : list RawBox) (k duplicate : string) : heif (option RawBox) :=
  match of_kind k boxes with
  | [] => Ok None
  | [first] => Ok (Some first)
  | _ => Err (invalid_layout duplicate)
  end.

(** ** Facts: integers *)

Lemma from_be_bytes_app a b : from_be_bytes (a ++ [b]) = from_be_bytes a * 256 + b.
Proof. unfold from_be_bytes. by rewrite fold_left_app. Qed.

Lemma to_be_bytes_length w v : length (to_be_bytes w v) = w.
Proof. revert v. induction w as [|w IH]; intros v; [done|]. cbn. rewrite length_app, IH. cbn. lia. Qed.

Lemma to_be_bytes_ok w v : bytes_ok (to_be_bytes w v).
Proof.
  revert v. induction w as [|w IH]; intros v; cbn; [constructor|].
  apply Forall_app. split; [apply IH|]. constructor; [|constructor].
  unfold byte. pose proof (Z.mod_pos_bound v 256). lia.
Qed.

Lemma from_to_be_bytes w v : 0 <= v < 256 ^ Z.of_nat w → from_be_bytes (to_be_bytes w v) = v.
Proof.
  revert v. induction w as [|w IH]; intros v Hv.
  - change (256 ^ Z.of_nat 0) with 1 in Hv. change (0 = v). lia.
  - cbn [to_be_bytes]. rewrite from_be_bytes_app, IH.
    + pose proof (Z.div_mod v 256 ltac:(lia)). lia.
    + rewrite Nat2Z.inj_succ, Z.pow_succ_r in Hv by lia.
      split; [apply Z.div_pos; lia|apply Z.div_lt_upper_bound; lia].
Qed.

Lemma from_be_bytes_bound bs : bytes_ok bs → 0 <= from_be_bytes bs < 256 ^ zlen bs.
Proof.
  induction bs as [|b bs IH] using rev_ind; intros Hb; [cbn; lia|].
  apply Forall_app in Hb as [Hbs Hb]. apply Forall_cons in Hb as [Hb _]. unfold byte in Hb.
  specialize (IH Hbs). rewrite from_be_bytes_app, length_app. cbn [length].
  rewrite Nat2Z.inj_add, Z.pow_add_r by lia. change (256 ^ Z.of_nat 1) with 256. nia.
Qed.

Lemma get_range_bytes_ok bs a b s : bytes_ok bs → get_range bs a b = Some s → bytes_ok s.
Proof.
  intros Hb (_ & _ & ->)%get_range_Some. apply Forall_take. by apply Forall_drop.
Qed.

Lemma get_at_ok bs i b : bytes_ok bs → get_at bs i = Some b → byte b.
Proof.
  unfold get_at. case_match; [|done]. intros Hb Hl. by eapply Forall_lookup_1.
Qed.

(** ** Facts: boxes *)

(** What a parsed box satisfies. *)
Record box_in (bytes : list Z) (b : RawBox) : Prop := {
  bi_start : 0 <= rb_start b;
  bi_header : header_size b = 8 ∨ header_size b = 16;
  bi_size : header_size b <= rb_size b;
  bi_end : box_end b <= zlen bytes;
}.

Lemma slice_Ok bs a b s : slice bs a b = Ok s ↔ get_range bs a b = Some s.
Proof. apply ok_or_Ok. Qed.

Lemma parse_raw_box_in bytes start b :
  parse_raw_box bytes start = Ok b → rb_start b = start ∧ box_in bytes b.
Proof.
  unfold parse_raw_box. intros (h & Hh%ok_or_Ok & (sb & _ & (k & _ & H)%bind_Ok)%bind_Ok)%bind_Ok.
  apply get_range_Some in Hh as (Hs & _ & _).
  apply bind_Ok in H as ([hs size] & Hsz & H). destruct (Z.ltb_spec size hs); [done|].
  apply bind_Ok in H as (e & He & H). apply ok_or_Ok, checked_add_Some in He as [-> _].
  destruct (Z.ltb_spec (zlen bytes) (start + size)); [done|].
  injection H as <-. split; [done|]. split; cbn; try lia; [|unfold box_end; cbn; lia].
  repeat case_match; try done; [|by injection Hsz as <- _; left].
  apply bind_Ok in Hsz as (? & _ & (? & _ & [= <- _])%bind_Ok). by right.
Qed.

(** Consecutive boxes from [a] to [b]. *)
Fixpoint boxes_from (a b : Z) (boxes : list RawBox) : Prop :=
  match boxes with
  | [] => a = b
  | x :: boxes => rb_start x = a ∧ boxes_from (box_end x) b boxes
  end.

Lemma scan_loop_ok fuel bytes cursor end_ boxes c :
  scan_loop fuel bytes cursor end_ = Ok (boxes, c) →
  boxes_from cursor c boxes ∧ Forall (box_in bytes) boxes ∧ Forall (λ b, box_end b <= end_) boxes
  ∧ (end_ <= c).
Proof.
  revert cursor boxes c. induction fuel as [|f IH]; intros cursor boxes c; cbn [scan_loop];
    destruct (Z.ltb_spec cursor end_); try done; try (by intros [= <- <-]).
  intros (x & Hx & H')%bind_Ok. apply parse_raw_box_in in Hx as [Hs Hin].
  destruct (Z.ltb_spec end_ (box_end x)); [done|].
  apply bind_Ok in H' as ([bs c'] & Hrec & [= <- <-]). apply IH in Hrec as (?&?&?&?).
  split_and!; [done|by constructor..|done].
Qed.

Lemma scan_raw_boxes_ok bytes start end_ boxes :
  scan_raw_boxes bytes start end_ = Ok boxes →
  boxes_from start end_ boxes ∧ Forall (box_in bytes) boxes ∧ Forall (λ b, box_end b <= end_) boxes
  ∧ start <= end_ <= zlen bytes.
Proof.
  unfold scan_raw_boxes. destruct (Z.ltb_spec end_ start); cbn [orb]; [done|].
  destruct (Z.ltb_spec (zlen bytes) end_); [done|].
  intros ([bs c] & Hl & H')%bind_Ok. destruct (Z.eqb_spec c end_) as [->|]; [|done].
  injection H' as <-. apply scan_loop_ok in Hl as (?&?&?&?). split_and!; done.
Qed.

(** No parser stops for want of fuel or by a panic. *)
Definition safe {A} (r : heif A) : Prop := r ≠ Err Panicked ∧ r ≠ Err OutOfFuel.

Lemma safe_Ok {A} (a : A) : safe (Ok a).
Proof. done. Qed.
Lemma safe_invalid {A} s : safe (Err (invalid_layout s) : heif A).
Proof. done. Qed.
Lemma safe_overflow {A} s : safe (Err (ValueOverflow s) : heif A).
Proof. done. Qed.
Lemma safe_bind {A B} (r : heif A) (f : A → heif B) :
  safe r → (∀ a, r = Ok a → safe (f a)) → safe (r ≫= f).
Proof.
  intros [H1 H2] Hf. destruct r as [a|e]; [by apply Hf|]. split; intros [= ->]; done.
Qed.
Lemma safe_ok_or {A} s (o : option A) : safe (ok_or (invalid_layout s) o).
Proof. by destruct o. Qed.
Lemma safe_ok_or_overflow {A} s (o : option A) : safe (ok_or (ValueOverflow s) o).
Proof. by destruct o. Qed.
Lemma safe_slice bs a b : 0 <= a <= b → b <= zlen bs → safe (slice bs a b).
Proof. intros. destruct (get_range_is_Some bs a b) as [s Hs]; [done..|]. unfold slice. by rewrite Hs. Qed.
Lemma safe_index bs i : 0 <= i < zlen bs → safe (index bs i).
Proof.
  intros Hi. unfold index, get_at. rewrite (proj2 (Z.leb_le _ _)) by lia.
  destruct (lookup_lt_is_Some_2 bs (Z.to_nat i)) as [x Hx]; [lia|]. by rewrite Hx.
Qed.
#[export] Hint Resolve safe_Ok safe_invalid safe_overflow safe_ok_or safe_ok_or_overflow : kei.

(** An allocation holds at most [isize::MAX] bytes. *)
Definition ISIZE_MAX : Z := 9223372036854775807.
Definition file_ok (bytes : list Z) : Prop := bytes_ok bytes ∧ zlen bytes <= ISIZE_MAX.

Lemma file_ok_slice bytes a b s : file_ok bytes → get_range bytes a b = Some s → file_ok s.
Proof.
  intros [Hb Hl] Hs. split; [by eapply get_range_bytes_ok|].
  apply get_range_Some in Hs as (?&?&->). rewrite length_take, length_drop. lia.
Qed.

Lemma parse_raw_box_safe bytes start : zlen bytes <= ISIZE_MAX → safe (parse_raw_box bytes start).
Proof.
  unfold parse_raw_box, ISIZE_MAX. intros Hlen. apply safe_bind; [auto with kei|]. intros h Hh%ok_or_Ok.
  assert (zlen h = 8) as Hl.
  { apply get_range_length in Hh as Hz. apply get_range_Some in Hh as (?&?&_).
    unfold saturating_add, USIZE_MAX, U64_MAX in *. lia. }
  apply safe_bind; [apply safe_slice; lia|]. intros sb _.
  apply safe_bind; [apply safe_slice; lia|]. intros k _.
  apply safe_bind.
  { repeat case_match; auto with kei. apply safe_bind; [auto with kei|]. intros ? _.
    apply safe_bind; auto with kei. }
  intros [hs size] _. case_match; [auto with kei|].
  apply safe_bind; [auto with kei|]. intros e _. case_match; auto with kei.
Qed.

Lemma scan_loop_safe fuel bytes cursor end_ :
  zlen bytes <= ISIZE_MAX → (end_ - cursor <= Z.of_nat fuel) → safe (scan_loop fuel bytes cursor end_).
Proof.
  intros Hlen. revert cursor. induction fuel as [|f IH]; intros cursor Hf; cbn [scan_loop];
    destruct (Z.ltb_spec cursor end_); auto with kei; [lia|].
  apply safe_bind; [by apply parse_raw_box_safe|]. intros x Hx.
  apply parse_raw_box_in in Hx as [Hs []]. case_match; [auto with kei|].
  apply safe_bind; [|intros [] _; auto with kei]. apply IH. unfold box_end. lia.
Qed.

Lemma scan_raw_boxes_safe bytes start end_ :
  zlen bytes <= ISIZE_MAX → 0 <= start → safe (scan_raw_boxes bytes start end_).
Proof.
  intros Hlen Hs. unfold scan_raw_boxes.
  destruct (Z.ltb_spec end_ start), (Z.ltb_spec (zlen bytes) end_); cbn [orb]; auto with kei.
  apply safe_bind; [|intros [] _; case_match; auto with kei].
  apply scan_loop_safe; [done|lia].
Qed.

Lemma read_uint_safe bytes cursor width : safe (read_uint bytes cursor width).
Proof.
  unfold read_uint. case_match; [auto with kei|]. apply safe_bind; [auto with kei|]. intros e _.
  case_match; [|auto with kei]. apply safe_bind; auto with kei.
Qed.

Lemma read_uint_cursor bytes cursor width v c :
  0 <= cursor <= zlen bytes → read_uint bytes cursor width = Ok (v, c) →
  c = cursor + width ∧ cursor + width <= zlen bytes.
Proof.
  intros Hc. unfold read_uint. destruct (Z.eqb_spec width 0) as [->|].
  { intros [= <- <-]. lia. }
  intros (e & [-> _]%ok_or_Ok%checked_add_Some & H')%bind_Ok. case_match; [|done].
  apply bind_Ok in H' as (f & Hf%ok_or_Ok & [= <- <-]). apply get_range_Some in Hf as (?&?&_). lia.
Qed.

Lemma put_range_is_Some {A} (l : list A) a v : 0 <= a → a + zlen v <= zlen l → is_Some (put_range l a v).
Proof. intros. eexists. apply put_range_Some. done. Qed.

(** ** Properties *)

(** the box scanner is total and sound on every file. On any byte
    sequence and any start position it neither panics nor runs out of fuel;
    and when it succeeds the boxes are consecutive, cover the range exactly,
    lie inside the file, and each is at least as long as its 8- or 16-byte
    header, so the loop always advances. *)
Theorem scan_raw_boxes_partitions bytes start end_ :
  zlen bytes <= ISIZE_MAX → 0 <= start →
  safe (scan_raw_boxes bytes start end_)
  ∧ ∀ boxes, scan_raw_boxes bytes start end_ = Ok boxes →
      boxes_from start end_ boxes
      ∧ ∀ b, b ∈ boxes → 0 <= rb_start b ∧ box_end b <= end_ ∧ box_end b <= zlen bytes
               ∧ (header_size b = 8 ∨ header_size b = 16) ∧ header_size b <= rb_size b.
Proof.
  intros Hlen Hs. split; [by apply scan_raw_boxes_safe|].
  intros boxes (Hf & Hin & He & _)%scan_raw_boxes_ok. split; [done|].
  rewrite Forall_forall in Hin, He. intros b Hb.
  destruct (Hin b Hb). specialize (He b Hb). done.
Qed.

(** A [free] box followed by a large-size [mdat] box. *)
Definition sample_boxes : list Z :=
  [0; 0; 0; 9] ++ fourcc "free" ++ [7]
  ++ [0; 0; 0; 1] ++ fourcc "mdat" ++ [0; 0; 0; 0; 0; 0; 0; 18] ++ [1; 2].

Example sample_boxes_scan :
  (λ bs, map (λ b, (rb_start b, rb_size b, header_size b)) bs) <$> scan_raw_boxes sample_boxes 0 27
  = Ok [(0, 9, 8); (9, 18, 16)].
Proof. reflexivity. Qed.

Lemma scan_raw_boxes_partitions_witness :
  safe (scan_raw_boxes sample_boxes 0 27)
  ∧ ∀ boxes, scan_raw_boxes sample_boxes 0 27 = Ok boxes →
      boxes_from 0 27 boxes
      ∧ ∀ b, b ∈ boxes → 0 <= rb_start b ∧ box_end b <= 27 ∧ box_end b <= zlen sample_boxes
               ∧ (header_size b = 8 ∨ header_size b = 16) ∧ header_size b <= rb_size b.
Proof. apply scan_raw_boxes_partitions; [vm_compute; discriminate|lia]. Defined.

(** integer fields round trip at every width the format uses: a value
    that fits is written without changing the length of the buffer or any
    other byte, and reading the field back gives the value and the position
    after it; a value that does not fit is an overflow error. *)
Theorem write_read_uint bytes pos width value :
  (width = 2 ∨ width = 4 ∨ width = 8) → 0 <= pos → pos + width <= zlen bytes →
  zlen bytes <= ISIZE_MAX → 0 <= value <= U64_MAX →
  (value < 256 ^ width →
     ∃ bytes', write_uint bytes pos width value = Ok bytes'
       ∧ read_uint bytes' pos width = Ok (value, pos + width)
       ∧ length bytes' = length bytes
       ∧ ∀ i : nat, Z.of_nat i < pos ∨ pos + width <= Z.of_nat i → bytes' !! i = bytes !! i)
  ∧ (256 ^ width <= value → ∃ f, write_uint bytes pos width value = Err (ValueOverflow f)).
Proof.
  unfold ISIZE_MAX. intros Hw Hp Hl Hlen Hv.
  assert (checked_add USIZE_MAX pos width = Some (pos + width)) as Hadd.
  { apply checked_add_Some. unfold USIZE_MAX, U64_MAX. lia. }
  destruct (get_range_is_Some bytes pos (pos + width)) as [f Hf]; [lia..|].
  assert (∀ w : nat, width = Z.of_nat w → value < 256 ^ width → width = 2 ∨ width = 4 ∨ width = 8 →
    ∃ bytes', put_range bytes pos (to_be_bytes w value) = Some bytes'
      ∧ read_uint bytes' pos width = Ok (value, pos + width)
      ∧ length bytes' = length bytes
      ∧ ∀ i : nat, Z.of_nat i < pos ∨ pos + width <= Z.of_nat i → bytes' !! i = bytes !! i) as Hput.
  { intros w -> Hlt Hcase. destruct (put_range_is_Some bytes pos (to_be_bytes w value)) as [b' Hb'];
      [done|by rewrite to_be_bytes_length|]. exists b'. split; [done|]. split_and!.
    - unfold read_uint. rewrite Hadd. cbn [ok_or mbind result_bind].
      apply put_range_inside in Hb'. rewrite to_be_bytes_length in Hb'. rewrite Hb'.
      cbn [ok_or mbind result_bind]. rewrite from_to_be_bytes by lia.
      destruct Hcase as [E|[E|E]]; rewrite E; done.
    - by eapply put_range_length.
    - intros i Hi. eapply put_range_outside; [done|]. by rewrite to_be_bytes_length. }
  unfold write_uint. rewrite Hadd. cbn [ok_or mbind result_bind]. rewrite Hf. cbn [ok_or mbind result_bind].
  destruct Hw as [->|[->| ->]]; cbn [Z.eqb Pos.eqb]; split; intros Hlt.
  - destruct (Hput 2%nat) as (b' & Hb' & ?); [done|done|by left|]. exists b'.
    rewrite (proj2 (try_from_Some U16_MAX value value)) by (unfold U16_MAX; split; [done|lia]).
    cbn [ok_or mbind result_bind]. by rewrite Hb'.
  - eexists. unfold try_from. rewrite (proj2 (Z.leb_gt _ _)) by (unfold U16_MAX; lia). done.
  - destruct (Hput 4%nat) as (b' & Hb' & ?); [done|done|by right; left|]. exists b'.
    rewrite (proj2 (try_from_Some U32_MAX value value)) by (unfold U32_MAX; split; [done|lia]).
    cbn [ok_or mbind result_bind]. by rewrite Hb'.
  - eexists. unfold try_from. rewrite (proj2 (Z.leb_gt _ _)) by (unfold U32_MAX; lia). done.
  - destruct (Hput 8%nat) as (b' & Hb' & ?); [done|done|by right; right|]. exists b'. by rewrite Hb'.
  - exfalso. unfold U64_MAX in Hv. lia.
Qed.

Lemma write_read_uint_witness :
  ∃ bytes', write_uint sample_boxes 17 8 18 = Ok bytes'
    ∧ read_uint bytes' 17 8 = Ok (18, 17 + 8)
    ∧ length bytes' = length sample_boxes
    ∧ ∀ i : nat, Z.of_nat i < 17 ∨ 17 + 8 <= Z.of_nat i → bytes' !! i = sample_boxes !! i.
Proof.
  apply (write_read_uint sample_boxes 17 8 18);
    [by right; right|lia|vm_compute; discriminate|vm_compute; discriminate|unfold U64_MAX; lia|lia].
Defined.

(** a box the writer builds reads back as itself: wherever
    [box_with_body(kind, body)] is placed in a file, the parser finds there a
    box of that kind whose body range holds exactly [body]; building fails
    only when the box would not fit a 32-bit size. *)
Theorem box_with_body_roundtrip k body p q :
  length k = 4%nat → zlen p + zlen body + zlen q + 8 <= ISIZE_MAX →
  (zlen body + 8 <= U32_MAX →
     ∃ bs, box_with_body k body = Ok bs
       ∧ parse_raw_box (p ++ bs ++ q) (zlen p)
         = Ok {| rb_start := zlen p; rb_size := zlen body + 8; header_size := 8; kind := k |}
       ∧ get_range (p ++ bs ++ q) (zlen p + 8) (zlen p + (zlen body + 8)) = Some body)
  ∧ (U32_MAX < zlen body + 8 → is_ok (box_with_body k body) = false).
Proof.
  unfold ISIZE_MAX. intros Hk Hlen. unfold box_with_body.
  assert (checked_add USIZE_MAX (zlen body) 8 = Some (zlen body + 8)) as ->.
  { apply checked_add_Some. unfold USIZE_MAX, U64_MAX. lia. }
  cbn [ok_or mbind result_bind]. split; intros Hu.
  2: { unfold try_from. by rewrite (proj2 (Z.leb_gt _ _)) by lia. }
  rewrite (proj2 (try_from_Some U32_MAX (zlen body + 8) _)) by done. cbn [ok_or mbind result_bind].
  set (sb := to_be_bytes 4 (zlen body + 8)).
  assert (length sb = 4%nat) as Hsb by apply to_be_bytes_length.
  assert (from_be_bytes sb = zlen body + 8) as Hfrom.
  { apply from_to_be_bytes. unfold U32_MAX in Hu. lia. }
  exists (sb ++ k ++ body). split; [done|].
  assert (get_range (p ++ (sb ++ k ++ body) ++ q) (zlen p) (zlen p + 8) = Some (sb ++ k)) as Hh.
  { replace (p ++ (sb ++ k ++ body) ++ q) with (p ++ (sb ++ k) ++ (body ++ q)) by (by rewrite <- !app_assoc).
    pose proof (get_range_app_eq p (sb ++ k) (body ++ q) (zlen p) eq_refl) as Hg.
    rewrite length_app, Hsb, Hk in Hg. exact Hg. }
  split.
  - unfold parse_raw_box.
    assert (saturating_add USIZE_MAX (zlen p) 8 = zlen p + 8) as ->
      by (unfold saturating_add, USIZE_MAX, U64_MAX; lia).
    rewrite Hh. cbn [ok_or mbind result_bind].
    assert (slice (sb ++ k) 0 4 = Ok sb) as ->.
    { apply slice_Ok. pose proof (get_range_app_eq [] sb k 0 eq_refl) as Hg.
      rewrite Hsb in Hg. exact Hg. }
    assert (slice (sb ++ k) 4 8 = Ok k) as ->.
    { apply slice_Ok. pose proof (get_range_app_eq sb k [] 4) as Hg. rewrite app_nil_r, Hk in Hg.
      apply Hg. by rewrite Hsb. }
    cbn [mbind result_bind]. rewrite Hfrom.
    rewrite (proj2 (Z.eqb_neq _ _)) by lia.
    rewrite (proj2 (Z.eqb_neq _ 1)) by lia. cbn [mbind result_bind].
    rewrite (proj2 (Z.ltb_ge _ _)) by lia.
    rewrite (proj2 (checked_add_Some _ _ _ (zlen p + (zlen body + 8))))
      by (unfold USIZE_MAX, U64_MAX; lia).
    cbn [ok_or mbind result_bind]. rewrite (proj2 (Z.ltb_ge _ _)); [done|].
    rewrite !length_app, Hsb, Hk. lia.
  - replace (p ++ (sb ++ k ++ body) ++ q) with ((p ++ sb ++ k) ++ body ++ q) by (by rewrite <- !app_assoc).
    replace (zlen p + (zlen body + 8)) with (zlen p + 8 + zlen body) by lia.
    apply get_range_app_eq. rewrite !length_app, Hsb, Hk. lia.
Qed.

Lemma box_with_body_roundtrip_witness :
  ∃ bs, box_with_body (fourcc "free") [1; 2; 3] = Ok bs
    ∧ parse_raw_box ([9] ++ bs ++ [8]) (zlen [9])
      = Ok {| rb_start := zlen [9]; rb_size := zlen [1; 2; 3] + 8; header_size := 8; kind := fourcc "free" |}
    ∧ get_range ([9] ++ bs ++ [8]) (zlen [9] + 8) (zlen [9] + (zlen [1; 2; 3] + 8)) = Some [1; 2; 3].
Proof.
  apply (box_with_body_roundtrip (fourcc "free") [1; 2; 3] [9] [8]);
    [reflexivity|vm_compute; discriminate|vm_compute; discriminate].
Defined.
