(* ===== verification/HeifItems.v ===== *)
(** * HEIF items: [src/download/heif.rs]

    The item tables of the [meta] box: [iinf] and [infe] entries, [iloc]
    locations, [pitm], [iref] references, and the choice of the Exif and XMP
    items that describe the primary image. *)
From S2P Require Import Prelude RustStr HeifBox.

(** ** [std::str::from_utf8] *)

Definition cont_byte (b : Z) : bool := (128 <=? b) && (b <=? 191).
Definition in_range (lo hi b : Z) : bool := (lo <=? b) && (b <=? hi).

Fixpoint from_utf8 (bs : list Z) : option str :=
  match bs with
  | [] => Some []
  | b0 :: r0 =>
      if b0 <? 128 then (b0 ::.) <$> from_utf8 r0
      else match r0 with
      | [] => None
      | b1 :: r1 =>
          if in_range 194 223 b0 then
            if cont_byte b1 then (((b0 - 192) * 64 + (b1 - 128)) ::.) <$> from_utf8 r1 else None
          else match r1 with
          | [] => None
          | b2 :: r2 =>
              let second3 :=
                if b0 =? 224 then in_range 160 191 b1
                else if b0 =? 237 then in_range 128 159 b1
                else in_range 225 239 b0 && cont_byte b1 in
              if in_range 224 239 b0 then
                if second3 && cont_byte b2
                then (((b0 - 224) * 4096 + (b1 - 128) * 64 + (b2 - 128)) ::.) <$> from_utf8 r2
                else None
              else match r2 with
              | [] => None
              | b3 :: r3 =>
                  let second4 :=
                    if b0 =? 240 then in_range 144 191 b1
                    else if b0 =? 244 then in_range 128 143 b1
                    else in_range 241 243 b0 && cont_byte b1 in
                  if second4 && cont_byte b2 && cont_byte b3
                  then (((b0 - 240) * 262144 + (b1 - 128) * 4096 + (b2 - 128) * 64 + (b3 - 128)) ::.)
                         <$> from_utf8 r3
                  else None
              end
          end
      end
  end.

Definition u16_at (body : list Z) (i : Z) : heif Z :=
  b0 ← index body i; b1 ← index body (i + 1); Ok (from_be_bytes [b0; b1]).

(** ** [infe] and [iinf] *)

(** Returns the string and the cursor after its terminator. *)
Definition read_c_string (bytes : list Z) (cursor : Z) : heif (str * Z) :=
  rest ← ok_or (invalid_layout "unterminated HEIC item string") (get_from bytes cursor);
  '(end_, _) ← ok_or (invalid_layout "unterminated HEIC item string")
                 (list_find (λ b, b = 0) rest);
  field ← slice rest 0 (Z.of_nat end_);
  value ← ok_or (invalid_layout "HEIC item string is not UTF-8") (from_utf8 field);
  Ok (value, cursor + Z.of_nat end_ + 1).

Definition skip_c_string (bytes : list Z) (cursor : Z) : heif Z :=
  '(_, cursor) ← read_c_string bytes cursor; Ok cursor.

(** Item id, type and content type. *)
Definition parse_infe (body : list Z) : heif (Z * option (list Z) * option str) :=
  if zlen body <? 8 then Err (invalid_layout "infe box is truncated")
  else
    version ← index body 0;
    '(item_id, type_pos) ←
      (if version =? 0 then id ← u16_at body 4; Ok (id, None)
       else if version =? 1 then Err (invalid_layout "unsupported infe version 1")
       else if version =? 2 then id ← u16_at body 4; Ok (id, Some 8)
       else if version =? 3 then
         if zlen body <? 14 then Err (invalid_layout "infe version 3 box is truncated")
         else f ← ok_or (invalid_layout "infe item id is truncated") (get_range body 4 8);
              Ok (from_be_bytes f, Some 10)
       else Err (invalid_layout "unsupported infe version"));
    match type_pos with
    | None => Ok (item_id, None, None)
    | Some type_pos =>
        item_type ← ok_or (invalid_layout "infe item type is truncated")
                      (get_range body type_pos (type_pos + 4));
        cursor ← skip_c_string body (type_pos + 4);
        content_type ←
          (if bool_decide (item_type = fourcc "mime") then
             '(v, _) ← read_c_string body cursor; Ok (Some v)
           else if bool_decide (item_type = fourcc "uri ") then
             read_c_string body cursor ;; Ok None
           else Ok None);
        Ok (item_id, Some item_type, content_type)
    end.

Record IinfLayout := {
  ii_version : Z;
  ii_count_pos : Z;
  ii_count_size : Z;
  max_item_id : Z;
  xmp_item_ids : list Z;
  exif_item_ids : list Z;
  tone_map_item_ids : list Z;
  item_ids : list Z;     (** a [HashSet] collected: only its members matter *)
}.

(** The loop over the entries; [l] accumulates. *)
Fixpoint parse_iinf_entries (body : list Z) (entries : list RawBox) (l : IinfLayout) : heif IinfLayout :=
  match entries with
  | [] => Ok l
  | entry :: entries =>
      if negb (has_kind entry "infe") then Err (invalid_layout "iinf contains a non-infe entry")
      else
        entry_body ← slice body (body_start entry) (box_end entry);
        '(item_id, item_type, content_type) ← parse_infe entry_body;
        if memb item_id (item_ids l) then Err (invalid_layout "iinf contains duplicate item IDs")
        else
          parse_iinf_entries body entries {|
            ii_version := ii_version l;
            ii_count_pos := ii_count_pos l;
            ii_count_size := ii_count_size l;
            max_item_id := Z.max (max_item_id l) item_id;
            xmp_item_ids := xmp_item_ids l ++
              (if bool_decide (item_type = Some (fourcc "mime"))
                  && bool_decide (content_type = Some (lit "application/rdf+xml"))
               then [item_id] else []);
            exif_item_ids := exif_item_ids l ++
              (if bool_decide (item_type = Some (fourcc "Exif")) then [item_id] else []);
            tone_map_item_ids := tone_map_item_ids l ++
              (if bool_decide (item_type = Some (fourcc "tmap")) then [item_id] else []);
            item_ids := item_ids l ++ [item_id];
          |}
  end.

Definition parse_iinf (bytes : list Z) (iinf : RawBox) : heif IinfLayout :=
  body ← slice bytes (body_start iinf) (box_end iinf);
  if zlen body <? 6 then Err (invalid_layout "iinf box is truncated")
  else
    version ← index body 0;
    '(count_pos, count_size, count) ←
      (if version =? 0 then c ← u16_at body 4; Ok (4, 2, c)
       else if version =? 1 then
         if zlen body <? 8 then Err (invalid_layout "iinf version 1 box is truncated")
         else f ← ok_or (invalid_layout "iinf entry count is truncated") (get_range body 4 8);
              Ok (4, 4, from_be_bytes f)
       else Err (invalid_layout "unsupported iinf version"));
    let entry_start := count_pos + count_size in
    entries ← scan_raw_boxes body entry_start (zlen body);
    if negb (zlen entries =? default USIZE_MAX (try_from USIZE_MAX count)) then
      Err (invalid_layout "iinf entry count does not match its contents")
    else
      parse_iinf_entries body entries {|
        ii_version := version; ii_count_pos := count_pos; ii_count_size := count_size;
        max_item_id := 0; xmp_item_ids := []; exif_item_ids := []; tone_map_item_ids := [];
        item_ids := [] |}.

(** ** [iloc] *)

Record IlocExtent := {
  offset_pos : option Z; length_pos : option Z; ie_offset : Z; ie_length : Z;
}.

Record IlocItem := {
  item_id : Z;
  construction_method : Z;
  data_reference_index : Z;
  base_offset_pos : option Z;
  base_offset : Z;
  extents : list IlocExtent;
}.

Record IlocLayout := {
  il_version : Z; offset_size : Z; length_size : Z; base_offset_size : Z; index_size : Z;
  il_count_pos : Z; il_count_size : Z;
  items : list IlocItem;
}.

(** [Some(cursor)] unless the field has no width. *)
Definition field_pos (width cursor : Z) : option Z := if width =? 0 then None else Some cursor.

Fixpoint parse_extents (n : nat) (body : list Z) (version offset_size length_size index_size cursor : Z)
    : heif (list IlocExtent * Z) :=
  match n with
  | O => Ok ([], cursor)
  | S n =>
      cursor ← (if version =? 0 then Ok cursor
                else '(_, c) ← read_uint body cursor index_size; Ok c);
      let offset_pos := field_pos offset_size cursor in
      '(offset, cursor) ← read_uint body cursor offset_size;
      let length_pos := field_pos length_size cursor in
      '(len, cursor) ← read_uint body cursor length_size;
      '(rest, cursor) ← parse_extents n body version offset_size length_size index_size cursor;
      Ok ({| offset_pos := offset_pos; length_pos := length_pos; ie_offset := offset; ie_length := len |} :: rest,
          cursor)
  end.

Definition parse_iloc_item (body : list Z) (version offset_size length_size base_offset_size index_size
    id_size : Z) (seen : list Z) (cursor : Z) : heif (IlocItem * Z) :=
  '(id, cursor) ← read_uint body cursor id_size;
  id ← ok_or (invalid_layout "iloc item ID is too large") (try_from U32_MAX id);
  if memb id seen then Err (invalid_layout "iloc contains duplicate item IDs")
  else
    '(method, cursor) ←
      (if version =? 0 then Ok (0, cursor)
       else '(packed, c) ← read_uint body cursor 2; Ok (Z.land packed 15, c));
    '(dref, cursor) ← read_uint body cursor 2;
    dref ← ok_or (invalid_layout "iloc data reference index is too large") (try_from U16_MAX dref);
    let base_pos := field_pos base_offset_size cursor in
    '(base, cursor) ← read_uint body cursor base_offset_size;
    '(extent_count, cursor) ← read_uint body cursor 2;
    let min_extent_bytes := index_size + offset_size + length_size in
    let max_extents :=
      if min_extent_bytes =? 0 then 1 else (zlen body - cursor) / min_extent_bytes in
    if max_extents <? extent_count then Err (invalid_layout "iloc extent count exceeds its box body")
    else
      '(extents, cursor) ← parse_extents (Z.to_nat extent_count) body version offset_size length_size
                             index_size cursor;
      Ok ({| item_id := id; construction_method := method; data_reference_index := dref;
             base_offset_pos := base_pos; base_offset := base; extents := extents |}, cursor).

Fixpoint parse_iloc_items (n : nat) (body : list Z) (version offset_size length_size base_offset_size
    index_size id_size : Z) (seen : list Z) (cursor : Z) : heif (list IlocItem * Z) :=
  match n with
  | O => Ok ([], cursor)
  | S n =>
      '(item, cursor) ← parse_iloc_item body version offset_size length_size base_offset_size
                          index_size id_size seen cursor;
      '(rest, cursor) ← parse_iloc_items n body version offset_size length_size base_offset_size
                          index_size id_size (item_id item :: seen) cursor;
      Ok (item :: rest, cursor)
  end.

Definition parse_iloc (bytes : list Z) (iloc : RawBox) : heif IlocLayout :=
  body ← slice bytes (body_start iloc) (box_end iloc);
  if zlen body <? 8 then Err (invalid_layout "iloc box is truncated")
  else
    version ← index body 0;
    if 2 <? version then Err (invalid_layout "unsupported iloc version")
    else
      b4 ← index body 4;
      b5 ← index body 5;
      let offset_size := Z.shiftr b4 4 in
      let length_size := Z.land b4 15 in
      let base_offset_size := Z.shiftr b5 4 in
      let index_size := if version =? 0 then 0 else Z.land b5 15 in
      if negb (forallb (λ size, (size =? 0) || (size =? 4) || (size =? 8))
                 [offset_size; length_size; base_offset_size; index_size])
      then Err (invalid_layout "iloc uses a reserved field width")
      else
        '(count_pos, count_size, count) ←
          (if version =? 2 then
             if zlen body <? 10 then Err (invalid_layout "iloc version 2 box is truncated")
             else f ← ok_or (invalid_layout "iloc item count is truncated") (get_range body 6 10);
                  Ok (6, 4, from_be_bytes f)
           else c ← u16_at body 6; Ok (6, 2, c));
        let id_size := if version =? 2 then 4 else 2 in
        let min_item_bytes := id_size + (if version =? 0 then 0 else 2) + 2 + base_offset_size + 2 in
        let body_after_count := zlen body - (count_pos + count_size) in
        if body_after_count / min_item_bytes <? count then
          Err (invalid_layout "iloc item count exceeds its box body")
        else
          '(items, cursor) ← parse_iloc_items (Z.to_nat count) body version offset_size length_size
                               base_offset_size index_size id_size [] (count_pos + count_size);
          if negb (cursor =? zlen body) then Err (invalid_layout "iloc contains an unparsed tail")
          else if existsb (λ item, negb (data_reference_index item =? 0)) items then
            Err (invalid_layout "HEIC item uses an external data reference")
          else Ok {| il_version := version; offset_size := offset_size; length_size := length_size;
                     base_offset_size := base_offset_size; index_size := index_size;
                     il_count_pos := count_pos; il_count_size := count_size; items := items |}.

(** ** [pitm] and the [meta] box *)

Definition parse_primary_item_id (bytes : list Z) (pitm : RawBox) : heif Z :=
  body ← slice bytes (body_start pitm) (box_end pitm);
  if zlen body <? 6 then Err (invalid_layout "pitm box is truncated")
  else
    version ← index body 0;
    if version =? 0 then u16_at body 4
    else if version =? 1 then
      f ← ok_or (invalid_layout "pitm version 1 box is truncated") (get_range body 4 8);
      Ok (from_be_bytes f)
    else Err (invalid_layout "unsupported pitm version").

Definition MAX_REWRITE_META_BYTES : Z := 8 * 1024 * 1024.

Record MetaLayout := {
  ml_meta : RawBox; ml_iinf : RawBox; ml_iloc : RawBox; ml_iref : option RawBox;
  ml_primary : Z; ml_prefix_size : Z;
}.

Definition find_meta_layout (bytes : list Z) : heif MetaLayout :=
  top ← scan_raw_boxes bytes 0 (zlen bytes);
  meta ← unique_required_box top "meta" "HEIC has no top-level meta box"
           "HEIC has multiple top-level meta boxes";
  if MAX_REWRITE_META_BYTES <? rb_size meta then
    Err (invalid_layout "HEIC meta box is too large to rewrite safely")
  else if negb (header_size meta =? 8) then
    Err (invalid_layout "large-size meta boxes are unsupported")
  else
    let start := body_start meta in
    let end_ := box_end meta in
    prefix_size ←
      (if bool_decide (get_range bytes (start + 8) (start + 12) = Some (fourcc "hdlr")) then Ok 4
       else if bool_decide (get_range bytes (start + 4) (start + 8) = Some (fourcc "hdlr")) then Ok 0
       else Err (invalid_layout "HEIC meta box has no handler box"));
    children ← scan_raw_boxes bytes (start + prefix_size) end_;
    iinf ← unique_required_box children "iinf" "HEIC meta box has no iinf box"
             "HEIC meta box has multiple iinf boxes";
    iloc ← unique_required_box children "iloc" "HEIC meta box has no iloc box"
             "HEIC meta box has multiple iloc boxes";
    iref ← unique_optional_box children "iref" "HEIC meta box has multiple iref boxes";
    pitm ← unique_required_box children "pitm" "HEIC meta box has no primary item"
             "HEIC meta box has multiple primary-item boxes";
    primary_item_id ← parse_primary_item_id bytes pitm;
    if negb (header_size iinf =? 8) || negb (header_size iloc =? 8) then
      Err (invalid_layout "large-size iinf or iloc boxes are unsupported")
    else if match iref with Some r => negb (header_size r =? 8) | None => false end then
      Err (invalid_layout "large-size iref boxes are unsupported")
    else Ok {| ml_meta := meta; ml_iinf := iinf; ml_iloc := iloc; ml_iref := iref;
               ml_primary := primary_item_id; ml_prefix_size := prefix_size |}.

(** The file range of one extent. *)
Definition extent_range (item : IlocItem) (extent : IlocExtent) : heif (Z * Z) :=
  start ← ok_or (invalid_layout "HEIC item offset overflows")
            (o ← checked_add U64_MAX (base_offset item) (ie_offset extent); try_from USIZE_MAX o);
  len ← ok_or (invalid_layout "HEIC item extent is too large") (try_from USIZE_MAX (ie_length extent));
  end_ ← ok_or (invalid_layout "HEIC item extent overflows") (checked_add USIZE_MAX start len);
  Ok (start, end_).

Fixpoint resolve_extents (bytes : list Z) (item : IlocItem) (es : list IlocExtent) : heif (list (list Z)) :=
  match es with
  | [] => Ok []
  | extent :: es =>
      '(start, end_) ← extent_range item extent;
      data ← ok_or (invalid_layout "HEIC item extent is outside the file") (get_range bytes start end_);
      rest ← resolve_extents bytes item es;
      Ok (data :: rest)
  end.
Definition resolve_item_extents (bytes : list Z) (item : IlocItem) : heif (list (list Z)) :=
  resolve_extents bytes item (extents item).

Definition opaque_meta_sub_boxes (bytes : list Z) : heif (list (list Z * Z * Z)) :=
  ml ← find_meta_layout bytes;
  children ← scan_raw_boxes bytes (body_start (ml_meta ml) + ml_prefix_size ml) (box_end (ml_meta ml));
  Ok (map (λ c, (kind c, rb_start c, box_end c))
        (List.filter (λ c, negb (has_kind c "iinf" || has_kind c "iloc" || has_kind c "iref")) children)).

(** ** [iref] *)

Fixpoint reference_targets (n : nat) (child_body : list Z) (start id_width : Z) : heif (list Z) :=
  match n with
  | O => Ok []
  | S n =>
      id ← (if id_width =? 2 then u16_at child_body start
            else f ← slice child_body start (start + id_width); Ok (from_be_bytes f));
      rest ← reference_targets n child_body (start + id_width) id_width;
      Ok (id :: rest)
  end.

Definition reference_child (version : Z) (child_body : list Z) : heif (Z * list Z) :=
  '(from_item_id, count_pos, id_width) ←
    (if version =? 0 then
       if zlen child_body <? 4 then Err (invalid_layout "iref child is truncated")
       else id ← u16_at child_body 0; Ok (id, 2, 2)
     else if version =? 1 then
       if zlen child_body <? 6 then Err (invalid_layout "iref version 1 child is truncated")
       else f ← slice child_body 0 4; Ok (from_be_bytes f, 4, 4)
     else Err (invalid_layout "unsupported iref version"));
  count_bytes ← slice child_body count_pos (count_pos + 2);
  let count := from_be_bytes count_bytes in
  expected_len ← ok_or (invalid_layout "iref reference list overflows")
    (len ← checked_add USIZE_MAX count_pos 2;
     ids ← checked_mul USIZE_MAX count id_width;
     checked_add USIZE_MAX len ids);
  if negb (zlen child_body =? expected_len) then
    Err (invalid_layout "iref reference list is inconsistent")
  else
    targets ← reference_targets (Z.to_nat count) child_body (count_pos + 2) id_width;
    Ok (from_item_id, targets).

Fixpoint reference_children (version : Z) (body : list Z) (reference_type : string) (children : list RawBox)
    : heif (list (Z * list Z)) :=
  match children with
  | [] => Ok []
  | child :: children =>
      if negb (has_kind child reference_type) then reference_children version body reference_type children
      else
        child_body ← slice body (body_start child) (box_end child);
        pair ← reference_child version child_body;
        rest ← reference_children version body reference_type children;
        Ok (pair :: rest)
  end.

Definition item_reference_pairs (bytes : list Z) (iref : RawBox) (reference_type : string)
    : heif (list (Z * list Z)) :=
  body ← slice bytes (body_start iref) (box_end iref);
  if zlen body <? 4 then Err (invalid_layout "iref box is truncated")
  else
    version ← index body 0;
    children ← scan_raw_boxes body 4 (zlen body);
    reference_children version body reference_type children.

Definition cdsc_pairs (bytes : list Z) (iref : RawBox) : heif (list (Z * list Z)) :=
  item_reference_pairs bytes iref "cdsc".

(** ** Which item describes the primary image *)

(** The items of [ids] that describe the primary image, and those that
    describe nothing. *)
Definition describing (pairs : list (Z * list Z)) (primary_item_id : Z) (ids : list Z) : list Z :=
  List.filter (λ id, existsb (λ p, (p.1 =? id) && memb primary_item_id p.2) pairs) ids.
Definition unattributed (pairs : list (Z * list Z)) (ids : list Z) : list Z :=
  List.filter (λ id, negb (existsb (λ p, p.1 =? id) pairs)) ids.

Definition select_exif_item_id (bytes : list Z) (iref : option RawBox) (primary_item_id : Z)
    (exif_item_ids known_item_ids : list Z) : heif (option Z) :=
  match exif_item_ids with
  | [] => Ok None
  | first :: rest =>
      match iref with
      | None =>
          match rest with
          | [] => Ok (Some first)
          | _ => Err (invalid_layout "multiple Exif items have no primary-image association")
          end
      | Some iref =>
          pairs ← cdsc_pairs bytes iref;
          if existsb (λ p, memb p.1 exif_item_ids
                           && existsb (λ target, negb (memb target known_item_ids)) p.2) pairs
          then Err (invalid_layout "Exif item describes an item absent from iinf")
          else
            match describing pairs primary_item_id exif_item_ids with
            | [id] => Ok (Some id)
            | _ :: _ :: _ => Err (invalid_layout "multiple Exif items describe the primary image")
            | [] =>
                match unattributed pairs exif_item_ids with
                | [] => Ok None
                | [id] => Ok (Some id)
                | _ => Err (invalid_layout "multiple Exif items have no primary-image association")
                end
            end
      end
  end.

Definition select_xmp_item_id (bytes : list Z) (iref : option RawBox) (primary_item_id : Z)
    (xmp_item_ids : list Z) : heif (option Z) :=
  match xmp_item_ids with
  | [] => Ok None
  | first :: rest =>
      match iref with
      | None =>
          match rest with
          | [] => Ok (Some first)
          | _ => Err (invalid_layout "multiple XMP items have no primary-image association")
          end
      | Some iref =>
          pairs ← cdsc_pairs bytes iref;
          match describing pairs primary_item_id xmp_item_ids with
          | [id] => Ok (Some id)
          | _ :: _ :: _ => Err (invalid_layout "multiple XMP items describe the primary image")
          | [] =>
              match unattributed pairs xmp_item_ids with
              | [] => Ok None
              | [id] => Ok (Some id)
              | _ => Err (invalid_layout "multiple XMP items have no primary-image association")
              end
          end
      end
  end.

Definition ensure_metadata_item_is_primary_only (bytes : list Z) (iref : option RawBox)
    (item_id primary_item_id : Z) : heif unit :=
  match iref with
  | None => Ok tt
  | Some iref =>
      pairs ← cdsc_pairs bytes iref;
      let mine := List.filter (λ p, p.1 =? item_id) pairs in
      let describes_primary := existsb (λ p, memb primary_item_id p.2) mine in
      let describes_other := existsb (λ p, existsb (λ t, negb (t =? primary_item_id)) p.2) mine in
      if describes_primary && describes_other then
        Err (invalid_layout "HEIF metadata item is shared by the primary and another image")
      else Ok tt
  end.

Definition validate_capture_repair_item_ownership (bytes : list Z) : heif unit :=
  ml ← find_meta_layout bytes;
  iinf_layout ← parse_iinf bytes (ml_iinf ml);
  exif ← select_exif_item_id bytes (ml_iref ml) (ml_primary ml) (exif_item_ids iinf_layout)
           (item_ids iinf_layout);
  match exif with
  | Some id => ensure_metadata_item_is_primary_only bytes (ml_iref ml) id (ml_primary ml)
  | None => Ok tt
  end ;;
  xmp ← select_xmp_item_id bytes (ml_iref ml) (ml_primary ml) (xmp_item_ids iinf_layout);
  match xmp with
  | Some id => ensure_metadata_item_is_primary_only bytes (ml_iref ml) id (ml_primary ml)
  | None => Ok tt
  end.

(** ** Extents *)

Definition item_extent_is_shared (layout : IlocLayout) (id extent_start extent_length : Z) : bool :=
  match checked_add U64_MAX extent_start extent_length with
  | None => true
  | Some extent_end =>
      existsb (λ item,
        negb (item_id item =? id) && (construction_method item =? 0)
        && existsb (λ extent,
             match checked_add U64_MAX (base_offset item) (ie_offset extent) with
             | None => true
             | Some start =>
                 match checked_add U64_MAX start (ie_length extent) with
                 | None => true
                 | Some end_ => (start <? extent_end) && (extent_start <? end_)
                 end
             end) (extents item)) (items layout)
  end.

Definition extent_is_within_mdat_payload (bytes : list Z) (extent_start extent_length : Z) : heif bool :=
  extent_end ← ok_or (invalid_layout "existing XMP extent overflows")
                 (checked_add USIZE_MAX extent_start extent_length);
  top ← scan_raw_boxes bytes 0 (zlen bytes);
  Ok (existsb (λ atom, (body_start atom <=? extent_start) && (extent_end <=? box_end atom))
        (of_kind "mdat" top)).

Definition ensure_insertion_layout (bytes : list Z) : heif unit :=
  top ← scan_raw_boxes bytes 0 (zlen bytes);
  if forallb (λ b, has_kind b "ftyp" || has_kind b "meta" || has_kind b "mdat"
                   || has_kind b "free" || has_kind b "wide") top
  then Ok tt
  else Err (invalid_layout "HEIC insertion refuses top-level boxes with unhandled file offsets").

(** The nested loops of [reject_meta_overlapping_items]. *)
Fixpoint reject_overlapping_extents (item : IlocItem) (meta : RawBox) (es : list IlocExtent) : heif unit :=
  match es with
  | [] => Ok tt
  | extent :: es =>
      start ← ok_or (invalid_layout "HEIC item offset overflows")
                (checked_add U64_MAX (base_offset item) (ie_offset extent));
      end_ ← ok_or (invalid_layout "HEIC item extent overflows")
               (checked_add U64_MAX start (ie_length extent));
      if (start <? box_end meta) && (rb_start meta <? end_) then
        Err (invalid_layout "HEIC item data overlaps the meta box and cannot be rewritten")
      else reject_overlapping_extents item meta es
  end.

Fixpoint reject_overlapping_items (meta : RawBox) (l : list IlocItem) : heif unit :=
  match l with
  | [] => Ok tt
  | item :: l =>
      if negb (construction_method item =? 0) then reject_overlapping_items meta l
      else reject_overlapping_extents item meta (extents item) ;; reject_overlapping_items meta l
  end.

Definition reject_meta_overlapping_items (layout : IlocLayout) (meta : RawBox) : heif unit :=
  reject_overlapping_items meta (items layout).

(** ** Appending an item *)

Definition make_infe (item_id : Z) : heif (list Z) :=
  id_bytes ←
    (if item_id <=? U16_MAX then
       id ← ok_or (invalid_layout "HEIC item ID does not fit infe version 2") (try_from U16_MAX item_id);
       Ok (to_be_bytes 2 id)
     else Ok (to_be_bytes 4 item_id));
  box_with_body (fourcc "infe")
    ([if item_id <=? U16_MAX then 2 else 3; 0; 0; 0] ++ id_bytes ++ to_be_bytes 2 0
     ++ fourcc "mime" ++ (fourcc "XMP" ++ [0]) ++ (fourcc "application/rdf+xml" ++ [0]) ++ [0]).

Definition append_iinf_entry (bytes : list Z) (iinf : RawBox) (count_pos count_size item_id : Z)
    : heif (list Z) :=
  body ← slice bytes (body_start iinf) (box_end iinf);
  entry ← make_infe item_id;
  count_size ← ok_or (invalid_layout "iinf count width is too large") (try_from 255 count_size);
  '(count, _) ← read_uint body count_pos count_size;
  new_count ← ok_or (invalid_layout "iinf entry count overflows") (checked_add U64_MAX count 1);
  new_body ← write_uint body count_pos count_size new_count;
  box_with_body (kind iinf) (new_body ++ entry).

(** ** The rewrite guard *)

Fixpoint compare_items (input rewritten : list Z) (input_items rewritten_items : list IlocItem) : heif unit :=
  match input_items with
  | [] => Ok tt
  | input_item :: input_items =>
      rewritten_item ← ok_or (invalid_layout "HEIC rewrite removed a non-XMP item")
        (findb (λ i, item_id i =? item_id input_item) rewritten_items);
      input_extents ← resolve_item_extents input input_item;
      rewritten_extents ← resolve_item_extents rewritten rewritten_item;
      if negb (zlen input_extents =? zlen rewritten_extents)
         || existsb (λ p, negb (bool_decide (p.1 = p.2))) (combine input_extents rewritten_extents)
      then Err (invalid_layout "HEIC rewrite changed a non-XMP item payload")
      else compare_items input rewritten input_items rewritten_items
  end.

(** Construction-method-0 items other than the XMP item. *)
Definition preserved_items (layout : IlocLayout) (xmp_item_id : option Z) : list IlocItem :=
  List.filter (λ i, (construction_method i =? 0) && negb (bool_decide (Some (item_id i) = xmp_item_id)))
    (items layout).

Definition validate_rewrite_preserves_non_xmp_items (input rewritten : list Z) : heif unit :=
  iml ← find_meta_layout input;
  input_iinf ← parse_iinf input (ml_iinf iml);
  input_iloc ← parse_iloc input (ml_iloc iml);
  input_xmp ← select_xmp_item_id input (ml_iref iml) (ml_primary iml) (xmp_item_ids input_iinf);
  rml ← find_meta_layout rewritten;
  rewritten_iinf ← parse_iinf rewritten (ml_iinf rml);
  rewritten_iloc ← parse_iloc rewritten (ml_iloc rml);
  rewritten_xmp ← select_xmp_item_id rewritten (ml_iref rml) (ml_primary rml) (xmp_item_ids rewritten_iinf);
  let input_items := preserved_items input_iloc input_xmp in
  let rewritten_items := preserved_items rewritten_iloc rewritten_xmp in
  if negb (zlen input_items =? zlen rewritten_items) then
    Err (invalid_layout "HEIC rewrite changed the construction-method-0 item set")
  else
    compare_items input rewritten input_items rewritten_items ;;
    input_meta ← opaque_meta_sub_boxes input;
    rewritten_meta ← opaque_meta_sub_boxes rewritten;
    if negb (zlen input_meta =? zlen rewritten_meta) then
      Err (invalid_layout "HEIC rewrite changed the opaque meta sub-box set")
    else if existsb (λ p,
        negb (bool_decide (p.1.1.1 = p.2.1.1))
        || negb (bool_decide (get_range input p.1.1.2 p.1.2 = get_range rewritten p.2.1.2 p.2.2)))
      (combine input_meta rewritten_meta)
    then Err (invalid_layout "HEIC rewrite changed an opaque meta sub-box")
    else Ok tt.

(** ** Facts: no panics *)

(** Takes a composition of binds, tests and matches apart. *)
Ltac safe_step :=
  match goal with
  | |- safe (Ok _) => apply safe_Ok
  | |- safe (Err (invalid_layout _)) => apply safe_invalid
  | |- safe (ok_or (invalid_layout _) _) => apply safe_ok_or
  | |- safe (read_uint _ _ _) => apply read_uint_safe
  | |- safe (index _ _) => apply safe_index; lia
  | |- safe (slice _ _ _) => apply safe_slice; lia
  | |- safe (mbind _ _) => apply safe_bind; [|intros ? ?]
  | |- safe (if ?a <? ?b then _ else _) => destruct (Z.ltb_spec a b)
  | |- safe (if ?a =? ?b then _ else _) => destruct (Z.eqb_spec a b)
  | |- safe (if ?b then _ else _) => destruct b
  | |- safe (let '(_, _) := ?p in _) => destruct p
  | |- safe (match ?x with _ => _ end) => destruct x
  end.
Ltac safe_tac := repeat safe_step; try done.

Lemma safe_u16_at body i : 0 <= i → i + 1 < zlen body → safe (u16_at body i).
Proof. intros. unfold u16_at. safe_tac. Qed.

Lemma read_c_string_safe bytes cursor : safe (read_c_string bytes cursor).
Proof.
  unfold read_c_string. apply safe_bind; [safe_tac|]. intros rest _.
  apply safe_bind; [safe_tac|]. intros [e b] He%ok_or_Ok.
  apply list_find_Some in He as (Hl & _). apply lookup_lt_Some in Hl. safe_tac.
Qed.

Lemma skip_c_string_safe bytes cursor : safe (skip_c_string bytes cursor).
Proof. unfold skip_c_string. apply safe_bind; [apply read_c_string_safe|]. intros [? ?] _. safe_tac. Qed.

Lemma parse_infe_safe body : safe (parse_infe body).
Proof.
  unfold parse_infe. destruct (Z.ltb_spec (zlen body) 8); [safe_tac|].
  apply safe_bind; [safe_tac|]. intros version _. apply safe_bind.
  { safe_tac; apply safe_u16_at; lia. }
  intros [id [tp|]] _; [|safe_tac]. apply safe_bind; [safe_tac|]. intros ty _.
  apply safe_bind; [apply skip_c_string_safe|]. intros c _.
  apply safe_bind; [|intros ? _; safe_tac].
  case_bool_decide; [|case_bool_decide]; safe_tac; apply read_c_string_safe.
Qed.

Lemma boxes_in_slice bytes a b boxes x :
  scan_raw_boxes bytes a b = Ok boxes → x ∈ boxes →
  0 <= body_start x <= box_end x ∧ box_end x <= zlen bytes.
Proof.
  intros (_ & Hin & _)%scan_raw_boxes_ok Hx. rewrite Forall_forall in Hin. apply Hin in Hx as [].
  unfold body_start, box_end in *. lia.
Qed.

Lemma parse_iinf_entries_safe body entries l :
  (∀ x, x ∈ entries → 0 <= body_start x <= box_end x ∧ box_end x <= zlen body) →
  safe (parse_iinf_entries body entries l).
Proof.
  revert l. induction entries as [|x entries IH]; intros l Hx; cbn [parse_iinf_entries]; [safe_tac|].
  destruct (negb _); [safe_tac|]. destruct (Hx x) as [? ?]; [set_solver|].
  apply safe_bind; [safe_tac|]. intros eb _. apply safe_bind; [apply parse_infe_safe|].
  intros [[id ty] ct] _. destruct (memb _ _); [safe_tac|]. apply IH. intros y Hy. apply Hx. set_solver.
Qed.

Lemma slice_len bytes a b s : slice bytes a b = Ok s → zlen s <= zlen bytes ∧ zlen s = b - a.
Proof.
  intros Hs%slice_Ok. pose proof (get_range_length _ _ _ _ Hs). apply get_range_Some in Hs. lia.
Qed.

Lemma parse_iinf_safe bytes iinf :
  zlen bytes <= ISIZE_MAX → box_in bytes iinf → safe (parse_iinf bytes iinf).
Proof.
  intros Hlen []. unfold parse_iinf.
  apply safe_bind; [apply safe_slice; unfold body_start, box_end in *; lia|].
  intros body Hb%slice_len. destruct (Z.ltb_spec (zlen body) 6); [safe_tac|].
  apply safe_bind; [safe_tac|]. intros version _. apply safe_bind.
  { safe_tac; apply safe_u16_at; lia. }
  intros [[cp cs] count] Hc.
  assert (0 <= cp + cs) as Hpos.
  { repeat case_match; try done; invert_ok; simplify_eq; lia. }
  apply safe_bind; [apply scan_raw_boxes_safe; lia|]. intros entries Hs. safe_tac.
  apply parse_iinf_entries_safe. intros x Hx. by eapply boxes_in_slice.
Qed.

Lemma parse_extents_safe n body v os ls ix cursor : safe (parse_extents n body v os ls ix cursor).
Proof.
  revert cursor. induction n as [|n IH]; intros cursor; cbn [parse_extents]; [safe_tac|].
  apply safe_bind; [safe_tac|]. intros c _. apply safe_bind; [safe_tac|]. intros [? ?] _.
  apply safe_bind; [safe_tac|]. intros [? ?] _. apply safe_bind; [apply IH|]. intros [? ?] _. safe_tac.
Qed.

Lemma parse_iloc_items_safe n body v os ls bs ix ids seen cursor :
  safe (parse_iloc_items n body v os ls bs ix ids seen cursor).
Proof.
  revert seen cursor. induction n as [|n IH]; intros seen cursor; cbn [parse_iloc_items]; [safe_tac|].
  apply safe_bind.
  - unfold parse_iloc_item. apply safe_bind; [safe_tac|]. intros [id c] _.
    apply safe_bind; [safe_tac|]. intros ? _. destruct (memb _ _); [safe_tac|].
    apply safe_bind; [safe_tac|]. intros [m c1] _. apply safe_bind; [safe_tac|]. intros [d c2] _.
    apply safe_bind; [safe_tac|]. intros ? _. apply safe_bind; [safe_tac|]. intros [b c3] _.
    apply safe_bind; [safe_tac|]. intros [ec c4] _. destruct (Z.ltb _ ec); [safe_tac|].
    apply safe_bind; [apply parse_extents_safe|]. intros [? ?] _. safe_tac.
  - intros [item c] _. apply safe_bind; [apply IH|]. intros [? ?] _. safe_tac.
Qed.

Lemma parse_iloc_safe bytes iloc : box_in bytes iloc → safe (parse_iloc bytes iloc).
Proof.
  intros []. unfold parse_iloc.
  apply safe_bind; [apply safe_slice; unfold body_start, box_end in *; lia|].
  intros body _. destruct (Z.ltb_spec (zlen body) 8); [safe_tac|].
  apply safe_bind; [safe_tac|]. intros version _. destruct (2 <? version); [safe_tac|].
  apply safe_bind; [safe_tac|]. intros b4 _. apply safe_bind; [safe_tac|]. intros b5 _.
  destruct (negb (forallb _ _)); [safe_tac|]. apply safe_bind.
  { safe_tac; apply safe_u16_at; lia. }
  intros [[cp cs] count] _. destruct (_ <? count); [safe_tac|].
  apply safe_bind; [apply parse_iloc_items_safe|]. intros [? ?] _. safe_tac.
Qed.

Lemma of_kind_elem k boxes b : b ∈ of_kind k boxes → b ∈ boxes ∧ kind b = fourcc k.
Proof.
  unfold of_kind, has_kind. intros [Hi Hk]%list_elem_of_In%filter_In.
  apply bool_decide_eq_true in Hk. split; [by apply list_elem_of_In|done].
Qed.

Lemma unique_required_Ok boxes k m d b :
  unique_required_box boxes k m d = Ok b → of_kind k boxes = [b].
Proof. unfold unique_required_box. repeat case_match; intros; by simplify_eq. Qed.

Lemma unique_required_in bytes a e boxes k m d b :
  scan_raw_boxes bytes a e = Ok boxes → unique_required_box boxes k m d = Ok b → box_in bytes b.
Proof.
  intros (_ & Hin & _)%scan_raw_boxes_ok Hu%unique_required_Ok. rewrite Forall_forall in Hin.
  apply Hin, (of_kind_elem k). rewrite Hu. set_solver.
Qed.

Lemma unique_optional_in bytes a e boxes k d b :
  scan_raw_boxes bytes a e = Ok boxes → unique_optional_box boxes k d = Ok (Some b) → box_in bytes b.
Proof.
  intros (_ & Hin & _)%scan_raw_boxes_ok Hu. rewrite Forall_forall in Hin.
  apply Hin, (of_kind_elem k). unfold unique_optional_box in Hu.
  repeat case_match; simplify_eq; set_solver.
Qed.

Lemma safe_unique_required boxes k m d : safe (unique_required_box boxes k m d).
Proof. unfold unique_required_box. safe_tac. Qed.
Lemma safe_unique_optional boxes k d : safe (unique_optional_box boxes k d).
Proof. unfold unique_optional_box. safe_tac. Qed.

Lemma find_meta_layout_safe bytes : zlen bytes <= ISIZE_MAX → safe (find_meta_layout bytes).
Proof.
  intros Hlen. unfold find_meta_layout.
  apply safe_bind; [apply scan_raw_boxes_safe; lia|]. intros top Htop.
  apply safe_bind; [apply safe_unique_required|]. intros meta Hmeta.
  destruct (unique_required_in _ _ _ _ _ _ _ _ Htop Hmeta).
  do 2 (case_match; [safe_tac|]). apply safe_bind; [safe_tac|]. intros ps Hps.
  assert (0 <= ps) by (repeat case_bool_decide; invert_ok; simplify_eq; lia).
  apply safe_bind; [apply scan_raw_boxes_safe; unfold body_start; lia|]. intros children Hch.
  apply safe_bind; [apply safe_unique_required|]. intros iinf _.
  apply safe_bind; [apply safe_unique_required|]. intros iloc _.
  apply safe_bind; [apply safe_unique_optional|]. intros iref _.
  apply safe_bind; [apply safe_unique_required|]. intros pitm Hp.
  destruct (unique_required_in _ _ _ _ _ _ _ _ Hch Hp).
  apply safe_bind; [|intros ? _; case_match; safe_tac].
  unfold parse_primary_item_id. apply safe_bind; [apply safe_slice; unfold body_start, box_end in *; lia|].
  intros body _. destruct (Z.ltb_spec (zlen body) 6); [safe_tac|].
  apply safe_bind; [safe_tac|]. intros v _. safe_tac. apply safe_u16_at; lia.
Qed.

Lemma find_meta_layout_in bytes ml :
  find_meta_layout bytes = Ok ml →
  box_in bytes (ml_iinf ml) ∧ box_in bytes (ml_iloc ml)
  ∧ (∀ r, ml_iref ml = Some r → box_in bytes r).
Proof.
  unfold find_meta_layout. intros (top & Htop & (meta & Hmeta & H)%bind_Ok)%bind_Ok.
  do 2 (case_match; [done|]). apply bind_Ok in H as (ps & _ & H).
  apply bind_Ok in H as (children & Hch & H).
  apply bind_Ok in H as (iinf & Hi & H). apply bind_Ok in H as (iloc & Hl & H).
  apply bind_Ok in H as (iref & Hr & H). apply bind_Ok in H as (pitm & Hp & H).
  apply bind_Ok in H as (primary & _ & H). do 2 (case_match; [done|]). injection H as <-. cbn.
  split_and!; [by eapply unique_required_in..|]. intros r ->. by eapply unique_optional_in.
Qed.

Lemma reference_targets_safe n body start w :
  (w = 2 ∨ w = 4) → 0 <= start → start + Z.of_nat n * w <= zlen body →
  safe (reference_targets n body start w).
Proof.
  intros Hw. revert start. induction n as [|n IH]; intros start Hs Hl; cbn [reference_targets]; [safe_tac|].
  apply safe_bind.
  { destruct (Z.eqb_spec w 2); [apply safe_u16_at; nia|]. apply safe_bind; [|safe_tac].
    apply safe_slice; nia. }
  intros id _. apply safe_bind; [|safe_tac]. apply IH; nia.
Qed.

Lemma reference_child_safe v body : bytes_ok body → safe (reference_child v body).
Proof.
  intros Hok. unfold reference_child. apply safe_bind.
  { destruct (v =? 0); [|destruct (v =? 1); [|safe_tac]].
    - destruct (Z.ltb_spec (zlen body) 4); safe_tac. apply safe_u16_at; lia.
    - destruct (Z.ltb_spec (zlen body) 6); safe_tac. }
  intros [[from cp] w] Hf.
  assert ((cp = 2 ∧ w = 2 ∨ cp = 4 ∧ w = 4) ∧ cp + 2 <= zlen body) as [Hcw Hle].
  { destruct (v =? 0); [|destruct (v =? 1); [|done]].
    - destruct (Z.ltb_spec (zlen body) 4); [done|]. apply bind_Ok in Hf as (? & _ & [= <- <- <-]). lia.
    - destruct (Z.ltb_spec (zlen body) 6); [done|]. apply bind_Ok in Hf as (? & _ & [= <- <- <-]). lia. }
  apply safe_bind; [apply safe_slice; lia|]. intros cb Hcb%slice_Ok.
  apply get_range_bytes_ok in Hcb as Hcok; [|done].
  pose proof (from_be_bytes_bound cb Hcok) as [Hcnt _].
  apply safe_bind; [safe_tac|]. intros el Hel%ok_or_Ok.
  destruct (Z.eqb_spec (zlen body) el) as [Heq|]; cbn [negb]; [|safe_tac].
  apply safe_bind; [|safe_tac].
  apply bind_Some in Hel as (len & [-> _]%checked_add_Some & (ids & [-> _]%checked_mul_Some & [-> _]%checked_add_Some)%bind_Some).
  apply reference_targets_safe; lia.
Qed.

Lemma item_reference_pairs_safe bytes iref ty :
  file_ok bytes → box_in bytes iref → safe (item_reference_pairs bytes iref ty).
Proof.
  intros Hfile []. unfold item_reference_pairs.
  apply safe_bind; [apply safe_slice; unfold body_start, box_end in *; lia|].
  intros body Hb%slice_Ok. destruct (file_ok_slice _ _ _ _ Hfile Hb) as [Hbok Hblen].
  destruct (Z.ltb_spec (zlen body) 4); [safe_tac|]. apply safe_bind; [safe_tac|]. intros v _.
  apply safe_bind; [apply scan_raw_boxes_safe; lia|]. intros children Hch.
  assert (∀ x, x ∈ children → 0 <= body_start x <= box_end x ∧ box_end x <= zlen body) as Hx.
  { intros x Hx. by eapply boxes_in_slice. }
  clear Hch. induction children as [|x children IH]; cbn [reference_children]; [safe_tac|].
  assert (safe (reference_children v body ty children)) as Hrec by (apply IH; intros y Hy; apply Hx; set_solver).
  destruct (negb _); [done|]. destruct (Hx x) as [? ?]; [set_solver|].
  apply safe_bind; [apply safe_slice; lia|]. intros cb Hcb%slice_Ok.
  apply safe_bind; [apply reference_child_safe; by eapply get_range_bytes_ok|].
  intros p _. apply safe_bind; [done|safe_tac].
Qed.

Lemma select_exif_item_id_safe bytes iref primary ids known :
  file_ok bytes → (∀ r, iref = Some r → box_in bytes r) →
  safe (select_exif_item_id bytes iref primary ids known).
Proof.
  intros Hf Hr. unfold select_exif_item_id. destruct ids as [|i ids]; [safe_tac|].
  destruct iref as [r|]; [|safe_tac]. apply safe_bind; [by apply item_reference_pairs_safe; auto|].
  intros pairs _. destruct (existsb _ pairs); [safe_tac|].
  destruct (describing _ _ _) as [|? [|]]; [|safe_tac..]. destruct (unattributed _ _) as [|? [|]]; safe_tac.
Qed.

Lemma select_xmp_item_id_safe bytes iref primary ids :
  file_ok bytes → (∀ r, iref = Some r → box_in bytes r) →
  safe (select_xmp_item_id bytes iref primary ids).
Proof.
  intros Hf Hr. unfold select_xmp_item_id. destruct ids as [|i ids]; [safe_tac|].
  destruct iref as [r|]; [|safe_tac]. apply safe_bind; [by apply item_reference_pairs_safe; auto|].
  intros pairs _.
  destruct (describing _ _ _) as [|? [|]]; [|safe_tac..]. destruct (unattributed _ _) as [|? [|]]; safe_tac.
Qed.

Lemma ensure_primary_only_safe bytes iref id primary :
  file_ok bytes → (∀ r, iref = Some r → box_in bytes r) →
  safe (ensure_metadata_item_is_primary_only bytes iref id primary).
Proof.
  intros Hf Hr. unfold ensure_metadata_item_is_primary_only. destruct iref as [r|]; [|safe_tac].
  apply safe_bind; [by apply item_reference_pairs_safe; auto|]. intros pairs _. safe_tac.
Qed.

Lemma resolve_item_extents_safe bytes item : safe (resolve_item_extents bytes item).
Proof.
  unfold resolve_item_extents. induction (extents item) as [|e es IH]; cbn [resolve_extents]; [safe_tac|].
  apply safe_bind; [unfold extent_range; safe_tac|]. intros [? ?] _. apply safe_bind; [safe_tac|].
  intros ? _. apply safe_bind; [done|safe_tac].
Qed.

Lemma opaque_meta_sub_boxes_safe bytes : zlen bytes <= ISIZE_MAX → safe (opaque_meta_sub_boxes bytes).
Proof.
  intros Hl. unfold opaque_meta_sub_boxes. apply safe_bind; [by apply find_meta_layout_safe|].
  intros ml Hml. apply safe_bind; [|safe_tac]. apply scan_raw_boxes_safe; [done|].
  revert Hml. unfold find_meta_layout. intros (top & Htop & (meta & Hmeta & H)%bind_Ok)%bind_Ok.
  destruct (unique_required_in _ _ _ _ _ _ _ _ Htop Hmeta).
  do 2 (case_match; [done|]). apply bind_Ok in H as (ps & Hps & H).
  assert (0 <= ps) by (repeat case_bool_decide; invert_ok; simplify_eq; lia).
  apply bind_Ok in H as (? & _ & H). do 5 (apply bind_Ok in H as (? & _ & H)).
  do 2 (case_match; [done|]). injection H as <-. cbn. unfold body_start. lia.
Qed.

Lemma compare_items_safe input rewritten its rs : safe (compare_items input rewritten its rs).
Proof.
  induction its as [|i its IH]; cbn [compare_items]; [safe_tac|].
  apply safe_bind; [safe_tac|]. intros ? _. apply safe_bind; [apply resolve_item_extents_safe|].
  intros ? _. apply safe_bind; [apply resolve_item_extents_safe|]. intros ? _. case_match; [safe_tac|done].
Qed.

(** ** Facts: the rewrite guard *)

Lemma combine_equal {A} `{EqDecision A} (l l' : list A) :
  zlen l = zlen l' → existsb (λ p, negb (bool_decide (p.1 = p.2))) (combine l l') = false → l = l'.
Proof.
  revert l'. induction l as [|x l IH]; intros [|y l'] Hlen; cbn in *; try done; try lia.
  intros [Hx Hl]%orb_false_iff. apply negb_false_iff, bool_decide_eq_true in Hx as ->.
  f_equal. apply IH; [lia|done].
Qed.

Lemma compare_items_Ok input rewritten its rs u :
  compare_items input rewritten its rs = Ok u →
  ∀ i, i ∈ its → ∃ r e, r ∈ rs ∧ item_id r = item_id i
    ∧ resolve_item_extents input i = Ok e ∧ resolve_item_extents rewritten r = Ok e.
Proof.
  induction its as [|i its IH]; cbn [compare_items]; [set_solver|].
  intros (r & Hr%ok_or_Ok & (e1 & H1 & (e2 & H2 & H)%bind_Ok)%bind_Ok)%bind_Ok.
  destruct (negb _ || _) eqn:E; [done|]. apply orb_false_iff in E as [E1 E2].
  apply negb_false_iff, Z.eqb_eq in E1. pose proof (combine_equal _ _ E1 E2) as ->.
  apply findb_Some in Hr as [Hr Hid%Z.eqb_eq].
  intros j [->|Hj]%elem_of_cons; [by exists r, e2|by apply IH].
Qed.

(** [item_extent_is_shared] answers [false] exactly when the extent is
    representable and disjoint from every extent of every other item stored
    in the file, all of which are representable too: an extent that is not
    shared can be overwritten without touching another item. *)
Lemma item_extent_is_shared_exact layout id start len :
  item_extent_is_shared layout id start len = false ↔
  start + len <= U64_MAX
  ∧ ∀ item extent, item ∈ items layout → item_id item ≠ id → construction_method item = 0 →
      extent ∈ extents item →
      let s := base_offset item + ie_offset extent in
      s <= U64_MAX ∧ s + ie_length extent <= U64_MAX
      ∧ (start + len <= s ∨ s + ie_length extent <= start).
Proof.
  unfold item_extent_is_shared, checked_add. destruct (Z.leb_spec (start + len) U64_MAX) as [Hle|];
    [|split; [done|lia]].
  rewrite <- not_true_iff_false, existsb_exists. split.
  - intros Hno. split; [done|]. intros item extent Hi Hne Hm He. set (s := base_offset item + ie_offset extent).
    destruct (Z.leb_spec s U64_MAX), (Z.leb_spec (s + ie_length extent) U64_MAX),
      (Z.ltb_spec s (start + len)), (Z.ltb_spec start (s + ie_length extent)); try lia;
    exfalso; apply Hno; exists item; (split; [by apply list_elem_of_In|]);
    rewrite (proj2 (Z.eqb_neq _ _) Hne), (proj2 (Z.eqb_eq _ _) Hm); cbn [negb andb];
    apply existsb_exists; exists extent; (split; [by apply list_elem_of_In|]); fold s;
    repeat case_match; zbool; simplify_eq; try lia; try done;
    apply andb_true_iff; rewrite !Z.ltb_lt; lia.
  - intros [_ Hall] (item & Hi & Hx). apply list_elem_of_In in Hi.
    apply andb_true_iff in Hx as [Hx Hx2]. apply andb_true_iff in Hx as [Hne%negb_true_iff%Z.eqb_neq Hm%Z.eqb_eq].
    apply existsb_exists in Hx2 as (e & He & Hx). apply list_elem_of_In in He.
    destruct (Hall item e Hi Hne Hm He) as (Hs & Hend & Hdis).
    rewrite (proj2 (Z.leb_le _ _) Hs), (proj2 (Z.leb_le _ _) Hend) in Hx. zbool. lia.
Qed.

(** ** Properties *)

(** C37: reading HEIF metadata never panics.  On every file, however
    malformed, the location of the [meta] box, the item tables, the choice of
    the Exif and XMP items and the two whole-file guards return a value or a
    layout error: no slice or index is ever out of range and every loop ends. *)
Theorem heif_metadata_never_panics bytes :
  file_ok bytes →
  safe (find_meta_layout bytes)
  ∧ (∀ ml, find_meta_layout bytes = Ok ml →
       safe (parse_iinf bytes (ml_iinf ml)) ∧ safe (parse_iloc bytes (ml_iloc ml))
       ∧ (∀ ids known, safe (select_exif_item_id bytes (ml_iref ml) (ml_primary ml) ids known))
       ∧ ∀ ids, safe (select_xmp_item_id bytes (ml_iref ml) (ml_primary ml) ids))
  ∧ safe (validate_capture_repair_item_ownership bytes)
  ∧ ∀ rewritten, file_ok rewritten → safe (validate_rewrite_preserves_non_xmp_items bytes rewritten).
Proof.
  intros Hf. pose proof Hf as [_ Hl].
  assert (∀ b ml, file_ok b → find_meta_layout b = Ok ml →
       safe (parse_iinf b (ml_iinf ml)) ∧ safe (parse_iloc b (ml_iloc ml))
       ∧ (∀ ids known, safe (select_exif_item_id b (ml_iref ml) (ml_primary ml) ids known))
       ∧ ∀ ids, safe (select_xmp_item_id b (ml_iref ml) (ml_primary ml) ids)) as Hparts.
  { intros b ml Hb (Hi & Hloc & Hr)%find_meta_layout_in. pose proof Hb as [_ ?].
    split_and!; [by apply parse_iinf_safe|by apply parse_iloc_safe
      |intros; by apply select_exif_item_id_safe|intros; by apply select_xmp_item_id_safe]. }
  split; [by apply find_meta_layout_safe|]. split; [by auto|]. split.
  - unfold validate_capture_repair_item_ownership. apply safe_bind; [by apply find_meta_layout_safe|].
    intros ml Hml. pose proof (find_meta_layout_in _ _ Hml) as (_ & _ & Hr).
    destruct (Hparts _ _ Hf Hml) as (Hi & _ & He & Hx).
    apply safe_bind; [done|]. intros l _. apply safe_bind; [done|]. intros exif _.
    apply safe_bind; [destruct exif; [by apply ensure_primary_only_safe|safe_tac]|]. intros _ _.
    apply safe_bind; [done|]. intros xmp _. destruct xmp; [by apply ensure_primary_only_safe|safe_tac].
  - intros rew Hrf. pose proof Hrf as [_ ?]. unfold validate_rewrite_preserves_non_xmp_items.
    apply safe_bind; [by apply find_meta_layout_safe|]. intros ml Hml.
    destruct (Hparts _ _ Hf Hml) as (Hi & Hlo & _ & Hx).
    do 3 (apply safe_bind; [done|intros ? _]).
    apply safe_bind; [by apply find_meta_layout_safe|]. intros rml Hrml.
    destruct (Hparts _ _ Hrf Hrml) as (Hri & Hrlo & _ & Hrx).
    do 3 (apply safe_bind; [done|intros ? _]). case_match; [safe_tac|].
    apply safe_bind; [apply compare_items_safe|]. intros _ _.
    apply safe_bind; [by apply opaque_meta_sub_boxes_safe|]. intros ? _.
    apply safe_bind; [by apply opaque_meta_sub_boxes_safe|]. intros ? _. safe_tac.
Qed.

Lemma heif_metadata_never_panics_witness : safe (find_meta_layout sample_boxes).
Proof.
  apply (heif_metadata_never_panics sample_boxes). split; [|vm_compute; discriminate].
  apply (bool_decide_unpack (Forall (λ b, 0 <= b < 256) sample_boxes)). vm_compute. exact I.
Defined.

(** ** The primary image's XMP packet *)

(** An item describes an image, or nothing at all. *)
Definition describes (pairs : list (Z * list Z)) (x image : Z) : Prop := ∃ targets, (x, targets) ∈ pairs ∧ image ∈ targets.
Definition unrelated (pairs : list (Z * list Z)) (x : Z) : Prop := ∀ targets, (x, targets) ∉ pairs.

(** The XMP item [x] is the primary image's packet: the only one that describes
    this image; or, when none does, the only one that describes nothing; or the
    only one, in a file without references. *)
Definition primary_xmp (bytes : list Z) (ml : MetaLayout) (l : IinfLayout) (x : Z) : Prop :=
  x ∈ xmp_item_ids l ∧
  match ml_iref ml with
  | None => xmp_item_ids l = [x]
  | Some iref => ∃ pairs, cdsc_pairs bytes iref = Ok pairs ∧
      ((describes pairs x (ml_primary ml) ∧ ∀ y, y ∈ xmp_item_ids l → describes pairs y (ml_primary ml) → y = x)
       ∨ ((∀ y, y ∈ xmp_item_ids l → ¬ describes pairs y (ml_primary ml)) ∧ unrelated pairs x
          ∧ ∀ y, y ∈ xmp_item_ids l → unrelated pairs y → y = x))
  end.

Lemma elem_of_describing pairs primary ids x : x ∈ describing pairs primary ids ↔ x ∈ ids ∧ describes pairs x primary.
Proof.
  unfold describing, describes, memb. rewrite !list_elem_of_In, filter_In, existsb_exists. split.
  - intros [Hi ([y ts] & Hin & [Hy%Z.eqb_eq Ht%bool_decide_eq_true]%andb_true_iff)].
    cbn in Hy, Ht. subst y. split; [done|]. exists ts. by rewrite list_elem_of_In.
  - intros [Hi (ts & Hin%list_elem_of_In & Ht)]. split; [done|]. exists (x, ts). cbn. by rewrite Z.eqb_refl, bool_decide_true.
Qed.
Lemma elem_of_unattributed pairs ids x : x ∈ unattributed pairs ids ↔ x ∈ ids ∧ unrelated pairs x.
Proof.
  unfold unattributed, unrelated. rewrite !list_elem_of_In, filter_In, negb_true_iff. split.
  - intros [Hi Hn]. split; [done|]. intros ts Hin%list_elem_of_In. assert (existsb (λ p, p.1 =? x) pairs = true); [|congruence].
    apply existsb_exists. exists (x, ts). by rewrite Z.eqb_refl.
  - intros [Hi Hn]. split; [done|]. apply not_true_iff_false. rewrite existsb_exists. intros ([y ts] & Hin%list_elem_of_In & Hy%Z.eqb_eq).
    cbn in Hy. subst y. by apply (Hn ts).
Qed.

(** What [select_xmp_item_id] answers is that packet. *)
Lemma select_xmp_item_id_spec bytes ml l o : select_xmp_item_id bytes (ml_iref ml) (ml_primary ml) (xmp_item_ids l) = Ok o →
  ∀ x, o = Some x ↔ primary_xmp bytes ml l x.
Proof.
  unfold select_xmp_item_id, primary_xmp. intros Hs x. destruct (xmp_item_ids l) as [|first rest] eqn:El.
  { injection Hs as <-. set_solver. }
  destruct (ml_iref ml) as [iref|].
  - apply bind_Ok in Hs as (pairs & Hp & Hs).
    pose proof (elem_of_describing pairs (ml_primary ml) (first :: rest)) as Hd.
    pose proof (elem_of_unattributed pairs (first :: rest)) as Hu. revert Hs Hd Hu.
    generalize (describing pairs (ml_primary ml) (first :: rest)) (unattributed pairs (first :: rest)). generalize (first :: rest).
    intros ids ds us Hs Hd Hu. setoid_rewrite Hp.
    assert (Hone : ∀ (y : Z), x = y ↔ x ∈ [y]) by set_solver.
    destruct ds as [|d [|]]; [destruct us as [|u [|]]| |done]; [injection Hs as <-|injection Hs as <-|done|injection Hs as <-].
    + split; [done|]. intros (Hi & pairs' & [= <-] & [[Hx _]|(_ & Hx & _)]); exfalso; set_solver.
    + split.
      * intros [= <-]. pose proof (proj1 (Hu u) ltac:(set_solver)) as [Hi Hx]. split; [done|]. exists pairs. split; [done|]. right.
        split; [set_solver|]. split; [done|]. set_solver.
      * intros (Hi & pairs' & [= <-] & [[Hx _]|(_ & Hx & _)]); [exfalso; set_solver|]. f_equal. set_solver.
    + split.
      * intros [= <-]. pose proof (proj1 (Hd d) ltac:(set_solver)) as [Hi Hx]. split; [done|]. exists pairs. split; [done|]. left.
        split; [done|]. set_solver.
      * intros (Hi & pairs' & [= <-] & [[Hx _]|(Hn & _)]); [f_equal; set_solver|]. exfalso. set_solver.
  - destruct rest; [|done]. injection Hs as <-. split; [intros [= <-]; set_solver|]. by intros [_ [= <-]].
Qed.

Lemma elem_of_preserved l o i : i ∈ preserved_items l o ↔ i ∈ items l ∧ construction_method i = 0 ∧ o <> Some (item_id i).
Proof.
  unfold preserved_items. rewrite !list_elem_of_In, filter_In, andb_true_iff, Z.eqb_eq, negb_true_iff, bool_decide_eq_false. naive_solver.
Qed.

(** C35: The rewrite guard is sound.  When it accepts a rewritten file, every
    item the input stores in the file, other than the XMP packet of its primary
    image, is still there with byte-identical payload, and none of them is the
    XMP packet of the rewritten file's primary image; no such item was added;
    and every [meta] child other than [iinf], [iloc] and [iref] is the same box
    with the same bytes.  The packet exempted is the XMP item that describes
    the primary image, or the only one that describes nothing: the image's own
    data and an auxiliary image's packet are not. *)
Theorem validate_rewrite_sound input rewritten u :
  validate_rewrite_preserves_non_xmp_items input rewritten = Ok u →
  ∃ iml ii il rml ri rl ix rx imeta rmeta,
    find_meta_layout input = Ok iml ∧ parse_iinf input (ml_iinf iml) = Ok ii ∧ parse_iloc input (ml_iloc iml) = Ok il
    ∧ find_meta_layout rewritten = Ok rml ∧ parse_iinf rewritten (ml_iinf rml) = Ok ri ∧ parse_iloc rewritten (ml_iloc rml) = Ok rl
    ∧ (∀ x, ix = Some x ↔ primary_xmp input iml ii x) ∧ (∀ x, rx = Some x ↔ primary_xmp rewritten rml ri x)
    ∧ zlen (preserved_items il ix) = zlen (preserved_items rl rx)
    ∧ (∀ i, i ∈ items il → construction_method i = 0 → ¬ primary_xmp input iml ii (item_id i) →
         ∃ r e, r ∈ items rl ∧ construction_method r = 0 ∧ ¬ primary_xmp rewritten rml ri (item_id r) ∧ item_id r = item_id i
         ∧ resolve_item_extents input i = Ok e ∧ resolve_item_extents rewritten r = Ok e)
    ∧ opaque_meta_sub_boxes input = Ok imeta ∧ opaque_meta_sub_boxes rewritten = Ok rmeta
    ∧ Forall2 (λ a b, a.1.1 = b.1.1
         ∧ get_range input a.1.2 a.2 = get_range rewritten b.1.2 b.2) imeta rmeta.
Proof.
  unfold validate_rewrite_preserves_non_xmp_items.
  intros (iml & Him & H)%bind_Ok. apply bind_Ok in H as (ii & Hii & H). apply bind_Ok in H as (il & Hil & H).
  apply bind_Ok in H as (ix & Hix & H). apply bind_Ok in H as (rml & Hrm & H).
  apply bind_Ok in H as (ri & Hri & H). apply bind_Ok in H as (rl & Hrl & H). apply bind_Ok in H as (rx & Hrx & H).
  destruct (negb _) eqn:E1; [done|]. apply negb_false_iff, Z.eqb_eq in E1.
  apply bind_Ok in H as (? & Hc & H). apply bind_Ok in H as (im & Himeta & H).
  apply bind_Ok in H as (rm & Hrmeta & H). destruct (negb (zlen im =? zlen rm)) eqn:E2; [done|].
  apply negb_false_iff, Z.eqb_eq in E2. destruct (existsb _ (combine im rm)) eqn:E3; [done|].
  pose proof (select_xmp_item_id_spec _ _ _ _ Hix) as Hixs. pose proof (select_xmp_item_id_spec _ _ _ _ Hrx) as Hrxs.
  exists iml, ii, il, rml, ri, rl, ix, rx, im, rm. split_and!; try done.
  - intros i Hi Hm Hn. destruct (compare_items_Ok _ _ _ _ _ Hc i) as (r & e & Hr & Hrest).
    { apply elem_of_preserved. by rewrite Hixs. }
    apply elem_of_preserved in Hr as (? & ? & Hnr). rewrite Hrxs in Hnr. by exists r, e.
  - clear -E2 E3. revert rm E2 E3. induction im as [|a im IH]; intros [|b rm]; cbn; try done; try lia.
    intros Hlen [Hx Hl]%orb_false_iff. apply orb_false_iff in Hx as [H1 H2].
    apply negb_false_iff, bool_decide_eq_true in H1, H2. constructor; [done|]. apply IH; [lia|done].
Qed.

(** ** A small HEIC file *)

Definition be2 (n : Z) : list Z := to_be_bytes 2 n.
Definition be4 (n : Z) : list Z := to_be_bytes 4 n.
Definition mk_box (k : string) (body : list Z) : list Z := be4 (zlen body + 8) ++ fourcc k ++ body.
Definition mk_infe (id : Z) (ty : string) : list Z :=
  mk_box "infe" ([2; 0; 0; 0] ++ be2 id ++ be2 0 ++ fourcc ty ++ [0]).
Definition mk_iloc_item (id offset len : Z) : list Z :=
  be2 id ++ be2 0 ++ be2 0 ++ be2 1 ++ be4 offset ++ be4 len.

Definition sample_meta (image_pos exif_pos exif_len : Z) : list Z :=
  mk_box "meta" ([0; 0; 0; 0]
    ++ mk_box "hdlr" (repeat 0 8 ++ fourcc "pict" ++ repeat 0 13)
    ++ mk_box "pitm" ([0; 0; 0; 0] ++ be2 1)
    ++ mk_box "iinf" ([0; 0; 0; 0] ++ be2 2 ++ mk_infe 1 "hvc1" ++ mk_infe 2 "Exif")
    ++ mk_box "iref" ([0; 0; 0; 0] ++ mk_box "cdsc" (be2 2 ++ be2 1 ++ be2 1))
    ++ mk_box "iloc" ([1; 0; 0; 0; 68; 0] ++ be2 2
         ++ mk_iloc_item 1 image_pos 4 ++ mk_iloc_item 2 exif_pos exif_len)).

(** An image of four bytes and an Exif item holding [tiff]. *)
Definition sample_heic (tiff : list Z) : list Z :=
  mk_box "ftyp" (fourcc "heic") ++ sample_meta 209 213 (4 + zlen tiff)
  ++ mk_box "mdat" ([1; 2; 3; 4] ++ be4 0 ++ tiff).

Example sample_heic_layout :
  (λ ml, (ml_primary ml, body_start (ml_iinf ml), ml_prefix_size ml)) <$> find_meta_layout (sample_heic [7; 8])
  = Ok (1, 79, 4).
Proof. vm_compute. reflexivity. Qed.

(** A rewrite that adds bytes after the items is accepted; the file has no XMP
    packet, so the image and the Exif item are where they were. *)
Lemma validate_rewrite_sound_witness :
  let input := sample_heic [7; 8] in
  let rewritten := sample_heic [7; 8] ++ mk_box "free" [0] in
  ∃ il rl, item_id <$> items il = [1; 2] ∧
    ∀ i, i ∈ items il → construction_method i = 0 → ∃ r e, r ∈ items rl ∧ item_id r = item_id i
         ∧ resolve_item_extents input i = Ok e ∧ resolve_item_extents rewritten r = Ok e.
Proof.
  intros input rewritten.
  destruct (validate_rewrite_sound input rewritten tt ltac:(vm_compute; reflexivity))
    as (iml & ii & il & rml & ri & rl & ix & rx & im & rm & Hm & Hi & Hl & _ & _ & _ & _ & _ & _ & Hall & _).
  vm_compute in Hm. injection Hm as <-. vm_compute in Hi. injection Hi as <-.
  exists il, rl. split; [vm_compute in Hl; injection Hl as <-; reflexivity|].
  intros i Hin Hc. destruct (Hall i Hin Hc) as (r & e & Hr & _ & _ & Hid & He & Hre).
  - intros [Hx _]. cbn in Hx. by apply elem_of_nil in Hx.
  - by exists r, e.
Defined.
