(* ===== verification/Tiff.v ===== *)
(** * TIFF: the Exif payload of [src/download/heif.rs]

    Image file directories and their entries, the ranges a capture-time
    repair must not touch, and the ASCII fields it replaces. *)
From S2P Require Import Prelude RustStr HeifBox HeifItems.

Inductive TiffEndian := Little | Big.

Record TiffEntry := { te_start : Z; te_tag : Z; te_type : Z; te_count : Z; te_value : Z }.

(** [Range<usize>]. *)
Abbreviation range := (Z * Z)%type.

Definition from_bytes (endian : TiffEndian) (bs : list Z) : Z :=
  match endian with Little => from_le_bytes bs | Big => from_be_bytes bs end.

Definition tiff_u16_at (bytes : list Z) (offset : Z) (endian : TiffEndian) : heif Z :=
  value ← ok_or (invalid_layout "TIFF field is truncated")
            (get_range bytes offset (saturating_add USIZE_MAX offset 2));
  Ok (from_bytes endian value).

Definition tiff_u32_at (bytes : list Z) (offset : Z) (endian : TiffEndian) : heif Z :=
  value ← ok_or (invalid_layout "TIFF field is truncated")
            (get_range bytes offset (saturating_add USIZE_MAX offset 4));
  Ok (from_bytes endian value).

(** One entry at [start]. *)
Definition read_tiff_entry (tiff : list Z) (start : Z) (endian : TiffEndian) : heif TiffEntry :=
  tag ← tiff_u16_at tiff start endian;
  field_type ← tiff_u16_at tiff (start + 2) endian;
  count ← tiff_u32_at tiff (start + 4) endian;
  value ← tiff_u32_at tiff (start + 8) endian;
  Ok {| te_start := start; te_tag := tag; te_type := field_type; te_count := count; te_value := value |}.

(** [for index in from..from + n]. *)
Fixpoint read_tiff_entries (n : nat) (from : Z) (tiff : list Z) (entries_start : Z) (endian : TiffEndian)
    : heif (list TiffEntry) :=
  match n with
  | O => Ok []
  | S n =>
      start ← ok_or (invalid_layout "TIFF entry offset overflows")
                (o ← checked_mul USIZE_MAX from 12; checked_add USIZE_MAX entries_start o);
      entry ← read_tiff_entry tiff start endian;
      rest ← read_tiff_entries n (from + 1) tiff entries_start endian;
      Ok (entry :: rest)
  end.

Definition read_tiff_ifd (tiff : list Z) (ifd_offset : Z) (endian : TiffEndian)
    : heif (range * list TiffEntry * option Z) :=
  count ← tiff_u16_at tiff ifd_offset endian;
  entries_start ← ok_or (invalid_layout "TIFF IFD offset overflows") (checked_add USIZE_MAX ifd_offset 2);
  next_ifd_pos ← ok_or (invalid_layout "TIFF IFD is truncated")
    (len ← checked_mul USIZE_MAX count 12;
     end_ ← checked_add USIZE_MAX entries_start len;
     if saturating_add USIZE_MAX end_ 4 <=? zlen tiff then Some end_ else None);
  structure_end ← ok_or (invalid_layout "TIFF IFD is truncated")
    (end_ ← checked_add USIZE_MAX next_ifd_pos 4;
     if end_ <=? zlen tiff then Some end_ else None);
  entries ← read_tiff_entries (Z.to_nat count) 0 tiff entries_start endian;
  next_ifd ← tiff_u32_at tiff next_ifd_pos endian;
  next_ifd ← ok_or (invalid_layout "TIFF next-IFD offset is too large") (try_from USIZE_MAX next_ifd);
  Ok ((ifd_offset, structure_end), entries, if next_ifd =? 0 then None else Some next_ifd).

Definition with_tag (tag : Z) (entries : list TiffEntry) : list TiffEntry :=
  List.filter (λ e, te_tag e =? tag) entries.

Definition find_tiff_entry_in (entries : list TiffEntry) (tag : Z) : heif (option TiffEntry) :=
  match with_tag tag entries with
  | [] => Ok None
  | [e] => Ok (Some e)
  | _ => Err (invalid_layout "TIFF contains duplicate metadata tags")
  end.

Definition find_tiff_entry (tiff : list Z) (ifd_offset tag : Z) (endian : TiffEndian)
    : heif (option TiffEntry) :=
  '(_, entries, _) ← read_tiff_ifd tiff ifd_offset endian;
  find_tiff_entry_in entries tag.

Definition type_width (field_type : Z) : option Z :=
  if memb field_type [1; 2; 6; 7] then Some 1
  else if memb field_type [3; 8] then Some 2
  else if memb field_type [4; 9; 11; 13] then Some 4
  else if memb field_type [5; 10; 12] then Some 8
  else None.

Definition tiff_entry_data_range (tiff : list Z) (entry : TiffEntry) : heif (option range) :=
  width ← ok_or (invalid_layout "TIFF entry has an unsupported field type") (type_width (te_type entry));
  len ← ok_or (invalid_layout "TIFF entry payload is too large")
          (c ← try_from USIZE_MAX (te_count entry); checked_mul USIZE_MAX c width);
  if len <=? 4 then Ok None
  else
    start ← ok_or (invalid_layout "TIFF entry payload offset is too large")
              (try_from USIZE_MAX (te_value entry));
    end_ ← ok_or (invalid_layout "TIFF entry payload is truncated")
             (e ← checked_add USIZE_MAX start len; if e <=? zlen tiff then Some e else None);
    Ok (Some (start, end_)).

Fixpoint read_values (n : nat) (from : Z) (tiff : list Z) (start width : Z) (endian : TiffEndian)
    : heif (list Z) :=
  match n with
  | O => Ok []
  | S n =>
      position ← ok_or (invalid_layout "TIFF image-data value offset overflows")
                   (o ← checked_mul USIZE_MAX from width; checked_add USIZE_MAX start o);
      v ← (if width =? 2 then tiff_u16_at tiff position endian
           else if width =? 4 then tiff_u32_at tiff position endian
           else Err (invalid_layout "TIFF image-data value width is unsupported"));
      rest ← read_values n (from + 1) tiff start width endian;
      Ok (v :: rest)
  end.

Definition tiff_unsigned_values (tiff : list Z) (entry : TiffEntry) (endian : TiffEndian)
    : heif (list Z) :=
  width ← (if te_type entry =? 3 then Ok 2 else if te_type entry =? 4 then Ok 4
           else Err (invalid_layout "TIFF image-data offset or length has an unsupported type"));
  count ← ok_or (invalid_layout "TIFF image-data value count is too large")
            (try_from USIZE_MAX (te_count entry));
  len ← ok_or (invalid_layout "TIFF image-data values are too large") (checked_mul USIZE_MAX count width);
  start ← (if len <=? 4
           then ok_or (invalid_layout "TIFF inline value offset overflows")
                  (checked_add USIZE_MAX (te_start entry) 8)
           else ok_or (invalid_layout "TIFF image-data value offset is too large")
                  (try_from USIZE_MAX (te_value entry)));
  ok_or (invalid_layout "TIFF image-data values are truncated")
    (e ← checked_add USIZE_MAX start len; if e <=? zlen tiff then Some e else None) ;;
  read_values (Z.to_nat count) 0 tiff start width endian.

Fixpoint data_ranges (tiff : list Z) (l : list (Z * Z)) : heif (list range) :=
  match l with
  | [] => Ok []
  | (offset, len) :: l =>
      if len =? 0 then data_ranges tiff l
      else
        start ← ok_or (invalid_layout "TIFF image-data offset is too large") (try_from USIZE_MAX offset);
        len ← ok_or (invalid_layout "TIFF image-data length is too large") (try_from USIZE_MAX len);
        end_ ← ok_or (invalid_layout "TIFF image-data range is truncated")
                 (e ← checked_add USIZE_MAX start len; if e <=? zlen tiff then Some e else None);
        rest ← data_ranges tiff l;
        Ok ((start, end_) :: rest)
  end.

Definition tiff_referenced_data_ranges (tiff : list Z) (entries : list TiffEntry) (endian : TiffEndian)
    (offset_tag length_tag : Z) : heif (list range) :=
  offset_entry ← find_tiff_entry_in entries offset_tag;
  length_entry ← find_tiff_entry_in entries length_tag;
  match offset_entry, length_entry with
  | Some offset_entry, Some length_entry =>
      offsets ← tiff_unsigned_values tiff offset_entry endian;
      lengths ← tiff_unsigned_values tiff length_entry endian;
      if negb (zlen offsets =? zlen lengths) then
        Err (invalid_layout "TIFF image-data offset and length counts differ")
      else data_ranges tiff (combine offsets lengths)
  | None, None => Ok []
  | _, _ => Err (invalid_layout "TIFF image-data offset and length tags are incomplete")
  end.

Definition ranges_overlap (left right : range) : bool := (left.1 <? right.2) && (right.1 <? left.2).

(** ** What a repair must not touch *)

(** [for _ in 0..entry.count]: push the offsets of a [SubIFDs] array. *)
Fixpoint push_sub_ifds (n : nat) (tiff : list Z) (position : Z) (endian : TiffEndian) (pending : list Z)
    : heif (list Z) :=
  match n with
  | O => Ok pending
  | S n =>
      v ← tiff_u32_at tiff position endian;
      offset ← ok_or (invalid_layout "TIFF SubIFD offset is too large") (try_from USIZE_MAX v);
      position ← ok_or (invalid_layout "TIFF SubIFD offset overflows") (checked_add USIZE_MAX position 4);
      push_sub_ifds n tiff position endian (offset :: pending)
  end.

(** The loop over the entries of one IFD. [pending] is the stack, its top
    first; [protected] the protected ranges. *)
Fixpoint scan_entries (tiff : list Z) (endian : TiffEndian) (target_entries : list Z)
    (entries : list TiffEntry) (pending : list Z) (protected : list range)
    : heif (list Z * list range) :=
  match entries with
  | [] => Ok (pending, protected)
  | entry :: entries =>
      let pending :=
        if memb (te_tag entry) [34665; 34853; 40965] && (te_type entry =? 4) && (te_count entry =? 1)
           && (te_value entry <=? USIZE_MAX)
        then te_value entry :: pending else pending in
      pending ←
        (if (te_tag entry =? 330) && (te_type entry =? 4) then
           if te_count entry =? 1 then
             Ok (if te_value entry <=? USIZE_MAX then te_value entry :: pending else pending)
           else
             data ← tiff_entry_data_range tiff entry;
             match data with
             | Some (start, _) => push_sub_ifds (Z.to_nat (te_count entry)) tiff start endian pending
             | None => Ok pending
             end
         else Ok pending);
      protected ←
        (if memb (te_start entry) target_entries then Ok protected
         else
           data ← tiff_entry_data_range tiff entry;
           Ok (protected ++ option_list data));
      scan_entries tiff endian target_entries entries pending protected
  end.

(** [while let Some(ifd) = pending.pop() { if !visited.insert(ifd) { continue } .. }]. *)
Fixpoint next_unvisited (pending visited : list Z) : option (Z * list Z) :=
  match pending with
  | [] => None
  | ifd :: pending => if memb ifd visited then next_unvisited pending visited else Some (ifd, pending)
  end.

Definition image_data_tags : list (Z * Z) := [(273, 279); (324, 325); (513, 514)].

Fixpoint referenced_ranges (tiff : list Z) (entries : list TiffEntry) (endian : TiffEndian)
    (tags : list (Z * Z)) : heif (list range) :=
  match tags with
  | [] => Ok []
  | (offset_tag, length_tag) :: tags =>
      rs ← tiff_referenced_data_ranges tiff entries endian offset_tag length_tag;
      rest ← referenced_ranges tiff entries endian tags;
      Ok (rs ++ rest)
  end.

(** The loop over linked IFDs, of which at most [budget] more may be visited. *)
Fixpoint scan_ifds (budget : nat) (tiff : list Z) (endian : TiffEndian) (target_entries : list Z)
    (pending visited : list Z) (protected : list range) : heif (list range) :=
  match next_unvisited pending visited with
  | None => Ok protected
  | Some (ifd_offset, pending) =>
      match budget with
      | O => Err (invalid_layout "TIFF contains too many linked IFDs")
      | S budget =>
          '(structure, entries, next_ifd) ← read_tiff_ifd tiff ifd_offset endian;
          data ← referenced_ranges tiff entries endian image_data_tags;
          let protected := protected ++ structure :: data in
          let pending := match next_ifd with Some n => n :: pending | None => pending end in
          '(pending, protected) ← scan_entries tiff endian target_entries entries pending protected;
          scan_ifds budget tiff endian target_entries pending (ifd_offset :: visited) protected
      end
  end.

Fixpoint targets_overlap (targets : list range) : bool :=
  match targets with
  | [] => false
  | target :: others => existsb (ranges_overlap target) others || targets_overlap others
  end.

Definition validate_tiff_patch_ranges (tiff : list Z) (endian : TiffEndian) (ifd0_offset : Z)
    (targets : list (TiffEntry * range)) : heif unit :=
  if targets_overlap (map snd targets) then
    Err (invalid_layout "HEIF Exif datetime fields overlap")
  else
    protected ← scan_ifds 64 tiff endian (map (λ t, te_start t.1) targets) [ifd0_offset] [] [(0, 8)];
    if existsb (λ target, existsb (ranges_overlap target.2) protected) targets then
      Err (invalid_layout "HEIF Exif datetime storage overlaps other TIFF data")
    else Ok tt.

(** ** ASCII fields *)

Definition tiff_ascii_range (tiff : list Z) (entry : TiffEntry) : heif range :=
  if negb (te_type entry =? 2) || (te_count entry =? 0) then
    Err (invalid_layout "HEIF Exif datetime tag is not a non-empty ASCII value")
  else
    len ← ok_or (invalid_layout "HEIF Exif datetime tag is too large") (try_from USIZE_MAX (te_count entry));
    start ← (if len <=? 4
             then ok_or (invalid_layout "TIFF inline value offset overflows")
                    (checked_add USIZE_MAX (te_start entry) 8)
             else ok_or (invalid_layout "TIFF value offset is too large")
                    (try_from USIZE_MAX (te_value entry)));
    end_ ← ok_or (invalid_layout "HEIF Exif datetime value is truncated")
             (e ← checked_add USIZE_MAX start len; if e <=? zlen tiff then Some e else None);
    Ok (start, end_).

(** Byte order, IFD0 offset and Exif IFD offset. *)
Definition tiff_capture_ifd_offsets (tiff : list Z) : heif (TiffEndian * Z * option Z) :=
  endian ←
    (if bool_decide (get_range tiff 0 2 = Some (fourcc "II")) then Ok Little
     else if bool_decide (get_range tiff 0 2 = Some (fourcc "MM")) then Ok Big
     else Err (invalid_layout "HEIF Exif TIFF byte order is invalid"));
  magic ← tiff_u16_at tiff 2 endian;
  if negb (magic =? 42) then Err (invalid_layout "HEIF Exif TIFF header is invalid")
  else
    v ← tiff_u32_at tiff 4 endian;
    ifd0_offset ← ok_or (invalid_layout "HEIF Exif IFD0 offset is too large") (try_from USIZE_MAX v);
    pointer ← find_tiff_entry tiff ifd0_offset 34665 endian;
    match pointer with
    | None => Ok (endian, ifd0_offset, None)
    | Some exif_pointer =>
        if negb (te_type exif_pointer =? 4) || negb (te_count exif_pointer =? 1) then
          Err (invalid_layout "HEIF Exif IFD pointer is invalid")
        else
          exif_ifd_offset ← ok_or (invalid_layout "HEIF Exif IFD offset is too large")
                              (try_from USIZE_MAX (te_value exif_pointer));
          Ok (endian, ifd0_offset, Some exif_ifd_offset)
    end.

Definition tiff_ascii_value (tiff : list Z) (entry : TiffEntry) : heif str :=
  '(start, end_) ← tiff_ascii_range tiff entry;
  value ← ok_or (invalid_layout "HEIF Exif datetime value is truncated") (get_range tiff start end_);
  text ← ok_or (invalid_layout "HEIF Exif datetime value is not UTF-8") (from_utf8 value);
  Ok (trim (trim_matches (λ c, c =? 0) text)).

Definition replace_tiff_ascii (tiff : list Z) (r : range) (value : str) : heif (list Z) :=
  if negb (is_ascii value) || memb 0 (as_bytes value) || (Z.max 0 (r.2 - r.1) <? str_len value + 1) then
    Err (invalid_layout "replacement HEIF Exif datetime does not fit its existing field")
  else
    target ← ok_or (invalid_layout "HEIF Exif datetime value is truncated") (get_range tiff r.1 r.2);
    target ← ok_or (invalid_layout "HEIF Exif datetime value is truncated")
               (put_range (repeat 0 (length target)) 0 (as_bytes value));
    ok_or (invalid_layout "HEIF Exif datetime value is truncated") (put_range tiff r.1 target).

(** ** Facts: every operation returns *)


Lemma tiff_u16_at_safe bytes o e : safe (tiff_u16_at bytes o e).
Proof. unfold tiff_u16_at. safe_tac. Qed.
Lemma tiff_u32_at_safe bytes o e : safe (tiff_u32_at bytes o e).
Proof. unfold tiff_u32_at. safe_tac. Qed.
#[export] Hint Resolve tiff_u16_at_safe tiff_u32_at_safe : kei.

Lemma read_tiff_entries_safe n from tiff start e : safe (read_tiff_entries n from tiff start e).
Proof. revert from. induction n as [|n IH]; intros from; cbn [read_tiff_entries]; safe_tac.
  unfold read_tiff_entry. safe_tac; auto with kei.
Qed.

Lemma read_tiff_ifd_safe tiff o e : safe (read_tiff_ifd tiff o e).
Proof. unfold read_tiff_ifd. safe_tac; auto using read_tiff_entries_safe with kei. Qed.

Lemma find_tiff_entry_in_safe es tag : safe (find_tiff_entry_in es tag).
Proof. unfold find_tiff_entry_in. safe_tac. Qed.
#[export] Hint Resolve read_tiff_ifd_safe find_tiff_entry_in_safe : kei.

Lemma find_tiff_entry_safe tiff o tag e : safe (find_tiff_entry tiff o tag e).
Proof.
  unfold find_tiff_entry. apply safe_bind; [auto with kei|]. intros [[? ?] ?] _. auto with kei.
Qed.

Lemma tiff_entry_data_range_safe tiff entry : safe (tiff_entry_data_range tiff entry).
Proof. unfold tiff_entry_data_range. safe_tac. Qed.

Lemma tiff_unsigned_values_safe tiff entry e : safe (tiff_unsigned_values tiff entry e).
Proof.
  unfold tiff_unsigned_values. safe_tac.
  all: match goal with |- safe (read_values ?n ?from _ ?s _ _) => generalize n, from end;
    intros n; induction n as [|n IH]; intros from; cbn [read_values]; safe_tac; auto with kei.
Qed.
#[export] Hint Resolve find_tiff_entry_safe tiff_entry_data_range_safe tiff_unsigned_values_safe : kei.

Lemma data_ranges_safe tiff l : safe (data_ranges tiff l).
Proof. induction l as [|[o n] l IH]; cbn [data_ranges]; safe_tac. Qed.

Lemma referenced_ranges_safe tiff es e tags : safe (referenced_ranges tiff es e tags).
Proof.
  induction tags as [|[o n] tags IH]; cbn [referenced_ranges]; safe_tac.
  unfold tiff_referenced_data_ranges. safe_tac; auto using data_ranges_safe with kei.
Qed.

Lemma push_sub_ifds_safe n tiff pos e pending : safe (push_sub_ifds n tiff pos e pending).
Proof. revert pos pending. induction n as [|n IH]; intros; cbn [push_sub_ifds]; safe_tac; auto with kei. Qed.

Lemma scan_entries_safe tiff e ts es pending protected : safe (scan_entries tiff e ts es pending protected).
Proof.
  revert pending protected.
  induction es as [|x es IH]; intros pending protected; cbn [scan_entries]; safe_tac;
    auto using push_sub_ifds_safe with kei.
Qed.

Lemma scan_ifds_safe budget tiff e ts pending visited protected :
  safe (scan_ifds budget tiff e ts pending visited protected).
Proof.
  revert pending visited protected.
  induction budget as [|b IH]; intros; cbn [scan_ifds]; safe_tac;
    auto using referenced_ranges_safe, scan_entries_safe with kei.
Qed.

Lemma validate_tiff_patch_ranges_safe tiff e o ts : safe (validate_tiff_patch_ranges tiff e o ts).
Proof. unfold validate_tiff_patch_ranges. safe_tac. apply scan_ifds_safe. Qed.
Lemma tiff_ascii_range_safe tiff entry : safe (tiff_ascii_range tiff entry).
Proof. unfold tiff_ascii_range. safe_tac. Qed.
Lemma tiff_capture_ifd_offsets_safe tiff : safe (tiff_capture_ifd_offsets tiff).
Proof. unfold tiff_capture_ifd_offsets. safe_tac; auto with kei. Qed.
Lemma tiff_ascii_value_safe tiff entry : safe (tiff_ascii_value tiff entry).
Proof. unfold tiff_ascii_value. safe_tac. apply tiff_ascii_range_safe. Qed.
Lemma replace_tiff_ascii_safe tiff r v : safe (replace_tiff_ascii tiff r v).
Proof. unfold replace_tiff_ascii. safe_tac. Qed.

(** ** Facts: which bytes a directory is read from *)

Lemma tiff_u16_at_Ok tiff o e v : tiff_u16_at tiff o e = Ok v → 0 <= o ∧ saturating_add USIZE_MAX o 2 <= zlen tiff.
Proof. unfold tiff_u16_at. intros (f & Hf%ok_or_Ok & _)%bind_Ok. apply get_range_Some in Hf. lia. Qed.

Lemma tiff_u16_at_agree a b tiff tiff' o e :
  agree a b tiff tiff' → a <= o → o + 2 <= b → tiff_u16_at tiff o e = tiff_u16_at tiff' o e.
Proof.
  intros Hag Ha Hb. unfold tiff_u16_at. erewrite agree_get_range; [done..|]. unfold saturating_add. lia.
Qed.

Lemma tiff_u32_at_agree a b tiff tiff' o e :
  agree a b tiff tiff' → a <= o → o + 4 <= b → tiff_u32_at tiff o e = tiff_u32_at tiff' o e.
Proof.
  intros Hag Ha Hb. unfold tiff_u32_at. erewrite agree_get_range; [done..|]. unfold saturating_add. lia.
Qed.

Lemma read_tiff_entries_agree a b tiff tiff' n from s e :
  agree a b tiff tiff' → 0 <= from → a <= s → s + 12 * (from + Z.of_nat n) <= b →
  read_tiff_entries n from tiff s e = read_tiff_entries n from tiff' s e.
Proof.
  intros Hag. revert from. induction n as [|n IH]; intros from H0 Ha Hb; [done|]. cbn [read_tiff_entries].
  destruct (o ← checked_mul USIZE_MAX from 12; checked_add USIZE_MAX s o) as [st|] eqn:Hst; [|done].
  apply bind_Some in Hst as (o & [-> _]%checked_mul_Some & [-> _]%checked_add_Some).
  cbn [ok_or mbind result_bind]. unfold read_tiff_entry.
  rewrite !(tiff_u16_at_agree a b tiff tiff'), !(tiff_u32_at_agree a b tiff tiff') by (done || lia).
  by rewrite IH by lia.
Qed.

Lemma from_bytes_nonneg e bs : bytes_ok bs → 0 <= from_bytes e bs.
Proof.
  intros Hb. destruct e; [change (0 <= from_be_bytes (rev bs)); apply List.Forall_rev in Hb|];
    by apply from_be_bytes_bound.
Qed.

(** A directory is read from its structure range alone. *)
Lemma read_tiff_ifd_agree tiff tiff' o e r es n :
  bytes_ok tiff → read_tiff_ifd tiff o e = Ok (r, es, n) → agree r.1 r.2 tiff tiff' →
  read_tiff_ifd tiff' o e = Ok (r, es, n).
Proof.
  intros Hok H Hag. rewrite <- H. symmetry. revert H. unfold read_tiff_ifd.
  intros (c & Hc & (s & Hs & (p & Hp & (se & Hse & (es' & _ & (nx & _ & (nx' & _ & [= <- _ _])%bind_Ok)%bind_Ok)%bind_Ok)%bind_Ok)%bind_Ok)%bind_Ok)%bind_Ok.
  cbn in Hag. pose proof Hc as (f & Hf%ok_or_Ok & [= Hcv])%bind_Ok.
  assert (0 <= c) as Hc0 by (rewrite <- Hcv; eapply from_bytes_nonneg, get_range_bytes_ok; [exact Hok|exact Hf]).
  pose proof (proj1 (ok_or_Ok _ _ _) Hs) as [-> _]%checked_add_Some.
  pose proof (proj1 (ok_or_Ok _ _ _) Hp) as (l & [-> _]%checked_mul_Some & (en & [-> _]%checked_add_Some & Hif)%bind_Some)%bind_Some.
  destruct (_ <=? _) in Hif; [|done]. injection Hif as <-.
  pose proof (proj1 (ok_or_Ok _ _ _) Hse) as (e' & [-> _]%checked_add_Some & Hif)%bind_Some.
  destruct (_ <=? _) in Hif; [|done]. injection Hif as <-.
  rewrite <- (tiff_u16_at_agree _ _ _ _ o e Hag) by lia. rewrite Hc. cbn [mbind result_bind].
  rewrite Hs. cbn [mbind result_bind]. pose proof (agree_length _ _ _ _ Hag) as Hlen. rewrite <- Hlen.
  rewrite Hp. cbn [mbind result_bind]. rewrite Hse. cbn [mbind result_bind].
  rewrite (read_tiff_entries_agree _ _ _ _ (Z.to_nat c) 0 (o + 2) e Hag) by lia.
  by rewrite (tiff_u32_at_agree _ _ _ _ (o + 2 + c * 12) e Hag) by lia.
Qed.

Lemma find_tiff_entry_agree tiff tiff' o tag e r es n :
  bytes_ok tiff → read_tiff_ifd tiff o e = Ok (r, es, n) → agree r.1 r.2 tiff tiff' →
  find_tiff_entry tiff' o tag e = find_tiff_entry tiff o tag e.
Proof.
  intros Hok H Hag. unfold find_tiff_entry. by rewrite H, (read_tiff_ifd_agree _ _ _ _ _ _ _ Hok H Hag).
Qed.

(** The header and the primary directory determine the byte order and the
    positions of both directories. *)
Lemma tiff_capture_ifd_offsets_agree tiff tiff' e o x r es n :
  bytes_ok tiff → tiff_capture_ifd_offsets tiff = Ok (e, o, x) → read_tiff_ifd tiff o e = Ok (r, es, n) →
  agree 0 8 tiff tiff' → agree r.1 r.2 tiff tiff' →
  tiff_capture_ifd_offsets tiff' = Ok (e, o, x).
Proof.
  intros Hok H Hr Hh Hag. rewrite <- H. symmetry. revert H. unfold tiff_capture_ifd_offsets.
  rewrite <- (agree_get_range 0 8 0 2 tiff tiff') by (done || lia).
  intros (en & Hen & (m & Hm & H)%bind_Ok)%bind_Ok. rewrite Hen. cbn [mbind result_bind].
  rewrite <- !(tiff_u16_at_agree 0 8 tiff tiff' _ _ Hh) by lia.
  rewrite <- !(tiff_u32_at_agree 0 8 tiff tiff' _ _ Hh) by lia.
  rewrite Hm. cbn [mbind result_bind]. destruct (negb (m =? 42)); [done|].
  apply bind_Ok in H as (v & Hv & (o' & Ho & (p & Hp & H)%bind_Ok)%bind_Ok).
  rewrite Hv. cbn [mbind result_bind]. rewrite Ho. cbn [mbind result_bind].
  assert (en = e ∧ o' = o) as [-> ->].
  { destruct p; [|by injection H]. destruct (_ || _); [done|]. apply bind_Ok in H as (? & _ & [= -> -> _]). done. }
  by rewrite (find_tiff_entry_agree _ _ _ _ _ _ _ _ Hok Hr Hag).
Qed.

Lemma tiff_ascii_range_length tiff tiff' entry :
  length tiff = length tiff' → tiff_ascii_range tiff entry = tiff_ascii_range tiff' entry.
Proof. intros Hl. unfold tiff_ascii_range. by rewrite Hl. Qed.

Lemma tiff_ascii_range_Ok tiff entry r :
  tiff_ascii_range tiff entry = Ok r → 0 <= r.2 - r.1 → 0 <= r.1 → r.1 <= r.2 <= zlen tiff.
Proof.
  unfold tiff_ascii_range. destruct (_ || _); [done|].
  intros (l & _ & (s & _ & (e & He%ok_or_Ok & [= <-])%bind_Ok)%bind_Ok)%bind_Ok. cbn.
  apply bind_Some in He as (e' & _ & Hif). destruct (Z.leb_spec e' (zlen tiff)); [|done]. injection Hif as <-. lia.
Qed.

(** ** Facts: the repair guard *)

(** The directory at [o] reads, and its structure is protected. *)
Definition covered (tiff : list Z) (e : TiffEndian) (protected : list range) (o : Z) : Prop :=
  ∃ r es n, read_tiff_ifd tiff o e = Ok (r, es, n) ∧ r ∈ protected.

Lemma covered_mono tiff e p q o : covered tiff e p o → p ⊆ q → covered tiff e q o.
Proof. intros (r & es & n & H & Hr) Hs. exists r, es, n. auto. Qed.

Lemma push_sub_ifds_sub n tiff pos e pending out :
  push_sub_ifds n tiff pos e pending = Ok out → pending ⊆ out.
Proof.
  revert pos pending. induction n as [|n IH]; intros pos pending; cbn [push_sub_ifds]; [by intros [= <-]|].
  intros (v & _ & (o & _ & (p & _ & H)%bind_Ok)%bind_Ok)%bind_Ok. apply IH in H. set_solver.
Qed.

Definition exif_pointer_entry (x : TiffEntry) : Prop :=
  te_tag x = 34665 ∧ te_type x = 4 ∧ te_count x = 1 ∧ te_value x <= USIZE_MAX.

Lemma scan_entries_sub tiff e ts es pending protected pending' protected' :
  scan_entries tiff e ts es pending protected = Ok (pending', protected') →
  pending ⊆ pending' ∧ protected ⊆ protected'
  ∧ ∀ x, x ∈ es → exif_pointer_entry x → te_value x ∈ pending'.
Proof.
  revert pending protected. induction es as [|x es IH]; intros pending protected; cbn [scan_entries].
  { intros [= <- <-]. set_solver. }
  match goal with |- context [if ?c then te_value x :: pending else pending] =>
    set (cond := c); set (p1 := if cond then te_value x :: pending else pending) end.
  assert (pending ⊆ p1) as H1 by (subst p1; destruct cond; set_solver).
  intros (p2 & Hp2 & (pr2 & Hpr2 & H)%bind_Ok)%bind_Ok. apply IH in H as (Hp & Hpr & Hx).
  assert (p1 ⊆ p2) as H2.
  { destruct (_ && _) in Hp2; [|by injection Hp2 as <-].
    destruct (te_count x =? 1); [injection Hp2 as <-; destruct (_ <=? _); set_solver|].
    apply bind_Ok in Hp2 as ([[st en]|] & _ & Hp2); [by eapply push_sub_ifds_sub|by injection Hp2 as <-]. }
  assert (protected ⊆ pr2) as H3.
  { destruct (memb _ _) in Hpr2; [by injection Hpr2 as <-|].
    apply bind_Ok in Hpr2 as (d & _ & [= <-]). set_solver. }
  split_and!; [set_solver..|]. intros y [->|Hy]%elem_of_cons Hptr; [|by apply Hx].
  apply Hp, H2. subst p1. destruct Hptr as (Ht & Hty & Hc & Hv).
  assert (cond = true) as ->; [|set_solver]. subst cond. rewrite Ht, Hty, Hc. cbn.
  by apply Z.leb_le.
Qed.

Lemma next_unvisited_None pending visited : next_unvisited pending visited = None → pending ⊆ visited.
Proof.
  induction pending as [|x p IH]; cbn; [set_solver|]. destruct (memb x visited) eqn:E; [|done].
  apply memb_true in E. intros H%IH. set_solver.
Qed.

Lemma next_unvisited_Some pending visited x rest :
  next_unvisited pending visited = Some (x, rest) → ∀ y, y ∈ pending → y ∈ visited ∨ y = x ∨ y ∈ rest.
Proof.
  induction pending as [|z p IH]; cbn; [done|]. destruct (memb z visited) eqn:E.
  - apply memb_true in E. intros H y [->|Hy]%elem_of_cons; [by left|by apply IH].
  - intros [= -> ->]. set_solver.
Qed.

(** One visit of the loop. *)
Lemma scan_ifds_step budget tiff e ts pending visited protected out :
  scan_ifds budget tiff e ts pending visited protected = Ok out →
  (pending ⊆ visited ∧ out = protected) ∨
  ∃ budget' o rest r es n pending' protected',
    next_unvisited pending visited = Some (o, rest) ∧ read_tiff_ifd tiff o e = Ok (r, es, n)
    ∧ rest ⊆ pending' ∧ r ∈ protected' ∧ protected ⊆ protected'
    ∧ (∀ x, x ∈ es → exif_pointer_entry x → te_value x ∈ pending')
    ∧ budget = S budget'
    ∧ scan_ifds budget' tiff e ts pending' (o :: visited) protected' = Ok out.
Proof.
  destruct budget as [|b]; cbn [scan_ifds]; destruct (next_unvisited pending visited) as [[o rest]|] eqn:Hn;
    try (intros [= <-]; left; split; [by apply next_unvisited_None|done]); [done|].
  intros ([[r es] n] & Hr & (d & _ & ([p' pr'] & Hs & H)%bind_Ok)%bind_Ok)%bind_Ok. right.
  apply scan_entries_sub in Hs as (Hp & Hpr & Hx).
  exists b, o, rest, r, es, n, p', pr'. split_and!; try done; [|set_solver..].
  etrans; [|exact Hp]. destruct n; set_solver.
Qed.

Lemma scan_ifds_covers budget tiff e ts pending visited protected out :
  scan_ifds budget tiff e ts pending visited protected = Ok out →
  (∀ o, o ∈ visited → covered tiff e protected o) →
  protected ⊆ out ∧ ∀ o, o ∈ pending → covered tiff e out o.
Proof.
  revert pending visited protected. induction budget as [|b IH]; intros pending visited protected H Hv;
    apply scan_ifds_step in H as [[Hs ->]|(b' & o & rest & r & es & n & p' & pr' & Hn & Hr & Hre & Hin & Hpr & _ & [= <-] & H)];
    try (split; [done|]; auto); try done.
  apply IH in H as [Hout Hc].
  - split; [set_solver|]. intros y Hy. destruct (next_unvisited_Some _ _ _ _ Hn y Hy) as [Hyv|[->|Hyr]].
    + eapply covered_mono; [by apply Hv|]. set_solver.
    + exists r, es, n. split; [done|set_solver].
    + apply Hc. set_solver.
  - intros y [->|Hy]%elem_of_cons; [by exists r, es, n|]. by eapply covered_mono; [apply Hv|].
Qed.

Lemma find_tiff_entry_in_Some es tag x : find_tiff_entry_in es tag = Ok (Some x) → x ∈ es ∧ te_tag x = tag.
Proof.
  unfold find_tiff_entry_in. intros H.
  assert (x ∈ with_tag tag es) as Hx.
  { destruct (with_tag tag es) as [|y [|z l]]; [done|injection H as ->; set_solver|done]. }
  apply list_elem_of_In, filter_In in Hx as [Hx%list_elem_of_In Ht%Z.eqb_eq]. done.
Qed.

(** An accepted repair keeps clear of the header and of both directories. *)
Lemma validate_tiff_patch_ranges_Ok tiff e o xo targets u :
  tiff_capture_ifd_offsets tiff = Ok (e, o, Some xo) →
  validate_tiff_patch_ranges tiff e o targets = Ok u →
  targets_overlap (map snd targets) = false
  ∧ ∃ r es n xr xes xn,
      read_tiff_ifd tiff o e = Ok (r, es, n) ∧ read_tiff_ifd tiff xo e = Ok (xr, xes, xn)
      ∧ ∀ t, t ∈ targets → ∀ p, p ∈ [(0, 8); r; xr] → ranges_overlap t.2 p = false.
Proof.
  intros Hcap. unfold validate_tiff_patch_ranges. destruct (targets_overlap _) eqn:Hov; [done|].
  intros (prot & Hscan & H)%bind_Ok. split; [done|].
  destruct (existsb _ targets) eqn:Hex in H; [done|]. clear H.
  apply scan_ifds_step in Hscan as [[Hs _]|(b' & o' & rest & r & es & n & p' & pr' & Hn & Hr & _ & Hin & Hpr & Hptr & _ & Hscan)];
    [set_solver|].
  cbn in Hn. injection Hn as <- <-.
  apply scan_ifds_covers in Hscan as [Hout Hcov].
  2: { intros y [->|[]%not_elem_of_nil]%elem_of_cons. by exists r, es, n. }
  assert (xo ∈ p') as Hxo.
  { unfold tiff_capture_ifd_offsets in Hcap.
    apply bind_Ok in Hcap as (en & _ & (m & _ & H)%bind_Ok). destruct (negb (m =? 42)); [done|].
    apply bind_Ok in H as (v & _ & (o' & _ & (ptr & Hp & H)%bind_Ok)%bind_Ok).
    destruct ptr as [ptr|]; [|done]. destruct (_ || _) eqn:Hty; [done|].
    apply bind_Ok in H as (x & Hx%ok_or_Ok & [= -> -> ->]). apply try_from_Some in Hx as [-> Hle].
    unfold find_tiff_entry in Hp. rewrite Hr in Hp. cbn [mbind result_bind] in Hp.
    apply find_tiff_entry_in_Some in Hp as [Hpe Htag]. zbool. apply Hptr; [done|]. by split_and!. }
  destruct (Hcov xo Hxo) as (xr & xes & xn & Hxr & Hxin).
  exists r, es, n, xr, xes, xn. split_and!; [done..|].
  intros t Ht p Hp. destruct (ranges_overlap t.2 p) eqn:E; [|done].
  rewrite <- Hex. symmetry. apply existsb_exists. exists t. split; [by apply list_elem_of_In|].
  apply existsb_exists. exists p. split; [|done]. apply list_elem_of_In. set_solver.
Qed.

(** ** Facts: replaced fields *)

Lemma as_bytes_ascii v : is_ascii v = true → as_bytes v = v.
Proof.
  induction v as [|c v IH]; [done|]. unfold is_ascii. cbn. intros [Hc Hv]%andb_true_iff.
  unfold as_bytes. cbn. unfold utf8_encode_char. unfold is_ascii_char in Hc. rewrite Hc. cbn. f_equal. by apply IH.
Qed.

Lemma from_utf8_ascii v : is_ascii v = true → from_utf8 v = Some v.
Proof.
  induction v as [|c v IH]; [done|]. unfold is_ascii. cbn. intros [Hc Hv]%andb_true_iff.
  unfold is_ascii_char in Hc. rewrite Hc. rewrite IH by done. done.
Qed.

Lemma trim_start_app p a s : Forall (λ c, p c = true) a → trim_start_matches p (a ++ s) = trim_start_matches p s.
Proof. induction 1 as [|c a Hc _ IH]; [done|]. cbn. by rewrite Hc. Qed.

Lemma trim_start_none p s : Forall (λ c, p c = false) s → trim_start_matches p s = s.
Proof. destruct 1 as [|c s Hc _]; [done|]. cbn. by rewrite Hc. Qed.

Lemma trim_padding v n : 0 ∉ v → trim_matches (λ c, c =? 0) (v ++ repeat 0 n) = v.
Proof.
  intros Hv. unfold trim_matches.
  assert (Forall (λ c, (c =? 0) = false) v) as Hf.
  { apply Forall_forall. intros c Hc. apply Z.eqb_neq. by intros ->. }
  assert (Forall (λ c, (c =? 0) = true) (repeat 0 n)) as Hz.
  { apply Forall_forall. intros c Hc%list_elem_of_In%repeat_spec. by subst. }
  assert (trim_start_matches (λ c, c =? 0) (v ++ repeat 0 n) = match v with [] => [] | _ => v ++ repeat 0 n end) as ->.
  { destruct v as [|c v]; cbn; [rewrite <- (app_nil_r (repeat 0 n)); by rewrite trim_start_app|].
    apply Forall_cons in Hf as [-> _]. done. }
  destruct v as [|c v]; [done|]. rewrite rev_app_distr, trim_start_app by (by apply List.Forall_rev).
  rewrite trim_start_none by (by apply List.Forall_rev). by rewrite rev_involutive.
Qed.

(** What a replacement writes. *)
Lemma replace_tiff_ascii_Ok tiff r v out :
  replace_tiff_ascii tiff r v = Ok out →
  is_ascii v = true ∧ 0 ∉ v ∧ 0 <= r.1 ∧ zlen v + 1 <= r.2 - r.1 ∧ r.2 <= zlen tiff
  ∧ ∃ n, zlen (v ++ repeat 0 n) = r.2 - r.1 ∧ put_range tiff r.1 (v ++ repeat 0 n) = Some out.
Proof.
  unfold replace_tiff_ascii. destruct (_ || _) eqn:E; [done|]. zbool.
  match goal with H : is_ascii v = true |- _ => rename H into Ha end. rewrite (as_bytes_ascii _ Ha) in *.
  match goal with H : memb 0 v = false |- _ => apply memb_false in H end.
  rewrite (str_len_ascii _ Ha) in *.
  intros (t & Ht%ok_or_Ok & (t' & Ht'%ok_or_Ok & Hput%ok_or_Ok)%bind_Ok)%bind_Ok.
  pose proof (get_range_length _ _ _ _ Ht) as Hl. apply get_range_Some in Ht as (? & ? & _).
  apply put_range_Some in Ht' as (_ & Hfit & Ht'). rewrite repeat_length in Hfit.
  split_and!; try done; try lia. exists (length t - length v)%nat. split.
  { rewrite length_app, repeat_length. lia. }
  rewrite <- Hput, Ht'. cbn. rewrite take_0. cbn. f_equal. f_equal.
  replace (length t) with (length v + (length t - length v))%nat at 2 by lia.
  rewrite repeat_app. by rewrite drop_app_length' by (by rewrite repeat_length).
Qed.

(** A replaced field reads back trimmed. *)
Lemma tiff_ascii_value_replaced tiff entry r v n :
  tiff_ascii_range tiff entry = Ok r → is_ascii v = true → 0 ∉ v →
  get_range tiff r.1 r.2 = Some (v ++ repeat 0 n) → tiff_ascii_value tiff entry = Ok (trim v).
Proof.
  intros Hr Ha H0 Hg. unfold tiff_ascii_value. rewrite Hr. destruct r as [a b]. cbn [mbind result_bind fst snd] in *.
  rewrite Hg. cbn [ok_or mbind result_bind]. rewrite from_utf8_ascii.
  - cbn [ok_or mbind result_bind]. by rewrite trim_padding.
  - unfold is_ascii in *. rewrite forallb_app, Ha. apply forallb_forall. intros c Hc%repeat_spec. by subst.
Qed.
