(* ===== verification/HeifExif.v ===== *)
(** * The native capture time: [src/download/heif.rs]

    Reading the Exif capture time of a HEIF file and replacing it in place.
    The main theorem: a replacement reads back as the value written and
    leaves every byte outside the two fields as it was. *)
From S2P Require Import Prelude RustStr HeifBox HeifItems Tiff.

(** [extents.iter().try_fold(0, ..)]: the total length, at most the file's. *)
Fixpoint payload_length (file_len total : Z) (extents : list (list Z)) : heif Z :=
  match extents with
  | [] => Ok total
  | extent :: extents =>
      total ← ok_or (invalid_layout "Exif item payload is too large")
        (t ← checked_add USIZE_MAX total (zlen extent); if t <=? file_len then Some t else None);
      payload_length file_len total extents
  end.

Definition extract_exif_tiff_bytes (bytes : list Z) : heif (option (list Z)) :=
  ml ← find_meta_layout bytes;
  iinf_layout ← parse_iinf bytes (ml_iinf ml);
  exif_item_id ← select_exif_item_id bytes (ml_iref ml) (ml_primary ml)
                   (exif_item_ids iinf_layout) (item_ids iinf_layout);
  match exif_item_id with
  | None => Ok None
  | Some exif_item_id =>
      iloc_layout ← parse_iloc bytes (ml_iloc ml);
      item ← ok_or (invalid_layout "Exif item has no iloc entry")
               (findb (λ item, item_id item =? exif_item_id) (items iloc_layout));
      if negb (construction_method item =? 0) then
        Err (invalid_layout "Exif item uses an unsupported construction method")
      else
        extents ← resolve_item_extents bytes item;
        if bool_decide (extents = []) then Err (invalid_layout "Exif item has no extents")
        else
          payload_length (zlen bytes) 0 extents ;;
          let payload := concat extents in
          field ← ok_or (invalid_layout "Exif item offset is truncated") (get_range payload 0 4);
          offset ← ok_or (invalid_layout "Exif item offset is too large")
                     (try_from USIZE_MAX (from_be_bytes field));
          tiff_start ← ok_or (invalid_layout "Exif TIFF offset overflows") (checked_add USIZE_MAX 4 offset);
          tiff ← ok_or (invalid_layout "Exif TIFF offset is outside the item") (get_from payload tiff_start);
          Ok (Some tiff)
  end.

Record ExifCaptureTime := { datetime_original : option str; offset_time_original : option str }.

(** [find_tiff_entry(..)?.map(|entry| tiff_ascii_value(..)).transpose()?] *)
Definition ascii_value_of_tag (tiff : list Z) (ifd_offset tag : Z) (endian : TiffEndian) : heif (option str) :=
  entry ← find_tiff_entry tiff ifd_offset tag endian;
  match entry with
  | None => Ok None
  | Some entry => v ← tiff_ascii_value tiff entry; Ok (Some v)
  end.

Definition extract_exif_capture_time (bytes : list Z) : heif (option ExifCaptureTime) :=
  tiff ← extract_exif_tiff_bytes bytes;
  match tiff with
  | None => Ok None
  | Some tiff =>
      '(endian, _, exif_ifd_offset) ← tiff_capture_ifd_offsets tiff;
      match exif_ifd_offset with
      | None => Ok (Some {| datetime_original := None; offset_time_original := None |})
      | Some exif_ifd_offset =>
          datetime ← ascii_value_of_tag tiff exif_ifd_offset 36867 endian;
          offset ← ascii_value_of_tag tiff exif_ifd_offset 36881 endian;
          Ok (Some {| datetime_original := datetime; offset_time_original := offset |})
      end
  end.

(** The [iloc] entry, the file range of the item and the file position of its
    TIFF data, with the checks that make an in-place update safe. *)
Definition writable_exif_extent (bytes : list Z) (iloc_layout : IlocLayout) (exif_item_id : Z)
    : heif (Z * Z) :=
  if existsb (λ item, construction_method item =? 2) (items iloc_layout) then
    Err (invalid_layout "HEIF Exif repair cannot prove item-offset dependants remain unchanged")
  else
    item ← ok_or (invalid_layout "Exif item has no iloc entry")
             (findb (λ item, item_id item =? exif_item_id) (items iloc_layout));
    if negb (construction_method item =? 0) || negb (data_reference_index item =? 0)
       || negb (zlen (extents item) =? 1)
    then Err (invalid_layout "HEIF Exif item cannot be safely updated in place")
    else
      extent ← ok_or (invalid_layout "HEIF Exif item has no extent") (head (extents item));
      extent_start ← ok_or (invalid_layout "HEIF Exif item offset overflows")
        (o ← checked_add U64_MAX (base_offset item) (ie_offset extent); try_from USIZE_MAX o);
      extent_length ← ok_or (invalid_layout "HEIF Exif item is too large")
        (try_from USIZE_MAX (ie_length extent));
      extent_end ← ok_or (invalid_layout "HEIF Exif item is outside the file")
        (e ← checked_add USIZE_MAX extent_start extent_length;
         if e <=? zlen bytes then Some e else None);
      start64 ← ok_or (invalid_layout "HEIF Exif item offset overflows") (try_from U64_MAX extent_start);
      owned ← (if item_extent_is_shared iloc_layout exif_item_id start64 (ie_length extent) then Ok false
               else extent_is_within_mdat_payload bytes extent_start extent_length);
      if negb owned then Err (invalid_layout "HEIF Exif item does not own a writable mdat extent")
      else
        prefix ← ok_or (invalid_layout "HEIF Exif item offset is truncated")
          (get_range bytes extent_start (saturating_add USIZE_MAX extent_start 4));
        tiff_offset ← ok_or (invalid_layout "HEIF Exif TIFF offset is too large")
          (try_from USIZE_MAX (from_be_bytes prefix));
        tiff_start ← ok_or (invalid_layout "HEIF Exif TIFF offset is outside the item")
          (s ← checked_add USIZE_MAX extent_start 4; t ← checked_add USIZE_MAX s tiff_offset;
           if t <=? extent_end then Some t else None);
        Ok (tiff_start, extent_end).

(** The TIFF data with both fields replaced. *)
Definition rewrite_tiff (tiff : list Z) (datetime offset : str) : heif (option (list Z)) :=
  '(endian, ifd0_offset, exif_ifd_offset) ← tiff_capture_ifd_offsets tiff;
  match exif_ifd_offset with
  | None => Ok None
  | Some exif_ifd_offset =>
      datetime_original ← find_tiff_entry tiff exif_ifd_offset 36867 endian;
      match datetime_original with
      | None => Ok None
      | Some datetime_original =>
          offset_time_original ← find_tiff_entry tiff exif_ifd_offset 36881 endian;
          offset_time_original ←
            ok_or (invalid_layout "HEIF Exif timestamp has no writable paired offset") offset_time_original;
          datetime_original_range ← tiff_ascii_range tiff datetime_original;
          offset_time_original_range ← tiff_ascii_range tiff offset_time_original;
          validate_tiff_patch_ranges tiff endian ifd0_offset
            [(datetime_original, datetime_original_range);
             (offset_time_original, offset_time_original_range)] ;;
          tiff ← replace_tiff_ascii tiff datetime_original_range datetime;
          tiff ← replace_tiff_ascii tiff offset_time_original_range offset;
          Ok (Some tiff)
      end
  end.

Definition rewrite_exif_capture_time (bytes : list Z) (datetime offset : str) : heif (option (list Z)) :=
  if negb (str_len datetime =? 19) || negb (str_len offset =? 6) then
    Err (invalid_layout "replacement HEIF Exif capture time has an invalid length")
  else
    ml ← find_meta_layout bytes;
    iinf_layout ← parse_iinf bytes (ml_iinf ml);
    exif_item_id ← select_exif_item_id bytes (ml_iref ml) (ml_primary ml)
                     (exif_item_ids iinf_layout) (item_ids iinf_layout);
    match exif_item_id with
    | None => Ok None
    | Some exif_item_id =>
        iloc_layout ← parse_iloc bytes (ml_iloc ml);
        '(tiff_start, extent_end) ← writable_exif_extent bytes iloc_layout exif_item_id;
        tiff ← ok_or (invalid_layout "HEIF Exif TIFF data is truncated") (get_range bytes tiff_start extent_end);
        rewritten ← rewrite_tiff tiff datetime offset;
        match rewritten with
        | None => Ok None
        | Some tiff =>
            output ← ok_or (invalid_layout "HEIF Exif TIFF data is truncated")
                       (put_range bytes tiff_start tiff);
            Ok (Some output)
        end
    end.

Definition sample_tiff : list Z :=
  fourcc "II" ++ [42; 0; 8; 0; 0; 0]
  ++ [1; 0] ++ [105; 135; 4; 0; 1; 0; 0; 0; 26; 0; 0; 0] ++ [0; 0; 0; 0]
  ++ [2; 0] ++ [3; 144; 2; 0; 20; 0; 0; 0; 56; 0; 0; 0] ++ [17; 144; 2; 0; 7; 0; 0; 0; 76; 0; 0; 0]
  ++ [0; 0; 0; 0] ++ lit "2024:01:02 03:04:05" ++ [0] ++ lit "+01:00" ++ [0].

Example sample_capture_time :
  extract_exif_capture_time (sample_heic sample_tiff)
  = Ok (Some {| datetime_original := Some (lit "2024:01:02 03:04:05");
                offset_time_original := Some (lit "+01:00") |}).
Proof. vm_compute. reflexivity. Qed.

Example sample_rewrite :
  (o ← rewrite_exif_capture_time (sample_heic sample_tiff) (lit "2023:12:31 23:59:59") (lit "-08:00");
   match o with Some out => extract_exif_capture_time out | None => Ok None end)
  = Ok (Some {| datetime_original := Some (lit "2023:12:31 23:59:59");
                offset_time_original := Some (lit "-08:00") |}).
Proof. vm_compute. reflexivity. Qed.

(** ** Facts: the TIFF data *)

Lemma ascii_value_of_tag_eq tiff o tag e entry :
  find_tiff_entry tiff o tag e = Ok (Some entry) →
  ascii_value_of_tag tiff o tag e = (v ← tiff_ascii_value tiff entry; Ok (Some v)).
Proof. intros H. unfold ascii_value_of_tag. by rewrite H. Qed.

Lemma disjoint_agree (t p : range) (tiff v tiff' : list Z) :
  ranges_overlap t p = false → zlen v = t.2 - t.1 → put_range tiff t.1 v = Some tiff' →
  agree p.1 p.2 tiff tiff'.
Proof.
  unfold ranges_overlap. intros Hov Hv Hput. eapply put_range_agree; [done|].
  apply andb_false_iff in Hov as [?%Z.ltb_ge|?%Z.ltb_ge]; lia.
Qed.

(** The bytes of [tiff] outside the two fields. *)
Definition same_outside (r1 r2 : range) (l l' : list Z) : Prop :=
  length l' = length l
  ∧ ∀ i : nat, ¬ (r1.1 <= Z.of_nat i < r1.2) → ¬ (r2.1 <= Z.of_nat i < r2.2) → l' !! i = l !! i.

Lemma rewrite_tiff_Ok tiff dt off out :
  bytes_ok tiff → rewrite_tiff tiff dt off = Ok (Some out) →
  ∃ e o xo d f rd rf,
    tiff_capture_ifd_offsets tiff = Ok (e, o, Some xo)
    ∧ find_tiff_entry tiff xo 36867 e = Ok (Some d) ∧ tiff_ascii_range tiff d = Ok rd
    ∧ find_tiff_entry tiff xo 36881 e = Ok (Some f) ∧ tiff_ascii_range tiff f = Ok rf
    ∧ 0 <= rd.1 ∧ rd.2 <= zlen tiff ∧ 0 <= rf.1 ∧ rf.2 <= zlen tiff
    ∧ same_outside rd rf tiff out
    ∧ tiff_capture_ifd_offsets out = Ok (e, o, Some xo)
    ∧ ascii_value_of_tag out xo 36867 e = Ok (Some (trim dt))
    ∧ ascii_value_of_tag out xo 36881 e = Ok (Some (trim off)).
Proof.
  intros Hok. unfold rewrite_tiff. intros ([[e o] xo] & Hcap & H)%bind_Ok.
  destruct xo as [xo|]; [|done]. apply bind_Ok in H as (d & Hd & H). destruct d as [d|]; [|done].
  apply bind_Ok in H as (f' & Hf & (f & ->%ok_or_Ok & (rd & Hrd & (rf & Hrf & (u & Hval & (t1 & H1 & (t2 & H2 & [= ->])%bind_Ok)%bind_Ok)%bind_Ok)%bind_Ok)%bind_Ok)%bind_Ok).
  apply (validate_tiff_patch_ranges_Ok _ _ _ xo) in Hval as (Hov & r & es & n & xr & xes & xn & Hr & Hxr & Hdis);
    [|done].
  apply replace_tiff_ascii_Ok in H1 as (Had & H0d & Hd0 & Hdl & Hde & nd & Hdn & Hpd).
  apply replace_tiff_ascii_Ok in H2 as (Haf & H0f & Hf0 & Hfl & Hfe & nf & Hfn & Hpf).
  pose proof (put_range_length _ _ _ _ Hpd) as Hl1. pose proof (put_range_length _ _ _ _ Hpf) as Hl2.
  assert (∀ p, p ∈ [(0, 8); r; xr] → agree p.1 p.2 tiff out) as Hag.
  { intros p Hp. eapply agree_trans; eapply disjoint_agree;
      [exact (Hdis (d, rd) ltac:(set_solver) p Hp)|exact Hdn|exact Hpd
      |exact (Hdis (f, rf) ltac:(set_solver) p Hp)|exact Hfn|exact Hpf]. }
  assert (∀ tag, find_tiff_entry out xo tag e = find_tiff_entry tiff xo tag e) as Hfind.
  { intros tag. eapply find_tiff_entry_agree; [done|exact Hxr|]. apply Hag. set_solver. }
  cbn in Hov. rewrite !orb_false_r in Hov.
  exists e, o, xo, d, f, rd, rf. split_and!; try done; try lia.
  - split; [congruence|]. intros i Hi1 Hi2.
    rewrite (put_range_outside _ _ _ _ i Hpf) by lia. apply (put_range_outside _ _ _ _ i Hpd). lia.
  - eapply tiff_capture_ifd_offsets_agree; [done..| |]; [apply (Hag (0, 8))|apply Hag]; set_solver.
  - rewrite (ascii_value_of_tag_eq _ _ _ _ d) by (by rewrite Hfind).
    rewrite (tiff_ascii_value_replaced _ _ rd dt nd); [done| |done|done|].
    { rewrite <- Hrd. apply tiff_ascii_range_length; congruence. }
    pose proof (put_range_inside _ _ _ _ Hpd) as Hin. rewrite Hdn in Hin.
    replace (rd.1 + (rd.2 - rd.1)) with rd.2 in Hin by lia. rewrite <- Hin. symmetry.
    apply (agree_get_range rd.1 rd.2); [|lia..]. eapply (disjoint_agree rf rd); [|exact Hfn|exact Hpf].
    unfold ranges_overlap in *. by rewrite andb_comm.
  - rewrite (ascii_value_of_tag_eq _ _ _ _ f) by (by rewrite Hfind).
    rewrite (tiff_ascii_value_replaced _ _ rf off nf); [done| |done|done|].
    { rewrite <- Hrf. apply tiff_ascii_range_length. congruence. }
    pose proof (put_range_inside _ _ _ _ Hpf) as Hin. rewrite Hfn in Hin.
    by replace (rf.1 + (rf.2 - rf.1)) with rf.2 in Hin by lia.
Qed.

(** ** Facts: the file around the TIFF data *)

Lemma parse_raw_box_agree bytes bytes' start b :
  parse_raw_box bytes start = Ok b → agree start (body_start b) bytes bytes' →
  parse_raw_box bytes' start = Ok b.
Proof.
  intros H Hag. pose proof H as [Hst []]%parse_raw_box_in.
  rewrite <- H. symmetry. revert H. unfold parse_raw_box, body_start in *.
  rewrite <- (agree_get_range _ _ start (saturating_add USIZE_MAX start 8) _ _ Hag) by (unfold saturating_add; lia).
  intros (h & -> & (sb & Hsb & (k & Hk & H)%bind_Ok)%bind_Ok)%bind_Ok. cbn [mbind result_bind].
  rewrite Hsb. cbn [mbind result_bind]. rewrite Hk. cbn [mbind result_bind].
  rewrite <- (agree_length _ _ _ _ Hag). apply bind_Ok in H as ([hs sz] & Hhs & H).
  assert (hs = header_size b) as ->.
  { destruct (_ <? _); [done|]. apply bind_Ok in H as (? & _ & H).
    destruct (_ <? _); [done|]. by injection H as <-. }
  destruct (from_be_bytes sb =? 0); [done|]. destruct (from_be_bytes sb =? 1); [|done].
  assert (header_size b = 16) as H16 by (apply bind_Ok in Hhs as (? & _ & (? & _ & [= <- _])%bind_Ok); done).
  by rewrite <- (agree_get_range _ _ (start + 8) (start + 16) _ _ Hag) by lia.
Qed.

(** A scan reads the headers of the boxes it finds and nothing else. *)
Lemma scan_raw_boxes_agree bytes bytes' a b boxes :
  scan_raw_boxes bytes a b = Ok boxes → length bytes = length bytes' →
  (∀ x, x ∈ boxes → agree (rb_start x) (body_start x) bytes bytes') →
  scan_raw_boxes bytes' a b = Ok boxes.
Proof.
  unfold scan_raw_boxes. intros H Hl Hag. rewrite <- Hl. destruct (_ || _); [done|].
  apply bind_Ok in H as ([bs c] & Hloop & H). destruct (negb _) eqn:Hc; [done|]. injection H as ->.
  assert (scan_loop (length bytes) bytes' a b = Ok (boxes, c)) as ->; [|cbn [mbind result_bind]; by rewrite Hc].
  revert Hloop Hag. clear Hc Hl. generalize (length bytes). intros fuel. revert a boxes c.
  induction fuel as [|f IH]; intros a boxes c; cbn [scan_loop]; destruct (a <? b); try done.
  intros (x & Hx & H)%bind_Ok Hag. destruct (b <? box_end x) eqn:He; [done|].
  apply bind_Ok in H as ([bs' c'] & Hrec & [= <- <-]).
  pose proof Hx as [Hsx _]%parse_raw_box_in.
  rewrite (parse_raw_box_agree _ _ _ _ Hx) by (rewrite <- Hsx; apply Hag; set_solver).
  cbn [mbind result_bind]. rewrite He, (IH _ _ _ Hrec); [done|]. intros y Hy. apply Hag. set_solver.
Qed.

Lemma boxes_from_start bytes a b boxes x :
  boxes_from a b boxes → Forall (box_in bytes) boxes → x ∈ boxes → a <= rb_start x ∧ box_end x <= b.
Proof.
  revert a. induction boxes as [|y boxes IH]; intros a; [set_solver|].
  intros [<- Hb] [[] Hin]%Forall_cons Hx.
  assert (rb_start y <= box_end y) by (unfold box_end; lia).
  assert (∀ c, boxes_from c b boxes → c <= b) as Hle.
  { clear -Hin. induction boxes as [|z boxes IH]; intros c; cbn; [lia|].
    intros [<- Hb]. apply Forall_cons in Hin as [[] Hin]. specialize (IH Hin _ Hb). unfold box_end in IH. lia. }
  apply elem_of_cons in Hx as [->|Hx]; [specialize (Hle _ Hb); lia|].
  apply (IH _ Hb Hin) in Hx. lia.
Qed.

Lemma boxes_disjoint bytes a b boxes x y :
  boxes_from a b boxes → Forall (box_in bytes) boxes → x ∈ boxes → y ∈ boxes → x ≠ y →
  box_end x <= rb_start y ∨ box_end y <= rb_start x.
Proof.
  revert a. induction boxes as [|z boxes IH]; intros a; [set_solver|].
  intros [<- Hb] [Hz Hin]%Forall_cons Hx Hy Hne.
  apply elem_of_cons in Hx as [->|Hx], Hy as [->|Hy]; [done|..|by eapply IH].
  - left. by destruct (boxes_from_start bytes _ _ _ _ Hb Hin Hy).
  - right. by destruct (boxes_from_start bytes _ _ _ _ Hb Hin Hx).
Qed.

Lemma slice_agree a b (l l' : list Z) c d : agree a b l l' → a <= c → d <= b → slice l' c d = slice l c d.
Proof. intros H ? ?. unfold slice. by rewrite (agree_get_range a b c d l l') by done. Qed.

(** The parts of a [meta] layout: all of them inside the one [meta] box. *)
Lemma find_meta_layout_parts bytes ml :
  find_meta_layout bytes = Ok ml →
  ∃ top, scan_raw_boxes bytes 0 (zlen bytes) = Ok top ∧ ml_meta ml ∈ top
    ∧ kind (ml_meta ml) = fourcc "meta"
    ∧ (∀ x, (x = ml_iinf ml ∨ x = ml_iloc ml ∨ ml_iref ml = Some x) →
        rb_start (ml_meta ml) <= body_start x ∧ box_end x <= box_end (ml_meta ml)).
Proof.
  unfold find_meta_layout. intros (top & Htop & (meta & Hmeta & H)%bind_Ok)%bind_Ok.
  do 2 (case_match; [done|]). apply bind_Ok in H as (ps & Hps & H).
  assert (0 <= ps) by (repeat case_bool_decide; invert_ok; simplify_eq; lia).
  apply bind_Ok in H as (children & Hch & H).
  apply bind_Ok in H as (iinf & Hi & H). apply bind_Ok in H as (iloc & Hl & H).
  apply bind_Ok in H as (iref & Hr & H). apply bind_Ok in H as (pitm & Hp & H).
  apply bind_Ok in H as (primary & _ & H). do 2 (case_match; [done|]). injection H as <-. cbn.
  pose proof (of_kind_elem "meta" top meta) as Hk.
  rewrite (unique_required_Ok _ _ _ _ _ Hmeta) in Hk. destruct Hk as [Hmt Hmk]; [set_solver|].
  exists top. split_and!; try done. intros x Hx.
  assert (x ∈ children) as Hxc.
  { destruct Hx as [->|[->| ->]].
    - apply (of_kind_elem "iinf"). rewrite (unique_required_Ok _ _ _ _ _ Hi). set_solver.
    - apply (of_kind_elem "iloc"). rewrite (unique_required_Ok _ _ _ _ _ Hl). set_solver.
    - apply (of_kind_elem "iref"). unfold unique_optional_box in Hr. repeat case_match; simplify_eq; set_solver. }
  apply scan_raw_boxes_ok in Hch as (Hbf & Hin & _ & _).
  destruct (boxes_from_start _ _ _ _ _ Hbf Hin Hxc). rewrite Forall_forall in Hin. destruct (Hin x Hxc).
  apply scan_raw_boxes_ok in Htop as (_ & Htin & _). rewrite Forall_forall in Htin. destruct (Htin _ Hmt).
  unfold body_start in *. lia.
Qed.

(** The layout is read from the top-level headers and the [meta] box. *)
Lemma find_meta_layout_agree bytes bytes' ml top :
  find_meta_layout bytes = Ok ml → scan_raw_boxes bytes 0 (zlen bytes) = Ok top →
  (∀ x, x ∈ top → agree (rb_start x) (body_start x) bytes bytes') →
  agree (rb_start (ml_meta ml)) (box_end (ml_meta ml)) bytes bytes' →
  find_meta_layout bytes' = Ok ml.
Proof.
  intros H Htop Hh Hag. pose proof (agree_length _ _ _ _ Hag) as Hlen.
  rewrite <- H. symmetry. revert H. unfold find_meta_layout. rewrite <- Hlen, Htop.
  rewrite (scan_raw_boxes_agree _ _ _ _ _ Htop Hlen Hh). cbn [mbind result_bind].
  intros (meta & Hmeta & H)%bind_Ok.
  destruct (unique_required_in _ _ _ _ _ _ _ _ Htop Hmeta).
  rewrite Hmeta. cbn [mbind result_bind]. destruct (_ <? _); [done|]. destruct (negb (_ =? 8)); [done|].
  assert (ml_meta ml = meta) as Hmm.
  { do 7 (apply bind_Ok in H as (? & _ & H)). do 2 (case_match; [done|]). by injection H as <-. }
  rewrite Hmm in Hag. apply bind_Ok in H as (ps & Hps & H). apply bind_Ok in H as (children & Hch & H).
  apply bind_Ok in H as (iinf & Hi & H). apply bind_Ok in H as (iloc & Hl & H).
  apply bind_Ok in H as (iref & Hr & H). apply bind_Ok in H as (pitm & Hp & H).
  apply bind_Ok in H as (primary & Hprim & H).
  assert (0 <= ps) by (repeat case_bool_decide; invert_ok; simplify_eq; lia).
  assert (pitm ∈ children) as Hpc.
  { apply (of_kind_elem "pitm"). rewrite (unique_required_Ok _ _ _ _ _ Hp). set_solver. }
  pose proof Hch as (Hbf & Hcin & _ & _)%scan_raw_boxes_ok.
  assert (∀ x, x ∈ children → rb_start meta <= rb_start x ∧ body_start x <= box_end x ∧ box_end x <= box_end meta
          ∧ body_start meta + 8 <= body_start x) as Hc.
  { intros x Hx. destruct (boxes_from_start _ _ _ _ _ Hbf Hcin Hx). rewrite Forall_forall in Hcin.
    destruct (Hcin x Hx). unfold body_start, box_end in *. lia. }
  assert (zlen bytes >= body_start pitm + 6 ∧ body_start pitm + 6 <= box_end pitm) as [_ Hp6].
  { unfold parse_primary_item_id in Hprim. apply bind_Ok in Hprim as (body & Hb%slice_len & Hprim).
    destruct (Z.ltb_spec (zlen body) 6); [done|]. destruct (Hc _ Hpc) as (_ & _ & ? & _).
    rewrite Forall_forall in Hcin. destruct (Hcin _ Hpc). unfold box_end in *. lia. }
  destruct (Hc _ Hpc) as (? & ? & ? & ?).
  assert (rb_start meta <= body_start meta) by (unfold body_start; lia).
  rewrite <- !(agree_get_range _ _ _ _ bytes bytes' Hag) by lia.
  rewrite Hps. cbn [mbind result_bind]. rewrite Hch.
  rewrite (scan_raw_boxes_agree _ _ _ _ _ Hch Hlen).
  2: { intros x Hx. destruct (Hc x Hx) as (? & ? & ? & ?). eapply agree_sub; [exact Hag|lia..]. }
  cbn [mbind result_bind]. rewrite Hi. cbn [mbind result_bind]. rewrite Hl. cbn [mbind result_bind].
  rewrite Hr. cbn [mbind result_bind]. rewrite Hp. cbn [mbind result_bind].
  unfold parse_primary_item_id. by rewrite (slice_agree _ _ bytes bytes' _ _ Hag) by lia.
Qed.

(** An extent the code may overwrite: the only extent of the item, in an
    [mdat] payload, disjoint from every other item, with the TIFF data at
    [tiff_start]. *)
Record writable (bytes : list Z) (layout : IlocLayout) (id ts ee : Z)
    (item : IlocItem) (extent : IlocExtent) (start : Z) (prefix : list Z) (m : RawBox) : Prop := {
  w_find : findb (λ i, item_id i =? id) (items layout) = Some item;
  w_method : construction_method item = 0;
  w_extents : extents item = [extent];
  w_range : extent_range item extent = Ok (start, ee);
  w_prefix : get_range bytes start (start + 4) = Some prefix;
  w_start : ts = start + 4 + from_be_bytes prefix;
  w_start_bound : ts <= USIZE_MAX;
  w_end : ts <= ee <= zlen bytes;
  w_shared : item_extent_is_shared layout id start (ie_length extent) = false;
  w_length : ee = start + ie_length extent;
  w_mdat : kind m = fourcc "mdat";
  w_inside : body_start m <= start ∧ ee <= box_end m;
  w_top : ∃ top, scan_raw_boxes bytes 0 (zlen bytes) = Ok top ∧ m ∈ top;
}.

Lemma writable_exif_extent_Ok bytes layout id ts ee :
  writable_exif_extent bytes layout id = Ok (ts, ee) →
  ∃ item extent start prefix m, writable bytes layout id ts ee item extent start prefix m.
Proof.
  unfold writable_exif_extent. destruct (existsb _ _); [done|].
  intros (item & Hitem%ok_or_Ok & H)%bind_Ok. destruct (_ || _) eqn:E; [done|]. zbool.
  apply bind_Ok in H as (x & Hx%ok_or_Ok & H).
  assert (extents item = [x]) as Hxs by (destruct (extents item) as [|? [|]]; cbn in *; simplify_eq; (done || lia)).
  apply bind_Ok in H as (st & Hst & (len & Hlen & (en & Hen & H)%bind_Ok)%bind_Ok).
  apply bind_Ok in H as (s64 & Hs64%ok_or_Ok & (ow & How & H)%bind_Ok).
  apply try_from_Some in Hs64 as [-> _]. destruct ow; [|done]. cbn [negb] in H.
  apply bind_Ok in H as (prefix & Hp%ok_or_Ok & (off & Hoff & (t & Ht & [= -> ->])%bind_Ok)%bind_Ok).
  apply ok_or_Ok in Hst as Hst', Hlen as Hlen', Hen as Hen', Hoff as Hoff', Ht as Ht'.
  apply try_from_Some in Hlen' as [-> Hlb], Hoff' as [-> _].
  apply bind_Some in Hen' as (e' & [-> Heb]%checked_add_Some & Hif).
  destruct (Z.leb_spec (st + ie_length x) (zlen bytes)); [|done]. injection Hif as Hee.
  apply bind_Some in Ht' as (s4 & [-> Hs4]%checked_add_Some & (t' & [-> Htb]%checked_add_Some & Hif)%bind_Some).
  destruct (Z.leb_spec (st + 4 + from_be_bytes prefix) ee); [|done]. injection Hif as <-.
  unfold saturating_add in Hp. rewrite (Z.min_r USIZE_MAX (st + 4) ltac:(done)) in Hp.
  destruct (item_extent_is_shared _ _ _ _) eqn:Hsh; [done|].
  unfold extent_is_within_mdat_payload in How.
  apply bind_Ok in How as (e2 & [-> _]%ok_or_Ok%checked_add_Some & (top & Htop & How)%bind_Ok).
  injection How as How. apply existsb_exists in How as (m & Hm%list_elem_of_In & Hin).
  apply of_kind_elem in Hm as [Hm Hk]. zbool.
  exists item, x, st, prefix, m. split; try done; try lia.
  - unfold extent_range. rewrite Hst'. cbn [ok_or mbind result_bind].
    rewrite (proj2 (try_from_Some USIZE_MAX _ _)) by (split; [done|exact Hlb]). cbn [ok_or mbind result_bind].
    rewrite (proj2 (checked_add_Some USIZE_MAX _ _ _)) by (split; [done|exact Heb]). by rewrite <- Hee.
  - by exists top.
Qed.

(** The TIFF data the reader finds. *)
Lemma extract_writable bytes ml iinf id layout ts ee item extent start prefix m tiff :
  find_meta_layout bytes = Ok ml → parse_iinf bytes (ml_iinf ml) = Ok iinf →
  select_exif_item_id bytes (ml_iref ml) (ml_primary ml) (exif_item_ids iinf) (item_ids iinf) = Ok (Some id) →
  parse_iloc bytes (ml_iloc ml) = Ok layout → 0 <= from_be_bytes prefix →
  writable bytes layout id ts ee item extent start prefix m →
  get_range bytes ts ee = Some tiff →
  extract_exif_tiff_bytes bytes = Ok (Some tiff).
Proof.
  intros Hml Hi Hs Hl Hpre [] Ht. unfold extract_exif_tiff_bytes.
  rewrite Hml. cbn [mbind result_bind]. rewrite Hi. cbn [mbind result_bind].
  rewrite Hs. cbn [mbind result_bind]. rewrite Hl. cbn [mbind result_bind].
  rewrite w_find0. cbn [ok_or mbind result_bind]. rewrite w_method0. cbn [negb Z.eqb].
  pose proof w_prefix0 as (? & ? & _)%get_range_Some.
  destruct (get_range_is_Some bytes start ee) as [payload Hp]; [lia..|].
  assert (resolve_item_extents bytes item = Ok [payload]) as ->.
  { unfold resolve_item_extents. rewrite w_extents0. cbn [resolve_extents]. rewrite w_range0.
    cbn [mbind result_bind]. by rewrite Hp. }
  cbn [mbind result_bind]. rewrite bool_decide_eq_false_2 by done.
  pose proof (get_range_length _ _ _ _ Hp) as Hplen.
  unfold payload_length. rewrite (proj2 (checked_add_Some USIZE_MAX 0 (zlen payload) (zlen payload))).
  2: { unfold extent_range in w_range0. apply bind_Ok in w_range0 as (? & _ & (? & _ & (e & He%ok_or_Ok & [= -> ->])%bind_Ok)%bind_Ok).
       apply checked_add_Some in He as [-> ?]. lia. }
  cbn [mbind option_bind]. rewrite (proj2 (Z.leb_le _ _)) by lia. cbn [ok_or mbind result_bind concat].
  rewrite app_nil_r.
  rewrite (get_range_sub _ _ _ _ 0 4 Hp) by lia. rewrite Z.add_0_r, w_prefix0. cbn [ok_or mbind result_bind].
  rewrite (proj2 (try_from_Some USIZE_MAX (from_be_bytes prefix) _)) by (split; [done|lia]).
  cbn [ok_or mbind result_bind].
  rewrite (proj2 (checked_add_Some USIZE_MAX 4 _ _)) by (split; [done|lia]). cbn [ok_or mbind result_bind].
  unfold get_from. rewrite (get_range_sub _ _ _ _ _ _ Hp) by lia.
  replace (start + (4 + from_be_bytes prefix)) with ts by lia.
  replace (start + zlen payload) with ee by lia. by rewrite Ht.
Qed.

(** The item tables are read from the [meta] box. *)
Lemma item_tables_agree bytes bytes' ml :
  find_meta_layout bytes = Ok ml → agree (rb_start (ml_meta ml)) (box_end (ml_meta ml)) bytes bytes' →
  parse_iinf bytes' (ml_iinf ml) = parse_iinf bytes (ml_iinf ml)
  ∧ parse_iloc bytes' (ml_iloc ml) = parse_iloc bytes (ml_iloc ml)
  ∧ ∀ primary ids known, select_exif_item_id bytes' (ml_iref ml) primary ids known
                         = select_exif_item_id bytes (ml_iref ml) primary ids known.
Proof.
  intros (top & _ & _ & _ & Hin)%find_meta_layout_parts Hag.
  assert (∀ x, (x = ml_iinf ml ∨ x = ml_iloc ml ∨ ml_iref ml = Some x) →
            slice bytes' (body_start x) (box_end x) = slice bytes (body_start x) (box_end x)) as Hs.
  { intros x Hx. destruct (Hin x Hx). by eapply slice_agree. }
  split_and!; [unfold parse_iinf; by rewrite Hs by auto|unfold parse_iloc; by rewrite Hs by auto|].
  intros primary ids known. unfold select_exif_item_id, cdsc_pairs, item_reference_pairs.
  destruct ids; [done|]. destruct (ml_iref ml) as [r|] eqn:Hr; [|done]. by rewrite (Hs r) by auto.
Qed.

(** Overwriting the TIFF data leaves the whole structure of the file. *)
Lemma put_writable bytes out ml layout id ts ee item extent start prefix m tiff :
  find_meta_layout bytes = Ok ml → writable bytes layout id ts ee item extent start prefix m →
  bytes_ok bytes → put_range bytes ts tiff = Some out → zlen tiff = ee - ts →
  find_meta_layout out = Ok ml
  ∧ agree (rb_start (ml_meta ml)) (box_end (ml_meta ml)) bytes out
  ∧ writable out layout id ts ee item extent start prefix m.
Proof.
  intros Hml W Hok Hput Hlt. pose proof W as [].
  pose proof (from_be_bytes_bound prefix (get_range_bytes_ok _ _ _ _ Hok w_prefix0)) as Hpre.
  destruct (find_meta_layout_parts _ _ Hml) as (top & Htop & Hmt & Hmk & _).
  destruct w_top0 as (top' & Htop' & Hm). rewrite Htop in Htop'. injection Htop' as <-.
  pose proof Htop as (Hbf & Hin & _ & _)%scan_raw_boxes_ok.
  assert (Forall (box_in bytes) top) as Hin' by done. rewrite Forall_forall in Hin.
  destruct (Hin m Hm). assert (rb_start m <= body_start m) by (unfold body_start; lia).
  assert (∀ c d, d <= ts ∨ ee <= c → agree c d bytes out) as Hag.
  { intros c d Hcd. eapply put_range_agree; [done|]. lia. }
  assert (∀ x, x ∈ top → agree (rb_start x) (body_start x) bytes out) as Hh.
  { intros x Hx. apply Hag. destruct (decide (x = m)) as [->|Hne]; [lia|].
    destruct (Hin x Hx). destruct (boxes_disjoint _ _ _ _ _ _ Hbf Hin' Hx Hm Hne);
      unfold body_start, box_end in *; lia. }
  assert (agree (rb_start (ml_meta ml)) (box_end (ml_meta ml)) bytes out) as Hmeta.
  { apply Hag. assert (ml_meta ml ≠ m) as Hne.
    { intros Heq. rewrite Heq, w_mdat0 in Hmk. by vm_compute in Hmk. }
    destruct (boxes_disjoint _ _ _ _ _ _ Hbf Hin' Hmt Hm Hne); lia. }
  pose proof (put_range_length _ _ _ _ Hput) as Hlen.
  split_and!; [by eapply find_meta_layout_agree|done|].
  split; try done; try lia.
  - rewrite <- w_prefix0. symmetry. eapply agree_get_range; [apply (Hag start (start + 4))|..]; lia.
  - exists top. split; [|done]. rewrite Hlen. by eapply scan_raw_boxes_agree.
Qed.

(** A successful rewrite, taken apart. *)
Lemma rewrite_exif_Ok bytes dt off out :
  rewrite_exif_capture_time bytes dt off = Ok (Some out) →
  ∃ ml iinf id layout ts ee item extent start prefix m tiff tiff',
    find_meta_layout bytes = Ok ml ∧ parse_iinf bytes (ml_iinf ml) = Ok iinf
    ∧ select_exif_item_id bytes (ml_iref ml) (ml_primary ml) (exif_item_ids iinf) (item_ids iinf) = Ok (Some id)
    ∧ parse_iloc bytes (ml_iloc ml) = Ok layout
    ∧ writable bytes layout id ts ee item extent start prefix m
    ∧ get_range bytes ts ee = Some tiff ∧ rewrite_tiff tiff dt off = Ok (Some tiff')
    ∧ put_range bytes ts tiff' = Some out.
Proof.
  unfold rewrite_exif_capture_time. destruct (_ || _); [done|].
  intros (ml & Hml & (iinf & Hi & (id & Hs & H)%bind_Ok)%bind_Ok)%bind_Ok. destruct id as [id|]; [|done].
  apply bind_Ok in H as (layout & Hl & ([ts ee] & Hw & (tiff & Ht%ok_or_Ok & (rw & Hr & H)%bind_Ok)%bind_Ok)%bind_Ok).
  destruct rw as [tiff'|]; [|done]. apply bind_Ok in H as (o & Ho%ok_or_Ok & [= ->]).
  apply writable_exif_extent_Ok in Hw as (item & extent & start & prefix & m & W).
  by exists ml, iinf, id, layout, ts, ee, item, extent, start, prefix, m, tiff, tiff'.
Qed.

Lemma extent_range_Ok it x a b :
  extent_range it x = Ok (a, b) → a = base_offset it + ie_offset x ∧ b = a + ie_length x.
Proof.
  unfold extent_range. intros (st & Hs%ok_or_Ok & (n & Hn%ok_or_Ok & (e & He%ok_or_Ok & [= <- <-])%bind_Ok)%bind_Ok)%bind_Ok.
  apply bind_Some in Hs as (o & [-> _]%checked_add_Some & [-> _]%try_from_Some).
  apply try_from_Some in Hn as [-> _]. apply checked_add_Some in He as [-> _]. lia.
Qed.

(** ** Facts: every operation returns *)

Lemma payload_length_safe n total es : safe (payload_length n total es).
Proof. revert total. induction es as [|x es IH]; intros total; cbn [payload_length]; safe_tac. Qed.

Lemma ascii_value_of_tag_safe tiff o tag e : safe (ascii_value_of_tag tiff o tag e).
Proof. unfold ascii_value_of_tag. safe_tac; auto using tiff_ascii_value_safe with kei. Qed.

Lemma extract_exif_tiff_bytes_safe bytes : file_ok bytes → safe (extract_exif_tiff_bytes bytes).
Proof.
  intros Hf. pose proof Hf as [_ Hlen]. unfold extract_exif_tiff_bytes.
  apply safe_bind; [by apply find_meta_layout_safe|]. intros ml (Hi & Hl & Hr)%find_meta_layout_in.
  apply safe_bind; [by apply parse_iinf_safe|]. intros ii _.
  apply safe_bind; [by apply select_exif_item_id_safe|]. intros [id|] _; [|safe_tac].
  apply safe_bind; [by apply parse_iloc_safe|]. intros layout _. apply safe_bind; [safe_tac|]. intros item _.
  case_match; [safe_tac|]. apply safe_bind; [apply resolve_item_extents_safe|]. intros es _.
  case_match; [safe_tac|]. apply safe_bind; [apply payload_length_safe|]. intros ? _. safe_tac.
Qed.

Lemma writable_exif_extent_safe bytes layout id : file_ok bytes → safe (writable_exif_extent bytes layout id).
Proof.
  intros [_ Hlen]. unfold writable_exif_extent, extent_is_within_mdat_payload. safe_tac.
  apply scan_raw_boxes_safe; [done|lia].
Qed.

Lemma rewrite_tiff_safe tiff dt off : safe (rewrite_tiff tiff dt off).
Proof.
  unfold rewrite_tiff. safe_tac;
    auto using tiff_capture_ifd_offsets_safe, tiff_ascii_range_safe, validate_tiff_patch_ranges_safe,
      replace_tiff_ascii_safe with kei.
Qed.

(** ** Properties *)

(** C1: a repaired HEIF file carries the repaired capture time. Whenever the
    in-place rewrite succeeds, reading the capture time of the output gives
    exactly the timestamp and offset that were written (trimmed, as the
    reader trims): the rewrite destroyed neither the box structure, nor the
    item tables, nor the TIFF directories the reader goes through. *)
Theorem rewrite_exif_reads_back bytes dt off out :
  file_ok bytes → rewrite_exif_capture_time bytes dt off = Ok (Some out) →
  extract_exif_capture_time out
  = Ok (Some {| datetime_original := Some (trim dt); offset_time_original := Some (trim off) |}).
Proof.
  intros [Hok _] (ml & iinf & id & layout & ts & ee & item & ext & start & prefix & m & tiff & tiff'
    & Hml & Hi & Hs & Hl & W & Ht & Hrw & Hput)%rewrite_exif_Ok.
  pose proof (get_range_length _ _ _ _ Ht) as Hlen.
  apply rewrite_tiff_Ok in Hrw as (e & o & xo & d & f & rd & rf & _ & _ & _ & _ & _ & _ & _ & _ & _
    & [Hsl _] & Hcap & Hd & Hf); [|by eapply get_range_bytes_ok].
  rewrite <- Hsl in Hlen. destruct (put_writable _ _ _ _ _ _ _ _ _ _ _ _ _ Hml W Hok Hput Hlen) as (Hml' & Hag & W').
  destruct (item_tables_agree _ _ _ Hml Hag) as (Hi' & Hl' & Hs').
  assert (get_range out ts ee = Some tiff') as Ht'.
  { pose proof (put_range_inside _ _ _ _ Hput) as Hin. rewrite Hlen in Hin.
    by replace (ts + (ee - ts)) with ee in Hin by lia. }
  assert (extract_exif_tiff_bytes out = Ok (Some tiff')) as Hx.
  { eapply extract_writable; [exact Hml'|by rewrite Hi'|by rewrite Hs'|by rewrite Hl'| |exact W'|exact Ht'].
    by eapply from_be_bytes_bound, get_range_bytes_ok, (w_prefix _ _ _ _ _ _ _ _ _ _ W). }
  unfold extract_exif_capture_time. rewrite Hx. cbn [mbind result_bind]. rewrite Hcap. cbn [mbind result_bind].
  rewrite Hd. cbn [mbind result_bind]. by rewrite Hf.
Qed.

(** A sample file is a sequence of bytes of a representable length. *)
Definition file_okb (bytes : list Z) : bool :=
  forallb (λ b, (0 <=? b) && (b <? 256)) bytes && (zlen bytes <=? ISIZE_MAX).
Lemma file_okb_true bytes : file_okb bytes = true → file_ok bytes.
Proof.
  unfold file_okb. intros [Hb Hl%Z.leb_le]%andb_true_iff. split; [|done].
  apply Forall_forall. intros b Hin%list_elem_of_In. rewrite forallb_forall in Hb.
  specialize (Hb b Hin). unfold byte. zbool. lia.
Qed.

(** The result of a rewrite that is known to succeed. *)
Definition rewritten (bytes : list Z) (dt off : str) : list Z :=
  match rewrite_exif_capture_time bytes dt off with Ok (Some out) => out | _ => [] end.
Lemma rewritten_eq bytes dt off :
  bool_decide (rewritten bytes dt off ≠ []) = true →
  rewrite_exif_capture_time bytes dt off = Ok (Some (rewritten bytes dt off)).
Proof.
  unfold rewritten. intros H%bool_decide_eq_true.
  destruct (rewrite_exif_capture_time bytes dt off) as [[o|]|]; done.
Qed.

Lemma rewrite_exif_reads_back_witness :
  extract_exif_capture_time
    (rewritten (sample_heic sample_tiff) (lit "2023:12:31 23:59:59") (lit "-08:00"))
  = Ok (Some {| datetime_original := Some (trim (lit "2023:12:31 23:59:59"));
                offset_time_original := Some (trim (lit "-08:00")) |}).
Proof.
  apply (rewrite_exif_reads_back (sample_heic sample_tiff)).
  - apply file_okb_true. vm_compute. reflexivity.
  - apply rewritten_eq. vm_compute. reflexivity.
Defined.

(** C24: a repair changes the two fields and nothing else. A successful
    rewrite keeps the length of the file and every byte outside the two
    fields of the TIFF data that [DateTimeOriginal] and [OffsetTimeOriginal]
    own; the item tables still read the same, and every other item stored in
    the file keeps its bytes. *)
Theorem rewrite_exif_changes_only_fields bytes dt off out :
  file_ok bytes → rewrite_exif_capture_time bytes dt off = Ok (Some out) →
  ∃ ml layout id tiff ts e o xo d f rd rf,
    find_meta_layout bytes = Ok ml ∧ find_meta_layout out = Ok ml
    ∧ parse_iloc bytes (ml_iloc ml) = Ok layout ∧ parse_iloc out (ml_iloc ml) = Ok layout
    ∧ extract_exif_tiff_bytes bytes = Ok (Some tiff)
    ∧ get_range bytes ts (ts + zlen tiff) = Some tiff
    ∧ tiff_capture_ifd_offsets tiff = Ok (e, o, Some xo)
    ∧ find_tiff_entry tiff xo 36867 e = Ok (Some d) ∧ tiff_ascii_range tiff d = Ok rd
    ∧ find_tiff_entry tiff xo 36881 e = Ok (Some f) ∧ tiff_ascii_range tiff f = Ok rf
    ∧ same_outside (ts + rd.1, ts + rd.2) (ts + rf.1, ts + rf.2) bytes out
    ∧ ∀ item, item ∈ items layout → item_id item ≠ id → construction_method item = 0 →
        resolve_item_extents out item = resolve_item_extents bytes item.
Proof.
  intros [Hok _] (ml & iinf & id & layout & ts & ee & item & ext & start & prefix & m & tiff & tiff'
    & Hml & Hi & Hs & Hl & W & Ht & Hrw & Hput)%rewrite_exif_Ok.
  pose proof (get_range_length _ _ _ _ Ht) as Hlen.
  assert (0 <= from_be_bytes prefix) as Hpre.
  { by eapply from_be_bytes_bound, get_range_bytes_ok, (w_prefix _ _ _ _ _ _ _ _ _ _ W). }
  apply rewrite_tiff_Ok in Hrw as (e & o & xo & d & f & rd & rf & Hcap & Hd & Hrd & Hf & Hrf & ? & ? & ? & ?
    & [Hsl Hsame] & _); [|by eapply get_range_bytes_ok].
  assert (zlen tiff' = ee - ts) as Hlen' by lia.
  destruct (put_writable _ _ _ _ _ _ _ _ _ _ _ _ _ Hml W Hok Hput Hlen') as (Hml' & Hag & W').
  destruct (item_tables_agree _ _ _ Hml Hag) as (_ & Hl' & _).
  pose proof (put_range_length _ _ _ _ Hput) as Hol.
  pose proof Ht as (Hts & Hte & _)%get_range_Some.
  exists ml, layout, id, tiff, ts, e, o, xo, d, f, rd, rf. split_and!; try done; [by rewrite Hl'| |..].
  - by eapply extract_writable.
  - by replace (ts + zlen tiff) with ee by lia.
  - split; [done|]. cbn. intros i Hi1 Hi2.
    destruct (decide (ts <= Z.of_nat i < ee)) as [Hin|Hout]; [|eapply put_range_outside; [done|lia]].
    pose proof (put_range_inside _ _ _ _ Hput) as Hpi.
    pose proof (get_range_lookup _ _ _ _ (Z.of_nat i - ts) Hpi ltac:(lia)) as Hnew.
    pose proof (get_range_lookup _ _ _ _ (Z.of_nat i - ts) Ht ltac:(lia)) as Hold.
    replace (Z.to_nat (ts + (Z.of_nat i - ts))) with i in * by lia.
    rewrite <- Hnew, <- Hold. apply Hsame; lia.
  - intros it Hit Hne Hm. pose proof (w_shared _ _ _ _ _ _ _ _ _ _ W) as Hsh.
    pose proof W as []. unfold resolve_item_extents.
    assert (∀ x, x ∈ extents it → ∀ a b, extent_range it x = Ok (a, b) → get_range out a b = get_range bytes a b) as Hx.
    { intros x Hx a b Hab. symmetry. eapply agree_get_range; [|done..]. eapply put_range_agree; [done|].
      destruct (proj1 (item_extent_is_shared_exact _ _ _ _) Hsh) as [_ Hall].
      destruct (Hall it x Hit Hne Hm Hx) as (_ & _ & Hdis).
      apply extent_range_Ok in Hab as [-> ->]. lia. }
    revert Hx. induction (extents it) as [|x es IH]; intros Hx; [done|]. cbn [resolve_extents].
    destruct (extent_range it x) as [[a b]|] eqn:Hr; [|done]. cbn [mbind result_bind].
    rewrite (Hx x ltac:(set_solver) a b Hr), IH; [done|]. intros y Hy. apply Hx. set_solver.
Qed.

Lemma rewrite_exif_changes_only_fields_witness :
  let bytes := sample_heic sample_tiff in
  let out := rewritten bytes (lit "2023:12:31 23:59:59") (lit "-08:00") in
  ∃ ml layout id tiff ts e o xo d f rd rf,
    find_meta_layout bytes = Ok ml ∧ find_meta_layout out = Ok ml
    ∧ parse_iloc bytes (ml_iloc ml) = Ok layout ∧ parse_iloc out (ml_iloc ml) = Ok layout
    ∧ extract_exif_tiff_bytes bytes = Ok (Some tiff)
    ∧ get_range bytes ts (ts + zlen tiff) = Some tiff
    ∧ tiff_capture_ifd_offsets tiff = Ok (e, o, Some xo)
    ∧ find_tiff_entry tiff xo 36867 e = Ok (Some d) ∧ tiff_ascii_range tiff d = Ok rd
    ∧ find_tiff_entry tiff xo 36881 e = Ok (Some f) ∧ tiff_ascii_range tiff f = Ok rf
    ∧ same_outside (ts + rd.1, ts + rd.2) (ts + rf.1, ts + rf.2) bytes out
    ∧ ∀ item, item ∈ items layout → item_id item ≠ id → construction_method item = 0 →
        resolve_item_extents out item = resolve_item_extents bytes item.
Proof.
  intros bytes out. apply (rewrite_exif_changes_only_fields bytes (lit "2023:12:31 23:59:59") (lit "-08:00")).
  - apply file_okb_true. vm_compute. reflexivity.
  - apply rewritten_eq. vm_compute. reflexivity.
Defined.

(** the Exif code never panics. On every file, reading the capture time
    and repairing it return a value or a layout error; in particular the walk
    over linked TIFF directories ends even when they form a cycle. *)
Theorem exif_capture_time_never_panics bytes :
  file_ok bytes →
  safe (extract_exif_capture_time bytes)
  ∧ ∀ dt off, safe (rewrite_exif_capture_time bytes dt off).
Proof.
  intros Hf. pose proof Hf as [_ Hlen].
  assert (∀ ml, find_meta_layout bytes = Ok ml →
     safe (parse_iinf bytes (ml_iinf ml)) ∧ safe (parse_iloc bytes (ml_iloc ml))
     ∧ ∀ ids known, safe (select_exif_item_id bytes (ml_iref ml) (ml_primary ml) ids known)) as Hparts.
  { intros ml (Hi & Hl & Hr)%find_meta_layout_in.
    split_and!; [by apply parse_iinf_safe|by apply parse_iloc_safe|intros; by apply select_exif_item_id_safe]. }
  split.
  - unfold extract_exif_capture_time. apply safe_bind; [by apply extract_exif_tiff_bytes_safe|].
    intros [tiff|] _; [|safe_tac]. apply safe_bind; [apply tiff_capture_ifd_offsets_safe|].
    intros [[e o] [xo|]] _; [|safe_tac]. apply safe_bind; [apply ascii_value_of_tag_safe|]. intros d _.
    apply safe_bind; [apply ascii_value_of_tag_safe|]. intros ? _. safe_tac.
  - intros dt off. unfold rewrite_exif_capture_time. case_match; [safe_tac|].
    apply safe_bind; [by apply find_meta_layout_safe|]. intros ml (Hi & Hl & Hs)%Hparts.
    apply safe_bind; [done|]. intros ii _. apply safe_bind; [done|]. intros [id|] _; [|safe_tac].
    apply safe_bind; [done|]. intros layout _.
    apply safe_bind; [by apply writable_exif_extent_safe|]. intros [ts ee] _.
    apply safe_bind; [safe_tac|]. intros tiff _. apply safe_bind; [apply rewrite_tiff_safe|]. intros [t|] _; safe_tac.
Qed.

Lemma exif_capture_time_never_panics_witness :
  safe (extract_exif_capture_time sample_boxes).
Proof. apply (exif_capture_time_never_panics sample_boxes). apply file_okb_true. vm_compute. reflexivity. Defined.
