(* ===== verification/Content.v ===== *)
(** * Content checks of a download: [src/download/file.rs]

    What a response and the first bytes of a downloaded file must look like:
    the content types that prove an error document, the [Content-Range] of a
    resumed response, error-page sentinels and the media signatures of the
    known extensions.  A header is a list of bytes. *)
From S2P Require Import Prelude RustStr Paths Retry HeifBox.

(** ** String and slice functions of the standard library *)

(** [str::split_once(c)]: at the first occurrence. *)
Fixpoint split_once (c : Z) (s : str) : option (str * str) :=
  match s with
  | [] => None
  | x :: r => if x =? c then Some ([], r) else '(a, b) ← split_once c r; Some (x :: a, b)
  end.

(** [str::split_whitespace]: the maximal runs without white space. *)
Fixpoint split_whitespace_go (word : str) (s : str) : list str :=
  match s with
  | [] => if bool_decide (word = []) then [] else [rev word]
  | c :: r =>
      if is_whitespace c then
        if bool_decide (word = []) then split_whitespace_go [] r else rev word :: split_whitespace_go [] r
      else split_whitespace_go (c :: word) r
  end.
Definition split_whitespace (s : str) : list str := split_whitespace_go [] s.

(** [Path::extension]: a name that starts with its only dot has none. *)
Definition extension (p : path) : option str :=
  name ← file_name p;
  '(stem, e) ← rsplit_once DOT name;
  if bool_decide (stem = []) then None else Some e.

(** [u8::is_ascii_whitespace]. *)
Definition is_ascii_whitespace (b : Z) : bool :=
  (b =? 32) || (b =? 9) || (b =? 10) || (b =? 12) || (b =? 13).

(** [header.len() >= p.len() && header[..p.len()].eq_ignore_ascii_case(p)]. *)
Definition has_prefix_ignore_case (p header : list Z) : bool :=
  (zlen p <=? zlen header) && eq_ignore_ascii_case (take (length p) header) p.

(** [header[a..b] == p], after the code's check that [b <= header.len()]. *)
Definition bytes_at (a b : Z) (p header : list Z) : bool :=
  match get_range header a b with Some s => bool_decide (s = p) | None => false end.

(** [{bytes:02x?}]. *)
Fixpoint join_with (sep : str) (l : list str) : str :=
  match l with
  | [] => []
  | [x] => x
  | x :: l => x ++ sep ++ join_with sep l
  end.
Definition debug_hex (bs : list Z) : str := lit "[" ++ join_with (lit ", ") (map hex2 bs) ++ lit "]".

(** ** Response headers *)

Definition rejecting_content_type_reason (content_type : str) : option str :=
  let essence := to_ascii_lowercase (trim (hd content_type (split_char 59 content_type))) in
  if str_eqb essence (lit "text/html") || str_eqb essence (lit "application/xhtml+xml") then Some (lit "HTML")
  else if str_eqb essence (lit "application/json") || str_eqb essence (lit "text/json") then Some (lit "JSON")
  else if starts_with (rev (lit "+json")) (rev essence) then Some (lit "JSON")
  else None.

Definition parse_content_range_start (content_range : str) : option Z :=
  let parts := split_whitespace content_range in
  match parts with
  | [unit; range_and_total] =>
      if eq_ignore_ascii_case unit (lit "bytes") then
        '(range, _) ← split_once SLASH range_and_total;
        '(start, end_) ← split_once 45 range;
        start ← parse_u64 start;
        end_ ← parse_u64 end_;
        if end_ <? start then None else Some start
      else None
  | _ => None
  end.

Section Errors.
Context {IoError BoxError AnyError : Type}.
Abbreviation Error := (DownloadError IoError BoxError AnyError).

Definition validate_resume_content_range (content_range : option str) (resume_offset : Z) (path : str)
    : result Error unit :=
  match content_range with
  | None => Err (InvalidContent path (lit "206 Partial Content response omitted Content-Range for resume"))
  | Some content_range =>
      match parse_content_range_start content_range with
      | None => Err (InvalidContent path (lit "malformed Content-Range for resume: " ++ content_range))
      | Some start =>
          ensure (start =? resume_offset)
            (InvalidContent path (lit "Content-Range start " ++ show_u64 start
               ++ lit " does not match existing .part size " ++ show_u64 resume_offset))
      end
  end.

(** ** The first bytes of the file *)

Definition HTML_PREFIXES : list (list Z) := [lit "<!doctype"; lit "<html"].
Definition QUOTE : Z := 34.
Definition json_key (k : string) : list Z := lit "{" ++ [QUOTE] ++ lit k ++ [QUOTE].
Definition JSON_PREFIXES : list (list Z) := map json_key ["error"; "errors"; "message"; "code"]%string.

Definition detect_error_sentinel (header : list Z) : option str :=
  (* without a byte that is not white space, [position] is [None] and the whole header is kept *)
  let trimmed := match trim_start_matches is_ascii_whitespace header with [] => header | t => t end in
  if existsb (λ p, has_prefix_ignore_case p trimmed) HTML_PREFIXES then
    Some (lit "file starts with HTML markup (likely a CDN error page)")
  else if existsb (λ p, has_prefix_ignore_case p trimmed) JSON_PREFIXES then
    Some (lit "file starts with a JSON error envelope (likely a CDN error body)")
  else None.

Definition is_mov_top_atom (atom : list Z) : bool :=
  existsb (λ k, bool_decide (atom = fourcc k)) ["ftyp"; "wide"; "mdat"; "moov"; "free"; "skip"; "pnot"]%string.

Definition classify_magic (ext : str) (header : list Z) : option bool :=
  let n := zlen header in
  let among := existsb (λ k, str_eqb ext (lit k)) in
  if among ["jpg"; "jpeg"]%string then Some ((2 <=? n) && bytes_at 0 2 [255; 216] header)
  else if among ["png"]%string then Some ((4 <=? n) && bytes_at 0 4 [137; 80; 78; 71] header)
  else if among ["heic"; "heif"; "mp4"; "m4v"]%string then Some ((8 <=? n) && bytes_at 4 8 (fourcc "ftyp") header)
  else if among ["mov"]%string then
    Some ((8 <=? n) && match get_range header 4 8 with Some atom => is_mov_top_atom atom | None => false end)
  else if among ["gif"]%string then Some ((4 <=? n) && bytes_at 0 4 (fourcc "GIF8") header)
  else if among ["tiff"; "tif"; "dng"]%string then
    Some ((4 <=? n) && (bytes_at 0 4 [73; 73; 42; 0] header || bytes_at 0 4 [77; 77; 0; 42] header))
  else if among ["webp"]%string then
    Some ((12 <=? n) && bytes_at 0 4 (fourcc "RIFF") header && bytes_at 8 12 (fourcc "WEBP") header)
  else None.

Definition magic_is (ext : string) (header : list Z) : bool :=
  bool_decide (classify_magic (lit ext) header = Some true).

Definition classify_known_media_magic (header : list Z) : option str :=
  if magic_is "jpg" header then Some (lit "JPEG")
  else if magic_is "png" header then Some (lit "PNG")
  else if magic_is "gif" header then Some (lit "GIF")
  else if magic_is "tiff" header then Some (lit "TIFF/DNG")
  else if magic_is "webp" header then Some (lit "WebP")
  else if magic_is "heic" header then Some (lit "ISO-BMFF media")
  else if magic_is "mov" header then Some (lit "QuickTime MOV")
  else None.

(** The part of [validate_downloaded_content] after the file is open: [header]
    is what the one [read] into the 16-byte buffer returned. *)
Definition check_header (download_path : path) (header : list Z) : result Error unit :=
  if zlen header =? 0 then Err (InvalidContent download_path (lit "downloaded file is empty (zero bytes)"))
  else
    match detect_error_sentinel header with
    | Some reason => Err (InvalidContent download_path reason)
    | None =>
        let ext := to_ascii_lowercase (default [] (extension download_path)) in
        if bool_decide (classify_magic ext header = Some false) then
          match classify_known_media_magic header with
          | Some _ => Ok tt
          | None =>
              Err (InvalidContent download_path
                     (lit "file header does not match expected ." ++ ext
                      ++ lit " media and is not recognized as another supported media type (first bytes: "
                      ++ debug_hex (take 8 header) ++ lit ")"))
          end
        else Ok tt
    end.
End Errors.

(** ** Local sizes against the recorded ones *)

Inductive LocalFileSizeExpectation :=
| AtLeastProvider (provider_size : Z)
| ExactProvider (provider_size : Z).

Definition accepts (e : LocalFileSizeExpectation) (actual_size : Z) : bool :=
  match e with
  | AtLeastProvider provider_size => (provider_size =? 0) || (provider_size <=? actual_size)
  | ExactProvider provider_size => actual_size =? provider_size
  end.
