(* ===== verification/Disk.v ===== *)
(** * The file system the downloader works on

    Entries by path, and one state transition per file-system call of
    [src/download/file.rs] and [src/fs_util.rs].  Other processes run between
    the calls: before each one [interfere] rewrites the file system, and
    [fault] decides whether the call fails.  Symbolic links are not modelled,
    and a write goes to the entry its path names. *)
From S2P Require Import Prelude RustStr.

(** ** State *)

Record File := { f_bytes : list Z; f_mtime : option Z (* nanoseconds; [None]: the platform has none *) }.
Inductive Entry := Regular (f : File) | Directory (len : Z) (mtime : option Z).

#[export] Instance File_eq_dec : EqDecision File.
Proof. solve_decision. Defined.
#[export] Instance Entry_eq_dec : EqDecision Entry.
Proof. solve_decision. Defined.

Abbreviation Fs := (gmap path Entry).

(** Two entries that hold the same: bytes, whatever the time. *)
Definition same_content (a b : Entry) : bool :=
  match a, b with
  | Regular f, Regular g => bool_decide (f_bytes f = f_bytes g)
  | Directory len _, Directory len' _ => len =? len'
  | _, _ => false
  end.

(** The entries of [fs] whose content is nowhere in [fs']. *)
Definition lost (fs fs' : Fs) : list (path * Entry) :=
  List.filter (λ pe, negb (existsb (λ qe, same_content pe.2 qe.2) (map_to_list fs'))) (map_to_list fs).

(** [w_tick] counts the calls made; [w_lost] is a ghost log of what the
    program's own calls destroyed: every entry whose content a call made
    disappear from the file system, be it by removing, by overwriting or by
    renaming over it. *)
Record World := { w_fs : Fs; w_tick : nat; w_lost : list (path * Entry) }.

(** [std::io::ErrorKind]; [Unsupported] is one of the raw errors [ENOSYS],
    [EINVAL] and [EOPNOTSUPP]. *)
Inductive IoKind := NotFound | AlreadyExists | Unsupported | IoOther.
#[export] Instance IoKind_eq_dec : EqDecision IoKind.
Proof. solve_decision. Defined.

(** A failing call: its error, and how many bytes a failing write wrote. *)
Record Fault := { fault_kind : IoKind; fault_written : nat }.

Class DiskEnv := {
  interfere : nat → Fs → Fs;
  fault : nat → option Fault;
  clock : nat → Z;
}.

(** ** The monad *)

Definition Disk (A : Type) : Type := World → World * A.
#[export] Instance Disk_ret : MRet Disk := λ A a w, (w, a).
#[export] Instance Disk_bind : MBind Disk := λ A B f m w, let '(w', a) := m w in f a w'.

(** [?] on a fallible step. *)
Definition bind_try {E A B} (m : Disk (result E A)) (f : A → Disk (result E B)) : Disk (result E B) :=
  r ← m; match r with Ok a => f a | Err e => mret (Err e) end.
Notation "x ←? m ; k" := (bind_try m (λ x, k))
  (at level 20, m at level 100, k at level 200, only parsing) : stdpp_scope.
Notation "' pat ←? m ; k" := (bind_try m (λ x, match x with pat => k end))
  (at level 20, pat pattern, m at level 100, k at level 200, only parsing) : stdpp_scope.

(** [.map_err(f)]. *)
Definition map_err {E E' A} (f : E → E') (r : result E A) : result E' A :=
  match r with Ok a => Ok a | Err e => Err (f e) end.
Definition map_err_io {E E' A} (f : E → E') (m : Disk (result E A)) : Disk (result E' A) :=
  r ← m; mret (map_err f r).

Section Calls.
Context `{DiskEnv}.

(** One call: the other processes run, then it fails or takes effect at the
    time [clock] tells. *)
Definition call {A : Type} (partial : nat → Z → Fs → Fs) (effect : Z → Fs → result IoKind (Fs * A)%type) : Disk (result IoKind A) :=
  λ w,
    let t := w_tick w in
    let fs := interfere t (w_fs w) in
    let w' fs' := {| w_fs := fs'; w_tick := S t; w_lost := w_lost w ++ lost fs fs' |} in
    match fault t with
    | Some f => (w' (partial (fault_written f) (clock t) fs), Err (fault_kind f))
    | None =>
        match effect (clock t) fs with
        | Ok (fs', a) => (w' fs', Ok a)
        | Err e => (w' fs, Err e)
        end
    end.

Definition query {A : Type} (f : Fs → result IoKind A) : Disk (result IoKind A) :=
  call (λ _ _ fs, fs) (λ _ fs, a ← f fs; Ok (fs, a)).
Definition update (f : Z → Fs → result IoKind Fs) : Disk (result IoKind unit) :=
  call (λ _ _ fs, fs) (λ now fs, fs' ← f now fs; Ok (fs', tt)).

(** ** Calls *)

Definition entry_len (e : Entry) : Z := match e with Regular f => zlen (f_bytes f) | Directory len _ => len end.
Definition entry_mtime (e : Entry) : option Z := match e with Regular f => f_mtime f | Directory _ m => m end.
Definition is_file (e : Entry) : bool := match e with Regular _ => true | Directory _ _ => false end.

Definition lookup_entry (p : path) (fs : Fs) : result IoKind Entry := ok_or NotFound (fs !! p).

(** [fs::metadata], [fs::symlink_metadata]: the entry's kind, length and time. *)
Definition metadata (p : path) : Disk (result IoKind Entry) := query (lookup_entry p).

(** [Path::try_exists]. *)
Definition try_exists (p : path) : Disk (result IoKind bool) := query (λ fs, Ok (bool_decide (is_Some (fs !! p)))).

(** [File::open] for reading, and reading what it names. *)
Definition read_file (p : path) : Disk (result IoKind (list Z)) :=
  query (λ fs, e ← lookup_entry p fs; match e with Regular f => Ok (f_bytes f) | Directory _ _ => Err IoOther end).

Definition remove_file (p : path) : Disk (result IoKind unit) :=
  update (λ _ fs, e ← lookup_entry p fs; match e with Regular _ => Ok (delete p fs) | Directory _ _ => Err IoOther end).

(** [src/fs_util.rs]: a failed clean-up is logged. *)
Definition log_remove (p : path) : Disk unit := _ ← remove_file p; mret tt.

(** [OpenOptions::new().write(true).create_new(true).open(p)]. *)
Definition create_new (p : path) : Disk (result IoKind unit) :=
  update (λ now fs,
    match fs !! p with
    | Some _ => Err AlreadyExists
    | None => Ok (<[p := Regular {| f_bytes := []; f_mtime := Some now |}]> fs)
    end).

(** [OpenOptions::new().write(true).append(true).open(p)]. *)
Definition open_append (p : path) : Disk (result IoKind unit) :=
  query (λ fs, e ← lookup_entry p fs; match e with Regular _ => Ok tt | Directory _ _ => Err IoOther end).

Definition append_bytes (p : path) (chunk : list Z) (now : Z) (fs : Fs) : Fs :=
  match fs !! p with
  | Some (Regular f) => <[p := Regular {| f_bytes := f_bytes f ++ chunk; f_mtime := Some now |}]> fs
  | _ => fs (* the open file has no name any more *)
  end.

(** [write_all] on the open file; a failing one may have written a prefix. *)
Definition write_all (p : path) (chunk : list Z) : Disk (result IoKind unit) :=
  call (λ written now fs, append_bytes p (take written chunk) now fs)
       (λ now fs, Ok (append_bytes p chunk now fs, tt)).

(** [flush], [sync_data], [fsync_parent_dir]: durability only. *)
Definition sync (p : path) : Disk (result IoKind unit) := query (λ _, Ok tt).

(** [renameat2] with [RENAME_NOREPLACE] and with [RENAME_EXCHANGE]. *)
Definition rename_no_replace (p q : path) : Disk (result IoKind unit) :=
  update (λ _ fs,
    e ← lookup_entry p fs;
    match fs !! q with Some _ => Err AlreadyExists | None => Ok (<[q := e]> (delete p fs)) end).
Definition rename_exchange (p q : path) : Disk (result IoKind unit) :=
  update (λ _ fs,
    a ← lookup_entry p fs; b ← lookup_entry q fs;
    Ok (<[q := a]> (<[p := b]> fs))).

(** [fs::hard_link]. *)
Definition hard_link (p q : path) : Disk (result IoKind unit) :=
  update (λ _ fs,
    e ← lookup_entry p fs;
    match e, fs !! q with
    | Directory _ _, _ => Err IoOther
    | _, Some _ => Err AlreadyExists
    | _, None => Ok (<[q := e]> fs)
    end).

(** [fs::copy]; a failing copy leaves a truncated destination. *)
Definition copy_bytes (p q : path) (cut : list Z → list Z) (now : Z) (fs : Fs) : result IoKind Fs :=
  e ← lookup_entry p fs;
  match e, fs !! q with
  | Regular f, (None | Some (Regular _)) =>
      Ok (<[q := Regular {| f_bytes := cut (f_bytes f); f_mtime := Some now |}]> fs)
  | _, _ => Err IoOther
  end.
Definition copy (p q : path) : Disk (result IoKind unit) :=
  call (λ written now fs, match copy_bytes p q (take written) now fs with Ok fs' => fs' | Err _ => fs end)
       (λ now fs, fs' ← copy_bytes p q id now fs; Ok (fs', tt)).

(** [set_file_mtime]. *)
Definition set_file_mtime (p : path) (ts : Z) : Disk (result IoKind unit) :=
  update (λ _ fs,
    e ← lookup_entry p fs;
    Ok (<[p := match e with
               | Regular f => Regular {| f_bytes := f_bytes f; f_mtime := Some ts |}
               | Directory len _ => Directory len (Some ts)
               end]> fs)).
End Calls.

(** ** Postconditions

    [wp m Q w]: run from [w], [m] ends in a world and with an answer that
    satisfy [Q]. *)
Definition wp {A} (m : Disk A) (Q : World → A → Prop) (w : World) : Prop := let '(w', a) := m w in Q w' a.

Section Wp.
Implicit Types w : World.

Lemma wp_mono {A} (m : Disk A) (Q Q' : World → A → Prop) w :
  wp m Q w → (∀ w' a, Q w' a → Q' w' a) → wp m Q' w.
Proof. unfold wp. destruct (m w). auto. Qed.

Lemma wp_ret {A} (a : A) (Q : World → A → Prop) w : Q w a → wp (mret a) Q w.
Proof. done. Qed.

Lemma wp_bind {A B} (m : Disk A) (f : A → Disk B) (Q : World → B → Prop) w :
  wp m (λ w' a, wp (f a) Q w') w → wp (m ≫= f) Q w.
Proof. unfold wp, mbind, Disk_bind. by destruct (m w). Qed.

Lemma wp_bind_try {E A B} (m : Disk (result E A)) (f : A → Disk (result E B)) Q w :
  wp m (λ w' r, match r with Ok a => wp (f a) Q w' | Err e => Q w' (Err e) end) w → wp (bind_try m f) Q w.
Proof. intros Hm. apply wp_bind. eapply wp_mono; [exact Hm|]. by intros w' [a|e] ?. Qed.

Lemma wp_map_err {E E' A} (g : E → E') (m : Disk (result E A)) Q w :
  wp m (λ w' r, Q w' (map_err g r)) w → wp (map_err_io g m) Q w.
Proof. intros Hm. apply wp_bind. eapply wp_mono; [exact Hm|]. done. Qed.

Lemma wp_pair {A} (m : Disk A) Q w : wp m Q w ↔ Q (m w).1 (m w).2.
Proof. unfold wp. by destruct (m w). Qed.
End Wp.

(** ** What calls destroy *)

Lemma same_content_refl e : same_content e e = true.
Proof. destruct e; cbn; [by apply bool_decide_eq_true|by apply Z.eqb_refl]. Qed.

Lemma lost_nil fs fs' :
  (∀ p e, fs !! p = Some e → ∃ q e', fs' !! q = Some e' ∧ same_content e e' = true) → lost fs fs' = [].
Proof.
  intros Hkeep. unfold lost. assert (∀ l, l ⊆ map_to_list fs →
    List.filter (λ pe, negb (existsb (λ qe, same_content pe.2 qe.2) (map_to_list fs'))) l = []) as H; [|by apply H].
  induction l as [|[p e] l IH]; intros Hl; cbn; [done|].
  destruct (Hkeep p e) as (q & e' & Hq & Hs); [apply elem_of_map_to_list, Hl; left|].
  assert (existsb (λ qe, same_content e qe.2) (map_to_list fs') = true) as ->.
  { apply existsb_exists. exists (q, e'). split; [by apply list_elem_of_In, elem_of_map_to_list|done]. }
  cbn. apply IH. intros x Hx. apply Hl. by right.
Qed.

Lemma lost_same fs : lost fs fs = [].
Proof. apply lost_nil. intros p e He. exists p, e. split; [done|apply same_content_refl]. Qed.
Lemma lost_insert_free fs q e : fs !! q = None → lost fs (<[q := e]> fs) = [].
Proof.
  intros Hq. apply lost_nil. intros p e' Hp. exists p, e'. split; [|apply same_content_refl].
  rewrite lookup_insert_ne; [done|congruence].
Qed.
Lemma lost_rename fs p q e : fs !! p = Some e → fs !! q = None → lost fs (<[q := e]> (delete p fs)) = [].
Proof.
  intros Hp Hq. apply lost_nil. intros x ex Hx. destruct (decide (x = p)) as [->|Hne].
  - exists q, e. split; [apply lookup_insert_eq|]. simplify_eq. apply same_content_refl.
  - exists x, ex. split; [|apply same_content_refl]. rewrite lookup_insert_ne, lookup_delete_ne by congruence. done.
Qed.
Lemma lost_exchange fs p q a b : fs !! p = Some a → fs !! q = Some b → lost fs (<[q := a]> (<[p := b]> fs)) = [].
Proof.
  intros Hp Hq. apply lost_nil. intros x ex Hx. destruct (decide (x = q)) as [->|Hnq].
  { destruct (decide (p = q)) as [->|Hpq].
    - exists q, a. split; [apply lookup_insert_eq|]. simplify_eq. apply same_content_refl.
    - exists p, b. split; [by rewrite lookup_insert_ne, lookup_insert_eq|]. simplify_eq. apply same_content_refl. }
  destruct (decide (x = p)) as [->|Hne].
  - exists q, a. split; [apply lookup_insert_eq|]. simplify_eq. apply same_content_refl.
  - exists x, ex. split; [|apply same_content_refl]. rewrite !lookup_insert_ne by congruence. done.
Qed.

(** A removal destroys at most the entry it removes. *)
Lemma lost_delete fs p e : fs !! p = Some e → lost fs (delete p fs) = [] ∨ lost fs (delete p fs) = [(p, e)].
Proof.
  intros Hp. assert (NoDup (lost fs (delete p fs))) as Hnd.
  { apply NoDup_ListNoDup, List.NoDup_filter, NoDup_ListNoDup, NoDup_map_to_list. }
  assert (∀ x, x ∈ lost fs (delete p fs) → x = (p, e)) as Hall.
  { intros [x ex] [Hx Hn]%list_elem_of_In%filter_In. apply list_elem_of_In, elem_of_map_to_list in Hx.
    destruct (decide (x = p)) as [->|Hne]; [by simplify_eq|]. exfalso. cbn in Hn. apply negb_true_iff in Hn.
    apply not_true_iff_false in Hn. apply Hn, existsb_exists. exists (x, ex). split; [|apply same_content_refl].
    by apply list_elem_of_In, elem_of_map_to_list; rewrite lookup_delete_ne. }
  destruct (lost fs (delete p fs)) as [|x [|y l]]; [by left|right; f_equal; apply Hall; left|exfalso].
  rewrite (Hall x), (Hall y) in Hnd by set_solver. apply NoDup_cons in Hnd as [Hn _]. apply Hn. left.
Qed.

(** ** Paths the other processes leave alone *)

Section Kept.
Context `{DiskEnv} (kept : path → Prop).

Definition env_keeps : Prop := ∀ t fs p, kept p → interfere t fs !! p = fs !! p.

(** From [w] to [w'] the program changed nothing. *)
Record untouched (w w' : World) : Prop := {
  untouched_lookup : ∀ p, kept p → w_fs w' !! p = w_fs w !! p;
  untouched_lost : w_lost w' = w_lost w;
}.

Lemma untouched_refl w : untouched w w.
Proof. done. Qed.
Lemma untouched_trans w1 w2 w3 : untouched w1 w2 → untouched w2 w3 → untouched w1 w3.
Proof. intros [L1 R1] [L2 R2]. split; [|congruence]. intros p Hp. by rewrite L2, L1. Qed.

Hypothesis Hkeeps : env_keeps.

Lemma wp_call {A : Type} (partial : nat → Z → Fs → Fs) (effect : Z → Fs → result IoKind (Fs * A)%type) Q w :
  (∀ w0 w' r, untouched w w0 → w_lost w' = w_lost w0 ++ lost (w_fs w0) (w_fs w') →
     match r with
     | Ok a => ∃ now, effect now (w_fs w0) = Ok (w_fs w', a)
     | Err k => (∃ n now, w_fs w' = partial n now (w_fs w0)) ∨ w_fs w' = w_fs w0
     end → Q w' r) →
  wp (call partial effect) Q w.
Proof.
  intros HQ. unfold wp, call.
  set (fs := interfere (w_tick w) (w_fs w)).
  assert (Hun : ∀ t, untouched w {| w_fs := fs; w_tick := t; w_lost := w_lost w |}).
  { intros t. split; [|done]. intros p Hp. by apply Hkeeps. }
  destruct (fault (w_tick w)) as [f|].
  { eapply (HQ _ _ _ (Hun 0%nat)); [done|]. left. by eexists _, _. }
  destruct (effect (clock (w_tick w)) fs) as [[fs' a]|k] eqn:He; apply (HQ _ _ _ (Hun 0%nat)); try done.
  - by eexists.
  - by right.
Qed.

Lemma wp_query {A : Type} (f : Fs → result IoKind A) Q w :
  (∀ w' r, untouched w w' → (∀ a, r = Ok a → f (w_fs w') = Ok a) → Q w' r) → wp (query f) Q w.
Proof.
  intros HQ. apply wp_call. intros w0 w' r [Hl Hr] Hr' Hcase.
  assert (Hfs : w_fs w' = w_fs w0).
  { destruct r as [a|k]; [|by destruct Hcase as [(? & ? & ?)|]].
    destruct Hcase as [now He]. by apply bind_Ok in He as (a' & Hf & [= -> ->]). }
  rewrite Hfs, lost_same, app_nil_r in Hr'. apply HQ.
  - split; [|congruence]. intros p Hp. rewrite Hfs. auto.
  - intros a ->. destruct Hcase as [now He]. apply bind_Ok in He as (a' & Hf & [= Hw ->]). by rewrite <- Hw.
Qed.

Lemma wp_update (g : Z → Fs → result IoKind Fs) Q w :
  (∀ w0 w' r, untouched w w0 →
     match r with
     | Ok _ => w_lost w' = w_lost w0 ++ lost (w_fs w0) (w_fs w') ∧ ∃ now, g now (w_fs w0) = Ok (w_fs w')
     | Err k => w_fs w' = w_fs w0 ∧ untouched w w'
     end → Q w' r) →
  wp (update g) Q w.
Proof.
  intros HQ. apply wp_call. intros w0 w' r Hun Hr Hcase. apply (HQ w0); [done|].
  destruct r as [[]|k].
  - split; [done|]. destruct Hcase as [now He]. apply bind_Ok in He as (fs' & Hg & [= ->]). by exists now.
  - assert (w_fs w' = w_fs w0) as Hw by (by destruct Hcase as [(? & ? & ?)|]). split; [done|].
    rewrite Hw, lost_same, app_nil_r in Hr. destruct Hun as [Hl Hr0]. split; [|congruence]. intros p Hp. rewrite Hw. auto.
Qed.

(** Removing a file other processes leave alone. *)
Lemma wp_remove_file p Q w : kept p →
  (∀ w' k, untouched w w' → Q w' (Err k)) →
  (∀ w' f, w_fs w !! p = Some (Regular f) → w_fs w' !! p = None →
     (∀ q, kept q → q ≠ p → w_fs w' !! q = w_fs w !! q) →
     w_lost w' = w_lost w ∨ w_lost w' = w_lost w ++ [(p, Regular f)] → Q w' (Ok tt)) →
  wp (remove_file p) Q w.
Proof.
  intros Hp Herr Hok. apply wp_update. intros w0 w' [[]|k] [Hl Hr0] Hcase; [|apply Herr; apply Hcase].
  destruct Hcase as [Hr [now He]]. apply bind_Ok in He as (e & Hlk & He). apply ok_or_Ok in Hlk.
  destruct e as [f|]; [|done]. injection He as Hfs. rewrite <- Hfs in Hr. eapply (Hok _ f).
  - by rewrite <- Hl.
  - by rewrite <- Hfs, lookup_delete_eq.
  - intros q Hq Hne. rewrite <- Hfs, lookup_delete_ne by done. auto.
  - rewrite <- Hr0. destruct (lost_delete _ _ _ Hlk) as [E|E]; rewrite E in Hr; [left; by rewrite app_nil_r in Hr|by right].
Qed.

Lemma wp_log_remove p Q w : kept p →
  (∀ w', untouched w w' → Q w' tt) →
  (∀ w' f, w_fs w !! p = Some (Regular f) → w_fs w' !! p = None →
     (∀ q, kept q → q ≠ p → w_fs w' !! q = w_fs w !! q) →
     w_lost w' = w_lost w ∨ w_lost w' = w_lost w ++ [(p, Regular f)] → Q w' tt) →
  wp (log_remove p) Q w.
Proof. intros Hp H1 H2. apply wp_bind. apply wp_remove_file; [done|..]; intros; apply wp_ret; eauto. Qed.

Lemma wp_sync p Q w : (∀ w' r, untouched w w' → Q w' r) → wp (sync p) Q w.
Proof. intros HQ. apply wp_query. auto. Qed.

Lemma wp_metadata p Q w :
  (∀ w' r, untouched w w' → (∀ e, r = Ok e → w_fs w' !! p = Some e) → Q w' r) → wp (metadata p) Q w.
Proof.
  intros HQ. apply wp_query. intros w' r Hun Hr. apply HQ; [done|]. intros e ->. by apply ok_or_Ok with NotFound, Hr.
Qed.

Lemma wp_read_file p Q w :
  (∀ w' r, untouched w w' → (∀ bs, r = Ok bs → ∃ f, w_fs w' !! p = Some (Regular f) ∧ bs = f_bytes f) → Q w' r) →
  wp (read_file p) Q w.
Proof.
  intros HQ. apply wp_query. intros w' r Hun Hr. apply HQ; [done|]. intros bs ->.
  specialize (Hr _ eq_refl). apply bind_Ok in Hr as (e & He & Hbs). apply ok_or_Ok in He.
  destruct e as [f|]; [|done]. injection Hbs as <-. by exists f.
Qed.
End Kept.
