(* ===== verification/Publish.v ===== *)
(** * Publishing a verified part file: [src/download/file.rs]

    How a finished [.part] file reaches its final path: never over an
    existing entry, or, for a planned repair, over exactly the bytes the
    plan saw.  The Linux variants of the platform functions are modelled.
    An [anyhow::Error] is the list of what its chain downcasts to, outermost
    context first. *)
From S2P Require Import Prelude RustStr Types Paths Content Disk.

(** ** Errors *)

Inductive ConditionalPublishTargetChanged :=
| AfterPlanning (p : path)
| DuringPublication (p : path)
| Unverifiable (p : path).

Inductive ErrorContext :=
| IsIo (k : IoKind)
| IsTargetChanged (c : ConditionalPublishTargetChanged)
| IsMustRetainPaths (paths : list path)
| IsFinalPathCollision (part_path final_path : path)
| IsMessage (text : string).
Definition AnyhowError := list ErrorContext.

#[export] Instance ConditionalPublishTargetChanged_eq_dec : EqDecision ConditionalPublishTargetChanged.
Proof. solve_decision. Defined.
#[export] Instance ErrorContext_eq_dec : EqDecision ErrorContext.
Proof. solve_decision. Defined.

(** [Result::context] and [Result::with_context] on an error. *)
Definition context (c : ErrorContext) (e : AnyhowError) : AnyhowError := c :: e.

Record ConditionalPublishErrorDisposition := { target_changed : bool; retained_paths : list path }.

Definition is_target_changed (c : ErrorContext) : bool := match c with IsTargetChanged _ => true | _ => false end.

Definition classify_conditional_publish_error (error : AnyhowError) : ConditionalPublishErrorDisposition :=
  {| target_changed := existsb is_target_changed error || bool_decide (IsIo NotFound ∈ error);
     retained_paths := match omap (λ c, match c with IsMustRetainPaths ps => Some ps | _ => None end) error with
                       | ps :: _ => ps
                       | [] => []
                       end |}.

(** ** Fingerprints *)

Record ExistingFileSnapshot := { fingerprint : ExistingFileFingerprint; prefix : list Z }.

Inductive PublishResult := Published | DestinationExists.
#[export] Instance PublishResult_eq_dec : EqDecision PublishResult.
Proof. solve_decision. Defined.

(** The SHA-256 of the [sha2] crate. *)
Class Sha := { sha256_digest : list Z → list Z }.

Section Publish.
Context `{DiskEnv, Sha}.
Abbreviation anyhow := (result AnyhowError).

Definition io_error (text : string) (k : IoKind) : AnyhowError := [IsMessage text; IsIo k].
Definition bail (text : string) : AnyhowError := [IsMessage text].

Definition fingerprint_of (bytes : list Z) : ExistingFileFingerprint :=
  {| fp_size := zlen bytes; fp_sha256 := sha256_digest bytes |}.

(** The file is read through one handle; its size is a [u64]. *)
Definition fingerprint_file_snapshot_blocking (p : path) : Disk (anyhow ExistingFileSnapshot) :=
  bytes ←? map_err_io (io_error "Could not open or read a file for SHA-256") (read_file p);
  mret (if zlen bytes <=? U64_MAX then Ok {| fingerprint := fingerprint_of bytes; prefix := take 12 bytes |}
        else Err (bail "Could not size a file for SHA-256")).

Definition fingerprint_file (p : path) : Disk (anyhow ExistingFileFingerprint) :=
  s ←? fingerprint_file_snapshot_blocking p; mret (Ok (fingerprint s)).

(** In lower-case hexadecimal. *)
Definition compute_sha256 (p : path) : Disk (anyhow str) :=
  f ←? fingerprint_file p; mret (Ok (concat (map hex2 (fp_sha256 f)))).

Definition fingerprint_regular_file_snapshot_blocking (p : path) : Disk (anyhow ExistingFileSnapshot) :=
  before ←? map_err_io (io_error "Could not inspect replacement file") (metadata p);
  if is_file before then
    snapshot ←? fingerprint_file_snapshot_blocking p;
    after ←? map_err_io (io_error "Could not recheck replacement file") (metadata p);
    if is_file after then mret (Ok snapshot)
    else mret (Err (bail "Replacement path changed away from a regular file"))
  else mret (Err (bail "Replacement path is not a regular file")).

Definition fingerprint_regular_file_blocking (p : path) : Disk (anyhow ExistingFileFingerprint) :=
  s ←? fingerprint_regular_file_snapshot_blocking p; mret (Ok (fingerprint s)).

(** The asynchronous [fingerprint_regular_file] makes the same calls. *)
Definition fingerprint_regular_file : path → Disk (anyhow ExistingFileFingerprint) :=
  fingerprint_regular_file_blocking.

(** ** Publication without replacement *)

Definition destination_exists_or (err : IoKind) (final_path : path) : Disk (result IoKind PublishResult) :=
  r ← try_exists final_path;
  mret (match r with Ok true => Ok DestinationExists | _ => Err err end).

Definition publish_part_by_hard_link (part_path final_path : path) : Disk (result IoKind PublishResult) :=
  r ← hard_link part_path final_path;
  match r with
  | Ok _ => log_remove part_path;; mret (Ok Published)
  | Err AlreadyExists => mret (Ok DestinationExists)
  | Err e => mret (Err e)
  end.

Definition publish_part_no_replace (part_path final_path : path) : Disk (result IoKind PublishResult) :=
  rename_result ← rename_no_replace part_path final_path;
  match rename_result with
  | Ok _ => mret (Ok Published)
  | Err AlreadyExists => mret (Ok DestinationExists)
  | Err Unsupported =>
      r ← publish_part_by_hard_link part_path final_path;
      match r with
      | Ok r => mret (Ok r)
      | Err link_err => destination_exists_or link_err final_path
      end
  | Err e => destination_exists_or e final_path
  end.

Definition fsync_parent_dir_best_effort (p : path) : Disk unit := _ ← sync p; mret tt.

(** ** Publication over exactly the expected bytes *)

(** [renameat2] with [RENAME_EXCHANGE]: the displaced bytes land at the part path. *)
Definition exchange_repair_files_blocking (part_path final_path : path) : Disk (anyhow path) :=
  _ ←? map_err_io (λ k, [IsIo k]) (rename_exchange part_path final_path);
  mret (Ok part_path).
Definition restore_exchanged_repair_files_blocking (part_path final_path displaced_path : path)
    : Disk (result IoKind unit) :=
  rename_exchange part_path final_path.

Definition retained_restore_paths (part_path displaced_path : path) : list path :=
  part_path :: (if bool_decide (displaced_path = part_path) then [] else [displaced_path]).

Definition unverifiable (p : path) : ErrorContext := IsTargetChanged (Unverifiable p).
Definition must_retain (ps : list path) : ErrorContext := IsMustRetainPaths ps.

Definition restore_repair_target_if_unchanged_with (part_path final_path displaced_path : path)
    (replacement : ExistingFileFingerprint) (restore : path → path → path → Disk (result IoKind unit))
    : Disk (anyhow bool) :=
  let refuse e := context (must_retain (retained_restore_paths part_path displaced_path))
                    (context (unverifiable final_path) e) in
  current ← fingerprint_regular_file_blocking final_path;
  if bool_decide (ok current = Some replacement) then
    restored ← restore part_path final_path displaced_path;
    match restored with
    | Err error => mret (Err (refuse [IsIo error]))
    | Ok _ =>
        displaced ← fingerprint_regular_file_blocking part_path;
        match displaced with
        | Ok displaced_replacement =>
            if bool_decide (displaced_replacement = replacement) then mret (Ok true)
            else mret (Err (refuse (bail "Restoring displaced different bytes")))
        | Err error =>
            mret (Err (refuse (context (IsMessage "Could not verify the entry displaced while restoring") error)))
        end
    end
  else mret (Ok false).

Definition restore_repair_target_if_unchanged_blocking (part_path final_path displaced_path : path)
    (replacement : ExistingFileFingerprint) : Disk (anyhow bool) :=
  restore_repair_target_if_unchanged_with part_path final_path displaced_path replacement
    restore_exchanged_repair_files_blocking.

(** The first checks: the target and the replacement are what was planned. *)
Definition replacement_approved (part_path final_path : path) (expected : ExistingFileFingerprint)
    (expected_replacement : option ExistingFileFingerprint) : Disk (anyhow ExistingFileFingerprint) :=
  current ← fingerprint_regular_file_blocking final_path;
  match current with
  | Err error => mret (Err (context (unverifiable final_path) error))
  | Ok current =>
      if bool_decide (current = expected) then
        replacement ← fingerprint_regular_file_blocking part_path;
        match replacement with
        | Err error =>
            mret (Err (context (must_retain [part_path])
                         (context (IsMessage "Could not verify replacement file") error)))
        | Ok replacement =>
            if match expected_replacement with Some approved => bool_decide (approved ≠ replacement) | None => false end then
              mret (Err (context (must_retain [part_path])
                           (bail "Refusing to publish because its bytes changed after validation")))
            else mret (Ok replacement)
        end
      else mret (Err [IsTargetChanged (AfterPlanning final_path)])
  end.

(** The exchange; a failed one is classified by what the target now holds. *)
Definition exchange_classified (part_path final_path : path) (expected : ExistingFileFingerprint)
    : Disk (anyhow path) :=
  r ← exchange_repair_files_blocking part_path final_path;
  match r with
  | Ok displaced_path => mret (Ok displaced_path)
  | Err error =>
      if target_changed (classify_conditional_publish_error error) then
        mret (Err (context (unverifiable final_path) error))
      else
        current ← fingerprint_regular_file_blocking final_path;
        mret (Err (if bool_decide (ok current = Some expected) then error
                   else context (unverifiable final_path) error))
  end.

(** After the exchange: the installed bytes are the validated ones. *)
Definition check_installed (final_path displaced_path : path)
    (expected_replacement : option ExistingFileFingerprint) : Disk (anyhow unit) :=
  match expected_replacement with
  | None => mret (Ok tt)
  | Some expected_replacement =>
      let refuse e := context (must_retain [displaced_path]) (context (unverifiable final_path) e) in
      installed ← fingerprint_regular_file_blocking final_path;
      match installed with
      | Ok installed =>
          if bool_decide (installed = expected_replacement) then mret (Ok tt)
          else mret (Err (refuse (bail "Published replacement no longer matches the validated bytes")))
      | Err error =>
          mret (Err (refuse (context (IsMessage "Could not verify the published replacement") error)))
      end
  end.

(** The displaced bytes are not the expected ones, or cannot be read: put them back. *)
Definition put_back (part_path final_path displaced_path : path) (replacement : ExistingFileFingerprint)
    (restored_error not_restored_error : AnyhowError) (restore_failed : string) : Disk (anyhow unit) :=
  restore_result ← restore_repair_target_if_unchanged_blocking part_path final_path displaced_path replacement;
  mret (match restore_result with
        | Ok true => Err restored_error
        | Ok false => Err (context (must_retain [displaced_path]) (context (unverifiable final_path) not_restored_error))
        | Err restore_error =>
            Err (context (unverifiable final_path) (context (IsMessage restore_failed) restore_error))
        end).

Definition replace_file_if_unchanged_blocking (part_path final_path : path)
    (expected : ExistingFileFingerprint) (expected_replacement : option ExistingFileFingerprint)
    : Disk (anyhow unit) :=
  replacement ←? replacement_approved part_path final_path expected expected_replacement;
  displaced_path ←? exchange_classified part_path final_path expected;
  _ ←? check_installed final_path displaced_path expected_replacement;
  displaced ← fingerprint_regular_file_blocking displaced_path;
  match displaced with
  | Err error =>
      put_back part_path final_path displaced_path replacement
        (context (IsTargetChanged (DuringPublication final_path)) error) error
        "Could not restore after displaced-target verification failed"
  | Ok displaced =>
      if bool_decide (displaced = expected) then
        log_remove displaced_path;;
        fsync_parent_dir_best_effort final_path;;
        mret (Ok tt)
      else
        put_back part_path final_path displaced_path replacement
          [IsTargetChanged (DuringPublication final_path)]
          (bail "Refusing to replace because its bytes changed during conditional publication")
          "Could not restore after its bytes changed during conditional publication"
  end.

Definition replace_file_if_unchanged (part_path final_path : path) (expected : ExistingFileFingerprint)
    : Disk (anyhow unit) :=
  replace_file_if_unchanged_blocking part_path final_path expected None.

Definition publish_file_if_unchanged_blocking (part_path final_path : path)
    (expected expected_replacement : ExistingFileFingerprint) : Disk (anyhow unit) :=
  replace_file_if_unchanged_blocking part_path final_path expected (Some expected_replacement).

(** ** The entry points *)

Definition publish_part_to_final (part_path final_path : path) (publication : FinalPublication)
    : Disk (anyhow unit) :=
  match publication with
  | ReplaceTruncated expected => replace_file_if_unchanged part_path final_path expected
  | NoReplace =>
      r ← publish_part_no_replace part_path final_path;
      match r with
      | Ok Published => fsync_parent_dir_best_effort final_path;; mret (Ok tt)
      | Ok DestinationExists =>
          part_fingerprint ←? fingerprint_regular_file part_path;
          final_fingerprint ←? fingerprint_regular_file final_path;
          if bool_decide (part_fingerprint = final_fingerprint) then
            _ ←? map_err_io (io_error "Could not remove redundant completed download") (remove_file part_path);
            mret (Ok tt)
          else mret (Err [IsFinalPathCollision part_path final_path])
      | Err e => mret (Err (io_error "Could not move completed download" e))
      end
  end.

Definition publish_file_if_unchanged (part_path final_path : path) (expected : option ExistingFileFingerprint)
    : Disk (anyhow unit) :=
  match expected with
  | Some expected => replace_file_if_unchanged part_path final_path expected
  | None =>
      r ← publish_part_no_replace part_path final_path;
      match r with
      | Ok Published => fsync_parent_dir_best_effort final_path;; mret (Ok tt)
      | Ok DestinationExists => mret (Err (bail "Refusing to publish because it appeared after write planning"))
      | Err e => mret (Err (io_error "Could not publish prepared file" e))
      end
  end.

(** [?] on an [io::Error] of a function that returns [anyhow::Result]. *)
Definition io {A} (m : Disk (result IoKind A)) : Disk (anyhow A) := map_err_io (λ k, [IsIo k]) m.

(** [part_path] is the destination's name with the suffix [-reconcile]; the
    destination's directory exists. *)
Definition copy_local_file_no_replace (source destination part_path : path) : Disk (anyhow (option str)) :=
  exists_ ←? io (try_exists destination);
  if exists_ then
    source_hash ←? compute_sha256 source;
    destination_hash ←? compute_sha256 destination;
    mret (Ok (if bool_decide (source_hash = destination_hash) then Some destination_hash else None))
  else
    log_remove part_path;;
    _ ←? io (copy source part_path);
    source_hash ←? compute_sha256 source;
    copied_hash ←? compute_sha256 part_path;
    if bool_decide (source_hash = copied_hash) then
      r ←? io (publish_part_no_replace part_path destination);
      match r with
      | Published => fsync_parent_dir_best_effort destination;; mret (Ok (Some copied_hash))
      | DestinationExists =>
          log_remove part_path;;
          destination_hash ←? compute_sha256 destination;
          mret (Ok (if bool_decide (source_hash = destination_hash) then Some destination_hash else None))
      end
    else
      log_remove part_path;;
      mret (Err (bail "local path reconciliation checksum mismatch")).

(** ** Trusting a local file by its size *)

Definition local_file_size_matches_state (p : path) (actual_size : Z) (expectation : LocalFileSizeExpectation)
    (local_checksum download_checksum : option str) : Disk (anyhow bool) :=
  if accepts expectation actual_size then mret (Ok true)
  else
    let metadata_changed_download :=
      match local_checksum, download_checksum with
      | Some local, Some download => negb (str_eqb local download)
      | _, _ => false
      end in
    if metadata_changed_download then
      actual_checksum ←? compute_sha256 p;
      mret (Ok (bool_decide (local_checksum = Some actual_checksum)))
    else mret (Ok false).
End Publish.
