(* ===== verification/PublishSpec.v ===== *)
(** * What publication promises

    Publication races with other processes that may rewrite the final path at
    any moment.  Nothing they put there is destroyed: the only entries the
    program removes are the bytes a repair was authorised to replace and
    redundant copies, and whatever a failed replacement leaves at the part
    path is reported or is the replacement itself. *)
From S2P Require Import Prelude RustStr Types Disk Publish.

Abbreviation retained e := (retained_paths (classify_conditional_publish_error e)).

Lemma retained_must_retain ps e : retained (context (must_retain ps) e) = ps.
Proof. done. Qed.
Lemma retained_unverifiable p e : retained (context (unverifiable p) e) = retained e.
Proof. done. Qed.
Lemma retained_message t e : retained (context (IsMessage t) e) = retained e.
Proof. done. Qed.

Section Rules.
Context `{DiskEnv, Sha} (kept : path → Prop) (Hkeeps : env_keeps kept).

(** The regular file at [p] has the fingerprint [fp]. *)
Definition holds_file (w : World) (p : path) (fp : ExistingFileFingerprint) : Prop :=
  ∃ f, w_fs w !! p = Some (Regular f) ∧ fingerprint_of (f_bytes f) = fp.

Lemma holds_file_untouched w w' p fp : kept p → untouched kept w w' → holds_file w p fp → holds_file w' p fp.
Proof. intros Hp [Hl _] (f & Hf & Hfp). exists f. by rewrite Hl. Qed.

Lemma wp_fingerprint_file_snapshot p Q w :
  (∀ w' r, untouched kept w w' → (∀ s, r = Ok s → holds_file w' p (fingerprint s)) → Q w' r) →
  wp (fingerprint_file_snapshot_blocking p) Q w.
Proof.
  intros HQ. apply wp_bind_try, wp_map_err, (wp_read_file kept); [done|]. intros w' r Hun Hr.
  destruct r as [bs|k]; cbn.
  - destruct (Hr _ eq_refl) as (f & Hf & ->). apply wp_ret, HQ; [done|]. intros s Hs.
    destruct (_ <=? _); [|done]. injection Hs as <-. by exists f.
  - by apply HQ.
Qed.

Lemma wp_fingerprint_regular_snapshot p Q w :
  (∀ w' r, untouched kept w w' → (∀ s, r = Ok s → kept p → holds_file w' p (fingerprint s)) → Q w' r) →
  wp (fingerprint_regular_file_snapshot_blocking p) Q w.
Proof.
  intros HQ. apply wp_bind_try, wp_map_err, (wp_metadata kept); [done|]. intros w1 r1 Hun1 _.
  destruct r1 as [before|k]; cbn; [|by apply HQ].
  destruct (is_file before); [|by apply wp_ret, HQ].
  apply wp_bind_try, wp_fingerprint_file_snapshot. intros w2 r2 Hun2 Hr2.
  pose proof (untouched_trans _ _ _ _ Hun1 Hun2) as Hun.
  destruct r2 as [s|e]; [|by apply HQ].
  apply wp_bind_try, wp_map_err, (wp_metadata kept); [done|]. intros w3 r3 Hun3 _.
  pose proof (untouched_trans _ _ _ _ Hun Hun3) as Hun'.
  destruct r3 as [after|k]; cbn; [|by apply HQ].
  destruct (is_file after); apply wp_ret, HQ; [done| |done|by intros].
  intros s' [= <-] Hp. by apply (holds_file_untouched w2); auto.
Qed.

Lemma wp_fingerprint_regular p Q w :
  (∀ w' r, untouched kept w w' → (∀ fp, r = Ok fp → kept p → holds_file w' p fp) → Q w' r) →
  wp (fingerprint_regular_file_blocking p) Q w.
Proof.
  intros HQ. apply wp_bind_try, wp_fingerprint_regular_snapshot. intros w' r Hun Hr.
  destruct r as [s|e]; [|by apply HQ]. apply wp_ret, HQ; [done|]. intros fp [= <-]. eauto.
Qed.

Lemma wp_fsync p Q w : (∀ w', untouched kept w w' → Q w' tt) → wp (fsync_parent_dir_best_effort p) Q w.
Proof. intros HQ. apply wp_bind, (wp_sync kept); [done|]. intros w' r Hun. by apply wp_ret, HQ. Qed.

Lemma wp_rename_exchange p q Q w :
  (∀ w' k, untouched kept w w' → Q w' (Err k)) →
  (∀ w0 w' a b, untouched kept w w0 → w_lost w' = w_lost w0 →
     w_fs w0 !! p = Some a → w_fs w0 !! q = Some b → w_fs w' = <[q := a]> (<[p := b]> (w_fs w0)) → Q w' (Ok tt)) →
  wp (rename_exchange p q) Q w.
Proof.
  intros Herr Hok. apply (wp_update kept); [done|]. intros w0 w' [[]|k] Hun Hcase; [|apply Herr; apply Hcase].
  destruct Hcase as [Hr [now Hg]]. apply bind_Ok in Hg as (a & Ha & Hg). apply bind_Ok in Hg as (b & Hb & [= Hw]).
  apply ok_or_Ok in Ha, Hb. rewrite <- Hw, lost_exchange, app_nil_r in Hr by done. by eapply Hok.
Qed.
End Rules.

(** ** Replacing exactly the expected bytes *)

Section Replace.
Context `{DiskEnv, Sha} (kept : path → Prop) (Hkeeps : env_keeps kept).
Context (part_path final_path : path) (Hpart : kept part_path) (Hne : part_path ≠ final_path).
Context (expected : ExistingFileFingerprint) (expected_replacement : option ExistingFileFingerprint).

Lemma wp_replacement_approved w :
  wp (replacement_approved part_path final_path expected expected_replacement)
    (λ w' r, untouched kept w w' ∧
       match r with
       | Ok replacement => holds_file w' part_path replacement ∧ (kept final_path → holds_file w' final_path expected)
       | Err _ => True
       end) w.
Proof.
  apply wp_bind, (wp_fingerprint_regular kept); [done|]. intros w1 r1 Hun1 H1.
  destruct r1 as [current|e]; [|by apply wp_ret].
  case_bool_decide as Hc; [|by apply wp_ret]. subst current.
  apply wp_bind, (wp_fingerprint_regular kept); [done|]. intros w2 r2 Hun2 H2.
  pose proof (untouched_trans _ _ _ _ Hun1 Hun2) as Hun.
  destruct r2 as [replacement|e]; [|by apply wp_ret].
  assert (Hgoal : untouched kept w w2 ∧ holds_file w2 part_path replacement
            ∧ (kept final_path → holds_file w2 final_path expected)).
  { split_and!; [done|auto|]. intros Hf. by apply (holds_file_untouched kept w1); auto. }
  destruct (match expected_replacement with Some _ => _ | None => _ end); by apply wp_ret.
Qed.

Lemma wp_exchange_classified w :
  wp (exchange_classified part_path final_path expected)
    (λ w' r, match r with
       | Ok displaced_path => displaced_path = part_path ∧
           ∃ w0 a b, untouched kept w w0 ∧ w_lost w' = w_lost w0 ∧
             w_fs w0 !! part_path = Some a ∧ w_fs w0 !! final_path = Some b ∧
             w_fs w' = <[final_path := a]> (<[part_path := b]> (w_fs w0))
       | Err _ => untouched kept w w'
       end) w.
Proof.
  apply wp_bind, wp_bind_try, wp_map_err, (wp_rename_exchange kept); [done|..].
  - intros w1 k Hun1. cbn.
    case_match; [by apply wp_ret|].
    apply wp_bind, (wp_fingerprint_regular kept); [done|]. intros w2 r2 Hun2 _. apply wp_ret.
    by eapply untouched_trans.
  - intros w0 w' a b Hun Hrem Ha Hb Hw. apply wp_ret, wp_ret. split; [done|]. by exists w0, a, b.
Qed.

Lemma wp_check_installed displaced_path w :
  wp (check_installed final_path displaced_path expected_replacement)
    (λ w' r, untouched kept w w' ∧ match r with Ok _ => True | Err e => retained e = [displaced_path] end) w.
Proof.
  unfold check_installed. destruct expected_replacement as [er|]; [|by apply wp_ret].
  apply wp_bind, (wp_fingerprint_regular kept); [done|]. intros w' r Hun _.
  destruct r as [i|e]; [case_bool_decide|]; by apply wp_ret.
Qed.

(** Restoring: nothing is removed, and what it leaves at the part path is the
    replacement or is reported. *)
Lemma wp_put_back replacement e1 e2 text w :
  wp (put_back part_path final_path part_path replacement e1 e2 text)
    (λ w' r, w_lost w' = w_lost w ∧
       match r with
       | Ok _ => False
       | Err e =>
           (part_path ∈ retained e ∨ holds_file w' part_path replacement)
           ∧ (kept final_path → part_path ∈ retained e ∨ w_fs w' !! final_path = w_fs w !! part_path)
       end) w.
Proof.
  apply wp_bind, wp_bind, (wp_fingerprint_regular kept); [done|]. intros w1 r1 Hun1 _.
  case_bool_decide.
  2: { apply wp_ret, wp_ret. split; [apply Hun1|]. assert (part_path ∈ [part_path]) by set_solver. by split; [left|by left]. }
  apply wp_bind, (wp_rename_exchange kept); [done|..].
  - intros w2 k Hun2. apply wp_ret, wp_ret. split; [by rewrite (untouched_lost _ _ _ Hun2), (untouched_lost _ _ _ Hun1)|].
    assert (part_path ∈ retained_restore_paths part_path part_path) by apply list_elem_of_here. by split; [left|by left].
  - intros w0 w2 a b Hun2 Hrem Ha _ Hw2.
    assert (Hrem' : w_lost w2 = w_lost w).
    { by rewrite Hrem, (untouched_lost _ _ _ Hun2), (untouched_lost _ _ _ Hun1). }
    apply wp_bind, (wp_fingerprint_regular kept); [done|]. intros w3 r3 Hun3 H3.
    assert (w_lost w3 = w_lost w) by (by rewrite (untouched_lost _ _ _ Hun3)).
    destruct r3 as [fp|e]; [case_bool_decide as Hfp|]; apply wp_ret, wp_ret; (split; [done|]).
    2, 3: assert (part_path ∈ retained_restore_paths part_path part_path) by apply list_elem_of_here; by split; [left|by left].
    subst fp. split; [right; auto|]. intros Hf. right. rewrite (untouched_lookup _ _ _ Hun3) by done.
    rewrite Hw2, lookup_insert_eq, <- Ha, (untouched_lookup _ _ _ Hun2), (untouched_lookup _ _ _ Hun1) by done. done.
Qed.

(** What is left of the part file when publication failed. *)
Definition part_accounted (w w' : World) (e : AnyhowError) : Prop :=
  part_path ∈ retained e ∨ w_fs w' !! part_path = w_fs w !! part_path
  ∨ ∃ fp, holds_file w part_path fp ∧ holds_file w' part_path fp.

Definition replace_post (w w' : World) (r : result AnyhowError unit) : Prop :=
  match r with
  | Ok _ =>
      (w_lost w' = w_lost w
       ∨ ∃ f, w_lost w' = w_lost w ++ [(part_path, Regular f)] ∧ fingerprint_of (f_bytes f) = expected)
      ∧ (kept final_path →
           holds_file w final_path expected ∧ w_fs w' !! final_path = w_fs w !! part_path)
  | Err e =>
      w_lost w' = w_lost w ∧ part_accounted w w' e
      ∧ (kept final_path → part_path ∈ retained e ∨ w_fs w' !! final_path = w_fs w !! final_path)
  end.

(** A failure that changed nothing. *)
Lemma replace_post_untouched w w' e : untouched kept w w' → replace_post w w' (Err e).
Proof. intros [Hl Hr]. split_and!; [done| |]; [right; left|right]; auto. Qed.

(** Putting the displaced bytes back, after the exchange. *)
Lemma replace_post_put_back w w4 replacement e1 e2 text :
  w_lost w4 = w_lost w → holds_file w part_path replacement →
  (kept final_path → w_fs w4 !! part_path = w_fs w !! final_path) →
  wp (put_back part_path final_path part_path replacement e1 e2 text) (replace_post w) w4.
Proof.
  intros Hr Hrep Hb. eapply wp_mono; [apply wp_put_back|]. intros w5 [|e] [Hr5 H5]; [done|]. destruct H5 as [H5 Hq].
  split_and!; [congruence|destruct H5; [by left|right; right; eauto]|].
  intros Hf. destruct (Hq Hf) as [|Hq']; [by left|right]. by rewrite Hq', Hb.
Qed.

(** The last step of a replacement: the displaced bytes are the expected ones. *)
Lemma replace_post_done w w4 :
  w_lost w4 = w_lost w → holds_file w4 part_path expected →
  (kept final_path → holds_file w final_path expected ∧ w_fs w4 !! final_path = w_fs w !! part_path) →
  wp (log_remove part_path;; fsync_parent_dir_best_effort final_path;; mret (Ok tt)) (replace_post w) w4.
Proof.
  intros Hr (f' & Hf' & Hfp) Hq.
  apply wp_bind, (wp_log_remove kept); [done|done|..].
  - intros w5 Hun5. apply wp_bind, (wp_fsync kept); [done|]. intros w6 Hun6. apply wp_ret.
    pose proof (untouched_trans _ _ _ _ Hun5 Hun6) as Hun. split.
    + left. by rewrite (untouched_lost _ _ _ Hun).
    + intros Hf. destruct (Hq Hf) as [He Hw]. split; [done|]. by rewrite (untouched_lookup _ _ _ Hun).
  - intros w5 f Hf _ Hoth Hr5. apply wp_bind, (wp_fsync kept); [done|]. intros w6 Hun6. apply wp_ret. split.
    + rewrite (untouched_lost _ _ _ Hun6), <- Hr. destruct Hr5 as [Hr5|Hr5]; [by left|right]. exists f. split; [done|]. congruence.
    + intros Hk. destruct (Hq Hk) as [He Hw]. split; [done|]. rewrite (untouched_lookup _ _ _ Hun6), Hoth; auto.
Qed.

Lemma wp_replace w :
  wp (replace_file_if_unchanged_blocking part_path final_path expected expected_replacement) (replace_post w) w.
Proof.
  apply wp_bind_try. eapply wp_mono; [apply wp_replacement_approved|]. intros w1 [replacement|e] [Hun1 H1].
  2: { by apply replace_post_untouched. }
  destruct H1 as [Hrep Hexp].
  assert (Hrep0 : holds_file w part_path replacement).
  { destruct Hrep as (f & Hf & ?). exists f. by rewrite <- (untouched_lookup _ _ _ Hun1) by done. }
  assert (Hexp0 : kept final_path → holds_file w final_path expected).
  { intros Hk. destruct (Hexp Hk) as (f & Hf & ?). exists f. by rewrite <- (untouched_lookup _ _ _ Hun1) by done. }
  apply wp_bind_try. eapply wp_mono; [apply wp_exchange_classified|]. intros w2 [d|e] H2.
  2: { apply replace_post_untouched. by eapply untouched_trans. }
  destruct H2 as (-> & w0 & a & b & Hun0 & Hrem & Ha & Hb & Hw2).
  pose proof (untouched_trans _ _ _ _ Hun1 Hun0) as Hun10.
  assert (Hrem2 : w_lost w2 = w_lost w) by (by rewrite Hrem, (untouched_lost _ _ _ Hun10)).
  assert (Hp2 : kept final_path → w_fs w2 !! part_path = w_fs w !! final_path).
  { intros Hk. rewrite Hw2, lookup_insert_ne, lookup_insert_eq by done. by rewrite <- Hb, (untouched_lookup _ _ _ Hun10). }
  assert (Hf2 : w_fs w2 !! final_path = w_fs w !! part_path).
  { rewrite Hw2, lookup_insert_eq. by rewrite <- Ha, (untouched_lookup _ _ _ Hun10). }
  apply wp_bind_try. eapply wp_mono; [apply wp_check_installed|]. intros w3 r3 [Hun3 H3].
  destruct r3 as [[]|e].
  2: { assert (part_path ∈ retained e) by (rewrite H3; set_solver).
       split_and!; [by rewrite (untouched_lost _ _ _ Hun3)|by left|by left]. }
  apply wp_bind, (wp_fingerprint_regular kept); [done|]. intros w4 r4 Hun4 H4.
  pose proof (untouched_trans _ _ _ _ Hun3 Hun4) as [Hl Hrem4]. rewrite Hrem2 in Hrem4.
  assert (Hp4 : kept final_path → w_fs w4 !! part_path = w_fs w !! final_path) by (intros Hk; rewrite Hl; auto).
  destruct r4 as [fp|e]; [case_bool_decide as Hfp|]; try by apply replace_post_put_back.
  apply replace_post_done; [done|subst; auto|]. intros Hk. split; [auto|]. by rewrite Hl.
Qed.
End Replace.

(** ** Publishing without replacement *)

Section NoReplace.
Context `{DiskEnv, Sha} (kept : path → Prop) (Hkeeps : env_keeps kept).
Context (part_path final_path : path) (Hpart : kept part_path) (Hne : part_path ≠ final_path).

(** Nothing was destroyed but the part file. *)
Definition only_part_lost (w w' : World) : Prop :=
  w_lost w' = w_lost w
  ∨ ∃ f, w_fs w !! part_path = Some (Regular f) ∧ w_lost w' = w_lost w ++ [(part_path, Regular f)].

Lemma only_part_lost_later w w1 w2 : only_part_lost w w1 → untouched kept w1 w2 → only_part_lost w w2.
Proof. intros [Hr|(f & Hf & Hr)] [_ Hr2]; [left|right; exists f]; by rewrite Hr2. Qed.

Definition published (w w' : World) : Prop :=
  only_part_lost w w'
  ∧ (kept final_path → w_fs w !! final_path = None ∧ w_fs w' !! final_path = w_fs w !! part_path
     ∧ is_Some (w_fs w !! part_path)).

Lemma published_later w w1 w2 : published w w1 → untouched kept w1 w2 → published w w2.
Proof.
  intros [Hr Hq] Hun. split; [by eapply only_part_lost_later|]. intros Hk.
  rewrite (untouched_lookup _ _ _ Hun) by done. auto.
Qed.

Definition no_replace_post {E} (w w' : World) (r : result E PublishResult) : Prop :=
  match r with
  | Ok Published => published w w'
  | _ => untouched kept w w'
  end.

Lemma wp_destination_exists_or w w0 k : untouched kept w w0 →
  wp (destination_exists_or k final_path) (no_replace_post w) w0.
Proof.
  intros Hun. apply wp_bind, (wp_query kept); [done|]. intros w1 r Hun1 _. apply wp_ret.
  pose proof (untouched_trans _ _ _ _ Hun Hun1). by destruct r as [[]|].
Qed.

Lemma wp_publish_by_hard_link w w0 : untouched kept w w0 →
  wp (publish_part_by_hard_link part_path final_path) (no_replace_post w) w0.
Proof.
  intros Hun. apply wp_bind, (wp_update kept); [done|]. intros w1 w2 r Hun1 Hr.
  pose proof (untouched_trans _ _ _ _ Hun Hun1) as Hun'.
  destruct r as [[]|k]; [|destruct Hr as [_ Hr]; pose proof (untouched_trans _ _ _ _ Hun Hr); by destruct k; apply wp_ret].
  destruct Hr as [Hrem [now Hg]]. apply bind_Ok in Hg as (e & He & Hg). apply ok_or_Ok in He.
  destruct e as [f|]; [|done]. destruct (w_fs w1 !! final_path) eqn:Hnone; [done|]. injection Hg as Hw.
  rewrite <- Hw, lost_insert_free, app_nil_r in Hrem by done.
  assert (Hp2 : w_fs w2 !! part_path = Some (Regular f)) by (by rewrite <- Hw, lookup_insert_ne).
  assert (Hpw : w_fs w !! part_path = Some (Regular f)) by (by rewrite <- (untouched_lookup _ _ _ Hun')).
  assert (Hr2 : w_lost w2 = w_lost w) by (by rewrite Hrem, (untouched_lost _ _ _ Hun')).
  assert (Hq : kept final_path → w_fs w !! final_path = None ∧ w_fs w2 !! final_path = w_fs w !! part_path
                 ∧ is_Some (w_fs w !! part_path)).
  { intros Hk. rewrite <- (untouched_lookup _ _ _ Hun' final_path) by done.
    rewrite <- Hw, lookup_insert_eq, Hpw. eauto. }
  apply wp_bind, (wp_log_remove kept); [done|done|..].
  - intros w3 Hun3. apply wp_ret. apply (published_later _ w2); [|done]. split; [by left|done].
  - intros w3 f' Hf' _ Hoth Hr3. apply wp_ret. split.
    + unfold only_part_lost. rewrite <- Hr2. destruct Hr3 as [Hr3|Hr3]; [by left|right]. exists f. split; [done|]. congruence.
    + intros Hk. rewrite Hoth; auto.
Qed.

Lemma wp_publish_part_no_replace w : wp (publish_part_no_replace part_path final_path) (no_replace_post w) w.
Proof.
  apply wp_bind, (wp_update kept); [done|]. intros w1 w2 r Hun1 Hr. destruct r as [[]|k].
  - destruct Hr as [Hrem [now Hg]]. apply bind_Ok in Hg as (e & He & Hg). apply ok_or_Ok in He.
    destruct (w_fs w1 !! final_path) eqn:Hnone; [done|]. injection Hg as Hw. apply wp_ret.
    rewrite <- Hw, lost_rename, app_nil_r in Hrem by done. split.
    + left. by rewrite Hrem, (untouched_lost _ _ _ Hun1).
    + intros Hk. rewrite <- !(untouched_lookup _ _ _ Hun1) by done. rewrite <- Hw, lookup_insert_eq. eauto.
  - destruct Hr as [_ Hfail]. destruct k; try by apply wp_destination_exists_or.
    + by apply wp_ret.
    + apply wp_bind. eapply wp_mono; [by apply wp_publish_by_hard_link|]. intros w3 [[]|e] H3; [by apply wp_ret..|].
      by apply wp_destination_exists_or.
Qed.

Definition no_replace_final_post (w w' : World) (r : result AnyhowError unit) : Prop :=
  match r with
  | Ok _ =>
      only_part_lost w w'
      ∧ (kept final_path →
           (w_fs w !! final_path = None ∧ w_fs w' !! final_path = w_fs w !! part_path ∧ is_Some (w_fs w !! part_path))
           ∨ (w_fs w' !! final_path = w_fs w !! final_path
              ∧ ∃ fp, holds_file w final_path fp ∧ holds_file w part_path fp))
  | Err _ => untouched kept w w'
  end.

Lemma holds_file_back w w' p fp : kept p → untouched kept w w' → holds_file w' p fp → holds_file w p fp.
Proof. intros Hp [Hl _] (f & Hf & ?). exists f. by rewrite <- Hl. Qed.

Lemma wp_publish_no_replace w :
  wp (publish_part_to_final part_path final_path NoReplace) (no_replace_final_post w) w.
Proof.
  apply wp_bind. eapply wp_mono; [apply wp_publish_part_no_replace|]. intros w1 [[]|e] H1; [..|by apply wp_ret].
  { apply wp_bind, (wp_fsync kept); [done|]. intros w2 Hun2. apply wp_ret.
    destruct (published_later _ _ _ H1 Hun2) as [? Hq]. split; [done|]. intros Hk. left. auto. }
  cbn in H1. apply wp_bind_try, (wp_fingerprint_regular kept); [done|]. intros w2 r2 Hun2 H2.
  pose proof (untouched_trans _ _ _ _ H1 Hun2) as Hun. destruct r2 as [fp|e]; [|done].
  apply wp_bind_try, (wp_fingerprint_regular kept); [done|]. intros w3 r3 Hun3 H3.
  pose proof (untouched_trans _ _ _ _ Hun Hun3) as Hun'. destruct r3 as [fp'|e]; [|done].
  case_bool_decide as Heq; [|by apply wp_ret]. subst fp'.
  apply wp_bind_try, wp_map_err, (wp_remove_file kept); [done|done|..].
  - intros w4 k Hun4. cbn. by apply (untouched_trans _ _ w3).
  - intros w4 f Hf _ Hoth Hr4. apply wp_ret.
    assert (Hpf : w_fs w !! part_path = Some (Regular f)) by (by rewrite <- (untouched_lookup _ _ _ Hun')).
    split.
    + unfold only_part_lost. rewrite <- (untouched_lost _ _ _ Hun'). destruct Hr4 as [Hr4|Hr4]; [by left|right]. by exists f.
    + intros Hk. right. rewrite Hoth, (untouched_lookup _ _ _ Hun') by done. split; [done|]. exists fp. split.
      * by apply (holds_file_back _ w3); auto.
      * by apply (holds_file_back _ w2); auto.
Qed.
End NoReplace.

(** ** The promise of both policies *)

Section Promise.
Context `{DiskEnv, Sha} (part_path final_path : path).

(** C5: While other processes rewrite everything but the part file at will,
    publishing destroys nothing of theirs.  Whatever a call of the program made
    disappear from the file system, by removing it or by putting something else
    at its path, is counted when its content is at no path any more: a
    successful publication destroys nothing but the part file as it was, or,
    under [ReplaceTruncated], a file with exactly the fingerprint the plan
    authorised, taken to the part path by the exchange; a failed publication
    destroys nothing, and unless its error tells the caller to retain the part
    path, what it leaves there is what was there or a file with the same
    fingerprint. *)
Theorem publish_keeps_foreign_bytes publication w :
  env_keeps (λ p, p = part_path) → part_path ≠ final_path →
  let '(w', r) := publish_part_to_final part_path final_path publication w in
  match r with
  | Ok _ =>
      ∃ destroyed, w_lost w' = w_lost w ++ destroyed
        ∧ ∀ q e, (q, e) ∈ destroyed → q = part_path
          ∧ ∃ f, e = Regular f ∧ (w_fs w !! part_path = Some (Regular f)
                                 ∨ publication = ReplaceTruncated (fingerprint_of (f_bytes f)))
  | Err e =>
      w_lost w' = w_lost w
      ∧ (part_path ∈ retained e ∨ w_fs w' !! part_path = w_fs w !! part_path
         ∨ ∃ fp, holds_file w part_path fp ∧ holds_file w' part_path fp)
  end.
Proof.
  intros Hk Hne. destruct publication as [|expected].
  - pose proof (wp_publish_no_replace _ Hk part_path final_path eq_refl Hne w) as Hp. unfold wp in Hp.
    destruct (publish_part_to_final _ _ _ _) as [w' [[]|e]]; cbn in Hp.
    + destruct Hp as [[Hr|(f & Hf & Hr)] _]; [exists []|eexists; split; [done|]].
      * split; [by rewrite app_nil_r|]. by intros q e ?%not_elem_of_nil.
      * intros q e [= -> ->]%list_elem_of_singleton. eauto.
    + destruct Hp as [Hl Hr]. split; [done|]. right; left. by apply Hl.
  - pose proof (wp_replace _ Hk part_path final_path eq_refl Hne expected None w) as Hp. unfold wp in Hp.
    cbn [publish_part_to_final]. unfold replace_file_if_unchanged.
    destruct (replace_file_if_unchanged_blocking _ _ _ _ _) as [w' [[]|e]]; cbn in Hp.
    + destruct Hp as [[Hr|(f & Hr & Hfp)] _]; [exists []|eexists; split; [done|]].
      * split; [by rewrite app_nil_r|]. by intros q e ?%not_elem_of_nil.
      * intros q e [= -> ->]%list_elem_of_singleton. split; [done|]. exists f. split; [done|]. right. by rewrite Hfp.
    + destruct Hp as (Hr & Hacc & _). by split.
Qed.

(** while nobody else touches the two paths, a publication that returns
    [Ok] has put the part file's entry at the final path: under [NoReplace]
    only where nothing was, an existing file staying as it is and counting as
    published when its fingerprint is the part file's; under
    [ReplaceTruncated] only over a file with the expected fingerprint.  One
    that fails leaves the final path as it was or tells the caller to retain
    the part path. *)
Theorem publish_part_to_final_exact publication w :
  env_keeps (λ p, p = part_path ∨ p = final_path) → part_path ≠ final_path →
  let '(w', r) := publish_part_to_final part_path final_path publication w in
  match r, publication with
  | Ok _, NoReplace =>
      (w_fs w !! final_path = None ∧ w_fs w' !! final_path = w_fs w !! part_path ∧ is_Some (w_fs w !! part_path))
      ∨ (w_fs w' !! final_path = w_fs w !! final_path
         ∧ ∃ fp, holds_file w final_path fp ∧ holds_file w part_path fp)
  | Ok _, ReplaceTruncated expected =>
      holds_file w final_path expected ∧ w_fs w' !! final_path = w_fs w !! part_path
  | Err e, _ => w_fs w' !! final_path = w_fs w !! final_path ∨ part_path ∈ retained e
  end.
Proof.
  intros Hk Hne. destruct publication as [|expected].
  - pose proof (wp_publish_no_replace _ Hk part_path final_path (or_introl eq_refl) Hne w) as Hp. unfold wp in Hp.
    destruct (publish_part_to_final _ _ _ _) as [w' [[]|e]]; cbn in Hp.
    + destruct Hp as [_ Hq]. apply Hq. by right.
    + destruct Hp as [Hl _]. left. apply Hl. by right.
  - pose proof (wp_replace _ Hk part_path final_path (or_introl eq_refl) Hne expected None w) as Hp. unfold wp in Hp.
    cbn [publish_part_to_final]. unfold replace_file_if_unchanged.
    destruct (replace_file_if_unchanged_blocking _ _ _ _ _) as [w' [[]|e]]; cbn in Hp.
    + destruct Hp as [_ Hq]. apply Hq. by right.
    + destruct Hp as (_ & _ & Hq). destruct (Hq (or_intror eq_refl)); eauto.
Qed.
End Promise.

(** ** Runs *)

Module PublishRuns.

Definition part : path := lit "/photos/ABC.part".
Definition final : path := lit "/photos/IMG_1.JPG".
Lemma part_ne_final : part ≠ final.
Proof. by apply (bool_decide_unpack _); vm_compute. Qed.
Definition file (bs : list Z) : Entry := Regular {| f_bytes := bs; f_mtime := Some 0 |}.

#[export] Instance digest : Sha := {| sha256_digest := @rev Z |}.

(** Another process writes the final path before call [n]. *)
Definition env (n : nat) : DiskEnv := {|
  interfere := λ t fs, if bool_decide (t = n) then <[final := file [7; 7]]> fs else fs;
  fault := λ _, None;
  clock := λ _, 0;
|}.

Definition start : World := {| w_fs := {[part := file [1; 2; 3]; final := file [1]]}; w_tick := 0; w_lost := [] |}.

(** After the checks and before the exchange: call 6. *)
Definition raced := publish_part_to_final (H := env 6) part final (ReplaceTruncated (fingerprint_of [1])) start.

(** The other process's bytes are put back and the part file is the replacement again. *)
Example raced_run :
  raced.2 = Err [IsTargetChanged (DuringPublication final)]
  ∧ w_fs raced.1 !! final = Some (file [7; 7]) ∧ w_fs raced.1 !! part = Some (file [1; 2; 3])
  ∧ w_lost raced.1 = [].
Proof. vm_compute. done. Qed.

Lemma env_keeps_part n : @env_keeps (env n) (λ p, p = part).
Proof. intros t fs p ->. cbn. case_bool_decide; [|done]. by apply lookup_insert_ne. Qed.

(** Without the race the planned bytes are replaced. *)
Definition replaced := publish_part_to_final (H := env 100) part final (ReplaceTruncated (fingerprint_of [1])) start.
Example replaced_run :
  replaced.2 = Ok tt ∧ w_fs replaced.1 !! final = Some (file [1; 2; 3]) ∧ w_fs replaced.1 !! part = None
  ∧ w_lost replaced.1 = [(part, file [1])].
Proof. vm_compute. done. Qed.

(** Nobody interferes at all. *)
#[export] Instance quiet : DiskEnv := {| interfere := λ _ fs, fs; fault := λ _, None; clock := λ _, 0 |}.
Lemma quiet_keeps P : env_keeps P.
Proof. done. Qed.
End PublishRuns.
Import PublishRuns.

Lemma publish_keeps_foreign_bytes_witness :
  ∃ e, PublishRuns.raced.2 = Err e ∧ w_lost PublishRuns.raced.1 = [].
Proof.
  pose proof (publish_keeps_foreign_bytes (H := PublishRuns.env 6) PublishRuns.part PublishRuns.final
    (ReplaceTruncated (fingerprint_of [1])) PublishRuns.start (PublishRuns.env_keeps_part 6) PublishRuns.part_ne_final) as Hp.
  fold PublishRuns.raced in Hp. destruct PublishRuns.raced_run as (Hr & _).
  destruct PublishRuns.raced as [w' r]. cbn [fst snd] in *. subst r. destruct Hp as [Hp _]. eexists. split; [reflexivity|exact Hp].
Defined.

Lemma publish_part_to_final_exact_witness :
  w_fs (publish_part_to_final PublishRuns.part PublishRuns.final NoReplace PublishRuns.start).1 !! PublishRuns.final
    = Some (PublishRuns.file [1]).
Proof.
  pose proof (publish_part_to_final_exact PublishRuns.part PublishRuns.final NoReplace PublishRuns.start
    (PublishRuns.quiet_keeps _) PublishRuns.part_ne_final) as Hp.
  destruct (publish_part_to_final PublishRuns.part PublishRuns.final NoReplace PublishRuns.start) as [w' r] eqn:E.
  destruct r as [[]|e]; cbn [fst].
  - destruct Hp as [(Hn & _)|(-> & _)]; [|by vm_compute]. vm_compute in Hn. discriminate.
  - destruct Hp as [->|Hr]; [by vm_compute|]. exfalso. revert Hr. vm_compute in E. injection E as <- <-.
    apply (bool_decide_eq_false (PublishRuns.part ∈ _)). by vm_compute.
Defined.
