(* ===== verification/Transfer.v ===== *)
(** * Downloading one file: [src/download/file.rs]

    A download attempt: it resumes a fresh part file with a range request or
    starts over, streams the body to the part file, checks sizes and content
    and publishes.  What the server answers is an input: the response to a
    request, its body the sequence of what [select!] sees next. *)
From S2P Require Import Prelude RustStr Types Retry Content Disk Publish.

(** ** Responses *)

Inductive StreamEvent {BoxError : Type} :=
| Chunk (bytes : list Z)
| StreamFailed (e : BoxError)
| Cancelled. (* the shutdown token fired before the next chunk *)
Arguments StreamEvent : clear implicits.

Record DownloadResponse {BoxError : Type} := {
  status : Z;
  content_length : option Z;
  content_range : option str;
  content_type : option str;
  stream : list (StreamEvent BoxError);
}.
Arguments DownloadResponse : clear implicits.

Record DownloadOpts := {
  skip_rename : bool;
  expected_size : option Z;
  publication : FinalPublication;
}.

(** [base64] and [data_encoding]. *)
Class Codecs := { base64_decode : str → option (list Z); base32_encode : list Z → str }.

(** The part file's name depends only on the checksum. *)
Definition temp_download_path `{Codecs} (download_path : path) (checksum temp_suffix : str)
    : result AnyhowError path :=
  match base64_decode checksum with
  | None => Err (bail "Could not decode the base64 checksum from Apple")
  | Some [] => Err (bail "Apple returned an empty checksum.")
  | Some decoded =>
      Ok (join (default (lit ".") (parent download_path)) (base32_encode decoded ++ temp_suffix))
  end.

Definition STALE_PART_FILE_SECS : Z := 3600.

Section Attempt.
Context `{DiskEnv, Sha} {BoxError : Type}.
Abbreviation Error := (DownloadError IoKind BoxError AnyhowError).

(** ** Resuming *)

(** [SystemTime::now()]. *)
Definition now : Disk Z := λ w, (w, clock (w_tick w)).

(** [mtime.elapsed().unwrap_or(ZERO) > STALE_PART_FILE_SECS]; no time counts as stale. *)
Definition is_stale (mtime : option Z) (now : Z) : bool :=
  match mtime with
  | Some mtime => from_secs STALE_PART_FILE_SECS <? Z.max 0 (now - mtime)
  | None => true
  end.

Definition resume_offset (part_path : path) : Disk Z :=
  meta ← metadata part_path;
  match meta with
  | Ok meta =>
      if 0 <? entry_len meta then
        t ← now;
        mret (if is_stale (entry_mtime meta) t then 0 else entry_len meta)
      else mret 0
  | Err _ => mret 0
  end.

(** The offset the body starts at, and whether the part file starts over;
    [None] is an unexpected status. *)
Definition body_plan (status resume_offset : Z) : option (Z * bool) :=
  if (status =? 206) && (0 <? resume_offset) then Some (resume_offset, false)
  else if (200 <=? status) && (status <? 300) then Some (0, true)
  else None.

Definition ALREADY_WRITING : AnyhowError :=
  bail "Another kei process is already writing. Only one kei instance may use the same download directory at a time.".
Definition COULD_NOT_OPEN : AnyhowError := bail "Could not open temporary download file".

Definition open_part (part_path : path) (truncate : bool) : Disk (result Error unit) :=
  if truncate then
    log_remove part_path;;
    map_err_io (λ k, Other (match k with AlreadyExists => ALREADY_WRITING | _ => COULD_NOT_OPEN end)) (create_new part_path)
  else map_err_io (λ _, Other COULD_NOT_OPEN) (open_append part_path).

(** ** The body *)

Section Stream.
Context (part_path path_str : path) (status : Z) (content_length : option Z) (shutdown_token : bool).

Fixpoint write_chunks (events : list (StreamEvent BoxError)) (bytes_written : Z) : Disk (result Error Z) :=
  match events with
  | [] => mret (Ok bytes_written)
  | Cancelled :: events =>
      if shutdown_token then mret (Err (Interrupted path_str bytes_written)) else write_chunks events bytes_written
  | StreamFailed e :: _ => mret (Err (Http e path_str status content_length bytes_written))
  | Chunk chunk :: events =>
      _ ←? map_err_io Retry.Disk (write_all part_path chunk);
      write_chunks events (bytes_written + zlen chunk)
  end.

Definition write_stream (events : list (StreamEvent BoxError)) (bytes_written : Z) : Disk (result Error Z) :=
  bytes_written ←? write_chunks events bytes_written;
  _ ←? map_err_io Retry.Disk (sync part_path);
  _ ←? map_err_io Retry.Disk (sync part_path);
  mret (Ok bytes_written).
End Stream.

Definition validate_downloaded_content (part_path download_path : path) : Disk (result Error unit) :=
  bytes ←? map_err_io Retry.Disk (read_file part_path);
  mret (check_header download_path (take 16 bytes)).

(** A failure that discards the part file. *)
Definition discard {A} (part_path : path) (e : Error) : Disk (result Error A) :=
  log_remove part_path;; mret (Err e).

(** After the body: is the file complete, and is it media? *)
Definition verify_download (download_path part_path : path) (content_length expected_size : option Z)
    (effective_offset bytes_written : Z) : Disk (result Error unit) :=
  let total_bytes := bytes_written - effective_offset in
  if match content_length with Some expected_len => negb (total_bytes =? expected_len) | None => false end then
    discard part_path (ContentLengthMismatch download_path (default 0 content_length) total_bytes)
  else if match expected_size with Some expected => negb (bytes_written =? expected) | None => false end then
    discard part_path (ContentLengthMismatch download_path (default 0 expected_size) bytes_written)
  else
    validation ← validate_downloaded_content part_path download_path;
    match validation with
    | Err e => discard part_path e
    | Ok _ => mret (Ok tt)
    end.

(** ** One attempt *)

(** The checks on the response's headers, before anything is written. *)
Definition check_response (download_path part_path : path) (expected_size : option Z) (resume_offset : Z)
    (r : DownloadResponse BoxError) : Disk (result Error unit) :=
  match ct ← content_type r; reason ← rejecting_content_type_reason ct; Some (ct, reason) with
  | Some (ct, reason) =>
      discard part_path (InvalidContent download_path (lit "server returned " ++ reason ++ lit " content-type: " ++ ct))
  | None =>
      if (status r =? 206) && (0 <? resume_offset) then
        match validate_resume_content_range (content_range r) resume_offset download_path with
        | Err e => mret (Err e)
        | Ok _ =>
            match content_length r, expected_size with
            | Some cl, Some expected =>
                let server_total := saturating_add U64_MAX resume_offset cl in
                if negb (server_total =? expected) then
                  discard part_path (ContentLengthMismatch download_path expected server_total)
                else mret (Ok tt)
            | _, _ => mret (Ok tt)
            end
        end
      else mret (Ok tt)
  end.

(** What one attempt observes of the world outside the file system. *)
Record Attempt := {
  fetch : option Z → result BoxError (DownloadResponse BoxError);
  cancelled_after : bool; (* [is_cancelled()] once the body is complete *)
}.

Definition attempt_download_with_publication (a : Attempt) (shutdown_token : bool) (opts : DownloadOpts)
    (download_path part_path : path) : Disk (result Error Z) :=
  resume_offset ← resume_offset part_path;
  match fetch a (if 0 <? resume_offset then Some resume_offset else None) with
  | Err e => mret (Err (Http e download_path 0 None 0))
  | Ok r =>
      match body_plan (status r) resume_offset with
      | None => mret (Err (HttpStatus (status r) download_path))
      | Some (effective_offset, truncate) =>
          _ ←? check_response download_path part_path (expected_size opts) resume_offset r;
          _ ←? open_part part_path truncate;
          stream_result ← write_stream part_path download_path (status r) (content_length r) shutdown_token
                            (stream r) effective_offset;
          match stream_result with
          | Err e => if negb (is_retryable e) && negb (is_interrupted e) then discard part_path e else mret (Err e)
          | Ok bytes_written =>
              if shutdown_token && cancelled_after a then mret (Err (Interrupted download_path bytes_written))
              else
                _ ←? verify_download download_path part_path (content_length r) (expected_size opts)
                       effective_offset bytes_written;
                if skip_rename opts then mret (Ok bytes_written)
                else
                  _ ←? map_err_io Other (publish_part_to_final part_path download_path (publication opts));
                  mret (Ok bytes_written)
          end
      end
  end.

(** ** All attempts *)

(** The world before attempt [k]. *)
Fixpoint world_before (attempt : Z → Disk (result Error Z)) (w : World) (k : nat) : World :=
  match k with
  | O => w
  | S k => (attempt (Z.of_nat k) (world_before attempt w k)).1
  end.

(** The closure the retry loop calls. *)
Definition nth_attempt (attempts : Z → Attempt) (shutdown_token : bool) (opts : DownloadOpts)
    (download_path part_path : path) (k : Z) : Disk (result Error Z) :=
  attempt_download_with_publication (attempts k) shutdown_token opts download_path part_path.

(** [download_file_with_mode] over the file system: the retry loop of
    [Retry.v], each attempt in the world the one before left. *)
Definition download_file `{Codecs} (attempts : Z → Attempt) (shutdown_token : bool) (opts : DownloadOpts)
    (download_path : path) (checksum temp_suffix : str) (retry_config : RetryConfig) (jitter : Z → Z)
    (rate_limit_counter : option Z) (w : World) : option (World * result Error Z * option Z) :=
  let attempt := nth_attempt attempts shutdown_token opts download_path in
  let temp := temp_download_path download_path checksum temp_suffix in
  '(r, evs, counter) ← download_file_with_mode temp retry_config
      (λ part_path k, (attempt part_path k (world_before (attempt part_path) w (Z.to_nat k))).2)
      jitter rate_limit_counter;
  let w' := match temp with
            | Err _ => w
            | Ok part_path => world_before (attempt part_path) w (length (attempts_of evs))
            end in
  Some (w', r, counter).
End Attempt.
