(* ===== verification/TransferSpec.v ===== *)
(** * What a download promises

    A server that answers range requests honestly may cut every response
    short, and a download may fail, stop and resume any number of times: the
    part file stays a prefix of the content, and a download that succeeds has
    put exactly the content in place. *)
From S2P Require Import Prelude RustStr Types Retry Content Disk Publish PublishSpec Transfer.

Section Spec.
Context `{DiskEnv, Sha} {BoxError : Type}.
Abbreviation Error := (DownloadError IoKind BoxError AnyhowError).
Implicit Types w : World.

(** ** Honest servers *)

(** The bytes of a response's body. *)
Definition body (events : list (StreamEvent BoxError)) : list Z :=
  concat (omap (λ ev, match ev with Chunk bs => Some bs | _ => None end) events).

(** The answers to a request are pieces of [content]: a [206] answer to a
    range request starts where its [Content-Range] says, any other
    successful answer at the beginning. *)
Definition honest (content : list Z) (a : Attempt) : Prop :=
  ∀ from r, fetch a from = Ok r →
    match (if status r =? 206 then from else None) with
    | Some offset =>
        ∀ range start, content_range r = Some range → parse_content_range_start range = Some start →
          body (stream r) `prefix_of` drop (Z.to_nat start) content
    | None => body (stream r) `prefix_of` content
    end.

Context (kept : path → Prop) (Hkeeps : env_keeps kept).
Context (content : list Z) (part_path download_path : path) (Hpart : kept part_path).

(** The part file, if it is a file, holds the beginning of the content. *)
Definition part_ok w : Prop := ∀ f, w_fs w !! part_path = Some (Regular f) → f_bytes f `prefix_of` content.

(** The part file is a file with these bytes. *)
Definition part_holds w (bytes : list Z) : Prop :=
  ∃ f, w_fs w !! part_path = Some (Regular f) ∧ f_bytes f = bytes.

Lemma part_ok_untouched w w' : untouched kept w w' → part_ok w → part_ok w'.
Proof. intros [Hl _] Hok f. rewrite Hl by done. apply Hok. Qed.
Lemma part_holds_untouched w w' bs : untouched kept w w' → part_holds w bs → part_holds w' bs.
Proof. intros [Hl _] (f & Hf & ?). exists f. by rewrite Hl. Qed.
Lemma part_holds_ok w bs : part_holds w bs → bs `prefix_of` content → part_ok w.
Proof. intros (f & Hf & <-) Hp f' Hf'. by simplify_eq. Qed.

(** [w'] is [w] but for the part file, which holds a beginning of the content. *)
Definition only_part w w' : Prop := part_ok w' ∧ ∀ p, kept p → p ≠ part_path → w_fs w' !! p = w_fs w !! p.

Lemma only_part_untouched w w1 w2 : only_part w w1 → untouched kept w1 w2 → only_part w w2.
Proof.
  intros [Hok Hoth] Hun. split; [by eapply part_ok_untouched|]. intros p Hp Hne.
  rewrite (untouched_lookup _ _ _ Hun) by done. auto.
Qed.
Lemma untouched_only_part w w' : part_ok w → untouched kept w w' → only_part w w'.
Proof. intros Hok Hun. split; [by eapply part_ok_untouched|]. intros p Hp _. by apply Hun. Qed.
Lemma only_part_trans w1 w2 w3 : only_part w1 w2 → only_part w2 w3 → only_part w1 w3.
Proof. intros [_ H1] [Hok H2]. split; [done|]. intros p Hp Hne. rewrite H2, H1; done. Qed.

Lemma part_gone_ok w : w_fs w !! part_path = None → part_ok w.
Proof. intros Hn f Hf. congruence. Qed.

Lemma wp_log_remove_part (Q : World → unit → Prop) w : part_ok w →
  (∀ w', only_part w w' → w_fs w' !! part_path = None ∨ untouched kept w w' → Q w' tt) → wp (log_remove part_path) Q w.
Proof.
  intros Hok HQ. apply (wp_log_remove kept); [done|done|..].
  - intros w' Hun. apply HQ; [by apply untouched_only_part|by right].
  - intros w' f _ Hn Hoth _. apply HQ; [|by left]. split; [by apply part_gone_ok|auto].
Qed.

Lemma wp_discard {A} (Q : World → result Error A → Prop) e w : part_ok w →
  (∀ w', only_part w w' → Q w' (Err e)) → wp (discard part_path e) Q w.
Proof. intros Hok HQ. apply wp_bind, wp_log_remove_part; [done|]. intros w' Hw _. by apply wp_ret, HQ. Qed.

(** ** Writing the body *)

Lemma append_bytes_part bs now fs f :
  fs !! part_path = Some (Regular f) →
  append_bytes part_path bs now fs = <[part_path := Regular {| f_bytes := f_bytes f ++ bs; f_mtime := Some now |}]> fs.
Proof. intros Hf. unfold append_bytes. by rewrite Hf. Qed.

Lemma wp_write_all (Q : World → result IoKind unit → Prop) pre chunk w :
  part_holds w pre →
  (∀ w' n, part_holds w' (pre ++ take n chunk) → (∀ p, kept p → p ≠ part_path → w_fs w' !! p = w_fs w !! p) → ∀ k, Q w' (Err k)) →
  (∀ w', part_holds w' (pre ++ chunk) → (∀ p, kept p → p ≠ part_path → w_fs w' !! p = w_fs w !! p) → Q w' (Ok tt)) →
  wp (write_all part_path chunk) Q w.
Proof.
  intros Hpre Herr Hok. apply (wp_call kept); [done|]. intros w0 w' r Hun _ Hcase.
  destruct (part_holds_untouched _ _ _ Hun Hpre) as (f & Hf & <-).
  assert (Hins : ∀ bs now, w_fs w' = append_bytes part_path bs now (w_fs w0) →
            part_holds w' (f_bytes f ++ bs) ∧ ∀ p, kept p → p ≠ part_path → w_fs w' !! p = w_fs w !! p).
  { intros bs t. rewrite (append_bytes_part _ _ _ _ Hf). intros Hw. split.
    - eexists. by rewrite Hw, lookup_insert_eq.
    - intros p Hp Hne. rewrite Hw, lookup_insert_ne by done. by apply Hun. }
  destruct r as [[]|k].
  - destruct Hcase as [t [= Hw]]. symmetry in Hw. apply Hins in Hw as [??]. by apply Hok.
  - destruct Hcase as [(n & t & Hw)|Hw]; [apply Hins in Hw as [??]; by eapply Herr|].
    apply (Herr _ 0%nat); [|intros p Hp Hne; rewrite Hw; by apply Hun].
    exists f. by rewrite Hw, take_0, app_nil_r.
Qed.

Lemma prefix_app_l {A} (a b l : list A) : a ++ b `prefix_of` l → a `prefix_of` l.
Proof. intros [k ->]. rewrite <- app_assoc. by eexists. Qed.

Lemma wp_write_chunks shutdown st cl events : ∀ pre bw w,
  part_holds w pre → pre ++ body events `prefix_of` content →
  wp (write_chunks part_path download_path st cl shutdown events bw)
    (λ w' r, only_part w w' ∧
       match r with
       | Ok n => part_holds w' (pre ++ body events) ∧ n = bw + zlen (body events)
       | Err _ => True
       end) w.
Proof.
  induction events as [|[chunk|e|] events IH]; intros pre bw w Hpre Hpref; cbn [write_chunks].
  - apply wp_ret. split; [|cbn in *; rewrite app_nil_r; split; [done|lia]].
    split; [|done]. eapply part_holds_ok; [done|]. by eapply prefix_app_l.
  - apply wp_bind_try, wp_map_err. change (body (Chunk chunk :: events)) with (chunk ++ body events) in *.
    eapply wp_write_all; [done|..].
    + intros w' n Hh Hoth k. split; [|done]. split; [|done]. eapply part_holds_ok; [done|].
      rewrite <- (take_drop n chunk), <- app_assoc, app_assoc in Hpref. by eapply prefix_app_l.
    + intros w' Hh Hoth. cbn. eapply wp_mono; [apply (IH (pre ++ chunk)); [done|by rewrite <- app_assoc]|].
      intros w'' r [[Hok Hoth'] Hr]. split.
      * split; [done|]. intros p Hp Hne. rewrite Hoth', Hoth; done.
      * destruct r; [|done]. destruct Hr as [Hr ->]. rewrite <- app_assoc in Hr. split; [done|].
        rewrite length_app. lia.
  - apply wp_ret. split; [|done]. split; [|done]. eapply part_holds_ok; [done|]. by eapply prefix_app_l.
  - destruct shutdown.
    + apply wp_ret. split; [|done]. split; [|done]. eapply part_holds_ok; [done|]. by eapply prefix_app_l.
    + by apply IH.
Qed.

Lemma wp_write_stream shutdown st cl events pre bw w :
  part_holds w pre → pre ++ body events `prefix_of` content →
  wp (write_stream part_path download_path st cl shutdown events bw)
    (λ w' r, only_part w w' ∧
       match r with
       | Ok n => part_holds w' (pre ++ body events) ∧ n = bw + zlen (body events)
       | Err _ => True
       end) w.
Proof.
  intros Hpre Hpref. apply wp_bind_try. eapply wp_mono; [by apply wp_write_chunks|].
  intros w1 r1 [Hw1 Hr1]. destruct r1 as [n|e]; [|done].
  apply wp_bind_try, wp_map_err, (wp_sync kept); [done|]. intros w2 r2 Hun2.
  pose proof (only_part_untouched _ _ _ Hw1 Hun2) as Hw2. destruct r2 as [[]|k]; [|done].
  apply wp_bind_try, wp_map_err, (wp_sync kept); [done|]. intros w3 r3 Hun3.
  pose proof (only_part_untouched _ _ _ Hw2 Hun3) as Hw3. destruct r3 as [[]|k]; [|done].
  apply wp_ret. split; [done|]. destruct Hr1 as [Hh ->]. split; [|done].
  eapply part_holds_untouched; [done|]. by eapply part_holds_untouched.
Qed.
(** ** The steps around the body *)

Lemma wp_resume_offset w :
  wp (resume_offset part_path)
    (λ w' n, untouched kept w w' ∧ (n = 0 ∨ 0 < n ∧ ∃ e, w_fs w' !! part_path = Some e ∧ entry_len e = n)) w.
Proof.
  apply wp_bind, (wp_metadata kept); [done|]. intros w1 r Hun Hr.
  destruct r as [meta|k]; [|by apply wp_ret; auto].
  destruct (Z.ltb_spec 0 (entry_len meta)) as [Hpos|]; [|by apply wp_ret; auto].
  apply wp_bind. change (wp (mret (if is_stale (entry_mtime meta) (clock (w_tick w1)) then 0 else entry_len meta))
    (λ w' n, untouched kept w w' ∧ (n = 0 ∨ 0 < n ∧ ∃ e, w_fs w' !! part_path = Some e ∧ entry_len e = n)) w1).
  apply wp_ret. split; [done|]. destruct (is_stale _ _); [by left|]. right. eauto.
Qed.

Lemma wp_open_part truncate w : part_ok w →
  wp (open_part (BoxError := BoxError) part_path truncate)
    (λ w' r, only_part w w' ∧
       match r with
       | Ok _ => if truncate then part_holds w' []
                 else ∃ f, w_fs w !! part_path = Some (Regular f) ∧ part_holds w' (f_bytes f)
       | Err _ => True
       end : Prop) w.
Proof.
  intros Hok. destruct truncate.
  - apply wp_bind, wp_log_remove_part; [done|]. intros w1 Hw1 _. apply wp_map_err, (wp_update kept); [done|].
    intros w0 w2 r Hun Hcase. pose proof (only_part_untouched _ _ _ Hw1 Hun) as Hw0. destruct r as [[]|k]; cbn.
    + destruct Hcase as [_ [t Hg]]. destruct (w_fs w0 !! part_path) eqn:Hnone; [done|]. injection Hg as Hw.
      assert (Hh : part_holds w2 []) by (eexists; by rewrite <- Hw, lookup_insert_eq).
      split; [|done]. split; [by eapply part_holds_ok; [|apply prefix_nil]|].
      intros p Hp Hne. rewrite <- Hw, lookup_insert_ne by done. by apply Hw0.
    + split; [|done]. destruct Hw0 as [Hok0 Hoth0]. unfold only_part, part_ok. rewrite (proj1 Hcase). done.
  - apply wp_map_err, (wp_query kept); [done|]. intros w1 r Hun Hr.
    split; [by apply untouched_only_part|]. destruct r as [[]|k]; [|done]. cbn.
    specialize (Hr _ eq_refl). apply bind_Ok in Hr as (e & He & Hf). apply ok_or_Ok in He.
    destruct e as [f|]; [|done]. exists f. rewrite (untouched_lookup _ _ _ Hun) in He by done. split; [done|].
    eapply part_holds_untouched; [done|]. by exists f.
Qed.

(** A resumed response that passes says where it starts. *)
Definition resumes_at (r : DownloadResponse BoxError) (offset : Z) : Prop :=
  status r = 206 → 0 < offset → ∃ range, content_range r = Some range ∧ parse_content_range_start range = Some offset.

Lemma wp_check_response expected offset r w : part_ok w →
  wp (check_response download_path part_path expected offset r)
    (λ w' res, match res with Ok _ => w' = w ∧ resumes_at r offset | Err _ => only_part w w' end) w.
Proof.
  intros Hok. unfold check_response. assert (Hrefl : only_part w w) by done.
  destruct (ct ← content_type r; _) as [[ct reason]|]; [by apply wp_discard|].
  destruct ((status r =? 206) && (0 <? offset)) eqn:Hres.
  2: { apply wp_ret. split; [done|]. intros Hs Ho. rewrite Hs, (proj2 (Z.ltb_lt _ _) Ho) in Hres. done. }
  destruct (validate_resume_content_range _ _ _) as [[]|e] eqn:Hv; [|by apply wp_ret].
  assert (Hat : resumes_at r offset).
  { intros _ _. unfold validate_resume_content_range in Hv. destruct (content_range r) as [range|]; [|done].
    exists range. split; [done|]. destruct (parse_content_range_start range) as [start|]; [|done].
    apply ensure_Ok, Z.eqb_eq in Hv. by subst. }
  destruct (content_length r) as [cl|], expected as [ex|]; try by apply wp_ret.
  destruct (negb _); [by apply wp_discard|by apply wp_ret].
Qed.

Lemma wp_verify_download cl expected offset n bytes w : part_ok w → part_holds w bytes →
  wp (verify_download (BoxError := BoxError) download_path part_path cl expected offset n)
    (λ w' r, match r with
       | Ok _ => untouched kept w w' ∧ (∀ ex, expected = Some ex → n = ex)
                 ∧ @check_header IoKind BoxError AnyhowError download_path (take 16 bytes) = Ok tt
       | Err _ => only_part w w'
       end) w.
Proof.
  intros Hok Hh. unfold verify_download. destruct (match cl with Some _ => _ | None => _ end); [by apply wp_discard|].
  destruct (match expected with Some _ => _ | None => _ end) eqn:Hex; [by apply wp_discard|].
  apply wp_bind, wp_bind_try, wp_map_err, (wp_read_file kept); [done|]. intros w1 r1 Hun Hr.
  assert (Hdis : ∀ e : Error, wp (discard (A := unit) part_path e) (λ w' r, match r with
       | Ok _ => untouched kept w w' ∧ (∀ ex, expected = Some ex → n = ex)
                 ∧ @check_header IoKind BoxError AnyhowError download_path (take 16 bytes) = Ok tt
       | Err _ => only_part w w'
       end) w1).
  { intros e. apply wp_discard; [by eapply part_ok_untouched|]. intros w2 Hw2.
    eapply only_part_trans; [by apply untouched_only_part|done]. }
  destruct r1 as [bs|k]; cbn [map_err]; [|by apply Hdis]. apply wp_ret.
  destruct (Hr _ eq_refl) as (f & Hf & ->).
  destruct Hh as (f' & Hf' & <-). rewrite (untouched_lookup _ _ _ Hun) in Hf by done.
  assert (f' = f) as -> by congruence. clear Hf'.
  destruct (check_header download_path (take 16 (f_bytes f))) as [[]|e] eqn:Hc; [|by apply Hdis].
  apply wp_ret. split_and!; [done| |done]. intros ex ->. apply negb_false_iff, Z.eqb_eq in Hex. done.
Qed.

(** ** One attempt *)

Context (Hne : part_path ≠ download_path) (Hfinal : kept download_path).
Context (opts : DownloadOpts) (Hsize : expected_size opts = Some (zlen content)).
Context (Hpub : skip_rename opts = true ∨ publication opts = NoReplace).

(** What the final path holds after a successful download. *)
Definition final_done w w' : Prop :=
  (w_fs w !! download_path = None ∧ ∃ f, w_fs w' !! download_path = Some (Regular f) ∧ f_bytes f = content)
  ∨ (w_fs w' !! download_path = w_fs w !! download_path ∧ holds_file w download_path (fingerprint_of content)).

Definition attempt_post w (w' : World) (r : result Error Z) : Prop :=
  match r with
  | Ok n =>
      n = zlen content ∧ @check_header IoKind BoxError AnyhowError download_path (take 16 content) = Ok tt
      ∧ if skip_rename opts then only_part w w' ∧ part_holds w' content else final_done w w'
  | Err _ => only_part w w'
  end.

Lemma whole_content pre : pre `prefix_of` content → zlen pre = zlen content → pre = content.
Proof. intros [rest Hc] Hl. rewrite Hc, length_app in Hl. destruct rest; [by rewrite app_nil_r in Hc|cbn in Hl; lia]. Qed.

(** The body is complete and checked: publish it. *)
Lemma wp_finish w w1 : only_part w w1 → part_holds w1 content →
  @check_header IoKind BoxError AnyhowError download_path (take 16 content) = Ok tt →
  wp (if skip_rename opts then mret (Ok (zlen content))
      else _ ←? map_err_io Other (publish_part_to_final part_path download_path (publication opts)); mret (Ok (zlen content)))
     (attempt_post w) w1.
Proof.
  intros Hw1 Hh Hcheck. unfold attempt_post. destruct (skip_rename opts) eqn:Hskip; [by apply wp_ret|].
  destruct Hpub as [?| ->]; [done|].
  apply wp_bind_try, wp_map_err. eapply wp_mono; [by apply (wp_publish_no_replace kept)|].
  intros w2 r Hr. destruct r as [[]|e]; cbn; [|by eapply only_part_untouched].
  split_and!; [done..|]. destruct Hr as [_ Hr]. unfold final_done.
  rewrite <- (proj2 Hw1 download_path) by done.
  destruct Hh as (f & Hf & Hfc). destruct (Hr Hfinal) as [(Hnone & Hw2 & _)|(Hw2 & fp & Hfp & (f' & Hf' & Hfp'))].
  - left. split; [done|]. exists f. by rewrite Hw2.
  - right. split; [done|]. destruct Hfp as (g & Hg & Hgf). exists g.
    rewrite <- (proj2 Hw1 download_path) by done. split; [done|]. congruence.
Qed.

Lemma wp_attempt a shutdown w : honest content a → part_ok w →
  wp (attempt_download_with_publication a shutdown opts download_path part_path) (attempt_post w) w.
Proof.
  intros Hhon Hok. apply wp_bind. eapply wp_mono; [apply wp_resume_offset|]. intros w1 offset [Hun1 Hoff].
  pose proof (untouched_only_part _ _ Hok Hun1) as Hw1.
  destruct (fetch a _) as [r|e] eqn:Hfetch; [|by apply wp_ret].
  specialize (Hhon _ _ Hfetch).
  destruct (body_plan (status r) offset) as [[eff truncate]|] eqn:Hplan; [|by apply wp_ret].
  apply wp_bind_try. eapply wp_mono; [apply wp_check_response; by apply Hw1|]. intros w2 [[]|e] H2.
  2: { by eapply only_part_trans. }
  destruct H2 as [-> Hat].
  apply wp_bind_try. eapply wp_mono; [apply wp_open_part; by apply Hw1|]. intros w3 r3 [Hw3 H3].
  pose proof (only_part_trans _ _ _ Hw1 Hw3) as Hw13. destruct r3 as [[]|e]; [|done].
  (* the part file holds [pre] and the body continues it *)
  assert (∃ pre, part_holds w3 pre ∧ pre ++ body (stream r) `prefix_of` content ∧ eff = zlen pre) as (pre & Hpre & Hbody & ->).
  { unfold body_plan in Hplan. destruct ((status r =? 206) && (0 <? offset)) eqn:Hres.
    - injection Hplan as <- <-. apply andb_true_iff in Hres as [Hs Hpos]. rewrite Hs, Hpos in Hhon.
      apply Z.eqb_eq in Hs. apply Z.ltb_lt in Hpos.
      destruct (Hat Hs Hpos) as (range & Hrange & Hstart). specialize (Hhon _ _ Hrange Hstart).
      destruct H3 as (f & Hf & Hh). exists (f_bytes f). split; [done|].
      destruct Hoff as [->|(_ & e & He & Hlen)]; [lia|]. rewrite Hf in He. injection He as <-. cbn in Hlen.
      destruct Hw1 as [Hok1 _]. destruct (Hok1 f Hf) as [rest Hrest]. split; [|by rewrite Hlen].
      rewrite Hrest. apply prefix_app. rewrite Hrest, drop_app_length' in Hhon by lia. done.
    - destruct ((200 <=? status r) && (status r <? 300)); [|done]. injection Hplan as <- <-.
      exists []. split_and!; [done| |done]. cbn.
      destruct (status r =? 206); [|done]. destruct (Z.ltb_spec 0 offset); [done|done]. }
  apply wp_bind. eapply wp_mono; [by apply wp_write_stream|]. intros w4 r4 [Hw4 H4].
  pose proof (only_part_trans _ _ _ Hw13 Hw4) as Hw14.
  destruct r4 as [n|e].
  2: { destruct (negb _ && negb _); [|by apply wp_ret]. apply wp_discard; [by apply Hw4|]. intros w5 Hw5.
       by eapply only_part_trans. }
  destruct H4 as [Hh4 Hn]. destruct (shutdown && _); [by apply wp_ret|].
  apply wp_bind_try. eapply wp_mono; [apply wp_verify_download; [by apply Hw4|done]|]. intros w5 r5 H5.
  destruct r5 as [[]|e]; [|by eapply only_part_trans].
  destruct H5 as (Hun5 & Hexp & Hcheck).
  assert (pre ++ body (stream r) = content) as Hwhole.
  { apply whole_content; [done|]. rewrite length_app. rewrite (Hexp _ Hsize) in Hn. lia. }
  rewrite Hwhole in *. rewrite (Hexp _ Hsize). apply wp_finish; [|by eapply part_holds_untouched|done].
  by eapply only_part_untouched.
Qed.
End Spec.

(** ** All attempts *)

Section Downloads.
Context `{DiskEnv, Sha, Codecs} {BoxError : Type}.

(** C4: resuming is sound.  Let a server answer every request with pieces of
    the file [content] of the advertised size, each cut short wherever it
    likes, let attempts fail, be interrupted or die in a full disk, and let
    the part file left by earlier runs hold a beginning of the content.  Then
    the download ends; if it succeeds, the whole content passed the content
    check and is at the part path ([skip_rename]) or at the final path, where
    it replaced nothing: an existing file stays and has the content's
    fingerprint.  If it fails, the final path is as it was, and the part file
    still holds a beginning of the content, ready to be resumed. *)
Theorem download_assembles_content (content : list Z) (attempts : Z → Attempt (BoxError := BoxError)) shutdown_token opts
    download_path checksum temp_suffix retry_config jitter counter part_path w :
  env_keeps (λ p, p = part_path ∨ p = download_path) →
  temp_download_path download_path checksum temp_suffix = Ok part_path → part_path ≠ download_path →
  expected_size opts = Some (zlen content) → skip_rename opts = true ∨ publication opts = NoReplace →
  (∀ k, honest content (attempts k)) → part_ok content part_path w → 0 <= max_retries retry_config →
  ∃ w' r counter',
    download_file attempts shutdown_token opts download_path checksum temp_suffix retry_config jitter counter w
      = Some (w', r, counter')
    ∧ match r with
      | Ok n =>
          n = zlen content ∧ @check_header IoKind BoxError AnyhowError download_path (take 16 content) = Ok tt
          ∧ (if skip_rename opts then part_holds part_path w' content ∧ w_fs w' !! download_path = w_fs w !! download_path
             else final_done content download_path w w')
      | Err _ => part_ok content part_path w' ∧ w_fs w' !! download_path = w_fs w !! download_path
      end.
Proof.
  intros Hk Htemp Hne Hsize Hpub Hhon Hok Hm. unfold download_file, download_file_with_mode. rewrite Htemp. cbv zeta.
  set (attempt := nth_attempt attempts shutdown_token opts download_path part_path).
  set (kept p := p = part_path ∨ p = download_path).
  assert (Hpart : kept part_path) by by left. assert (Hfinal : kept download_path) by by right.
  assert (Hstep : ∀ k w0, part_ok content part_path w0 →
            attempt_post kept content part_path download_path opts w0 (attempt k w0).1 (attempt k w0).2).
  { intros k w0 Hok0. apply wp_pair. by apply wp_attempt. }
  destruct (retry_run retry_config download_classifier
              (λ k, (attempt k (world_before attempt w (Z.to_nat k))).2) jitter Hm) as (r & evs & k & Hloop & Hrun).
  rewrite Hloop. clear Hloop. cbn [mbind option_bind].
  destruct Hrun as [Hrange -> _ Hretried Hatt _ _].
  assert (Hworlds : ∀ j, (Z.of_nat j <= k) → only_part kept content part_path w (world_before attempt w j)).
  { induction j as [|j IHj]; intros Hj; [by split|]. cbn [world_before].
    specialize (IHj ltac:(lia)). eapply only_part_trans; [done|].
    specialize (Hretried (Z.of_nat j) ltac:(lia)). unfold retried in Hretried; cbv beta in Hretried. rewrite Nat2Z.id in Hretried.
    specialize (Hstep (Z.of_nat j) (world_before attempt w j) (proj1 IHj)).
    by destruct (attempt (Z.of_nat j) (world_before attempt w j)).2. }
  eexists _, _, _. split; [done|]. rewrite Hatt, length_seqZ.
  replace (Z.to_nat (k + 1 - 0)) with (S (Z.to_nat k)) by lia. cbn [world_before]. rewrite Z2Nat.id by lia.
  specialize (Hworlds (Z.to_nat k) ltac:(lia)).
  specialize (Hstep k (world_before attempt w (Z.to_nat k)) (proj1 Hworlds)).
  destruct (attempt k (world_before attempt w (Z.to_nat k))) as [w' [n|e]]; cbn [fst snd] in *.
  - destruct Hstep as (-> & Hc & Hend). split_and!; [done..|]. destruct (skip_rename opts).
    + destruct Hend as [Hw' Hh]. split; [done|]. by apply (only_part_trans _ _ _ _ _ _ Hworlds Hw').
    + unfold final_done, holds_file in *. rewrite (proj2 Hworlds download_path) in Hend by done. done.
  - pose proof (only_part_trans _ _ _ _ _ _ Hworlds Hstep) as [Hok' Hoth]. split; [done|]. by apply Hoth.
Qed.
End Downloads.

(** ** Runs *)

Module TransferRuns.

#[export] Instance quiet : DiskEnv := {| interfere := λ _ fs, fs; fault := λ _, None; clock := λ t, Z.of_nat t |}.
#[export] Instance digest : Sha := {| sha256_digest := @rev Z |}.
#[export] Instance codecs : Codecs := {| base64_decode := Some; base32_encode := id |}.

Definition final : path := lit "/photos/IMG_1.JPG".
Definition part : path := lit "/photos/ABC.part".
Definition jpeg : list Z := [255; 216; 255; 224; 0; 16].

Definition answer (status : Z) (range : option str) (stream : list (StreamEvent unit)) : DownloadResponse unit :=
  {| status := status; content_length := None; content_range := range; content_type := Some (lit "image/jpeg");
     stream := stream |}.

(** The first answer breaks off after three bytes; the rest is served from
    there, and a range that starts at the end of the file is refused. *)
Definition server (from : option Z) : result unit (DownloadResponse unit) :=
  match from with
  | None => Ok (answer 200 None [Chunk [255; 216]; Chunk [255]; StreamFailed tt])
  | Some 3 => Ok (answer 206 (Some (lit "bytes 3-5/6")) [Chunk [224; 0; 16]])
  | Some _ => Ok (answer 416 None [])
  end.
Definition attempts (cancelled : bool) (k : Z) : Attempt := {| fetch := server; cancelled_after := cancelled |}.
Definition opts : DownloadOpts := {| skip_rename := false; expected_size := Some 6; publication := NoReplace |}.
Definition start : World := {| w_fs := ∅; w_tick := 0; w_lost := [] |}.

Definition download (cancelled : bool) (w : World) :=
  download_file (attempts cancelled) true opts final (lit "ABC") (lit ".part") RetryConfig_default (λ _, 0) None w.

Lemma server_honest cancelled k : honest jpeg (attempts cancelled k).
Proof.
  intros from r. cbn. destruct from as [from|]; cbn.
  - destruct from as [|[[]|[]|]|]; intros [= <-]; cbn; try (by intros; discriminate); try apply prefix_nil.
    intros range start [= <-] Hs. vm_compute in Hs. injection Hs as <-. by exists [].
  - intros [= <-]. cbn. by exists [224; 0; 16].
Qed.

(** The second attempt resumes the first. *)
Example resumed_run :
  (λ '(w, r, _), (w_fs w !! part, r)) <$> download false start = Some (None, Ok 6).
Proof. by vm_compute. Qed.

(** A shutdown seen after the last byte leaves the whole file at the part
    path.  The next run asks for the bytes after its end, and the answer
    [416] is neither retried nor answered by starting over: the file is not
    downloaded although all of it is there. *)
Definition interrupted := download true start.
Example complete_part_is_not_resumed :
  match interrupted with
  | Some (w, r, _) =>
      r = Err (Interrupted final 6)
      ∧ (f_bytes <$> (w_fs w !! part ≫= λ e, match e with Regular f => Some f | _ => None end)) = Some jpeg
      ∧ match download false w with
        | Some (w', r', _) =>
            r' = Err (HttpStatus 416 final) ∧ w_fs w' !! part = w_fs w !! part ∧ w_fs w' !! final = None
        | None => False
        end
  | None => False
  end.
Proof. vm_compute. done. Qed.
End TransferRuns.
Import TransferRuns.

Lemma download_assembles_content_witness :
  ∃ w' r counter', download false start = Some (w', r, counter')
    ∧ match r with
      | Ok n => n = 6
      | Err _ => part_ok jpeg part w'
      end.
Proof.
  destruct (download_assembles_content jpeg (attempts false) true opts final (lit "ABC") (lit ".part")
    RetryConfig_default (λ _, 0) None part start) as (w' & r & counter' & Hd & Hr).
  - done.
  - by vm_compute.
  - by apply (bool_decide_unpack _); vm_compute.
  - done.
  - by right.
  - apply server_honest.
  - done.
  - done.
  - exists w', r, counter'. split; [exact Hd|]. destruct r; apply Hr.
Defined.
