(* ===== verification/Cycle.v ===== *)
(** * One sync cycle: [src/sync_cycle.rs]

    What a cycle does around the download engine: the drift of the two
    configuration hashes, the choice between a full enumeration and the
    stored token, the bridge from the prior token, the checkpoint decision of
    each library and the promotion of a finished reconciliation.  The token
    table is an interface whose calls may fail; the download engine and the
    catalog reconciliation are parameters. *)
From Stdlib Require Import SpecFloat.
From S2P Require Import Prelude RustStr Types StateTypes StateDb Stats Checkpoint Finalize.

(** ** The token store as the cycle sees it *)

Class SyncTokenStore (St : Type) := {
  st_get_metadata : str → St → St * result StateError (option str);
  st_set_metadata : str → str → St → St * result StateError unit;
  st_delete_metadata_by_prefix : str → St → St * result StateError Z;
  st_commit_checkpoint_transition : CheckpointTransition → St → St * result StateError unit;
}.

(** ** Names *)

Definition ENUM_CONFIG_HASH_KEY : str := lit "enum_config_hash".
Definition PENDING_ENUM_CONFIG_HASH_KEY : str := lit "pending_enum_config_hash".
Definition PENDING_DOWNLOAD_CONFIG_HASH_KEY : str := lit "pending_download_config_hash".
Definition DOWNLOAD_CONFIG_HASH_KEY : str := lit "config_hash".
Definition LAST_CHECKPOINT_STATUS_KEY : str := lit "last_checkpoint_status".
Definition LAST_RECOVERY_ACTION_KEY : str := lit "last_recovery_action".
Definition LAST_FULL_ENUMERATION_REASON_KEY : str := lit "last_full_enumeration_reason".

Inductive EnumConfigHashOutcome :=
| EnumInitial | EnumUnchanged | EnumChanged | EnumChangedTokenPurgeFailed | EnumReadFailed.
#[export] Instance EnumConfigHashOutcome_eq : EqDecision EnumConfigHashOutcome.
Proof. solve_decision. Defined.
Definition enum_must_force_full_sync (o : EnumConfigHashOutcome) : bool :=
  match o with EnumChanged | EnumChangedTokenPurgeFailed | EnumReadFailed => true | _ => false end.

Inductive DownloadConfigHashOutcome :=
| DownloadUnchanged | DownloadChanged | DownloadReadFailed | DownloadTokenPurgeFailed.
#[export] Instance DownloadConfigHashOutcome_eq : EqDecision DownloadConfigHashOutcome.
Proof. solve_decision. Defined.
Definition download_must_force_full_sync (o : DownloadConfigHashOutcome) : bool :=
  match o with DownloadReadFailed | DownloadTokenPurgeFailed => true | _ => false end.
Definition token_purge_failed (o : DownloadConfigHashOutcome) : bool :=
  match o with DownloadTokenPurgeFailed => true | _ => false end.

Inductive SyncMode := Full | Incremental (zone_sync_token : str).
#[export] Instance SyncMode_eq : EqDecision SyncMode.
Proof. solve_decision. Defined.

Record SyncModeDecision := {
  mode : SyncMode;
  md_full_enumeration_reason : option FullEnumerationReason;
}.

Definition metadata_refresh_mode_decision (refresh_metadata : bool) : option SyncModeDecision :=
  if refresh_metadata then Some {| mode := Full; md_full_enumeration_reason := Some MetadataBackfill |} else None.

(** [.filter(|token| !token.trim().is_empty())]. *)
Definition nonblank (token : option str) : option str := t ← token; if is_blank t then None else Some t.

(** ** The statistics a cycle writes *)

Record Diagnostics := {
  d_inventory_drop_warnings : Z;
  d_inventory_drop_assets : Z;
  d_inventory_drop_percent : option spec_float;
  d_inventory_drop_previous_total : option Z;
  d_inventory_drop_current_total : option Z;
  d_inventory_drop_library : option str;
  d_sync_token_blocked : bool;
  d_sync_token_blocked_reason : option str;
  d_sync_token_blocked_source : option str;
  d_sync_token_blocked_explanation : option str;
  d_full_enumeration_reason : option FullEnumerationReason;
  d_sync_token_blocked_zone : option str;
}.
Definition diagnostics (s : SyncStats) : Diagnostics := {|
  d_inventory_drop_warnings := inventory_drop_warnings s;
  d_inventory_drop_assets := inventory_drop_assets s;
  d_inventory_drop_percent := inventory_drop_percent s;
  d_inventory_drop_previous_total := inventory_drop_previous_total s;
  d_inventory_drop_current_total := inventory_drop_current_total s;
  d_inventory_drop_library := inventory_drop_library s;
  d_sync_token_blocked := sync_token_blocked s;
  d_sync_token_blocked_reason := sync_token_blocked_reason s;
  d_sync_token_blocked_source := sync_token_blocked_source s;
  d_sync_token_blocked_explanation := sync_token_blocked_explanation s;
  d_full_enumeration_reason := full_enumeration_reason s;
  d_sync_token_blocked_zone := sync_token_blocked_zone s;
|}.
Definition with_diagnostics (d : Diagnostics) (s : SyncStats) : SyncStats := {|
  assets_seen := assets_seen s; api_total_at_start := api_total_at_start s;
  api_total_at_start_partial := api_total_at_start_partial s; downloaded := downloaded s;
  failed := failed s; skipped := skipped s; bytes_downloaded := bytes_downloaded s;
  disk_bytes_written := disk_bytes_written s; exif_failures := exif_failures s;
  metadata_capture_revision := metadata_capture_revision s;
  metadata_capture_refreshed := metadata_capture_refreshed s;
  metadata_capture_failures := metadata_capture_failures s;
  metadata_capture_remaining := metadata_capture_remaining s;
  metadata_capture_progressed := metadata_capture_progressed s;
  state_write_failures := state_write_failures s; enumeration_errors := enumeration_errors s;
  count_probe_failures := count_probe_failures s; stale_pending_pruned := stale_pending_pruned s;
  pagination_shortfall_warnings := pagination_shortfall_warnings s;
  pagination_shortfall_assets := pagination_shortfall_assets s; tail_probes := tail_probes s;
  count_undercount_assets := count_undercount_assets s;
  enumeration_incomplete := enumeration_incomplete s;
  inventory_drop_warnings := d_inventory_drop_warnings d;
  inventory_drop_assets := d_inventory_drop_assets d;
  inventory_drop_percent := d_inventory_drop_percent d;
  inventory_drop_previous_total := d_inventory_drop_previous_total d;
  inventory_drop_current_total := d_inventory_drop_current_total d;
  inventory_drop_library := d_inventory_drop_library d; sync_token_blocked := d_sync_token_blocked d;
  sync_token_blocked_reason := d_sync_token_blocked_reason d;
  sync_token_blocked_source := d_sync_token_blocked_source d;
  sync_token_blocked_explanation := d_sync_token_blocked_explanation d;
  full_enumeration_reason := d_full_enumeration_reason d;
  sync_token_blocked_zone := d_sync_token_blocked_zone d;
  sync_token_expected_receivers := sync_token_expected_receivers s;
  sync_token_receivers_with_token := sync_token_receivers_with_token s;
  sync_token_receivers_missing := sync_token_receivers_missing s;
  sync_token_receivers_blank := sync_token_receivers_blank s;
  sync_token_receivers_dropped := sync_token_receivers_dropped s;
  sync_token_unique_values := sync_token_unique_values s;
  same_cycle_recovery_attempts := same_cycle_recovery_attempts s;
  same_cycle_recovery_successes := same_cycle_recovery_successes s;
  checkpoint_retry_passes := checkpoint_retry_passes s;
  checkpoint_revalidate_records := checkpoint_revalidate_records s; elapsed_secs := elapsed_secs s;
  interrupted := interrupted s; rate_limited := rate_limited s; photos_downloaded := photos_downloaded s;
  videos_downloaded := videos_downloaded s; recap := recap s;
|}.

(** ** The cycle *)

(** [LibraryState]: its library and plan are the engine's. *)
Record LibraryState := {
  zone_name : str;
  ls_sync_token_key : str;
  has_active_passes : bool;
  plan_is_stale : bool;
}.

(** What the cycle reads of the configuration; the hashes are
    [compute_config_hash] and [hash_download_config]. *)
Record CycleConfig := {
  dry_run : bool;
  refresh_metadata : bool;
  run_mode : DownloadRunMode;
  enum_config_hash : str;
  download_config_hash : str;
  legacy_download_config_hash : str;
}.

Record CycleResult := {
  cr_failed_count : Z;
  cr_session_expired : bool;
  cr_stats : SyncStats;
  cr_db_sync_token_advance_safe : bool;
}.

(** [InventoryAnchor], and [serde_json] on it. *)
Record InventoryAnchor := { an_api_total_at_start : Z; an_assets_seen : Z; an_completed_at : Z }.
Class AnchorJson := { anchor_from_str : str → option InventoryAnchor; anchor_to_string : InventoryAnchor → option str }.

Section Cycle.
Context {St AnyError : Type} `{SyncTokenStore St, AnchorJson} (state_error : StateError → AnyError).
(** A state database is configured; the shutdown token; the clock. *)
Context (has_db : bool) (is_cancelled : St → bool) (utc_now : St → Z).
(** [download_photos_with_sync] and [reconcile_catalog_paths] for a library:
    the latter answers whether it is complete, and its statistics. *)
Context (download_photos_with_sync : SyncMode → LibraryState → St → St * result AnyError SyncResult).
Context (reconcile_catalog_paths : LibraryState → St → St * result AnyError (bool * SyncStats)).

(** *** The enumeration hash *)

Definition check_and_persist_enum_config_hash (current_hash : str) (s : St) : St * EnumConfigHashOutcome :=
  match st_get_metadata ENUM_CONFIG_HASH_KEY s with
  | (s, Err _) => (s, EnumReadFailed)
  | (s, Ok (Some h)) =>
      if str_eqb h current_hash then
        let '(s, _) := st_delete_metadata_by_prefix PENDING_ENUM_CONFIG_HASH_KEY s in
        let '(s, _) := st_delete_metadata_by_prefix PENDING_ZONE_TOKEN_PREFIX s in
        (s, EnumUnchanged)
      else
        let stage s :=
          match st_set_metadata PENDING_ENUM_CONFIG_HASH_KEY current_hash s with
          | (s, Ok _) => (s, EnumChanged)
          | (s, Err _) => (s, EnumChangedTokenPurgeFailed)
          end in
        match st_get_metadata PENDING_ENUM_CONFIG_HASH_KEY s with
        | (s, Err _) => (s, EnumReadFailed)
        | (s, Ok pending) =>
            if bool_decide (pending = Some current_hash) then stage s
            else
              match st_delete_metadata_by_prefix PENDING_ZONE_TOKEN_PREFIX s with
              | (s, Err _) => (s, EnumChangedTokenPurgeFailed)
              | (s, Ok _) => stage s
              end
        end
  | (s, Ok None) => let '(s, _) := st_set_metadata ENUM_CONFIG_HASH_KEY current_hash s in (s, EnumInitial)
  end.

(** *** The download hash *)

Definition check_download_config_hash_for_cycle (current_hash legacy_hash : str) (s : St)
    : St * DownloadConfigHashOutcome :=
  match st_get_metadata DOWNLOAD_CONFIG_HASH_KEY s with
  | (s, Err _) => (s, DownloadReadFailed)
  | (s, Ok None) =>
      match st_set_metadata DOWNLOAD_CONFIG_HASH_KEY current_hash s with
      | (s, Err _) => (s, DownloadReadFailed)
      | (s, Ok _) => (s, DownloadUnchanged)
      end
  | (s, Ok (Some stored)) =>
      if str_eqb stored current_hash then
        let '(s, _) := st_delete_metadata_by_prefix PENDING_DOWNLOAD_CONFIG_HASH_KEY s in
        (s, DownloadUnchanged)
      else if str_eqb stored legacy_hash then
        match st_commit_checkpoint_transition
                {| metadata_updates := [(DOWNLOAD_CONFIG_HASH_KEY, current_hash)];
                   metadata_deletes := [PENDING_DOWNLOAD_CONFIG_HASH_KEY] |} s with
        | (s, Err _) => (s, DownloadReadFailed)
        | (s, Ok _) => (s, DownloadUnchanged)
        end
      else
        match st_set_metadata PENDING_DOWNLOAD_CONFIG_HASH_KEY current_hash s with
        | (s, Err _) => (s, DownloadTokenPurgeFailed)
        | (s, Ok _) =>
            let '(s, _) := st_set_metadata LAST_RECOVERY_ACTION_KEY (lit "reconcile_local_paths") s in
            (s, DownloadChanged)
        end
  end.

(** *** The mode of a library *)

Definition determine_sync_mode_decision (sync_token_key : str) (s : St) : St * SyncModeDecision :=
  let full reason := {| mode := Full; md_full_enumeration_reason := Some reason |} in
  if has_db then
    match st_get_metadata sync_token_key s with
    | (s, Ok (Some token)) =>
        if bool_decide (token = []) then (s, full NoStoredToken)
        else (s, {| mode := Incremental token; md_full_enumeration_reason := None |})
    | (s, Ok None) => (s, full NoStoredToken)
    | (s, Err _) => (s, full OtherStaticReason)
    end
  else (s, full NoStoredToken).

(** The flags the hash checks leave for the libraries. *)
Record HashState := {
  hs_enum : EnumConfigHashOutcome;
  hs_force_full_for_config_hash : bool;
  hs_force_full_for_download_config_hash : bool;
  hs_checkpoint_transition_state_safe : bool;
  hs_pending_download_config_hash : option str;
}.

Definition pending_zone_token (config : CycleConfig) (hs : HashState) (lib : LibraryState) (s : St)
    : St * result AnyError (option str) :=
  if bool_decide (hs_enum hs = EnumChanged) && has_db then
    match st_get_metadata (pending_zone_token_key (enum_config_hash config) (zone_name lib)) s with
    | (s, Ok token) => (s, Ok (nonblank token))
    | (s, Err e) => (s, Err (state_error e))
    end
  else (s, Ok None).

Definition sync_mode_decision (config : CycleConfig) (hs : HashState) (lib : LibraryState)
    (pending : option str) (s : St) : St * SyncModeDecision :=
  match metadata_refresh_mode_decision (refresh_metadata config), pending with
  | Some d, _ => (s, d)
  | None, Some token => (s, {| mode := Incremental token; md_full_enumeration_reason := None |})
  | None, None =>
      if hs_force_full_for_config_hash hs then
        (s, {| mode := Full; md_full_enumeration_reason := Some EnumConfigHashDrift |})
      else if hs_force_full_for_download_config_hash hs then
        (s, {| mode := Full; md_full_enumeration_reason := Some DownloadConfigHashDrift |})
      else determine_sync_mode_decision (ls_sync_token_key lib) s
  end.

(** *** The bridge from the prior token *)

Definition set_blocked (reason explanation : str) (s : SyncStats) : SyncStats :=
  let d := diagnostics s in
  with_diagnostics {|
    d_inventory_drop_warnings := d_inventory_drop_warnings d; d_inventory_drop_assets := d_inventory_drop_assets d;
    d_inventory_drop_percent := d_inventory_drop_percent d;
    d_inventory_drop_previous_total := d_inventory_drop_previous_total d;
    d_inventory_drop_current_total := d_inventory_drop_current_total d;
    d_inventory_drop_library := d_inventory_drop_library d;
    d_sync_token_blocked := true; d_sync_token_blocked_reason := Some reason;
    d_sync_token_blocked_source := Some (lit "kei"); d_sync_token_blocked_explanation := Some explanation;
    d_full_enumeration_reason := d_full_enumeration_reason d;
    d_sync_token_blocked_zone := d_sync_token_blocked_zone d;
  |} s.

Definition BRIDGE_FAILED : str := lit "inventory_delta_bridge_failed".
Definition BRIDGE_UNFINISHED : str :=
  lit "the inventory completed, but replay from the preserved provider checkpoint did not finish safely".
Definition BRIDGE_NOT_INCREMENTAL : str :=
  lit "the prior provider checkpoint could not be replayed incrementally after inventory reconciliation".

(** [sync_result] after a bridge that ended with [bridge]. *)
Definition merge_bridge (sync_result bridge : SyncResult) (decision : SourceCheckpointDecision)
    : SyncResult * CheckpointBasis :=
  let merged token st :=
    {| outcome := merge_download_outcomes (outcome sync_result) (outcome bridge); sync_token := token;
       stats := st; full_enumeration_ran := full_enumeration_ran sync_result |} in
  let st := accumulate (stats sync_result) (stats bridge) in
  if full_enumeration_ran bridge then (merged None (set_blocked BRIDGE_FAILED BRIDGE_NOT_INCREMENTAL st), CompleteInventory)
  else
    match decision with
    | Advance token _ => (merged (Some token) st, InventoryWithDeltaBridge)
    | Preserve _ _ => (merged None (set_blocked BRIDGE_FAILED BRIDGE_UNFINISHED st), CompleteInventory)
    end.

Definition bridge_from_prior (config : CycleConfig) (hs : HashState) (lib : LibraryState)
    (sync_result : SyncResult) (s : St) : St * result AnyError (SyncResult * CheckpointBasis) :=
  let basis := if full_enumeration_ran sync_result then CompleteInventory else IncrementalDelta in
  if bool_decide (hs_enum hs = EnumChanged) && full_enumeration_ran sync_result
     && hs_checkpoint_transition_state_safe hs then
    let '(s, prior) :=
      if has_db then
        match st_get_metadata (ls_sync_token_key lib) s with
        | (s, Ok token) => (s, Ok (nonblank token))
        | (s, Err e) => (s, Err (state_error e))
        end
      else (s, Ok None) in
    match prior with
    | Err e => (s, Err e)
    | Ok None => (s, Ok (sync_result, basis))
    | Ok (Some prior_token) =>
        match source_checkpoint_decision sync_result (dry_run config) (plan_is_stale lib) CompleteInventory with
        | Preserve _ _ => (s, Ok (sync_result, basis))
        | Advance _ _ =>
            match download_photos_with_sync (Incremental prior_token) lib s with
            | (s, Err e) => (s, Err e)
            | (s, Ok bridge) =>
                (s, Ok (merge_bridge sync_result bridge
                          (source_checkpoint_decision bridge (dry_run config) (plan_is_stale lib) IncrementalDelta)))
            end
        end
    end
  else (s, Ok (sync_result, basis)).

(** *** The inventory anchor *)

Definition set_inventory_drop (drop : InventoryDrop) (zone : str) (s : SyncStats) : SyncStats :=
  let d := diagnostics s in
  with_diagnostics {|
    d_inventory_drop_warnings := saturating_add USIZE_MAX (d_inventory_drop_warnings d) 1;
    d_inventory_drop_assets := drop_assets drop; d_inventory_drop_percent := Some (drop_percent drop);
    d_inventory_drop_previous_total := Some (previous_total drop);
    d_inventory_drop_current_total := Some (current_total drop); d_inventory_drop_library := Some zone;
    d_sync_token_blocked := d_sync_token_blocked d; d_sync_token_blocked_reason := d_sync_token_blocked_reason d;
    d_sync_token_blocked_source := d_sync_token_blocked_source d;
    d_sync_token_blocked_explanation := d_sync_token_blocked_explanation d;
    d_full_enumeration_reason := d_full_enumeration_reason d;
    d_sync_token_blocked_zone := d_sync_token_blocked_zone d;
  |} s.

Definition update_inventory_anchor_for_cycle (enum_config_hash zone : str) (st : SyncStats) (s : St) : St * SyncStats :=
  match api_total_at_start st with
  | None => (s, st)
  | Some current_total =>
      let key := inventory_anchor_key enum_config_hash zone in
      let '(s, stored) := st_get_metadata key s in
      let st :=
        match stored with
        | Ok (Some raw) =>
            match anchor ← anchor_from_str raw; classify_inventory_drop (an_api_total_at_start anchor) current_total with
            | Some drop => set_inventory_drop drop zone st
            | None => st
            end
        | _ => st
        end in
      match anchor_to_string {| an_api_total_at_start := current_total; an_assets_seen := assets_seen st;
                                an_completed_at := utc_now s |} with
      | Some value => let '(s, _) := st_set_metadata key value s in (s, st)
      | None => (s, st)
      end
  end.

(** *** The checkpoint of a library *)

Definition checkpoint_decision (config : CycleConfig) (hs : HashState) (lib : LibraryState)
    (sync_result : SyncResult) (basis : CheckpointBasis) (s : St) : SourceCheckpointDecision :=
  if hs_checkpoint_transition_state_safe hs && negb (is_cancelled s) then
    source_checkpoint_decision sync_result (dry_run config) (plan_is_stale lib) basis
  else if is_cancelled s then Preserve HoldInterrupted ReplayFromPriorToken
  else Preserve HoldStateNotDurable ReplayFromPriorToken.

(** What the loop over the libraries accumulates. *)
Record Progress := {
  pg_failed_count : Z;
  pg_session_expired : bool;
  pg_stats : SyncStats;
  pg_advance_safe : bool;
  pg_path_reconciliation_complete : bool;
  pg_checkpoint_hold_action : option str;
}.

Definition hold (action : option RecoveryAction) (advance_safe : bool) (p : Progress) : Progress := {|
  pg_failed_count := pg_failed_count p; pg_session_expired := pg_session_expired p; pg_stats := pg_stats p;
  pg_advance_safe := pg_advance_safe p && advance_safe;
  pg_path_reconciliation_complete := pg_path_reconciliation_complete p;
  pg_checkpoint_hold_action :=
    match action with Some a => Some (RecoveryAction_as_str a) | None => pg_checkpoint_hold_action p end;
|}.

Definition status_updates (status action : str) : list (str * str) :=
  [(LAST_CHECKPOINT_STATUS_KEY, status); (LAST_RECOVERY_ACTION_KEY, action)].
Definition updates_only (updates : list (str * str)) : CheckpointTransition :=
  {| metadata_updates := updates; metadata_deletes := [] |}.

Definition apply_checkpoint_decision (config : CycleConfig) (hs : HashState) (lib : LibraryState)
    (decision : SourceCheckpointDecision) (p : Progress) (s : St) : St * Progress :=
  match decision with
  | Advance token _ =>
      if has_db then
        if hs_force_full_for_config_hash hs then
          match st_set_metadata (pending_zone_token_key (enum_config_hash config) (zone_name lib)) token s with
          | (s, Err _) => (s, hold (Some ReplayFromPriorToken) false p)
          | (s, Ok _) => (s, p)
          end
        else
          let status :=
            match pg_checkpoint_hold_action p with
            | Some recovery_action => status_updates (lit "preserved") recovery_action
            | None => status_updates (lit "current") (lit "none")
            end in
          match st_commit_checkpoint_transition (updates_only ((ls_sync_token_key lib, token) :: status)) s with
          | (s, Err _) => (s, hold (Some ReplayFromPriorToken) false p)
          | (s, Ok _) => (s, p)
          end
      else (s, hold None false p)
  | Preserve _ recovery =>
      let p := hold (Some recovery) false p in
      if has_db then
        let '(s, _) := st_commit_checkpoint_transition
                         (updates_only (status_updates (lit "preserved") (RecoveryAction_as_str recovery))) s in
        (s, p)
      else (s, p)
  end.

(** *** One library *)

Definition set_full_reason (reason : option FullEnumerationReason) (r : SyncResult) : SyncResult :=
  let d := diagnostics (stats r) in
  {| outcome := outcome r; sync_token := sync_token r; full_enumeration_ran := full_enumeration_ran r;
     stats := with_diagnostics {|
       d_inventory_drop_warnings := d_inventory_drop_warnings d; d_inventory_drop_assets := d_inventory_drop_assets d;
       d_inventory_drop_percent := d_inventory_drop_percent d;
       d_inventory_drop_previous_total := d_inventory_drop_previous_total d;
       d_inventory_drop_current_total := d_inventory_drop_current_total d;
       d_inventory_drop_library := d_inventory_drop_library d;
       d_sync_token_blocked := d_sync_token_blocked d; d_sync_token_blocked_reason := d_sync_token_blocked_reason d;
       d_sync_token_blocked_source := d_sync_token_blocked_source d;
       d_sync_token_blocked_explanation := d_sync_token_blocked_explanation d;
       d_full_enumeration_reason := or_first (d_full_enumeration_reason d) reason;
       d_sync_token_blocked_zone := d_sync_token_blocked_zone d |} (stats r) |}.

Definition set_blocked_zone (zone : str) (s : SyncStats) : SyncStats :=
  let d := diagnostics s in
  if d_sync_token_blocked d then
    with_diagnostics {|
      d_inventory_drop_warnings := d_inventory_drop_warnings d; d_inventory_drop_assets := d_inventory_drop_assets d;
      d_inventory_drop_percent := d_inventory_drop_percent d;
      d_inventory_drop_previous_total := d_inventory_drop_previous_total d;
      d_inventory_drop_current_total := d_inventory_drop_current_total d;
      d_inventory_drop_library := d_inventory_drop_library d;
      d_sync_token_blocked := d_sync_token_blocked d; d_sync_token_blocked_reason := d_sync_token_blocked_reason d;
      d_sync_token_blocked_source := d_sync_token_blocked_source d;
      d_sync_token_blocked_explanation := d_sync_token_blocked_explanation d;
      d_full_enumeration_reason := d_full_enumeration_reason d;
      d_sync_token_blocked_zone := or_first (d_sync_token_blocked_zone d) (Some zone) |} s
  else s.

Definition with_stats (st : SyncStats) (r : SyncResult) : SyncResult :=
  {| outcome := outcome r; sync_token := sync_token r; stats := st; full_enumeration_ran := full_enumeration_ran r |}.

(** The catalog reconciliation after a changed download hash. *)
Definition reconcile_paths (hs : HashState) (lib : LibraryState) (p : Progress) (s : St)
    : St * result AnyError Progress :=
  match hs_pending_download_config_hash hs with
  | None => (s, Ok p)
  | Some _ =>
      match reconcile_catalog_paths lib s with
      | (s, Err e) => (s, Err e)
      | (s, Ok (complete, st)) =>
          (s, Ok {|
            pg_failed_count := saturating_add USIZE_MAX (saturating_add USIZE_MAX (saturating_add USIZE_MAX
                                 (pg_failed_count p) (failed st)) (exif_failures st)) (state_write_failures st);
            pg_session_expired := pg_session_expired p; pg_stats := accumulate (pg_stats p) st;
            pg_advance_safe := pg_advance_safe p;
            pg_path_reconciliation_complete := pg_path_reconciliation_complete p && complete;
            pg_checkpoint_hold_action := pg_checkpoint_hold_action p |})
      end
  end.

Definition finish_library (lib : LibraryState) (sync_result : SyncResult) (p : Progress) : Progress := {|
  pg_failed_count := pg_failed_count p + match outcome sync_result with PartialFailure n => n | _ => 0 end;
  pg_session_expired := pg_session_expired p || match outcome sync_result with SessionExpired _ => true | _ => false end;
  pg_stats := accumulate (pg_stats p) (set_blocked_zone (zone_name lib) (stats sync_result));
  pg_advance_safe := pg_advance_safe p;
  pg_path_reconciliation_complete := pg_path_reconciliation_complete p;
  pg_checkpoint_hold_action := pg_checkpoint_hold_action p;
|}.

Definition library_completed (sync_result : SyncResult) (s : St) : bool :=
  match outcome sync_result with Success => true | _ => false end
  && negb (interrupted (stats sync_result)) && (enumeration_errors (stats sync_result) =? 0) && negb (is_cancelled s).

Definition sync_library (config : CycleConfig) (hs : HashState) (cycle_has_stale_plan : bool)
    (lib : LibraryState) (p : Progress) (s : St) : St * result AnyError Progress :=
  match pending_zone_token config hs lib s with
  | (s, Err e) => (s, Err e)
  | (s, Ok pending) =>
  let '(s, decision) := sync_mode_decision config hs lib pending s in
  let '(s, _) :=
    match md_full_enumeration_reason decision with
    | Some reason =>
        if has_db then st_set_metadata LAST_FULL_ENUMERATION_REASON_KEY (FullEnumerationReason_as_str reason) s
        else (s, Ok tt)
    | None => (s, Ok tt)
    end in
  match reconcile_paths hs lib p s with
  | (s, Err e) => (s, Err e)
  | (s, Ok p) =>
  match download_photos_with_sync (mode decision) lib s with
  | (s, Err e) => (s, Err e)
  | (s, Ok sync_result) =>
  match bridge_from_prior config hs lib sync_result s with
  | (s, Err e) => (s, Err e)
  | (s, Ok (sync_result, basis)) =>
      let sync_result := if full_enumeration_ran sync_result
                         then set_full_reason (md_full_enumeration_reason decision) sync_result else sync_result in
      let '(s, st) :=
        if library_completed sync_result s && negb cycle_has_stale_plan && downloads_files (run_mode config) && has_db
        then update_inventory_anchor_for_cycle (enum_config_hash config) (zone_name lib) (stats sync_result) s
        else (s, stats sync_result) in
      let sync_result := with_stats st sync_result in
      let '(s, p) := apply_checkpoint_decision config hs lib (checkpoint_decision config hs lib sync_result basis s) p s in
      (s, Ok (finish_library lib sync_result p))
  end
  end
  end
  end.

(** The loop over the libraries; a cancelled token or an expired session ends it. *)
Fixpoint sync_libraries (config : CycleConfig) (hs : HashState) (cycle_has_stale_plan : bool)
    (libs : list LibraryState) (p : Progress) (s : St) : St * result AnyError Progress :=
  match libs with
  | [] => (s, Ok p)
  | lib :: libs =>
      if is_cancelled s then (s, Ok p)
      else
        match sync_library config hs cycle_has_stale_plan lib p s with
        | (s, Err e) => (s, Err e)
        | (s, Ok p) =>
            if pg_session_expired p then (s, Ok p) else sync_libraries config hs cycle_has_stale_plan libs p s
        end
  end.

(** *** Promotion *)

(** The candidates of all libraries, or [None] when one has none. *)
Fixpoint collect_candidates (enum_config_hash : str) (libs : list LibraryState) (s : St)
    : St * result AnyError (option (list (str * str) * list str)) :=
  match libs with
  | [] => (s, Ok (Some ([], [])))
  | lib :: libs =>
      let candidate_key := pending_zone_token_key enum_config_hash (zone_name lib) in
      match st_get_metadata candidate_key s with
      | (s, Err e) => (s, Err (state_error e))
      | (s, Ok token) =>
          match nonblank token with
          | None => (s, Ok None)
          | Some token =>
              match collect_candidates enum_config_hash libs s with
              | (s, Ok (Some (updates, deletes))) =>
                  (s, Ok (Some ((ls_sync_token_key lib, token) :: updates, candidate_key :: deletes)))
              | (s, r) => (s, r)
              end
          end
      end
  end.

Definition promote_reconciliation (config : CycleConfig) (libs : list LibraryState) (s : St)
    : St * result AnyError bool :=
  match collect_candidates (enum_config_hash config) libs s with
  | (s, Err e) => (s, Err e)
  | (s, Ok None) => (s, Ok false)
  | (s, Ok (Some (updates, deletes))) =>
      match st_commit_checkpoint_transition
              {| metadata_updates := updates ++ (ENUM_CONFIG_HASH_KEY, enum_config_hash config)
                                     :: status_updates (lit "current") (lit "none");
                 metadata_deletes := deletes ++ [PENDING_ENUM_CONFIG_HASH_KEY] |} s with
      | (s, Err _) => (s, Ok false)
      | (s, Ok _) => (s, Ok true)
      end
  end.

(** *** The whole cycle *)

(** The hash checks at the start; [true] when the database token may advance. *)
Definition check_hashes (config : CycleConfig) (libs : list LibraryState) (s : St) : St * HashState :=
  let active := negb (dry_run config) && has_db in
  let '(s, enum_outcome) :=
    if active then
      let '(s, o) := check_and_persist_enum_config_hash (enum_config_hash config) s in
      let '(s, _) :=
        if bool_decide (o = EnumChanged) then
          st_set_metadata LAST_RECOVERY_ACTION_KEY
            (RecoveryAction_as_str (ReconcileInventory EnumConfigHashDrift)) s
        else (s, Ok tt) in
      (s, o)
    else (s, EnumUnchanged) in
  let '(s, download_outcome) :=
    if active && negb (bool_decide (libs = [])) then
      check_download_config_hash_for_cycle (download_config_hash config) (legacy_download_config_hash config) s
    else (s, DownloadUnchanged) in
  (s, {| hs_enum := enum_outcome;
         hs_force_full_for_config_hash := enum_must_force_full_sync enum_outcome;
         hs_force_full_for_download_config_hash := download_must_force_full_sync download_outcome;
         hs_checkpoint_transition_state_safe :=
           negb (bool_decide (enum_outcome ∈ [EnumChangedTokenPurgeFailed; EnumReadFailed]))
           && negb (token_purge_failed download_outcome);
         hs_pending_download_config_hash :=
           if bool_decide (download_outcome = DownloadChanged) then Some (download_config_hash config) else None |}).

Definition run_cycle (config : CycleConfig) (library_states : list LibraryState) (s : St)
    : St * result AnyError CycleResult :=
  let cycle_has_stale_plan := existsb plan_is_stale library_states in
  let '(s, hs) := check_hashes config library_states s in
  let active := List.filter has_active_passes library_states in
  let start : Progress := {|
    pg_failed_count := 0; pg_session_expired := false; pg_stats := SyncStats_default;
    pg_advance_safe := negb (dry_run config) && negb cycle_has_stale_plan && hs_checkpoint_transition_state_safe hs;
    pg_path_reconciliation_complete := true; pg_checkpoint_hold_action := None |} in
  match sync_libraries config hs cycle_has_stale_plan active start s with
  | (s, Err e) => (s, Err e)
  | (s, Ok p) =>
      let '(s, promoted) :=
        if hs_force_full_for_config_hash hs && pg_advance_safe p && negb (pg_session_expired p)
           && negb (is_cancelled s) && has_db
        then promote_reconciliation config active s else (s, Ok true) in
      match promoted with
      | Err e => (s, Err e)
      | Ok promoted =>
          let '(s, _) :=
            match hs_pending_download_config_hash hs with
            | Some hash =>
                if pg_path_reconciliation_complete p && negb (pg_session_expired p) && negb (is_cancelled s) && has_db then
                  st_commit_checkpoint_transition
                    {| metadata_updates := [(DOWNLOAD_CONFIG_HASH_KEY, hash)];
                       metadata_deletes := [PENDING_DOWNLOAD_CONFIG_HASH_KEY] |} s
                else (s, Ok tt)
            | None => (s, Ok tt)
            end in
          (s, Ok {| cr_failed_count := pg_failed_count p; cr_session_expired := pg_session_expired p;
                    cr_stats := pg_stats p; cr_db_sync_token_advance_safe := pg_advance_safe p && promoted |})
      end
  end.
End Cycle.

(** ** The SQLite store behind transient faults *)

#[export] Instance SqliteStore_tokens : SyncTokenStore SqliteStore := {
  st_get_metadata k s := call s (λ d, Ok (d, get_metadata k d));
  st_set_metadata k v s := call s (λ d, Ok (set_metadata k v d, tt));
  st_delete_metadata_by_prefix p s := call s (λ d, Ok (delete_metadata_by_prefix p d));
  st_commit_checkpoint_transition t s := call s (λ d, Ok (commit_checkpoint_transition t d, tt));
}.
