(* ===== verification/CycleSpec.v ===== *)
(** * What the sync cycles promise

    A stored sync token is only worth something under the configuration it was
    obtained with.  Across any cycle - failing calls, cancelled runs, changed
    configurations, interrupted reconciliations - the active token of a zone
    was earned for the active hash, and every candidate for its own: it was
    stored for it before, or a run of the zone under that configuration proved
    it. *)
From S2P Require Import Prelude RustStr Types StateTypes StateDb StateDbSpec Stats Checkpoint Finalize FinalizeSpec Cycle.
Import Sql.

(** ** Laws of the token store *)

Definition commit_table (t : CheckpointTransition) (m : gmap str str) : gmap str str :=
  foldl (λ m k, delete k m) (foldl (λ m kv, <[kv.1 := kv.2]> m) m (metadata_updates t)) (metadata_deletes t).

(** A call that fails changes nothing; a transition is atomic. *)
Class TokenLaws (St : Type) `{SyncTokenStore St} := {
  table : St → gmap str str;
  get_law k s s' r : st_get_metadata k s = (s', r) → table s' = table s ∧ ∀ v, r = Ok v → v = table s !! k;
  set_law k v s s' r : st_set_metadata k v s = (s', r) →
    table s' = match r with Ok _ => <[k := v]> (table s) | Err _ => table s end;
  delete_law p s s' r : st_delete_metadata_by_prefix p s = (s', r) →
    table s' = match r with Ok _ => delete_where (λ k _, like (p ++ lit "%") k) (table s) | Err _ => table s end;
  commit_law t s s' r : st_commit_checkpoint_transition t s = (s', r) →
    table s' = match r with Ok _ => commit_table t (table s) | Err _ => table s end;
}.

Lemma elem_of_filterb {A} (f : A → bool) l a : a ∈ List.filter f l ↔ a ∈ l ∧ f a = true.
Proof. rewrite !list_elem_of_In. apply List.filter_In. Qed.

(** ** Keys *)

Definition no_colon (h : str) : Prop := 58 ∉ h.

Lemma sync_token_key_inj z z' : sync_token_key z = sync_token_key z' → z = z'.
Proof. apply app_inv_head. Qed.

Lemma pending_zone_token_key_inj h z h' z' : no_colon h → no_colon h' →
  pending_zone_token_key h z = pending_zone_token_key h' z' → h = h' ∧ z = z'.
Proof.
  intros Hh Hh' Hk. apply app_inv_head in Hk. change (lit ":") with [58] in Hk.
  revert h' Hh' Hk. induction h as [|c h IH]; intros [|c' h'] Hh' Hk; cbn in Hk; injection Hk; [by intros ->|..].
  - intros _ <-. destruct Hh'. by left.
  - intros _ ->. destruct Hh. by left.
  - intros Hk' ->. destruct (IH (λ H, Hh (list_elem_of_further _ _ _ H)) h' (λ H, Hh' (list_elem_of_further _ _ _ H)) Hk') as [-> ->]. done.
Qed.

Ltac distinct_keys := let H := fresh in intros H; vm_compute in H; congruence.

Lemma token_pending z h z' : sync_token_key z ≠ pending_zone_token_key h z'.
Proof. distinct_keys. Qed.
Lemma hash_pending h z : ENUM_CONFIG_HASH_KEY ≠ pending_zone_token_key h z.
Proof. distinct_keys. Qed.
Lemma hash_token z : ENUM_CONFIG_HASH_KEY ≠ sync_token_key z.
Proof. distinct_keys. Qed.

(** A key of neither family. *)
Definition neutral (k : str) : Prop :=
  k ≠ ENUM_CONFIG_HASH_KEY ∧ (∀ z, k ≠ sync_token_key z) ∧ ∀ h z, k ≠ pending_zone_token_key h z.

Lemma neutral_pending_hash : neutral PENDING_ENUM_CONFIG_HASH_KEY.
Proof. split_and!; intros; distinct_keys. Qed.
Lemma neutral_pending_download_hash : neutral PENDING_DOWNLOAD_CONFIG_HASH_KEY.
Proof. split_and!; intros; distinct_keys. Qed.
Lemma neutral_download_hash : neutral DOWNLOAD_CONFIG_HASH_KEY.
Proof. split_and!; intros; distinct_keys. Qed.
Lemma neutral_status : neutral LAST_CHECKPOINT_STATUS_KEY.
Proof. split_and!; intros; distinct_keys. Qed.
Lemma neutral_recovery : neutral LAST_RECOVERY_ACTION_KEY.
Proof. split_and!; intros; distinct_keys. Qed.
Lemma neutral_full_reason : neutral LAST_FULL_ENUMERATION_REASON_KEY.
Proof. split_and!; intros; distinct_keys. Qed.
Lemma neutral_anchor h z : neutral (inventory_anchor_key h z).
Proof. split_and!; intros; distinct_keys. Qed.
#[local] Hint Resolve neutral_pending_hash neutral_pending_download_hash neutral_download_hash neutral_status
  neutral_recovery neutral_full_reason neutral_anchor : core.

(** ** Changes that weaken nothing *)

Record harmless (m m' : gmap str str) : Prop := {
  harmless_hash : m' !! ENUM_CONFIG_HASH_KEY = m !! ENUM_CONFIG_HASH_KEY;
  harmless_token z : m' !! sync_token_key z = m !! sync_token_key z;
  harmless_pending h z t : m' !! pending_zone_token_key h z = Some t → m !! pending_zone_token_key h z = Some t;
}.

#[export] Instance harmless_preorder : PreOrder harmless.
Proof.
  split; [by split|]. intros m1 m2 m3 [H1 T1 P1] [H2 T2 P2]. split; [by rewrite H2|intros; by rewrite T2|auto].
Qed.

Lemma harmless_insert k v m : neutral k → harmless m (<[k := v]> m).
Proof.
  intros (Hh & Ht & Hp). split; intros; [by rewrite lookup_insert_ne..|].
  rename H into HH. by rewrite lookup_insert_ne in HH.
Qed.
Lemma harmless_delete k m : neutral k → harmless m (delete k m).
Proof.
  intros (Hh & Ht & Hp). split; intros; [by rewrite lookup_delete_ne..|].
  rename H into HH. by rewrite lookup_delete_ne in HH.
Qed.

Lemma harmless_delete_prefix p m :
  (like (p ++ lit "%") ENUM_CONFIG_HASH_KEY = false) → (∀ z, like (p ++ lit "%") (sync_token_key z) = false) →
  harmless m (delete_where (λ k _, like (p ++ lit "%") k) m).
Proof.
  intros Hh Ht. split.
  - rewrite lookup_delete_where, Hh. by destruct (m !! ENUM_CONFIG_HASH_KEY).
  - intros z. rewrite lookup_delete_where, Ht. by destruct (m !! sync_token_key z).
  - intros h z t Hk. rewrite lookup_delete_where in Hk. apply bind_Some in Hk as (v & -> & Hk).
    cbv beta in Hk. case_match; [done|]. exact Hk.
Qed.

Lemma foldl_delete_neutral ks m : Forall neutral ks → harmless m (foldl (λ m k, delete k m) m ks).
Proof.
  revert m. induction ks as [|k ks IH]; intros m Hk; [done|]. inversion Hk; subst. cbn.
  etrans; [by apply harmless_delete|by apply IH].
Qed.
Lemma foldl_insert_neutral kvs m : Forall (λ kv, neutral kv.1) kvs →
  harmless m (foldl (λ m (kv : str * str), <[kv.1 := kv.2]> m) m kvs).
Proof.
  revert m. induction kvs as [|[k v] kvs IH]; intros m Hk; [done|]. inversion Hk; subst. cbn.
  etrans; [by apply harmless_insert|by apply IH].
Qed.
Lemma commit_neutral t m : Forall (λ kv, neutral kv.1) (metadata_updates t) → Forall neutral (metadata_deletes t) →
  harmless m (commit_table t m).
Proof. intros Hu Hd. etrans; [by apply foldl_insert_neutral|by apply foldl_delete_neutral]. Qed.

(** ** Where tokens come from *)

Section Safety.
Context {St AnyError : Type} `{TokenLaws St, AnchorJson} (state_error : StateError → AnyError).
Context (has_db : bool) (is_cancelled : St → bool) (utc_now : St → Z).
Context (download_photos_with_sync : SyncMode → LibraryState → St → St * result AnyError SyncResult).
Context (reconcile_catalog_paths : LibraryState → St → St * result AnyError (bool * SyncStats)).
Context (config : CycleConfig).

(** The state the cycle starts in, and the states its calls reach from there. *)
Context (s0 : St).
Inductive reach : St → Prop :=
| reach_start : reach s0
| reach_get k s s' r : st_get_metadata k s = (s', r) → reach s → reach s'
| reach_set k v s s' r : st_set_metadata k v s = (s', r) → reach s → reach s'
| reach_delete p s s' r : st_delete_metadata_by_prefix p s = (s', r) → reach s → reach s'
| reach_commit t s s' r : st_commit_checkpoint_transition t s = (s', r) → reach s → reach s'
| reach_reconcile lib s s' r : reconcile_catalog_paths lib s = (s', r) → reach s → reach s'
| reach_download m lib s s' r : download_photos_with_sync m lib s = (s', r) → reach s → reach s'.

(** The decision of a run of [lib] is to advance to [token]. *)
Definition proves (lib : LibraryState) (r : SyncResult) (token : str) : Prop :=
  ∃ basis basis', source_checkpoint_decision r (dry_run config) (plan_is_stale lib) basis = Advance token basis'.

(** [earned hash zone token]: where a token of [zone] for the configuration
    with [hash] may come from.  It was stored for them when the cycle began; or
    a run of the zone under the configuration of the cycle proved it, that
    started without a token or from an earned one; or, after a full such run
    that proved a token, the delta from the token the zone had until then. *)
Inductive earned : str → str → str → Prop :=
| earned_active hash z t : table s0 !! ENUM_CONFIG_HASH_KEY = Some hash → table s0 !! sync_token_key z = Some t → earned hash z t
| earned_candidate hash z t : table s0 !! pending_zone_token_key hash z = Some t → earned hash z t
| earned_run m lib s s' r t : reach s → download_photos_with_sync m lib s = (s', Ok r) →
    (∀ t0, m = Incremental t0 → earned (enum_config_hash config) (zone_name lib) t0) →
    proves lib r t → earned (enum_config_hash config) (zone_name lib) t
| earned_bridge m lib s1 s2 r1 t1 t0 s3 s4 r t : reach s1 → download_photos_with_sync m lib s1 = (s2, Ok r1) →
    (∀ t', m = Incremental t' → earned (enum_config_hash config) (zone_name lib) t') →
    full_enumeration_ran r1 = true → proves lib r1 t1 → table s1 !! sync_token_key (zone_name lib) = Some t0 →
    reach s3 → table s3 = table s2 → download_photos_with_sync (Incremental t0) lib s3 = (s4, Ok r) →
    full_enumeration_ran r = false → proves lib r t → earned (enum_config_hash config) (zone_name lib) t.

(** A run whose start token, if it has one, is earned. *)
Definition starts_earned (m : SyncMode) (lib : LibraryState) : Prop :=
  ∀ t0, m = Incremental t0 → earned (enum_config_hash config) (zone_name lib) t0.

(** The download engine and the catalog reconciliation write no token and not
    the hash, and at most drop candidates (their own progress keys they may
    write). *)
Record engine_ok : Prop := {
  download_table m lib s s' r : download_photos_with_sync m lib s = (s', r) → harmless (table s) (table s');
  reconcile_table lib s s' r : reconcile_catalog_paths lib s = (s', r) → harmless (table s) (table s');
}.

(** The invariant of the token table. *)
Record tokens_ok (m : gmap str str) : Prop := {
  active_earned hash z t : m !! ENUM_CONFIG_HASH_KEY = Some hash → m !! sync_token_key z = Some t → earned hash z t;
  candidate_earned hash z t : no_colon hash → m !! pending_zone_token_key hash z = Some t → earned hash z t;
  no_hash_no_token z : m !! ENUM_CONFIG_HASH_KEY = None → m !! sync_token_key z = None;
}.

Lemma tokens_ok_harmless m m' : harmless m m' → tokens_ok m → tokens_ok m'.
Proof.
  intros [Hh Ht Hp] [Ha Hc Hn]. split.
  - intros hash z t. rewrite Hh, Ht. apply Ha.
  - intros hash z t Hcol Ht'. apply Hc; [done|]. by apply Hp.
  - intros z. rewrite Hh, Ht. apply Hn.
Qed.

Hypothesis Hengine : engine_ok.
Hypothesis Hcolon : no_colon (enum_config_hash config).
Abbreviation hash := (enum_config_hash config).

(** What the libraries may assume of the hash checks. *)
Record hashes_ok (hs : HashState) (m : gmap str str) : Prop := {
  force_iff : hs_force_full_for_config_hash hs = enum_must_force_full_sync (hs_enum hs);
  safe_changed : hs_force_full_for_config_hash hs = true → hs_checkpoint_transition_state_safe hs = true → hs_enum hs = EnumChanged;
  hash_current : has_db = true → dry_run config = false → hs_force_full_for_config_hash hs = false →
    m !! ENUM_CONFIG_HASH_KEY = Some hash;
}.

Lemma hashes_ok_harmless hs m m' : m' !! ENUM_CONFIG_HASH_KEY = m !! ENUM_CONFIG_HASH_KEY → hashes_ok hs m → hashes_ok hs m'.
Proof. intros Hh [F S C]. split; [done|done|]. by rewrite Hh. Qed.

(** *** States of the cycle *)

#[local] Ltac reaches :=
  repeat match goal with
  | H : context [match ?x with _ => _ end] |- _ => destruct x eqn:?
  | H : (_, _) = (_, _) |- _ => progress simplify_eq
  end; eauto 15 using reach_get, reach_set, reach_delete, reach_commit, reach_reconcile, reach_download.

Lemma pending_zone_token_reach hs lib s s' r : pending_zone_token state_error has_db config hs lib s = (s', r) → reach s → reach s'.
Proof. unfold pending_zone_token. intros E Hs. reaches. Qed.
Lemma sync_mode_decision_reach hs lib pending s s' d : sync_mode_decision has_db config hs lib pending s = (s', d) → reach s → reach s'.
Proof. unfold sync_mode_decision, determine_sync_mode_decision. intros E Hs. reaches. Qed.
Lemma reconcile_paths_reach hs lib p s s' r : reconcile_paths reconcile_catalog_paths hs lib p s = (s', r) → reach s → reach s'.
Proof. unfold reconcile_paths. intros E Hs. reaches. Qed.
Lemma bridge_reach hs lib res s s' r :
  bridge_from_prior state_error has_db download_photos_with_sync config hs lib res s = (s', r) → reach s → reach s'.
Proof. unfold bridge_from_prior. intros E Hs. reaches. Qed.
Lemma anchor_reach z st s s' st' : update_inventory_anchor_for_cycle utc_now hash z st s = (s', st') → reach s → reach s'.
Proof. unfold update_inventory_anchor_for_cycle. intros E Hs. reaches. Qed.
Lemma apply_checkpoint_reach hs lib d p s s' p' : apply_checkpoint_decision has_db config hs lib d p s = (s', p') → reach s → reach s'.
Proof. unfold apply_checkpoint_decision. intros E Hs. reaches. Qed.
Lemma check_hashes_reach libs s s' hs : check_hashes has_db config libs s = (s', hs) → reach s → reach s'.
Proof.
  unfold check_hashes, check_and_persist_enum_config_hash, check_download_config_hash_for_cycle. intros E Hs. reaches.
Qed.

Lemma sync_library_reach hs stale lib p s s' r :
  sync_library state_error has_db is_cancelled utc_now download_photos_with_sync reconcile_catalog_paths
    config hs stale lib p s = (s', r) → reach s → reach s'.
Proof.
  unfold sync_library. intros E Hs.
  destruct (pending_zone_token _ _ _ _ _ _) as [s1 r1] eqn:E1. apply pending_zone_token_reach in E1; [|done].
  destruct r1; [|by injection E as <- _].
  destruct (sync_mode_decision _ _ _ _ _ _) as [s2 d] eqn:E2. apply sync_mode_decision_reach in E2; [|done].
  destruct (match md_full_enumeration_reason d with Some _ => _ | None => _ end) as [s3 u] eqn:E3.
  assert (reach s3) as H3 by (clear E; reaches). clear E3.
  destruct (reconcile_paths _ _ _ _ _) as [s4 r4] eqn:E4. apply reconcile_paths_reach in E4; [|done].
  destruct r4; [|by injection E as <- _].
  destruct (download_photos_with_sync _ lib s4) as [s5 r5] eqn:E5. apply reach_download in E5; [|done].
  destruct r5; [|by injection E as <- _].
  destruct (bridge_from_prior _ _ _ _ _ _ _ _) as [s6 r6] eqn:E6. apply bridge_reach in E6; [|done].
  destruct r6 as [[res' basis]|]; [|by injection E as <- _].
  destruct (if library_completed _ _ _ && _ && _ && _ then _ else _) as [s7 st] eqn:E7.
  assert (reach s7) as H7.
  { destruct (library_completed _ _ _ && _ && _ && _); [by eapply anchor_reach|by injection E7 as <- _]. }
  destruct (apply_checkpoint_decision _ _ _ _ _ _ _) as [s8 p8] eqn:E8. apply apply_checkpoint_reach in E8; [|done].
  by injection E as <- _.
Qed.

(** *** Which run a decision is about *)

Lemma decision_diagnostics r d dry stale basis : d_sync_token_blocked d = sync_token_blocked (stats r) →
  source_checkpoint_decision (with_stats (with_diagnostics d (stats r)) r) dry stale basis
    = source_checkpoint_decision r dry stale basis.
Proof. intros Hd. unfold source_checkpoint_decision. cbn -[is_blank]. by rewrite Hd. Qed.

Lemma proves_dry lib r t : proves lib r t → dry_run config = false.
Proof. intros (b & b' & Hd). unfold source_checkpoint_decision in Hd. by destruct (dry_run config). Qed.

Lemma pending_zone_token_ok hs lib s s' r :
  pending_zone_token state_error has_db config hs lib s = (s', r) →
  table s' = table s ∧ ∀ t, r = Ok (Some t) → has_db = true ∧ hs_enum hs = EnumChanged
    ∧ table s !! pending_zone_token_key hash (zone_name lib) = Some t.
Proof.
  unfold pending_zone_token. case_bool_decide as He; cbn [andb].
  2: { by intros [= <- <-]. }
  destruct has_db; [|by intros [= <- <-]].
  destruct (st_get_metadata _ s) as [s1 r1] eqn:E. apply get_law in E as [Ht Hv].
  destruct r1 as [tok|e]; intros [= <- <-]; (split; [done|]); [|done].
  intros t [= Ht']. split_and!; [done..|]. unfold nonblank in Ht'. rewrite <- (Hv _ eq_refl).
  destruct tok as [tok|]; [|done]. cbn in Ht'. by destruct (is_blank tok); simplify_eq.
Qed.

Lemma sync_mode_decision_ok hs lib pending s s' d : ls_sync_token_key lib = sync_token_key (zone_name lib) →
  tokens_ok (table s) → hashes_ok hs (table s) →
  (∀ t, pending = Some t → earned hash (zone_name lib) t) →
  sync_mode_decision has_db config hs lib pending s = (s', d) →
  table s' = table s ∧ (dry_run config = false → starts_earned (mode d) lib).
Proof.
  intros Hkey Hok Hhs Hpend. unfold sync_mode_decision, metadata_refresh_mode_decision.
  destruct (refresh_metadata config); [by intros [= <- <-]|].
  destruct pending as [tok|].
  { intros [= <- <-]. split; [done|]. intros _ t [= <-]. by apply Hpend. }
  destruct (hs_force_full_for_config_hash hs) eqn:Hforce; [by intros [= <- <-]|].
  destruct (hs_force_full_for_download_config_hash hs); [by intros [= <- <-]|].
  unfold determine_sync_mode_decision. destruct has_db eqn:Hdb; [|by intros [= <- <-]].
  destruct (st_get_metadata _ s) as [s1 r1] eqn:E. apply get_law in E as [Ht Hv].
  destruct r1 as [[tok|]|e]; [case_bool_decide|..]; intros [= <- <-]; (split; [done|]); try done.
  intros Hdry t [= <-]. apply (active_earned _ Hok); [by apply (hash_current _ _ Hhs)|].
  rewrite <- Hkey. symmetry. by apply Hv.
Qed.

Lemma merge_bridge_proves lib r bridge t : 
  proves lib (merge_bridge r bridge (source_checkpoint_decision bridge (dry_run config) (plan_is_stale lib) IncrementalDelta)).1 t →
  full_enumeration_ran bridge = false ∧ proves lib bridge t.
Proof.
  intros (b & b' & Hd). unfold merge_bridge in Hd. unfold proves.
  destruct (full_enumeration_ran bridge).
  { unfold source_checkpoint_decision in Hd. cbn -[is_blank] in Hd. repeat case_match; done. }
  split; [done|]. destruct (source_checkpoint_decision bridge _ _ _) as [t' basis'|] eqn:Eb.
  - exists IncrementalDelta, basis'. rewrite Eb. f_equal.
    unfold source_checkpoint_decision in Hd. cbn -[is_blank accumulate] in Hd. repeat case_match; congruence.
  - unfold source_checkpoint_decision in Hd. cbn -[is_blank] in Hd. repeat case_match; done.
Qed.

Lemma bridge_ok m hs lib s s1 r s2 r2 : ls_sync_token_key lib = sync_token_key (zone_name lib) → reach s →
  download_photos_with_sync m lib s = (s1, Ok r) →
  (dry_run config = false → starts_earned m lib) →
  bridge_from_prior state_error has_db download_photos_with_sync config hs lib r s1 = (s2, r2) →
  harmless (table s1) (table s2) ∧ ∀ r' basis t, r2 = Ok (r', basis) → proves lib r' t → earned hash (zone_name lib) t.
Proof.
  intros Hkey Hs Hrun Hm.
  assert (Hdirect : ∀ t, proves lib r t → earned hash (zone_name lib) t).
  { intros t Hp. eapply earned_run; [done..| |done]. apply Hm. by eapply proves_dry. }
  unfold bridge_from_prior.
  destruct (bool_decide (hs_enum hs = EnumChanged) && full_enumeration_ran r && _) eqn:Hb.
  2: { intros [= <- <-]. split; [done|]. intros r' basis t [= <- _]. by apply Hdirect. }
  zbool.
  destruct (if has_db then _ else _) as [s3 prior] eqn:E.
  assert (Hs3 : reach s3).
  { pose proof (reach_download _ _ _ _ _ Hrun Hs). destruct has_db; [|by injection E as <- _].
    destruct (st_get_metadata _ s1) as [s4 r4] eqn:Eg. apply reach_get in Eg; [|done]. by destruct r4; injection E as <- _. }
  assert (Hprior : table s3 = table s1 ∧ ∀ t0, prior = Ok (Some t0) → table s1 !! sync_token_key (zone_name lib) = Some t0).
  { destruct has_db; [|by injection E as <- <-]. destruct (st_get_metadata _ s1) as [s4 r4] eqn:Eg.
    apply get_law in Eg as [Ht Hv]. rewrite Hkey in Hv. destruct r4 as [tok|e]; injection E as <- <-; (split; [done|]); [|done].
    intros t0 [= Ht0]. rewrite <- (Hv _ eq_refl). unfold nonblank in Ht0. destruct tok as [tok|]; [|done].
    cbn in Ht0. by destruct (is_blank tok); simplify_eq. }
  destruct Hprior as [Ht3 Hprior].
  destruct prior as [[t0|]|e]; [|intros [= <- <-]; (split; [by rewrite Ht3|]); intros r' basis t [= <- _]; by apply Hdirect|by intros [= <- <-]; rewrite Ht3].
  destruct (source_checkpoint_decision r _ _ _) as [t1 b1|] eqn:Ed.
  2: { intros [= <- <-]. split; [by rewrite Ht3|]. intros r' basis t [= <- _]. by apply Hdirect. }
  destruct (download_photos_with_sync (Incremental t0) lib s3) as [s5 [bridge|e]] eqn:Eb.
  2: { intros [= <- <-]. split; [|done]. rewrite <- Ht3. by eapply (download_table Hengine). }
  intros [= <- <-]. split; [rewrite <- Ht3; by eapply (download_table Hengine)|].
  intros r' basis t [= Hr'] Hp. pose proof (f_equal fst Hr') as Hr1. cbn [fst] in Hr1. rewrite <- Hr1 in Hp.
  apply merge_bridge_proves in Hp as [Hfull Hp].
  eapply (earned_bridge m lib s s1 r t1 t0 s3 s5 bridge); try done.
  - apply Hm. by eapply proves_dry.
  - by exists CompleteInventory, b1.
  - rewrite <- (harmless_token _ _ (download_table Hengine _ _ _ _ _ Hrun)). by apply Hprior.
Qed.

(** *** Writing the checkpoint *)

Lemma tokens_ok_candidate m z t : earned hash z t → tokens_ok m → tokens_ok (<[pending_zone_token_key hash z := t]> m).
Proof.
  intros Hc [Ha Hp Hn]. split.
  - intros h z' t'. rewrite !lookup_insert_ne by (intros Hk; symmetry in Hk; revert Hk; first [apply hash_pending|apply token_pending]). apply Ha.
  - intros h z' t' Hcol. destruct (decide (pending_zone_token_key hash z = pending_zone_token_key h z')) as [Hk|Hk].
    + apply pending_zone_token_key_inj in Hk as [<- <-]; [|done..]. rewrite lookup_insert_eq. by intros [= <-].
    + rewrite lookup_insert_ne by done. by apply Hp.
  - intros z'. rewrite !lookup_insert_ne by (intros Hk; symmetry in Hk; revert Hk; first [apply hash_pending|apply token_pending]). apply Hn.
Qed.

Lemma tokens_ok_token m z t : m !! ENUM_CONFIG_HASH_KEY = Some hash → earned hash z t → tokens_ok m →
  tokens_ok (<[sync_token_key z := t]> m).
Proof.
  intros Hh Hc [Ha Hp Hn]. assert (Hhk : <[sync_token_key z := t]> m !! ENUM_CONFIG_HASH_KEY = Some hash).
  { rewrite lookup_insert_ne; [done|]. intros Hk. symmetry in Hk. by apply hash_token in Hk. }
  split.
  - intros h z' t'. rewrite Hhk. intros [= <-]. destruct (decide (z = z')) as [<-|Hz].
    + rewrite lookup_insert_eq. by intros [= <-].
    + rewrite lookup_insert_ne by (intros Hk; by apply Hz, sync_token_key_inj). by apply Ha.
  - intros h z' t' Hcol. rewrite lookup_insert_ne by apply token_pending. by apply Hp.
  - intros z'. by rewrite Hhk.
Qed.

(** A step on the table that may only store a token of [z]. *)
Definition only_zone (z : str) (m m' : gmap str str) : Prop :=
  m' !! ENUM_CONFIG_HASH_KEY = m !! ENUM_CONFIG_HASH_KEY ∧ ∀ z', z' ≠ z → m' !! sync_token_key z' = m !! sync_token_key z'.

Lemma only_zone_harmless z m m' : harmless m m' → only_zone z m m'.
Proof. intros [Hh Ht _]. split; [done|]. auto. Qed.
Lemma harmless_step z m m' : tokens_ok m → harmless m m' → tokens_ok m' ∧ only_zone z m m'.
Proof. intros Hok Hh. split; [by eapply tokens_ok_harmless|by apply only_zone_harmless]. Qed.
Lemma only_zone_trans z m1 m2 m3 : only_zone z m1 m2 → only_zone z m2 m3 → only_zone z m1 m3.
Proof. intros [Ha1 T1] [Ha2 T2]. split; [congruence|]. intros z' Hz. by rewrite T2, T1. Qed.

Lemma harmless_status status action m : harmless m (commit_table (updates_only (status_updates status action)) m).
Proof.
  apply commit_neutral; [|by apply Forall_nil]. unfold updates_only, status_updates. cbn [metadata_updates].
  rewrite !Forall_cons. cbn [fst]. auto.
Qed.

Lemma apply_checkpoint_ok hs lib decision p s s' p' :
  ls_sync_token_key lib = sync_token_key (zone_name lib) → tokens_ok (table s) → hashes_ok hs (table s) →
  (∀ t b, decision = Advance t b → dry_run config = false ∧ earned hash (zone_name lib) t) →
  apply_checkpoint_decision has_db config hs lib decision p s = (s', p') →
  tokens_ok (table s') ∧ only_zone (zone_name lib) (table s) (table s').
Proof.
  intros Hkey Hok Hhs Hcov. unfold apply_checkpoint_decision.
  assert (Hrefl : tokens_ok (table s) ∧ only_zone (zone_name lib) (table s) (table s)) by done.
  destruct decision as [t b|reason recovery].
  2: { destruct has_db; [|by intros [= <- _]]. destruct (st_commit_checkpoint_transition _ s) as [s1 r1] eqn:E.
       apply commit_law in E. intros [= <- _]. rewrite E. destruct r1; [|done].
       pose proof (harmless_status (lit "preserved") (RecoveryAction_as_str recovery) (table s)) as Hh.
       by apply harmless_step. }
  destruct (Hcov _ _ eq_refl) as [Hdry Hc].
  destruct has_db eqn:Hdb; [|by intros [= <- _]].
  destruct (hs_force_full_for_config_hash hs) eqn:Hforce.
  - destruct (st_set_metadata _ t s) as [s1 r1] eqn:E. apply set_law in E.
    destruct r1; intros [= <- _]; rewrite E; [|done].
    split; [by apply tokens_ok_candidate|]. split; [by rewrite lookup_insert_ne by (intros Hk; symmetry in Hk; revert Hk; apply hash_pending)|].
    intros z' _. by rewrite lookup_insert_ne by (intros Hk; symmetry in Hk; revert Hk; apply token_pending).
  - destruct (st_commit_checkpoint_transition _ s) as [s1 r1] eqn:E. apply commit_law in E.
    destruct r1; intros [= <- _]; rewrite E; [|done]. rewrite Hkey.
    set (status := match pg_checkpoint_hold_action p with Some _ => _ | None => _ end).
    assert (∃ a b, status = status_updates a b) as (st & ac & ->) by (unfold status; case_match; eauto).
    change (commit_table (updates_only ((sync_token_key (zone_name lib), t) :: status_updates st ac)) (table s))
      with (commit_table (updates_only (status_updates st ac)) (<[sync_token_key (zone_name lib) := t]> (table s))).
    pose proof (harmless_status st ac (<[sync_token_key (zone_name lib) := t]> (table s))) as Hh. split.
    + eapply tokens_ok_harmless; [exact Hh|]. apply tokens_ok_token; [by apply (hash_current _ _ Hhs)|done|done].
    + eapply only_zone_trans; [|by apply only_zone_harmless]. split.
      * rewrite lookup_insert_ne; [done|]. intros Hk. symmetry in Hk. by apply hash_token in Hk.
      * intros z' Hz. rewrite lookup_insert_ne; [done|]. intros Hk. by apply Hz, eq_sym, sync_token_key_inj.
Qed.

(** *** One library *)

Definition same_evidence (r r' : SyncResult) : Prop :=
  ∀ dry stale basis, source_checkpoint_decision r' dry stale basis = source_checkpoint_decision r dry stale basis.

Lemma update_inventory_anchor_ok z r s s' st :
  update_inventory_anchor_for_cycle utc_now hash z (stats r) s = (s', st) →
  harmless (table s) (table s') ∧ same_evidence r (with_stats st r).
Proof.
  assert (Hid : same_evidence r (with_stats (stats r) r)) by (by intros ???).
  unfold update_inventory_anchor_for_cycle. destruct (api_total_at_start (stats r)) as [total|]; [|by intros [= <- <-]].
  destruct (st_get_metadata _ s) as [s1 stored] eqn:E. apply get_law in E as [Ht _].
  set (st1 := match stored with Ok (Some raw) => _ | _ => _ end).
  assert (same_evidence r (with_stats st1 r)).
  { unfold st1. repeat case_match; try done; intros ???; by apply decision_diagnostics. }
  destruct (anchor_to_string _) as [value|].
  - destruct (st_set_metadata _ value s1) as [s2 r2] eqn:E2. apply set_law in E2. intros [= <- <-]. split; [|done].
    rewrite E2, Ht. destruct r2; [apply harmless_insert, neutral_anchor|done].
  - intros [= <- <-]. by rewrite Ht.
Qed.

Lemma set_full_reason_evidence reason r : same_evidence r (set_full_reason reason r).
Proof. intros ???. unfold set_full_reason. apply (decision_diagnostics r). done. Qed.

Definition lib_ok (lib : LibraryState) : Prop := ls_sync_token_key lib = sync_token_key (zone_name lib).

Lemma harmless_set k v s s' r : neutral k → st_set_metadata k v s = (s', r) → harmless (table s) (table s').
Proof. intros Hk E. apply set_law in E. rewrite E. destruct r; [by apply harmless_insert|done]. Qed.

Lemma sync_library_ok hs stale lib p s s' r : lib_ok lib → reach s → tokens_ok (table s) → hashes_ok hs (table s) →
  sync_library state_error has_db is_cancelled utc_now download_photos_with_sync reconcile_catalog_paths
    config hs stale lib p s = (s', r) →
  tokens_ok (table s') ∧ only_zone (zone_name lib) (table s) (table s').
Proof.
  intros Hkey Hs Hok Hhs. unfold sync_library.
  destruct (pending_zone_token _ _ _ _ _ _) as [s1 r1] eqn:E1.
  pose proof (pending_zone_token_reach _ _ _ _ _ E1 Hs) as Hs1.
  destruct (pending_zone_token_ok _ _ _ _ _ E1) as [Ht1 Hp1]. rewrite <- Ht1 in Hok, Hhs |- *.
  destruct r1 as [pending|e]; [|by intros [= <- _]].
  destruct (sync_mode_decision _ _ _ _ _ _) as [s2 d] eqn:E2.
  pose proof (sync_mode_decision_reach _ _ _ _ _ _ E2 Hs1) as Hs2.
  destruct (sync_mode_decision_ok hs lib pending s1 s2 d Hkey Hok Hhs) as [Ht2 Hmode]; [|done|].
  { intros t ->. destruct (Hp1 _ eq_refl) as (_ & _ & Hl). rewrite <- Ht1 in Hl. by apply (candidate_earned _ Hok). }
  rewrite <- Ht2 in Hok, Hhs |- *.
  destruct (match md_full_enumeration_reason d with Some _ => _ | None => _ end) as [s3 u] eqn:E3.
  assert (Hh3 : harmless (table s2) (table s3)).
  { destruct (md_full_enumeration_reason d), has_db; try by injection E3 as <- <-.
    by eapply harmless_set; [|exact E3]. }
  assert (Hs3 : reach s3).
  { destruct (md_full_enumeration_reason d), has_db; try by injection E3 as <- _. by eapply reach_set. }
  destruct (reconcile_paths _ _ _ _ _) as [s4 r4] eqn:E4.
  pose proof (reconcile_paths_reach _ _ _ _ _ _ E4 Hs3) as Hs4.
  assert (Hh4 : harmless (table s2) (table s4)).
  { etrans; [exact Hh3|]. unfold reconcile_paths in E4. destruct (hs_pending_download_config_hash hs); [|by injection E4 as <- <-].
    destruct (reconcile_catalog_paths lib s3) as [s5 r5] eqn:E5. apply (reconcile_table Hengine) in E5.
    destruct r5 as [[]|]; by injection E4 as <- <-. }
  clear E3 E4 Hh3.
  destruct r4 as [p1|e]; [|intros [= <- _]; exact (harmless_step _ _ _ Hok Hh4)].
  destruct (download_photos_with_sync (mode d) lib s4) as [s5 r5] eqn:E5.
  assert (Hh5 := transitivity Hh4 (download_table Hengine _ _ _ _ _ E5)).
  destruct r5 as [res|e]; [|intros [= <- _]; exact (harmless_step _ _ _ Hok Hh5)].
  destruct (bridge_from_prior _ _ _ _ _ _ _ _) as [s6 r6] eqn:E6.
  destruct (bridge_ok (mode d) hs lib s4 s5 res s6 r6 Hkey Hs4 E5 Hmode E6) as [Hh6 Hcov].
  apply (transitivity Hh5) in Hh6. destruct (harmless_step (zone_name lib) _ _ Hok Hh6) as [Hok3 Hz3].
  destruct r6 as [[res' basis]|e]; [|by intros [= <- _]].
  set (res1 := if full_enumeration_ran res' then _ else res').
  assert (He1 : same_evidence res' res1) by (unfold res1; case_match; [apply set_full_reason_evidence|done]).
  destruct (if library_completed _ _ _ && _ && _ && _ then _ else _) as [s7 st] eqn:E7.
  assert (harmless (table s6) (table s7) ∧ same_evidence res1 (with_stats st res1)) as [Hh7 He7].
  { revert E7. case_match; [apply update_inventory_anchor_ok|]. by intros [= <- <-]. }
  assert (Hz7 := only_zone_trans _ _ _ _ Hz3 (only_zone_harmless (zone_name lib) _ _ Hh7)).
  assert (Hok7 := tokens_ok_harmless _ _ Hh7 Hok3).
  destruct (apply_checkpoint_decision _ _ _ _ _ _ _) as [s8 p8] eqn:E8. intros [= <- _].
  eapply apply_checkpoint_ok in E8 as [Hok8 Hz8]; [split; [exact Hok8|by eapply only_zone_trans]|exact Hkey|exact Hok7| |].
  - eapply hashes_ok_harmless; [|exact Hhs]. apply Hz7.
  - intros t b Hd. unfold checkpoint_decision in Hd.
    destruct (hs_checkpoint_transition_state_safe hs && _); [|by case_match].
    rewrite He7, He1 in Hd. assert (Hp : proves lib res' t) by (by eexists _, _).
    split; [by eapply proves_dry|]. by eapply Hcov.
Qed.

(** *** All libraries *)

Definition outside (libs : list LibraryState) (m m' : gmap str str) : Prop :=
  m' !! ENUM_CONFIG_HASH_KEY = m !! ENUM_CONFIG_HASH_KEY
  ∧ ∀ z, (∀ lib, lib ∈ libs → zone_name lib ≠ z) → m' !! sync_token_key z = m !! sync_token_key z.

Lemma sync_libraries_ok hs stale libs : ∀ p s s' r, Forall lib_ok libs → reach s → tokens_ok (table s) → hashes_ok hs (table s) →
  sync_libraries state_error has_db is_cancelled utc_now download_photos_with_sync reconcile_catalog_paths
    config hs stale libs p s = (s', r) →
  tokens_ok (table s') ∧ outside libs (table s) (table s').
Proof.
  induction libs as [|lib libs IH]; intros p s s' r Hlibs Hs Hok Hhs; cbn [sync_libraries]; [by intros [= <- _]|].
  apply Forall_cons in Hlibs as [Hlib Hlibs].
  destruct (is_cancelled s); [by intros [= <- _]|].
  destruct (sync_library _ _ _ _ _ _ _ _ _ _ _ _) as [s1 r1] eqn:E.
  pose proof (sync_library_reach _ _ _ _ _ _ _ E Hs) as Hs1.
  apply sync_library_ok in E as [Hok1 [Hh1 Hz1]]; [|done..].
  assert (Hout : outside (lib :: libs) (table s) (table s1)).
  { split; [done|]. intros z Hz. apply Hz1. intros ->. by apply (Hz lib); [left|]. }
  destruct r1 as [p1|e]; [|by intros [= <- _]].
  destruct (pg_session_expired p1); [by intros [= <- _]|].
  intros Hrest. apply IH in Hrest as [Hok2 [Hh2 Hz2]]; [|done|done|done|by eapply hashes_ok_harmless].
  split; [done|]. split; [by rewrite Hh2|]. intros z Hz. rewrite Hz2; [by apply Hout|].
  intros lib' Hl. apply Hz. by right.
Qed.

(** *** Promotion *)

Lemma foldl_insert_lookup (kvs : list (str * str)) : ∀ (m : gmap str str) k,
  (k ∉ kvs.*1 ∧ foldl (λ m kv, <[kv.1 := kv.2]> m) m kvs !! k = m !! k)
  ∨ ∃ v, (k, v) ∈ kvs ∧ foldl (λ m kv, <[kv.1 := kv.2]> m) m kvs !! k = Some v.
Proof.
  induction kvs as [|[k0 v0] kvs IH]; intros m k; cbn; [left; split; [apply not_elem_of_nil|done]|].
  destruct (IH (<[k0 := v0]> m) k) as [[Hk Hl]|(v & Hv & Hl)].
  - destruct (decide (k = k0)) as [->|Hne].
    + right. exists v0. split; [left|]. by rewrite Hl, lookup_insert_eq.
    + left. split; [by apply not_elem_of_cons|]. by rewrite Hl, lookup_insert_ne.
  - right. exists v. split; [by right|done].
Qed.

Lemma foldl_delete_lookup (ks : list str) : ∀ (m : gmap str str) k,
  foldl (λ m k, delete k m) m ks !! k = if decide (k ∈ ks) then None else m !! k.
Proof.
  induction ks as [|k0 ks IH]; intros m k; cbn; [by rewrite decide_False by apply not_elem_of_nil|].
  rewrite IH. destruct (decide (k = k0)) as [->|Hne].
  - rewrite lookup_delete_eq. rewrite (decide_True _ _ (list_elem_of_here k0 ks)). by case_decide.
  - rewrite lookup_delete_ne by done. destruct (decide (k ∈ ks)).
    + rewrite decide_True; [done|]. by right.
    + rewrite decide_False; [done|]. by rewrite not_elem_of_cons.
Qed.

Record candidates (libs : list LibraryState) (updates : list (str * str)) (deletes : list str) : Prop := {
  cand_earned k t : (k, t) ∈ updates → ∃ z, k = sync_token_key z ∧ earned hash z t;
  cand_all lib : lib ∈ libs → sync_token_key (zone_name lib) ∈ updates.*1;
  cand_deletes k : k ∈ deletes → ∃ z, k = pending_zone_token_key hash z;
}.

Lemma collect_candidates_ok libs : ∀ s s' r, Forall lib_ok libs → tokens_ok (table s) →
  collect_candidates state_error hash libs s = (s', r) →
  table s' = table s ∧ ∀ us ds, r = Ok (Some (us, ds)) → candidates libs us ds.
Proof.
  induction libs as [|lib libs IH]; intros s s' r Hlibs Hok; cbn [collect_candidates].
  { intros [= <- <-]. split; [done|]. intros us ds [= <- <-].
    split; intros; by match goal with Hin : _ ∈ [] |- _ => apply not_elem_of_nil in Hin end. }
  apply Forall_cons in Hlibs as [Hlib Hlibs].
  destruct (st_get_metadata _ s) as [s1 r1] eqn:E. apply get_law in E as [Ht Hv].
  destruct r1 as [tok|e]; [|by intros [= <- <-]].
  destruct (nonblank tok) as [t|] eqn:Hnb; [|by intros [= <- <-]].
  assert (Hl : table s !! pending_zone_token_key hash (zone_name lib) = Some t).
  { rewrite <- (Hv _ eq_refl). unfold nonblank in Hnb. destruct tok as [tok|]; [|done]. cbn in Hnb. by destruct (is_blank tok). }
  destruct (collect_candidates state_error hash libs s1) as [s2 r2] eqn:E2. rewrite <- Ht in Hok, Hl.
  apply IH in E2 as [Ht2 Hc]; [|done..].
  destruct r2 as [[[us ds]|]|e]; intros [= <- <-]; (split; [congruence|]); try done.
  intros us' ds' [= <- <-]. destruct (Hc _ _ eq_refl) as [C1 C2 C3]. split.
  - intros k t' [[= -> ->]|Hin]%elem_of_cons; [|by apply C1]. exists (zone_name lib). split; [done|].
    by apply (candidate_earned _ Hok).
  - intros lib' [->|Hin]%elem_of_cons; cbn; [rewrite Hlib; left|right; by apply C2].
  - intros k [->|Hin]%elem_of_cons; [by exists (zone_name lib)|by apply C3].
Qed.

Lemma promoted_ok libs us ds m : candidates libs us ds → tokens_ok m →
  (∀ z, is_Some (m !! sync_token_key z) → ∃ lib, lib ∈ libs ∧ zone_name lib = z) →
  tokens_ok (commit_table {| metadata_updates := us ++ (ENUM_CONFIG_HASH_KEY, hash) :: status_updates (lit "current") (lit "none");
                             metadata_deletes := ds ++ [PENDING_ENUM_CONFIG_HASH_KEY] |} m).
Proof.
  intros [C1 C2 C3] Hok Hall. unfold commit_table. cbn [metadata_updates metadata_deletes].
  set (kvs := us ++ _). set (m1 := foldl _ m kvs).
  pose proof neutral_pending_hash as (Np1 & _). pose proof neutral_status as Ns. pose proof neutral_recovery as Na.
  assert (Hin : ∀ k v, (k, v) ∈ kvs → (k, v) ∈ us ∨ (k = ENUM_CONFIG_HASH_KEY ∧ v = hash)
                 ∨ k = LAST_CHECKPOINT_STATUS_KEY ∨ k = LAST_RECOVERY_ACTION_KEY).
  { intros k v Hkv. unfold kvs, status_updates in Hkv. rewrite elem_of_app, !elem_of_cons, !pair_eq in Hkv.
    destruct Hkv as [Hu|[[-> ->]|[[-> _]|[[-> _]|Hk]]]]; [tauto..|by apply not_elem_of_nil in Hk]. }
  assert (Hdel : ∀ k, foldl (λ m k, delete k m) m1 (ds ++ [PENDING_ENUM_CONFIG_HASH_KEY]) !! k
                   = if decide (k ∈ ds ++ [PENDING_ENUM_CONFIG_HASH_KEY]) then None else m1 !! k) by apply foldl_delete_lookup.
  set (m2 := foldl (λ m k, delete k m) m1 _) in *.
  assert (Hsub : ∀ k v, m2 !! k = Some v → m1 !! k = Some v) by (intros k v; rewrite Hdel; by case_decide).
  assert (Hhash : m2 !! ENUM_CONFIG_HASH_KEY = Some hash).
  { rewrite Hdel, decide_False.
    2: { rewrite elem_of_app, list_elem_of_singleton. intros [Hd|Hd]; [|by apply Np1].
         destruct (C3 _ Hd) as (z & Hk). by apply hash_pending in Hk. }
    destruct (foldl_insert_lookup kvs m ENUM_CONFIG_HASH_KEY) as [[Hk _]|(v & Hv & Hl)].
    - destruct Hk. unfold kvs. rewrite fmap_app. apply elem_of_app. right. left.
    - fold m1 in Hl. rewrite Hl. f_equal. destruct (Hin _ _ Hv) as [Hu|[[_ ->]|[Hk|Hk]]]; [|done|..].
      + destruct (C1 _ _ Hu) as (z & Hk & _). by apply hash_token in Hk.
      + by destruct Ns as [Ns _].
      + by destruct Na as [Na _]. }
  split.
  - intros h z t. rewrite Hhash. intros [= <-] Ht%Hsub.
    destruct (foldl_insert_lookup kvs m (sync_token_key z)) as [[Hk Hl]|(v & Hv & Hl)]; fold m1 in Hl; rewrite Hl in Ht.
    + destruct (Hall z) as (lib & Hlib & <-); [by eexists|]. destruct Hk. unfold kvs. rewrite fmap_app. apply elem_of_app. left. by apply C2.
    + injection Ht as ->. destruct (Hin _ _ Hv) as [Hu|[[Hk _]|[Hk|Hk]]].
      * destruct (C1 _ _ Hu) as (z' & Hk & Hc). apply sync_token_key_inj in Hk as ->. done.
      * symmetry in Hk. by apply hash_token in Hk.
      * destruct Ns as (_ & Ns & _). by destruct (Ns z).
      * destruct Na as (_ & Na & _). by destruct (Na z).
  - intros h z t Hcol Ht%Hsub.
    destruct (foldl_insert_lookup kvs m (pending_zone_token_key h z)) as [[Hk Hl]|(v & Hv & Hl)]; fold m1 in Hl; rewrite Hl in Ht.
    + by apply (candidate_earned _ Hok).
    + destruct (Hin _ _ Hv) as [Hu|[[Hk _]|[Hk|Hk]]].
      * destruct (C1 _ _ Hu) as (z' & Hk & _). symmetry in Hk. by apply token_pending in Hk.
      * symmetry in Hk. by apply hash_pending in Hk.
      * destruct Ns as (_ & _ & Ns). by destruct (Ns h z).
      * destruct Na as (_ & _ & Na). by destruct (Na h z).
  - intros z. by rewrite Hhash.
Qed.

(** *** The hash checks *)

Lemma harmless_delete_pending_hash m :
  harmless m (delete_where (λ k _, like (PENDING_ENUM_CONFIG_HASH_KEY ++ lit "%") k) m).
Proof. by apply harmless_delete_prefix. Qed.
Lemma harmless_delete_candidates m : harmless m (delete_where (λ k _, like (PENDING_ZONE_TOKEN_PREFIX ++ lit "%") k) m).
Proof. by apply harmless_delete_prefix. Qed.
Lemma harmless_delete_download_hash m :
  harmless m (delete_where (λ k _, like (PENDING_DOWNLOAD_CONFIG_HASH_KEY ++ lit "%") k) m).
Proof. by apply harmless_delete_prefix. Qed.


(** The answer of the enumeration-hash check, and what it does to the table. *)
Lemma check_enum_ok s s' o : check_and_persist_enum_config_hash hash s = (s', o) →
  match o with
  | EnumUnchanged => harmless (table s) (table s') ∧ table s' !! ENUM_CONFIG_HASH_KEY = Some hash
  | EnumInitial =>
      table s !! ENUM_CONFIG_HASH_KEY = None
      ∧ (table s' = table s ∨ table s' = <[ENUM_CONFIG_HASH_KEY := hash]> (table s))
  | EnumChanged => harmless (table s) (table s') ∧ table s' !! ENUM_CONFIG_HASH_KEY ≠ Some hash
  | _ => harmless (table s) (table s')
  end.
Proof.
  unfold check_and_persist_enum_config_hash.
  destruct (st_get_metadata ENUM_CONFIG_HASH_KEY s) as [s1 r1] eqn:E1. apply get_law in E1 as [Ht1 Hv1]. rewrite <- Ht1.
  destruct r1 as [[h|]|e]; [|..|by intros [= <- <-]].
  - assert (Hh : table s1 !! ENUM_CONFIG_HASH_KEY = Some h) by (rewrite Ht1; symmetry; by apply Hv1).
    destruct (str_eqb h hash) eqn:Eh.
    + apply str_eqb_eq in Eh as ->.
      destruct (st_delete_metadata_by_prefix PENDING_ENUM_CONFIG_HASH_KEY s1) as [s2 r2] eqn:E2. apply delete_law in E2.
      destruct (st_delete_metadata_by_prefix PENDING_ZONE_TOKEN_PREFIX s2) as [s3 r3] eqn:E3. apply delete_law in E3.
      intros [= <- <-]. assert (Hharm : harmless (table s1) (table s3)).
      { transitivity (table s2); [rewrite E2|rewrite E3];
          [destruct r2; [apply harmless_delete_pending_hash|done]|destruct r3; [apply harmless_delete_candidates|done]]. }
      split; [done|]. by rewrite (harmless_hash _ _ Hharm).
    + apply str_eqb_neq in Eh.
      assert (Hstage : ∀ s2, harmless (table s1) (table s2) →
        match st_set_metadata PENDING_ENUM_CONFIG_HASH_KEY hash s2 with
        | (s, Ok _) => (s, EnumChanged) | (s, Err _) => (s, EnumChangedTokenPurgeFailed) end = (s', o) →
        match o with
        | EnumUnchanged => harmless (table s1) (table s') ∧ table s' !! ENUM_CONFIG_HASH_KEY = Some hash
        | EnumInitial => table s1 !! ENUM_CONFIG_HASH_KEY = None
            ∧ (table s' = table s1 ∨ table s' = <[ENUM_CONFIG_HASH_KEY := hash]> (table s1))
        | EnumChanged => harmless (table s1) (table s') ∧ table s' !! ENUM_CONFIG_HASH_KEY ≠ Some hash
        | _ => harmless (table s1) (table s') end).
      { intros s2 Hharm. destruct (st_set_metadata _ hash s2) as [s3 r3] eqn:E3.
        pose proof (harmless_set _ _ _ _ _ neutral_pending_hash E3) as H3.
        assert (Hh3 : harmless (table s1) (table s3)) by by etrans.
        destruct r3; intros [= <- <-]; [split; [done|]|done]. rewrite (harmless_hash _ _ Hh3), Hh. congruence. }
      destruct (st_get_metadata PENDING_ENUM_CONFIG_HASH_KEY s1) as [s2 r2] eqn:E2. apply get_law in E2 as [Ht2 _].
      destruct r2 as [pending|e]; [|intros [= <- <-]; by rewrite Ht2].
      case_bool_decide; [apply Hstage; by rewrite Ht2|].
      destruct (st_delete_metadata_by_prefix PENDING_ZONE_TOKEN_PREFIX s2) as [s3 r3] eqn:E3. apply delete_law in E3.
      assert (harmless (table s1) (table s3)).
      { rewrite E3, Ht2. destruct r3; [apply harmless_delete_candidates|done]. }
      destruct r3; [by apply Hstage|]. by intros [= <- <-].
  - destruct (st_set_metadata ENUM_CONFIG_HASH_KEY hash s1) as [s2 r2] eqn:E2. apply set_law in E2. intros [= <- <-].
    split; [rewrite Ht1; symmetry; by apply Hv1|]. destruct r2; auto.
Qed.

Lemma check_download_ok cur legacy s s' o : check_download_config_hash_for_cycle cur legacy s = (s', o) →
  harmless (table s) (table s').
Proof.
  unfold check_download_config_hash_for_cycle.
  destruct (st_get_metadata DOWNLOAD_CONFIG_HASH_KEY s) as [s1 r1] eqn:E1. apply get_law in E1 as [<- _].
  assert (Hset : ∀ k v s2 s3 r, neutral k → harmless (table s1) (table s2) → st_set_metadata k v s2 = (s3, r) → harmless (table s1) (table s3)).
  { intros k v s2 s3 r Hk Hh E. etrans; [exact Hh|]. by eapply harmless_set. }
  destruct r1 as [[stored|]|e]; [|..|by intros [= <- _]].
  - destruct (str_eqb stored cur).
    { destruct (st_delete_metadata_by_prefix _ s1) as [s2 r2] eqn:E2. apply delete_law in E2. intros [= <- _]. rewrite E2.
      destruct r2; [apply harmless_delete_download_hash|done]. }
    destruct (str_eqb stored legacy).
    { destruct (st_commit_checkpoint_transition _ s1) as [s2 r2] eqn:E2. apply commit_law in E2.
      assert (harmless (table s1) (table s2)).
      { rewrite E2. destruct r2; [|done]. apply commit_neutral; cbn [metadata_updates metadata_deletes];
          repeat (apply Forall_cons; split); try apply Forall_nil; auto. }
      destruct r2; by intros [= <- _]. }
    destruct (st_set_metadata _ cur s1) as [s2 r2] eqn:E2.
    apply Hset in E2; [|auto|done].
    destruct r2; [|by intros [= <- _]].
    destruct (st_set_metadata LAST_RECOVERY_ACTION_KEY _ s2) as [s3 r3] eqn:E3.
    apply Hset in E3; [|auto|done]. by intros [= <- _].
  - destruct (st_set_metadata _ cur s1) as [s2 r2] eqn:E2.
    apply Hset in E2; [|auto|done]. destruct r2; by intros [= <- _].
Qed.

Lemma check_hashes_ok libs s s' hs : tokens_ok (table s) →
  ((check_and_persist_enum_config_hash hash s).2 = EnumInitial →
     table (check_and_persist_enum_config_hash hash s).1 !! ENUM_CONFIG_HASH_KEY = Some hash) →
  check_hashes has_db config libs s = (s', hs) →
  tokens_ok (table s') ∧ hashes_ok hs (table s') ∧ (∀ z, table s' !! sync_token_key z = table s !! sync_token_key z)
  ∧ (hs_force_full_for_config_hash hs = true → hs_enum hs = EnumChanged → table s !! ENUM_CONFIG_HASH_KEY ≠ Some hash).
Proof.
  intros Hok Hinit. unfold check_hashes.
  destruct (negb (dry_run config) && has_db) eqn:Hactive; cbn [andb].
  2: { intros [= <- <-]. split_and!; try done. split; try done. cbn. intros Hd Hr _. by rewrite Hd, Hr in Hactive. }
  destruct (check_and_persist_enum_config_hash hash s) as [s1 o] eqn:E1. cbn [fst snd] in Hinit.
  apply check_enum_ok in E1.
  assert (Hs1 : tokens_ok (table s1) ∧ (∀ z, table s1 !! sync_token_key z = table s !! sync_token_key z)
    ∧ (enum_must_force_full_sync o = false → table s1 !! ENUM_CONFIG_HASH_KEY = Some hash)
    ∧ (o = EnumChanged → table s !! ENUM_CONFIG_HASH_KEY ≠ Some hash)).
  { match goal with |- ?G => assert (Hharm : harmless (table s) (table s1) → o ≠ EnumInitial →
      (enum_must_force_full_sync o = false → table s1 !! ENUM_CONFIG_HASH_KEY = Some hash) →
      (o = EnumChanged → table s1 !! ENUM_CONFIG_HASH_KEY ≠ Some hash) → G) end.
    { intros Hh _ Hf Hc. rewrite (harmless_hash _ _ Hh) in Hc.
      exact (conj (tokens_ok_harmless _ _ Hh Hok) (conj (harmless_token _ _ Hh) (conj Hf Hc))). }
    destruct o; [destruct E1 as [E1 E1']|destruct E1 as [E1 E1']; by apply Hharm|destruct E1 as [E1 E1']; by apply Hharm|by apply Hharm|by apply Hharm].
    specialize (Hinit eq_refl). destruct E1' as [Et|Et]; [rewrite Et in Hinit; congruence|].
    assert (Htok : ∀ z, <[ENUM_CONFIG_HASH_KEY := hash]> (table s) !! sync_token_key z = table s !! sync_token_key z).
    { intros z. apply lookup_insert_ne, hash_token. }
    rewrite Et in *. split_and!; [|done|done|done]. split.
    - intros h z t _. by rewrite Htok, (no_hash_no_token _ Hok).
    - intros h z t Hcol. rewrite lookup_insert_ne by apply hash_pending. by apply (candidate_earned _ Hok).
    - intros z. by rewrite Hinit. }
  destruct Hs1 as (Hok1 & Htok1 & Hhash1 & Hch).
  destruct (if bool_decide (o = EnumChanged) then _ else _) as [s2 u] eqn:E2.
  assert (Hh2 : harmless (table s1) (table s2)).
  { case_bool_decide; [|by injection E2 as <- _]. eapply harmless_set; [|exact E2]. auto. }
  destruct (if negb (bool_decide (libs = [])) then check_download_config_hash_for_cycle _ _ s2 else _) as [s3 o3] eqn:E3.
  assert (Hh3 : harmless (table s2) (table s3)).
  { case_match; [by eapply check_download_ok|by injection E3 as <- _]. }
  intros [= <- <-]. assert (Hh : harmless (table s1) (table s3)) by by etrans.
  split_and!.
  - by eapply tokens_ok_harmless.
  - split; cbn [hs_enum hs_force_full_for_config_hash hs_checkpoint_transition_state_safe]; [done| |].
    + intros Hf Hs. apply andb_true_iff in Hs as [Hs _]. apply negb_true_iff, bool_decide_eq_false in Hs.
      destruct o; try done; destruct Hs; set_solver.
    + intros _ _ Hf. rewrite (harmless_hash _ _ Hh). auto.
  - intros z. by rewrite (harmless_token _ _ Hh).
  - cbn. auto.
Qed.

(** The flag only ever falls. *)
Lemma sync_library_advance hs stale lib p s s' p' :
  sync_library state_error has_db is_cancelled utc_now download_photos_with_sync reconcile_catalog_paths
    config hs stale lib p s = (s', Ok p') → pg_advance_safe p' = true → pg_advance_safe p = true.
Proof.
  unfold sync_library. destruct (pending_zone_token _ _ _ _ _ _) as [s1 [pending|]]; [|done].
  destruct (sync_mode_decision _ _ _ _ _ _) as [s2 d].
  destruct (match md_full_enumeration_reason d with Some _ => _ | None => _ end) as [s3 u].
  destruct (reconcile_paths _ _ _ _ _) as [s4 [p1|]] eqn:E4; [|done].
  assert (Hp1 : pg_advance_safe p1 = pg_advance_safe p).
  { unfold reconcile_paths in E4. destruct (hs_pending_download_config_hash hs); [|by injection E4 as _ <-].
    destruct (reconcile_catalog_paths lib s3) as [s5 [[]|]]; [|done]. by injection E4 as _ <-. }
  destruct (download_photos_with_sync _ lib s4) as [s5 [res|]]; [|done].
  destruct (bridge_from_prior _ _ _ _ _ _ _ _) as [s6 [[res' basis]|]]; [|done].
  destruct (if library_completed _ _ _ && _ && _ && _ then _ else _) as [s7 st].
  destruct (apply_checkpoint_decision _ _ _ _ _ _ _) as [s8 p8] eqn:E8. intros [= _ <-] Hadv. cbn in Hadv.
  rewrite <- Hp1. unfold apply_checkpoint_decision in E8.
  repeat case_match; injection E8 as _ <-; cbn in Hadv; try done; by apply andb_true_iff in Hadv as [_ ?].
Qed.

Lemma sync_libraries_advance hs stale libs : ∀ p s s' p',
  sync_libraries state_error has_db is_cancelled utc_now download_photos_with_sync reconcile_catalog_paths
    config hs stale libs p s = (s', Ok p') → pg_advance_safe p' = true → pg_advance_safe p = true.
Proof.
  induction libs as [|lib libs IH]; intros p s s' p'; cbn [sync_libraries]; [by intros [= _ <-]|].
  destruct (is_cancelled s); [by intros [= _ <-]|].
  destruct (sync_library _ _ _ _ _ _ _ _ _ _ _ _) as [s1 [p1|]] eqn:E; [|done].
  pose proof (sync_library_advance _ _ _ _ _ _ _ E) as Hadv.
  destruct (pg_session_expired p1); [by intros [= _ <-]|]. intros Hr Ha. by eapply Hadv, IH.
Qed.

(** C6: Whatever happens in a cycle - calls that fail, a cancelled run, an
    expired session, a changed or half-reconciled configuration - every token
    it leaves behind is earned.  The active token of a zone belongs to the
    active hash and a candidate to its own: each was stored for that hash
    before the cycle, or was returned by a run of the engine for this very zone
    in this cycle, under the configuration with that hash, whose result let the
    checkpoint advance and which had no start token or an earned one - or by
    the delta that follows a full run.  No token is left without a hash.
    Assumed: the engine and the catalog reconciliation write no token and no
    hash themselves, the first recording of the hash does not fail, and when
    the configuration changed every zone with an active token takes part. *)
Theorem cycle_tokens_are_earned library_states s' r :
  (∀ z, table s0 !! ENUM_CONFIG_HASH_KEY = None → table s0 !! sync_token_key z = None) → Forall lib_ok library_states →
  ((check_and_persist_enum_config_hash hash s0).2 = EnumInitial →
     table (check_and_persist_enum_config_hash hash s0).1 !! ENUM_CONFIG_HASH_KEY = Some hash) →
  (table s0 !! ENUM_CONFIG_HASH_KEY ≠ Some hash → ∀ z, is_Some (table s0 !! sync_token_key z) →
     ∃ lib, lib ∈ library_states ∧ has_active_passes lib = true ∧ zone_name lib = z) →
  run_cycle state_error has_db is_cancelled utc_now download_photos_with_sync reconcile_catalog_paths
    config library_states s0 = (s', r) →
  tokens_ok (table s').
Proof.
  intros Hn Hlibs Hinit Hall. unfold run_cycle.
  assert (Hok : tokens_ok (table s0)) by (split; [by apply earned_active|by intros; apply earned_candidate|done]).
  destruct (check_hashes has_db config library_states s0) as [s1 hs] eqn:E1.
  pose proof (check_hashes_reach _ _ _ _ E1 reach_start) as Hs1.
  apply check_hashes_ok in E1 as (Hok1 & Hhs & Htok1 & Hch); [|done..].
  set (active := List.filter has_active_passes library_states). set (start := {| pg_failed_count := 0 |}).
  assert (Hactive : Forall lib_ok active).
  { apply Forall_forall. intros lib Hin. apply elem_of_filterb in Hin as [Hin _]. by eapply Forall_forall in Hlibs. }
  destruct (sync_libraries _ _ _ _ _ _ _ _ _ _ _ _) as [s2 r2] eqn:E2.
  pose proof (sync_libraries_ok _ _ _ _ _ _ _ Hactive Hs1 Hok1 Hhs E2) as [Hok2 [Hh2 Hz2]].
  destruct r2 as [p|e]; [|by intros [= <- _]].
  destruct (if (_ : bool) then promote_reconciliation state_error config active s2 else (s2, Ok true)) as [s3 promoted] eqn:E3.
  assert (Hok3 : tokens_ok (table s3)).
  { destruct (hs_force_full_for_config_hash hs && _ && _ && _ && _) eqn:Hp; [|by injection E3 as <- _].
    apply andb_true_iff in Hp as [Hp _]. zbool.
    assert (hs_checkpoint_transition_state_safe hs = true) as Hsafe.
    { eapply sync_libraries_advance in E2; [|done]. cbn in E2. by apply andb_true_iff in E2 as [_ ?]. }
    assert (Hneq : table s0 !! ENUM_CONFIG_HASH_KEY ≠ Some hash).
    { apply Hch; [done|]. by apply (safe_changed _ _ Hhs). }
    unfold promote_reconciliation in E3.
    destruct (collect_candidates _ _ _ _) as [s4 r4] eqn:E4. apply collect_candidates_ok in E4 as [Ht4 Hc]; [|done..].
    destruct r4 as [[[us ds]|]|e]; [|injection E3 as <- _; by rewrite Ht4..].
    destruct (st_commit_checkpoint_transition _ s4) as [s5 r5] eqn:E5. apply commit_law in E5. rewrite Ht4 in E5.
    assert (tokens_ok (table s5)).
    { rewrite E5. destruct r5; [|done]. apply (promoted_ok active); [by apply Hc|done|].
      intros z Hz. destruct (decide (z ∈ zone_name <$> active)) as [(lib & -> & Hl)%list_elem_of_fmap|Hno]; [by exists lib|].
      rewrite Hz2, Htok1 in Hz by (intros lib Hl <-; destruct Hno; by apply list_elem_of_fmap_2).
      destruct (Hall Hneq z Hz) as (lib & Hin & Hact & Hzone). exists lib. split; [|done].
      by apply elem_of_filterb. }
    destruct r5; by injection E3 as <- _. }
  destruct promoted as [promoted|e]; [|by intros [= <- _]].
  destruct (match hs_pending_download_config_hash hs with Some _ => _ | None => _ end) as [s4 u] eqn:E4.
  intros [= <- _]. destruct (hs_pending_download_config_hash hs) as [dh|]; [|by injection E4 as <- _].
  destruct (pg_path_reconciliation_complete p && _ && _ && _); [|by injection E4 as <- _].
  apply commit_law in E4. rewrite E4. destruct u; [|done]. eapply tokens_ok_harmless; [|done].
  apply commit_neutral; cbn [metadata_updates metadata_deletes]; repeat (apply Forall_cons; split); try apply Forall_nil; cbn [fst]; auto.
Qed.
End Safety.

(** ** The SQLite store keeps the laws *)

#[export] Program Instance SqliteStore_token_laws : TokenLaws SqliteStore := {
  table s := metadata (ss_db s);
}.
Next Obligation.
  intros k s s' r Hc%call_result. cbn in Hc. destruct r as [v|e]; [|by rewrite Hc].
  destruct Hc as (d & [= <- <-] & Hd). split; [by rewrite Hd|]. by intros v [= <-].
Qed.
Next Obligation.
  intros k v s s' r Hc%call_result. cbn in Hc. destruct r as [u|e]; [|by rewrite Hc].
  by destruct Hc as (d & [= <- <-] & ->).
Qed.
Next Obligation.
  intros p s s' r Hc%call_result. cbn in Hc. destruct r as [n|e]; [|by rewrite Hc].
  by destruct Hc as (d & [= <- <-] & ->).
Qed.
Next Obligation.
  intros t s s' r Hc%call_result. cbn in Hc. destruct r as [u|e]; [|by rewrite Hc].
  by destruct Hc as (d & [= <- <-] & ->).
Qed.

(** ** Runs

    The tokens of this engine say where they come from: [hash/zone/...].  A
    full run records its progress before it returns its token. *)
Module CycleRuns.
#[export] Instance no_anchor : AnchorJson := { anchor_from_str _ := None; anchor_to_string _ := None }.

Definition base (hash zone : str) : str := hash ++ lit "/" ++ zone ++ lit "/".
Definition progress_key (zone : str) : str := lit "enum_in_progress:" ++ zone.

Definition run_result (full : bool) (token : str) : SyncResult :=
  {| outcome := Success; sync_token := Some token; stats := SyncStats_default; full_enumeration_ran := full |}.
Definition engine (config : CycleConfig) (m : SyncMode) (lib : LibraryState) (s : SqliteStore)
    : SqliteStore * result StateError SyncResult :=
  let base := base (enum_config_hash config) (zone_name lib) in
  match m with
  | Full =>
      match st_set_metadata (progress_key (zone_name lib)) (enum_config_hash config) s with
      | (s, Ok _) => (s, Ok (run_result true (base ++ lit "full")))
      | (s, Err e) => (s, Err e)
      end
  | Incremental t0 =>
      if starts_with base t0 then (s, Ok (run_result false (t0 ++ lit "+")))
      else
        match st_get_metadata (progress_key (zone_name lib)) s with
        | (s, Ok progress) =>
            (s, Ok (run_result false (if bool_decide (progress = Some (enum_config_hash config))
                                      then base ++ lit "bridged" else t0 ++ lit "+")))
        | (s, Err e) => (s, Err e)
        end
  end.
Definition no_reconcile (lib : LibraryState) (s : SqliteStore) : SqliteStore * result StateError (bool * SyncStats) :=
  (s, Ok (true, SyncStats_default)).
Definition cycle (config : CycleConfig) := run_cycle id true (λ _, false) ss_now (engine config) no_reconcile config.

Definition library (zone : string) (active : bool) : LibraryState :=
  {| zone_name := lit zone; ls_sync_token_key := sync_token_key (lit zone); has_active_passes := active; plan_is_stale := false |}.
Definition with_hash (h : string) : CycleConfig :=
  {| dry_run := false; refresh_metadata := false; run_mode := Download; enum_config_hash := lit h;
     download_config_hash := lit "paths"; legacy_download_config_hash := lit "legacy" |}.
Definition stored (m : list (str * str)) (faults : list bool) : SqliteStore :=
  {| ss_db := set_metadata_table Db_empty (list_to_map m); ss_now := 0; ss_faults := faults |}.

Lemma neutral_progress z : neutral (progress_key z).
Proof. split_and!; intros; distinct_keys. Qed.

Lemma engine_result config m lib s s' r : engine config m lib s = (s', r) → harmless (table s) (table s').
Proof.
  unfold engine. destruct m as [|t0].
  - destruct (st_set_metadata _ _ s) as [s1 r1] eqn:E. apply (harmless_set _ _ _ _ _ (neutral_progress _)) in E.
    destruct r1; by intros [= <- _].
  - destruct (starts_with _ t0); [by intros [= <- _]|].
    destruct (st_get_metadata _ s) as [s1 r1] eqn:E. apply get_law in E as [<- _].
    destruct r1; by intros [= <- _].
Qed.

Lemma engine_is_ok config : engine_ok (engine config) no_reconcile.
Proof. split; [apply engine_result|by intros lib s s' r [= <- _]]. Qed.

(** A changed configuration, two zones, and a fault on the way. *)
Definition zones : list LibraryState := [library "A" true; library "B" true].
Definition before : SqliteStore :=
  stored [(ENUM_CONFIG_HASH_KEY, lit "old"); (sync_token_key (lit "A"), base (lit "old") (lit "A") ++ lit "1");
          (sync_token_key (lit "B"), base (lit "old") (lit "B") ++ lit "7")] [false; false; false; false; true].

Lemma before_lookup k v : metadata (ss_db before) !! k = Some v →
  (k = ENUM_CONFIG_HASH_KEY ∧ v = lit "old")
  ∨ ∃ z rest, k = sync_token_key z ∧ v = base (lit "old") z ++ rest ∧ z ∈ [lit "A"; lit "B"].
Proof.
  intros Hk. apply elem_of_list_to_map_2 in Hk.
  repeat (apply elem_of_cons in Hk as [[= -> ->]|Hk]).
  - by left.
  - right. exists (lit "A"), (lit "1"). split_and!; [done..|by left].
  - right. exists (lit "B"), (lit "7"). split_and!; [done..|by right; left].
  - by apply not_elem_of_nil in Hk.
Qed.

Definition after : SqliteStore := (cycle (with_hash "new") zones before).1.

Lemma cycle_tokens_are_earned_witness :
  (metadata (ss_db after) !! sync_token_key (lit "B") = Some (base (lit "new") (lit "B") ++ lit "bridged")
   ∧ metadata (ss_db after) !! ENUM_CONFIG_HASH_KEY = Some (lit "new"))
  ∧ earned (engine (with_hash "new")) no_reconcile (with_hash "new") before (lit "new") (lit "B") (base (lit "new") (lit "B") ++ lit "bridged").
Proof.
  assert (Hafter : metadata (ss_db after) !! sync_token_key (lit "B") = Some (base (lit "new") (lit "B") ++ lit "bridged")
    ∧ metadata (ss_db after) !! ENUM_CONFIG_HASH_KEY = Some (lit "new")) by (by vm_compute).
  split; [exact Hafter|].
  assert (Hcolon : no_colon (lit "new")) by (apply (bool_decide_unpack _); vm_compute; exact I).
  refine (active_earned _ _ _ _ _ (cycle_tokens_are_earned id true (λ _, false) ss_now (engine (with_hash "new")) no_reconcile
           (with_hash "new") before (engine_is_ok _) Hcolon zones after (cycle (with_hash "new") zones before).2 _ _ _ _ _)
           _ _ _ (proj2 Hafter) (proj1 Hafter)).
  - intros z Hn. vm_compute in Hn. discriminate Hn.
  - repeat (apply Forall_cons; split); [by vm_compute..|apply Forall_nil; exact I].
  - intros H. vm_compute in H. discriminate.
  - intros _ z [v Hz]. apply before_lookup in Hz as [[Hk _]|(z' & r & Hk & _ & Hin)]; [by symmetry in Hk; apply hash_token in Hk|].
    apply sync_token_key_inj in Hk as <-.
    repeat (apply elem_of_cons in Hin as [->|Hin]); [exists (library "A" true)|exists (library "B" true)|by apply not_elem_of_nil in Hin];
      (split_and!; [|done|done]); [left|right; left].
  - apply surjective_pairing.
Defined.

(** A zone whose passes are not active while the configuration changes keeps a
    token of the old configuration under the new hash, and a later cycle
    starts its delta from it. *)
Example absent_zone_keeps_old_token :
  let s := (cycle (with_hash "new") [library "A" true; library "B" false] before).1 in
  let s' := (cycle (with_hash "new") zones s).1 in
  metadata (ss_db s) !! ENUM_CONFIG_HASH_KEY = Some (lit "new")
  ∧ metadata (ss_db s) !! sync_token_key (lit "B") = Some (base (lit "old") (lit "B") ++ lit "7")
  ∧ metadata (ss_db s') !! sync_token_key (lit "B") = Some (base (lit "old") (lit "B") ++ lit "7+").
Proof. vm_compute. by split_and!. Qed.

(** When the first recording of the hash fails, the token of that cycle is
    stored without it, and the next configuration takes the token for its own. *)
Example unrecorded_hash_is_not_noticed :
  let s := (cycle (with_hash "one") [library "A" true] (stored [] [false; true])).1 in
  let s' := (cycle (with_hash "two") [library "A" true] s).1 in
  metadata (ss_db s) !! ENUM_CONFIG_HASH_KEY = None
  ∧ metadata (ss_db s) !! sync_token_key (lit "A") = Some (base (lit "one") (lit "A") ++ lit "full")
  ∧ metadata (ss_db s') !! ENUM_CONFIG_HASH_KEY = Some (lit "two")
  ∧ metadata (ss_db s') !! sync_token_key (lit "A") = Some (base (lit "one") (lit "A") ++ lit "full+").
Proof. vm_compute. by split_and!. Qed.
End CycleRuns.
