(* ===== verification/CycleClean.v ===== *)
(** * What a clean cycle has done

    A cycle that reports that the database token may advance, and that was not
    cut short by a shutdown, ran every library: the stored token of each one
    is past every change that was there when the cycle began.  This is the
    promise the sync loop relies on ([SyncLoopSpec.real_cycle_ok]).  A cycle that was
    cut short between two libraries makes the same report. *)
From S2P Require Import Prelude RustStr Types StateTypes StateDb Stats Checkpoint Finalize Cycle CycleSpec.

Section Clean.
Context {St AnyError : Type} `{TokenLaws St, AnchorJson} (state_error : StateError → AnyError).
Context (has_db : bool) (is_cancelled : St → bool) (utc_now : St → Z).
Context (download_photos_with_sync : SyncMode → LibraryState → St → St * result AnyError SyncResult).
Context (reconcile_catalog_paths : LibraryState → St → St * result AnyError (bool * SyncStats)).
Context (config : CycleConfig).
(** The log of changes of the account, of which [head s] are there, and the
    number of changes the token of a zone stands behind. *)
Context (head : St → nat) (change_at : nat → str) (zpos : str → str → nat).

Abbreviation hash := (enum_config_hash config).

Record later (s s' : St) : Prop := {
  later_head : (head s <= head s')%nat;
  later_cancelled : is_cancelled s = true → is_cancelled s' = true;
}.
Record passes (s s' : St) : Prop := { passes_harmless : harmless (table s) (table s'); passes_later : later s s' }.
#[export] Instance later_preorder : PreOrder later.
Proof. split; [by split|]. intros s1 s2 s3 [Ha1 Hb1] [Ha2 Hb2]. split; [lia|auto]. Qed.
#[export] Instance passes_preorder : PreOrder passes.
Proof. split; [by split|]. intros s1 s2 s3 [Ha1 Hb1] [Ha2 Hb2]. split; by etrans. Qed.

(** The token [t] of the zone [z] is past the first [n] changes of the account. *)
Definition reached (n : nat) (z t : str) : Prop := ∀ i, (i < n)%nat → change_at i = z → (i < zpos z t)%nat.

Record timed : Prop := {
  td_get k s s' r : st_get_metadata k s = (s', r) → later s s';
  td_set k v s s' r : st_set_metadata k v s = (s', r) → later s s';
  td_delete p s s' r : st_delete_metadata_by_prefix p s = (s', r) → later s s';
  td_commit t s s' r : st_commit_checkpoint_transition t s = (s', r) → later s s';
  td_download m lib s s' r : download_photos_with_sync m lib s = (s', r) → passes s s';
  td_reconcile lib s s' r : reconcile_catalog_paths lib s = (s', r) → passes s s';
  (** A token a run proves is past what was there when the run began. *)
  td_reaches m lib s s' r t : download_photos_with_sync m lib s = (s', Ok r) → proves config lib r t →
    reached (head s) (zone_name lib) t;
}.
Hypothesis Ht : timed.
Hypothesis Hcolon : no_colon hash.

Lemma get_passes k s s' r : st_get_metadata k s = (s', r) → passes s s' ∧ table s' = table s ∧ ∀ v, r = Ok v → v = table s !! k.
Proof. intros E. pose proof (get_law _ _ _ _ E) as [Heq Hv]. split; [|done]. split; [by rewrite Heq|by eapply td_get]. Qed.
Lemma set_passes k v s s' r : neutral k → st_set_metadata k v s = (s', r) → passes s s'.
Proof. intros Hk E. split; [by eapply harmless_set|by eapply td_set]. Qed.

Lemma reached_le n n' z t : (n <= n')%nat → reached n' z t → reached n z t.
Proof. intros Hn Hr i Hi. apply Hr. lia. Qed.

(** ** One library *)

Lemma bridge_reaches m hs lib s s1 r s2 r2 : download_photos_with_sync m lib s = (s1, Ok r) →
  bridge_from_prior state_error has_db download_photos_with_sync config hs lib r s1 = (s2, r2) →
  passes s1 s2 ∧ ∀ r' basis t, r2 = Ok (r', basis) → proves config lib r' t → reached (head s) (zone_name lib) t.
Proof.
  intros Hrun. assert (Hdirect : ∀ t, proves config lib r t → reached (head s) (zone_name lib) t) by (intros; by eapply td_reaches).
  assert (Hl : later s s1) by (eapply td_download in Hrun as [_ ?]; done).
  unfold bridge_from_prior. destruct (bool_decide _ && _ && _).
  2: { intros [= <- <-]. split; [done|]. intros r' basis t [= <- _]. apply Hdirect. }
  destruct (if has_db then _ else _) as [s3 prior] eqn:E.
  assert (Hp3 : passes s1 s3).
  { destruct has_db; [|by injection E as <- _]. destruct (st_get_metadata _ s1) as [s4 r4] eqn:Eg.
    apply get_passes in Eg as [Hp _]. destruct r4; by injection E as <- _. }
  destruct prior as [[t0|]|e]; [|intros [= <- <-]; split; [done|]; intros r' basis t [= <- _]; apply Hdirect|by intros [= <- <-]].
  destruct (source_checkpoint_decision r _ _ CompleteInventory); [|intros [= <- <-]; split; [done|]; intros r' basis t' [= <- _]; apply Hdirect].
  destruct (download_photos_with_sync (Incremental t0) lib s3) as [s5 [bridge|e]] eqn:Eb; intros [= <- <-];
    (split; [etrans; [done|by eapply td_download]|]); [|done].
  intros r' basis' t [= Hr'] Hpr. apply (f_equal fst) in Hr'. cbn [fst] in Hr'. rewrite <- Hr' in Hpr. apply merge_bridge_proves in Hpr as [_ Hpr].
  eapply reached_le; [|by eapply td_reaches]. etrans; [apply Hl|apply Hp3].
Qed.

Lemma anchor_passes z st s s' st' : update_inventory_anchor_for_cycle utc_now hash z st s = (s', st') → passes s s'.
Proof.
  unfold update_inventory_anchor_for_cycle. destruct (api_total_at_start st); [|by intros [= <- _]]. cbv zeta.
  destruct (st_get_metadata _ s) as [s1 stored] eqn:E1. apply get_passes in E1 as [Hp1 _].
  destruct (anchor_to_string _) as [value|]; [|by intros [= <- _]].
  destruct (st_set_metadata _ value s1) as [s2 r2] eqn:E2. apply set_passes in E2; [|apply neutral_anchor].
  intros [= <- _]. by etrans.
Qed.

(** A library runs, and then its checkpoint is decided. *)
Lemma sync_library_steps hs stale lib p s s' p' :
  sync_library state_error has_db is_cancelled utc_now download_photos_with_sync reconcile_catalog_paths
    config hs stale lib p s = (s', Ok p') →
  ∃ s7 p7 decision q, passes s s7 ∧ apply_checkpoint_decision has_db config hs lib decision p7 s7 = (s', q)
    ∧ pg_advance_safe p' = pg_advance_safe q
    ∧ (∀ t b, decision = Advance t b → reached (head s) (zone_name lib) t).
Proof.
  unfold sync_library. destruct (pending_zone_token _ _ _ _ _ s) as [s1 [pending|e]] eqn:E1; [|done].
  assert (Hp1 : passes s s1).
  { unfold pending_zone_token in E1. destruct (_ && has_db); [|by injection E1 as <- _].
    destruct (st_get_metadata _ s) as [s2 [v|e]] eqn:Eg; apply get_passes in Eg as [Hp _]; by injection E1 as <- _. }
  destruct (sync_mode_decision _ _ _ _ _ s1) as [s2 d] eqn:E2.
  assert (Hp2 : passes s1 s2).
  { unfold sync_mode_decision, determine_sync_mode_decision in E2. cbv zeta in E2.
    destruct (metadata_refresh_mode_decision _); [by injection E2 as <- _|]. destruct pending; [by injection E2 as <- _|].
    destruct (hs_force_full_for_config_hash hs); [by injection E2 as <- _|].
    destruct (hs_force_full_for_download_config_hash hs); [by injection E2 as <- _|].
    destruct has_db; [|by injection E2 as <- _]. destruct (st_get_metadata _ s1) as [s3 [[t|]|e]] eqn:Eg; apply get_passes in Eg as [Hp _];
      [case_bool_decide|..]; by injection E2 as <- _. }
  destruct (match md_full_enumeration_reason d with Some _ => _ | None => _ end) as [s3 u] eqn:E3.
  assert (Hp3 : passes s2 s3).
  { destruct (md_full_enumeration_reason d), has_db; try by injection E3 as <- _.
    eapply set_passes in E3; [done|apply neutral_full_reason]. }
  destruct (reconcile_paths _ _ _ _ s3) as [s4 [p4|e]] eqn:E4; [|done].
  assert (Hp4 : passes s3 s4).
  { unfold reconcile_paths in E4. destruct (hs_pending_download_config_hash hs); [|by injection E4 as <- _].
    destruct (reconcile_catalog_paths lib s3) as [s5 [[]|]] eqn:E5; apply (td_reconcile Ht) in E5; by injection E4 as <- _. }
  destruct (download_photos_with_sync _ lib s4) as [s5 [res|e]] eqn:E5; [|done].
  destruct (bridge_from_prior _ _ _ _ _ _ res s5) as [s6 [[res' basis]|e]] eqn:E6; [|done].
  pose proof (bridge_reaches _ _ _ _ _ _ _ _ E5 E6) as [Hp6 Hreach]. apply (td_download Ht) in E5.
  set (res1 := if full_enumeration_ran res' then _ else res').
  assert (He1 : same_evidence res' res1) by (unfold res1; destruct (full_enumeration_ran res'); [apply set_full_reason_evidence|done]).
  destruct (if library_completed _ _ _ && _ && _ && _ then _ else _) as [s7 st] eqn:E7.
  assert (passes s6 s7 ∧ same_evidence res1 (with_stats st res1)) as [Hp7 He7].
  { destruct (library_completed _ _ _ && _ && _ && _); [|by injection E7 as <- <-].
    split; [by eapply anchor_passes|by eapply update_inventory_anchor_ok in E7 as [_ ?]]. }
  destruct (apply_checkpoint_decision _ _ _ _ _ p4 s7) as [s8 p8] eqn:E8. intros [= <- <-].
  assert (Hp5 : passes s s4) by (etrans; [exact Hp1|]; etrans; [exact Hp2|]; by etrans).
  exists s7, p4, (checkpoint_decision is_cancelled config hs lib (with_stats st res1) basis s7), p8.
  split_and!; [etrans; [exact Hp5|]; etrans; [exact E5|]; by etrans|exact E8|done|].
  intros t b Hd. unfold checkpoint_decision in Hd. destruct (hs_checkpoint_transition_state_safe hs && _); [|by case_match].
  rewrite He7, He1 in Hd. eapply reached_le; [apply Hp5|]. eapply Hreach; [done|]. by exists basis, b.
Qed.

(** ** Settled libraries *)

(** The checkpoint of the zone is past the first [n] changes: the stored token,
    or, while an inventory is rebuilt, every candidate that may take its place. *)
Definition settled (hs : HashState) (n : nat) (z : str) (m : gmap str str) : Prop :=
  if hs_force_full_for_config_hash hs then ∀ t, m !! pending_zone_token_key hash z = Some t → reached n z t
  else ∃ t, m !! sync_token_key z = Some t ∧ reached n z t.

Lemma settled_harmless hs n z m m' : harmless m m' → settled hs n z m → settled hs n z m'.
Proof.
  intros [_ Htok Hp]. unfold settled. destruct (hs_force_full_for_config_hash hs); [by eauto|]. by rewrite Htok.
Qed.

Lemma settled_le hs n n' z m : (n <= n')%nat → settled hs n' z m → settled hs n z m.
Proof.
  intros Hn. unfold settled. destruct (hs_force_full_for_config_hash hs).
  - intros Hs t Hl. eapply reached_le; eauto.
  - intros (t & Hl & Hr). exists t. split; [done|]. by eapply reached_le.
Qed.

Lemma apply_later hs lib decision p s s' q :
  apply_checkpoint_decision has_db config hs lib decision p s = (s', q) → later s s'.
Proof.
  unfold apply_checkpoint_decision. destruct decision; (destruct has_db; [|by intros [= <- _]]).
  - destruct (hs_force_full_for_config_hash hs).
    + destruct (st_set_metadata _ _ s) as [s1 []] eqn:E; apply (td_set Ht) in E; by intros [= <- _].
    + destruct (st_commit_checkpoint_transition _ s) as [s1 []] eqn:E; apply (td_commit Ht) in E; by intros [= <- _].
  - destruct (st_commit_checkpoint_transition _ s) as [s1 ?] eqn:E; apply (td_commit Ht) in E; by intros [= <- _].
Qed.

(** Writing the checkpoint of a library settles it, when the flag stays, and
    leaves the others as they are. *)
Lemma apply_settles hs lib decision p s s' q n : lib_ok lib →
  apply_checkpoint_decision has_db config hs lib decision p s = (s', q) → pg_advance_safe q = true →
  (∀ t b, decision = Advance t b → reached n (zone_name lib) t) →
  has_db = true ∧ settled hs n (zone_name lib) (table s') ∧
  ∀ n' z, settled hs n' z (table s) → z = zone_name lib ∨ settled hs n' z (table s').
Proof.
  intros Hkey. unfold apply_checkpoint_decision. unfold settled at 1.
  assert (Hoff : ∀ o, pg_advance_safe (hold o false p) ≠ true) by (intros o; cbn; by rewrite andb_false_r).
  destruct decision as [t b|]; [|intros E Hadv; exfalso; eapply (Hoff (Some recovery));
    destruct has_db; [destruct (st_commit_checkpoint_transition _ s)|]; by injection E as _ ->].
  destruct has_db; [|intros [= _ <-] Hadv; by apply Hoff in Hadv].
  destruct (hs_force_full_for_config_hash hs) eqn:Hf.
  - destruct (st_set_metadata _ t s) as [s1 []] eqn:E; apply set_law in E; intros [= <- <-] Hadv Hr; [|by apply Hoff in Hadv].
    rewrite E. split_and!; [done| |].
    + intros t'. rewrite lookup_insert_eq. intros [= <-]. by eapply Hr.
    + intros n' z. unfold settled. rewrite Hf. intros Hs. destruct (decide (z = zone_name lib)) as [->|Hne]; [by left|right].
      intros t'. rewrite lookup_insert_ne; [apply Hs|]. by intros [_ ?]%pending_zone_token_key_inj.
  - destruct (st_commit_checkpoint_transition _ s) as [s1 []] eqn:E; apply commit_law in E; intros [= <- <-] Hadv Hr; [|by apply Hoff in Hadv].
    set (status := match pg_checkpoint_hold_action p with Some _ => _ | None => _ end) in E.
    assert (∃ a b, status = status_updates a b) as (st & ac & Heq) by (unfold status; case_match; eauto).
    rewrite Heq, Hkey in E. clear status Heq.
    change (commit_table (updates_only ((sync_token_key (zone_name lib), t) :: status_updates st ac)) (table s))
      with (commit_table (updates_only (status_updates st ac)) (<[sync_token_key (zone_name lib) := t]> (table s))) in E.
    pose proof (harmless_status st ac (<[sync_token_key (zone_name lib) := t]> (table s))) as [_ Htok _]. rewrite <- E in Htok.
    split_and!; [done| |].
    + exists t. rewrite Htok, lookup_insert_eq. split; [done|by eapply Hr].
    + intros n' z. unfold settled. rewrite Hf, Htok. intros (t' & Hl & Hr'). destruct (decide (z = zone_name lib)) as [->|Hne]; [by left|right].
      exists t'. rewrite lookup_insert_ne; [done|]. by intros ?%sync_token_key_inj.
Qed.

Lemma sync_library_settles hs stale lib p s s' p' : lib_ok lib →
  sync_library state_error has_db is_cancelled utc_now download_photos_with_sync reconcile_catalog_paths
    config hs stale lib p s = (s', Ok p') → pg_advance_safe p' = true →
  has_db = true ∧ later s s' ∧ settled hs (head s) (zone_name lib) (table s') ∧
  ∀ n z, (n <= head s)%nat → settled hs n z (table s) → settled hs n z (table s').
Proof.
  intros Hkey (s7 & p7 & decision & q & Hp & Ha & Hadv' & Hreach)%sync_library_steps Hadv. rewrite Hadv' in Hadv.
  pose proof (apply_later _ _ _ _ _ _ _ Ha) as Hl.
  eapply apply_settles in Ha as (Hdb & Hself & Hothers); [|done..]. split_and!; [done|by etrans; [apply Hp|]|done|].
  intros n z Hn Hz. apply (settled_harmless _ _ _ _ (table s7)) in Hz; [|apply Hp].
  apply Hothers in Hz as [->|Hz]; [|done]. by eapply settled_le.
Qed.

Lemma sync_libraries_settle hs stale libs : ∀ p s s' p', Forall lib_ok libs →
  sync_libraries state_error has_db is_cancelled utc_now download_photos_with_sync reconcile_catalog_paths
    config hs stale libs p s = (s', Ok p') →
  pg_advance_safe p' = true → pg_session_expired p' = false → is_cancelled s' = false →
  (libs ≠ [] → has_db = true) ∧ later s s' ∧ (∀ lib, lib ∈ libs → settled hs (head s) (zone_name lib) (table s')) ∧
  ∀ n z, (n <= head s)%nat → settled hs n z (table s) → settled hs n z (table s').
Proof.
  induction libs as [|lib libs IH]; intros p s s' p' Hlibs; cbn [sync_libraries].
  { intros [= <- <-] _ _ _. split_and!; [done|done|by intros ? ?%elem_of_nil|done]. }
  destruct (is_cancelled s) eqn:Hc; [intros [= <- <-] _ _ ?; congruence|]. apply Forall_cons in Hlibs as [Hlib Hlibs].
  destruct (sync_library _ _ _ _ _ _ _ _ _ _ p s) as [s1 [p1|e]] eqn:E1; [|done].
  destruct (pg_session_expired p1) eqn:Hexp; [intros [= <- <-] _ ?; congruence|]. intros Hr Hadv Hexp' Hcan.
  pose proof (sync_libraries_advance state_error _ _ _ _ _ _ _ _ _ _ _ _ _ Hr Hadv) as Hadv1.
  apply sync_library_settles in E1 as (Hdb & Hl1 & Hself & Hkeep); [|done..].
  apply IH in Hr as (_ & Hl2 & Hall & Hkeep'); [|done..]. split_and!; [done|by etrans| |].
  - intros lib' [->|Hin]%elem_of_cons; [apply Hkeep'; [apply Hl1|done]|]. eapply settled_le; [apply Hl1|]. by apply Hall.
  - intros n z Hn Hz. apply Hkeep'; [etrans; [done|apply Hl1]|by apply Hkeep].
Qed.

(** ** Time passes *)

Ltac time_passes :=
  repeat match goal with
  | Hr : (let '(_, _) := ?e in _) = (_, _) |- _ => destruct e eqn:?
  | Hr : (match ?e with _ => _ end) = (_, _) |- _ => destruct e eqn:?
  | Hr : (_, _) = (_, _) |- _ => injection Hr; clear Hr; intros; subst
  end;
  repeat match goal with
  | |- later ?s ?s => reflexivity
  | Hr : _ ?s = (?s', _) |- later ?s _ =>
      transitivity s'; [first [by eapply td_get|by eapply td_set|by eapply td_delete|by eapply td_commit|eauto; fail]|clear Hr]
  end.

Lemma check_enum_later s s' o : check_and_persist_enum_config_hash hash s = (s', o) → later s s'.
Proof. unfold check_and_persist_enum_config_hash. cbv zeta. intros Hr. time_passes. Qed.
Lemma check_download_later cur legacy s s' o : check_download_config_hash_for_cycle cur legacy s = (s', o) → later s s'.
Proof. unfold check_download_config_hash_for_cycle. intros Hr. time_passes. Qed.
Lemma check_hashes_later libs s s' hs : check_hashes has_db config libs s = (s', hs) → later s s'.
Proof.
  unfold check_hashes. cbv zeta.
  destruct (if negb (dry_run config) && has_db then _ else _) as [s1 o] eqn:E1.
  assert (Hl1 : later s s1).
  { destruct (negb (dry_run config) && has_db); [|by injection E1 as <- _].
    destruct (check_and_persist_enum_config_hash _ s) as [s2 o2] eqn:E2. apply check_enum_later in E2. etrans; [exact E2|]. time_passes. }
  destruct (if negb (dry_run config) && has_db && _ then _ else _) as [s2 o2] eqn:E2.
  intros [= <- _]. etrans; [exact Hl1|]. destruct (negb (dry_run config) && has_db && _); [by eapply check_download_later|by injection E2 as <- _].
Qed.
Lemma candidates_later libs : ∀ s s' r, collect_candidates state_error hash libs s = (s', r) → later s s'.
Proof.
  induction libs as [|lib libs IH]; intros s s' r Hr; cbn [collect_candidates] in Hr; cbv zeta in Hr; time_passes.
Qed.
Lemma promote_later libs s s' r : promote_reconciliation state_error config libs s = (s', r) → later s s'.
Proof.
  unfold promote_reconciliation. destruct (collect_candidates _ _ libs s) as [s1 x] eqn:E1. apply candidates_later in E1.
  intros Hr. etrans; [exact E1|]. clear E1. time_passes.
Qed.

(** ** Promotion *)

Lemma collect_later libs : ∀ s s' us ds,
  collect_candidates state_error hash libs s = (s', Ok (Some (us, ds))) →
  table s' = table s ∧ later s s'
  ∧ (∀ k t, (k, t) ∈ us → ∃ lib, lib ∈ libs ∧ k = ls_sync_token_key lib ∧ table s !! pending_zone_token_key hash (zone_name lib) = Some t)
  ∧ (∀ lib, lib ∈ libs → ls_sync_token_key lib ∈ us.*1) ∧ (∀ k, k ∈ ds → ∃ z, k = pending_zone_token_key hash z).
Proof.
  induction libs as [|lib libs IH]; intros s s' us ds; cbn [collect_candidates].
  { intros [= <- <- <-]. split_and!; [done|done|..]; by intros ? *; rewrite ?elem_of_nil. }
  cbv zeta. destruct (st_get_metadata _ s) as [s1 [tok|e]] eqn:E1; [|done]. pose proof (get_passes _ _ _ _ E1) as ([_ Hl] & Heq & Hv).
  specialize (Hv _ eq_refl). destruct (nonblank tok) as [t|] eqn:En; [|done].
  destruct (collect_candidates _ _ libs s1) as [s2 [[[us2 ds2]|]|e]] eqn:E2; intros [= <- <- <-].
  apply IH in E2 as (Heq2 & Hl2 & Hu & Ha & Hd). rewrite Heq in *. split_and!.
  - done.
  - by etrans.
  - intros k t' [[= -> ->]|Hin]%elem_of_cons; [|destruct (Hu _ _ Hin) as (lib' & ? & ?); exists lib'; split; [by right|done]].
    exists lib. split_and!; [by left|done|]. rewrite <- Hv. unfold nonblank in En. destruct tok as [tok|]; cbn in En; [|done]. by case_match; simplify_eq.
  - intros lib' [->|Hin]%elem_of_cons; [by left|right; by apply Ha].
  - intros k [->|Hin]%elem_of_cons; [eauto|by apply Hd].
Qed.

Lemma promote_reaches hs libs s s' n : Forall lib_ok libs → hs_force_full_for_config_hash hs = true →
  promote_reconciliation state_error config libs s = (s', Ok true) →
  (∀ lib, lib ∈ libs → settled hs n (zone_name lib) (table s)) →
  later s s' ∧ ∀ lib, lib ∈ libs → ∃ t, table s' !! sync_token_key (zone_name lib) = Some t ∧ reached n (zone_name lib) t.
Proof.
  intros Hlibs Hf. unfold promote_reconciliation.
  destruct (collect_candidates _ _ libs s) as [s1 [[[us ds]|]|e]] eqn:E1; [|done..].
  apply collect_later in E1 as (Heq & Hl & Hu & Ha & Hd).
  destruct (st_commit_checkpoint_transition _ s1) as [s2 [u|e]] eqn:E2; intros [= <-] Hs.
  pose proof (td_commit Ht _ _ _ _ E2) as Hl2. apply commit_law in E2. split; [by etrans|]. intros lib Hin.
  assert (Hkey : ls_sync_token_key lib = sync_token_key (zone_name lib)) by (by eapply Forall_forall in Hlibs).
  rewrite E2, Heq. unfold commit_table. cbn [metadata_updates metadata_deletes]. rewrite foldl_delete_lookup, decide_False.
  2: { intros [(z & Hz)%Hd|Hz%list_elem_of_singleton]%elem_of_app; [by apply token_pending in Hz|].
       destruct neutral_pending_hash as (_ & Hn & _). by apply (Hn (zone_name lib)). }
  rewrite foldl_app. set (m1 := foldl _ (table s) us).
  pose proof (foldl_insert_lookup us (table s) (sync_token_key (zone_name lib))) as [[Hno _]|(t & Hin' & Hl1)].
  { rewrite <- Hkey in Hno. by destruct (Hno (Ha _ Hin)). }
  assert (Hrest : foldl (λ m (kv : str * str), <[kv.1 := kv.2]> m) m1
      ((ENUM_CONFIG_HASH_KEY, hash) :: status_updates (lit "current") (lit "none")) !! sync_token_key (zone_name lib) = Some t).
  { change (foldl _ m1 _) with (commit_table (updates_only (status_updates (lit "current") (lit "none"))) (<[ENUM_CONFIG_HASH_KEY := hash]> m1)).
    rewrite (harmless_token _ _ (harmless_status _ _ _)), lookup_insert_ne by apply hash_token. exact Hl1. }
  exists t. split; [exact Hrest|]. destruct (Hu _ _ Hin') as (lib' & Hin2 & Hkey2 & Hp).
  assert (zone_name lib' = zone_name lib) as Hz.
  { apply sync_token_key_inj. rewrite Hkey2. symmetry. by eapply Forall_forall in Hlibs. }
  rewrite Hz in Hp. pose proof (Hs _ Hin) as Hset. unfold settled in Hset. rewrite Hf in Hset. by apply Hset.
Qed.

(** C8: when a cycle reports that the database token may advance, its session
    did not expire and the process is not being shut down, then every library
    with passes has a stored token that is past every change that was there
    when the cycle began: each one was run, its checkpoint was accepted and
    written, and a reconciliation in progress was completed. *)
Theorem clean_cycle_reaches library_states s s' r : Forall lib_ok library_states →
  run_cycle state_error has_db is_cancelled utc_now download_photos_with_sync reconcile_catalog_paths
    config library_states s = (s', Ok r) →
  cr_db_sync_token_advance_safe r = true → cr_session_expired r = false → is_cancelled s' = false →
  ∀ lib, lib ∈ library_states → has_active_passes lib = true →
  ∃ t, table s' !! sync_token_key (zone_name lib) = Some t ∧ reached (head s) (zone_name lib) t.
Proof.
  intros Hlibs. unfold run_cycle. destruct (check_hashes has_db config library_states s) as [s1 hs] eqn:E1.
  pose proof (check_hashes_later _ _ _ _ E1) as Hl1.
  set (active := List.filter has_active_passes library_states). set (start := {| pg_failed_count := 0 |}).
  assert (Hactive : Forall lib_ok active).
  { apply Forall_forall. intros lib Hin. apply elem_of_filterb in Hin as [Hin _]. by eapply Forall_forall in Hlibs. }
  destruct (sync_libraries _ _ _ _ _ _ _ _ _ _ _ _) as [s2 [p|e]] eqn:E2; [|done].
  destruct (if (_ : bool) then promote_reconciliation state_error config active s2 else (s2, Ok true)) as [s3 promoted] eqn:E3.
  destruct promoted as [promoted|e]; [|done].
  destruct (match hs_pending_download_config_hash hs with Some _ => _ | None => _ end) as [s4 u] eqn:E4.
  intros [= <- <-]. cbn [cr_db_sync_token_advance_safe cr_session_expired]. intros [Hadv ->]%andb_true_iff Hexp Hcan lib Hin Hact.
  assert (Hl3 : later s2 s3).
  { match type of E3 with (if ?b then _ else _) = _ => destruct b end; [by eapply promote_later|by injection E3 as <-]. }
  assert (Hp4 : passes s3 s4).
  { destruct (hs_pending_download_config_hash hs) as [dh|]; [|by injection E4 as <- _].
    destruct (pg_path_reconciliation_complete p && _ && _ && _); [|by injection E4 as <- _].
    split; [|by eapply td_commit]. apply commit_law in E4. rewrite E4. destruct u; [|done].
    apply commit_neutral; cbn [metadata_updates metadata_deletes]; repeat (apply Forall_cons; split); try apply Forall_nil; cbn [fst];
      auto using neutral_download_hash, neutral_pending_download_hash. }
  assert (Hcan2 : is_cancelled s2 = false).
  { destruct (is_cancelled s2) eqn:Hc; [|done]. apply (later_cancelled _ _ Hl3), (later_cancelled _ _ (passes_later _ _ Hp4)) in Hc. congruence. }
  assert (Hin' : lib ∈ active) by (by apply elem_of_filterb).
  apply sync_libraries_settle in E2 as (Hdb & _ & Hall & _); [|done..].
  assert (has_db = true) as Hdb' by (apply Hdb; by intros Hnil; rewrite Hnil in Hin'; apply elem_of_nil in Hin').
  assert (∃ t, table s3 !! sync_token_key (zone_name lib) = Some t ∧ reached (head s1) (zone_name lib) t) as (t & Hl & Hr).
  { rewrite Hadv, Hexp, Hcan2, Hdb', !andb_true_r in E3. cbn in E3. destruct (hs_force_full_for_config_hash hs) eqn:Hf.
    - eapply promote_reaches in E3 as [_ Hpr]; [by apply Hpr|done|done|done].
    - injection E3 as <-. pose proof (Hall _ Hin') as Hset. unfold settled in Hset. by rewrite Hf in Hset. }
  exists t. rewrite (harmless_token _ _ (passes_harmless _ _ Hp4)). split; [done|]. eapply reached_le; [apply Hl1|done].
Qed.
End Clean.

(** ** A run

    Two libraries, a new configuration, and an engine whose tokens stand behind
    everything. *)
Module CleanRuns.
#[export] Instance no_anchor : AnchorJson := { anchor_from_str _ := None; anchor_to_string _ := None }.

Definition engine (m : SyncMode) (lib : LibraryState) (s : SqliteStore) : SqliteStore * result StateError SyncResult :=
  (s, Ok {| outcome := Success; sync_token := Some (lit "abcd"); stats := SyncStats_default;
            full_enumeration_ran := match m with Full => true | Incremental _ => false end |}).
Definition no_reconcile (lib : LibraryState) (s : SqliteStore) : SqliteStore * result StateError (bool * SyncStats) :=
  (s, Ok (true, SyncStats_default)).
Definition config : CycleConfig :=
  {| dry_run := false; refresh_metadata := false; run_mode := Download; enum_config_hash := lit "new";
     download_config_hash := lit "paths"; legacy_download_config_hash := lit "legacy" |}.
Definition library (zone : string) : LibraryState :=
  {| zone_name := lit zone; ls_sync_token_key := sync_token_key (lit zone); has_active_passes := true; plan_is_stale := false |}.
Definition zones : list LibraryState := [library "A"; library "B"].
Definition before : SqliteStore :=
  {| ss_db := set_metadata_table Db_empty (list_to_map [(ENUM_CONFIG_HASH_KEY, lit "old")]); ss_now := 0; ss_faults := [] |}.
Definition outcome_of := run_cycle id true (λ _, false) ss_now engine no_reconcile config zones before.
Definition zpos (z t : str) : nat := length t.

Lemma engine_timed : timed (λ _, false) engine no_reconcile config (λ _, 4%nat) (λ _, lit "A") zpos.
Proof.
  split; try by (intros; split; [lia|]).
  - by intros m lib s s' r [= <- _].
  - by intros lib s s' r [= <- _].
  - intros m lib s s' r t [= _ <-] (b & b' & Hd) i Hi _. unfold source_checkpoint_decision in Hd.
    assert (t = lit "abcd") as -> by (repeat case_match; simplify_eq/=; done). unfold zpos. cbn. lia.
Qed.

Lemma config_no_colon : no_colon (enum_config_hash config).
Proof. apply (bool_decide_unpack _). vm_compute. exact I. Qed.
Lemma zones_ok : Forall lib_ok zones.
Proof. repeat (apply Forall_cons; split); try apply Forall_nil; reflexivity. Qed.
Lemma zone_in : library "B" ∈ zones.
Proof. right. left. Qed.

Lemma clean_cycle_reaches_witness :
  cr_db_sync_token_advance_safe match outcome_of.2 with Ok r => r | Err _ => {| cr_failed_count := 0; cr_session_expired := true; cr_stats := SyncStats_default; cr_db_sync_token_advance_safe := false |} end = true ∧
  ∃ t, table outcome_of.1 !! sync_token_key (lit "B") = Some t ∧ reached (λ _, lit "A") zpos 4 (lit "B") t.
Proof.
  split; [by vm_compute|].
  destruct outcome_of as [s' [r|e]] eqn:E.
  - assert (Hr : cr_db_sync_token_advance_safe r = true ∧ cr_session_expired r = false).
    { assert (Ho : outcome_of.2 = Ok r) by (by rewrite E). vm_compute in Ho. injection Ho as <-. split; reflexivity. }
    cbn [fst]. refine (clean_cycle_reaches id true (λ _, false) ss_now engine no_reconcile config (λ _, 4%nat) (λ _, lit "A") zpos
      engine_timed config_no_colon zones before s' r zones_ok E (proj1 Hr) (proj2 Hr) eq_refl (library "B") zone_in eq_refl).
  - exfalso. assert (Ho : outcome_of.2 = Err e) by (by rewrite E). vm_compute in Ho. discriminate Ho.
Defined.
End CleanRuns.
