(* ===== verification/Source.v ===== *)
(** * Applying a change stream: [src/download/mod.rs]

    What an incremental sync does with the events of [changes/zone] before it
    downloads anything: asset/master mappings, source deletions and hidden
    assets, album and relation deltas, recovery of half-seen assets, and the
    routing of new assets to passes.  Everything that may not be lost either
    reaches the state store or leaves a reason that blocks the sync token.

    The operations of the store may fail; the provider's record lookups are
    parameters. *)
From S2P Require Import Prelude RustStr Types StateTypes StateDb Filter Stats Cloudkit Delta Context Albums.

(** ** Events *)

(** [ChangeEvent] with its asset decoded ([PhotoAsset::from_records]). *)
Record SourceEvent := {
  ev_record_name : str;
  ev_record_type : option str;
  ev_master_record_name : option str;
  ev_reason : ChangeReason;
  ev_asset : option PhotoAsset;
  ev_album : option AlbumContainerDelta;
  ev_relation : option AlbumRelationDelta;
  ev_token_unsafe_reason : option str;
}.

Definition set_ev_asset (a : option PhotoAsset) (e : SourceEvent) : SourceEvent := {|
  ev_record_name := ev_record_name e; ev_record_type := ev_record_type e;
  ev_master_record_name := ev_master_record_name e; ev_reason := ev_reason e; ev_asset := a;
  ev_album := ev_album e; ev_relation := ev_relation e; ev_token_unsafe_reason := ev_token_unsafe_reason e |}.

Definition set_state_record_name (name : str) (a : PhotoAsset) : PhotoAsset := {|
  record_name := record_name a; asset_record_name := asset_record_name a; state_record_name := Some name;
  source_zone := source_zone a; filename := filename a; asset_metadata := asset_metadata a; versions := versions a;
  malformed_resources := malformed_resources a; asset_date := asset_date a; added_instant := added_instant a;
  item_type := item_type a |}.

(** ** Reasons *)

Definition ALBUM_RELATION_HYDRATION_INCOMPLETE_REASON : str := lit "album_relation_hydration_incomplete".
Definition UNKNOWN_ALBUM_RELATION_CONTAINER_REASON : str := lit "unknown_album_relation_container".
Definition UNKNOWN_ALBUM_RELATION_ASSET_REASON : str := lit "unknown_album_relation_asset".
Definition ALBUM_DELTA_STATE_WRITE_FAILED_REASON : str := lit "album_delta_state_write_failed".
Definition ASSET_MASTER_MAPPING_STATE_WRITE_FAILED_REASON : str := lit "asset_master_mapping_state_write_failed".
Definition ASSET_DELTA_HYDRATION_INCOMPLETE_REASON : str := lit "asset_delta_hydration_incomplete".
Definition PROVIDER_METADATA_STATE_WRITE_FAILED_REASON : str := lit "provider_metadata_state_write_failed".
Definition INCREMENTAL_DELETE_STATE_WRITE_FAILED_REASON : str := lit "incremental_delete_state_write_failed".
Definition INCREMENTAL_HIDDEN_STATE_WRITE_FAILED_REASON : str := lit "incremental_hidden_state_write_failed".

(** ** The summary of a delta *)

Record IncrementalDeltaSummary := {
  ds_sync_token : option str;
  ds_token_unsafe_reason : option str;
  ds_created_count : Z;
  ds_soft_deleted_count : Z;
  ds_hard_deleted_count : Z;
  ds_hidden_count : Z;
  ds_total_events : Z;
  ds_state_transition_failures : Z;
}.
Definition IncrementalDeltaSummary_default : IncrementalDeltaSummary :=
  {| ds_sync_token := None; ds_token_unsafe_reason := None; ds_created_count := 0; ds_soft_deleted_count := 0;
     ds_hard_deleted_count := 0; ds_hidden_count := 0; ds_total_events := 0; ds_state_transition_failures := 0 |}.

(** What the events change of it: the reason and the failures; a counter. *)
Definition set_evidence (reason : option str) (failures : Z) (s : IncrementalDeltaSummary) : IncrementalDeltaSummary :=
  {| ds_sync_token := ds_sync_token s; ds_token_unsafe_reason := reason; ds_created_count := ds_created_count s;
     ds_soft_deleted_count := ds_soft_deleted_count s; ds_hard_deleted_count := ds_hard_deleted_count s;
     ds_hidden_count := ds_hidden_count s; ds_total_events := ds_total_events s;
     ds_state_transition_failures := failures |}.
(** [token_unsafe_reason.get_or_insert(reason)]. *)
Definition insert_reason (reason : str) (s : IncrementalDeltaSummary) : IncrementalDeltaSummary :=
  set_evidence (Some (default reason (ds_token_unsafe_reason s))) (ds_state_transition_failures s) s.
Definition count_failure (s : IncrementalDeltaSummary) : IncrementalDeltaSummary :=
  set_evidence (ds_token_unsafe_reason s) (ds_state_transition_failures s + 1) s.

Inductive Counter := CCreated | CSoftDeleted | CHardDeleted | CHidden | CTotal.
Definition bump (c : Counter) (s : IncrementalDeltaSummary) : IncrementalDeltaSummary :=
  {| ds_sync_token := ds_sync_token s; ds_token_unsafe_reason := ds_token_unsafe_reason s;
     ds_created_count := ds_created_count s + match c with CCreated => 1 | _ => 0 end;
     ds_soft_deleted_count := ds_soft_deleted_count s + match c with CSoftDeleted => 1 | _ => 0 end;
     ds_hard_deleted_count := ds_hard_deleted_count s + match c with CHardDeleted => 1 | _ => 0 end;
     ds_hidden_count := ds_hidden_count s + match c with CHidden => 1 | _ => 0 end;
     ds_total_events := ds_total_events s + match c with CTotal => 1 | _ => 0 end;
     ds_state_transition_failures := ds_state_transition_failures s |}.
Definition set_token (t : option str) (s : IncrementalDeltaSummary) : IncrementalDeltaSummary :=
  {| ds_sync_token := t; ds_token_unsafe_reason := ds_token_unsafe_reason s; ds_created_count := ds_created_count s;
     ds_soft_deleted_count := ds_soft_deleted_count s; ds_hard_deleted_count := ds_hard_deleted_count s;
     ds_hidden_count := ds_hidden_count s; ds_total_events := ds_total_events s;
     ds_state_transition_failures := ds_state_transition_failures s |}.

Definition observe_event (e : SourceEvent) (s : IncrementalDeltaSummary) : IncrementalDeltaSummary :=
  let s := bump CTotal s in
  match ev_token_unsafe_reason e with Some reason => insert_reason reason s | None => s end.

(** ** Steps over the summary and the store *)

Record DeltaRun (St : Type) := { dr_summary : IncrementalDeltaSummary; dr_store : St }.
Arguments dr_summary {St} _.
Arguments dr_store {St} _.
Arguments Build_DeltaRun {St} _ _.
Definition Run (St A : Type) : Type := DeltaRun St → DeltaRun St * A.
#[export] Instance Run_ret {St} : MRet (Run St) := λ A a r, (r, a).
#[export] Instance Run_bind {St} : MBind (Run St) := λ A B f m r, let '(r', a) := m r in f a r'.

Definition note {St} (f : IncrementalDeltaSummary → IncrementalDeltaSummary) : Run St unit :=
  λ r, ({| dr_summary := f (dr_summary r); dr_store := dr_store r |}, tt).
Definition on_store {St A} (op : St → St * A) : Run St A :=
  λ r, let '(s, a) := op (dr_store r) in ({| dr_summary := dr_summary r; dr_store := s |}, a).
Definition flag {St} (reason : str) : Run St unit := note (insert_reason reason).
Definition transition_failed {St} (reason : str) : Run St unit := note (λ s, insert_reason reason (count_failure s)).
Fixpoint for_each {St A} (l : list A) (f : A → Run St unit) : Run St unit :=
  match l with [] => mret tt | a :: l => _ ← f a; for_each l f end.

(** ** The store *)

Class SourceStore (St : Type) := {
  so_get_master_record_name_for_asset : str → str → St → St * result StateError (option str);
  so_resolve_source_deleted : str → str → option Z → St → St * result StateError Z;
  so_resolve_master_family_source_deleted : str → str → option Z → St → St * result StateError Z;
  so_mark_hidden_at_source : str → str → St → St * result StateError Z;
  so_upsert_asset_master_mapping : str → str → str → St → St * result StateError unit;
  so_refresh_downloaded_asset_metadata : str → str → AssetMetadata → bool → bool → Z → St → St * result StateError Z;
  so_upsert_album_container : str → str → str → str → St → St * result StateError unit;
  so_mark_album_container_deleted : str → str → St → St * result StateError unit;
  so_invalidate_album_membership_snapshot : str → str → St → St * result StateError unit;
  so_upsert_album_membership_delta : str → str → str → option str → str → St → St * result StateError bool;
  so_mark_album_membership_deleted : str → str → str → St → St * result StateError bool;
  so_selected_album_containers_have_complete_snapshots : str → list str → St → St * result StateError bool;
  so_get_live_selected_album_memberships_for_asset : str → str → list str → St → St * result StateError (list AlbumMembershipRecord);
}.

Section Source.
Context {St : Type} `{SourceStore St}.
(** [config.library]; a state database is configured. *)
Context (library : str) (has_db : bool).

Definition persist_asset_master_mapping (asset_record_name master_record_name lib : str) : Run St unit :=
  if has_db then
    r ← on_store (so_upsert_asset_master_mapping lib asset_record_name master_record_name);
    match r with Ok _ => mret tt | Err _ => transition_failed ASSET_MASTER_MAPPING_STATE_WRITE_FAILED_REASON end
  else mret tt.

Definition persist_asset_mapping_for_asset (a : PhotoAsset) : Run St unit :=
  persist_asset_master_mapping (asset_record_name a) (record_name a) (default library (source_zone a)).
Definition persist_asset_mapping (e : SourceEvent) : Run St unit :=
  match ev_asset e with Some a => persist_asset_mapping_for_asset a | None => mret tt end.
Definition remember_asset_mapping (e : SourceEvent) (m : gmap str str) : gmap str str :=
  match ev_asset e with Some a => <[asset_record_name a := record_name a]> m | None => m end.

(** *** Source deletions and hidden assets *)

Inductive IncrementalStateTransition := TSoftDelete | THardDelete | THidden.
Definition write_failed_reason (t : IncrementalStateTransition) : str :=
  match t with
  | TSoftDelete | THardDelete => INCREMENTAL_DELETE_STATE_WRITE_FAILED_REASON
  | THidden => INCREMENTAL_HIDDEN_STATE_WRITE_FAILED_REASON
  end.

Inductive SourceStateUpdate := USoftDeleted (deleted_at : option Z) | UHidden.
Definition transition (u : SourceStateUpdate) : IncrementalStateTransition :=
  match u with USoftDeleted _ => TSoftDelete | UHidden => THidden end.

Record SourceStateTransitionKey := {
  sk_record_name : str;
  sk_record_type : option str;
  sk_unresolved_identity : bool;
}.
Definition CPL_MASTER : str := lit "CPLMaster".
Definition CPL_ASSET : str := lit "CPLAsset".
Definition master_key (name : str) : SourceStateTransitionKey :=
  {| sk_record_name := name; sk_record_type := Some CPL_MASTER; sk_unresolved_identity := false |}.
Definition is_cplasset (e : SourceEvent) : bool := bool_decide (ev_record_type e = Some CPL_ASSET).

Definition record_incremental_state_transition_result (r : result StateError Z) (t : IncrementalStateTransition) : Run St unit :=
  match r with
  | Ok _ => mret tt
  | Err _ => transition_failed (write_failed_reason t)
  end.

Definition source_state_transition_key (e : SourceEvent) : SourceStateTransitionKey :=
  match ev_asset e with
  | Some a =>
      {| sk_record_name := state_id a;
         sk_record_type := Some (if str_eqb (state_id a) (record_name a) then CPL_MASTER else CPL_ASSET);
         sk_unresolved_identity := false |}
  | None =>
      if is_cplasset e then
        match ev_master_record_name e with
        | Some master => master_key master
        | None => {| sk_record_name := ev_record_name e; sk_record_type := ev_record_type e; sk_unresolved_identity := true |}
        end
      else {| sk_record_name := ev_record_name e; sk_record_type := ev_record_type e;
              sk_unresolved_identity := bool_decide (ev_record_type e = None) |}
  end.

Definition unpaired_cplasset_state_key (e : SourceEvent) : option SourceStateTransitionKey :=
  if bool_decide (ev_asset e = None) && is_cplasset e
  then Some {| sk_record_name := ev_record_name e; sk_record_type := Some CPL_ASSET; sk_unresolved_identity := false |}
  else None.

Definition cplasset_master_fallback_state_key (e : SourceEvent) : Run St (result StateError (option SourceStateTransitionKey)) :=
  if is_cplasset e then
    match ev_master_record_name e with
    | Some master => mret (Ok (Some (master_key master)))
    | None =>
        r ← on_store (so_get_master_record_name_for_asset library (ev_record_name e));
        mret (match r with Ok m => Ok (master_key <$> m) | Err err => Err err end)
    end
  else mret (Ok None).

Definition run_source_state_update (key : SourceStateTransitionKey) (u : SourceStateUpdate) : Run St (result StateError Z) :=
  match u with
  | USoftDeleted at_ => on_store (so_resolve_source_deleted library (sk_record_name key) at_)
  | UHidden => on_store (so_mark_hidden_at_source library (sk_record_name key))
  end.

Definition apply_source_state_update (e : SourceEvent) (u : SourceStateUpdate) : Run St (result StateError Z) :=
  match unpaired_cplasset_state_key e with
  | None => run_source_state_update (source_state_transition_key e) u
  | Some asset_key =>
      r ← run_source_state_update asset_key u;
      match r with
      | Ok 0 =>
          fallback ← cplasset_master_fallback_state_key e;
          match fallback with
          | Ok (Some key) => run_source_state_update key u
          | Ok None => mret (Ok 0)
          | Err err => mret (Err err)
          end
      | other => mret other
      end
  end.

Definition hard_delete_state_transition_key (e : SourceEvent) : Run St (result StateError SourceStateTransitionKey) :=
  let fallback := source_state_transition_key e in
  if negb (sk_unresolved_identity fallback) then mret (Ok fallback)
  else
    r ← on_store (so_get_master_record_name_for_asset library (ev_record_name e));
    mret (match r with
          | Ok (Some master) => Ok (master_key master)
          | Ok None => Ok fallback
          | Err err => Err err
          end).

(** The second half of a hard deletion. *)
Definition hard_delete_resolved (e : SourceEvent) : Run St unit :=
  key ← hard_delete_state_transition_key e;
  match key with
  | Err _ => transition_failed INCREMENTAL_DELETE_STATE_WRITE_FAILED_REASON
  | Ok key =>
      r ← (if bool_decide (sk_record_type key = Some CPL_MASTER)
              && negb (is_cplasset e || bool_decide (ev_record_type e = None))
           then on_store (so_resolve_master_family_source_deleted library (sk_record_name key) None)
           else on_store (so_resolve_source_deleted library (sk_record_name key) None));
      record_incremental_state_transition_result r THardDelete
  end.

Definition apply_source_state_event (e : SourceEvent) : Run St unit :=
  match ev_reason e with
  | Created => mret tt
  | SoftDeleted =>
      _ ← note (bump CSoftDeleted);
      if has_db then
        r ← apply_source_state_update e (USoftDeleted (a ← ev_asset e; am_deleted_at (asset_metadata a)));
        record_incremental_state_transition_result r TSoftDelete
      else mret tt
  | HardDeleted =>
      _ ← note (bump CHardDeleted);
      if has_db then
        if bool_decide (ev_record_type e = None) && bool_decide (ev_asset e = None) then
          r ← on_store (so_resolve_master_family_source_deleted library (ev_record_name e) None);
          match r with
          | Ok updated => if 0 <? updated then mret tt else hard_delete_resolved e
          | Err err => record_incremental_state_transition_result (Err err) THardDelete
          end
        else hard_delete_resolved e
      else mret tt
  | Hidden =>
      _ ← note (bump CHidden);
      if has_db then
        r ← apply_source_state_update e UHidden;
        record_incremental_state_transition_result r THidden
      else mret tt
  end.

(** *** Albums and relations *)

Definition apply_incremental_album_delta (e : SourceEvent) : Run St unit :=
  match ev_album e with
  | Some album =>
      if has_db then
        r ← (if acd_is_deleted album then
               r ← on_store (so_mark_album_container_deleted library (acd_container_id album));
               match r with
               | Err err => mret (Err err)
               | Ok _ => on_store (so_invalidate_album_membership_snapshot library (acd_container_id album))
               end
             else on_store (so_upsert_album_container library (acd_container_id album) (acd_album_name album) (lit "album")));
        match r with Ok _ => mret tt | Err _ => flag ALBUM_DELTA_STATE_WRITE_FAILED_REASON end
      else mret tt
  | None => mret tt
  end.

Record SyncPass := { sp_pass :> AlbumPass; sp_container_id : option str }.

Record IncrementalPassRouting := {
  selected_album_passes : gmap str (list nat);
  selected_container_ids : list str;
  unfiled_passes : list nat;
}.

Definition from_passes (passes : list SyncPass) : IncrementalPassRouting :=
  let '(selected, unfiled) :=
    foldl (λ acc (ip : nat * SyncPass), let '(selected, unfiled) := acc in
      match pass_kind ip.2 with
      | PassAlbum =>
          match sp_container_id ip.2 with
          | Some c => (<[c := default [] (selected !! c) ++ [ip.1]]> selected, unfiled)
          | None => (selected, unfiled)
          end
      | PassUnfiled => (selected, unfiled ++ [ip.1])
      | PassSmartFolder => (selected, unfiled)
      end) (∅ : gmap str (list nat), []) (imap pair passes) in
  {| selected_album_passes := selected;
     selected_container_ids := order_by (λ a b, cmp_le (text_cmp a b)) (elements (dom selected));
     unfiled_passes := unfiled |}.
Definition has_selected_albums (r : IncrementalPassRouting) : bool := negb (bool_decide (selected_album_passes r = ∅)).
Definition album_passes_for_container (r : IncrementalPassRouting) (c : str) : option (list nat) := selected_album_passes r !! c.

(** The containers ensured so far. *)
Definition apply_incremental_relation_delta (routing : IncrementalPassRouting) (planned_album_containers : gmap str str)
    (asset_to_master : gmap str str) (ensured : gset str) (e : SourceEvent) : Run St (gset str) :=
  match ev_relation e with
  | None => mret ensured
  | Some relation =>
      if has_db then
        let container := ard_container_id relation in
        let asset := ard_asset_record_name relation in
        let known := asset_to_master !! asset in
        master ← (if negb (ard_is_deleted relation) && bool_decide (known = None) then
                    r ← on_store (so_get_master_record_name_for_asset library asset);
                    match r with
                    | Ok m => mret m
                    | Err _ => _ ← flag ALBUM_RELATION_HYDRATION_INCOMPLETE_REASON; mret None
                    end
                  else mret known);
        ensured ← match planned_album_containers !! container with
                  | Some album_name =>
                      if bool_decide (container ∈ ensured) then mret ensured
                      else
                        r ← on_store (so_upsert_album_container library container album_name (lit "album"));
                        match r with
                        | Ok _ => mret ({[container]} ∪ ensured)
                        | Err _ => _ ← flag ALBUM_DELTA_STATE_WRITE_FAILED_REASON; mret ensured
                        end
                  | None => mret ensured
                  end;
        container_known ← (if ard_is_deleted relation
          then on_store (so_mark_album_membership_deleted library container asset)
          else on_store (so_upsert_album_membership_delta library container asset master (lit "icloud")));
        let selected := bool_decide (is_Some (album_passes_for_container routing container)) in
        _ ← match container_known with
            | Ok true => mret tt
            | Ok false => if selected then flag UNKNOWN_ALBUM_RELATION_CONTAINER_REASON else mret tt
            | Err _ => flag ALBUM_DELTA_STATE_WRITE_FAILED_REASON
            end;
        _ ← (if negb (ard_is_deleted relation) && selected && bool_decide (master = None)
             then flag UNKNOWN_ALBUM_RELATION_ASSET_REASON else mret tt);
        mret ensured
      else mret ensured
  end.

Fixpoint apply_relation_deltas (routing : IncrementalPassRouting) (planned asset_to_master : gmap str str) (ensured : gset str)
    (events : list SourceEvent) : Run St unit :=
  match events with
  | [] => mret tt
  | e :: events =>
      ensured ← apply_incremental_relation_delta routing planned asset_to_master ensured e;
      apply_relation_deltas routing planned asset_to_master ensured events
  end.
End Source.
