(* ===== verification/Hydrate.v ===== *)
(** * Completing a change stream: [src/download/mod.rs]

    Recovery of assets the delta shows only half of, the identity a changed
    asset has in the state store, changed provider metadata, and the choice of
    the passes a changed asset belongs to. *)
From S2P Require Import Prelude RustStr Types StateTypes StateDb Filter Stats Delta Context Albums Source.

(** ** The provider's record lookups *)

Record RecordLookupRequest := {
  rl_state_id : str;
  rl_master_record_name : str;
  rl_asset_record_name : option str;
  rl_for_asset : bool;
}.
Definition paired (state_id master asset : str) : RecordLookupRequest :=
  {| rl_state_id := state_id; rl_master_record_name := master; rl_asset_record_name := Some asset; rl_for_asset := false |}.
Definition asset_only (asset : str) : RecordLookupRequest :=
  {| rl_state_id := asset; rl_master_record_name := asset; rl_asset_record_name := None; rl_for_asset := true |}.

Inductive RecordResolution :=
| Present (asset : PhotoAsset)
| AssetPresent (master_record_name : str)
| MasterPresent
| Deleted (deleted_at : option Z) (master_family : bool)
| Unknown
| TransientFailure (error : str).

Record RecordResolutionBatch := { rb_results : list (str * RecordResolution); rb_complete : bool }.

Inductive LegacyOwnerClaimMode := ExistingOnly | ReadOnly | Persist.
#[export] Instance LegacyOwnerClaimMode_eq : EqDecision LegacyOwnerClaimMode.
Proof. solve_decision. Defined.

(** The order in which hash maps and hash sets of pass indices are walked. *)
Class IndexOrder := {
  index_map_order : ∀ {A}, gmap nat A → list (nat * A);
  index_map_order_perm : ∀ {A} (m : gmap nat A), index_map_order m ≡ₚ map_to_list m;
  index_set_order : gset nat → list nat;
  index_set_order_perm : ∀ X, index_set_order X ≡ₚ elements X;
}.

Section Hydrate.
Context {St : Type} `{SourceStore St, LegacyOwnerStore St, FilterEnv, IndexOrder}.
Context (library : str) (has_db : bool).
Context (resolve_records : SyncPass → list RecordLookupRequest → St → St * RecordResolutionBatch).
Context {LookupError : Type} (hydrate_matching_assets_from_changes : SyncPass → gset str → St → St * result LookupError (list PhotoAsset)).

Abbreviation persist_asset_master_mapping := (persist_asset_master_mapping has_db).
Abbreviation persist_asset_mapping_for_asset := (persist_asset_mapping_for_asset library has_db).

(** ** Half-seen assets *)

Record Unpaired := { up_pending : list (nat * str * str); up_unresolved : gmap str (list nat) }.

Definition is_unpaired_creation (e : SourceEvent) : bool :=
  bool_decide (ev_reason e = Created) && bool_decide (ev_asset e = None) && is_cplasset e.

Fixpoint scan_unpaired (events : list (nat * SourceEvent)) (acc : Unpaired) : Run St Unpaired :=
  match events with
  | [] => mret acc
  | (index, e) :: events =>
      if is_unpaired_creation e then
        master ← match ev_master_record_name e with
                 | Some master => mret (Ok (Some master))
                 | None => if has_db then on_store (so_get_master_record_name_for_asset library (ev_record_name e))
                           else mret (Ok None)
                 end;
        match master with
        | Err _ => _ ← transition_failed ASSET_DELTA_HYDRATION_INCOMPLETE_REASON; scan_unpaired events acc
        | Ok (Some master) =>
            scan_unpaired events {| up_pending := up_pending acc ++ [(index, ev_record_name e, master)];
                                    up_unresolved := up_unresolved acc |}
        | Ok None =>
            scan_unpaired events {| up_pending := up_pending acc;
              up_unresolved := <[ev_record_name e := default [] (up_unresolved acc !! ev_record_name e) ++ [index]]> (up_unresolved acc) |}
        end
      else scan_unpaired events acc
  end.

(** The answers about the masters of assets whose master is unknown. *)
Fixpoint recover_identities (results : list (str * RecordResolution)) (acc : Unpaired) : Run St Unpaired :=
  match results with
  | [] => mret acc
  | (name, resolution) :: results =>
      match up_unresolved acc !! name with
      | None => _ ← flag ASSET_DELTA_HYDRATION_INCOMPLETE_REASON; recover_identities results acc
      | Some indices =>
          let acc := {| up_pending := up_pending acc; up_unresolved := delete name (up_unresolved acc) |} in
          match resolution with
          | AssetPresent master =>
              _ ← persist_asset_master_mapping name master library;
              recover_identities results {| up_pending := up_pending acc ++ ((λ i, (i, name, master)) <$> indices);
                                            up_unresolved := up_unresolved acc |}
          | Deleted _ false => recover_identities results acc
          | _ => _ ← flag ASSET_DELTA_HYDRATION_INCOMPLETE_REASON; recover_identities results acc
          end
      end
  end.

(** The answers about the assets themselves. *)
Definition apply_resolution (master : str) (e : SourceEvent) (resolution : RecordResolution) : Run St SourceEvent :=
  match resolution with
  | Present asset =>
      if str_eqb (asset_record_name asset) (ev_record_name e) then
        _ ← persist_asset_mapping_for_asset asset;
        mret (set_ev_asset (Some asset) e)
      else _ ← flag ASSET_DELTA_HYDRATION_INCOMPLETE_REASON; mret e
  | Deleted deleted_at master_family =>
      if has_db then
        r ← (if master_family then on_store (so_resolve_master_family_source_deleted library master deleted_at)
             else apply_source_state_update library e (USoftDeleted deleted_at));
        _ ← record_incremental_state_transition_result r TSoftDelete;
        mret e
      else mret e
  | _ => _ ← flag ASSET_DELTA_HYDRATION_INCOMPLETE_REASON; mret e
  end.

Fixpoint apply_resolutions (by_name : gmap str (nat * str)) (results : list (str * RecordResolution)) (events : list SourceEvent) :
    Run St (list SourceEvent) :=
  match results with
  | [] => mret events
  | (name, resolution) :: results =>
      match by_name !! name with
      | None => _ ← flag ASSET_DELTA_HYDRATION_INCOMPLETE_REASON; apply_resolutions by_name results events
      | Some (index, master) =>
          match events !! index with
          | None => _ ← flag ASSET_DELTA_HYDRATION_INCOMPLETE_REASON; apply_resolutions by_name results events
          | Some e =>
              e ← apply_resolution master e resolution;
              apply_resolutions by_name results (<[index := e]> events)
          end
      end
  end.

Definition by_record_name (pending : list (nat * str * str)) : gmap str (nat * str) :=
  foldl (λ m p, <[p.1.2 := (p.1.1, p.2)]> m) ∅ pending.

Definition hydrate_unpaired_created_asset_deltas (events : list SourceEvent) (pass : option SyncPass) : Run St (list SourceEvent) :=
  found ← scan_unpaired (imap pair events) {| up_pending := []; up_unresolved := ∅ |};
  if bool_decide (up_pending found = []) && bool_decide (up_unresolved found = ∅) then mret events
  else
    match pass with
    | None => _ ← flag ASSET_DELTA_HYDRATION_INCOMPLETE_REASON; mret events
    | Some pass =>
        pending ← (if bool_decide (up_unresolved found = ∅) then mret (up_pending found)
                   else
                     batch ← on_store (resolve_records pass (asset_only <$> (map_to_list (up_unresolved found)).*1));
                     found ← recover_identities (rb_results batch) found;
                     _ ← (if bool_decide (up_unresolved found = ∅) then mret tt
                          else flag ASSET_DELTA_HYDRATION_INCOMPLETE_REASON);
                     mret (up_pending found));
        if bool_decide (pending = []) then mret events
        else
          batch ← on_store (resolve_records pass ((λ p : nat * str * str, paired p.1.2 p.2 p.1.2) <$> pending));
          events ← apply_resolutions (by_record_name pending) (rb_results batch) events;
          _ ← (if rb_complete batch then mret tt else flag ASSET_DELTA_HYDRATION_INCOMPLETE_REASON);
          mret events
    end.

(** ** Identities *)

Definition legacy_owner_claim_mode_for_configs (requested : LegacyOwnerClaimMode) (asset : PhotoAsset)
    (configs : list PathDerivationConfig) : LegacyOwnerClaimMode :=
  if bool_decide (requested = ExistingOnly)
     || forallb (λ c, match is_asset_filtered asset c with Some ExcludedAlbum => true | _ => false end) configs
  then ExistingOnly else requested.

Definition select_for_download (ctx : DownloadContext) (lib : str) (asset : PhotoAsset) (claimed : gset (str * str)) :
    Run St (gset (str * str) * result StateError str) :=
  λ r, let '(claimed, store, name) :=
         select_asset_state_record_name_for_download ctx (if has_db then Some (dr_store r) else None) lib asset claimed in
       ({| dr_summary := dr_summary r; dr_store := default (dr_store r) store |}, (claimed, name)).

Definition select_asset_state_identity (ctx : DownloadContext) (claimed : gset (str * str)) (claim_mode : LegacyOwnerClaimMode)
    (asset : PhotoAsset) : Run St (gset (str * str) * option PhotoAsset) :=
  let lib := default library (source_zone asset) in
  '(claimed, selection) ←
    match claim_mode with
    | ExistingOnly => mret (claimed, Ok (select_existing_asset_state_record_name ctx lib asset))
    | ReadOnly => let '(claimed, name) := select_asset_state_record_name ctx lib asset claimed in mret (claimed, Ok name)
    | Persist => select_for_download ctx lib asset claimed
    end;
  match selection with
  | Ok name => mret (claimed, Some (set_state_record_name name asset))
  | Err _ => _ ← transition_failed ASSET_MASTER_MAPPING_STATE_WRITE_FAILED_REASON; mret (claimed, None)
  end.

(** The events of created assets get their identity; one whose claim failed
    loses its asset. *)
Fixpoint select_event_identities (ctx : DownloadContext) (claim_mode : LegacyOwnerClaimMode) (configs : list PathDerivationConfig)
    (claimed : gset (str * str)) (events : list SourceEvent) : Run St (gset (str * str) * list SourceEvent) :=
  match events with
  | [] => mret (claimed, [])
  | e :: events =>
      '(claimed, e) ←
        match ev_reason e, ev_asset e with
        | Created, Some asset =>
            '(claimed, asset) ← select_asset_state_identity ctx claimed
                                  (legacy_owner_claim_mode_for_configs claim_mode asset configs) asset;
            mret (claimed, set_ev_asset asset e)
        | _, _ => mret (claimed, e)
        end;
      '(claimed, events) ← select_event_identities ctx claim_mode configs claimed events;
      mret (claimed, e :: events)
  end.

(** *** Changed provider metadata *)

Definition apply_changed_provider_metadata (mark_for_rewrite : bool) (ctx : DownloadContext) (asset : PhotoAsset) : Run St unit :=
  if has_db then
    let lib := default library (source_zone asset) in
    if has_provider_metadata_drift ctx lib (state_id asset) (am_metadata_hash (asset_metadata asset)) then
      r ← on_store (so_refresh_downloaded_asset_metadata lib (state_id asset) (asset_metadata asset) mark_for_rewrite false
                      METADATA_CAPTURE_REVISION);
      match r with
      | Ok updated => if 0 <? updated then mret tt else transition_failed PROVIDER_METADATA_STATE_WRITE_FAILED_REASON
      | Err _ => transition_failed PROVIDER_METADATA_STATE_WRITE_FAILED_REASON
      end
    else mret tt
  else mret tt.

(** Once per state identity. *)
Fixpoint refresh_changed_assets (mark_for_rewrite : bool) (ctx : DownloadContext) (refreshed : gset str) (assets : list PhotoAsset) :
    Run St unit :=
  match assets with
  | [] => mret tt
  | a :: assets =>
      if bool_decide (state_id a ∈ refreshed) then refresh_changed_assets mark_for_rewrite ctx refreshed assets
      else
        _ ← apply_changed_provider_metadata mark_for_rewrite ctx a;
        refresh_changed_assets mark_for_rewrite ctx ({[state_id a]} ∪ refreshed) assets
  end.

(** ** Members of selected albums the delta does not carry *)

Record Hydration := {
  hy_asset_to_master : gmap str str;
  hy_complete_delta_assets : list PhotoAsset;
  hy_downloadable_assets : list (PhotoAsset * nat);
  hy_claimed : gset (str * str);
}.

Record Missing := { mi_by_hydrator : gmap nat (gset str); mi_pass_indices : gmap str (gset nat) }.

Definition missing_step (routing : IncrementalPassRouting) (asset_to_master : gmap str str) (m : Missing) (e : SourceEvent) : Missing :=
  match ev_relation e with
  | Some relation =>
      if ard_is_deleted relation then m
      else
        match album_passes_for_container routing (ard_container_id relation) with
        | Some ((first :: _) as indices) =>
            let asset := ard_asset_record_name relation in
            if bool_decide (is_Some (asset_to_master !! asset)) then m
            else {| mi_by_hydrator := <[first := {[asset]} ∪ default ∅ (mi_by_hydrator m !! first)]> (mi_by_hydrator m);
                    mi_pass_indices := <[asset := list_to_set indices ∪ default ∅ (mi_pass_indices m !! asset)]> (mi_pass_indices m) |}
        | _ => m
        end
  | None => m
  end.

Definition hydrated_asset (ctx : option DownloadContext) (claim_mode : LegacyOwnerClaimMode) (pass_configs : list PathDerivationConfig)
    (pass_indices : gmap str (gset nat)) (hydrated : gset str) (h : Hydration) (asset : PhotoAsset) : Run St (gset str * Hydration) :=
  _ ← persist_asset_mapping_for_asset asset;
  let name := asset_record_name asset in
  let indices := default [] (index_set_order <$> pass_indices !! name) in
  let mode := legacy_owner_claim_mode_for_configs claim_mode asset (omap (λ i, pass_configs !! i) indices) in
  '(claimed, selected) ← match ctx with
                         | Some ctx => select_asset_state_identity ctx (hy_claimed h) mode asset
                         | None => mret (hy_claimed h, Some asset)
                         end;
  match selected with
  | None => mret (hydrated, {| hy_asset_to_master := hy_asset_to_master h;
                               hy_complete_delta_assets := hy_complete_delta_assets h;
                               hy_downloadable_assets := hy_downloadable_assets h; hy_claimed := claimed |})
  | Some asset =>
      mret ({[name]} ∪ hydrated,
            {| hy_asset_to_master := <[name := record_name asset]> (hy_asset_to_master h);
               hy_complete_delta_assets := hy_complete_delta_assets h ++ [asset];
               hy_downloadable_assets := hy_downloadable_assets h ++ ((asset,.) <$> indices); hy_claimed := claimed |})
  end.

Fixpoint hydrated_assets (ctx : option DownloadContext) (claim_mode : LegacyOwnerClaimMode) (pass_configs : list PathDerivationConfig)
    (pass_indices : gmap str (gset nat)) (hydrated : gset str) (h : Hydration) (assets : list PhotoAsset) : Run St (gset str * Hydration) :=
  match assets with
  | [] => mret (hydrated, h)
  | a :: assets =>
      '(hydrated, h) ← hydrated_asset ctx claim_mode pass_configs pass_indices hydrated h a;
      hydrated_assets ctx claim_mode pass_configs pass_indices hydrated h assets
  end.

Fixpoint hydrate_from_passes (passes : list SyncPass) (ctx : option DownloadContext) (claim_mode : LegacyOwnerClaimMode)
    (pass_configs : list PathDerivationConfig) (pass_indices : gmap str (gset nat)) (hydrated : gset str)
    (h : Hydration) (missing : list (nat * gset str)) : Run St Hydration :=
  match missing with
  | [] => mret h
  | (index, names) :: missing =>
      let names := filter (λ n, hy_asset_to_master h !! n = None ∧ n ∉ hydrated) names in
      match bool_decide (names = ∅), passes !! index with
      | true, _ | _, None => hydrate_from_passes passes ctx claim_mode pass_configs pass_indices hydrated h missing
      | false, Some pass =>
          r ← on_store (hydrate_matching_assets_from_changes pass names);
          match r with
          | Err _ =>
              _ ← flag ALBUM_RELATION_HYDRATION_INCOMPLETE_REASON;
              hydrate_from_passes passes ctx claim_mode pass_configs pass_indices hydrated h missing
          | Ok assets =>
              '(hydrated, h) ← hydrated_assets ctx claim_mode pass_configs pass_indices hydrated h assets;
              hydrate_from_passes passes ctx claim_mode pass_configs pass_indices hydrated h missing
          end
      end
  end.

Definition hydrate_missing_selected_relation_assets (events : list SourceEvent) (passes : list SyncPass)
    (routing : IncrementalPassRouting) (ctx : option DownloadContext) (claim_mode : LegacyOwnerClaimMode)
    (pass_configs : list PathDerivationConfig) (h : Hydration) : Run St Hydration :=
  let m := foldl (missing_step routing (hy_asset_to_master h)) {| mi_by_hydrator := ∅; mi_pass_indices := ∅ |} events in
  hydrate_from_passes passes ctx claim_mode pass_configs (mi_pass_indices m) ∅ h (index_map_order (mi_by_hydrator m)).

(** ** Routing *)

Inductive RouteError := NoStateDatabase | MembershipLookupFailed (e : StateError).

Definition route_incremental_asset_to_passes (asset : PhotoAsset) (routing : IncrementalPassRouting) : Run St (result RouteError (list nat)) :=
  if negb (has_selected_albums routing) then mret (Ok (unfiled_passes routing))
  else if has_db then
    r ← on_store (so_get_live_selected_album_memberships_for_asset library (asset_record_name asset) (selected_container_ids routing));
    mret (match r with
          | Err e => Err (MembershipLookupFailed e)
          | Ok memberships =>
              let albums := mjoin ((λ m, default [] (album_passes_for_container routing (amr_container_id m))) <$> memberships) in
              let unfiled := if bool_decide (memberships = []) then unfiled_passes routing else [] in
              Ok (order_by Nat.leb (elements (list_to_set (albums ++ unfiled) : gset nat)))
          end)
  else mret (Err NoStateDatabase).

Inductive IncrementalRoutingDecision :=
| RouteSafe
| TargetedAlbumBackfill (pass_indices : list nat) (reason : FullEnumerationReason)
| NeedsFull (reason : FullEnumerationReason).

Definition is_album_pass (p : SyncPass) : bool := bool_decide (pass_kind p = PassAlbum).

Fixpoint backfill_indices (passes : list (nat * SyncPass)) (found : list nat) (s : St) : St * result StateError (list nat) :=
  match passes with
  | [] => (s, Ok found)
  | (index, pass) :: passes =>
      match is_album_pass pass, sp_container_id pass with
      | true, Some container =>
          match so_selected_album_containers_have_complete_snapshots library [container] s with
          | (s, Ok true) => backfill_indices passes found s
          | (s, Ok false) => backfill_indices passes (found ++ [index]) s
          | (s, Err e) => (s, Err e)
          end
      | _, _ => backfill_indices passes found s
      end
  end.

(** [should_record_album_snapshots]: [recent] and a lower date bound forbid it. *)
Definition should_record_album_snapshots (passes : list SyncPass) (dry_run only_print_filenames bounded : bool) : bool :=
  negb dry_run && negb only_print_filenames && has_db && negb bounded
  && existsb (λ p : SyncPass, is_album_pass p && bool_decide (is_Some (sp_container_id p))) passes.

Definition determine_incremental_routing_decision (passes : list SyncPass) (dry_run only_print_filenames bounded : bool) (s : St) :
    St * IncrementalRoutingDecision :=
  if existsb (λ p : SyncPass, is_album_pass p && bool_decide (sp_container_id p = None)) passes
  then (s, NeedsFull AlbumRelationHydrationIncomplete)
  else if negb (has_selected_albums (from_passes passes)) then (s, RouteSafe)
  else if negb has_db then (s, NeedsFull AlbumRelationHydrationIncomplete)
  else
    match backfill_indices (imap pair passes) [] s with
    | (s, Err _) => (s, NeedsFull OtherStaticReason)
    | (s, Ok []) => (s, RouteSafe)
    | (s, Ok indices) =>
        if should_record_album_snapshots passes dry_run only_print_filenames bounded
        then (s, TargetedAlbumBackfill indices AlbumRelationHydrationIncomplete)
        else (s, NeedsFull AlbumRelationHydrationIncomplete)
    end.

Definition split_incremental_and_smart_folder_passes (passes : list SyncPass) : list SyncPass * list SyncPass :=
  (List.filter (λ p : SyncPass, negb (bool_decide (pass_kind p = PassSmartFolder))) passes,
   List.filter (λ p : SyncPass, bool_decide (pass_kind p = PassSmartFolder)) passes).

Definition single_unfiled_streaming_pass (passes : list SyncPass) (recent : option Z) (routing : IncrementalPassRouting) :
    option SyncPass :=
  if bool_decide (is_Some recent) || has_selected_albums routing || negb (Nat.eqb (length (unfiled_passes routing)) 1)
     || negb (Nat.eqb (length passes) 1)
  then None
  else
    match unfiled_passes routing with
    | [] => None
    | index :: _ =>
        match (passes !! index : option SyncPass) with
        | Some pass => if bool_decide (pass_kind pass = PassUnfiled) then Some pass else None
        | None => None
        end
    end.
End Hydrate.
