(* ===== verification/SourceSpec.v ===== *)
(** * No change is lost silently

    The store's calls may fail at any time.  When a run over the events of a
    change stream ends without a reason to block the sync token, it has done
    exactly what it would have done without any failure. *)
From S2P Require Import Prelude RustStr Types StateTypes StateDb StateReads Filter Stats Finalize FinalizeSpec Delta Context Albums Source Hydrate.

(** ** What the store promises *)

Definition unavailable {A} (r : result StateError A) : bool := match r with Err Unavailable => true | _ => false end.

(** [heal s] is the same store with no failure ahead: a call that fails for
    want of the database changes nothing, any other call does the same there. *)
Definition transparent {St A} (heal : St → St) (op : St → St * result StateError A) : Prop :=
  ∀ s s' r, op s = (s', r) → if unavailable r then heal s' = heal s else op (heal s) = (heal s', r).
(** Calls of the provider do not depend on it. *)
Definition steady {St A} (heal : St → St) (op : St → St * A) : Prop :=
  ∀ s s' a, op s = (s', a) → op (heal s) = (heal s', a).

Class FaultLaws (St : Type) `{SourceStore St, LegacyOwnerStore St} := {
  heal : St → St;
  get_master_law l a : transparent heal (so_get_master_record_name_for_asset l a);
  resolve_deleted_law l a t : transparent heal (so_resolve_source_deleted l a t);
  resolve_family_law l a t : transparent heal (so_resolve_master_family_source_deleted l a t);
  hidden_law l a : transparent heal (so_mark_hidden_at_source l a);
  mapping_law l a m : transparent heal (so_upsert_asset_master_mapping l a m);
  refresh_law l a m b b' z : transparent heal (so_refresh_downloaded_asset_metadata l a m b b' z);
  container_law l c n k : transparent heal (so_upsert_album_container l c n k);
  container_deleted_law l c : transparent heal (so_mark_album_container_deleted l c);
  invalidate_law l c : transparent heal (so_invalidate_album_membership_snapshot l c);
  membership_law l c a m src : transparent heal (so_upsert_album_membership_delta l c a m src);
  membership_deleted_law l c a : transparent heal (so_mark_album_membership_deleted l c a);
  live_memberships_law l a cs : transparent heal (so_get_live_selected_album_memberships_for_asset l a cs);
  claim_law l m c : transparent heal (db_claim_legacy_master_state_owner l m c);
  (** On the healed store a claim is always answered. *)
  claim_answered l m c s s' e : db_claim_legacy_master_state_owner l m c (heal s) = (s', Err e) → False;
}.

(** ** Runs that hide nothing *)

Section Upto.
Context {St : Type} `{FaultLaws St}.

Definition clean (r : DeltaRun St) : Prop := ds_token_unsafe_reason (dr_summary r) = None.
Definition heal_run (r : DeltaRun St) : DeltaRun St := {| dr_summary := dr_summary r; dr_store := heal (dr_store r) |}.

(** The start of a clean run, which counted no failure. *)
Definition clean_start (r r' : DeltaRun St) : Prop :=
  clean r ∧ ds_sync_token (dr_summary r') = ds_sync_token (dr_summary r) ∧
  ds_state_transition_failures (dr_summary r') = ds_state_transition_failures (dr_summary r).
(** A run that ends clean was clean all along, and went as it goes on the
    healed store - unless its answer says otherwise. *)
Definition faithful {A} (bad : A → Prop) (m : Run St A) : Prop :=
  ∀ r r' a, m r = (r', a) → clean r' → clean_start r r' ∧ (bad a ∨ m (heal_run r) = (heal_run r', a)).
Definition honest {A} (m : Run St A) : Prop := faithful (λ _, False) m.
Definition said_so {A} (r : result StateError A) : Prop := unavailable r = true.

Lemma faithful_ret {A} (bad : A → Prop) a : faithful bad (mret a).
Proof. intros r r' a' [= <- <-] Hc. split; [by split|by right]. Qed.

Lemma faithful_bind {A B} (badA : A → Prop) (badB : B → Prop) (m : Run St A) (k : A → Run St B) :
  faithful badA m → (∀ a, faithful badB (k a)) →
  (∀ a r r' b, badA a → k a r = (r', b) → clean r' → badB b) → faithful badB (m ≫= k).
Proof.
  intros Hm Hk Hbad r r' b Hr Hc. unfold mbind, Run_bind in *.
  destruct (m r) as [r1 a] eqn:Em. destruct (Hk a _ _ _ Hr Hc) as [(Hc1 & Ht & Hf) Hb].
  destruct (Hm _ _ _ Em Hc1) as [(Hc0 & Ht0 & Hf0) Ha]. split; [split_and!; [done|congruence..]|].
  destruct Hb as [Hb|Hb]; [by left|]. destruct Ha as [Ha|Ha]; [left; by eapply Hbad|]. right. by rewrite Ha.
Qed.

Lemma faithful_seq {A B} (bad : B → Prop) (m : Run St A) (k : A → Run St B) :
  honest m → (∀ a, faithful bad (k a)) → faithful bad (m ≫= k).
Proof. intros Hm Hk. by eapply faithful_bind. Qed.

Lemma faithful_note {A : Type} (bad : unit → Prop) f :
  (∀ s, ds_token_unsafe_reason (f s) = None → ds_token_unsafe_reason s = None ∧ ds_sync_token (f s) = ds_sync_token s ∧
        ds_state_transition_failures (f s) = ds_state_transition_failures s) → faithful bad (note f).
Proof. intros Hf r r' a [= <- <-] Hc. split; [by apply Hf|]. by right. Qed.

Lemma faithful_op {A} (op : St → St * result StateError A) : transparent heal op → faithful said_so (on_store op).
Proof.
  intros Ht r r' a Hr Hc. unfold on_store in *. destruct (op (dr_store r)) as [s x] eqn:E. injection Hr as <- <-.
  split; [by split|]. apply Ht in E. unfold said_so. destruct (unavailable x) eqn:Eu; [by left|]. right.
  cbn. by rewrite E.
Qed.

Lemma honest_op {A} (op : St → St * A) : steady heal op → honest (on_store op).
Proof.
  intros Ht r r' a Hr Hc. unfold on_store in *. destruct (op (dr_store r)) as [s x] eqn:E. injection Hr as <- <-.
  split; [by split|]. right. cbn. by rewrite (Ht _ _ _ E).
Qed.

Lemma faithful_any {A} (bad : A → Prop) (op : St → St * A) : (∀ a, bad a) → faithful bad (on_store op).
Proof.
  intros Hb r r' a Hr Hc. unfold on_store in *. destruct (op (dr_store r)) as [s x]. injection Hr as <- <-.
  split; [by split|by left].
Qed.

(** A flag is never clean. *)
Lemma flag_dirty {A} reason (r r' : DeltaRun St) (a : A) (k : unit → Run St A) :
  (∀ a, faithful (λ _, True) (k a)) → (flag reason ≫= k) r = (r', a) → clean r' → False.
Proof. intros Hk Hr Hc. destruct (Hk _ _ _ _ Hr Hc) as [(Hc1 & _) _]. discriminate Hc1. Qed.

Lemma faithful_dirty {A} (bad : A → Prop) (m : Run St A) : (∀ r r' a, m r = (r', a) → ¬ clean r') → faithful bad m.
Proof. intros Hm r r' a Hr Hc. by destruct (Hm _ _ _ Hr). Qed.
Lemma flag_not_clean reason (r r' : DeltaRun St) a : flag reason r = (r', a) → ¬ clean r'.
Proof. by intros [= <- <-]. Qed.
Lemma transition_failed_not_clean reason (r r' : DeltaRun St) a : transition_failed reason r = (r', a) → ¬ clean r'.
Proof. by intros [= <- <-]. Qed.
Lemma faithful_flag (bad : unit → Prop) reason : faithful bad (flag reason : Run St unit).
Proof. apply faithful_dirty, flag_not_clean. Qed.
Lemma faithful_failed (bad : unit → Prop) reason : faithful bad (transition_failed reason : Run St unit).
Proof. apply faithful_dirty, transition_failed_not_clean. Qed.
Lemma faithful_bump (bad : unit → Prop) c : faithful bad (note (bump c) : Run St unit).
Proof. by apply (faithful_note (A := unit)). Qed.

Lemma faithful_weaken {A} (bad bad' : A → Prop) (m : Run St A) : (∀ a, bad a → bad' a) → faithful bad m → faithful bad' m.
Proof. intros Hb Hm r r' a Hr Hc. destruct (Hm _ _ _ Hr Hc) as [? [?|?]]; auto. Qed.
Lemma honest_faithful {A} (bad : A → Prop) (m : Run St A) : honest m → faithful bad m.
Proof. by apply faithful_weaken. Qed.

(** Asking the store and handling the answer: the handler flags a failure. *)
Lemma faithful_ask {A B} (bad : B → Prop) (m : Run St (result StateError A)) (k : result StateError A → Run St B) :
  faithful said_so m → (∀ a, faithful bad (k a)) → (∀ r r' b, k (Err Unavailable) r = (r', b) → clean r' → bad b) →
  faithful bad (m ≫= k).
Proof.
  intros Hm Hk Hu. eapply faithful_bind; [done..|]. intros a r r' b Ha. unfold said_so, unavailable in Ha.
  repeat case_match; try done. apply Hu.
Qed.

Lemma honest_for_each {A} (l : list A) (f : A → Run St unit) : (∀ a, honest (f a)) → honest (for_each l f).
Proof. intros Hf. induction l as [|a l IH]; cbn [for_each]; [apply faithful_ret|]. by apply faithful_seq. Qed.
End Upto.
#[export] Hint Resolve faithful_ret faithful_flag faithful_failed faithful_bump : source.
#[export] Hint Resolve get_master_law resolve_deleted_law resolve_family_law hidden_law mapping_law refresh_law container_law
  container_deleted_law invalidate_law membership_law membership_deleted_law live_memberships_law claim_law : source.

(** The failed answer leaves a flag. *)
Ltac dirty := let Hr := fresh in let Hc := fresh in
  intros ??? Hr Hc; exfalso; revert Hc;
  first [exact (flag_not_clean _ _ _ _ Hr)|exact (transition_failed_not_clean _ _ _ _ Hr)].

Section Honest.
Context `{FilterEnv} {St : Type} `{FaultLaws St} (library : str) (has_db : bool).

Lemma honest_persist_mapping a m l : honest (persist_asset_master_mapping has_db a m l : Run St unit).
Proof.
  unfold persist_asset_master_mapping. destruct has_db; [|apply faithful_ret].
  eapply faithful_ask; [apply faithful_op; auto with source|intros []; auto with source|dirty].
Qed.
Lemma honest_persist_for_asset a : honest (persist_asset_mapping_for_asset library has_db a : Run St unit).
Proof. apply honest_persist_mapping. Qed.
Lemma honest_persist_event e : honest (persist_asset_mapping library has_db e : Run St unit).
Proof. unfold persist_asset_mapping. destruct (ev_asset e); [apply honest_persist_mapping|apply faithful_ret]. Qed.

Lemma faithful_run_update key u : faithful said_so (run_source_state_update library key u : Run St _).
Proof. destruct u; apply faithful_op; auto with source. Qed.

Lemma faithful_master_key e : faithful said_so (cplasset_master_fallback_state_key library e : Run St _).
Proof.
  unfold cplasset_master_fallback_state_key. destruct (is_cplasset e); [|apply faithful_ret].
  destruct (ev_master_record_name e); [apply faithful_ret|].
  eapply faithful_ask; [apply faithful_op; auto with source|intros; apply faithful_ret|]. by intros r r' b [= <- <-] _.
Qed.

Lemma faithful_update e u : faithful said_so (apply_source_state_update library e u : Run St _).
Proof.
  unfold apply_source_state_update. destruct (unpaired_cplasset_state_key e); [|apply faithful_run_update].
  eapply faithful_ask; [apply faithful_run_update| |by intros r r' b [= <- <-]].
  intros [[]|]; try apply faithful_ret.
  eapply faithful_ask; [apply faithful_master_key| |by intros r r' b [= <- <-]].
  intros [[]|]; [apply faithful_run_update|apply faithful_ret..].
Qed.

Lemma honest_record r t : honest (record_incremental_state_transition_result r t : Run St unit).
Proof. destruct r; [apply faithful_ret|apply faithful_failed]. Qed.

Lemma faithful_hard_key e : faithful said_so (hard_delete_state_transition_key library e : Run St _).
Proof.
  unfold hard_delete_state_transition_key. destruct (negb _); [apply faithful_ret|].
  eapply faithful_ask; [apply faithful_op; auto with source|intros; apply faithful_ret|]. by intros r r' b [= <- <-] _.
Qed.

Lemma honest_hard_resolved e : honest (hard_delete_resolved library e : Run St unit).
Proof.
  unfold hard_delete_resolved. eapply faithful_ask; [apply faithful_hard_key| |dirty].
  intros [key|]; [|apply faithful_failed].
  eapply faithful_ask; [|intros; apply honest_record|dirty].
  destruct (bool_decide _ && _); apply faithful_op; auto with source.
Qed.

Lemma honest_source_event e : honest (apply_source_state_event library has_db e : Run St unit).
Proof.
  unfold apply_source_state_event. destruct (ev_reason e); [apply faithful_ret|..];
    (apply faithful_seq; [apply faithful_bump|intros _]); (destruct has_db; [|apply faithful_ret]).
  - eapply faithful_ask; [apply faithful_update|intros; apply honest_record|dirty].
  - destruct (bool_decide _ && bool_decide _); [|apply honest_hard_resolved].
    eapply faithful_ask; [apply faithful_op; auto with source| |dirty].
    intros [n|]; [|apply honest_record]. destruct (0 <? n); [apply faithful_ret|apply honest_hard_resolved].
  - eapply faithful_ask; [apply faithful_update|intros; apply honest_record|dirty].
Qed.

Lemma honest_album e : honest (apply_incremental_album_delta library has_db e : Run St unit).
Proof.
  unfold apply_incremental_album_delta. destruct (ev_album e); [|apply faithful_ret]. destruct has_db; [|apply faithful_ret].
  eapply faithful_ask; [|intros []; auto with source; apply faithful_flag|dirty].
  destruct (acd_is_deleted a); [|apply faithful_op; auto with source].
  eapply faithful_ask; [apply faithful_op; auto with source| |by intros r r' b [= <- <-]].
  intros []; [apply faithful_op; auto with source|apply faithful_ret].
Qed.

(** *** Relations *)

Lemma honest_relation routing planned a2m ensured e :
  honest (apply_incremental_relation_delta library has_db routing planned a2m ensured e : Run St _).
Proof.
  unfold apply_incremental_relation_delta. destruct (ev_relation e) as [rel|]; [|apply faithful_ret].
  destruct has_db; [|apply faithful_ret]. apply faithful_seq.
  { destruct (negb _ && _); [|apply faithful_ret].
    eapply faithful_ask; [apply faithful_op; auto with source| |].
    - intros []; [apply faithful_ret|]. apply faithful_seq; [apply faithful_flag|intros; apply faithful_ret].
    - intros r r' b. by intros [= <- <-]. }
  intros master. apply faithful_seq.
  { destruct (planned !! _); [|apply faithful_ret]. destruct (bool_decide _); [apply faithful_ret|].
    eapply faithful_ask; [apply faithful_op; auto with source| |].
    - intros []; [apply faithful_ret|]. apply faithful_seq; [apply faithful_flag|intros; apply faithful_ret].
    - intros r r' b. by intros [= <- <-]. }
  intros ensured'. eapply faithful_ask.
  { destruct (ard_is_deleted rel); apply faithful_op; auto with source. }
  - intros known. apply faithful_seq.
    { destruct known as [[]|]; [apply faithful_ret| |apply faithful_flag]. destruct (bool_decide _); [apply faithful_flag|apply faithful_ret]. }
    intros _. apply faithful_seq; [|intros; apply faithful_ret]. destruct (_ && _ && _); [apply faithful_flag|apply faithful_ret].
  - intros r r' b Hr Hc. exfalso. unfold mbind, Run_bind in Hr. cbn [flag note] in Hr.
    destruct (negb _ && _ && _); injection Hr as <- <-; discriminate Hc.
Qed.

Lemma honest_relations routing planned a2m events : ∀ ensured,
  honest (apply_relation_deltas library has_db routing planned a2m ensured events : Run St _).
Proof.
  induction events as [|e events IH]; intros ensured; cbn [apply_relation_deltas]; [apply faithful_ret|].
  apply faithful_seq; [apply honest_relation|done].
Qed.

(** *** Half-seen assets *)

Context (resolve_records : SyncPass → list RecordLookupRequest → St → St * RecordResolutionBatch).
Hypothesis Hresolve : ∀ pass requests, steady heal (resolve_records pass requests).

Lemma honest_scan events : ∀ acc, honest (scan_unpaired library has_db events acc : Run St _).
Proof.
  induction events as [|[i e] events IH]; intros acc; cbn [scan_unpaired]; [apply faithful_ret|].
  destruct (is_unpaired_creation e); [|apply IH].
  assert (Hk : ∀ master : result StateError (option str), honest (match master with
    | Err _ => transition_failed ASSET_DELTA_HYDRATION_INCOMPLETE_REASON ≫= λ _, scan_unpaired library has_db events acc
    | Ok (Some master) => scan_unpaired library has_db events
        {| up_pending := up_pending acc ++ [(i, ev_record_name e, master)]; up_unresolved := up_unresolved acc |}
    | Ok None => scan_unpaired library has_db events
        {| up_pending := up_pending acc; up_unresolved :=
             <[ev_record_name e := default [] (up_unresolved acc !! ev_record_name e) ++ [i]]> (up_unresolved acc) |}
    end : Run St _)).
  { intros [[m|]|]; [apply IH..|]. apply faithful_seq; [apply faithful_failed|intros; apply IH]. }
  destruct (ev_master_record_name e); [apply faithful_seq; [apply faithful_ret|exact Hk]|].
  destruct has_db; [|apply faithful_seq; [apply faithful_ret|exact Hk]].
  eapply faithful_ask; [apply faithful_op; auto with source|exact Hk|].
  intros r r' b Hr Hc. exfalso. unfold mbind, Run_bind in Hr.
  destruct (transition_failed _ r) as [r1 u] eqn:E. destruct (IH _ _ _ _ Hr Hc) as [(Hc1 & _) _].
  by apply transition_failed_not_clean in E.
Qed.

Lemma honest_recover results : ∀ acc, honest (recover_identities library has_db results acc : Run St _).
Proof.
  induction results as [|[name resolution] results IH]; intros acc; cbn [recover_identities]; [apply faithful_ret|].
  destruct (up_unresolved acc !! name); [|apply faithful_seq; [apply faithful_flag|intros; apply IH]].
  destruct resolution as [| | |? []| |]; try (apply faithful_seq; [apply faithful_flag|intros; apply IH]); [|apply IH].
  apply faithful_seq; [apply honest_persist_mapping|intros; apply IH].
Qed.

Lemma honest_resolution master e resolution : honest (apply_resolution library has_db master e resolution : Run St _).
Proof.
  destruct resolution; cbn [apply_resolution]; try (apply faithful_seq; [apply faithful_flag|intros; apply faithful_ret]).
  - destruct (str_eqb _ _).
    + apply faithful_seq; [apply honest_persist_for_asset|intros; apply faithful_ret].
    + apply faithful_seq; [apply faithful_flag|intros; apply faithful_ret].
  - destruct has_db; [|apply faithful_ret]. eapply faithful_ask.
    + destruct master_family; [apply faithful_op; auto with source|apply faithful_update].
    + intros r. apply faithful_seq; [apply honest_record|intros; apply faithful_ret].
    + intros r r' b. by intros [= <- <-].
Qed.

Lemma honest_resolutions by_name results : ∀ events, honest (apply_resolutions library has_db by_name results events : Run St _).
Proof.
  induction results as [|[name resolution] results IH]; intros events; cbn [apply_resolutions]; [apply faithful_ret|].
  destruct (by_name !! name) as [[i m]|]; [|apply faithful_seq; [apply faithful_flag|intros; apply IH]].
  destruct (events !! i); [|apply faithful_seq; [apply faithful_flag|intros; apply IH]].
  apply faithful_seq; [apply honest_resolution|intros; apply IH].
Qed.

Lemma honest_hydrate events pass :
  honest (hydrate_unpaired_created_asset_deltas library has_db resolve_records events pass : Run St _).
Proof.
  unfold hydrate_unpaired_created_asset_deltas. apply faithful_seq; [apply honest_scan|intros found].
  destruct (_ && _); [apply faithful_ret|].
  destruct pass as [pass|]; [|apply faithful_seq; [apply faithful_flag|intros; apply faithful_ret]].
  apply faithful_seq.
  { destruct (bool_decide _); [apply faithful_ret|]. apply faithful_seq; [by apply honest_op|intros batch].
    apply faithful_seq; [apply honest_recover|intros found'].
    apply faithful_seq; [|intros; apply faithful_ret]. destruct (bool_decide _); [apply faithful_ret|apply faithful_flag]. }
  intros pending. destruct (bool_decide _); [apply faithful_ret|].
  apply faithful_seq; [by apply honest_op|intros batch].
  apply faithful_seq; [apply honest_resolutions|intros events'].
  apply faithful_seq; [|intros; apply faithful_ret]. destruct (rb_complete batch); [apply faithful_ret|apply faithful_flag].
Qed.

(** *** Identities and metadata *)

Lemma claim_loop_transparent n l a : transparent heal (claim_loop n l a : St → _).
Proof.
  induction n as [|n IH]; intros s s' r; cbn [claim_loop]; [by intros [= <- <-]|].
  destruct (db_claim_legacy_master_state_owner l (record_name a) (asset_record_name a) s) as [s1 r1] eqn:E.
  pose proof (claim_law _ _ _ _ _ _ E) as Ht. destruct r1 as [[]|e].
  - intros [= <- <-]. cbn in Ht |- *. by rewrite Ht.
  - intros [= <- <-]. cbn in Ht |- *. by rewrite Ht.
  - destruct (unavailable (Err e : result StateError bool)) eqn:Eu.
    2: { by apply claim_answered in Ht. }
    destruct e; try discriminate Eu. cbn in Ht. destruct n as [|n]; [by intros [= <- <-]|].
    intros Hr. apply IH in Hr. destruct (unavailable r); [by rewrite Hr, Ht|].
    cbn [claim_loop]. rewrite <- Ht. cbn [claim_loop] in Hr.
    destruct (db_claim_legacy_master_state_owner l (record_name a) (asset_record_name a) (heal s1)) as [s2 r2] eqn:E2.
    destruct r2 as [[]|e2]; [done..|]. by apply claim_answered in E2.
Qed.

(** The claim through the store handle: a failure is its answer. *)
Lemma faithful_select ctx l a claimed :
  faithful (λ x : gset (str * str) * result StateError str, said_so x.2) (select_for_download has_db ctx l a claimed : Run St _).
Proof.
  intros r r' [claimed' name] Hr Hc. unfold select_for_download, select_asset_state_record_name_for_download in *.
  destruct (select_asset_state_record_name ctx l a claimed) as [claimed1 name1].
  destruct (negb _ || _) eqn:Eb.
  { injection Hr as <- <- <-. split; [by destruct r, has_db|]. right. destruct r as [sm s]; cbn in *. by destruct has_db. }
  destruct has_db; [|injection Hr as <- <- <-; split; [by destruct r|right; by destruct r]].
  destruct (claim_loop _ l a (dr_store r)) as [s1 res] eqn:E. injection Hr as <- <- <-. split; [by split|].
  apply claim_loop_transparent in E. cbn [snd]. unfold said_so. destruct (unavailable res) eqn:Eu; [by left|]. right.
  cbn [heal_run dr_store]. by rewrite E.
Qed.

Lemma honest_identity ctx claimed mode a : honest (select_asset_state_identity library has_db ctx claimed mode a : Run St _).
Proof.
  unfold select_asset_state_identity. eapply (faithful_bind (λ x : gset (str * str) * result StateError str, said_so x.2)).
  - destruct mode; [apply faithful_ret| |apply faithful_select]. destruct (select_asset_state_record_name _ _ _ _). apply faithful_ret.
  - intros [claimed' [name|e]]; [apply faithful_ret|]. apply faithful_seq; [apply faithful_failed|intros; apply faithful_ret].
  - intros [claimed' [name|e]] r r' b Hs; [done|]. by intros [= <- <-].
Qed.

Lemma honest_identities ctx mode configs events : ∀ claimed,
  honest (select_event_identities library has_db ctx mode configs claimed events : Run St _).
Proof.
  induction events as [|e events IH]; intros claimed; cbn [select_event_identities]; [apply faithful_ret|].
  apply faithful_seq.
  { destruct (ev_reason e), (ev_asset e); try apply faithful_ret.
    apply faithful_seq; [apply honest_identity|intros []; apply faithful_ret]. }
  intros [claimed' e']. apply faithful_seq; [apply IH|intros []; apply faithful_ret].
Qed.

Lemma honest_metadata mark ctx a : honest (apply_changed_provider_metadata library has_db mark ctx a : Run St _).
Proof.
  unfold apply_changed_provider_metadata. destruct has_db; [|apply faithful_ret]. destruct (has_provider_metadata_drift _ _ _ _); [|apply faithful_ret].
  eapply faithful_ask; [apply faithful_op; auto with source| |dirty].
  intros [n|]; [|apply faithful_failed]. destruct (0 <? n); [apply faithful_ret|apply faithful_failed].
Qed.

Lemma honest_refresh mark ctx assets : ∀ refreshed, honest (refresh_changed_assets library has_db mark ctx refreshed assets : Run St _).
Proof.
  induction assets as [|a assets IH]; intros refreshed; cbn [refresh_changed_assets]; [apply faithful_ret|].
  destruct (bool_decide _); [apply IH|]. apply faithful_seq; [apply honest_metadata|intros; apply IH].
Qed.

(** *** Members of selected albums *)

Context `{IndexOrder} {LookupError : Type} (hydrate_matching : SyncPass → gset str → St → St * result LookupError (list PhotoAsset)).
Hypothesis Hmatching : ∀ pass names, steady heal (hydrate_matching pass names).

Lemma honest_hydrated ctx mode configs indices hydrated h a :
  honest (hydrated_asset library has_db ctx mode configs indices hydrated h a : Run St _).
Proof.
  unfold hydrated_asset. apply faithful_seq; [apply honest_persist_for_asset|intros _].
  apply faithful_seq; [destruct ctx; [apply honest_identity|apply faithful_ret]|].
  intros [claimed [a'|]]; apply faithful_ret.
Qed.

Lemma honest_hydrated_all ctx mode configs indices assets : ∀ hydrated h,
  honest (hydrated_assets library has_db ctx mode configs indices hydrated h assets : Run St _).
Proof.
  induction assets as [|a assets IH]; intros hydrated h; cbn [hydrated_assets]; [apply faithful_ret|].
  apply faithful_seq; [apply honest_hydrated|intros []; apply IH].
Qed.

Lemma honest_from_passes passes ctx mode configs indices missing : ∀ hydrated h,
  honest (hydrate_from_passes library has_db hydrate_matching passes ctx mode configs indices hydrated h missing : Run St _).
Proof.
  induction missing as [|[i names] missing IH]; intros hydrated h; cbn [hydrate_from_passes]; [apply faithful_ret|].
  destruct (bool_decide _); [apply IH|]. destruct (passes !! i); [|apply IH].
  apply faithful_seq; [by apply honest_op|intros [assets|e]].
  - apply faithful_seq; [apply honest_hydrated_all|intros []; apply IH].
  - apply faithful_seq; [apply faithful_flag|intros; apply IH].
Qed.

Lemma honest_missing events passes routing ctx mode configs h :
  honest (hydrate_missing_selected_relation_assets library has_db hydrate_matching events passes routing ctx mode configs h : Run St _).
Proof. apply honest_from_passes. Qed.

(** *** Routing *)

Lemma faithful_route a routing :
  faithful (λ r, r = Err (MembershipLookupFailed Unavailable)) (route_incremental_asset_to_passes library has_db a routing : Run St _).
Proof.
  unfold route_incremental_asset_to_passes. destruct (negb _); [apply faithful_ret|]. destruct has_db; [|apply faithful_ret].
  eapply faithful_ask; [apply faithful_op; auto with source|intros; apply faithful_ret|]. by intros r r' b [= <- <-].
Qed.
End Honest.
