(* ===== verification/SourceDb.v ===== *)
(** * The change stream on the SQLite store

    The interface of [Source] implemented by the model of the database behind
    transient faults, and what a clean run leaves in it: every row a deletion
    or a hiding names carries the mark. *)
From S2P Require Import Prelude RustStr Types StateTypes StateDb StateDbSpec StateReads Filter Stats Checkpoint Finalize FinalizeSpec Planner Delta Context Albums Source Hydrate SourceSpec.
Import Sql.

(** The asset and album tables are one database; the clock of the store does
    not move while the events are applied. *)
Record SourceDb := {
  sd_db : Db;
  sd_albums : AlbumDb;
  sd_now : Z;
  sd_faults : list bool;
}.
Definition with_tables (d : Db) (a : AlbumDb) (faults : list bool) (s : SourceDb) : SourceDb :=
  {| sd_db := d; sd_albums := a; sd_now := sd_now s; sd_faults := faults |}.

Definition scall {A} (op : Db → AlbumDb → result StateError (Db * AlbumDb * A)) (s : SourceDb) : SourceDb * result StateError A :=
  match sd_faults s with
  | true :: faults => (with_tables (sd_db s) (sd_albums s) faults s, Err Unavailable)
  | faults =>
      match op (sd_db s) (sd_albums s) with
      | Ok (d, a, x) => (with_tables d a (tail faults) s, Ok x)
      | Err e => (with_tables (sd_db s) (sd_albums s) (tail faults) s, Err e)
      end
  end.
Definition on_rows {A} (op : Db → result StateError (Db * A)) (d : Db) (a : AlbumDb) : result StateError (Db * AlbumDb * A) :=
  match op d with Ok (d, x) => Ok (d, a, x) | Err e => Err e end.
Definition on_albums {A} (op : AlbumDb → AlbumDb * A) (d : Db) (a : AlbumDb) : result StateError (Db * AlbumDb * A) :=
  let '(a, x) := op a in Ok (d, a, x).

#[export] Instance SourceDb_source `{StateEnv} : SourceStore SourceDb := {
  so_get_master_record_name_for_asset l a := scall (on_rows (λ d, Ok (d, get_master_record_name_for_asset l a d)));
  so_resolve_source_deleted l a t := scall (on_rows (resolve_source_deleted l a t));
  so_resolve_master_family_source_deleted l a t := scall (on_rows (resolve_master_family_source_deleted l a t));
  so_mark_hidden_at_source l a := scall (on_rows (λ d, Ok (mark_hidden_at_source l a d)));
  so_upsert_asset_master_mapping l a m := scall (on_rows (λ d, Ok (upsert_asset_master_mapping l a m d, tt)));
  so_refresh_downloaded_asset_metadata l a m b b' z s :=
    scall (on_rows (λ d, Ok (refresh_downloaded_asset_metadata (sd_now s) l a m b b' z d))) s;
  so_upsert_album_container l c n k s := scall (on_albums (λ a, (upsert_album_container (sd_now s) l c n k a, tt))) s;
  so_mark_album_container_deleted l c s := scall (on_albums (λ a, (mark_album_container_deleted (sd_now s) l c a, tt))) s;
  so_invalidate_album_membership_snapshot l c s :=
    scall (on_albums (λ a, (invalidate_album_membership_snapshot (sd_now s) l c a, tt))) s;
  so_upsert_album_membership_delta l c a m src s := scall (on_albums (upsert_album_membership_delta (sd_now s) l c a m src)) s;
  so_mark_album_membership_deleted l c a s := scall (on_albums (mark_album_membership_deleted (sd_now s) l c a)) s;
  so_selected_album_containers_have_complete_snapshots l cs :=
    scall (on_albums (λ a, (a, selected_album_containers_have_complete_snapshots l cs a)));
  so_get_live_selected_album_memberships_for_asset l a cs :=
    scall (on_albums (λ d, (d, get_live_selected_album_memberships_for_asset l a cs d)));
}.
#[export] Instance SourceDb_owners : LegacyOwnerStore SourceDb := {
  db_claim_legacy_master_state_owner l m c := scall (on_rows (λ d, Ok (claim_legacy_master_state_owner l m c d)));
}.

#[export] Instance SourceDb_downloads `{StateEnv} : DownloadStateStore SourceDb := {
  db_upsert_asset_master_mapping l a m := scall (on_rows (λ d, Ok (upsert_asset_master_mapping l a m d, tt)));
  db_upsert_seen r s := scall (on_rows (λ d, no_value (upsert_seen (sd_now s) r d))) s;
}.
#[export] Instance SourceDb_finalization `{StateEnv} : DownloadFinalizationStore SourceDb := {
  db_mark_downloaded_with_capture_repair w s :=
    scall (on_rows (λ d, no_value (mark_downloaded_with_capture_repair (sd_now s) (pw_library w) (pw_asset_id w)
      (VersionSizeKey_as_str (pw_version_size w)) (pw_download_path w) (pw_local_checksum w) (pw_download_checksum w)
      (pw_mark_capture_repair w) d))) s;
  db_mark_failed k error := scall (on_rows (λ d, no_value (mark_failed k.1.1 k.1.2 k.2 error d)));
  db_record_metadata_write_failure k s :=
    scall (on_rows (λ d, Ok (record_metadata_write_failure (sd_now s) k.1.1 k.1.2 k.2 d, tt))) s;
}.
#[export] Instance SourceDb_memberships : MembershipStore SourceDb := {
  db_add_asset_album l a name src := scall (on_albums (λ d, (add_asset_album l a name src d, tt)));
}.

Definition no_faults (s : SourceDb) : SourceDb := with_tables (sd_db s) (sd_albums s) [] s.

(** What the operation answers does not depend on the faults. *)
Lemma scall_transparent {A} (op : Z → Db → AlbumDb → result StateError (Db * AlbumDb * A)) :
  (∀ now d a, op now d a ≠ Err Unavailable) → transparent no_faults (λ s, scall (op (sd_now s)) s).
Proof.
  intros Hop s s' r. unfold scall. destruct (sd_faults s) as [|[] faults]; [| by intros [= <- <-]|];
    (destruct (op (sd_now s) (sd_db s) (sd_albums s)) as [[[d a] x]|e] eqn:E; intros [= <- <-];
     cbn [unavailable no_faults with_tables sd_faults sd_db sd_albums sd_now]; [by rewrite E|];
     destruct e; try (by rewrite E); by destruct (Hop (sd_now s) (sd_db s) (sd_albums s))).
Qed.

Lemma on_rows_available {A} (op : Db → result StateError (Db * A)) d a : op d ≠ Err Unavailable → on_rows op d a ≠ Err Unavailable.
Proof. unfold on_rows. destruct (op d) as [[]|]; congruence. Qed.
Lemma on_albums_available {A} (op : AlbumDb → AlbumDb * A) d a : on_albums op d a ≠ Err Unavailable.
Proof. unfold on_albums. by destruct (op a). Qed.
Lemma delete_available operation sel t c d : delete_at_source operation sel t c d ≠ Err Unavailable.
Proof. unfold delete_at_source. by case_match. Qed.

#[export] Program Instance SourceDb_faults `{StateEnv} : FaultLaws SourceDb := { heal := no_faults }.
Next Obligation. intros. apply (scall_transparent (λ _, _)). intros. by apply on_rows_available. Qed.
Next Obligation. intros. apply (scall_transparent (λ _, _)). intros. apply on_rows_available, delete_available. Qed.
Next Obligation. intros. apply (scall_transparent (λ _, _)). intros. apply on_rows_available, delete_available. Qed.
Next Obligation. intros. apply (scall_transparent (λ _, _)). intros. by apply on_rows_available. Qed.
Next Obligation. intros. apply (scall_transparent (λ _, _)). intros. by apply on_rows_available. Qed.
Next Obligation.
  intros ? l a m b b' z. apply (scall_transparent (λ now, on_rows (λ d, Ok (refresh_downloaded_asset_metadata now l a m b b' z d)))).
  intros. by apply on_rows_available.
Qed.
Next Obligation.
  intros ? l c n k. apply (scall_transparent (λ now, on_albums (λ a, (upsert_album_container now l c n k a, tt)))).
  intros. apply on_albums_available.
Qed.
Next Obligation.
  intros ? l c. apply (scall_transparent (λ now, on_albums (λ a, (mark_album_container_deleted now l c a, tt)))).
  intros. apply on_albums_available.
Qed.
Next Obligation.
  intros ? l c. apply (scall_transparent (λ now, on_albums (λ a, (invalidate_album_membership_snapshot now l c a, tt)))).
  intros. apply on_albums_available.
Qed.
Next Obligation.
  intros ? l c a m src. apply (scall_transparent (λ now, on_albums (upsert_album_membership_delta now l c a m src))).
  intros. apply on_albums_available.
Qed.
Next Obligation.
  intros ? l c a. apply (scall_transparent (λ now, on_albums (mark_album_membership_deleted now l c a))).
  intros. apply on_albums_available.
Qed.
Next Obligation.
  intros ? l a cs. apply (scall_transparent (λ _, on_albums (λ d, (d, get_live_selected_album_memberships_for_asset l a cs d)))).
  intros. apply on_albums_available.
Qed.
Next Obligation. intros. apply (scall_transparent (λ _, _)). intros. by apply on_rows_available. Qed.
Next Obligation. intros ? l m c s s' e. cbn. unfold scall. cbn. by repeat case_match. Qed.
