(* ===== verification/OnDisk.v ===== *)
(** * Files that are already there: [src/download/pipeline.rs]

    When a recorded file may stand for a planned download, and when a pending
    row may be marked downloaded from a file found on disk. *)
From S2P Require Import Prelude RustStr Paths Types StateTypes Filter Content Planner Finalize Context.

(** Hashing a file of the run's disk ([compute_sha256]); it may fail. *)
Class FileHashes (St : Type) := {
  so_compute_sha256 : path → St → St * result unit str;
}.

Definition same_path (p q : path) : bool := bool_decide (components p = components q).
Definition same_parent (p q : path) : bool := bool_decide ((components <$> parent p) = (components <$> parent q)).

Definition filenames_match_ampm_equivalent (a b : str) : bool :=
  str_eqb a b || str_eqb (normalize_ampm a) (normalize_ampm b).

Definition path_matches_recorded_file (p recorded : path) : bool :=
  same_path p recorded
  || (same_parent p recorded
      && match file_name p, file_name recorded with
         | Some a, Some b => filenames_match_ampm_equivalent a b
         | _, _ => false
         end).

Definition pending_filename_matches_derived (pending_filename derived_filename : str) : bool :=
  filenames_match_ampm_equivalent pending_filename derived_filename
  || eq_ignore_ascii_case pending_filename derived_filename.

Section OnDisk.
Context `{FilterEnv} `{StateEnv} {St : Type} `{FileHashes St, DownloadStateStore St, DownloadFinalizationStore St}.

Definition effective_asset_library (asset : PhotoAsset) (config : DownloadConfig) : str :=
  default (library config) (source_zone asset).

Definition asset_record_for_derived_path (now : Z) (lib : str) (asset : PhotoAsset) (d : DerivedPath) : AssetRecord :=
  with_metadata_arc
    (new_pending now lib (state_id asset) (dp_version_size d) (dp_checksum d) (dp_filename d) (created asset)
       (Some (added_date asset)) (dp_size d) (determine_media_type (dp_version_size d) asset))
    (asset_metadata asset).

(** ** Sizes *)

(** [local_file_size_matches_state]. *)
Definition size_matches_state (p : path) (actual_size : Z) (expectation : LocalFileSizeExpectation)
    (local_checksum download_checksum : option str) (s : St) : St * result unit bool :=
  if accepts expectation actual_size then (s, Ok true)
  else
    match local_checksum, download_checksum with
    | Some local, Some download =>
        if str_eqb local download then (s, Ok false)
        else
          match so_compute_sha256 p s with
          | (s, Ok actual) => (s, Ok (str_eqb local actual))
          | (s, Err e) => (s, Err e)
          end
    | _, _ => (s, Ok false)
    end.

Definition pending_file_size_allows_adoption (p : path) (actual_size provider_size : Z) (recorded : option RecordedLocalFile)
    (s : St) : St * bool :=
  let recorded := r ← recorded; if path_matches_recorded_file p (rf_path r) then Some r else None in
  let '(s, r) := size_matches_state p actual_size (ExactProvider provider_size)
                   (r ← recorded; rf_local_checksum r) (r ← recorded; rf_download_checksum r) s in
  (s, match r with Ok matches => matches | Err _ => false end).

Definition state_path_size_allows_skip (p : path) (on_disk_size expected_size : Z) (recorded : RecordedLocalFile) (s : St) : St * bool :=
  let '(s, r) := size_matches_state p on_disk_size (AtLeastProvider expected_size)
                   (rf_local_checksum recorded) (rf_download_checksum recorded) s in
  (s, match r with Ok matches => matches | Err _ => false end).

(** ** Adopting a file for a pending row *)

Inductive PendingOnDiskAdoption := Adopted (p : path) | StateWriteFailed (p : path).

Definition mark_pending_downloaded_from_existing_path (lib : str) (asset : PhotoAsset) (version : VersionSizeKey)
    (existing : path) (mark_capture_repair : bool) (s : St) : St * option PendingOnDiskAdoption :=
  match so_compute_sha256 existing s with
  | (s, Err _) => (s, None)
  | (s, Ok local_checksum) =>
      match db_mark_downloaded_with_capture_repair
              {| pw_library := lib; pw_asset_id := state_id asset; pw_version_size := version;
                 pw_download_path := existing; pw_local_checksum := local_checksum; pw_download_checksum := None;
                 pw_mark_capture_repair := mark_capture_repair |} s with
      | (s, Err _) => (s, Some (StateWriteFailed existing))
      | (s, Ok _) => (s, Some (Adopted existing))
      end
  end.

Definition adopt_pending_task_path (now : Z) (mark_capture_repair : bool) (asset : PhotoAsset) (task : DownloadTask)
    (recorded : option RecordedLocalFile) (t : TaskPlanner) (s : St) : TaskPlanner * St * option PendingOnDiskAdoption :=
  let '(t, found) := existing_path_with_size (dt_download_path task) t in
  match found with
  | None => (t, s, None)
  | Some (existing, size) =>
      let '(s, allowed) := pending_file_size_allows_adoption existing size (dt_size task) recorded s in
      if allowed then
        match upsert_seen_for_task now asset task s with
        | (s, Err _) => (t, s, Some (StateWriteFailed existing))
        | (s, Ok _) =>
            let '(s, r) := mark_pending_downloaded_from_existing_path (dt_library task) asset (dt_version_size task) existing
                             mark_capture_repair s in
            (t, s, r)
        end
      else (t, s, None)
  end.

Definition adopt_pending_derived_path_at (now : Z) (mark_capture_repair : bool) (lib : str) (asset : PhotoAsset) (d : DerivedPath)
    (p : path) (recorded : option RecordedLocalFile) (t : TaskPlanner) (s : St) : TaskPlanner * St * option PendingOnDiskAdoption :=
  let '(t, found) := existing_path_with_size p t in
  match found with
  | None => (t, s, None)
  | Some (existing, size) =>
      let '(s, allowed) := pending_file_size_allows_adoption existing size (dp_size d) recorded s in
      if allowed then
        match db_upsert_seen (asset_record_for_derived_path now lib asset d) s with
        | (s, Err _) => (t, s, Some (StateWriteFailed existing))
        | (s, Ok _) =>
            let '(s, r) := mark_pending_downloaded_from_existing_path lib asset (dp_version_size d) existing mark_capture_repair s in
            (t, s, r)
        end
      else (t, s, None)
  end.
Definition adopt_pending_derived_path (now : Z) (mark_capture_repair : bool) (lib : str) (asset : PhotoAsset) (d : DerivedPath)
    (recorded : option RecordedLocalFile) (t : TaskPlanner) (s : St) : TaskPlanner * St * option PendingOnDiskAdoption :=
  adopt_pending_derived_path_at now mark_capture_repair lib asset d (dp_path d) recorded t s.

Definition pending_version (ctx : DownloadContext) (lib : str) (asset : PhotoAsset) (version : VersionSizeKey) : bool :=
  mem3 (cx_pending_ids ctx) lib (state_id asset) (VersionSizeKey_as_str version).
Definition pending_filename_for_asset_version (ctx : DownloadContext) (lib : str) (asset : PhotoAsset) (version : VersionSizeKey) :
    option str := get3 (cx_pending_filenames ctx) lib (state_id asset) (VersionSizeKey_as_str version).

(** Adoption of every pending version whose expected path is on disk; the
    failed state writes. *)
Fixpoint adopt_pending_versions (now : Z) (mark_capture_repair : bool) (ctx : DownloadContext) (lib : str) (asset : PhotoAsset)
    (derived : list DerivedPath) (failures : Z) (t : TaskPlanner) (s : St) : TaskPlanner * St * Z :=
  match derived with
  | [] => (t, s, failures)
  | d :: derived =>
      if pending_version ctx lib asset (dp_version_size d) then
        let '(t, s, r) := adopt_pending_derived_path now mark_capture_repair lib asset d
                            (pending_file_matching_checksum ctx lib (state_id asset) (dp_version_size d) (dp_checksum d)) t s in
        let failures := match r with Some (StateWriteFailed _) => failures + 1 | _ => failures end in
        adopt_pending_versions now mark_capture_repair ctx lib asset derived failures t s
      else adopt_pending_versions now mark_capture_repair ctx lib asset derived failures t s
  end.

Definition adopt_pending_on_disk_skip (now : Z) (has_db mark_capture_repair : bool) (config : DownloadConfig) (asset : PhotoAsset)
    (ctx : DownloadContext) (t : TaskPlanner) (s : St) : TaskPlanner * St * Z :=
  if has_db then
    adopt_pending_versions now mark_capture_repair ctx (effective_asset_library asset config) asset
      (derive_expected_paths asset config) 0 t s
  else (t, s, 0).

(** The first derived path at which the pending version is adopted. *)
Fixpoint adopt_first_derived (now : Z) (mark_capture_repair : bool) (lib : str) (asset : PhotoAsset)
    (recorded : option RecordedLocalFile) (at_ : option path) (derived : list DerivedPath) (t : TaskPlanner) (s : St) :
    TaskPlanner * St * option PendingOnDiskAdoption :=
  match derived with
  | [] => (t, s, None)
  | d :: derived =>
      match adopt_pending_derived_path_at now mark_capture_repair lib asset d (default (dp_path d) at_) recorded t s with
      | (t, s, None) => adopt_first_derived now mark_capture_repair lib asset recorded at_ derived t s
      | found => found
      end
  end.
Fixpoint adopt_first_task (now : Z) (mark_capture_repair : bool) (asset : PhotoAsset) (recorded : option RecordedLocalFile)
    (tasks : list DownloadTask) (t : TaskPlanner) (s : St) : TaskPlanner * St * option PendingOnDiskAdoption :=
  match tasks with
  | [] => (t, s, None)
  | task :: tasks =>
      match adopt_pending_task_path now mark_capture_repair asset task recorded t s with
      | (t, s, None) => adopt_first_task now mark_capture_repair asset recorded tasks t s
      | found => found
      end
  end.

Definition adopt_pending_on_disk_task (now : Z) (has_db mark_capture_repair : bool) (config : DownloadConfig) (asset : PhotoAsset)
    (ctx : DownloadContext) (task : DownloadTask) (t : TaskPlanner) (s : St) : TaskPlanner * St * option PendingOnDiskAdoption :=
  let lib := effective_asset_library asset config in
  if has_db && pending_version ctx lib asset (dt_version_size task) then
    let recorded := pending_file_matching_checksum ctx lib (state_id asset) (dt_version_size task) (dt_checksum task) in
    match adopt_pending_task_path now mark_capture_repair asset task recorded t s with
    | (t, s, None) =>
        let matching d :=
          bool_decide (dp_version_size d = dt_version_size task)
          && match pending_filename_for_asset_version ctx lib asset (dt_version_size task) with
             | Some filename => pending_filename_matches_derived filename (dp_filename d)
             | None => false
             end in
        (* the recorded file is looked up with the checksum of each derived path *)
        (fix go (derived : list DerivedPath) t s :=
           match derived with
           | [] => (t, s, None)
           | d :: derived =>
               match adopt_pending_derived_path now mark_capture_repair lib asset d
                       (pending_file_matching_checksum ctx lib (state_id asset) (dp_version_size d) (dp_checksum d)) t s with
               | (t, s, None) => go derived t s
               | found => found
               end
           end) (List.filter matching (derive_expected_paths asset config)) t s
    | found => found
    end
  else (t, s, None).

(** *** For a pending retry *)

Inductive PendingRetryAdoption := RetryNotFound | RetryAdopted | RetryStateWriteFailed.
Definition of_adoption (a : PendingOnDiskAdoption) : PendingRetryAdoption :=
  match a with Adopted _ => RetryAdopted | StateWriteFailed _ => RetryStateWriteFailed end.

Inductive PendingRetryLocalPath := Unrecorded | Current (f : RecordedLocalFile) | Historical.
Record PendingRetryFileEvidence := {
  pe_version_size : VersionSizeKey;
  pe_filename : str;
  pe_checksum : str;
  pe_local_path : PendingRetryLocalPath;
  pe_size : Z;
}.

Definition task_has_evidence (e : PendingRetryFileEvidence) (task : DownloadTask) : bool :=
  bool_decide (dt_version_size task = pe_version_size e) && str_eqb (dt_checksum task) (pe_checksum e)
  && (dt_size task =? pe_size e).
Definition derived_has_evidence (e : PendingRetryFileEvidence) (d : DerivedPath) : bool :=
  bool_decide (dp_version_size d = pe_version_size e) && str_eqb (dp_checksum d) (pe_checksum e)
  && (dp_size d =? pe_size e) && pending_filename_matches_derived (pe_filename e) (dp_filename d).

Definition set_download_path (p : path) (task : DownloadTask) : DownloadTask := {|
  dt_url := dt_url task; dt_download_path := p; dt_publication := dt_publication task; dt_checksum := dt_checksum task;
  dt_asset_id := dt_asset_id task; dt_asset_record_name := dt_asset_record_name task; dt_library := dt_library task;
  dt_metadata := dt_metadata task; dt_size := dt_size task; dt_created_local := dt_created_local task;
  dt_version_size := dt_version_size task; dt_media_type := dt_media_type task |}.

Definition adopt_pending_on_disk_for_retry (now : Z) (mark_capture_repair : bool) (config : DownloadConfig) (asset : PhotoAsset)
    (planned : list DownloadTask) (e : PendingRetryFileEvidence) (t : TaskPlanner) (s : St) : TaskPlanner * St * PendingRetryAdoption :=
  let lib := effective_asset_library asset config in
  let tasks := List.filter (task_has_evidence e) planned in
  let derived := List.filter (derived_has_evidence e) (derive_expected_paths asset config) in
  let finish r := match r with Some a => of_adoption a | None => RetryNotFound end in
  let search recorded at_ tasks t s :=
    match adopt_first_task now mark_capture_repair asset recorded tasks t s with
    | (t, s, None) =>
        let '(t, s, r) := adopt_first_derived now mark_capture_repair lib asset recorded at_ derived t s in (t, s, finish r)
    | (t, s, r) => (t, s, finish r)
    end in
  match pe_local_path e with
  | Historical => (t, s, RetryNotFound)
  | Current recorded =>
      if match file_name (rf_path recorded) with
         | Some filename => pending_filename_matches_derived (pe_filename e) filename
         | None => false
         end
      then search (Some recorded) (Some (rf_path recorded)) (set_download_path (rf_path recorded) <$> tasks)
             (prepare_path_parent (rf_path recorded) t) s
      else (t, s, RetryNotFound)
  | Unrecorded => search None None tasks t s
  end.

(** ** The recorded file of a downloaded row *)

Definition live_photo_motion_filename_for_primary (primary : str) (config : DownloadConfig) : str :=
  match live_photo_mov_filename_policy config with
  | MovSuffix => live_photo_mov_path_suffix primary
  | MovOriginal => live_photo_mov_path_original primary
  end.

(** [sort] and [dedup] do not change what [any] finds. *)
Definition collision_family_base_filenames (asset_id : str) (d : DerivedPath) (derived : list DerivedPath) (config : DownloadConfig) :
    list str :=
  [dp_filename d; add_dedup_suffix (dp_filename d) (dp_size d); insert_asset_identity_suffix (dp_filename d) asset_id]
  ++ match is_live_photo_motion (dp_version_size d), List.find (λ d, is_primary_media (dp_version_size d)) derived with
     | true, Some primary =>
         (λ name, live_photo_motion_filename_for_primary name config)
           <$> [add_dedup_suffix (dp_filename primary) (dp_size primary); insert_asset_identity_suffix (dp_filename primary) asset_id]
     | _, _ => []
     end.

Definition stored_filename_matches_base_family (stored base asset_id : str) : bool :=
  let base := clean_filename base in
  filenames_match_ampm_equivalent stored base || filename_matches_identity_collision base asset_id stored
  || filename_matches_identity_collision (normalize_ampm base) asset_id (normalize_ampm stored).

Definition stored_path_matches_current_collision_family (asset_id : str) (d : DerivedPath) (derived : list DerivedPath)
    (config : DownloadConfig) (stored : path) : bool :=
  same_parent stored (dp_path d)
  && match file_name stored with
     | Some name => existsb (λ base, stored_filename_matches_base_family name base asset_id)
                      (collision_family_base_filenames asset_id d derived config)
     | None => false
     end.

(** The recorded path is one of the expected paths: the answer, if any. *)
Fixpoint recorded_is_expected (version : VersionSizeKey) (recorded : RecordedLocalFile) (derived : list DerivedPath)
    (t : TaskPlanner) (s : St) : TaskPlanner * St * option (option path) :=
  match derived with
  | [] => (t, s, None)
  | d :: derived =>
      if bool_decide (dp_version_size d = version) then
        match existing_path_with_size (dp_path d) t with
        | (t, Some (existing, size)) =>
            if same_path existing (rf_path recorded) then
              let '(s, allowed) := state_path_size_allows_skip existing size (dp_size d) recorded s in
              (t, s, Some (if allowed then Some existing else None))
            else recorded_is_expected version recorded derived t s
        | (t, None) => recorded_is_expected version recorded derived t s
        end
      else recorded_is_expected version recorded derived t s
  end.

(** The recorded path carries a collision suffix of an expected name. *)
Fixpoint recorded_in_family (config : DownloadConfig) (asset : PhotoAsset) (version : VersionSizeKey) (recorded : RecordedLocalFile)
    (all derived : list DerivedPath) (t : TaskPlanner) (s : St) : TaskPlanner * St * option path :=
  match derived with
  | [] => (t, s, None)
  | d :: derived =>
      if bool_decide (dp_version_size d = version)
         && stored_path_matches_current_collision_family (state_id asset) d all config (rf_path recorded) then
        match existing_path_with_size (rf_path recorded) t with
        | (t, None) => (t, s, None)
        | (t, Some (existing, size)) =>
            let '(s, allowed) := state_path_size_allows_skip existing size (dp_size d) recorded s in
            (t, s, if allowed then Some existing else None)
        end
      else recorded_in_family config asset version recorded all derived t s
  end.

Definition recorded_current_path_exists (config : DownloadConfig) (asset : PhotoAsset) (version : VersionSizeKey)
    (recorded : RecordedLocalFile) (t : TaskPlanner) (s : St) : TaskPlanner * St * option path :=
  let derived := derive_expected_paths asset config in
  match recorded_is_expected version recorded derived t s with
  | (t, s, Some answer) => (t, s, answer)
  | (t, s, None) => recorded_in_family config asset version recorded derived derived t s
  end.

Definition state_confirmed_current_path_exists (ctx : DownloadContext) (config : DownloadConfig) (asset : PhotoAsset)
    (task : DownloadTask) (t : TaskPlanner) (s : St) : TaskPlanner * St * option path :=
  match downloaded_file ctx (dt_library task) (dt_asset_id task) (dt_version_size task) with
  | Some recorded => recorded_current_path_exists config asset (dt_version_size task) recorded t s
  | None => (t, s, None)
  end.
End OnDisk.
