(* ===== verification/UrlRefresh.v ===== *)
(** * Download URLs that expired: [src/download/mod.rs]

    Tasks whose signed URLs are too old, or were answered with 410, are planned
    again from freshly hydrated records; a task is identified by its asset,
    version and destination. *)
From S2P Require Import Prelude RustStr Types Filter Stats Planner Source Hydrate.

Record RetryTaskKey := {
  rk_asset_id : str;
  rk_version_size : VersionSizeKey;
  rk_download_path : list component;
}.
#[export] Instance RetryTaskKey_eq : EqDecision RetryTaskKey.
Proof. solve_decision. Defined.

Record UrlRetrySource := { us_asset_record_name : str; us_pass_index : nat }.

(** A hash map as its insertions, the newest first. *)
Fixpoint assoc {A} (k : RetryTaskKey) (l : list (RetryTaskKey * A)) : option A :=
  match l with [] => None | (k', a) :: l => if decide (k = k') then Some a else assoc k l end.
(** [HashSet::remove]. *)
Definition remove_key (k : RetryTaskKey) (keys : list RetryTaskKey) : list RetryTaskKey := filter (λ k', k' ≠ k) keys.

(** What a download pass reports. *)
Record PassResult `{FilterEnv} := {
  pr_downloaded : Z;
  pr_downloaded_tasks : list DownloadTask;
  pr_exif_failures : Z;
  pr_failed : list DownloadTask;
  pr_auth_errors : Z;
  pr_state_write_failures : Z;
  pr_bytes_downloaded : Z;
  pr_disk_bytes_written : Z;
  pr_rate_limit_observations : Z;
  pr_url_expired_abort : bool;
  pr_photos_downloaded : Z;
  pr_videos_downloaded : Z;
  pr_recap : RunRecap;
}.

Section UrlRefresh.
Context `{FilterEnv, IndexOrder} {St : Type}.
Context (is_cancelled : St → bool).
Context {LookupError : Type} (hydrate_matching_assets_from_changes : SyncPass → gset str → St → St * result LookupError (list PhotoAsset)).

Definition retry_key (t : DownloadTask) : RetryTaskKey :=
  {| rk_asset_id := dt_asset_id t; rk_version_size := dt_version_size t; rk_download_path := components (dt_download_path t) |}.

(** The keys of a list of tasks, as a set. *)
Definition key_set (tasks : list DownloadTask) : list RetryTaskKey := remove_dups (retry_key <$> tasks).

Definition retry_state_ids_by_asset_record (tasks : list DownloadTask) : gmap str str :=
  foldl (λ m t, <[dt_asset_record_name t := dt_asset_id t]> m) ∅ tasks.

Definition retry_hydrator_pass_index (passes : list SyncPass) (indices : gset nat) : option nat :=
  let named := List.filter (λ i, match (passes !! i : option SyncPass) with
                                 | Some p => negb (bool_decide (pass_kind p = PassUnfiled))
                                 | None => false
                                 end) (elements indices) in
  match named with
  | [] => if bool_decide (passes = []) then None else Some 0%nat
  | i :: is_ => Some (foldl Nat.min i is_)
  end.

(** Stops once every key is served. *)
Fixpoint take_matching_retry_tasks (tasks : list DownloadTask) (pending : list RetryTaskKey) (out : list DownloadTask) :
    list RetryTaskKey * list DownloadTask :=
  match tasks with
  | [] => (pending, out)
  | t :: tasks =>
      if bool_decide (retry_key t ∈ pending) then
        let pending := remove_key (retry_key t) pending in
        if bool_decide (pending = []) then (pending, out ++ [t]) else take_matching_retry_tasks tasks pending (out ++ [t])
      else take_matching_retry_tasks tasks pending out
  end.

Record Refresh := {
  rf_pending : list RetryTaskKey;
  rf_tasks : list DownloadTask;
  rf_planner : TaskPlanner;
}.

(** The passes one hydrated asset is planned for; [None] when the planner runs
    out of fuel. *)
Fixpoint refresh_asset (fuel : nat) (pass_configs : list DownloadConfig) (asset : PhotoAsset) (indices : list nat) (s : St)
    (r : Refresh) : option Refresh :=
  match indices with
  | [] => Some r
  | i :: indices =>
      match (pass_configs !! i : option DownloadConfig) with
      | None => refresh_asset fuel pass_configs asset indices s r
      | Some config =>
          '(planner, plan) ← plan_asset fuel asset config (rf_planner r);
          match atp_filter_reason plan with
          | Some _ => refresh_asset fuel pass_configs asset indices s
                        {| rf_pending := rf_pending r; rf_tasks := rf_tasks r; rf_planner := planner |}
          | None =>
              let '(pending, tasks) := take_matching_retry_tasks (atp_tasks plan) (rf_pending r) (rf_tasks r) in
              let r := {| rf_pending := pending; rf_tasks := tasks; rf_planner := planner |} in
              if bool_decide (pending = []) || is_cancelled s then Some r
              else refresh_asset fuel pass_configs asset indices s r
          end
      end
  end.

Fixpoint refresh_assets (fuel : nat) (pass_configs : list DownloadConfig) (state_ids : gmap str str) (assets : list PhotoAsset)
    (by_asset : gmap str (gset nat)) (hydrated : gset str) (s : St) (r : Refresh) :
    option (gmap str (gset nat) * gset str * Refresh) :=
  match assets with
  | [] => Some (by_asset, hydrated, r)
  | a :: assets =>
      let name := asset_record_name a in
      let hydrated := {[name]} ∪ hydrated in
      match by_asset !! name with
      | None => refresh_assets fuel pass_configs state_ids assets by_asset hydrated s r
      | Some indices =>
          let by_asset := delete name by_asset in
          match state_ids !! name with
          | None => refresh_assets fuel pass_configs state_ids assets by_asset hydrated s r
          | Some state_id =>
              r ← refresh_asset fuel pass_configs (set_state_record_name state_id a) (index_set_order indices) s r;
              refresh_assets fuel pass_configs state_ids assets by_asset hydrated s r
          end
      end
  end.

Fixpoint refresh_hydrators (fuel : nat) (passes : list SyncPass) (pass_configs : list DownloadConfig) (state_ids : gmap str str)
    (missing : list (nat * gset str)) (by_asset : gmap str (gset nat)) (hydrated : gset str) (s : St) (r : Refresh) :
    option (St * Refresh) :=
  match missing with
  | [] => Some (s, r)
  | (index, names) :: missing =>
      let names := filter (λ n, n ∉ hydrated) names in
      let next := refresh_hydrators fuel passes pass_configs state_ids missing in
      if bool_decide (names = ∅) || bool_decide (rf_pending r = []) || is_cancelled s then next by_asset hydrated s r
      else
        match (passes !! index : option SyncPass) with
        | None => next by_asset hydrated s r
        | Some pass =>
            match hydrate_matching_assets_from_changes pass names s with
            | (s, Err _) => next by_asset hydrated s r
            | (s, Ok assets) =>
                '(by_asset, hydrated, r) ← refresh_assets fuel pass_configs state_ids assets by_asset hydrated s r;
                next by_asset hydrated s r
            end
        end
  end.

(** The passes each failed task's asset came from. *)
Definition pass_indices_of (sources : list (RetryTaskKey * UrlRetrySource)) (failed : list DownloadTask) : gmap str (gset nat) :=
  foldl (λ m t, match assoc (retry_key t) sources with
                | Some src => <[us_asset_record_name src := {[us_pass_index src]} ∪ default ∅ (m !! us_asset_record_name src)]> m
                | None => m
                end) ∅ failed.

Definition missing_by_hydrator (passes : list SyncPass) (by_asset : gmap str (gset nat)) : gmap nat (gset str) :=
  foldl (λ (m : gmap nat (gset str)) ai, match retry_hydrator_pass_index passes ai.2 with
                 | Some i => <[i := {[ai.1]} ∪ default ∅ (m !! i)]> m
                 | None => m
                 end) ∅ (map_to_list by_asset).

Definition build_incremental_expired_url_retry_tasks (fuel : nat) (passes : list SyncPass) (pass_configs : list DownloadConfig)
    (sources : list (RetryTaskKey * UrlRetrySource)) (failed : list DownloadTask) (s : St) : option (St * list DownloadTask) :=
  match failed with
  | [] => Some (s, [])
  | _ =>
      let by_asset := pass_indices_of sources failed in
      if bool_decide (by_asset = ∅) || is_cancelled s then Some (s, [])
      else
        '(s, r) ← refresh_hydrators fuel passes pass_configs (retry_state_ids_by_asset_record failed)
                    (index_map_order (missing_by_hydrator passes by_asset)) by_asset ∅ s
                    {| rf_pending := key_set failed; rf_tasks := []; rf_planner := TaskPlanner_new |};
        Some (s, rf_tasks r)
  end.

(** The refreshed task of each key replaces the original in its place. *)
Fixpoint replace_refreshed (refreshed : list (RetryTaskKey * DownloadTask)) (tasks : list DownloadTask) : list DownloadTask :=
  match tasks with
  | [] => []
  | t :: tasks =>
      match assoc (retry_key t) refreshed with
      | Some fresh => fresh :: replace_refreshed (filter (λ kt, kt.1 ≠ retry_key t) refreshed) tasks
      | None => t :: replace_refreshed refreshed tasks
      end
  end.

Definition refresh_stale_incremental_tasks_before_download (fuel : nat) (passes : list SyncPass) (pass_configs : list DownloadConfig)
    (sources : list (RetryTaskKey * UrlRetrySource)) (tasks : list DownloadTask) (has_urls : bool) (urls_stale : St → bool) (s : St) :
    option (St * list DownloadTask) :=
  if bool_decide (tasks = []) || is_cancelled s || negb has_urls || negb (urls_stale s) then Some (s, tasks)
  else
    '(s, refreshed) ← build_incremental_expired_url_retry_tasks fuel passes pass_configs sources tasks s;
    match refreshed with
    | [] => Some (s, tasks)
    | _ => Some (s, replace_refreshed (rev ((λ t, (retry_key t, t)) <$> refreshed)) tasks)
    end.

Definition merge_expired_url_retry_result (first : PassResult) (candidates : list DownloadTask) (refreshed : list RetryTaskKey)
    (retry : PassResult) : PassResult :=
  let still_failed := List.filter (λ t, negb (bool_decide (retry_key t ∈ refreshed))) candidates in
  {| pr_downloaded := pr_downloaded first + pr_downloaded retry;
     pr_downloaded_tasks := pr_downloaded_tasks first ++ pr_downloaded_tasks retry;
     pr_exif_failures := pr_exif_failures first + pr_exif_failures retry;
     pr_failed := still_failed ++ pr_failed retry;
     pr_auth_errors := pr_auth_errors first + pr_auth_errors retry;
     pr_state_write_failures := pr_state_write_failures first + pr_state_write_failures retry;
     pr_bytes_downloaded := pr_bytes_downloaded first + pr_bytes_downloaded retry;
     pr_disk_bytes_written := pr_disk_bytes_written first + pr_disk_bytes_written retry;
     pr_rate_limit_observations := pr_rate_limit_observations first + pr_rate_limit_observations retry;
     pr_url_expired_abort := pr_url_expired_abort retry || negb (bool_decide (still_failed = []));
     pr_photos_downloaded := pr_photos_downloaded first + pr_photos_downloaded retry;
     pr_videos_downloaded := pr_videos_downloaded first + pr_videos_downloaded retry;
     pr_recap := RunRecap_merge (pr_recap first) (pr_recap retry) |}.

(** The pass over [tasks], and over the refreshed ones when URLs expired in it
    ([download_photos_incremental_collecting_inner], [run_targeted_recovery_pass]). *)
Definition run_with_url_retry (auth_error_threshold : Z) (run_download_pass : list DownloadTask → St → St * PassResult)
    (fuel : nat) (passes : list SyncPass) (pass_configs : list DownloadConfig)
    (sources : list (RetryTaskKey * UrlRetrySource)) (tasks : list DownloadTask) (s : St) : option (St * PassResult) :=
  let '(s, first) := run_download_pass tasks s in
  if pr_url_expired_abort first && (pr_auth_errors first <? auth_error_threshold) && negb (is_cancelled s) then
    let downloaded := key_set (pr_downloaded_tasks first) in
    let candidates := List.filter (λ t, negb (bool_decide (retry_key t ∈ downloaded))) tasks in
    '(s, retry_tasks) ← build_incremental_expired_url_retry_tasks fuel passes pass_configs sources candidates s;
    match retry_tasks with
    | [] =>
        Some (s, if bool_decide (candidates = []) then first
                 else {| pr_downloaded := pr_downloaded first; pr_downloaded_tasks := pr_downloaded_tasks first;
                         pr_exif_failures := pr_exif_failures first; pr_failed := candidates;
                         pr_auth_errors := pr_auth_errors first; pr_state_write_failures := pr_state_write_failures first;
                         pr_bytes_downloaded := pr_bytes_downloaded first; pr_disk_bytes_written := pr_disk_bytes_written first;
                         pr_rate_limit_observations := pr_rate_limit_observations first;
                         pr_url_expired_abort := pr_url_expired_abort first;
                         pr_photos_downloaded := pr_photos_downloaded first; pr_videos_downloaded := pr_videos_downloaded first;
                         pr_recap := pr_recap first |})
    | _ =>
        let '(s, retry) := run_download_pass retry_tasks s in
        Some (s, merge_expired_url_retry_result first candidates (key_set retry_tasks) retry)
    end
  else Some (s, first).
End UrlRefresh.
