(* ===== verification/Incremental.v ===== *)
(** * An incremental sync: [download_photos_incremental] of [src/download/mod.rs]

    The events of the change stream are collected, applied to the store
    ([Source], [Hydrate]), routed to passes, planned against the recorded state
    and downloaded; the sync token is returned only when nothing was left out.

    Parameters: the provider's answers, the download pass, the metadata rewrite
    and the loading of the context; the shutdown token is a function of the
    store's state.  [None] is a call that does not return. *)
From Stdlib Require Import SpecFloat.
From S2P Require Import Prelude RustStr Types StateTypes StateDb Filter Stats Checkpoint Finalize Planner Context Albums Cycle Source Hydrate OnDisk UrlRefresh.

(** ** Statistics *)

(** What an incremental run fills in; the other fields are the defaults. *)
Record DeltaStats := {
  st_downloaded : Z;
  st_failed : Z;
  st_skipped : SkipBreakdown;
  st_bytes_downloaded : Z;
  st_disk_bytes_written : Z;
  st_exif_failures : Z;
  st_state_write_failures : Z;
  st_enumeration_errors : Z;
  st_revalidate_records : list ProviderRecordId;
  st_elapsed_secs : spec_float;
  st_interrupted : bool;
  st_rate_limited : Z;
  st_photos_downloaded : Z;
  st_videos_downloaded : Z;
  st_recap : RunRecap;
}.
Definition delta_stats (x : DeltaStats) : SyncStats :=
  let d := SyncStats_default in {|
  assets_seen := assets_seen d; api_total_at_start := api_total_at_start d;
  api_total_at_start_partial := api_total_at_start_partial d; downloaded := st_downloaded x; failed := st_failed x;
  skipped := st_skipped x; bytes_downloaded := st_bytes_downloaded x; disk_bytes_written := st_disk_bytes_written x;
  exif_failures := st_exif_failures x; metadata_capture_revision := metadata_capture_revision d;
  metadata_capture_refreshed := metadata_capture_refreshed d; metadata_capture_failures := metadata_capture_failures d;
  metadata_capture_remaining := metadata_capture_remaining d; metadata_capture_progressed := metadata_capture_progressed d;
  state_write_failures := st_state_write_failures x; enumeration_errors := st_enumeration_errors x;
  count_probe_failures := count_probe_failures d; stale_pending_pruned := stale_pending_pruned d;
  pagination_shortfall_warnings := pagination_shortfall_warnings d; pagination_shortfall_assets := pagination_shortfall_assets d;
  tail_probes := tail_probes d; count_undercount_assets := count_undercount_assets d;
  enumeration_incomplete := enumeration_incomplete d; inventory_drop_warnings := inventory_drop_warnings d;
  inventory_drop_assets := inventory_drop_assets d; inventory_drop_percent := inventory_drop_percent d;
  inventory_drop_previous_total := inventory_drop_previous_total d;
  inventory_drop_current_total := inventory_drop_current_total d; inventory_drop_library := inventory_drop_library d;
  sync_token_blocked := sync_token_blocked d; sync_token_blocked_reason := sync_token_blocked_reason d;
  sync_token_blocked_source := sync_token_blocked_source d;
  sync_token_blocked_explanation := sync_token_blocked_explanation d; full_enumeration_reason := full_enumeration_reason d;
  sync_token_blocked_zone := sync_token_blocked_zone d; sync_token_expected_receivers := sync_token_expected_receivers d;
  sync_token_receivers_with_token := sync_token_receivers_with_token d;
  sync_token_receivers_missing := sync_token_receivers_missing d; sync_token_receivers_blank := sync_token_receivers_blank d;
  sync_token_receivers_dropped := sync_token_receivers_dropped d; sync_token_unique_values := sync_token_unique_values d;
  same_cycle_recovery_attempts := same_cycle_recovery_attempts d;
  same_cycle_recovery_successes := same_cycle_recovery_successes d; checkpoint_retry_passes := checkpoint_retry_passes d;
  checkpoint_revalidate_records := st_revalidate_records x; elapsed_secs := st_elapsed_secs x;
  interrupted := st_interrupted x; rate_limited := st_rate_limited x; photos_downloaded := st_photos_downloaded x;
  videos_downloaded := st_videos_downloaded x; recap := st_recap x;
|}.

Definition block_sync_token_for_incremental_delta (s : SyncStats) (reason : str) : SyncStats :=
  let d := diagnostics s in
  let first := match d_sync_token_blocked_reason d with None => true | Some _ => false end in
  with_diagnostics {|
    d_inventory_drop_warnings := d_inventory_drop_warnings d; d_inventory_drop_assets := d_inventory_drop_assets d;
    d_inventory_drop_percent := d_inventory_drop_percent d;
    d_inventory_drop_previous_total := d_inventory_drop_previous_total d;
    d_inventory_drop_current_total := d_inventory_drop_current_total d;
    d_inventory_drop_library := d_inventory_drop_library d;
    d_sync_token_blocked := true;
    d_sync_token_blocked_reason := if first then Some reason else d_sync_token_blocked_reason d;
    d_sync_token_blocked_source := if first then Some (sync_token_blocked_source_of reason) else d_sync_token_blocked_source d;
    d_sync_token_blocked_explanation :=
      if first then Some (sync_token_blocked_explanation_of reason) else d_sync_token_blocked_explanation d;
    d_full_enumeration_reason := d_full_enumeration_reason d;
    d_sync_token_blocked_zone := d_sync_token_blocked_zone d |} s.

(** Blocked for the delta's reason, if it has one. *)
Definition block_for (summary : IncrementalDeltaSummary) (s : SyncStats) : SyncStats :=
  match ds_token_unsafe_reason summary with
  | Some reason => block_sync_token_for_incremental_delta s reason
  | None => s
  end.

Definition skip_by_state (n : Z) (s : SkipBreakdown) : SkipBreakdown := {|
  by_state := saturating_add USIZE_MAX (by_state s) n; on_disk := on_disk s; by_media_type := by_media_type s;
  by_date_range := by_date_range s; by_live_photo := by_live_photo s; by_filename := by_filename s;
  by_excluded_album := by_excluded_album s; ampm_variant := ampm_variant s; duplicates := duplicates s;
  retry_exhausted := retry_exhausted s; retry_only := retry_only s |}.
Definition skip_on_disk (s : SkipBreakdown) : SkipBreakdown := {|
  by_state := by_state s; on_disk := on_disk s + 1; by_media_type := by_media_type s;
  by_date_range := by_date_range s; by_live_photo := by_live_photo s; by_filename := by_filename s;
  by_excluded_album := by_excluded_album s; ampm_variant := ampm_variant s; duplicates := duplicates s;
  retry_exhausted := retry_exhausted s; retry_only := retry_only s |}.

(** ** The change stream as its consumer sees it *)

(** The items the producer task sends, each with the shutdown token's state
    when it is taken, and the token it reports after the last of them. *)
Record ChangeRun (E : Type) := {
  cr_items : list (bool * result E SourceEvent);
  cr_token : option str;
}.
Arguments cr_items {E} _.
Arguments cr_token {E} _.

(** [mpsc::channel(200)] in [changes_stream]. *)
Definition CHANGE_CHANNEL_CAPACITY : nat := 200.

(** The events read, and the items left in the stream when a shutdown ended it. *)
Fixpoint read_events {E} (items : list (bool * result E SourceEvent)) : result E (list SourceEvent * nat) :=
  match items with
  | [] => Ok ([], 0%nat)
  | (true, _) :: items => Ok ([], length items)
  | (false, Err e) :: _ => Err e
  | (false, Ok ev) :: items =>
      match read_events items with
      | Ok (evs, undelivered) => Ok (ev :: evs, undelivered)
      | Err e => Err e
      end
  end.

(** [token_rx.await] with the stream still open: a producer with more items
    than the channel holds waits for ever. *)
Definition await_token {E} (run : ChangeRun E) (undelivered : nat) : option (option str) :=
  if (undelivered <=? CHANGE_CHANNEL_CAPACITY)%nat then Some (cr_token run) else None.

(** What the run reads of its configuration; [rc_any_metadata_write] is
    [MetadataFlags::has_any_write]. *)
Record RunConfig `{FilterEnv} := {
  rc_config : DownloadConfig;
  rc_has_db : bool;
  rc_any_metadata_write : bool;
  rc_recent : option Z;
  rc_run_mode : DownloadRunMode;
}.

Section Incremental.
Context {St : Type} `{SourceStore St, LegacyOwnerStore St, DownloadStateStore St, MembershipStore St, FileHashes St}.
Context `{FilterEnv, StateEnv, IndexOrder} {AnyError : Type}.
Context (rc : RunConfig) (fuel : nat) (is_cancelled : St → bool) (now : St → Z) (elapsed : St → spec_float) (urls_stale : St → bool).
Context (preload_download_context : St → St * DownloadContext).
Context (changes_stream : SyncPass → str → St → St * ChangeRun AnyError).
Context (resolve_records : SyncPass → list RecordLookupRequest → St → St * RecordResolutionBatch).
Context (hydrate_matching_assets_from_changes : SyncPass → gset str → St → St * result AnyError (list PhotoAsset)).
Context (run_download_pass : list DownloadTask → St → St * PassResult).
Context (run_pending_rewrites : St → St * Z).

Abbreviation config := (rc_config rc).
Abbreviation has_db := (rc_has_db rc).
Abbreviation lib := (library (rc_config rc)).

Definition pass_config (pass : SyncPass) : DownloadConfig :=
  {| dc_path := with_pass (dc_path config) pass; asset_groupings := asset_groupings config |}.
Definition build_pass_configs (passes : list SyncPass) : list DownloadConfig := pass_config <$> passes.

(** ** From events to downloadable assets *)

Definition routable (e : SourceEvent) : bool :=
  bool_decide (ev_album e = None) && bool_decide (ev_relation e = None) && bool_decide (ev_token_unsafe_reason e = None).

Definition complete_delta_assets (events : list SourceEvent) : list PhotoAsset :=
  omap (λ e, if bool_decide (ev_reason e = Created) && routable e then ev_asset e else None) events.

Definition planned_album_containers (passes : list SyncPass) : gmap str str :=
  foldl (λ m (p : SyncPass), match is_album_pass p, sp_container_id p with
                             | true, Some c => <[c := pass_album_name p]> m
                             | _, _ => m
                             end) ∅ passes.

(** The last loop over the events. *)
Fixpoint route_events (routing : IncrementalPassRouting) (events : list SourceEvent) (found : list (PhotoAsset * nat)) :
    Run St (list (PhotoAsset * nat)) :=
  match events with
  | [] => mret found
  | e :: events =>
      if routable e then
        match ev_reason e with
        | Created =>
            _ ← note (bump CCreated);
            match ev_asset e with
            | None => route_events routing events found
            | Some asset =>
                r ← route_incremental_asset_to_passes lib has_db asset routing;
                match r with
                | Ok indices => route_events routing events (found ++ ((asset,.) <$> indices))
                | Err _ => _ ← flag ALBUM_RELATION_HYDRATION_INCOMPLETE_REASON; route_events routing events found
                end
            end
        | _ => _ ← apply_source_state_event lib has_db e; route_events routing events found
        end
      else route_events routing events found
  end.

Record Collected := {
  cd_downloadable : list (PhotoAsset * nat);
  cd_context : option DownloadContext;
  cd_hydrated : bool;
}.

Definition collect_delta (passes : list SyncPass) (ctx : option DownloadContext) (events : list SourceEvent) : Run St Collected :=
  let routing := from_passes passes in
  let configs : list PathDerivationConfig := dc_path <$> build_pass_configs passes in
  let claim_mode := if downloads_files (rc_run_mode rc) then Persist else ReadOnly in
  let asset_to_master := foldl (λ m e, remember_asset_mapping e m) ∅ events in
  _ ← for_each events (persist_asset_mapping lib has_db);
  events ← hydrate_unpaired_created_asset_deltas lib has_db resolve_records events (head passes);
  '(claimed, events) ← match ctx with
                       | Some ctx => select_event_identities lib has_db ctx claim_mode configs ∅ events
                       | None => mret (∅, events)
                       end;
  let asset_to_master := foldl (λ m e, remember_asset_mapping e m) asset_to_master events in
  _ ← for_each events (apply_incremental_album_delta lib has_db);
  h ← hydrate_missing_selected_relation_assets lib has_db hydrate_matching_assets_from_changes events passes routing ctx claim_mode
        configs {| hy_asset_to_master := asset_to_master; hy_complete_delta_assets := complete_delta_assets events;
                   hy_downloadable_assets := []; hy_claimed := claimed |};
  ctx ← (if downloads_files (rc_run_mode rc) && negb (bool_decide (hy_complete_delta_assets h = [])) then
           context ← match ctx with Some c => mret c | None => on_store preload_download_context end;
           _ ← refresh_changed_assets lib has_db (rc_any_metadata_write rc) context ∅ (hy_complete_delta_assets h);
           mret (Some context)
         else mret ctx);
  _ ← apply_relation_deltas lib has_db routing (planned_album_containers passes) (hy_asset_to_master h) ∅ events;
  found ← route_events routing events (hy_downloadable_assets h);
  mret {| cd_downloadable := found; cd_context := ctx;
          cd_hydrated := negb (bool_decide (hy_downloadable_assets h = [])) |}.

(** ** Planning *)

Record Planning := {
  pg_tasks : list DownloadTask;
  pg_planner : TaskPlanner;
  pg_skipped : SkipBreakdown;
  pg_enumeration_errors : Z;
  pg_write_failures : Z;
  pg_sources : list (RetryTaskKey * UrlRetrySource);
}.

(** The tasks the recorded state does not settle; how many it does. *)
Fixpoint unsettled_tasks (ctx : DownloadContext) (pconfig : DownloadConfig) (asset : PhotoAsset) (tasks : list DownloadTask)
    (kept : list DownloadTask) (skipped : Z) (t : TaskPlanner) (s : St) : TaskPlanner * St * list DownloadTask * Z :=
  match tasks with
  | [] => (t, s, kept, skipped)
  | task :: tasks =>
      match should_download_fast ctx (dt_library task) (dt_asset_id task) (dt_version_size task) (dt_checksum task) false with
      | Some false => unsettled_tasks ctx pconfig asset tasks kept (skipped + 1) t s
      | Some true => unsettled_tasks ctx pconfig asset tasks (kept ++ [task]) skipped t s
      | None =>
          match state_confirmed_current_path_exists ctx pconfig asset task t s with
          | (t, s, Some _) => unsettled_tasks ctx pconfig asset tasks kept (skipped + 1) t s
          | (t, s, None) => unsettled_tasks ctx pconfig asset tasks (kept ++ [task]) skipped t s
          end
      end
  end.

(** The planned tasks are announced to the store; the failed writes. *)
Fixpoint announce_tasks (asset : PhotoAsset) (tasks : list DownloadTask) (failures : Z) (s : St) : St * Z :=
  match tasks with
  | [] => (s, failures)
  | task :: tasks =>
      match upsert_seen_for_task (now s) asset task s with
      | (s, Ok _) => announce_tasks asset tasks failures s
      | (s, Err _) => announce_tasks asset tasks (saturating_add USIZE_MAX failures 1) s
      end
  end.

Definition announce_asset (pconfig : DownloadConfig) (asset : PhotoAsset) (tasks : list DownloadTask) (failures : Z) (s : St) : St * Z :=
  if has_db then
    let '(s, failures) := announce_tasks asset tasks failures s in
    match record_album_membership_if_named pconfig asset s with
    | (s, Ok _) => (s, failures)
    | (s, Err _) => (s, if bool_decide (is_Some (album_name pconfig)) then saturating_add USIZE_MAX failures 1 else failures)
    end
  else (s, failures).

(** One asset of one pass; [None] when the planner runs out of fuel or the
    pass index is out of range (a panic). *)
Definition plan_downloadable (ctx : DownloadContext) (configs : list DownloadConfig) (asset : PhotoAsset) (index : nat)
    (p : Planning) (s : St) : option (Planning * St) :=
  pconfig ← configs !! index;
  '(t, plan) ← plan_asset fuel asset pconfig (pg_planner p);
  match atp_filter_reason plan, atp_malformed_resource plan with
  | Some reason, _ =>
      Some ({| pg_tasks := pg_tasks p; pg_planner := t; pg_skipped := record_filter_reason (pg_skipped p) reason;
               pg_enumeration_errors := pg_enumeration_errors p; pg_write_failures := pg_write_failures p;
               pg_sources := pg_sources p |}, s)
  | None, Some _ =>
      Some ({| pg_tasks := pg_tasks p; pg_planner := t; pg_skipped := pg_skipped p;
               pg_enumeration_errors := pg_enumeration_errors p + 1; pg_write_failures := pg_write_failures p;
               pg_sources := pg_sources p |}, s)
  | None, None =>
      let '(t, s, tasks, skipped) := unsettled_tasks ctx pconfig asset (atp_tasks plan) [] 0 t s in
      let sources := foldl (λ l task, (retry_key task, {| us_asset_record_name := asset_record_name asset; us_pass_index := index |}) :: l)
                       (pg_sources p) tasks in
      let '(s, failures) := announce_asset pconfig asset tasks (pg_write_failures p) s in
      let breakdown := skip_by_state skipped (pg_skipped p) in
      Some ({| pg_tasks := pg_tasks p ++ tasks; pg_planner := t;
               pg_skipped := if bool_decide (tasks = []) && (skipped =? 0) then skip_on_disk breakdown else breakdown;
               pg_enumeration_errors := pg_enumeration_errors p; pg_write_failures := failures; pg_sources := sources |}, s)
  end.

Fixpoint plan_downloadables (ctx : DownloadContext) (configs : list DownloadConfig) (assets : list (PhotoAsset * nat)) (p : Planning)
    (s : St) : option (Planning * St) :=
  match assets with
  | [] => Some (p, s)
  | (a, i) :: assets => '(p, s) ← plan_downloadable ctx configs a i p s; plan_downloadables ctx configs assets p s
  end.

Definition truncate_recent {A} (recent : option Z) (l : list A) : list A :=
  match recent with Some n => take (Z.to_nat n) l | None => l end.

(** ** The outcome *)

Definition outcome_of (failures : Z) : DownloadOutcome := if 0 <? failures then PartialFailure failures else Success.
Definition sync_result (outcome : DownloadOutcome) (token : option str) (st : SyncStats) : SyncResult :=
  {| outcome := outcome; sync_token := token; stats := st; full_enumeration_ran := false |}.
Definition unblocked (st : SyncStats) (token : option str) : option str := if sync_token_blocked st then None else token.

Definition run_collecting_metadata_rewrite_batch (s : St) : St * Z :=
  if downloads_files (rc_run_mode rc) && has_db && rc_any_metadata_write rc then run_pending_rewrites s else (s, 0).

Definition plain_stats (skipped : SkipBreakdown) (enumeration_errors state_failures rewrite_failures : Z) (interrupted : bool) (s : St) :
    SyncStats :=
  delta_stats {| st_downloaded := 0; st_failed := 0; st_skipped := skipped; st_bytes_downloaded := 0; st_disk_bytes_written := 0;
                 st_exif_failures := rewrite_failures; st_state_write_failures := state_failures;
                 st_enumeration_errors := enumeration_errors; st_revalidate_records := []; st_elapsed_secs := elapsed s;
                 st_interrupted := interrupted; st_rate_limited := 0; st_photos_downloaded := 0; st_videos_downloaded := 0;
                 st_recap := RunRecap_default |}.

(** No asset to download. *)
Definition finish_nothing (summary : IncrementalDeltaSummary) (s : St) : St * SyncResult :=
  let '(s, rewrite_failures) := run_collecting_metadata_rewrite_batch s in
  let failures := ds_state_transition_failures summary in
  let st := block_for summary (plain_stats SkipBreakdown_default 0 failures rewrite_failures (is_cancelled s) s) in
  (s, sync_result (if (0 <? failures) || (0 <? rewrite_failures) then PartialFailure (saturating_add USIZE_MAX failures rewrite_failures)
                   else Success)
        (if only_print_filenames (rc_run_mode rc) then None else unblocked st (ds_sync_token summary)) st).

(** Every asset is there already, or filtered. *)
Definition finish_no_tasks (summary : IncrementalDeltaSummary) (p : Planning) (s : St) : St * SyncResult :=
  let '(s, rewrite_failures) := run_collecting_metadata_rewrite_batch s in
  let add := saturating_add USIZE_MAX in
  let errors := pg_enumeration_errors p in
  let st := block_for summary (plain_stats (pg_skipped p) errors
              (add (ds_state_transition_failures summary) (pg_write_failures p)) rewrite_failures (is_cancelled s) s) in
  (s, sync_result (outcome_of (add (add (add errors (ds_state_transition_failures summary)) (pg_write_failures p)) rewrite_failures))
        (if only_print_filenames (rc_run_mode rc) then None
         else if errors =? 0 then unblocked st (ds_sync_token summary) else None) st).

(** [--only-print-filenames]. *)
Definition finish_print (summary : IncrementalDeltaSummary) (p : Planning) (s : St) : St * SyncResult :=
  let errors := pg_enumeration_errors p in
  let failures := ds_state_transition_failures summary in
  let st := block_for summary (plain_stats (pg_skipped p) errors
              (saturating_add USIZE_MAX failures (pg_write_failures p)) 0 false s) in
  (s, sync_result (if (0 <? errors) || (0 <? failures) then PartialFailure (errors + failures) else Success) None st).

Definition finish_downloads (summary : IncrementalDeltaSummary) (p : Planning) (result : PassResult) (s : St) : St * SyncResult :=
  let '(s, rewrite_failures) := run_collecting_metadata_rewrite_batch s in
  let add := saturating_add USIZE_MAX in
  let exif := add (pr_exif_failures result) rewrite_failures in
  let failed := Z.of_nat (length (pr_failed result)) in
  let errors := pg_enumeration_errors p in
  let transitions := ds_state_transition_failures summary in
  let expired := AUTH_ERROR_THRESHOLD <=? pr_auth_errors result in
  let st := block_for summary (delta_stats {|
    st_downloaded := pr_downloaded result; st_failed := failed; st_skipped := pg_skipped p;
    st_bytes_downloaded := pr_bytes_downloaded result; st_disk_bytes_written := pr_disk_bytes_written result;
    st_exif_failures := exif; st_state_write_failures := add (add (pr_state_write_failures result) transitions) (pg_write_failures p);
    st_enumeration_errors := errors; st_revalidate_records := []; st_elapsed_secs := elapsed s;
    st_interrupted := is_cancelled s || expired; st_rate_limited := pr_rate_limit_observations result;
    st_photos_downloaded := pr_photos_downloaded result; st_videos_downloaded := pr_videos_downloaded result;
    st_recap := pr_recap result |}) in
  if expired then (s, sync_result (SessionExpired (pr_auth_errors result)) (unblocked st (ds_sync_token summary)) st)
  else
    (s, sync_result (outcome_of (failed + exif + pr_state_write_failures result + transitions + pg_write_failures p + errors))
          (if errors =? 0 then unblocked st (ds_sync_token summary) else None) st).

(** ** The collecting path *)

(** The events and the token, observed into the summary; whether one of them
    carries an asset. *)
Definition observe_all_events (events : list SourceEvent) : IncrementalDeltaSummary :=
  foldl (λ s e, observe_event e s) IncrementalDeltaSummary_default events.
Definition has_created (events : list SourceEvent) : bool := existsb (λ e, bool_decide (ev_reason e = Created)) events.
Definition has_asset (events : list SourceEvent) : bool := existsb (λ e, bool_decide (is_Some (ev_asset e))) events.

Definition read_delta (passes : list SyncPass) (zone_sync_token : str) (s : St) :
    option (St * result AnyError (list SourceEvent * IncrementalDeltaSummary)) :=
  match passes with
  | [] => Some (s, Ok ([], IncrementalDeltaSummary_default))
  | pass :: _ =>
      let '(s, run) := changes_stream pass zone_sync_token s in
      match read_events (cr_items run) with
      | Err e => Some (s, Err e)
      | Ok (events, undelivered) =>
          token ← await_token run undelivered;
          Some (s, Ok (events, set_token token (observe_all_events events)))
      end
  end.

Definition process_delta (passes : list SyncPass) (events : list SourceEvent) (summary : IncrementalDeltaSummary) (s : St) :
    option (St * SyncResult) :=
  let '(s, ctx) := if has_created events then let '(s, c) := preload_download_context s in (s, Some c) else (s, None) in
  let '(r, collected) := collect_delta passes ctx events {| dr_summary := summary; dr_store := s |} in
  let s := dr_store r in
  let summary := dr_summary r in
  if bool_decide (cd_downloadable collected = []) then Some (finish_nothing summary s)
  else
    let '(s, ctx) := match cd_context collected with Some c => (s, c) | None => preload_download_context s end in
    let configs := build_pass_configs passes in
    '(p, s) ← plan_downloadables ctx configs (truncate_recent (rc_recent rc) (cd_downloadable collected))
                {| pg_tasks := []; pg_planner := TaskPlanner_new; pg_skipped := SkipBreakdown_default;
                   pg_enumeration_errors := 0; pg_write_failures := 0; pg_sources := [] |} s;
    if bool_decide (pg_tasks p = []) then Some (finish_no_tasks summary p s)
    else if only_print_filenames (rc_run_mode rc) then Some (finish_print summary p s)
    else
      '(s, tasks) ← (if downloads_files (rc_run_mode rc)
                     then refresh_stale_incremental_tasks_before_download is_cancelled hydrate_matching_assets_from_changes fuel passes
                            configs (pg_sources p) (pg_tasks p) (has_asset events || cd_hydrated collected) urls_stale s
                     else Some (s, pg_tasks p));
      '(s, result) ← run_with_url_retry is_cancelled hydrate_matching_assets_from_changes AUTH_ERROR_THRESHOLD run_download_pass fuel
                       passes configs (pg_sources p) tasks s;
      Some (finish_downloads summary p result s).

Definition download_photos_incremental_collecting (passes : list SyncPass) (zone_sync_token : str) (s : St) :
    option (St * result AnyError SyncResult) :=
  '(s, read) ← read_delta passes zone_sync_token s;
  match read with
  | Err e => Some (s, Err e)
  | Ok (events, summary) =>
      '(s, r) ← process_delta passes events summary s;
      Some (s, Ok r)
  end.
End Incremental.
