(* ===== verification/IncrementalSpec.v ===== *)
(** * What an incremental sync promises

    A token an incremental run returns stands for a change stream that was read
    to its end, applied to the store without a lost write, and planned without
    an unreadable asset. *)
From Stdlib Require Import SpecFloat.
From S2P Require Import Prelude RustStr Types StateTypes StateDb StateReads Filter Stats Checkpoint Finalize FilterSpec FinalizeSpec Planner Collision StateDbSpec StateLaws StateLife Delta Context ContextSpec Albums Cycle Source Hydrate SourceSpec SourceDb OnDisk UrlRefresh Incremental.

Section Token.
Context {St : Type} `{FaultLaws St, DownloadStateStore St, MembershipStore St, FileHashes St}.
Context `{FilterEnv, StateEnv, IndexOrder} {AnyError : Type}.
Context (rc : RunConfig) (fuel : nat) (is_cancelled : St → bool) (now : St → Z) (elapsed : St → spec_float) (urls_stale : St → bool).
Context (preload : St → St * DownloadContext).
Context (changes_stream : SyncPass → str → St → St * ChangeRun AnyError).
Context (resolve_records : SyncPass → list RecordLookupRequest → St → St * RecordResolutionBatch).
Context (hydrate_matching : SyncPass → gset str → St → St * result AnyError (list PhotoAsset)).
Context (run_download_pass : list DownloadTask → St → St * PassResult).
Context (run_pending_rewrites : St → St * Z).
Hypothesis Hresolve : ∀ pass requests, steady heal (resolve_records pass requests).
Hypothesis Hmatching : ∀ pass names, steady heal (hydrate_matching pass names).

(** ** Collecting *)

Lemma honest_route_events routing events : ∀ found,
  honest (route_events rc routing events found : Run St _).
Proof.
  induction events as [|e events IH]; intros found; cbn [route_events]; [apply faithful_ret|].
  destruct (routable e); [|apply IH].
  destruct (ev_reason e); try (apply faithful_seq; [apply honest_source_event|intros; apply IH]).
  apply faithful_seq; [apply faithful_bump|intros _]. destruct (ev_asset e); [|apply IH].
  eapply faithful_bind; [apply faithful_route| |].
  - intros [|]; [apply IH|]. apply faithful_seq; [apply faithful_flag|intros; apply IH].
  - intros a r r' b -> Hr Hc. unfold mbind, Run_bind in Hr. cbn [flag note] in Hr.
    destruct (IH _ _ _ _ Hr Hc) as [(Hc' & _) _]. discriminate Hc'.
Qed.

(** The context is loaded in passing only when the delta created no asset
    but completed one; [P]: its loading may hide a failure. *)
Lemma faithful_collect (P : Prop) passes ctx events : (ctx = None → P ∨ steady heal preload) →
  faithful (λ _, P) (collect_delta rc preload resolve_records hydrate_matching passes ctx events : Run St _).
Proof.
  intros Hctx. unfold collect_delta.
  apply faithful_seq; [apply honest_for_each, honest_persist_event|intros _].
  apply faithful_seq; [by apply honest_hydrate|intros events'].
  apply faithful_seq; [destruct ctx; [apply honest_identities|apply faithful_ret]|intros [claimed events'']].
  apply faithful_seq; [apply honest_for_each, honest_album|intros _].
  apply faithful_seq; [by apply honest_missing|intros h].
  eapply (faithful_bind (λ _, P)); [| |done].
  { destruct (_ && _); [|apply faithful_ret].
    eapply (faithful_bind (λ _, P)); [| |done].
    - destruct ctx; [apply faithful_ret|]. destruct (Hctx eq_refl); [by apply faithful_any|apply honest_faithful; by apply honest_op].
    - intros c. apply faithful_seq; [apply honest_refresh|intros; apply faithful_ret]. }
  intros ctx'. apply faithful_seq; [apply honest_relations|intros _].
  apply faithful_seq; [apply honest_route_events|intros; apply faithful_ret].
Qed.

(** ** Reading *)

Lemma read_events_complete (items : list (bool * result AnyError SourceEvent)) events undelivered :
  read_events items = Ok (events, undelivered) → existsb fst items = false → items = (λ e, (false, Ok e)) <$> events.
Proof.
  revert events undelivered. induction items as [|[[] [e|e]] items IH]; intros events n; cbn [read_events existsb fst orb]; try done.
  - by intros [= <- <-].
  - destruct (read_events items) as [[evs k]|] eqn:E; [|done]. intros [= <- <-] Hf.
    rewrite fmap_cons. cbn. f_equal. by eapply IH.
Qed.

Lemma observe_event_clean e x : ds_token_unsafe_reason (observe_event e x) = None →
  ds_token_unsafe_reason x = None ∧ ev_token_unsafe_reason e = None.
Proof. unfold observe_event. by destruct (ev_token_unsafe_reason e). Qed.

Lemma observe_all_clean events : ds_token_unsafe_reason (observe_all_events events) = None →
  Forall (λ e, ev_token_unsafe_reason e = None) events.
Proof.
  unfold observe_all_events. generalize IncrementalDeltaSummary_default.
  induction events as [|e events IH]; intros x Hx; [constructor|]. cbn in Hx.
  enough (Hc : ds_token_unsafe_reason (observe_event e x) = None).
  { destruct (observe_event_clean _ _ Hc). constructor; [done|by eapply IH]. }
  revert Hx. generalize (observe_event e x). clear. induction events as [|e events IH]; intros x; cbn; [done|].
  intros Hx. by apply IH, observe_event_clean in Hx as [].
Qed.

Lemma observe_all_failures events : ds_state_transition_failures (observe_all_events events) = 0.
Proof.
  unfold observe_all_events. change 0 with (ds_state_transition_failures IncrementalDeltaSummary_default).
  generalize IncrementalDeltaSummary_default. induction events as [|e events IH]; intros x; cbn; [done|].
  rewrite IH. unfold observe_event. by destruct (ev_token_unsafe_reason e).
Qed.

(** ** Finishing *)

Abbreviation advances r t := (∃ dry stale basis basis', source_checkpoint_decision r dry stale basis = Advance t basis').

(** What a result that lets the source advance says. *)
Lemma advance_facts r t : advances r t →
  interrupted (stats r) = false ∧ ¬ 0 < enumeration_errors (stats r) ∧ ¬ 0 < state_write_failures (stats r) ∧
  sync_token r = Some t ∧ sync_token_blocked (stats r) = false.
Proof.
  intros (dry & stale & basis & basis' & Hd). revert Hd. unfold source_checkpoint_decision.
  destruct dry, stale; try done. destruct (outcome r); try done;
    (destruct (interrupted _); [done|]; destruct (Z.ltb_spec 0 (enumeration_errors (stats r))); [done|];
     destruct (enumeration_incomplete _); [done|]; destruct (Z.ltb_spec 0 (state_write_failures (stats r))); [done|];
     destruct (sync_token r) as [t'|]; [|done]; destruct (is_blank t'); [done|];
     destruct (sync_token_blocked (stats r)) eqn:?; [done|]; intros [= <- <-]; split_and!; auto; lia).
Qed.

Lemma block_for_blocked summary st : sync_token_blocked (block_for summary st) = false → ds_token_unsafe_reason summary = None.
Proof. unfold block_for. by destruct (ds_token_unsafe_reason summary). Qed.
Lemma block_for_clean summary st : ds_token_unsafe_reason summary = None → block_for summary st = st.
Proof. unfold block_for. by intros ->. Qed.

Lemma sync_fields o token st : stats (sync_result o token st) = st ∧ sync_token (sync_result o token st) = token.
Proof. done. Qed.
Lemma unblocked_token st token t : unblocked st token = Some t → token = Some t.
Proof. unfold unblocked. by destruct (sync_token_blocked st). Qed.

Lemma finish_nothing_facts summary s s' r t : finish_nothing rc is_cancelled elapsed run_pending_rewrites summary s = (s', r) → advances r t →
  is_cancelled s' = false ∧ ds_token_unsafe_reason summary = None ∧ ds_sync_token summary = Some t.
Proof.
  unfold finish_nothing. destruct (run_collecting_metadata_rewrite_batch _ _ s) as [s1 rw]. intros [= <- <-] Ha%advance_facts.
  cbn [stats sync_token sync_result] in Ha. destruct Ha as (Hi & _ & _ & Ht & Hb). pose proof (block_for_blocked _ _ Hb) as Hc.
  rewrite (block_for_clean _ _ Hc) in Hi. split_and!; [exact Hi|done|].
  destruct (only_print_filenames _); [done|]. by eapply unblocked_token.
Qed.

(** The planning left nothing out. *)
Definition planned_all (p : Planning) : Prop := pg_enumeration_errors p = 0 ∧ pg_write_failures p = 0.

Lemma saturating_zero n m : 0 ≤ n → 0 ≤ m → ¬ 0 < saturating_add USIZE_MAX n m → n = 0 ∧ m = 0.
Proof. unfold saturating_add, USIZE_MAX, U64_MAX. lia. Qed.
Lemma saturating_nonneg n m : 0 ≤ n → 0 ≤ m → 0 ≤ saturating_add USIZE_MAX n m.
Proof. unfold saturating_add, USIZE_MAX, U64_MAX. lia. Qed.

Lemma finish_no_tasks_facts summary p s s' r t : finish_no_tasks rc is_cancelled elapsed run_pending_rewrites summary p s = (s', r) → advances r t →
  0 ≤ pg_enumeration_errors p → 0 ≤ pg_write_failures p → (ds_token_unsafe_reason summary = None → 0 ≤ ds_state_transition_failures summary) →
  is_cancelled s' = false ∧ ds_token_unsafe_reason summary = None ∧ ds_sync_token summary = Some t ∧ planned_all p.
Proof.
  unfold finish_no_tasks. destruct (run_collecting_metadata_rewrite_batch _ _ s) as [s1 rw]. intros [= <- <-] Ha%advance_facts He Hw Hf.
  cbn [stats sync_token sync_result] in Ha. destruct Ha as (Hi & Hee & Hwf & Ht & Hb). pose proof (block_for_blocked _ _ Hb) as Hc.
  rewrite (block_for_clean _ _ Hc) in *. cbn in Hi, Hee, Hwf. specialize (Hf Hc). apply saturating_zero in Hwf as [_ Hwf]; [|done..].
  destruct (only_print_filenames _); [done|]. replace (pg_enumeration_errors p) with 0 in Ht by lia. apply unblocked_token in Ht.
  split_and!; [done..|]. split; [lia|done].
Qed.

Lemma finish_print_facts summary p s s' r t : finish_print elapsed summary p s = (s', r) → ¬ advances r t.
Proof. intros [= <- <-] Ha%advance_facts. by destruct Ha as (_ & _ & _ & ? & _). Qed.

Lemma finish_downloads_facts summary p result s s' r t :
  finish_downloads rc is_cancelled elapsed run_pending_rewrites summary p result s = (s', r) → advances r t →
  0 ≤ pg_enumeration_errors p → 0 ≤ pg_write_failures p → (ds_token_unsafe_reason summary = None → 0 ≤ ds_state_transition_failures summary) → 0 ≤ pr_state_write_failures result →
  is_cancelled s' = false ∧ ds_token_unsafe_reason summary = None ∧ ds_sync_token summary = Some t ∧ planned_all p.
Proof.
  unfold finish_downloads. destruct (run_collecting_metadata_rewrite_batch _ _ s) as [s1 rw].
  intros Hr Ha He Hw Hf Hp. destruct (Z.leb_spec AUTH_ERROR_THRESHOLD (pr_auth_errors result)).
  { injection Hr as <- <-. destruct Ha as (? & ? & ? & ? & Ha). unfold source_checkpoint_decision in Ha. cbn in Ha. by repeat case_match. }
  injection Hr as <- <-. apply advance_facts in Ha.
  cbn [stats sync_token sync_result] in Ha. destruct Ha as (Hi & Hee & Hwf & Ht & Hb). pose proof (block_for_blocked _ _ Hb) as Hc.
  rewrite (block_for_clean _ _ Hc) in *. cbn in Hi, Hee, Hwf. specialize (Hf Hc). apply saturating_zero in Hwf as [_ Hwf]; [|by apply saturating_nonneg|done].
  rewrite orb_false_r in Hi. replace (pg_enumeration_errors p) with 0 in Ht by lia. apply unblocked_token in Ht.
  split_and!; [done..|]. split; [lia|done].
Qed.

(** ** Planning *)

Lemma announce_tasks_nonneg a tasks : ∀ n (s s' : St) n', announce_tasks now a tasks n s = (s', n') → 0 ≤ n → 0 ≤ n'.
Proof.
  induction tasks as [|t tasks IH]; intros n s s' n'; cbn [announce_tasks]; [by intros [= <- <-]|].
  destruct (upsert_seen_for_task (now s) a t s) as [s1 []]; intros Hr Hn; eapply IH; eauto. by apply saturating_nonneg.
Qed.
Lemma announce_asset_nonneg c a tasks n (s s' : St) n' : announce_asset rc now c a tasks n s = (s', n') → 0 ≤ n → 0 ≤ n'.
Proof.
  unfold announce_asset. destruct (rc_has_db rc); [|by intros [= <- <-]].
  destruct (announce_tasks now a tasks n s) as [s1 n1] eqn:E. intros Hr Hn. pose proof (announce_tasks_nonneg _ _ _ _ _ _ E Hn) as Hn1.
  destruct (record_album_membership_if_named c a s1) as [s2 []]; injection Hr as <- <-; [done|].
  case_bool_decide; [by apply saturating_nonneg|done].
Qed.

Definition counts_ok (p : Planning) : Prop := 0 ≤ pg_enumeration_errors p ∧ 0 ≤ pg_write_failures p.
Lemma plan_downloadable_counts ctx configs a i p (s : St) p' s' :
  plan_downloadable rc fuel now ctx configs a i p s = Some (p', s') → counts_ok p → counts_ok p'.
Proof.
  unfold plan_downloadable, counts_ok. intros Hp [He Hw].
  destruct (configs !! i) as [c|]; [|done]. cbn [mbind option_bind] in Hp.
  destruct (plan_asset fuel a c (pg_planner p)) as [[t plan]|]; [|done]. cbn [mbind option_bind] in Hp.
  destruct (atp_filter_reason plan); [by injection Hp as <- <-|]. destruct (atp_malformed_resource plan).
  { injection Hp as <- <-. cbn. lia. }
  destruct (unsettled_tasks ctx c a (atp_tasks plan) [] 0 t s) as [[[t' s1] tasks] n].
  destruct (announce_asset rc now c a tasks (pg_write_failures p) s1) as [s2 n2] eqn:E. injection Hp as <- <-. cbn.
  split; [done|]. by eapply announce_asset_nonneg.
Qed.
Lemma plan_downloadables_counts ctx configs assets : ∀ p (s : St) p' s',
  plan_downloadables rc fuel now ctx configs assets p s = Some (p', s') → counts_ok p → counts_ok p'.
Proof.
  induction assets as [|[a i] assets IH]; intros p s p' s'; cbn [plan_downloadables]; [by intros [= <- <-]|].
  destruct (plan_downloadable rc fuel now ctx configs a i p s) as [[p1 s1]|] eqn:E; [|done]. cbn. intros Hr Hp.
  eapply IH; [done|]. by eapply plan_downloadable_counts.
Qed.

Lemma url_retry_nonneg passes configs sources tasks (s s' : St) result :
  (∀ tasks s, 0 ≤ pr_state_write_failures (run_download_pass tasks s).2) →
  run_with_url_retry is_cancelled hydrate_matching AUTH_ERROR_THRESHOLD run_download_pass fuel passes configs sources tasks s = Some (s', result) →
  0 ≤ pr_state_write_failures result.
Proof.
  intros Hp. unfold run_with_url_retry. pose proof (Hp tasks s) as Hn1. destruct (run_download_pass tasks s) as [s1 first].
  cbn in Hn1. destruct (_ && _ && _); [|by intros [= <- <-]].
  match goal with |- context [build_incremental_expired_url_retry_tasks ?a ?b ?c ?d ?e ?f ?g ?h] =>
    destruct (build_incremental_expired_url_retry_tasks a b c d e f g h) as [[s2 [|t retry]]|] end; cbn; [..|done].
  - intros [= <- <-]. by case_bool_decide.
  - pose proof (Hp (t :: retry) s2) as Hn2. destruct (run_download_pass (t :: retry) s2) as [s3 second]. intros [= <- <-]. cbn in *. lia.
Qed.

(** ** What a token stands for *)

(** The context the run starts from. *)
Definition open_context (events : list SourceEvent) (s : St) : St * option DownloadContext :=
  if has_created events then let '(s, c) := preload s in (s, Some c) else (s, None).

(** The events were applied without a lost write: as on the store with no
    failure ahead.  (A context loaded in passing is the one answer of the store
    whose failures leave no trace.) *)
Definition applied_faithfully (passes : list SyncPass) (events : list SourceEvent) (start stop : DeltaRun St)
    (ctx : option DownloadContext) (c : Collected) : Prop :=
  let collect := collect_delta rc preload resolve_records hydrate_matching passes ctx events in
  collect start = (stop, c) ∧ clean stop ∧
  ((has_created events = false → steady heal preload) → collect (heal_run start) = (heal_run stop, c)).

Definition empty_planning : Planning :=
  {| pg_tasks := []; pg_planner := TaskPlanner_new; pg_skipped := SkipBreakdown_default;
     pg_enumeration_errors := 0; pg_write_failures := 0; pg_sources := [] |}.

(** Of the assets the events left to download, in the order of the stream, all
    were planned, or with [--recent n] the first [n]: by one planning that
    starts where the events left the store, with the context they left or a
    freshly loaded one, that met no malformed asset and announced every planned
    task to the store. *)
Definition all_planned (passes : list SyncPass) (c : Collected) (stop : DeltaRun St) : Prop :=
  cd_downloadable c = [] ∨
  ∃ ctx s planned p s',
    match cd_context c with Some ctx0 => s = dr_store stop ∧ ctx = ctx0 | None => preload (dr_store stop) = (s, ctx) end ∧
    match rc_recent rc with None => planned = cd_downloadable c | Some n => planned = take (Z.to_nat n) (cd_downloadable c) end ∧
    plan_downloadables rc fuel now ctx (build_pass_configs rc passes) planned empty_planning s = Some (p, s') ∧ planned_all p.

(** The change stream from [zone_token] to [t] is in the store. *)
Definition delta_settled (passes : list SyncPass) (zone_token t : str) (s : St) : Prop :=
  ∃ pass rest s1 run events s2 ctx stop c,
    passes = pass :: rest ∧ changes_stream pass zone_token s = (s1, run) ∧
    cr_items run = (λ e, (false, Ok e)) <$> events ∧ cr_token run = Some t ∧
    Forall (λ e, ev_token_unsafe_reason e = None) events ∧
    open_context events s1 = (s2, ctx) ∧
    applied_faithfully passes events {| dr_summary := set_token (Some t) (observe_all_events events); dr_store := s2 |} stop ctx c ∧
    all_planned passes c stop.

Lemma process_delta_facts passes events summary s s' r t :
  (∀ tasks s, 0 ≤ pr_state_write_failures (run_download_pass tasks s).2) →
  ds_state_transition_failures summary = 0 →
  process_delta rc fuel is_cancelled now elapsed urls_stale preload resolve_records hydrate_matching run_download_pass run_pending_rewrites
    passes events summary s = Some (s', r) → advances r t →
  ∃ s2 ctx stop c, open_context events s = (s2, ctx) ∧ is_cancelled s' = false ∧ ds_sync_token (dr_summary stop) = Some t ∧
    clean stop ∧ collect_delta rc preload resolve_records hydrate_matching passes ctx events {| dr_summary := summary; dr_store := s2 |} = (stop, c) ∧
    all_planned passes c stop.
Proof.
  intros Hp Hs Hr Ha. unfold process_delta in Hr. fold (open_context events s) in Hr.
  destruct (open_context events s) as [s2 ctx] eqn:Eo.
  destruct (collect_delta _ _ _ _ passes ctx events _) as [stop c] eqn:Ec. exists s2, ctx, stop, c. split; [done|].
  destruct stop as [summary' s3]; cbn [dr_summary dr_store] in *.
  assert (Hf : ds_token_unsafe_reason summary' = None → 0 ≤ ds_state_transition_failures summary').
  { intros Hc. destruct (faithful_collect True passes ctx events (λ _, or_introl I) _ _ _ Ec Hc) as [(_ & _ & Hf) _]. cbn in Hf. lia. }
  case_bool_decide as Hd.
  { injection Hr as Hr. apply finish_nothing_facts with (t := t) in Hr as (? & ? & ?); [|done]. repeat split; [done..|by left]. }
  destruct (match cd_context c with Some c => (s3, c) | None => preload s3 end) as [s4 ctx'] eqn:Ectx.
  destruct (plan_downloadables _ _ _ ctx' _ _ _ s4) as [[p s5]|] eqn:Epl; [|done]. cbn [mbind option_bind] in Hr.
  pose proof (plan_downloadables_counts _ _ _ _ _ _ _ Epl) as [He Hw]; [by split|].
  assert (Hplan : planned_all p → all_planned passes c {| dr_summary := summary'; dr_store := s3 |}).
  { intros Hp'. right. exists ctx', s4, (truncate_recent (rc_recent rc) (cd_downloadable c)), p, s5. split_and!; [|by destruct (rc_recent rc)|done|done].
    cbn [dr_store]. destruct (cd_context c); [by injection Ectx|done]. }
  case_bool_decide.
  { injection Hr as Hr. apply finish_no_tasks_facts with (t := t) in Hr as (? & ? & ? & ?); [repeat split; auto|done..]. }
  destruct (only_print_filenames _). { apply (inj Some) in Hr. by apply finish_print_facts with (t := t) in Hr. }
  match type of Hr with mbind _ ?m = _ => destruct m as [[s6 tasks]|]; [|done] end. cbn [mbind option_bind] in Hr.
  destruct (run_with_url_retry _ _ _ _ _ _ _ _ tasks s6) as [[s7 result]|] eqn:Eu; [|done]. cbn [mbind option_bind] in Hr.
  apply url_retry_nonneg in Eu; [|done]. injection Hr as Hr.
  apply finish_downloads_facts with (t := t) in Hr as (? & ? & ? & ?); [repeat split; auto|done..].
Qed.

(** C11: A sync token that an incremental sync returns and the cycle takes stands
    for a change stream that was read to its end without an error, none of whose
    events was unsafe, that was applied to the store as if no write could fail,
    and whose assets were then planned and announced to the store - whatever
    calls of the store failed, and whatever was downloaded.  Without [--recent]
    these are all the assets the events left to download; with [--recent n] they
    are the first [n] in the order of the stream, and the token passes the
    others by. *)
Theorem incremental_token_covers passes zone_token s s' r t :
  (∀ tasks s, 0 ≤ pr_state_write_failures (run_download_pass tasks s).2) →
  (∀ pass s1 run, changes_stream pass zone_token s = (s1, run) → existsb fst (cr_items run) = true → is_cancelled s' = true) →
  download_photos_incremental_collecting rc fuel is_cancelled now elapsed urls_stale preload changes_stream resolve_records hydrate_matching
    run_download_pass run_pending_rewrites passes zone_token s = Some (s', Ok r) →
  advances r t → delta_settled passes zone_token t s.
Proof.
  intros Hp Hcancel Hr Ha. unfold download_photos_incremental_collecting, read_delta in Hr.
  destruct passes as [|pass rest].
  { cbn [mbind option_bind] in Hr. match type of Hr with mbind _ ?m = _ => destruct m as [[s1 r1]|] eqn:E; [|done] end.
    injection Hr as <- <-.
    destruct (process_delta_facts _ _ IncrementalDeltaSummary_default _ _ _ _ Hp eq_refl E Ha) as (s2 & ctx & stop & c & Ho & _ & Ht & Hc & Hcol & _).
    destruct (faithful_collect True _ _ _ (λ _, or_introl I) _ _ _ Hcol Hc) as [(_ & Htok & _) _]. cbn in Htok. congruence. }
  destruct (changes_stream pass zone_token s) as [s1 run] eqn:Es.
  destruct (read_events (cr_items run)) as [[events n]|] eqn:Eread; [|by cbn in Hr].
  unfold await_token in Hr. destruct (_ <=? _)%nat; [|done]. cbn [mbind option_bind] in Hr.
  match type of Hr with mbind _ ?m = _ => destruct m as [[s3 r3]|] eqn:E; [|done] end. injection Hr as -> ->.
  assert (Hf : ds_state_transition_failures (set_token (cr_token run) (observe_all_events events)) = 0) by apply observe_all_failures.
  destruct (process_delta_facts _ _ _ _ _ _ _ Hp Hf E Ha) as (s2 & ctx & stop & c & Ho & Hnc & Ht & Hc & Hcol & Hpl).
  destruct (faithful_collect True _ _ _ (λ _, or_introl I) _ _ _ Hcol Hc) as [(Hstart & Htok & _) _]. cbn in Htok.
  rewrite Ht in Htok. exists pass, rest, s1, run, events, s2, ctx, stop, c. rewrite <- Htok in Hcol.
  split_and!; try done.
  - eapply read_events_complete; [done|]. destruct (existsb fst _) eqn:Ee; [|done]. specialize (Hcancel _ _ _ Es Ee). congruence.
  - by apply observe_all_clean.
  - split; [exact Hcol|]. split; [exact Hc|]. intros Hctx.
    assert (Hs : ctx = None → False ∨ steady heal preload).
    { intros ->. right. apply Hctx. revert Ho. unfold open_context. destruct (has_created events); [|done]. by destruct (preload s1). }
    by destruct (faithful_collect False (pass :: rest) ctx events Hs _ _ _ Hcol Hc) as [_ [[]|?]].
Qed.
End Token.

(** ** Recorded downloads *)

(** C32: A recorded download is fetched again for a reason: after any later
    operations that neither record another download or failure of the version
    nor see it with another checksum, an incremental sync that loads its context
    lists a planned task of that version for download exactly when the
    provider's checksum is empty or is not the one of the recorded row, or the
    recorded file is not found on disk as the file of that version.  The file
    it looks for is the one the download was recorded with; otherwise the task
    counts as settled. *)
Theorem recorded_download_not_repeated {St} `{FilterEnv, StateEnv, FileHashes St} before after d1 now library id v p c dc repair row retry
    pconfig asset task tasks kept skipped t (s : St) :
  Forall op_ok before → Forall op_ok after →
  exec (OMarkDownloaded now (library, id, version_text v) p c dc repair) (run before Db_empty) = Ok d1 →
  assets d1 !! (library, id, version_text v) = Some row →
  Forall (λ o, forgets (library, id, version_text v) (p_checksum (r_prov row)) o = false) after →
  dt_library task = library → dt_asset_id task = id → dt_version_size task = v →
  let ctx := load (run after d1) retry in
  ∃ f, downloaded_file ctx library id v = Some f ∧ rf_path f = p ∧
    unsettled_tasks ctx pconfig asset (task :: tasks) kept skipped t s =
      if bool_decide (dt_checksum task <> []) && str_eqb (p_checksum (r_prov row)) (dt_checksum task)
      then match recorded_current_path_exists pconfig asset v f t s with
           | (t, s, Some _) => unsettled_tasks ctx pconfig asset tasks kept (skipped + 1) t s
           | (t, s, None) => unsettled_tasks ctx pconfig asset tasks (kept ++ [task]) skipped t s
           end
      else unsettled_tasks ctx pconfig asset tasks (kept ++ [task]) skipped t s.
Proof.
  intros Hb Ha Hx E Hf Hl Hi Hv ctx.
  destruct (recorded_download_remembered before after d1 now library id v p c dc repair row retry (dt_checksum task) false
              Hb Ha Hx E Hf) as (f & Hfile & Hp & Hfast). fold ctx in Hfile, Hfast.
  exists f. split_and!; [done..|]. cbn [unsettled_tasks]. unfold state_confirmed_current_path_exists. rewrite Hl, Hi, Hv, Hfast, Hfile.
  by destruct (_ && _).
Qed.

(** ** A run *)

Module IncrementalRuns.
Import StateDbSpec.Samples.
#[export] Existing Instance sample_filter_env.
#[export] Program Instance sorted_indices : IndexOrder := {
  index_map_order A := map_to_list;
  index_set_order := elements;
}.
Next Obligation. done. Qed.
Next Obligation. done. Qed.
(** No file can be read. *)
#[export] Instance unreadable : FileHashes SourceDb := { so_compute_sha256 _ s := (s, Err tt) }.

Definition rc : RunConfig :=
  {| rc_config := sample_config; rc_has_db := true; rc_any_metadata_write := false; rc_recent := None; rc_run_mode := Download |}.
Definition library_pass : SyncPass :=
  {| sp_pass := {| pass_kind := PassUnfiled; pass_album_name := []; pass_exclude_ids := ∅ |}; sp_container_id := None |}.

Definition event (name : string) (reason : ChangeReason) (asset : option PhotoAsset) : SourceEvent :=
  {| ev_record_name := lit name; ev_record_type := Some (lit "CPLAsset"); ev_master_record_name := None; ev_reason := reason;
     ev_asset := asset; ev_album := None; ev_relation := None; ev_token_unsafe_reason := None |}.
(** A new photo, and the deletion of a known one. *)
Definition events : list SourceEvent :=
  [event "REC1" Created (Some sample_asset); event "A" SoftDeleted None].

Definition no_download (tasks : list DownloadTask) (s : SourceDb) : SourceDb * PassResult :=
  (s, {| pr_downloaded := 0; pr_downloaded_tasks := []; pr_exif_failures := 0; pr_failed := tasks; pr_auth_errors := 0;
         pr_state_write_failures := 0; pr_bytes_downloaded := 0; pr_disk_bytes_written := 0; pr_rate_limit_observations := 0;
         pr_url_expired_abort := false; pr_photos_downloaded := 0; pr_videos_downloaded := 0; pr_recap := RunRecap_default |}).
Definition sync (items : list (bool * result unit SourceEvent)) : SourceDb → option (SourceDb * result unit SyncResult) :=
  download_photos_incremental_collecting rc 9 (λ _, false) sd_now (λ _, S754_zero false) (λ _, false)
    (λ s, (s, load (sd_db s) false)) (λ pass token s, (s, {| cr_items := items; cr_token := Some (lit "next") |}))
    (λ pass requests s, (s, {| rb_results := []; rb_complete := true |})) (λ pass names s, (s, Ok []))
    no_download (λ s, (s, 0)) [library_pass] (lit "start").
Definition stream : list (bool * result unit SourceEvent) := (λ e, (false, Ok e)) <$> events.

Definition store (faults : list bool) : SourceDb :=
  {| sd_db := run [OUpsertSeen 1700000000000000000 (record "A" "c1" "m1")] Db_empty; sd_albums := AlbumDb_empty; sd_now := 1;
     sd_faults := faults |}.
Definition returned (o : option (SourceDb * result unit SyncResult)) : option (DownloadOutcome * option str * Z) :=
  '(_, r) ← o; match r with Ok r => Some (outcome r, sync_token r, state_write_failures (stats r)) | Err _ => None end.
(** The token the cycle takes. *)
Definition taken (o : option (SourceDb * result unit SyncResult)) : option str :=
  match o with
  | Some (_, Ok r) => match source_checkpoint_decision r false false IncrementalDelta with Advance t _ => Some t | _ => None end
  | _ => None
  end.

(** One failing call, at every place of the run: only the one that is tried
    again let the token through. *)
Example one_fault : (λ n, taken (sync stream (store (repeat false n ++ [true])))) <$> seq 0 9
  = [None; Some (lit "next"); None; None; None; None; None; None; None].
Proof. vm_compute. reflexivity. Qed.

Lemma taken_advances o t : taken o = Some t → ∃ s r, o = Some (s, Ok r) ∧ (∃ dry stale basis basis', source_checkpoint_decision r dry stale basis = Advance t basis').
Proof.
  destruct o as [[s [r|e]]|]; [|done..]. intros Hr. exists s, r. split; [done|]. exists false, false, IncrementalDelta.
  unfold taken in Hr. destruct (source_checkpoint_decision r false false IncrementalDelta) as [t' b|]; [|done]. injection Hr as ->. eauto.
Qed.

Lemma incremental_token_covers_witness :
  delta_settled rc 9 sd_now (λ s, (s, load (sd_db s) false)) (λ pass token s, (s, {| cr_items := stream; cr_token := Some (lit "next") |}))
    (λ pass requests s, (s, {| rb_results := []; rb_complete := true |})) (λ pass names s, (s, Ok [] : result unit _))
    [library_pass] (lit "start") (lit "next") (store [false; true]).
Proof.
  assert (Hr : taken (sync stream (store [false; true])) = Some (lit "next")) by (vm_compute; reflexivity).
  apply taken_advances in Hr as (s & r & E & Ha). revert E Ha. unfold sync. apply incremental_token_covers.
  - by intros ????? [= <- <-].
  - by intros ????? [= <- <-].
  - intros. cbn. lia.
  - intros ??? [= <- <-]. vm_compute. intros E. discriminate E.
Defined.

(** The photo of the recorded download, planned again: its file is gone. *)
Import StateLaws.LawRuns.
Definition again : PhotoAsset := set_state_record_name (lit "A") (ContextRuns.child "A").
Definition planned : list DownloadTask :=
  match plan_asset 9 again sample_config TaskPlanner_new with Some (_, p) => atp_tasks p | None => [] end.
Lemma recorded_download_not_repeated_witness :
  ∃ task f, planned = [task] ∧ downloaded_file (load (run later marked) false) (lit "PrimarySync") (lit "A") VOriginal = Some f
    ∧ rf_path f = lit "/photos/IMG_1.HEIC"
    ∧ (recorded_current_path_exists sample_config again VOriginal f TaskPlanner_new (store [])).2 = None
    ∧ (unsettled_tasks (load (run later marked) false) sample_config again [task] [] 0 TaskPlanner_new (store [])).1.2 = [task].
Proof.
  assert (Hp : (λ t, (dt_library t, dt_asset_id t, dt_version_size t, dt_checksum t)) <$> planned
                 = [(lit "PrimarySync", lit "A", VOriginal, lit "c1")]) by (vm_compute; reflexivity).
  destruct planned as [|task [|]] eqn:E; [discriminate Hp| |discriminate Hp]. injection Hp as Hl Hi Hv Hc.
  destruct (recorded_download_not_repeated LawRuns.before later marked 1700000001000000000 (lit "PrimarySync") (lit "A") VOriginal
    (lit "/photos/IMG_1.HEIC") (lit "sha-a") (Some (lit "sha-a")) true (row_of marked (key "A")) false sample_config again task [] [] 0
    TaskPlanner_new (store [])) as (f & Hf & Hpath & Hrun); [..|exists task, f].
  - exact (proj1 samples_ok).
  - exact (proj1 (proj2 samples_ok)).
  - vm_compute. reflexivity.
  - vm_compute. reflexivity.
  - repeat (apply Forall_cons; split; [vm_compute; reflexivity|]). constructor.
  - exact Hl.
  - exact Hi.
  - exact Hv.
  - assert (Hnone : (recorded_current_path_exists sample_config again VOriginal f TaskPlanner_new (store [])).2 = None).
    { pose proof Hf as Hf'. vm_compute in Hf'. injection Hf' as <-. vm_compute. reflexivity. }
    split_and!; [reflexivity|exact Hf|exact Hpath|exact Hnone|]. rewrite Hrun, Hc.
    destruct (recorded_current_path_exists _ _ _ _ _ _) as [[t1 s1] o]. cbn in Hnone. rewrite Hnone. vm_compute (bool_decide _ && _). reflexivity.
Defined.
End IncrementalRuns.
