(* ===== verification/Producer.v ===== *)
(** * The producer of a streaming download: [src/download/pipeline.rs]

    One pass over the assets of an enumeration: each asset is recorded, its
    changed metadata applied, its tasks planned, and every task either sent to
    the downloaders, adopted from disk, confirmed, given up or skipped; the
    skips are counted and the pending rows touched at the end.

    The store may fail at any call.  The shutdown token, the free disk space
    and the channel to the downloaders are functions of the store's state, so
    that they may change between any two calls.  [None]: the planner ran out of
    fuel. *)
From S2P Require Import Prelude RustStr Types StateTypes StateDb Filter Stats Planner Finalize Context Source Hydrate OnDisk.

(** ** Free disk space *)

Inductive BatchForecast := Continue | Warn | Bail.

Definition FREE_SPACE_RESNAPSHOT_INTERVAL_BYTES : Z := 10 * 1024 * 1024 * 1024.
Definition FREE_PROBE_NONE_SENTINEL : Z := U64_MAX.
Definition MIN_FREE_BYTES_HARD : Z := 100 * 1024 * 1024.

(** The atomics of the producer. *)
Record Space := {
  sp_initial_free : Z;
  sp_last_resnapshot_total : Z;
  sp_queued_bytes : Z;
  sp_warn_emitted : bool;
}.

Definition Space_new (initial_free_at_start : option Z) : Space :=
  {| sp_initial_free := default FREE_PROBE_NONE_SENTINEL initial_free_at_start; sp_last_resnapshot_total := 0;
     sp_queued_bytes := 0; sp_warn_emitted := false |}.

Definition batch_forecast_decision (size : Z) (initial_free : option Z) (sp : Space) : Space * BatchForecast * Z :=
  let total := wrapping_add_u64 (sp_queued_bytes sp) size in
  let set warned := {| sp_initial_free := sp_initial_free sp; sp_last_resnapshot_total := sp_last_resnapshot_total sp;
                       sp_queued_bytes := total; sp_warn_emitted := warned |} in
  match initial_free with
  | None => (set (sp_warn_emitted sp), Continue, total)
  | Some free =>
      if free <=? total then (set (sp_warn_emitted sp), Bail, total)
      else if (Z.min U64_MAX (free * 9) / 10 <=? total) then
        (set true, if sp_warn_emitted sp then Continue else Warn, total)
      else (set (sp_warn_emitted sp), Continue, total)
  end.

Definition should_resnapshot_free_space (total last_snapshot_total interval : Z) : bool :=
  (0 <? interval) && (interval <=? Z.max 0 (total - last_snapshot_total)).

(** [available] is [available_disk_space] of the directory; the answer is
    [true] when the producer gives up. *)
Definition forecast_check (available : option Z) (size : Z) (sp : Space) : Space * bool :=
  let total_so_far := wrapping_add_u64 (sp_queued_bytes sp) size in
  let sp :=
    if should_resnapshot_free_space total_so_far (sp_last_resnapshot_total sp) FREE_SPACE_RESNAPSHOT_INTERVAL_BYTES then
      match available with
      | Some refreshed => {| sp_initial_free := refreshed; sp_last_resnapshot_total := total_so_far;
                             sp_queued_bytes := sp_queued_bytes sp; sp_warn_emitted := sp_warn_emitted sp |}
      | None => sp
      end
    else sp in
  let initial_free := if sp_initial_free sp =? FREE_PROBE_NONE_SENTINEL then None else Some (sp_initial_free sp) in
  let '(sp, decision, _) := batch_forecast_decision size initial_free sp in
  (sp, match decision with Bail => true | _ => false end).

(** ** Skips *)

Inductive AssetDisposition := Unresolved | RetryOnly | RetryExhausted | StateSkip | DAmpmVariant | OnDisk | Forwarded.
Definition rank (d : AssetDisposition) : nat :=
  match d with
  | Unresolved => 0 | RetryOnly => 1 | RetryExhausted => 2 | StateSkip => 3 | DAmpmVariant => 4 | OnDisk => 5 | Forwarded => 6
  end.
Definition disposition_max (a b : AssetDisposition) : AssetDisposition := if (rank a <=? rank b)%nat then b else a.

Record ProducerSkipSummary := {
  ps_by_state : Z; ps_on_disk : Z; ps_ampm_variant : Z; ps_by_media_type : Z; ps_by_date_range : Z; ps_by_live_photo : Z;
  ps_by_filename : Z; ps_by_excluded_album : Z; ps_duplicates : Z; ps_retry_exhausted : Z; ps_retry_only : Z;
}.
Definition ProducerSkipSummary_default : ProducerSkipSummary :=
  {| ps_by_state := 0; ps_on_disk := 0; ps_ampm_variant := 0; ps_by_media_type := 0; ps_by_date_range := 0; ps_by_live_photo := 0;
     ps_by_filename := 0; ps_by_excluded_album := 0; ps_duplicates := 0; ps_retry_exhausted := 0; ps_retry_only := 0 |}.

Definition total (s : ProducerSkipSummary) : Z :=
  ps_by_state s + ps_on_disk s + ps_ampm_variant s + ps_by_media_type s + ps_by_date_range s + ps_by_live_photo s
  + ps_by_filename s + ps_by_excluded_album s + ps_duplicates s + ps_retry_exhausted s + ps_retry_only s.

Definition add_assign (a b : ProducerSkipSummary) : ProducerSkipSummary := {|
  ps_by_state := ps_by_state a + ps_by_state b; ps_on_disk := ps_on_disk a + ps_on_disk b;
  ps_ampm_variant := ps_ampm_variant a + ps_ampm_variant b; ps_by_media_type := ps_by_media_type a + ps_by_media_type b;
  ps_by_date_range := ps_by_date_range a + ps_by_date_range b; ps_by_live_photo := ps_by_live_photo a + ps_by_live_photo b;
  ps_by_filename := ps_by_filename a + ps_by_filename b;
  ps_by_excluded_album := ps_by_excluded_album a + ps_by_excluded_album b; ps_duplicates := ps_duplicates a + ps_duplicates b;
  ps_retry_exhausted := ps_retry_exhausted a + ps_retry_exhausted b; ps_retry_only := ps_retry_only a + ps_retry_only b |}.

Definition SkipBreakdown_from (s : ProducerSkipSummary) : SkipBreakdown := {|
  by_state := ps_by_state s; on_disk := ps_on_disk s; by_media_type := ps_by_media_type s; by_date_range := ps_by_date_range s;
  by_live_photo := ps_by_live_photo s; by_filename := ps_by_filename s; by_excluded_album := ps_by_excluded_album s;
  ampm_variant := ps_ampm_variant s; duplicates := ps_duplicates s; retry_exhausted := ps_retry_exhausted s;
  retry_only := ps_retry_only s |}.

(** One asset more in a bucket. *)
Inductive Skip := KFilter (r : FilterReason) | KDuplicate | KDisposition (d : AssetDisposition).
Definition count_skip (k : Skip) (s : ProducerSkipSummary) : ProducerSkipSummary :=
  let one b : Z := if b : bool then 1 else 0 in
  let filtered p := match k with KFilter r => one (p r) | _ => 0 end in
  let disposed d := match k with KDisposition d' => one (Nat.eqb (rank d') (rank d)) | _ => 0 end in
  add_assign s {|
    ps_by_state := disposed StateSkip; ps_on_disk := disposed OnDisk; ps_ampm_variant := disposed DAmpmVariant;
    ps_by_media_type := filtered (λ r, match r with FRMediaType => true | _ => false end);
    ps_by_date_range := filtered (λ r, match r with DateRange => true | _ => false end);
    ps_by_live_photo := filtered (λ r, match r with FRLivePhoto => true | _ => false end);
    ps_by_filename := filtered (λ r, match r with MalformedAsset | FRFilename => true | _ => false end);
    ps_by_excluded_album := filtered (λ r, match r with ExcludedAlbum => true | _ => false end);
    ps_duplicates := match k with KDuplicate => 1 | _ => 0 end;
    ps_retry_exhausted := disposed RetryExhausted; ps_retry_only := disposed RetryOnly |}.

(** ** The state of a pass *)

(** What the pass reads of [DownloadConfig]; [pc_any_metadata_write] is
    [MetadataFlags::has_any_write]. *)
Record PassSettings `{FilterEnv} := {
  pc_config : DownloadConfig;
  pc_has_db : bool;
  pc_any_metadata_write : bool;
  pc_refresh_metadata : bool;
  pc_capture_repair : bool;
  pc_max_download_attempts : Z;
  pc_retry_only : bool;
}.

Record Counts := {
  ct_skips : ProducerSkipSummary;
  ct_forwarded : Z;
  ct_assets_seen : Z;
  ct_enum_errors : Z;
  ct_state_write_failures : Z;
}.
Definition Counts_new : Counts :=
  {| ct_skips := ProducerSkipSummary_default; ct_forwarded := 0; ct_assets_seen := 0; ct_enum_errors := 0; ct_state_write_failures := 0 |}.

(** One event more. *)
Inductive Tick := TSkip (k : Skip) | TForwarded | TSeen | TEnumError | TWriteFailure (n : Z).
Definition tick (t : Tick) (c : Counts) : Counts := {|
  ct_skips := match t with TSkip k => count_skip k (ct_skips c) | _ => ct_skips c end;
  ct_forwarded := ct_forwarded c + match t with TForwarded => 1 | _ => 0 end;
  ct_assets_seen := ct_assets_seen c + match t with TSeen => 1 | _ => 0 end;
  ct_enum_errors := ct_enum_errors c + match t with TEnumError => 1 | _ => 0 end;
  ct_state_write_failures := ct_state_write_failures c + match t with TWriteFailure n => n | _ => 0 end |}.

Record Producer `{FilterEnv} (St : Type) := {
  pd_store : St;
  pd_planner : TaskPlanner;
  pd_seen_names : gset str;
  pd_claimed : gset (str * str);
  pd_touched : list (str * str);
  pd_counts : Counts;
  pd_space : Space;
  (** The tasks sent so far. *)
  pd_sent : list DownloadTask;
}.
Arguments pd_store {_ St} _.
Arguments pd_planner {_ St} _.
Arguments pd_seen_names {_ St} _.
Arguments pd_claimed {_ St} _.
Arguments pd_touched {_ St} _.
Arguments pd_counts {_ St} _.
Arguments pd_space {_ St} _.
Arguments pd_sent {_ St} _.

(** Steps of the producer that may not return. *)
Definition Step `{FilterEnv} (St A : Type) : Type := Producer St → option (Producer St * A).
#[export] Instance Step_ret `{FilterEnv} {St} : MRet (Step St) := λ A a p, Some (p, a).
#[export] Instance Step_bind `{FilterEnv} {St} : MBind (Step St) := λ A B f m p, match m p with Some (p', a) => f a p' | None => None end.

Section Steps.
Context `{FilterEnv} {St : Type}.

Definition set_all (p : Producer St) (s : St) (t : TaskPlanner) (names : gset str) (claimed : gset (str * str)) : Producer St :=
  {| pd_store := s; pd_planner := t; pd_seen_names := names; pd_claimed := claimed; pd_touched := pd_touched p;
     pd_counts := pd_counts p; pd_space := pd_space p; pd_sent := pd_sent p |}.

(** A call of the store, of the planner, of both; a choice of identity. *)
Definition on_db {A} (op : St → St * A) : Step St A :=
  λ p, let '(s, a) := op (pd_store p) in Some (set_all p s (pd_planner p) (pd_seen_names p) (pd_claimed p), a).
Definition on_planner {A} (op : TaskPlanner → TaskPlanner * A) : Step St A :=
  λ p, let '(t, a) := op (pd_planner p) in Some (set_all p (pd_store p) t (pd_seen_names p) (pd_claimed p), a).
Definition on_both {A} (op : TaskPlanner → St → TaskPlanner * St * A) : Step St A :=
  λ p, let '(t, s, a) := op (pd_planner p) (pd_store p) in Some (set_all p s t (pd_seen_names p) (pd_claimed p), a).
Definition on_claims {A} (op : gset (str * str) → St → gset (str * str) * St * A) : Step St A :=
  λ p, let '(claimed, s, a) := op (pd_claimed p) (pd_store p) in Some (set_all p s (pd_planner p) (pd_seen_names p) claimed, a).
(** [seen_asset_record_names.insert]. *)
Definition insert_name (name : str) : Step St bool :=
  λ p, Some (set_all p (pd_store p) (pd_planner p) ({[name]} ∪ pd_seen_names p) (pd_claimed p), negb (bool_decide (name ∈ pd_seen_names p))).

Definition edit (touched : list (str * str)) (f : Counts → Counts) (space : Space → Space) (sent : list DownloadTask) : Step St unit :=
  λ p, Some ({| pd_store := pd_store p; pd_planner := pd_planner p; pd_seen_names := pd_seen_names p; pd_claimed := pd_claimed p;
                pd_touched := pd_touched p ++ touched; pd_counts := f (pd_counts p); pd_space := space (pd_space p);
                pd_sent := pd_sent p ++ sent |}, tt).
Definition count (t : Tick) : Step St unit := edit [] (tick t) id [].
Definition skip (k : Skip) : Step St unit := count (TSkip k).
Definition touch (library asset_id : str) : Step St unit := edit [(library, asset_id)] id id [].

(** [Err]: the write failed. *)
Definition read {A} (f : St → A) : Step St A := λ p, Some (p, f (pd_store p)).
Definition count_failed {A} (r : result StateError A) : Step St unit :=
  match r with Ok _ => mret tt | Err _ => count (TWriteFailure 1) end.
End Steps.

(** ** Touched rows *)

Class TouchStore (St : Type) := {
  db_touch_last_seen_many : str → list str → St → St * result StateError unit;
}.

(** [false]: the pass ends here. *)
Inductive Flow := Next | Return.
#[export] Instance Flow_eq : EqDecision Flow.
Proof. solve_decision. Defined.

Section Producer.
Context {St : Type} `{SourceStore St, LegacyOwnerStore St, DownloadStateStore St, MembershipStore St, DownloadFinalizationStore St,
  FileHashes St, TouchStore St}.
Context `{FilterEnv, StateEnv} {AnyError : Type}.
Context (ps : PassSettings) (fuel : nat) (is_cancelled : St → bool) (now : St → Z) (available_disk_space : St → option Z).
(** [task_tx.send(task).await]; [false] when the consumer is gone. *)
Context (cancel : St → St) (send : DownloadTask → St → St * bool).
(** The order in which a map of libraries is walked. *)
Context (library_order : gmap str (list str) → list (str * list str)).

Abbreviation config := (pc_config ps).
Abbreviation has_db := (pc_has_db ps).

(** ** Metadata *)

(** [metadata_rewrite::tag_if_needed]. *)
Fixpoint tag_versions (lib : str) (asset : PhotoAsset) (ctx : DownloadContext) (candidates : list (VersionSizeKey * str)) (s : St) : St :=
  match candidates with
  | [] => s
  | (vs, _) :: candidates =>
      let s := if needs_metadata_rewrite ctx lib (state_id asset) vs (am_metadata_hash (asset_metadata asset))
               then (db_record_metadata_write_failure (lib, state_id asset, VersionSizeKey_as_str vs) s).1 else s in
      tag_versions lib asset ctx candidates s
  end.
Definition tag_if_needed (asset : PhotoAsset) (candidates : list (VersionSizeKey * str)) (ctx : DownloadContext) (s : St) : St :=
  if pc_any_metadata_write ps && has_db then tag_versions (effective_asset_library asset config) asset ctx candidates s else s.

(** The refresh of a row whose metadata changed or is marked; whether it was
    attempted. *)
Definition refresh_metadata_before_planning (ctx : DownloadContext) (lib : str) (asset : PhotoAsset) : Step St bool :=
  let drift := has_provider_metadata_drift ctx lib (state_id asset) (am_metadata_hash (asset_metadata asset)) in
  let retry_marker := negb drift && has_downloaded_metadata_retry_marker ctx lib (state_id asset) in
  if pc_refresh_metadata ps || drift || retry_marker then
    r ← on_db (so_refresh_downloaded_asset_metadata lib (state_id asset) (asset_metadata asset)
                 (pc_any_metadata_write ps && (pc_refresh_metadata ps || drift)) (pc_capture_repair ps) METADATA_CAPTURE_REVISION);
    _ ← match r with
        | Ok updated => if 0 <? updated then mret tt else if drift || retry_marker then count (TWriteFailure 1) else mret tt
        | Err _ => count (TWriteFailure 1)
        end;
    mret true
  else mret false.

(** ** Recording an asset *)

Definition excluded_here (asset : PhotoAsset) : bool :=
  match is_asset_filtered asset config with Some ExcludedAlbum => true | _ => false end.

(** The asset with its identity, and whether its metadata was refreshed;
    [None] when its identity could not be claimed. *)
Definition record_asset (ctx : DownloadContext) (asset : PhotoAsset) : Step St (option (PhotoAsset * bool)) :=
  if has_db then
    let lib := effective_asset_library asset config in
    r ← on_db (planner_upsert_asset_master_mapping lib asset);
    _ ← count_failed r;
    claimed ← (if excluded_here asset then mret (Ok asset)
               else
                 r ← on_claims (λ claimed s,
                       let '(claimed, db, r) := select_asset_state_record_name_for_download ctx (Some s) lib asset claimed in
                       (claimed, default s db, r));
                 mret (match r with Ok name => Ok (set_state_record_name name asset) | Err e => Err e end));
    match claimed with
    | Err _ => _ ← count (TWriteFailure 1); mret None
    | Ok asset => refreshed ← refresh_metadata_before_planning ctx lib asset; mret (Some (asset, refreshed))
    end
  else mret (Some (asset, false)).

(** ** The tasks of an asset *)

Definition attempts_exhausted (ctx : DownloadContext) (task : DownloadTask) : option Z :=
  attempts ← attempt_count ctx (dt_library task) (dt_asset_id task);
  if (0 <? pc_max_download_attempts ps) && (pc_max_download_attempts ps <=? attempts) then Some attempts else None.
Definition exhausted_error (attempts : Z) : str :=
  lit "Exceeded max download attempts (" ++ show_u64 attempts ++ lit "/" ++ show_u64 (pc_max_download_attempts ps) ++ lit ")".

(** The task goes to the downloaders: announced to the store when there is
    one, sent, and weighed against the free space. *)
Definition forward (asset : PhotoAsset) (task : DownloadTask) : Step St Flow :=
  _ ← (if has_db then r ← on_db (λ s, upsert_seen_for_task (now s) asset task s); count_failed r else mret tt);
  sent ← on_db (send task);
  if sent : bool then
    _ ← edit [] id id [task];
    available ← read available_disk_space;
    bail ← (λ p, let '(sp, bail) := forecast_check available (dt_size task) (pd_space p) in
                 '(p, _) ← edit [] id (λ _, sp) [] p; Some (p, bail));
    if bail : bool then _ ← on_db (λ s, (cancel s, tt)); mret Return else mret Next
  else mret Return.

(** A download the store does not ask for: is the file there? *)
Definition check_disk (ctx : DownloadContext) (asset : PhotoAsset) (refreshed : bool) (task : DownloadTask) :
    Step St (Flow * AssetDisposition) :=
  found ← on_both (state_confirmed_current_path_exists ctx config asset task);
  match found with
  | Some _ =>
      _ ← (if refreshed : bool then mret tt
           else on_db (λ s, (tag_if_needed asset (extract_skip_candidates asset config) ctx s, tt)));
      mret (Next, OnDisk)
  | None =>
      m ← on_planner (existing_path_match (dt_download_path task));
      match m with
      | Exact => mret (Next, OnDisk)
      | AmpmVariant => mret (Next, DAmpmVariant)
      | Missing => flow ← forward asset task; mret (flow, Forwarded)
      end
  end.

Definition process_task (ctx : DownloadContext) (asset : PhotoAsset) (refreshed : bool) (task : DownloadTask) :
    Step St (Flow * AssetDisposition) :=
  match attempts_exhausted ctx task with
  | Some attempts =>
      _ ← (if has_db then on_db (λ s, ((finalize_failed task (exhausted_error attempts) s).1, tt)) else mret tt);
      mret (Next, RetryExhausted)
  | None =>
      if pc_retry_only ps && negb (is_known ctx (dt_library task) (dt_asset_id task)) then mret (Next, RetryOnly)
      else if has_db then
        r ← on_db (record_album_membership_if_named config asset);
        _ ← match r with
            | Err _ => if bool_decide (is_Some (album_name config)) then count (TWriteFailure 1) else mret tt
            | Ok _ => mret tt
            end;
        adoption ← on_both (λ t s, adopt_pending_on_disk_task (now s) true (pc_capture_repair ps) config asset ctx task t s);
        match adoption with
        | Some (Adopted _) => mret (Next, OnDisk)
        | Some (StateWriteFailed _) => _ ← count (TWriteFailure 1); mret (Next, OnDisk)
        | None =>
            match should_download_fast ctx (dt_library task) (dt_asset_id task) (dt_version_size task) (dt_checksum task) false with
            | Some true => flow ← forward asset task; mret (flow, Forwarded)
            | Some false => mret (Next, StateSkip)
            | None => check_disk ctx asset refreshed task
            end
        end
      else flow ← forward asset task; mret (flow, Forwarded)
  end.

Fixpoint process_tasks (ctx : DownloadContext) (asset : PhotoAsset) (refreshed : bool) (tasks : list DownloadTask)
    (disposition : AssetDisposition) : Step St (Flow * AssetDisposition) :=
  match tasks with
  | [] => mret (Next, disposition)
  | task :: tasks =>
      '(flow, d) ← process_task ctx asset refreshed task;
      match flow with
      | Return => mret (Return, disposition_max disposition d)
      | Next => process_tasks ctx asset refreshed tasks (disposition_max disposition d)
      end
  end.

Definition dispose (d : AssetDisposition) : Step St unit :=
  match d with
  | Forwarded => count TForwarded
  | Unresolved => mret tt
  | d => skip (KDisposition d)
  end.

(** ** One asset *)

Definition plan_step (asset : PhotoAsset) : Step St AssetTaskPlan :=
  λ p, '(t, plan) ← plan_asset fuel asset config (pd_planner p);
       Some (set_all p (pd_store p) t (pd_seen_names p) (pd_claimed p), plan).

(** Nothing is planned: the expected files are all there. *)
Definition nothing_planned (ctx : DownloadContext) (asset : PhotoAsset) (refreshed : bool) : Step St unit :=
  _ ← (if refreshed then mret tt
       else on_db (λ s, (tag_if_needed asset (extract_skip_candidates asset config) ctx s, tt)));
  failures ← on_both (λ t s, adopt_pending_on_disk_skip (now s) has_db (pc_capture_repair ps) config asset ctx t s);
  _ ← (if 0 <? failures then count (TWriteFailure failures) else mret tt);
  _ ← (if has_db then touch (effective_asset_library asset config) (state_id asset) else mret tt);
  skip (KDisposition OnDisk).

Definition process_asset (ctx : DownloadContext) (asset : PhotoAsset) : Step St Flow :=
  fresh ← insert_name (asset_record_name asset);
  if negb fresh then _ ← skip KDuplicate; mret Next
  else
    _ ← count TSeen;
    recorded ← record_asset ctx asset;
    match recorded with
    | None => mret Next
    | Some (asset, refreshed) =>
        plan ← plan_step asset;
        match atp_filter_reason plan, atp_malformed_resource plan, atp_tasks plan with
        | Some reason, _, _ => _ ← skip (KFilter reason); mret Next
        | None, Some _, _ => _ ← count TEnumError; mret Next
        | None, None, [] => _ ← nothing_planned ctx asset refreshed; mret Next
        | None, None, tasks =>
            '(flow, d) ← process_tasks ctx asset refreshed tasks Unresolved;
            match flow with
            | Return => mret Return
            | Next => _ ← dispose d; mret Next
            end
        end
    end.

(** ** The pass *)

(** Assets with the identity they are planned under. *)
Fixpoint identify_stream (ctx : DownloadContext) (claimed : gset (str * str)) (items : list (result AnyError PhotoAsset)) :
    list (result AnyError PhotoAsset) :=
  match items with
  | [] => []
  | Err e :: items => Err e :: identify_stream ctx claimed items
  | Ok asset :: items =>
      let lib := default (library config) (source_zone asset) in
      let '(claimed, name) :=
        if excluded_here asset then (claimed, select_existing_asset_state_record_name ctx lib asset)
        else select_asset_state_record_name ctx lib asset claimed in
      Ok (set_state_record_name name asset) :: identify_stream ctx claimed items
  end.

(** [Next]: the stream ended or a shutdown ended the loop. *)
Fixpoint produce (ctx : DownloadContext) (items : list (result AnyError PhotoAsset)) : Step St Flow :=
  match items with
  | [] => mret Next
  | item :: items =>
      cancelled ← read is_cancelled;
      if cancelled : bool then mret Next
      else
        flow ← match item with
               | Ok asset => process_asset ctx asset
               | Err _ => _ ← count TEnumError; mret Next
               end;
        match flow with Return => mret Return | Next => produce ctx items end
  end.

Definition touched_by_library (touched : list (str * str)) : gmap str (list str) :=
  foldl (λ m la, <[la.1 := default [] (m !! la.1) ++ [la.2]]> m) ∅ touched.
Fixpoint touch_libraries (libs : list (str * list str)) (s : St) : St :=
  match libs with
  | [] => s
  | (lib, ids) :: libs => touch_libraries libs (db_touch_last_seen_many lib ids s).1
  end.

Definition Producer_new (s : St) (initial_free_at_start : option Z) : Producer St :=
  {| pd_store := s; pd_planner := TaskPlanner_new; pd_seen_names := ∅; pd_claimed := ∅; pd_touched := [];
     pd_counts := Counts_new; pd_space := Space_new initial_free_at_start; pd_sent := [] |}.

(** What the task of the producer leaves: its counts, the tasks it sent and
    whether it reached the end of the stream. *)
Definition spawn_stream_download_producer (ctx : DownloadContext) (items : list (result AnyError PhotoAsset))
    (initial_free_at_start : option Z) (s : St) : option (Producer St * bool) :=
  '(p, flow) ← produce ctx items (Producer_new s initial_free_at_start);
  match flow with
  | Return => Some (p, false)
  | Next =>
      let complete := negb (is_cancelled (pd_store p)) in
      let s := if has_db && negb (bool_decide (pd_touched p = []))
               then touch_libraries (library_order (touched_by_library (pd_touched p))) (pd_store p) else pd_store p in
      Some (set_all p s (pd_planner p) (pd_seen_names p) (pd_claimed p), complete)
  end.

(** ** Runs that download nothing *)

(** The items, each with the shutdown token's state when it is taken. *)
Record Listing := {
  li_paths : list path;
  li_enum_errors : Z;
  li_shutdown_break : bool;
}.
Definition list_more (paths : list path) (errors : Z) (l : Listing) : Listing :=
  {| li_paths := li_paths l ++ paths; li_enum_errors := li_enum_errors l + errors; li_shutdown_break := li_shutdown_break l |}.

(** The state confirms every candidate; not asked in an album pass. *)
Definition all_confirmed (ctx : DownloadContext) (asset : PhotoAsset) : bool :=
  let candidates := extract_skip_candidates asset config in
  bool_decide (album_name config = None) && negb (bool_decide (candidates = []))
  && forallb (λ c, bool_decide (should_download_fast ctx (effective_asset_library asset config) (state_id asset) c.1 c.2 true = Some false))
       candidates.

(** [print]: [--only-print-filenames]; otherwise a dry run. *)
Fixpoint list_downloads (print : bool) (ctx : DownloadContext) (items : list (bool * result AnyError PhotoAsset)) (t : TaskPlanner)
    (l : Listing) : option Listing :=
  match items with
  | [] => Some l
  | (true, _) :: _ => Some {| li_paths := li_paths l; li_enum_errors := li_enum_errors l; li_shutdown_break := true |}
  | (false, Err _) :: items => list_downloads print ctx items t (list_more [] 1 l)
  | (false, Ok asset) :: items =>
      if print && (bool_decide (is_Some (is_asset_filtered asset config)) || all_confirmed ctx asset)
      then list_downloads print ctx items t l
      else
        '(t, plan) ← plan_asset fuel asset config t;
        match atp_filter_reason plan, atp_malformed_resource plan with
        | None, Some _ => list_downloads print ctx items t (list_more [] 1 l)
        | _, _ => list_downloads print ctx items t (list_more (dt_download_path <$> atp_tasks plan) 0 l)
        end
  end.
End Producer.
