(* ===== verification/ProducerSpec.v ===== *)
(** * What the producer of a streaming download promises

    Every asset of the stream is accounted for, and every task that reaches the
    downloaders is in the store before it does. *)
From S2P Require Import Prelude RustStr Types StateTypes StateDb StateDbSpec StateReads Filter FilterSpec Collision Stats Planner Finalize FinalizeSpec StateLaws PlannerSpec Context Albums Source Hydrate SourceDb OnDisk Producer.

(** ** Accounting *)

(** [accounted] and [seen] at the end of the task of the producer. *)
Definition accounted (c : Counts) : Z := total (ct_skips c) - ps_duplicates (ct_skips c) + ct_forwarded c.
(** Seen, but neither skipped nor forwarded. *)
Definition unaccounted (c : Counts) : Z := ct_assets_seen c - accounted c.
Definition troubles (c : Counts) : Z := ct_enum_errors c + ct_state_write_failures c.

(** The assets taken from the stream. *)
Definition visited (c : Counts) : Z := ct_assets_seen c + ps_duplicates (ct_skips c).

Lemma total_add_assign a b : total (add_assign a b) = total a + total b.
Proof. unfold total, add_assign. cbn. lia. Qed.

(** A skip that is no duplicate accounts for one asset. *)
Definition accounts (k : Skip) : Z := match k with KDuplicate | KDisposition (Unresolved | Forwarded) => 0 | _ => 1 end.
Lemma count_skip_accounts k s : total (count_skip k s) - ps_duplicates (count_skip k s) = total s - ps_duplicates s + accounts k.
Proof.
  unfold count_skip. rewrite total_add_assign.
  destruct k as [[]| |[]]; unfold total, add_assign; cbn; lia.
Qed.

Lemma tick_unaccounted t c : unaccounted (tick t c) = unaccounted c + match t with
  | TSkip k => - accounts k | TForwarded => -1 | TSeen => 1 | TEnumError | TWriteFailure _ => 0 end.
Proof.
  unfold unaccounted, accounted. destruct t as [k| | | |n]; cbn [tick ct_skips ct_forwarded ct_assets_seen]; try lia.
  rewrite count_skip_accounts. lia.
Qed.
Lemma tick_troubles t c : troubles (tick t c) = troubles c + match t with TEnumError => 1 | TWriteFailure n => n | _ => 0 end.
Proof. unfold troubles. destruct t; cbn; lia. Qed.
Lemma tick_visited t c : visited (tick t c) = visited c + match t with TSkip KDuplicate | TSeen => 1 | _ => 0 end.
Proof. unfold visited. destruct t as [[]| | | |]; cbn; lia. Qed.

Section Steps.
Context {St : Type} `{SourceStore St, LegacyOwnerStore St, DownloadStateStore St, MembershipStore St, DownloadFinalizationStore St,
  FileHashes St, TouchStore St}.
Context `{FilterEnv, StateEnv} {AnyError : Type}.
Context (ps : PassSettings) (fuel : nat) (is_cancelled : St → bool) (now : St → Z) (available_disk_space : St → option Z).
Context (cancel : St → St) (send : DownloadTask → St → St * bool).
Context (library_order : gmap str (list str) → list (str * list str)).

(** Steps that account for no asset and may count troubles. *)
Definition quiet {A} (m : Step St A) : Prop :=
  ∀ p p' a, m p = Some (p', a) → unaccounted (pd_counts p') = unaccounted (pd_counts p) ∧
    troubles (pd_counts p) <= troubles (pd_counts p') ∧ visited (pd_counts p') = visited (pd_counts p).

Lemma quiet_same {A} (m : Step St A) : (∀ p p' a, m p = Some (p', a) → pd_counts p' = pd_counts p) → quiet m.
Proof. intros Hm p p' a E. rewrite (Hm _ _ _ E). lia. Qed.
Lemma quiet_ret {A} (a : A) : quiet (mret a).
Proof. apply quiet_same. by intros p p' b [= <- <-]. Qed.
Lemma quiet_bind {A B} (m : Step St A) (k : A → Step St B) : quiet m → (∀ a, quiet (k a)) → quiet (m ≫= k).
Proof.
  intros Hm Hk p p' b E. unfold mbind, Step_bind in E. destruct (m p) as [[p1 a]|] eqn:Em; [|done].
  apply Hm in Em. apply Hk in E. lia.
Qed.
Lemma quiet_on_db {A} (op : St → St * A) : quiet (on_db op).
Proof. apply quiet_same. intros p p' a. unfold on_db. destruct (op _). by intros [= <- <-]. Qed.
Lemma quiet_on_planner {A} (op : TaskPlanner → TaskPlanner * A) : quiet (on_planner op : Step St A).
Proof. apply quiet_same. intros p p' a. unfold on_planner. destruct (op _). by intros [= <- <-]. Qed.
Lemma quiet_on_both {A} (op : TaskPlanner → St → TaskPlanner * St * A) : quiet (on_both op).
Proof. apply quiet_same. intros p p' a. unfold on_both. destruct (op _ _) as [[]]. by intros [= <- <-]. Qed.
Lemma quiet_on_claims {A} (op : gset (str * str) → St → gset (str * str) * St * A) : quiet (on_claims op).
Proof. apply quiet_same. intros p p' a. unfold on_claims. destruct (op _ _) as [[]]. by intros [= <- <-]. Qed.
Lemma quiet_insert_name name : quiet (insert_name name : Step St bool).
Proof. apply quiet_same. by intros p p' a [= <- <-]. Qed.
Lemma quiet_read {A} (f : St → A) : quiet (read f).
Proof. apply quiet_same. by intros p p' a [= <- <-]. Qed.
Lemma quiet_edit touched space sent : quiet (edit touched id space sent : Step St unit).
Proof. apply quiet_same. by intros p p' a [= <- <-]. Qed.
Lemma quiet_write_failure n : 0 <= n → quiet (count (TWriteFailure n) : Step St unit).
Proof. intros Hn p p' a [= <- <-]. cbn [pd_counts]. rewrite tick_unaccounted, tick_troubles, tick_visited. lia. Qed.
Lemma quiet_failed {A} (r : result StateError A) : quiet (count_failed r : Step St unit).
Proof. destruct r; [apply quiet_ret|by apply quiet_write_failure]. Qed.
Lemma quiet_plan asset : quiet (plan_step ps fuel asset : Step St _).
Proof.
  apply quiet_same. intros p p' a. unfold plan_step. destruct (plan_asset _ _ _ _) as [[]|]; [|done]. by intros [= <- <-].
Qed.
End Steps.
#[export] Hint Resolve quiet_ret quiet_bind quiet_on_db quiet_on_planner quiet_on_both quiet_on_claims quiet_insert_name quiet_read
  quiet_edit quiet_failed quiet_plan : quiet.
#[export] Hint Extern 1 (quiet (count (TWriteFailure 1))) => apply quiet_write_failure; lia : quiet.

(** Through binds and case distinctions. *)
Ltac quiet := intros; repeat first
  [ solve [auto with quiet]
  | apply quiet_bind; [|intros ?]
  | match goal with |- quiet (match ?x with _ => _ end) => destruct x end ].

Section Accounting.
Context {St : Type} `{SourceStore St, LegacyOwnerStore St, DownloadStateStore St, MembershipStore St, DownloadFinalizationStore St,
  FileHashes St, TouchStore St}.
Context `{FilterEnv, StateEnv} {AnyError : Type}.
Context (ps : PassSettings) (fuel : nat) (is_cancelled : St → bool) (now : St → Z) (available_disk_space : St → option Z).
Context (cancel : St → St) (send : DownloadTask → St → St * bool).
Context (library_order : gmap str (list str) → list (str * list str)).

Lemma quiet_refresh ctx lib asset : quiet (refresh_metadata_before_planning ps ctx lib asset : Step St _).
Proof. unfold refresh_metadata_before_planning. quiet. Qed.
Lemma quiet_record ctx asset : quiet (record_asset ps ctx asset : Step St _).
Proof. unfold record_asset. pose proof quiet_refresh. quiet. Qed.
Lemma quiet_weigh available size : quiet (λ p : Producer St, let '(sp, bail) := forecast_check available size (pd_space p) in
  '(p, _) ← edit [] id (λ _, sp) [] p; Some (p, bail)).
Proof. apply quiet_same. intros p p' a. destruct (forecast_check _ _ _). by intros [= <- <-]. Qed.
Lemma quiet_forward asset task : quiet (forward ps now available_disk_space cancel send asset task : Step St _).
Proof. unfold forward. pose proof quiet_weigh. quiet. Qed.
Lemma quiet_check_disk ctx asset refreshed task : quiet (check_disk ps now available_disk_space cancel send ctx asset refreshed task : Step St _).
Proof. unfold check_disk. pose proof quiet_forward. quiet. Qed.
Lemma quiet_task ctx asset refreshed task : quiet (process_task ps now available_disk_space cancel send ctx asset refreshed task : Step St _).
Proof. unfold process_task. pose proof quiet_forward. pose proof quiet_check_disk. quiet. Qed.
Lemma quiet_tasks ctx asset refreshed tasks : ∀ d, quiet (process_tasks ps now available_disk_space cancel send ctx asset refreshed tasks d : Step St _).
Proof. pose proof quiet_task. induction tasks; intros d; cbn [process_tasks]; quiet. Qed.

(** What a step can answer. *)
Definition answers {A} (P : A → Prop) (m : Step St A) : Prop := ∀ p p' a, m p = Some (p', a) → P a.
Lemma answers_ret {A} (P : A → Prop) a : P a → answers P (mret a).
Proof. by intros Ha p p' b [= <- <-]. Qed.
Lemma answers_bind {A B} (P : B → Prop) (m : Step St A) (k : A → Step St B) : (∀ a, answers P (k a)) → answers P (m ≫= k).
Proof. intros Hk p p' b E. unfold mbind, Step_bind in E. destruct (m p) as [[p1 a]|]; [|done]. by eapply Hk. Qed.

(** Every planned task is decided. *)
Lemma task_decided ctx asset refreshed task :
  answers (λ fd, fd.2 ≠ Unresolved) (process_task ps now available_disk_space cancel send ctx asset refreshed task).
Proof.
  unfold process_task, check_disk.
  repeat first [ apply answers_ret; done | apply answers_bind; intros ?
               | match goal with |- answers _ (match ?x with _ => _ end) => destruct x end ].
Qed.
Lemma disposition_max_decided a b : a ≠ Unresolved ∨ b ≠ Unresolved → disposition_max a b ≠ Unresolved.
Proof. destruct a, b; cbn; naive_solver. Qed.
Lemma tasks_decided ctx asset refreshed tasks : ∀ d, d ≠ Unresolved ∨ tasks ≠ [] →
  answers (λ fd, fd.2 ≠ Unresolved) (process_tasks ps now available_disk_space cancel send ctx asset refreshed tasks d).
Proof.
  induction tasks as [|task tasks IH]; intros d Hd; cbn [process_tasks]; [apply answers_ret; by destruct Hd|].
  intros p p' fd E. unfold mbind, Step_bind in E.
  destruct (process_task _ _ _ _ _ _ _ _ task p) as [[p1 [f d1]]|] eqn:Et; [|done]. apply task_decided in Et. cbn in Et.
  destruct f; [|injection E as <- <-; cbn; apply disposition_max_decided; by right].
  eapply IH; [|done]. left. apply disposition_max_decided. by right.
Qed.

(** *** The invariant of the loop *)

(** Steps that account for [- n] assets. *)
Definition shifts {A} (n : Z) (m : Step St A) : Prop :=
  ∀ p p' a, m p = Some (p', a) → unaccounted (pd_counts p') = unaccounted (pd_counts p) + n ∧
    troubles (pd_counts p) <= troubles (pd_counts p') ∧ visited (pd_counts p') = visited (pd_counts p).
Lemma shifts_quiet {A} (m : Step St A) : quiet m → shifts 0 m.
Proof. intros Hm p p' a E. apply Hm in E. lia. Qed.
Lemma shifts_bind {A B} n k (m : Step St A) (f : A → Step St B) : shifts n m → (∀ a, shifts k (f a)) → shifts (n + k) (m ≫= f).
Proof.
  intros Hm Hf p p' b E. unfold mbind, Step_bind in E. destruct (m p) as [[p1 a]|] eqn:Em; [|done].
  apply Hm in Em. apply Hf in E. lia.
Qed.
Lemma shifts_after {A B} k (m : Step St A) (f : A → Step St B) : quiet m → (∀ a, shifts k (f a)) → shifts k (m ≫= f).
Proof. intros Hm Hf. apply (shifts_bind 0); [by apply shifts_quiet|done]. Qed.
Lemma shifts_before {A B} n (m : Step St A) (f : A → Step St B) : shifts n m → (∀ a, quiet (f a)) → shifts n (m ≫= f).
Proof. intros Hm Hf. rewrite <- (Z.add_0_r n). apply shifts_bind; [done|]. intros a. by apply shifts_quiet. Qed.
Lemma shifts_skip k : k ≠ KDuplicate → shifts (- accounts k) (skip k : Step St unit).
Proof. intros Hk p p' a [= <- <-]. cbn [pd_counts]. rewrite tick_unaccounted, tick_troubles, tick_visited. destruct k; [|done|]; lia. Qed.
Lemma shifts_seen (p p' : Producer St) : count TSeen p = Some (p', tt) → unaccounted (pd_counts p') = unaccounted (pd_counts p) + 1 ∧
  troubles (pd_counts p') = troubles (pd_counts p) ∧ visited (pd_counts p') = visited (pd_counts p) + 1.
Proof. intros [= <-]. cbn [pd_counts]. rewrite tick_unaccounted, tick_troubles, tick_visited. lia. Qed.
Lemma shifts_dispose d : d ≠ Unresolved → shifts (-1) (dispose d : Step St unit).
Proof.
  intros Hd p p' a. destruct d; [done|..]; intros [= <- <-]; cbn [pd_counts]; rewrite tick_unaccounted, tick_troubles, tick_visited; cbn [accounts]; lia.
Qed.
Lemma shifts_nothing_planned ctx asset refreshed : shifts (-1) (nothing_planned ps now ctx asset refreshed : Step St unit).
Proof.
  unfold nothing_planned. apply shifts_after; [quiet|intros _]. apply shifts_after; [quiet|intros failures].
  apply shifts_after.
  { destruct (Z.ltb_spec 0 failures); [apply quiet_write_failure; lia|quiet]. }
  intros _. apply shifts_after; [destruct (pc_has_db ps); [apply quiet_edit|quiet]|intros _]. by apply (shifts_skip (KDisposition OnDisk)).
Qed.

(** At most the troubles stay unaccounted; [n] assets are taken. *)
Definition balanced (c : Counts) : Prop := 0 <= unaccounted c <= troubles c.
Definition keeps_balance (n : Z) (m : Step St Flow) : Prop :=
  ∀ p p', m p = Some (p', Next) → balanced (pd_counts p) → balanced (pd_counts p') ∧ visited (pd_counts p') = visited (pd_counts p) + n.

Lemma balance_trouble t (p p' : Producer St) : count t p = Some (p', tt) → t = TEnumError ∨ t = TWriteFailure 1 →
  unaccounted (pd_counts p') = unaccounted (pd_counts p) ∧ troubles (pd_counts p') = troubles (pd_counts p) + 1 ∧ visited (pd_counts p') = visited (pd_counts p).
Proof. intros [= <-] [-> | ->]; cbn [pd_counts]; rewrite tick_unaccounted, tick_troubles, tick_visited; lia. Qed.

Lemma record_balance ctx asset (p p' : Producer St) r : record_asset ps ctx asset p = Some (p', r) →
  unaccounted (pd_counts p') = unaccounted (pd_counts p) ∧
  troubles (pd_counts p) + (if r then 0 else 1) <= troubles (pd_counts p') ∧ visited (pd_counts p') = visited (pd_counts p).
Proof.
  intros E. pose proof (quiet_record ctx asset _ _ _ E) as (Hu & Ht & Hv). split; [done|]. split; [|done]. destruct r; [lia|]. revert E.
  unfold record_asset. destruct (pc_has_db ps); [|done].
  unfold mbind at 1, Step_bind. destruct (on_db _ p) as [[p1 r1]|] eqn:E1; [|done]. apply (quiet_on_db _ p) in E1.
  unfold mbind at 1, Step_bind. destruct (count_failed r1 p1) as [[p2 []]|] eqn:E2; [|done]. apply quiet_failed in E2.
  unfold mbind at 1, Step_bind.
  match goal with |- match ?m with _ => _ end = _ → _ => destruct m as [[p3 [a|e]]|] eqn:E3; [| |done] end.
  - unfold mbind, Step_bind. destruct (refresh_metadata_before_planning _ _ _ _ _) as [[? ?]|]; [|done]. done.
  - intros [= <-]. cbn [pd_counts]. rewrite tick_troubles.
    assert (Hq : quiet (if excluded_here ps asset then mret (Ok asset)
      else r ← on_claims (λ claimed s, let '(claimed, db, r) := select_asset_state_record_name_for_download ctx (Some s)
                (effective_asset_library asset (pc_config ps)) asset claimed in (claimed, default s db, r));
           mret (match r with Ok name => Ok (set_state_record_name name asset) | Err e => Err e end) : Step St (result StateError PhotoAsset)))
      by quiet.
    apply Hq in E3. lia.
Qed.

Lemma asset_balance ctx asset : keeps_balance 1 (process_asset ps fuel now available_disk_space cancel send ctx asset).
Proof.
  intros p p' E Hb. unfold process_asset in E. unfold mbind at 1, Step_bind in E.
  destruct (insert_name _ p) as [[p0 fresh]|] eqn:E0; [|done]. apply quiet_insert_name in E0.
  destruct fresh; cbn [negb] in E.
  2: { unfold mbind, Step_bind in E. destruct (skip KDuplicate p0) as [[p1 []]|] eqn:E1; [|done]. injection E as <-.
       injection E1 as <-. cbn [pd_counts]. unfold balanced in *. rewrite tick_unaccounted, tick_troubles, tick_visited. cbn [accounts]. lia. }
  unfold mbind at 1, Step_bind in E. destruct (count TSeen p0) as [[p1 []]|] eqn:E1; [|done]. apply shifts_seen in E1.
  unfold mbind at 1, Step_bind in E. destruct (record_asset ps ctx asset p1) as [[p2 [[a refreshed]|]]|] eqn:E2; [| |done].
  2: { injection E as <-. apply record_balance in E2. unfold balanced in *. lia. }
  apply record_balance in E2. unfold mbind at 1, Step_bind in E.
  destruct (plan_step ps fuel a p2) as [[p3 plan]|] eqn:E3; [|done]. apply quiet_plan in E3.
  destruct (atp_filter_reason plan) as [reason|].
  { unfold mbind, Step_bind in E. destruct (skip _ p3) as [[p4 []]|] eqn:E4; [|done]. injection E as <-.
    apply (shifts_skip (KFilter reason)) in E4; [|done]. cbn [accounts] in E4. unfold balanced in *. lia. }
  destruct (atp_malformed_resource plan) as [malformed|].
  { unfold mbind, Step_bind in E. destruct (count TEnumError p3) as [[p4 []]|] eqn:E4; [|done]. injection E as <-.
    apply balance_trouble in E4; [|by left]. unfold balanced in *. lia. }
  destruct (atp_tasks plan) as [|task tasks] eqn:Etasks.
  { unfold mbind at 1, Step_bind in E. destruct (nothing_planned _ _ _ _ _ p3) as [[p4 []]|] eqn:E4; [|done]. injection E as <-.
    apply shifts_nothing_planned in E4. unfold balanced in *. lia. }
  unfold mbind at 1, Step_bind in E.
  destruct (process_tasks _ _ _ _ _ _ _ _ _ _ p3) as [[p4 [f d]]|] eqn:E4; [|done].
  pose proof (quiet_tasks _ _ _ _ _ _ _ _ E4) as Hq. apply tasks_decided in E4; [|by right]. cbn in E4.
  destruct f; [|done]. unfold mbind, Step_bind in E. destruct (dispose d p4) as [[p5 []]|] eqn:E5; [|done]. injection E as <-.
  apply shifts_dispose in E5; [|done]. unfold balanced in *. lia.
Qed.

Definition assets_of (items : list (result AnyError PhotoAsset)) : Z :=
  foldr (λ i n, match i with Ok _ => 1 + n | Err _ => n end) 0 items.

Lemma produce_balance ctx items : ∀ p p',
  produce (AnyError := AnyError) ps fuel is_cancelled now available_disk_space cancel send ctx items p = Some (p', Next) →
  balanced (pd_counts p) →
  balanced (pd_counts p') ∧ (is_cancelled (pd_store p') = false → visited (pd_counts p') = visited (pd_counts p) + assets_of items).
Proof.
  induction items as [|item items IH]; intros p p' E Hb; cbn [produce] in E.
  { injection E as <-. split; [done|]. cbn. lia. }
  unfold mbind at 1, Step_bind, read in E. destruct (is_cancelled (pd_store p)) eqn:Ec; [injection E as <-; by rewrite Ec|].
  unfold mbind at 1, Step_bind in E.
  match type of E with match ?m with _ => _ end = _ => destruct m as [[p1 f]|] eqn:E1; [|done] end.
  destruct f; [|done]. apply IH in E as [Hb' Hv].
  2: { destruct item as [asset|e]; [by destruct (asset_balance _ _ _ _ E1 Hb)|].
       unfold mbind, Step_bind in E1. destruct (count TEnumError p) as [[p2 []]|] eqn:E2; [|done]. injection E1 as <-.
       apply balance_trouble in E2; [|by left]. unfold balanced in *. lia. }
  split; [done|]. intros Hc. rewrite (Hv Hc). destruct item as [asset|e].
  - destruct (asset_balance _ _ _ _ E1 Hb) as [_ ->].
    change (assets_of (Ok asset :: items)) with (1 + assets_of items). lia.
  - unfold mbind, Step_bind in E1. destruct (count TEnumError p) as [[p2 []]|] eqn:E2; [|done]. injection E1 as <-.
    apply balance_trouble in E2; [|by left].
    change (assets_of (Err e :: items)) with (assets_of items). lia.
Qed.
End Accounting.

(** ** What the calls of a pass leave alone *)

(** [P] survives every call the producer makes. *)
Record Stable {St : Type} `{SourceStore St, LegacyOwnerStore St, DownloadStateStore St, MembershipStore St, DownloadFinalizationStore St,
  FileHashes St, TouchStore St} `{FilterEnv} (cancel : St → St) (send : DownloadTask → St → St * bool) (P : St → Prop) : Prop := {
  stable_refresh l a m b b' z s : P s → P (so_refresh_downloaded_asset_metadata l a m b b' z s).1;
  stable_claim l m c s : P s → P (db_claim_legacy_master_state_owner l m c s).1;
  stable_mapping l a m s : P s → P (db_upsert_asset_master_mapping l a m s).1;
  stable_seen r s : P s → P (db_upsert_seen r s).1;
  stable_album l a n src s : P s → P (db_add_asset_album l a n src s).1;
  stable_downloaded w s : P s → P (db_mark_downloaded_with_capture_repair w s).1;
  stable_failed k e s : P s → P (db_mark_failed k e s).1;
  stable_marker k s : P s → P (db_record_metadata_write_failure k s).1;
  stable_hash q s : P s → P (so_compute_sha256 q s).1;
  stable_touch l ids s : P s → P (db_touch_last_seen_many l ids s).1;
  stable_cancel s : P s → P (cancel s);
  stable_send t s : P s → P (send t s).1;
}.

Section Stable.
Context {St : Type} `{SourceStore St, LegacyOwnerStore St, DownloadStateStore St, MembershipStore St, DownloadFinalizationStore St,
  FileHashes St, TouchStore St}.
Context `{FilterEnv, StateEnv} {AnyError : Type}.
Context (ps : PassSettings) (fuel : nat) (is_cancelled : St → bool) (now : St → Z) (available_disk_space : St → option Z).
Context (cancel : St → St) (send : DownloadTask → St → St * bool).
Context (library_order : gmap str (list str) → list (str * list str)).
Context (P : St → Prop) (HP : Stable cancel send P).

(** The calls below, one at a time. *)
Ltac calls := repeat (first
  [ done
  | match goal with
    | Hs : P ?s |- context [so_compute_sha256 ?q ?s] =>
        let Hn := fresh in pose proof (stable_hash _ _ _ HP q s Hs) as Hn; destruct (so_compute_sha256 q s) as [? []]; cbn [fst] in Hn
    | Hs : P ?s |- context [db_upsert_asset_master_mapping ?l ?a ?m ?s] =>
        let Hn := fresh in pose proof (stable_mapping _ _ _ HP l a m s Hs) as Hn;
        destruct (db_upsert_asset_master_mapping l a m s) as [? []]; cbn [fst] in Hn
    | Hs : P ?s |- context [db_upsert_seen ?r ?s] =>
        let Hn := fresh in pose proof (stable_seen _ _ _ HP r s Hs) as Hn; destruct (db_upsert_seen r s) as [? []]; cbn [fst] in Hn
    | Hs : P ?s |- context [db_mark_downloaded_with_capture_repair ?w ?s] =>
        let Hn := fresh in pose proof (stable_downloaded _ _ _ HP w s Hs) as Hn;
        destruct (db_mark_downloaded_with_capture_repair w s) as [? []]; cbn [fst] in Hn
    | |- context [match ?x with _ => _ end] => destruct x
    end ]; cbn [fst snd]).

Lemma seen_for_task_stable n a t s : P s → P (upsert_seen_for_task n a t s).1.
Proof. intros Hs. unfold upsert_seen_for_task, planner_upsert_asset_master_mapping. calls. Qed.

Lemma size_matches_stable q n e c c' s : P s → P (size_matches_state q n e c c' s).1.
Proof. intros Hs. unfold size_matches_state. calls. Qed.
Lemma adoption_size_stable q n n' r s : P s → P (pending_file_size_allows_adoption q n n' r s).1.
Proof.
  intros Hs. unfold pending_file_size_allows_adoption.
  match goal with |- context [size_matches_state ?a ?b ?c ?d ?e ?f] => pose proof (size_matches_stable a b c d e f Hs) as Hn;
    destruct (size_matches_state a b c d e f) end. done.
Qed.
Lemma skip_size_stable q n n' r s : P s → P (state_path_size_allows_skip q n n' r s).1.
Proof.
  intros Hs. unfold state_path_size_allows_skip.
  match goal with |- context [size_matches_state ?a ?b ?c ?d ?e ?f] => pose proof (size_matches_stable a b c d e f Hs) as Hn;
    destruct (size_matches_state a b c d e f) end. done.
Qed.
Lemma mark_stable l a v q b s : P s → P (mark_pending_downloaded_from_existing_path l a v q b s).1.
Proof. intros Hs. unfold mark_pending_downloaded_from_existing_path. calls. Qed.

Lemma adopt_task_stable n b a task r t s : P s → P (adopt_pending_task_path n b a task r t s).1.2.
Proof.
  intros Hs. unfold adopt_pending_task_path. destruct (existing_path_with_size _ t) as [t1 [[q z]|]]; [|done].
  pose proof (adoption_size_stable q z (dt_size task) r s Hs) as Ha.
  destruct (pending_file_size_allows_adoption q z (dt_size task) r s) as [s1 []]; cbn [fst] in Ha; [|done].
  pose proof (seen_for_task_stable n a task s1 Ha) as Hb. destruct (upsert_seen_for_task n a task s1) as [s2 []]; cbn [fst] in Hb; [|done].
  pose proof (mark_stable (dt_library task) a (dt_version_size task) q b s2 Hb) as Hc.
  by destruct (mark_pending_downloaded_from_existing_path _ _ _ _ _ s2).
Qed.
Lemma adopt_derived_stable n b l a d q r t s : P s → P (adopt_pending_derived_path_at n b l a d q r t s).1.2.
Proof.
  intros Hs. unfold adopt_pending_derived_path_at. destruct (existing_path_with_size _ t) as [t1 [[q' z]|]]; [|done].
  pose proof (adoption_size_stable q' z (dp_size d) r s Hs) as Ha.
  destruct (pending_file_size_allows_adoption q' z (dp_size d) r s) as [s1 []]; cbn [fst] in Ha; [|done].
  pose proof (stable_seen _ _ _ HP (asset_record_for_derived_path n l a d) s1 Ha) as Hb.
  destruct (db_upsert_seen _ s1) as [s2 []]; cbn [fst] in Hb; [|done].
  pose proof (mark_stable l a (dp_version_size d) q' b s2 Hb) as Hc.
  by destruct (mark_pending_downloaded_from_existing_path _ _ _ _ _ s2).
Qed.
Lemma adopt_versions_stable n b ctx l a derived : ∀ k t s, P s → P (adopt_pending_versions n b ctx l a derived k t s).1.2.
Proof.
  induction derived as [|d derived IH]; intros k t s Hs; cbn [adopt_pending_versions]; [done|].
  destruct (pending_version _ _ _ _); [|by apply IH]. unfold adopt_pending_derived_path.
  match goal with |- context [adopt_pending_derived_path_at ?n ?b ?l ?a ?d ?q ?r ?t ?s] =>
    pose proof (adopt_derived_stable n b l a d q r t s Hs) as Hn; destruct (adopt_pending_derived_path_at n b l a d q r t s) as [[t1 s1] r1] end.
  by apply IH.
Qed.
Lemma adopt_skip_stable n h b c a ctx t s : P s → P (adopt_pending_on_disk_skip n h b c a ctx t s).1.2.
Proof. intros Hs. unfold adopt_pending_on_disk_skip. destruct h; [by apply adopt_versions_stable|done]. Qed.
Lemma adopt_on_disk_task_stable n h b c a ctx task t s : P s → P (adopt_pending_on_disk_task n h b c a ctx task t s).1.2.
Proof.
  intros Hs. unfold adopt_pending_on_disk_task. destruct (_ && _); [|done].
  match goal with |- context [adopt_pending_task_path ?n ?b ?a ?k ?r ?t ?s] =>
    pose proof (adopt_task_stable n b a k r t s Hs) as Hn; destruct (adopt_pending_task_path n b a k r t s) as [[t1 s1] [|]] end; [done|].
  cbn [fst snd] in Hn. revert t1 s1 Hn.
  match goal with |- context [List.filter ?f ?l] => induction (List.filter f l) as [|d derived IH] end; intros t1 s1 Hn; [done|].
  unfold adopt_pending_derived_path at 1.
  match goal with |- context [adopt_pending_derived_path_at ?n ?b ?l ?a ?d ?q ?r ?t ?s] =>
    pose proof (adopt_derived_stable n b l a d q r t s Hn) as Hm; destruct (adopt_pending_derived_path_at n b l a d q r t s) as [[t2 s2] [|]] end; [done|].
  by apply IH.
Qed.

Lemma expected_stable v r derived : ∀ t s, P s → P (recorded_is_expected v r derived t s).1.2.
Proof.
  induction derived as [|d derived IH]; intros t s Hs; cbn [recorded_is_expected]; [done|].
  case_bool_decide; [|by apply IH]. destruct (existing_path_with_size _ t) as [t1 [[q z]|]]; [|by apply IH].
  destruct (same_path _ _); [|by apply IH]. pose proof (skip_size_stable q z (dp_size d) r s Hs) as Hn.
  by destruct (state_path_size_allows_skip _ _ _ _ _).
Qed.
Lemma family_stable c a v r all derived : ∀ t s, P s → P (recorded_in_family c a v r all derived t s).1.2.
Proof.
  induction derived as [|d derived IH]; intros t s Hs; cbn [recorded_in_family]; [done|].
  destruct (_ && _); [|by apply IH]. destruct (existing_path_with_size _ t) as [t1 [[q z]|]]; [|done].
  pose proof (skip_size_stable q z (dp_size d) r s Hs) as Hn. by destruct (state_path_size_allows_skip _ _ _ _ _).
Qed.
Lemma confirmed_stable ctx c a task t s : P s → P (state_confirmed_current_path_exists ctx c a task t s).1.2.
Proof.
  intros Hs. unfold state_confirmed_current_path_exists, recorded_current_path_exists. destruct (downloaded_file _ _ _ _) as [r|]; [|done].
  match goal with |- context [recorded_is_expected ?v ?r ?d ?t ?s] =>
    pose proof (expected_stable v r d t s Hs) as Hn; destruct (recorded_is_expected v r d t s) as [[t1 s1] [|]] end; [done|].
  by apply family_stable.
Qed.
End Stable.

(** ** Tracking *)

Section Tracking.
Context {St : Type} `{SourceStore St, LegacyOwnerStore St, DownloadStateStore St, MembershipStore St, DownloadFinalizationStore St,
  FileHashes St, TouchStore St}.
Context `{FilterEnv, StateEnv} {AnyError : Type}.
Context (ps : PassSettings) (fuel : nat) (is_cancelled : St → bool) (now : St → Z) (available_disk_space : St → option Z).
Context (cancel : St → St) (send : DownloadTask → St → St * bool).
Context (library_order : gmap str (list str) → list (str * list str)).
(** The row of a key is in the store; a sighting puts it there. *)
Context (has_row : key3 → St → Prop).
Hypothesis Hrow : ∀ k, Stable cancel send (has_row k).
Hypothesis Hseen : ∀ n asset task s s', upsert_seen_for_task n asset task s = (s', Ok tt) → has_row (task_key task) s'.
Hypothesis Hdb : pc_has_db ps = true ∨ ∀ k s, has_row k s.

Abbreviation failures p := (ct_state_write_failures (pd_counts p)).

(** What is sent meanwhile has its row, unless a failure was counted; what is
    stable stays. *)
Definition tracks {A} (m : Step St A) : Prop := ∀ p p' a, m p = Some (p', a) →
  failures p <= failures p' ∧
  (∀ P, Stable cancel send P → P (pd_store p) → P (pd_store p')) ∧
  (∀ t, t ∈ pd_sent p' → t ∈ pd_sent p ∨ (failures p' = failures p → has_row (task_key t) (pd_store p'))).

Lemma tracks_bind {A B} (m : Step St A) (f : A → Step St B) : tracks m → (∀ a, tracks (f a)) → tracks (m ≫= f).
Proof.
  intros Hm Hf p p' b E. unfold mbind, Step_bind in E. destruct (m p) as [[p1 a]|] eqn:Em; [|done].
  apply Hm in Em as (M1 & M2 & M3). apply Hf in E as (F1 & F2 & F3). split; [lia|].
  split; [intros P HP Hp; apply F2; [done|]; by apply M2|]. intros t [Ht|Ht]%F3; [|right; intros; apply Ht; lia]. destruct (M3 t Ht) as [Ht'|Ht']; [by left|right].
  intros. apply (F2 _ (Hrow _)), Ht'. lia.
Qed.

(** Steps that send nothing. *)
Definition stable_op {A} (op : St → St * A) : Prop := ∀ P, Stable cancel send P → ∀ s, P s → P (op s).1.
Lemma tracks_plain {A} (m : Step St A) :
  (∀ p p' a, m p = Some (p', a) → failures p <= failures p' ∧ pd_sent p' = pd_sent p ∧
     (∀ P, Stable cancel send P → P (pd_store p) → P (pd_store p'))) → tracks m.
Proof. intros Hm p p' a E. apply Hm in E as (? & Hs & ?). split_and!; [done..|]. rewrite Hs. by left. Qed.
Lemma tracks_ret {A} (a : A) : tracks (mret a).
Proof. apply tracks_plain. intros p p' b [= <- <-]. split_and!; auto; lia. Qed.
Lemma tracks_on_db {A} (op : St → St * A) : stable_op op → tracks (on_db op).
Proof.
  intros Hop. apply tracks_plain. intros p p' a. unfold on_db. destruct (op (pd_store p)) as [s x] eqn:E. intros [= <- <-]. cbn.
  split_and!; [lia|done|]. intros P HP Hs. specialize (Hop P HP _ Hs). by rewrite E in Hop.
Qed.
Lemma tracks_on_planner {A} (op : TaskPlanner → TaskPlanner * A) : tracks (on_planner op).
Proof. apply tracks_plain. intros p p' a. unfold on_planner. destruct (op _). intros [= <- <-]. cbn. split_and!; auto; lia. Qed.
Lemma tracks_on_both {A} (op : TaskPlanner → St → TaskPlanner * St * A) :
  (∀ P, Stable cancel send P → ∀ t s, P s → P (op t s).1.2) → tracks (on_both op).
Proof.
  intros Hop. apply tracks_plain. intros p p' a. unfold on_both. destruct (op (pd_planner p) (pd_store p)) as [[t s] x] eqn:E.
  intros [= <- <-]. cbn. split_and!; [lia|done|]. intros P HP Hs. specialize (Hop P HP (pd_planner p) _ Hs). by rewrite E in Hop.
Qed.
Lemma tracks_insert name : tracks (insert_name name).
Proof. apply tracks_plain. intros p p' a [= <- <-]. cbn. split_and!; auto; lia. Qed.
Lemma tracks_read {A} (f : St → A) : tracks (read f).
Proof. apply tracks_plain. intros p p' a [= <- <-]. cbn. split_and!; auto; lia. Qed.
Lemma tracks_count t : match t with TWriteFailure n => 0 <= n | _ => True end → tracks (count t).
Proof. intros Ht. apply tracks_plain. intros p p' a [= <- <-]. cbn. rewrite app_nil_r. split_and!; auto. destruct t; lia. Qed.
Lemma tracks_touch library asset_id : tracks (touch library asset_id).
Proof. apply tracks_plain. intros p p' a [= <- <-]. cbn. rewrite app_nil_r. split_and!; auto; lia. Qed.
Lemma tracks_failed {A} (r : result StateError A) : tracks (count_failed r).
Proof. destruct r; [apply tracks_ret|by apply tracks_count]. Qed.
Lemma tracks_plan asset : tracks (plan_step ps fuel asset).
Proof.
  apply tracks_plain. intros p p' a. unfold plan_step. destruct (plan_asset _ _ _ _) as [[]|]; [|done]. intros [= <- <-].
  cbn. split_and!; auto; lia.
Qed.
Lemma tracks_weigh available size : tracks (λ p : Producer St, let '(sp, bail) := forecast_check available size (pd_space p) in
  '(p, _) ← edit [] id (λ _, sp) [] p; Some (p, bail)).
Proof.
  apply tracks_plain. intros p p' a. destruct (forecast_check _ _ _). intros [= <- <-]. cbn. rewrite app_nil_r. split_and!; auto; lia.
Qed.

Lemma claim_loop_stable n l a : stable_op (claim_loop n l a : St → _).
Proof.
  intros P HP. induction n as [|n IH]; intros s Hs; cbn [claim_loop]; [done|].
  pose proof (stable_claim _ _ _ HP l (record_name a) (asset_record_name a) s Hs) as Hn.
  destruct (db_claim_legacy_master_state_owner _ _ _ s) as [s1 [[]|e]]; [done..|]. destruct n; [done|by apply IH].
Qed.
Lemma tracks_claims ctx l a : tracks (on_claims (λ claimed s,
  let '(claimed, db, r) := select_asset_state_record_name_for_download ctx (Some s) l a claimed in (claimed, default s db, r)) : Step St _).
Proof.
  apply tracks_plain. intros p p' r. unfold on_claims, select_asset_state_record_name_for_download.
  destruct (select_asset_state_record_name _ _ _ _) as [claimed name]. destruct (negb _ || _).
  { intros [= <- <-]. cbn. split_and!; auto; lia. }
  destruct (claim_loop _ _ _ (pd_store p)) as [s x] eqn:E. intros [= <- <-]. cbn. split_and!; [lia|done|].
  intros P HP Hs. pose proof (claim_loop_stable (Z.to_nat LEGACY_OWNER_CLAIM_MAX_ATTEMPTS) l a P HP _ Hs) as Hn. by rewrite E in Hn.
Qed.

Lemma tag_versions_stable l a ctx candidates P (HP : Stable cancel send P) : ∀ s, P s → P (tag_versions l a ctx candidates s).
Proof.
  induction candidates as [|[v c] candidates IH]; intros s Hs; cbn [tag_versions]; [done|]. apply IH.
  destruct (needs_metadata_rewrite _ _ _ _ _); [by apply (stable_marker _ _ _ HP)|done].
Qed.
Lemma tag_stable a candidates ctx : stable_op (λ s, (tag_if_needed ps a candidates ctx s, tt)).
Proof. intros P HP s Hs. cbn. unfold tag_if_needed. destruct (_ && _); [by apply tag_versions_stable|done]. Qed.
Lemma album_stable c a : stable_op (record_album_membership_if_named c a : St → _).
Proof.
  intros P HP s Hs. unfold record_album_membership_if_named, add_asset_album_with_retry. destruct (album_name c) as [[|]|]; [done| |done].
  generalize (None : option StateError), (Z.to_nat ADD_ASSET_ALBUM_MAX_RETRIES). intros last n. revert last s Hs.
  induction n as [|n IH]; intros last s Hs; cbn [add_album_loop]; [done|].
  match goal with |- context [db_add_asset_album ?l ?i ?n ?src s] => pose proof (stable_album _ _ _ HP l i n src s Hs) as Hn;
    destruct (db_add_asset_album l i n src s) as [s1 []] end; [done|by apply IH].
Qed.

(** *** Sending *)

Lemma tracks_forward asset task : tracks (forward ps now available_disk_space cancel send asset task).
Proof.
  unfold forward. intros p p' flow E.
  unfold mbind at 1, Step_bind in E.
  match type of E with match ?m p with _ => _ end = _ => set (announce := m) in *; destruct (announce p) as [[p1 []]|] eqn:E1; [|done] end.
  assert (Hrec : tracks announce).
  { unfold announce. destruct (pc_has_db ps); [|apply tracks_ret]. apply tracks_bind; [|intros; apply tracks_failed]. apply tracks_on_db. intros P HP s Hs. by eapply seen_for_task_stable. }
  pose proof (Hrec _ _ _ E1) as (F1 & S1 & T1).
  assert (Hk : failures p1 = failures p → has_row (task_key task) (pd_store p1)).
  { destruct Hdb as [Hdb'|Hall]; [|by intros]. unfold announce in E1. rewrite Hdb' in E1. unfold mbind, Step_bind, on_db in E1. destruct (upsert_seen_for_task _ _ _ _) as [s1 [[]|e]] eqn:Es.
    - injection E1 as <-. intros _. by eapply Hseen.
    - injection E1 as <-. cbn. lia. }
  assert (Hrest : ∀ t, t ∈ pd_sent p1 → t ∈ pd_sent p ∨ (failures p1 = failures p → has_row (task_key t) (pd_store p1))) by done.
  clear E1 T1.
  unfold mbind at 1, Step_bind in E. destruct (on_db (send task) p1) as [[p2 sent]|] eqn:E2; [|done].
  assert (tracks (on_db (send task))) as Hsend by (apply tracks_on_db; intros P HP s Hs; by apply (stable_send _ _ _ HP)).
  pose proof (Hsend _ _ _ E2) as (F2 & S2 & T2).
  assert (Hsent2 : pd_sent p2 = pd_sent p1) by (revert E2; unfold on_db; destruct (send task _); by intros [= <- <-]). clear E2 T2 Hsend.
  destruct sent.
  2: { injection E as <- <-. split; [lia|]. split; [intros P HP Hp; apply S2; [done|]; by apply S1|]. intros t Ht. rewrite Hsent2 in Ht.
       destruct (Hrest t Ht) as [?|Hr]; [by left|right]. intros. apply (S2 _ (Hrow _)), Hr. lia. }
  unfold mbind at 1, Step_bind in E.
  match type of E with match ?m with _ => _ end = _ => destruct m as [[p3 []]|] eqn:E3; [|done] end.
  assert (Hp3 : failures p3 = failures p2 ∧ pd_store p3 = pd_store p2 ∧ pd_sent p3 = pd_sent p2 ++ [task]) by (by injection E3 as <-).
  destruct Hp3 as (F3 & S3 & Hsent3). clear E3.
  match type of E with ?m p3 = _ => assert (Hend : tracks m) end.
  { apply tracks_bind; [apply tracks_read|intros available]. apply tracks_bind; [apply tracks_weigh|intros []]; [|apply tracks_ret].
    apply tracks_bind; [|intros; apply tracks_ret]. apply tracks_on_db. intros P HP s Hs. by apply (stable_cancel _ _ _ HP). }
  apply Hend in E as (F4 & S4 & T4). split; [lia|]. split; [intros P HP Hp; apply S4; [done|]; rewrite S3; apply S2; [done|]; by apply S1|].
  intros t [Ht|Ht]%T4; [|right; intros; apply Ht; lia]. rewrite Hsent3, Hsent2 in Ht. apply elem_of_app in Ht as [Ht| ->%list_elem_of_singleton].
  - destruct (Hrest t Ht) as [?|Hr]; [by left|right]. intros. apply (S4 _ (Hrow _)). rewrite S3. apply (S2 _ (Hrow _)), Hr. lia.
  - right. intros. apply (S4 _ (Hrow _)). rewrite S3. apply (S2 _ (Hrow _)), Hk. lia.
Qed.

(** Through binds and case distinctions. *)
Ltac tracks := intros; repeat first
  [ solve [auto]
  | apply tracks_ret | apply tracks_insert | apply tracks_read | apply tracks_failed | apply tracks_plan | apply tracks_claims
  | apply tracks_touch | apply tracks_on_planner
  | apply tracks_count; first [done|lia]
  | apply tracks_bind; [|intros ?]
  | match goal with |- tracks (match ?x with _ => _ end) => destruct x end ].

Lemma tracks_refresh ctx lib asset : tracks (refresh_metadata_before_planning ps ctx lib asset).
Proof.
  unfold refresh_metadata_before_planning. tracks. apply tracks_on_db. intros P HP s Hs. by apply (stable_refresh _ _ _ HP).
Qed.
Lemma tracks_record ctx asset : tracks (record_asset ps ctx asset).
Proof.
  unfold record_asset, planner_upsert_asset_master_mapping. pose proof tracks_refresh. tracks.
  apply tracks_on_db. intros P HP s Hs. by apply (stable_mapping _ _ _ HP).
Qed.
Lemma tracks_tag asset candidates ctx : tracks (on_db (λ s : St, (tag_if_needed ps asset candidates ctx s, tt))).
Proof. apply tracks_on_db, tag_stable. Qed.
Lemma tracks_check_disk ctx asset refreshed task : tracks (check_disk ps now available_disk_space cancel send ctx asset refreshed task).
Proof.
  unfold check_disk. pose proof tracks_forward. pose proof tracks_tag. tracks.
  apply tracks_on_both. intros P HP t s Hs. by eapply confirmed_stable.
Qed.
Lemma tracks_task ctx asset refreshed task : tracks (process_task ps now available_disk_space cancel send ctx asset refreshed task).
Proof.
  unfold process_task. pose proof tracks_forward. pose proof tracks_check_disk. tracks.
  - apply tracks_on_db. intros P HP s Hs. by apply (stable_failed _ _ _ HP).
  - apply tracks_on_db, album_stable.
  - apply tracks_on_both. intros P HP t s Hs. by eapply adopt_on_disk_task_stable.
Qed.
Lemma tracks_tasks ctx asset refreshed tasks : ∀ d, tracks (process_tasks ps now available_disk_space cancel send ctx asset refreshed tasks d).
Proof. pose proof tracks_task. induction tasks; intros d; cbn [process_tasks]; tracks. Qed.
Lemma tracks_dispose d : tracks (dispose d).
Proof. unfold dispose, skip. tracks. Qed.
Lemma tracks_nothing_planned ctx asset refreshed : tracks (nothing_planned ps now ctx asset refreshed).
Proof.
  unfold nothing_planned, skip. pose proof tracks_tag. apply tracks_bind; [tracks|intros _]. apply tracks_bind.
  { apply tracks_on_both. intros P HP t s Hs. by eapply adopt_skip_stable. }
  intros failures. apply tracks_bind; [|tracks]. destruct (Z.ltb_spec 0 failures); tracks.
Qed.
Lemma tracks_asset ctx asset : tracks (process_asset ps fuel now available_disk_space cancel send ctx asset).
Proof.
  unfold process_asset, skip. pose proof tracks_record. pose proof tracks_tasks. pose proof tracks_dispose. pose proof tracks_nothing_planned. tracks.
Qed.
Lemma tracks_produce ctx items :
  tracks (produce (AnyError := AnyError) ps fuel is_cancelled now available_disk_space cancel send ctx items).
Proof. pose proof tracks_asset. induction items; cbn [produce]; tracks. Qed.

Lemma touch_libraries_stable P (HP : Stable cancel send P) libs : ∀ s, P s → P (touch_libraries libs s).
Proof.
  induction libs as [|[l ids] libs IH]; intros s Hs; cbn [touch_libraries]; [done|]. apply IH. by apply (stable_touch _ _ _ HP).
Qed.

(** C21: When the producer of a streaming download reports that the enumeration
    is complete, it has taken every asset of the stream; each of them was
    skipped for a counted reason, forwarded, or is behind a counted error - and
    every task the downloaders received has its row in the store, unless a
    failed write is counted, so a finished file is never untracked silently. *)
Theorem producer_settles_stream ctx items free s p :
  spawn_stream_download_producer (AnyError := AnyError) ps fuel is_cancelled now available_disk_space cancel send library_order ctx items free s
    = Some (p, true) →
  let c := pd_counts p in
  ct_assets_seen c + ps_duplicates (ct_skips c) = assets_of items ∧
  0 <= ct_assets_seen c - accounted c <= ct_enum_errors c + ct_state_write_failures c ∧
  (ct_state_write_failures c = 0 → Forall (λ t, has_row (task_key t) (pd_store p)) (pd_sent p)).
Proof.
  unfold spawn_stream_download_producer. destruct (produce _ _ _ _ _ _ _ _ _ _) as [[p1 flow]|] eqn:E; [|done]. cbn [mbind option_bind].
  destruct flow; [|done]. intros [= <- Hc]. apply negb_true_iff in Hc. cbn [set_all pd_counts pd_store pd_sent].
  pose proof (produce_balance _ _ _ _ _ _ _ _ _ _ _ E) as [Hb Hv]; [unfold balanced, unaccounted, accounted, troubles, total; cbn; lia|].
  specialize (Hv Hc). split; [exact Hv|]. split; [exact Hb|]. intros Hf.
  destruct (tracks_produce _ _ _ _ _ E) as (_ & _ & Ht). apply Forall_forall. intros t Hin. apply Ht in Hin as [Hin|Hin]; [by apply not_elem_of_nil in Hin|].
  assert (Hrow1 : has_row (task_key t) (pd_store p1)) by (apply Hin; rewrite Hf; done).
  destruct (_ && _); [|done]. by apply (touch_libraries_stable _ (Hrow _)).
Qed.
End Tracking.

(** ** A pass over the SQLite store *)

Module ProducerRuns.
Import StateDbSpec.Samples.
#[export] Existing Instance sample_filter_env.
#[export] Instance unreadable : FileHashes SourceDb := { so_compute_sha256 _ s := (s, Err tt) }.
#[export] Instance touches : TouchStore SourceDb := {
  db_touch_last_seen_many l ids s := scall (on_rows (λ d, Ok (touch_last_seen_many (sd_now s) l ids d, tt))) s
}.

Definition row (k : key3) (s : SourceDb) : Prop := has_row k (sd_db s).
(** The downloader stores every file at once. *)
Definition send (t : DownloadTask) (s : SourceDb) : SourceDb * bool :=
  ((db_mark_downloaded_with_capture_repair (task_write t (lit "sha") None false) s).1, true).

(** A call that is an operation of the store, and deletes nothing. *)
Lemma exec_kept {A} (o : Op) (op : Db → result StateError (Db * A)) k s :
  (∀ d d' x, op d = Ok (d', x) → exec o d = Ok d') → prunes k o = false → row k s → row k (scall (on_rows op) s).1.
Proof.
  intros Hop Ho Hs. unfold scall, on_rows, row in *. destruct (sd_faults s) as [|[]]; [|done|];
    (destruct (op (sd_db s)) as [[d x]|] eqn:E; [apply Hop in E; by eapply exec_has_row|done]).
Qed.
Lemma exec_kept_pure {A} (o : Op) (f : Db → Db * A) k s :
  (∀ d, exec o d = Ok (f d).1) → prunes k o = false → row k s → row k (scall (on_rows (λ d, Ok (f d))) s).1.
Proof. intros Hf. apply exec_kept. intros d d' x [= E]. by rewrite Hf, E. Qed.
Lemma albums_kept {A} (op : AlbumDb → AlbumDb * A) k s : row k s → row k (scall (on_albums op) s).1.
Proof. intros Hs. unfold scall, on_albums. destruct (sd_faults s) as [|[]]; [|done|]; by destruct (op (sd_albums s)). Qed.

Lemma ok_no_value (r : result StateError Db) d (x : unit) : no_value r = Ok (d, x) → r = Ok d.
Proof. unfold no_value. destruct r; [|done]. by intros [= -> _]. Qed.

Lemma row_stable k : Stable id send (row k).
Proof.
  assert (Hd : ∀ w s, row k s → row k (db_mark_downloaded_with_capture_repair w s).1).
  { intros [l i v q c dc b] s. apply (exec_kept (OMarkDownloaded (sd_now s) (l, i, VersionSizeKey_as_str v) q c dc b)); [|done].
    intros d d' x. apply ok_no_value. }
  split; try done.
  - intros l a m b b' z s. by apply (exec_kept_pure (ORefresh (sd_now s) l a m b b' z)).
  - intros l m c s. by apply (exec_kept_pure (OClaimOwner l m c)).
  - intros l a m s. by apply (exec_kept_pure (OMapping l a m) (λ d, (_, tt))).
  - intros r s. apply (exec_kept (OUpsertSeen (sd_now s) r)); [|done]. intros d d' x. apply ok_no_value.
  - intros l a n src s. apply albums_kept.
  - intros [[l i] v] e s. apply (exec_kept (OMarkFailed (l, i, v) e)); [|done]. intros d d' x. apply ok_no_value.
  - intros [[l i] v] s. by apply (exec_kept_pure (OWriteFailure (sd_now s) (l, i, v)) (λ d, (_, tt))).
  - intros l ids s. by apply (exec_kept_pure (OTouchLastSeen (sd_now s) l ids) (λ d, (_, tt))).
  - intros t s. apply Hd.
Qed.

Lemma seen_row n asset task s s' : upsert_seen_for_task n asset task s = (s', Ok tt) → row (task_key task) s'.
Proof.
  unfold upsert_seen_for_task. destruct (planner_upsert_asset_master_mapping _ _ _) as [s1 [u|e]]; [|done].
  cbn [db_upsert_seen SourceDb_downloads]. unfold scall, on_rows, row, no_value.
  destruct (sd_faults s1) as [|[]]; [|done|];
    (destruct (upsert_seen _ _ _) as [d|] eqn:E; [|done]; cbn; intros [= <-]; cbn;
     apply upsert_row_cols in E as (r & E & _); apply elem_of_dom; eexists; exact E).
Qed.

Definition settings : PassSettings :=
  {| pc_config := sample_config; pc_has_db := true; pc_any_metadata_write := true; pc_refresh_metadata := false;
     pc_capture_repair := false; pc_max_download_attempts := 3; pc_retry_only := false |}.
(** The asset, the asset again, an unreadable page and an asset without
    versions. *)
Definition bare : PhotoAsset :=
  {| record_name := lit "REC2"; asset_record_name := lit "REC2"; state_record_name := None; source_zone := None;
     filename := Some (lit "b.jpg"); asset_metadata := AssetMetadata_default; versions := [];
     malformed_resources := [{| mr_version_size := Original; mr_field := lit "resOriginalRes"; mr_reason := lit "no url" |}]; asset_date := Some 0; added_instant := Some 0; item_type := Some Image |}.
Definition items : list (result unit PhotoAsset) := [Ok sample_asset; Ok sample_asset; Err tt; Ok bare].
Definition store (faults : list bool) : SourceDb := {| sd_db := Db_empty; sd_albums := AlbumDb_empty; sd_now := 1; sd_faults := faults |}.
Definition run_pass (faults : list bool) : option (Producer SourceDb * bool) :=
  spawn_stream_download_producer settings 9 (λ _, false) sd_now (λ _, Some 1000000) id send map_to_list
    (load (sd_db (store faults)) false) items (Some 1000000) (store faults).
Definition numbers (o : option (Producer SourceDb * bool)) : option (Z * Z * Z * Z * Z * nat * bool) :=
  '(p, complete) ← o;
  let c := pd_counts p in
  Some (ct_assets_seen c, accounted c, ps_duplicates (ct_skips c), ct_enum_errors c, ct_state_write_failures c, length (pd_sent p), complete).

(** Seen, accounted, duplicates, errors, failed writes, sent: the unreadable
    asset is the one the warning about the accounting reports. *)
Example numbers_without_faults : numbers (run_pass []) = Some (2, 1, 1, 2, 0, 3%nat, true).
Proof. vm_compute. reflexivity. Qed.
Example numbers_with_fault : numbers (run_pass [false; false; true]) = Some (2, 1, 1, 2, 1, 3%nat, true).
Proof. vm_compute. reflexivity. Qed.

Lemma producer_settles_stream_witness :
  ∃ p, run_pass [] = Some (p, true) ∧ length (pd_sent p) = 3%nat ∧ Forall (λ t, row (task_key t) (pd_store p)) (pd_sent p).
Proof.
  assert (Hn : numbers (run_pass []) = Some (2, 1, 1, 2, 0, 3%nat, true)) by (vm_compute; reflexivity).
  destruct (run_pass []) as [[p complete]|] eqn:E; [|discriminate Hn].
  unfold numbers in Hn. cbn [mbind option_bind] in Hn. injection Hn as _ _ _ _ Hf Hl ->. exists p. split; [reflexivity|]. split; [exact Hl|].
  unfold run_pass in E. apply (producer_settles_stream settings _ _ _ _ _ _ _ row row_stable seen_row (or_introl eq_refl)) in E.
  destruct E as (_ & _ & Hrows). apply Hrows. exact Hf.
Defined.
End ProducerRuns.
