(* ===== verification/PassRun.v ===== *)
(** * A streaming download and its outcome: [src/download/pipeline.rs]

    The producer runs beside the consumer of finished transfers: a [World]
    holds the store, the tasks under way and what is still going to happen, and
    any call of the producer may be preceded by completions the consumer
    handles.  Then the last flush, the sync run's row, and the outcome of the
    pass with its cleanup pass over the failed tasks.

    Parameters: the transfers and the order in which they finish, the provider's
    fresh asset lists, the metadata rewrite, the clock and the free disk space. *)
From Stdlib Require Import SpecFloat.
From S2P Require Import Prelude RustStr Types StateTypes StateDb Filter Stats Checkpoint Retry Planner Finalize Context Source Hydrate OnDisk UrlRefresh Producer.

(** ** The two tasks of a pass *)

Section World.
Context `{FilterEnv, StateEnv} {St : Type} `{SourceStore St, LegacyOwnerStore St, DownloadStateStore St, MembershipStore St,
  DownloadFinalizationStore St, FileHashes St, TouchStore St}.
Context {IoError BoxError AnyError : Type} (downcast : AnyError → option (@DownloadError IoError BoxError AnyError))
  (to_string : AnyError → str) (jitter : Z → Z → Z).
Context (ps : PassSettings).
(** [mode.is_friendly()]; the label of the pass; [to_recap_asset]. *)
Context (friendly : bool) (pass_label : str) (to_recap_asset : DownloadTask → RecapAsset).

(** A transfer that finishes: its place among those under way, the rate limits
    it met and its result. *)
Record Completion := { cp_index : nat; cp_rate_limited : Z; cp_result : result AnyError Transfer }.
(** What happens before a call of the producer. *)
Record Moment := { mo_shutdown : bool; mo_completions : list Completion }.

Record World := {
  w_store : St;
  w_consumer : Consumer;
  (** Sent and not finished. *)
  w_queue : list DownloadTask;
  w_moments : list Moment;
  (** The consumer still takes results. *)
  w_alive : bool;
  w_shutdown : bool;
  w_recap : RunRecap;
  w_rate_limited : Z;
  (** A record for the proofs: the transfers that ended, with their results as
      they came. *)
  w_ended : list (DownloadTask * result AnyError Transfer);
  (** Likewise, the tasks the channel took. *)
  w_accepted : list DownloadTask;
}.

Definition handle (cp : Completion) (task : DownloadTask) (w : World) : World :=
  let queue := delete (cp_index cp) (w_queue w) in
  let w' s c alive recap := {|
    w_store := s; w_consumer := c; w_queue := queue; w_moments := w_moments w; w_alive := alive; w_shutdown := w_shutdown w;
    w_recap := recap; w_rate_limited := w_rate_limited w + cp_rate_limited cp; w_ended := w_ended w ++ [(task, cp_result cp)];
    w_accepted := w_accepted w |} in
  match cp_result cp with
  | Ok r =>
      let '(s, c) := consume_success jitter (pc_has_db ps) (pc_capture_repair ps) task r (w_store w) (w_consumer w) in
      w' s c (w_alive w) (if friendly then observe (w_recap w) pass_label (to_recap_asset task) else w_recap w)
  | Err e =>
      let '(s, c, stop) := consume_error downcast to_string (pc_has_db ps) task e (w_store w) (w_consumer w) in
      w' s c (w_alive w && negb stop) (w_recap w)
  end.
Definition complete_one (w : World) (cp : Completion) : World :=
  if w_alive w then match w_queue w !! cp_index cp with Some task => handle cp task w | None => w end else w.

Definition advance (w : World) : World :=
  match w_moments w with
  | [] => w
  | m :: moments =>
      foldl complete_one
        {| w_store := w_store w; w_consumer := w_consumer w; w_queue := w_queue w; w_moments := moments; w_alive := w_alive w;
           w_shutdown := w_shutdown w || mo_shutdown m; w_recap := w_recap w; w_rate_limited := w_rate_limited w;
           w_ended := w_ended w; w_accepted := w_accepted w |} (mo_completions m)
  end.

Definition set_store (s : St) (w : World) : World :=
  {| w_store := s; w_consumer := w_consumer w; w_queue := w_queue w; w_moments := w_moments w; w_alive := w_alive w;
     w_shutdown := w_shutdown w; w_recap := w_recap w; w_rate_limited := w_rate_limited w; w_ended := w_ended w; w_accepted := w_accepted w |}.
(** A call of the store. *)
Definition between {A} (op : St → St * A) (w : World) : World * A :=
  let w := advance w in let '(s, a) := op (w_store w) in (set_store s w, a).

Definition send_task (t : DownloadTask) (w : World) : World * bool :=
  let w := advance w in
  ({| w_store := w_store w; w_consumer := w_consumer w; w_queue := if w_alive w then w_queue w ++ [t] else w_queue w;
      w_moments := w_moments w; w_alive := w_alive w; w_shutdown := w_shutdown w; w_recap := w_recap w;
      w_rate_limited := w_rate_limited w; w_ended := w_ended w; w_accepted := if w_alive w then w_accepted w ++ [t] else w_accepted w |}, w_alive w).
(** [pipeline_shutdown]: the consumer cancels it too. *)
Definition pipeline_cancelled (w : World) : bool := w_shutdown w || co_cancelled (w_consumer w).
Definition cancel_pipeline (w : World) : World :=
  {| w_store := w_store w; w_consumer := w_consumer w; w_queue := w_queue w; w_moments := w_moments w; w_alive := w_alive w;
     w_shutdown := true; w_recap := w_recap w; w_rate_limited := w_rate_limited w; w_ended := w_ended w; w_accepted := w_accepted w |}.

#[local] Instance World_source : SourceStore World := {
  so_get_master_record_name_for_asset l a := between (so_get_master_record_name_for_asset l a);
  so_resolve_source_deleted l a t := between (so_resolve_source_deleted l a t);
  so_resolve_master_family_source_deleted l a t := between (so_resolve_master_family_source_deleted l a t);
  so_mark_hidden_at_source l a := between (so_mark_hidden_at_source l a);
  so_upsert_asset_master_mapping l a m := between (so_upsert_asset_master_mapping l a m);
  so_refresh_downloaded_asset_metadata l a m b b' z := between (so_refresh_downloaded_asset_metadata l a m b b' z);
  so_upsert_album_container l c n k := between (so_upsert_album_container l c n k);
  so_mark_album_container_deleted l c := between (so_mark_album_container_deleted l c);
  so_invalidate_album_membership_snapshot l c := between (so_invalidate_album_membership_snapshot l c);
  so_upsert_album_membership_delta l c a m src := between (so_upsert_album_membership_delta l c a m src);
  so_mark_album_membership_deleted l c a := between (so_mark_album_membership_deleted l c a);
  so_selected_album_containers_have_complete_snapshots l cs := between (so_selected_album_containers_have_complete_snapshots l cs);
  so_get_live_selected_album_memberships_for_asset l a cs := between (so_get_live_selected_album_memberships_for_asset l a cs);
}.
#[local] Instance World_owners : LegacyOwnerStore World := {
  db_claim_legacy_master_state_owner l m c := between (db_claim_legacy_master_state_owner l m c);
}.
#[local] Instance World_downloads : DownloadStateStore World := {
  db_upsert_asset_master_mapping l a m := between (db_upsert_asset_master_mapping l a m);
  db_upsert_seen r := between (db_upsert_seen r);
}.
#[local] Instance World_memberships : MembershipStore World := {
  db_add_asset_album l a n src := between (db_add_asset_album l a n src);
}.
#[local] Instance World_finalization : DownloadFinalizationStore World := {
  db_mark_downloaded_with_capture_repair x := between (db_mark_downloaded_with_capture_repair x);
  db_mark_failed k e := between (db_mark_failed k e);
  db_record_metadata_write_failure k := between (db_record_metadata_write_failure k);
}.
#[local] Instance World_hashes : FileHashes World := { so_compute_sha256 q := between (so_compute_sha256 q) }.
#[local] Instance World_touches : TouchStore World := { db_touch_last_seen_many l ids := between (db_touch_last_seen_many l ids) }.

Context (fuel : nat) (now : St → Z) (available_disk_space : St → option Z)
  (library_order : gmap str (list str) → list (str * list str)).

Definition World_new (s : St) (moments : list Moment) (shutdown : bool) : World :=
  {| w_store := s; w_consumer := Consumer_new; w_queue := []; w_moments := moments; w_alive := true; w_shutdown := shutdown;
     w_recap := RunRecap_default; w_rate_limited := 0; w_ended := []; w_accepted := [] |}.

(** The pass: the producer among the completions, then the completions that
    are left. *)
Definition run_pass (ctx : DownloadContext) (items : list (result AnyError PhotoAsset)) (moments : list Moment) (last : list Completion)
    (shutdown : bool) (s : St) : option (World * Counts * bool) :=
  '(p, complete) ← spawn_stream_download_producer ps fuel pipeline_cancelled (λ w, now (w_store w)) (λ w, available_disk_space (w_store w))
                     cancel_pipeline send_task library_order ctx items (available_disk_space s) (World_new s moments shutdown);
  Some (foldl complete_one (pd_store p) last, pd_counts p, complete).
End World.
Arguments Completion : clear implicits.
Arguments Moment : clear implicits.

(** ** The end of a streaming download *)

Record SyncRunStats := {
  sr_assets_seen : Z;
  sr_assets_downloaded : Z;
  sr_assets_failed : Z;
  sr_enumeration_errors : Z;
  sr_interrupted : bool;
}.
Class SyncRunStore (St : Type) := {
  db_start_sync_run : St → St * result StateError Z;
  db_complete_sync_run : Z → SyncRunStats → St → St * result StateError unit;
}.

Record StreamingResult `{FilterEnv} := {
  sg_downloaded : Z;
  sg_exif_failures : Z;
  sg_failed : list DownloadTask;
  sg_auth_errors : Z;
  sg_state_write_failures : Z;
  sg_enumeration_errors : Z;
  sg_assets_seen : Z;
  sg_skip_summary : ProducerSkipSummary;
  sg_bytes_downloaded : Z;
  sg_disk_bytes_written : Z;
  sg_rate_limit_observations : Z;
  sg_url_expired_abort : bool;
  sg_enumeration_complete : bool;
  sg_photos_downloaded : Z;
  sg_videos_downloaded : Z;
  sg_recap : RunRecap;
}.
(** [StreamingResult { downloaded, enumeration_errors, enumeration_complete, ..default }]. *)
Definition listing_result `{FilterEnv} (downloaded enumeration_errors : Z) (enumeration_complete : bool) : StreamingResult :=
  {| sg_downloaded := downloaded; sg_exif_failures := 0; sg_failed := []; sg_auth_errors := 0; sg_state_write_failures := 0;
     sg_enumeration_errors := enumeration_errors; sg_assets_seen := 0; sg_skip_summary := ProducerSkipSummary_default;
     sg_bytes_downloaded := 0; sg_disk_bytes_written := 0; sg_rate_limit_observations := 0; sg_url_expired_abort := false;
     sg_enumeration_complete := enumeration_complete; sg_photos_downloaded := 0; sg_videos_downloaded := 0;
     sg_recap := RunRecap_default |}.

(** Why a pass has no result. *)
Inductive PassError (E : Type) :=
| NotEnoughSpace (free : Z)
| StateDbUnwritable (pending : Z)
| ProducerCrashed (state_write_failures : Z)
| PassFailed (e : E).
Arguments NotEnoughSpace {E} _.
Arguments StateDbUnwritable {E} _.
Arguments ProducerCrashed {E} _.
Arguments PassFailed {E} _.

Definition add_exif (n : Z) `{FilterEnv} (c : Consumer) : Consumer :=
  {| co_downloaded := co_downloaded c; co_exif_failures := co_exif_failures c + n; co_failed := co_failed c;
     co_auth_errors := co_auth_errors c; co_pending := co_pending c; co_bytes := co_bytes c; co_disk_bytes := co_disk_bytes c;
     co_url_expired_abort := co_url_expired_abort c; co_photos := co_photos c; co_videos := co_videos c;
     co_circuit_error := co_circuit_error c; co_cancelled := co_cancelled c |}.

Section Pass.
Context `{FilterEnv, StateEnv} {St : Type} `{SourceStore St, LegacyOwnerStore St, DownloadStateStore St, MembershipStore St,
  DownloadFinalizationStore St, FileHashes St, TouchStore St, SyncRunStore St}.
Context {IoError BoxError AnyError : Type} (downcast : AnyError → option (@DownloadError IoError BoxError AnyError))
  (to_string : AnyError → str) (jitter : Z → Z → Z).
Context (ps : PassSettings) (run_mode : DownloadRunMode).
Context (friendly : bool) (pass_label : str) (to_recap_asset : DownloadTask → RecapAsset).
Context (fuel : nat) (is_cancelled : St → bool) (now : St → Z) (elapsed : St → spec_float) (available_disk_space : St → option Z)
  (library_order : gmap str (list str) → list (str * list str)).
(** [metadata_rewrite::run_pending]: the rewrites that failed. *)
Context (run_pending : St → St * Z).

(** [panicked]: the task of the producer panicked; [cancelled]:
    [pipeline_shutdown]; [defer]: the caller drains the rewrite queue. *)
Definition finalize_streaming_download (panicked : bool) (counts : Counts) (complete : bool) (co : Consumer) (recap : RunRecap)
    (rate_limited : Z) (run_id : option Z) (cancelled defer : bool) (s : St) : St * result (PassError AnyError) StreamingResult :=
  let skips := if panicked then ProducerSkipSummary_default else ct_skips counts in
  let '(s, complete_sync_failed) :=
    match pc_has_db ps, run_id with
    | true, Some run_id =>
        match db_complete_sync_run run_id
                {| sr_assets_seen := ct_assets_seen counts; sr_assets_downloaded := co_downloaded co;
                   sr_assets_failed := Z.of_nat (length (co_failed co)); sr_enumeration_errors := ct_enum_errors counts;
                   sr_interrupted := cancelled || (AUTH_ERROR_THRESHOLD <=? co_auth_errors co) || panicked
                                     || co_url_expired_abort co |} s with
        | (s, Ok _) => (s, false)
        | (s, Err _) => (s, true)
        end
    | _, _ => (s, false)
    end in
  let '(s, co, flush) := final_state_flush jitter (pc_has_db ps) s co in
  let state_write_failures := fl_failures flush + ct_state_write_failures counts + b2z complete_sync_failed in
  let '(s, co) :=
    if bool_decide (co_circuit_error co = None) && negb defer && negb (pc_refresh_metadata ps) && pc_has_db ps
       && pc_any_metadata_write ps
    then let '(s, failed) := run_pending s in (s, add_exif failed co)
    else (s, co) in
  match co_circuit_error co with
  | Some n => (s, Err (StateDbUnwritable n))
  | None =>
      if panicked then (s, Err (ProducerCrashed state_write_failures))
      else
        (s, Ok {| sg_downloaded := co_downloaded co; sg_exif_failures := co_exif_failures co; sg_failed := co_failed co;
                  sg_auth_errors := co_auth_errors co; sg_state_write_failures := state_write_failures;
                  sg_enumeration_errors := ct_enum_errors counts; sg_assets_seen := ct_assets_seen counts; sg_skip_summary := skips;
                  sg_bytes_downloaded := co_bytes co; sg_disk_bytes_written := co_disk_bytes co;
                  sg_rate_limit_observations := rate_limited; sg_url_expired_abort := co_url_expired_abort co;
                  sg_enumeration_complete := complete; sg_photos_downloaded := co_photos co; sg_videos_downloaded := co_videos co;
                  sg_recap := recap |})
  end.

(** The download arm of [stream_and_download_from_stream_with_context]. *)
Definition stream_downloads (ctx : DownloadContext) (items : list (result AnyError PhotoAsset)) (moments : list (Moment AnyError))
    (last : list (Completion AnyError)) (defer : bool) (s : St) : option (St * result (PassError AnyError) StreamingResult) :=
  let '(s, run_id) :=
    if pc_has_db ps then match db_start_sync_run s with (s, Ok run_id) => (s, Some run_id) | (s, Err _) => (s, None) end
    else (s, None) in
  match available_disk_space s with
  | Some free => if free <? MIN_FREE_BYTES_HARD then Some (s, Err (NotEnoughSpace free)) else
      '(w, counts, complete) ← run_pass downcast to_string jitter ps friendly pass_label to_recap_asset fuel now available_disk_space
                                    library_order ctx items moments last (is_cancelled s) s;
      Some (finalize_streaming_download false counts complete (w_consumer w) (w_recap w) (w_rate_limited w) run_id
              (pipeline_cancelled w) defer (w_store w))
  | None =>
      '(w, counts, complete) ← run_pass downcast to_string jitter ps friendly pass_label to_recap_asset fuel now available_disk_space
                                    library_order ctx items moments last (is_cancelled s) s;
      Some (finalize_streaming_download false counts complete (w_consumer w) (w_recap w) (w_rate_limited w) run_id
              (pipeline_cancelled w) defer (w_store w))
  end.

(** Items with the shutdown token's state when each is taken. *)
Definition with_cancels {A} (cancels : list bool) (items : list A) : list (bool * A) :=
  zip (cancels ++ repeat false (length items)) items.

(** The three modes; [cancels] is the shutdown token's state at each item. *)
Definition stream_and_download_from_stream (ctx : DownloadContext) (items : list (result AnyError PhotoAsset)) (cancels : list bool)
    (moments : list (Moment AnyError)) (last : list (Completion AnyError)) (defer : bool) (s : St) :
    option (St * result (PassError AnyError) StreamingResult) :=
  let items := identify_stream ps ctx ∅ items in
  let listing (print : bool) : option (St * result (PassError AnyError) StreamingResult) :=
    l ← list_downloads ps fuel print ctx (with_cancels cancels items) TaskPlanner_new
          {| li_paths := []; li_enum_errors := 0; li_shutdown_break := false |};
    Some (s, Ok (listing_result (if print then 0 else Z.of_nat (length (li_paths l))) (li_enum_errors l)
                   (negb (li_shutdown_break l)))) in
  if only_print_filenames run_mode then listing true
  else if is_dry_run run_mode then listing false
  else stream_downloads ctx items moments last defer s.

(** ** The pass over a list of tasks *)

Definition push_downloaded (task : DownloadTask) (l : list DownloadTask) : list DownloadTask := l ++ [task].

(** The results in the order they come; [cancelled] is the token of the pass. *)
Record TaskPass := {
  tp_consumer : Consumer;
  tp_downloaded_tasks : list DownloadTask;
  tp_recap : RunRecap;
  tp_rate_limited : Z;
}.
Definition pass_success (task : DownloadTask) (r : Transfer) (s : St) (p : TaskPass) : St * TaskPass :=
  let '(s, c) := consume_success jitter (pc_has_db ps) (pc_capture_repair ps) task r s (tp_consumer p) in
  (s, {| tp_consumer := c; tp_downloaded_tasks := push_downloaded task (tp_downloaded_tasks p);
         tp_recap := if friendly then observe (tp_recap p) pass_label (to_recap_asset task) else tp_recap p;
         tp_rate_limited := tp_rate_limited p |}).
(** Unlike the streaming consumer, an authentication error does not end the
    loop and an expired URL is a recorded failure. *)
Definition pass_error (task : DownloadTask) (e : AnyError) (s : St) (c : Consumer) : St * Consumer :=
  let fail c := ((if pc_has_db ps then (finalize_failed task (to_string e) s).1 else s), push_failed task c) in
  match classify_download_task_error downcast e with
  | ClassInterrupted => (s, c)
  | ClassSessionExpired => fail (count_auth_error c)
  | ClassExpiredUrl => fail (expire_urls c)
  | ClassOther => fail c
  end.

(** [take_while]: no task starts after the token was cancelled.  The transfers
    of the tasks that start finish in the order of the completions. *)
Record PassDrive := { pd_queue : list DownloadTask; pd_waiting : list DownloadTask; pd_shutdown : bool }.
Fixpoint start_tasks (room : nat) (cancelled : bool) (waiting : list DownloadTask) (queue : list DownloadTask) :
    list DownloadTask * list DownloadTask :=
  match room, waiting with
  | S room, task :: waiting' =>
      if cancelled then (queue, []) else start_tasks room cancelled waiting' (queue ++ [task])
  | _, _ => (queue, waiting)
  end.

(** One completion, after the tasks that fit were started. *)
Fixpoint drive_pass (concurrency : nat) (completions : list (bool * Completion AnyError)) (d : PassDrive) (s : St) (p : TaskPass) :
    St * TaskPass * PassDrive :=
  let '(queue, waiting) := start_tasks (concurrency - length (pd_queue d)) (pd_shutdown d || co_cancelled (tp_consumer p))
                             (pd_waiting d) (pd_queue d) in
  match completions with
  | [] => (s, p, {| pd_queue := queue; pd_waiting := waiting; pd_shutdown := pd_shutdown d |})
  | (shutdown, cp) :: completions =>
      match queue !! cp_index cp with
      | None => drive_pass concurrency completions {| pd_queue := queue; pd_waiting := waiting; pd_shutdown := pd_shutdown d || shutdown |} s p
      | Some task =>
          let '(s, p) := match cp_result cp with
            | Ok r => pass_success task r s p
            | Err e => let '(s, c) := pass_error task e s (tp_consumer p) in
                       (s, {| tp_consumer := c; tp_downloaded_tasks := tp_downloaded_tasks p; tp_recap := tp_recap p;
                              tp_rate_limited := tp_rate_limited p |})
            end in
          drive_pass concurrency completions
            {| pd_queue := delete (cp_index cp) queue; pd_waiting := waiting; pd_shutdown := pd_shutdown d || shutdown |} s
            {| tp_consumer := tp_consumer p; tp_downloaded_tasks := tp_downloaded_tasks p; tp_recap := tp_recap p;
               tp_rate_limited := tp_rate_limited p + cp_rate_limited cp |}
      end
  end.

Definition run_download_pass (concurrency : nat) (completions : list (bool * Completion AnyError)) (tasks : list DownloadTask) (s : St) :
    St * PassResult :=
  let '(s, p, _) := drive_pass concurrency completions {| pd_queue := []; pd_waiting := tasks; pd_shutdown := is_cancelled s |} s
                      {| tp_consumer := Consumer_new; tp_downloaded_tasks := []; tp_recap := RunRecap_default; tp_rate_limited := 0 |} in
  let c := tp_consumer p in
  let '(s, failures) :=
    if negb (pc_has_db ps) then (s, 0)
    else match co_circuit_error c with
         | Some _ => (s, zlen (co_pending c))
         | None => flush_pending_state_writes jitter (co_pending c) s
         end in
  (s, {| pr_downloaded := co_downloaded c; pr_downloaded_tasks := tp_downloaded_tasks p; pr_exif_failures := co_exif_failures c;
         pr_failed := co_failed c; pr_auth_errors := co_auth_errors c; pr_state_write_failures := failures;
         pr_bytes_downloaded := co_bytes c; pr_disk_bytes_written := co_disk_bytes c;
         pr_rate_limit_observations := tp_rate_limited p; pr_url_expired_abort := co_url_expired_abort c;
         pr_photos_downloaded := co_photos c; pr_videos_downloaded := co_videos c; pr_recap := tp_recap p |}).
End Pass.
