(* ===== verification/Outcome.v ===== *)
(** * The outcome of a full download: [build_download_outcome] of
    [src/download/pipeline.rs] and [build_retry_download_tasks] of
    [src/download/mod.rs]

    A streaming result becomes an outcome and statistics; failed downloads are
    first tried again with fresh URLs.  The provider's asset lists are
    parameters; [None]: the planner ran out of fuel. *)
From Stdlib Require Import SpecFloat.
From S2P Require Import Prelude RustStr Types StateTypes StateDb Filter Stats Checkpoint Retry Planner Finalize Context Cycle Source Hydrate OnDisk UrlRefresh Incremental Producer PassRun.

(** ** Statistics *)

Definition seen_stats (seen : Z) (incomplete : bool) (s : SyncStats) : SyncStats := {|
  assets_seen := seen; api_total_at_start := api_total_at_start s;
  api_total_at_start_partial := api_total_at_start_partial s; downloaded := downloaded s; failed := failed s;
  skipped := skipped s; bytes_downloaded := bytes_downloaded s; disk_bytes_written := disk_bytes_written s;
  exif_failures := exif_failures s; metadata_capture_revision := metadata_capture_revision s;
  metadata_capture_refreshed := metadata_capture_refreshed s; metadata_capture_failures := metadata_capture_failures s;
  metadata_capture_remaining := metadata_capture_remaining s; metadata_capture_progressed := metadata_capture_progressed s;
  state_write_failures := state_write_failures s; enumeration_errors := enumeration_errors s;
  count_probe_failures := count_probe_failures s; stale_pending_pruned := stale_pending_pruned s;
  pagination_shortfall_warnings := pagination_shortfall_warnings s; pagination_shortfall_assets := pagination_shortfall_assets s;
  tail_probes := tail_probes s; count_undercount_assets := count_undercount_assets s;
  enumeration_incomplete := incomplete; inventory_drop_warnings := inventory_drop_warnings s;
  inventory_drop_assets := inventory_drop_assets s; inventory_drop_percent := inventory_drop_percent s;
  inventory_drop_previous_total := inventory_drop_previous_total s;
  inventory_drop_current_total := inventory_drop_current_total s; inventory_drop_library := inventory_drop_library s;
  sync_token_blocked := sync_token_blocked s; sync_token_blocked_reason := sync_token_blocked_reason s;
  sync_token_blocked_source := sync_token_blocked_source s;
  sync_token_blocked_explanation := sync_token_blocked_explanation s; full_enumeration_reason := full_enumeration_reason s;
  sync_token_blocked_zone := sync_token_blocked_zone s; sync_token_expected_receivers := sync_token_expected_receivers s;
  sync_token_receivers_with_token := sync_token_receivers_with_token s;
  sync_token_receivers_missing := sync_token_receivers_missing s; sync_token_receivers_blank := sync_token_receivers_blank s;
  sync_token_receivers_dropped := sync_token_receivers_dropped s; sync_token_unique_values := sync_token_unique_values s;
  same_cycle_recovery_attempts := same_cycle_recovery_attempts s;
  same_cycle_recovery_successes := same_cycle_recovery_successes s; checkpoint_retry_passes := checkpoint_retry_passes s;
  checkpoint_revalidate_records := checkpoint_revalidate_records s; elapsed_secs := elapsed_secs s;
  interrupted := interrupted s; rate_limited := rate_limited s; photos_downloaded := photos_downloaded s;
  videos_downloaded := videos_downloaded s; recap := recap s;
|}.

Definition PRODUCER_ENUMERATION_INCOMPLETE_REASON : str := lit "producer_enumeration_incomplete".

Section Outcome.
Context `{FilterEnv, StateEnv, IndexOrder} {St : Type} {AnyError : Type}.
Context (rc : RunConfig) (fuel : nat) (is_cancelled : St → bool) (elapsed : St → spec_float).
(** [pass.album.photos(recent)], [collect_pass_asset_ids], [run_download_pass]. *)
Context (list_photos : SyncPass → option Z → St → St * result AnyError (list PhotoAsset)).
Context (collect_pass_asset_ids : SyncPass → St → St * result AnyError (gset str)).
Context (run_download_pass : list DownloadTask → St → St * PassResult).

(** ** The enumeration stopped early *)

Definition producer_enumeration_incomplete (r : StreamingResult) (s : St) : bool :=
  negb (sg_enumeration_complete r) && (0 <? sg_assets_seen r) && negb (is_cancelled s) && negb (sg_url_expired_abort r).

Definition mark_producer_enumeration_incomplete (incomplete : bool) (st : SyncStats) : SyncStats :=
  if incomplete
  then block_sync_token_for_incremental_delta (seen_stats (assets_seen st) true st) PRODUCER_ENUMERATION_INCOMPLETE_REASON
  else st.

(** ** Fresh tasks for the failed ones *)

Definition deferred_unfiled_index (passes : list SyncPass) : option nat :=
  if existsb (λ p : SyncPass, is_album_pass p) passes then
    fst <$> List.find (λ ip : nat * SyncPass, bool_decide (pass_kind ip.2 = PassUnfiled) && bool_decide (pass_exclude_ids ip.2 = ∅))
              (imap pair passes)
  else None.

Fixpoint collect_excludes (passes : list SyncPass) (ids : gset str) (s : St) : St * result AnyError (gset str) :=
  match passes with
  | [] => (s, Ok ids)
  | p :: passes =>
      match collect_pass_asset_ids p s with
      | (s, Ok more) => collect_excludes passes (ids ∪ more) s
      | (s, Err e) => ((collect_excludes passes ids s).1, Err e)
      end
  end.

Definition exclude_from (ids : gset str) (c : DownloadConfig) : DownloadConfig :=
  {| dc_path := {| directory := directory c; folder_structure := folder_structure c;
       folder_structure_albums := folder_structure_albums c; folder_structure_smart_folders := folder_structure_smart_folders c;
       resolution := resolution c; media := media c; skip_created_before := skip_created_before c;
       skip_created_after := skip_created_after c; live_photo_mode := live_photo_mode c; live_resolution := live_resolution c;
       live_photo_mov_filename_policy := live_photo_mov_filename_policy c; edited := edited c; alternative := alternative c;
       raw_policy := raw_policy c; file_match_policy := file_match_policy c; force_resolution := force_resolution c;
       keep_unicode_in_filenames := keep_unicode_in_filenames c; filename_exclude := filename_exclude c;
       album_name := album_name c; library := library c; exclude_asset_ids := ids |};
     asset_groupings := asset_groupings c |}.

Definition build_pass_configs_resolving_deferred_excludes (passes : list SyncPass) (s : St) : St * result AnyError (list DownloadConfig) :=
  let configs := build_pass_configs rc passes in
  match deferred_unfiled_index passes with
  | None => (s, Ok configs)
  | Some index =>
      match collect_excludes (List.filter (λ p : SyncPass, is_album_pass p) passes) ∅ s with
      | (s, Err e) => (s, Err e)
      | (s, Ok ids) =>
          (s, Ok (match (passes !! index : option SyncPass) with
                  | Some pass => <[index := exclude_from ids (pass_config rc pass)]> configs
                  | None => configs
                  end))
      end
  end.

Record Retried := { rt_pending : list RetryTaskKey; rt_tasks : list DownloadTask; rt_planner : TaskPlanner }.

Fixpoint retry_assets (config : DownloadConfig) (state_ids : gmap str str) (assets : list PhotoAsset) (s : St) (r : Retried) : option Retried :=
  match assets with
  | [] => Some r
  | a :: assets =>
      if bool_decide (rt_pending r = []) || is_cancelled s then Some r
      else
        match state_ids !! asset_record_name a with
        | None => retry_assets config state_ids assets s r
        | Some state_id =>
            '(planner, plan) ← plan_asset fuel (set_state_record_name state_id a) config (rt_planner r);
            match atp_filter_reason plan with
            | Some _ => retry_assets config state_ids assets s
                          {| rt_pending := rt_pending r; rt_tasks := rt_tasks r; rt_planner := planner |}
            | None =>
                let '(pending, tasks) := take_matching_retry_tasks (atp_tasks plan) (rt_pending r) (rt_tasks r) in
                retry_assets config state_ids assets s {| rt_pending := pending; rt_tasks := tasks; rt_planner := planner |}
            end
        end
  end.

Fixpoint retry_passes_loop (passes : list (SyncPass * DownloadConfig)) (state_ids : gmap str str) (s : St) (r : Retried) :
    option (St * result AnyError Retried) :=
  match passes with
  | [] => Some (s, Ok r)
  | (pass, config) :: passes =>
      if bool_decide (rt_pending r = []) || is_cancelled s then Some (s, Ok r)
      else
        match list_photos pass (rc_recent rc) s with
        | (s, Err e) => Some (s, Err e)
        | (s, Ok assets) => r ← retry_assets config state_ids assets s r; retry_passes_loop passes state_ids s r
        end
  end.

Definition build_retry_download_tasks (passes : list SyncPass) (failed : list DownloadTask) (s : St) :
    option (St * result AnyError (list DownloadTask)) :=
  match failed with
  | [] => Some (s, Ok [])
  | _ =>
      match build_pass_configs_resolving_deferred_excludes passes s with
      | (s, Err e) => Some (s, Err e)
      | (s, Ok configs) =>
          '(s, r) ← retry_passes_loop (zip passes configs) (retry_state_ids_by_asset_record failed) s
                      {| rt_pending := key_set failed; rt_tasks := []; rt_planner := TaskPlanner_new |};
          Some (s, match r with Ok r => Ok (rt_tasks r) | Err e => Err e end)
      end
  end.

(** ** The outcome *)

(** The statistics of a run that transferred files; [extra] is the cleanup
    pass. *)
Definition streaming_stats (r : StreamingResult) (downloaded failed state_write_failures exif_failures : Z) (interrupted incomplete : bool)
    (extra : option PassResult) (s : St) : SyncStats :=
  let more f := match extra with Some p => f p | None => 0 end in
  seen_stats (sg_assets_seen r) incomplete (delta_stats {|
    st_downloaded := downloaded; st_failed := failed; st_skipped := SkipBreakdown_from (sg_skip_summary r);
    st_bytes_downloaded := sg_bytes_downloaded r + more pr_bytes_downloaded;
    st_disk_bytes_written := sg_disk_bytes_written r + more pr_disk_bytes_written; st_exif_failures := exif_failures;
    st_state_write_failures := state_write_failures; st_enumeration_errors := sg_enumeration_errors r; st_revalidate_records := [];
    st_elapsed_secs := elapsed s; st_interrupted := interrupted;
    st_rate_limited := sg_rate_limit_observations r + more pr_rate_limit_observations;
    st_photos_downloaded := sg_photos_downloaded r + more pr_photos_downloaded;
    st_videos_downloaded := sg_videos_downloaded r + more pr_videos_downloaded;
    st_recap := match extra with Some p => RunRecap_merge (sg_recap r) (pr_recap p) | None => sg_recap r end |}).

(** The statistics of a run that transferred nothing. *)
Definition idle_stats (r : StreamingResult) (downloaded state_write_failures exif_failures : Z) (s : St) : SyncStats :=
  seen_stats (sg_assets_seen r) false (delta_stats {|
    st_downloaded := downloaded; st_failed := 0; st_skipped := SkipBreakdown_from (sg_skip_summary r); st_bytes_downloaded := 0;
    st_disk_bytes_written := 0; st_exif_failures := exif_failures; st_state_write_failures := state_write_failures;
    st_enumeration_errors := sg_enumeration_errors r; st_revalidate_records := []; st_elapsed_secs := elapsed s;
    st_interrupted := is_cancelled s; st_rate_limited := 0; st_photos_downloaded := 0; st_videos_downloaded := 0;
    st_recap := RunRecap_default |}).

Definition retry_exhausted_of (r : StreamingResult) : Z := ps_retry_exhausted (sg_skip_summary r).

(** The cleanup pass over [fresh] and the final account. *)
Definition finish_cleanup (r : StreamingResult) (incomplete : bool) (fresh : list DownloadTask) (s : St) :
    St * (DownloadOutcome * SyncStats) :=
  let '(s, p) := run_download_pass fresh s in
  let exif := sg_exif_failures r + pr_exif_failures p in
  let writes := sg_state_write_failures r + pr_state_write_failures p in
  let auth := sg_auth_errors r + pr_auth_errors p in
  let failed := Z.of_nat (length (pr_failed p)) in
  if AUTH_ERROR_THRESHOLD <=? auth then
    (s, (SessionExpired auth, streaming_stats r (sg_downloaded r) failed writes exif true false (Some p) s))
  else
    let failures := failed + writes + exif + sg_enumeration_errors r + retry_exhausted_of r + b2z incomplete in
    (s, (outcome_of failures,
         mark_producer_enumeration_incomplete incomplete
           (streaming_stats r (sg_downloaded r + pr_downloaded p) failed writes exif (is_cancelled s) incomplete (Some p) s))).

Definition build_download_outcome (passes : list SyncPass) (r : StreamingResult) (s : St) :
    option (St * result AnyError (DownloadOutcome * SyncStats)) :=
  let incomplete := producer_enumeration_incomplete r s in
  let failed := Z.of_nat (length (sg_failed r)) in
  let writes := sg_state_write_failures r in
  let exif := sg_exif_failures r in
  let exhausted := retry_exhausted_of r in
  if AUTH_ERROR_THRESHOLD <=? sg_auth_errors r then
    Some (s, Ok (SessionExpired (sg_auth_errors r), streaming_stats r (sg_downloaded r) failed writes exif true incomplete None s))
  else if (sg_downloaded r =? 0) && bool_decide (sg_failed r = []) then
    Some (s, Ok (outcome_of (writes + exif + exhausted + sg_enumeration_errors r + b2z (sg_url_expired_abort r) + b2z incomplete),
                 mark_producer_enumeration_incomplete incomplete (idle_stats r 0 writes exif s)))
  else if is_dry_run (rc_run_mode rc) then
    Some (s, Ok (outcome_of (sg_enumeration_errors r + b2z incomplete),
                 mark_producer_enumeration_incomplete incomplete (idle_stats r (sg_downloaded r) 0 0 s)))
  else if sg_url_expired_abort r then
    Some (s, Ok (PartialFailure (failed + writes + sg_enumeration_errors r + exif + exhausted + 1),
                 mark_producer_enumeration_incomplete incomplete
                   (streaming_stats r (sg_downloaded r) failed writes exif (is_cancelled s) incomplete None s)))
  else if bool_decide (sg_failed r = []) then
    Some (s, Ok (outcome_of (writes + sg_enumeration_errors r + exif + exhausted + b2z incomplete),
                 mark_producer_enumeration_incomplete incomplete
                   (streaming_stats r (sg_downloaded r) 0 writes exif (is_cancelled s) false None s)))
  else
    '(s, fresh) ← build_retry_download_tasks passes (sg_failed r) s;
    match fresh with
    | Err e => Some (s, Err e)
    | Ok fresh => let '(s, o) := finish_cleanup r incomplete fresh s in Some (s, Ok o)
    end.
End Outcome.
