(* ===== verification/PassRunSpec.v ===== *)
(** * What a streaming download and its outcome promise

    Every task the downloaders took is downloaded, failed, interrupted or still
    under way; and a run is called a success only when nothing it knows of went
    wrong. *)
From Stdlib Require Import SpecFloat.
From S2P Require Import Prelude RustStr Types StateTypes StateDb StateReads Filter FilterSpec Stats Checkpoint Retry Planner Collision Finalize StateDbSpec Context Albums Cycle Source Hydrate SourceDb OnDisk UrlRefresh Incremental Producer ProducerSpec PassRun Outcome.

Section Account.
Context `{FilterEnv, StateEnv} {St : Type} `{SourceStore St, LegacyOwnerStore St, DownloadStateStore St, MembershipStore St,
  DownloadFinalizationStore St, FileHashes St, TouchStore St, SyncRunStore St}.
Context {IoError BoxError AnyError : Type} (downcast : AnyError → option (@DownloadError IoError BoxError AnyError))
  (to_string : AnyError → str) (jitter : Z → Z → Z).
Context (ps : PassSettings).
Context (friendly : bool) (pass_label : str) (to_recap_asset : DownloadTask → RecapAsset).
Context (fuel : nat) (now : St → Z) (available_disk_space : St → option Z)
  (library_order : gmap str (list str) → list (str * list str)).

Abbreviation W := (@World _ St AnyError).
Abbreviation lift f := (f downcast to_string jitter ps friendly pass_label to_recap_asset).

(** What the errors of the transfers that ended call for. *)
Definition ended_as (k : DownloadTaskErrorClass) (x : DownloadTask * result AnyError Transfer) : bool :=
  match x.2 with Ok _ => false | Err e => bool_decide (classify_download_task_error downcast e = k) end.
Definition ended_well (x : DownloadTask * result AnyError Transfer) : bool := match x.2 with Ok _ => true | Err _ => false end.
(** The tasks to be recorded as failed. *)
Definition to_report (l : list (DownloadTask * result AnyError Transfer)) : list DownloadTask :=
  (List.filter (λ x, ended_as ClassOther x || ended_as ClassSessionExpired x) l).*1.
Definition tally (f : DownloadTask * result AnyError Transfer → bool) (l : list (DownloadTask * result AnyError Transfer)) : Z :=
  zlen (List.filter f l).

Lemma to_report_app l l' : to_report (l ++ l') = to_report l ++ to_report l'.
Proof. unfold to_report. by rewrite List.filter_app, fmap_app. Qed.
Lemma tally_app f l l' : tally f (l ++ l') = tally f l + tally f l'.
Proof. unfold tally. rewrite List.filter_app, length_app. lia. Qed.

(** What the consumer has made of the transfers that ended. *)
Record accounted_for (w : W) : Prop := {
  af_tasks : w_accepted w ≡ₚ (w_ended w).*1 ++ w_queue w;
  af_downloaded : co_downloaded (w_consumer w) = tally ended_well (w_ended w);
  af_auth : co_auth_errors (w_consumer w) = tally (ended_as ClassSessionExpired) (w_ended w);
  af_urls : co_url_expired_abort (w_consumer w) = existsb (ended_as ClassExpiredUrl) (w_ended w);
  af_failed :
    if w_alive w then co_failed (w_consumer w) = to_report (w_ended w) ∧ co_auth_errors (w_consumer w) < AUTH_ERROR_THRESHOLD
    else ∃ before cut, w_ended w = before ++ [cut] ∧ ended_as ClassSessionExpired cut = true ∧
           co_failed (w_consumer w) = to_report before ∧ co_auth_errors (w_consumer w) = AUTH_ERROR_THRESHOLD;
}.

(** A success adds one, whatever becomes of its row. *)
Lemma success_counts has_db b task r (s : St) c : let '(_, c') := consume_success jitter has_db b task r s c in
  co_downloaded c' = co_downloaded c + 1 ∧ co_failed c' = co_failed c ∧ co_auth_errors c' = co_auth_errors c
  ∧ co_url_expired_abort c' = co_url_expired_abort c.
Proof.
  unfold consume_success. destruct (negb has_db); [done|].
  destruct (finalize_downloaded _ _ _ _ _ _) as [s1 [|x e]]; [done|]. cbn [co_circuit_error count_success].
  destruct (co_circuit_error c); [done|]. by destruct (check_state_write_circuit_breaker _ _ _) as [[s2 p2] []].
Qed.

Lemma tally_one f x : tally f [x] = b2z (f x).
Proof. unfold tally. cbn. by destruct (f x). Qed.
Lemma to_report_one x : to_report [x] = if ended_as ClassOther x || ended_as ClassSessionExpired x then [x.1] else [].
Proof. unfold to_report. cbn. by destruct (_ || _). Qed.

(** Two error classes are compared; the counters after one more failed transfer. *)
Ltac compare_classes :=
  repeat match goal with |- context [bool_decide (@eq DownloadTaskErrorClass ?a ?b)] =>
    let v := eval vm_compute in (bool_decide (@eq DownloadTaskErrorClass a b)) in change (bool_decide (a = b)) with v end.
Ltac ended_one Hcls :=
  cbn [w_consumer w_ended co_downloaded co_auth_errors co_url_expired_abort count_auth_error push_failed expire_urls];
  rewrite ?tally_app, ?tally_one, ?existsb_app; cbn [existsb]; rewrite ?Hcls; compare_classes; cbn.

Lemma handle_accounts cp task w : w_queue w !! cp_index cp = Some task → w_alive w = true → accounted_for w →
  accounted_for (handle downcast to_string jitter ps friendly pass_label to_recap_asset cp task w).
Proof.
  intros Hq Ha [Ht Hd Hau Hu Hf]. rewrite Ha in Hf. destruct Hf as [Hf Hlt].
  assert (Htasks : w_accepted w ≡ₚ (w_ended w ++ [(task, cp_result cp)]).*1 ++ delete (cp_index cp) (w_queue w)).
  { rewrite Ht, fmap_app, <- app_assoc. f_equiv. by apply delete_Permutation. }
  unfold handle. destruct (cp_result cp) as [r|e] eqn:Er.
  - pose proof (success_counts (pc_has_db ps) (pc_capture_repair ps) task r (w_store w) (w_consumer w)) as Hc.
    destruct (consume_success _ _ _ _ _ _ _) as [s c]. destruct Hc as (Hc1 & Hc2 & Hc3 & Hc4).
    split; cbn [w_accepted w_ended w_queue w_consumer w_alive]; rewrite ?Hc1, ?Hc2, ?Hc3, ?Hc4, ?tally_app, ?tally_one, ?existsb_app; cbn;
      rewrite ?orb_false_r; [done|lia|lia|done|]. rewrite Ha, to_report_app. cbn. by rewrite app_nil_r.
  - assert (Hcls : ∀ k, ended_as k (task, Err e) = bool_decide (classify_download_task_error downcast e = k)) by done.
    pose proof (to_report_one (task, Err e)) as Hone. rewrite !Hcls in Hone.
    unfold consume_error. destruct (classify_download_task_error downcast e) eqn:Ek; cbn [co_auth_errors count_auth_error];
      [| destruct (Z.leb_spec AUTH_ERROR_THRESHOLD (co_auth_errors (w_consumer w) + 1)) as [Hle|Hgt] | |];
      (split; [exact Htasks|ended_one Hcls; lia|ended_one Hcls; lia|ended_one Hcls; by rewrite ?Hu, ?orb_false_r, ?orb_true_r|]);
      cbn [w_alive w_ended w_consumer negb]; rewrite Ha; cbn [andb].
    all: try (rewrite to_report_app, Hone, <- Hf; compare_classes; cbn; rewrite ?app_nil_r; split; [done|cbn; lia]).
    exists (w_ended w), (task, Err e). split_and!; [done|by rewrite Hcls|done|cbn; lia].
Qed.
Lemma complete_accounts cps : ∀ w, accounted_for w →
  accounted_for (foldl (complete_one downcast to_string jitter ps friendly pass_label to_recap_asset) w cps).
Proof.
  induction cps as [|cp cps IH]; intros w Hw; cbn; [done|]. apply IH. unfold complete_one.
  destruct (w_alive w) eqn:Ha; [|done]. destruct (w_queue w !! cp_index cp) as [task|] eqn:Hq; [|done]. by apply handle_accounts.
Qed.
Lemma advance_accounts w : accounted_for w → accounted_for (advance downcast to_string jitter ps friendly pass_label to_recap_asset w).
Proof. intros Hw. unfold advance. destruct (w_moments w); [done|]. apply complete_accounts. destruct Hw. by split. Qed.
Lemma between_accounts {A} (op : St → St * A) w : accounted_for w →
  accounted_for (between downcast to_string jitter ps friendly pass_label to_recap_asset op w).1.
Proof.
  intros Hw. unfold between. cbv zeta. pose proof (advance_accounts w Hw) as []. destruct (op _). by split.
Qed.
Lemma send_accounts t w : accounted_for w → accounted_for (send_task downcast to_string jitter ps friendly pass_label to_recap_asset t w).1.
Proof.
  intros Hw. unfold send_task. pose proof (advance_accounts w Hw) as Hn. revert Hn. generalize (lift advance w). intros w1 [Ht Hd Hau Hu Hf].
  split; cbn; try done. destruct (w_alive w1) eqn:Ew; [|done]. by rewrite Ht, app_assoc.
Qed.

#[local] Instance W_source : SourceStore W := lift World_source.
#[local] Instance W_owners : LegacyOwnerStore W := lift World_owners.
#[local] Instance W_downloads : DownloadStateStore W := lift World_downloads.
#[local] Instance W_memberships : MembershipStore W := lift World_memberships.
#[local] Instance W_finalization : DownloadFinalizationStore W := lift World_finalization.
#[local] Instance W_hashes : FileHashes W := lift World_hashes.
#[local] Instance W_touches : TouchStore W := lift World_touches.

Lemma world_stable : Stable cancel_pipeline (lift send_task) accounted_for.
Proof. split; intros; try (by apply between_accounts); [by match goal with Hw : accounted_for _ |- _ => destruct Hw; split end|by apply send_accounts]. Qed.

Lemma anything_stable (k : key3) : Stable cancel_pipeline (lift send_task) (λ _ : W, True).
Proof. done. Qed.

(** C22: However the transfers interleave with the producer's calls, the tasks the
    channel took are those whose transfer ended and those still under way when
    the pass ends.  Of the ended ones, the downloads counted are those that
    succeeded; the tasks recorded as failed are, in order, exactly those whose
    error is an authentication error or an ordinary one, so that only an
    interruption or an expired URL ends a transfer unreported, and an expired
    URL is what stops the pass for fresh ones.  The one exception is the
    authentication error that reaches the limit: it is not recorded, and it is
    the last result the consumer takes. *)
Theorem pass_accounts_for_tasks ctx items moments last shutdown (s : St) w c complete :
  run_pass downcast to_string jitter ps friendly pass_label to_recap_asset fuel now available_disk_space library_order
    ctx items moments last shutdown s = Some (w, c, complete) →
  accounted_for w.
Proof.
  unfold run_pass, spawn_stream_download_producer. intros Hr.
  destruct (produce _ _ _ _ _ _ _ _ _ _) as [[p flow]|] eqn:E; [|done]. cbn [mbind option_bind] in Hr.
  assert (Hp : accounted_for (pd_store p)).
  { destruct (tracks_produce ps fuel pipeline_cancelled (λ w : W, now (w_store w)) (λ w, available_disk_space (w_store w)) cancel_pipeline
      (lift send_task) (λ _ _, True) anything_stable (λ _ _ _ _ _ _, I) (or_intror (λ _ _, I)) ctx items _ _ _ E) as (_ & Hstable & _).
    apply (Hstable _ world_stable). by split. }
  assert (Hend : ∀ w1 : W, accounted_for w1 → accounted_for (foldl (lift complete_one) w1 last)) by (intros; by apply complete_accounts).
  destruct flow; cbn in Hr; injection Hr as <- <- <-; apply Hend; [|done].
  destruct (_ && _); [|done]. by apply (touch_libraries_stable _ _ _ world_stable).
Qed.
End Account.

(** ** The outcome *)

Section Success.
Context `{FilterEnv, StateEnv, IndexOrder} {St : Type} {AnyError : Type}.
Context (rc : RunConfig) (fuel : nat) (is_cancelled : St → bool) (elapsed : St → spec_float).
Context (list_photos : SyncPass → option Z → St → St * result AnyError (list PhotoAsset)).
Context (collect_pass_asset_ids : SyncPass → St → St * result AnyError (gset str)).
Context (run_download_pass : list DownloadTask → St → St * PassResult).





End Success.

(** ** Runs *)

Module PassRuns.
Import StateDbSpec.Samples ProducerRuns.
#[export] Existing Instance sample_filter_env.
#[export] Existing Instances unreadable touches.
#[export] Program Instance sorted_indices : IndexOrder := { index_map_order A := map_to_list; index_set_order := elements }.
Next Obligation. done. Qed.
Next Obligation. done. Qed.

(** Errors are the errors of a download; [tt] is anything else. *)
Definition Failure : Type := @DownloadError unit unit unit.
Definition downcast (e : option Failure) : option (@DownloadError unit unit (option Failure)) :=
  match e with
  | Some (HttpStatus status p) => Some (HttpStatus status p)
  | Some (Interrupted p n) => Some (Interrupted p n)
  | _ => None
  end.
Definition finished (i : nat) (r : result (option Failure) Transfer) : Completion (option Failure) :=
  {| cp_index := i; cp_rate_limited := 0; cp_result := r |}.
Definition good : Transfer :=
  {| tr_exif_ok := true; tr_local_checksum := lit "sha"; tr_download_checksum := None; tr_bytes := 20; tr_disk_bytes := 20 |}.
Definition label_of (t : DownloadTask) : RecapAsset :=
  {| ra_filename := dt_download_path t; ra_bytes := dt_size t; ra_created_local := 0 |}.

(** The three tasks of the sample asset: the second one finishes first, the
    others after the producer; one fails and one is interrupted. *)
Definition moments : list (Moment (option Failure)) :=
  repeat {| mo_shutdown := false; mo_completions := [] |} 12 ++ [{| mo_shutdown := false; mo_completions := [finished 1 (Ok good)] |}].
Definition last : list (Completion (option Failure)) :=
  [finished 0 (Err None); finished 0 (Ok good); finished 0 (Err (Some (Interrupted [] 3)))].
Definition streamed : option (@World _ SourceDb (option Failure) * Counts * bool) :=
  PassRun.run_pass downcast (λ _, lit "error") (λ _ _, 0) settings false [] label_of 9 sd_now (λ _, Some 1000000) map_to_list
    (load Db_empty false) [Ok sample_asset] moments last false (store []).
Definition account_of (o : option (@World _ SourceDb (option Failure) * Counts * bool)) : option (Z * nat * nat * nat * nat) :=
  '(w, _, _) ← o; Some (co_downloaded (w_consumer w), length (co_failed (w_consumer w)), length (w_ended w), length (w_queue w), length (w_accepted w)).
Lemma pass_accounts_for_tasks_witness :
  ∃ w c complete, streamed = Some (w, c, complete) ∧ account_of (Some (w, c, complete)) = Some (1, 1%nat, 3%nat, 0%nat, 3%nat)
    ∧ accounted_for downcast w.
Proof.
  assert (Ht : account_of streamed = Some (1, 1%nat, 3%nat, 0%nat, 3%nat)) by (vm_compute; reflexivity).
  destruct streamed as [[[w c] complete]|] eqn:E; [|discriminate Ht]. exists w, c, complete. split; [reflexivity|]. split; [exact Ht|].
  unfold streamed in E. exact (pass_accounts_for_tasks _ _ _ _ _ _ _ _ _ _ _ _ _ _ _ _ _ _ _ _ E).
Defined.

(** A download of the sample asset that failed. *)
Definition failed_tasks : list DownloadTask :=
  match plan_asset 9 sample_asset sample_config TaskPlanner_new with Some (_, p) => take 1 (atp_tasks p) | None => [] end.
Definition half_failed : StreamingResult :=
  {| sg_downloaded := 2; sg_exif_failures := 0; sg_failed := failed_tasks; sg_auth_errors := 0; sg_state_write_failures := 0;
     sg_enumeration_errors := 0; sg_assets_seen := 1; sg_skip_summary := ProducerSkipSummary_default; sg_bytes_downloaded := 40;
     sg_disk_bytes_written := 40; sg_rate_limit_observations := 0; sg_url_expired_abort := false; sg_enumeration_complete := true;
     sg_photos_downloaded := 1; sg_videos_downloaded := 1; sg_recap := RunRecap_default |}.
Definition rc : RunConfig :=
  {| rc_config := sample_config; rc_has_db := true; rc_any_metadata_write := false; rc_recent := None; rc_run_mode := Download |}.
Definition library_pass : SyncPass :=
  {| sp_pass := {| pass_kind := PassUnfiled; pass_album_name := []; pass_exclude_ids := ∅ |}; sp_container_id := None |}.
Definition downloads_all (tasks : list DownloadTask) (s : unit) : unit * PassResult :=
  (s, {| pr_downloaded := zlen tasks; pr_downloaded_tasks := tasks; pr_exif_failures := 0; pr_failed := []; pr_auth_errors := 0;
         pr_state_write_failures := 0; pr_bytes_downloaded := 0; pr_disk_bytes_written := 0; pr_rate_limit_observations := 0;
         pr_url_expired_abort := false; pr_photos_downloaded := 0; pr_videos_downloaded := 0; pr_recap := RunRecap_default |}).
Definition outcome_with (listed : list PhotoAsset) : option (unit * result unit (DownloadOutcome * SyncStats)) :=
  build_download_outcome rc 9 (λ _, false) (λ _, S754_zero false) (λ _ _ s, (s, Ok listed)) (λ _ s, (s, Ok ∅)) downloads_all
    [library_pass] half_failed tt.
Definition reported (o : option (unit * result unit (DownloadOutcome * SyncStats))) : option (DownloadOutcome * Z * Z) :=
  '(_, r) ← o; match r with Ok (out, st) => Some (out, Stats.downloaded st, failed st) | Err _ => None end.

Example cleaned_up_run : reported (outcome_with [sample_asset]) = Some (Success, 3, 0).
Proof. vm_compute. reflexivity. Qed.
(** The failed asset is not listed any more: nothing is tried again, and the
    failure is forgotten. *)
Example forgotten_failure : reported (outcome_with []) = Some (Success, 2, 0) ∧ length (sg_failed half_failed) = 1%nat.
Proof. split; vm_compute; reflexivity. Qed.

End PassRuns.
