(* ===== verification/Call.v ===== *)
(** * Calls: fallible steps over a store that may not return

    [Call St E A] is an operation of the engine: it changes the store, answers
    a value or an error, and is [None] when it does not return.  The bind is
    the source's [?]. *)
From S2P Require Import Prelude.

Definition Call (St E A : Type) : Type := St → option (St * result E A).

#[export] Instance Call_ret {St E} : MRet (Call St E) := λ A a s, Some (s, Ok a).
#[export] Instance Call_bind {St E} : MBind (Call St E) := λ A B f m s,
  match m s with
  | Some (s, Ok a) => f a s
  | Some (s, Err e) => Some (s, Err e)
  | None => None
  end.

Section Call.
Context {St E : Type}.

Definition throw {A} (e : E) : Call St E A := λ s, Some (s, Err e).
(** An operation that answers a value. *)
Definition run {A} (op : St → St * A) : Call St E A := λ s, let '(s, a) := op s in Some (s, Ok a).
Definition get {A} (f : St → A) : Call St E A := λ s, Some (s, Ok (f s)).
(** An operation whose error ends the call. *)
Definition attempt {E' A} (f : E' → E) (op : St → St * result E' A) : Call St E A :=
  λ s, let '(s, r) := op s in Some (s, match r with Ok a => Ok a | Err e => Err (f e) end).
(** A computation that may run out of fuel. *)
Definition fuelled {A} (o : option A) : Call St E A := λ s, a ← o; Some (s, Ok a).
(** [match call.await { Ok(..) => .., Err(..) => .. }]. *)
Definition catch {E' A} (m : Call St E' A) : Call St E (result E' A) :=
  λ s, match m s with Some (s, r) => Some (s, Ok r) | None => None end.
Definition when (c : bool) (m : Call St E unit) : Call St E unit := if c then m else mret tt.

Fixpoint for_all {A} (l : list A) (f : A → Call St E unit) : Call St E unit :=
  match l with [] => mret tt | a :: l => _ ← f a; for_all l f end.
(** Every call is made; an error is a result like another. *)
Fixpoint collect {E' A B} (l : list A) (f : A → Call St E' B) : Call St E (list (result E' B)) :=
  match l with
  | [] => mret []
  | a :: l => r ← catch (f a); rs ← collect l f; mret (r :: rs)
  end.

(** ** Running *)

Lemma bind_Some {A B} (m : Call St E A) (f : A → Call St E B) s s' b :
  (m ≫= f) s = Some (s', Ok b) ↔ ∃ s1 a, m s = Some (s1, Ok a) ∧ f a s1 = Some (s', Ok b).
Proof. unfold mbind, Call_bind. destruct (m s) as [[s1 [a|e]]|]; naive_solver. Qed.

(** A call of two steps ended in the first or in the second. *)
Lemma bind_inv {A B} (m : Call St E A) (f : A → Call St E B) s s' r :
  (m ≫= f) s = Some (s', r) →
  (∃ e, m s = Some (s', Err e) ∧ r = Err e) ∨ ∃ s1 a, m s = Some (s1, Ok a) ∧ f a s1 = Some (s', r).
Proof. unfold mbind, Call_bind. destruct (m s) as [[s1 [a|e]]|]; naive_solver. Qed.

Lemma run_Some {A} (op : St → St * A) s s' a : run op s = Some (s', Ok a) ↔ op s = (s', a).
Proof. unfold run. destruct (op s). naive_solver. Qed.
Lemma attempt_Some {E' A} (f : E' → E) (op : St → St * result E' A) s s' a :
  attempt f op s = Some (s', Ok a) ↔ op s = (s', Ok a).
Proof. unfold attempt. destruct (op s) as [? []]; naive_solver. Qed.
Lemma fuelled_Some {A} (o : option A) s s' a : fuelled o s = Some (s', Ok a) ↔ o = Some a ∧ s' = s.
Proof. unfold fuelled. destruct o; cbn; naive_solver. Qed.
Lemma catch_Some {E' A} (m : Call St E' A) s s' r : catch m s = Some (s', Ok r) ↔ m s = Some (s', r).
Proof. unfold catch. destruct (m s) as [[? []]|]; naive_solver. Qed.
Lemma get_Some {A} (f : St → A) s s' a : get f s = Some (s', Ok a) ↔ a = f s ∧ s' = s.
Proof. unfold get. naive_solver. Qed.
Lemma ret_Some {A} (x : A) s s' a : (mret x : Call St E A) s = Some (s', Ok a) ↔ a = x ∧ s' = s.
Proof. unfold mret, Call_ret. naive_solver. Qed.
Lemma throw_Some {A} (e : E) s s' (a : A) : throw e s = Some (s', Ok a) ↔ False.
Proof. unfold throw. naive_solver. Qed.
End Call.

(** [invert_call H] takes a finished call apart; a decision on the way is
    split by the caller. *)
Ltac invert_call_step :=
  match goal with
  | H : mbind _ _ _ = Some (_, Ok _) |- _ => apply bind_Some in H as (? & ? & ? & H)
  | H : run _ _ = Some (_, Ok _) |- _ => apply run_Some in H
  | H : attempt _ _ _ = Some (_, Ok _) |- _ => apply attempt_Some in H
  | H : fuelled _ _ = Some (_, Ok _) |- _ => apply fuelled_Some in H as [H ->]
  | H : catch _ _ = Some (_, Ok _) |- _ => apply catch_Some in H
  | H : get _ _ = Some (_, Ok _) |- _ => apply get_Some in H as [-> ->]
  | H : mret _ _ = Some (_, Ok _) |- _ => first [apply ret_Some in H as [-> ->] | apply ret_Some in H as [H ->]; simplify_eq]
  | H : throw _ _ = Some (_, Ok _) |- _ => apply throw_Some in H as []
  end.
Ltac invert_call := repeat invert_call_step.
