(* ===== verification/Passes.v ===== *)
(** * The pass planner: [src/commands/service.rs], the albums of a library
    ([src/icloud/photos/library.rs]) and the smart folders
    ([smart_folders.rs])

    Which libraries a run takes, which albums and smart folders they offer, and
    the passes of each library.

    Parameters: the album listing of the provider, base64 and UTF-8, the order
    of hash maps. *)
From S2P Require Import Prelude RustStr Paths Types StateDb Selection Call.

(** ** Zones *)

Definition PRIMARY_ZONE_NAME : str := lit "PrimarySync".
Definition SHARED_ZONE_PREFIX : str := lit "SharedSync-".
Definition is_shared_zone (zone_name : str) : bool := starts_with SHARED_ZONE_PREFIX zone_name.

(** ** Smart folders *)

Record FolderDef := { fd_obj_type : str; fd_list_type : str; fd_query_value : option str; fd_is_sensitive : bool }.
Definition smart_list : str := lit "CPLAssetAndMasterInSmartAlbumByAssetDate".
Definition smart_def (obj value : string) : FolderDef :=
  {| fd_obj_type := lit obj; fd_list_type := smart_list; fd_query_value := Some (lit value); fd_is_sensitive := false |}.
Definition smart_folder_table : list (str * FolderDef) := [
  (lit "Time-lapse", smart_def "CPLAssetInSmartAlbumByAssetDate:Timelapse" "TIMELAPSE");
  (lit "Videos", smart_def "CPLAssetInSmartAlbumByAssetDate:Video" "VIDEO");
  (lit "Slo-mo", smart_def "CPLAssetInSmartAlbumByAssetDate:Slomo" "SLOMO");
  (lit "Bursts", {| fd_obj_type := lit "CPLAssetBurstStackAssetByAssetDate";
                    fd_list_type := lit "CPLBurstStackAssetAndMasterByAssetDate"; fd_query_value := None; fd_is_sensitive := false |});
  (lit "Favorites", smart_def "CPLAssetInSmartAlbumByAssetDate:Favorite" "FAVORITE");
  (lit "Panoramas", smart_def "CPLAssetInSmartAlbumByAssetDate:Panorama" "PANORAMA");
  (lit "Screenshots", smart_def "CPLAssetInSmartAlbumByAssetDate:Screenshot" "SCREENSHOT");
  (lit "Live", smart_def "CPLAssetInSmartAlbumByAssetDate:Live" "LIVE");
  (lit "Recently Deleted", {| fd_obj_type := lit "CPLAssetDeletedByExpungedDate";
                              fd_list_type := lit "CPLAssetAndMasterDeletedByExpungedDate"; fd_query_value := None; fd_is_sensitive := true |});
  (lit "Hidden", {| fd_obj_type := lit "CPLAssetHiddenByAssetDate";
                    fd_list_type := lit "CPLAssetAndMasterHiddenByAssetDate"; fd_query_value := None; fd_is_sensitive := true |})
].
Definition smart_folder_names : list str := smart_folder_table.*1.
Definition sensitive_smart_folder_names : list str :=
  (List.filter (λ d, fd_is_sensitive d.2) smart_folder_table).*1.
Definition is_smart_name (name : str) : bool := bool_decide (name ∈ smart_folder_names).

(** ** Albums *)

Record PhotoAlbum := {
  pa_name : str;
  pa_list_type : str;
  pa_obj_type : str;
  pa_parent : option str;
  pa_zone : str;
  pa_container_id : option str;
  pa_cross_zone_sources : list str;
}.
#[export] Instance PhotoAlbum_eq : EqDecision PhotoAlbum.
Proof. solve_decision. Defined.

Definition QUERY_FOLDER_LIST : str := lit "CPLContainerRelationLiveByAssetDate".
Definition QUERY_ALL_LIST : str := lit "CPLAssetAndMasterByAssetDateWithoutHiddenOrDeleted".
Definition QUERY_ALL_OBJ : str := lit "CPLAssetByAssetDateWithoutHiddenOrDeleted".
Definition ROOT_FOLDER : str := lit "----Root-Folder----".
Definition PROJECT_ROOT_FOLDER : str := lit "----Project-Root-Folder----".

(** A folder record, with the two fields the listing reads. *)
Record Folder := { fo_record_name : str; fo_is_deleted : bool; fo_name_enc : option str }.
(** base64 and UTF-8. *)
Class NameCodecs := { base64_decode : str → option (list Z); from_utf8 : list Z → option str }.

Section Albums.
Context `{NameCodecs}.

Definition smart_album (zone : str) (d : str * FolderDef) : PhotoAlbum := {|
  pa_name := d.1; pa_list_type := fd_list_type d.2; pa_obj_type := fd_obj_type d.2; pa_parent := None; pa_zone := zone;
  pa_container_id := None; pa_cross_zone_sources := [] |}.

Definition folder_name (f : Folder) : str :=
  match fo_name_enc f with
  | Some enc => sanitize_path_component (default (fo_record_name f) (from_utf8 (default [] (base64_decode enc))))
  | None => fo_record_name f
  end.
Definition folder_album (zone : str) (f : Folder) : PhotoAlbum := {|
  pa_name := folder_name f; pa_list_type := QUERY_FOLDER_LIST;
  pa_obj_type := lit "CPLContainerRelationNotDeletedByAssetDate:" ++ fo_record_name f; pa_parent := Some (fo_record_name f);
  pa_zone := zone; pa_container_id := Some (fo_record_name f); pa_cross_zone_sources := [] |}.
Definition listed_folder (f : Folder) : bool :=
  negb (str_eqb (fo_record_name f) ROOT_FOLDER) && negb (str_eqb (fo_record_name f) PROJECT_ROOT_FOLDER) && negb (fo_is_deleted f).

Definition all_album (zone : str) : PhotoAlbum := {|
  pa_name := []; pa_list_type := QUERY_ALL_LIST; pa_obj_type := QUERY_ALL_OBJ; pa_parent := None; pa_zone := zone;
  pa_container_id := None; pa_cross_zone_sources := [] |}.

Definition insert_albums (l : list PhotoAlbum) (m : gmap str PhotoAlbum) : gmap str PhotoAlbum :=
  foldl (λ m a, <[pa_name a := a]> m) m l.
(** [albums] of a library whose folders are [folders]. *)
Definition album_map (zone : str) (folders : list Folder) : gmap str PhotoAlbum :=
  insert_albums (if is_shared_zone zone then [] else folder_album zone <$> List.filter listed_folder folders)
    (insert_albums (smart_album zone <$> smart_folder_table) ∅).
End Albums.

(** The pages of the folder query, sixty-four at most. *)
Definition FOLDER_PAGE_CAP : nat := 64.
Section Folders.
Context {St E : Type} (query : option str → St → St * result E (list Folder * option str)).
Fixpoint fetch_pages (pages : nat) (continuation : option str) (acc : list Folder) (s : St) : St * result E (list Folder) :=
  match pages with
  | O => (s, Ok acc)
  | S pages =>
      match query continuation s with
      | (s, Err e) => (s, Err e)
      | (s, Ok (records, marker)) =>
          let acc := acc ++ records in
          match marker with
          | Some m => if bool_decide (m = []) then (s, Ok acc) else fetch_pages pages (Some m) acc s
          | None => (s, Ok acc)
          end
      end
  end.
Definition fetch_folders : St → St * result E (list Folder) := fetch_pages FOLDER_PAGE_CAP None [].
End Folders.

(** ** The libraries of a run *)

Inductive PlanError :=
| LibraryNotMatched (entry : str) | NoLibrarySelected | SameLibraryFolder (folder : str)
| AlbumIsSmartFolder (name : str) | AlbumNotFound (name : str) | ExcludedAlbumNotFound (name : str)
| NotASmartFolder (name : str) | ExcludedSmartFolderNotFound (name : str).

Definition library_entry_matches_zone (entry zone truncated : str) : bool :=
  eq_ignore_ascii_case entry zone || eq_ignore_ascii_case entry truncated.

Definition library_included (sel : LibrarySelector) (zone : str) : bool :=
  (primary sel && str_eqb zone PRIMARY_ZONE_NAME) || (shared_all sel && is_shared_zone zone)
  || existsb (λ entry, library_entry_matches_zone entry zone (truncate_library_zone zone)) (named sel).
Definition library_excluded (sel : LibrarySelector) (zone : str) : bool :=
  existsb (λ entry, (eq_ignore_ascii_case entry (lit "primary") && str_eqb zone PRIMARY_ZONE_NAME)
                    || (eq_ignore_ascii_case entry (lit "shared") && is_shared_zone zone)
                    || library_entry_matches_zone entry zone (truncate_library_zone zone)) (excluded sel).
(** The entries of [named] that were tried on some zone and matched: they are
    tried in order until one matches, and only on zones the flags leave out. *)
Definition hit_entry (sel : LibrarySelector) (zone : str) : option str :=
  if (primary sel && str_eqb zone PRIMARY_ZONE_NAME) || (shared_all sel && is_shared_zone zone) then None
  else List.find (λ entry, library_entry_matches_zone entry zone (truncate_library_zone zone)) (named sel).
Definition named_hits (sel : LibrarySelector) (zones : list str) : list str := omap (hit_entry sel) zones.
Definition chosen_zones (sel : LibrarySelector) (zones : list str) : list str :=
  List.filter (λ z, library_included sel z && negb (library_excluded sel z)) zones.

(** Two chosen zones with the same folder name. *)
Fixpoint shared_folder (zones : list str) : option str :=
  match zones with
  | [] => None
  | z :: zones =>
      if bool_decide (truncate_library_zone z ∈ truncate_library_zone <$> zones) then Some (truncate_library_zone z)
      else shared_folder zones
  end.

#[export] Instance LibrarySelector_eq : EqDecision LibrarySelector.
Proof. solve_decision. Defined.

(** [resolve_libraries] on the zones of the account; the default selection
    takes the primary zone without listing the others. *)
Definition resolve_libraries (sel : LibrarySelector) (zones : list str) : result PlanError (list str) :=
  if bool_decide (sel = LibrarySelector_default) then Ok [PRIMARY_ZONE_NAME]
  else
  match List.find (λ n, negb (bool_decide (n ∈ named_hits sel zones))) (named sel) with
  | Some missed => Err (LibraryNotMatched missed)
  | None =>
      match chosen_zones sel zones with
      | [] => Err NoLibrarySelected
      | _ :: _ =>
          match shared_folder (chosen_zones sel zones) with
          | Some folder => Err (SameLibraryFolder folder)
          | None => Ok (chosen_zones sel zones)
          end
      end
  end.

(** ** The scope of a library *)

Record PassScope := { include_albums : bool; include_smart_folders : bool; include_unfiled : bool }.
Definition scope_is_empty (p : PassScope) : bool :=
  negb (include_albums p) && negb (include_smart_folders p) && negb (include_unfiled p).

Definition smart_selector_active (sel : Selection) : bool := match smart_folders sel with SmartNone => false | _ => true end.
Definition albums_active (sel : Selection) : bool := match albums sel with AlbumNone => false | _ => true end.

Definition collection_libraries {A} (sel : Selection) (selected all : list A) : list A :=
  if albums_explicit sel || smart_selector_active sel then all else selected.

Definition pass_scope_for_zone (sel : Selection) (zone : str) (selected_zones collection_zones : list str) : PassScope := {|
  include_albums :=
    match albums sel with
    | AlbumNone => false
    | _ => if albums_explicit sel then bool_decide (zone ∈ collection_zones) else bool_decide (zone ∈ selected_zones)
    end;
  include_smart_folders := smart_selector_active sel && bool_decide (zone ∈ collection_zones);
  include_unfiled := unfiled sel && bool_decide (zone ∈ selected_zones) |}.

Definition needs_cross_zone (sel : Selection) : bool := albums_active sel && albums_explicit sel.

(** ** Choosing albums and smart folders *)

(** Names in the order of [sort]. *)
Definition sort_names (names : list str) : list str := order_by (λ a b, negb (str_ltb b a)) names.

Fixpoint check_all {A} (check : A → option PlanError) (l : list A) : result PlanError unit :=
  match l with
  | [] => Ok tt
  | a :: l => match check a with Some e => Err e | None => check_all check l end
  end.

Definition excluded_smart_check (name : str) : option PlanError :=
  if is_smart_name name then None else Some (ExcludedSmartFolderNotFound name).

Definition pick_selected_smart_folder_names (sel : SmartFolderSelector) : result PlanError (list str) :=
  match sel with
  | SmartNone => Ok []
  | SmartAll include_sensitive excluded =>
      _ ← check_all excluded_smart_check excluded;
      Ok (sort_names (List.filter (λ name, (include_sensitive || negb (bool_decide (name ∈ sensitive_smart_folder_names)))
                                           && negb (bool_decide (name ∈ excluded))) smart_folder_names))
  | SmartNamed included excluded =>
      _ ← check_all (λ name, if is_smart_name name then None else Some (NotASmartFolder name)) included;
      _ ← check_all excluded_smart_check excluded;
      Ok (List.filter (λ name, negb (bool_decide (name ∈ excluded))) included)
  end.

Section Picks.
(** Iterating over the keys of a hash map. *)
Context (hash_order : gset str → list str).

Definition bail_unknown_excluded_albums (excluded : list str) (known : gset str) : result PlanError unit :=
  check_all (λ name, if bool_decide (name ∈ known) then None else Some (ExcludedAlbumNotFound name)) excluded.

Definition user_albums_but (excluded : list str) (m : gmap str PhotoAlbum) : list str :=
  List.filter (λ name, negb (is_smart_name name) && negb (bool_decide (name ∈ excluded))) (hash_order (dom m)).

Definition pick_album_names (sel : AlbumSelector) (m : gmap str PhotoAlbum) : result PlanError (list str) :=
  match sel with
  | AlbumNone => Ok []
  | AlbumAll excluded =>
      _ ← bail_unknown_excluded_albums excluded (dom m);
      Ok (user_albums_but excluded m)
  | AlbumNamed included excluded =>
      _ ← check_all (λ name,
            if is_smart_name name then Some (AlbumIsSmartFolder name)
            else if bool_decide (name ∈ excluded) then None
            else if bool_decide (name ∈ dom m) then None else Some (AlbumNotFound name)) included;
      _ ← bail_unknown_excluded_albums excluded (dom m);
      Ok (List.filter (λ name, negb (bool_decide (name ∈ excluded))) included)
  end.

(** *** With explicit albums, names are looked for in every library *)

Definition validate_collection_album_selector (sel : AlbumSelector) (known : gset str) : result PlanError unit :=
  match sel with
  | AlbumNone => Ok tt
  | AlbumAll excluded => bail_unknown_excluded_albums excluded known
  | AlbumNamed included excluded =>
      _ ← check_all (λ name,
            if is_smart_name name then Some (AlbumIsSmartFolder name)
            else if bool_decide (name ∈ excluded) then None
            else if bool_decide (name ∈ known) then None else Some (AlbumNotFound name)) included;
      bail_unknown_excluded_albums excluded known
  end.

Definition pick_collection_scoped_album_names_for_library (sel : AlbumSelector) (m : gmap str PhotoAlbum) (known : gset str) :
    result PlanError (list str) :=
  match sel with
  | AlbumNone => Ok []
  | AlbumAll excluded =>
      _ ← bail_unknown_excluded_albums excluded known;
      Ok (user_albums_but excluded m)
  | AlbumNamed included excluded =>
      _ ← validate_collection_album_selector sel known;
      Ok (List.filter (λ name, bool_decide (name ∈ dom m)) (List.filter (λ name, negb (bool_decide (name ∈ excluded))) included))
  end.

Record CollectionContext := { collection_album_names : gset str; selected_smart_folder_names : list str }.

(** [build_collection_context] over the album maps of the collection libraries. *)
Definition user_album_names (maps : list (gmap str PhotoAlbum)) : gset str :=
  filter (λ name, is_smart_name name = false) (⋃ (dom <$> maps)).
Definition build_collection_context (sel : Selection) (maps : list (gmap str PhotoAlbum)) : result PlanError CollectionContext :=
  names ← pick_selected_smart_folder_names (smart_folders sel);
  if needs_cross_zone sel then
    _ ← validate_collection_album_selector (albums sel) (user_album_names maps);
    Ok {| collection_album_names := user_album_names maps; selected_smart_folder_names := names |}
  else Ok {| collection_album_names := ∅; selected_smart_folder_names := names |}.

(** ** Passes *)

Record AlbumPass := { ap_kind : PassKind; ap_album : PhotoAlbum; ap_exclude_ids : gset str }.

Definition with_cross_zone_sources (sources : list str) (a : PhotoAlbum) : PhotoAlbum := {|
  pa_name := pa_name a; pa_list_type := pa_list_type a; pa_obj_type := pa_obj_type a; pa_parent := pa_parent a;
  pa_zone := pa_zone a; pa_container_id := pa_container_id a; pa_cross_zone_sources := sources |}.

(** Takes the albums out of the map, in order. *)
Fixpoint drain_named (names : list str) (kind : PassKind) (sources : list str) (m : gmap str PhotoAlbum) :
    gmap str PhotoAlbum * list AlbumPass :=
  match names with
  | [] => (m, [])
  | name :: names =>
      match m !! name with
      | None => drain_named names kind sources m
      | Some album =>
          let album := if bool_decide (kind = PassAlbum) && negb (bool_decide (sources = []))
                       then with_cross_zone_sources sources album else album in
          let '(m, passes) := drain_named names kind sources (delete name m) in
          (m, {| ap_kind := kind; ap_album := album; ap_exclude_ids := ∅ |} :: passes)
      end
  end.
Definition drain_named_into_passes (m : gmap str PhotoAlbum) (names : list str) (kind : PassKind) (sources : list str) :
    gmap str PhotoAlbum * list AlbumPass := drain_named (sort_names names) kind sources m.

(** [resolve_passes_for_scope] of a library whose listing is [listing]; it is
    only asked for when albums or smart folders are wanted. *)
Definition resolve_passes_for_scope {E} (plan_error : PlanError → E) (listing : result E (gmap str PhotoAlbum)) (zone : str)
    (sel : Selection) (scope : PassScope) (ctx : CollectionContext) (cross_zone_libraries : list str) : result E (list AlbumPass) :=
  let album_active := include_albums scope && albums_active sel in
  let smart_active := include_smart_folders scope && smart_selector_active sel in
  let unfiled_active := include_unfiled scope in
  if negb album_active && negb smart_active && negb unfiled_active then Ok []
  else
    let lift {A} (r : result PlanError A) : result E A := match r with Ok a => Ok a | Err e => Err (plan_error e) end in
    m ← (if album_active || smart_active then listing else Ok ∅ : result E (gmap str PhotoAlbum));
    album_names ← (if album_active
                   then lift (if albums_explicit sel
                              then pick_collection_scoped_album_names_for_library (albums sel) m (collection_album_names ctx)
                              else pick_album_names (albums sel) m)
                   else Ok []);
    let smart_names := if smart_active
                       then List.filter (λ name, bool_decide (name ∈ dom m)) (selected_smart_folder_names ctx) else [] in
    let sources := List.filter (λ z, negb (str_eqb z zone)) cross_zone_libraries in
    let '(m, album_passes) := drain_named_into_passes m album_names PassAlbum sources in
    let '(_, smart_passes) := drain_named_into_passes m smart_names PassSmartFolder [] in
    Ok (album_passes ++ smart_passes
        ++ if unfiled_active then [{| ap_kind := PassUnfiled; ap_album := all_album zone; ap_exclude_ids := ∅ |}] else []).

(** [count_passes]. *)
Definition count_passes (plan : list AlbumPass) : Z * Z * bool :=
  (Z.of_nat (length (List.filter (λ p, bool_decide (ap_kind p = PassAlbum)) plan)),
   Z.of_nat (length (List.filter (λ p, bool_decide (ap_kind p = PassSmartFolder)) plan)),
   existsb (λ p, bool_decide (ap_kind p = PassUnfiled)) plan).
End Picks.

(** ** Templates that mix libraries: [find_multi_library_commingle_flags] *)

Definition find_multi_library_commingle_flags (plans : list (list AlbumPass))
    (folder_structure folder_structure_albums folder_structure_smart_folders : str) : list str :=
  if (length plans <? 2)%nat then []
  else
    let count (f : Z * Z * bool → bool) : Z := Z.of_nat (length (List.filter (λ plan, f (count_passes plan)) plans)) in
    let active_unfiled := count (λ c, c.2) in
    let active_album := count (λ c, 0 <? c.1.1) in
    let active_smart := count (λ c, 0 <? c.1.2) in
    if (active_unfiled =? 0) && (active_album =? 0) && (active_smart =? 0) then []
    else
      (if (1 <? active_unfiled) && negb (contains TOKEN_LIBRARY folder_structure) then [lit "--folder-structure"] else [])
      ++ (if (1 <? active_album) && negb (contains TOKEN_LIBRARY folder_structure_albums) then [lit "--folder-structure-albums"] else [])
      ++ (if (1 <? active_smart) && negb (contains TOKEN_LIBRARY folder_structure_smart_folders)
          then [lit "--folder-structure-smart-folders"] else []).
