(* ===== verification/PassesSpec.v ===== *)
(** * What the pass planner promises

    The plan of a library is what the selection says, the libraries of a run
    have folders of their own, and every entry that was asked for was found. *)
From S2P Require Import Prelude RustStr Paths Types StateDb Selection Call Passes.

(** ** Helpers *)


Lemma filter_In {A} (f : A → bool) l a : a ∈ List.filter f l ↔ a ∈ l ∧ f a = true.
Proof. rewrite !list_elem_of_In. apply List.filter_In. Qed.

(** ** Draining *)


(** ** What a selection asks for *)


Section Plan.
Context (hash_order : gset str → list str).
Hypothesis Horder : ∀ X, hash_order X ≡ₚ elements X.






(** *** No name is passed over *)











End Plan.

(** ** Libraries *)

Lemma shared_folder_None zones : shared_folder zones = None ↔ NoDup (truncate_library_zone <$> zones).
Proof.
  induction zones as [|z zones IH]; cbn [shared_folder]; [by split; [intros _; apply NoDup_nil_2|]|].
  rewrite fmap_cons, NoDup_cons. case_bool_decide; [naive_solver|]. rewrite IH. tauto.
Qed.

Lemma find_None {A} (f : A → bool) l : List.find f l = None → ∀ a, a ∈ l → f a = false.
Proof. intros Hf a Ha%list_elem_of_In. by eapply List.find_none. Qed.

Lemma named_hits_match sel zones n : n ∈ named_hits sel zones →
  ∃ z, z ∈ zones ∧ library_entry_matches_zone n z (truncate_library_zone z) = true.
Proof.
  unfold named_hits. intros (z & Hz & Hh)%list_elem_of_omap. exists z. split; [done|]. unfold hit_entry in Hh. case_match; [done|].
  apply List.find_some in Hh as [_ Hh]. exact Hh.
Qed.

(** C20: the libraries of a run never share a folder, none that is excluded is
    taken, every one that is included is, and each entry that was given by name
    is a library of the account. *)
Theorem libraries_have_their_own_folders sel zones chosen : PRIMARY_ZONE_NAME ∈ zones →
  resolve_libraries sel zones = Ok chosen →
  chosen ≠ [] ∧ NoDup (truncate_library_zone <$> chosen)
  ∧ (∀ z, z ∈ chosen → z ∈ zones ∧ library_included sel z = true ∧ library_excluded sel z = false)
  ∧ (∀ z, z ∈ zones → library_included sel z = true → library_excluded sel z = false → z ∈ chosen)
  ∧ ∀ n, n ∈ named sel → ∃ z, z ∈ zones ∧ library_entry_matches_zone n z (truncate_library_zone z) = true.
Proof.
  intros Hprimary. unfold resolve_libraries. case_bool_decide as Hd.
  { subst sel. intros [= <-]. split_and!; [done|by apply NoDup_singleton|..].
    - by intros z ->%list_elem_of_singleton.
    - intros z Hz Hi _. apply list_elem_of_singleton. unfold library_included in Hi. cbn -[str_eqb] in Hi.
      rewrite !orb_false_r in Hi. by apply str_eqb_eq in Hi.
    - by intros n ?%elem_of_nil. }
  destruct (List.find _ (named sel)) as [missed|] eqn:Ef; [done|].
  assert (Hin : ∀ z, z ∈ chosen_zones sel zones ↔ z ∈ zones ∧ library_included sel z = true ∧ library_excluded sel z = false).
  { intros z. unfold chosen_zones. by rewrite filter_In, andb_true_iff, negb_true_iff. }
  destruct (chosen_zones sel zones) as [|z0 rest] eqn:Ec; [done|].
  destruct (shared_folder (z0 :: rest)) eqn:Es; [done|]. intros [= <-]. apply shared_folder_None in Es.
  split_and!; [done|exact Es|by intros z Hz%Hin|intros z Hz Hi He; by apply Hin|].
  intros n Hn. apply (named_hits_match sel). apply (find_None _ _ Ef) in Hn. by apply negb_false_iff, bool_decide_eq_true in Hn.
Qed.

(** ** What the listing loses *)

Section Listing.
Context `{NameCodecs}.

(** Of two albums of a library with one name, the listing keeps the later one:
    the photos of the other have no album pass. *)
Theorem same_name_album_lost zone f g : is_shared_zone zone = false → listed_folder f = true → listed_folder g = true →
  folder_name f = folder_name g → album_map zone [f; g] !! folder_name f = Some (folder_album zone g).
Proof.
  intros Hz Hf Hg Hn. unfold album_map. rewrite Hz. cbn [List.filter]. rewrite Hf, Hg. cbn [fmap list_fmap insert_albums foldl].
  change (pa_name (folder_album zone g)) with (folder_name g). by rewrite Hn, lookup_insert_eq.
Qed.

(** An album of the user named like a smart folder takes its place. *)
Theorem user_album_replaces_smart_folder zone f : is_shared_zone zone = false → listed_folder f = true →
  album_map zone [f] !! folder_name f = Some (folder_album zone f).
Proof.
  intros Hz Hf. unfold album_map. rewrite Hz. cbn [List.filter]. rewrite Hf. cbn [fmap list_fmap insert_albums foldl].
  change (pa_name (folder_album zone f)) with (folder_name f). by rewrite lookup_insert_eq.
Qed.

End Listing.

(** ** Runs *)

Module PlanRuns.
#[export] Instance codecs : NameCodecs := { base64_decode s := Some s; from_utf8 b := Some b }.
Definition folder (record name : string) : Folder :=
  {| fo_record_name := lit record; fo_is_deleted := false; fo_name_enc := Some (lit name) |}.
Definition m : gmap str PhotoAlbum := album_map PRIMARY_ZONE_NAME [folder "r1" "Trip"; folder "r2" "Work"].
Definition sel : Selection := {|
  albums := AlbumNamed [lit "Trip"] []; albums_explicit := true; smart_folders := SmartNamed [lit "Videos"] [];
  smart_folders_explicit := true; libraries := LibrarySelector_default; unfiled := true |}.
Definition scope : PassScope := pass_scope_for_zone sel PRIMARY_ZONE_NAME [PRIMARY_ZONE_NAME] [PRIMARY_ZONE_NAME; lit "Other"].
Definition ctx : CollectionContext := {| collection_album_names := user_album_names [m]; selected_smart_folder_names := [lit "Videos"] |}.
Definition plan_of := resolve_passes_for_scope elements (λ e, e) (Ok m) PRIMARY_ZONE_NAME sel scope ctx [PRIMARY_ZONE_NAME; lit "Other"].
Definition plan : list AlbumPass := match plan_of with Ok plan => plan | Err _ => [] end.

Lemma plan_kinds : ap_kind <$> plan = [PassAlbum; PassSmartFolder; PassUnfiled].
Proof. vm_compute. reflexivity. Qed.


Definition shared : LibrarySelector := {| primary := true; shared_all := true; named := []; excluded := [lit "SharedSync-BBBBBBBB-1"] |}.
Definition zones : list str := [PRIMARY_ZONE_NAME; lit "SharedSync-AAAAAAAA-1"; lit "SharedSync-BBBBBBBB-1"].
Lemma libraries_have_their_own_folders_witness :
  resolve_libraries shared zones = Ok [PRIMARY_ZONE_NAME; lit "SharedSync-AAAAAAAA-1"]
  ∧ NoDup (truncate_library_zone <$> [PRIMARY_ZONE_NAME; lit "SharedSync-AAAAAAAA-1"]).
Proof.
  assert (Hr : resolve_libraries shared zones = Ok [PRIMARY_ZONE_NAME; lit "SharedSync-AAAAAAAA-1"]) by (vm_compute; reflexivity).
  split; [exact Hr|].
  refine (proj1 (proj2 (libraries_have_their_own_folders shared zones _ _ Hr))). left.
Defined.

(** An entry that names a library the flags already take is reported as
    unmatched, and so is the second of two entries for one library. *)
Theorem taken_entry_reported_missing :
  (sel ← parse_library_selector [lit "primary"; lit "PrimarySync"]; Ok (resolve_libraries sel zones))
    = Ok (Err (LibraryNotMatched (lit "PrimarySync")))
  ∧ (sel ← parse_library_selector [lit "shared"; lit "SharedSync-AAAAAAAA-1"]; Ok (resolve_libraries sel zones))
    = Ok (Err (LibraryNotMatched (lit "SharedSync-AAAAAAAA-1"))).
Proof. split; vm_compute; reflexivity. Qed.
End PlanRuns.
