(* ===== verification/FullPass.v ===== *)
(** * A full enumeration: [download_photos_full_with_token_policy] of
    [src/download/mod.rs]

    Every selected pass is enumerated and downloaded, album memberships are
    recorded as snapshots, and the zone's sync token is collected from the
    passes, some of which may be run once more in the same cycle.

    Parameters: the provider's streams and counts, the pipeline of one pass
    (instantiated by [PassRun] in [FullRun]), the order in which concurrent
    passes finish, the metadata rewrite.  Concurrent passes are serialised in
    the order they finish. *)
From Stdlib Require Import SpecFloat.
From S2P Require Import Prelude RustStr Paths Types StateTypes StateDb Filter Stats Checkpoint Finalize Planner Context Albums Cycle Source Hydrate OnDisk UrlRefresh Incremental Producer PassRun Outcome Call.

(** ** Configuration *)

Inductive RecentScope := Global | PerFilter.
#[export] Instance RecentScope_eq : EqDecision RecentScope.
Proof. solve_decision. Defined.

Record FullConfig `{FilterEnv} := {
  fc_rc :> RunConfig;
  fc_recent_scope : RecentScope;
  fc_concurrent_downloads : Z;
  fc_enum_config_hash : option str;
  fc_refresh_metadata : bool;
}.

(** Bounds on the creation date, in milliseconds. *)
Definition DAY_MS : Z := 86400000.
Definition comparable_instant (f : CreatedDateFilter) : Z :=
  match f with Instant b => b | CaptureDate day => day * DAY_MS end.
Definition conservative_utc_lower_bound (f : CreatedDateFilter) : Z :=
  match f with Instant b => b | CaptureDate _ => comparable_instant f - DAY_MS end.

Definition with_exclude_ids `{FilterEnv} (ids : gset str) (c : DownloadConfig) : DownloadConfig := exclude_from ids c.

Definition requires_per_pass_paths `{FilterEnv} (c : DownloadConfig) : bool :=
  let any_token s := existsb (λ t, contains t s) [TOKEN_ALBUM; TOKEN_SMART_FOLDER; TOKEN_LIBRARY] in
  any_token (folder_structure c) || any_token (folder_structure_albums c) || any_token (folder_structure_smart_folders c)
  || negb (str_eqb (folder_structure_albums c) (folder_structure c))
  || negb (str_eqb (folder_structure_smart_folders c) (folder_structure c)).

Definition unfiled_label (name : str) : str := match name with [] => lit "unfiled" | _ => name end.
Definition pass_label `{FilterEnv} (c : DownloadConfig) : str := unfiled_label (default [] (album_name c)).

(** ** Counts *)

Definition zsum (l : list Z) : Z := foldr Z.add 0 l.

(** An error counts as zero; how many errors there were. *)
Fixpoint fold_pass_count_results {E} (results : list (result E Z)) : list Z * Z :=
  match results with
  | [] => ([], 0)
  | r :: results =>
      let '(counts, errors) := fold_pass_count_results results in
      match r with Ok n => (n :: counts, errors) | Err _ => (0 :: counts, errors + 1) end
  end.

Record PassCountPlan := {
  pp_display_counts : list Z;
  pp_stream_total_counts : list (option Z);
  pp_exact_total : option Z;
  pp_len_errors : Z;
}.

Definition capped_exact_total (counts : list Z) (recent : option Z) : Z := Z.min (zsum counts) (default U64_MAX recent).

Inductive PaginationShortfall := ShortMatch | DuplicateCompensated (shortfall : Z) | Shortfall (shortfall : Z).
Definition classify_pagination_shortfall (total unique_seen duplicate_asset_ids : Z) : PaginationShortfall :=
  if total <=? unique_seen then ShortMatch
  else
    let raw_seen := saturating_add U64_MAX unique_seen duplicate_asset_ids in
    if total <=? raw_seen then DuplicateCompensated (total - unique_seen) else Shortfall (total - raw_seen).

(** ** Streams *)

(** An opened stream: what it yields until its end, and what its token
    receiver resolves to. *)
Record PhotoStream (E : Type) := { os_items : list (result E PhotoAsset); os_token : result unit (option str) }.
Arguments os_items {E} _.
Arguments os_token {E} _.

(** What happens while a pipeline runs: the shutdown token at each item, the
    transfers that finish before each call and at the end, and how many items
    of each pass were pulled if the enumeration did not end. *)
Record Schedule (E : Type) := {
  sc_cancels : list bool;
  sc_moments : list (Moment E);
  sc_last : list (Completion E);
  sc_pulled : nat → nat;
}.
Arguments sc_cancels {E} _.
Arguments sc_moments {E} _.
Arguments sc_last {E} _.
Arguments sc_pulled {E} _.

Record RecentFrontier := { fr_asset_ids : gset str; fr_oldest_created : option Z }.

Definition max_option (a b : option Z) : option Z :=
  match a, b with Some x, Some y => Some (Z.max x y) | Some x, None => Some x | None, b => b end.

Section Bounds.
Context `{FilterEnv} (config : DownloadConfig).

Definition enumeration_created_lower_bound : option Z := conservative_utc_lower_bound <$> skip_created_before config.
Definition stream_created_lower_bound (frontier : option RecentFrontier) : option Z :=
  max_option (f ← frontier; fr_oldest_created f) enumeration_created_lower_bound.

Definition in_bounds (bound : option Z) (a : PhotoAsset) : bool := match bound with Some b => b <=? created a | None => true end.
Definition in_frontier (frontier : option RecentFrontier) (a : PhotoAsset) : bool :=
  match frontier with Some f => bool_decide (asset_record_name a ∈ fr_asset_ids f) | None => true end.

(** The items that pass, and whether the bound cut the stream. *)
Fixpoint bounded_items {E} (bound : option Z) (frontier : option RecentFrontier) (items : list (result E PhotoAsset)) :
    list (result E PhotoAsset) * bool :=
  match items with
  | [] => ([], false)
  | Err e :: items => let '(rest, cut) := bounded_items bound frontier items in (Err e :: rest, cut)
  | Ok a :: items =>
      if in_bounds bound a then
        let '(rest, cut) := bounded_items bound frontier items in
        (if in_frontier frontier a then Ok a :: rest else rest, cut)
      else ([], true)
  end.
Definition filter_stream_to_enumeration_bounds {E} (frontier : option RecentFrontier) (items : list (result E PhotoAsset)) :
    list (result E PhotoAsset) * bool := bounded_items (stream_created_lower_bound frontier) frontier items.
End Bounds.

(** The assets of a stream before a shutdown or the lower bound; an error of
    the stream ends the frontier's construction. *)
Fixpoint read_frontier {E} (bound : option Z) (items : list (bool * result E PhotoAsset)) (f : RecentFrontier) :
    result E RecentFrontier :=
  match items with
  | [] => Ok f
  | (true, _) :: _ => Ok f
  | (false, Err e) :: _ => Err e
  | (false, Ok a) :: items =>
      if in_bounds bound a then
        read_frontier bound items
          {| fr_asset_ids := {[asset_record_name a]} ∪ fr_asset_ids f;
             fr_oldest_created := Some (match fr_oldest_created f with Some o => Z.min o (created a) | None => created a end) |}
      else Ok f
  end.

(** ** Merging results *)

Section Merge.
Context `{FilterEnv}.

Definition merge_streaming_result (c r : StreamingResult) : StreamingResult := {|
  sg_downloaded := sg_downloaded c + sg_downloaded r; sg_exif_failures := sg_exif_failures c + sg_exif_failures r;
  sg_failed := sg_failed c ++ sg_failed r; sg_auth_errors := sg_auth_errors c + sg_auth_errors r;
  sg_state_write_failures := sg_state_write_failures c + sg_state_write_failures r;
  sg_enumeration_errors := sg_enumeration_errors c + sg_enumeration_errors r;
  sg_assets_seen := sg_assets_seen c + sg_assets_seen r; sg_skip_summary := add_assign (sg_skip_summary c) (sg_skip_summary r);
  sg_bytes_downloaded := sg_bytes_downloaded c; sg_disk_bytes_written := sg_disk_bytes_written c;
  sg_rate_limit_observations := sg_rate_limit_observations c; sg_url_expired_abort := sg_url_expired_abort c;
  sg_enumeration_complete := sg_enumeration_complete c && sg_enumeration_complete r;
  sg_photos_downloaded := sg_photos_downloaded c; sg_videos_downloaded := sg_videos_downloaded c; sg_recap := sg_recap c |}.

Definition merge_token_recovery_result (c r : StreamingResult) : StreamingResult := {|
  sg_downloaded := sg_downloaded c + sg_downloaded r; sg_exif_failures := sg_exif_failures c + sg_exif_failures r;
  sg_failed := sg_failed c ++ sg_failed r; sg_auth_errors := sg_auth_errors c + sg_auth_errors r;
  sg_state_write_failures := sg_state_write_failures c + sg_state_write_failures r;
  sg_enumeration_errors := sg_enumeration_errors c + sg_enumeration_errors r;
  sg_assets_seen := sg_assets_seen c; sg_skip_summary := sg_skip_summary c;
  sg_bytes_downloaded := sg_bytes_downloaded c + sg_bytes_downloaded r;
  sg_disk_bytes_written := sg_disk_bytes_written c + sg_disk_bytes_written r;
  sg_rate_limit_observations := sg_rate_limit_observations c + sg_rate_limit_observations r;
  sg_url_expired_abort := sg_url_expired_abort c || sg_url_expired_abort r;
  sg_enumeration_complete := sg_enumeration_complete c && sg_enumeration_complete r;
  sg_photos_downloaded := sg_photos_downloaded c + sg_photos_downloaded r;
  sg_videos_downloaded := sg_videos_downloaded c + sg_videos_downloaded r;
  sg_recap := RunRecap_merge (sg_recap c) (sg_recap r) |}.

(** A field set by assignment: the enumeration flags, the failed rewrites. *)
Definition adjust (complete : bool) (errors exif : Z) (r : StreamingResult) : StreamingResult := {|
  sg_downloaded := sg_downloaded r; sg_exif_failures := exif; sg_failed := sg_failed r; sg_auth_errors := sg_auth_errors r;
  sg_state_write_failures := sg_state_write_failures r; sg_enumeration_errors := errors; sg_assets_seen := sg_assets_seen r;
  sg_skip_summary := sg_skip_summary r; sg_bytes_downloaded := sg_bytes_downloaded r;
  sg_disk_bytes_written := sg_disk_bytes_written r; sg_rate_limit_observations := sg_rate_limit_observations r;
  sg_url_expired_abort := sg_url_expired_abort r; sg_enumeration_complete := complete;
  sg_photos_downloaded := sg_photos_downloaded r; sg_videos_downloaded := sg_videos_downloaded r; sg_recap := sg_recap r |}.
End Merge.

(** ** The store *)

(** [begin_enum_progress], [end_enum_progress] and the album snapshots. *)
Class EnumerationStore (St : Type) := {
  es_begin_enum_progress : str → St → St * result StateError unit;
  es_end_enum_progress : str → St → St * result StateError unit;
  es_start_album_membership_snapshot : str → str → option str → St → St * result StateError Z;
  es_add_album_membership_to_snapshot : str → str → Z → str → option str → str → St → St * result StateError unit;
  es_complete_album_membership_snapshot : str → str → Z → St → St * result StateError unit;
}.

(** ** Statistics of a full run *)

Record TokenCounts := {
  tc_expected_receivers : Z; tc_receivers_with_token : Z; tc_receivers_missing : Z; tc_receivers_blank : Z;
  tc_receivers_dropped : Z; tc_unique_values : Z;
}.
Definition token_counts (observations : list PassTokenObservation) : TokenCounts :=
  let number (v : PassTokenResult) := zlen (List.filter (λ o, same_variant (pto_result o) v) observations) in
  {| tc_expected_receivers := zlen observations; tc_receivers_with_token := number (Checkpoint.Present []);
     tc_receivers_missing := number Checkpoint.Missing; tc_receivers_blank := number Blank; tc_receivers_dropped := number ReceiverDropped;
     tc_unique_values := zlen (remove_dups (omap present observations)) |}.

Record FullFacts := {
  ff_api_total_at_start : option Z;
  ff_count_probe_failures : Z;
  ff_pagination_shortfall_warnings : Z;
  ff_pagination_shortfall_assets : Z;
  ff_tail_probes : Z;
  ff_count_undercount_assets : Z;
  ff_recovery_attempts : Z;
  ff_recovery_successes : Z;
  ff_retry_passes : list PassKey;
  ff_token_counts : option TokenCounts;
  ff_block : TokenBlock;
}.
Definition full_stats (f : FullFacts) (s : SyncStats) : SyncStats :=
  let tc (g : TokenCounts → Z) (old : option Z) := match ff_token_counts f with Some c => Some (g c) | None => old end in {|
  assets_seen := assets_seen s; api_total_at_start := ff_api_total_at_start f;
  api_total_at_start_partial := api_total_at_start_partial s; downloaded := downloaded s; failed := failed s;
  skipped := skipped s; bytes_downloaded := bytes_downloaded s; disk_bytes_written := disk_bytes_written s;
  exif_failures := exif_failures s; metadata_capture_revision := metadata_capture_revision s;
  metadata_capture_refreshed := metadata_capture_refreshed s;
  metadata_capture_failures := metadata_capture_failures s;
  metadata_capture_remaining := metadata_capture_remaining s;
  metadata_capture_progressed := metadata_capture_progressed s; state_write_failures := state_write_failures s;
  enumeration_errors := enumeration_errors s; count_probe_failures := ff_count_probe_failures f;
  stale_pending_pruned := stale_pending_pruned s;
  pagination_shortfall_warnings := ff_pagination_shortfall_warnings f;
  pagination_shortfall_assets := ff_pagination_shortfall_assets f; tail_probes := ff_tail_probes f;
  count_undercount_assets := ff_count_undercount_assets f; enumeration_incomplete := enumeration_incomplete s;
  inventory_drop_warnings := inventory_drop_warnings s; inventory_drop_assets := inventory_drop_assets s;
  inventory_drop_percent := inventory_drop_percent s;
  inventory_drop_previous_total := inventory_drop_previous_total s;
  inventory_drop_current_total := inventory_drop_current_total s; inventory_drop_library := inventory_drop_library s;
  sync_token_blocked := tb_blocked (ff_block f); sync_token_blocked_reason := tb_reason (ff_block f);
  sync_token_blocked_source := tb_source (ff_block f); sync_token_blocked_explanation := tb_explanation (ff_block f);
  full_enumeration_reason := full_enumeration_reason s; sync_token_blocked_zone := sync_token_blocked_zone s;
  sync_token_expected_receivers := tc tc_expected_receivers (sync_token_expected_receivers s);
  sync_token_receivers_with_token := tc tc_receivers_with_token (sync_token_receivers_with_token s);
  sync_token_receivers_missing := tc tc_receivers_missing (sync_token_receivers_missing s);
  sync_token_receivers_blank := tc tc_receivers_blank (sync_token_receivers_blank s);
  sync_token_receivers_dropped := tc tc_receivers_dropped (sync_token_receivers_dropped s);
  sync_token_unique_values := tc tc_unique_values (sync_token_unique_values s);
  same_cycle_recovery_attempts := ff_recovery_attempts f; same_cycle_recovery_successes := ff_recovery_successes f;
  checkpoint_retry_passes := ff_retry_passes f; checkpoint_revalidate_records := checkpoint_revalidate_records s;
  elapsed_secs := elapsed_secs s; interrupted := interrupted s; rate_limited := rate_limited s;
  photos_downloaded := photos_downloaded s; videos_downloaded := videos_downloaded s; recap := recap s;
|}.

(** ** The full pass *)

(** A pass whose pipeline ended. *)
Record PerPassStreamingResult `{FilterEnv} := {
  pp_pass_index : nat;
  pp_kind : PassKind;
  pp_label : str;
  pp_count : Z;
  pp_token : result unit (option str);
  pp_result : StreamingResult;
  (** The bound cut the part of the stream that was read. *)
  pp_cut : bool;
  (** The names of the assets that were read. *)
  pp_names : gset str;
}.

Record AlbumSnapshotRecorder := { as_library : str; as_container_id : str; as_generation : Z }.

Section FullPass.
Context `{FilterEnv, StateEnv, IndexOrder} {St AnyError : Type} `{SourceStore St, EnumerationStore St}.
Context (fc : FullConfig) (fuel : nat) (is_cancelled : St → bool) (elapsed : St → spec_float).
(** The provider: the streams of a pass in the two variants (limit, total,
    concurrency, whether an empty tail is an error), its counts, its zone and
    its clone over the whole library. *)
Context (photo_stream_with_token_policy photo_stream_with_token_for_download_policy :
           SyncPass → option Z → option Z → Z → bool → St → St * PhotoStream AnyError).
Context (len_many : list SyncPass → St → St * list (result AnyError Z)).
Context (zone_name : SyncPass → str) (clone_as_library_wide : SyncPass → SyncPass).
Context (list_photos : SyncPass → option Z → St → St * result AnyError (list PhotoAsset)).
Context (collect_pass_asset_ids : SyncPass → St → St * result AnyError (gset str)).
(** The pipelines: the context, the stream of one pass, the pass over a list of
    tasks, the metadata rewrite; and the scheduler. *)
Context (preload_download_context : St → St * DownloadContext).
Context (stream_and_download : DownloadConfig → option DownloadContext → list (result AnyError PhotoAsset) → Schedule AnyError → St →
           option (St * result (PassError AnyError) StreamingResult)).
Context (run_download_pass : list DownloadTask → St → St * PassResult).
Context (run_pending : St → St * Z).
Context (next_schedule : St → St * Schedule AnyError).
Context (finish_order : list nat → list nat).
Context (select_all : list (list (result AnyError PhotoAsset)) → list (result AnyError PhotoAsset)).

Abbreviation base := (rc_config (fc_rc fc)).
Abbreviation has_db := (rc_has_db (fc_rc fc)).
Abbreviation recent := (rc_recent (fc_rc fc)).
Abbreviation run_mode := (rc_run_mode (fc_rc fc)).
Abbreviation M := (Call St (PassError AnyError)).

Definition is_some {A} (o : option A) : bool := bool_decide (is_Some o).
Definition date_bounded : bool := match skip_created_before base with Some _ => true | None => false end.
Definition count_bounded : bool := match recent with Some _ => true | None => false end.
Definition bounded_run : bool := count_bounded || date_bounded.
Definition reads_only : bool := only_print_filenames run_mode || is_dry_run run_mode.

(** *** Counts *)

Definition display_total_for_recent_scope (counts : list Z) : Z :=
  match recent, fc_recent_scope fc with
  | Some recent, Global => capped_exact_total counts (Some recent)
  | _, _ => zsum counts
  end.

Definition build_pass_count_plan (passes : list SyncPass) : M PassCountPlan :=
  if bounded_run then
    mret {| pp_display_counts := replicate (length passes) (default 0 recent);
            pp_stream_total_counts := replicate (length passes) None; pp_exact_total := None; pp_len_errors := 0 |}
  else
    results ← run (len_many passes);
    let '(counts, errors) := fold_pass_count_results (take (length passes) results) in
    mret {| pp_display_counts := counts;
            pp_stream_total_counts := if 0 <? errors then replicate (length passes) None else Some <$> counts;
            pp_exact_total := if errors =? 0 then Some (capped_exact_total counts recent) else None;
            pp_len_errors := errors |}.

(** *** Opening streams *)

Definition open_photo_stream_for_controls (pass : SyncPass) (limit total_count : option Z) (fast_concurrency download_concurrency : Z)
    (treat_empty_tail_as_error : bool) : M (PhotoStream AnyError) :=
  if reads_only then run (photo_stream_with_token_policy pass limit total_count fast_concurrency treat_empty_tail_as_error)
  else run (photo_stream_with_token_for_download_policy pass limit total_count download_concurrency treat_empty_tail_as_error).

Definition should_use_global_recent_frontier (passes : list SyncPass) : bool :=
  count_bounded && bool_decide (fc_recent_scope fc = Global)
  && existsb (λ p : SyncPass, negb (bool_decide (pass_kind p = PassUnfiled)) || negb (bool_decide (pass_exclude_ids p = ∅))) passes.

Definition frontier_source (passes : list SyncPass) : option SyncPass :=
  clone_as_library_wide <$>
    match List.find (λ p : SyncPass, bool_decide (pass_kind p = PassUnfiled)) passes with
    | Some p => Some p
    | None => head passes
    end.

Definition build_recent_frontier (passes : list SyncPass) : M (option RecentFrontier) :=
  match recent, frontier_source passes with
  | Some n, Some source =>
      if should_use_global_recent_frontier passes then
        stream ← open_photo_stream_for_controls source (Some n) None (fc_concurrent_downloads fc) (fc_concurrent_downloads fc) false;
        sc ← run next_schedule;
        match read_frontier (enumeration_created_lower_bound base) (with_cancels (sc_cancels sc) (os_items stream))
                {| fr_asset_ids := ∅; fr_oldest_created := None |} with
        | Ok f => mret (Some f)
        | Err e => throw (PassFailed e)
        end
      else mret None
  | _, _ => mret None
  end.

Definition scope_frontier_limit (frontier : option RecentFrontier) : option Z :=
  match frontier with Some _ => None | None => recent end.

(** *** Album snapshots *)

Definition start_for_pass (pass : SyncPass) : M (option AlbumSnapshotRecorder) :=
  match pass_kind pass, sp_container_id pass with
  | PassAlbum, Some c =>
      if has_db then
        r ← run (so_upsert_album_container (zone_name pass) c (pass_album_name pass) (lit "album"));
        match r with
        | Err _ => mret None
        | Ok _ =>
            g ← run (es_start_album_membership_snapshot (zone_name pass) c (fc_enum_config_hash fc));
            match g with
            | Ok g => mret (Some {| as_library := zone_name pass; as_container_id := c; as_generation := g |})
            | Err _ => mret None
            end
        end
      else mret None
  | _, _ => mret None
  end.

(** Whether a row could not be written. *)
Fixpoint record_assets (r : AlbumSnapshotRecorder) (items : list (result AnyError PhotoAsset)) : M bool :=
  match items with
  | [] => mret false
  | Err _ :: items => record_assets r items
  | Ok a :: items =>
      w ← run (es_add_album_membership_to_snapshot (as_library r) (as_container_id r) (as_generation r) (asset_record_name a)
                 (Some (record_name a)) (lit "icloud"));
      failed ← record_assets r items;
      mret (match w with Ok _ => failed | Err _ => true end)
  end.

Definition complete_if_clean (r : AlbumSnapshotRecorder) (write_failed : bool) (res : StreamingResult) : M unit :=
  if write_failed || (0 <? sg_enumeration_errors res) || negb (sg_enumeration_complete res) then mret tt
  else _ ← run (es_complete_album_membership_snapshot (as_library r) (as_container_id r) (as_generation r)); mret tt.

(** *** One pass *)

Definition names_of (items : list (result AnyError PhotoAsset)) : gset str :=
  list_to_set (omap (λ i, match i with Ok a => Some (asset_record_name a) | Err _ => None end) items).

(** [keep] is the filter of the deferred unfiled pass.  The rows of a snapshot
    are written for the items the pipeline pulled; they are written here after
    the pipeline's own calls, with which they commute. *)
Definition run_full_pass_stream (index : nat) (pass : SyncPass) (count : Z) (config : DownloadConfig) (ctx : option DownloadContext)
    (snapshot : option AlbumSnapshotRecorder) (keep : PhotoAsset → bool) (frontier : option RecentFrontier)
    (stream : PhotoStream AnyError) : M PerPassStreamingResult :=
  let kept items := List.filter (λ i, match i with Ok a => keep a | Err _ => true end)
                      (filter_stream_to_enumeration_bounds base frontier items).1 in
  sc ← run next_schedule;
  r ← catch (stream_and_download config ctx (kept (os_items stream)) sc);
  let complete := match r with Ok res => sg_enumeration_complete res | Err _ => false end in
  let pulled := if complete then os_items stream else take (sc_pulled sc index) (os_items stream) in
  write_failed ← match snapshot with Some rec => record_assets rec (kept pulled) | None => mret false end;
  match r with
  | Err e => throw e
  | Ok res =>
      _ ← match snapshot with Some rec => complete_if_clean rec write_failed res | None => mret tt end;
      mret {| pp_pass_index := index; pp_kind := pass_kind pass; pp_label := pass_label config; pp_count := count;
              pp_token := os_token stream; pp_result := res;
              pp_cut := (filter_stream_to_enumeration_bounds base frontier pulled).2; pp_names := names_of (kept pulled) |}
  end.

Definition strict_empty_tail_errors : bool := negb bounded_run && negb reads_only.

(** What the passes of a run share. *)
Record PassPlan := {
  pl_passes : list SyncPass;
  pl_counts : list Z;
  pl_stream_counts : list (option Z);
  pl_configs : list DownloadConfig;
  pl_concurrency : Z;
  pl_context : option DownloadContext;
  pl_frontier : option RecentFrontier;
  pl_snapshots : bool;
}.

Definition total_of (pl : PassPlan) (i : nat) : option Z := match pl_stream_counts pl !! i with Some c => c | None => None end.

(** The stream of pass [i]; [None] when the pass or its configuration is
    missing. *)
Definition run_pass_at (pl : PassPlan) (snapshots : bool) (keep : PhotoAsset → bool) (i : nat) : M (option PerPassStreamingResult) :=
  match (pl_passes pl !! i : option SyncPass), (pl_configs pl !! i : option DownloadConfig) with
  | Some pass, Some config =>
      snapshot ← (if snapshots then start_for_pass pass else mret None);
      stream ← open_photo_stream_for_controls pass (scope_frontier_limit (pl_frontier pl)) (total_of pl i) (fc_concurrent_downloads fc)
                 (pl_concurrency pl) strict_empty_tail_errors;
      r ← run_full_pass_stream i pass (default 0 (pl_counts pl !! i)) config (pl_context pl) snapshot keep (pl_frontier pl) stream;
      mret (Some r)
  | _, _ => mret None
  end.

(** *** All passes *)

Record Enumerated := {
  en_result : StreamingResult;
  en_receivers : list PassTokenReceiver;
  en_pagination_counts : list Z;
  en_deduction : Z;
  en_cut : bool;
  (** The album passes whose members the unfiled pass leaves out were read to
      their end; those members. *)
  en_exclusions_complete : bool;
  en_deferred_ids : gset str;
}.

Definition clean_enumeration (r : StreamingResult) : bool := sg_enumeration_complete r && (sg_enumeration_errors r =? 0).
Definition pass_key (index : nat) (kind : PassKind) (label : str) : PassKey :=
  {| pk_index := Z.of_nat index; pk_kind := kind; pk_label := label |}.
Definition token_receiver (p : PerPassStreamingResult) : PassTokenReceiver :=
  {| ptr_pass := pass_key (pp_pass_index p) (pp_kind p) (pp_label p); ptr_received := pp_token p;
     ptr_enumeration_complete := clean_enumeration (pp_result p) |}.

Definition absorb (deferred : bool) (e : Enumerated) (p : PerPassStreamingResult) : Enumerated :=
  let album := deferred && bool_decide (pp_kind p = PassAlbum) in
  let r := pp_result p in {|
    en_result := merge_streaming_result (en_result e) r;
    en_receivers := en_receivers e ++ [token_receiver p];
    en_pagination_counts := en_pagination_counts e;
    en_deduction := if album && (0 <? pp_count p) && (sg_assets_seen r =? 0) && clean_enumeration r
                    then saturating_add U64_MAX (en_deduction e) (pp_count p) else en_deduction e;
    en_cut := en_cut e || pp_cut p;
    en_exclusions_complete := en_exclusions_complete e && negb (album && negb (clean_enumeration r));
    en_deferred_ids := if album then en_deferred_ids e ∪ pp_names p else en_deferred_ids e |}.

(** The first error in the order the passes finish. *)
Fixpoint absorb_all (deferred : bool) (results : list (result (PassError AnyError) (option PerPassStreamingResult))) (e : Enumerated) :
    M Enumerated :=
  match results with
  | [] => mret e
  | Err err :: _ => throw err
  | Ok None :: results => absorb_all deferred results e
  | Ok (Some p) :: results => absorb_all deferred results (absorb deferred e p)
  end.

Definition set_result_complete (b : bool) (e : Enumerated) : Enumerated := {|
  en_result := adjust b (sg_enumeration_errors (en_result e)) (sg_exif_failures (en_result e)) (en_result e);
  en_receivers := en_receivers e; en_pagination_counts := en_pagination_counts e; en_deduction := en_deduction e; en_cut := en_cut e;
  en_exclusions_complete := en_exclusions_complete e; en_deferred_ids := en_deferred_ids e |}.
Definition set_pagination (counts : list Z) (e : Enumerated) : Enumerated := {|
  en_result := en_result e; en_receivers := en_receivers e; en_pagination_counts := counts; en_deduction := en_deduction e;
  en_cut := en_cut e; en_exclusions_complete := en_exclusions_complete e; en_deferred_ids := en_deferred_ids e |}.

Definition Enumerated_new (complete : bool) (counts : list Z) : Enumerated := {|
  en_result := listing_result 0 0 complete; en_receivers := []; en_pagination_counts := counts; en_deduction := 0; en_cut := false;
  en_exclusions_complete := true; en_deferred_ids := ∅ |}.

(** The unfiled pass, once the album passes are done; it is left out when one
    of them was not read to its end. *)
Definition run_deferred_unfiled (pl : PassPlan) (i : nat) (e : Enumerated) : M Enumerated :=
  if en_exclusions_complete e then
    r ← run_pass_at pl false (λ a, negb (bool_decide (asset_record_name a ∈ en_deferred_ids e))) i;
    mret (match r with
          | Some p => set_pagination (<[i := sg_assets_seen (pp_result p)]> (en_pagination_counts e)) (absorb false e p)
          | None => e
          end)
  else mret (set_result_complete false e).

Definition pass_parallelism (passes : list SyncPass) : Z :=
  Z.max 1 (Z.min (zlen passes) (fc_concurrent_downloads fc)).
Definition per_pass_download_concurrency (passes : list SyncPass) : Z :=
  Z.max 1 ((fc_concurrent_downloads fc + pass_parallelism passes - 1) / pass_parallelism passes).

Definition enumerate_per_pass (passes : list SyncPass) (snapshots : bool) (plan : PassCountPlan) (frontier : option RecentFrontier) :
    M Enumerated :=
  let deferred := deferred_unfiled_index passes in
  ctx ← (if is_dry_run run_mode then mret None else c ← run preload_download_context; mret (Some c));
  let pl := {| pl_passes := passes; pl_counts := pp_display_counts plan; pl_stream_counts := pp_stream_total_counts plan;
               pl_configs := build_pass_configs (fc_rc fc) passes; pl_concurrency := per_pass_download_concurrency passes;
               pl_context := ctx; pl_frontier := frontier; pl_snapshots := snapshots |} in
  let others := List.filter (λ i, negb (bool_decide (Some i = deferred))) (seq 0 (length passes)) in
  results ← collect (finish_order others) (run_pass_at pl snapshots (λ _, true));
  e ← absorb_all (is_some deferred) results (Enumerated_new (negb (bool_decide (passes = []))) (pp_display_counts plan));
  match deferred with
  | Some i => run_deferred_unfiled pl i e
  | None => mret e
  end.

(** *** One merged stream *)

Fixpoint open_all (passes : list (nat * SyncPass)) (plan : PassCountPlan) (frontier : option RecentFrontier) :
    M (list (nat * SyncPass * PhotoStream AnyError)) :=
  match passes with
  | [] => mret []
  | (i, p) :: passes =>
      s ← open_photo_stream_for_controls p (scope_frontier_limit frontier)
            (match pp_stream_total_counts plan !! i with Some c => c | None => None end)
            (fc_concurrent_downloads fc) (fc_concurrent_downloads fc) strict_empty_tail_errors;
      rest ← open_all passes plan frontier;
      mret ((i, p, s) :: rest)
  end.

Definition enumerate_merged (passes : list SyncPass) (plan : PassCountPlan) (frontier : option RecentFrontier) : M Enumerated :=
  let merged_config := with_exclude_ids (match passes with p :: _ => pass_exclude_ids p | [] => ∅ end) base in
  opened ← open_all (imap pair passes) plan frontier;
  sc ← run next_schedule;
  let bounds := filter_stream_to_enumeration_bounds base frontier in
  res ← stream_and_download merged_config None (select_all ((λ o, (bounds (os_items o.2)).1) <$> opened)) sc;
  let pulled (o : nat * SyncPass * PhotoStream AnyError) :=
    if sg_enumeration_complete res then os_items o.2 else take (sc_pulled sc o.1.1) (os_items o.2) in
  mret {| en_result := res;
          en_receivers := (λ o : nat * SyncPass * PhotoStream AnyError,
            {| ptr_pass := pass_key o.1.1 (pass_kind o.1.2) (unfiled_label (pass_album_name o.1.2)); ptr_received := os_token o.2;
               ptr_enumeration_complete := true |}) <$> opened;
          en_pagination_counts := pp_display_counts plan; en_deduction := 0;
          en_cut := existsb (λ o, (bounds (pulled o)).2) opened; en_exclusions_complete := true; en_deferred_ids := ∅ |}.

(** *** Passes run once more *)

(** The passes the token collection wants again ([collect_sync_token]). *)
Definition passes_to_repair (repair_token_gaps : bool) (e : Enumerated) : option (list PassKey) :=
  match initial_evidence (en_cut e) (sg_enumeration_complete (en_result e)) (sg_enumeration_errors (en_result e))
          (map observe_token (en_receivers e)) with
  | Recoverable passes _ => if repair_token_gaps then Some passes else None
  | _ => None
  end.

Record Repair := {
  rp_outcomes : list (PassKey * PassRecovery);
  rp_result : StreamingResult;
  rp_cut : bool;
}.

Definition outcome_for (outcomes : list (PassKey * PassRecovery)) (k : PassKey) : PassRecovery :=
  match List.find (λ o : PassKey * PassRecovery, bool_decide (o.1 = k)) outcomes with Some o => o.2 | None => NotAvailable end.

Fixpoint repair_passes (pl : PassPlan) (keys : list PassKey) (r : Repair) : M Repair :=
  match keys with
  | [] => mret r
  | k :: keys =>
      again ← catch (run_pass_at pl false (λ _, true) (Z.to_nat (pk_index k)));
      let note o res cut := {| rp_outcomes := rp_outcomes r ++ [(k, o)]; rp_result := res; rp_cut := rp_cut r || cut |} in
      repair_passes pl keys
        (match again with
         | Ok (Some p) =>
             note (Recovered (sg_enumeration_complete (pp_result p)) (sg_enumeration_errors (pp_result p)) (pp_token p))
                  (merge_token_recovery_result (rp_result r) (pp_result p)) (pp_cut p)
         | Ok None => note NotAvailable (rp_result r) false
         | Err _ => note RunFailed (rp_result r) false
         end)
  end.

(** The configurations of the repaired passes; none when they cannot be built. *)
Definition recovery_configs (passes : list SyncPass) : M (list DownloadConfig) :=
  r ← run (build_pass_configs_resolving_deferred_excludes (fc_rc fc) collect_pass_asset_ids passes);
  mret (match r with Ok configs => configs | Err _ => [] end).

Record Collected := {
  cl_token : TokenOutcome;
  cl_observations : list PassTokenObservation;
  cl_result : StreamingResult;
  cl_cut : bool;
  cl_repaired : bool;
}.

(** Nothing is collected in a run that only reads. *)
Definition collect_zone_token (passes : list SyncPass) (repair_token_gaps : bool) (plan : PassCountPlan)
    (frontier : option RecentFrontier) (e : Enumerated) : M Collected :=
  let r := en_result e in
  if reads_only then
    mret {| cl_token := {| to_sync_token := None; to_block_reason := None; to_retry_passes := [] |}; cl_observations := [];
            cl_result := r; cl_cut := en_cut e; cl_repaired := false |}
  else
    repair ← match passes_to_repair repair_token_gaps e with
             | None => mret None
             | Some keys =>
                 configs ← recovery_configs passes;
                 let pl := {| pl_passes := passes; pl_counts := pp_display_counts plan; pl_stream_counts := pp_stream_total_counts plan;
                              pl_configs := configs; pl_concurrency := fc_concurrent_downloads fc; pl_context := None;
                              pl_frontier := frontier; pl_snapshots := false |} in
                 rp ← repair_passes pl keys {| rp_outcomes := []; rp_result := r; rp_cut := en_cut e |};
                 mret (Some rp)
             end;
    let outcomes := match repair with Some rp => rp_outcomes rp | None => [] end in
    let '(token, observations, complete, errors) :=
      collect_sync_token repair_token_gaps (en_cut e) (sg_enumeration_complete r) (sg_enumeration_errors r) (en_receivers e)
        (outcome_for outcomes) in
    let merged := match repair with Some rp => rp_result rp | None => r end in
    mret {| cl_token := token; cl_observations := observations; cl_result := adjust complete errors (sg_exif_failures merged) merged;
            cl_cut := match repair with Some rp => rp_cut rp | None => en_cut e end;
            cl_repaired := is_some repair |}.

(** *** The result *)

Definition exact_total_after (plan : PassCountPlan) (e : Enumerated) : option Z :=
  match pp_exact_total plan with
  | Some _ => Some (Z.max 0 (capped_exact_total (en_pagination_counts e) recent - en_deduction e))
  | None => None
  end.

(** How many assets fewer than counted were seen. *)
Definition pagination_shortfall (plan : PassCountPlan) (e : Enumerated) : option Z :=
  match exact_total_after plan e with
  | Some total =>
      if (pp_len_errors plan =? 0) && negb reads_only && (0 <? total) then
        match classify_pagination_shortfall total (sg_assets_seen (en_result e)) (ps_duplicates (sg_skip_summary (en_result e))) with
        | Shortfall n => Some n
        | _ => None
        end
      else None
  | None => None
  end.

Definition stats_block (s : SyncStats) : TokenBlock :=
  {| tb_blocked := sync_token_blocked s; tb_reason := sync_token_blocked_reason s; tb_source := sync_token_blocked_source s;
     tb_explanation := sync_token_blocked_explanation s |}.

Definition full_facts (plan : PassCountPlan) (e : Enumerated) (c : Collected) (before : TokenBlock) : FullFacts :=
  let total := exact_total_after plan e in
  let shortfall := pagination_shortfall plan e in
  let r := cl_result c in
  {| ff_api_total_at_start := if (pp_len_errors plan =? 0) && negb bounded_run && negb reads_only then total else None;
     ff_count_probe_failures := pp_len_errors plan;
     ff_pagination_shortfall_warnings := b2z (is_some shortfall);
     ff_pagination_shortfall_assets := default 0 shortfall;
     ff_tail_probes := if bounded_run then 0 else zlen (omap id (pp_stream_total_counts plan));
     ff_count_undercount_assets := match total with Some n => Z.max 0 (sg_assets_seen r - n) | None => 0 end;
     ff_recovery_attempts := b2z (cl_repaired c);
     ff_recovery_successes := b2z (cl_repaired c && is_some (to_sync_token (cl_token c)));
     ff_retry_passes := to_retry_passes (cl_token c);
     ff_token_counts := if reads_only then None else Some (token_counts (cl_observations c));
     ff_block := token_block run_mode count_bounded date_bounded (cl_cut c) (sg_enumeration_complete r) (sg_enumeration_errors r)
                   (0 <? pp_len_errors plan) (to_sync_token (cl_token c)) (to_block_reason (cl_token c)) before |}.

Definition enum_zones (passes : list SyncPass) : list str :=
  order_by (λ a b, cmp_le (text_cmp a b)) (remove_dups (zone_name <$> passes)).
Definition mark_zones (op : str → St → St * result StateError unit) (passes : list SyncPass) : M unit :=
  when has_db (for_all (enum_zones passes) (λ z, _ ← run (op z); mret tt)).

(** Both branches leave their rewrites to here. *)
Definition drain_rewrites (r : StreamingResult) : M StreamingResult :=
  if downloads_files run_mode && negb (fc_refresh_metadata fc) && rc_any_metadata_write (fc_rc fc) && has_db then
    failed ← run run_pending;
    mret (adjust (sg_enumeration_complete r) (sg_enumeration_errors r) (sg_exif_failures r + failed) r)
  else mret r.

Definition should_record_snapshots (passes : list SyncPass) : bool :=
  should_record_album_snapshots has_db passes (is_dry_run run_mode) (only_print_filenames run_mode) bounded_run.

Definition enumerate (passes : list SyncPass) (plan : PassCountPlan) (frontier : option RecentFrontier) : M Enumerated :=
  let snapshots := should_record_snapshots passes in
  if requires_per_pass_paths base || snapshots then enumerate_per_pass passes snapshots plan frontier
  else enumerate_merged passes plan frontier.

Definition download_photos_full_with_token_policy (passes : list SyncPass) (repair_token_gaps : bool) : M SyncResult :=
  _ ← mark_zones es_begin_enum_progress passes;
  plan ← build_pass_count_plan passes;
  frontier ← build_recent_frontier passes;
  e ← enumerate passes plan frontier;
  c ← collect_zone_token passes repair_token_gaps plan frontier e;
  r ← drain_rewrites (cl_result c);
  o ← (λ s, match build_download_outcome (fc_rc fc) fuel is_cancelled elapsed list_photos collect_pass_asset_ids run_download_pass
                    passes r s with
            | Some (s, Ok o) => Some (s, Ok o)
            | Some (s, Err e) => Some (s, Err (PassFailed e))
            | None => None
            end);
  let '(outcome, st) := o : DownloadOutcome * SyncStats in
  _ ← when (sg_enumeration_complete (cl_result c)) (mark_zones es_end_enum_progress passes);
  mret {| outcome := outcome; sync_token := to_sync_token (cl_token c);
          stats := full_stats (full_facts plan e c (stats_block st)) st; full_enumeration_ran := true |}.

Definition download_photos_full_with_token (passes : list SyncPass) : M SyncResult :=
  download_photos_full_with_token_policy passes true.
End FullPass.
