(* ===== verification/FullPassSpec.v ===== *)
(** * What a full enumeration promises

    A zone token a full enumeration hands over, and the source checkpoint
    accepts, was proved by every pass: its stream ran to the end, reported that
    token, and every asset of it went through a pipeline that lost nothing. *)
From Stdlib Require Import SpecFloat.
From S2P Require Import Prelude RustStr Paths Types StateTypes StateDb StateDbSpec Filter Stats Checkpoint Retry Finalize Planner Context Albums Cycle Source SourceDb Hydrate Collision OnDisk UrlRefresh Incremental IncrementalSpec Producer ProducerSpec PassRun Outcome PassRunSpec Call FullPass.

(** ** The recovery of observations *)

Abbreviation index_of o := (pk_index (pto_pass o)).

(** A pass that was run again, as a receiver. *)
Definition rerun_receiver (k : PassKey) (complete : bool) (errors : Z) (received : result unit (option str)) : PassTokenReceiver :=
  {| ptr_pass := k; ptr_received := received; ptr_enumeration_complete := complete && negb (0 <? errors) |}.

Lemma recover_step_observations run_pass s k : rs_observations (recover_step run_pass s k) =
  match run_pass k with
  | NotAvailable => rs_observations s
  | RunFailed => set_result (pk_index k) EnumerationIncomplete (rs_observations s)
  | Recovered complete errors received =>
      set_result (pk_index k) (pto_result (observe_token (rerun_receiver k complete errors received))) (rs_observations s)
  end.
Proof. unfold recover_step. destruct (run_pass k) as [| |[] errors received]; try done. cbn. by destruct (0 <? errors). Qed.

Lemma set_result_passes i r obs : pto_pass <$> set_result i r obs = pto_pass <$> obs.
Proof. induction obs as [|o obs IH]; [done|]. cbn. destruct (_ =? _); [done|]. by rewrite fmap_cons, IH. Qed.
Lemma set_result_elem_index i r obs o : NoDup ((λ o, index_of o) <$> obs) → o ∈ set_result i r obs →
  (o ∈ obs ∧ index_of o ≠ i) ∨ (index_of o = i ∧ pto_result o = r).
Proof.
  induction obs as [|o' obs IH]; cbn; [set_solver|]. intros [Hn Hd]%NoDup_cons. destruct (Z.eqb_spec (index_of o') i) as [<-|Hi].
  - intros [->|Ho]%elem_of_cons; [by right|]. left. split; [set_solver|]. intros He. apply Hn. rewrite <- He.
    by apply (list_elem_of_fmap_2 (λ o, index_of o)).
  - intros [->|Ho]%elem_of_cons; [left; split; [set_solver|done]|]. destruct (IH Hd Ho) as [[? ?]|?]; [left|by right]. split; [set_solver|done].
Qed.

(** Where a final observation comes from. *)
Definition observed_from (run_pass : PassKey → PassRecovery) (keys : list PassKey) (obs : list PassTokenObservation) (o : PassTokenObservation) : Prop :=
  (o ∈ obs ∧ ∀ k, k ∈ keys → pk_index k = index_of o → run_pass k = NotAvailable)
  ∨ pto_result o = EnumerationIncomplete
  ∨ ∃ k complete errors received, k ∈ keys ∧ pk_index k = index_of o ∧ run_pass k = Recovered complete errors received ∧
      pto_result o = pto_result (observe_token (rerun_receiver k complete errors received)).

Lemma recovered_from run_pass keys : ∀ s, NoDup ((λ o, index_of o) <$> rs_observations s) →
  let s' := fold_left (recover_step run_pass) keys s in
  pto_pass <$> rs_observations s' = pto_pass <$> rs_observations s ∧
  ∀ o, o ∈ rs_observations s' → observed_from run_pass keys (rs_observations s) o.
Proof.
  induction keys as [|k keys IH]; intros s Hd; cbn; [split; [done|]; intros o Ho; left; set_solver|].
  assert (Hp : pto_pass <$> rs_observations (recover_step run_pass s k) = pto_pass <$> rs_observations s).
  { rewrite recover_step_observations. destruct (run_pass k); by rewrite ?set_result_passes. }
  destruct (IH (recover_step run_pass s k)) as [Hp' Ho'].
  { rewrite (list_fmap_compose pto_pass pk_index), Hp, <- list_fmap_compose. exact Hd. }
  split; [by rewrite Hp'|]. intros o Ho. destruct (Ho' o Ho) as [[Hs Hna]|[He|(k' & c & e & r & Hk & Hrest)]].
  - rewrite recover_step_observations in Hs. destruct (run_pass k) as [| |c e r] eqn:Ek.
    + left. split; [done|]. intros k' [->|Hk']%elem_of_cons; [done|by apply Hna].
    + apply set_result_elem_index in Hs as [[Hs Hi]|[Hi Hr]]; [|by right; left|done].
      left. split; [done|]. intros k' [->|Hk']%elem_of_cons; [congruence|by apply Hna].
    + apply set_result_elem_index in Hs as [[Hs Hi]|[Hi Hr]]; [| |done].
      * left. split; [done|]. intros k' [->|Hk']%elem_of_cons; [congruence|by apply Hna].
      * right; right. exists k, c, e, r. split_and!; [set_solver|done..].
  - by right; left.
  - right; right. exists k', c, e, r. split; [set_solver|done].
Qed.

(** Every pass was run again if as many ended as were wanted. *)
Lemma recovered_all run_pass keys : ∀ s, let s' := fold_left (recover_step run_pass) keys s in
  rs_completed s' ≤ rs_completed s + zlen keys ∧
  (rs_completed s' = rs_completed s + zlen keys → ∀ k, k ∈ keys → run_pass k ≠ NotAvailable).
Proof.
  induction keys as [|k keys IH]; intros s; cbn [fold_left length]; [split; [lia|set_solver]|].
  destruct (IH (recover_step run_pass s k)) as [Hle Hall].
  assert (Hc : ∃ n, rs_completed (recover_step run_pass s k) = rs_completed s + n ∧ 0 ≤ n ≤ 1 ∧ (run_pass k = NotAvailable → n = 0)).
  { unfold recover_step. destruct (run_pass k) eqn:E; cbn; [exists 0|exists 0|exists 1]; (split_and!; [lia..|done]). }
  destruct Hc as (n & Hc & Hn & Hz). split; [lia|]. intros He k' [->|Hk]%elem_of_cons; [|apply Hall; [lia|done]].
  intros Hna. specialize (Hz Hna). lia.
Qed.

(** A token is proved by each receiver, or by its pass run again. *)
Definition proved_by (run_pass : PassKey → PassRecovery) (keys : list PassKey) (receivers : list PassTokenReceiver) (settled : Prop) (t : str)
    (i : Z) : Prop :=
  (settled ∧ ∃ r, r ∈ receivers ∧ pk_index (ptr_pass r) = i ∧ pto_result (observe_token r) = Checkpoint.Present t)
  ∨ ∃ k complete errors received, k ∈ keys ∧ pk_index k = i ∧ run_pass k = Recovered complete errors received ∧
      pto_result (observe_token (rerun_receiver k complete errors received)) = Checkpoint.Present t.

Definition wanted_again (repair : bool) (evidence : ZoneTokenEvidence) : list PassKey :=
  match evidence with Recoverable keys _ => if repair then keys else [] | _ => [] end.

Lemma all_present obs t run_pass keys (final : list PassTokenObservation) :
  (∀ o, o ∈ final → observed_from run_pass keys obs o) → (∀ o, o ∈ final → pto_result o = Checkpoint.Present t) →
  ∀ o, o ∈ final → (o ∈ obs ∧ (∀ k, k ∈ keys → pk_index k = index_of o → run_pass k = NotAvailable) ∧ pto_result o = Checkpoint.Present t)
    ∨ ∃ k complete errors received, k ∈ keys ∧ pk_index k = index_of o ∧ run_pass k = Recovered complete errors received ∧
        pto_result (observe_token (rerun_receiver k complete errors received)) = Checkpoint.Present t.
Proof.
  intros Hf Hp o Ho. specialize (Hp o Ho). destruct (Hf o Ho) as [[? ?]|[He|(k & c & e & r & ? & ? & ? & Hr)]].
  - by left.
  - congruence.
  - right. exists k, c, e, r. split_and!; try done. congruence.
Qed.

(** Every receiver's pass proved the collected token. *)
Lemma collected_token repair cut complete errors receivers run_pass out obs complete' errors' t :
  NoDup ((λ r, pk_index (ptr_pass r)) <$> receivers) →
  collect_sync_token repair cut complete errors receivers run_pass = (out, obs, complete', errors') → to_sync_token out = Some t →
  receivers ≠ [] ∧ cut = false ∧ complete' = true ∧ (0 <= errors → errors' = 0) ∧
  ∀ r, r ∈ receivers →
    proved_by run_pass (wanted_again repair (initial_evidence cut complete errors (observe_token <$> receivers))) receivers
      (complete = true ∧ ¬ 0 < errors) t (pk_index (ptr_pass r)).
Proof.
  intros Hd. unfold collect_sync_token. change (map observe_token receivers) with (observe_token <$> receivers).
  assert (Hi : (λ o, index_of o) <$> (observe_token <$> receivers) = (λ r, pk_index (ptr_pass r)) <$> receivers)
    by (rewrite <- list_fmap_compose; done).
  assert (Hentire : ∀ keys reason, initial_evidence cut complete errors (observe_token <$> receivers) = Recoverable keys reason →
    cut = false ∧ ((complete = true ∧ ¬ 0 < errors) ∨
      (negb complete || (0 <? errors)) && negb cut = true ∧ keys = pto_pass <$> (observe_token <$> receivers))).
  { intros keys reason. unfold initial_evidence. destruct cut; [done|]. destruct complete; cbn; [destruct (Z.ltb_spec 0 errors); cbn|].
    - intros [= <- <-]. split; [done|]. by right.
    - intros _. split; [done|]. left. split; [done|lia].
    - intros [= <- <-]. split; [done|]. by right. }
  destruct (initial_evidence _ _ _ _) as [t'|keys reason|reason] eqn:Ev; [| |by intros [= <- <- <- <-]].
  - intros [= <- <- <- <-] [= <-]. unfold initial_evidence in Ev. destruct cut; [done|]. destruct complete; [|done].
    destruct (Z.ltb_spec 0 errors); [done|]. cbn in Ev. apply classify_complete in Ev as [Hne Hall].
    split_and!; try done; [by intros ->|lia|]. intros r Hr. left. split; [split; [done|lia]|]. exists r. split_and!; try done.
    apply Hall. by apply list_elem_of_fmap_2.
  - destruct (Hentire keys reason eq_refl) as [Hcut Hwhich]. destruct repair; cbn [negb wanted_again]; [|by intros [= <- <- <- <-]].
    unfold recover_passes. set (s := {| rs_observations := _ |}).
    destruct (recovered_from run_pass keys s) as [Hpass Hfrom]; [subst s; cbn [rs_observations]; by rewrite Hi|].
    destruct (recovered_all run_pass keys s) as [_ Hran]. set (s' := fold_left _ keys s) in *. clearbody s'.
    set (flags := if _ =? _ then _ else _). destruct flags as [fc fe] eqn:Ef.
    set (e3 := if _ : bool then _ else _). destruct e3 as [[obs1 c1] e1] eqn:E3. intros [= <- <- <- <-]. unfold recovered_sync_token.
    assert (Hobs : obs1 = rs_observations s') by (subst e3; by destruct (_ && _); simplify_eq).
    destruct (classify_zone_token_evidence obs1) as [t'|? ?|?] eqn:Ec; [|done..]. destruct c1; cbn [andb]; [|done].
    destruct (Z.eqb_spec e1 0); [|done]. intros [= <-]. apply classify_complete in Ec as [Hne Hall]. subst obs1.
    pose proof (all_present _ _ _ _ _ Hfrom Hall) as Hprov.
    split_and!; try done; [|].
    { intros ->. apply Hne. by apply fmap_nil_inv in Hpass. }
    intros r Hr. assert (Ho : ∃ o, o ∈ rs_observations s' ∧ pto_pass o = ptr_pass r).
    { assert (Hin : ptr_pass r ∈ pto_pass <$> rs_observations s').
      { rewrite Hpass. cbn. rewrite <- list_fmap_compose. by apply (list_elem_of_fmap_2 (pto_pass ∘ observe_token)). }
      apply list_elem_of_fmap in Hin as (o & ? & ?). by exists o. }
    destruct Ho as (o & Ho & Hop). rewrite <- Hop. destruct (Hprov o Ho) as [(Hs & Hna & Hr')|?]; [|by right].
    left. destruct Hwhich as [?|[Hb Hkeys]].
    + split; [done|]. cbn in Hs. apply list_elem_of_fmap in Hs as (r' & -> & Hin). by exists r'.
    + exfalso. subst e3. rewrite Hb in E3. injection E3 as -> ->. subst flags.
      destruct (Z.eqb_spec (rs_completed s') (zlen keys)) as [He|]; [|done].
      apply (Hran He (ptr_pass r)).
      * rewrite Hkeys, <- list_fmap_compose. by apply (list_elem_of_fmap_2 (pto_pass ∘ observe_token)).
      * apply Hna; [|by rewrite Hop]. rewrite Hkeys, <- list_fmap_compose. by apply (list_elem_of_fmap_2 (pto_pass ∘ observe_token)).
Qed.

(** ** Calls made one after the other *)

Lemma collect_ok {St E' E A B} (f : A → Call St E' B) l : ∀ (s s' : St) rs, (collect l f : Call St E _) s = Some (s', Ok rs) →
  Forall2 (λ a r, ∃ s1 s2, f a s1 = Some (s2, r)) l rs.
Proof.
  induction l as [|a l IH]; intros s s' rs; cbn [collect]; intros Hc; [invert_call; constructor|]. apply bind_Some in Hc as (s1 & r & Hr & Hc). apply (proj1 (catch_Some (E := E) _ _ _ _)) in Hr.
  apply bind_Some in Hc as (s2 & rs' & Hrest & Hc). invert_call. constructor; [by eexists _, _|by eapply IH].
Qed.

(** ** Bounds *)

Section Bounded.
Context `{FilterEnv} (config : DownloadConfig).

(** Nothing that is wanted is lost when the bound did not cut. *)
Lemma bounded_items_keep {E} bound frontier (items : list (result E PhotoAsset)) a :
  (bounded_items bound frontier items).2 = false → Ok a ∈ items → in_frontier frontier a = true →
  Ok a ∈ (bounded_items bound frontier items).1.
Proof.
  induction items as [|[b|e] items IH]; cbn; [set_solver| |].
  - destruct (in_bounds bound b); [|done]. destruct (bounded_items _ _ items) as [rest cut] eqn:E'. cbn in *. intros Hc.
    intros [[= ->]|Ha]%elem_of_cons Hf; [rewrite Hf; set_solver|]. specialize (IH Hc Ha Hf). destruct (in_frontier frontier b); set_solver.
  - destruct (bounded_items _ _ items) as [rest cut] eqn:E'. cbn in *. intros Hc [[=]|Ha]%elem_of_cons Hf. specialize (IH Hc Ha Hf). set_solver.
Qed.
Lemma unbounded_uncut {E} frontier (items : list (result E PhotoAsset)) : (bounded_items None frontier items).2 = false.
Proof. induction items as [|[b|e] items IH]; cbn; [done| |]; by destruct (bounded_items _ _ items). Qed.
End Bounded.

Section Covered.
Context `{FilterEnv, StateEnv, IndexOrder} {St AnyError : Type} `{SourceStore St, EnumerationStore St}.
Context (fc : FullConfig) (fuel : nat) (is_cancelled : St → bool) (elapsed : St → spec_float).
Context (photo_stream_with_token_policy photo_stream_with_token_for_download_policy :
           SyncPass → option Z → option Z → Z → bool → St → St * PhotoStream AnyError).
Context (len_many : list SyncPass → St → St * list (result AnyError Z)).
Context (zone_name : SyncPass → str) (clone_as_library_wide : SyncPass → SyncPass).
Context (list_photos : SyncPass → option Z → St → St * result AnyError (list PhotoAsset)).
Context (collect_pass_asset_ids : SyncPass → St → St * result AnyError (gset str)).
Context (preload_download_context : St → St * DownloadContext).
Context (stream_and_download : DownloadConfig → option DownloadContext → list (result AnyError PhotoAsset) → Schedule AnyError → St →
           option (St * result (PassError AnyError) StreamingResult)).
Context (run_download_pass : list DownloadTask → St → St * PassResult).
Context (run_pending : St → St * Z).
Context (next_schedule : St → St * Schedule AnyError).
Context (finish_order : list nat → list nat).
Context (select_all : list (list (result AnyError PhotoAsset)) → list (result AnyError PhotoAsset)).

(** The pipelines count; the scheduler loses nothing. *)
Context (pipeline_counts : ∀ config ctx items sc s s' r, stream_and_download config ctx items sc s = Some (s', Ok r) →
           0 <= sg_state_write_failures r ∧ 0 <= sg_enumeration_errors r).
Context (cleanup_counts : ∀ tasks s, 0 <= pr_state_write_failures (run_download_pass tasks s).2).
Context (finish_order_all : ∀ l, finish_order l ≡ₚ l).
Context (select_all_all : ∀ l, select_all l ≡ₚ concat l).

Abbreviation base := (rc_config (fc_rc fc)).
Abbreviation open_stream := (photo_stream_with_token_for_download_policy).
Abbreviation run_at := (FullPass.run_pass_at fc photo_stream_with_token_policy photo_stream_with_token_for_download_policy zone_name
                               stream_and_download next_schedule).
Abbreviation bounds frontier items := (filter_stream_to_enumeration_bounds base frontier items).
Abbreviation kept frontier keep items := (List.filter (λ i : result AnyError PhotoAsset, match i with Ok a => keep a | Err _ => true end)
                                            (bounds frontier items).1).

(** An asset with this name went through a pipeline that read its stream to
    the end and lost neither an asset nor a write. *)
Definition processed (name : str) : Prop :=
  ∃ config ctx items sc s s' r b, stream_and_download config ctx items sc s = Some (s', Ok r) ∧ Ok b ∈ items ∧
    asset_record_name b = name ∧ clean_enumeration r = true ∧ sg_state_write_failures r = 0.

(** A stream of the pass was opened, reported the token, was not cut, and each
    wanted asset of it was processed. *)
Definition proves (frontier : option RecentFrontier) (pass : SyncPass) (t : str) : Prop :=
  ∃ stream total concurrency s s',
    open_stream pass (scope_frontier_limit fc frontier) total concurrency (negb (bounded_run fc)) s = (s', stream) ∧
    (∃ token, os_token stream = Ok (Some token) ∧ is_blank token = false ∧ trim token = t) ∧
    (bounds frontier (os_items stream)).2 = false ∧
    ∀ a, Ok a ∈ os_items stream → in_frontier frontier a = true → processed (asset_record_name a).

(** One run of a pass. *)
Definition ran (frontier : option RecentFrontier) (pass : SyncPass) (keep : PhotoAsset → bool) (p : PerPassStreamingResult) : Prop :=
  ∃ stream total concurrency s s' config ctx sc s1 s2,
    open_stream pass (scope_frontier_limit fc frontier) total concurrency (negb (bounded_run fc)) s = (s', stream) ∧
    stream_and_download config ctx (kept frontier keep (os_items stream)) sc s1 = Some (s2, Ok (pp_result p)) ∧
    pp_kind p = pass_kind pass ∧ pp_token p = os_token stream ∧
    (sg_enumeration_complete (pp_result p) = true →
       pp_cut p = (bounds frontier (os_items stream)).2 ∧ pp_names p = names_of (kept frontier keep (os_items stream))).

Lemma run_pass_at_ran pl snapshots keep i s s' p : reads_only fc = false →
  run_at pl snapshots keep i s = Some (s', Ok (Some p)) →
  ∃ pass, pl_passes pl !! i = Some pass ∧ pp_pass_index p = i ∧ ran (pl_frontier pl) pass keep p.
Proof.
  intros Hro. unfold FullPass.run_pass_at. destruct (pl_passes pl !! i) as [pass|] eqn:Ep; [|by intros Hr; invert_call].
  destruct (pl_configs pl !! i) as [config|]; [|by intros Hr; invert_call]. intros Hr.
  apply bind_Some in Hr as (s1 & snapshot & _ & Hr). apply bind_Some in Hr as (s2 & stream & Ho & Hr).
  apply bind_Some in Hr as (s3 & r & Hp & Hr). apply ret_Some in Hr as [[= Hr] ->]. exists pass. split; [done|].
  unfold open_photo_stream_for_controls in Ho. rewrite Hro in Ho. apply run_Some in Ho.
  unfold strict_empty_tail_errors in Ho. rewrite Hro, andb_true_r in Ho.
  unfold run_full_pass_stream in Hp. apply bind_Some in Hp as (s4 & sc & _ & Hp). apply bind_Some in Hp as (s5 & again & Hs & Hp).
  apply (proj1 (catch_Some (E := PassError AnyError) _ _ _ _)) in Hs. apply bind_Some in Hp as (s6 & failed & _ & Hp).
  destruct again as [res|e]; [|by invert_call]. apply bind_Some in Hp as (s7 & [] & _ & Hp). invert_call. subst p. split; [done|].
  eexists stream, _, _, _, _, config, _, sc, _, _. split; [exact Ho|]. split; [exact Hs|]. cbn. split_and!; [done..|]. by intros ->.
Qed.

Definition lost_nothing (p : PerPassStreamingResult) : Prop :=
  sg_state_write_failures (pp_result p) = 0 ∧ (bounded_run fc = true → pp_cut p = false).

Lemma names_of_elem (items : list (result AnyError PhotoAsset)) name :
  name ∈ names_of items → ∃ b, Ok b ∈ items ∧ asset_record_name b = name.
Proof.
  unfold names_of. rewrite elem_of_list_to_set, list_elem_of_omap. intros ([b|e] & Hi & [= <-]). by exists b.
Qed.
Lemma ran_processed frontier pass keep p name : ran frontier pass keep p → clean_enumeration (pp_result p) = true → lost_nothing p →
  name ∈ pp_names p → processed name.
Proof.
  intros (stream & total & conc & s & s' & config & ctx & sc & s1 & s2 & _ & Hs & _ & _ & Hc) Hclean [Hw _] Hn.
  destruct (Hc (proj1 (andb_prop _ _ Hclean))) as [_ Hnames]. rewrite Hnames in Hn. apply names_of_elem in Hn as (b & Hb & Hname).
  by exists config, ctx, (kept frontier keep (os_items stream)), sc, s1, s2, (pp_result p), b.
Qed.
Lemma uncut frontier (items : list (result AnyError PhotoAsset)) : (bounded_run fc = false → frontier = None) →
  (bounded_run fc = true → (bounds frontier items).2 = false) → (bounds frontier items).2 = false.
Proof.
  intros Hf Hb. destruct (bounded_run fc) eqn:E; [by apply Hb|]. rewrite (Hf eq_refl). unfold filter_stream_to_enumeration_bounds.
  replace (stream_created_lower_bound base None) with (@None Z); [apply unbounded_uncut|].
  unfold bounded_run, date_bounded in E. apply orb_false_iff in E as [_ E]. unfold stream_created_lower_bound, enumeration_created_lower_bound.
  by destruct (skip_created_before base).
Qed.

(** A clean run whose token is the zone's is a proof. *)
Lemma ran_proves frontier pass keep p t : (bounded_run fc = false → frontier = None) → ran frontier pass keep p →
  clean_enumeration (pp_result p) = true → lost_nothing p →
  (∃ token, pp_token p = Ok (Some token) ∧ is_blank token = false ∧ trim token = t) →
  (∀ a, keep a = false → processed (asset_record_name a)) → proves frontier pass t.
Proof.
  intros Hf (stream & total & conc & s & s' & config & ctx & sc & s1 & s2 & Ho & Hs & _ & Ht & Hc) Hclean [Hw Hcut] Htok Hkeep.
  destruct (Hc (proj1 (andb_prop _ _ Hclean))) as [Hcut' _].
  assert (Hb : (bounds frontier (os_items stream)).2 = false) by (apply uncut; [done|]; intros Hr; rewrite <- Hcut'; by apply Hcut).
  exists stream, total, conc, s, s'. rewrite <- Ht. split_and!; [done..|]. intros a Ha Hin. destruct (keep a) eqn:Ek; [|by apply Hkeep].
  exists config, ctx, (kept frontier keep (os_items stream)), sc, s1, s2, (pp_result p), a. split_and!; try done.
  apply list_elem_of_In, filter_In. split; [|done]. apply list_elem_of_In. by apply bounded_items_keep.
Qed.

Lemma token_observed r t : pto_result (observe_token r) = Checkpoint.Present t →
  ptr_enumeration_complete r = true ∧ ∃ token, ptr_received r = Ok (Some token) ∧ is_blank token = false ∧ trim token = t.
Proof.
  unfold observe_token. cbn. destruct (ptr_enumeration_complete r); [|done]. cbn. destruct (ptr_received r) as [[token|]|]; [|done..].
  destruct (is_blank token) eqn:E; [done|]. intros [= <-]. split; [done|]. by exists token.
Qed.

(** *** Absorbing the passes *)

Lemma absorb_all_ok deferred results : ∀ e (s s' : St) e', absorb_all (AnyError := AnyError) deferred results e s = Some (s', Ok e') →
  ∃ l, results = Ok <$> l ∧ e' = foldl (absorb deferred) e (omap (λ p, p) l).
Proof.
  induction results as [|[[p|]|err] results IH]; intros e s s' e'; cbn [absorb_all]; intros Ha.
  - invert_call. by exists [].
  - apply IH in Ha as (l & -> & ->). by exists (Some p :: l).
  - apply IH in Ha as (l & -> & ->). by exists (None :: l).
  - invert_call.
Qed.

Lemma absorbed_receivers deferred l : ∀ e, en_receivers (foldl (absorb deferred) e l) = en_receivers e ++ (token_receiver <$> l).
Proof. induction l as [|p l IH]; intros e; cbn [foldl]; [by rewrite app_nil_r|]. rewrite IH. cbn. by rewrite <- app_assoc. Qed.
Lemma absorbed_writes deferred l : Forall (λ p, 0 <= sg_state_write_failures (pp_result p)) l → ∀ e,
  sg_state_write_failures (en_result e) <= sg_state_write_failures (en_result (foldl (absorb deferred) e l)) ∧
  ∀ p, p ∈ l → sg_state_write_failures (en_result e) + sg_state_write_failures (pp_result p) <=
               sg_state_write_failures (en_result (foldl (absorb deferred) e l)).
Proof.
  induction 1 as [|p l Hp _ IH]; intros e; cbn [foldl]; [split; [done|set_solver]|].
  destruct (IH (absorb deferred e p)) as [Hle Hall]. cbn [en_result absorb merge_streaming_result sg_state_write_failures] in Hle, Hall.
  split; [lia|]. intros q [->|Hq]%elem_of_cons; [done|]. specialize (Hall q Hq). lia.
Qed.
Lemma absorbed_errors deferred l : Forall (λ p, 0 <= sg_enumeration_errors (pp_result p)) l → ∀ e,
  0 <= sg_enumeration_errors (en_result e) → 0 <= sg_enumeration_errors (en_result (foldl (absorb deferred) e l)).
Proof. induction 1 as [|p l Hp _ IH]; intros e He; cbn [foldl]; [done|]. apply IH. cbn. lia. Qed.
Lemma absorbed_cut deferred l : ∀ e, en_cut (foldl (absorb deferred) e l) = false → en_cut e = false ∧ ∀ p, p ∈ l → pp_cut p = false.
Proof.
  induction l as [|p l IH]; intros e; cbn [foldl]; [set_solver|]. intros [Hc Hl]%IH. cbn in Hc. apply orb_false_iff in Hc as [? ?].
  split; [done|]. intros q [->|Hq]%elem_of_cons; [done|by apply Hl].
Qed.
Lemma absorbed_exclusions l : ∀ e, 
  (en_exclusions_complete (foldl (absorb true) e l) = true →
     ∀ p, p ∈ l → pp_kind p = PassAlbum → clean_enumeration (pp_result p) = true) ∧
  (en_exclusions_complete e = true → en_exclusions_complete (foldl (absorb true) e l) = false →
     ∃ p, p ∈ l ∧ pp_kind p = PassAlbum ∧ clean_enumeration (pp_result p) = false) ∧
  (en_exclusions_complete (foldl (absorb true) e l) = true → en_exclusions_complete e = true) ∧
  ∀ name, name ∈ en_deferred_ids (foldl (absorb true) e l) → name ∈ en_deferred_ids e ∨ ∃ p, p ∈ l ∧ pp_kind p = PassAlbum ∧ name ∈ pp_names p.
Proof.
  induction l as [|p l IH]; intros e; cbn [foldl]; [split_and!; [set_solver|congruence|done|by left]|].
  destruct (IH (absorb true e p)) as (H1' & H2' & H3' & H4'). cbn [en_exclusions_complete absorb andb] in *. split_and!.
  - intros Hc q [->|Hq]%elem_of_cons Hk; [|by apply H1']. specialize (H3' Hc). apply andb_true_iff in H3' as [_ Hn].
    rewrite bool_decide_true in Hn by done. by destruct (clean_enumeration _).
  - intros He Hf. destruct (en_exclusions_complete e && _) eqn:E.
    + destruct (H2' eq_refl Hf) as (q & ? & ?). exists q. split; [set_solver|done].
    + rewrite He in E. cbn in E. apply negb_false_iff, andb_true_iff in E as [Hk%bool_decide_eq_true Hn%negb_true_iff]. exists p. set_solver.
  - intros Hc%H3'. by apply andb_true_iff in Hc as [].
  - intros name [Hn|(q & ? & ?)]%H4'; [|right; exists q; set_solver]. cbn in Hn. case_bool_decide; [|by left].
    apply elem_of_union in Hn as [?|?]; [by left|]. right. exists p. set_solver.
Qed.

(** *** The first round *)

Lemma run_pass_at_some pl snapshots keep i s s' o : (i < length (pl_passes pl))%nat → (i < length (pl_configs pl))%nat →
  run_at pl snapshots keep i s = Some (s', Ok o) → ∃ p, o = Some p.
Proof.
  intros Hp Hc. apply lookup_lt_is_Some_2 in Hp as [pass Hp]. apply lookup_lt_is_Some_2 in Hc as [config Hc].
  unfold FullPass.run_pass_at. rewrite Hp, Hc. intros Hr. repeat (apply bind_Some in Hr as (? & ? & _ & Hr)). invert_call. by eexists.
Qed.

Definition run_of (frontier : option RecentFrontier) (passes : list SyncPass) (i : nat) (p : PerPassStreamingResult) : Prop :=
  ∃ pass, passes !! i = Some pass ∧ pp_pass_index p = i ∧ ran frontier pass (λ _, true) p.

(** The deferred unfiled pass is left out when an album pass of the first round
    was not clean. *)
Definition left_out (frontier : option RecentFrontier) (passes : list SyncPass) (i : nat) : Prop :=
  deferred_unfiled_index passes = Some i ∧
  ∃ j album p, passes !! j = Some album ∧ is_album_pass album = true ∧ ran frontier album (λ _, true) p ∧
    clean_enumeration (pp_result p) = false.

(** What the first round of passes leaves to the token collection. *)
Record first_round (frontier : option RecentFrontier) (passes : list SyncPass) (t : str) (e : Enumerated) : Prop := {
  fr_indices : NoDup ((λ r, pk_index (ptr_pass r)) <$> en_receivers e);
  fr_writes : 0 <= sg_state_write_failures (en_result e);
  fr_errors : 0 <= sg_enumeration_errors (en_result e);
  fr_receivers : ∀ i pass, passes !! i = Some pass →
    (∃ r, r ∈ en_receivers e ∧ pk_index (ptr_pass r) = Z.of_nat i) ∨ left_out frontier passes i;
  fr_proves : sg_state_write_failures (en_result e) <= 0 → (bounded_run fc = true → en_cut e = false) →
    sg_enumeration_complete (en_result e) = true → ¬ 0 < sg_enumeration_errors (en_result e) →
    ∀ r, r ∈ en_receivers e → pto_result (observe_token r) = Checkpoint.Present t →
    ∃ i pass, pk_index (ptr_pass r) = Z.of_nat i ∧ passes !! i = Some pass ∧ proves frontier pass t;
}.

Abbreviation per_pass := (FullPass.enumerate_per_pass fc photo_stream_with_token_policy
  photo_stream_with_token_for_download_policy zone_name preload_download_context stream_and_download next_schedule finish_order).

Lemma ran_errors frontier pass keep p : ran frontier pass keep p → 0 <= sg_enumeration_errors (pp_result p).
Proof. intros (stream & total & conc & s & s' & config & ctx & sc & s1 & s2 & _ & Hs & _). by apply pipeline_counts in Hs as []. Qed.
Lemma ran_writes frontier pass keep p : ran frontier pass keep p → 0 <= sg_state_write_failures (pp_result p).
Proof. intros (stream & total & conc & s & s' & config & ctx & sc & s1 & s2 & _ & Hs & _). by apply pipeline_counts in Hs as []. Qed.

(** The passes that are not deferred. *)
Lemma passes_ran pl snapshots order (l : list (option PerPassStreamingResult)) : reads_only fc = false →
  (∀ i, i ∈ order → (i < length (pl_passes pl) ∧ i < length (pl_configs pl))%nat) →
  Forall2 (λ i r, ∃ s1 s2, run_at pl snapshots (λ _, true) i s1 = Some (s2, r)) order (Ok <$> l) →
  ∃ ps, l = Some <$> ps ∧ Forall2 (run_of (pl_frontier pl) (pl_passes pl)) order ps.
Proof.
  intros Hro. revert order. induction l as [|o l IH]; intros order Hi Hl.
  { apply Forall2_nil_inv_r in Hl as ->. by exists []. }
  apply Forall2_cons_inv_r in Hl as (i & order' & (s1 & s2 & Hr) & Hl & ->).
  destruct (IH order') as (ps & -> & Hps); [set_solver|done|].
  destruct (Hi i) as [Hp Hc]; [set_solver|]. pose proof Hr as Hr'.
  apply run_pass_at_some in Hr as [p ->]; [|lia..]. apply run_pass_at_ran in Hr'; [|done]. exists (p :: ps). split; [done|]. by constructor.
Qed.

Lemma runs_count frontier passes order ps : Forall2 (run_of frontier passes) order ps →
  Forall (λ p, 0 <= sg_state_write_failures (pp_result p)) ps ∧ Forall (λ p, 0 <= sg_enumeration_errors (pp_result p)) ps.
Proof.
  induction 1 as [|i p order ps (pass & _ & _ & Hran) _ [? ?]]; [by split|].
  split; (constructor; [|done]); [by eapply ran_writes|by eapply ran_errors].
Qed.
Lemma token_index p : pk_index (ptr_pass (token_receiver p)) = Z.of_nat (pp_pass_index p).
Proof. done. Qed.
Lemma runs_indices frontier passes order ps : Forall2 (run_of frontier passes) order ps →
  (λ r, pk_index (ptr_pass r)) <$> (token_receiver <$> ps) = Z.of_nat <$> order.
Proof. induction 1 as [|i p order ps (pass & _ & Hi & _) _ IH]; [done|]. rewrite !fmap_cons, IH. cbn. by rewrite Hi. Qed.

Lemma others_elem passes i : i ∈ List.filter (λ i, negb (bool_decide (Some i = deferred_unfiled_index passes))) (seq 0 (length passes)) ↔
  (i < length passes)%nat ∧ deferred_unfiled_index passes ≠ Some i.
Proof.
  rewrite list_elem_of_In, filter_In, <- list_elem_of_In, elem_of_seq, negb_true_iff, bool_decide_eq_false. split; intros [? ?]; (split; [lia|congruence]).
Qed.

(** Receivers of clean runs are proofs. *)
Lemma runs_prove frontier passes order ps t : (bounded_run fc = false → frontier = None) → Forall2 (run_of frontier passes) order ps →
  (∀ p, p ∈ ps → lost_nothing p) → ∀ r, r ∈ token_receiver <$> ps → pto_result (observe_token r) = Checkpoint.Present t →
  ∃ i pass, pk_index (ptr_pass r) = Z.of_nat i ∧ passes !! i = Some pass ∧ proves frontier pass t.
Proof.
  intros Hf Hps Hl r (p & -> & Hp)%list_elem_of_fmap Hr. specialize (Hl p Hp).
  apply list_elem_of_lookup in Hp as [n Hn]. destruct (Forall2_lookup_r _ _ _ _ _ Hps Hn) as (i & _ & pass & Hpass & Hi & Hran).
  apply token_observed in Hr as (Hc & token & Hrec & Hb & Ht). exists i, pass. rewrite token_index, Hi. split_and!; [done..|].
  apply (ran_proves frontier pass (λ _, true) p); try done. by exists token.
Qed.

(** A round of clean passes, none of them deferred. *)
Lemma absorbed_first deferred complete counts frontier passes order ps t : (bounded_run fc = false → frontier = None) →
  Forall2 (run_of frontier passes) order ps → NoDup order →
  (∀ i pass, passes !! i = Some pass → i ∈ order ∨ left_out frontier passes i) →
  first_round frontier passes t (foldl (absorb deferred) (Enumerated_new complete counts) ps).
Proof.
  intros Hf Hps Hd Hall.
  destruct (runs_count _ _ _ _ Hps) as [Hw Hee].
  destruct (absorbed_writes deferred ps Hw (Enumerated_new complete counts)) as [Hge Hle]. split.
  - rewrite absorbed_receivers. cbn [en_receivers Enumerated_new app]. rewrite (runs_indices _ _ _ _ Hps).
    apply NoDup_fmap; [intros ? ?; lia|done].
  - exact Hge.
  - by apply absorbed_errors.
  - intros i pass Hp. destruct (Hall i pass Hp) as [[n Hn]%list_elem_of_lookup|?]; [left|by right].
    destruct (Forall2_lookup_l _ _ _ _ _ Hps Hn) as (p & Hpn & ? & _ & Hi & _). exists (token_receiver p). rewrite absorbed_receivers.
    split; [|by rewrite token_index, Hi]. cbn. apply list_elem_of_fmap_2. by eapply list_elem_of_lookup_2.
  - intros Hz Hcut _ _ r. rewrite absorbed_receivers. cbn [en_receivers Enumerated_new app]. apply (runs_prove frontier passes order); [done..|].
    intros p Hp. split; [|intros Hb; by apply (absorbed_cut _ _ _ (Hcut Hb))].
    specialize (Hle p Hp). rewrite Forall_forall in Hw. specialize (Hw p Hp). cbn in Hle. lia.
Qed.

(** The deferred pass after clean album passes: the names it leaves out were
    processed by them. *)
Lemma deferred_first complete counts counts' frontier passes order ps t i0 pass0 p0 :
  let e0 := foldl (absorb true) (Enumerated_new complete counts) ps in
  (bounded_run fc = false → frontier = None) → Forall2 (run_of frontier passes) order ps → NoDup order → i0 ∉ order →
  (∀ i pass, passes !! i = Some pass → i ∈ order ∨ i = i0) →
  en_exclusions_complete e0 = true → passes !! i0 = Some pass0 → pp_pass_index p0 = i0 →
  ran frontier pass0 (λ a, negb (bool_decide (asset_record_name a ∈ en_deferred_ids e0))) p0 →
  first_round frontier passes t (set_pagination counts' (absorb false e0 p0)).
Proof.
  intros e0 Hf Hps Hd Hi0 Hall Hx Hpass0 Hidx Hran.
  destruct (runs_count _ _ _ _ Hps) as [Hw Hee].
  destruct (absorbed_writes true ps Hw (Enumerated_new complete counts)) as [Hge Hle]. fold e0 in Hge, Hle.
  pose proof (ran_writes _ _ _ _ Hran) as Hw0.
  assert (Hrec : en_receivers (set_pagination counts' (absorb false e0 p0)) = (token_receiver <$> ps) ++ [token_receiver p0]).
  { cbn. unfold e0. by rewrite absorbed_receivers. }
  cbn in Hge, Hle. split.
  - rewrite Hrec, fmap_app, (runs_indices _ _ _ _ Hps). apply NoDup_app. split_and!.
    + apply NoDup_fmap; [intros ? ?; lia|done].
    + intros i (j & -> & Hj)%list_elem_of_fmap. cbn. rewrite Hidx, list_elem_of_singleton. intros He%Nat2Z.inj. congruence.
    + apply NoDup_singleton.
  - cbn. lia.
  - cbn. apply Z.add_nonneg_nonneg; [by apply absorbed_errors|by eapply ran_errors].
  - intros i pass Hp. left. destruct (Hall i pass Hp) as [[n Hn]%list_elem_of_lookup| ->].
    + destruct (Forall2_lookup_l _ _ _ _ _ Hps Hn) as (p & Hpn & ? & _ & Hi & _). exists (token_receiver p).
      rewrite Hrec, token_index, Hi. split; [|done]. apply elem_of_app. left. apply list_elem_of_fmap_2. by eapply list_elem_of_lookup_2.
    + exists (token_receiver p0). rewrite Hrec, token_index, Hidx. split; [|done]. apply elem_of_app. right. by apply list_elem_of_singleton.
  - cbn. intros Hz Hcut _ _ r Hr Ht.
    assert (Hlost : ∀ p, p ∈ ps → lost_nothing p).
    { intros p Hp. split; [specialize (Hle p Hp); rewrite Forall_forall in Hw; specialize (Hw p Hp); lia|].
      intros Hb. specialize (Hcut Hb). apply orb_false_iff in Hcut as [Hcut _]. by apply (absorbed_cut _ _ _ Hcut). }
    cbn in Hrec. rewrite Hrec in Hr. apply elem_of_app in Hr as [Hr|Hr]; [by eapply (runs_prove frontier passes order)|].
    apply list_elem_of_singleton in Hr as ->. apply token_observed in Ht as (Hc & token & Htok & Hb & Ht).
    exists i0, pass0. rewrite token_index, Hidx. split_and!; [done..|]. apply (ran_proves frontier pass0 _ p0 t Hf Hran Hc).
    + split; [lia|]. intros Hbr. specialize (Hcut Hbr). by apply orb_false_iff in Hcut as [].
    + by exists token.
    + intros a Ha. apply negb_false_iff, bool_decide_eq_true in Ha.
      destruct (absorbed_exclusions ps (Enumerated_new complete counts)) as (Hclean & _ & _ & Hids). fold e0 in Hclean, Hids.
      destruct (Hids _ Ha) as [Hn|(p & Hp & Hk & Hn)]; [cbn in Hn; set_solver|].
      specialize (Hclean Hx p Hp Hk). specialize (Hlost p Hp).
      apply list_elem_of_lookup in Hp as [n Hpn]. destruct (Forall2_lookup_r _ _ _ _ _ Hps Hpn) as (i & _ & pass & _ & _ & Hr).
      by apply (ran_processed frontier pass (λ _, true) p).
Qed.

Lemma enumerate_per_pass_first passes snapshots plan frontier t s s' e : reads_only fc = false → (bounded_run fc = false → frontier = None) →
  per_pass passes snapshots plan frontier s = Some (s', Ok e) → first_round frontier passes t e.
Proof.
  intros Hro Hf. unfold FullPass.enumerate_per_pass. intros He. apply bind_Some in He as (s1 & ctx & _ & He).
  set (pl := {| pl_passes := passes |}) in He. apply bind_Some in He as (s2 & results & Hc & He). apply bind_Some in He as (s3 & e0 & Ha & He).
  apply absorb_all_ok in Ha as (l & -> & ->). apply collect_ok in Hc.
  set (others := List.filter _ _) in *. set (order := finish_order others) in *.
  assert (Ho : order ≡ₚ others) by apply finish_order_all. 
  assert (Hnd : NoDup order) by (rewrite Ho; apply NoDup_ListNoDup, List.NoDup_filter, NoDup_ListNoDup, NoDup_seq).
  assert (Hmem : ∀ i, i ∈ order ↔ (i < length passes)%nat ∧ deferred_unfiled_index passes ≠ Some i).
  { intros i. rewrite Ho. apply others_elem. }
  apply passes_ran in Hc as (ps & -> & Hps); [|done|].
  2: { intros i [Hi _]%Hmem. cbn. unfold build_pass_configs. rewrite length_map. lia. }
  replace (omap (λ p, p) (Some <$> ps)) with ps in He by (clear; induction ps; cbn; congruence).
  destruct (deferred_unfiled_index passes) as [i0|] eqn:Ed.
  2: { invert_call. apply (absorbed_first _ _ _ _ _ order); [done..|]. intros i pass Hi%lookup_lt_Some. left. by apply Hmem. }
  change (is_some (Some i0)) with true in He.
  set (e0 := foldl (absorb true) _ ps) in He. unfold run_deferred_unfiled in He.
  destruct (en_exclusions_complete e0) eqn:Ex.
  - apply bind_Some in He as (s4 & o & Hr & He). destruct (decide (i0 < length passes)%nat) as [Hlt|Hge].
    + pose proof Hr as Hr'. apply run_pass_at_some in Hr as [p0 ->]; [|done|].
      2: { cbn. unfold build_pass_configs. by rewrite length_map. }
      apply run_pass_at_ran in Hr' as (pass0 & Hp0 & Hidx & Hran); [|done]. invert_call.
      apply (deferred_first _ _ _ _ _ order _ _ i0 pass0); try done.
      * intros [_ Hn]%Hmem. done.
      * intros i pass Hi%lookup_lt_Some. destruct (decide (i = i0)) as [->|Hne]; [by right|left]. apply Hmem. split; [done|congruence].
    + unfold FullPass.run_pass_at in Hr. cbn in Hr. rewrite lookup_ge_None_2 in Hr by lia. invert_call.
      apply (absorbed_first _ _ _ _ _ order); try done. intros i pass Hi%lookup_lt_Some. left. apply Hmem. split; [done|]. intros [= ->]. lia.
  - invert_call. destruct (absorbed_first true (negb (bool_decide (passes = []))) (pp_display_counts plan) frontier passes order ps t)
      as [Hfi Hfw Hfe Hfr _]; [done..| |by split].
    intros i pass Hi. destruct (decide (i = i0)) as [->|Hne]; [right|left; apply Hmem; apply lookup_lt_Some in Hi; split; [done|congruence]].
    split; [done|]. destruct (absorbed_exclusions ps (Enumerated_new (negb (bool_decide (passes = []))) (pp_display_counts plan))) as (_ & Hx & _).
    destruct (Hx eq_refl Ex) as (p & Hp & Hk & Hc). apply list_elem_of_lookup in Hp as [n Hpn].
    destruct (Forall2_lookup_r _ _ _ _ _ Hps Hpn) as (j & _ & album & Hj & _ & Hr). exists j, album, p. split_and!; try done.
    unfold is_album_pass. destruct Hr as (? & ? & ? & ? & ? & ? & ? & ? & ? & ? & _ & _ & Hkind & _). apply bool_decide_eq_true. congruence.
Qed.

(** *** One merged stream *)

Abbreviation merged := (FullPass.enumerate_merged fc photo_stream_with_token_policy photo_stream_with_token_for_download_policy
  stream_and_download next_schedule select_all).

Lemma open_all_ok plan frontier passes : reads_only fc = false → ∀ s s' opened,
  FullPass.open_all fc photo_stream_with_token_policy photo_stream_with_token_for_download_policy passes plan frontier s = Some (s', Ok opened) →
  Forall2 (λ ip (o : nat * SyncPass * PhotoStream AnyError), o.1 = ip ∧ ∃ total conc s1 s2,
    open_stream ip.2 (scope_frontier_limit fc frontier) total conc (negb (bounded_run fc)) s1 = (s2, o.2)) passes opened.
Proof.
  intros Hro. induction passes as [|[i pass] passes IH]; intros s s' opened; cbn [FullPass.open_all]; intros Ho.
  - invert_call. constructor.
  - apply bind_Some in Ho as (s1 & stream & Hs & Ho). apply bind_Some in Ho as (s2 & rest & Hr & Ho). invert_call.
    constructor; [|by eapply IH]. split; [done|]. cbn [fst snd]. unfold open_photo_stream_for_controls in Hs. rewrite Hro in Hs. apply run_Some in Hs.
    unfold strict_empty_tail_errors in Hs. rewrite Hro, andb_true_r in Hs. by eexists _, _, _, _.
Qed.

Lemma enumerate_merged_first passes plan frontier t s s' e : reads_only fc = false → (bounded_run fc = false → frontier = None) →
  merged passes plan frontier s = Some (s', Ok e) → first_round frontier passes t e.
Proof.
  intros Hro Hf. unfold FullPass.enumerate_merged. intros He. apply bind_Some in He as (s1 & opened & Ho & He).
  apply open_all_ok in Ho; [|done]. apply bind_Some in He as (s2 & sc & _ & He). apply bind_Some in He as (s3 & res & Hs & He).
  apply ret_Some in He as [-> _]. pose proof (pipeline_counts _ _ _ _ _ _ _ Hs) as [Hw Hee].
  assert (Hfst : opened.*1 = imap pair passes) by (clear -Ho; induction Ho as [|? ? ? ? [? _]]; cbn; congruence).
  split; cbn [en_receivers en_result en_cut].
  - rewrite <- list_fmap_compose.
    replace (_ <$> opened) with ((λ ip : nat * SyncPass, Z.of_nat ip.1) <$> opened.*1) by (rewrite <- list_fmap_compose; done).
    rewrite Hfst, fmap_imap. replace (imap _ passes) with (Z.of_nat <$> imap (λ i _, i) passes) by (by rewrite fmap_imap).
    apply NoDup_fmap; [intros ? ?; lia|]. clear. apply NoDup_alt. intros i j x. rewrite !list_lookup_imap.
    destruct (passes !! i), (passes !! j); cbn; congruence.
  - done.
  - done.
  - intros i pass Hi. left. destruct (Forall2_lookup_l _ _ _ i (i, pass) Ho) as (o & Hoi & Hoe & _).
    { by rewrite list_lookup_imap, Hi. }
    eexists. split; [apply list_elem_of_fmap_2; by eapply list_elem_of_lookup_2|]. cbn. by rewrite Hoe.
  - intros Hz Hcut Hc He r (o & -> & Hin)%list_elem_of_fmap Hr. apply token_observed in Hr as (_ & token & Htok & Hb & Ht).
    cbn in Htok. pose proof Hin as Hin'. apply list_elem_of_lookup in Hin' as [n Hn'].
    destruct (Forall2_lookup_r _ _ _ _ _ Ho Hn') as ([i pass] & Hip & Hoe & total & conc & sa & sb & Hopen).
    rewrite list_lookup_imap in Hip. destruct (passes !! n) as [pass'|] eqn:Hp; [|done]. cbn in Hip. injection Hip as -> ->.
    exists i, pass. cbn. rewrite Hoe. split_and!; [done..|]. exists o.2, total, conc, sa, sb. rewrite Hc in Hcut.
    assert (Hub : (bounds frontier (os_items o.2)).2 = false).
    { apply uncut; [done|]. intros Hbr. specialize (Hcut Hbr). apply not_true_iff_false in Hcut. apply not_true_iff_false. intros Hx.
      apply Hcut, existsb_exists. exists o. split; [by apply list_elem_of_In|done]. }
    split_and!; [done|by exists token|done|].
    intros a Ha Hina. eexists _, _, _, sc, _, _, res, a. split; [exact Hs|]. split_and!; [|done| |lia].
    + rewrite select_all_all. apply list_elem_of_In, in_concat. eexists. split; [apply list_elem_of_In, list_elem_of_fmap_2; exact Hin|].
      apply list_elem_of_In. by apply bounded_items_keep.
    + unfold clean_enumeration. rewrite Hc. apply Z.eqb_eq. lia.
Qed.

(** ** Passes run once more *)

(** What a repair leaves of each pass it ran. *)
Definition repaired_run (frontier : option RecentFrontier) (passes : list SyncPass) (before after : StreamingResult) (cut : bool)
    (o : PassKey * PassRecovery) : Prop :=
  match o.2 with
  | Recovered complete errors received => ∃ p, run_of frontier passes (Z.to_nat (pk_index o.1)) p ∧
      complete = sg_enumeration_complete (pp_result p) ∧ errors = sg_enumeration_errors (pp_result p) ∧ received = pp_token p ∧
      sg_state_write_failures before + sg_state_write_failures (pp_result p) <= sg_state_write_failures after ∧
      (cut = false → pp_cut p = false)
  | _ => True
  end.

Lemma repair_passes_runs pl keys : reads_only fc = false → ∀ r s s' r',
  FullPass.repair_passes fc photo_stream_with_token_policy photo_stream_with_token_for_download_policy zone_name stream_and_download
    next_schedule pl keys r s = Some (s', Ok r') →
  ∃ new, rp_outcomes r' = rp_outcomes r ++ new ∧
    sg_state_write_failures (rp_result r) <= sg_state_write_failures (rp_result r') ∧ (rp_cut r' = false → rp_cut r = false) ∧
    Forall (repaired_run (pl_frontier pl) (pl_passes pl) (rp_result r) (rp_result r') (rp_cut r')) new.
Proof.
  intros Hro. induction keys as [|k keys IH]; intros r s s' r'; cbn [FullPass.repair_passes]; intros Hr.
  { invert_call. exists []. rewrite app_nil_r. split_and!; [done..|constructor]. }
  apply bind_Some in Hr as (s1 & again & Ha & Hr). apply (proj1 (catch_Some (E := PassError AnyError) _ _ _ _)) in Ha.
  destruct again as [[p|]|err]; apply IH in Hr as (new & Ho & Hw & Hc & Hall); cbn in Ho, Hw, Hc, Hall.
  - apply run_pass_at_ran in Ha as (pass & Hp & Hi & Hran); [|done]. pose proof (ran_writes _ _ _ _ Hran) as Hpw.
    eexists (_ :: new). rewrite Ho, <- app_assoc. split_and!; [done|lia|by intros [? _]%Hc%orb_false_iff|].
    constructor.
    + cbn. exists p. split_and!; [by exists pass|done..|lia|by intros [_ ?]%Hc%orb_false_iff].
    + eapply Forall_impl; [exact Hall|]. intros [k' [| |c e rcv]]; [done..|]. cbn. intros (q & ? & ? & ? & ? & ? & ?). exists q. split_and!; try done. lia.
  - eexists (_ :: new). rewrite Ho, <- app_assoc. rewrite orb_false_r in Hc. split_and!; [done..|]. by constructor.
  - eexists (_ :: new). rewrite Ho, <- app_assoc. rewrite orb_false_r in Hc. split_and!; [done..|]. by constructor.
Qed.

Lemma outcome_for_elem outcomes k c e received : outcome_for outcomes k = Recovered c e received → (k, Recovered c e received) ∈ outcomes.
Proof.
  unfold outcome_for. destruct (List.find _ outcomes) as [[k' o]|] eqn:Ef; [|done]. cbn. intros ->.
  apply find_some in Ef as [Hin Hk%bool_decide_eq_true]. cbn in Hk. subst k'. by apply list_elem_of_In.
Qed.

Abbreviation collected := (FullPass.collect_zone_token fc photo_stream_with_token_policy photo_stream_with_token_for_download_policy
  zone_name collect_pass_asset_ids stream_and_download next_schedule).

Lemma rerun_proves frontier passes before after cut k c e received t i pass : (bounded_run fc = false → frontier = None) →
  repaired_run frontier passes before after cut (k, Recovered c e received) → pk_index k = Z.of_nat i → passes !! i = Some pass →
  pto_result (observe_token (rerun_receiver k c e received)) = Checkpoint.Present t →
  0 <= sg_state_write_failures before → sg_state_write_failures after <= 0 → (bounded_run fc = true → cut = false) →
  proves frontier pass t.
Proof.
  intros Hf (p & (pass' & Hp & Hi & Hran) & -> & -> & -> & Hw & Hc) Hk Hpass Ht Hb Ha Hcut. cbn in Hp, Hi. rewrite Hk, Nat2Z.id in Hp.
  assert (pass' = pass) as -> by congruence. apply token_observed in Ht as (He & token & Htok & Hbl & Ht). cbn in He, Htok.
  apply andb_true_iff in He as [He Hz%negb_true_iff%Z.ltb_ge].
  pose proof (ran_errors _ _ _ _ Hran) as Hn. pose proof (ran_writes _ _ _ _ Hran) as Hpw. apply (ran_proves frontier pass (λ _, true) p); try done.
  - unfold clean_enumeration. rewrite He. apply Z.eqb_eq. lia.
  - split; [lia|]. intros Hbr. auto.
  - by exists token.
Qed.

Lemma collected_proves passes repair plan frontier e s s' c t : (bounded_run fc = false → frontier = None) →
  first_round frontier passes t e → collected passes repair plan frontier e s = Some (s', Ok c) →
  to_sync_token (cl_token c) = Some t → sg_state_write_failures (cl_result c) <= 0 → (bounded_run fc = true → cl_cut c = false) →
  ∀ i pass, passes !! i = Some pass → proves frontier pass t ∨ left_out frontier passes i.
Proof.
  intros Hf [Hnd Hw0 _ Hrec Hprove]. unfold FullPass.collect_zone_token. destruct (reads_only fc) eqn:Hro; [by intros Hc; invert_call|].
  intros Hc Ht Hw Hcut i pass Hi. apply bind_Some in Hc as (s1 & repaired & Hr & Hc).
  destruct (collect_sync_token _ _ _ _ _ _) as [[[out obs] complete'] errors'] eqn:Ec. invert_call. cbn in Ht, Hw, Hcut.
  destruct (Hrec i pass Hi) as [(r & Hin & Hidx)|?]; [left|by right].
  destruct (collected_token _ _ _ _ _ _ _ _ _ _ _ Hnd Ec Ht) as (_ & Hcut0 & _ & _ & Hall).
  destruct (Hall r Hin) as [[[Hcomp Herr] (r' & Hin' & Hidx' & Hobs)]|(k & c & e' & received & Hk & Hki & Hout & Hobs)].
  - assert (Hw' : sg_state_write_failures (en_result e) <= 0).
    { destruct repaired as [rp|]; [|done]. unfold passes_to_repair in Hr.
      destruct (match initial_evidence _ _ _ _ with Recoverable passes _ => _ | _ => _ end) as [keys|]; [|by invert_call].
      apply bind_Some in Hr as (s2 & configs & _ & Hr). apply bind_Some in Hr as (s3 & rp' & Hr & Hx). apply ret_Some in Hx as [[= ->] _].
      apply repair_passes_runs in Hr as (new & _ & Hle & _); [|done]. cbn in Hle, Hw. lia. }
    destruct (Hprove Hw' (λ _, Hcut0) Hcomp Herr r' Hin' Hobs) as (j & pass' & Hj & Hp & ?).
    assert (j = i) as -> by (apply Nat2Z.inj; congruence). congruence.
  - apply outcome_for_elem in Hout. destruct repaired as [rp|]; [|set_solver]. unfold passes_to_repair in Hr.
    destruct (match initial_evidence _ _ _ _ with Recoverable passes _ => _ | _ => _ end) as [keys|]; [|by invert_call].
    apply bind_Some in Hr as (s2 & configs & _ & Hr). apply bind_Some in Hr as (s3 & rp' & Hr & Hx). apply ret_Some in Hx as [[= ->] _].
    apply repair_passes_runs in Hr as (new & Hnew & Hle & _ & Hruns); [|done]. cbn in Hnew, Hle, Hruns. rewrite Hnew in Hout.
    rewrite Forall_forall in Hruns. specialize (Hruns _ Hout).
    eapply (rerun_proves frontier passes); [exact Hf|exact Hruns| |exact Hi|exact Hobs|exact Hw0|exact Hw|exact Hcut]. congruence.
Qed.

(** A collected token ends a complete enumeration. *)
Lemma collected_flags passes repair plan frontier e s s' c t : first_round frontier passes t e →
  collected passes repair plan frontier e s = Some (s', Ok c) → to_sync_token (cl_token c) = Some t →
  reads_only fc = false ∧ sg_enumeration_complete (cl_result c) = true ∧ sg_enumeration_errors (cl_result c) = 0.
Proof.
  intros [Hnd _ He _ _]. unfold FullPass.collect_zone_token. destruct (reads_only fc); [by intros Hc; invert_call|].
  intros Hc Ht. apply bind_Some in Hc as (s1 & repaired & _ & Hc).
  destruct (collect_sync_token _ _ _ _ _ _) as [[[out obs] complete'] errors'] eqn:Ec. invert_call. cbn in Ht |- *.
  destruct (collected_token _ _ _ _ _ _ _ _ _ _ _ Hnd Ec Ht) as (_ & _ & ? & ? & _). auto.
Qed.

(** *** The result *)

Lemma token_block_uncut recent date cut complete errors lookup token reason before : (lookup = true → recent || date = false) →
  tb_blocked (token_block (rc_run_mode (fc_rc fc)) recent date cut complete errors lookup (Some token) reason before) = false →
  reads_only fc = false → complete = true → errors = 0 → recent || date = true → cut = false.
Proof.
  intros Hl Hb Hro -> -> Hbr. unfold reads_only in Hro. apply orb_false_iff in Hro as [Hp Hd].
  destruct lookup; [by rewrite Hl in Hbr|]. unfold token_block in Hb. rewrite Hp, Hd, Hbr in Hb. by destruct cut.
Qed.

Lemma build_recent_frontier_unbounded passes s s' frontier : 
  build_recent_frontier fc photo_stream_with_token_policy photo_stream_with_token_for_download_policy clone_as_library_wide next_schedule passes s
    = Some (s', Ok frontier) → bounded_run fc = false → frontier = None.
Proof.
  unfold build_recent_frontier, bounded_run, count_bounded. destruct (rc_recent (fc_rc fc)); cbn; [done|]. by intros Hr _; invert_call.
Qed.

(** The statistics keep what the pipelines counted. *)
Lemma outcome_stats passes r s s' o st : is_dry_run (rc_run_mode (fc_rc fc)) = false →
  build_download_outcome (fc_rc fc) fuel is_cancelled elapsed list_photos collect_pass_asset_ids run_download_pass passes r s
    = Some (s', Ok (o, st)) →
  sg_state_write_failures r <= state_write_failures st.
Proof.
  intros Hdry. unfold build_download_outcome. rewrite Hdry.
  assert (Hm : ∀ b st, state_write_failures (mark_producer_enumeration_incomplete b st) = state_write_failures st) by (by intros []).
  repeat (case_match; [intros [= <- <- <-]; rewrite ?Hm; cbn; lia|]).
  destruct (build_retry_download_tasks _ _ _ _ _ _ _ s) as [[s1 [fresh|e]]|]; [|done..]. cbn [mbind option_bind].
  unfold finish_cleanup. pose proof (cleanup_counts fresh s1) as Hp. destruct (run_download_pass fresh s1) as [s2 p]. cbn in Hp.
  destruct (AUTH_ERROR_THRESHOLD <=? sg_auth_errors r + pr_auth_errors p); intros [= <- <- <-]; rewrite ?Hm; cbn; lia.
Qed.

Abbreviation outcome_call passes r := (λ s : St,
  match build_download_outcome (fc_rc fc) fuel is_cancelled elapsed list_photos collect_pass_asset_ids run_download_pass passes r s with
  | Some (s, Ok o) => Some (s, Ok o)
  | Some (s, Err e) => Some (s, Err (PassFailed e))
  | None => None
  end).
Lemma outcome_attempt passes r s s' o : outcome_call passes r s = Some (s', Ok o) →
  build_download_outcome (fc_rc fc) fuel is_cancelled elapsed list_photos collect_pass_asset_ids run_download_pass passes r s
    = Some (s', Ok o).
Proof. cbn beta. destruct (build_download_outcome _ _ _ _ _ _ _ _ _ s) as [[? []]|]; intros Hx; by simplify_eq. Qed.
Lemma drain_writes r s s' r' : drain_rewrites (AnyError := AnyError) fc run_pending r s = Some (s', Ok r') → sg_state_write_failures r' = sg_state_write_failures r.
Proof. unfold drain_rewrites. destruct (_ && _); intros Hr; [apply bind_Some in Hr as (? & ? & _ & Hr)|]; by invert_call. Qed.

Abbreviation full := (download_photos_full_with_token_policy fc fuel is_cancelled elapsed photo_stream_with_token_policy
  photo_stream_with_token_for_download_policy len_many zone_name clone_as_library_wide list_photos collect_pass_asset_ids
  preload_download_context stream_and_download run_download_pass run_pending next_schedule finish_order select_all).
Abbreviation frontier_of passes frontier := (∃ s s', build_recent_frontier fc photo_stream_with_token_policy
  photo_stream_with_token_for_download_policy clone_as_library_wide next_schedule passes s = Some (s', Ok frontier)).

(** C12: When the source checkpoint accepts the token of a full enumeration,
    every selected pass proved it: a stream of the pass reported this token and
    was not cut by the run's bounds, and every asset of it inside the recent
    frontier went through a pipeline that ended without an enumeration error
    or a lost state write; however the passes finish, and whichever of them were
    run once more.  The one exception is the unfiled pass whose exclusions come
    from the album passes: it may have been left out, when an album pass was
    not read to its end. *)
Theorem full_token_covers passes repair s s' r t dry stale basis basis' :
  full passes repair s = Some (s', Ok r) → source_checkpoint_decision r dry stale basis = Advance t basis' →
  ∃ frontier, frontier_of passes frontier ∧
    ∀ i pass, passes !! i = Some pass → proves frontier pass t ∨ left_out frontier passes i.
Proof.
  unfold download_photos_full_with_token_policy. intros Hr Hd.
  apply bind_Some in Hr as (s1 & [] & _ & Hr). apply bind_Some in Hr as (s2 & plan & Hplan & Hr).
  apply bind_Some in Hr as (s3 & frontier & Hfr & Hr). apply bind_Some in Hr as (s4 & e & He & Hr).
  apply bind_Some in Hr as (s5 & c & Hc & Hr). apply bind_Some in Hr as (s6 & r0 & Hdrain & Hr).
  apply bind_Some in Hr as (s7 & [out st] & Hout & Hr). apply bind_Some in Hr as (s8 & [] & _ & Hr). invert_call.
  destruct (advance_facts _ t ltac:(by eexists _, _, _, _)) as (_ & _ & Hw & Ht & Hb). cbn [sync_token stats] in Ht, Hw, Hb.
  assert (Hf : bounded_run fc = false → frontier = None) by (by eapply build_recent_frontier_unbounded).
  assert (Hplan' : 0 <? pp_len_errors plan = true → bounded_run fc = false).
  { destruct (bounded_run fc) eqn:Eb; [|done]. unfold build_pass_count_plan in Hplan. rewrite Eb in Hplan. by invert_call. }
  exists frontier. split; [by eexists _, _|].
  assert (Hro : reads_only fc = false).
  { destruct (reads_only fc) eqn:E; [|done]. unfold FullPass.collect_zone_token in Hc. rewrite E in Hc. by invert_call. }
  assert (Hfirst : first_round frontier passes t e).
  { unfold enumerate in He. destruct (_ || _); [by eapply enumerate_per_pass_first|by eapply enumerate_merged_first]. }
  destruct (collected_flags _ _ _ _ _ _ _ _ _ Hfirst Hc Ht) as (_ & Hcomp & Herr).
  apply (collected_proves passes repair plan frontier e s4 s5 c); try done.
  - apply outcome_attempt in Hout. apply outcome_stats in Hout; [|by apply orb_false_iff in Hro as []].
    apply drain_writes in Hdrain. cbn in Hw. lia.
  - cbn in Hb. rewrite Ht in Hb. intros Hbr. eapply token_block_uncut; [|exact Hb|done..].
    intros Hl. by apply Hplan' in Hl.
Qed.
End Covered.

(** ** The interfaces on the SQLite store *)

Definition on_snapshots {A} (op : AlbumDb → result StateError (AlbumDb * A)) (d : Db) (a : AlbumDb) : result StateError (Db * AlbumDb * A) :=
  match op a with Ok (a, x) => Ok (d, a, x) | Err e => Err e end.
Definition no_answer {A} (r : result StateError A) : result StateError (A * unit) :=
  match r with Ok a => Ok (a, tt) | Err e => Err e end.
#[export] Instance SourceDb_enumeration `{StateEnv} : EnumerationStore SourceDb := {
  es_begin_enum_progress z s := scall (on_rows (λ d, Ok (begin_enum_progress (sd_now s) z d, tt))) s;
  es_end_enum_progress z s := scall (on_rows (λ d, Ok (end_enum_progress z d, tt))) s;
  es_start_album_membership_snapshot l c h s := scall (on_snapshots (start_album_membership_snapshot (sd_now s) l c h)) s;
  es_add_album_membership_to_snapshot l c g a m src s :=
    scall (on_snapshots (λ d, no_answer (add_album_membership_to_snapshot (sd_now s) l c g a m src d))) s;
  es_complete_album_membership_snapshot l c g s :=
    scall (on_snapshots (λ d, no_answer (complete_album_membership_snapshot (sd_now s) l c g d))) s;
}.

(** ** Runs *)

Module FullRuns.
Import StateDbSpec.Samples ProducerRuns PassRuns.

Definition album : SyncPass :=
  {| sp_pass := {| pass_kind := PassAlbum; pass_album_name := lit "Trip"; pass_exclude_ids := ∅ |}; sp_container_id := Some (lit "C1") |}.
Definition unfiled : SyncPass :=
  {| sp_pass := {| pass_kind := PassUnfiled; pass_album_name := []; pass_exclude_ids := ∅ |}; sp_container_id := None |}.
(** The album holds one of the two assets. *)
Definition assets_of_pass (p : SyncPass) : list PhotoAsset :=
  if bool_decide (pass_kind p = PassAlbum) then [sample_asset] else [sample_asset; bare].
Definition stream_of (p : SyncPass) (limit total : option Z) (concurrency : Z) (strict : bool) (s : SourceDb) : SourceDb * PhotoStream unit :=
  (s, {| os_items := Ok <$> assets_of_pass p; os_token := Ok (Some (lit "t1")) |}).

(** The clock ticks at each schedule; the runs up to [trouble] end early; in
    the others a link expires if [expired].
    An asset that goes through gets its mapping. *)
Definition tick_clock (s : SourceDb) : SourceDb * Schedule unit :=
  ({| sd_db := sd_db s; sd_albums := sd_albums s; sd_now := sd_now s + 1; sd_faults := sd_faults s |},
   {| sc_cancels := []; sc_moments := []; sc_last := []; sc_pulled := λ _, 0%nat |}).
Definition through (items : list (result unit PhotoAsset)) : list PhotoAsset :=
  omap (λ i, match i with Ok a => Some a | Err _ => None end) items.
Definition map_all (l : list PhotoAsset) (s : SourceDb) : SourceDb :=
  foldl (λ s a, (so_upsert_asset_master_mapping (lit "PrimarySync") (asset_record_name a) (record_name a) s).1) s l.
Definition pipeline (trouble : Z) (expired : bool) (config : DownloadConfig) (ctx : option DownloadContext) (items : list (result unit PhotoAsset))
    (sc : Schedule unit) (s : SourceDb) : option (SourceDb * result (PassError unit) StreamingResult) :=
  let n := zlen (through items) in
  if sd_now s <=? trouble then Some (s, Ok (listing_result 0 0 false))
  else Some (map_all (through items) s, Ok {|
    sg_downloaded := n; sg_exif_failures := 0; sg_failed := []; sg_auth_errors := 0; sg_state_write_failures := 0;
    sg_enumeration_errors := 0; sg_assets_seen := n; sg_skip_summary := ProducerSkipSummary_default; sg_bytes_downloaded := 20 * n;
    sg_disk_bytes_written := 20 * n; sg_rate_limit_observations := 0; sg_url_expired_abort := expired;
    sg_enumeration_complete := true; sg_photos_downloaded := n; sg_videos_downloaded := 0; sg_recap := RunRecap_default |}).

Definition fc : FullConfig :=
  {| fc_rc := rc; fc_recent_scope := Global; fc_concurrent_downloads := 4; fc_enum_config_hash := None; fc_refresh_metadata := false |}.
Definition cleanup (tasks : list DownloadTask) (s : SourceDb) : SourceDb * PassResult := (s, (downloads_all tasks tt).2).
Definition start : SourceDb := {| sd_db := Db_empty; sd_albums := AlbumDb_empty; sd_now := 0; sd_faults := [] |}.
Definition full_run (trouble : Z) (expired : bool) (passes : list SyncPass) : option (SourceDb * result (PassError unit) SyncResult) :=
  download_photos_full_with_token fc 9 (λ _, false) (λ _, S754_zero false) stream_of stream_of
    (λ ps s, (s, (λ p, Ok (zlen (assets_of_pass p))) <$> ps)) (λ _, lit "PrimarySync") (λ p, p)
    (λ p _ s, (s, Ok (assets_of_pass p))) (λ p s, (s, Ok (list_to_set (asset_record_name <$> assets_of_pass p))))
    (λ s, (s, load Db_empty false)) (pipeline trouble expired) cleanup (λ s, (s, 0)) tick_clock (λ l, l) (λ l, concat l) passes start.
(** The outcome, the decision on the token, the assets that went through, what
    the statistics say was downloaded. *)
Definition summary (o : option (SourceDb * result (PassError unit) SyncResult)) :=
  '(s, r) ← o;
  match r with
  | Ok r => Some (outcome r, source_checkpoint_decision r false false CompleteInventory, snd <$> (map_to_list (asset_master_mappings (sd_db s))).*1,
                  Stats.downloaded (stats r), bytes_downloaded (stats r))
  | Err _ => None
  end.

Example all_is_well : summary (full_run 0 false [album; unfiled]) =
  Some (Success, Advance (lit "t1") CompleteInventory, [lit "REC2"; lit "REC1"], 2, 0).
Proof. vm_compute. reflexivity. Qed.
(** Only the library pass: one merged stream keeps the count of bytes. *)
Example one_pass : summary (full_run 0 false [unfiled]) =
  Some (Success, Advance (lit "t1") CompleteInventory, [lit "REC2"; lit "REC1"], 2, 40).
Proof. vm_compute. reflexivity. Qed.
(** The album pass ends early, so the unfiled pass is left out; the album pass
    is run once more and the token of the zone is accepted, although the second
    asset was never enumerated. *)
Example token_without_unfiled_pass : summary (full_run 1 false [album; unfiled]) =
  Some (Success, Advance (lit "t1") CompleteInventory, [lit "REC1"], 1, 20).
Proof. vm_compute. reflexivity. Qed.
(** An expired link is a partial failure of one merged stream, and forgotten
    when there are several passes; so are the bytes. *)
Example expired_link_forgotten :
  (λ x, x.1.1.1.1) <$> summary (full_run 0 true [unfiled]) = Some (PartialFailure 1) ∧
  (λ x, x.1.1.1.1) <$> summary (full_run 0 true [album; unfiled]) = Some Success.
Proof. split; vm_compute; reflexivity. Qed.

Lemma full_token_covers_witness :
  ∃ frontier, ∀ i pass, [album; unfiled] !! i = Some pass →
    proves fc stream_of (pipeline 0 false) frontier pass (lit "t1") ∨
    left_out fc stream_of (pipeline 0 false) frontier [album; unfiled] i.
Proof.
  assert (Hs : summary (full_run 0 false [album; unfiled]) =
    Some (Success, Advance (lit "t1") CompleteInventory, [lit "REC2"; lit "REC1"], 2, 0)) by (vm_compute; reflexivity).
  destruct (full_run 0 false [album; unfiled]) as [[s [r|e]]|] eqn:E; [|discriminate Hs..].
  assert (Hd : source_checkpoint_decision r false false CompleteInventory = Advance (lit "t1") CompleteInventory).
  { cbn [summary mbind option_bind] in Hs. congruence. }
  unfold full_run, download_photos_full_with_token in E.
  eapply full_token_covers in E as (frontier & _ & H); [exists frontier; exact H| | | | |exact Hd].
  - intros config ctx items sc s0 s1 x. unfold pipeline. case_match; intros [= <- <-]; cbn; lia.
  - intros tasks s0. cbn. lia.
  - reflexivity.
  - reflexivity.
Defined.
End FullRuns.
