(* ===== verification/PendingRetry.v ===== *)
(** * Pending retries: [src/download/retry.rs]

    Rows that are still pending are looked up at the provider one by one: files
    already on disk are adopted, recorded paths are kept or repaired, policy
    exclusions and deletions are recorded, and what is left becomes tasks or
    stays pending with the reason.

    Parameters: the provider's lookups, the probes of a recorded file, the order
    of hash sets, the shutdown token. *)
From S2P Require Import Prelude RustStr Paths Types StateTypes StateDb Filter Stats Planner Finalize Context Albums Source Hydrate OnDisk UrlRefresh Incremental PassRun Outcome Call.

Record PendingRetryTarget := { pt_library : str; pt_asset_id : str; pt_version_size : VersionSizeKey }.
#[export] Instance PendingRetryTarget_eq : EqDecision PendingRetryTarget.
Proof. solve_decision. Defined.
Definition target_of_record (r : AssetRecord) : PendingRetryTarget :=
  {| pt_library := ar_library r; pt_asset_id := ar_id r; pt_version_size := ar_version_size r |}.
Definition target_of_task `{FilterEnv} (t : DownloadTask) : PendingRetryTarget :=
  {| pt_library := dt_library t; pt_asset_id := dt_asset_id t; pt_version_size := dt_version_size t |}.
Definition target_key (t : PendingRetryTarget) : key3 := (pt_library t, pt_asset_id t, VersionSizeKey_as_str (pt_version_size t)).
Definition of_state_id (state_id : str) (t : PendingRetryTarget) : bool := str_eqb (pt_asset_id t) state_id.
(** [HashSet::remove] and [insert]. *)
Definition remove_target (t : PendingRetryTarget) (l : list PendingRetryTarget) : list PendingRetryTarget := filter (λ t', t' ≠ t) l.
Definition add_target (t : PendingRetryTarget) (l : list PendingRetryTarget) : list PendingRetryTarget :=
  if decide (t ∈ l) then l else l ++ [t].
Definition in_targets (t : PendingRetryTarget) (l : list PendingRetryTarget) : bool := bool_decide (t ∈ l).

(** ** Durable evidence *)

Record PendingRetryEvidence := {
  ev_checksum : str;
  ev_filename : str;
  ev_local_file : option RecordedLocalFile;
  ev_downloaded_at : option Z;
  ev_size_bytes : Z;
  ev_last_error : option str;
}.
Definition evidence_of_record (r : AssetRecord) : PendingRetryEvidence := {|
  ev_checksum := ar_checksum r; ev_filename := ar_filename r;
  ev_local_file := p ← ar_local_path r; Some {| rf_path := p; rf_local_checksum := ar_local_checksum r; rf_download_checksum := ar_download_checksum r |};
  ev_downloaded_at := ar_downloaded_at r; ev_size_bytes := ar_size_bytes r; ev_last_error := ar_last_error r |}.

(** [Path::starts_with]. *)
Definition path_starts_with (p directory : path) : bool :=
  bool_decide (take (length (components directory)) (components p) = components directory).

Section Evidence.
Context `{FilterEnv} (e : PendingRetryEvidence).

Definition matches_provider_version (t : DownloadTask) : bool := str_eqb (ev_checksum e) (dt_checksum t) && (ev_size_bytes e =? dt_size t).
Definition local_file_under (directory : path) : option RecordedLocalFile :=
  f ← ev_local_file e; if path_starts_with (rf_path f) directory then Some f else None.
Definition local_path_under (directory : path) : option path := rf_path <$> local_file_under directory.
Definition local_path_evidence_under (directory : path) : PendingRetryLocalPath :=
  match local_file_under directory with
  | None => Unrecorded
  | Some f => match ev_downloaded_at e with Some _ => Current f | None => Historical end
  end.
Definition file_evidence (directory : path) (version : VersionSizeKey) : PendingRetryFileEvidence :=
  {| pe_version_size := version; pe_filename := ev_filename e; pe_checksum := ev_checksum e;
     pe_local_path := local_path_evidence_under directory; pe_size := ev_size_bytes e |}.
End Evidence.

(** The evidence of each pending row, the newest entry of a target first. *)
Definition Evidence : Type := list (PendingRetryTarget * PendingRetryEvidence).
Definition evidence_for (l : Evidence) (t : PendingRetryTarget) : option PendingRetryEvidence :=
  snd <$> List.find (λ te : PendingRetryTarget * PendingRetryEvidence, bool_decide (te.1 = t)) l.

(** ** Legacy candidates *)

Inductive LegacyCandidateSelection :=
| Selected (asset : PhotoAsset)
| NoCandidate (** [Missing] in the code *)
| EvidenceMismatch (candidates : nat)
| Ambiguous (matches : nat).

Definition candidate_matches_durable_evidence (asset : PhotoAsset) (t : PendingRetryTarget) (e : PendingRetryEvidence) : bool :=
  existsb (λ v : AssetVersionSize * AssetVersion, bool_decide (VersionSizeKey_from v.1 = pt_version_size t)
             && (av_size v.2 =? ev_size_bytes e) && str_eqb (av_checksum v.2) (ev_checksum e)) (versions asset).

Definition select_legacy_candidate (candidates : list PhotoAsset) (targets : list PendingRetryTarget) (evidence : Evidence)
    (owner : option str) : LegacyCandidateSelection :=
  let candidates := match owner with
                    | Some owner => List.filter (λ a, str_eqb (asset_record_name a) owner) candidates
                    | None => candidates
                    end in
  match candidates with
  | [] => NoCandidate
  | _ =>
      match List.filter (λ a, existsb (λ t, match evidence_for evidence t with
                                            | Some e => candidate_matches_durable_evidence a t e
                                            | None => false
                                            end) targets) candidates with
      | [] => EvidenceMismatch (length candidates)
      | [a] => Selected a
      | matching => Ambiguous (length matching)
      end
  end.

Fixpoint take_matching_pending_retry_tasks `{FilterEnv} (tasks : list DownloadTask) (pending : list PendingRetryTarget)
    (out : list DownloadTask) : list PendingRetryTarget * list DownloadTask :=
  match tasks with
  | [] => (pending, out)
  | task :: tasks =>
      if in_targets (target_of_task task) pending then
        let pending := remove_target (target_of_task task) pending in
        match pending with
        | [] => (pending, out ++ [task])
        | _ => take_matching_pending_retry_tasks tasks pending (out ++ [task])
        end
      else take_matching_pending_retry_tasks tasks pending out
  end.

(** ** The store *)

Class PendingRetryStore (St : Type) := {
  pr_get_pending : St → St * result StateError (list AssetRecord);
  pr_get_legacy_master_state_owners : St → St * result StateError (list (str * str * str));
  pr_backfill_asset_master_mappings_from_album_memberships : St → St * result StateError Z;
  pr_get_policy_excluded_ids_for_revalidation : str → St → St * result StateError (list str);
  pr_get_asset_record_names_for_master : str → str → St → St * result StateError (list str);
  pr_set_asset_verification : key3 → AssetVerificationState → str → St → St * result StateError unit;
  pr_clear_asset_verification : key3 → St → St * result StateError unit;
  pr_mark_policy_excluded : key3 → St → St * result StateError bool;
}.

Record PendingRetryPlan `{FilterEnv} := {
  rp_tasks : list DownloadTask;
  rp_retry_sources : list (RetryTaskKey * UrlRetrySource);
  rp_pass_configs : list DownloadConfig;
  rp_unmatched_targets : list PendingRetryTarget;
  rp_requested : Z;
}.
Definition PendingRetryPlan_default `{FilterEnv} : PendingRetryPlan :=
  {| rp_tasks := []; rp_retry_sources := []; rp_pass_configs := []; rp_unmatched_targets := []; rp_requested := 0 |}.

(** What planning changes: [PendingRetryPlanning]. *)
Record PendingRetryPlanning `{FilterEnv} := {
  pl_pending : list PendingRetryTarget;
  pl_planner : TaskPlanner;
  pl_tasks : list DownloadTask;
  pl_sources : list (RetryTaskKey * UrlRetrySource);
}.

Definition master_only (state_id master : str) : RecordLookupRequest :=
  {| rl_state_id := state_id; rl_master_record_name := master; rl_asset_record_name := None; rl_for_asset := false |}.

Section PendingRetry.
Context `{FilterEnv, StateEnv, IndexOrder} {St AnyError : Type}.
Context `{SourceStore St, LegacyOwnerStore St, DownloadStateStore St, DownloadFinalizationStore St, FileHashes St, PendingRetryStore St}.
Context (rc : RunConfig) (fuel : nat) (is_cancelled : St → bool) (now : St → Z).
(** [config.capture_timestamp_repair] asks for marks; [config.repair_truncated]. *)
Context (mark_capture_repair repair_truncated : bool).
Context (of_state : StateError → AnyError) (to_string : AnyError → str).
Context (resolve_records : SyncPass → list RecordLookupRequest → St → St * RecordResolutionBatch).
Context (hydrate_matching_master_assets_from_changes : SyncPass → gset str → St → St * result AnyError (list PhotoAsset)).
Context (collect_pass_asset_ids : SyncPass → St → St * result AnyError (gset str)).
(** The probes of a recorded file: is it there, and its fingerprint. *)
Context (symlink_metadata : path → St → St * result AnyError bool).
Context (fingerprint_regular_file : path → St → St * result AnyError ExistingFileFingerprint).
(** The order in which hash sets are walked. *)
Context (target_order : list PendingRetryTarget → list PendingRetryTarget) (name_order : gset str → list str).

Abbreviation M := (Call St AnyError).
Abbreviation library := (library (rc_config rc)).
Abbreviation has_db := (rc_has_db rc).

Definition on_db {A} (op : St → St * result StateError A) : M A := attempt of_state op.

(** ** A file cut short *)

Definition truncated_repair_fingerprint (e : PendingRetryEvidence) (enabled : bool) : M (option ExistingFileFingerprint) :=
  match enabled && bool_decide (ev_last_error e = Some FILE_TRUNCATED_REASON) && bool_decide (is_Some (ev_downloaded_at e)), ev_local_file e with
  | true, Some f =>
      there ← attempt id (symlink_metadata (rf_path f));
      if there : bool then
        fp ← attempt id (fingerprint_regular_file (rf_path f));
        if (ev_size_bytes e =? 0) || (ev_size_bytes e <=? fp_size fp) then mret None
        else
          match rf_local_checksum f, rf_download_checksum f with
          | Some local, Some download =>
              if negb (str_eqb local download) && str_eqb local (concat (map hex2 (fp_sha256 fp))) then mret None else mret (Some fp)
          | _, _ => mret (Some fp)
          end
      else mret None
  | _, _ => mret None
  end.

Definition set_publication (fp : ExistingFileFingerprint) (t : DownloadTask) : DownloadTask := {|
  dt_url := dt_url t; dt_download_path := dt_download_path t; dt_publication := ReplaceTruncated fp; dt_checksum := dt_checksum t;
  dt_asset_id := dt_asset_id t; dt_asset_record_name := dt_asset_record_name t; dt_library := dt_library t;
  dt_metadata := dt_metadata t; dt_size := dt_size t; dt_created_local := dt_created_local t;
  dt_version_size := dt_version_size t; dt_media_type := dt_media_type t |}.

(** ** One resolved asset *)

Definition set_pending (l : list PendingRetryTarget) (p : PendingRetryPlanning) : PendingRetryPlanning :=
  {| pl_pending := l; pl_planner := pl_planner p; pl_tasks := pl_tasks p; pl_sources := pl_sources p |}.
Definition set_planner (t : TaskPlanner) (p : PendingRetryPlanning) : PendingRetryPlanning :=
  {| pl_pending := pl_pending p; pl_planner := t; pl_tasks := pl_tasks p; pl_sources := pl_sources p |}.
Definition targets_of (state_id : str) (p : PendingRetryPlanning) : list PendingRetryTarget :=
  List.filter (of_state_id state_id) (pl_pending p).

(** Files on disk; the targets whose adoption could not be written. *)
Fixpoint adopt_targets (evidence : Evidence) (config : DownloadConfig) (asset : PhotoAsset) (planned : list DownloadTask)
    (targets : list PendingRetryTarget) (write_failed : list PendingRetryTarget) (p : PendingRetryPlanning) :
    M (PendingRetryPlanning * list PendingRetryTarget) :=
  match targets with
  | [] => mret (p, write_failed)
  | t :: targets =>
      match evidence_for evidence t with
      | None => adopt_targets evidence config asset planned targets write_failed p
      | Some e =>
          '(planner, adoption) ← run (λ s, let '(planner, s', adoption) :=
              adopt_pending_on_disk_for_retry (now s) mark_capture_repair config asset planned
                (file_evidence e (directory config) (pt_version_size t)) (pl_planner p) s in (s', (planner, adoption)));
          let p := set_planner planner p in
          match adoption with
          | RetryAdopted =>
              _ ← on_db (pr_clear_asset_verification (target_key t));
              adopt_targets evidence config asset planned targets write_failed (set_pending (remove_target t (pl_pending p)) p)
          | RetryStateWriteFailed => adopt_targets evidence config asset planned targets (add_target t write_failed) p
          | RetryNotFound => adopt_targets evidence config asset planned targets write_failed p
          end
      end
  end.

(** The planned tasks on their recorded paths; [None]: no path is safe. *)
Definition retarget (evidence : Evidence) (config : DownloadConfig) (task : DownloadTask) (planner : TaskPlanner) :
    M (TaskPlanner * option DownloadTask) :=
  match (e ← evidence_for evidence (target_of_task task); p ← local_path_under e (directory config); Some (e, p)) with
  | None => mret (planner, Some task)
  | Some (e, local_path) =>
      fp ← (if matches_provider_version e task then truncated_repair_fingerprint e repair_truncated else mret None);
      match fp with
      | Some fp =>
          let '(planner, claimed) := claim_recorded_repair_path local_path (dt_download_path task) (dt_size task) planner in
          mret (planner, if claimed then Some (set_publication fp (set_download_path local_path task)) else None)
      | None =>
          '(planner, retry_path) ← fuelled (resolve_recorded_retry_path fuel local_path (dt_download_path task) (dt_size task)
                                              (dt_asset_id task) planner);
          mret (planner, (λ p, set_download_path p task) <$> retry_path)
      end
  end.
Fixpoint retarget_all (evidence : Evidence) (config : DownloadConfig) (tasks : list DownloadTask) (planner : TaskPlanner) :
    M (TaskPlanner * list DownloadTask) :=
  match tasks with
  | [] => mret (planner, [])
  | task :: tasks =>
      '(planner, task) ← retarget evidence config task planner;
      '(planner, tasks) ← retarget_all evidence config tasks planner;
      mret (planner, match task with Some task => task :: tasks | None => tasks end)
  end.

Record Unplanned := { up_malformed : list PendingRetryTarget; up_write_failed : list PendingRetryTarget }.

Definition queue_tasks (asset : PhotoAsset) (pass_index : nat) (retry_tasks : list DownloadTask) (p : PendingRetryPlanning) :
    M PendingRetryPlanning :=
  let queued := List.filter (λ t, in_targets t (pl_pending p)) (target_of_task <$> retry_tasks) in
  let '(pending, tasks) := take_matching_pending_retry_tasks retry_tasks (pl_pending p) (pl_tasks p) in
  _ ← for_all queued (λ t, when (negb (in_targets t pending)) (on_db (pr_clear_asset_verification (target_key t))));
  let source := {| us_asset_record_name := asset_record_name asset; us_pass_index := pass_index |} in
  mret {| pl_pending := pending; pl_planner := pl_planner p; pl_tasks := tasks;
          pl_sources := rev ((λ task, (retry_key task, source)) <$> drop (length (pl_tasks p)) tasks) ++ pl_sources p |}.

Definition plan_in_pass (evidence : Evidence) (asset : PhotoAsset) (state_id : str) (pass_index : nat) (config : DownloadConfig)
    (p : PendingRetryPlanning) (u : Unplanned) : M (PendingRetryPlanning * Unplanned) :=
  '(planner, plan) ← fuelled (plan_asset fuel asset config (pl_planner p));
  let p := set_planner planner p in
  '(p, write_failed) ← adopt_targets evidence config asset (atp_tasks plan) (targets_of state_id p) (up_write_failed u) p;
  let u := {| up_malformed := up_malformed u; up_write_failed := write_failed |} in
  match atp_filter_reason plan with
  | Some _ => mret (p, u)
  | None =>
      let u := match atp_malformed_resource plan with
               | Some _ => {| up_malformed := foldr add_target (up_malformed u) (targets_of state_id p); up_write_failed := up_write_failed u |}
               | None => u
               end in
      '(planner, retry_tasks) ← retarget_all evidence config
          (List.filter (λ task, negb (in_targets (target_of_task task) (up_write_failed u))) (atp_tasks plan)) (pl_planner p);
      p ← queue_tasks asset pass_index retry_tasks (set_planner planner p);
      mret (p, u)
  end.
Fixpoint plan_in_passes (evidence : Evidence) (asset : PhotoAsset) (state_id : str) (configs : list (nat * DownloadConfig))
    (p : PendingRetryPlanning) (u : Unplanned) : M (PendingRetryPlanning * Unplanned) :=
  match configs with
  | [] => mret (p, u)
  | (i, config) :: configs =>
      '(p, u) ← plan_in_pass evidence asset state_id i config p u;
      plan_in_passes evidence asset state_id configs p u
  end.

(** No pass made a task of these: the policy excludes them. *)
Fixpoint exclude_targets (targets : list PendingRetryTarget) (p : PendingRetryPlanning) : M PendingRetryPlanning :=
  match targets with
  | [] => mret p
  | t :: targets =>
      transitioned ← on_db (pr_mark_policy_excluded (target_key t));
      exclude_targets targets (if transitioned : bool then set_pending (remove_target t (pl_pending p)) p else p)
  end.

Definition verify_targets (targets : list PendingRetryTarget) (state : AssetVerificationState) (reason : str) : M unit :=
  for_all targets (λ t, on_db (pr_set_asset_verification (target_key t) state reason)).

Definition plan_resolved_asset (configs : list DownloadConfig) (evidence : Evidence) (asset : PhotoAsset) (state_id : str)
    (p : PendingRetryPlanning) : M PendingRetryPlanning :=
  '(p, u) ← plan_in_passes evidence asset state_id (imap pair configs) p {| up_malformed := []; up_write_failed := [] |};
  let deferred := List.filter (λ t, negb (in_targets t (up_malformed u)) && negb (in_targets t (up_write_failed u))) (targets_of state_id p) in
  p ← exclude_targets deferred p;
  let still l := List.filter (λ t, in_targets t (pl_pending p)) l in
  _ ← verify_targets (still (up_write_failed u)) StateTypes.TransientFailure (lit "failed to persist on-disk pending asset adoption");
  _ ← verify_targets (still (up_malformed u)) StateTypes.Unknown (lit "provider record did not contain a usable retry resource");
  mret p.

Definition set_verification_for_state_id (state_id : str) (state : AssetVerificationState) (reason : str) (p : PendingRetryPlanning) : M unit :=
  verify_targets (targets_of state_id p) state reason.

(** ** What is asked of the provider *)

Record ProviderLookupPlan := { lp_requests : list RecordLookupRequest; lp_master_by_state_id : gmap str str }.

Definition add_request (r : RecordLookupRequest) (l : list RecordLookupRequest) : list RecordLookupRequest :=
  if existsb (λ r', str_eqb (rl_state_id r') (rl_state_id r) && str_eqb (rl_master_record_name r') (rl_master_record_name r)
                    && bool_decide (rl_asset_record_name r' = rl_asset_record_name r)) l
  then l else l ++ [r].

Fixpoint lookup_plan (state_ids : list str) (l : ProviderLookupPlan) : M ProviderLookupPlan :=
  match state_ids with
  | [] => mret l
  | state_id :: state_ids =>
      mapped ← on_db (so_get_master_record_name_for_asset library state_id);
      let master := default state_id mapped in
      names ← match mapped with
              | Some _ => mret [state_id]
              | None => on_db (pr_get_asset_record_names_for_master library master)
              end;
      let requests := match names with
                      | [] => add_request (master_only state_id master) (lp_requests l)
                      | _ => foldl (λ requests name, add_request (paired state_id master name) requests) (lp_requests l) names
                      end in
      lookup_plan state_ids {| lp_requests := requests; lp_master_by_state_id := <[state_id := master]> (lp_master_by_state_id l) |}
  end.
Definition build_provider_lookup_plan (state_ids : list str) : M ProviderLookupPlan :=
  lookup_plan state_ids {| lp_requests := []; lp_master_by_state_id := ∅ |}.

(** A confirmed deletion at the source. *)
Definition resolve_deleted (masters : gmap str str) (state_id : str) (deleted_at : option Z) (master_family : bool) : M Z :=
  if master_family then on_db (so_resolve_master_family_source_deleted library (default state_id (masters !! state_id)) deleted_at)
  else on_db (so_resolve_source_deleted library state_id deleted_at).

Fixpoint apply_policy_excluded_resolutions (masters : gmap str str) (resolutions : list (str * RecordResolution)) (deleted : Z) : M Z :=
  match resolutions with
  | [] => mret deleted
  | (state_id, resolution) :: resolutions =>
      cancelled ← get is_cancelled;
      if cancelled : bool then mret deleted
      else
        match resolution with
        | Deleted deleted_at master_family =>
            resolved ← resolve_deleted masters state_id deleted_at master_family;
            apply_policy_excluded_resolutions masters resolutions (saturating_add USIZE_MAX deleted resolved)
        | _ => apply_policy_excluded_resolutions masters resolutions deleted
        end
  end.

Definition revalidate_policy_excluded_assets (passes : list SyncPass) : M unit :=
  if negb has_db then mret tt
  else
    state_ids ← on_db (pr_get_policy_excluded_ids_for_revalidation library);
    cancelled ← get is_cancelled;
    match passes with
    | pass :: _ =>
        if bool_decide (state_ids = []) || cancelled then mret tt
        else
          plan ← build_provider_lookup_plan state_ids;
          batch ← run (resolve_records pass (lp_requests plan));
          _ ← apply_policy_excluded_resolutions (lp_master_by_state_id plan) (rb_results batch) 0;
          mret tt
    | [] => mret tt
    end.

(** ** The answers *)

(** The plan and the masters that are live without a known asset. *)
Fixpoint apply_answers (configs : list DownloadConfig) (evidence : Evidence) (masters : gmap str str)
    (resolutions : list (str * RecordResolution)) (legacy : gset str) (p : PendingRetryPlanning) :
    M (gset str * PendingRetryPlanning) :=
  match resolutions with
  | [] => mret (legacy, p)
  | (state_id, resolution) :: resolutions =>
      cancelled ← get is_cancelled;
      if bool_decide (pl_pending p = []) || cancelled then mret (legacy, p)
      else
        '(legacy, p) ← match resolution with
          | Present asset => p ← plan_resolved_asset configs evidence asset state_id p; mret (legacy, p)
          | MasterPresent => mret ({[state_id]} ∪ legacy, p)
          | Deleted deleted_at master_family => _ ← resolve_deleted masters state_id deleted_at master_family; mret (legacy, p)
          | AssetPresent _ | Unknown =>
              _ ← set_verification_for_state_id state_id StateTypes.Unknown
                    (lit "provider lookup omitted or could not parse the requested record") p;
              mret (legacy, p)
          | TransientFailure error =>
              _ ← set_verification_for_state_id state_id StateTypes.TransientFailure error p; mret (legacy, p)
          end;
        apply_answers configs evidence masters resolutions legacy p
  end.

Definition adopt_legacy_candidate (configs : list DownloadConfig) (evidence : Evidence) (owner : option str) (state_id : str)
    (candidates : list PhotoAsset) (p : PendingRetryPlanning) : M PendingRetryPlanning :=
  let unknown reason := _ ← set_verification_for_state_id state_id StateTypes.Unknown (lit reason) p; mret p in
  match select_legacy_candidate candidates (targets_of state_id p) evidence owner with
  | Selected asset =>
      claimed ← match owner with
                | Some _ => mret true
                | None => on_db (db_claim_legacy_master_state_owner library (record_name asset) (asset_record_name asset))
                end;
      if claimed : bool then
        _ ← on_db (so_upsert_asset_master_mapping library (asset_record_name asset) (record_name asset));
        plan_resolved_asset configs evidence (set_state_record_name state_id asset) state_id p
      else unknown "a different provider asset claimed the legacy master state"
  | NoCandidate => unknown "provider confirmed the master exists but no current CPLAsset pair was found"
  | EvidenceMismatch _ => unknown "no current provider asset matched the pending version, size, and checksum"
  | Ambiguous _ => unknown "multiple provider asset records matched the legacy master"
  end.

Fixpoint apply_legacy (configs : list DownloadConfig) (evidence : Evidence) (owners : gmap str str) (hydrated : list PhotoAsset)
    (state_ids : list str) (p : PendingRetryPlanning) : M PendingRetryPlanning :=
  match state_ids with
  | [] => mret p
  | state_id :: state_ids =>
      cancelled ← get is_cancelled;
      if cancelled : bool then mret p
      else
        p ← adopt_legacy_candidate configs evidence (owners !! state_id) state_id
              (List.filter (λ a, str_eqb (record_name a) state_id) hydrated) p;
        apply_legacy configs evidence owners hydrated state_ids p
  end.

Definition hydrate_legacy (configs : list DownloadConfig) (evidence : Evidence) (owners : gmap str str) (passes : list SyncPass)
    (legacy : gset str) (p : PendingRetryPlanning) : M PendingRetryPlanning :=
  cancelled ← get is_cancelled;
  if bool_decide (legacy = ∅) || cancelled then mret p
  else
    match passes with
    | [] => apply_legacy configs evidence owners [] (name_order legacy) p
    | pass :: _ =>
        hydrated ← run (hydrate_matching_master_assets_from_changes pass legacy);
        match hydrated with
        | Ok assets => apply_legacy configs evidence owners assets (name_order legacy) p
        | Err error =>
            _ ← for_all (name_order legacy) (λ state_id,
                  set_verification_for_state_id state_id StateTypes.TransientFailure (to_string error) p);
            mret p
        end
    end.

(** ** The plan *)

Definition of_library (r : AssetRecord) : bool := str_eqb (ar_library r) library.
Definition targets_of_records (records : list AssetRecord) : list PendingRetryTarget :=
  target_order (remove_dups (target_of_record <$> List.filter of_library records)).

Definition build_pending_retry_download_tasks (passes : list SyncPass) : M PendingRetryPlan :=
  if negb has_db then mret PendingRetryPlan_default
  else
    _ ← revalidate_policy_excluded_assets passes;
    pending ← on_db pr_get_pending;
    let targets := targets_of_records pending in
    if bool_decide (targets = []) then mret PendingRetryPlan_default
    else
      let evidence := rev ((λ r, (target_of_record r, evidence_of_record r)) <$> List.filter of_library pending) in
      owners ← on_db pr_get_legacy_master_state_owners;
      let owners : gmap str str :=
        foldl (λ m o, if str_eqb o.1.1 library then <[o.1.2 := o.2]> m else m) ∅ owners in
      _ ← on_db pr_backfill_asset_master_mappings_from_album_memberships;
      configs ← attempt id (build_pass_configs_resolving_deferred_excludes rc collect_pass_asset_ids passes);
      plan ← build_provider_lookup_plan (ar_id <$> List.filter of_library pending);
      _ ← verify_targets (List.filter (λ t, negb (existsb (λ r, str_eqb (rl_state_id r) (pt_asset_id t)) (lp_requests plan))) targets)
            StateTypes.Unknown (lit "stable provider asset/master mapping is unavailable");
      resolutions ← match passes with
                    | pass :: _ => batch ← run (resolve_records pass (lp_requests plan)); mret (rb_results batch)
                    | [] => mret []
                    end;
      '(legacy, p) ← apply_answers configs evidence (lp_master_by_state_id plan) resolutions ∅
          {| pl_pending := targets; pl_planner := TaskPlanner_new; pl_tasks := []; pl_sources := [] |};
      p ← hydrate_legacy configs evidence owners passes legacy p;
      pending ← on_db pr_get_pending;
      let still_pending := target_of_record <$> List.filter of_library pending in
      mret {| rp_tasks := pl_tasks p; rp_retry_sources := pl_sources p; rp_pass_configs := configs;
              rp_unmatched_targets := List.filter (λ t, in_targets t still_pending) (pl_pending p); rp_requested := zlen targets |}.
End PendingRetry.
