(* ===== verification/PendingRetrySpec.v ===== *)
(** * What the pending retries promise

    No pending row is forgotten: it becomes one task, is found on disk, is
    excluded by the policy, stays pending, or is pending no more. *)
From S2P Require Import Prelude RustStr Paths Types StateTypes StateDb StateDbSpec StateReads Filter Stats Planner Finalize FinalizeSpec Collision Context Albums Source SourceDb Hydrate OnDisk UrlRefresh Incremental Producer ProducerSpec PassRun Outcome PassRunSpec Call PendingRetry.

(** ** Adoption *)

Section Adoption.
Context `{FilterEnv, StateEnv} {St : Type} `{FileHashes St, DownloadStateStore St, DownloadFinalizationStore St}.

(** A row of the asset was marked downloaded. *)
Definition marked (asset_id : str) (version : VersionSizeKey) : Prop :=
  ∃ w (s s' : St), db_mark_downloaded_with_capture_repair w s = (s', Ok tt) ∧ pw_asset_id w = asset_id ∧ pw_version_size w = version.

Lemma mark_existing_marks lib asset version existing b (s s' : St) p :
  mark_pending_downloaded_from_existing_path lib asset version existing b s = (s', Some (Adopted p)) → marked (state_id asset) version.
Proof.
  unfold mark_pending_downloaded_from_existing_path. destruct (so_compute_sha256 _ s) as [s1 [sum|]]; [|done].
  destruct (db_mark_downloaded_with_capture_repair _ s1) as [s2 [[]|]] eqn:E; [|done]. intros _. by eexists _, _, _.
Qed.
Lemma adopt_task_marks now b asset task recorded t (s : St) t' s' p :
  adopt_pending_task_path now b asset task recorded t s = (t', s', Some (Adopted p)) → marked (state_id asset) (dt_version_size task).
Proof.
  unfold adopt_pending_task_path. destruct (existing_path_with_size _ _) as [t1 [[existing size]|]]; [|done].
  destruct (pending_file_size_allows_adoption _ _ _ _ s) as [s1 []]; [|done].
  destruct (upsert_seen_for_task _ _ _ s1) as [s2 [|]]; [|done].
  destruct (mark_pending_downloaded_from_existing_path _ _ _ _ _ s2) as [s3 r] eqn:E. intros [= _ _ ->]. by eapply mark_existing_marks.
Qed.
Lemma adopt_derived_marks now b lib asset d q recorded t (s : St) t' s' p :
  adopt_pending_derived_path_at now b lib asset d q recorded t s = (t', s', Some (Adopted p)) → marked (state_id asset) (dp_version_size d).
Proof.
  unfold adopt_pending_derived_path_at. destruct (existing_path_with_size _ _) as [t1 [[existing size]|]]; [|done].
  destruct (pending_file_size_allows_adoption _ _ _ _ s) as [s1 []]; [|done].
  destruct (db_upsert_seen _ s1) as [s2 [|]]; [|done].
  destruct (mark_pending_downloaded_from_existing_path _ _ _ _ _ s2) as [s3 r] eqn:E. intros [= _ _ ->]. by eapply mark_existing_marks.
Qed.

Lemma adopt_first_task_marks now b asset recorded v tasks : Forall (λ task, dt_version_size task = v) tasks → ∀ t (s : St) t' s' p,
  adopt_first_task now b asset recorded tasks t s = (t', s', Some (Adopted p)) → marked (state_id asset) v.
Proof.
  induction 1 as [|task tasks Hv _ IH]; intros t s t' s' p; cbn; [done|].
  destruct (adopt_pending_task_path _ _ _ _ _ _ s) as [[t1 s1] [[]|]] eqn:E; [|done|apply IH].
  intros _. apply adopt_task_marks in E. by rewrite Hv in E.
Qed.
Lemma adopt_first_derived_marks now b lib asset recorded at_ v derived : Forall (λ d, dp_version_size d = v) derived → ∀ t (s : St) t' s' p,
  adopt_first_derived now b lib asset recorded at_ derived t s = (t', s', Some (Adopted p)) → marked (state_id asset) v.
Proof.
  induction 1 as [|d derived Hv _ IH]; intros t s t' s' p; cbn; [done|].
  destruct (adopt_pending_derived_path_at _ _ _ _ _ _ _ _ s) as [[t1 s1] [[]|]] eqn:E; [|done|apply IH].
  intros _. apply adopt_derived_marks in E. by rewrite Hv in E.
Qed.

Lemma retry_adoption_marks now b config asset planned e t (s : St) t' s' :
  adopt_pending_on_disk_for_retry now b config asset planned e t s = (t', s', RetryAdopted) → marked (state_id asset) (pe_version_size e).
Proof.
  unfold adopt_pending_on_disk_for_retry.
  assert (Ht : ∀ f : DownloadTask → DownloadTask, (∀ x, dt_version_size (f x) = dt_version_size x) →
    Forall (λ task, dt_version_size task = pe_version_size e) (f <$> List.filter (task_has_evidence e) planned)).
  { intros f Hf. apply Forall_fmap, Forall_forall. intros x Hx. cbn. rewrite Hf. apply list_elem_of_In, filter_In in Hx as [_ Hx].
    unfold task_has_evidence in Hx. apply andb_prop in Hx as [[Hx _]%andb_prop _]. by apply bool_decide_eq_true in Hx. }
  assert (Hd : Forall (λ d, dp_version_size d = pe_version_size e) (List.filter (derived_has_evidence e) (derive_expected_paths asset config))).
  { apply Forall_forall. intros x Hx. apply list_elem_of_In, filter_In in Hx as [_ Hx].
    unfold derived_has_evidence in Hx. apply andb_prop in Hx as [[[Hx _]%andb_prop _]%andb_prop _]. by apply bool_decide_eq_true in Hx. }
  assert (Hsearch : ∀ recorded at_ tasks t s, Forall (λ task, dt_version_size task = pe_version_size e) tasks →
    match adopt_first_task now b asset recorded tasks t s with
    | (t, s, None) => let '(t, s, r) := adopt_first_derived now b (effective_asset_library asset config) asset recorded at_
                        (List.filter (derived_has_evidence e) (derive_expected_paths asset config)) t s in
                      (t, s, match r with Some a => of_adoption a | None => RetryNotFound end)
    | (t, s, r) => (t, s, match r with Some a => of_adoption a | None => RetryNotFound end)
    end = (t', s', RetryAdopted) → marked (state_id asset) (pe_version_size e)).
  { intros recorded at_ tasks t0 s0 Hf. destruct (adopt_first_task _ _ _ _ _ _ s0) as [[t1 s1] [[p|p]|]] eqn:E; [|done|].
    - intros _. by eapply adopt_first_task_marks in E.
    - destruct (adopt_first_derived _ _ _ _ _ _ _ _ s1) as [[t2 s2] [[p|p]|]] eqn:E2; [|done..].
      intros _. by eapply adopt_first_derived_marks in E2. }
  destruct (pe_local_path e) as [|recorded|]; [| |done].
  - apply Hsearch. specialize (Ht (λ x, x) (λ _, eq_refl)). by rewrite list_fmap_id in Ht.
  - destruct (match file_name (rf_path recorded) with Some _ => _ | None => _ end); [|done]. apply Hsearch. by apply Ht.
Qed.
End Adoption.

Section Pending.
Context `{FilterEnv, StateEnv, IndexOrder} {St AnyError : Type}.
Context `{SourceStore St, LegacyOwnerStore St, DownloadStateStore St, DownloadFinalizationStore St, FileHashes St, PendingRetryStore St}.
Context (rc : RunConfig) (fuel : nat) (is_cancelled : St → bool) (now : St → Z).
Context (mark_capture_repair repair_truncated : bool).
Context (of_state : StateError → AnyError) (to_string : AnyError → str).
Context (resolve_records : SyncPass → list RecordLookupRequest → St → St * RecordResolutionBatch).
Context (hydrate_matching_master_assets_from_changes : SyncPass → gset str → St → St * result AnyError (list PhotoAsset)).
Context (collect_pass_asset_ids : SyncPass → St → St * result AnyError (gset str)).
Context (symlink_metadata : path → St → St * result AnyError bool).
Context (fingerprint_regular_file : path → St → St * result AnyError ExistingFileFingerprint).
Context (target_order : list PendingRetryTarget → list PendingRetryTarget) (name_order : gset str → list str).

(** A hash set is walked once; a resolved record is the asset asked for. *)
Context (target_order_all : ∀ l, target_order l ≡ₚ l).
Context (resolve_records_identify : ∀ pass requests s s' batch state_id asset, resolve_records pass requests s = (s', batch) →
           (state_id, Present asset) ∈ rb_results batch → Types.state_id asset = state_id).

Abbreviation M := (Call St AnyError).
Abbreviation library := (library (rc_config rc)).
Abbreviation planning f := (f fuel now mark_capture_repair repair_truncated of_state symlink_metadata fingerprint_regular_file).
Abbreviation answering f := (f rc fuel is_cancelled now mark_capture_repair repair_truncated of_state symlink_metadata fingerprint_regular_file).

(** Where a version that is not pending any more has gone. *)
Definition excluded (t : PendingRetryTarget) : Prop := ∃ s s' : St, pr_mark_policy_excluded (target_key t) s = (s', Ok true).
Definition adopted (t : PendingRetryTarget) : Prop := marked (St := St) (pt_asset_id t) (pt_version_size t).

Record tracked (all : list PendingRetryTarget) (p : PendingRetryPlanning) : Prop := {
  tk_all t : t ∈ all → t ∈ pl_pending p ∨ t ∈ target_of_task <$> pl_tasks p ∨ adopted t ∨ excluded t;
  tk_once : NoDup (target_of_task <$> pl_tasks p);
  tk_tasks t : t ∈ target_of_task <$> pl_tasks p → t ∈ all ∧ t ∉ pl_pending p;
  tk_pending t : t ∈ pl_pending p → t ∈ all;
}.

Lemma tracked_planner all t p : tracked all p → tracked all (set_planner t p).
Proof. by intros []. Qed.
Lemma tracked_remove all t p : tracked all p → adopted t ∨ excluded t → tracked all (set_pending (remove_target t (pl_pending p)) p).
Proof.
  intros [Ha Ho Ht Hp] Hd. split; cbn; [|done| |].
  - intros t' Ht'. destruct (decide (t' = t)) as [->|Hne]; [by right; right|].
    destruct (Ha t' Ht') as [?|?]; [left|by right]. unfold remove_target. by apply list_elem_of_filter.
  - intros t' Ht'. destruct (Ht t' Ht') as [? Hn]. split; [done|]. unfold remove_target. by intros [_ ?]%list_elem_of_filter.
  - intros t' [_ Ht']%list_elem_of_filter. by apply Hp.
Qed.

(** Each task taken serves one pending target, which is pending no more. *)
Lemma take_matching_tracked all tasks : ∀ p pending out,
  take_matching_pending_retry_tasks tasks (pl_pending p) (pl_tasks p) = (pending, out) → tracked all p → ∀ sources,
  tracked all {| pl_pending := pending; pl_planner := pl_planner p; pl_tasks := out; pl_sources := sources |}.
Proof.
  assert (Hw : ∀ p sources, tracked all p →
    tracked all {| pl_pending := pl_pending p; pl_planner := pl_planner p; pl_tasks := pl_tasks p; pl_sources := sources |}) by (by intros ? ? []).
  induction tasks as [|task tasks IH]; intros p pending out; cbn [take_matching_pending_retry_tasks].
  { intros [= <- <-] Hp sources. by apply Hw. }
  unfold in_targets. case_bool_decide as Hin; [|apply IH]. intros He Hp sources.
  set (p1 := {| pl_pending := remove_target (target_of_task task) (pl_pending p); pl_planner := pl_planner p;
                pl_tasks := pl_tasks p ++ [task]; pl_sources := pl_sources p |}).
  assert (Hp1 : tracked all p1).
  { destruct Hp as [Ha Ho Ht Hpe]. subst p1. split; cbn; rewrite ?fmap_app; cbn.
    - intros t' Ht'. destruct (decide (t' = target_of_task task)) as [->|Hne]; [right; left; set_solver|].
      destruct (Ha t' Ht') as [?|[?|?]]; [left; by apply list_elem_of_filter|right; left; set_solver|by right; right].
    - apply NoDup_app. split_and!; [done| |apply NoDup_singleton]. intros t' Ht' ->%list_elem_of_singleton. by destruct (Ht _ Ht').
    - intros t' [Ht'|Ht']%elem_of_app.
      + destruct (Ht t' Ht') as [? Hn]. split; [done|]. by intros [_ ?]%list_elem_of_filter.
      + apply list_elem_of_singleton in Ht' as ->. split; [by apply Hpe|]. by intros [? _]%list_elem_of_filter.
    - intros t' [_ Ht']%list_elem_of_filter. by apply Hpe. }
  destruct (remove_target (target_of_task task) (pl_pending p)) as [|t l] eqn:E.
  - injection He as <- <-. by apply (Hw p1).
  - exact (IH p1 _ _ He Hp1 sources).
Qed.

(** ** One asset *)

Lemma adopt_targets_tracked all evidence config asset planned targets : (∀ t, t ∈ targets → pt_asset_id t = Types.state_id asset) →
  ∀ wf p (s s' : St) p' wf', adopt_targets now mark_capture_repair of_state evidence config asset planned targets wf p s = Some (s', Ok (p', wf')) →
  tracked all p → tracked all p'.
Proof.
  induction targets as [|t targets IH]; intros Ht wf p s s' p' wf'; cbn [adopt_targets]; intros Hr Hp; [by invert_call; simplify_eq|].
  destruct (evidence_for evidence t) as [e|]; [|by eapply IH; [set_solver|exact Hr|]].
  apply bind_Some in Hr as (s1 & [planner adoption] & Ha & Hr). apply run_Some in Ha.
  destruct (adopt_pending_on_disk_for_retry _ _ _ _ _ _ _ s) as [[planner' s1'] adoption'] eqn:E. injection Ha as -> -> ->.
  destruct adoption.
  - eapply IH; [set_solver|exact Hr|by apply tracked_planner].
  - apply bind_Some in Hr as (s2 & [] & _ & Hr). eapply IH; [set_solver|exact Hr|]. apply (tracked_remove _ t); [by apply tracked_planner|].
    left. apply retry_adoption_marks in E. cbn in E. unfold adopted. rewrite (Ht t) by set_solver. exact E.
  - eapply IH; [set_solver|exact Hr|by apply tracked_planner].
Qed.

Lemma queue_tasks_tracked all asset i tasks p (s s' : St) p' : queue_tasks of_state asset i tasks p s = Some (s', Ok p') → tracked all p → tracked all p'.
Proof.
  unfold queue_tasks. destruct (take_matching_pending_retry_tasks _ _ _) as [pending out] eqn:E. intros Hr Hp.
  apply bind_Some in Hr as (s1 & [] & _ & Hr). invert_call. by eapply take_matching_tracked in E.
Qed.

Lemma targets_of_ids state_id p t : t ∈ targets_of state_id p → pt_asset_id t = state_id ∧ t ∈ pl_pending p.
Proof.
  unfold targets_of. intros [Hin Ht]%list_elem_of_In%filter_In. unfold of_state_id in Ht. apply str_eqb_eq in Ht. split; [done|by apply list_elem_of_In].
Qed.

Lemma plan_in_pass_tracked all evidence asset state_id i config p u (s s' : St) p' u' : Types.state_id asset = state_id →
  planning plan_in_pass evidence asset state_id i config p u s = Some (s', Ok (p', u')) → tracked all p → tracked all p'.
Proof.
  intros Hid. unfold plan_in_pass. intros Hr Hp. apply bind_Some in Hr as (s1 & [planner plan] & _ & Hr).
  apply bind_Some in Hr as (s2 & [p1 wf] & Ha & Hr). apply (adopt_targets_tracked all) in Ha; [| |by apply tracked_planner].
  2: { intros t [Ht _]%targets_of_ids. congruence. }
  destruct (atp_filter_reason plan); [by invert_call; simplify_eq|].
  apply bind_Some in Hr as (s3 & [planner2 tasks] & _ & Hr). apply bind_Some in Hr as (s4 & p2 & Hq & Hr). invert_call. simplify_eq.
  eapply queue_tasks_tracked; [exact Hq|by apply tracked_planner].
Qed.
Lemma plan_in_passes_tracked all evidence asset state_id configs : Types.state_id asset = state_id → ∀ p u (s s' : St) p' u',
  planning plan_in_passes evidence asset state_id configs p u s = Some (s', Ok (p', u')) → tracked all p → tracked all p'.
Proof.
  intros Hid. induction configs as [|[i config] configs IH]; intros p u s s' p' u'; cbn [plan_in_passes]; intros Hr Hp; [by invert_call|].
  apply bind_Some in Hr as (s1 & [p1 u1] & Ha & Hr). eapply IH; [exact Hr|]. by eapply plan_in_pass_tracked.
Qed.
Lemma exclude_targets_tracked all targets : ∀ p (s s' : St) p', exclude_targets of_state targets p s = Some (s', Ok p') → tracked all p → tracked all p'.
Proof.
  induction targets as [|t targets IH]; intros p s s' p'; cbn [exclude_targets]; intros Hr Hp; [by invert_call|].
  apply bind_Some in Hr as (s1 & b & Ha & Hr). eapply IH; [exact Hr|]. destruct b; [|done]. apply tracked_remove; [done|]. right.
  unfold on_db in Ha. apply attempt_Some in Ha. by eexists _, _.
Qed.
Lemma plan_resolved_tracked all configs evidence asset state_id p (s s' : St) p' : Types.state_id asset = state_id →
  planning plan_resolved_asset configs evidence asset state_id p s = Some (s', Ok p') → tracked all p → tracked all p'.
Proof.
  intros Hid. unfold plan_resolved_asset. intros Hr Hp. apply bind_Some in Hr as (s1 & [p1 u] & Ha & Hr).
  apply bind_Some in Hr as (s2 & p2 & Hx & Hr). apply bind_Some in Hr as (s3 & [] & _ & Hr). apply bind_Some in Hr as (s4 & [] & _ & Hr).
  invert_call. eapply exclude_targets_tracked; [exact Hx|]. by eapply plan_in_passes_tracked.
Qed.

(** ** The answers *)

Lemma apply_answers_tracked all configs evidence masters resolutions :
  (∀ state_id asset, (state_id, Present asset) ∈ resolutions → Types.state_id asset = state_id) → ∀ legacy p (s s' : St) legacy' p',
  answering apply_answers configs evidence masters resolutions legacy p s = Some (s', Ok (legacy', p')) → tracked all p → tracked all p'.
Proof.
  induction resolutions as [|[state_id resolution] resolutions IH]; intros Hid legacy p s s' legacy' p'; cbn [apply_answers]; intros Hr Hp;
    [by invert_call|].
  apply bind_Some in Hr as (s1 & cancelled & _ & Hr). destruct (_ || _); [by invert_call|].
  apply bind_Some in Hr as (s2 & [legacy1 p1] & Ha & Hr). eapply IH; [set_solver|exact Hr|].
  destruct resolution as [asset| | | | |].
  1: { apply bind_Some in Ha as (s3 & p2 & Ha & Hx). invert_call. eapply plan_resolved_tracked; [|exact Ha|done]. apply Hid. set_solver. }
  all: repeat (apply bind_Some in Ha as (? & ? & _ & Ha)); by invert_call.
Qed.

Lemma adopt_legacy_tracked all configs evidence owner state_id candidates p (s s' : St) p' :
  adopt_legacy_candidate rc fuel now mark_capture_repair repair_truncated of_state symlink_metadata fingerprint_regular_file
    configs evidence owner state_id candidates p s = Some (s', Ok p') → tracked all p → tracked all p'.
Proof.
  unfold adopt_legacy_candidate. intros Hr Hp. destruct (select_legacy_candidate _ _ _ _) as [asset| | |].
  2-4: apply bind_Some in Hr as (s1 & [] & _ & Hr); by invert_call.
  apply bind_Some in Hr as (s1 & [] & _ & Hr); apply bind_Some in Hr as (s2 & [] & _ & Hr); [|by invert_call].
  by eapply plan_resolved_tracked; [|exact Hr|].
Qed.
Lemma apply_legacy_tracked all configs evidence owners hydrated state_ids : ∀ p (s s' : St) p',
  answering apply_legacy configs evidence owners hydrated state_ids p s = Some (s', Ok p') → tracked all p → tracked all p'.
Proof.
  induction state_ids as [|state_id state_ids IH]; intros p s s' p'; cbn [apply_legacy]; intros Hr Hp; [by invert_call|].
  apply bind_Some in Hr as (s1 & [] & _ & Hr); [by invert_call|].
  apply bind_Some in Hr as (s2 & p1 & Ha & Hr). eapply IH; [exact Hr|]. by eapply adopt_legacy_tracked.
Qed.

Abbreviation plan_retries := (build_pending_retry_download_tasks rc fuel is_cancelled now mark_capture_repair repair_truncated of_state to_string
  resolve_records hydrate_matching_master_assets_from_changes collect_pass_asset_ids symlink_metadata fingerprint_regular_file
  target_order name_order).

Lemma hydrate_legacy_tracked all configs evidence owners passes legacy p (s s' : St) p' :
  hydrate_legacy rc fuel is_cancelled now mark_capture_repair repair_truncated of_state to_string hydrate_matching_master_assets_from_changes
    symlink_metadata fingerprint_regular_file name_order configs evidence owners passes legacy p s = Some (s', Ok p') →
  tracked all p → tracked all p'.
Proof.
  unfold hydrate_legacy. intros Hr Hp. apply bind_Some in Hr as (s1 & cancelled & _ & Hr). destruct (_ || _); [by invert_call|].
  destruct passes as [|pass passes]; [by eapply apply_legacy_tracked|].
  apply bind_Some in Hr as (s2 & [assets|error] & _ & Hr); [by eapply apply_legacy_tracked|].
  apply bind_Some in Hr as (s3 & [] & _ & Hr). by invert_call.
Qed.

(** C14: No pending row is lost by the targeted retry.  Every version that is
    pending when the plan is made becomes a task, is reported as unmatched, was
    found on disk and marked downloaded, was excluded by the policy in the
    store, or is not pending any more when the plan is done; no version gets two
    tasks, and a task serves a version that was pending and is not also
    reported. *)
Theorem pending_accounted passes s s' plan : rc_has_db rc = true → plan_retries passes s = Some (s', Ok plan) →
  ∃ s1 s2 pending, pr_get_pending s1 = (s2, Ok pending) ∧
    let wanted := target_of_record <$> List.filter (of_library rc) pending in
    (∀ t, t ∈ wanted → t ∈ target_of_task <$> rp_tasks plan ∨ t ∈ rp_unmatched_targets plan ∨ adopted t ∨ excluded t ∨
       ∃ s3 later, pr_get_pending s3 = (s', Ok later) ∧ t ∉ target_of_record <$> List.filter (of_library rc) later) ∧
    NoDup (target_of_task <$> rp_tasks plan) ∧
    ∀ t, t ∈ target_of_task <$> rp_tasks plan → t ∈ wanted ∧ t ∉ rp_unmatched_targets plan.
Proof.
  intros Hdb. unfold build_pending_retry_download_tasks. rewrite Hdb. cbn [negb]. intros Hr.
  apply bind_Some in Hr as (s1 & [] & _ & Hr). apply bind_Some in Hr as (s2 & pending & Hp & Hr). unfold on_db in Hp. apply attempt_Some in Hp.
  exists s1, s2, pending. split; [done|]. cbn zeta. set (targets := targets_of_records _ _ _) in Hr.
  assert (Ht : ∀ t, t ∈ targets ↔ t ∈ target_of_record <$> List.filter (of_library rc) pending).
  { intros t. subst targets. unfold targets_of_records. by rewrite target_order_all, elem_of_remove_dups. }
  case_bool_decide as Hnil.
  { invert_call. cbn. split_and!; [|constructor|set_solver]. intros t Hin%Ht. rewrite Hnil in Hin. set_solver. }
  apply bind_Some in Hr as (s3 & owners & _ & Hr). apply bind_Some in Hr as (s4 & n & _ & Hr).
  apply bind_Some in Hr as (s5 & configs & _ & Hr). apply bind_Some in Hr as (s6 & lookups & _ & Hr).
  apply bind_Some in Hr as (s7 & [] & _ & Hr). apply bind_Some in Hr as (s8 & resolutions & Hres & Hr).
  apply bind_Some in Hr as (s9 & [legacy p] & Hans & Hr). apply bind_Some in Hr as (s10 & p' & Hleg & Hr).
  apply bind_Some in Hr as (s11 & later & Hlater & Hr). unfold on_db in Hlater. apply attempt_Some in Hlater. invert_call.
  assert (Hid : ∀ state_id asset, (state_id, Present asset) ∈ resolutions → Types.state_id asset = state_id).
  { destruct passes as [|pass passes]; [invert_call; set_solver|]. apply bind_Some in Hres as (s12 & batch & Hb & Hres). apply run_Some in Hb.
    invert_call. intros state_id asset. by eapply resolve_records_identify. }
  apply (apply_answers_tracked targets) in Hans; [|done|].
  2: { split; cbn; [by left|constructor|set_solver|done]. }
  eapply hydrate_legacy_tracked in Hleg as [Ha Ho Htk Hpe]; [|exact Hans]. cbn [rp_tasks rp_unmatched_targets].
  split_and!; [|done|].
  - intros t Hin%Ht. destruct (Ha t Hin) as [Hpend|[?|[?|?]]]; [|by auto..].
    destruct (in_targets t (target_of_record <$> List.filter (of_library rc) later)) eqn:El.
    + right; left. apply list_elem_of_In, filter_In. split; [by apply list_elem_of_In|done].
    + do 4 right. exists s10, later. split; [done|]. by apply bool_decide_eq_false in El.
  - intros t Hin. destruct (Htk t Hin) as [? Hn]. split; [by apply Ht|]. by intros [?%list_elem_of_In _]%list_elem_of_In%filter_In.
Qed.
End Pending.

(** ** The interface on the SQLite store *)

(** The masters the memberships of an asset name. *)
Definition named_masters (a : AlbumDb) : gmap key2 (gset str) :=
  map_fold (λ (k : key3) m acc,
    match mb_master_record_name m with
    | Some ((_ :: _) as master) => if str_eqb k.1.2 [] then acc else <[k.1 := {[master]} ∪ default ∅ (acc !! k.1)]> acc
    | _ => acc
    end) ∅ (asset_album_memberships a).
Definition backfill_asset_master_mappings_from_album_memberships (d : Db) (a : AlbumDb) : Db * Z :=
  let found : gmap key2 str := omap (λ masters : gset str, match elements masters with [master] => Some master | _ => None end) (named_masters a) in
  let missing := filter (λ km, asset_master_mappings d !! km.1 = None) found in
  (set_mappings d (asset_master_mappings d ∪ missing), Z.of_nat (size missing)).

#[export] Instance SourceDb_pending `{StateEnv} : PendingRetryStore SourceDb := {
  pr_get_pending := scall (on_rows (λ d, Ok (d, get_pending d)));
  pr_get_legacy_master_state_owners := scall (on_rows (λ d, Ok (d, get_legacy_master_state_owners d)));
  pr_backfill_asset_master_mappings_from_album_memberships :=
    scall (λ d a, let '(d, n) := backfill_asset_master_mappings_from_album_memberships d a in Ok (d, a, n));
  pr_get_policy_excluded_ids_for_revalidation l := scall (on_rows (λ d, Ok (d, get_policy_excluded_ids_for_revalidation l d)));
  pr_get_asset_record_names_for_master l m := scall (on_rows (λ d, Ok (d, get_asset_record_names_for_master l m d)));
  pr_set_asset_verification k state reason s :=
    scall (on_rows (λ d, no_value (set_asset_verification (sd_now s) k.1.1 k.1.2 k.2 state reason d))) s;
  pr_clear_asset_verification k := scall (on_rows (λ d, Ok (clear_asset_verification k.1.1 k.1.2 k.2 d, tt)));
  pr_mark_policy_excluded k := scall (on_rows (λ d, Ok (mark_policy_excluded k.1.1 k.1.2 k.2 d)));
}.

(** ** Runs *)

Module PendingRuns.
Import StateDbSpec.Samples ProducerRuns PassRuns.

(** Three pending versions; the provider knows the first asset, the second is
    deleted and the third one is not found in the answer. *)
Definition pending_ops : list Op :=
  [OUpsertSeen 0 (record "REC1" "c1" "m1"); OUpsertSeen 0 (record "GONE" "c2" "m2"); OUpsertSeen 0 (record "LOST" "c3" "m3")].
Definition resolution_of (state_id : str) : RecordResolution :=
  if str_eqb state_id (lit "REC1") then Present sample_asset
  else if str_eqb state_id (lit "GONE") then Deleted None false else Hydrate.Unknown.
Definition answer (r : RecordLookupRequest) : str * RecordResolution := (rl_state_id r, resolution_of (rl_state_id r)).
Definition lookup (p : SyncPass) (requests : list RecordLookupRequest) (s : SourceDb) : SourceDb * RecordResolutionBatch :=
  (s, {| rb_results := answer <$> requests; rb_complete := false |}).
Definition start : SourceDb := {| sd_db := StateDbSpec.run pending_ops Db_empty; sd_albums := AlbumDb_empty; sd_now := 5; sd_faults := [] |}.
Definition planned : option (SourceDb * result unit PendingRetryPlan) :=
  build_pending_retry_download_tasks rc 9 (λ _, false) sd_now false false (λ _, tt) (λ _, lit "error") lookup
    (λ _ _ s, (s, Ok [])) (λ _ s, (s, Ok ∅)) (λ _ s, (s, Ok false)) (λ _ s, (s, Err tt)) (λ l, l) elements [library_pass] start.
Definition accounted (o : option (SourceDb * result unit PendingRetryPlan)) :=
  '(s, r) ← o;
  match r with
  | Ok plan => Some (target_of_task <$> rp_tasks plan, pt_asset_id <$> rp_unmatched_targets plan, rp_requested plan,
                     ar_id <$> get_pending (sd_db s))
  | Err _ => None
  end.
Definition first_target : PendingRetryTarget :=
  {| pt_library := lit "PrimarySync"; pt_asset_id := lit "REC1"; pt_version_size := VOriginal |}.
Example one_task_one_unmatched : accounted planned = Some ([first_target], [lit "LOST"], 3, [lit "REC1"; lit "LOST"]).
Proof. vm_compute. reflexivity. Qed.

Lemma present_is_asked state_id asset : Present asset = resolution_of state_id → Types.state_id asset = state_id.
Proof.
  unfold resolution_of. destruct (str_eqb state_id (lit "REC1")) eqn:E.
  - apply str_eqb_eq in E. intros Ha. injection Ha as ->. rewrite E. reflexivity.
  - destruct (str_eqb state_id (lit "GONE")); intros Ha; inversion Ha.
Qed.

Lemma pending_accounted_witness : ∃ s plan, planned = Some (s, Ok plan) ∧
  NoDup (target_of_task <$> rp_tasks plan) ∧ first_target ∉ rp_unmatched_targets plan.
Proof.
  assert (Ha : accounted planned = Some ([first_target], [lit "LOST"], 3, [lit "REC1"; lit "LOST"])) by (vm_compute; reflexivity).
  destruct planned as [[s [plan|e]]|] eqn:E; [|discriminate Ha..]. exists s, plan. split; [reflexivity|].
  cbn [accounted mbind option_bind] in Ha. injection Ha as Ht _ _ _.
  unfold planned in E. apply pending_accounted in E as (s1 & s2 & pending & _ & _ & Ho & Hs).
  - split; [exact Ho|]. apply Hs. rewrite Ht. apply list_elem_of_singleton. reflexivity.
  - intros l. reflexivity.
  - intros pass requests s0 s1 batch id asset [= _ <-]. cbn. intros (r & Hr & _)%list_elem_of_fmap. injection Hr as -> Hr. by eapply present_is_asked.
  - reflexivity.
Defined.
End PendingRuns.
