(* ===== verification/Asset.v ===== *)
(** * From a pair of provider records to an asset

    [src/icloud/photos/asset.rs], [metadata.rs], [enc.rs] and the lookup tables
    of [queries.rs]: the versions an asset offers, the resources that cannot be
    used, and its metadata.

    Parameters: [serde_json], base64, property lists and [url::Url]. *)
From S2P Require Import Prelude RustStr Types StateTypes Cloudkit Delta Content HeifItems.

(** The [scheme()] and the [host_str()] of a parsed URL. *)
Record Url := { u_scheme : str; u_host : option str }.

(** What the construction of an asset takes from its libraries.  An [f64] that
    is only copied is its bit pattern. *)
Class AssetEnv `{DeltaEnv} := {
  as_u64 : Value → option Z;
  as_bool : Value → option bool;
  (** [Value::Number(n)], with [n.as_i64()]. *)
  as_number : Value → option (option Z);
  as_f64_bits : Value → option Z;
  as_array : Value → option (list Value);
  (** [Value::Object] of the inserted members, and [serde_json::to_string]. *)
  object : list (str * Value) → Value;
  value_to_string : Value → option str;
  strings_to_string : list str → option str;
  (** [Record::deserialize]. *)
  record_from_value : Value → option CkRecord;
  base64_decode : str → option (list Z);
  url_parse : str → option Url;
  (** [plist::Value]: [from_reader], and what it is read as. *)
  Plist : Type;
  plist_from_reader : list Z → option Plist;
  into_array : Plist → option (list Plist);
  into_string : Plist → option str;
  into_dictionary : Plist → option (str → option Plist);
  plist_real : Plist → option Z;
  (** [Integer(i)], with [i.as_signed()]. *)
  plist_integer : Plist → option (option Z);
}.

(** [v as f64] of an [i64], rounded to the nearest, ties to even, as bits. *)
Definition i64_as_f64_bits (v : Z) : Z :=
  if v =? 0 then 0
  else
    let m := Z.abs v in
    let k := Z.log2 m in
    let mantissa :=
      if k <=? 52 then Z.shiftl m (52 - k)
      else
        let q := Z.shiftr m (k - 52) in
        let rest := m - Z.shiftl q (k - 52) in
        let half := Z.shiftl 1 (k - 53) in
        if (half <? rest) || ((half =? rest) && Z.odd q) then q + 1 else q in
    (if v <? 0 then 2 ^ 63 else 0) + (k + 1023) * 2 ^ 52 + (mantissa - 2 ^ 52).

Example bits_of_3 : i64_as_f64_bits 3 = 0x4008000000000000. Proof. reflexivity. Qed.
Example bits_of_max : i64_as_f64_bits (2 ^ 63 - 1) = 0x43E0000000000000. Proof. reflexivity. Qed.
Example bits_of_tie : i64_as_f64_bits (- (2 ^ 53 + 1)) = 0xC340000000000000. Proof. reflexivity. Qed.

(** ** Versions: [queries.rs] and [extract_versions] *)

Definition item_type_from_str (s : str) : option AssetItemType :=
  if memb s (lit <$> ["public.heic"; "public.heif"; "public.jpeg"; "public.png"; "com.adobe.raw-image"; "com.canon.cr2-raw-image";
                      "com.canon.crw-raw-image"; "com.sony.arw-raw-image"; "com.fuji.raw-image"; "com.panasonic.rw2-raw-image";
                      "com.nikon.nrw-raw-image"; "com.pentax.raw-image"; "com.nikon.raw-image"; "com.olympus.raw-image";
                      "com.canon.cr3-raw-image"; "com.olympus.or-raw-image"; "org.webmproject.webp"]%string) then Some Image
  else if str_eqb s (lit "com.apple.quicktime-movie") then Some Movie
  else None.

(** A version, the field of its resource and the field of its type. *)
Definition LookupRow : Type := AssetVersionSize * str * str.
Definition lookup_row (key : AssetVersionSize) (res type : string) : LookupRow := (key, lit res, lit type).
Definition PHOTO_VERSION_LOOKUP : list LookupRow := [
  lookup_row Original "resOriginalRes" "resOriginalFileType";
  lookup_row Alternative "resOriginalAltRes" "resOriginalAltFileType";
  lookup_row Medium "resJPEGMedRes" "resJPEGMedFileType";
  lookup_row Thumb "resJPEGThumbRes" "resJPEGThumbFileType";
  lookup_row Adjusted "resJPEGFullRes" "resJPEGFullFileType";
  lookup_row LiveAdjusted "resVidComplRes" "resVidComplFileType";
  lookup_row LiveOriginal "resOriginalVidComplRes" "resOriginalVidComplFileType";
  lookup_row LiveMedium "resVidMedRes" "resVidMedFileType";
  lookup_row LiveThumb "resVidSmallRes" "resVidSmallFileType"].
Definition VIDEO_VERSION_LOOKUP : list LookupRow := [
  lookup_row Original "resOriginalRes" "resOriginalFileType";
  lookup_row Adjusted "resVidFullRes" "resVidFullFileType";
  lookup_row Medium "resVidMedRes" "resVidMedFileType";
  lookup_row Thumb "resVidSmallRes" "resVidSmallFileType"].

(** [s.ends_with(suffix)]. *)
Definition ends_with (suffix s : str) : bool := starts_with (rev suffix) (rev s).

Definition ALLOWED_DOWNLOAD_HOST_SUFFIXES : list str :=
  lit <$> [".icloud-content.com"; ".icloud-content.com.cn"; ".cdn-apple.com"]%string.

Section Asset.
Context `{AssetEnv}.

Definition decode_filename (v : Value) : option str :=
  name ← decode_string v (lit "filenameEnc");
  if bool_decide (name = []) then None else Some name.

Definition resolve_item_type (v : Value) (filename : option str) : AssetItemType :=
  match field_value_str v (lit "itemType") ≫= item_type_from_str with
  | Some t => t
  | None =>
      match filename ≫= extension with
      | Some ext => if existsb (λ e, eq_ignore_ascii_case ext (lit e)) ["heic"; "png"; "jpg"; "jpeg"; "webp"]%string then Image else Movie
      | None => Movie
      end
  end.

Definition validate_download_url (raw : str) : result str unit :=
  if bool_decide (raw = []) then Err (lit "empty URL")
  else
    match url_parse raw with
    | None => Err (lit "malformed URL")
    | Some parsed =>
        if negb (str_eqb (u_scheme parsed) (lit "https")) then Err (lit "non-https scheme")
        else
          match u_host parsed with
          | None => Err (lit "missing host")
          | Some host =>
              if existsb (λ suffix, ends_with suffix (to_ascii_lowercase host)) ALLOWED_DOWNLOAD_HOST_SUFFIXES then Ok tt
              else Err (lit "host not in Apple CDN allowlist")
          end
    end.

Definition malformed (key : AssetVersionSize) (field : str) (reason : string) : MalformedResource :=
  {| mr_version_size := key; mr_field := field; mr_reason := lit reason |}.

(** The [value] of a resource field; a missing one counts as null. *)
Definition resource_entry (v : Value) (res_field : str) : option Value :=
  entry ← get2 v res_field (lit "value");
  if is_null entry then None else Some entry.

(** A resource that is advertised: a version, or why it cannot be used. *)
Definition read_version (v : Value) (key : AssetVersionSize) (res_field type_field : str) : result MalformedResource AssetVersion :=
  entry ← ok_or (malformed key res_field "resource value is null") (resource_entry v res_field);
  size ← ok_or (malformed key (res_field ++ lit ".size") "missing size") (get entry (lit "size") ≫= as_u64);
  url ← ok_or (malformed key (res_field ++ lit ".downloadURL") "missing downloadURL") (get entry (lit "downloadURL") ≫= as_str);
  _ ← match validate_download_url url with
      | Ok tt => Ok tt
      | Err reason => Err {| mr_version_size := key; mr_field := res_field ++ lit ".downloadURL"; mr_reason := reason |}
      end;
  checksum ← ok_or (malformed key (res_field ++ lit ".fileChecksum") "missing fileChecksum") (get entry (lit "fileChecksum") ≫= as_str);
  _ ← ensure (negb (bool_decide (checksum = []))) (malformed key (res_field ++ lit ".fileChecksum") "empty fileChecksum");
  asset_type ← match field_value_str v type_field with
               | Some ((_ :: _) as s) => Ok s
               | _ => Err (malformed key type_field "missing or empty asset type")
               end;
  mret {| av_size := size; av_url := url; av_asset_type := asset_type; av_checksum := checksum |}.

(** The record a row is read from: the asset's fields before the master's. *)
Definition fields_for (res_field : str) (master_fields asset_fields : Value) : option Value :=
  match get asset_fields res_field, get master_fields res_field with
  | Some _, _ => Some asset_fields
  | None, Some _ => Some master_fields
  | None, None => None
  end.

Fixpoint extract_rows (lookup : list LookupRow) (master_fields asset_fields : Value) :
    list (AssetVersionSize * AssetVersion) * list MalformedResource :=
  match lookup with
  | [] => ([], [])
  | (key, res_field, type_field) :: lookup =>
      let '(versions, malformed_resources) := extract_rows lookup master_fields asset_fields in
      match fields_for res_field master_fields asset_fields with
      | None => (versions, malformed_resources)
      | Some v =>
          match read_version v key res_field type_field with
          | Ok version => ((key, version) :: versions, malformed_resources)
          | Err m => (versions, m :: malformed_resources)
          end
      end
  end.
Definition lookup_table (item_type : option AssetItemType) : list LookupRow :=
  if bool_decide (item_type = Some Movie) then VIDEO_VERSION_LOOKUP else PHOTO_VERSION_LOOKUP.
Definition extract_versions (item_type : option AssetItemType) (master_fields asset_fields : Value) :
    list (AssetVersionSize * AssetVersion) * list MalformedResource :=
  extract_rows (lookup_table item_type) master_fields asset_fields.

(** ** Encoded fields: [enc.rs] *)

Definition decoded_bytes (entry : Value) : option (list Z) :=
  value ← get entry (lit "value") ≫= as_str;
  let enc_type := default (lit "ENCRYPTED_BYTES") (get entry (lit "type") ≫= as_str) in
  if str_eqb enc_type (lit "STRING") then Some (as_bytes value)
  else if str_eqb enc_type (lit "ENCRYPTED_BYTES") then base64_decode value
  else None.

Definition decode_plist (v : Value) (key : str) : option Plist :=
  entry ← get v key;
  if is_null entry then None else bytes ← decoded_bytes entry; plist_from_reader bytes.

Definition decode_keywords (v : Value) : option (list str) :=
  plist ← decode_plist v (lit "keywordsEnc");
  array ← into_array plist;
  Some (omap (M := list) into_string array).

Record Location := { loc_latitude : Z; loc_longitude : Z; loc_altitude : option Z }.

Definition plist_to_f64 (p : Plist) : option Z :=
  match plist_real p with
  | Some bits => Some bits
  | None => i ← plist_integer p; v ← i; Some (i64_as_f64_bits v)
  end.

Definition decode_location (v : Value) (key : str) : option Location :=
  plist ← decode_plist v key;
  dict ← into_dictionary plist;
  latitude ← dict (lit "lat") ≫= plist_to_f64;
  longitude ← dict (lit "lon") ≫= plist_to_f64;
  Some {| loc_latitude := latitude; loc_longitude := longitude; loc_altitude := dict (lit "alt") ≫= plist_to_f64 |}.

Definition or_else {A} (a b : option A) : option A := match a with Some _ => a | None => b end.

Definition decode_location_with_fallback (v : Value) : option Location :=
  or_else (decode_location v (lit "locationV2Enc"))
    (or_else (decode_location v (lit "locationEnc"))
       (lat ← get2 v (lit "locationLatitude") (lit "value") ≫= as_f64_bits;
        lng ← get2 v (lit "locationLongitude") (lit "value") ≫= as_f64_bits;
        Some {| loc_latitude := lat; loc_longitude := lng; loc_altitude := None |})).

(** ** Metadata: [metadata.rs] *)

Definition bool_field (v : Value) (key : str) : option bool :=
  entry ← get2 v key (lit "value");
  match as_bool entry, as_number entry with
  | Some b, _ => Some b
  | None, Some n => Some (match n with Some i => negb (i =? 0) | None => false end)
  | None, None => None
  end.
Definition f64_field (v : Value) (key : str) : option Z := get2 v key (lit "value") ≫= as_f64_bits.
(** An instant in nanoseconds. *)
Definition date_field (v : Value) (key : str) : option Z := ms ← get2 v key (lit "value") ≫= (λ v, as_f64 v ≫= f64_to_millis_datetime); Some (ms * 1000000).
Definition u64_field (v : Value) (key : str) : option Z := get2 v key (lit "value") ≫= as_u64.
Definition i64_field (v : Value) (key : str) : option Z := get2 v key (lit "value") ≫= as_i64.

Definition PROVIDER_DATA_FIELDS : list str := lit <$>
  ["remappedRef"; "recordChangeTag"; "dataClassType"; "burstFlags"; "burstFlagsExt"; "assetHDRType"; "adjustmentRenderType";
   "adjustmentType"; "adjustmentSimpleDataEnc"; "adjustedMediaMetaDataEnc"; "vidComplDurValue"; "vidComplDurScale";
   "vidComplDispValue"; "vidComplDispScale"; "vidComplVisibilityState"; "customRenderedValue"; "containerId"; "itemId";
   "position"; "isKeyAsset"; "assetSubtype"; "assetSubtypeV2"]%string.

(** The flag is a bit: 1, 2, ... *)
Definition MEDIA_SUBTYPE_MAP : list (Z * str) :=
  [(2 ^ 4, lit "portrait"); (2 ^ 3, lit "live_photo"); (2 ^ 2, lit "screenshot"); (2 ^ 1, lit "hdr"); (1, lit "panorama");
   (2 ^ 17, lit "slo_mo"); (2 ^ 18, lit "timelapse")].

Definition map_media_subtype (v : Value) : option str :=
  raw ← or_else (u64_field v (lit "assetSubtypeV2")) (u64_field v (lit "assetSubtype"));
  snd <$> findb (λ e : Z * str, negb (Z.land raw e.1 =? 0)) MEDIA_SUBTYPE_MAP.

Definition extract_raw_value (v : Value) (key : str) : option Value :=
  entry ← get v key;
  if is_null entry then None
  else
    value ← get entry (lit "value");
    Some (match get entry (lit "type") with
          | Some t => object [(lit "value", value); (lit "type", t)]
          | None => value
          end).

Definition collect_provider_data (master_fields asset_fields : Value) : option str :=
  match omap (λ key, pair key <$> or_else (extract_raw_value asset_fields key) (extract_raw_value master_fields key))
             PROVIDER_DATA_FIELDS with
  | [] => None
  | members => value_to_string (object members)
  end.

(** [i32::try_from] of an [i64]. *)
Definition i32_try_from (v : Z) : option Z := if (- 2 ^ 31 <=? v) && (v <? 2 ^ 31) then Some v else None.

Context `{StateEnv}.

Definition extract (master_fields asset_fields : Value) : AssetMetadata :=
  let flag key := default false (bool_field asset_fields (lit key)) in
  let loc := decode_location_with_fallback asset_fields in
  let dimension key := or_else (u64_field asset_fields (lit key)) (u64_field master_fields (lit key)) ≫= try_from U32_MAX in
  refresh_hash {|
    am_source := Some (lit "icloud");
    am_is_favorite := flag "isFavorite"%string;
    am_rating := if flag "isFavorite"%string then Some 5 else None;
    am_latitude := loc_latitude <$> loc;
    am_longitude := loc_longitude <$> loc;
    am_altitude := loc ≫= loc_altitude;
    am_orientation := or_else (u64_field asset_fields (lit "orientation")) (u64_field master_fields (lit "originalOrientation")) ≫= try_from 255;
    am_duration_secs := f64_field asset_fields (lit "duration");
    am_timezone_offset := i64_field asset_fields (lit "timeZoneOffset") ≫= i32_try_from;
    am_width := dimension "resOriginalWidth"%string;
    am_height := dimension "resOriginalHeight"%string;
    am_title := decode_string asset_fields (lit "captionEnc");
    am_keywords := match decode_keywords asset_fields with Some ((_ :: _) as keywords) => strings_to_string keywords | _ => None end;
    am_description := decode_string asset_fields (lit "extendedDescEnc");
    am_media_subtype := map_media_subtype asset_fields;
    am_burst_id := field_value_str asset_fields (lit "burstId");
    am_is_hidden := flag "isHidden"%string;
    am_is_archived := false;
    am_modified_at := None;
    am_is_deleted := flag "isDeleted"%string || flag "isExpunged"%string;
    am_deleted_at := date_field asset_fields (lit "dateExpunged");
    am_provider_data := collect_provider_data master_fields asset_fields;
    am_metadata_hash := None |}.

(** ** The asset *)

Definition from_records_in_zone (master asset : CkRecord) (zone : option str) : PhotoAsset :=
  let filename := decode_filename (fields master) in
  let item_type_val := Some (resolve_item_type (fields master) filename) in
  let '(versions, malformed_resources) := extract_versions item_type_val (fields master) (fields asset) in
  {| record_name := rec_name master;
     asset_record_name := rec_name asset;
     state_record_name := None;
     source_zone := zone;
     filename := filename;
     asset_metadata := extract (fields master) (fields asset);
     versions := versions;
     malformed_resources := malformed_resources;
     asset_date := date_field (fields asset) (lit "assetDate");
     added_instant := date_field (fields asset) (lit "addedDate");
     item_type := item_type_val |}.
Definition from_records (master asset : CkRecord) : PhotoAsset := from_records_in_zone master asset None.

(** The asset an enumeration emits as its two records. *)
Definition photo_asset (a : StreamAsset) : PhotoAsset :=
  let p := from_records (sa_master a) (sa_asset a) in
  {| record_name := record_name p; asset_record_name := asset_record_name p; state_record_name := sa_state_record_name a;
     source_zone := source_zone p; filename := filename p; asset_metadata := asset_metadata p; versions := versions p;
     malformed_resources := malformed_resources p; asset_date := asset_date p; added_instant := added_instant p;
     item_type := item_type p |}.
End Asset.
