(* ===== verification/AssetSpec.v ===== *)
(** * What the construction of an asset promises

    Bytes are only fetched from the provider's content hosts, and every resource
    a record advertises becomes a version or a reported malformed resource. *)
From S2P Require Import Prelude RustStr Types StateTypes StateDbSpec Cloudkit Delta Content Asset.

#[local] Arguments lit : simpl never.

Lemma starts_with_spec p s : starts_with p s = true ↔ ∃ q, s = p ++ q.
Proof.
  unfold starts_with. rewrite bool_decide_eq_true. split.
  - intros [q Hq]. exists q. by apply strip_prefix_Some.
  - intros [q Hq]. exists q. by apply strip_prefix_Some.
Qed.
Lemma ends_with_spec suffix s : ends_with suffix s = true ↔ ∃ q, s = q ++ suffix.
Proof.
  unfold ends_with. rewrite starts_with_spec. split; intros [q Hq].
  - exists (rev q). by rewrite <- (rev_involutive s), Hq, rev_app_distr, rev_involutive.
  - exists (rev q). by rewrite Hq, rev_app_distr.
Qed.

(** The two tables name a version once. *)
Lemma lookup_table_keys item_type : NoDup (fst ∘ fst <$> lookup_table item_type).
Proof. unfold lookup_table. case_bool_decide; cbn; repeat constructor; set_solver. Qed.

Section AssetSpec.
Context `{AssetEnv}.

(** The host is one of the provider's content hosts, reached over TLS. *)
Definition allowed_url (raw : str) : Prop :=
  ∃ url host prefix suffix, url_parse raw = Some url ∧ u_scheme url = lit "https" ∧ u_host url = Some host ∧
    to_ascii_lowercase host = prefix ++ suffix ∧ suffix ∈ ALLOWED_DOWNLOAD_HOST_SUFFIXES.

Lemma validate_download_url_allowed raw u : validate_download_url raw = Ok u → allowed_url raw.
Proof.
  unfold validate_download_url. case_bool_decide; [done|]. destruct (url_parse raw) as [url|] eqn:Eu; [|done].
  destruct (str_eqb (u_scheme url) (lit "https")) eqn:Es; cbn [negb]; [|done]. apply str_eqb_eq in Es.
  destruct (u_host url) as [host|] eqn:Eh; [|done]. destruct (existsb _ _) eqn:Ex; [|done]. intros _.
  apply existsb_exists in Ex as (suffix & Hin & [prefix Hp]%ends_with_spec). exists url, host, prefix, suffix.
  split_and!; [done..|]. by apply list_elem_of_In.
Qed.

(** What a version was read from. *)
Record read_from (v : Value) (res_field type_field : str) (entry : Value) (version : AssetVersion) : Prop := {
  rf_entry : resource_entry v res_field = Some entry;
  rf_size : get entry (lit "size") ≫= as_u64 = Some (av_size version);
  rf_url : get entry (lit "downloadURL") ≫= as_str = Some (av_url version);
  rf_checksum : get entry (lit "fileChecksum") ≫= as_str = Some (av_checksum version);
  rf_type : field_value_str v type_field = Some (av_asset_type version);
  rf_allowed : allowed_url (av_url version);
  rf_has_checksum : av_checksum version ≠ [];
  rf_has_type : av_asset_type version ≠ [];
}.

Lemma read_version_Ok v key res_field type_field version : read_version v key res_field type_field = Ok version →
  ∃ entry, read_from v res_field type_field entry version.
Proof.
  unfold read_version. destruct (resource_entry v res_field) as [entry|] eqn:Ee; cbn; [|done].
  destruct (get entry (lit "size") ≫= as_u64) as [size|] eqn:Es; cbn; [|done].
  destruct (get entry (lit "downloadURL") ≫= as_str) as [url|] eqn:Eu; cbn; [|done].
  destruct (validate_download_url url) as [[]|reason] eqn:Ev; cbn; [|done].
  destruct (get entry (lit "fileChecksum") ≫= as_str) as [checksum|] eqn:Ec; cbn; [|done].
  case_bool_decide as Hc; cbn; [done|]. destruct (field_value_str v type_field) as [[|c t]|] eqn:Et; cbn; [done| |done].
  intros [= <-]. exists entry. split; [exact Ee|exact Es|exact Eu|exact Ec|exact Et|by eapply validate_download_url_allowed|exact Hc|done].
Qed.
Lemma read_version_Err v key res_field type_field m : read_version v key res_field type_field = Err m → mr_version_size m = key.
Proof.
  unfold read_version. destruct (resource_entry v res_field) as [entry|]; cbn; [|by intros [= <-]].
  destruct (get entry (lit "size") ≫= as_u64) as [size|]; cbn; [|by intros [= <-]].
  destruct (get entry (lit "downloadURL") ≫= as_str) as [url|]; cbn; [|by intros [= <-]].
  destruct (validate_download_url url) as [[]|reason]; cbn; [|by intros [= <-]].
  destruct (get entry (lit "fileChecksum") ≫= as_str) as [checksum|]; cbn; [|by intros [= <-]].
  case_bool_decide; cbn; [by intros [= <-]|]. by destruct (field_value_str v type_field) as [[|c t]|]; cbn; intros [= <-].
Qed.

Definition advertised (res_field : str) (master_fields asset_fields : Value) : Prop :=
  is_Some (get asset_fields res_field) ∨ is_Some (get master_fields res_field).
Lemma fields_for_spec res_field m a :
  match fields_for res_field m a with
  | Some v => advertised res_field m a ∧ (v = a ∧ is_Some (get a res_field) ∨ v = m ∧ get a res_field = None)
  | None => ¬ advertised res_field m a
  end.
Proof.
  unfold fields_for, advertised. destruct (get a res_field), (get m res_field); naive_solver.
Qed.

Definition version_keys (r : list (AssetVersionSize * AssetVersion) * list MalformedResource) : list AssetVersionSize :=
  r.1.*1 ++ (mr_version_size <$> r.2).

Record accounted (lookup : list LookupRow) (m a : Value) (r : list (AssetVersionSize * AssetVersion) * list MalformedResource) : Prop := {
  ac_keys key : key ∈ version_keys r ↔ ∃ res_field type_field, (key, res_field, type_field) ∈ lookup ∧ advertised res_field m a;
  ac_once : NoDup (version_keys r);
  ac_versions key version : (key, version) ∈ r.1 → ∃ res_field type_field v entry, (key, res_field, type_field) ∈ lookup ∧
    fields_for res_field m a = Some v ∧ read_from v res_field type_field entry version;
}.

Lemma extract_rows_accounted lookup m a : NoDup (fst ∘ fst <$> lookup) → accounted lookup m a (extract_rows lookup m a).
Proof.
  induction lookup as [|[[key res_field] type_field] lookup IH]; intros Hn; [split; cbn; [set_solver|constructor|set_solver]|].
  csimpl in Hn. apply NoDup_cons in Hn as [Hkey Hn]. specialize (IH Hn). cbn [extract_rows].
  destruct (extract_rows lookup m a) as [vs ms]. destruct IH as [Hk Ho Hv].
  assert (Hfresh : key ∉ version_keys (vs, ms)).
  { intros (rf & tf & Hin & _)%Hk. apply Hkey. apply list_elem_of_fmap. by exists (key, rf, tf). }
  pose proof (fields_for_spec res_field m a) as Hf. destruct (fields_for res_field m a) as [v|] eqn:Ef.
  2: { split; [|done|].
       - intros k. rewrite Hk. split; intros (rf & tf & Hin & Ha); exists rf, tf; [set_solver|].
         apply elem_of_cons in Hin as [[= -> -> ->]|]; done.
       - intros k ver Hin. destruct (Hv _ _ Hin) as (rf & tf & v & entry & ? & ?). exists rf, tf, v, entry. set_solver. }
  assert (Hkeys : ∀ r, version_keys r ≡ₚ key :: version_keys (vs, ms) → ∀ k, k ∈ version_keys r ↔
    ∃ rf tf, (k, rf, tf) ∈ (key, res_field, type_field) :: lookup ∧ advertised rf m a).
  { intros r Hr k. rewrite Hr, elem_of_cons, Hk. split.
    - intros [->|(rf & tf & ? & ?)]; [exists res_field, type_field; split; [set_solver|tauto]|exists rf, tf; set_solver].
    - intros (rf & tf & [[= -> -> ->]|?]%elem_of_cons & ?); [by left|right; by exists rf, tf]. }
  assert (Hold : ∀ k ver, (k, ver) ∈ vs → ∃ rf tf v entry, (k, rf, tf) ∈ (key, res_field, type_field) :: lookup ∧
    fields_for rf m a = Some v ∧ read_from v rf tf entry ver).
  { intros k ver Hin. destruct (Hv _ _ Hin) as (rf & tf & v' & entry & ? & ?). exists rf, tf, v', entry. set_solver. }
  destruct (read_version v key res_field type_field) as [version|mal] eqn:Er.
  - split; [by apply Hkeys| |].
    + unfold version_keys. cbn. apply NoDup_cons. by split.
    + cbn. intros k ver [[= -> ->]|Hin]%elem_of_cons; [|by apply Hold].
      apply read_version_Ok in Er as [entry He]. exists res_field, type_field, v, entry. split; [set_solver|done].
  - apply read_version_Err in Er. assert (Hp : version_keys (vs, mal :: ms) ≡ₚ key :: version_keys (vs, ms)).
    { unfold version_keys. cbn. rewrite Er. symmetry. apply Permutation_middle. }
    split; [by apply Hkeys| |by apply Hold]. rewrite Hp. apply NoDup_cons. by split.
Qed.

(** C18: An asset is only ever downloaded from the provider's content hosts:
    every version of an asset built from provider records has a URL whose scheme
    is https and whose host, in whatever case, ends in an allowed suffix, and it
    has a checksum and a type to be checked against. *)
Theorem asset_urls_allowed `{StateEnv} master asset zone key version :
  (key, version) ∈ versions (from_records_in_zone master asset zone) →
  allowed_url (av_url version) ∧ av_checksum version ≠ [] ∧ av_asset_type version ≠ [].
Proof.
  unfold from_records_in_zone. set (item := Some _). pose proof (extract_rows_accounted (lookup_table item) (fields master) (fields asset)) as Ha.
  fold (extract_versions item (fields master) (fields asset)) in Ha. specialize (Ha (lookup_table_keys item)).
  destruct (extract_versions item (fields master) (fields asset)) as [vs ms]. cbn [versions].
  intros (rf & tf & v & entry & _ & _ & [])%(ac_versions _ _ _ _ Ha). by split_and!.
Qed.

(** No resource a record advertises is lost: every version of the lookup
    table whose resource field is in the asset's or the master's record occurs
    once, as a version with the size, URL, checksum and type that stand in the
    asset's record if it has the field and in the master's otherwise, or as a
    malformed resource that is reported; nothing else occurs. *)
Theorem resources_accounted item_type master_fields asset_fields :
  let r := extract_versions item_type master_fields asset_fields in
  NoDup (version_keys r) ∧
  (∀ key, key ∈ version_keys r ↔ ∃ res_field type_field, (key, res_field, type_field) ∈ lookup_table item_type ∧
     advertised res_field master_fields asset_fields) ∧
  ∀ key version, (key, version) ∈ r.1 → ∃ res_field type_field v entry, (key, res_field, type_field) ∈ lookup_table item_type ∧
     (v = asset_fields ∧ is_Some (get asset_fields res_field) ∨ v = master_fields ∧ get asset_fields res_field = None) ∧
     read_from v res_field type_field entry version.
Proof.
  cbn zeta. destruct (extract_rows_accounted (lookup_table item_type) master_fields asset_fields) as [Hk Ho Hv]; [apply lookup_table_keys|].
  split_and!; [done|done|]. intros key version Hin. destruct (Hv _ _ Hin) as (rf & tf & v & entry & Hrow & Hf & Hr).
  exists rf, tf, v, entry. split_and!; [done| |done]. pose proof (fields_for_spec rf master_fields asset_fields) as Hs. rewrite Hf in Hs. apply Hs.
Qed.

(** The emitted asset and its two records agree on the durable identity. *)
Lemma photo_asset_state_id `{StateEnv} a : state_id (photo_asset a) = sa_state_id a.
Proof. unfold state_id, sa_state_id, photo_asset, from_records, from_records_in_zone. cbn. by destruct (extract_versions _ _ _). Qed.
End AssetSpec.

(** ** Runs *)

Module AssetRuns.
Export Json.
Export StateDbSpec.Samples.

#[export] Instance delta_env : DeltaEnv.
refine {| is_null := λ v, match v with JNull => true | _ => false end; base64_decode_utf8 := λ _, None; drain := λ A m, map_to_list m |}.
done.
Defined.

(** [https://host/...], and nothing else. *)
Definition parse_https (raw : str) : option Url :=
  rest ← strip_prefix (lit "https://") raw; Some {| u_scheme := lit "https"; u_host := Some (hd [] (split_char 47 rest)) |}.
Definition record_of (v : json) : option CkRecord :=
  match v with
  | JObj _ => Some {| rec_name := default [] (json_get v (lit "recordName") ≫= as_str); rec_type := default [] (json_get v (lit "recordType") ≫= as_str);
                      fields := default JNull (json_get v (lit "fields")); deleted := None |}
  | _ => None
  end.
Definition json_as_bool (v : json) : option bool := match v with JBool b => Some b | _ => None end.
Definition json_as_array (v : json) : option (list json) := match v with JArr l => Some l | _ => None end.
Definition json_as_i64 (v : json) : option (option Z) := match v with JNum n => Some (Some n) | _ => None end.

#[export] Instance asset_env : AssetEnv := {|
  as_u64 := as_i64; as_bool := json_as_bool; as_number := json_as_i64; as_f64_bits := λ v, i64_as_f64_bits <$> as_i64 v; as_array := json_as_array;
  object := JObj; value_to_string := λ _, Some (lit "{}"); strings_to_string := λ _, Some (lit "[]"); record_from_value := record_of;
  base64_decode := λ _, None; url_parse := parse_https;
  Plist := unit; plist_from_reader := λ _, None; into_array := λ _, None; into_string := λ _, None; into_dictionary := λ _, None;
  plist_real := λ _, None; plist_integer := λ _, None |}.

Definition member (key : string) (v : json) : str * json := (lit key, v).
Definition text (s : string) : json := JStr (lit s).
Definition value_of (v : json) : json := JObj [member "value" v].
Definition resource (url : string) : json :=
  value_of (JObj [member "size" (JNum 3); member "downloadURL" (text url); member "fileChecksum" (text "sum")]).

(** The adjusted version stands in the asset's record, the original in both
    records, and the thumbnail points elsewhere. *)
Definition master_fields : json :=
  JObj [member "itemType" (value_of (text "public.heic")); member "resOriginalRes" (resource "https://a.icloud-content.com/m");
        member "resOriginalFileType" (value_of (text "public.heic"));
        member "resJPEGThumbRes" (resource "https://icloud-content.com.evil.org/t")].
Definition asset_fields : json :=
  JObj [member "resOriginalRes" (resource "https://A.iCloud-Content.com/a"); member "resOriginalFileType" (value_of (text "public.heic"));
        member "resJPEGFullRes" (resource "https://cdn.cdn-apple.com/f"); member "resJPEGFullFileType" (value_of (text "public.jpeg"));
        member "assetDate" (value_of (JNum 1700000000000)); member "isFavorite" (value_of (JNum 1)); member "assetSubtypeV2" (value_of (JNum 18))].
Definition live_master : CkRecord := {| rec_name := lit "M1"; rec_type := lit "CPLMaster"; fields := master_fields; deleted := None |}.
Definition live_asset : CkRecord := {| rec_name := lit "A1"; rec_type := lit "CPLAsset"; fields := asset_fields; deleted := None |}.
Definition live : PhotoAsset := from_records live_master live_asset.

Example live_versions : ((λ kv, (kv.1, av_url kv.2)) <$> versions live) =
  [(Original, lit "https://A.iCloud-Content.com/a"); (Adjusted, lit "https://cdn.cdn-apple.com/f")].
Proof. vm_compute. reflexivity. Qed.
Example live_malformed : (mr_version_size <$> malformed_resources live) = [Thumb].
Proof. vm_compute. reflexivity. Qed.
Example live_metadata : am_rating (asset_metadata live) = Some 5 ∧ am_media_subtype (asset_metadata live) = Some (lit "portrait") ∧
  asset_date live = Some 1700000000000000000.
Proof. vm_compute. split_and!; reflexivity. Qed.

Lemma asset_urls_allowed_witness : ∃ version, (Original, version) ∈ versions live ∧ allowed_url (av_url version).
Proof.
  destruct (versions live) as [|[key version] l] eqn:E; [vm_compute in E; discriminate E|].
  assert (Hk : key = Original). { assert (Hv : (fst <$> versions live) = [Original; Adjusted]) by (vm_compute; reflexivity). rewrite E in Hv. cbn in Hv. congruence. }
  exists version. assert (Hin : (Original, version) ∈ versions live) by (rewrite E, Hk; left). split; [rewrite Hk; left|].
  exact (proj1 (asset_urls_allowed live_master live_asset None Original version Hin)).
Defined.
End AssetRuns.
