(* ===== verification/Lookup.v ===== *)
(** * Looking records up by name: [resolve_records] of [src/icloud/photos/album.rs]

    Pending rows are asked about in batches of a hundred requests; the answers
    of a batch are read record by record, and the requests of one durable
    identity are merged conservatively.

    Parameter: one [records/lookup] request of an album, with its retries. *)
From S2P Require Import Prelude RustStr Types StateTypes Cloudkit Delta Asset Source Hydrate.

Definition RECORD_LOOKUP_BATCH_SIZE : nat := 100.

Inductive ProviderLookupError :=
| Authentication (status : Z) (message : str)
| RateLimited (status : Z) (message : str)
| Request (message : str)
| Malformed (message : str).

Definition ProviderLookupError_to_string (e : ProviderLookupError) : str :=
  match e with
  | Authentication status message => lit "provider authentication failed with HTTP " ++ show_u64 status ++ lit ": " ++ message
  | RateLimited status message => lit "provider record lookup was rate limited with HTTP " ++ show_u64 status ++ lit ": " ++ message
  | Request message => lit "provider record lookup request failed: " ++ message
  | Malformed message => lit "provider record lookup response was malformed: " ++ message
  end.

(** A failed request: the message, and the status of an [HttpStatusError]. *)
Record PostError := { pe_message : str; pe_http_status : option Z }.

Definition classify_provider_lookup_error (e : PostError) : ProviderLookupError :=
  match pe_http_status e with
  | None => Request (pe_message e)
  | Some status =>
      if memb status [401; 403; 421] then Authentication status (pe_message e)
      else if memb status [429; 503] then RateLimited status (pe_message e)
      else Request (pe_message e)
  end.
Definition failure (e : ProviderLookupError) : RecordResolution := TransientFailure (ProviderLookupError_to_string e).

Definition MalformedRequiredAssetField_to_string (e : MalformedRequiredAssetField) : str :=
  match e with
  | MasterRecordName => lit "CPLMaster recordName is missing or blank"
  | AssetRecordName => lit "CPLAsset recordName is missing or blank"
  | AssetDate => lit "CPLAsset assetDate is missing or invalid"
  end.

(** ** Evidence *)

Inductive ResolutionEvidence := EChildDeleted | EInconclusive | EMasterPresent | EAssetPresent | EMasterDeleted | EPresent.
Definition evidence_rank (e : ResolutionEvidence) : Z :=
  match e with EChildDeleted => 0 | EInconclusive => 1 | EMasterPresent => 2 | EAssetPresent => 3 | EMasterDeleted => 4 | EPresent => 5 end.

Definition resolution_evidence (r : RecordResolution) : ResolutionEvidence :=
  match r with
  | Present _ => EPresent
  | AssetPresent _ => EAssetPresent
  | MasterPresent => EMasterPresent
  | Deleted _ true => EMasterDeleted
  | Unknown | TransientFailure _ => EInconclusive
  | Deleted _ false => EChildDeleted
  end.

Definition merge_record_resolution (existing incoming : RecordResolution) : RecordResolution :=
  if evidence_rank (resolution_evidence existing) <? evidence_rank (resolution_evidence incoming) then incoming else existing.

(** The results in the order their identities were first seen. *)
Fixpoint group_result (state_id : str) (r : RecordResolution) (grouped : list (str * RecordResolution)) : list (str * RecordResolution) :=
  match grouped with
  | [] => [(state_id, r)]
  | (id, existing) :: grouped =>
      if str_eqb id state_id then (id, merge_record_resolution existing r) :: grouped
      else (id, existing) :: group_result state_id r grouped
  end.
Definition group_results (results : list (str * RecordResolution)) : list (str * RecordResolution) :=
  foldl (λ grouped ir, group_result ir.1 ir.2 grouped) [] results.

(** [slice::chunks]. *)
Fixpoint chunks_go {A} (fuel n : nat) (l : list A) : list (list A) :=
  match fuel, l with
  | S fuel, _ :: _ => take n l :: chunks_go fuel n (drop n l)
  | _, _ => []
  end.
Definition chunks {A} (n : nat) (l : list A) : list (list A) := chunks_go (length l) n l.

Section Lookup.
Context `{AssetEnv, StateEnv} {St : Type}.
(** One request for the records of these names: the response, and how often the
    provider answered that it limits the rate. *)
Context (post : list str → St → St * result PostError (Value * Z)).

(** ** One batch *)

Definition request_names (r : RecordLookupRequest) : list str :=
  rl_master_record_name r :: match rl_asset_record_name r with Some name => [name] | None => [] end.
(** Each name once, in the order of the requests. *)
Definition record_names (batch : list RecordLookupRequest) : list str :=
  foldl (λ names name, if memb name names then names else names ++ [name]) [] (batch ≫= request_names).

Definition value_name (record : Value) : option str := get record (lit "recordName") ≫= as_str.
(** The last record of a name. *)
Definition by_name (records : list Value) (name : str) : option Value :=
  findb (λ r, bool_decide (value_name r = Some name)) (rev records).

Definition explicit_not_found (record : option Value) : bool :=
  match record ≫= (λ r, get r (lit "serverErrorCode") ≫= as_str) with
  | Some code => str_eqb code (lit "UNKNOWN_ITEM") || str_eqb code (lit "NOT_FOUND")
  | None => false
  end.
Definition tombstoned (record : option Value) : bool := bool_decide (record ≫= (λ r, get r (lit "deleted") ≫= as_bool) = Some true).

(** [DateTime::from_timestamp_millis] of [fields.deletedDate.value]. *)
Definition deleted_date (record : Value) : option Z :=
  ms ← get record (lit "fields") ≫= (λ f, get2 f (lit "deletedDate") (lit "value") ≫= as_i64);
  if timestamp_millis_ok ms then Some (ms * 1000000) else None.

Definition is_type (r : CkRecord) (t : string) : bool := str_eqb (rec_type r) (lit t).

(** A pair of live records. *)
Definition live_pair (request : RecordLookupRequest) (master asset : CkRecord) : RecordResolution :=
  match try_from_records master asset Downloadable with
  | Ok a =>
      let photo := photo_asset a in
      Present (if str_eqb (rl_state_id request) (rl_master_record_name request) then photo
               else set_state_record_name (rl_state_id request) photo)
  | Err error => failure (Malformed (MalformedRequiredAssetField_to_string error))
  end.

Definition resolve_live (request : RecordLookupRequest) (master : Value) (asset : option Value) : RecordResolution :=
  match record_from_value master, asset with
  | Some master, Some asset =>
      match record_from_value asset with
      | Some asset => if is_type master "CPLMaster" && is_type asset "CPLAsset" then live_pair request master asset else Unknown
      | None => Unknown
      end
  | Some record, None =>
      if bool_decide (rl_asset_record_name request = None) && is_type record "CPLMaster" then MasterPresent
      else if rl_for_asset request && is_type record "CPLAsset" then
        match master_ref record with Some master => AssetPresent master | None => Unknown end
      else Unknown
  | None, _ => Unknown
  end.

Definition resolve_one (records : list Value) (request : RecordLookupRequest) : RecordResolution :=
  let master := by_name records (rl_master_record_name request) in
  let asset := rl_asset_record_name request ≫= by_name records in
  let primary_deleted := explicit_not_found master || tombstoned master in
  let asset_deleted := explicit_not_found asset || tombstoned asset in
  if primary_deleted || asset_deleted then
    Deleted (match master ≫= deleted_date with Some d => Some d | None => asset ≫= deleted_date end)
      (primary_deleted && negb (rl_for_asset request))
  else
    match master with
    | Some master => resolve_live request master asset
    | None => Unknown
    end.

Definition resolve_batch (batch : list RecordLookupRequest) (s : St) : St * list (str * RecordResolution) * Z :=
  let all r := (λ request, (rl_state_id request, r)) <$> batch in
  match post (record_names batch) s with
  | (s, Err error) => (s, all (failure (classify_provider_lookup_error error)), 0)
  | (s, Ok (response, observations)) =>
      match get response (lit "records") ≫= as_array with
      | None => (s, all (failure (Malformed (lit "missing records array"))), observations)
      | Some records => (s, (λ request, (rl_state_id request, resolve_one records request)) <$> batch, observations)
      end
  end.

Fixpoint resolve_batches (batches : list (list RecordLookupRequest)) (s : St) : St * list (str * RecordResolution) * Z :=
  match batches with
  | [] => (s, [], 0)
  | batch :: batches =>
      let '(s, results, n) := resolve_batch batch s in
      let '(s, rest, m) := resolve_batches batches s in
      (s, results ++ rest, saturating_add USIZE_MAX n m)
  end.

Definition is_settled (r : RecordResolution) : bool := match r with Present _ | Deleted _ _ => true | _ => false end.

Definition resolve_records (requests : list RecordLookupRequest) (s : St) : St * RecordResolutionBatch * Z :=
  let '(s, results, observations) := resolve_batches (chunks RECORD_LOOKUP_BATCH_SIZE requests) s in
  let grouped := group_results results in
  (s, {| rb_results := grouped; rb_complete := forallb (λ ir : str * RecordResolution, is_settled ir.2) grouped |}, observations).
End Lookup.
