(* ===== verification/LookupSpec.v ===== *)
(** * What record lookups promise

    A deletion is believed only on the provider's explicit word, and an asset is
    handed back only under the identity that was asked for. *)
From S2P Require Import Prelude RustStr Types StateTypes Cloudkit Delta Asset AssetSpec Source Hydrate Lookup.

(** ** Merging *)

Abbreviation strength r := (evidence_rank (resolution_evidence r)).
Abbreviation Results := (list (str * RecordResolution)).

Lemma merge_is_best existing incoming :
  strength existing <= strength (merge_record_resolution existing incoming) ∧ strength incoming <= strength (merge_record_resolution existing incoming) ∧
  (merge_record_resolution existing incoming = existing ∨ merge_record_resolution existing incoming = incoming).
Proof. unfold merge_record_resolution. destruct (Z.ltb_spec (strength existing) (strength incoming)); split_and!; auto; lia. Qed.

Lemma group_result_keys id r grouped :
  (group_result id r grouped).*1 = if bool_decide (id ∈ grouped.*1) then grouped.*1 else grouped.*1 ++ [id].
Proof.
  induction grouped as [|[id' e] grouped IH]; [done|]. cbn [group_result]. destruct (str_eqb id' id) eqn:Hid.
  - apply str_eqb_eq in Hid as ->. csimpl. rewrite bool_decide_eq_true_2 by set_solver. done.
  - apply str_eqb_neq in Hid. csimpl. rewrite IH. repeat case_bool_decide; set_solver.
Qed.
Lemma elem_of_group_result id r grouped id' x : NoDup (grouped.*1) → (id', x) ∈ group_result id r grouped →
  (id' ≠ id ∧ (id', x) ∈ grouped) ∨ (id' = id ∧ id ∉ grouped.*1 ∧ x = r) ∨ (id' = id ∧ ∃ e, (id, e) ∈ grouped ∧ x = merge_record_resolution e r).
Proof.
  induction grouped as [|[i e] grouped IH]; cbn [group_result]; intros Hn Hin.
  { apply list_elem_of_singleton in Hin as [= -> ->]. right; left. set_solver. }
  csimpl in Hn. apply NoDup_cons in Hn as [Hi Hn]. destruct (str_eqb i id) eqn:Hid.
  - apply str_eqb_eq in Hid as ->. apply elem_of_cons in Hin as [[= -> ->]|Hin]; [right; right; split; [done|]; exists e; set_solver|].
    left. split; [|set_solver]. intros ->. apply Hi. apply list_elem_of_fmap. by exists (id, x).
  - apply str_eqb_neq in Hid. apply elem_of_cons in Hin as [[= -> ->]|Hin]; [left; set_solver|].
    destruct (IH Hn Hin) as [[? ?]|[(-> & ? & ->)|(-> & e' & ? & ->)]]; [left; set_solver|right; left; set_solver|].
    right; right. split; [done|]. exists e'. set_solver.
Qed.

(** The strongest evidence of each identity. *)
Record best (results grouped : Results) : Prop := {
  best_once : NoDup (grouped.*1);
  best_all id : id ∈ grouped.*1 ↔ id ∈ results.*1;
  best_is id r : (id, r) ∈ grouped → (id, r) ∈ results ∧ ∀ r', (id, r') ∈ results → strength r' <= strength r;
}.

Lemma group_result_best results grouped id r : best results grouped → best (results ++ [(id, r)]) (group_result id r grouped).
Proof.
  intros [Ho Ha Hb]. split.
  - rewrite group_result_keys. case_bool_decide; [done|]. apply NoDup_app. split_and!; [done|set_solver|apply NoDup_singleton].
  - intros id'. rewrite group_result_keys, fmap_app, elem_of_app, <- Ha. cbn. case_bool_decide; set_solver.
  - intros id' x Hin. apply elem_of_group_result in Hin as [[Hne Hin]|[(-> & Hn & ->)|(-> & e & He & ->)]]; [| | |done].
    + destruct (Hb _ _ Hin) as [? Hle]. split; [set_solver|]. intros r' [?|?]%elem_of_app; [by apply Hle|set_solver].
    + split; [set_solver|]. intros r' [Hr|Hr]%elem_of_app; [|set_solver]. exfalso. apply Hn, Ha. apply list_elem_of_fmap. by exists (id, r').
    + destruct (Hb _ _ He) as [Hin Hle]. destruct (merge_is_best e r) as (H1 & H2 & Hm). split.
      * destruct Hm as [-> | ->]; set_solver.
      * intros r' [Hr|Hr]%elem_of_app; [specialize (Hle _ Hr); lia|]. apply list_elem_of_singleton in Hr. congruence.
Qed.
Lemma group_results_best results : best results (group_results results).
Proof.
  unfold group_results. induction results as [|[id r] results IH] using rev_ind.
  - split; [constructor|done|set_solver].
  - rewrite foldl_app. by apply group_result_best.
Qed.

Lemma concat_chunks {A} n (l : list A) : concat (chunks (S n) l) = l.
Proof.
  unfold chunks. assert (Hl : (length l <= length l)%nat) by lia. revert Hl. generalize (length l) at 2 3 as fuel. intros fuel. revert l.
  induction fuel as [|fuel IH]; intros [|a l] Hl; cbn in *; [done|lia|done|]. f_equal. rewrite IH; [apply take_drop|]. rewrite length_drop. lia.
Qed.

Section LookupSpec.
Context `{AssetEnv, StateEnv} {St : Type} (post : list str → St → St * result PostError (Value * Z)).
(** [Record::deserialize] reads the name of a record. *)
Context (record_from_value_name : ∀ v r name, record_from_value v = Some r → value_name v = Some name → rec_name r = name).

(** Some answer of the provider lists these records. *)
Definition answered (records : list Value) : Prop :=
  ∃ names s s' response n, post names s = (s', Ok (response, n)) ∧ get response (lit "records") ≫= as_array = Some records.
(** The provider said that there is no such record, or that it is deleted. *)
Definition gone (name : str) : Prop :=
  ∃ records, answered records ∧ explicit_not_found (by_name records name) || tombstoned (by_name records name) = true.

Definition explained (request : RecordLookupRequest) (ir : str * RecordResolution) : Prop :=
  ir.1 = rl_state_id request ∧ ((∃ e, ir.2 = failure e) ∨ ∃ records, answered records ∧ ir.2 = resolve_one records request).

Lemma resolve_batch_explained batch s s' results n : resolve_batch post batch s = (s', results, n) → Forall2 explained batch results.
Proof.
  unfold resolve_batch. destruct (post _ s) as [s1 [[response m]|e]] eqn:E.
  - destruct (get response (lit "records") ≫= as_array) as [records|] eqn:Er; intros [= _ <- _]; apply Forall2_fmap_r, Forall_Forall2_diag, Forall_true;
      intros request; (split; [done|]).
    + right. exists records. split; [|done]. by exists (record_names batch), s, s1, response, m.
    + left. by eexists.
  - intros [= _ <- _]. apply Forall2_fmap_r, Forall_Forall2_diag, Forall_true. intros request. split; [done|]. left. by eexists.
Qed.
Lemma resolve_batches_explained batches : ∀ s s' results n, resolve_batches post batches s = (s', results, n) → Forall2 explained (concat batches) results.
Proof.
  induction batches as [|batch batches IH]; cbn; intros s s' results n; [by intros [= _ <- _]|].
  destruct (resolve_batch post batch s) as [[s1 r1] n1] eqn:E1. destruct (resolve_batches post batches s1) as [[s2 r2] n2] eqn:E2.
  intros [= _ <- _]. apply Forall2_app; [by eapply resolve_batch_explained|by eapply IH].
Qed.

Lemma by_name_Some records name r : by_name records name = Some r → value_name r = Some name.
Proof. intros [_ Hr]%findb_Some. by apply bool_decide_eq_true in Hr. Qed.

Lemma resolve_one_present records request asset : resolve_one records request = Present asset → state_id asset = rl_state_id request.
Proof.
  unfold resolve_one. destruct (_ || _); [done|]. destruct (by_name records (rl_master_record_name request)) as [master|] eqn:Em; [|done].
  apply by_name_Some in Em. unfold resolve_live. destruct (record_from_value master) as [m|] eqn:Er; [|done].
  destruct (rl_asset_record_name request ≫= by_name records) as [av|].
  - destruct (record_from_value av) as [a|]; [|done]. destruct (_ && _); [|done]. unfold live_pair.
    destruct (try_from_records m a Downloadable) as [sa|e] eqn:Et; [|done].
    assert (Hs : sa_state_record_name sa = None).
    { revert Et. unfold try_from_records. destruct (is_blank (rec_name m)); [done|]. destruct (is_blank (rec_name a)); [done|].
      destruct (bool_decide _); [done|]. by intros [= <-]. }
    apply try_from_records_Ok in Et as [Hm _]. intros Ha. injection Ha as <-. destruct (str_eqb _ _) eqn:Eid; [|done].
    apply str_eqb_eq in Eid. unfold state_id, photo_asset. cbn. rewrite Hs. cbn.
    replace (record_name (from_records (sa_master sa) (sa_asset sa))) with (rec_name m).
    + rewrite Eid. by eapply record_from_value_name.
    + rewrite Hm. unfold from_records, from_records_in_zone. by destruct (extract_versions _ _ _).
  - destruct (_ && _); [done|]. destruct (_ && _); [|done]. by destruct (master_ref m).
Qed.
Lemma resolve_one_deleted records request d family : answered records → resolve_one records request = Deleted d family →
  if family then rl_for_asset request = false ∧ gone (rl_master_record_name request)
  else (∃ name, rl_asset_record_name request = Some name ∧ gone name) ∨ rl_for_asset request = true ∧ gone (rl_master_record_name request).
Proof.
  intros Ha. unfold resolve_one. destruct (explicit_not_found (by_name _ _) || tombstoned (by_name _ _)) eqn:Em.
  - cbn. intros [= _ <-]. destruct (rl_for_asset request); cbn; [right|]; (split; [done|]); by exists records.
  - cbn. destruct (rl_asset_record_name request) as [name|] eqn:En; cbn [mbind option_bind].
    + destruct (explicit_not_found (by_name records name) || tombstoned (by_name records name)) eqn:Ea.
      * intros [= _ <-]. left. exists name. split; [done|]. by exists records.
      * destruct (by_name records (rl_master_record_name request)) as [m|]; [|done]. unfold resolve_live, live_pair. cbn.
        repeat case_match; try done; unfold failure in *; naive_solver.
    + cbn. destruct (by_name records (rl_master_record_name request)) as [m|]; [|done]. unfold resolve_live, live_pair. cbn.
        repeat case_match; try done; unfold failure in *; naive_solver.
Qed.

Lemma resolve_records_best requests s s' batch n : resolve_records post requests s = (s', batch, n) →
  ∃ results, Forall2 explained requests results ∧ best results (rb_results batch).
Proof.
  unfold resolve_records. destruct (resolve_batches post _ s) as [[s1 results] m] eqn:E. intros [= _ <- _]. exists results. split.
  - apply resolve_batches_explained in E. unfold RECORD_LOOKUP_BATCH_SIZE in E. by rewrite (concat_chunks 99) in E.
  - apply group_results_best.
Qed.

(** An asset is handed back under the identity that was asked for. *)
Lemma resolve_records_identify requests s s' batch n id asset :
  resolve_records post requests s = (s', batch, n) → (id, Present asset) ∈ rb_results batch → state_id asset = id.
Proof.
  intros (results & Hx & Hb)%resolve_records_best Hin. apply (best_is _ _ Hb) in Hin as [Hin _].
  apply list_elem_of_lookup in Hin as [i Hi]. destruct (Forall2_lookup_r _ _ _ _ _ Hx Hi) as (request & _ & Hid & Hr). cbn in *.
  destruct Hr as [[e [=]]|(records & _ & Hr)]. rewrite Hid. by eapply resolve_one_present.
Qed.

(** C16: A record lookup answers once for each identity it was asked about, hands
    an asset back only under the identity asked for, and reports a deletion only
    on the provider's explicit word: the deletion of an asset when the provider
    said of the records of every request for that identity that they are not
    found or deleted, the deletion of a whole family when it said so of a
    master.  Records that are left out of an answer and failed requests never
    count as deletions. *)
Theorem lookup_deletes_on_evidence requests s s' batch n : resolve_records post requests s = (s', batch, n) →
  NoDup ((rb_results batch).*1) ∧ (∀ id, id ∈ (rb_results batch).*1 ↔ id ∈ rl_state_id <$> requests) ∧
  ∀ id r, (id, r) ∈ rb_results batch →
    match r with
    | Present asset => state_id asset = id
    | Deleted _ false => ∀ request, request ∈ requests → rl_state_id request = id →
        (∃ name, rl_asset_record_name request = Some name ∧ gone name) ∨ rl_for_asset request = true ∧ gone (rl_master_record_name request)
    | Deleted _ true => ∃ request, request ∈ requests ∧ rl_state_id request = id ∧ rl_for_asset request = false ∧ gone (rl_master_record_name request)
    | _ => True
    end.
Proof.
  intros Hr. pose proof (resolve_records_identify requests s s' batch n) as Hid. pose proof Hr as (results & Hx & [Ho Ha Hb])%resolve_records_best. split; [done|]. split.
  - intros id. rewrite Ha. replace (results.*1) with (rl_state_id <$> requests); [done|]. clear -Hx. induction Hx as [|? ? ? ? [? _]]; cbn; congruence.
  - intros id r Hin. destruct (Hb _ _ Hin) as [Hres Hbest]. destruct r as [asset| | |d family| |]; try done; [by eapply Hid|]. destruct family.
    + apply list_elem_of_lookup in Hres as [i Hi]. destruct (Forall2_lookup_r _ _ _ _ _ Hx Hi) as (request & Hq & Hid' & Hr'). cbn in *.
      destruct Hr' as [[e [=]]|(records & Hans & Hr')]. exists request. split; [by eapply list_elem_of_lookup_2|]. split; [done|].
      symmetry in Hr'. by apply (resolve_one_deleted _ _ _ _ Hans) in Hr'.
    + intros request Hq Hid'. apply list_elem_of_lookup in Hq as [i Hi]. destruct (Forall2_lookup_l _ _ _ _ _ Hx Hi) as ([id' r'] & Hl & Hid'' & Hr').
      cbn in *. assert (Hle : strength r' <= 0). { apply Hbest. rewrite <- Hid', <- Hid''. by eapply list_elem_of_lookup_2. }
      destruct r' as [| | |d' []| |]; cbn in Hle; try lia. destruct Hr' as [[e [=]]|(records & Hans & Hr')]. symmetry in Hr'.
      by apply (resolve_one_deleted _ _ _ _ Hans) in Hr'.
Qed.
End LookupSpec.

(** The lookups of a pass, as the clients of the provider take them. *)
Definition lookup_of `{AssetEnv, StateEnv} {St : Type} (post : SyncPass → list str → St → St * result PostError (Value * Z))
    (pass : SyncPass) (requests : list RecordLookupRequest) (s : St) : St * RecordResolutionBatch :=
  let '(s, batch, _) := resolve_records (post pass) requests s in (s, batch).
Lemma lookup_of_identifies `{AssetEnv, StateEnv} {St : Type} post
    (record_from_value_name : ∀ v r name, record_from_value v = Some r → value_name v = Some name → rec_name r = name)
    pass requests (s s' : St) batch id asset :
  lookup_of post pass requests s = (s', batch) → (id, Present asset) ∈ rb_results batch → state_id asset = id.
Proof.
  unfold lookup_of. destruct (resolve_records (post pass) requests s) as [[s1 b] n] eqn:E. intros [= _ <-]. by eapply resolve_records_identify.
Qed.

(** ** Runs *)

Module LookupRuns.
Import AssetSpec.AssetRuns.

Definition named (name : string) (members : list (str * json)) : json := JObj (member "recordName" (text name) :: members).
(** What the provider knows: a live pair, an asset that is not found, a deleted
    master; records it does not know of are left out. *)
Definition provider : list json := [
  named "M1" [member "recordType" (text "CPLMaster"); member "fields" master_fields];
  named "A1" [member "recordType" (text "CPLAsset"); member "fields" asset_fields];
  named "A2" [member "serverErrorCode" (text "UNKNOWN_ITEM")];
  named "M3" [member "deleted" (JBool true); member "fields" (JObj [member "deletedDate" (value_of (JNum 1700000000000))])]].
Definition ask (names : list str) (s : nat) : nat * result PostError (Value * Z) :=
  (S s, Ok (JObj [member "records" (JArr (List.filter (λ r, match value_name r with Some n => memb n names | None => false end) provider))], 0)).
Definition asked : list RecordLookupRequest :=
  [paired (lit "S1") (lit "M1") (lit "A1"); paired (lit "S2") (lit "M1") (lit "A2"); paired (lit "S2") (lit "M1") (lit "A1");
   paired (lit "S3") (lit "M3") (lit "A3"); paired (lit "S4") (lit "M1") (lit "A2"); paired (lit "S5") (lit "M9") (lit "A9")].
Definition answers : nat * RecordResolutionBatch * Z := resolve_records ask asked 0%nat.

Definition shown (r : RecordResolution) : RecordResolution := match r with Present a => AssetPresent (state_id a) | r => r end.
Example merged : (λ ir, (ir.1, shown ir.2)) <$> rb_results answers.1.2 =
  [(lit "S1", AssetPresent (lit "S1")); (lit "S2", AssetPresent (lit "S2")); (lit "S3", Deleted (Some 1700000000000000000) true);
   (lit "S4", Deleted None false); (lit "S5", Unknown)].
Proof. vm_compute. reflexivity. Qed.

Lemma record_of_name v r name : record_from_value v = Some r → value_name v = Some name → rec_name r = name.
Proof. destruct v; try discriminate. intros [= <-]. cbn. unfold value_name. cbn. by intros ->. Qed.

Lemma lookup_deletes_on_evidence_witness : ∃ s batch n, resolve_records ask asked 0%nat = (s, batch, n) ∧ NoDup ((rb_results batch).*1).
Proof.
  destruct (resolve_records ask asked 0%nat) as [[s batch] n] eqn:E. exists s, batch, n. split; [reflexivity|].
  exact (proj1 (lookup_deletes_on_evidence ask record_of_name asked 0%nat s batch n E)).
Defined.
End LookupRuns.
