(* ===== verification/CaptureRepair.v ===== *)
(** * Refreshing captured metadata: [run_metadata_capture_repair] of
    [src/download/mod.rs]

    Downloaded assets whose metadata was captured by an older revision of the
    program are looked up at the provider, a batch per sync, and their rows are
    refreshed; what cannot be refreshed is counted and holds the checkpoint.

    Parameters: the provider's lookups, the order of hash maps, the shutdown
    token. *)
From S2P Require Import Prelude RustStr Paths Types StateTypes StateDb StateReads Filter Stats Checkpoint Context Albums Cycle Source Hydrate Incremental.
Import Sql.

(** ** Candidates *)

Record MetadataCaptureVersionEvidence := { mv_version_size : VersionSizeKey; mv_checksum : str; mv_size_bytes : Z }.
Record MetadataCaptureCandidate := {
  mcc_library : str;
  mcc_asset_id : str;
  mcc_master_record_name : str;
  mcc_asset_record_name : option str;
  mcc_versions : list MetadataCaptureVersionEvidence;
}.

(** The live downloaded rows of an asset, in the order of their versions. *)
Definition evidence_rows (library id : str) (d : Db) : list (key3 * AssetRow) :=
  order_by (λ a b : key3 * AssetRow, cmp_le (text_cmp a.1.2 b.1.2))
    (map_to_list (rows_where (λ k row, status_is Downloaded row && negb (is_deleted row)
       && bool_decide (k.1.1 = library) && bool_decide (k.1.2 = id)) d)).
Definition evidence_of_row (kr : key3 * AssetRow) : option MetadataCaptureVersionEvidence :=
  v ← VersionSizeKey_from_str kr.1.2;
  Some {| mv_version_size := v; mv_checksum := p_checksum (r_prov kr.2); mv_size_bytes := Z.max 0 (p_size_bytes (r_prov kr.2)) |}.
Definition capture_candidate (d : Db) (library id : str) : result StateError MetadataCaptureCandidate :=
  let mapping := asset_master_mappings d !! (library, id) in
  let owner := legacy_master_state_owners d !! (library, id) in
  match mapM evidence_of_row (evidence_rows library id d) with
  | None => Err (Invariant "get_metadata_capture_candidates")
  | Some versions =>
      Ok {| mcc_library := library; mcc_asset_id := id; mcc_versions := versions;
            mcc_master_record_name := default id mapping;
            mcc_asset_record_name := match mapping with Some _ => Some id | None => owner end |}
  end.
Fixpoint capture_candidates (d : Db) (library : str) (ids : list str) : result StateError (list MetadataCaptureCandidate) :=
  match ids with
  | [] => Ok []
  | id :: ids => c ← capture_candidate d library id; cs ← capture_candidates d library ids; mret (c :: cs)
  end.
Definition get_metadata_capture_candidates (library : str) (target_revision lim : Z) (d : Db) : result StateError (list MetadataCaptureCandidate) :=
  capture_candidates d library (limit lim (order_by (λ a b, cmp_le (text_cmp a b)) (elements (stale_assets d library target_revision)))).

Definition metadata_capture_candidate_matches (asset : PhotoAsset) (c : MetadataCaptureCandidate) : bool :=
  existsb (λ e, existsb (λ v : AssetVersionSize * AssetVersion, bool_decide (VersionSizeKey_from v.1 = mv_version_size e)
    && (av_size v.2 =? mv_size_bytes e) && str_eqb (av_checksum v.2) (mv_checksum e)) (versions asset)) (mcc_versions c).

(** ** The store *)

Class CaptureStore (St : Type) := {
  cap_begin_metadata_capture_revision : str → Z → St → St * result StateError MetadataCaptureStatus;
  cap_get_metadata_capture_candidates : str → Z → Z → St → St * result StateError (list MetadataCaptureCandidate);
  cap_record_metadata_capture_failure : str → Z → str → St → St * result StateError unit;
  cap_complete_metadata_capture_revision : str → Z → St → St * result StateError MetadataCaptureStatus;
}.

(** ** The repair *)

Definition METADATA_CAPTURE_BATCH : Z := 500.
Definition METADATA_CAPTURE_REPAIR_FAILED_REASON : str := lit "metadata_capture_repair_failed".

(** The part of the statistics the repair sets, and its failures. *)
Record MetadataCaptureRepair := {
  mcr_refreshed : Z;
  mcr_capture_failures : Z;
  mcr_remaining : Z;
  mcr_progressed : bool;
  mcr_state_write_failures : Z;
  mcr_rate_limited : Z;
  mcr_interrupted : bool;
  mcr_blocked : bool;
  mcr_failures : Z;
}.
Definition MetadataCaptureRepair_default : MetadataCaptureRepair :=
  {| mcr_refreshed := 0; mcr_capture_failures := 0; mcr_remaining := 0; mcr_progressed := false; mcr_state_write_failures := 0;
     mcr_rate_limited := 0; mcr_interrupted := false; mcr_blocked := false; mcr_failures := 0 |}.
Abbreviation add := (saturating_add USIZE_MAX).
Definition repair_counts (refreshed failures writes : Z) (r : MetadataCaptureRepair) : MetadataCaptureRepair :=
  {| mcr_refreshed := add (mcr_refreshed r) refreshed; mcr_capture_failures := add (mcr_capture_failures r) failures;
     mcr_remaining := mcr_remaining r; mcr_progressed := mcr_progressed r;
     mcr_state_write_failures := add (mcr_state_write_failures r) writes; mcr_rate_limited := mcr_rate_limited r;
     mcr_interrupted := mcr_interrupted r; mcr_blocked := mcr_blocked r; mcr_failures := add (mcr_failures r) failures |}.
Definition repair_status (remaining : Z) (progressed : bool) (r : MetadataCaptureRepair) : MetadataCaptureRepair :=
  {| mcr_refreshed := mcr_refreshed r; mcr_capture_failures := mcr_capture_failures r; mcr_remaining := remaining;
     mcr_progressed := progressed; mcr_state_write_failures := mcr_state_write_failures r; mcr_rate_limited := mcr_rate_limited r;
     mcr_interrupted := mcr_interrupted r; mcr_blocked := mcr_blocked r; mcr_failures := mcr_failures r |}.
Definition repair_marks (rate_limited : Z) (interrupted blocked : bool) (r : MetadataCaptureRepair) : MetadataCaptureRepair :=
  {| mcr_refreshed := mcr_refreshed r; mcr_capture_failures := mcr_capture_failures r; mcr_remaining := mcr_remaining r;
     mcr_progressed := mcr_progressed r; mcr_state_write_failures := mcr_state_write_failures r;
     mcr_rate_limited := add (mcr_rate_limited r) rate_limited; mcr_interrupted := mcr_interrupted r || interrupted;
     mcr_blocked := mcr_blocked r || blocked; mcr_failures := mcr_failures r |}.
(** [block_sync_token_for_incremental_delta]. *)
Definition block : MetadataCaptureRepair → MetadataCaptureRepair := repair_marks 0 false true.

Section CaptureRepair.
Context {St : Type} `{FilterEnv, StateEnv, SourceStore St, LegacyOwnerStore St, CaptureStore St}.
Context (rc : RunConfig) (refresh_metadata : bool) (is_cancelled : St → bool).
(** The provider's lookups, with how often it limited the rate. *)
Context (resolve_records : SyncPass → list RecordLookupRequest → St → St * RecordResolutionBatch * Z).
Context {LookupError : Type} (to_string : LookupError → str).
Context (hydrate_matching_master_assets_from_changes : SyncPass → gset str → St → St * result LookupError (list PhotoAsset)).
Context (name_order : gset str → list str).
Context (state_error_to_string : StateError → str).

Abbreviation library := (library (rc_config rc)).
Abbreviation Candidates := (gmap str MetadataCaptureCandidate).

Definition record_failure (lib error : str) (s : St) (r : MetadataCaptureRepair) : St * MetadataCaptureRepair :=
  let '(s, written) := cap_record_metadata_capture_failure lib METADATA_CAPTURE_REVISION error s in
  (s, repair_counts 0 1 (match written with Ok _ => 0 | Err _ => 1 end) r).

Definition refresh_metadata_capture_candidate (c : MetadataCaptureCandidate) (asset : PhotoAsset) (s : St) (r : MetadataCaptureRepair) :
    St * MetadataCaptureRepair :=
  match so_upsert_asset_master_mapping (mcc_library c) (asset_record_name asset) (record_name asset) s with
  | (s, Err error) => record_failure (mcc_library c) (state_error_to_string error) s r
  | (s, Ok _) =>
      match so_refresh_downloaded_asset_metadata (mcc_library c) (mcc_asset_id c) (asset_metadata asset) (rc_any_metadata_write rc)
              false METADATA_CAPTURE_REVISION s with
      | (s, Ok updated) =>
          if 0 <? updated then (s, repair_counts 1 0 0 r)
          else record_failure (mcc_library c) (lit "provider metadata matched no live downloaded catalogue row") s r
      | (s, Err error) => record_failure (mcc_library c) (state_error_to_string error) s r
      end
  end.

Definition candidate_request (c : MetadataCaptureCandidate) : RecordLookupRequest :=
  {| rl_state_id := mcc_asset_id c; rl_master_record_name := mcc_master_record_name c;
     rl_asset_record_name := mcc_asset_record_name c; rl_for_asset := false |}.

(** The answers; the masters that are live without a known asset. *)
Fixpoint apply_capture_answers (answers : list (str * RecordResolution)) (by_id : Candidates) (legacy : gset str) (s : St)
    (r : MetadataCaptureRepair) : St * (MetadataCaptureRepair * Candidates * gset str) :=
  match answers with
  | [] => (s, (r, by_id, legacy))
  | (state_id, resolution) :: answers =>
      if is_cancelled s then (s, (r, by_id, legacy))
      else
        match by_id !! state_id with
        | None => apply_capture_answers answers by_id legacy s r
        | Some c =>
            let rest := delete state_id by_id in
            let failed error := let '(s, r) := record_failure (mcc_library c) error s r in apply_capture_answers answers rest legacy s r in
            match resolution with
            | Present asset =>
                let '(s, r) := refresh_metadata_capture_candidate c asset s r in apply_capture_answers answers rest legacy s r
            | MasterPresent =>
                apply_capture_answers answers (<[mcc_asset_id c := c]> rest) ({[mcc_master_record_name c]} ∪ legacy) s r
            | Deleted deleted_at master_family =>
                match (if master_family then so_resolve_master_family_source_deleted (mcc_library c) (mcc_master_record_name c) deleted_at s
                       else so_resolve_source_deleted (mcc_library c) (mcc_asset_id c) deleted_at s) with
                | (s, Ok _) => apply_capture_answers answers rest legacy s r
                | (s, Err error) =>
                    let '(s, r) := record_failure (mcc_library c) (state_error_to_string error) s r in
                    apply_capture_answers answers rest legacy s r
                end
            | AssetPresent _ | Unknown => failed (lit "provider lookup did not return a complete photo record")
            | TransientFailure error => failed error
            end
        end
  end.

(** A live master: the one child that matches what was downloaded. *)
Definition repair_legacy (c : MetadataCaptureCandidate) (state_id : str) (children : list PhotoAsset) (s : St) (r : MetadataCaptureRepair) :
    St * MetadataCaptureRepair :=
  match List.filter (λ a, metadata_capture_candidate_matches a c) children with
  | [] => record_failure (mcc_library c) (lit "no current provider child matched durable catalogue evidence") s r
  | [asset] =>
      match db_claim_legacy_master_state_owner (mcc_library c) (mcc_master_record_name c) (asset_record_name asset) s with
      | (s, Ok true) => refresh_metadata_capture_candidate c (set_state_record_name state_id asset) s r
      | (s, Ok false) => record_failure (mcc_library c) (lit "a different provider child owns the legacy catalogue row") s r
      | (s, Err error) => record_failure (mcc_library c) (state_error_to_string error) s r
      end
  | _ => record_failure (mcc_library c) (lit "multiple provider children matched durable catalogue evidence") s r
  end.

Fixpoint repair_legacy_all (ids : list str) (assets : list PhotoAsset) (by_id : Candidates) (s : St) (r : MetadataCaptureRepair) :
    St * (MetadataCaptureRepair * Candidates) :=
  match ids with
  | [] => (s, (r, by_id))
  | id :: ids =>
      match by_id !! id with
      | None => repair_legacy_all ids assets by_id s r
      | Some c =>
          let ours a := str_eqb (record_name a) (mcc_master_record_name c) in
          let '(s, r) := repair_legacy c id (List.filter ours assets) s r in
          repair_legacy_all ids (List.filter (λ a, negb (ours a)) assets) (delete id by_id) s r
      end
  end.

Fixpoint fail_candidates (ids : list str) (error : str) (by_id : Candidates) (s : St) (r : MetadataCaptureRepair) :
    St * (MetadataCaptureRepair * Candidates) :=
  match ids with
  | [] => (s, (r, by_id))
  | id :: ids =>
      match by_id !! id with
      | None => fail_candidates ids error by_id s r
      | Some c => let '(s, r) := record_failure (mcc_library c) error s r in fail_candidates ids error (delete id by_id) s r
      end
  end.

Definition hydrate_legacy_masters (pass : SyncPass) (legacy : gset str) (by_id : Candidates) (s : St) (r : MetadataCaptureRepair) :
    St * (MetadataCaptureRepair * Candidates) :=
  if bool_decide (legacy = ∅) || is_cancelled s then (s, (r, by_id))
  else
    let ids := name_order (dom (filter (λ kc : str * MetadataCaptureCandidate, mcc_master_record_name kc.2 ∈ legacy) by_id)) in
    match hydrate_matching_master_assets_from_changes pass legacy s with
    | (s, Ok assets) => repair_legacy_all ids assets by_id s r
    | (s, Err error) => fail_candidates ids (to_string error) by_id s r
    end.

Definition finish_capture_repair (initial_remaining : Z) (s : St) (r : MetadataCaptureRepair) : St * MetadataCaptureRepair :=
  let '(s, r) := match cap_complete_metadata_capture_revision library METADATA_CAPTURE_REVISION s with
                 | (s, Ok status) => (s, repair_status (mc_remaining_assets status) (mc_remaining_assets status <? initial_remaining) r)
                 | (s, Err _) => (s, repair_counts 0 1 1 r)
                 end in
  (s, if (0 <? mcr_failures r) || mcr_interrupted r then block r else r).

Definition repair_batch (pass : SyncPass) (candidates : list MetadataCaptureCandidate) (initial_remaining : Z) (s : St) (r : MetadataCaptureRepair) :
    St * MetadataCaptureRepair :=
  let by_id : Candidates := list_to_map (rev ((λ c, (mcc_asset_id c, c)) <$> candidates)) in
  let requests := omap (λ id, candidate_request <$> by_id !! id) (name_order (dom by_id)) in
  let '(s, batch, observations) := resolve_records pass requests s in
  let r := repair_marks observations false false r in
  let '(s, (r, by_id, legacy)) := apply_capture_answers (rb_results batch) by_id ∅ s r in
  let '(s, (r, by_id)) := hydrate_legacy_masters pass legacy by_id s r in
  let '(s, r) := if is_cancelled s then (s, repair_marks 0 true false r)
                 else let '(s, (r, _)) := fail_candidates (name_order (dom by_id))
                        (lit "provider lookup omitted the requested catalogue identity") by_id s r in (s, r) in
  finish_capture_repair initial_remaining s r.

Definition run_metadata_capture_repair (passes : list SyncPass) (s : St) : St * MetadataCaptureRepair :=
  let r := MetadataCaptureRepair_default in
  if negb (downloads_files (rc_run_mode rc)) || refresh_metadata || negb (rc_has_db rc) then (s, r)
  else
    match cap_begin_metadata_capture_revision library METADATA_CAPTURE_REVISION s with
    | (s, Err _) => (s, block (repair_counts 0 1 1 r))
    | (s, Ok initial) =>
        let r := repair_status (mc_remaining_assets initial) false r in
        if mc_remaining_assets initial =? 0 then (s, r)
        else
          match passes with
          | [] =>
              let '(s, r) := record_failure library (lit "selected library has no provider pass for metadata hydration") s r in (s, block r)
          | pass :: _ =>
              match cap_get_metadata_capture_candidates library METADATA_CAPTURE_REVISION METADATA_CAPTURE_BATCH s with
              | (s, Err error) => let '(s, r) := record_failure library (state_error_to_string error) s r in (s, block r)
              | (s, Ok candidates) => repair_batch pass candidates (mc_remaining_assets initial) s r
              end
          end
    end.

End CaptureRepair.

(** The statistics of the repair. *)
Definition capture_stats (r : MetadataCaptureRepair) : SyncStats :=
  let d := SyncStats_default in
  let st := {|
    assets_seen := assets_seen d; api_total_at_start := api_total_at_start d;
    api_total_at_start_partial := api_total_at_start_partial d; downloaded := downloaded d; failed := failed d;
    skipped := skipped d; bytes_downloaded := bytes_downloaded d; disk_bytes_written := disk_bytes_written d;
    exif_failures := exif_failures d; metadata_capture_revision := Some METADATA_CAPTURE_REVISION;
    metadata_capture_refreshed := mcr_refreshed r; metadata_capture_failures := mcr_capture_failures r;
    metadata_capture_remaining := mcr_remaining r; metadata_capture_progressed := mcr_progressed r;
    state_write_failures := mcr_state_write_failures r; enumeration_errors := enumeration_errors d;
    count_probe_failures := count_probe_failures d; stale_pending_pruned := stale_pending_pruned d;
    pagination_shortfall_warnings := pagination_shortfall_warnings d;
    pagination_shortfall_assets := pagination_shortfall_assets d; tail_probes := tail_probes d;
    count_undercount_assets := count_undercount_assets d; enumeration_incomplete := enumeration_incomplete d;
    inventory_drop_warnings := inventory_drop_warnings d; inventory_drop_assets := inventory_drop_assets d;
    inventory_drop_percent := inventory_drop_percent d;
    inventory_drop_previous_total := inventory_drop_previous_total d;
    inventory_drop_current_total := inventory_drop_current_total d;
    inventory_drop_library := inventory_drop_library d; sync_token_blocked := sync_token_blocked d;
    sync_token_blocked_reason := sync_token_blocked_reason d;
    sync_token_blocked_source := sync_token_blocked_source d;
    sync_token_blocked_explanation := sync_token_blocked_explanation d;
    full_enumeration_reason := full_enumeration_reason d; sync_token_blocked_zone := sync_token_blocked_zone d;
    sync_token_expected_receivers := sync_token_expected_receivers d;
    sync_token_receivers_with_token := sync_token_receivers_with_token d;
    sync_token_receivers_missing := sync_token_receivers_missing d;
    sync_token_receivers_blank := sync_token_receivers_blank d;
    sync_token_receivers_dropped := sync_token_receivers_dropped d;
    sync_token_unique_values := sync_token_unique_values d;
    same_cycle_recovery_attempts := same_cycle_recovery_attempts d;
    same_cycle_recovery_successes := same_cycle_recovery_successes d;
    checkpoint_retry_passes := checkpoint_retry_passes d;
    checkpoint_revalidate_records := checkpoint_revalidate_records d; elapsed_secs := elapsed_secs d;
    interrupted := mcr_interrupted r; rate_limited := mcr_rate_limited r; photos_downloaded := photos_downloaded d;
    videos_downloaded := videos_downloaded d; recap := recap d |} in
  if mcr_blocked r then block_sync_token_for_incremental_delta st METADATA_CAPTURE_REPAIR_FAILED_REASON else st.
