(* ===== verification/CaptureRepairSpec.v ===== *)
(** * What the metadata-capture repair promises

    It lets the checkpoint advance only when every asset of its batch was
    refreshed or is confirmed to be deleted at the source. *)
From S2P Require Import Prelude RustStr Paths Types StateTypes StateDb StateDbSpec StateReads Filter Stats Checkpoint Context Albums Cycle Source SourceDb Hydrate Incremental CaptureRepair FilterSpec Collision Planner.

Section CaptureRepairSpec.
Context {St : Type} `{FilterEnv, StateEnv, SourceStore St, LegacyOwnerStore St, CaptureStore St}.
Context (rc : RunConfig) (refresh_metadata : bool) (is_cancelled : St → bool).
Context (resolve_records : SyncPass → list RecordLookupRequest → St → St * RecordResolutionBatch * Z).
Context {LookupError : Type} (to_string : LookupError → str).
Context (hydrate_matching_master_assets_from_changes : SyncPass → gset str → St → St * result LookupError (list PhotoAsset)).
Context (name_order : gset str → list str) (state_error_to_string : StateError → str).
(** A hash map is walked once. *)
Context (name_order_all : ∀ X, name_order X ≡ₚ elements X).

(** The row carries current metadata, or is marked as deleted at the source. *)
Definition settled (c : MetadataCaptureCandidate) : Prop :=
  (∃ m s s' n, so_refresh_downloaded_asset_metadata (mcc_library c) (mcc_asset_id c) m (rc_any_metadata_write rc) false METADATA_CAPTURE_REVISION s
     = (s' : St, Ok n) ∧ 0 < n) ∨
  (∃ t s s' n, so_resolve_source_deleted (mcc_library c) (mcc_asset_id c) t s = (s' : St, Ok n)) ∨
  (∃ t s s' n, so_resolve_master_family_source_deleted (mcc_library c) (mcc_master_record_name c) t s = (s' : St, Ok n)).

Abbreviation Candidates := (gmap str MetadataCaptureCandidate).
(** A failure was counted, or every candidate is settled or still to be done. *)
Record kept (cs : list MetadataCaptureCandidate) (by_id : Candidates) (r : MetadataCaptureRepair) : Prop := {
  kp_count : 0 <= mcr_failures r;
  kp_keys id c : by_id !! id = Some c → mcc_asset_id c = id;
  kp_all : 0 < mcr_failures r ∨ ∀ c, c ∈ cs → settled c ∨ by_id !! mcc_asset_id c = Some c;
}.

Lemma add_pos a b : 0 <= a → 0 <= b → 0 < a ∨ 0 < b → 0 < add a b.
Proof. unfold saturating_add, USIZE_MAX, U64_MAX. lia. Qed.

Lemma kept_counts cs by_id r refreshed writes : kept cs by_id r → kept cs by_id (repair_counts refreshed 0 writes r).
Proof.
  intros [Hc Hk Ha]. split; cbn; [|done|].
  - unfold saturating_add, USIZE_MAX, U64_MAX. lia.
  - destruct Ha as [?|?]; [left; apply add_pos; lia|by right].
Qed.
Lemma kept_marks cs by_id r a b c : kept cs by_id r → kept cs by_id (repair_marks a b c r).
Proof. by intros []. Qed.
Lemma kept_failed cs by_id by_id' r writes : kept cs by_id r → (∀ id c, by_id' !! id = Some c → mcc_asset_id c = id) →
  kept cs by_id' (repair_counts 0 1 writes r).
Proof. intros [Hc Hk Ha] Hk'. split; cbn; [|done|left; apply add_pos; lia]. unfold saturating_add, USIZE_MAX, U64_MAX. lia. Qed.
Lemma kept_delete_keys (cs : list MetadataCaptureCandidate) (by_id : Candidates) r id : kept cs by_id r → ∀ id' c, delete id by_id !! id' = Some c → mcc_asset_id c = id'.
Proof. intros [_ Hk _] id' c [_ Hl]%lookup_delete_Some. by apply Hk. Qed.

(** A candidate that is settled is to be done no more. *)
Lemma kept_settled cs by_id r id c : kept cs by_id r → by_id !! id = Some c → settled c → kept cs (delete id by_id) r.
Proof.
  intros Hr Hid Hs. pose proof (kept_delete_keys _ _ _ id Hr) as Hd. destruct Hr as [Hc Hk Ha]. split; [done..|].
  destruct Ha as [?|Ha]; [by left|right]. intros c' Hin. destruct (Ha c' Hin) as [?|Hl]; [by left|].
  destruct (decide (mcc_asset_id c' = id)) as [He|Hne]; [left; rewrite He in Hl; congruence|right; by rewrite lookup_delete_ne].
Qed.

Lemma record_failure_kept cs by_id by_id' lib error s r s' r' : record_failure lib error s r = (s' : St, r') → kept cs by_id r →
  (∀ id c, by_id' !! id = Some c → mcc_asset_id c = id) → kept cs by_id' r'.
Proof. unfold record_failure. destruct (cap_record_metadata_capture_failure _ _ _ s) as [s1 w]. intros [= _ <-]. by apply kept_failed. Qed.

Lemma refresh_kept cs by_id id c asset s r s' r' : by_id !! id = Some c →
  refresh_metadata_capture_candidate rc state_error_to_string c asset s r = (s' : St, r') → kept cs by_id r → kept cs (delete id by_id) r'.
Proof.
  unfold refresh_metadata_capture_candidate. intros Hid Hr Hk. pose proof (kept_delete_keys _ _ _ id Hk) as Hd.
  destruct (so_upsert_asset_master_mapping _ _ _ s) as [s1 [|e]]; [|by eapply record_failure_kept].
  destruct (so_refresh_downloaded_asset_metadata _ _ _ _ _ _ s1) as [s2 [n|e]] eqn:E; [|by eapply record_failure_kept].
  destruct (Z.ltb_spec 0 n); [|by eapply record_failure_kept]. injection Hr as _ <-. apply kept_counts. eapply kept_settled; [done..|].
  left. by eexists _, _, _, _.
Qed.

Abbreviation answers_of := (apply_capture_answers rc is_cancelled state_error_to_string).
Lemma apply_answers_kept cs answers : ∀ by_id legacy s r s' r' by_id' legacy',
  answers_of answers by_id legacy s r = (s' : St, (r', by_id', legacy')) → kept cs by_id r → kept cs by_id' r'.
Proof.
  induction answers as [|[state_id resolution] answers IH]; intros by_id legacy s r s' r' by_id' legacy'; cbn [apply_capture_answers]; intros Hr Hk.
  { by injection Hr as _ <- <- _. }
  destruct (is_cancelled s). { by injection Hr as _ <- <- _. }
  destruct (by_id !! state_id) as [c|] eqn:Ec; [|by eapply IH].
  pose proof (kept_delete_keys _ _ _ state_id Hk) as Hd.
  assert (Hfail : ∀ lib error s s1 r1, record_failure lib error s r = (s1, r1) →
    answers_of answers (delete state_id by_id) legacy s1 r1 = (s', (r', by_id', legacy')) → kept cs by_id' r').
  { intros lib error s0 s1 r1 E1 Hr1. eapply IH; [exact Hr1|]. by eapply record_failure_kept. }
  cbv zeta in Hr. destruct resolution as [asset| | |d family| |error].
  - destruct (refresh_metadata_capture_candidate _ _ _ _ s r) as [s1 r1] eqn:E1. eapply IH; [exact Hr|]. by eapply refresh_kept.
  - destruct (record_failure _ _ s r) as [s1 r1] eqn:E1. by eapply Hfail.
  - eapply IH; [exact Hr|]. rewrite (kp_keys _ _ _ Hk _ _ Ec), insert_delete_eq, insert_id by done. done.
  - destruct (if family then _ else _) as [s1 [n|e]] eqn:E1.
    + eapply IH; [exact Hr|]. eapply kept_settled; [done..|]. destruct family; right; [right|left]; by eexists _, _, _, _.
    + destruct (record_failure _ _ s1 r) as [s2 r2] eqn:E2. by eapply Hfail.
  - destruct (record_failure _ _ s r) as [s1 r1] eqn:E1. by eapply Hfail.
  - destruct (record_failure _ _ s r) as [s1 r1] eqn:E1. by eapply Hfail.
Qed.

Lemma repair_legacy_kept cs by_id id c children s r s' r' : by_id !! id = Some c →
  repair_legacy rc state_error_to_string c id children s r = (s' : St, r') → kept cs by_id r → kept cs (delete id by_id) r'.
Proof.
  unfold repair_legacy. intros Hid Hr Hk. pose proof (kept_delete_keys _ _ _ id Hk) as Hd.
  destruct (List.filter _ children) as [|asset [|]]; [by eapply record_failure_kept| |by eapply record_failure_kept].
  destruct (db_claim_legacy_master_state_owner _ _ _ s) as [s1 [[]|e]]; [|by eapply record_failure_kept..]. by eapply refresh_kept.
Qed.
Lemma repair_legacy_all_kept cs ids : ∀ assets by_id s r s' r' by_id',
  repair_legacy_all rc state_error_to_string ids assets by_id s r = (s' : St, (r', by_id')) → kept cs by_id r → kept cs by_id' r'.
Proof.
  induction ids as [|id ids IH]; intros assets by_id s r s' r' by_id'; cbn [repair_legacy_all]; intros Hr Hk; [by injection Hr as _ <- <-|].
  destruct (by_id !! id) as [c|] eqn:Ec; [|by eapply IH]. cbv zeta in Hr.
  destruct (repair_legacy _ _ _ _ _ s r) as [s1 r1] eqn:E1. eapply IH; [exact Hr|]. by eapply repair_legacy_kept.
Qed.
Lemma fail_candidates_kept cs error ids : ∀ by_id s r s' r' by_id',
  fail_candidates ids error by_id s r = (s' : St, (r', by_id')) → kept cs by_id r →
  kept cs by_id' r' ∧ ∀ id, id ∈ ids ∨ by_id !! id = None → by_id' !! id = None.
Proof.
  induction ids as [|id ids IH]; intros by_id s r s' r' by_id'; cbn [fail_candidates]; intros Hr Hk.
  { injection Hr as _ <- <-. split; [done|set_solver]. }
  destruct (by_id !! id) as [c|] eqn:Ec.
  - destruct (record_failure _ _ s r) as [s1 r1] eqn:E1. destruct (IH _ _ _ _ _ _ Hr) as [Hk' Hn].
    { eapply record_failure_kept; [done..|]. by eapply kept_delete_keys. }
    split; [done|]. intros id' Hid. apply Hn. destruct (decide (id' = id)) as [->|Hne]; [right; apply lookup_delete_eq|].
    rewrite lookup_delete_ne by done. set_solver.
  - destruct (IH _ _ _ _ _ _ Hr Hk) as [Hk' Hn]. split; [done|]. intros id' Hid. apply Hn. set_solver.
Qed.

Lemma hydrate_legacy_masters_kept cs pass legacy by_id s r s' r' by_id' :
  hydrate_legacy_masters rc is_cancelled to_string hydrate_matching_master_assets_from_changes name_order state_error_to_string pass legacy by_id s r
    = (s' : St, (r', by_id')) → kept cs by_id r → kept cs by_id' r'.
Proof.
  unfold hydrate_legacy_masters. destruct (_ || _); [by intros [= _ <- <-]|].
  destruct (hydrate_matching_master_assets_from_changes pass legacy s) as [s1 [assets|e]]; intros Hr Hk.
  - by eapply repair_legacy_all_kept.
  - by apply (fail_candidates_kept cs) in Hr as [? _].
Qed.

Lemma block_blocks r : mcr_blocked (block r) = true.
Proof. apply orb_true_r. Qed.
Lemma block_if_free (c : bool) r : mcr_blocked (if c then block r else r) = false → c = false.
Proof. destruct c; [by rewrite block_blocks|done]. Qed.

Abbreviation finish_run := (finish_capture_repair rc).
Lemma finish_unblocked n s r s' r' : 0 <= mcr_failures r → finish_run n s r = (s' : St, r') →
  mcr_blocked r' = false → mcr_failures r = 0 ∧ mcr_interrupted r = false.
Proof.
  unfold finish_capture_repair. intros Hn. destruct (cap_complete_metadata_capture_revision _ _ s) as [s1 [status|e]];
    intros [= _ <-] [Hf Hi]%block_if_free%orb_false_iff; cbn in *.
  - apply Z.ltb_ge in Hf. split; [lia|done].
  - apply Z.ltb_ge in Hf. pose proof (add_pos (mcr_failures r) 1). lia.
Qed.

Abbreviation repair_run := (run_metadata_capture_repair rc refresh_metadata is_cancelled resolve_records to_string
  hydrate_matching_master_assets_from_changes name_order state_error_to_string).
Abbreviation batch_run := (repair_batch rc is_cancelled resolve_records to_string
  hydrate_matching_master_assets_from_changes name_order state_error_to_string).

Lemma repair_batch_settles pass cs n s r s' r' : NoDup (mcc_asset_id <$> cs) → mcr_failures r = 0 →
  batch_run pass cs n s r = (s' : St, r') → mcr_blocked r' = false → ∀ c, c ∈ cs → settled c.
Proof.
  intros Hd Hf. unfold repair_batch. set (by_id := list_to_map _).
  assert (Hl : ∀ id c, by_id !! id = Some c ↔ c ∈ cs ∧ mcc_asset_id c = id).
  { intros id c. subst by_id. rewrite <- elem_of_list_to_map; [|by rewrite <- Permutation_rev, <- list_fmap_compose].
    rewrite <- Permutation_rev, list_elem_of_fmap. naive_solver. }
  assert (Hk : kept cs by_id r). { split; [lia|by intros id c [_ ?]%Hl|right]. intros c Hin. right. by apply Hl. }
  destruct (resolve_records _ _ s) as [[s1 batch] observed].
  destruct (apply_capture_answers _ _ _ _ _ _ _ _) as [s2 [[r2 by_id2] legacy]] eqn:E2.
  eapply apply_answers_kept in E2; [|by apply kept_marks].
  destruct (hydrate_legacy_masters _ _ _ _ _ _ _ _ _ s2 r2) as [s3 [r3 by_id3]] eqn:E3. eapply hydrate_legacy_masters_kept in E3; [|done].
  destruct (is_cancelled s3).
  { intros Hr Hb. eapply finish_unblocked in Hr as [_ Hi]; [|apply E3|done]. cbn in Hi. by rewrite orb_true_r in Hi. }
  destruct (fail_candidates _ _ by_id3 s3 r3) as [s4 [r4 by_id4]] eqn:E4. apply (fail_candidates_kept cs) in E4 as [Hk4 Hn]; [|done].
  intros Hr Hb c Hin. eapply finish_unblocked in Hr as [Hz _]; [|apply Hk4|done].
  destruct (kp_all _ _ _ Hk4) as [?|Ha]; [lia|]. destruct (Ha c Hin) as [?|Hc]; [done|].
  rewrite Hn in Hc; [done|]. destruct (by_id3 !! mcc_asset_id c) eqn:E; [left|by right].
  rewrite name_order_all, elem_of_elements, elem_of_dom. by eexists.
Qed.

(** C17: The refresh of captured metadata never lets a stale asset pass silently.
    A repair that does not hold the checkpoint back found no stale asset, or
    every asset of the batch it took - the first 500 by their id - had its row
    refreshed at the current revision or is recorded as deleted at the source;
    whatever the provider answered, left out or failed to answer, and whichever
    calls of the store failed. *)
Theorem capture_repair_settles passes s s' r :
  (∀ lib n k s s' cs, cap_get_metadata_capture_candidates lib n k s = (s' : St, Ok cs) → NoDup (mcc_asset_id <$> cs)) →
  downloads_files (rc_run_mode rc) = true → refresh_metadata = false → rc_has_db rc = true →
  repair_run passes s = (s', r) → mcr_blocked r = false →
  ∃ s1 initial, cap_begin_metadata_capture_revision (library (rc_config rc)) METADATA_CAPTURE_REVISION s = (s1, Ok initial) ∧
    (mc_remaining_assets initial = 0 ∨
     ∃ s2 cs, cap_get_metadata_capture_candidates (library (rc_config rc)) METADATA_CAPTURE_REVISION METADATA_CAPTURE_BATCH s1 = (s2, Ok cs) ∧
       ∀ c, c ∈ cs → settled c).
Proof.
  intros Hd Hdl Hrf Hdb. unfold run_metadata_capture_repair. rewrite Hdl, Hrf, Hdb. cbn [negb orb].
  destruct (cap_begin_metadata_capture_revision _ _ s) as [s1 [initial|e]] eqn:Eb; [|by intros [= _ <-] Hb%(block_if_free true)].
  intros Hr Hb. exists s1, initial. split; [done|]. destruct (Z.eqb_spec (mc_remaining_assets initial) 0) as [|Hn]; [by left|right].
  destruct passes as [|pass passes].
  { destruct (record_failure _ _ s1 _) as [s2 r2]. injection Hr as _ <-. by apply (block_if_free true) in Hb. }
  destruct (cap_get_metadata_capture_candidates _ _ _ s1) as [s2 [cs|e]] eqn:Ec.
  - exists s2, cs. split; [done|]. intros c. eapply repair_batch_settles; [by eapply Hd| |exact Hr|exact Hb]. reflexivity.
  - destruct (record_failure _ _ s2 _) as [s3 r3]. injection Hr as _ <-. by apply (block_if_free true) in Hb.
Qed.
End CaptureRepairSpec.

(** ** The interface on the SQLite store *)

#[export] Instance SourceDb_capture : CaptureStore SourceDb := {
  cap_begin_metadata_capture_revision l n := scall (on_rows (λ d, Ok (begin_metadata_capture_revision l n d)));
  cap_get_metadata_capture_candidates l n k := scall (on_rows (λ d, cs ← get_metadata_capture_candidates l n k d; mret (d, cs)));
  cap_record_metadata_capture_failure l n e := scall (on_rows (λ d, Ok (record_metadata_capture_failure l n e d, tt)));
  cap_complete_metadata_capture_revision l n := scall (on_rows (λ d, Ok (complete_metadata_capture_revision l n d)));
}.

Lemma capture_candidates_ids d lib ids : ∀ cs, capture_candidates d lib ids = Ok cs → mcc_asset_id <$> cs = ids.
Proof.
  induction ids as [|id ids IH]; cbn; intros cs Hc; [by injection Hc as <-|]. unfold capture_candidate in Hc.
  destruct (mapM _ _) as [versions|]; [|done]. cbn in Hc. destruct (capture_candidates d lib ids) as [cs'|]; [|done].
  cbn in Hc. injection Hc as <-. cbn. f_equal. by apply IH.
Qed.
Lemma limit_sublist {A} n (l : list A) : limit n l `sublist_of` l.
Proof. revert n. induction l as [|a l IH]; intros n; cbn; [done|]. destruct (0 <? n); [by apply sublist_skip|apply sublist_nil_l]. Qed.
Lemma sqlite_candidates_once lib n k s s' cs : cap_get_metadata_capture_candidates lib n k s = (s' : SourceDb, Ok cs) → NoDup (mcc_asset_id <$> cs).
Proof.
  cbn. unfold scall, on_rows. destruct (sd_faults s) as [|[]]; [|done|];
    (destruct (get_metadata_capture_candidates lib n k (sd_db s)) as [cs'|] eqn:E; cbn; intros [= _ <-];
     unfold get_metadata_capture_candidates in E; rewrite (capture_candidates_ids _ _ _ _ E);
     eapply sublist_NoDup; [|apply limit_sublist]; rewrite order_by_perm; apply NoDup_elements).
Qed.

(** ** Runs *)

Module CaptureRuns.
Import StateDbSpec.Samples.
#[export] Existing Instance sample_filter_env.

Definition rc : RunConfig :=
  {| rc_config := sample_config; rc_has_db := true; rc_any_metadata_write := true; rc_recent := None; rc_run_mode := Download |}.
(** Two downloads recorded by an older revision. *)
Definition old : Db :=
  let d := StateDbSpec.run (downloaded ++ [OMarkDownloaded 1700000001000000000 (key "B") (lit "/photos/IMG_2.HEIC") (lit "sha-b") None false]) Db_empty in
  set_capture d ∅ (metadata_capture_state d).
Definition start : SourceDb := {| sd_db := old; sd_albums := AlbumDb_empty; sd_now := 5; sd_faults := [] |}.
Definition resolution_of (known : bool) (state_id : str) : RecordResolution :=
  if str_eqb state_id (lit "A") then Present sample_asset else if known then Deleted None false else Unknown.
Definition lookup (known : bool) (p : SyncPass) (requests : list RecordLookupRequest) (s : SourceDb) : SourceDb * RecordResolutionBatch * Z :=
  (s, {| rb_results := (λ r, (rl_state_id r, resolution_of known (rl_state_id r))) <$> requests; rb_complete := true |}, 0).
Definition pass : SyncPass :=
  {| sp_pass := {| pass_kind := PassUnfiled; pass_album_name := []; pass_exclude_ids := ∅ |}; sp_container_id := None |}.
Definition repaired (known : bool) : SourceDb * MetadataCaptureRepair :=
  run_metadata_capture_repair rc false (λ _, false) (lookup known) (λ e : unit, lit "error") (λ _ _ s, (s, Ok [])) elements (λ _, lit "error") [pass] start.

Definition report (o : SourceDb * MetadataCaptureRepair) :=
  (mcr_refreshed o.2, mcr_failures o.2, mcr_remaining o.2, mcr_blocked o.2).
Example all_settled : report (repaired true) = (1, 0, 0, false). Proof. vm_compute. reflexivity. Qed.
Example unknown_holds : report (repaired false) = (1, 1, 1, true). Proof. vm_compute. reflexivity. Qed.

Lemma elements_all (X : gset str) : elements X ≡ₚ elements X.
Proof. reflexivity. Qed.
Lemma capture_repair_settles_witness : ∃ s1 initial, cap_begin_metadata_capture_revision (lit "PrimarySync") METADATA_CAPTURE_REVISION start = (s1, Ok initial) ∧
  mc_remaining_assets initial = 2 ∧
  ∃ s2 cs, cap_get_metadata_capture_candidates (lit "PrimarySync") METADATA_CAPTURE_REVISION METADATA_CAPTURE_BATCH s1 = (s2, Ok cs) ∧
    ∀ c, c ∈ cs → settled (St := SourceDb) rc c.
Proof.
  assert (Ha : report (repaired true) = (1, 0, 0, false)) by (vm_compute; reflexivity).
  destruct (repaired true) as [s' r] eqn:E. unfold repaired in E.
  assert (Hb : mcr_blocked r = false). { unfold report in Ha. cbn [snd] in Ha. congruence. }
  destruct (capture_repair_settles rc false (λ _, false) (lookup true) (λ e : unit, lit "error") (λ _ _ s, (s, Ok [])) elements (λ _, lit "error")
    elements_all [pass] start s' r sqlite_candidates_once eq_refl eq_refl eq_refl E Hb) as (s1 & initial & Hbegin & Hc).
  assert (Hn : (λ o : SourceDb * result StateError MetadataCaptureStatus, match o.2 with Ok i => mc_remaining_assets i | Err _ => 0 end)
    (cap_begin_metadata_capture_revision (lit "PrimarySync") METADATA_CAPTURE_REVISION start) = 2) by (vm_compute; reflexivity).
  change (library (rc_config rc)) with (lit "PrimarySync") in Hbegin, Hc. rewrite Hbegin in Hn. cbn in Hn.
  exists s1, initial. split; [exact Hbegin|]. split; [exact Hn|]. destruct Hc as [Hz|Hc]; [lia|exact Hc].
Defined.
End CaptureRuns.
