(* ===== verification/Engine.v ===== *)
(** * The download engine: [download_photos_with_sync] of [src/download/mod.rs]

    One run for a library: housekeeping, the repair of captured metadata, the
    choice between a full enumeration and the change stream with its two mixed
    forms, the fallback when the change stream fails, the retry of pending
    assets, and the promotion of what is still pending.

    The runs it is made of are parameters, with their models in [FullPass],
    [Incremental], [PendingRetry] and [CaptureRepair]; the incremental run over
    a single unfiled pass ([download_photos_incremental_streaming]) and the
    removal of orphaned part files are parameters too. *)
From Stdlib Require Import SpecFloat.
From S2P Require Import Prelude RustStr Paths Types StateTypes StateDb Filter Stats Checkpoint Finalize Planner Context Albums Cycle Source Delta Hydrate OnDisk UrlRefresh Incremental PassRun Outcome Call FullPass PendingRetry CaptureRepair.

(** ** Errors of an incremental run *)

(** What [reqwest::Error] answers. *)
Record ReqwestError := { rq_status : option Z; rq_is_timeout : bool; rq_is_connect : bool }.
Inductive IncrementalErrorClass := TokenFallback | TransientFailure | StaticFallback.

Definition is_transient_reqwest_error (e : ReqwestError) : bool :=
  match rq_status e with Some status => (status =? 429) || (500 <=? status) | None => false end || rq_is_timeout e || rq_is_connect e.

(** [anyhow::Error::downcast_ref]. *)
Class ErrorDowncast (E : Type) := {
  as_sync_token_error : E → option SyncTokenError;
  is_auth_error : E → bool;
  as_reqwest_error : E → option ReqwestError;
}.
Definition classify_incremental_error `{ErrorDowncast E} (e : E) : IncrementalErrorClass :=
  if match as_sync_token_error e with Some t => should_fallback_to_full t | None => false end then TokenFallback
  else if is_auth_error e || match as_reqwest_error e with Some r => is_transient_reqwest_error r | None => false end then TransientFailure
  else StaticFallback.

(** ** Results *)

Definition TARGETED_ALBUM_BACKFILL_FAILED_REASON : str := lit "targeted_album_backfill_failed".
Definition SMART_FOLDER_REFRESH_FAILED_REASON : str := lit "smart_folder_refresh_failed".

Definition set_full_enumeration_reason (r : SyncResult) (reason : FullEnumerationReason) : SyncResult :=
  if full_enumeration_ran r && match full_enumeration_reason (stats r) with None => true | Some _ => false end then
    let d := diagnostics (stats r) in
    {| outcome := outcome r; sync_token := sync_token r; full_enumeration_ran := full_enumeration_ran r;
       stats := with_diagnostics {|
         d_inventory_drop_warnings := d_inventory_drop_warnings d; d_inventory_drop_assets := d_inventory_drop_assets d;
         d_inventory_drop_percent := d_inventory_drop_percent d; d_inventory_drop_previous_total := d_inventory_drop_previous_total d;
         d_inventory_drop_current_total := d_inventory_drop_current_total d; d_inventory_drop_library := d_inventory_drop_library d;
         d_sync_token_blocked := d_sync_token_blocked d; d_sync_token_blocked_reason := d_sync_token_blocked_reason d;
         d_sync_token_blocked_source := d_sync_token_blocked_source d;
         d_sync_token_blocked_explanation := d_sync_token_blocked_explanation d;
         d_full_enumeration_reason := Some reason; d_sync_token_blocked_zone := d_sync_token_blocked_zone d |} (stats r) |}
  else r.

Definition clear_full_query_token_block_stats (s : SyncStats) : SyncStats := {|
  assets_seen := assets_seen s; api_total_at_start := api_total_at_start s;
  api_total_at_start_partial := api_total_at_start_partial s; downloaded := downloaded s; failed := failed s;
  skipped := skipped s; bytes_downloaded := bytes_downloaded s; disk_bytes_written := disk_bytes_written s;
  exif_failures := exif_failures s; metadata_capture_revision := metadata_capture_revision s;
  metadata_capture_refreshed := metadata_capture_refreshed s;
  metadata_capture_failures := metadata_capture_failures s;
  metadata_capture_remaining := metadata_capture_remaining s;
  metadata_capture_progressed := metadata_capture_progressed s; state_write_failures := state_write_failures s;
  enumeration_errors := enumeration_errors s; count_probe_failures := count_probe_failures s;
  stale_pending_pruned := stale_pending_pruned s; pagination_shortfall_warnings := pagination_shortfall_warnings s;
  pagination_shortfall_assets := pagination_shortfall_assets s; tail_probes := tail_probes s;
  count_undercount_assets := count_undercount_assets s; enumeration_incomplete := enumeration_incomplete s;
  inventory_drop_warnings := inventory_drop_warnings s; inventory_drop_assets := inventory_drop_assets s;
  inventory_drop_percent := inventory_drop_percent s;
  inventory_drop_previous_total := inventory_drop_previous_total s;
  inventory_drop_current_total := inventory_drop_current_total s; inventory_drop_library := inventory_drop_library s;
  sync_token_blocked := false; sync_token_blocked_reason := None; sync_token_blocked_source := None;
  sync_token_blocked_explanation := None; full_enumeration_reason := full_enumeration_reason s;
  sync_token_blocked_zone := None; sync_token_expected_receivers := None; sync_token_receivers_with_token := None;
  sync_token_receivers_missing := None; sync_token_receivers_blank := None; sync_token_receivers_dropped := None;
  sync_token_unique_values := None; same_cycle_recovery_attempts := same_cycle_recovery_attempts s;
  same_cycle_recovery_successes := same_cycle_recovery_successes s;
  checkpoint_retry_passes := checkpoint_retry_passes s;
  checkpoint_revalidate_records := checkpoint_revalidate_records s; elapsed_secs := elapsed_secs s;
  interrupted := interrupted s; rate_limited := rate_limited s; photos_downloaded := photos_downloaded s;
  videos_downloaded := videos_downloaded s; recap := recap s |}.

Definition is_success (o : DownloadOutcome) : bool := match o with Success => true | _ => false end.
Definition make_result (o : DownloadOutcome) (token : option str) (st : SyncStats) (ran : bool) : SyncResult :=
  {| outcome := o; sync_token := token; stats := st; full_enumeration_ran := ran |}.

(** ** The store *)

Class EngineStore (St : Type) := {
  eg_has_downloaded_without_metadata_hash : St → St * result StateError bool;
  eg_prune_source_deleted_retries : option str → St → St * result StateError Z;
  eg_prepare_for_retry : option str → RetryErrorRetention → St → St * result StateError (Z * Z * Z);
  eg_promote_pending_to_failed : Z → St → St * result StateError Z;
}.

Record EngineConfig `{FilterEnv} := {
  ec_full :> FullConfig;
  ec_repair_truncated : bool;
}.

Section Engine.
Context `{FilterEnv, StateEnv, IndexOrder} {St E : Type} `{ErrorDowncast E}.
Context `{SourceStore St, EngineStore St, PendingRetryStore St}.
Context (ec : EngineConfig) (fuel : nat) (is_cancelled : St → bool) (now : St → Z) (elapsed : St → spec_float).
(** The runs: a full enumeration of passes under a scope of recent assets, and
    whether token gaps are repaired; the change stream of one zone over passes;
    the pending retries and a pass over tasks; the metadata repair. *)
Context (full_policy : FullConfig → list SyncPass → bool → Call St E SyncResult).
Context (collecting : list SyncPass → str → Call St E SyncResult) (streaming : SyncPass → str → Call St E SyncResult).
Context (build_pending_retry : list SyncPass → Call St E PendingRetryPlan).
Context {LookupError : Type} (hydrate_matching_assets_from_changes : SyncPass → gset str → St → St * result LookupError (list PhotoAsset)).
Context (run_download_pass : list DownloadTask → St → St * PassResult).
Context (capture_repair : list SyncPass → St → St * MetadataCaptureRepair).
Context (cleanup_orphan_part_files : St → St).

Abbreviation M := (Call St E).
Abbreviation fc := (ec_full ec).
Abbreviation config := (rc_config (fc_rc (ec_full ec))).
Abbreviation has_db := (rc_has_db (fc_rc (ec_full ec))).
Abbreviation mode_of_run := (rc_run_mode (fc_rc (ec_full ec))).
Abbreviation reads_only := (only_print_filenames (rc_run_mode (fc_rc (ec_full ec))) || is_dry_run (rc_run_mode (fc_rc (ec_full ec)))).

Definition is_smart_folder (p : SyncPass) : bool := bool_decide (pass_kind p = PassSmartFolder).

(** ** Full enumerations *)

Definition download_photos_full_with_reason (passes : list SyncPass) (reason : FullEnumerationReason) : M SyncResult :=
  r ← full_policy fc passes true;
  mret (set_full_enumeration_reason r reason).

(** ** The change stream *)

Definition download_photos_incremental (passes : list SyncPass) (token : str) : M SyncResult :=
  match single_unfiled_streaming_pass passes (rc_recent (fc_rc fc)) (from_passes passes) with
  | Some pass => streaming pass token
  | None => collecting passes token
  end.

Definition unblocked_token (st : SyncStats) (token : option str) : option str := if sync_token_blocked st then None else token.

Definition with_recent_scope (c : FullConfig) (scope : RecentScope) : FullConfig :=
  {| fc_rc := fc_rc c; fc_recent_scope := scope; fc_concurrent_downloads := fc_concurrent_downloads c;
     fc_enum_config_hash := fc_enum_config_hash c; fc_refresh_metadata := fc_refresh_metadata c |}.
Definition smart_folder_config : FullConfig :=
  match rc_recent (fc_rc fc), fc_recent_scope fc with
  | Some _, Global => with_recent_scope fc PerFilter
  | _, _ => fc
  end.

Definition failed_run (r : SyncResult) : bool :=
  negb (is_success (outcome r)) || interrupted (stats r) || (0 <? enumeration_errors (stats r)).

Definition download_photos_incremental_with_smart_folder_refresh (passes : list SyncPass) (token : str) : M SyncResult :=
  let '(incremental_passes, smart_folder_passes) := split_incremental_and_smart_folder_passes passes in
  match incremental_passes with
  | [] => full_policy fc smart_folder_passes true
  | _ =>
      r ← download_photos_incremental incremental_passes token;
      match smart_folder_passes with
      | [] => mret r
      | _ =>
          refresh ← full_policy smart_folder_config smart_folder_passes false;
          let refresh_failed := failed_run refresh in
          let refresh_stats := if refresh_failed then stats refresh else clear_full_query_token_block_stats (stats refresh) in
          let combined := accumulate (stats r) refresh_stats in
          let combined := if refresh_failed then block_sync_token_for_incremental_delta combined SMART_FOLDER_REFRESH_FAILED_REASON
                          else combined in
          mret (make_result (merge_download_outcomes (outcome r) (outcome refresh)) (unblocked_token combined (sync_token r)) combined
                  (full_enumeration_ran r || full_enumeration_ran refresh))
      end
  end.

Definition incremental_or_mixed (passes : list SyncPass) (token : str) : M SyncResult :=
  if existsb is_smart_folder passes then download_photos_incremental_with_smart_folder_refresh passes token
  else download_photos_incremental passes token.

(** ** Albums without a snapshot *)

Definition targeted_backfill_snapshots_complete (passes : list SyncPass) : M bool :=
  if negb has_db then mret false
  else
    complete ← run (so_selected_album_containers_have_complete_snapshots (library config) (omap sp_container_id passes));
    mret (match complete with Ok complete => complete | Err _ => false end).

Definition download_photos_incremental_with_targeted_album_backfill (passes : list SyncPass) (token : str)
    (backfill_pass_indices : list nat) (reason : FullEnumerationReason) : M SyncResult :=
  let backfill_passes := omap (λ i, passes !! i) backfill_pass_indices in
  backfill ← download_photos_full_with_reason backfill_passes reason;
  cancelled ← get is_cancelled;
  complete ← (if failed_run backfill || cancelled then mret false else targeted_backfill_snapshots_complete backfill_passes);
  if negb complete then
    mret (make_result (outcome backfill) None
            (block_sync_token_for_incremental_delta (stats backfill) TARGETED_ALBUM_BACKFILL_FAILED_REASON) (full_enumeration_ran backfill))
  else
    r ← incremental_or_mixed passes token;
    let combined := accumulate (clear_full_query_token_block_stats (stats backfill)) (stats r) in
    mret (make_result (merge_download_outcomes (outcome backfill) (outcome r)) (unblocked_token combined (sync_token r)) combined
            (full_enumeration_ran backfill || full_enumeration_ran r)).

(** ** Pending retries *)

Definition recovery_stats (x : PassResult) (failed unmatched : Z) (revalidate : list str) (s : St) : SyncStats :=
  delta_stats {|
    st_downloaded := pr_downloaded x; st_failed := saturating_add USIZE_MAX failed unmatched; st_skipped := SkipBreakdown_default;
    st_bytes_downloaded := pr_bytes_downloaded x; st_disk_bytes_written := pr_disk_bytes_written x;
    st_exif_failures := pr_exif_failures x; st_state_write_failures := pr_state_write_failures x; st_enumeration_errors := 0;
    st_revalidate_records := revalidate; st_elapsed_secs := elapsed s;
    st_interrupted := is_cancelled s || (AUTH_ERROR_THRESHOLD <=? pr_auth_errors x); st_rate_limited := pr_rate_limit_observations x;
    st_photos_downloaded := pr_photos_downloaded x; st_videos_downloaded := pr_videos_downloaded x; st_recap := pr_recap x |}.

Definition pending_retry_no_download_result (unmatched downloaded : Z) (s : St) : SyncResult :=
  make_result (outcome_of unmatched) None
    (delta_stats {|
       st_downloaded := downloaded; st_failed := unmatched; st_skipped := SkipBreakdown_default; st_bytes_downloaded := 0;
       st_disk_bytes_written := 0; st_exif_failures := 0; st_state_write_failures := 0; st_enumeration_errors := 0;
       st_revalidate_records := []; st_elapsed_secs := elapsed s; st_interrupted := is_cancelled s; st_rate_limited := 0;
       st_photos_downloaded := 0; st_videos_downloaded := 0; st_recap := RunRecap_default |}) false.

Definition run_targeted_recovery_pass (passes : list SyncPass) : M SyncResult :=
  plan ← build_pending_retry passes;
  let unmatched := zlen (rp_unmatched_targets plan) in
  if rp_requested plan =? 0 then get (pending_retry_no_download_result 0 0)
  else if only_print_filenames mode_of_run then get (pending_retry_no_download_result unmatched 0)
  else if is_dry_run mode_of_run then get (pending_retry_no_download_result unmatched (zlen (rp_tasks plan)))
  else
    match rp_tasks plan with
    | [] => get (pending_retry_no_download_result unmatched 0)
    | tasks =>
        x ← (λ s, match run_with_url_retry is_cancelled hydrate_matching_assets_from_changes AUTH_ERROR_THRESHOLD run_download_pass fuel
                          passes (rp_pass_configs plan) (rp_retry_sources plan) tasks s with
                  | Some (s, x) => Some (s, Ok x)
                  | None => None
                  end);
        let failed := zlen (pr_failed x) in
        st ← get (recovery_stats x failed unmatched (pt_asset_id <$> rp_unmatched_targets plan));
        if AUTH_ERROR_THRESHOLD <=? pr_auth_errors x then
          mret (make_result (SessionExpired (pr_auth_errors x)) None st false)
        else mret (make_result (outcome_of (failed + unmatched + pr_exif_failures x + pr_state_write_failures x)) None st false)
    end.

(** The result of a retry that could not be planned. *)
Definition failed_recovery : SyncResult :=
  make_result (PartialFailure 1) None
    (delta_stats {|
       st_downloaded := 0; st_failed := 1; st_skipped := SkipBreakdown_default; st_bytes_downloaded := 0; st_disk_bytes_written := 0;
       st_exif_failures := 0; st_state_write_failures := 0; st_enumeration_errors := 0; st_revalidate_records := [];
       st_elapsed_secs := S754_zero false; st_interrupted := false; st_rate_limited := 0; st_photos_downloaded := 0;
       st_videos_downloaded := 0; st_recap := RunRecap_default |}) false.

Definition append_targeted_recovery_to_sync_result (passes : list SyncPass) (r : SyncResult) : M SyncResult :=
  cancelled ← get is_cancelled;
  if negb (is_success (outcome r)) || interrupted (stats r) || cancelled then mret r
  else
    retry ← catch (run_targeted_recovery_pass passes);
    let retry := match retry with Ok retry => retry | Err _ => failed_recovery end in
    let combined := accumulate (stats r) (stats retry) in
    mret (make_result (merge_download_outcomes (outcome r) (outcome retry))
            (if sync_token_blocked combined || interrupted combined || reads_only then None else sync_token r) combined
            (full_enumeration_ran r || full_enumeration_ran retry)).

(** ** The run *)

Definition has_metadata_backfill_work : M bool :=
  if negb has_db then mret false
  else r ← run eg_has_downloaded_without_metadata_hash; mret (match r with Ok b => b | Err _ => false end).

(** Failed rows become pending, with their attempts forgotten. *)
Definition reset_retries : M unit :=
  if negb has_db then mret tt
  else
    _ ← run (eg_prune_source_deleted_retries (Some (library config)));
    _ ← run (eg_prepare_for_retry (Some (library config)) (if ec_repair_truncated ec then StateTypes.Preserve FILE_TRUNCATED_REASON else Clear));
    mret tt.

Definition is_incremental (m : SyncMode) : bool := match m with Incremental _ => true | Full => false end.

Definition incremental_run (passes : list SyncPass) (token : str) : M SyncResult :=
  decision ← run (determine_incremental_routing_decision (library config) has_db passes (is_dry_run mode_of_run)
                    (only_print_filenames mode_of_run) (bounded_run fc));
  match decision with
  | NeedsFull reason => download_photos_full_with_reason passes reason
  | TargetedAlbumBackfill indices reason => download_photos_incremental_with_targeted_album_backfill passes token indices reason
  | RouteSafe =>
      r ← catch (incremental_or_mixed passes token);
      match r with
      | Ok r => mret r
      | Err e =>
          match classify_incremental_error e with
          | TokenFallback | StaticFallback => download_photos_full_with_reason passes OtherStaticReason
          | TransientFailure => throw e
          end
      end
  end.

Definition source_run (mode : SyncMode) (passes : list SyncPass) : M SyncResult :=
  match mode with
  | Full => full_policy fc passes true
  | Incremental token =>
      backfill ← has_metadata_backfill_work;
      if backfill : bool then download_photos_full_with_reason passes MetadataBackfill else incremental_run passes token
  end.

Definition add_capture_repair (repair : MetadataCaptureRepair) (r : SyncResult) : SyncResult :=
  let st := capture_stats repair in
  make_result (if 0 <? mcr_failures repair then merge_download_outcomes (outcome r) (PartialFailure (mcr_failures repair)) else outcome r)
    (if sync_token_blocked st then None else sync_token r) (accumulate (stats r) st) (full_enumeration_ran r).

Definition download_photos_with_sync (mode : SyncMode) (passes : list SyncPass) : M SyncResult :=
  sync_started_at ← get (λ s, timestamp (now s));
  _ ← run (λ s, (cleanup_orphan_part_files s, tt));
  _ ← when (is_incremental mode && has_db)
        (_ ← run pr_backfill_asset_master_mappings_from_album_memberships; mret tt);
  repair ← run (capture_repair passes);
  _ ← reset_retries;
  r ← source_run mode passes;
  r ← append_targeted_recovery_to_sync_result passes r;
  cancelled ← get is_cancelled;
  _ ← when (has_db && negb cancelled) (_ ← run (eg_promote_pending_to_failed sync_started_at); mret tt);
  mret (add_capture_repair repair r).
End Engine.
