(* ===== verification/EngineSpec.v ===== *)
(** * What the download engine promises

    Putting runs together hides nothing: the token of a combined run is the
    token of one of its runs that may be taken by itself, and a reported success
    means that every part succeeded. *)
From Stdlib Require Import SpecFloat.
From S2P Require Import Prelude RustStr Paths Types StateTypes StateDb Filter Stats Checkpoint Finalize Planner Context Albums Cycle Source Delta Hydrate OnDisk UrlRefresh Incremental PassRun Outcome Call FullPass PendingRetry CaptureRepair Engine StateDbSpec StateReads SourceDb PendingRetrySpec FilterSpec Collision.

(** ** Combined statistics *)

Abbreviation advances r t := (∃ dry stale basis basis', source_checkpoint_decision r dry stale basis = Advance t basis').

(** Nothing that holds the checkpoint back. *)
Record clean (st : SyncStats) : Prop := {
  cl_interrupted : interrupted st = false;
  cl_errors : enumeration_errors st <= 0;
  cl_complete : enumeration_incomplete st = false;
  cl_writes : state_write_failures st <= 0;
  cl_unblocked : sync_token_blocked st = false;
}.
Definition session_ok (o : DownloadOutcome) : Prop := ∀ n, o ≠ SessionExpired n.

Lemma advances_iff r t : advances r t ↔ session_ok (outcome r) ∧ clean (stats r) ∧ sync_token r = Some t ∧ is_blank t = false.
Proof.
  split.
  - intros (dry & stale & basis & basis' & Hd). revert Hd. unfold source_checkpoint_decision.
    destruct dry, stale; try done. destruct (outcome r) eqn:Eo; try done;
      (destruct (interrupted _) eqn:?; [done|]; destruct (Z.ltb_spec 0 (enumeration_errors (stats r))); [done|];
       destruct (enumeration_incomplete _) eqn:?; [done|]; destruct (Z.ltb_spec 0 (state_write_failures (stats r))); [done|];
       destruct (sync_token r) as [t'|]; [|done]; destruct (is_blank t') eqn:?; [done|];
       destruct (sync_token_blocked (stats r)) eqn:?; [done|]; intros [= <- <-]; split_and!; [by intros n| |done..]; by split).
  - intros (Ho & [Hi He Hc Hw Hb] & Ht & Hn). exists false, false, CompleteInventory, CompleteInventory. unfold source_checkpoint_decision.
    rewrite Hi, Hc, Ht, Hn, Hb. replace (0 <? enumeration_errors (stats r)) with false by (symmetry; apply Z.ltb_ge; lia).
    replace (0 <? state_write_failures (stats r)) with false by (symmetry; apply Z.ltb_ge; lia). cbn.
    destruct (outcome r) as [|n|]; try done. by destruct (Ho n).
Qed.

(** The counters the checkpoint reads are below [n]. *)
Definition small (n : Z) (st : SyncStats) : Prop := 0 <= enumeration_errors st <= n ∧ 0 <= state_write_failures st <= n.

Lemma accumulate_small n m a b : small n a → small m b → n + m <= U64_MAX → small (n + m) (accumulate a b).
Proof. intros [] [] Hnm. unfold small. cbn. rewrite !wrapping_add_small by lia. lia. Qed.
Lemma accumulate_clean n m a b : small n a → small m b → n + m <= U64_MAX → clean (accumulate a b) → clean a ∧ clean b.
Proof.
  intros [] [] Hnm [Hi He Hc Hw Hb]. cbn in *. rewrite !wrapping_add_small in * by lia.
  apply orb_false_iff in Hi as [], Hc as [], Hb as []. split; split; try done; lia.
Qed.

Lemma merge_success a b : merge_download_outcomes a b = Success → a = Success ∧ b = Success.
Proof. by destruct a, b. Qed.
Lemma merge_session_ok a b : session_ok (merge_download_outcomes a b) → session_ok a.
Proof. intros Hm n ->. by apply (Hm n). Qed.

Lemma block_not_clean st reason : ¬ clean (block_sync_token_for_incremental_delta st reason).
Proof. by intros [_ _ _ _ ?]. Qed.
Lemma capture_clean r : clean (capture_stats r) → mcr_blocked r = false.
Proof. unfold capture_stats. destruct (mcr_blocked r); [|done]. by intros ?%block_not_clean. Qed.
Lemma cleared_small n st : small n st → small n (clear_full_query_token_block_stats st).
Proof. by destruct st. Qed.
Lemma blocked_small n st reason : small n st → small n (block_sync_token_for_incremental_delta st reason).
Proof. by destruct st. Qed.

Lemma reason_set r reason : let r' := set_full_enumeration_reason r reason in
  outcome r' = outcome r ∧ sync_token r' = sync_token r ∧ (clean (stats r') ↔ clean (stats r)) ∧ (∀ n, small n (stats r') ↔ small n (stats r)) ∧
  interrupted (stats r') = interrupted (stats r).
Proof.
  cbn zeta. unfold set_full_enumeration_reason. destruct (_ && _); [|done]. cbn. split_and!; try done.
  split; intros [? ? ? ? ?]; by split.
Qed.
Lemma advances_reason r reason t : advances (set_full_enumeration_reason r reason) t → advances r t.
Proof. rewrite !advances_iff. destruct (reason_set r reason) as (-> & -> & Hc & _). naive_solver. Qed.

Lemma unblocked_token_Some st token t : unblocked_token st token = Some t → token = Some t.
Proof. unfold unblocked_token. by destruct (sync_token_blocked st). Qed.

Section EngineSpec.
Context `{FilterEnv, StateEnv, IndexOrder} {St E : Type} `{ErrorDowncast E}.
Context `{SourceStore St, EngineStore St, PendingRetryStore St}.
Context (ec : EngineConfig) (fuel : nat) (is_cancelled : St → bool) (now : St → Z) (elapsed : St → spec_float).
Context (full_policy : FullConfig → list SyncPass → bool → Call St E SyncResult).
Context (collecting : list SyncPass → str → Call St E SyncResult) (streaming : SyncPass → str → Call St E SyncResult).
Context (build_pending_retry : list SyncPass → Call St E PendingRetryPlan).
Context {LookupError : Type} (hydrate_matching_assets_from_changes : SyncPass → gset str → St → St * result LookupError (list PhotoAsset)).
Context (run_download_pass : list DownloadTask → St → St * PassResult).
Context (capture_repair : list SyncPass → St → St * MetadataCaptureRepair).
Context (cleanup_orphan_part_files : St → St).

Abbreviation incremental := (download_photos_incremental ec collecting streaming).
Abbreviation recovery := (run_targeted_recovery_pass ec fuel is_cancelled elapsed build_pending_retry hydrate_matching_assets_from_changes run_download_pass).
Abbreviation engine := (download_photos_with_sync ec fuel is_cancelled now elapsed full_policy collecting streaming build_pending_retry
  hydrate_matching_assets_from_changes run_download_pass capture_repair cleanup_orphan_part_files).
Abbreviation mixed := (incremental_or_mixed ec full_policy collecting streaming).
Abbreviation source := (source_run ec is_cancelled full_policy collecting streaming).
Abbreviation fc := (ec_full ec).

(** No run counts more than [u32::MAX] lost writes or enumeration errors. *)
Record counted : Prop := {
  full_counted c ps b s s' r : full_policy c ps b s = Some (s', Ok r) → small U32_MAX (stats r);
  incremental_counted ps t s s' r : incremental ps t s = Some (s', Ok r) → small U32_MAX (stats r);
  recovery_counted ps s s' r : recovery ps s = Some (s', Ok r) → small U32_MAX (stats r);
  capture_counted ps s s' r : capture_repair ps s = (s', r) → small U32_MAX (capture_stats r);
}.
Context (Hcounted : counted).

Abbreviation smart_passes ps := (List.filter is_smart_folder ps).
Abbreviation stream_passes ps := (List.filter (λ p, negb (is_smart_folder p)) ps).

(** The run a token comes from: a full enumeration of all passes, or the change
    stream over the passes that are no smart folders, after every smart folder
    was enumerated without a failure. *)
Definition token_source (passes : list SyncPass) (token : option str) (t : str) : Prop :=
  (∃ s s' r, full_policy fc passes true s = Some (s', Ok r) ∧ advances r t) ∨
  (∃ t0 s s' r, token = Some t0 ∧ incremental (stream_passes passes) t0 s = Some (s', Ok r) ∧ advances r t ∧
     (smart_passes passes = [] ∨ ∃ s1 s2 refresh, full_policy (smart_folder_config ec) (smart_passes passes) false s1 = Some (s2, Ok refresh) ∧
        outcome refresh = Success ∧ interrupted (stats refresh) = false ∧ enumeration_errors (stats refresh) = 0 ∧
        enumeration_incomplete (stats refresh) = false ∧ state_write_failures (stats refresh) = 0)).

Lemma split_passes ps : split_incremental_and_smart_folder_passes ps = (stream_passes ps, smart_passes ps).
Proof. reflexivity. Qed.
Lemma no_smart ps : existsb is_smart_folder ps = false → stream_passes ps = ps ∧ smart_passes ps = [].
Proof.
  induction ps as [|p ps IH]; cbn; [done|]. intros [Hp Hps]%orb_false_iff. rewrite Hp. cbn. destruct (IH Hps) as [-> ->]. done.
Qed.
Lemma only_smart ps : stream_passes ps = [] → smart_passes ps = ps.
Proof. induction ps as [|p ps IH]; cbn; [done|]. destruct (is_smart_folder p); cbn; [|done]. intros Hp. by rewrite IH. Qed.

(** The mixed run. *)
Lemma mixed_source passes t0 s s' r : mixed passes t0 s = Some (s', Ok r) →
  small (2 * U32_MAX) (stats r) ∧ ∀ t, advances r t → token_source passes (Some t0) t.
Proof.
  unfold incremental_or_mixed. destruct (existsb is_smart_folder passes) eqn:Es.
  2: { destruct (no_smart _ Es) as [Hs1 Hs2]. intros Hr. split; [pose proof (incremental_counted Hcounted _ _ _ _ _ Hr) as []; unfold small, U32_MAX in *; lia|].
       intros t Ha. right. rewrite Hs1, Hs2. exists t0, s, s', r. split_and!; [done..|by left]. }
  unfold download_photos_incremental_with_smart_folder_refresh. rewrite split_passes. destruct (stream_passes passes) as [|p ps] eqn:Ep.
  { intros Hr. rewrite only_smart in Hr by done. split; [pose proof (full_counted Hcounted _ _ _ _ _ _ Hr) as []; unfold small, U32_MAX in *; lia|].
    intros t Ha. left. by exists s, s', r. }
  rewrite <- Ep. intros Hr. apply bind_Some in Hr as (s1 & inc & Hinc & Hr). pose proof (incremental_counted Hcounted _ _ _ _ _ Hinc) as Hsm.
  destruct (smart_passes passes) as [|q qs] eqn:Eq.
  { invert_call. split; [destruct Hsm; unfold small, U32_MAX in *; lia|]. intros t Ha. right. rewrite Eq. exists t0, s, s1, inc. split_and!; [done..|by left]. }
  rewrite <- Eq in Hr. apply bind_Some in Hr as (s2 & refresh & Hrefresh & Hr). pose proof (full_counted Hcounted _ _ _ _ _ _ Hrefresh) as Hsr.
  invert_call. unfold failed_run. set (failed := _ || (_ <? _)). set (rst := if failed then stats refresh else _).
  assert (Hrs : small U32_MAX rst). { subst rst. destruct failed; [done|by apply cleared_small]. }
  assert (Hacc : small (2 * U32_MAX) (accumulate (stats inc) rst)).
  { replace (2 * U32_MAX) with (U32_MAX + U32_MAX) by lia. by apply accumulate_small. }
  split; [cbn [stats make_result]; by destruct failed; [apply blocked_small|]|]. intros t Ha. apply advances_iff in Ha as (Ho & Hc & Ht & Hn).
  cbn [outcome stats sync_token make_result] in *. destruct failed eqn:Ef; [by apply block_not_clean in Hc|].
  apply (accumulate_clean U32_MAX U32_MAX) in Hc as [Hci Hcr]; [|done..]. right. exists t0, s, s1, inc.
  split_and!; [done|done| |].
  - apply advances_iff. split_and!; [by eapply merge_session_ok|done|by eapply unblocked_token_Some|done].
  - right. rewrite Eq. exists s1, s2, refresh. subst failed rst. apply orb_false_iff in Ef as [[Hs Hi]%orb_false_iff He]. destruct Hcr as [_ _ Hcomp Hw _].
    destruct Hsr as [? ?]. cbn in Hcomp, Hw. rewrite Eq in Hrefresh. split_and!; [done| |done| |done|lia].
    + by destruct (outcome refresh).
    + apply Z.ltb_ge in He. lia.
Qed.

Lemma full_reason_source passes token reason s s' r : download_photos_full_with_reason ec full_policy passes reason s = Some (s', Ok r) →
  small U32_MAX (stats r) ∧ ∀ t, advances r t → token_source passes token t.
Proof.
  intros Hr. apply bind_Some in Hr as (s1 & r0 & Hf & Hr). invert_call. pose proof (full_counted Hcounted _ _ _ _ _ _ Hf) as Hs.
  destruct (reason_set r0 reason) as (_ & _ & _ & Hsm & _). split; [by apply Hsm|].
  intros t Ha%advances_reason. left. by eexists _, _, _.
Qed.

(** What a run may add up to. *)
Abbreviation SOURCE_MAX := (3 * U32_MAX).
Lemma small_le n m st : small n st → n <= m → small m st.
Proof. intros [] ?. unfold small. lia. Qed.

Lemma backfill_source passes t0 indices reason s s' r :
  download_photos_incremental_with_targeted_album_backfill ec is_cancelled full_policy collecting streaming passes t0 indices reason s = Some (s', Ok r) →
  small SOURCE_MAX (stats r) ∧ ∀ t, advances r t → token_source passes (Some t0) t.
Proof.
  intros Hr. apply bind_Some in Hr as (s1 & b & Hb & Hr). apply (full_reason_source _ None) in Hb as [Hsb _].
  apply bind_Some in Hr as (s2 & cancelled & _ & Hr). apply bind_Some in Hr as (s3 & complete & _ & Hr). destruct complete; cbn [negb] in Hr.
  - apply bind_Some in Hr as (s4 & m & Hm & Hr). apply mixed_source in Hm as [Hsm Hm]. invert_call.
    assert (Hc : small U32_MAX (clear_full_query_token_block_stats (stats b))) by by apply cleared_small.
    split; [cbn [stats make_result]; replace SOURCE_MAX with (U32_MAX + 2 * U32_MAX) by lia; by apply accumulate_small|].
    intros t (Ho & Hcl & Ht & Hn)%advances_iff. cbn [outcome stats sync_token make_result] in *. apply Hm, advances_iff.
    apply (accumulate_clean U32_MAX (2 * U32_MAX)) in Hcl as [_ Hcl]; [|done..]. split_and!; [|done|by eapply unblocked_token_Some|done].
    intros n Hn'. rewrite Hn' in Ho. destruct (outcome b) as [|k|k]; by eapply Ho.
  - invert_call. split; [apply blocked_small; by eapply small_le|]. intros t (_ & Hcl & _)%advances_iff. by apply block_not_clean in Hcl.
Qed.

Lemma source_token mode passes s s' r : source mode passes s = Some (s', Ok r) →
  small SOURCE_MAX (stats r) ∧ ∀ t, advances r t → token_source passes (match mode with Incremental t0 => Some t0 | Full => None end) t.
Proof.
  assert (Hle : ∀ n r t0, n <= SOURCE_MAX → small n (stats r) ∧ (∀ t, advances r t → token_source passes t0 t) →
    small SOURCE_MAX (stats r) ∧ ∀ t, advances r t → token_source passes t0 t).
  { intros n r' t0 Hn [Hs ?]. split; [by eapply small_le|done]. }
  destruct mode as [|t0]; cbn [source_run]; intros Hr.
  { split; [eapply small_le; [by eapply (full_counted Hcounted)|done]|]. intros t Ha. left. by eexists _, _, _. }
  apply bind_Some in Hr as (s1 & [] & _ & Hr); [by eapply Hle, full_reason_source|].
  apply bind_Some in Hr as (s2 & decision & _ & Hr). destruct decision as [|indices reason|reason];
    [|by eapply backfill_source|by eapply Hle, full_reason_source].
  apply bind_Some in Hr as (s3 & m & Hm & Hr). apply (proj1 (catch_Some _ _ _ _)) in Hm. destruct m as [m|e].
  - invert_call. by eapply Hle, mixed_source.
  - destruct (classify_incremental_error e); [by eapply Hle, full_reason_source|invert_call|by eapply Hle, full_reason_source].
Qed.

Abbreviation append := (append_targeted_recovery_to_sync_result ec fuel is_cancelled elapsed build_pending_retry
  hydrate_matching_assets_from_changes run_download_pass).
Lemma append_token passes r s s' r' : append passes r s = Some (s', Ok r') → small SOURCE_MAX (stats r) →
  small (4 * U32_MAX) (stats r') ∧ ∀ t, advances r' t → advances r t.
Proof.
  intros Hr Hs. apply bind_Some in Hr as (s1 & cancelled & _ & Hr). destruct (_ || _).
  { invert_call. split; [by eapply small_le|done]. }
  apply bind_Some in Hr as (s2 & retry & Hretry & Hr). apply (proj1 (catch_Some _ _ _ _)) in Hretry.
  assert (Hsr : small U32_MAX (stats (match retry with Ok retry => retry | Err _ => failed_recovery end))).
  { destruct retry as [x|e]; [by eapply (recovery_counted Hcounted)|done]. }
  cbv zeta in Hr. invert_call. split; [cbn [stats make_result]; replace (4 * U32_MAX) with (SOURCE_MAX + U32_MAX) by lia; by apply accumulate_small|].
  intros t (Ho & Hcl & Ht & Hn)%advances_iff. cbn [outcome stats sync_token make_result] in *. apply advances_iff.
  apply (accumulate_clean SOURCE_MAX U32_MAX) in Hcl as [Hcl _]; [|done..]. split_and!; [by eapply merge_session_ok|done| |done].
  destruct (_ || _) in Ht; [done|exact Ht].
Qed.

Lemma engine_steps mode passes s s' r : engine mode passes s = Some (s', Ok r) →
  ∃ s1 s2 repair s3 s4 r1 r2 s5, capture_repair passes s1 = (s2, repair) ∧ source mode passes s3 = Some (s4, Ok r1) ∧
    append passes r1 s4 = Some (s5, Ok r2) ∧ r = add_capture_repair repair r2.
Proof.
  intros Hr. apply bind_Some in Hr as (x1 & started & _ & Hr). apply bind_Some in Hr as (x2 & [] & _ & Hr).
  apply bind_Some in Hr as (x3 & [] & _ & Hr). apply bind_Some in Hr as (x4 & repair & Hc & Hr). apply run_Some in Hc.
  apply bind_Some in Hr as (x5 & [] & _ & Hr). apply bind_Some in Hr as (x6 & r1 & Hsrc & Hr). apply bind_Some in Hr as (x7 & r2 & Happ & Hr).
  apply bind_Some in Hr as (x8 & cancelled & _ & Hr). apply bind_Some in Hr as (x9 & [] & _ & Hr). invert_call.
  by exists x3, x4, repair, x5, x6, r1, r2, x7.
Qed.

(** C13: However the engine combines its runs, a token it returns and the cycle
    takes comes from one run over the zone that may be taken by itself: a full
    enumeration of all selected passes, or the change stream from the stored
    token over the passes that are no smart folders, in a run in which every
    smart folder was enumerated to its end without an error or a lost write.
    Neither the backfill of albums, nor the retry of pending assets, nor the
    repair of metadata supplies a token, and nothing any of them reports as
    unsafe is forgotten: the metadata repair did not hold the checkpoint. *)
Theorem engine_token_from_one_run mode passes s s' r t : engine mode passes s = Some (s', Ok r) → advances r t →
  token_source passes (match mode with Incremental t0 => Some t0 | Full => None end) t ∧
  ∃ s1 s2 repair, capture_repair passes s1 = (s2, repair) ∧ mcr_blocked repair = false.
Proof.
  intros (s1 & s2 & repair & s3 & s4 & r1 & r2 & s5 & Hc & Hsrc & Happ & ->)%engine_steps (Ho & Hcl & Ht & Hn)%advances_iff.
  pose proof (capture_counted Hcounted _ _ _ _ Hc) as Hsc. apply source_token in Hsrc as [Hs1 Hsrc]. apply append_token in Happ as [Hs2 Happ]; [|done].
  unfold add_capture_repair in *. cbn [outcome stats sync_token make_result] in *.
  apply (accumulate_clean (4 * U32_MAX) U32_MAX) in Hcl as [Hcl Hcc]; [|done..]. split; [|by exists s1, s2, repair; split; [|apply capture_clean]].
  apply Hsrc, Happ, advances_iff. split_and!; [|done| |done].
  - by destruct (0 <? mcr_failures repair); [eapply merge_session_ok|].
  - by destruct (sync_token_blocked _).
Qed.

(** C15: A run that reports success had nothing left to report: the enumeration
    or the change stream succeeded, no refresh of captured metadata failed, and
    unless the run was interrupted the pending assets were retried and that
    succeeded too. *)
Theorem engine_success_is_complete mode passes s s' r : engine mode passes s = Some (s', Ok r) → outcome r = Success →
  (∃ s1 s2 repair, capture_repair passes s1 = (s2, repair) ∧ mcr_failures repair <= 0) ∧
  ∃ s3 s4 r1, source mode passes s3 = Some (s4, Ok r1) ∧ outcome r1 = Success ∧
    (interrupted (stats r1) = true ∨ is_cancelled s4 = true ∨ ∃ s5 r2, recovery passes s4 = Some (s5, Ok r2) ∧ outcome r2 = Success).
Proof.
  intros (s1 & s2 & repair & s3 & s4 & r1 & r2 & s5 & Hc & Hsrc & Happ & ->)%engine_steps Ho. unfold add_capture_repair in Ho. cbn [outcome make_result] in Ho.
  destruct (Z.ltb_spec 0 (mcr_failures repair)) as [|Hf]; [by apply merge_success in Ho as [_ ?]|]. split; [by exists s1, s2, repair|].
  exists s3, s4, r1. split; [done|]. apply bind_Some in Happ as (s6 & cancelled & Hx & Happ). apply get_Some in Hx as [-> ->].
  destruct (is_success (outcome r1)) eqn:Es; cbn [negb orb] in Happ.
  2: { invert_call. by rewrite Ho in Es. }
  split; [by destruct (outcome r1)|]. destruct (interrupted (stats r1)); [by left|]. destruct (is_cancelled s4); [by right; left|]. cbn [orb] in Happ.
  right; right. apply bind_Some in Happ as (s7 & retry & Hretry & Happ). apply (proj1 (catch_Some _ _ _ _)) in Hretry. cbv zeta in Happ. invert_call. cbn [outcome make_result] in Ho.
  apply merge_success in Ho as [_ Ho]. destruct retry as [x|e]; [|done]. by exists s7, x.
Qed.
End EngineSpec.

(** A zone error the provider calls temporary still falls back to a full
    enumeration. *)
Lemma throttled_zone_falls_back `{ErrorDowncast E} (e : E) zone code :
  as_sync_token_error e = Some (UnexpectedZoneError zone code) → is_auth_error e = false → as_reqwest_error e = None →
  classify_incremental_error e = StaticFallback.
Proof. unfold classify_incremental_error. by intros -> -> ->. Qed.

(** ** The interface on the SQLite store *)

#[export] Instance SourceDb_engine `{StateEnv} : EngineStore SourceDb := {
  eg_has_downloaded_without_metadata_hash := scall (on_rows (λ d, Ok (d, has_downloaded_without_metadata_hash d)));
  eg_prune_source_deleted_retries _ := scall (on_rows (λ d, Ok (d, 0)));
  eg_prepare_for_retry l e := scall (on_rows (λ d, Ok (prepare_for_retry l e d)));
  eg_promote_pending_to_failed t := scall (on_rows (λ d, Ok (promote_pending_to_failed t d)));
}.

(** ** Runs *)

Module EngineRuns.
Import StateDbSpec.Samples.
#[export] Existing Instance sample_filter_env.
#[export] Program Instance sorted_indices : IndexOrder := {
  index_map_order A := map_to_list;
  index_set_order := elements;
}.
Next Obligation. done. Qed.
Next Obligation. done. Qed.
(** The errors of a run: zone errors. *)
#[export] Instance zone_errors : ErrorDowncast SyncTokenError := { as_sync_token_error := Some; is_auth_error _ := false; as_reqwest_error _ := None }.

Definition ec : EngineConfig :=
  {| ec_full := {| fc_rc := {| rc_config := sample_config; rc_has_db := true; rc_any_metadata_write := false; rc_recent := None; rc_run_mode := Download |};
                   fc_recent_scope := PerFilter; fc_concurrent_downloads := 1; fc_enum_config_hash := None; fc_refresh_metadata := false |};
     ec_repair_truncated := false |}.
Definition pass (kind : PassKind) : SyncPass := {| sp_pass := {| pass_kind := kind; pass_album_name := []; pass_exclude_ids := ∅ |}; sp_container_id := None |}.
Definition passes : list SyncPass := [pass PassUnfiled; pass PassSmartFolder].

(** A full enumeration, clean or with an error in it, and the change stream,
    read to its end or refused. *)
Definition full (clean : bool) (c : FullConfig) (ps : list SyncPass) (b : bool) : Call SourceDb SyncTokenError SyncResult :=
  mret (make_result (if clean then Success else PartialFailure 1) (Some (lit "full"))
    (delta_stats {| st_downloaded := 0; st_failed := 0; st_skipped := SkipBreakdown_default; st_bytes_downloaded := 0; st_disk_bytes_written := 0;
       st_exif_failures := 0; st_state_write_failures := 0; st_enumeration_errors := if clean then 0 else 1; st_revalidate_records := [];
       st_elapsed_secs := S754_zero false; st_interrupted := false; st_rate_limited := 0; st_photos_downloaded := 0; st_videos_downloaded := 0;
       st_recap := RunRecap_default |}) true).
Definition changes (e : option SyncTokenError) (token : str) : Call SourceDb SyncTokenError SyncResult :=
  match e with
  | Some e => throw e
  | None => mret (make_result Success (Some (token ++ lit "+")) SyncStats_default false)
  end.
Definition no_pending (ps : list SyncPass) : Call SourceDb SyncTokenError PendingRetryPlan := mret PendingRetryPlan_default.
Definition no_hydration (p : SyncPass) (names : gset str) (s : SourceDb) : SourceDb * result unit (list PhotoAsset) := (s, Ok []).
Definition no_tasks (tasks : list DownloadTask) (s : SourceDb) : SourceDb * PassResult :=
  (s, {| pr_downloaded := 0; pr_downloaded_tasks := []; pr_exif_failures := 0; pr_failed := []; pr_auth_errors := 0; pr_state_write_failures := 0;
         pr_bytes_downloaded := 0; pr_disk_bytes_written := 0; pr_rate_limit_observations := 0; pr_url_expired_abort := false;
         pr_photos_downloaded := 0; pr_videos_downloaded := 0; pr_recap := RunRecap_default |}).
Definition no_repair (ps : list SyncPass) (s : SourceDb) : SourceDb * MetadataCaptureRepair := (s, MetadataCaptureRepair_default).
Definition start : SourceDb := {| sd_db := StateDbSpec.run downloaded Db_empty; sd_albums := AlbumDb_empty; sd_now := 5; sd_faults := [] |}.
Definition engine (clean : bool) (e : option SyncTokenError) : option (SourceDb * result SyncTokenError SyncResult) :=
  download_photos_with_sync ec 9 (λ _, false) sd_now (λ _, S754_zero false) (full clean) (λ _, changes e) (λ _, changes e) no_pending no_hydration
    no_tasks no_repair id (Incremental (lit "t0")) passes start.

Definition token_of (o : option (SourceDb * result SyncTokenError SyncResult)) : option (option str * bool) :=
  match o with Some (_, Ok r) => Some (sync_token r, is_success (outcome r)) | _ => None end.
Example mixed_token : token_of (engine true None) = Some (Some (lit "t0+"), true). Proof. vm_compute. reflexivity. Qed.
Example failed_refresh : token_of (engine false None) = Some (None, false). Proof. vm_compute. reflexivity. Qed.
Example throttled : token_of (engine true (Some (UnexpectedZoneError (lit "PrimarySync") (lit "THROTTLED")))) = Some (Some (lit "full"), true).
Proof. vm_compute. reflexivity. Qed.

Lemma small_0 : small U32_MAX SyncStats_default.
Proof. by vm_compute. Qed.
Lemma runs_counted clean e : counted ec 9 (λ _, false) (λ _, S754_zero false) (full clean) (λ _, changes e) (λ _, changes e) no_pending no_hydration no_tasks no_repair.
Proof.
  split.
  - intros c ps b s s' r [= _ <-]. destruct clean; by vm_compute.
  - intros ps t s s' r. unfold download_photos_incremental. destruct (single_unfiled_streaming_pass _ _ _);
      (destruct e; [done|]; intros [= _ <-]; apply small_0).
  - intros ps s s' r [= _ <-]. by vm_compute.
  - intros ps s s' r [= _ <-]. by vm_compute.
Qed.

Lemma sample_engine_result : ∃ s r, engine true None = Some (s, Ok r) ∧ sync_token r = Some (lit "t0+") ∧ outcome r = Success ∧ advances r (lit "t0+").
Proof.
  assert (Ht : token_of (engine true None) = Some (Some (lit "t0+"), true)) by (vm_compute; reflexivity).
  assert (Hc : (λ o : option (SourceDb * result SyncTokenError SyncResult), match o with
    | Some (_, Ok r) => source_checkpoint_decision r false false CompleteInventory | _ => Preserve HoldDryRun Stop end) (engine true None)
    = Advance (lit "t0+") CompleteInventory) by (vm_compute; reflexivity).
  destruct (engine true None) as [[s [r|e]]|]; [|discriminate Ht..]. exists s, r. cbn in Ht. injection Ht as Ht Ho.
  split; [reflexivity|]. split; [exact Ht|]. split; [destruct (outcome r); [reflexivity|discriminate Ho..]|].
  exists false, false, CompleteInventory, CompleteInventory. exact Hc.
Qed.

Lemma engine_token_from_one_run_witness : ∃ s r, engine true None = Some (s, Ok r) ∧
  ∃ s1 s2 repair, no_repair passes s1 = (s2, repair) ∧ mcr_blocked repair = false.
Proof.
  destruct sample_engine_result as (s & r & E & _ & _ & Ha). exists s, r. split; [exact E|].
  exact (proj2 (engine_token_from_one_run ec 9 (λ _, false) sd_now (λ _, S754_zero false) (full true) (λ _, changes None) (λ _, changes None) no_pending
    no_hydration no_tasks no_repair id (runs_counted true None) (Incremental (lit "t0")) passes start s r _ E Ha)).
Defined.
Lemma engine_success_is_complete_witness : ∃ s r, engine true None = Some (s, Ok r) ∧
  ∃ s1 s2 repair, no_repair passes s1 = (s2, repair) ∧ mcr_failures repair <= 0.
Proof.
  destruct sample_engine_result as (s & r & E & _ & Ho & _). exists s, r. split; [exact E|].
  exact (proj1 (engine_success_is_complete ec 9 (λ _, false) sd_now (λ _, S754_zero false) (full true) (λ _, changes None) (λ _, changes None) no_pending
    no_hydration no_tasks no_repair id (Incremental (lit "t0")) passes start s r E Ho)).
Defined.
End EngineRuns.
