(* ===== verification/Watch.v ===== *)
(** * Before a watch cycle: [src/sync_loop.rs]

    In watch mode a cycle starts with one request to [changes/database]: when
    no selected library changed since the stored database token, the cycle is
    skipped.  A probe of the files of downloaded rows and pending metadata work
    may overrule the answer.

    Parameters: the answer of [changes/database], [serde_json], the look at a
    file of the disk, the hash of the configuration in [DbPrecheckScope]. *)
From S2P Require Import Prelude RustStr Paths Types StateTypes StateDb Checkpoint Content OnDisk Cycle.

(** ** What the pre-check decides *)

Inductive WatchPrecheck :=
| SkipAll
| Proceed (changed_zones : option (gset str)) (db_sync_token_after_success : option str).

Definition proceed_all : WatchPrecheck := Proceed None None.

Definition changed_zones (p : WatchPrecheck) : option (gset str) :=
  match p with SkipAll => None | Proceed zones _ => zones end.

Definition db_sync_token_after_success (p : WatchPrecheck) : option str :=
  match p with SkipAll => None | Proceed _ token => token end.

Definition should_sync_zone (p : WatchPrecheck) (zone : str) : bool :=
  match p with
  | SkipAll => false
  | Proceed (Some zones) _ => bool_decide (zone ∈ zones)
  | Proceed None _ => true
  end.

Definition include_local_work_zones (zones : gset str) (p : WatchPrecheck) : WatchPrecheck :=
  if bool_decide (zones = ∅) then p
  else
    match p with
    | SkipAll => Proceed (Some zones) None
    | Proceed (Some changed) token => Proceed (Some (changed ∪ zones)) token
    | Proceed None token => Proceed None token
    end.

(** ** The scoped database token *)

Record ScopedDbSyncToken := {
  sd_provider : str;
  sd_account : str;
  sd_shape_version : Z;
  sd_scope_hash : str;
  sd_selected_zones_json : str;
  sd_scope_json : str;
  sd_token : str;
}.

(** The scope: which account, libraries and configuration a token is for. *)
Record DbPrecheckScope := {
  ps_provider : str;
  ps_account : str;
  ps_shape_version : Z;
  ps_scope_hash : str;
  ps_selected_zones_json : str;
  ps_scope_json : str;
}.

Definition to_state_row (scope : DbPrecheckScope) (token : str) : ScopedDbSyncToken := {|
  sd_provider := ps_provider scope; sd_account := ps_account scope; sd_shape_version := ps_shape_version scope;
  sd_scope_hash := ps_scope_hash scope; sd_selected_zones_json := ps_selected_zones_json scope;
  sd_scope_json := ps_scope_json scope; sd_token := token |}.

(** The table [scoped_db_sync_tokens], by its primary key. *)
Definition token_key : Type := str * str * Z * str.
Definition ScopedTokens : Type := gmap token_key ScopedDbSyncToken.
Definition row_key (r : ScopedDbSyncToken) : token_key :=
  (sd_provider r, sd_account r, sd_shape_version r, sd_scope_hash r).
Definition get_scoped_db_sync_token (provider account : str) (shape_version : Z) (scope_hash : str) (t : ScopedTokens) :
    option ScopedDbSyncToken := t !! (provider, account, shape_version, scope_hash).
Definition upsert_scoped_db_sync_token (r : ScopedDbSyncToken) (t : ScopedTokens) : ScopedTokens := <[row_key r := r]> t.
Definition delete_scoped_db_sync_tokens (t : ScopedTokens) : ScopedTokens * Z := (∅, Z.of_nat (size t)).

(** [ChangesDatabaseResponse]; a zone comes with its own token. *)
Record ChangesDatabaseResponse := {
  cd_sync_token : str;
  cd_more_coming : bool;
  cd_zones : list (str * str);
}.

(** ** The store *)

Class PrecheckStore (St : Type) := {
  pk_get_scoped_db_sync_token : str → str → Z → str → St → St * result StateError (option ScopedDbSyncToken);
  pk_upsert_scoped_db_sync_token : ScopedDbSyncToken → St → St * result StateError unit;
  pk_has_metadata_capture_work : list str → Z → St → St * result StateError bool;
  pk_get_pending_metadata_rewrites_page : option (list str) → Z → Z → St → St * result StateError (list PendingMetadataRewrite);
  pk_summary_downloaded : St → St * result StateError Z;
  pk_get_downloaded_page : Z → Z → St → St * result StateError (list AssetRecord);
  pk_mark_failed : str → str → str → str → St → St * result StateError unit;
}.

(** A library of the loop: the cycle's view of it, and whether its plan is to
    be resolved again. *)
Record LoopLibrary := {
  ll_state :> LibraryState;
  ll_plan_needs_refresh : bool;
}.

(** [serde_json::from_str] on the recorded scope: which texts are JSON values,
    and which are lists of strings. *)
Class ScopeJson := { is_json : str → bool; is_json_strings : str → bool }.

(** ** What drift a recorded file shows *)

Inductive LocalDriftKind := DriftMissing | DriftTruncated (actual_size expected_size : Z).
Definition FILE_MISSING_REASON : str := lit "FILE_MISSING_AT_STARTUP".
Definition FILE_TRUNCATED_REASON : str := lit "FILE_TRUNCATED_AT_STARTUP".
Definition drift_reason (k : LocalDriftKind) : str :=
  match k with DriftMissing => FILE_MISSING_REASON | DriftTruncated _ _ => FILE_TRUNCATED_REASON end.

Record LocalDriftAsset := {
  ld_library : str;
  ld_id : str;
  ld_version_size : VersionSizeKey;
  ld_local_path : path;
  ld_kind : LocalDriftKind;
}.

(** [tokio::fs::metadata]: a size, or an error that is or is not [NotFound]. *)
Class FileSizes (St : Type) := { fs_metadata_len : path → St → St * result bool Z }.

Record ScanCounts := { sc_present : Z; sc_missing : Z; sc_damaged : Z; sc_no_path : Z }.
Record LocalDriftProbeOutcome := { dp_scanned : Z; dp_drifted : Z; dp_marked_failed : Z; dp_mark_errors : Z }.
Definition LocalDriftProbeOutcome_default : LocalDriftProbeOutcome :=
  {| dp_scanned := 0; dp_drifted := 0; dp_marked_failed := 0; dp_mark_errors := 0 |}.
Definition LOCAL_DRIFT_PROBE_CURSOR_KEY : str := lit "local_drift_probe_offset_v1".
Definition LOCAL_DRIFT_PROBE_PAGE_SIZE : Z := 128.
Definition SCAN_PAGE_SIZE : Z := 1000.

Section Watch.
Context {St E : Type} `{SyncTokenStore St, PrecheckStore St, ScopeJson, FileHashes St, FileSizes St}.
Context (changes_database : option str → St → St * result E ChangesDatabaseResponse).

(** ** The pre-check *)

Definition store_scoped_db_sync_token (scope : DbPrecheckScope) (token : str) (s : St) : St :=
  (pk_upsert_scoped_db_sync_token (to_state_row scope token) s).1.

(** No usable token: the first complete answer gives one to start from. *)
Definition bootstrap_token (s : St) : St * WatchPrecheck :=
  match changes_database None s with
  | (s, Ok resp) =>
      if negb (cd_more_coming resp) then (s, Proceed None (Some (cd_sync_token resp))) else (s, proceed_all)
  | (s, Err _) => (s, proceed_all)
  end.

Definition stored_scope_matches (scope : DbPrecheckScope) (row : ScopedDbSyncToken) : bool :=
  is_json (sd_scope_json row) && str_eqb (sd_scope_json row) (ps_scope_json scope)
  && is_json_strings (sd_selected_zones_json row)
  && str_eqb (sd_selected_zones_json row) (ps_selected_zones_json scope).

Definition changed_selected_zones (libs : list LoopLibrary) (resp : ChangesDatabaseResponse) : gset str :=
  list_to_set (List.filter (λ z, bool_decide (z ∈ zone_name <$> (ll_state <$> libs))) (fst <$> cd_zones resp)).

Definition precheck_changes (libs : list LoopLibrary) (scope : DbPrecheckScope) (token : str) (s : St) : St * WatchPrecheck :=
  match changes_database (Some token) s with
  | (s, Err _) => (s, proceed_all)
  | (s, Ok resp) =>
      let changed := changed_selected_zones libs resp in
      if bool_decide (changed = ∅) then
        if cd_more_coming resp then (s, Proceed None (Some (cd_sync_token resp)))
        else
          let s := match cd_zones resp with
                   | [] => s
                   | _ :: _ => store_scoped_db_sync_token scope (cd_sync_token resp) s
                   end in
          (s, SkipAll)
      else (s, Proceed (if cd_more_coming resp then None else Some changed) (Some (cd_sync_token resp)))
  end.

Definition check_changes_database (has_db : bool) (libs : list LoopLibrary) (scope : DbPrecheckScope) (s : St) :
    St * WatchPrecheck :=
  if has_db then
    match libs with
    | [] => (s, SkipAll)
    | _ :: _ =>
        match pk_get_scoped_db_sync_token (ps_provider scope) (ps_account scope) (ps_shape_version scope)
                (ps_scope_hash scope) s with
        | (s, Err _) => (s, proceed_all)
        | (s, Ok stored) =>
            match nonblank (sd_token <$> stored), stored with
            | Some token, Some row =>
                if stored_scope_matches scope row then precheck_changes libs scope token s else (s, proceed_all)
            | _, _ => bootstrap_token s
            end
        end
    end
  else (s, proceed_all).

(** ** Pending metadata work *)

Definition read_or_true {A} (f : A → bool) (r : St * result StateError A) : St * bool :=
  match r with (s, Ok a) => (s, f a) | (s, Err _) => (s, true) end.

Fixpoint local_work_zones (writers_enabled : bool) (libs : list LoopLibrary) (s : St) : St * gset str :=
  match libs with
  | [] => (s, ∅)
  | lib :: libs =>
      let zone := zone_name lib in
      let '(s, capture_pending) :=
        read_or_true (λ pending, pending) (pk_has_metadata_capture_work [zone] METADATA_CAPTURE_REVISION s) in
      let '(s, rewrite_pending) :=
        if writers_enabled then
          read_or_true (λ rows, negb (bool_decide (length rows = 0%nat))) (pk_get_pending_metadata_rewrites_page (Some [zone]) 0 1 s)
        else (s, false) in
      let '(s, zones) := local_work_zones writers_enabled libs s in
      (s, if capture_pending || rewrite_pending then {[zone]} ∪ zones else zones)
  end.

Definition include_pending_metadata_work (writers_enabled : bool) (libs : list LoopLibrary) (p : WatchPrecheck) (s : St) :
    St * WatchPrecheck :=
  let '(s, zones) := local_work_zones writers_enabled libs s in
  (s, include_local_work_zones zones p).

(** ** Drift of local files: [src/commands/reconcile.rs] *)

(** The asset that drifted, if any, and whether the row records no path; an
    error when the file could not be looked at. *)
Definition classify_local_drift (asset : AssetRecord) (s : St) : St * result unit (option LocalDriftAsset * bool) :=
  match ar_local_path asset with
  | None => (s, Ok (None, true))
  | Some local_path =>
      let drift kind := Some {| ld_library := ar_library asset; ld_id := ar_id asset;
                                ld_version_size := ar_version_size asset; ld_local_path := local_path; ld_kind := kind |} in
      match fs_metadata_len local_path s with
      | (s, Err not_found) => if (not_found : bool) then (s, Ok (drift DriftMissing, false)) else (s, Err tt)
      | (s, Ok actual_size) =>
          match size_matches_state local_path actual_size (AtLeastProvider (ar_size_bytes asset))
                  (ar_local_checksum asset) (ar_download_checksum asset) s with
          | (s, Err e) => (s, Err e)
          | (s, Ok true) => (s, Ok (None, false))
          | (s, Ok false) => (s, Ok (drift (DriftTruncated actual_size (ar_size_bytes asset)), false))
          end
      end
  end.

(** [scan_local_drift]: one page of rows after another, then the totals. *)
Fixpoint scan_page (page : list AssetRecord) (counts : ScanCounts) (drifted : list LocalDriftAsset) (s : St) :
    St * result unit (ScanCounts * list LocalDriftAsset) :=
  match page with
  | [] => (s, Ok (counts, drifted))
  | asset :: page =>
      match classify_local_drift asset s with
      | (s, Err e) => (s, Err e)
      | (s, Ok (_, true)) =>
          scan_page page {| sc_present := sc_present counts; sc_missing := sc_missing counts;
                            sc_damaged := sc_damaged counts; sc_no_path := sc_no_path counts + 1 |} drifted s
      | (s, Ok (None, false)) =>
          scan_page page {| sc_present := sc_present counts + 1; sc_missing := sc_missing counts;
                            sc_damaged := sc_damaged counts; sc_no_path := sc_no_path counts |} drifted s
      | (s, Ok (Some d, false)) =>
          let counts := match ld_kind d with
            | DriftMissing => {| sc_present := sc_present counts; sc_missing := sc_missing counts + 1;
                                 sc_damaged := sc_damaged counts; sc_no_path := sc_no_path counts |}
            | DriftTruncated _ _ => {| sc_present := sc_present counts; sc_missing := sc_missing counts;
                                       sc_damaged := sc_damaged counts + 1; sc_no_path := sc_no_path counts |}
            end in
          scan_page page counts (drifted ++ [d]) s
      end
  end.

Fixpoint scan_from (fuel : nat) (offset : Z) (counts : ScanCounts) (drifted : list LocalDriftAsset) (s : St) :
    option (St * result unit (ScanCounts * list LocalDriftAsset)) :=
  match fuel with
  | O => None
  | S fuel =>
      match pk_get_downloaded_page offset SCAN_PAGE_SIZE s with
      | (s, Err _) => Some (s, Err tt)
      | (s, Ok []) => Some (s, Ok (counts, drifted))
      | (s, Ok page) =>
          match scan_page page counts drifted s with
          | (s, Err e) => Some (s, Err e)
          | (s, Ok (counts, drifted)) => scan_from fuel (offset + Z.of_nat (length page)) counts drifted s
          end
      end
  end.
Definition scan_local_drift (fuel : nat) (s : St) : option (St * result unit (ScanCounts * list LocalDriftAsset)) :=
  scan_from fuel 0 {| sc_present := 0; sc_missing := 0; sc_damaged := 0; sc_no_path := 0 |} [] s.

(** *** The probe of one page before each cycle *)

Fixpoint probe_page (page : list AssetRecord) (o : LocalDriftProbeOutcome) (s : St) : St * LocalDriftProbeOutcome :=
  match page with
  | [] => (s, o)
  | asset :: page =>
      match classify_local_drift asset s with
      | (s, Ok (Some d, false)) =>
          let drifted := saturating_add U64_MAX (dp_drifted o) 1 in
          match pk_mark_failed (ld_library d) (ld_id d) (VersionSizeKey_as_str (ld_version_size d)) (drift_reason (ld_kind d)) s with
          | (s, Ok _) =>
              probe_page page {| dp_scanned := dp_scanned o; dp_drifted := drifted;
                dp_marked_failed := saturating_add U64_MAX (dp_marked_failed o) 1; dp_mark_errors := dp_mark_errors o |} s
          | (s, Err _) =>
              probe_page page {| dp_scanned := dp_scanned o; dp_drifted := drifted;
                dp_marked_failed := dp_marked_failed o; dp_mark_errors := saturating_add U64_MAX (dp_mark_errors o) 1 |} s
          end
      | (s, _) => probe_page page o s
      end
  end.

Definition probe_start (downloaded : Z) (s : St) : St * Z :=
  match st_get_metadata LOCAL_DRIFT_PROBE_CURSOR_KEY s with
  | (s, Ok (Some raw)) => (s, Z.min (default 0 (parse_u64 raw)) downloaded)
  | (s, Ok None) => (s, 0)
  | (s, Err _) => (s, 0)
  end.

(** The page at the cursor, or the first one when nothing is left there. *)
Definition probe_rows (start_offset : Z) (s : St) : St * option (Z * list AssetRecord) :=
  match pk_get_downloaded_page start_offset LOCAL_DRIFT_PROBE_PAGE_SIZE s with
  | (s, Err _) => (s, None)
  | (s, Ok page) =>
      if bool_decide (page = []) && (0 <? start_offset) then
        match pk_get_downloaded_page 0 LOCAL_DRIFT_PROBE_PAGE_SIZE s with
        | (s, Ok first_page) => (s, Some (0, first_page))
        | (s, Err _) => (s, None)
        end
      else (s, Some (start_offset, page))
  end.

Definition probe_next_offset (offset scanned downloaded : Z) : Z :=
  if (scanned =? 0) || (downloaded <=? saturating_add U64_MAX offset scanned) || (scanned <? LOCAL_DRIFT_PROBE_PAGE_SIZE)
  then 0 else saturating_add U64_MAX offset scanned.

Definition run_bounded_local_drift_probe (s : St) : St * LocalDriftProbeOutcome :=
  match pk_summary_downloaded s with
  | (s, Err _) => (s, LocalDriftProbeOutcome_default)
  | (s, Ok downloaded) =>
      if downloaded =? 0 then (s, LocalDriftProbeOutcome_default)
      else
        let '(s, start_offset) := probe_start downloaded s in
        match probe_rows start_offset s with
        | (s, None) => (s, LocalDriftProbeOutcome_default)
        | (s, Some (offset, page)) =>
            let scanned := Z.of_nat (length page) in
            let '(s, _) := st_set_metadata LOCAL_DRIFT_PROBE_CURSOR_KEY
                             (show_u64 (probe_next_offset offset scanned downloaded)) s in
            probe_page page {| dp_scanned := scanned; dp_drifted := 0; dp_marked_failed := 0; dp_mark_errors := 0 |} s
        end
  end.
End Watch.
