(* ===== verification/AuthRetry.v ===== *)
(** * Retries around authentication: [src/sync_loop.rs] and
    [src/commands/service.rs]

    Which errors make the sync wait for a second factor, retry behind another
    process, authenticate again or stop, and the loops that do so.

    Parameters: authentication itself ([auth], [icloud/photos]), the session
    lock, the files of the session, the clock. *)
From S2P Require Import Prelude RustStr Paths StateTypes Call.

(** ** Errors *)

Inductive AuthError :=
| FailedLogin (message : str) | InvalidToken (message : str) | ApiError (code : Z) (message : str)
| TwoFactorFailed (message : str) | ServiceError (code message : str) | TerminalAppleAuth (code message : str)
| TwoFactorRequired | FidoNotSupported (key_names : list str) | LockContention (message : str) | SessionReset
| AuthHttp | AuthIo | AuthJson.

Definition is_two_factor_required (e : AuthError) : bool := match e with TwoFactorRequired => true | _ => false end.
Definition is_lock_contention (e : AuthError) : bool := match e with LockContention _ => true | _ => false end.
Definition is_session_reset (e : AuthError) : bool := match e with SessionReset => true | _ => false end.
Definition is_terminal_apple_auth (e : AuthError) : bool := match e with TerminalAppleAuth _ _ => true | _ => false end.

Definition transient_code (code : Z) : bool := (code =? 429) || ((500 <=? code) && (code <? 600)).
Definition is_transient_apple_failure (e : AuthError) : bool :=
  match e with
  | ApiError code _ => transient_code code
  | ServiceError code _ =>
      match (rest ← strip_prefix (lit "http_") code; v ← parse_u64 rest; try_from U16_MAX v) with
      | Some c => transient_code c
      | None => false
      end
  | _ => false
  end.
Definition is_misdirected_request (e : AuthError) : bool :=
  match e with
  | ApiError code _ => code =? 421
  | ServiceError code _ => str_eqb code (lit "http_421")
  | _ => false
  end.

(** [ICloudError]. *)
Inductive ICloudError :=
| Connection (message : str) | ServiceNotActivated (code reason : str) | SessionExpiredError (status : Z)
| MisdirectedRequest | ICloudHttp | ICloudIo | ICloudJson.
Definition icloud_session_error (e : ICloudError) : bool :=
  match e with SessionExpiredError _ | MisdirectedRequest => true | _ => false end.

(** [anyhow::Error::downcast_ref]. *)
Class AuthDowncast (E : Type) := {
  as_auth_error : E → option AuthError;
  as_icloud_error : E → option ICloudError;
}.

Inductive SyncAuthErrorClass := ClassTwoFactorRequired | ClassLockContention | ClassSessionReset | ClassOther.
#[export] Instance SyncAuthErrorClass_eq : EqDecision SyncAuthErrorClass.
Proof. solve_decision. Defined.
Inductive AuthRetryErrorClass := RetryTwoFactorRequired | RetryLockContention | RetryOther.
#[export] Instance AuthRetryErrorClass_eq : EqDecision AuthRetryErrorClass.
Proof. solve_decision. Defined.

Section Classify.
Context {E : Type} `{AuthDowncast E}.

Definition classify_sync_auth_error (err : E) : SyncAuthErrorClass :=
  match as_auth_error err with
  | None => ClassOther
  | Some e =>
      if is_two_factor_required e then ClassTwoFactorRequired
      else if is_lock_contention e then ClassLockContention
      else if is_session_reset e then ClassSessionReset
      else ClassOther
  end.

Definition classify_auth_retry_error (err : E) : AuthRetryErrorClass :=
  match as_auth_error err with
  | None => RetryOther
  | Some e =>
      if is_two_factor_required e then RetryTwoFactorRequired
      else if is_lock_contention e then RetryLockContention
      else RetryOther
  end.

Definition is_session_error (err : E) : bool :=
  match as_icloud_error err with Some e => icloud_session_error e | None => false end.
Definition should_retry_session_init (err : E) (already_retried : bool) : bool := negb already_retried && is_session_error err.
Definition should_wait_for_2fa (is_watch_mode : bool) (err : E) : bool :=
  is_watch_mode && bool_decide (classify_sync_auth_error err = ClassTwoFactorRequired).
End Classify.

(** ** Waiting for a submitted code *)

Record AuthSignalSnapshot := { sig_modified : option Z; sig_contents : option (list Z) }.
#[export] Instance AuthSignalSnapshot_eq : EqDecision AuthSignalSnapshot.
Proof. solve_decision. Defined.

(** Reading a file, and its modification time. *)
Class AuthFiles (St E : Type) := {
  af_read : path → St → St * result E (list Z);
  af_modified : path → St → St * result E Z;
  af_remove : path → St → St;
  af_now : St → Z;
  af_sleep : Z → St → St;
}.

Definition TWO_FA_POLL_SECS : Z := 5.
Definition TWO_FA_WAIT_TIMEOUT_SECS : Z := 600.
Record TwoFaWaitConfig := { poll_interval : Z; timeout : Z }.
Definition TwoFaWaitConfig_default : TwoFaWaitConfig :=
  {| poll_interval := TWO_FA_POLL_SECS * NANOS; timeout := TWO_FA_WAIT_TIMEOUT_SECS * NANOS |}.

Definition ok {E A} (r : result E A) : option A := match r with Ok a => Some a | Err _ => None end.

Section Wait.
Context {St E T : Type} `{AuthDowncast E, AuthFiles St E}.
Context (timed_out lock_retries_exhausted : E).
(** [auth_signal_paths]: the session file, the cookie jar and the validation
    cache. *)
Context (session_path : path) (optional_paths : list path) (cache_path : path).
Context (auth_fn : Call St E T).

Definition read_required_session_signal (p : path) : Call St E AuthSignalSnapshot :=
  contents ← attempt (λ e, e) (af_read p);
  modified ← attempt (λ e, e) (af_modified p);
  mret {| sig_modified := Some modified; sig_contents := Some contents |}.

Definition read_optional_auth_signal (p : path) : Call St E AuthSignalSnapshot :=
  modified ← run (af_modified p);
  contents ← run (af_read p);
  mret {| sig_modified := ok modified; sig_contents := ok contents |}.

Fixpoint read_optional_signals (ps : list path) : Call St E (list AuthSignalSnapshot) :=
  match ps with
  | [] => mret []
  | p :: ps => signal ← read_optional_auth_signal p; rest ← read_optional_signals ps; mret (signal :: rest)
  end.

Definition read_auth_signal_snapshot : Call St E (list AuthSignalSnapshot) :=
  required ← read_required_session_signal session_path;
  optional ← read_optional_signals optional_paths;
  mret (required :: optional).

Fixpoint poll_for_2fa (fuel : nat) (config : TwoFaWaitConfig) (deadline : Z) (initial : list AuthSignalSnapshot) :
    Call St E unit :=
  match fuel with
  | O => λ _, None
  | S fuel =>
      now ← get af_now;
      let remaining := Z.max 0 (deadline - now) in
      if remaining =? 0 then throw timed_out
      else
        _ ← run (λ s, (af_sleep (Z.min (poll_interval config) remaining) s, tt));
        current ← read_auth_signal_snapshot;
        if bool_decide (current = initial) then poll_for_2fa fuel config deadline initial else mret tt
  end.

Definition wait_for_2fa_submit_until (fuel : nat) (config : TwoFaWaitConfig) (deadline : Z) : Call St E unit :=
  initial ← read_auth_signal_snapshot;
  poll_for_2fa fuel config deadline initial.

(** Up to three tries while another process holds the lock; [None] to wait for
    the next submission. *)
Fixpoint try_auth (attempts : nat) (first : bool) : Call St E (option T) :=
  match attempts with
  | O => mret None
  | S attempts =>
      _ ← when (negb first) (run (λ s, (af_sleep (TWO_FA_POLL_SECS * NANOS) s, tt)));
      r ← catch auth_fn;
      match r : result E T with
      | Ok t => mret (Some t)
      | Err e =>
          match classify_auth_retry_error e with
          | RetryTwoFactorRequired => mret None
          | RetryLockContention => try_auth attempts false
          | RetryOther => throw e
          end
      end
  end.

Fixpoint wait_rounds (fuel : nat) (config : TwoFaWaitConfig) (deadline : Z) : Call St E T :=
  match fuel with
  | O => λ _, None
  | S fuel' =>
      _ ← wait_for_2fa_submit_until fuel config deadline;
      _ ← run (λ s, (af_remove cache_path s, tt));
      r ← try_auth 3 true;
      match r : option T with
      | Some t => mret t
      | None => wait_rounds fuel' config deadline
      end
  end.

Definition wait_and_retry_2fa_with_config (fuel : nat) (config : TwoFaWaitConfig) : Call St E T :=
  now ← get af_now;
  wait_rounds fuel config (now + timeout config).

Definition wait_and_retry_2fa (fuel : nat) : Call St E T := wait_and_retry_2fa_with_config fuel TwoFaWaitConfig_default.

(** Short-lived commands wait for the lock: six attempts, three seconds apart. *)
Fixpoint retry_lock (attempts : nat) (last_err : E) : Call St E T :=
  match attempts with
  | O => throw last_err
  | S attempts =>
      r ← catch auth_fn;
      match r : result E T with
      | Ok t => mret t
      | Err e =>
          if bool_decide (classify_auth_retry_error e = RetryLockContention) then
            _ ← run (λ s, (af_sleep (3 * NANOS) s, tt));
            retry_lock attempts e
          else throw e
      end
  end.
Definition retry_on_lock_contention : Call St E T := retry_lock 6 lock_retries_exhausted.
End Wait.

(** ** Authenticating again *)

Section Reauth.
Context {St E Session Generation : Type} `{AuthDowncast E}.
(** [auth::authenticate_with_modes] for the session files left by a
    generation; the generation a two-factor error carries. *)
Context (authenticate : option Generation → Call St E Session) (generation : Session → Generation).
Context (two_factor_generation : E → option Generation).
Context (strip_session_routing_state : option Generation → St → St * result E unit).
Context (clear_validation_cache_for_reauth release_live_lock : St → St).
Context (wait_for_2fa : option Generation → Call St E Session).

Definition retry_persisted_session_after_two_factor (expected_generation : option Generation) : Call St E (option Session) :=
  _ ← run (λ s, (clear_validation_cache_for_reauth s, tt));
  r ← catch (authenticate expected_generation);
  match r : result E Session with
  | Ok session => mret (Some session)
  | Err e => if bool_decide (classify_sync_auth_error e = ClassSessionReset) then throw e else mret None
  end.

(** The branch both attempts take when Apple asks for a second factor. *)
Definition second_factor (is_watch_mode : bool) (expected_generation : option Generation) (e : E) : Call St E Session :=
  let expected_generation := match two_factor_generation e with Some g => Some g | None => expected_generation end in
  r ← retry_persisted_session_after_two_factor expected_generation;
  match r : option Session with
  | Some session => mret session
  | None => if should_wait_for_2fa is_watch_mode e then wait_for_2fa expected_generation else throw e
  end.

Definition reauth_after_session_error (is_watch_mode : bool) (expected_generation : option Generation) : Call St E Session :=
  _ ← run (λ s, (clear_validation_cache_for_reauth s, tt));
  r ← catch (authenticate expected_generation);
  match r : result E Session with
  | Ok session => mret session
  | Err e =>
      match classify_sync_auth_error e with
      | ClassSessionReset | ClassLockContention => throw e
      | ClassTwoFactorRequired => second_factor is_watch_mode expected_generation e
      | ClassOther =>
          _ ← attempt (λ e, e) (strip_session_routing_state expected_generation);
          r ← catch (authenticate expected_generation);
          match r : result E Session with
          | Ok session => mret session
          | Err e =>
              match classify_sync_auth_error e with
              | ClassTwoFactorRequired => second_factor is_watch_mode expected_generation e
              | _ => throw e
              end
          end
      end
  end.

(** *** Connecting: the first session error of a run is answered with one new
    authentication *)

Context {Service Libraries : Type}.
Context (init_photos_service : Session → Call St E Service) (resolve_libraries : Service → Call St E Libraries).
Context (release_lock : Service → St → St * result E (option Generation)).

(** One round; [again] is the next one, with a new session. *)
Definition connect_round (again : Session → Call St E (Service * Libraries)) (is_watch_mode : bool) (session : Session)
    (retried : bool) : Call St E (Service * Libraries) :=
  let released_generation := generation session in
  r ← catch (init_photos_service session);
  match r : result E Service with
  | Err e =>
      if should_retry_session_init e retried then
        session ← reauth_after_session_error is_watch_mode (Some released_generation);
        again session
      else throw e
  | Ok service =>
      r ← catch (resolve_libraries service);
      match r : result E Libraries with
      | Ok libraries => mret (service, libraries)
      | Err e =>
          if should_retry_session_init e retried then
            expected ← attempt (λ e, e) (release_lock service);
            session ← reauth_after_session_error is_watch_mode expected;
            again session
          else throw e
      end
  end.

Fixpoint connect (fuel : nat) (is_watch_mode : bool) (session : Session) (retried : bool) : Call St E (Service * Libraries) :=
  match fuel with
  | O => λ _, None
  | S fuel => connect_round (λ session, connect fuel is_watch_mode session true) is_watch_mode session retried
  end.

(** *** In the middle of a run *)

(** [attempt_reauth]: the session lock, the validation with its timeout, and
    the session that replaces the invalid one. *)
Context (reacquire_lock : St → St * result E unit) (validate_session : St → St * result E bool).
Context (release_session_lock : St → St * result E Generation) (replace_session : Session → St → St).

Definition attempt_reauth : Call St E unit :=
  _ ← attempt (λ e, e) reacquire_lock;
  valid ← attempt (λ e, e) validate_session;
  if valid : bool then mret tt
  else
    gen ← attempt (λ e, e) release_session_lock;
    session ← authenticate (Some gen);
    run (λ s, (replace_session session s, tt)).

Definition reacquire_session_lock_after_idle (lock_lost : E → E) : Call St E unit := attempt lock_lost reacquire_lock.

Definition reacquire_session (lock_lost : E → E) : Call St E unit :=
  _ ← reacquire_session_lock_after_idle lock_lost;
  r ← catch attempt_reauth;
  match r : result E unit with
  | Ok _ => mret tt
  | Err _ => reacquire_session_lock_after_idle lock_lost
  end.
End Reauth.
