(* ===== verification/AuthRetrySpec.v ===== *)
(** * What the retries around authentication promise

    Waiting for a second factor ends, with a session or an error; connecting
    authenticates again at most once; a short-lived command waits for the
    session lock six times at most. *)
From S2P Require Import Prelude RustStr Paths StateTypes Call AuthRetry.

(** ** Waiting ends *)

Section Wait.
Context {St E T : Type} `{AuthDowncast E, AuthFiles St E}.
Context (timed_out : E) (session_path : path) (optional_paths : list path) (cache_path : path) (auth_fn : Call St E T).

(** The clock does not go back, sleeping takes its time, calls return. *)
Definition forward {E' A} (m : Call St E' A) : Prop := ∀ s, ∃ s' r, m s = Some (s', r) ∧ af_now s <= af_now s'.
Record clock_ok : Prop := {
  ck_read p s : af_now s <= af_now (af_read p s).1;
  ck_modified p s : af_now s <= af_now (af_modified p s).1;
  ck_remove p s : af_now s <= af_now (af_remove p s);
  ck_sleep d s : 0 <= d → af_now s + d <= af_now (af_sleep d s);
  ck_auth : forward auth_fn;
}.
Hypothesis Hc : clock_ok.

Lemma forward_ret {E' A} (a : A) : forward (E' := E') (mret a).
Proof. intros s. exists s, (Ok a). split; [done|lia]. Qed.
Lemma forward_throw {E' A} (e : E') : forward (A := A) (throw e).
Proof. intros s. exists s, (Err e). split; [done|lia]. Qed.
Lemma forward_bind {E' A B} (m : Call St E' A) (f : A → Call St E' B) : forward m → (∀ a, forward (f a)) → forward (m ≫= f).
Proof.
  intros Hm Hf s. destruct (Hm s) as (s1 & [a|e] & Es & Hle); unfold mbind, Call_bind; rewrite Es; [|by exists s1, (Err e)].
  destruct (Hf a s1) as (s2 & r & Er & Hle2). exists s2, r. split; [done|lia].
Qed.
Lemma forward_catch {E' E'' A} (m : Call St E'' A) : forward m → forward (E' := E') (catch m).
Proof. intros Hm s. destruct (Hm s) as (s1 & r & Es & Hle). exists s1, (Ok r). unfold catch. by rewrite Es. Qed.
Lemma forward_attempt {E' A} (op : St → St * result E' A) (f : E' → E) : (∀ s, af_now s <= af_now (op s).1) → forward (attempt f op).
Proof. intros Hop s. specialize (Hop s). unfold attempt. destruct (op s) as [s1 r]. by eexists _, _. Qed.
Lemma forward_run {E' A} (op : St → St * A) : (∀ s, af_now s <= af_now (op s).1) → forward (E' := E') (run op).
Proof. intros Hop s. specialize (Hop s). unfold run. destruct (op s) as [s1 r]. by eexists _, _. Qed.
Lemma forward_when {E'} b (m : Call St E' unit) : forward m → forward (when b m).
Proof. destruct b; [done|intros _; apply forward_ret]. Qed.

Lemma forward_snapshot : forward (read_auth_signal_snapshot session_path optional_paths).
Proof.
  unfold read_auth_signal_snapshot, read_required_session_signal. repeat (apply forward_bind; intros).
  - apply forward_attempt, (ck_read Hc).
  - apply forward_attempt, (ck_modified Hc).
  - apply forward_ret.
  - induction optional_paths as [|p ps IH]; cbn [read_optional_signals]; [apply forward_ret|].
    unfold read_optional_auth_signal. repeat (apply forward_bind; intros); try done; try apply forward_ret.
    + apply forward_run, (ck_modified Hc).
    + apply forward_run, (ck_read Hc).
  - apply forward_ret.
Qed.

Lemma forward_try_auth n : ∀ first, forward (try_auth auth_fn n first).
Proof.
  induction n as [|n IH]; intros first; cbn [try_auth]; [apply forward_ret|].
  apply forward_bind; [apply forward_when, forward_run|intros _; apply forward_bind; [apply forward_catch, (ck_auth Hc)|intros [t|e]]].
  - intros s. cbn. pose proof (ck_sleep Hc (TWO_FA_POLL_SECS * NANOS) s). unfold TWO_FA_POLL_SECS, NANOS in *. lia.
  - apply forward_ret.
  - destruct (classify_auth_retry_error e); [apply forward_ret|apply IH|apply forward_throw].
Qed.

(** A poll ends; when it answers, time has passed. *)
Lemma poll_returns config deadline initial : 0 < poll_interval config → ∀ n s, deadline - af_now s <= Z.of_nat n →
  ∃ s' r, poll_for_2fa timed_out session_path optional_paths (S n) config deadline initial s = Some (s', r)
    ∧ (r = Ok tt → af_now s < af_now s' ∧ af_now s < deadline).
Proof.
  intros Hpoll. induction n as [n IH] using lt_wf_ind. intros s Hn. cbn [poll_for_2fa].
  unfold mbind at 1, Call_bind at 1, get at 1.
  destruct (Z.max 0 (deadline - af_now s) =? 0) eqn:Hr; [by exists s, (Err timed_out)|]. zbool.
  set (s1 := af_sleep (Z.min (poll_interval config) (Z.max 0 (deadline - af_now s))) s).
  assert (Hs1 : af_now s + 1 <= af_now s1).
  { pose proof (ck_sleep Hc (Z.min (poll_interval config) (Z.max 0 (deadline - af_now s))) s). unfold s1. lia. }
  unfold mbind at 1, Call_bind at 1, run at 1. fold s1.
  destruct (forward_snapshot s1) as (s2 & [current|e] & Es & Hle); unfold mbind, Call_bind; rewrite Es; [|by exists s2, (Err e)].
  case_bool_decide; [|exists s2, (Ok tt); split; [done|lia]].
  destruct n as [|n]; [lia|]. destruct (IH n ltac:(lia) s2 ltac:(lia)) as (s3 & r & Er & Hok).
  exists s3, r. split; [exact Er|]. intros Heq. apply Hok in Heq. lia.
Qed.

Lemma wait_returns config deadline n s : 0 < poll_interval config → deadline - af_now s <= Z.of_nat n →
  ∃ s' r, wait_for_2fa_submit_until timed_out session_path optional_paths (S n) config deadline s = Some (s', r)
    ∧ (r = Ok tt → af_now s < af_now s' ∧ af_now s < deadline).
Proof.
  intros Hpoll Hn. unfold wait_for_2fa_submit_until.
  destruct (forward_snapshot s) as (s1 & [initial|e] & Es & Hle); unfold mbind, Call_bind; rewrite Es; [|by exists s1, (Err e)].
  destruct (poll_returns config deadline initial Hpoll n s1 ltac:(lia)) as (s2 & r & Er & Hok).
  exists s2, r. split; [done|]. intros Heq. apply Hok in Heq. lia.
Qed.

Lemma rounds_return config deadline : 0 < poll_interval config → ∀ n s, deadline - af_now s <= Z.of_nat n →
  is_Some (wait_rounds timed_out session_path optional_paths cache_path auth_fn (S n) config deadline s).
Proof.
  intros Hpoll. induction n as [n IH] using lt_wf_ind. intros s Hn. cbn [wait_rounds].
  destruct (wait_returns config deadline n s Hpoll Hn) as (s1 & [[]|e] & Es & Hok);
    unfold mbind at 1, Call_bind at 1; rewrite Es; [|by eexists].
  destruct (Hok eq_refl) as [Hlt Hlt']. set (s2 := af_remove cache_path s1). pose proof (ck_remove Hc cache_path s1) as Hle2. fold s2 in Hle2.
  unfold mbind at 1, Call_bind at 1, run at 1. fold s2.
  destruct (forward_try_auth 3 true s2) as (s3 & [[t|]|e] & Er & Hle3); unfold mbind, Call_bind; rewrite Er; [by eexists| |by eexists].
  destruct n as [|n]; [lia|]. apply IH; lia.
Qed.

(** C27: waiting for a second factor ends.  Whatever files appear and however
    authentication answers - still not trusted, locked by another process, a
    session - the wait returns a session or an error before it runs out of
    polls, as long as single calls return and sleeping makes time pass. *)
Theorem two_factor_wait_returns config s : 0 < poll_interval config →
  is_Some (wait_and_retry_2fa_with_config timed_out session_path optional_paths cache_path auth_fn
             (S (Z.to_nat (timeout config))) config s).
Proof.
  intros Hpoll. unfold wait_and_retry_2fa_with_config, mbind, Call_bind, get. apply rounds_return; [done|]. lia.
Qed.

(** A session comes only from authentication. *)
Lemma retry_on_lock_contention_ok exhausted s s' t :
  retry_on_lock_contention exhausted auth_fn s = Some (s', Ok t) → ∃ s1 s2, auth_fn s1 = Some (s2, Ok t).
Proof.
  unfold retry_on_lock_contention. generalize 6%nat, exhausted. intros n. revert s. induction n as [|n IH]; intros s e0; cbn [retry_lock]; [done|].
  intros (s1 & r & Hr%(proj1 (catch_Some _ _ _ _)) & Hk)%bind_Some. destruct r as [t'|e]; [injection Hk as _ <-; by exists s, s1|].
  case_bool_decide; [|done]. apply bind_Some in Hk as (s2 & [] & _ & Hk). by eapply IH.
Qed.
End Wait.

(** ** Connecting *)

Section Connect.
Context {St E Session Generation Service Libraries : Type} `{AuthDowncast E}.
Context (authenticate : option Generation → Call St E Session) (generation : Session → Generation).
Context (two_factor_generation : E → option Generation).
Context (strip_session_routing_state : option Generation → St → St * result E unit).
Context (clear_validation_cache_for_reauth : St → St) (wait_for_2fa : option Generation → Call St E Session).
Context (init_photos_service : Session → Call St E Service) (resolve_libraries : Service → Call St E Libraries).
Context (release_lock : Service → St → St * result E (option Generation)).

Abbreviation connect := (connect authenticate generation two_factor_generation strip_session_routing_state
  clear_validation_cache_for_reauth wait_for_2fa init_photos_service resolve_libraries release_lock).

Abbreviation round := (connect_round authenticate generation two_factor_generation strip_session_routing_state
  clear_validation_cache_for_reauth wait_for_2fa init_photos_service resolve_libraries release_lock).

Lemma round_ext f g watch session retried s : (∀ x s, f x s = g x s) → round f watch session retried s = round g watch session retried s.
Proof.
  intros Hfg. unfold connect_round, mbind, Call_bind. destruct (catch _ s) as [[s1 [[service|e]|e]]|]; [| |done..].
  - destruct (catch _ s1) as [[s2 [[libs|e]|e]]|]; [done| |done..]. destruct (should_retry_session_init e retried); [|done].
    destruct (attempt _ _ s2) as [[s3 [x|e']]|]; [|done..].
    destruct (reauth_after_session_error _ _ _ _ _ _ _ s3) as [[s4 [session'|e']]|]; [apply Hfg|done..].
  - destruct (should_retry_session_init e retried); [|done].
    destruct (reauth_after_session_error _ _ _ _ _ _ _ s1) as [[s4 [session'|e']]|]; [apply Hfg|done..].
Qed.

(** A second session error is not answered with another authentication. *)
Lemma round_retried f g watch session s : round f watch session true s = round g watch session true s.
Proof.
  unfold connect_round, mbind, Call_bind. destruct (catch _ s) as [[s1 [[service|e]|e]]|]; [|done..].
  by destruct (catch _ s1) as [[s2 [[libs|e]|e]]|].
Qed.

(** Two rounds are enough, whatever the provider answers: a session error is
    answered with one new authentication and no more. *)
Theorem connect_ends_after_one_retry n watch session retried s :
  connect (S (S n)) watch session retried s = connect 2 watch session retried s.
Proof. cbn [AuthRetry.connect]. apply round_ext. intros x s'. apply round_retried. Qed.
End Connect.

(** ** A run

    A clock in nanoseconds; the session file changes after twelve seconds,
    authentication first still asks for the code and then answers. *)
Module WaitRuns.
Definition St : Type := Z.
Inductive Failure := NotTrusted | TimedOut | NoFile.
#[export] Instance errors : AuthDowncast Failure := {
  as_auth_error e := match e with NotTrusted => Some TwoFactorRequired | _ => None end; as_icloud_error _ := None }.
#[export] Instance files : AuthFiles St Failure := {
  af_read _ s := (s, Ok (if s <? 12 * NANOS then [1] else if s <? 23 * NANOS then [2] else [3]));
  af_modified _ s := (s, Ok 0);
  af_remove _ s := s; af_now s := s; af_sleep d s := s + d }.
Definition auth : Call St Failure nat := λ s, Some (s, if s <? 23 * NANOS then Err NotTrusted else Ok 7%nat).
Definition config : TwoFaWaitConfig := {| poll_interval := 5; timeout := 8 |}.
Definition session_path : path := lit "session".

Lemma clock : clock_ok auth.
Proof. split; cbn; try lia. intros s. exists s, (if s <? 23 * NANOS then Err NotTrusted else Ok 7%nat). split; [done|lia]. Qed.

(** With the configured intervals the wait answers after two rounds. *)
Lemma default_wait :
  wait_and_retry_2fa TimedOut session_path [] session_path auth 200 0 = Some (25 * NANOS, Ok 7%nat).
Proof. vm_compute. reflexivity. Qed.

Lemma two_factor_wait_returns_witness :
  0 < poll_interval config ∧
  is_Some (wait_and_retry_2fa_with_config TimedOut session_path [] session_path auth (S (Z.to_nat (timeout config))) config 0).
Proof.
  split; [reflexivity|]. exact (two_factor_wait_returns TimedOut session_path [] session_path auth clock config 0 eq_refl).
Defined.
End WaitRuns.
