(* ===== verification/SyncLoop.v ===== *)
(** * The sync loop: [run_sync] of [src/sync_loop.rs]

    One process: cycle after cycle, the watch pre-check, the refresh of stale
    plans, the sync cycle, the database token, the health of the service, the
    recovery of an expired session, and the wait for the next cycle.

    Parameters: the cycle itself (its model is [Cycle.run_cycle]), the pass
    planner, authentication ([AuthRetry]), the rewrite of metadata, the wait,
    the shutdown token and the clock.  Metrics, notifications and the JSON
    report are left out. *)
From S2P Require Import Prelude RustStr Paths Types StateTypes StateDb Stats Checkpoint OnDisk Cycle Watch Call AuthRetry.

(** ** Health: [src/health.rs], [src/cycle_reporter.rs] *)

Record HealthStatus := {
  last_sync_at : option Z;
  last_success_at : option Z;
  consecutive_failures : Z;
  last_error : option str;
}.
Definition HealthStatus_new : HealthStatus :=
  {| last_sync_at := None; last_success_at := None; consecutive_failures := 0; last_error := None |}.
Definition record_success (now : Z) (h : HealthStatus) : HealthStatus :=
  {| last_sync_at := Some now; last_success_at := Some now; consecutive_failures := 0; last_error := None |}.
Definition record_failure (now : Z) (error : str) (h : HealthStatus) : HealthStatus :=
  {| last_sync_at := Some now; last_success_at := last_success_at h;
     consecutive_failures := (consecutive_failures h + 1) mod (U32_MAX + 1); last_error := Some error |}.

Inductive CycleStatus := CycleSuccess | CycleFailed | CycleSessionExpired | CycleInterrupted.
#[export] Instance CycleStatus_eq : EqDecision CycleStatus.
Proof. solve_decision. Defined.
Definition CycleStatus_as_report_str (s : CycleStatus) : str :=
  match s with
  | CycleSuccess => lit "success"
  | CycleFailed => lit "partial_failure"
  | CycleSessionExpired => lit "session_expired"
  | CycleInterrupted => lit "interrupted"
  end.
Definition classify_cycle (st : SyncStats) (failed_count : Z) (session_expired : bool) : CycleStatus :=
  if session_expired then CycleSessionExpired
  else if interrupted st then CycleInterrupted
  else if 0 <? failed_count then CycleFailed
  else CycleSuccess.

Definition update_health (now : Z) (status : CycleStatus) (failed_count : Z) (h : HealthStatus) : HealthStatus :=
  match status with
  | CycleSuccess => record_success now h
  | CycleFailed => record_failure now (show_u64 failed_count ++ lit " sync failures") h
  | CycleSessionExpired => record_failure now (lit "session expired") h
  | CycleInterrupted => record_failure now (lit "sync interrupted") h
  end.

(** ** Intervals and one-shot runs *)

Definition SERVICE_MODE_DEFAULT_WATCH_INTERVAL : Z := 86400.
Definition METADATA_CAPTURE_FOLLOW_UP_INTERVAL_SECS : Z := 60.
Definition MAX_REAUTH_ATTEMPTS : Z := 3.

Definition metadata_capture_watch_interval (configured_interval : option Z) (st : SyncStats) (cycle_failed_count : Z) : option Z :=
  (λ interval,
     if (cycle_failed_count =? 0) && (0 <? metadata_capture_remaining st) && metadata_capture_progressed st
        && negb (has_rate_limit_pressure st)
     then Z.min interval METADATA_CAPTURE_FOLLOW_UP_INTERVAL_SECS else interval) <$> configured_interval.

Definition service_mode_default_interval (current : option Z) (service_mode : bool) : option Z :=
  if service_mode && match current with None => true | Some _ => false end
  then Some SERVICE_MODE_DEFAULT_WATCH_INTERVAL else None.

Inductive OneShotError := RefreshUnderService | RefreshNarrowed | RepairNeedsExifWriter | RepairUnderService.
Definition refresh_metadata_forces_one_shot (refresh_metadata service_mode narrows_enumeration : bool) : result OneShotError bool :=
  if negb refresh_metadata then Ok false
  else if service_mode then Err RefreshUnderService
  else if narrows_enumeration then Err RefreshNarrowed
  else Ok true.
Definition validate_capture_timestamp_repair (repairs set_exif_datetime : bool) : result OneShotError bool :=
  if negb repairs then Ok repairs else if set_exif_datetime then Ok repairs else Err RepairNeedsExifWriter.
Definition repair_truncated_forces_one_shot (repair_truncated service_mode : bool) : result OneShotError bool :=
  if negb repair_truncated then Ok false else if service_mode then Err RepairUnderService else Ok true.

(** The watch interval of a run; without one the run is a single cycle. *)
Definition effective_interval (is_one_shot refresh_metadata repairs set_exif_datetime repair_truncated service_mode narrows_enumeration : bool)
    (configured : option Z) : result OneShotError (option Z) :=
  let interval := if is_one_shot then None else configured in
  refresh ← refresh_metadata_forces_one_shot refresh_metadata service_mode narrows_enumeration;
  let interval := if refresh : bool then None else interval in
  _ ← validate_capture_timestamp_repair repairs set_exif_datetime;
  repair ← repair_truncated_forces_one_shot repair_truncated service_mode;
  let interval := if repair : bool then None else interval in
  Ok (match service_mode_default_interval interval service_mode with Some applied => Some applied | None => interval end).

Definition should_reconcile_this_cycle (cycle_index : Z) (every_n : option Z) : bool :=
  match every_n with
  | Some n => (0 <? n) && (0 <? cycle_index) && (cycle_index mod n =? 0)
  | None => false
  end.

(** ** The ledger of runs *)

Record SyncRunStats := {
  srs_assets_seen : Z;
  srs_assets_downloaded : Z;
  srs_assets_failed : Z;
  srs_enumeration_errors : Z;
  srs_interrupted : bool;
  srs_api_total_at_start : option Z;
  srs_api_total_at_start_partial : bool;
  srs_inventory_drop_warnings : Z;
  srs_inventory_drop_previous_total : option Z;
  srs_inventory_drop_current_total : option Z;
  srs_inventory_drop_library : option str;
}.
Definition sync_run_stats_from_cycle (r : CycleResult) : SyncRunStats :=
  let st := cr_stats r in
  let to_u64 v := default U64_MAX (try_from U64_MAX v) in
  {| srs_assets_seen := assets_seen st; srs_assets_downloaded := to_u64 (downloaded st);
     srs_assets_failed := to_u64 (failed st); srs_enumeration_errors := to_u64 (enumeration_errors st);
     srs_interrupted := interrupted st; srs_api_total_at_start := api_total_at_start st;
     srs_api_total_at_start_partial := api_total_at_start_partial st;
     srs_inventory_drop_warnings := to_u64 (inventory_drop_warnings st);
     srs_inventory_drop_previous_total := inventory_drop_previous_total st;
     srs_inventory_drop_current_total := inventory_drop_current_total st;
     srs_inventory_drop_library := inventory_drop_library st |}.

Class RunLedger (St : Type) := {
  rl_start_sync_run_at : Z → St → St * result StateError Z;
  rl_complete_sync_run : Z → SyncRunStats → St → St * result StateError unit;
}.

(** ** The tail of a metadata refresh *)

Definition with_failed_interrupted (n : Z) (b : bool) (s : SyncStats) : SyncStats := {|
  assets_seen := assets_seen s; api_total_at_start := api_total_at_start s;
  api_total_at_start_partial := api_total_at_start_partial s; downloaded := downloaded s; failed := n;
  skipped := skipped s; bytes_downloaded := bytes_downloaded s; disk_bytes_written := disk_bytes_written s;
  exif_failures := exif_failures s; metadata_capture_revision := metadata_capture_revision s;
  metadata_capture_refreshed := metadata_capture_refreshed s;
  metadata_capture_failures := metadata_capture_failures s;
  metadata_capture_remaining := metadata_capture_remaining s;
  metadata_capture_progressed := metadata_capture_progressed s; state_write_failures := state_write_failures s;
  enumeration_errors := enumeration_errors s; count_probe_failures := count_probe_failures s;
  stale_pending_pruned := stale_pending_pruned s; pagination_shortfall_warnings := pagination_shortfall_warnings s;
  pagination_shortfall_assets := pagination_shortfall_assets s; tail_probes := tail_probes s;
  count_undercount_assets := count_undercount_assets s;
  enumeration_incomplete := enumeration_incomplete s;
  inventory_drop_warnings := inventory_drop_warnings s; inventory_drop_assets := inventory_drop_assets s;
  inventory_drop_percent := inventory_drop_percent s;
  inventory_drop_previous_total := inventory_drop_previous_total s;
  inventory_drop_current_total := inventory_drop_current_total s; inventory_drop_library := inventory_drop_library s;
  sync_token_blocked := sync_token_blocked s; sync_token_blocked_reason := sync_token_blocked_reason s;
  sync_token_blocked_source := sync_token_blocked_source s;
  sync_token_blocked_explanation := sync_token_blocked_explanation s;
  full_enumeration_reason := full_enumeration_reason s; sync_token_blocked_zone := sync_token_blocked_zone s;
  sync_token_expected_receivers := sync_token_expected_receivers s;
  sync_token_receivers_with_token := sync_token_receivers_with_token s;
  sync_token_receivers_missing := sync_token_receivers_missing s;
  sync_token_receivers_blank := sync_token_receivers_blank s;
  sync_token_receivers_dropped := sync_token_receivers_dropped s;
  sync_token_unique_values := sync_token_unique_values s;
  same_cycle_recovery_attempts := same_cycle_recovery_attempts s;
  same_cycle_recovery_successes := same_cycle_recovery_successes s;
  checkpoint_retry_passes := checkpoint_retry_passes s;
  checkpoint_revalidate_records := checkpoint_revalidate_records s; elapsed_secs := elapsed_secs s;
  interrupted := b; rate_limited := rate_limited s; photos_downloaded := photos_downloaded s;
  videos_downloaded := videos_downloaded s; recap := recap s |}.

Definition merge_refresh_tail_outcome (r : CycleResult) (n : Z) (was_interrupted : bool) : CycleResult := {|
  cr_failed_count := saturating_add USIZE_MAX (cr_failed_count r) n;
  cr_session_expired := cr_session_expired r;
  cr_stats := with_failed_interrupted (saturating_add USIZE_MAX (failed (cr_stats r)) n)
                (interrupted (cr_stats r) || was_interrupted) (cr_stats r);
  cr_db_sync_token_advance_safe := cr_db_sync_token_advance_safe r |}.

(** A cycle after which the database token may be stored. *)
Definition clean_cycle (r : CycleResult) : bool :=
  negb (cr_session_expired r) && (cr_failed_count r =? 0) && negb (interrupted (cr_stats r)) && cr_db_sync_token_advance_safe r.

(** ** The loop *)

Record LoopConfig := {
  lc_watch_interval : option Z;
  lc_has_db : bool;
  lc_dry_run : bool;
  lc_only_print_filenames : bool;
  lc_refresh_metadata : bool;
  lc_writers_enabled : bool;
  lc_reconcile_every_n_cycles : option Z;
  lc_scope : DbPrecheckScope;
}.
Definition is_watch_mode (c : LoopConfig) : bool := match lc_watch_interval c with Some _ => true | None => false end.

Record LoopState := {
  lp_reauth_attempts : Z;
  lp_cumulative_failed_count : Z;
  lp_cycle_index : Z;
  lp_libraries : list LoopLibrary;
  lp_album_refresh_failures : Z;
  lp_health : HealthStatus;
}.
Definition LoopState_new (libs : list LoopLibrary) : LoopState := {|
  lp_reauth_attempts := 0; lp_cumulative_failed_count := 0; lp_cycle_index := 0; lp_libraries := libs;
  lp_album_refresh_failures := 0; lp_health := HealthStatus_new |}.

Definition set_reauth (n : Z) (l : LoopState) : LoopState := {|
  lp_reauth_attempts := n; lp_cumulative_failed_count := lp_cumulative_failed_count l; lp_cycle_index := lp_cycle_index l;
  lp_libraries := lp_libraries l; lp_album_refresh_failures := lp_album_refresh_failures l; lp_health := lp_health l |}.
Definition set_cumulative (n : Z) (l : LoopState) : LoopState := {|
  lp_reauth_attempts := lp_reauth_attempts l; lp_cumulative_failed_count := n; lp_cycle_index := lp_cycle_index l;
  lp_libraries := lp_libraries l; lp_album_refresh_failures := lp_album_refresh_failures l; lp_health := lp_health l |}.
Definition set_cycle_index (n : Z) (l : LoopState) : LoopState := {|
  lp_reauth_attempts := lp_reauth_attempts l; lp_cumulative_failed_count := lp_cumulative_failed_count l; lp_cycle_index := n;
  lp_libraries := lp_libraries l; lp_album_refresh_failures := lp_album_refresh_failures l; lp_health := lp_health l |}.
Definition set_libraries (libs : list LoopLibrary) (failures : Z) (l : LoopState) : LoopState := {|
  lp_reauth_attempts := lp_reauth_attempts l; lp_cumulative_failed_count := lp_cumulative_failed_count l;
  lp_cycle_index := lp_cycle_index l; lp_libraries := libs; lp_album_refresh_failures := failures; lp_health := lp_health l |}.
Definition set_health (h : HealthStatus) (l : LoopState) : LoopState := {|
  lp_reauth_attempts := lp_reauth_attempts l; lp_cumulative_failed_count := lp_cumulative_failed_count l;
  lp_cycle_index := lp_cycle_index l; lp_libraries := lp_libraries l;
  lp_album_refresh_failures := lp_album_refresh_failures l; lp_health := h |}.

(** What an iteration of the loop ends with: the next one, at once or after
    the wait, or the end of the loop. *)
Inductive Flow := Continue | Break.

Section SyncLoop.
Context {St E : Type} `{SyncTokenStore St, PrecheckStore St, ScopeJson, FileHashes St, FileSizes St, RunLedger St, AuthDowncast E}.
Context (fuel : nat) (c : LoopConfig) (is_cancelled : St → bool) (utc_now : St → Z).
Context (changes_database : option str → St → St * result E ChangesDatabaseResponse).
(** The pass planner: whether the plan of a library has passes. *)
Context (resolve_passes_for_scope : LoopLibrary → St → St * result E bool).
Context (run_cycle : list LibraryState → St → St * result E CycleResult).
Context (drain_pending_metadata_rewrites : St → St * Z).
Context (attempt_reauth wait_for_2fa reacquire_session : Call St E unit) (release_lock : St → St).
(** Sleeping for an interval: whether the shutdown ended it. *)
Context (idle : Z → St → St * bool).
Context (session_lost : E) (partial_sync : Z → E).

Abbreviation M := (Call St E).

(** *** Before the cycle *)

Definition watch_precheck (libs : list LoopLibrary) (cycle_index : Z) (s : St) : St * WatchPrecheck :=
  let '(s, p) := if is_watch_mode c then check_changes_database changes_database (lc_has_db c) libs (lc_scope c) s
                 else (s, proceed_all) in
  let writes := negb (lc_dry_run c) && negb (lc_only_print_filenames c) && lc_has_db c in
  let '(s, p) :=
    if writes then
      let '(s, drift) := run_bounded_local_drift_probe s in
      (s, if 0 <? dp_marked_failed drift then proceed_all else p)
    else (s, p) in
  if is_watch_mode c && writes then include_pending_metadata_work (lc_writers_enabled c) libs p s else (s, p).

Fixpoint refresh_needed_library_plans (zones : option (gset str)) (libs : list LoopLibrary) (failures : Z) (s : St) :
    St * (list LoopLibrary * Z) :=
  match libs with
  | [] => (s, ([], failures))
  | lib :: libs =>
      let skip := negb (ll_plan_needs_refresh lib)
                  || match zones with Some zones => negb (bool_decide (zone_name lib ∈ zones)) | None => false end in
      let '(s, (lib, failures)) :=
        if skip then (s, (lib, failures))
        else
          match resolve_passes_for_scope lib s with
          | (s, Ok active) =>
              (s, ({| ll_state := {| zone_name := zone_name lib; ls_sync_token_key := ls_sync_token_key lib;
                                     has_active_passes := active; plan_is_stale := false |};
                      ll_plan_needs_refresh := false |}, 0))
          | (s, Err _) =>
              (s, ({| ll_state := {| zone_name := zone_name lib; ls_sync_token_key := ls_sync_token_key lib;
                                     has_active_passes := has_active_passes lib; plan_is_stale := true |};
                      ll_plan_needs_refresh := true |}, (failures + 1) mod (U32_MAX + 1)))
          end in
      let '(s, (libs, failures)) := refresh_needed_library_plans zones libs failures s in
      (s, (lib :: libs, failures))
  end.

Definition cycle_library_states (p : WatchPrecheck) (libs : list LoopLibrary) : list LibraryState :=
  List.filter (λ lib, should_sync_zone p (zone_name lib)) (ll_state <$> libs).

(** *** The cycle and its records *)

Definition record_run (started_at : Z) (r : CycleResult) (s : St) : St :=
  match rl_start_sync_run_at started_at s with
  | (s, Ok run_id) => (rl_complete_sync_run run_id (sync_run_stats_from_cycle r) s).1
  | (s, Err _) => s
  end.

Definition store_token_after_cycle (p : WatchPrecheck) (r : CycleResult) (s : St) : St :=
  match db_sync_token_after_success p with
  | Some token =>
      if clean_cycle r && lc_has_db c then store_scoped_db_sync_token (lc_scope c) token s else s
  | None => s
  end.

Definition run_one_cycle (p : WatchPrecheck) (libs : list LoopLibrary) : M CycleResult :=
  started_at ← get utc_now;
  r ← attempt (λ e, e) (run_cycle (cycle_library_states p libs));
  tail ← (if lc_refresh_metadata c && lc_has_db c then run drain_pending_metadata_rewrites else mret 0);
  cancelled ← get is_cancelled;
  let r := if lc_refresh_metadata c then merge_refresh_tail_outcome r tail cancelled else r in
  _ ← when (lc_has_db c) (run (λ s, (record_run started_at r s, tt)));
  _ ← run (λ s, (store_token_after_cycle p r s, tt));
  mret r.

(** *** After the cycle *)

Definition recover_session (l : LoopState) : M (LoopState * Flow) :=
  let l := set_reauth (lp_reauth_attempts l + 1) l in
  if MAX_REAUTH_ATTEMPTS <=? lp_reauth_attempts l then throw session_lost
  else
    r ← catch attempt_reauth;
    match r : result E unit with
    | Ok _ => mret (l, Continue)
    | Err e =>
        if bool_decide (classify_sync_auth_error e = ClassTwoFactorRequired) then
          if should_wait_for_2fa (is_watch_mode c) e then
            _ ← wait_for_2fa;
            mret (set_reauth (lp_reauth_attempts l - 1) l, Continue)
          else throw e
        else throw e
    end.

(** The interval to the next cycle, or the flow a session recovery decides. *)
Definition settle_cycle (r : CycleResult) (l : LoopState) : M (LoopState * option Flow) :=
  if cr_session_expired r then
    x ← recover_session l;
    mret (x.1, Some x.2)
  else if 0 <? cr_failed_count r then
    if is_watch_mode c then
      mret (set_cumulative (saturating_add USIZE_MAX (lp_cumulative_failed_count l) (cr_failed_count r)) l, None)
    else throw (partial_sync (cr_failed_count r))
  else mret (set_reauth 0 l, None).

Definition run_periodic_reconcile : M unit :=
  λ s, '(s, _) ← scan_local_drift fuel s; Some (s, Ok tt).

Definition plans_stale (libs : list LoopLibrary) : list LoopLibrary :=
  (λ lib, {| ll_state := ll_state lib; ll_plan_needs_refresh := true |}) <$> libs.

Definition wait_for_next_cycle (next_watch_interval : option Z) (l : LoopState) : M (LoopState * Flow) :=
  match next_watch_interval with
  | None => mret (l, Break)
  | Some interval =>
      cancelled ← get is_cancelled;
      if cancelled : bool then mret (l, Break)
      else
        _ ← run (λ s, (release_lock s, tt));
        stopped ← run (idle interval);
        if stopped : bool then mret (l, Break)
        else
          _ ← reacquire_session;
          mret (set_libraries (plans_stale (lp_libraries l)) (lp_album_refresh_failures l) l, Continue)
  end.

Definition after_cycle (next_watch_interval : option Z) (l : LoopState) : M (LoopState * Flow) :=
  _ ← when (is_watch_mode c && should_reconcile_this_cycle (lp_cycle_index l) (lc_reconcile_every_n_cycles c) && lc_has_db c)
        run_periodic_reconcile;
  wait_for_next_cycle next_watch_interval l.

(** *** One iteration *)

Definition iterate (l : LoopState) : M (LoopState * Flow) :=
  cancelled ← get is_cancelled;
  if cancelled : bool then mret (l, Break)
  else
    let l := set_cycle_index (saturating_add U64_MAX (lp_cycle_index l) 1) l in
    p ← run (watch_precheck (lp_libraries l) (lp_cycle_index l));
    match p : WatchPrecheck with
    | SkipAll =>
        now ← get utc_now;
        after_cycle (lc_watch_interval c) (set_health (record_success now (lp_health l)) l)
    | Proceed _ _ =>
        x ← run (refresh_needed_library_plans (changed_zones p) (lp_libraries l) (lp_album_refresh_failures l));
        let l := set_libraries x.1 x.2 l in
        r ← run_one_cycle p (lp_libraries l);
        now ← get utc_now;
        let status := classify_cycle (cr_stats r) (cr_failed_count r) (cr_session_expired r) in
        let l := set_health (update_health now status (cr_failed_count r) (lp_health l)) l in
        let next_watch_interval := metadata_capture_watch_interval (lc_watch_interval c) (cr_stats r) (cr_failed_count r) in
        x ← settle_cycle r l;
        match x.2 : option Flow with
        | Some flow => mret (x.1, flow)
        | None => after_cycle next_watch_interval x.1
        end
    end.

(** The whole loop; its result is an error when a cycle of the process failed. *)
Fixpoint sync_loop (n : nat) (l : LoopState) : M unit :=
  match n with
  | O => λ _, None
  | S n =>
      x ← iterate l;
      match x.2 : Flow with
      | Continue => sync_loop n x.1
      | Break =>
          if 0 <? lp_cumulative_failed_count x.1 then throw (partial_sync (lp_cumulative_failed_count x.1)) else mret tt
      end
  end.
End SyncLoop.
