(* ===== verification/SyncLoopSpec.v ===== *)
(** * What the sync loop promises

    The database token a watch process keeps stands for changes that are
    covered: whenever it is stored, and whenever a cycle is skipped because of
    it, every change before its position in a library that has passes was once
    behind the zone token of that library.  The first section proves it against
    what a cycle promises ([cycle_ok]); the second discharges the promise for
    the real cycle.  The guarantee is for a process that is not being shut
    down: a cycle that ends early for the shutdown counts as clean. *)
From S2P Require Import Prelude RustStr Paths Types StateTypes StateDb Stats Checkpoint OnDisk Cycle CycleSpec CycleClean Watch Call AuthRetry SyncLoop.

(** ** Operations that leave the token alone *)

Section Frame.
Context {St : Type} (row : St → option ScopedDbSyncToken) (head : St → nat) (is_cancelled : St → bool).
(** [covered s z i]: the change [i] of the account, in the zone [z], has been
    taken by a sync of that zone. *)
Context (covered : St → str → nat → Prop).

(** The provider's log grows, a shutdown is for ever, what is covered stays. *)
Record steady (s s' : St) : Prop := {
  steady_head : (head s <= head s')%nat;
  steady_cancelled : is_cancelled s = true → is_cancelled s' = true;
  steady_covered z i : (i < head s)%nat → covered s z i → covered s' z i;
}.
Record calm (s s' : St) : Prop := { calm_steady :> steady s s'; calm_row : row s' = row s }.

#[export] Instance steady_preorder : PreOrder steady.
Proof.
  split; [by split|]. intros s1 s2 s3 [H1 C1 V1] [H2 C2 V2]. split; [lia|auto|].
  intros z i Hi Hc. apply V2; [lia|auto].
Qed.
#[export] Instance calm_preorder : PreOrder calm.
Proof. split; [by split|]. intros s1 s2 s3 [S1 R1] [S2 R2]. split; [by etrans|congruence]. Qed.

Definition quiet {A} (op : St → St * A) : Prop := ∀ s s' a, op s = (s', a) → calm s s'.
Definition quiet_call {E A} (m : Call St E A) : Prop := ∀ s s' r, m s = Some (s', r) → calm s s'.

Section Combinators.
Context {E : Type}.

Lemma calm_ret {A} (a : A) : quiet_call (E := E) (mret a).
Proof. by intros s s' r [= <- _]. Qed.
Lemma quiet_throw {A} (e : E) : quiet_call (A := A) (throw e).
Proof. by intros s s' r [= <- _]. Qed.
Lemma quiet_get {A} (f : St → A) : quiet_call (E := E) (get f).
Proof. by intros s s' r [= <- _]. Qed.
Lemma quiet_run {A} (op : St → St * A) : quiet op → quiet_call (E := E) (Call.run op).
Proof. intros Hop s s' r. unfold Call.run. destruct (op s) as [s1 a] eqn:Eo. intros [= <- _]. by eapply Hop. Qed.
Lemma quiet_attempt {E' A} (f : E' → E) (op : St → St * result E' A) : quiet op → quiet_call (attempt f op).
Proof. intros Hop s s' r. unfold attempt. destruct (op s) as [s1 a] eqn:Eo. intros [= <- _]. by eapply Hop. Qed.
Lemma calm_bind {A B} (m : Call St E A) (f : A → Call St E B) :
  quiet_call m → (∀ a, quiet_call (f a)) → quiet_call (m ≫= f).
Proof.
  intros Hm Hf s s' r. unfold mbind, Call_bind. destruct (m s) as [[s1 [a|e]]|] eqn:Em; [|intros [= <- _]; by eapply Hm|done].
  intros Hr. etrans; [by eapply Hm|by eapply Hf].
Qed.
Lemma quiet_catch {E' A} (m : Call St E' A) : quiet_call m → quiet_call (E := E) (catch m).
Proof. intros Hm s s' r. unfold catch. destruct (m s) as [[s1 x]|] eqn:Em; [|done]. intros [= <- _]. by eapply Hm. Qed.
Lemma quiet_when b (m : Call St E unit) : quiet_call m → quiet_call (when b m).
Proof. intros Hm. destruct b; [done|apply calm_ret]. Qed.
End Combinators.
End Frame.

Lemma quiet_use {St A} row head is_cancelled covered (op : St → St * A) s s' a :
  quiet row head is_cancelled covered op → op s = (s', a) → calm row head is_cancelled covered s s'.
Proof. intros Hop. apply Hop. Qed.

Create HintDb quiet.

(** Takes a run of quiet operations apart, and closes [calm] goals. *)
Ltac take_apart :=
  repeat match goal with
  | Hr : (let '(_, _) := ?e in _) = (_, _) |- _ => destruct e eqn:?
  | Hr : (match ?e with _ => _ end) = (_, _) |- _ => destruct e eqn:?
  | Hr : (_, _) = (_, _) |- _ => injection Hr; clear Hr; intros; subst
  | Hr : (if ?b then _ else _) = (_, _) |- _ => destruct b eqn:?
  end.
Ltac calm_step :=
  match goal with
  | |- calm _ _ _ _ ?s ?s => reflexivity
  | Hr : _ ?s = (?s', _) |- calm _ _ _ _ ?s ?s'' =>
      transitivity s'; [eapply quiet_use; [|exact Hr]; solve [auto with quiet]|clear Hr]
  end.
Ltac calm := take_apart; repeat calm_step.

(** ** The laws of the world *)

Section Laws.
Context {St E : Type} `{SyncTokenStore St, PrecheckStore St, ScopeJson, FileHashes St, FileSizes St, RunLedger St, AuthDowncast E}.
Context (fuel : nat) (c : LoopConfig) (is_cancelled : St → bool) (utc_now : St → Z).
Context (changes_database : option str → St → St * result E ChangesDatabaseResponse).
Context (resolve_passes_for_scope : LoopLibrary → St → St * result E bool).
Context (run_cycle : list LibraryState → St → St * result E CycleResult).
Context (drain_pending_metadata_rewrites : St → St * Z).
Context (attempt_reauth wait_for_2fa reacquire_session : Call St E unit) (release_lock : St → St).
Context (idle : Z → St → St * bool) (session_lost : E) (partial_sync : Z → E).

(** The row of the scope in [scoped_db_sync_tokens]; the log of changes of the
    account, of which [head s] are there; the position a token stands for. *)
Context (row : St → option ScopedDbSyncToken) (change_at : nat → str) (head : St → nat) (pos : str → nat).
Context (covered : St → str → nat → Prop).

Abbreviation calm := (calm row head is_cancelled covered).
Abbreviation steady := (steady head is_cancelled covered).
Abbreviation quiet := (quiet row head is_cancelled covered).
Abbreviation quiet_call := (quiet_call row head is_cancelled covered).

(** The zones of the selected libraries, and of those that have passes
    throughout. *)
Context (zones served : list str).

(** What an answer lists: every zone with a change between the two positions. *)
Definition lists_changes (from : nat) (resp : ChangesDatabaseResponse) : Prop :=
  ∀ i, (from <= i < pos (cd_sync_token resp))%nat → change_at i ∈ (cd_zones resp).*1.

Record world_ok : Prop := {
  w_get_token s s' r : pk_get_scoped_db_sync_token (ps_provider (lc_scope c)) (ps_account (lc_scope c))
      (ps_shape_version (lc_scope c)) (ps_scope_hash (lc_scope c)) s = (s', r) →
    calm s s' ∧ ∀ stored, r = Ok stored → stored = row s;
  w_upsert token s s' r : pk_upsert_scoped_db_sync_token (to_state_row (lc_scope c) token) s = (s', r) →
    steady s s' ∧ (row s' = row s ∨ row s' = Some (to_state_row (lc_scope c) token));
  w_changes token s s' r : changes_database token s = (s', r) → calm s s' ∧ ∀ resp, r = Ok resp →
    (pos (cd_sync_token resp) <= head s')%nat ∧ ∀ t, token = Some t → lists_changes (pos t) resp;
  w_get_metadata k : quiet (st_get_metadata k);
  w_set_metadata k v : quiet (st_set_metadata k v);
  w_delete_metadata p : quiet (st_delete_metadata_by_prefix p);
  w_commit t : quiet (st_commit_checkpoint_transition t);
  w_capture_work libs rev : quiet (pk_has_metadata_capture_work libs rev);
  w_rewrites libs off lim : quiet (pk_get_pending_metadata_rewrites_page libs off lim);
  w_summary : quiet pk_summary_downloaded;
  w_page off lim : quiet (pk_get_downloaded_page off lim);
  w_mark_failed l i v e : quiet (pk_mark_failed l i v e);
  w_sha p : quiet (so_compute_sha256 p);
  w_len p : quiet (fs_metadata_len p);
  w_resolve lib : quiet (resolve_passes_for_scope lib);
  (** A served library has passes whenever its plan is made anew. *)
  w_served lib s s' active : resolve_passes_for_scope lib s = (s', Ok active) → zone_name lib ∈ served → active = true;
  w_drain : quiet drain_pending_metadata_rewrites;
  w_start_run t : quiet (rl_start_sync_run_at t);
  w_complete_run id st : quiet (rl_complete_sync_run id st);
  w_idle n : quiet (idle n);
  w_release s : calm s (release_lock s);
  w_reauth : quiet_call attempt_reauth;
  w_2fa : quiet_call wait_for_2fa;
  w_reacquire : quiet_call reacquire_session;
}.
(** What a cycle does for the libraries with passes when it reports that the
    token may advance. *)
Definition cycle_ok : Prop := ∀ libs s s' r, run_cycle libs s = (s', r) → calm s s' ∧
  ∀ res, r = Ok res → cr_session_expired res = false → cr_db_sync_token_advance_safe res = true → is_cancelled s' = false →
    Forall lib_ok libs → ∀ lib i, lib ∈ libs → has_active_passes lib = true → (i < head s)%nat → change_at i = zone_name lib →
    covered s' (zone_name lib) i.

Hypothesis Hw : world_ok.
Hypothesis Hserved : ∀ z, z ∈ served → z ∈ zones.
#[local] Hint Resolve w_get_metadata w_set_metadata w_capture_work w_rewrites w_summary w_page w_mark_failed w_sha w_len
  w_resolve w_drain w_start_run w_complete_run w_idle : quiet.

(** ** The parts that leave the token alone *)

Lemma size_matches_quiet p n e a b : quiet (size_matches_state p n e a b).
Proof. intros s s' r. unfold size_matches_state. intros Hr. calm. Qed.
#[local] Hint Resolve size_matches_quiet : quiet.

Lemma classify_quiet asset : quiet (classify_local_drift asset).
Proof. intros s s' r. unfold classify_local_drift. intros Hr. calm. Qed.
#[local] Hint Resolve classify_quiet : quiet.

Lemma probe_page_quiet page : ∀ o, quiet (probe_page page o).
Proof. induction page as [|a page IH]; intros o s s' r Hr; cbn [probe_page] in Hr; calm. Qed.
#[local] Hint Resolve probe_page_quiet : quiet.

Lemma probe_quiet : quiet run_bounded_local_drift_probe.
Proof. intros s s' r. unfold run_bounded_local_drift_probe, probe_start, probe_rows. intros Hr. calm. Qed.
#[local] Hint Resolve probe_quiet : quiet.

Lemma work_zones_quiet b libs : quiet (local_work_zones b libs).
Proof.
  induction libs as [|lib libs IH]; intros s s' r Hr; cbn [local_work_zones] in Hr; unfold read_or_true in *; calm.
Qed.
#[local] Hint Resolve work_zones_quiet : quiet.

Lemma include_work_quiet b libs p : quiet (include_pending_metadata_work b libs p).
Proof. intros s s' r. unfold include_pending_metadata_work. intros Hr. calm. Qed.
#[local] Hint Resolve include_work_quiet : quiet.

Lemma refresh_quiet cz libs : ∀ n, quiet (refresh_needed_library_plans resolve_passes_for_scope cz libs n).
Proof. induction libs as [|lib libs IH]; intros n s s' r Hr; cbn [refresh_needed_library_plans] in Hr; cbv zeta in Hr; calm. Qed.
#[local] Hint Resolve refresh_quiet : quiet.

Lemma scan_page_quiet page : ∀ n d, quiet (scan_page page n d).
Proof. induction page as [|a page IH]; intros n d s s' r Hr; cbn [scan_page] in Hr; cbv zeta in Hr; calm. Qed.
#[local] Hint Resolve scan_page_quiet : quiet.

Lemma scan_quiet n : ∀ off counts d, quiet_call (scan_from n off counts d).
Proof.
  induction n as [|n IH]; intros off counts d s s' r Hr; cbn [scan_from] in Hr; [done|].
  destruct (pk_get_downloaded_page off SCAN_PAGE_SIZE s) as [s1 [[|a page]|e]] eqn:Ep; [injection Hr as <- _; calm..| |injection Hr as <- _; calm].
  destruct (scan_page (a :: page) counts d s1) as [s2 [[n' d']|e]] eqn:Es; [|injection Hr as <- _; calm].
  transitivity s2; [calm|by eapply IH].
Qed.

Lemma record_run_quiet t r s : calm s (record_run t r s).
Proof.
  unfold record_run. destruct (rl_start_sync_run_at t s) as [s1 [id|e]] eqn:E1; [|calm].
  destruct (rl_complete_sync_run _ _ s1) as [s2 r2] eqn:E2. cbn [fst]. calm.
Qed.

(** ** The token is sound *)

(** Every change of a served zone before the position [n] is covered. *)
Definition covers (s : St) (n : nat) : Prop :=
  (n <= head s)%nat ∧ ∀ i, (i < n)%nat → change_at i ∈ served → covered s (change_at i) i.
Definition sound (s : St) : Prop := ∀ r, row s = Some r → covers s (pos (sd_token r)).
Definition of_libs (libs : list LoopLibrary) : Prop :=
  (λ lib : LoopLibrary, zone_name lib) <$> libs = zones ∧
  Forall (λ lib : LoopLibrary, lib_ok lib ∧ (zone_name lib ∈ served → has_active_passes lib = true)) libs.

Lemma covers_steady s s' n : steady s s' → covers s n → covers s' n.
Proof. intros [Hh _ Hv] [Hn Hc]. split; [lia|]. intros i Hi Hz. apply Hv; [lia|auto]. Qed.
Lemma sound_calm s s' : calm s s' → sound s → sound s'.
Proof. intros [Hst Hr] Hs r. rewrite Hr. intros Hrow. eapply covers_steady; eauto. Qed.
Lemma sound_store s token : sound s → covers s (pos token) →
  sound (store_scoped_db_sync_token (lc_scope c) token s) ∧ steady s (store_scoped_db_sync_token (lc_scope c) token s).
Proof.
  intros Hs Hc. unfold store_scoped_db_sync_token. destruct (pk_upsert_scoped_db_sync_token _ s) as [s' r'] eqn:E'.
  apply (w_upsert Hw) in E' as [Hst Hrow]. cbn [fst]. split; [|done]. intros r. destruct Hrow as [-> | ->]; [eauto using covers_steady|].
  intros [= <-]. by eapply covers_steady.
Qed.

(** What a cycle must still do before the token it was given may be stored. *)
Definition owed (s : St) (changed : option (gset str)) (token : str) : Prop :=
  (pos token <= head s)%nat ∧
  ∀ zs i, changed = Some zs → (i < pos token)%nat → change_at i ∈ served → change_at i ∉ zs → covered s (change_at i) i.
Definition promises (s : St) (p : WatchPrecheck) : Prop :=
  match p with Proceed changed (Some token) => owed s changed token | _ => True end.

Lemma owed_steady s s' zs token : steady s s' → owed s zs token → owed s' zs token.
Proof. intros [Hh _ Hv] [Hn Hc]. split; [lia|]. intros z i Hz Hi Hin Hno. apply Hv; [lia|eauto]. Qed.
Lemma promises_steady s s' p : steady s s' → promises s p → promises s' p.
Proof. intros Hst. destruct p as [|zs [token|]]; cbn; [done| |done]. by apply owed_steady. Qed.

(** The answer a skipped cycle rests on: it was asked with the token of the
    stored row of this very scope, it is complete, and lists no selected zone. *)
Definition answer_evidence (s s' : St) (resp : ChangesDatabaseResponse) : Prop :=
  ∃ r s1 s2,
    pk_get_scoped_db_sync_token (ps_provider (lc_scope c)) (ps_account (lc_scope c)) (ps_shape_version (lc_scope c))
      (ps_scope_hash (lc_scope c)) s = (s1, Ok (Some r)) ∧
    row s = Some r ∧ stored_scope_matches (lc_scope c) r = true ∧ is_blank (sd_token r) = false ∧
    changes_database (Some (sd_token r)) s1 = (s2, Ok resp) ∧ cd_more_coming resp = false ∧
    (∀ z, z ∈ zones → z ∉ (cd_zones resp).*1) ∧ steady s2 s'.

Definition writes : bool := negb (lc_dry_run c) && negb (lc_only_print_filenames c) && lc_has_db c.

(** The store was asked about a library and knew of no metadata work. *)
Definition no_work (s s' : St) (lib : LoopLibrary) : Prop :=
  (∃ s1 s2, calm s s1 ∧ pk_has_metadata_capture_work [zone_name lib] METADATA_CAPTURE_REVISION s1 = (s2, Ok false) ∧ calm s2 s') ∧
  (lc_writers_enabled c = true → ∃ s1 s2, calm s s1 ∧
     pk_get_pending_metadata_rewrites_page (Some [zone_name lib]) 0 1 s1 = (s2, Ok []) ∧ calm s2 s').

(** Then, when the run writes, the probe found no file to fetch again and the
    store no metadata work in any library. *)
Definition local_evidence (libs : list LoopLibrary) (s s' : St) : Prop :=
  ∃ s1 o, run_bounded_local_drift_probe s = (s1, o) ∧ dp_marked_failed o <= 0 ∧
    local_work_zones (lc_writers_enabled c) libs s1 = (s', ∅) ∧ Forall (no_work s1 s') libs.

Definition skip_evidence (libs : list LoopLibrary) (s s' : St) : Prop :=
  ∃ s1 resp, is_watch_mode c = true ∧ answer_evidence s s1 resp ∧
    (if writes then local_evidence libs s1 s' else s' = s1) ∧ covers s' (pos (cd_sync_token resp)).

Lemma changed_selected_spec libs resp z :
  of_libs libs → z ∈ changed_selected_zones libs resp ↔ z ∈ zones ∧ z ∈ (cd_zones resp).*1.
Proof.
  intros [Hz _]. unfold changed_selected_zones. rewrite elem_of_list_to_set, list_elem_of_In, List.filter_In, <- list_elem_of_In, bool_decide_eq_true.
  assert (Heq : zone_name <$> (ll_state <$> libs) = zones) by (rewrite <- Hz, <- list_fmap_compose; done).
  rewrite Heq. tauto.
Qed.

Lemma precheck_changes_ok libs s s' p token : of_libs libs → sound s → covers s (pos token) →
  precheck_changes changes_database libs (lc_scope c) token s = (s', p) →
  steady s s' ∧ sound s' ∧ promises s' p ∧ (p = SkipAll → ∃ resp s1, changes_database (Some token) s = (s1, Ok resp)
    ∧ cd_more_coming resp = false ∧ (∀ z, z ∈ zones → z ∉ (cd_zones resp).*1) ∧ steady s1 s' ∧ covers s' (pos (cd_sync_token resp))).
Proof.
  intros Hz Hs Hc. unfold precheck_changes. destruct (changes_database (Some token) s) as [s1 [resp|e]] eqn:E1.
  2: { apply (w_changes Hw) in E1 as [Hcalm _]. intros [= <- <-]. split_and!; [apply Hcalm|by eapply sound_calm|done|done]. }
  pose proof E1 as [Hcalm Hresp]%(w_changes Hw). destruct (Hresp _ eq_refl) as [Hpos Hlists]. specialize (Hlists _ eq_refl).
  assert (Hs1 := sound_calm _ _ Hcalm Hs). assert (Hc1 := covers_steady _ _ _ Hcalm Hc).
  assert (Howed : owed s1 (Some (changed_selected_zones libs resp)) (cd_sync_token resp)).
  { split; [done|]. intros zs i [= <-] Hi Hin Hno. destruct (decide (i < pos token)%nat) as [Hlt|Hge]; [by apply Hc1|].
    destruct Hno. rewrite changed_selected_spec by done. split; [by apply Hserved|]. apply Hlists. lia. }
  case_bool_decide as Hempty.
  - destruct (cd_more_coming resp) eqn:Emore.
    + intros [= <- <-]. split_and!; [apply Hcalm|done|by split|done].
    + assert (Hcov : covers s1 (pos (cd_sync_token resp))).
      { split; [done|]. intros i Hi Hin. eapply (proj2 Howed); [done|done|done|]. rewrite Hempty. apply not_elem_of_empty. }
      assert (Hnone : ∀ z, z ∈ zones → z ∉ (cd_zones resp).*1).
      { intros z Hin Hin'. assert (Habs : z ∈ changed_selected_zones libs resp) by (by apply changed_selected_spec).
        rewrite Hempty in Habs. by apply not_elem_of_empty in Habs. }
      assert (Hev : ∀ s2, steady s1 s2 → ∃ resp' s1', (s1, Ok (E := E) resp) = (s1', Ok resp') ∧ cd_more_coming resp' = false
        ∧ (∀ z, z ∈ zones → z ∉ (cd_zones resp').*1) ∧ steady s1' s2 ∧ covers s2 (pos (cd_sync_token resp'))).
      { intros s2 Hst. exists resp, s1. split_and!; [done|done|done|done|by eapply covers_steady]. }
      destruct (cd_zones resp); intros [= <- <-]; [split_and!; [apply Hcalm|done|done|by intros; apply Hev]|].
      destruct (sound_store s1 (cd_sync_token resp) Hs1 Hcov) as [Hs2 Hst].
      split_and!; [etrans; [apply Hcalm|done]|done|done|by intros; apply Hev].
  - intros [= <- <-]. split_and!; [apply Hcalm|done| |done].
    destruct (cd_more_coming resp); [by split|exact Howed].
Qed.

Lemma check_changes_ok libs s s' p : of_libs libs → sound s → libs ≠ [] →
  check_changes_database changes_database (lc_has_db c) libs (lc_scope c) s = (s', p) →
  steady s s' ∧ sound s' ∧ promises s' p
  ∧ (p = SkipAll → ∃ resp, answer_evidence s s' resp ∧ covers s' (pos (cd_sync_token resp))).
Proof.
  intros Hz Hs Hne. unfold check_changes_database. destruct (lc_has_db c); [|by intros [= <- <-]].
  destruct libs as [|lib libs]; [done|].
  destruct (pk_get_scoped_db_sync_token _ _ _ _ s) as [s1 [stored|e]] eqn:E1; pose proof E1 as [Hcalm Hrow]%(w_get_token Hw);
    assert (Hs1 := sound_calm _ _ Hcalm Hs); [|intros [= <- <-]; split_and!; [apply Hcalm|done..]].
  specialize (Hrow _ eq_refl) as ->.
  assert (Hboot : bootstrap_token changes_database s1 = (s', p) →
    steady s s' ∧ sound s' ∧ promises s' p
    ∧ (p = SkipAll → ∃ resp, answer_evidence s s' resp ∧ covers s' (pos (cd_sync_token resp)))).
  { unfold bootstrap_token. destruct (changes_database None s1) as [s2 [resp|e]] eqn:E2; apply (w_changes Hw) in E2 as [Hc2 Hresp];
      assert (Hst : steady s s2) by (etrans; [apply Hcalm|apply Hc2]); assert (Hs2 := sound_calm _ _ Hc2 Hs1);
      [|intros [= <- <-]; by split_and!].
    case_match; intros [= <- <-]; split_and!; try done. cbn. split; [by apply (Hresp _ eq_refl)|done]. }
  destruct (nonblank (sd_token <$> row s)) as [token|] eqn:En; [|exact Hboot].
  destruct (row s) as [r|] eqn:Er; [|done]. cbn in En.
  assert (token = sd_token r) as ->. { unfold nonblank in En. cbn in En. case_match; by simplify_eq. }
  destruct (stored_scope_matches (lc_scope c) r) eqn:Escope; [|intros [= <- <-]; split_and!; [apply Hcalm|done..]].
  intros Hp. edestruct (precheck_changes_ok (lib :: libs) s1 s' p) as (Hst & Hs' & Hpr & Hev);
    [done|done|eapply covers_steady; [apply Hcalm|by apply Hs]|exact Hp|].
  split_and!; [etrans; [apply Hcalm|done]|done|done|]. intros Heq. destruct (Hev Heq) as (resp & s2 & He & Hm & Hnone & Hst2 & Hcov).
  exists resp. split; [|done]. exists r, s1, s2. rewrite ?Er in E1. split_and!; try done.
  unfold nonblank in En. cbn in En. by destruct (is_blank (sd_token r)).
Qed.

Lemma promises_local s p work : promises s p → promises s (include_local_work_zones work p).
Proof.
  unfold include_local_work_zones. case_bool_decide; [done|]. destruct p as [|[zs|] [token|]]; try done.
  intros [Hn Hc]. split; [done|]. intros ? i [= <-] Hi Hin Hno. apply (Hc zs); [done..|]. intros ?. apply Hno. by apply elem_of_union_l.
Qed.

Lemma include_local_skip work p : include_local_work_zones work p = SkipAll → p = SkipAll.
Proof. unfold include_local_work_zones. case_bool_decide; [done|]. by destruct p as [|[] []]. Qed.

(** No zone has work to do: every answer of the store said so. *)
Lemma read_or_true_false {A} (f : A → bool) (x : St * result StateError A) s cp : read_or_true f x = (s, cp) →
  x.1 = s ∧ (cp = false → ∃ a, x = (s, Ok a) ∧ f a = false).
Proof. destruct x as [s1 [a|e]]; intros [= -> <-]; (split; [done|]); [by exists a|done]. Qed.

Lemma local_work_none libs : ∀ s0 s s', calm s0 s → local_work_zones (lc_writers_enabled c) libs s = (s', ∅) →
  Forall (no_work s0 s') libs.
Proof.
  induction libs as [|lib libs IH]; intros s0 s s' Hx0; cbn [local_work_zones]; [constructor|].
  destruct (read_or_true _ _) as [s1 cp] eqn:E1. apply read_or_true_false in E1 as [E1 Hcp].
  destruct (pk_has_metadata_capture_work _ _ s) as [s1' r1] eqn:Ec. cbn in E1. subst s1'.
  pose proof (w_capture_work Hw _ _ _ _ _ Ec) as Hx1.
  destruct (if lc_writers_enabled c then _ else _) as [s2 rw] eqn:E2.
  assert (calm s1 s2 ∧ (rw = false → lc_writers_enabled c = true → pk_get_pending_metadata_rewrites_page (Some [zone_name lib]) 0 1 s1 = (s2, Ok []))) as [Hx2 Hrw].
  { destruct (lc_writers_enabled c); [|by injection E2 as <- _]. apply read_or_true_false in E2 as [E2 Hrw].
    destruct (pk_get_pending_metadata_rewrites_page _ _ _ s1) as [s3 r3] eqn:E3. cbn in E2. subst s3.
    split; [exact (w_rewrites Hw _ _ _ _ _ _ E3)|]. intros (a & [= ->] & Ha)%Hrw _. by destruct a. }
  destruct (local_work_zones (lc_writers_enabled c) libs s2) as [s3 zs] eqn:E3.
  pose proof (quiet_use _ _ _ _ _ _ _ _ (work_zones_quiet _ _) E3) as Hx3. intros Hr.
  assert (s' = s3 ∧ zs = ∅ ∧ cp = false ∧ rw = false) as (-> & -> & -> & ->).
  { destruct cp, rw; cbn in Hr; injection Hr as <- Hz; split_and!; try done; set_solver. }
  constructor; [|eapply (IH s0 s2); [|exact E3]; etrans; [exact Hx0|]; by etrans].
  destruct (Hcp eq_refl) as (a & [= ->] & ->). split.
  - exists s, s1. split_and!; [done|done|by etrans].
  - intros Hwr. exists s1, s2. split_and!; [by etrans|by apply Hrw|done].
Qed.

Lemma watch_precheck_ok libs k s s' p : of_libs libs → libs ≠ [] → sound s →
  watch_precheck c changes_database libs k s = (s', p) →
  steady s s' ∧ sound s' ∧ promises s' p ∧ (p = SkipAll → skip_evidence libs s s').
Proof.
  intros Hz Hne Hs. unfold watch_precheck. fold writes.
  destruct (if is_watch_mode c then _ else _) as [s1 p1] eqn:E1.
  assert (Hok : steady s s1 ∧ sound s1 ∧ promises s1 p1
    ∧ (p1 = SkipAll → is_watch_mode c = true ∧ ∃ resp, answer_evidence s s1 resp ∧ covers s1 (pos (cd_sync_token resp)))).
  { destruct (is_watch_mode c); [|by injection E1 as <- <-].
    apply check_changes_ok in E1 as (Hx1 & Hx2 & Hx3 & Hx4); [|done..]. split_and!; [done..|]. intros Heq. split; [done|by apply Hx4]. }
  clear E1. destruct Hok as (Hst1 & Hs1 & Hpr1 & Hev1).
  destruct (if writes then _ else _) as [s2 p2] eqn:E2.
  assert (calm s1 s2 ∧ promises s2 p2 ∧ (p2 = SkipAll → p1 = SkipAll ∧ if writes then
    ∃ o, run_bounded_local_drift_probe s1 = (s2, o) ∧ dp_marked_failed o <= 0 else s2 = s1)) as (Hc2 & Hpr2 & Hev2).
  { destruct writes; [|by injection E2 as <- <-].
    destruct (run_bounded_local_drift_probe s1) as [s3 drift] eqn:E3. pose proof (quiet_use _ _ _ _ _ _ _ _ probe_quiet E3) as Hc3.
    destruct (Z.ltb_spec 0 (dp_marked_failed drift)); injection E2 as <- <-; [done|]. split_and!; [done|by eapply promises_steady; [apply Hc3|]|].
    intros Heq. split; [done|]. by exists drift. }
  assert (Hs2 := sound_calm _ _ Hc2 Hs1).
  destruct (is_watch_mode c && writes) eqn:Eboth.
  2: { intros [= <- <-]. split_and!; [etrans; [done|apply Hc2]|done|done|]. intros [Hp1 Hdrift]%Hev2.
       destruct (Hev1 Hp1) as (Hwatch & resp & Hans & Hcov). rewrite Hwatch in Eboth. cbn in Eboth.
       exists s1, resp. rewrite Eboth in *. subst s2. by split_and!. }
  unfold include_pending_metadata_work. destruct (local_work_zones _ libs s2) as [s3 work] eqn:E3.
  pose proof (quiet_use _ _ _ _ _ _ _ _ (work_zones_quiet _ _) E3) as Hc3. intros [= <- <-].
  split_and!; [etrans; [done|]; etrans; [apply Hc2|apply Hc3]|by eapply sound_calm| |].
  - apply promises_local. by eapply promises_steady; [apply Hc3|].
  - intros Heq. pose proof (include_local_skip _ _ Heq) as Hp2. destruct (Hev2 Hp2) as [Hp1 Hdrift].
    destruct (Hev1 Hp1) as (Hwatch & resp & Hans & Hcov). apply andb_true_iff in Eboth as [_ Hwr]. rewrite Hwr in Hdrift.
    destruct Hdrift as (o & Ho & Hmarked). assert (work = ∅) as ->.
    { unfold include_local_work_zones in Heq. rewrite Hp2 in Heq. by case_bool_decide. }
    exists s1, resp. rewrite Hwr. split_and!; [done|done| |].
    + exists s2, o. split_and!; [done|done|done|]. by apply (local_work_none _ s2 s2).
    + eapply covers_steady; [|done]. etrans; [apply Hc2|apply Hc3].
Qed.

Lemma refresh_of_libs cz libs : ∀ n s s' libs' n',
  refresh_needed_library_plans resolve_passes_for_scope cz libs n s = (s', (libs', n')) →
  Forall (λ lib : LoopLibrary, lib_ok lib ∧ (zone_name lib ∈ served → has_active_passes lib = true)) libs →
  (λ lib : LoopLibrary, zone_name lib) <$> libs' = (λ lib : LoopLibrary, zone_name lib) <$> libs ∧
  Forall (λ lib : LoopLibrary, lib_ok lib ∧ (zone_name lib ∈ served → has_active_passes lib = true)) libs'.
Proof.
  induction libs as [|lib libs IH]; intros n s s' libs' n'; cbn [refresh_needed_library_plans]; cbv zeta; [by intros [= <- <- <-]|].
  destruct (if _ || _ then _ else _) as [s1 [lib1 n1]] eqn:E1. destruct (refresh_needed_library_plans _ cz libs n1 s1) as [s2 [libs2 n2]] eqn:E2.
  intros [= <- <- <-] [Hlib Hlibs]%Forall_cons. destruct (IH _ _ _ _ _ E2 Hlibs) as [IH1 IH2]. rewrite !fmap_cons.
  enough (zone_name lib1 = zone_name lib ∧ lib_ok lib1 ∧ (zone_name lib1 ∈ served → has_active_passes lib1 = true)) as (Hz & Hok1).
  { split; [by rewrite Hz, IH1|by constructor]. }
  case_match; [injection E1 as _ <- _; split; [done|exact Hlib]|].
  destruct (resolve_passes_for_scope lib s) as [s3 [active|e]] eqn:E3; injection E1 as _ <- _; [|split; [done|exact Hlib]].
  split_and!; [done|apply Hlib|]. intros Hin. exact (w_served Hw _ _ _ _ E3 Hin).
Qed.

Hypothesis Hcycle : cycle_ok.

Lemma covers_after_cycle s s1 s' libs changed token res : of_libs libs → owed s changed token → steady s s1 →
  run_cycle (cycle_library_states (Proceed changed (Some token)) libs) s1 = (s', Ok res) →
  cr_session_expired res = false → cr_db_sync_token_advance_safe res = true → is_cancelled s' = false → covers s' (pos token).
Proof.
  intros Hz Ho Hst Hrun Hexp Hsafe Hcan. eapply owed_steady in Ho as [Hn Ho]; [|exact Hst].
  destruct Hz as [Hz Hlibs]. apply Hcycle in Hrun as [Hc Hcov].
  assert (Hfilter : Forall lib_ok (cycle_library_states (Proceed changed (Some token)) libs)).
  { apply Forall_forall. intros ls [Hls _]%list_elem_of_In%List.filter_In. apply list_elem_of_In, list_elem_of_fmap in Hls as (lib & -> & Hls).
    by eapply Forall_forall in Hlibs as [? _]. }
  specialize (Hcov _ eq_refl Hexp Hsafe Hcan Hfilter).
  split; [destruct Hc as [[]]; lia|]. intros i Hi Hin.
  assert (Hlib : ∃ lib, lib ∈ libs ∧ zone_name (ll_state lib) = change_at i).
  { pose proof (Hserved _ Hin) as Hin'. rewrite <- Hz in Hin'. apply list_elem_of_fmap in Hin' as (lib & Hl & Hin'). by exists lib. }
  destruct Hlib as (lib & Hlib & Hname).
  assert (Hran : should_sync_zone (Proceed changed (Some token)) (change_at i) = true → covered s' (change_at i) i).
  { intros Hsync. rewrite <- Hname. apply Hcov; [| |lia|done].
    2: { eapply Forall_forall in Hlibs as [_ Hact]; [|exact Hlib]. apply Hact. by rewrite Hname. }
    apply list_elem_of_In, List.filter_In. split.
    - apply list_elem_of_In, list_elem_of_fmap. by exists lib.
    - by rewrite Hname. }
  destruct changed as [zs|]; [|by apply Hran]. destruct (decide (change_at i ∈ zs)) as [Hi'|Hno].
  - apply Hran. cbn. by apply bool_decide_eq_true.
  - apply (steady_covered _ _ _ _ _ Hc); [lia|]. by eapply Ho.
Qed.

Lemma clean_merge (b : bool) r n was : clean_cycle (if b then merge_refresh_tail_outcome r n was else r) = true →
  cr_session_expired r = false ∧ cr_db_sync_token_advance_safe r = true.
Proof. unfold clean_cycle. destruct b; cbn; rewrite !andb_true_iff, negb_true_iff; tauto. Qed.

Lemma run_one_cycle_ok p libs s s' r : of_libs libs → sound s → promises s p →
  run_one_cycle c is_cancelled utc_now run_cycle drain_pending_metadata_rewrites p libs s = Some (s', r) →
  steady s s' ∧ (is_cancelled s' = false → sound s').
Proof.
  intros Hz Hs Hpr. unfold run_one_cycle. intros [(e & He & _)|(s0 & t0 & [-> ->]%get_Some & Hr)]%bind_inv; [done|].
  apply bind_inv in Hr as [(e & He & ->)|(s1 & res & E1%attempt_Some & Hr)].
  { unfold attempt in He. destruct (run_cycle _ s) as [s1 r1] eqn:E1. apply Hcycle in E1 as [Hc1 _].
    injection He as <- _. split; [apply Hc1|intros _; by eapply sound_calm]. }
  pose proof E1 as [Hc1 _]%Hcycle. assert (Hs1 := sound_calm _ _ Hc1 Hs).
  assert (Htail : quiet_call (if lc_refresh_metadata c && lc_has_db c then Call.run drain_pending_metadata_rewrites else mret 0 : Call St E Z)).
  { destruct (lc_refresh_metadata c && lc_has_db c); [apply quiet_run, (w_drain Hw)|apply calm_ret]. }
  apply bind_inv in Hr as [(e & He & ->)|(s2 & tail & E2 & Hr)].
  { apply Htail in He. split; [etrans; [apply Hc1|apply He]|intros _; by eapply sound_calm]. }
  apply Htail in E2 as Hc2. assert (Hs2 := sound_calm _ _ Hc2 Hs1).
  apply bind_inv in Hr as [(e & He & _)|(s2' & cancelled & [-> ->]%get_Some & Hr)]; [done|]. cbv zeta in Hr.
  set (res' := if lc_refresh_metadata c then _ else res) in Hr.
  assert (Hrec : quiet_call (when (lc_has_db c) (Call.run (λ s0, (record_run (utc_now s) res' s0, tt))) : Call St E unit)).
  { apply quiet_when, quiet_run. intros s3 s4 a [= <- _]. apply record_run_quiet. }
  apply bind_inv in Hr as [(e & He & ->)|(s3 & [] & E3 & Hr)].
  { apply Hrec in He. split; [etrans; [apply Hc1|]; etrans; [apply Hc2|apply He]|intros _; by eapply sound_calm]. }
  apply Hrec in E3 as Hc3.
  apply bind_inv in Hr as [(e & He & _)|(s4 & [] & E4 & Hr)]; [done|]. injection E4 as <-. injection Hr as <- _.
  assert (Hs3 := sound_calm _ _ Hc3 Hs2). assert (Hc13 : calm s1 s3) by (etrans; eassumption).
  assert (Hsame : steady s s3 ∧ (is_cancelled s3 = false → sound s3)).
  { split; [etrans; [apply Hc1|apply Hc13]|done]. }
  unfold store_token_after_cycle. destruct p as [|changed [token|]]; cbn [db_sync_token_after_success]; [done| |done].
  destruct (clean_cycle res' && lc_has_db c) eqn:Eclean; [|done].
  apply andb_true_iff in Eclean as [[Hexp Hsafe]%clean_merge _].
  destruct (is_cancelled s3) eqn:Ecan.
  - unfold store_scoped_db_sync_token. destruct (pk_upsert_scoped_db_sync_token _ s3) as [s4 r4] eqn:E4.
    apply (w_upsert Hw) in E4 as [Hst4 _]. cbn [fst]. split; [etrans; [apply Hsame|done]|].
    intros Hno. apply (steady_cancelled _ _ _ _ _ Hst4) in Ecan. congruence.
  - assert (Hcov : covers s1 (pos token)).
    { eapply covers_after_cycle; [done|exact Hpr|reflexivity|exact E1|done|done|].
      destruct (is_cancelled s1) eqn:Ec1; [|done]. apply (steady_cancelled _ _ _ _ _ Hc13) in Ec1. congruence. }
    destruct (sound_store s3 token Hs3) as [Hs4 Hst4]; [by eapply covers_steady; [apply Hc13|]|].
    split; [etrans; [apply Hsame|done]|done].
Qed.

(** *** What follows a cycle leaves the token alone *)

Ltac quiet_calls :=
  repeat first
    [ apply calm_ret | apply quiet_throw | apply quiet_get
    | apply (w_reauth Hw) | apply (w_2fa Hw) | apply (w_reacquire Hw)
    | apply quiet_catch | apply quiet_when | apply quiet_run; solve [auto with quiet]
    | apply calm_bind; [|intros ?] | match goal with |- quiet_call (match ?e with _ => _ end) => destruct e end ].

Lemma recover_quiet l :
  quiet_call (recover_session c attempt_reauth wait_for_2fa session_lost l).
Proof. unfold recover_session. cbv zeta. quiet_calls. Qed.

Lemma settle_quiet r l : quiet_call (settle_cycle c attempt_reauth wait_for_2fa session_lost partial_sync r l).
Proof. unfold settle_cycle. pose proof recover_quiet. quiet_calls; auto. Qed.

Lemma after_cycle_quiet next l : quiet_call (after_cycle fuel c is_cancelled reacquire_session release_lock idle next l).
Proof.
  unfold after_cycle, wait_for_next_cycle. quiet_calls.
  - intros s s' r. unfold run_periodic_reconcile, scan_local_drift. destruct (scan_from fuel _ _ _ s) as [[s1 x]|] eqn:Es; [|done].
    intros [= <- _]. by apply scan_quiet in Es.
  - apply quiet_run. intros s s' r [= <- _]. apply (w_release Hw).
Qed.

(** What a call answers, when it answers. *)
Definition returns {A} (P : A → Prop) (m : Call St E A) : Prop := ∀ s s' x, m s = Some (s', Ok x) → P x.
Lemma returns_ret {A} (P : A → Prop) a : P a → returns P (mret a).
Proof. by intros Ha s s' x [= _ <-]. Qed.
Lemma returns_throw {A} (P : A → Prop) e : returns P (throw e).
Proof. done. Qed.
Lemma returns_bind {A B} (Q : A → Prop) (P : B → Prop) (m : Call St E A) f :
  returns Q m → (∀ a, Q a → returns P (f a)) → returns P (m ≫= f).
Proof. intros Hm Hf s s' x (s1 & a & Ha & Hb)%bind_Some. by eapply Hf; [eapply Hm|]. Qed.
Lemma returns_any {A} (m : Call St E A) : returns (λ _, True) m.
Proof. done. Qed.
Ltac returning :=
  repeat first
    [ apply returns_throw | eapply returns_bind; [apply returns_any|intros ? _]
    | match goal with |- returns _ (match ?e with _ => _ end) => destruct e end | apply returns_ret; done ].

Lemma settle_libs r l :
  returns (λ x, lp_libraries x.1 = lp_libraries l) (settle_cycle c attempt_reauth wait_for_2fa session_lost partial_sync r l).
Proof.
  unfold settle_cycle, recover_session. cbv zeta. destruct (cr_session_expired r); [|returning].
  apply (returns_bind (λ x, lp_libraries x.1 = lp_libraries l)); [returning|]. intros x Hx. by apply returns_ret.
Qed.

Lemma after_cycle_libs next l : of_libs (lp_libraries l) →
  returns (λ x, of_libs (lp_libraries x.1)) (after_cycle fuel c is_cancelled reacquire_session release_lock idle next l).
Proof.
  intros Hz. unfold after_cycle, wait_for_next_cycle. returning. apply returns_ret. cbn.
  destruct Hz as [Hz Hlibs]. unfold of_libs, plans_stale. rewrite <- Hz, <- list_fmap_compose. split; [done|]. by apply Forall_fmap.
Qed.

(** *** Iterations *)

Abbreviation iterate := (iterate fuel c is_cancelled utc_now changes_database resolve_passes_for_scope run_cycle
  drain_pending_metadata_rewrites attempt_reauth wait_for_2fa reacquire_session release_lock idle session_lost partial_sync).
Abbreviation sync_loop := (sync_loop fuel c is_cancelled utc_now changes_database resolve_passes_for_scope run_cycle
  drain_pending_metadata_rewrites attempt_reauth wait_for_2fa reacquire_session release_lock idle session_lost partial_sync).

Definition live_sound (s : St) : Prop := is_cancelled s = false → sound s.

Lemma live_sound_calm s s' : calm s s' → live_sound s → live_sound s'.
Proof.
  intros Hc Hs Hcan. eapply sound_calm; [done|]. apply Hs. destruct (is_cancelled s) eqn:Es; [|done].
  apply (steady_cancelled _ _ _ _ _ Hc) in Es. congruence.
Qed.

Lemma iterate_ok l s s' r : of_libs (lp_libraries l) → zones ≠ [] → live_sound s → iterate l s = Some (s', r) →
  live_sound s' ∧ ∀ x, r = Ok x → of_libs (lp_libraries x.1).
Proof.
  intros Hz Hne Hs. unfold SyncLoop.iterate. intros [(e & He & _)|(s0 & b & [-> ->]%get_Some & Hr)]%bind_inv; [done|].
  destruct (is_cancelled s) eqn:Ecan; [injection Hr as <- <-; split; [by intros ?; congruence|by intros ? [= <-]]|].
  specialize (Hs Ecan). cbv zeta in Hr. set (l1 := set_cycle_index _ l) in Hr.
  assert (Hl1 : lp_libraries l1 = lp_libraries l) by done.
  apply bind_inv in Hr as [(e & He & _)|(s1 & p & E1%run_Some & Hr)].
  { unfold run in He. by destruct (watch_precheck _ _ _ _ s). }
  eapply watch_precheck_ok in E1 as (Hst1 & Hs1 & Hpr & _); [|exact Hz|intros Hnil; apply Hne; rewrite <- (proj1 Hz); unfold l1 in Hnil; cbn in Hnil; by rewrite Hnil|exact Hs].
  destruct p as [|changed token].
  { apply bind_inv in Hr as [(e & He & _)|(s2 & now & [-> ->]%get_Some & Hr)]; [done|].
    split; [eapply live_sound_calm; [by eapply after_cycle_quiet|by intros _]|].
    intros x ->. by eapply after_cycle_libs; [|exact Hr]. }
  apply bind_inv in Hr as [(e & He & _)|(s2 & [libs n] & E2%run_Some & Hr)].
  { unfold run in He. by destruct (refresh_needed_library_plans _ _ _ _ s1). }
  assert (Hz2 : of_libs libs).
  { destruct Hz as [Hz Hlibs]. destruct (refresh_of_libs _ _ _ _ _ _ _ E2 Hlibs) as [Hz2 Hlibs2]. split; [by rewrite Hz2|done]. }
  apply refresh_quiet in E2 as Hc2. cbv zeta in Hr. cbn [fst snd] in Hr. set (l2 := set_libraries libs n l1) in Hr.
  assert (Hl2 : of_libs (lp_libraries l2)) by done.
  assert (Hpr2 := promises_steady _ _ _ (calm_steady _ _ _ _ _ _ Hc2) Hpr).
  assert (Hs2 := sound_calm _ _ Hc2 Hs1).
  apply bind_inv in Hr as [(e & He & ->)|(s3 & res & E3 & Hr)].
  { eapply run_one_cycle_ok in He as [_ Hs3]; [by split|done..]. }
  eapply run_one_cycle_ok in E3 as [_ Hs3]; [|done..].
  apply bind_inv in Hr as [(e & He & _)|(s4 & now & [-> ->]%get_Some & Hr)]; [done|].
  cbv zeta in Hr. set (l3 := set_health _ l2) in Hr. assert (Hl3 : of_libs (lp_libraries l3)) by done.
  apply bind_inv in Hr as [(e & He & ->)|(s4 & [l4 flow] & E4 & Hr)].
  { apply settle_quiet in He. split; [by eapply live_sound_calm|done]. }
  apply settle_libs in E4 as Hl4. apply settle_quiet in E4. cbn in Hl4, Hr.
  assert (live_sound s4) by (by eapply live_sound_calm).
  destruct flow as [flow|]; [injection Hr as <- <-; split; [done|]; intros ? [= <-]; cbn; by rewrite Hl4|].
  split; [eapply live_sound_calm; [by eapply after_cycle_quiet|done]|]. intros x ->.
  eapply after_cycle_libs; [|exact Hr]. by rewrite Hl4.
Qed.

Lemma loop_sound n l s s' r :
  zones ≠ [] → of_libs (lp_libraries l) → live_sound s → sync_loop n l s = Some (s', r) → live_sound s'.
Proof.
  intros Hne. revert l s. induction n as [|n IH]; intros l s Hz Hs; cbn [SyncLoop.sync_loop]; [done|].
  intros [(e & He & ->)|(s1 & [l1 flow] & E1 & Hr)]%bind_inv; [by eapply iterate_ok in He as [He _]|].
  eapply iterate_ok in E1 as [Hs1 Hl1]; [|done..]. specialize (Hl1 _ eq_refl). cbn in Hl1, Hr. destruct flow; [by eapply IH|].
  case_match; injection Hr as <- _; done.
Qed.

(** C9: A watch cycle is skipped only on this evidence.  The process is in
    watch mode; the row stored for this very scope - the same account, libraries
    and configuration, recorded in the same words - has a token; the provider,
    asked with that token, gave a complete answer that lists no selected zone;
    and, unless the run writes nothing, the probe of the recorded files then
    marked none of them to be fetched again and the store, asked about each
    library, knew of no capture work and, where writers are enabled, of no
    rewrite.  Nothing was missed: if the token stood for changes that are
    covered, then every change before the position of the new answer is covered
    for the libraries that have passes. *)
Theorem skipped_cycle_missed_nothing libs k s s' :
  of_libs libs → libs ≠ [] → sound s → watch_precheck c changes_database libs k s = (s', SkipAll) →
  sound s' ∧ skip_evidence libs s s'.
Proof.
  intros Hz Hne Hs Hp. eapply watch_precheck_ok in Hp as (_ & Hs' & _ & Hev); [|done..]. by split; [|apply Hev].
Qed.
End Laws.

(** ** The loop around the sync cycle *)

Section RealCycle.
Context {St E : Type} `{TokenLaws St, AnchorJson, PrecheckStore St, ScopeJson, FileHashes St, FileSizes St, RunLedger St, AuthDowncast E}.
Context (fuel : nat) (c : LoopConfig) (is_cancelled : St → bool) (utc_now : St → Z) (state_error : StateError → E).
Context (changes_database : option str → St → St * result E ChangesDatabaseResponse).
Context (resolve_passes_for_scope : LoopLibrary → St → St * result E bool).
Context (download_photos_with_sync : SyncMode → LibraryState → St → St * result E SyncResult).
Context (reconcile_catalog_paths : LibraryState → St → St * result E (bool * SyncStats)).
Context (drain_pending_metadata_rewrites : St → St * Z).
Context (attempt_reauth wait_for_2fa reacquire_session : Call St E unit) (release_lock : St → St).
Context (idle : Z → St → St * bool) (session_lost : E) (partial_sync : Z → E).
Context (config : CycleConfig).

Context (row : St → option ScopedDbSyncToken) (change_at : nat → str) (head : St → nat) (pos : str → nat) (zpos : str → str → nat).
Context (covered : St → str → nat → Prop) (zones served : list str).

Abbreviation cycle := (Cycle.run_cycle state_error (lc_has_db c) is_cancelled utc_now download_photos_with_sync reconcile_catalog_paths config).
Abbreviation calm := (calm row head is_cancelled covered).
Abbreviation quiet := (quiet row head is_cancelled covered).

(** What the cycle rests on: the engine and the catalog reconciliation leave
    the database token and the zone tokens alone; a token a run proves is past
    what was in its zone when the run began; and [covered] is a record of the
    zone tokens: it holds what a stored zone token is past. *)
Record cycle_world : Prop := {
  cw_download m lib : quiet (download_photos_with_sync m lib);
  cw_reconcile lib : quiet (reconcile_catalog_paths lib);
  cw_engine : engine_ok download_photos_with_sync reconcile_catalog_paths;
  cw_reaches m lib s s' r t : download_photos_with_sync m lib s = (s', Ok r) → proves config lib r t →
    ∀ i, (i < head s)%nat → change_at i = zone_name lib → (i < zpos (zone_name lib) t)%nat;
  cw_covered s z t i : table s !! sync_token_key z = Some t → (i < zpos z t)%nat → covered s z i;
}.

Abbreviation world_ok := (world_ok c is_cancelled changes_database resolve_passes_for_scope drain_pending_metadata_rewrites
  attempt_reauth wait_for_2fa reacquire_session release_lock idle row change_at head pos covered served).
Hypothesis Hw : world_ok.
Hypothesis Hcw : cycle_world.

Lemma get_metadata_quiet k : quiet (st_get_metadata k).
Proof. apply (w_get_metadata _ _ _ _ _ _ _ _ _ _ _ _ _ _ _ _ Hw). Qed.
Lemma set_metadata_quiet k v : quiet (st_set_metadata k v).
Proof. apply (w_set_metadata _ _ _ _ _ _ _ _ _ _ _ _ _ _ _ _ Hw). Qed.
Lemma delete_metadata_quiet p : quiet (st_delete_metadata_by_prefix p).
Proof. apply (w_delete_metadata _ _ _ _ _ _ _ _ _ _ _ _ _ _ _ _ Hw). Qed.
Lemma commit_quiet t : quiet (st_commit_checkpoint_transition t).
Proof. apply (w_commit _ _ _ _ _ _ _ _ _ _ _ _ _ _ _ _ Hw). Qed.
Lemma download_quiet m lib : quiet (download_photos_with_sync m lib).
Proof. apply (cw_download Hcw). Qed.
Lemma catalog_quiet lib : quiet (reconcile_catalog_paths lib).
Proof. apply (cw_reconcile Hcw). Qed.
#[local] Hint Resolve get_metadata_quiet set_metadata_quiet delete_metadata_quiet commit_quiet download_quiet catalog_quiet : quiet.

Lemma check_enum_quiet h : quiet (check_and_persist_enum_config_hash h).
Proof. intros s s' r. unfold check_and_persist_enum_config_hash. cbv zeta. intros Hr. calm. Qed.
Lemma check_download_quiet h h' : quiet (check_download_config_hash_for_cycle h h').
Proof. intros s s' r. unfold check_download_config_hash_for_cycle. intros Hr. calm. Qed.
#[local] Hint Resolve check_enum_quiet check_download_quiet : quiet.
Lemma check_hashes_quiet b libs : quiet (check_hashes b config libs).
Proof. intros s s' r. unfold check_hashes. cbv zeta. intros Hr. calm. Qed.
Lemma pending_token_quiet b hs lib : quiet (pending_zone_token state_error b config hs lib).
Proof. intros s s' r. unfold pending_zone_token. intros Hr. calm. Qed.
Lemma mode_quiet b hs lib pending : quiet (sync_mode_decision b config hs lib pending).
Proof. intros s s' r. unfold sync_mode_decision, determine_sync_mode_decision. intros Hr. calm. Qed.
Lemma reconcile_quiet hs lib p : quiet (reconcile_paths reconcile_catalog_paths hs lib p).
Proof. intros s s' r. unfold reconcile_paths. intros Hr. calm. Qed.
Lemma bridge_quiet b hs lib res : quiet (bridge_from_prior state_error b download_photos_with_sync config hs lib res).
Proof. intros s s' r. unfold bridge_from_prior. intros Hr. calm. Qed.
Lemma anchor_quiet h z st : quiet (update_inventory_anchor_for_cycle utc_now h z st).
Proof. intros s s' r. unfold update_inventory_anchor_for_cycle. cbv zeta. intros Hr. calm. Qed.
Lemma apply_quiet b hs lib d p : quiet (apply_checkpoint_decision b config hs lib d p).
Proof. intros s s' r. unfold apply_checkpoint_decision. cbv zeta. intros Hr. calm. Qed.
#[local] Hint Resolve check_hashes_quiet pending_token_quiet mode_quiet reconcile_quiet bridge_quiet anchor_quiet apply_quiet : quiet.
Lemma library_quiet b hs stale lib p : quiet (sync_library state_error b is_cancelled utc_now download_photos_with_sync
  reconcile_catalog_paths config hs stale lib p).
Proof. intros s s' r. unfold sync_library. cbv zeta. intros Hr. calm. Qed.
#[local] Hint Resolve library_quiet : quiet.
Lemma libraries_quiet b hs stale libs : ∀ p, quiet (sync_libraries state_error b is_cancelled utc_now download_photos_with_sync
  reconcile_catalog_paths config hs stale libs p).
Proof. induction libs as [|lib libs IH]; intros p s s' r Hr; cbn [sync_libraries] in Hr; calm. Qed.
Lemma candidates_quiet h libs : quiet (collect_candidates state_error h libs).
Proof. induction libs as [|lib libs IH]; intros s s' r Hr; cbn [collect_candidates] in Hr; cbv zeta in Hr; calm. Qed.
#[local] Hint Resolve libraries_quiet candidates_quiet : quiet.
Lemma promote_quiet libs : quiet (promote_reconciliation state_error config libs).
Proof. intros s s' r. unfold promote_reconciliation. intros Hr. calm. Qed.
#[local] Hint Resolve promote_quiet : quiet.
Lemma cycle_quiet libs : quiet (cycle libs).
Proof. intros s s' r. unfold Cycle.run_cycle. cbv zeta. intros Hr. calm. Qed.

Lemma quiet_later {A} (op : St → St * A) s s' a : quiet op → op s = (s', a) → later is_cancelled head s s'.
Proof. intros Hop E1. apply Hop in E1 as [[Hh Hc _] _]. by split. Qed.

Lemma cycle_timed : timed is_cancelled download_photos_with_sync reconcile_catalog_paths config head change_at zpos.
Proof.
  split; try (by (intros; eapply quiet_later; [|eassumption]; auto with quiet)).
  - intros m lib s s' r E1. split; [by eapply (download_table _ _ (cw_engine Hcw))|eapply quiet_later; [|exact E1]; auto with quiet].
  - intros lib s s' r E1. split; [by eapply (reconcile_table _ _ (cw_engine Hcw))|eapply quiet_later; [|exact E1]; auto with quiet].
  - intros m lib s s' r t E1 Hp i Hi Hz. by eapply (cw_reaches Hcw).
Qed.

Hypothesis Hcolon : no_colon (enum_config_hash config).

(** The sync cycle keeps what the loop relies on. *)
Lemma real_cycle_ok : cycle_ok is_cancelled cycle row change_at head covered.
Proof.
  intros libs s s' r Hrun. split; [by eapply cycle_quiet|]. intros res -> Hexp Hsafe Hcan Hlibs lib i Hin Hact Hi Hz.
  destruct (clean_cycle_reaches _ _ _ _ _ _ _ _ _ _ cycle_timed Hcolon _ _ _ _ Hlibs Hrun Hsafe Hexp Hcan lib Hin Hact) as (t & Ht & Hr).
  eapply (cw_covered Hcw); [exact Ht|]. by apply Hr.
Qed.

Abbreviation sync_loop := (sync_loop fuel c is_cancelled utc_now changes_database resolve_passes_for_scope cycle
  drain_pending_metadata_rewrites attempt_reauth wait_for_2fa reacquire_session release_lock idle session_lost partial_sync).

(** C7: As long as the process is not being shut down, the database token it
    keeps is sound for the libraries that have passes throughout: however the
    calls of the provider, the store and the authentication fail, and whatever
    the engine answers, every change of such a library before the position of
    the token has been taken, that is, the stored zone token of the library was
    past it at some time ([covered]: any record of the zone tokens that is never
    forgotten).  The loop runs the real sync cycle.  Assumed: a token that an
    engine run proves is past what was in its zone when the run began, the
    answer of [changes/database] lists every zone that changed between two
    positions, and the other calls leave the tokens alone.  A library without
    passes is left out: the cycle skips it, and the token advances past its
    changes. *)
Theorem stored_db_token_sound n l s s' r :
  (∀ z, z ∈ served → z ∈ zones) → zones ≠ [] → of_libs zones served (lp_libraries l) →
  live_sound is_cancelled row change_at head pos covered served s → sync_loop n l s = Some (s', r) →
  live_sound is_cancelled row change_at head pos covered served s'.
Proof.
  intros Hsub Hne Hz Hs Hrun. eapply loop_sound; [exact Hw|exact Hsub|exact real_cycle_ok|exact Hne|exact Hz|exact Hs|exact Hrun].
Qed.
End RealCycle.

(** ** What a shutdown does to the report of a cycle

    A cycle that finds the process being shut down before its first library
    runs nothing and reports that the database token may advance. *)
Section CutShort.
Context {St AnyError : Type} `{SyncTokenStore St, AnchorJson} (state_error : StateError → AnyError).
Context (has_db : bool) (is_cancelled : St → bool) (utc_now : St → Z).
Context (download_photos_with_sync : SyncMode → LibraryState → St → St * result AnyError SyncResult).
Context (reconcile_catalog_paths : LibraryState → St → St * result AnyError (bool * SyncStats)).

Theorem cut_short_cycle_looks_clean config libs s s1 hs :
  dry_run config = false → existsb plan_is_stale libs = false →
  check_hashes has_db config libs s = (s1, hs) → hs_checkpoint_transition_state_safe hs = true → is_cancelled s1 = true →
  ∃ r, Cycle.run_cycle state_error has_db is_cancelled utc_now download_photos_with_sync reconcile_catalog_paths config libs s
         = (s1, Ok r) ∧ clean_cycle r = true.
Proof.
  intros Hdry Hstale Hh Hsafe Hc. unfold Cycle.run_cycle. rewrite Hh, Hdry, Hstale, Hsafe.
  assert (Hlibs : ∀ p, sync_libraries state_error has_db is_cancelled utc_now download_photos_with_sync reconcile_catalog_paths
    config hs false (List.filter has_active_passes libs) p s1 = (s1, Ok p)).
  { intros p. destruct (List.filter has_active_passes libs); cbn [sync_libraries]; [done|]. by rewrite Hc. }
  rewrite Hlibs. cbn. rewrite Hc. cbn. rewrite ?andb_false_r. cbn.
  destruct (hs_force_full_for_config_hash hs); cbn; rewrite ?andb_false_r; destruct (hs_pending_download_config_hash hs); cbn -[lit]; rewrite ?Hc; cbn; eexists; split; reflexivity.
Qed.
End CutShort.

(** ** A run

    One library; every answer of the provider stands behind what is there, a
    change arrives during each wait, and the second wait ends the process. *)
Module LoopRuns.
(** [w_log]: the zone tokens that were stored at some time. *)
Record W := { w_table : gmap str str; w_log : list (str * str); w_row : option ScopedDbSyncToken; w_head : nat; w_waits : nat }.
Inductive Err := Lost | Partial.

Definition pos (t : str) : nat := length t.
Definition zpos (z t : str) : nat := length t.
Definition token_at (n : nat) : str := repeat 97 n.
Definition zone : str := lit "A".
Definition set_row (r : ScopedDbSyncToken) (w : W) : W :=
  {| w_table := w_table w; w_log := w_log w; w_row := Some r; w_head := w_head w; w_waits := w_waits w |}.
Definition write (m : gmap str str) (w : W) : W :=
  {| w_table := m; w_log := map_to_list (w_table w) ++ w_log w; w_row := w_row w; w_head := w_head w; w_waits := w_waits w |}.

#[export] Instance w_tokens : SyncTokenStore W := {
  st_get_metadata k w := (w, Ok (w_table w !! k));
  st_set_metadata k v w := (write (<[k := v]> (w_table w)) w, Ok tt);
  st_delete_metadata_by_prefix p w := (write (Sql.delete_where (λ k _, Sql.like (p ++ lit "%") k) (w_table w)) w, Ok 0);
  st_commit_checkpoint_transition t w := (write (commit_table t (w_table w)) w, Ok tt) }.
#[export] Instance w_laws : TokenLaws W.
Proof.
  refine {| table := w_table |}.
  - intros k s s' r [= <- <-]. split; [reflexivity|]. by intros v [= <-].
  - by intros k v s s' r [= <- <-].
  - by intros p s s' r [= <- <-].
  - by intros t s s' r [= <- <-].
Defined.
#[export] Instance w_precheck : PrecheckStore W := {
  pk_get_scoped_db_sync_token _ _ _ _ w := (w, Ok (w_row w));
  pk_upsert_scoped_db_sync_token r w := (set_row r w, Ok tt);
  pk_has_metadata_capture_work _ _ w := (w, Ok false);
  pk_get_pending_metadata_rewrites_page _ _ _ w := (w, Ok []);
  pk_summary_downloaded w := (w, Ok 0); pk_get_downloaded_page _ _ w := (w, Ok []);
  pk_mark_failed _ _ _ _ w := (w, Ok tt) }.
#[export] Instance w_json : ScopeJson := { is_json _ := true; is_json_strings _ := true }.
#[export] Instance w_hashes : FileHashes W := { so_compute_sha256 _ w := (w, Ok []) }.
#[export] Instance w_sizes : FileSizes W := { fs_metadata_len _ w := (w, Ok 0) }.
#[export] Instance w_ledger : RunLedger W := { rl_start_sync_run_at _ w := (w, Ok 1); rl_complete_sync_run _ _ w := (w, Ok tt) }.
#[export] Instance w_errors : AuthDowncast Err := { as_auth_error _ := None; as_icloud_error _ := None }.
#[export] Instance no_anchor : AnchorJson := { anchor_from_str _ := None; anchor_to_string _ := None }.

Definition changes (t : option str) (w : W) : W * result Err ChangesDatabaseResponse :=
  (w, Ok {| cd_sync_token := token_at (w_head w); cd_more_coming := false;
            cd_zones := match t with
                        | Some t => if (pos t <? w_head w)%nat then [(zone, lit "z")] else []
                        | None => []
                        end |}).
Definition engine (m : SyncMode) (lib : LibraryState) (w : W) : W * result Err SyncResult :=
  (w, Ok {| outcome := Success; sync_token := Some (token_at (w_head w)); stats := SyncStats_default;
            full_enumeration_ran := match m with Full => true | Incremental _ => false end |}).
Definition no_reconcile (lib : LibraryState) (w : W) : W * result Err (bool * SyncStats) := (w, Ok (true, SyncStats_default)).
Definition idle (n : Z) (w : W) : W * bool :=
  ({| w_table := w_table w; w_log := w_log w; w_row := w_row w; w_head := S (w_head w); w_waits := S (w_waits w) |},
   bool_decide (w_waits w = 1%nat)).

Definition scope : DbPrecheckScope := {| ps_provider := lit "icloud"; ps_account := lit "a"; ps_shape_version := 1;
  ps_scope_hash := lit "h"; ps_selected_zones_json := lit "[A]"; ps_scope_json := lit "{}" |}.
Definition config : LoopConfig := {| lc_watch_interval := Some 60; lc_has_db := true; lc_dry_run := false;
  lc_only_print_filenames := false; lc_refresh_metadata := false; lc_writers_enabled := true;
  lc_reconcile_every_n_cycles := None; lc_scope := scope |}.
Definition cycle_config : CycleConfig :=
  {| dry_run := false; refresh_metadata := false; run_mode := Download; enum_config_hash := lit "h";
     download_config_hash := lit "paths"; legacy_download_config_hash := lit "legacy" |}.
Definition libs : list LoopLibrary := [{|
  ll_state := {| zone_name := zone; ls_sync_token_key := sync_token_key zone; has_active_passes := true; plan_is_stale := false |};
  ll_plan_needs_refresh := false |}].
Definition start : W := {| w_table := ∅; w_log := []; w_row := None; w_head := 4; w_waits := 0 |}.
Definition skip_call : Call W Err unit := mret tt.
Definition covered (w : W) (z : str) (i : nat) : Prop :=
  ∃ t, ((sync_token_key z, t) ∈ w_log w ∨ w_table w !! sync_token_key z = Some t) ∧ (i < zpos z t)%nat.

Lemma write_calm m w : calm w_row w_head (λ _, false) covered w (write m w).
Proof.
  split; [split; [done|done|]|done]. intros z i _ (t & Ht & Hi). exists t. split; [|done]. left. cbn.
  apply elem_of_app. destruct Ht as [Ht|Ht]; [by right|left]. by apply elem_of_map_to_list.
Qed.
#[local] Hint Resolve write_calm : core.

Lemma in_world : world_ok config (λ _, false) changes (λ lib w, (w, Ok true)) (λ w, (w, 0)) skip_call skip_call skip_call
  id idle w_row (λ _, zone) w_head pos covered [zone].
Proof.
  split; try (by (intros; intros s s' r [= <- _])); try by (intros; simplify_eq/=).
  - intros s s' r [= <- <-]. split; [done|]. by intros ? [= <-].
  - intros t s s' r [= <- <-]. split; [done|by right].
  - intros t s s' r [= <- <-]. split; [done|]. intros resp [= <-]. cbn [cd_sync_token]. unfold pos at 1, token_at at 1.
    rewrite repeat_length. split; [done|]. intros t' -> i Hi. cbn [cd_sync_token cd_zones] in *. unfold pos at 2, token_at in Hi.
    rewrite repeat_length in Hi. rewrite (proj2 (Nat.ltb_lt (pos t') (w_head s))) by lia. left.
  - intros n s s' r [= <- _]. split; [split; [cbn; lia|done|done]|done].
Qed.

Lemma in_cycle_world : cycle_world (λ _, false) engine no_reconcile cycle_config w_row (λ _, zone) w_head zpos covered.
Proof.
  split.
  - by intros m lib s s' r [= <- _].
  - by intros lib s s' r [= <- _].
  - split; [by intros m lib s s' r [= <- _]|by intros lib s s' r [= <- _]].
  - intros m lib s s' r t [= _ <-] (b & b' & Hd) i Hi _. unfold source_checkpoint_decision in Hd.
    assert (t = token_at (w_head s)) as -> by (repeat case_match; simplify_eq/=; done). unfold zpos, token_at. by rewrite repeat_length.
  - intros s z t i Ht Hi. exists t. by split; [right|].
Qed.

Lemma cycle_config_no_colon : no_colon (enum_config_hash cycle_config).
Proof. apply (bool_decide_unpack _). vm_compute. exact I. Qed.
Lemma of_libs_libs : of_libs [zone] [zone] libs.
Proof. split; [reflexivity|]. repeat constructor. Qed.

Definition real_cycle := Cycle.run_cycle (λ _, Lost) true (λ _, false) (λ _, 0) engine no_reconcile cycle_config.
Definition process (n : nat) : option (W * result Err unit) :=
  sync_loop 0 config (λ _, false) (λ _, 0) changes (λ lib w, (w, Ok true)) real_cycle (λ w, (w, 0)) skip_call skip_call skip_call
    id idle Lost (λ _, Partial) n (LoopState_new libs) start.

(** After the second cycle the process is stopped; its token stands behind the
    five changes there were then. *)
Lemma stored_db_token_sound_witness :
  ∃ w, process 3 = Some (w, Ok tt) ∧ (sd_token <$> w_row w) = Some (token_at 5)
    ∧ live_sound (λ _, false) w_row (λ _, zone) w_head pos covered [zone] w.
Proof.
  assert (Hrun : match process 3 with Some (w, Ok tt) => bool_decide ((sd_token <$> w_row w) = Some (token_at 5)) | _ => false end = true)
    by (vm_compute; reflexivity).
  destruct (process 3) as [[w [[]|]]|] eqn:Hp; [|discriminate Hrun..].
  exists w. split; [reflexivity|]. split; [exact (bool_decide_eq_true_1 _ Hrun)|].
  refine (stored_db_token_sound 0 config (λ _, false) (λ _, 0) (λ _, Lost) changes (λ lib w, (w, Ok true)) engine no_reconcile (λ w, (w, 0)) skip_call
    skip_call skip_call id idle Lost (λ _, Partial) cycle_config w_row (λ _, zone) w_head pos zpos covered [zone] [zone] in_world in_cycle_world
    cycle_config_no_colon 3 (LoopState_new libs) start w (Ok tt) (λ z Hz, Hz) _ of_libs_libs _ Hp); [discriminate|by intros _ r].
Defined.

Definition settled : W :=
  {| w_table := {[sync_token_key zone := token_at 4]}; w_log := []; w_row := Some (to_state_row scope (token_at 4)); w_head := 4; w_waits := 0 |}.
Lemma settled_sound : sound w_row (λ _, zone) w_head pos covered [zone] settled.
Proof.
  intros r [= <-]. split; [cbn; lia|]. intros i Hi _. exists (token_at 4). split; [right; apply lookup_singleton_eq|exact Hi].
Qed.

Lemma skipped_cycle_missed_nothing_witness :
  watch_precheck config changes libs 1 settled = (settled, SkipAll)
  ∧ sound w_row (λ _, zone) w_head pos covered [zone] settled.
Proof.
  assert (Hp : watch_precheck config changes libs 1 settled = (settled, SkipAll)) by (vm_compute; reflexivity).
  split; [exact Hp|].
  refine (proj1 (skipped_cycle_missed_nothing config (λ _, false) (λ _, 0) changes (λ lib w, (w, Ok true)) (λ w, (w, 0)) skip_call
    skip_call skip_call id idle (λ _, Partial) w_row (λ _, zone) w_head pos covered [zone] [zone] in_world (λ z Hz, Hz) libs 1 settled settled
    of_libs_libs _ settled_sound Hp)). discriminate.
Defined.
End LoopRuns.
